(* ===== verification/_CoqProject ===== *)
-Q . S2P
Prelude.v
RustStr.v
Order.v
Json.v
Search.v
PortablePath.v
NodeTypes.v
VariablePool.v
VariableTemplate.v
Condition.v
StructuredOutput.v
GraphBase.v
Aggregator.v
Retry.v
Iteration.v
NodeConfig.v
Graph.v
Projection.v
Declarations.v
GraphParse.v
RunPayload.v
IterationRuntime.v
NodeRuntime.v
Resume.v
Executable.v
Store.v
StorePayload.v
StoreNodes.v
StoreRun.v
StoreLaws.v
StoreOps.v
StoreCalls.v
StoreSteps.v
LoopRound.v
JsonCodec.v
LoopGraph.v
Document.v
Engine.v
CompositeScheduler.v
Scheduler.v
EngineEffects.v
EngineHistory.v
EngineProgress.v
EngineCancel.v
SnapshotSwitch.v
EffectStatus.v
EffectOperation.v
EffectPorts.v
SkillPlanner.v
SkillPlannerLaws.v
EffectReconcile.v
EffectReconcileLaws.v
EffectLaws.v
ScheduledTask.v
ScheduledRun.v
ScheduledStore.v
ScheduledLaws.v
ScheduledHandlers.v
ScheduledDefinitions.v
ScheduledRuntime.v
ScheduledExecution.v
ScheduledTimers.v
TaskScheduler.v
ScheduledArtifacts.v
KeyedLocks.v
Gitlancer.v
GitCleanup.v
GitWorker.v
GitCleaner.v
SessionHistory.v
SessionRecording.v
SessionFiles.v
SessionHandoff.v
Surface.v
SurfaceLaws.v
SurfaceDirectory.v
SurfaceSites.v
PromptLiveness.v
PluginRegistry.v
ProcessHost.v
