(* ===== verification/Prelude.v ===== *)
(** * Ora: a verification development

    Ora desktop is a Rust workspace.  This library models seven of its subsystems and proves what
    makes them correct: the workflow run engine with the repository it writes through, the Effect
    system with the Skill planner, scheduled tasks with the background scheduler, the Git
    runtime with the cleanup of Git resources, the recorded histories of agent sessions and their
    supervision, plugins (the surfaces they show in webviews and the registry that lists them), and
    the durable state of the process host.
    Names of definitions are those of the code where Rocq allows it; every file names the source
    file it models.

    ** The parts of the program and how they interact

    A workflow document (JSON) is parsed into a graph.  A run freezes the graph; its rows live in
    SQLite.  The engine is stateless: a command reads the rows, recomputes the scheduling state of
    every node from the frozen graph (branch projection), decides, and writes through repository
    transactions; nodes with external work are dispatched to an executor that answers later with
    a completion or a failure.  The Effect system makes external directories agree with a desired
    state: a reconcile plans from what it observes, journals every intended mutation, lets the
    consumers quiesce, applies and verifies one operation at a time and finalizes atomically;
    recovery closes journals left by a crash.  A scheduled task is a versioned definition; a timer
    per definition fires occurrences, each occurrence is resolved once into a run or a recorded
    miss, an admitted run gets a worktree, drives an agent session and settles, its declared
    artifacts are collected and old worktrees are discarded.  Worktrees are provisioned under a
    write-ahead lease; deleting a task, or a lease that expires, leaves a durable cleanup job, which
    a worker retries until it can confirm that worktree and branch are gone.  What an agent session
    streams is assembled into records with a position and appended to a file, which is read back for
    replay, for resuming, and to hand the conversation to another agent.  A plugin surface is an
    instance in a registry; a pure state machine decides what to do, a host loop executes the effects
    against webviews and reports completions back, possibly while other calls arrive.  The process
    host supervises external processes through guardians, one per scope; it journals what it is
    responsible for before it acts, and a later host takes the journal over.

    ** The files

    Shared: this file (results, early returns, list lemmas, tactics), RustStr ([str]), Order
    ([Ord], BTree iteration), Json ([serde_json::Value]), JsonCodec (one concrete text form, for
    examples), Search (the two worklist loops).

    Workflow documents, under src/crates/application/src/workflow_run/engine/: VariablePool
    (variable_value.rs, variable_pool.rs), VariableTemplate, Condition, StructuredOutput, Aggregator,
    Retry (with failure.rs), NodeConfig (start_input.rs, agent_config.rs, loop_config.rs), Iteration;
    GraphBase (with the interface of [petgraph]), Graph and GraphParse (graph.rs), Declarations (the
    second half of variable_pool.rs), LoopGraph (loop_graph.rs, loop_bindings.rs), Document
    (execution_document.rs, unused_references.rs), Executable (the checks of [start]); PortablePath is
    portable.rs and strict.rs of src/crates/utils/src/path/.

    Scheduling decisions: Projection (branch_projection.rs), NodeRuntime and IterationRuntime
    (node_runtime.rs and its modules), LoopRound (loop_round.rs), Resume (region.rs),
    SnapshotSwitch (snapshot_switch.rs).

    The run store, src/crates/db/src/repository/workflow_run_engine.rs and its modules: RunPayload
    (payload.rs, the payload parts of iteration.rs and resume.rs), Store (tables, constraints and
    transactions), StorePayload (payload_json.rs), StoreNodes, StoreRun (the transactions on nodes, retries,
    rounds and runs).  A transaction is a state and error monad that rolls back; one run's rows
    are the state.  StoreLaws, StoreOps, StoreCalls and StoreSteps prove its laws.

    The engine, engine.rs and engine/: Engine (state, ports, log), CompositeScheduler
    (Loops included), Scheduler (the commands and the scheduling loop).  EngineEffects,
    EngineHistory, EngineProgress and EngineCancel prove their properties over arbitrary histories
    of commands.

    The Effect system, src/crates/effect/src/: EffectStatus (identity.rs,
    status.rs), EffectOperation (operation.rs), EffectPorts (desired.rs, target.rs,
    projection.rs, planner.rs, and ports.rs: a class of operations on an arbitrary
    world, and programs that record their calls), EffectReconcile (reconcile.rs, recovery.rs);
    SkillPlanner is src/crates/effect-skill/src/planner.rs.  EffectReconcileLaws, SkillPlannerLaws and
    EffectLaws hold the proofs.

    Scheduled tasks: ScheduledTask and ScheduledRun are the definitions, the calendar and the state
    machine of a run (src/crates/domain/src/scheduled_task.rs, scheduled_run.rs); ScheduledStore is
    the repository (src/crates/db/src/repository/scheduled_*.rs), with its laws in ScheduledLaws;
    ScheduledHandlers is src/crates/application/src/scheduled_task/, with ScheduledDefinitions;
    ScheduledRuntime is src/crates/backend/src/scheduled_task*.rs (the runtime, the executor, the
    worktree janitor), with ScheduledExecution and ScheduledTimers; ScheduledArtifacts collects the
    artifacts of a run.  TaskScheduler is src/crates/scheduler/src/, as a step relation.

    Git: Gitlancer is src/crates/gitlancer/src/ (commands, parsers, operations over a runner);
    GitCleanup holds cleanup jobs and provisioning leases (domain, reduction of outcomes, tables);
    GitCleaner is git_resource_cleaner.rs and worktree_provisioner.rs of
    src/crates/application/src/task/; GitWorker is the worker, src/crates/backend/src/git_cleanup.rs;
    KeyedLocks is its keyed_locks.rs, as a step relation.

    Session histories: SessionHistory is src/crates/history/src/ (assembler.rs, writer.rs, reader.rs,
    handoff.rs) and history.rs and replay.rs of src/crates/agent-runtime/src/; SessionRecording tells
    what a conversation is, from the calls alone, and that the assembler follows it, SessionFiles
    follows it through the file and back, SessionHandoff is about the rendered transcript.  PromptLiveness is prompt_liveness.rs,
    restart_circuit.rs and tool_timing.rs of src/crates/agent-runtime/src/.

    Plugin surfaces: Surface is src/crates/surface/src/, webview.rs of src/crates/plugin-manifest/src/
    and the effect loop of src/apps/desktop/src-tauri/src/surface/effects.rs; SurfaceLaws is about the
    webviews of the host, SurfaceDirectory about the registry, SurfaceSites about navigation and
    downloads of sites.  PluginRegistry is src/crates/plugin-registry/src/: the index of a
    marketplace and the lookup an installation starts from.

    Process host: ProcessHost is host_state.rs and host_state/ of src/crates/process-runtime/src/, with
    the records of src/crates/process-protocol/src/ it keeps: the journal, the operations on it, the
    launch of a guardian and the takeover, and histories in which any step may fail or be the last.

    ** What the theorems show

    - Documents: what a successful parse guarantees (acyclicity, closed regions, references that
      resolve, one entry per scope) and that the projection on the reachable part keeps all of it.
    - Projection: it is the least solution of the declarative rules; ready nodes have every
      predecessor decided; a drained graph leaves nothing behind.
    - Store: after any history of transactions the schema constraints hold, terminal outcomes are
      final, and the whole repository refines a small machine of node slots.
    - Engine: every history of engine commands refines the same machine, nothing is dispatched
      twice, a cancelled run stays stopped, the scheduling loop ends and rests only when nothing
      can start.
    - Pure parts: variable values stay within their declared types, validators agree with a
      declarative meaning, retries are bounded, rounds are isolated, resume clears whole units.
    - Effect system: watermarks are monotone, journals only move forward, nothing is applied
      before its journal or finalized without its evidence whatever the world answers, recovery
      closes by proof only; a plan touches only what the ledger owns, reaches its projection, and
      planning again changes nothing.
    - Scheduled tasks: an occurrence is settled once and capacity is never exceeded over any
      history; an admitted run reaches a terminal status whatever the session does; an enabled
      definition can run and has consent; timers mirror the stored definitions; a delayed job is
      either cancelled or run, never both; artifacts stay within their bounds.
    - Git: parsers read back what Git prints, a path accepted for a checkout stays inside it; a
      lease that expires becomes a job that names its resources; a pass of the worker attempts every
      due job and completes one only when both removals are confirmed; locks exclude and lose no
      wake-up.
    - Git cleanup against Git: whatever Git answers, the cleaner removes only a linked worktree that
      Git attributes to the job or an empty directory at its recorded place, and a completed job
      means that directory and branch are gone.
    - Session histories: the file and the items in memory always show the conversation that was
      streamed, position by position; settled lines survive failed writes, a file cut anywhere reads
      back as its complete lines; a handoff block cannot be closed by what was said in it.
    - Supervision: a prompt is paused exactly while one of its own tools runs, a silent one is sent again
      once per window and then fails, a crash loop is stopped by the failures of the last minute.
    - Plugin surfaces: however calls interleave and whatever native creations and moves report, the
      registry and the webviews agree, running calls finish and an accepted close ends the instance;
      labels and listings name exactly the live instances; a site stays on its declared origins, and
      a download runs at most one action, which its manifest offers.
    - Plugin registry: the index lists every id once, and what it lists is what an installation resolves.
    - Process host: after any history of operations, failures and crashes the next host accepts the
      journal and keeps every record; a guardian starts at most once per scope, a closed scope gains
      nothing, and a confirmed launch is never forgotten or denied.

    ** Fuel

    [while] loops run on fuel with a stated sufficient amount: templates by their length, schema
    recursion by the size of the schema, the projection by the number of nodes plus one, graph
    searches by vertices plus edges, Loop nesting by depth, and [run_schedule] by twice the
    nodes of a flat graph plus its running rows, and a cleanup pass by five per job and lease plus one;
    each bound is a theorem or an unfolding lemma that shows the fuel never shows.

    ** Parameters

    Code outside the repository is a class with documented laws, each with an instance: JSON text
    (serde_json), wire decoding (serde), graph adjacency and topological order (petgraph),
    SHA-256, digests of planner drafts, cron expressions and time zones, Unicode folding, UUID
    syntax, the process that runs a Git command, the updates of the agent client protocol, the text of
    a history line and the outcome of each write, URL parsing and UTF-8 validity, parsing a manifest,
    the outcome of a native webview call and of each step of a process host, [std::fs] on directories
    and [std::fs::canonicalize], and the ports: clock, identifiers, executor, sessions, adapters.

    ** Not modelled

    The desktop shell, bindings and generated protocol code; processes, terminals and transports
    (I/O); the agent executor's sessions; SQL itself (each statement is modelled by its effect on the
    rows it selects); the file-system adapters of the Effect system; the sweep of artifacts and the
    handlers that read them; checkpoints and diffs of the Git runtime; the actors of agent sessions
    beyond their histories and their supervision; the plugin crates but for surfaces and the registry;
    the native side of a surface (a failed creation or move is taken to leave the webviews as they
    were, a destruction to succeed), its idle timers and the files of its downloads; the guardians
    themselves, the sockets of the process host and the checks of its directory. SQLite serialises
    writers, so transactions are atomic steps and interleavings are sequences of them.

    ** Plan

    What would come next: the other plugin crates (manifests, installation), the guardian of a process
    scope and the node protocol, then the file-system adapter of the Effect system over an explicit
    directory model. *)

From stdpp Require Export base tactics option list list_monad gmap strings pretty sorting sets.
From Stdlib Require Export ZArith Lia.

(** ** Results: Rust's [Result<A, E>] *)

Inductive result (E A : Type) : Type :=
| Ok (val : A)
| Err (err : E).
Arguments Ok {E A} val.
Arguments Err {E A} err.

#[export] Instance result_eq_dec {E A} `{!EqDecision E, !EqDecision A} :
  EqDecision (result E A).
Proof. solve_decision. Defined.

(** An error, or a panic of the code ([unreachable!]). *)
Inductive fault (E : Type) : Type :=
| Fails (err : E)
| Panics.
Arguments Fails {E} err.
Arguments Panics {E}.

#[export] Instance fault_eq_dec {E} `{!EqDecision E} : EqDecision (fault E).
Proof. solve_decision. Defined.

#[export] Instance result_ret E : MRet (result E) := fun A => Ok.
#[export] Instance result_bind E : MBind (result E) := fun A B k m =>
  match m with Ok x => k x | Err e => Err e end.
#[export] Instance result_fmap E : FMap (result E) := fun A B f m =>
  match m with Ok x => Ok (f x) | Err e => Err e end.

Declare Scope ora_scope.
Delimit Scope ora_scope with ora.

(** [Option::ok_or] / [Option::ok_or_else]. *)
Definition ok_or {A E} (o : option A) (e : E) : result E A :=
  match o with Some x => Ok x | None => Err e end.

(** [Result::map_err]. *)
Definition map_err {A E E'} (f : E -> E') (m : result E A) : result E' A :=
  match m with Ok x => Ok x | Err e => Err (f e) end.

(** [Result::ok]. *)
Definition to_option {A E} (m : result E A) : option A :=
  match m with Ok x => Some x | Err _ => None end.

(** [if cond { return Err(e) }]: the early return of a guard. *)
Definition reject_if {E} (cond : bool) (e : E) : result E unit :=
  if cond then Err e else Ok tt.

Notation "'reject' c 'with' e ; k" := (mbind (fun _ : unit => k) (reject_if c e))
  (at level 20, c at level 9, e at level 9, k at level 200, right associativity) : ora_scope.

Lemma bind_Ok {E A B} (m : result E A) (k : A -> result E B) v :
  (m ≫= k) = Ok v <-> exists x, m = Ok x /\ k x = Ok v.
Proof. destruct m; naive_solver. Qed.

Lemma bind_Err {E A B} (m : result E A) (k : A -> result E B) e :
  (m ≫= k) = Err e <-> m = Err e \/ exists x, m = Ok x /\ k x = Err e.
Proof. destruct m; naive_solver. Qed.

Lemma fmap_Ok {E A B} (m : result E A) (f : A -> B) v :
  (f <$> m) = Ok v <-> exists x, m = Ok x /\ v = f x.
Proof. destruct m; naive_solver. Qed.

Lemma map_err_Ok {E E' A} (m : result E A) (f : E -> E') v :
  map_err f m = Ok v <-> m = Ok v.
Proof. destruct m; naive_solver. Qed.

Lemma ok_or_Ok {E A} (o : option A) (e : E) v : ok_or o e = Ok v <-> o = Some v.
Proof. destruct o; naive_solver. Qed.

Lemma reject_if_Ok {E} b (e : E) u : reject_if b e = Ok u <-> b = false.
Proof. destruct u, b; naive_solver. Qed.

Lemma bind_ext {E A B} (m n : result E A) (k l : A -> result E B) :
  m = n -> (forall x, m = Ok x -> k x = l x) -> (m ≫= k) = (n ≫= l).
Proof. intros <- Hk. destruct m; [by apply Hk|done]. Qed.

Lemma reject_Ok {E A} b (e : E) (k : result E A) v :
  (mbind (fun _ : unit => k) (reject_if b e)) = Ok v <-> b = false /\ k = Ok v.
Proof. destruct b; naive_solver. Qed.

Lemma Ok_inj {E A} (x y : A) : @Ok E A x = Ok y -> x = y.
Proof. by intros [= ->]. Qed.

(** [inv_ok]: peel every successful bind in the hypotheses. *)
Ltac inv_ok_step :=
  match goal with
  | H : mbind _ _ = Ok _ |- _ =>
      let x := fresh "x" in let H1 := fresh "Hx" in
      apply bind_Ok in H as (x & H1 & H)
  | H : fmap _ _ = Ok _ |- _ =>
      let x := fresh "x" in let H1 := fresh "Hx" in
      apply fmap_Ok in H as (x & H1 & H)
  | H : map_err _ _ = Ok _ |- _ => apply map_err_Ok in H
  | H : ok_or _ _ = Ok _ |- _ => apply ok_or_Ok in H
  | H : reject_if _ _ = Ok _ |- _ => apply reject_if_Ok in H
  | H : mret _ = Ok _ |- _ => unfold mret, result_ret in H
  | H : Ok _ = Ok _ |- _ => apply Ok_inj in H; simplify_eq
  | H : Err _ = Ok _ |- _ => discriminate H
  end.
Ltac inv_ok := repeat inv_ok_step.

(** ** Loops that stop at the first error *)

Section traverse.
Context {E A B : Type}.

(** [iter().map(f).collect::<Result<Vec<_>, _>>()]. *)
Fixpoint traverse (f : A -> result E B) (l : list A) : result E (list B) :=
  match l with
  | [] => Ok []
  | x :: l => y ← f x; ys ← traverse f l; Ok (y :: ys)
  end.

Lemma traverse_Ok f l ys :
  traverse f l = Ok ys <-> Forall2 (fun x y => f x = Ok y) l ys.
Proof.
  revert ys. induction l as [|x l IH]; intros ys; simpl.
  { split; [intros [= <-]; constructor | by inversion 1]. }
  split.
  - intros H. inv_ok. constructor; [done|]. by apply IH.
  - inversion 1 as [|? y ? ys' Hy Hys]; subst. rewrite Hy. simpl.
    apply IH in Hys. by rewrite Hys.
Qed.

Lemma traverse_length f l ys : traverse f l = Ok ys -> length ys = length l.
Proof. intros H%traverse_Ok%Forall2_length. done. Qed.

Lemma traverse_Err f l e :
  traverse f l = Err e <->
  exists l1 x l2, l = l1 ++ x :: l2 /\ Forall (fun y => exists z, f y = Ok z) l1 /\ f x = Err e.
Proof.
  induction l as [|x l IH]; simpl.
  { split; [done|]. intros ([] & ? & ? & ? & _); done. }
  rewrite bind_Err. split.
  - intros [He | (y & Hy & [He | (ys & _ & [=])]%bind_Err)].
    + by exists [], x, l.
    + apply IH in He as (l1 & x' & l2 & -> & Hl1 & Hx).
      exists (x :: l1), x', l2. rewrite Forall_cons. eauto.
  - intros (l1 & y & l2 & Hl & Hl1 & Hy). destruct l1 as [|z l1]; simplify_eq/=; [by left|].
    apply Forall_cons in Hl1 as [[w Hw] Hl1]. right. exists w. split; [done|].
    apply bind_Err. left. apply IH. by exists l1, y, l2.
Qed.

(** [for x in l { acc = f(acc, x)?; }]. *)
Fixpoint fold_result {S} (f : S -> A -> result E S) (s : S) (l : list A) : result E S :=
  match l with
  | [] => Ok s
  | x :: l => s' ← f s x; fold_result f s' l
  end.

Lemma fold_result_app {S} (f : S -> A -> result E S) s l1 l2 :
  fold_result f s (l1 ++ l2) = s' ← fold_result f s l1; fold_result f s' l2.
Proof.
  revert s. induction l1 as [|x l1 IH]; intros s; [done|]. simpl.
  destruct (f s x); simpl; [apply IH | done].
Qed.

(** Invariants of a fallible loop. *)
Lemma fold_result_inv {S} (P : list A -> S -> Prop) (f : S -> A -> result E S) s l s' :
  P [] s ->
  (forall done x s1 s2, P done s1 -> x ∈ l -> f s1 x = Ok s2 -> P (done ++ [x]) s2) ->
  fold_result f s l = Ok s' -> P l s'.
Proof.
  intros H0 Hstep Hf.
  enough (forall l2 l1 s1, l1 ++ l2 = l -> P l1 s1 -> fold_result f s1 l2 = Ok s' -> P l s')
    as Hgen by (by eapply (Hgen l [] s)).
  clear H0 Hf s. induction l2 as [|x l2 IH]; intros l1 s1 Hl HP Hf; simpl in Hf.
  { rewrite app_nil_r in Hl. by inv_ok. }
  inv_ok. rename x0 into s2.
  eapply (IH (l1 ++ [x]) s2); [by rewrite <-app_assoc| |done].
  eapply Hstep; [done| |done]. subst l. set_solver.
Qed.

(** [for x in l { f(x)?; }]. *)
Definition for_each (f : A -> result E unit) (l : list A) : result E unit :=
  fold_result (fun _ x => f x) tt l.

Lemma for_each_Ok f l u : for_each f l = Ok u <-> Forall (fun x => f x = Ok tt) l.
Proof.
  destruct u. unfold for_each.
  generalize tt at 1 as u. induction l as [|x l IH]; intros u; simpl.
  { destruct u; split; [constructor|done]. }
  rewrite Forall_cons, bind_Ok. setoid_rewrite IH.
  split; [intros ([] & ? & ?); done | intros [? ?]; eauto].
Qed.

Lemma for_each_ext f g l : (forall x, x ∈ l -> f x = g x) -> for_each f l = for_each g l.
Proof.
  intros Hfg. unfold for_each. generalize tt as u. revert Hfg.
  induction l as [|x l IH]; intros Hfg u; simpl; [done|].
  rewrite (Hfg x) by (by left). destruct (g x); simpl; [|done]. apply IH. intros y Hy.
  apply Hfg. by right.
Qed.

Lemma for_each_app f l1 l2 :
  for_each f (l1 ++ l2) = _ ← for_each f l1; for_each f l2.
Proof.
  unfold for_each. rewrite fold_result_app.
  by destruct (fold_result _ tt l1) as [[]|].
Qed.

(** A loop that fails reports the error of the first rejected element. *)
Lemma for_each_Err f l e :
  for_each f l = Err e <->
  exists l1 x l2, l = l1 ++ x :: l2 /\ Forall (fun x => f x = Ok tt) l1 /\ f x = Err e.
Proof.
  unfold for_each. generalize tt at 1 as u. induction l as [|x l IH]; intros u; simpl.
  { split; [done|]. intros ([] & ? & ? & ? & _); done. }
  rewrite bind_Err. split.
  - intros [He | (u' & Hx & Hl)].
    + by exists [], x, l.
    + apply IH in Hl as (l1 & y & l2 & -> & Hl1 & Hy). destruct u'.
      exists (x :: l1), y, l2. rewrite Forall_cons. eauto.
  - intros (l1 & y & l2 & Hl & Hl1 & Hy). destruct l1 as [|z l1]; simplify_eq/=.
    { by left. }
    apply Forall_cons in Hl1 as [Hz Hl1]. right. exists tt. split; [done|].
    apply IH. by exists l1, y, l2.
Qed.
End traverse.

(** ** First match in a list: [Iterator::find] and friends *)

Section find_first.
Context {A : Type}.
Implicit Types (p : A -> bool) (l : list A).

Fixpoint find_first p l : option A :=
  match l with
  | [] => None
  | x :: l => if p x then Some x else find_first p l
  end.

Lemma find_first_Some p l x : find_first p l = Some x -> x ∈ l /\ p x = true.
Proof.
  induction l as [|y l IH]; simpl; [done|]. destruct (p y) eqn:Hy.
  - intros [= ->]. split; [by left | done].
  - intros [? ?]%IH. split; [by right | done].
Qed.

Lemma find_first_None p l : find_first p l = None <-> Forall (fun x => p x = false) l.
Proof.
  induction l as [|y l IH]; simpl; [by split|]. rewrite Forall_cons.
  destruct (p y); naive_solver.
Qed.

Lemma find_first_is_Some p l : is_Some (find_first p l) <-> exists x, x ∈ l /\ p x = true.
Proof.
  split.
  - intros [x Hx%find_first_Some]. eauto.
  - intros (x & Hin & Hp). destruct (find_first p l) eqn:E; [eauto|].
    apply find_first_None in E. rewrite Forall_forall in E.
    apply E in Hin. congruence.
Qed.
End find_first.

(** ** Booleans reflecting propositions *)

Lemma existsb_True {A} (p : A -> bool) (l : list A) :
  existsb p l = true <-> exists x, x ∈ l /\ p x = true.
Proof. rewrite existsb_exists. by setoid_rewrite list_elem_of_In. Qed.

Lemma existsb_False {A} (p : A -> bool) (l : list A) :
  existsb p l = false <-> Forall (fun x => p x = false) l.
Proof.
  induction l as [|x l IH]; simpl; [by split|].
  rewrite Forall_cons, orb_false_iff. naive_solver.
Qed.

Lemma forallb_True {A} (p : A -> bool) (l : list A) :
  forallb p l = true <-> Forall (fun x => p x = true) l.
Proof.
  induction l as [|x l IH]; simpl; [by split|].
  rewrite Forall_cons, andb_true_iff. naive_solver.
Qed.

Lemma existsb_cong {A} (p q : A -> bool) (l : list A) :
  (forall x, x ∈ l -> p x = q x) -> existsb p l = existsb q l.
Proof.
  intros H. induction l as [|x l IH]; simpl; [done|].
  rewrite (H x ltac:(by left)), IH; [done|]. intros y Hy. apply H. by right.
Qed.

Create HintDb ora_bool.
#[export] Hint Rewrite @existsb_True @existsb_False @forallb_True andb_true_iff
  orb_true_iff negb_true_iff andb_false_iff orb_false_iff negb_false_iff
  bool_decide_eq_true bool_decide_eq_false : ora_bool.

(** Turn the boolean tests in the context into the propositions they decide. *)
Ltac reflect_bools := autorewrite with ora_bool in *.

(** ** Filters *)

Lemma NoDup_fmap_filter {A B} (f : A -> B) (P : A -> Prop) `{!forall x, Decision (P x)} l :
  NoDup (f <$> l) -> NoDup (f <$> filter P l).
Proof.
  induction l as [|x l IH]; [done|]. csimpl. intros [Hx Hnd]%NoDup_cons. rewrite filter_cons.
  case_decide; [|by apply IH]. csimpl. constructor; [|by apply IH].
  intros (y & Heq & [_ Hy]%list_elem_of_filter)%list_elem_of_fmap. apply Hx. rewrite Heq.
  by apply list_elem_of_fmap_2.
Qed.
Lemma filter_none {A} (P : A -> Prop) `{!forall x, Decision (P x)} l : (forall x, x ∈ l -> ~ P x) -> filter P l = [].
Proof.
  induction l as [|x l IH]; [done|]. intros Hno. rewrite filter_cons, decide_False by (apply Hno; set_solver).
  apply IH. intros y Hy. apply Hno. set_solver.
Qed.
Lemma filter_snd {A B} (P : B -> Prop) `{!forall x, Decision (P x)} (l : list (A * B)) :
  filter P l.*2 = (filter (fun kv => P kv.2) l).*2.
Proof. induction l as [|[a b] l IH]; [done|]. csimpl. rewrite !filter_cons. simpl. case_decide; csimpl; by rewrite IH. Qed.
Lemma concat_none {A B} (f : A -> list B) l : (forall x, x ∈ l -> f x = []) -> concat (f <$> l) = [].
Proof. induction l as [|x l IH]; [done|]. intros Hf. csimpl. rewrite Hf by set_solver. apply IH. set_solver. Qed.

(** The entries of a filtered map. *)
Lemma map_to_list_filtered `{Countable K} {V} (P : K * V -> Prop) `{!forall x, Decision (P x)} (m : gmap K V) :
  map_to_list (filter P m) ≡ₚ filter P (map_to_list m).
Proof.
  rewrite map_filter_alt. apply map_to_list_to_map. apply NoDup_fmap_filter, NoDup_fst_map_to_list.
Qed.

(** ** Saturating machine arithmetic *)

Definition u32_max : N := 4294967295.
Definition u64_max : N := 18446744073709551615.
Definition i64_max : Z := 9223372036854775807.
Definition i64_min : Z := -9223372036854775808.

Definition saturating_add_u32 (a b : N) : N := N.min (a + b) u32_max.
Definition saturating_sub (a b : N) : N := a - b.
Definition saturating_mul_u64 (a b : N) : N := N.min (a * b) u64_max.
Definition saturating_add_u64 (a b : N) : N := N.min (a + b) u64_max.
Definition saturating_add_i64 (a b : Z) : Z := Z.max i64_min (Z.min (a + b) i64_max).

#[export] Instance N_le_total : Total N.le.
Proof. intros x y. lia. Qed.
#[export] Instance N_le_trans : Transitive N.le.
Proof. intros x y z. lia. Qed.
#[export] Instance N_le_anti : AntiSymm eq N.le.
Proof. intros x y. lia. Qed.

(** ** Ordered maps and sets: [BTreeMap] and [BTreeSet] iterate in key order

    Maps are stdpp's [gmap]; where the order of iteration shows in a result, the
    entries are taken in ascending key order. *)

Section btree.
Context {K V : Type} (leK : relation K) `{!RelDecision leK, Countable K}.

Definition le_fst (p q : K * V) : Prop := leK p.1 q.1.
#[global] Instance le_fst_dec : RelDecision le_fst.
Proof. intros p q. unfold le_fst. apply _. Defined.
#[global] Instance le_fst_total `{!Total leK} : Total le_fst.
Proof. intros p q. apply (total leK). Qed.
#[global] Instance le_fst_trans `{!Transitive leK} : Transitive le_fst.
Proof. intros p q r. unfold le_fst. apply transitivity. Qed.

Definition btree_entries (m : gmap K V) : list (K * V) :=
  merge_sort le_fst (map_to_list m).
Definition btree_keys (m : gmap K V) : list K := (btree_entries m).*1.
Definition btree_values (m : gmap K V) : list V := (btree_entries m).*2.
Definition btree_elements (s : gset K) : list K := merge_sort leK (elements s).

Lemma btree_entries_perm m : btree_entries m ≡ₚ map_to_list m.
Proof. apply merge_sort_Permutation. Qed.

Lemma elem_of_btree_entries m k v : (k, v) ∈ btree_entries m <-> m !! k = Some v.
Proof. rewrite btree_entries_perm. apply elem_of_map_to_list. Qed.

Lemma elem_of_btree_elements s k : k ∈ btree_elements s <-> k ∈ s.
Proof. unfold btree_elements. rewrite merge_sort_Permutation. apply elem_of_elements. Qed.

Lemma btree_elements_NoDup s : NoDup (btree_elements s).
Proof. unfold btree_elements. rewrite merge_sort_Permutation. apply NoDup_elements. Qed.

Lemma btree_elements_sorted `{!Total leK} s : Sorted leK (btree_elements s).
Proof. apply Sorted_merge_sort. apply _. Qed.

Lemma btree_keys_NoDup m : NoDup (btree_keys m).
Proof. unfold btree_keys. rewrite btree_entries_perm. apply NoDup_fst_map_to_list. Qed.

Lemma btree_entries_sorted `{!Total leK} m : Sorted le_fst (btree_entries m).
Proof. apply Sorted_merge_sort. apply _. Qed.

Lemma btree_keys_sorted `{!Total leK} m : Sorted leK (btree_keys m).
Proof.
  unfold btree_keys. pose proof (btree_entries_sorted m) as Hs.
  induction Hs as [|p l Hl IH Hp]; csimpl; constructor; [done|].
  destruct Hp; csimpl; by constructor.
Qed.

Lemma elem_of_btree_keys m k : k ∈ btree_keys m <-> is_Some (m !! k).
Proof.
  unfold btree_keys. rewrite list_elem_of_fmap. split.
  - intros ([k' v] & -> & Hin%elem_of_btree_entries). by exists v.
  - intros [v Hv]. exists (k, v). by rewrite elem_of_btree_entries.
Qed.

(** The keys are any sorted list without duplicates that holds the bound keys. *)
Lemma btree_keys_unique `{!Total leK, !Transitive leK, !AntiSymm eq leK} m l :
  Sorted leK l -> NoDup l -> (forall k, k ∈ l <-> is_Some (m !! k)) -> btree_keys m = l.
Proof.
  intros Hs Hnd Hl. apply (Sorted_unique leK); [apply btree_keys_sorted|done|].
  apply NoDup_Permutation; [apply btree_keys_NoDup|done|].
  intros k. by rewrite Hl, elem_of_btree_keys.
Qed.

Lemma btree_values_lookup m i k :
  btree_keys m !! i = Some k -> btree_values m !! i = m !! k.
Proof.
  unfold btree_keys, btree_values. rewrite !list_lookup_fmap.
  intros ([k' v] & Hi & ->)%fmap_Some. rewrite Hi. simpl. symmetry.
  apply elem_of_btree_entries. by eapply list_elem_of_lookup_2.
Qed.

Lemma length_btree_entries m : length (btree_entries m) = size m.
Proof. rewrite btree_entries_perm. apply length_map_to_list. Qed.
End btree.

(** [collect] into a map: a later pair replaces an earlier one with the same key. *)
Definition collect_map `{Countable K} {V} (l : list (K * V)) : gmap K V :=
  fold_left (fun acc p => <[p.1 := p.2]> acc) l ∅.

Lemma lookup_collect_map `{Countable K} {V} (l : list (K * V)) k v :
  (forall v1 v2, (k, v1) ∈ l -> (k, v2) ∈ l -> v1 = v2) ->
  collect_map l !! k = Some v <-> (k, v) ∈ l.
Proof.
  unfold collect_map. assert (forall l (acc : gmap K V) w,
    (forall v1, (k, v1) ∈ l -> v1 = w) -> acc !! k = Some w ->
    fold_left (fun acc p => <[p.1 := p.2]> acc) l acc !! k = Some w) as Hstay.
  { clear. induction l as [|[k' v'] l IH]; intros acc w Hall Hacc; [done|]. cbn [fold_left fst snd].
    apply IH; [intros v1 Hv1; apply Hall; by right|].
    destruct (decide (k' = k)) as [->|]; [|by rewrite lookup_insert_ne].
    rewrite lookup_insert_eq. f_equal. apply Hall. by left. }
  assert (forall acc : gmap K V, (forall v1 v2, (k, v1) ∈ l -> (k, v2) ∈ l -> v1 = v2) ->
    acc !! k = None ->
    fold_left (fun acc p => <[p.1 := p.2]> acc) l acc !! k = Some v <-> (k, v) ∈ l) as Hgo;
    [|intros Hfun; apply Hgo; [done|apply lookup_empty]].
  induction l as [|[k' v'] l IH]; intros acc Hfun Hacc; cbn [fold_left fst snd].
  { rewrite Hacc. split; [done|by intros ?%elem_of_nil]. }
  destruct (decide (k' = k)) as [->|Hne].
  - rewrite (Hstay l _ v'); [|intros v1 Hv1; apply Hfun; [by right|by left]|by rewrite lookup_insert_eq].
    split; [intros [= ->]; by left|]. intros Hin. f_equal. apply Hfun; [by left|done].
  - rewrite IH, elem_of_cons; [naive_solver| |by rewrite lookup_insert_ne].
    intros v1 v2 H1 H2. apply Hfun; by right.
Qed.

(** ** Hash maps

    The order in which a [HashMap] or [HashSet] is iterated is not specified: where the code
    iterates one and the order can show, it is a parameter of the model. *)

Class HashOrder := {
  hash_order : list string -> list string;
  hash_order_perm l : hash_order l ≡ₚ l;
}.

Definition hash_keys `{HashOrder} {V} (m : gmap string V) : list string :=
  hash_order (map_to_list m).*1.

Lemma elem_of_hash_keys `{HashOrder} {V} (m : gmap string V) k :
  k ∈ hash_keys m <-> is_Some (m !! k).
Proof.
  unfold hash_keys. rewrite hash_order_perm, list_elem_of_fmap. split.
  - intros ([k' v] & -> & Hin%elem_of_map_to_list). by exists v.
  - intros [v Hv]. exists (k, v). by rewrite elem_of_map_to_list.
Qed.
