(* ===== verification/RustStr.v ===== *)
(** * Rust's [str] operations

    A Rust string is modelled by the list of bytes of its UTF-8 encoding (Rocq's
    [string], whose characters are bytes).  Searching, splitting and stripping for
    ASCII or complete UTF-8 patterns is then the same on bytes as on characters.  What
    depends on characters is written out: a character starts at every byte that is not
    a continuation byte ([0x80..=0xBF]), and [trim] removes the code points with the
    Unicode [White_Space] property. *)

From S2P Require Import Prelude.
From Stdlib Require Import Ascii.

#[global] Arguments String.append !_ _ /.

(** ** Bytes and characters *)

Definition byte_at (n : N) : ascii := ascii_of_N n.
Fixpoint bytes (l : list N) : string :=
  match l with [] => "" | n :: l => String (byte_at n) (bytes l) end.

Definition is_continuation (c : ascii) : bool :=
  let n := N_of_ascii c in (128 <=? n)%N && (n <=? 191)%N.

(** [s.chars().count()]. *)
Fixpoint chars_count (s : string) : N :=
  match s with
  | "" => 0
  | String c s => (if is_continuation c then 0 else 1) + chars_count s
  end%N.

(** [s.chars().take(n).collect::<String>()]. *)
Fixpoint take_chars (n : nat) (s : string) : string :=
  match s with
  | "" => ""
  | String c s =>
      if is_continuation c then String c (take_chars n s)
      else match n with 0 => "" | S n => String c (take_chars n s) end
  end.

Lemma chars_count_app s t : chars_count (s +:+ t) = (chars_count s + chars_count t)%N.
Proof. induction s as [|c s IH]; simpl; [done|]. rewrite IH. lia. Qed.

Lemma chars_count_take n s : (chars_count (take_chars n s) <= N.of_nat n)%N.
Proof.
  revert n. induction s as [|c s IH]; intros n; simpl; [lia|].
  destruct (is_continuation c) eqn:Hc; simpl.
  - rewrite Hc. specialize (IH n). lia.
  - destruct n as [|n]; simpl; [lia|]. rewrite Hc. specialize (IH n). lia.
Qed.

Definition ascii_in (lo hi : N) (c : ascii) : bool :=
  (lo <=? N_of_ascii c)%N && (N_of_ascii c <=? hi)%N.
Definition is_ascii_upper := ascii_in 65 90.
Definition is_ascii_lower := ascii_in 97 122.
Definition is_ascii_alphabetic (c : ascii) : bool := is_ascii_upper c || is_ascii_lower c.
Definition to_ascii_lower (c : ascii) : ascii :=
  if is_ascii_upper c then ascii_of_N (N_of_ascii c + 32) else c.
Fixpoint str_to_lower (s : string) : string :=
  match s with "" => "" | String c s => String (to_ascii_lower c) (str_to_lower s) end.

(** [a.eq_ignore_ascii_case(b)]. *)
Definition eq_ignore_ascii_case (a b : string) : bool :=
  bool_decide (str_to_lower a = str_to_lower b).

(** ** Appending and reversing *)

Lemma app_nil_r_str s : s +:+ "" = s.
Proof. induction s as [|c s IH]; simpl; [done|]. by rewrite IH. Qed.
Lemma app_assoc_str s t u : (s +:+ t) +:+ u = s +:+ (t +:+ u).
Proof. induction s as [|c s IH]; simpl; [done|]. by rewrite IH. Qed.
Lemma length_app_str s t : String.length (s +:+ t) = String.length s + String.length t.
Proof. induction s as [|c s IH]; simpl; [done|]. by rewrite IH. Qed.

Fixpoint str_rev (s : string) : string :=
  match s with "" => "" | String c s => str_rev s +:+ String c "" end.

Lemma str_rev_app s t : str_rev (s +:+ t) = str_rev t +:+ str_rev s.
Proof.
  induction s as [|c s IH]; simpl; [by rewrite app_nil_r_str|].
  by rewrite IH, app_assoc_str.
Qed.
Lemma str_rev_involutive s : str_rev (str_rev s) = s.
Proof. induction s as [|c s IH]; simpl; [done|]. by rewrite str_rev_app, IH. Qed.

(** ** Prefixes and suffixes *)

(** [s.strip_prefix(pat)]. *)
Fixpoint str_strip_prefix (pat s : string) : option string :=
  match pat, s with
  | "", _ => Some s
  | String p pat, String c s => if decide (p = c) then str_strip_prefix pat s else None
  | String _ _, "" => None
  end.

Lemma strip_prefix_Some pat s rest : str_strip_prefix pat s = Some rest <-> s = pat +:+ rest.
Proof.
  revert s. induction pat as [|p pat IH]; intros s; simpl; [naive_solver|].
  destruct s as [|c s]; [done|]. case_decide as Hpc; [subst|naive_solver].
  rewrite IH. naive_solver.
Qed.

Definition starts_with (pat s : string) : bool := bool_decide (is_Some (str_strip_prefix pat s)).

(** [s.strip_suffix(pat)]. *)
Definition str_strip_suffix (pat s : string) : option string :=
  str_rev <$> str_strip_prefix (str_rev pat) (str_rev s).

Lemma strip_suffix_Some pat s rest : str_strip_suffix pat s = Some rest <-> s = rest +:+ pat.
Proof.
  unfold str_strip_suffix. rewrite fmap_Some. split.
  - intros (r & Hr & ->). apply strip_prefix_Some in Hr.
    rewrite <-(str_rev_involutive s), Hr, str_rev_app. by rewrite str_rev_involutive.
  - intros ->. exists (str_rev rest). rewrite str_rev_involutive, str_rev_app.
    split; [by apply strip_prefix_Some | done].
Qed.

Definition ends_with (pat s : string) : bool := bool_decide (is_Some (str_strip_suffix pat s)).

Lemma starts_with_true pat s : starts_with pat s = true <-> exists rest, s = pat +:+ rest.
Proof.
  unfold starts_with. rewrite bool_decide_eq_true. unfold is_Some.
  by setoid_rewrite strip_prefix_Some.
Qed.
Lemma ends_with_true pat s : ends_with pat s = true <-> exists rest, s = rest +:+ pat.
Proof.
  unfold ends_with. rewrite bool_decide_eq_true. unfold is_Some.
  by setoid_rewrite strip_suffix_Some.
Qed.

(** ** Searching and splitting *)

(** [s.split_once(pat)], which is also [s.find(pat)] with the two slices around the match. *)
Fixpoint split_once (pat s : string) : option (string * string) :=
  match str_strip_prefix pat s with
  | Some rest => Some ("", rest)
  | None =>
      match s with
      | "" => None
      | String c s => (fun p => (String c p.1, p.2)) <$> split_once pat s
      end
  end.

(** [s.contains(pat)]. *)
Definition str_contains (pat s : string) : bool := bool_decide (is_Some (split_once pat s)).

Lemma split_once_Some pat s a b :
  split_once pat s = Some (a, b) -> s = a +:+ pat +:+ b.
Proof.
  revert a b. induction s as [|c s IH]; intros a b; simpl.
  - destruct (str_strip_prefix pat "") as [rest|] eqn:E; [|done].
    intros [= <- <-]. by apply strip_prefix_Some in E.
  - destruct (str_strip_prefix pat (String c s)) as [rest|] eqn:E.
    + intros [= <- <-]. by apply strip_prefix_Some in E.
    + intros ([a' b'] & H & [= -> ->])%fmap_Some. simpl. by rewrite (IH _ _ H).
Qed.

Lemma split_once_is_Some pat s : is_Some (split_once pat s) <-> exists a b, s = a +:+ pat +:+ b.
Proof.
  split.
  - intros [[a b] H%split_once_Some]. eauto.
  - intros (a & b & ->). induction a as [|c a IH]; simpl.
    + destruct (pat +:+ b) as [|d t] eqn:E; simpl;
        rewrite (proj2 (strip_prefix_Some pat _ b)) by (by rewrite E); eauto.
    + destruct (str_strip_prefix _ _); [eauto|]. destruct IH as [[x y] ->]. simpl. eauto.
Qed.

Lemma str_contains_true pat s : str_contains pat s = true <-> exists a b, s = a +:+ pat +:+ b.
Proof. unfold str_contains. by rewrite bool_decide_eq_true, split_once_is_Some. Qed.

Lemma str_contains_false pat s : str_contains pat s = false <-> split_once pat s = None.
Proof. unfold str_contains. by rewrite bool_decide_eq_false, eq_None_not_Some. Qed.

(** The match is the leftmost one. *)
Lemma split_once_before pat s a b :
  pat <> "" -> split_once pat s = Some (a, b) -> str_contains pat a = false.
Proof.
  intros Hp. unfold str_contains. revert a b. induction s as [|c s IH]; intros a b; simpl.
  - destruct (str_strip_prefix pat "") as [rest|] eqn:E; [|done].
    intros [= <- <-]. simpl. destruct pat; [done|]. done.
  - destruct (str_strip_prefix pat (String c s)) as [rest|] eqn:E.
    + intros [= <- <-]. simpl. destruct pat; [done|]. done.
    + intros ([a' b'] & H & [= -> ->])%fmap_Some. apply IH in H as Ha.
      apply bool_decide_eq_false in Ha. apply bool_decide_eq_false. simpl.
      destruct (str_strip_prefix pat (String c a')) as [r|] eqn:E'.
      * apply strip_prefix_Some in E'. apply split_once_Some in H. subst s.
        rewrite <-app_assoc_str in E. change (String c (a' +:+ pat)) with (String c a' +:+ pat) in E.
        exfalso. assert (String c ((a' +:+ pat) +:+ b') = pat +:+ (r +:+ pat +:+ b')) as Hs.
        { rewrite <-app_assoc_str, <-E'. simpl. by rewrite app_assoc_str. }
        apply strip_prefix_Some in Hs. congruence.
      * rewrite fmap_is_Some. done.
Qed.

Lemma split_once_length pat s a b :
  split_once pat s = Some (a, b) ->
  String.length s = String.length a + String.length pat + String.length b.
Proof. intros ->%split_once_Some. rewrite !length_app_str. lia. Qed.

(** [s.split(p).collect()] for a one-byte pattern: always at least one segment. *)
Fixpoint split_on (p : ascii -> bool) (s : string) : list string :=
  match s with
  | "" => [""]
  | String c s =>
      if p c then "" :: split_on p s
      else match split_on p s with
           | [] => [String c ""]
           | seg :: segs => String c seg :: segs
           end
  end.

Definition is_char (c d : ascii) : bool := bool_decide (c = d).
Definition split_char (c : ascii) (s : string) : list string := split_on (is_char c) s.

(** The first segment is what stands before the first separator. *)
Lemma split_char_once c s a b l : split_char c s = a :: b :: l -> exists rest, split_once (String c "") s = Some (a, rest).
Proof.
  unfold split_char. revert a. induction s as [|d s IH]; intros a; simpl; [done|]. unfold is_char at 1.
  case_bool_decide as Hd.
  - intros [= <- _]. rewrite decide_True by done. eauto.
  - rewrite decide_False by done. destruct (split_on (is_char c) s) as [|x [|y k]]; [done..|].
    intros [= <- <- <-]. destruct (IH x eq_refl) as [rest Hr]. rewrite Hr. simpl. eauto.
Qed.

(** No byte of [s] satisfies [p]. *)
Fixpoint str_free (p : ascii -> bool) (s : string) : bool :=
  match s with "" => true | String c s => negb (p c) && str_free p s end.

(** [segments.join(sep)]. *)
Definition join (sep : string) (l : list string) : string := String.concat sep l.

Lemma join_cons sep x l : l <> [] -> join sep (x :: l) = x +:+ sep +:+ join sep l.
Proof. by destruct l. Qed.

Lemma split_on_ne p s : split_on p s <> [].
Proof. destruct s as [|c s]; simpl; [done|]. destruct (p c); [done|]. by destruct (split_on p s). Qed.

Lemma split_on_free p s : Forall (fun seg => str_free p seg = true) (split_on p s).
Proof.
  induction s as [|c s IH]; simpl; [by repeat constructor|].
  destruct (p c) eqn:Hc; [by constructor|].
  destruct (split_on p s); [by repeat constructor; simpl; rewrite Hc|].
  apply Forall_cons in IH as [H1 H2]. constructor; [|done]. simpl. by rewrite Hc.
Qed.

Lemma split_on_free_id p s : str_free p s = true -> split_on p s = [s].
Proof.
  induction s as [|c s IH]; simpl; [done|].
  intros [Hc%negb_true_iff Hs]%andb_true_iff. by rewrite Hc, IH.
Qed.

(** Splitting undoes joining when the segments do not contain the separator. *)
Lemma split_on_app p s c rest :
  str_free p s = true -> p c = true ->
  split_on p (s +:+ String c rest) = s :: split_on p rest.
Proof.
  intros Hs Hc. induction s as [|d s IH]; simpl; [by rewrite Hc|].
  simpl in Hs. apply andb_true_iff in Hs as [Hd%negb_true_iff Hs]. by rewrite Hd, IH.
Qed.

Lemma str_free_app p s t : str_free p (s +:+ t) = str_free p s && str_free p t.
Proof. induction s as [|c s IH]; simpl; [done|]. by rewrite IH, andb_assoc. Qed.

(** Records each ended by a separator. *)
Definition terminated (c : ascii) (l : list string) : string := fold_right (fun s acc => s +:+ String c acc) "" l.
Lemma split_terminated c l :
  Forall (fun s => str_free (is_char c) s = true) l -> split_char c (terminated c l) = l ++ [""].
Proof.
  unfold split_char. induction 1 as [|s l Hs Hl IH]; [done|]. cbn [terminated fold_right].
  rewrite split_on_app; [cbn [app]; f_equal; exact IH|done|]. unfold is_char. by rewrite bool_decide_eq_true_2.
Qed.

Lemma split_on_join p c l :
  p c = true -> l <> [] -> Forall (fun seg => str_free p seg = true) l ->
  split_on p (join (String c "") l) = l.
Proof.
  intros Hc Hne Hl. induction Hl as [|s l Hs Hl IH]; [done|].
  destruct (decide (l = [])) as [->|Hl'].
  - by apply split_on_free_id.
  - rewrite join_cons by done. simpl. rewrite split_on_app by done. by rewrite IH.
Qed.

(** Joining undoes splitting at one character. *)
Lemma join_split_char c s : join (String c "") (split_char c s) = s.
Proof.
  unfold split_char. induction s as [|d s IH]; simpl; [done|].
  unfold is_char at 1. case_bool_decide as Hd.
  - subst d. rewrite join_cons by apply split_on_ne. by rewrite IH.
  - destruct (split_on (is_char c) s) as [|seg segs] eqn:E; [by apply split_on_ne in E|].
    rewrite <-IH. destruct segs; done.
Qed.

Lemma last_Some_of {A} (l : list A) : l <> [] -> exists x, last l = Some x.
Proof. intros H. destruct l as [|x l _] using rev_ind; [done|]. exists x. apply last_snoc. Qed.
(** The last segment is what stands after the last separator. *)
Lemma last_segment_of c s : exists e, last (split_char c s) = Some e
  /\ (s = e \/ exists stem, s = stem +:+ String c "" +:+ e).
Proof.
  unfold split_char. induction s as [|d s (e & He & IH)]; [exists ""; by split; [|left]|]. simpl. unfold is_char at 1.
  case_bool_decide as Hd.
  - subst d. exists e. split; [by rewrite last_cons, He|]. right. destruct IH as [->|(stem & ->)]; [by exists ""|].
    by exists (String c stem).
  - destruct (split_on (is_char c) s) as [|seg [|seg' segs]] eqn:E; [done| |].
    + injection He as ->. exists (String d e). split; [done|]. left. f_equal.
      rewrite <-(join_split_char c s). unfold split_char. by rewrite E.
    + exists e. split; [done|]. destruct IH as [->|(stem & ->)]; [|right; by exists (String d stem)].
      exfalso. assert (str_free (is_char c) e = true) as Hf.
      { pose proof (split_on_free (is_char c) e) as H. rewrite E in H. rewrite Forall_forall in H. apply H.
        rewrite last_cons_cons in He. apply last_Some_elem_of in He. set_solver. }
      rewrite split_on_free_id in E; done.
Qed.

(** ** Unicode white space *)

(** UTF-8 encodings of the 25 code points with the [White_Space] property. *)
Definition WHITE_SPACE : list string :=
  bytes <$>
  [[9]; [10]; [11]; [12]; [13]; [32]; [194; 133]; [194; 160]; [225; 154; 128];
   [226; 128; 128]; [226; 128; 129]; [226; 128; 130]; [226; 128; 131]; [226; 128; 132];
   [226; 128; 133]; [226; 128; 134]; [226; 128; 135]; [226; 128; 136]; [226; 128; 137];
   [226; 128; 138]; [226; 128; 168]; [226; 128; 169]; [226; 128; 175]; [226; 129; 159];
   [227; 128; 128]]%N.

Fixpoint strip_any (pats : list string) (s : string) : option string :=
  match pats with
  | [] => None
  | pat :: pats => match str_strip_prefix pat s with Some rest => Some rest | None => strip_any pats s end
  end.

Fixpoint strip_many (fuel : nat) (pats : list string) (s : string) : string :=
  match fuel with
  | 0 => s
  | S fuel => match strip_any pats s with Some rest => strip_many fuel pats rest | None => s end
  end.

(** [s.trim_start()], [s.trim_end()] and [s.trim()]; every step removes at least one byte,
    so the length of the string bounds the number of steps. *)
Definition trim_start (s : string) : string := strip_many (String.length s) WHITE_SPACE s.
Definition trim_end (s : string) : string :=
  str_rev (strip_many (String.length s) (str_rev <$> WHITE_SPACE) (str_rev s)).
Definition trim (s : string) : string := trim_end (trim_start s).

(** [s.split_whitespace().collect()]. *)
Fixpoint split_ws_go (fuel : nat) (cur s : string) : list string :=
  let emit := if decide (cur = "") then [] else [cur] in
  match fuel with
  | 0 => emit
  | S fuel =>
      match strip_any WHITE_SPACE s with
      | Some rest => emit ++ split_ws_go fuel "" rest
      | None => match s with
                | "" => emit
                | String c s => split_ws_go fuel (cur +:+ String c "") s
                end
      end
  end%list.
Definition split_whitespace (s : string) : list string :=
  split_ws_go (S (String.length s)) "" s.

(** [s.trim_end_matches(p)] for a one-byte pattern. *)
Fixpoint drop_while (p : ascii -> bool) (s : string) : string :=
  match s with "" => "" | String c s' => if p c then drop_while p s' else s end.
Definition trim_end_matches (p : ascii -> bool) (s : string) : string :=
  str_rev (drop_while p (str_rev s)).

(** [s.lines()]: split at line feeds, without the final empty line and without a carriage
    return before the line feed. *)
Definition lines (s : string) : list string :=
  let segs := split_char (byte_at 10) s in
  let segs := match last segs with Some "" => take (length segs - 1) segs | _ => segs end in
  (fun l => default l (str_strip_suffix (bytes [13%N]) l)) <$> segs.

Lemma strip_any_Some pats s rest :
  strip_any pats s = Some rest -> exists pat, pat ∈ pats /\ s = pat +:+ rest.
Proof.
  induction pats as [|pat pats IH]; simpl; [done|].
  destruct (str_strip_prefix pat s) eqn:E.
  - intros [= <-]. exists pat. split; [by left | by apply strip_prefix_Some].
  - intros (pat' & Hin & ->)%IH. exists pat'. split; [by right | done].
Qed.

(** [strip_many] with enough fuel leaves nothing to strip. *)
Lemma strip_many_done pats fuel s :
  Forall (fun pat => pat <> "") pats -> String.length s <= fuel ->
  strip_any pats (strip_many fuel pats s) = None.
Proof.
  intros Hpats. revert s. induction fuel as [|fuel IH]; intros s Hlen; simpl.
  - destruct s; simpl in *; [|lia]. destruct (strip_any pats "") eqn:E; [|done].
    apply strip_any_Some in E as (pat & Hin & Hpat).
    rewrite Forall_forall in Hpats. apply Hpats in Hin. by destruct pat.
  - destruct (strip_any pats s) as [rest|] eqn:E; [|done].
    apply IH. apply strip_any_Some in E as (pat & Hin & ->).
    rewrite Forall_forall in Hpats. apply Hpats in Hin.
    rewrite length_app_str in Hlen. destruct pat; simpl in *; [done|lia].
Qed.

Lemma strip_many_suffix pats fuel s : exists pre, s = pre +:+ strip_many fuel pats s.
Proof.
  revert s. induction fuel as [|fuel IH]; intros s; [by exists ""|]. simpl.
  destruct (strip_any pats s) as [rest|] eqn:E; [|by exists ""].
  apply strip_any_Some in E as (pat & _ & ->). destruct (IH rest) as [pre Hpre].
  exists (pat +:+ pre). by rewrite app_assoc_str, <-Hpre.
Qed.
Lemma strip_many_none pats fuel s : strip_any pats s = None -> strip_many fuel pats s = s.
Proof. destruct fuel; simpl; [done|]. by intros ->. Qed.
Lemma strip_any_prefix pats s t : strip_any pats (s +:+ t) = None -> strip_any pats s = None.
Proof.
  induction pats as [|pat pats IH]; [done|]. simpl.
  destruct (str_strip_prefix pat (s +:+ t)) eqn:E; [done|]. intros H.
  destruct (str_strip_prefix pat s) eqn:E'; [|by apply IH].
  apply strip_prefix_Some in E' as ->. rewrite app_assoc_str in E.
  by rewrite (proj2 (strip_prefix_Some _ _ _) eq_refl) in E.
Qed.

(** Trimming is idempotent, on any bytes. *)
Lemma white_space_ne : Forall (fun pat => pat <> "") WHITE_SPACE.
Proof. apply (bool_decide_unpack _). by vm_compute. Qed.
Lemma white_space_rev_ne : Forall (fun pat => pat <> "") (str_rev <$> WHITE_SPACE).
Proof. apply (bool_decide_unpack _). by vm_compute. Qed.
Lemma length_str_rev s : String.length (str_rev s) = String.length s.
Proof. induction s as [|c s IH]; [done|]. simpl. rewrite length_app_str, IH. simpl. lia. Qed.

Lemma trim_idemp s : trim (trim s) = trim s.
Proof.
  unfold trim. set (u := trim_start s).
  assert (strip_any WHITE_SPACE u = None) as Hu by (apply strip_many_done; [apply white_space_ne|done]).
  assert (exists post, u = trim_end u +:+ post) as [post Hpost].
  { unfold trim_end. destruct (strip_many_suffix (str_rev <$> WHITE_SPACE) (String.length u) (str_rev u)) as [pre Hpre].
    exists (str_rev pre). by rewrite <-str_rev_app, <-Hpre, str_rev_involutive. }
  assert (trim_start (trim_end u) = trim_end u) as ->.
  { unfold trim_start. apply strip_many_none. apply (strip_any_prefix _ _ post). by rewrite <-Hpost. }
  unfold trim_end. rewrite str_rev_involutive, strip_many_none; [done|].
  apply strip_many_done; [apply white_space_rev_ne|by rewrite length_str_rev].
Qed.

(** A text between double quotes. *)
Definition quoted (s : string) : string := bytes [34%N] +:+ s +:+ bytes [34%N].

(** The text of an unsigned or signed decimal number. *)
Definition of_N (n : N) : string := pretty n.
Lemma of_N_free p n :
  p (byte_at 48) = false -> (forall d, p (pretty_N_char d) = false) -> str_free p (of_N n) = true.
Proof.
  intros H0 Hp. unfold of_N, pretty, pretty_N. case_decide; [change "0"%string with (String (byte_at 48) ""); cbn [str_free]; by rewrite H0|].
  assert (Hgo : forall m s, str_free p s = true -> str_free p (pretty_N_go m s) = true); [|by apply Hgo].
  intros m. induction (N.lt_wf_0 m) as [m _ IH]. intros s Hs. destruct (decide (0 < m)%N) as [Hn|Hn].
  - rewrite pretty_N_go_step by done. apply IH; [by apply N.div_lt|]. cbn [str_free]. by rewrite Hs, Hp.
  - assert (m = 0%N) as -> by lia. by rewrite pretty_N_go_0.
Qed.
Definition of_Z (z : Z) : string := pretty z.
