(* ===== verification/Order.v ===== *)
(** * Derived orders: Rust's [Ord] on strings, options and tuples

    A comparison function with the laws of [Ord]; tuples compare lexicographically, [None] is
    less than [Some], strings compare by bytes.  [sort_by] with such a comparison and
    [BTreeMap]/[BTreeSet] iteration are sorts by the order it induces. *)

From S2P Require Import Prelude RustStr.
From Stdlib Require Import Ascii.

Record Ord {A : Type} (c : A -> A -> comparison) : Prop := {
  ord_eq x y : c x y = Eq <-> x = y;
  ord_opp x y : c y x = CompOpp (c x y);
  ord_trans x y z : c x y = Lt -> c y z = Lt -> c x z = Lt;
}.
Arguments ord_eq {A c}.
Arguments ord_opp {A c}.
Arguments ord_trans {A c}.

(** [x <= y] *)
Definition cmp_le {A} (c : A -> A -> comparison) (x y : A) : Prop := c x y <> Gt.

#[export] Instance cmp_le_dec {A} (c : A -> A -> comparison) : RelDecision (cmp_le c).
Proof. intros x y. unfold cmp_le. apply _. Defined.

Section ord.
Context {A : Type} {c : A -> A -> comparison} (Hc : Ord c).

Lemma ord_refl x : c x x = Eq.
Proof. by apply (ord_eq Hc). Qed.

Lemma cmp_le_total : Total (cmp_le c).
Proof.
  intros x y. unfold cmp_le. rewrite (ord_opp Hc x y).
  destruct (c x y); simpl; auto.
Qed.

Lemma cmp_le_anti : AntiSymm eq (cmp_le c).
Proof.
  intros x y. unfold cmp_le. rewrite (ord_opp Hc x y).
  destruct (c x y) eqn:E; simpl; try done. by apply (ord_eq Hc) in E.
Qed.

Lemma cmp_le_trans : Transitive (cmp_le c).
Proof.
  intros x y z. unfold cmp_le. destruct (c x y) eqn:E1; try done.
  - by apply (ord_eq Hc) in E1 as ->.
  - destruct (c y z) eqn:E2; try done.
    + apply (ord_eq Hc) in E2 as ->. by rewrite E1.
    + intros _ _. by rewrite (ord_trans Hc _ _ _ E1 E2).
Qed.
End ord.

(** ** Pairs, options, images *)

Definition cmp_then (c d : comparison) : comparison := match c with Eq => d | _ => c end.
Definition cmp_pair {A B} (c : A -> A -> comparison) (d : B -> B -> comparison)
    (x y : A * B) : comparison := cmp_then (c x.1 y.1) (d x.2 y.2).
Definition cmp_option {A} (c : A -> A -> comparison) (x y : option A) : comparison :=
  match x, y with
  | None, None => Eq | None, Some _ => Lt | Some _, None => Gt | Some x, Some y => c x y
  end.
Definition cmp_on {A B} (f : A -> B) (c : B -> B -> comparison) (x y : A) : comparison :=
  c (f x) (f y).

Lemma ord_pair {A B} (c : A -> A -> comparison) (d : B -> B -> comparison) :
  Ord c -> Ord d -> Ord (cmp_pair c d).
Proof.
  intros Hc Hd. unfold cmp_pair. split.
  - intros [a b] [a' b']. simpl. pose proof (ord_eq Hc a a'). pose proof (ord_eq Hd b b').
    destruct (c a a'); simpl; split; intros; simplify_eq; try naive_solver.
  - intros [a b] [a' b']. simpl. rewrite (ord_opp Hc a a'), (ord_opp Hd b b').
    by destruct (c a a').
  - intros [a b] [a' b'] [a'' b'']. simpl.
    destruct (c a a') eqn:E1, (c a' a'') eqn:E2; simpl; try done; intros H1 H2.
    + apply (ord_eq Hc) in E1 as ->. rewrite E2. simpl. by eapply (ord_trans Hd).
    + apply (ord_eq Hc) in E1 as ->. by rewrite E2.
    + apply (ord_eq Hc) in E2 as ->. by rewrite E1.
    + by rewrite (ord_trans Hc _ _ _ E1 E2).
Qed.

Lemma ord_option {A} (c : A -> A -> comparison) : Ord c -> Ord (cmp_option c).
Proof.
  intros Hc. unfold cmp_option. split.
  - intros [x|] [y|]; try done. rewrite (ord_eq Hc). naive_solver.
  - intros [x|] [y|]; try done. apply (ord_opp Hc).
  - intros [x|] [y|] [z|]; try done. apply (ord_trans Hc).
Qed.

Lemma ord_on {A B} (f : A -> B) (c : B -> B -> comparison) `{!Inj (=) (=) f} :
  Ord c -> Ord (cmp_on f c).
Proof.
  intros Hc. unfold cmp_on. split; intros.
  - rewrite (ord_eq Hc). split; [apply (inj f)|congruence].
  - apply (ord_opp Hc).
  - by eapply (ord_trans Hc).
Qed.

(** ** Strings *)

Definition ascii_cmp (a b : ascii) : comparison := N.compare (N_of_ascii a) (N_of_ascii b).

Fixpoint str_cmp (s t : string) : comparison :=
  match s, t with
  | "", "" => Eq
  | "", String _ _ => Lt
  | String _ _, "" => Gt
  | String a s, String b t => cmp_then (ascii_cmp a b) (str_cmp s t)
  end.

Lemma ascii_ord : Ord ascii_cmp.
Proof.
  unfold ascii_cmp. split.
  - intros x y. rewrite N.compare_eq_iff. split; [|by intros ->].
    intros H. by rewrite <-(ascii_N_embedding x), H, ascii_N_embedding.
  - intros x y. apply N.compare_antisym.
  - intros x y z. rewrite !N.compare_lt_iff. lia.
Qed.

Lemma str_ord : Ord str_cmp.
Proof.
  split.
  - induction x as [|a x IH]; intros [|b y]; simpl; try done.
    pose proof (ord_eq ascii_ord a b). specialize (IH y).
    destruct (ascii_cmp a b); simpl; split; intros; simplify_eq; naive_solver.
  - induction x as [|a x IH]; intros [|b y]; simpl; try done.
    rewrite IH, (ord_opp ascii_ord a b). by destruct (ascii_cmp a b).
  - induction x as [|a x IH]; intros [|b y] [|d z]; simpl; try done.
    destruct (ascii_cmp a b) eqn:E1, (ascii_cmp b d) eqn:E2; simpl; try done; intros H1 H2.
    + apply (ord_eq ascii_ord) in E1 as ->. rewrite E2. simpl. by eapply IH.
    + apply (ord_eq ascii_ord) in E1 as ->. by rewrite E2.
    + apply (ord_eq ascii_ord) in E2 as ->. by rewrite E1.
    + by rewrite (ord_trans ascii_ord _ _ _ E1 E2).
Qed.

(** [a <= b] on strings. *)
Definition str_le : relation string := cmp_le str_cmp.
#[export] Instance str_le_dec : RelDecision str_le := cmp_le_dec str_cmp.
#[export] Instance str_le_total : Total str_le := cmp_le_total str_ord.
#[export] Instance str_le_trans : Transitive str_le := cmp_le_trans str_ord.
#[export] Instance str_le_anti : AntiSymm eq str_le := cmp_le_anti str_ord.

(** Sorting by a comparison with the laws of [Ord] depends only on the multiset. *)
Lemma sort_perm_eq {A} (c : A -> A -> comparison) (l k : list A) :
  Ord c -> l ≡ₚ k -> merge_sort (cmp_le c) l = merge_sort (cmp_le c) k.
Proof.
  intros Hc Hlk. pose proof (cmp_le_total Hc). pose proof (cmp_le_trans Hc).
  pose proof (cmp_le_anti Hc). apply (Sorted_unique (cmp_le c)).
  - apply Sorted_merge_sort. apply _.
  - apply Sorted_merge_sort. apply _.
  - by rewrite !merge_sort_Permutation.
Qed.
