(* ===== verification/Json.v ===== *)
(** * [serde_json::Value]

    The data model of [serde_json], which the program uses for every variable value.
    The lock file resolves [serde_json] with [indexmap], so an object keeps its keys in
    insertion order and two objects are equal when they bind the same keys to equal
    values.  A number is one of [serde_json]'s three internal forms: a [u64], a negative
    [i64] or a finite [f64]; floats are the executable binary64 of [SpecFloat]. *)

From S2P Require Import Prelude RustStr.
From Stdlib Require Import SpecFloat.

(** ** Numbers *)

Inductive Number : Type :=
| PosInt (n : N)
| NegInt (z : Z)
| Float (f : spec_float).

Definition f64_of_Z (z : Z) : spec_float := binary_normalize 53 1024 z 0 false.

(** [Number::as_i64], [as_u64], [as_f64], [is_i64], [is_u64]. *)
Definition num_as_i64 (n : Number) : option Z :=
  match n with
  | PosInt n => if (Z.of_N n <=? i64_max)%Z then Some (Z.of_N n) else None
  | NegInt z => Some z
  | Float _ => None
  end.
Definition num_as_u64 (n : Number) : option N :=
  match n with PosInt n => Some n | NegInt _ | Float _ => None end.
Definition num_as_f64 (n : Number) : spec_float :=
  match n with
  | PosInt n => f64_of_Z (Z.of_N n)
  | NegInt z => f64_of_Z z
  | Float f => f
  end.
Definition num_is_i64 (n : Number) : bool := bool_decide (is_Some (num_as_i64 n)).
Definition num_is_u64 (n : Number) : bool := bool_decide (is_Some (num_as_u64 n)).

(** [Number]'s derived equality: the forms are compared, floats as [f64]. *)
Definition number_eqb (m n : Number) : bool :=
  match m, n with
  | PosInt m, PosInt n => (m =? n)%N
  | NegInt m, NegInt n => (m =? n)%Z
  | Float m, Float n => SFeqb m n
  | _, _ => false
  end.

(** The values [serde_json] can hold. *)
Definition number_ok (n : Number) : bool :=
  match n with
  | PosInt n => (n <=? u64_max)%N
  | NegInt z => (i64_min <=? z)%Z && (z <? 0)%Z
  | Float (S754_zero _) => true
  | Float (S754_finite _ m e) => bounded 53 1024 m e
  | Float _ => false
  end.

(** ** Values *)

Unset Elimination Schemes.
Inductive Value : Type :=
| VNull
| VBool (b : bool)
| VNumber (n : Number)
| VString (s : string)
| VArray (items : list Value)
| VObject (fields : list (string * Value)).
Set Elimination Schemes.

Section Value_ind.
Context (P : Value -> Prop).
Context (Hnull : P VNull) (Hbool : forall b, P (VBool b)) (Hnum : forall n, P (VNumber n)).
Context (Hstr : forall s, P (VString s)).
Context (Harr : forall items, Forall P items -> P (VArray items)).
Context (Hobj : forall fields, Forall (fun kv => P kv.2) fields -> P (VObject fields)).

Fixpoint Value_ind (v : Value) : P v :=
  match v with
  | VNull => Hnull
  | VBool b => Hbool b
  | VNumber n => Hnum n
  | VString s => Hstr s
  | VArray items =>
      Harr items
        ((fix go l : Forall P l :=
            match l with [] => Forall_nil_2 P | x :: l => Forall_cons_2 P x l (Value_ind x) (go l) end)
           items)
  | VObject fields =>
      Hobj fields
        ((fix go l : Forall (fun kv => P kv.2) l :=
            match l with
            | [] => Forall_nil_2 _
            | kv :: l => Forall_cons_2 (fun kv => P kv.2) kv l (Value_ind kv.2) (go l)
            end) fields)
  end.
End Value_ind.

#[export] Instance spec_float_eq_dec : EqDecision spec_float.
Proof. solve_decision. Defined.
#[export] Instance Number_eq_dec : EqDecision Number.
Proof. solve_decision. Defined.

#[export] Instance Value_eq_dec : EqDecision Value.
Proof.
  refine (fix go (v w : Value) : Decision (v = w) :=
    match v, w with
    | VNull, VNull => left eq_refl
    | VBool a, VBool b => cast_if (decide (a = b))
    | VNumber a, VNumber b => cast_if (decide (a = b))
    | VString a, VString b => cast_if (decide (a = b))
    | VArray a, VArray b =>
        cast_if ((fix go_list (l k : list Value) : Decision (l = k) :=
          match l, k with
          | [], [] => left eq_refl
          | x :: l, y :: k => cast_if_and (go x y) (go_list l k)
          | _, _ => right _
          end) a b)
    | VObject a, VObject b =>
        cast_if ((fix go_fields (l k : list (string * Value)) : Decision (l = k) :=
          match l, k with
          | [], [] => left eq_refl
          | (x, v) :: l, (y, w) :: k =>
              cast_if_and3 (decide (x = y)) (go v w) (go_fields l k)
          | _, _ => right _
          end) a b)
    | _, _ => right _
    end); clear go; abstract congruence.
Defined.

(** ** Objects: [serde_json::Map] *)

(** [map.get(key)]: keys are unique, so the first match is the only one. *)
Fixpoint map_get (key : string) (fields : list (string * Value)) : option Value :=
  match fields with
  | [] => None
  | (k, v) :: fields => if decide (k = key) then Some v else map_get key fields
  end.

Definition map_contains_key (key : string) (fields : list (string * Value)) : bool :=
  bool_decide (is_Some (map_get key fields)).

(** [map.insert(key, value)]: replaces the value in place or appends the key. *)
Fixpoint map_insert (key : string) (v : Value) (fields : list (string * Value)) :
    list (string * Value) :=
  match fields with
  | [] => [(key, v)]
  | (k, w) :: fields =>
      if decide (k = key) then (k, v) :: fields else (k, w) :: map_insert key v fields
  end.

Lemma map_get_insert key v fields key' :
  map_get key' (map_insert key v fields) =
  if decide (key = key') then Some v else map_get key' fields.
Proof.
  induction fields as [|[k w] fields IH]; simpl; [done|].
  destruct (decide (k = key)) as [->|]; simpl.
  - by destruct (decide (key = key')).
  - rewrite IH. repeat case_decide; congruence.
Qed.

Lemma map_insert_keys key v fields :
  NoDup fields.*1 -> NoDup (map_insert key v fields).*1.
Proof.
  induction fields as [|[k w] fields IH]; csimpl; [intros; apply NoDup_singleton|].
  rewrite NoDup_cons. intros [Hk Hf]. destruct (decide (k = key)) as [->|]; csimpl.
  - by apply NoDup_cons.
  - apply NoDup_cons. split; [|by apply IH].
    clear IH Hf. induction fields as [|[k' w'] fields IH]; csimpl; [set_solver|].
    csimpl in Hk. case_decide; csimpl; set_solver.
Qed.

(** ** Accessors *)

Definition as_str (v : Value) : option string :=
  match v with VString s => Some s | _ => None end.
Definition as_array (v : Value) : option (list Value) :=
  match v with VArray l => Some l | _ => None end.
Definition as_object (v : Value) : option (list (string * Value)) :=
  match v with VObject m => Some m | _ => None end.
Definition as_f64 (v : Value) : option spec_float :=
  match v with VNumber n => Some (num_as_f64 n) | _ => None end.
Definition as_u64 (v : Value) : option N :=
  match v with VNumber n => num_as_u64 n | _ => None end.
Definition as_i64 (v : Value) : option Z :=
  match v with VNumber n => num_as_i64 n | _ => None end.
Definition is_null (v : Value) : bool := match v with VNull => true | _ => false end.
Definition is_string (v : Value) : bool := match v with VString _ => true | _ => false end.
Definition is_boolean (v : Value) : bool := match v with VBool _ => true | _ => false end.
Definition is_number (v : Value) : bool := match v with VNumber _ => true | _ => false end.
Definition is_array (v : Value) : bool := match v with VArray _ => true | _ => false end.
Definition is_object (v : Value) : bool := match v with VObject _ => true | _ => false end.

(** [value.get(key)] on any value. *)
Definition value_get (key : string) (v : Value) : option Value :=
  match v with VObject m => map_get key m | _ => None end.

(** [value[key]]: a missing key reads as [null]. *)
Definition value_index (key : string) (v : Value) : Value := default VNull (value_get key v).

(** ** [Value]'s derived equality *)

Fixpoint value_eqb (v w : Value) {struct v} : bool :=
  match v, w with
  | VNull, VNull => true
  | VBool a, VBool b => Bool.eqb a b
  | VNumber a, VNumber b => number_eqb a b
  | VString a, VString b => bool_decide (a = b)
  | VArray a, VArray b =>
      (fix go (l k : list Value) : bool :=
         match l, k with
         | [], [] => true
         | x :: l, y :: k => value_eqb x y && go l k
         | _, _ => false
         end) a b
  | VObject a, VObject b =>
      Nat.eqb (length a) (length b) &&
      (fix go (l : list (string * Value)) : bool :=
         match l with
         | [] => true
         | (key, x) :: l =>
             match map_get key b with Some y => value_eqb x y | None => false end && go l
         end) a
  | _, _ => false
  end.

(** Well-formed values: unique keys and representable numbers, everywhere. *)
Fixpoint value_ok (v : Value) : bool :=
  match v with
  | VNumber n => number_ok n
  | VArray items => forallb value_ok items
  | VObject fields =>
      bool_decide (NoDup fields.*1) && forallb (fun kv => value_ok kv.2) fields
  | _ => true
  end.

Lemma map_get_elem_of key x fields :
  NoDup fields.*1 -> (key, x) ∈ fields -> map_get key fields = Some x.
Proof.
  induction fields as [|[k w] fields IH]; csimpl; [set_solver|].
  rewrite NoDup_cons. intros [Hk Hf] [[= -> ->]|Hin]%elem_of_cons.
  - by rewrite decide_True.
  - rewrite decide_False; [by apply IH|]. intros ->. apply Hk.
    apply list_elem_of_fmap. by exists (key, x).
Qed.

Lemma SFeqb_refl_ok f : number_ok (Float f) = true -> SFeqb f f = true.
Proof.
  unfold SFeqb. destruct f as [| | |s m e]; simpl; try done. intros _.
  rewrite Z.compare_refl. destruct s; by rewrite ?Pos.compare_cont_refl.
Qed.

Lemma number_eqb_refl n : number_ok n = true -> number_eqb n n = true.
Proof.
  destruct n as [n|z|f]; simpl number_eqb; intros H.
  - apply N.eqb_refl.
  - apply Z.eqb_refl.
  - by apply SFeqb_refl_ok.
Qed.

Lemma value_eqb_refl v : value_ok v = true -> value_eqb v v = true.
Proof.
  induction v as [| b | n | s | items IH | fields IH] using Value_ind; simpl; intros Hok.
  - done.
  - by destruct b.
  - by apply number_eqb_refl.
  - by apply bool_decide_eq_true.
  - apply forallb_True in Hok. clear -IH Hok.
    induction items as [|x l IHl]; [done|].
    apply Forall_cons in IH as [Hx Hl], Hok as [Hx' Hl']. by rewrite Hx, IHl.
  - rewrite Nat.eqb_refl. simpl.
    apply andb_true_iff in Hok as [Hnd Hok]. apply bool_decide_eq_true in Hnd.
    apply forallb_True in Hok.
    assert (forall l, (forall kv, kv ∈ l -> kv ∈ fields) ->
      Forall (fun kv => value_ok kv.2 = true -> value_eqb kv.2 kv.2 = true) l ->
      Forall (fun kv => value_ok kv.2 = true) l ->
      (fix go (l : list (string * Value)) : bool :=
         match l with
         | [] => true
         | (key, x) :: l =>
             match map_get key fields with Some y => value_eqb x y | None => false end && go l
         end) l = true) as Hgo; [|by apply Hgo].
    clear IH Hok. induction l as [|[key x] l IHl]; intros Hsub H1 H2; [done|].
    apply Forall_cons in H1 as [Hx Hl], H2 as [Hx' Hl']. simpl in *.
    rewrite (map_get_elem_of key x) by (done || apply Hsub; by left).
    rewrite Hx by done. apply IHl; [|done..]. intros kv Hkv. apply Hsub. by right.
Qed.

(** ** Text

    [serde_json::to_string] / [Display for Value] and [serde_json::from_str] are code of
    the [serde_json] crate: parameters of the model. *)

Class JsonText := {
  json_to_string : Value -> string;
  json_from_str : string -> option Value;
}.

(** Equal but for the digits of floats, which [serde_json] keeps only with its feature [float_roundtrip]. *)
Inductive reads_back : Value -> Value -> Prop :=
| reads_null : reads_back VNull VNull
| reads_bool b : reads_back (VBool b) (VBool b)
| reads_number n : reads_back (VNumber n) (VNumber n)
| reads_float f g : reads_back (VNumber (Float f)) (VNumber (Float g))
| reads_string s : reads_back (VString s) (VString s)
| reads_array l k : Forall2 reads_back l k -> reads_back (VArray l) (VArray k)
| reads_object l k : Forall2 (fun x y => x.1 = y.1 /\ reads_back x.2 y.2) l k -> reads_back (VObject l) (VObject k).

(** Documented behaviour of the pair: what is printed is either refused when it is read (its nesting is over the limit), or read
    as the same value up to floats. *)
Class JsonReadBack `{JsonText} : Prop :=
  json_read_back v w : value_ok v = true -> json_from_str (json_to_string v) = Some w -> reads_back v w.

(** [format!("{:?}")] of a string and of a [Vec<String>]. *)
Class DebugText := {
  debug_str : string -> string;
  debug_strs : list string -> string;
}.

(** [json!(n)] for an unsigned count. *)
Definition json_of_nat (n : nat) : Value := VNumber (PosInt (N.of_nat n)).

(** ** Indexing *)

(** [value["key"]], [value.get("key")] and [value["key"] == "text"]. *)
Definition value_field (key : string) (v : Value) : option Value :=
  match v with VObject fields => map_get key fields | _ => None end.
Definition value_at (key : string) (v : Value) : Value := default VNull (value_field key v).
Definition text_is (text : string) (v : Value) : bool := bool_decide (as_str v = Some text).

(** [value == n] of an integer literal. *)
Definition integer_is (n : Z) (v : Value) : bool := bool_decide (as_i64 v = Some n).

(** [as_array().into_iter().flatten()] *)
Definition array_items (v : Value) : list Value := default [] (as_array v).

Lemma reads_back_refl v : reads_back v v.
Proof.
  induction v as [| | | |items IH|fields IH]; constructor.
  - induction IH; by constructor.
  - induction IH; by constructor.
Qed.

Lemma reads_back_field key v w : reads_back v w -> option_Forall2 reads_back (value_field key v) (value_field key w).
Proof.
  destruct 1 as [| | | | | |l k H]; try constructor. simpl.
  induction H as [|[i x] [j y] l k [Hk Hxy] _ IH]; [constructor|]. simpl in *. subst j. case_decide; [by constructor|done].
Qed.
Lemma reads_back_at key v w : reads_back v w -> reads_back (value_at key v) (value_at key w).
Proof. intros H. unfold value_at. destruct (reads_back_field key _ _ H); simpl; [done|constructor]. Qed.
Lemma reads_back_str v w : reads_back v w -> as_str v = as_str w.
Proof. by destruct 1. Qed.
Lemma reads_back_is_object v w : reads_back v w -> is_object v = is_object w.
Proof. by destruct 1. Qed.
Lemma reads_back_items v w : reads_back v w -> Forall2 reads_back (array_items v) (array_items w).
Proof. by destruct 1; try constructor. Qed.

Lemma value_ok_field key v w : value_ok v = true -> value_field key v = Some w -> value_ok w = true.
Proof.
  destruct v as [| | | | |fields]; try done. simpl. intros [_ Hall]%andb_true_iff Hw.
  apply forallb_True in Hall. rewrite Forall_forall in Hall. apply (Hall (key, w)). clear Hall.
  induction fields as [|[k x] fields IH]; [done|]. simpl in Hw.
  case_decide; [simplify_eq; by left|right; auto].
Qed.

Lemma value_ok_items v items : value_ok v = true -> as_array v = Some items -> Forall (fun x => value_ok x = true) items.
Proof. destruct v; try done. simpl. intros H%forallb_True [= <-]. done. Qed.

Lemma map_get_perm key (l k : list (string * Value)) : NoDup l.*1 -> l ≡ₚ k -> map_get key l = map_get key k.
Proof.
  intros Hnd Hp. assert (NoDup k.*1) as Hnd' by (by rewrite <-Hp).
  apply option_eq. intros v. split; intros Hv.
  - apply map_get_elem_of; [done|]. rewrite <-Hp. clear -Hv.
    induction l as [|[k' v'] l IH]; [done|]. simpl in Hv. case_decide; [simplify_eq; by left|right; auto].
  - apply map_get_elem_of; [done|]. rewrite Hp. clear -Hv.
    induction k as [|[k' v'] l IH]; [done|]. simpl in Hv. case_decide; [simplify_eq; by left|right; auto].
Qed.
