(* ===== verification/Search.v ===== *)
(** * Graph searches with an explicit stack

    The two worklist loops of the engine, over an arbitrary successor function: one marks a
    vertex when it is popped (region entry, [engine/iteration.rs]), the other when it is pushed
    (transitive closures, [engine/graph.rs]).  A [Vec] used as a stack is a list whose head is
    the top.  Both run on fuel and both are proved to compute reachability with the stated fuel. *)

From stdpp Require Import relations fin_sets.
From S2P Require Import Prelude.

Lemma size_list_to_set_le `{Countable A} (l : list A) :
  size (list_to_set l : gset A) <= length l.
Proof.
  induction l as [|x l IH].
  { change (size (∅ : gset A) <= 0). by rewrite size_empty. }
  rewrite list_to_set_cons. cbn [length].
  rewrite size_union_alt, size_singleton.
  pose proof (subseteq_size (list_to_set l ∖ {[x]} : gset A) (list_to_set l) ltac:(set_solver)). lia.
Qed.

Section search.
Context {A : Type} `{Countable A} (succ : A -> list A).

Definition step (x y : A) : Prop := y ∈ succ x.

(** [while let Some(x) = stack.pop() { if !reached.insert(x) { continue; } push all; }] *)
Fixpoint pop_loop (fuel : nat) (stack : list A) (reached : gset A) : gset A :=
  match fuel, stack with
  | S fuel, x :: stack =>
      if bool_decide (x ∈ reached) then pop_loop fuel stack reached
      else pop_loop fuel (reverse (succ x) ++ stack) ({[x]} ∪ reached)
  | _, _ => reached
  end.

(** One round of the inner loop: push a neighbour that was not reached before. *)
Definition push_new (acc : list A * gset A) (y : A) : list A * gset A :=
  if bool_decide (y ∈ acc.2) then acc else (y :: acc.1, {[y]} ∪ acc.2).

Fixpoint push_loop (fuel : nat) (stack : list A) (reached : gset A) : gset A :=
  match fuel, stack with
  | S fuel, x :: stack =>
      let acc := fold_left push_new (succ x) (stack, reached) in
      push_loop fuel acc.1 acc.2
  | _, _ => reached
  end.

(** ** Marking on pop *)

Section pop.
Context (universe : gset A).
Context (Hclosed : forall x y, x ∈ universe -> y ∈ succ x -> y ∈ universe).

Definition pop_measure (stack : list A) (reached : gset A) : nat :=
  length stack + sum_list_with (fun x => length (succ x)) (elements (universe ∖ reached)).

Lemma pop_measure_new x stack reached :
  x ∈ universe -> x ∉ reached ->
  pop_measure (reverse (succ x) ++ stack) ({[x]} ∪ reached) < pop_measure (x :: stack) reached.
Proof.
  intros Hu Hr. unfold pop_measure. rewrite length_app, length_reverse.
  assert (elements (universe ∖ reached) ≡ₚ x :: elements (universe ∖ ({[x]} ∪ reached))) as ->.
  { rewrite <-elements_union_singleton by set_solver. f_equiv.
    intros y. destruct (decide (y = x)); set_solver. }
  simpl. lia.
Qed.

(** The reached set grows to the closure of the stack. *)
Lemma pop_loop_spec fuel stack reached :
  (forall y, y ∈ stack -> y ∈ universe) ->
  pop_measure stack reached <= fuel ->
  (forall x y, x ∈ reached -> y ∈ succ x -> y ∈ reached \/ y ∈ stack) ->
  forall y, y ∈ pop_loop fuel stack reached <->
    y ∈ reached \/ exists x, x ∈ stack /\ rtc step x y.
Proof.
  revert stack reached. induction fuel as [|fuel IH]; intros stack reached Hst Hm Hinv y.
  { unfold pop_measure in Hm. destruct stack; simpl in *; [|lia]. set_solver. }
  destruct stack as [|x stack]; cbn [pop_loop]; [set_solver|].
  case_bool_decide as Hx.
  - rewrite IH; [|set_solver|unfold pop_measure in *; simpl in *; lia|].
    2: { intros a b Ha Hb. destruct (Hinv a b Ha Hb) as [?|Hin]; [by left|].
         apply elem_of_cons in Hin as [->|?]; [by left|by right]. }
    split; [set_solver|]. intros [Hr|(z & [->|Hz]%elem_of_cons & Hzy)]; [by left| |by eauto].
    assert (forall a, rtc step a y -> a ∈ reached ->
              y ∈ reached \/ exists b, b ∈ stack /\ rtc step b y) as Hgo; [|by eapply Hgo].
    clear Hzy. intros a Hay. induction Hay as [a|a b c Hab Hbc IHc]; intros Ha; [by left|].
    destruct (Hinv a b Ha Hab) as [Hb|Hb]; [by apply IHc|].
    apply elem_of_cons in Hb as [->|Hb]; [by apply IHc|by right; eauto].
  - rewrite IH.
    + split.
      * intros [Hy|(z & Hz & Hzy)]; [|].
        { apply elem_of_union in Hy as [->%elem_of_singleton|?]; [right|by left].
          exists x. split; [by left|constructor]. }
        apply elem_of_app in Hz as [Hz|Hz].
        { rewrite elem_of_reverse in Hz. right. exists x. split; [by left|]. by econstructor. }
        right. exists z. split; [by right|done].
      * intros [Hy|(z & [->|Hz]%elem_of_cons & Hzy)]; [set_solver| |].
        { inversion Hzy as [|? w ? Hw Hwy]; subst; [set_solver|].
          right. exists w. split; [|done]. apply elem_of_app. left. by rewrite elem_of_reverse. }
        right. exists z. set_solver.
    + intros z. rewrite elem_of_app, elem_of_reverse. intros [Hz|Hz]; [|set_solver].
      eapply Hclosed; [|done]. set_solver.
    + enough (pop_measure (reverse (succ x) ++ stack) ({[x]} ∪ reached)
        < pop_measure (x :: stack) reached) by lia.
      apply pop_measure_new; set_solver.
    + intros a b Ha Hb. apply elem_of_union in Ha as [->%elem_of_singleton|Ha].
      { right. apply elem_of_app. left. by rewrite elem_of_reverse. }
      destruct (Hinv a b Ha Hb) as [?|Hin]; set_solver.
Qed.

(** Fuel for a stack of [n] vertices when no vertex has more than [d] successors. *)
Lemma pop_loop_reach fuel stack d :
  (forall y, y ∈ stack -> y ∈ universe) ->
  (forall x, x ∈ universe -> length (succ x) <= d) ->
  length stack + size universe * d <= fuel ->
  forall y, y ∈ pop_loop fuel stack ∅ <-> exists x, x ∈ stack /\ rtc step x y.
Proof.
  intros Hst Hd Hf y. rewrite pop_loop_spec; [set_solver|done| |set_solver].
  unfold pop_measure. rewrite difference_empty_L. unfold size, set_size in Hf. simpl in Hf.
  enough (sum_list_with (fun x => length (succ x)) (elements universe)
            <= length (elements universe) * d) by lia.
  assert (forall x, x ∈ elements universe -> length (succ x) <= d) as Hd'.
  { intros x Hx. apply Hd. by apply elem_of_elements. }
  clear Hf Hd. induction (elements universe) as [|x l IH]; simpl; [lia|].
  pose proof (Hd' x ltac:(by left)).
  enough (sum_list_with (fun x => length (succ x)) l <= length l * d) by lia.
  apply IH. set_solver.
Qed.
End pop.

(** ** Marking on push *)

Section push.
Context (universe : gset A).
Context (Hclosed : forall x y, x ∈ universe -> y ∈ succ x -> y ∈ universe).

Lemma push_new_spec l stack reached stack' reached' :
  fold_left push_new l (stack, reached) = (stack', reached') ->
  (forall y, y ∈ stack' <-> y ∈ stack \/ (y ∈ l /\ y ∉ reached)) /\
  (forall y, y ∈ reached' <-> y ∈ reached \/ y ∈ l).
Proof.
  revert stack reached. induction l as [|z l IH]; intros stack reached; simpl.
  { intros [= <- <-]. set_solver. }
  unfold push_new at 2. simpl. case_bool_decide as Hz; intros Hf; apply IH in Hf as [H1 H2].
  - split; intros y; [rewrite H1|rewrite H2]; set_solver.
  - split; intros y; [rewrite H1|rewrite H2]; destruct (decide (y = z)); set_solver.
Qed.

Lemma push_new_measure l stack reached stack' reached' :
  (forall y, y ∈ l -> y ∈ universe) ->
  fold_left push_new l (stack, reached) = (stack', reached') ->
  length stack' + size (universe ∖ reached') = length stack + size (universe ∖ reached).
Proof.
  revert stack reached. induction l as [|z l IH]; intros stack reached Hl; simpl.
  { by intros [= <- <-]. }
  unfold push_new at 2. simpl. case_bool_decide as Hz; intros Hf; apply IH in Hf; [done|set_solver| |set_solver].
  rewrite Hf. simpl.
  assert (universe ∖ reached ≡ {[z]} ∪ universe ∖ ({[z]} ∪ reached)) as Hu.
  { intros y. destruct (decide (y = z)); set_solver. }
  apply set_size_proper in Hu. rewrite Hu, (size_union {[z]} (universe ∖ ({[z]} ∪ reached))) by set_solver.
  rewrite size_singleton. lia.
Qed.

(** Expanded vertices have all their successors reached. *)
Lemma push_loop_spec fuel stack reached (expanded : A -> Prop) :
  (forall y, y ∈ stack -> y ∈ universe) ->
  length stack + size (universe ∖ reached) <= fuel ->
  (forall x y, expanded x -> y ∈ succ x -> y ∈ reached) ->
  (forall x, x ∈ reached -> expanded x \/ x ∈ stack) ->
  forall y, y ∈ push_loop fuel stack reached <->
    y ∈ reached \/ exists x, x ∈ stack /\ tc step x y.
Proof.
  revert stack reached expanded.
  induction fuel as [|fuel IH]; intros stack reached expanded Hst Hm Hexp Hre y.
  { destruct stack; simpl in *; [|lia]. set_solver. }
  destruct stack as [|x stack]; cbn [push_loop]; [set_solver|].
  destruct (fold_left push_new (succ x) (stack, reached)) as [stack' reached'] eqn:Hf.
  pose proof (push_new_measure _ _ _ _ _ (fun y => Hclosed x y (Hst x ltac:(by left))) Hf) as Hms.
  apply push_new_spec in Hf as [Hs Hr]. cbn [fst snd].
  rewrite (IH _ _ (fun z => expanded z \/ z = x)).
  - split.
    + intros [Hy|(z & Hz & Hzy)].
      * apply Hr in Hy as [?|?]; [by left|right]. exists x. split; [by left|by apply tc_once].
      * apply Hs in Hz as [Hz|[Hz _]]; right; [exists z; split; [by right|done]|].
        exists x. split; [by left|]. by eapply tc_l.
    + intros [Hy|(z & [->|Hz]%elem_of_cons & Hzy)]; [left; set_solver| |].
      * assert (forall a, tc step a y -> expanded a \/ a = x ->
                  y ∈ reached' \/ exists b, b ∈ stack' /\ tc step b y) as Hgo; [|by eapply Hgo; auto].
        clear Hzy. intros a Hay. induction Hay as [a b Hab|a b c Hab Hbc IHc]; intros Ha.
        { left. apply Hr. destruct Ha as [Ha| ->]; [left; by eapply Hexp|by right]. }
        assert (b ∈ reached') as Hb.
        { apply Hr. destruct Ha as [Ha| ->]; [left; by eapply Hexp|by right]. }
        apply Hr in Hb as [Hb|Hb].
        { apply Hre in Hb as [Hb|Hb]; [by apply IHc; left|].
          apply elem_of_cons in Hb as [->|Hb]; [by apply IHc; right|].
          right. exists b. set_solver. }
        destruct (decide (b ∈ reached)) as [Hb'|Hb'].
        { apply Hre in Hb' as [Hb'|Hb']; [by apply IHc; left|].
          apply elem_of_cons in Hb' as [->|Hb']; [by apply IHc; right|].
          right. exists b. set_solver. }
        right. exists b. set_solver.
      * right. exists z. set_solver.
  - intros z Hz. apply Hs in Hz as [Hz|[Hz _]]; [set_solver|].
    eapply Hclosed; [|done]. apply Hst. by left.
  - simpl in Hm. lia.
  - intros a b [Ha| ->] Hb; apply Hr; [left; by eapply Hexp | by right].
  - intros a Ha. apply Hr in Ha as [Ha|Ha].
    + apply Hre in Ha as [Ha|Ha]; [by left; left|].
      apply elem_of_cons in Ha as [->|Ha]; [by left; right|]. right. set_solver.
    + destruct (decide (a ∈ reached)) as [Ha'|Ha']; [|right; set_solver].
      apply Hre in Ha' as [Ha'|Ha']; [by left; left|].
      apply elem_of_cons in Ha' as [->|Ha']; [by left; right|]. right. set_solver.
Qed.

(** From one seed the loop reaches what at least one step reaches; one unit of fuel per vertex
    and one for the seed are enough. *)
Lemma push_loop_reach fuel seed :
  seed ∈ universe -> S (size universe) <= fuel ->
  forall y, y ∈ push_loop fuel [seed] ∅ <-> tc step seed y.
Proof.
  intros Hseed Hf y. rewrite (push_loop_spec _ _ _ (fun _ => False)); [|..].
  - set_solver.
  - set_solver.
  - rewrite difference_empty_L. simpl. lia.
  - done.
  - set_solver.
Qed.
End push.
End search.
