(* ===== verification/PortablePath.v ===== *)
(** * Portable and strict relative paths ([crates/utils/src/path/portable.rs], [strict.rs])

    Untrusted relative paths are reduced to a slash-separated canonical form that no
    platform reads as rooted, as a drive, as a device or as leaving its root.  Every
    workspace file reference a workflow variable holds goes through [parse]. *)

From Stdlib Require Import Ascii.
From S2P Require Import Prelude RustStr.
Definition SLASH : ascii := "/".
Definition BACKSLASH : ascii := "\".
Definition NUL : ascii := byte_at 0.

(** [PortableRelativePathError] *)
Inductive PortableRelativePathError : Type :=
| Rooted
| WindowsPrefix
| WindowsReservedName
| ParentTraversal
| NulByte.

#[export] Instance PortableRelativePathError_eq_dec : EqDecision PortableRelativePathError.
Proof. solve_decision. Defined.

Definition portable_error_message (e : PortableRelativePathError) : string :=
  match e with
  | Rooted => "relative path must not be rooted"
  | WindowsPrefix => "relative path must not contain a Windows drive or UNC prefix"
  | WindowsReservedName => "relative path must not contain a Windows reserved device name"
  | ParentTraversal => "relative path must not contain parent traversal"
  | NulByte => "relative path must not contain a NUL byte"
  end.

(** A path holds its canonical text ([PortableRelativePath]). *)
Record PortableRelativePath : Type := { normalized : string }.

#[export] Instance PortableRelativePath_eq_dec : EqDecision PortableRelativePath.
Proof. solve_decision. Defined.

Definition has_windows_prefix (value : string) : bool :=
  starts_with "//" value
  || starts_with (String BACKSLASH (String BACKSLASH "")) value
  || match value with
     | String a (String b _) => is_ascii_alphabetic a && bool_decide (b = ":"%char)
     | _ => false
     end.

(** The last byte of a device stem such as [COM1]. *)
Definition is_windows_reserved_device_name (segment : string) : bool :=
  let stem :=
    match split_once "." segment with Some (stem, _) => stem | None => segment end in
  let stem := trim_end_matches (fun c => is_char " " c || is_char "." c) stem in
  existsb (eq_ignore_ascii_case stem) ["CON"; "PRN"; "AUX"; "NUL"]
  || match stem with
     | String a (String b (String c (String d ""))) =>
         let head := String a (String b (String c "")) in
         (eq_ignore_ascii_case head "COM" || eq_ignore_ascii_case head "LPT")
         && ascii_in 49 57 d
     | _ => false
     end.

Definition is_separator (c : ascii) : bool := is_char SLASH c || is_char BACKSLASH c.

(** The loop over [value.split(['/', '\\'])]. *)
Fixpoint parse_segments (segments : list string) :
    result PortableRelativePathError (list string) :=
  match segments with
  | [] => Ok []
  | segment :: rest =>
      if bool_decide (segment = "") || bool_decide (segment = ".") then parse_segments rest
      else if bool_decide (segment = "..") then Err ParentTraversal
      else if has_windows_prefix segment then Err WindowsPrefix
      else if is_windows_reserved_device_name segment then Err WindowsReservedName
      else segments ← parse_segments rest; Ok (segment :: segments)
  end.

Definition parse (value : string) : result PortableRelativePathError PortableRelativePath :=
  if negb (str_free (is_char NUL) value) then Err NulByte
  else if has_windows_prefix value then Err WindowsPrefix
  else if starts_with "/" value || starts_with (String BACKSLASH "") value then Err Rooted
  else
    segments ← parse_segments (split_on is_separator value);
    Ok {| normalized := join "/" segments |}.

Definition is_root (p : PortableRelativePath) : bool := bool_decide (normalized p = "").
Definition as_path_str (p : PortableRelativePath) : string := normalized p.

(** [to_path_buf]: the components handed to the host. *)
Definition to_path_components (p : PortableRelativePath) : list string :=
  filter (fun segment => segment <> "") (split_char SLASH (normalized p)).

(** [std::path::Component]; [Normal None] is a component that is not UTF-8. *)
Inductive Component : Type :=
| Prefix
| RootDir
| CurDir
| ParentDir
| Normal (segment : option string).

(** The errors of [from_host_path] ([PathContainmentError]). *)
Inductive HostPathError : Type := NonUtf8Path | NonPortablePath | NonCanonicalPath.

Fixpoint host_segments (components : list Component) : result HostPathError (list string) :=
  match components with
  | [] => Ok []
  | Normal segment :: rest =>
      segment ← ok_or segment NonUtf8Path;
      _ ← reject_if (negb (str_free is_separator segment) || has_windows_prefix segment
                     || is_windows_reserved_device_name segment) NonPortablePath;
      segments ← host_segments rest; Ok (segment :: segments)
  | CurDir :: rest => host_segments rest
  | (ParentDir | RootDir | Prefix) :: _ => Err NonCanonicalPath
  end.

Definition from_host_path (components : list Component) :
    result HostPathError PortableRelativePath :=
  segments ← host_segments components; Ok {| normalized := join "/" segments |}.

(** ** The type invariant *)

(** A segment every platform reads as one ordinary file name. *)
Definition segment_ok (segment : string) : bool :=
  negb (bool_decide (segment = "")) && negb (bool_decide (segment = "."))
  && negb (bool_decide (segment = "..")) && str_free is_separator segment
  && str_free (is_char NUL) segment && negb (has_windows_prefix segment)
  && negb (is_windows_reserved_device_name segment).

(** The invariant of the type: a joined list of ordinary segments. *)
Definition portable_ok (p : PortableRelativePath) : Prop :=
  exists segments, Forall (fun s => segment_ok s = true) segments /\
    normalized p = join "/" segments.

Lemma segment_ok_spec s :
  segment_ok s = true <->
  s <> "" /\ s <> "." /\ s <> ".." /\ str_free is_separator s = true /\
  str_free (is_char NUL) s = true /\ has_windows_prefix s = false /\
  is_windows_reserved_device_name s = false.
Proof. unfold segment_ok. reflect_bools. naive_solver. Qed.

Lemma str_free_impl (p q : ascii -> bool) s :
  (forall c, q c = true -> p c = true) -> str_free p s = true -> str_free q s = true.
Proof.
  intros Hpq. induction s as [|c s IH]; simpl; [done|].
  intros [Hc%negb_true_iff Hs]%andb_true_iff. rewrite IH by done.
  destruct (q c) eqn:Hq; [|done]. apply Hpq in Hq. congruence.
Qed.

Lemma split_on_str_free p q s :
  str_free q s = true -> Forall (fun seg => str_free q seg = true) (split_on p s).
Proof.
  induction s as [|c s IH]; simpl; [by repeat constructor|].
  intros [Hc Hs]%andb_true_iff. specialize (IH Hs).
  destruct (p c); [by constructor|].
  destruct (split_on p s) as [|seg segs]; [by repeat constructor; simpl; rewrite Hc|].
  apply Forall_cons in IH as [H1 H2]. constructor; [|done]. simpl. by rewrite Hc.
Qed.

Lemma join_str_free q sep segs :
  str_free q sep = true -> Forall (fun seg => str_free q seg = true) segs ->
  str_free q (join sep segs) = true.
Proof.
  intros Hsep. induction 1 as [|s segs Hs Hsegs IH]; [done|].
  destruct (decide (segs = [])) as [->|Hne]; [done|].
  rewrite join_cons by done. by rewrite !str_free_app, Hs, Hsep, IH.
Qed.

(** The loop keeps exactly acceptable segments. *)
Lemma parse_segments_ok segs out :
  Forall (fun s => str_free is_separator s = true) segs ->
  Forall (fun s => str_free (is_char NUL) s = true) segs ->
  parse_segments segs = Ok out -> Forall (fun s => segment_ok s = true) out.
Proof.
  intros Hsep. revert out. induction Hsep as [|s segs Hs Hsegs IH]; intros out Hnul; simpl.
  { intros [= <-]. constructor. }
  apply Forall_cons in Hnul as [Hn Hnul].
  destruct (bool_decide (s = "") || bool_decide (s = ".")) eqn:E1; [by apply IH|].
  destruct (bool_decide (s = "..")) eqn:E2; [done|].
  destruct (has_windows_prefix s) eqn:E3; [done|].
  destruct (is_windows_reserved_device_name s) eqn:E4; [done|].
  intros H. inv_ok. constructor; [|by apply IH].
  apply segment_ok_spec. reflect_bools. naive_solver.
Qed.

(** Acceptable segments pass the loop unchanged. *)
Lemma parse_segments_id segs :
  Forall (fun s => segment_ok s = true) segs -> parse_segments segs = Ok segs.
Proof.
  induction 1 as [|s segs Hs Hsegs IH]; simpl; [done|].
  apply segment_ok_spec in Hs as (? & ? & ? & _ & _ & -> & ->).
  rewrite !bool_decide_false by done. simpl. by rewrite IH.
Qed.

Lemma split_join_ok segs :
  segs <> [] -> Forall (fun s => segment_ok s = true) segs ->
  split_on is_separator (join "/" segs) = segs.
Proof.
  intros Hne Hok. apply (split_on_join _ SLASH); [done|done|].
  eapply Forall_impl; [exact Hok|]. intros s Hs. apply segment_ok_spec in Hs. tauto.
Qed.

(** A canonical text starts with an ordinary segment. *)
Lemma join_head_ok segs :
  segs <> [] -> Forall (fun s => segment_ok s = true) segs ->
  has_windows_prefix (join "/" segs) = false /\
  starts_with "/" (join "/" segs) = false /\
  starts_with (String BACKSLASH "") (join "/" segs) = false.
Proof.
  intros Hne Hok. destruct Hok as [|s segs Hs Hok]; [done|].
  apply segment_ok_spec in Hs as (Hs0 & _ & _ & Hsep & _ & Hwin & _).
  destruct s as [|a s]; [done|].
  assert (exists rest, join "/" (String a s :: segs) = String a (s +:+ rest) /\
            (rest = "" \/ exists r, rest = String SLASH r)) as (rest & -> & Hrest).
  { destruct (decide (segs = [])) as [->|Hsegs].
    - exists "". simpl. rewrite app_nil_r_str. naive_solver.
    - rewrite join_cons by done. exists ("/" +:+ join "/" segs). simpl. eauto. }
  simpl in Hsep. apply andb_true_iff in Hsep as [Ha Hsep].
  unfold is_separator, is_char in Ha. reflect_bools. destruct Ha as [Ha1 Ha2].
  unfold has_windows_prefix, starts_with, SLASH, BACKSLASH in *. simpl in *.
  rewrite !decide_False in * by congruence. simpl in *.
  split; [|done]. destruct s as [|b s]; simpl in *; [|done].
  destruct Hrest as [-> | [r ->]]; simpl; [done|].
  by rewrite andb_false_r.
Qed.

Lemma parse_join segs :
  Forall (fun s => segment_ok s = true) segs ->
  parse (join "/" segs) = Ok {| normalized := join "/" segs |}.
Proof.
  intros Hok. destruct (decide (segs = [])) as [->|Hne]; [done|].
  unfold parse. destruct (join_head_ok segs Hne Hok) as (-> & -> & ->). simpl.
  rewrite join_str_free; [|done|].
  - simpl. rewrite split_join_ok by done. by rewrite parse_segments_id.
  - eapply Forall_impl; [exact Hok|]. intros s Hs. apply segment_ok_spec in Hs. tauto.
Qed.

Lemma parse_portable_ok value p : parse value = Ok p -> portable_ok p.
Proof.
  unfold parse. destruct (negb _) eqn:Hnul; [done|].
  destruct (has_windows_prefix value); [done|]. destruct (_ || _); [done|].
  intros H. inv_ok. rename x into segments.
  exists segments. split; [|done]. apply negb_false_iff in Hnul.
  eapply parse_segments_ok; [..|done]; [apply split_on_free | by apply split_on_str_free].
Qed.

Lemma parse_of_ok p : portable_ok p -> parse (normalized p) = Ok p.
Proof. destruct p as [n]. intros (segs & Hok & Hn). simpl in *. subst n. by apply parse_join. Qed.

(** The host components of a path are its segments. *)
Lemma to_path_components_ok p segs :
  Forall (fun s => segment_ok s = true) segs -> normalized p = join "/" segs ->
  to_path_components p = segs.
Proof.
  intros Hok Hp. unfold to_path_components. rewrite Hp.
  destruct (decide (segs = [])) as [->|Hne]; [done|].
  unfold split_char. rewrite (split_on_join (is_char SLASH) SLASH); [|done|done|].
  - clear Hp Hne. induction Hok as [|s segs Hs Hok IH]; [done|].
    rewrite filter_cons_True by (apply segment_ok_spec in Hs; tauto). by rewrite IH.
  - eapply Forall_impl; [exact Hok|]. intros s Hs.
    apply segment_ok_spec in Hs as (_ & _ & _ & Hs & _).
    eapply str_free_impl; [|exact Hs]. intros c Hc. unfold is_separator. by rewrite Hc.
Qed.

(** ** Properties *)

(** Parsing is canonicalisation: the text of a parsed path parses to the same path, its
    segments are ordinary file names on every platform (no separator, NUL, drive, device or
    parent traversal), and they are exactly the components handed to the host. *)
Theorem parse_canonical value p :
  parse value = Ok p ->
  parse (as_path_str p) = Ok p /\
  exists segments,
    to_path_components p = segments /\ as_path_str p = join "/" segments /\
    Forall (fun s => segment_ok s = true) segments.
Proof.
  intros Hp%parse_portable_ok. split; [by apply parse_of_ok|].
  destruct Hp as (segs & Hok & Hn). exists segs.
  split; [by apply to_path_components_ok | done].
Qed.

Lemma parse_canonical_witness :
  parse "docs\./a//b.txt" = Ok {| normalized := "docs/a/b.txt" |} /\
  parse "docs/a/b.txt" = Ok {| normalized := "docs/a/b.txt" |}.
Proof.
  assert (parse "docs\./a//b.txt" = Ok {| normalized := "docs/a/b.txt" |}) as H
    by reflexivity.
  split; [exact H | exact (proj1 (parse_canonical _ _ H))].
Defined.

(** ** Strict relative paths ([crates/utils/src/path/strict.rs])

    Paths that name files under a root which is written to.  Unlike a portable path, an irregular
    spelling is refused rather than normalized. *)
Local Open Scope ora_scope.

Record RelativePathLimits : Type := {
  max_segment_bytes : nat;
  max_segment_utf16_units : nat;
  max_path_bytes : nat;
  max_depth : nat;
}.
Definition default_limits : RelativePathLimits :=
  {| max_segment_bytes := 255; max_segment_utf16_units := 255; max_path_bytes := 1024; max_depth := 32 |}.

Inductive StrictRelativePathError : Type := EncodingInvalid | Unsafe | SegmentTooLong | TooLong | TooDeep.
#[export] Instance StrictRelativePathError_eq_dec : EqDecision StrictRelativePathError.
Proof. solve_decision. Defined.

Record StrictRelativePath : Type := { strict_path : string }.
#[export] Instance StrictRelativePath_eq_dec : EqDecision StrictRelativePath.
Proof. solve_decision. Defined.

(** [char::is_control] on UTF-8: the C0 controls, DEL and the C1 controls ([C2 80] to [C2 9F]). *)
Fixpoint has_control (s : string) : bool :=
  match s with
  | "" => false
  | String c rest =>
      (N_of_ascii c <? 32)%N || (N_of_ascii c =? 127)%N
      || ((N_of_ascii c =? 194)%N && match rest with String d _ => ascii_in 128 159 d | "" => false end)
      || has_control rest
  end.

(** [encode_utf16().count()]: one unit for a character, two for one of four bytes. *)
Fixpoint utf16_units (s : string) : nat :=
  match s with
  | "" => 0
  | String c rest => (if is_continuation c then 0 else if (240 <=? N_of_ascii c)%N then 2 else 1) + utf16_units rest
  end.

(** [raw.replace('\\', "/")] *)
Fixpoint to_slashes (s : string) : string :=
  match s with "" => "" | String c rest => String (if is_char BACKSLASH c then SLASH else c) (to_slashes rest) end.

Definition looks_like_drive_or_unc (normalized : string) : bool :=
  match normalized with
  | String a (String b _) => is_ascii_alphabetic a && bool_decide (b = ":"%char)
  | _ => false
  end || starts_with "//" normalized.

Definition irregular_segment (segment : string) : bool :=
  bool_decide (segment = "") || bool_decide (segment = ".") || bool_decide (segment = "..").
Definition validate_shape (normalized : string) : result StrictRelativePathError unit :=
  reject (starts_with "/" normalized || str_contains "//" normalized || looks_like_drive_or_unc normalized) with Unsafe;
  reject_if (existsb irregular_segment (split_char SLASH normalized)) Unsafe.

Definition segment_too_long (limits : RelativePathLimits) (segment : string) : bool :=
  (max_segment_bytes limits <? String.length segment) || (max_segment_utf16_units limits <? utf16_units segment).

Definition strict_parse_with_limits (raw : string) (limits : RelativePathLimits) :
    result StrictRelativePathError StrictRelativePath :=
  reject (has_control raw) with EncodingInvalid;
  let normalized := to_slashes raw in
  _ ← validate_shape normalized;
  _ ← map_err (fun _ => Unsafe) (parse normalized);
  let segments := split_char SLASH normalized in
  reject (max_depth limits <? length segments - 1) with TooDeep;
  reject (max_path_bytes limits <? String.length normalized) with TooLong;
  reject (existsb (segment_too_long limits) segments) with SegmentTooLong;
  Ok {| strict_path := normalized |}.
Definition strict_parse (raw : string) : result StrictRelativePathError StrictRelativePath :=
  strict_parse_with_limits raw default_limits.

Definition strict_root : StrictRelativePath := {| strict_path := "" |}.
(** The file name: what follows the last slash. *)
Definition strict_file_name (p : StrictRelativePath) : string := default "" (last (split_char SLASH (strict_path p))).
Definition strict_parent (p : StrictRelativePath) : option StrictRelativePath :=
  if bool_decide (strict_path p = "") then None
  else
    let segments := split_char SLASH (strict_path p) in
    Some {| strict_path := join "/" (take (length segments - 1) segments) |}.
Definition append_segment (p : StrictRelativePath) (segment : string) : StrictRelativePath :=
  if bool_decide (strict_path p = "") then {| strict_path := segment |}
  else {| strict_path := strict_path p +:+ "/" +:+ segment |}.
Definition strict_strip_prefix (p prefix : StrictRelativePath) : option StrictRelativePath :=
  if bool_decide (strict_path prefix = "") then Some p
  else (fun r => {| strict_path := r |}) <$> str_strip_prefix (strict_path prefix +:+ "/") (strict_path p).

(** [to_path]: a host path is its list of components. *)
Definition to_path (p : StrictRelativePath) (root : list string) : list string :=
  if bool_decide (strict_path p = "") then root else root ++ split_char SLASH (strict_path p).

(** ** What a parsed path is *)

Lemma to_slashes_free s : str_free (is_char BACKSLASH) (to_slashes s) = true.
Proof.
  induction s as [|c s IH]; [done|]. simpl. rewrite IH, andb_true_r.
  destruct (is_char BACKSLASH c) eqn:E; [done|]. by rewrite E.
Qed.
Lemma to_slashes_id s : str_free (is_char BACKSLASH) s = true -> to_slashes s = s.
Proof.
  induction s as [|c s IH]; [done|]. simpl. intros [H%negb_true_iff Hs]%andb_true_iff. by rewrite H, IH.
Qed.
Lemma has_control_slashes s : has_control s = false -> has_control (to_slashes s) = false.
Proof.
  induction s as [|c s IH]; [done|]. cbn [has_control to_slashes]. rewrite !orb_false_iff.
  intros [[[H1 H2] H3] H4]. destruct (is_char BACKSLASH c) eqn:E.
  - split; [|by apply IH]. done.
  - split_and!; [done|done| |by apply IH]. destruct (N_of_ascii c =? 194)%N eqn:E2; [|done]. simpl in *.
    destruct s as [|d s]; [done|]. cbn [to_slashes]. by destruct (is_char BACKSLASH d).
Qed.

(** A text without backslashes is split the same way at slashes and at separators. *)
Lemma split_separators s : str_free (is_char BACKSLASH) s = true -> split_on is_separator s = split_char SLASH s.
Proof.
  unfold split_char. induction s as [|c s IH]; [done|]. simpl. intros [H%negb_true_iff Hs]%andb_true_iff.
  unfold is_separator at 1. rewrite H, orb_false_r, IH by done. done.
Qed.

(** The loop of the portable parser over regular segments keeps them all. *)
Lemma parse_segments_regular segs out : Forall (fun s => irregular_segment s = false) segs ->
  parse_segments segs = Ok out -> out = segs.
Proof.
  intros H. revert out. induction H as [|s segs Hs _ IH]; intros out; simpl; [by intros [= <-]|].
  unfold irregular_segment in Hs. apply orb_false_iff in Hs as [Hs ->]. rewrite Hs.
  destruct (has_windows_prefix s); [done|]. destruct (is_windows_reserved_device_name s); [done|].
  intros (rest & Hr & [= <-])%bind_Ok. f_equal. by apply IH.
Qed.

(** The segments of a parsed path, within the limits. *)
Record strict_segments (limits : RelativePathLimits) (segments : list string) : Prop := {
  ss_ne : segments <> [];
  ss_ok : Forall (fun s => segment_ok s = true) segments;
  ss_depth : length segments - 1 <= max_depth limits;
  ss_bytes : String.length (join "/" segments) <= max_path_bytes limits;
  ss_short : Forall (fun s => segment_too_long limits s = false) segments;
}.

Lemma strict_parse_segments raw limits p : strict_parse_with_limits raw limits = Ok p ->
  strict_segments limits (split_char SLASH (strict_path p))
  /\ has_control (strict_path p) = false /\ str_free (is_char BACKSLASH) (strict_path p) = true
  /\ strict_path p = to_slashes raw.
Proof.
  unfold strict_parse_with_limits. intros [Hc H]%reject_Ok. apply bind_Ok in H as (? & Hs & H).
  apply bind_Ok in H as (q & Hp & H). apply map_err_Ok in Hp. apply reject_Ok in H as [Hd%Nat.ltb_ge H].
  apply reject_Ok in H as [Hb%Nat.ltb_ge H]. apply reject_Ok in H as [Hl H]. apply Ok_inj in H as <-. simpl.
  pose proof (to_slashes_free raw) as Hf. set (n := to_slashes raw) in *.
  split_and!; [|by apply has_control_slashes|done|done].
  unfold validate_shape in Hs. apply reject_Ok in Hs as [_ Hs]. apply reject_if_Ok in Hs.
  assert (Forall (fun s => irregular_segment s = false) (split_char SLASH n)) as Hreg by by apply existsb_False.
  unfold parse in Hp. destruct (negb _) eqn:Hnul; [done|]. apply negb_false_iff in Hnul.
  destruct (has_windows_prefix n); [done|]. destruct (_ || _); [done|].
  apply bind_Ok in Hp as (segs & Hsegs & _). rewrite split_separators in Hsegs by done.
  pose proof (parse_segments_regular _ _ Hreg Hsegs) as ->. split.
  - apply split_on_ne.
  - eapply parse_segments_ok; [..|exact Hsegs].
    + rewrite <-split_separators by done. apply split_on_free.
    + by apply split_on_str_free.
  - done.
  - by rewrite join_split_char.
  - by apply existsb_False.
Qed.

(** A strict path stays under its root.  A parsed path is its own only spelling: its text parses
    to the same path.  On any root it names exactly the root followed by its segments, at least
    one and at most 33 of them, each of which is one ordinary file name on every platform (no
    separator, traversal, drive or device), within the length limits. *)
Theorem strict_path_contained (raw : string) (p : StrictRelativePath) (Hp : strict_parse raw = Ok p) :
  strict_parse (strict_path p) = Ok p
  /\ exists segments, strict_path p = join "/" segments
       /\ (forall root, to_path p root = root ++ segments)
       /\ 1 <= length segments <= 33
       /\ String.length (strict_path p) <= 1024
       /\ Forall (fun s => segment_ok s = true /\ String.length s <= 255 /\ utf16_units s <= 255) segments.
Proof.
  pose proof Hp as ([Hne Hok Hd Hb Hs] & Hc & Hf & Hn)%strict_parse_segments. split.
  - unfold strict_parse, strict_parse_with_limits in *. rewrite Hc. rewrite (to_slashes_id _ Hf).
    rewrite <-Hn in Hp. by destruct (has_control raw).
  - exists (split_char SLASH (strict_path p)). rewrite join_split_char in *. split_and!; [done| | |by simpl in Hd; lia|done|].
    + intros root. unfold to_path. case_bool_decide as E; [|done]. exfalso. rewrite E in Hok. simpl in Hok.
      by apply Forall_cons in Hok as [H _].
    + destruct (split_char SLASH (strict_path p)); [done|simpl; lia].
    + apply Forall_and. split; [done|]. eapply Forall_impl; [exact Hs|]. intros s. unfold segment_too_long.
      rewrite orb_false_iff, !Nat.ltb_ge. done.
Qed.

Lemma strict_path_contained_witness :
  strict_parse "docs/a.md" = Ok {| strict_path := "docs/a.md" |}
  /\ exists segments, "docs/a.md" = join "/" segments
       /\ (forall root, to_path {| strict_path := "docs/a.md" |} root = root ++ segments)
       /\ 1 <= length segments <= 33 /\ String.length "docs/a.md" <= 1024
       /\ Forall (fun s => segment_ok s = true /\ String.length s <= 255 /\ utf16_units s <= 255) segments.
Proof.
  assert (strict_parse "docs\a.md" = Ok {| strict_path := "docs/a.md" |}) as H by (vm_compute; reflexivity).
  exact (strict_path_contained "docs\a.md" {| strict_path := "docs/a.md" |} H).
Defined.
