(* ===== verification/NodeTypes.v ===== *)
(** * Node kinds and persisted rows

    [crates/application/src/workflow_run/engine/node_type.rs] and the run and node-run rows
    of [crates/domain/src/workflow_run.rs] that the engine reads. *)

From S2P Require Import Prelude RustStr.

(** ** [NodeType] *)

Inductive NodeType : Type :=
| Start
| Agent
| Prompt
| Condition
| Aggregator
| Tool
| Output
| Loop
| LoopExit
| Iteration.

#[export] Instance NodeType_eq_dec : EqDecision NodeType.
Proof. solve_decision. Defined.

Definition node_type_as_str (t : NodeType) : string :=
  match t with
  | Start => "start"
  | Agent => "agent"
  | Prompt => "prompt"
  | Condition => "condition"
  | Aggregator => "aggregator"
  | Tool => "tool"
  | Output => "output"
  | Loop => "loop"
  | LoopExit => "loopExit"
  | Iteration => "iteration"
  end.

Definition supported (t : NodeType) : bool :=
  match t with
  | Start | Agent | Condition | Aggregator | Output | Loop | LoopExit | Iteration => true
  | Prompt | Tool => false
  end.

Definition is_composite (t : NodeType) : bool :=
  match t with Iteration => true | _ => false end.

(** [impl FromStr for NodeType]; [Err] carries the unknown text ([UnknownNodeType]). *)
Definition node_type_from_str (value : string) : result string NodeType :=
  if bool_decide (value = "start") then Ok Start
  else if bool_decide (value = "agent") then Ok Agent
  else if bool_decide (value = "prompt") then Ok Prompt
  else if bool_decide (value = "condition") then Ok Condition
  else if bool_decide (value = "aggregator") then Ok Aggregator
  else if bool_decide (value = "tool") then Ok Tool
  else if bool_decide (value = "output") then Ok Output
  else if bool_decide (value = "loop") then Ok Loop
  else if bool_decide (value = "loopExit") then Ok LoopExit
  else if bool_decide (value = "iteration") then Ok Iteration
  else Err value.

Lemma node_type_round_trip t : node_type_from_str (node_type_as_str t) = Ok t.
Proof. by destruct t. Qed.

Lemma node_type_from_str_Ok value t :
  node_type_from_str value = Ok t -> value = node_type_as_str t.
Proof. unfold node_type_from_str. intros H. repeat case_bool_decide; by inv_ok. Qed.

Lemma node_type_as_str_inj t u : node_type_as_str t = node_type_as_str u -> t = u.
Proof.
  intros H. pose proof (node_type_round_trip t) as Ht. rewrite H, node_type_round_trip in Ht.
  by apply Ok_inj in Ht.
Qed.

(** ** Statuses *)

Inductive WorkflowRunStatus : Type :=
| RunPending | RunRunning | RunSucceeded | RunFailed | RunCancelled.

#[export] Instance WorkflowRunStatus_eq_dec : EqDecision WorkflowRunStatus.
Proof. solve_decision. Defined.

Inductive WorkflowNodeStatus : Type :=
| Pending | Running | Succeeded | Failed | Cancelled.

#[export] Instance WorkflowNodeStatus_eq_dec : EqDecision WorkflowNodeStatus.
Proof. solve_decision. Defined.

Definition run_database_value (s : WorkflowRunStatus) : Z :=
  match s with
  | RunPending => 0 | RunRunning => 1 | RunSucceeded => 2 | RunFailed => 3 | RunCancelled => 4
  end.

(** [Err] carries the rejected integer ([InvalidWorkflowRunStatus]). *)
Definition run_from_database_value (value : Z) : result Z WorkflowRunStatus :=
  match value with
  | 0 => Ok RunPending | 1 => Ok RunRunning | 2 => Ok RunSucceeded
  | 3 => Ok RunFailed | 4 => Ok RunCancelled
  | _ => Err value
  end%Z.

Definition node_database_value (s : WorkflowNodeStatus) : Z :=
  match s with
  | Pending => 0 | Running => 1 | Succeeded => 2 | Failed => 3 | Cancelled => 4
  end.

(** [Err] carries the rejected integer ([InvalidWorkflowNodeStatus]). *)
Definition node_from_database_value (value : Z) : result Z WorkflowNodeStatus :=
  match value with
  | 0 => Ok Pending | 1 => Ok Running | 2 => Ok Succeeded | 3 => Ok Failed | 4 => Ok Cancelled
  | _ => Err value
  end%Z.

Lemma run_status_codes s z :
  run_from_database_value z = Ok s <-> z = run_database_value s.
Proof.
  split.
  - unfold run_from_database_value.
    destruct z as [|[[[]|[]|]|[[]|[]|]|]|]; intros H; simpl in H; by inv_ok.
  - intros ->. by destruct s.
Qed.

Lemma node_status_codes s z :
  node_from_database_value z = Ok s <-> z = node_database_value s.
Proof.
  split.
  - unfold node_from_database_value.
    destruct z as [|[[[]|[]|]|[[]|[]|]|]|]; intros H; simpl in H; by inv_ok.
  - intros ->. by destruct s.
Qed.

(** ** Node-run rows

    [WorkflowNodeRun]; session, payload and audit columns are carried as opaque text and
    are not read by the definitions of this development unless they say so. *)

Record WorkflowNodeRun : Type := {
  nr_id : string;
  nr_run_id : string;
  nr_scope_id : string;
  nr_node_id : string;
  nr_node_type : string;
  nr_session_id : option string;
  nr_status : WorkflowNodeStatus;
  nr_input : option string;
  nr_output : option string;
  nr_error : option string;
  nr_payload : option string;
  nr_iteration : option N;
  nr_started_at : option Z;
  nr_finished_at : option Z;
}.

(** A row with the columns the scheduler looks at; the others empty. *)
Definition plain_row (id node_id node_type : string) (status : WorkflowNodeStatus) :
    WorkflowNodeRun :=
  {| nr_id := id; nr_run_id := "run"; nr_scope_id := "scope"; nr_node_id := node_id;
     nr_node_type := node_type; nr_session_id := None; nr_status := status;
     nr_input := None; nr_output := None; nr_error := None; nr_payload := None;
     nr_iteration := None; nr_started_at := None; nr_finished_at := None |}.

(** [WorkflowNodeRun::in_iteration]. *)
Definition in_iteration (iteration : option N) (row : WorkflowNodeRun) : WorkflowNodeRun :=
  {| nr_id := nr_id row; nr_run_id := nr_run_id row; nr_scope_id := nr_scope_id row;
     nr_node_id := nr_node_id row; nr_node_type := nr_node_type row;
     nr_session_id := nr_session_id row; nr_status := nr_status row;
     nr_input := nr_input row; nr_output := nr_output row; nr_error := nr_error row;
     nr_payload := nr_payload row; nr_iteration := iteration;
     nr_started_at := nr_started_at row; nr_finished_at := nr_finished_at row |}.
