(* ===== verification/VariablePool.v ===== *)
(** * Workflow variables ([engine/variable_value.rs], [engine/variable_pool.rs])

    The vocabulary of declared types, the check that a JSON value has a declared type and
    the normalisation every value passes before it enters the variable pool; then the pool of a run. *)

From S2P Require Import Prelude RustStr Json PortablePath.

Definition supported_types : list string :=
  ["string"; "number"; "integer"; "boolean"; "secret"; "file"; "object"; "any"; "array";
   "array[string]"; "array[number]"; "array[object]"; "array[boolean]"; "array[file]";
   "array[any]"].

Definition is_supported_variable_type (value_type : string) : bool :=
  bool_decide (value_type ∈ supported_types).

(** The item type of [array[T]]: the text between ["array["] and ["]"]. *)
Definition array_item_type (typed : string) : option string :=
  rest ← str_strip_prefix "array[" typed; str_strip_suffix "]" rest.

Definition file_reference (path : string) : Value :=
  VObject [("kind", VString "workspace_file"); ("path", VString path)].

Section variable_value.
Context {debug : DebugText}.

Definition file_reference_rejection (value : Value) : option string :=
  match value with
  | VObject reference =>
      if negb (Nat.eqb (length reference) 2) || negb (map_contains_key "kind" reference)
         || negb (map_contains_key "path" reference)
      then Some ("file reference must have exactly the keys " +:+ quoted "kind" +:+ " and "
                 +:+ quoted "path")
      else if negb (bool_decide ((map_get "kind" reference ≫= as_str) = Some "workspace_file"))
      then Some ("file reference kind must be " +:+ quoted "workspace_file")
      else
        match map_get "path" reference ≫= as_str with
        | None => Some "file reference path must be a string"
        | Some path =>
            match parse path with
            | Err error =>
                Some ("file path " +:+ debug_str path +:+ " rejected: "
                      +:+ portable_error_message error)
            | Ok parsed =>
                if is_root parsed then Some "file path must not be empty"
                else if negb (bool_decide (as_path_str parsed = path))
                then Some ("file path " +:+ debug_str path
                           +:+ " must be written in canonical form "
                           +:+ debug_str (as_path_str parsed))
                else None
            end
        end
  | _ => None
  end.

Definition is_file_reference (value : Value) : bool :=
  bool_decide (file_reference_rejection value = None) && is_object value.

Definition normalize_file_reference (value : Value) : option Value :=
  raw_path ←
    match value with
    | VString path => Some path
    | VObject reference =>
        if negb (bool_decide ((map_get "kind" reference ≫= as_str) = Some "workspace_file"))
        then None
        else path ← map_get "path" reference; as_str path
    | _ => None
    end;
  path ← to_option (parse raw_path);
  if is_root path then None else Some (file_reference (as_path_str path)).

Fixpoint workflow_value_matches_type (value : Value) (value_type : string) : bool :=
  if bool_decide (value_type = "string") || bool_decide (value_type = "secret")
  then is_string value
  else if bool_decide (value_type = "file") then is_file_reference value
  else if bool_decide (value_type = "integer")
  then bool_decide (is_Some (as_i64 value)) || bool_decide (is_Some (as_u64 value))
  else if bool_decide (value_type = "number") then is_number value
  else if bool_decide (value_type = "boolean") then is_boolean value
  else if bool_decide (value_type = "object") then is_object value
  else if bool_decide (value_type = "any") then true
  else if bool_decide (value_type = "array") || bool_decide (value_type = "array[any]")
  then is_array value
  else
    match array_item_type value_type with
    | Some item_type =>
        match value with
        | VArray items =>
            forallb (fun item => workflow_value_matches_type item item_type) items
        | _ => false
        end
    | None => false
    end.

Definition normalize_workflow_value (value : Value) (value_type : string) : option Value :=
  if bool_decide (value_type = "file") then normalize_file_reference value
  else if bool_decide (value_type = "array[file]")
  then items ← as_array value; VArray <$> mapM normalize_file_reference items
  else if workflow_value_matches_type value value_type then Some value
  else None.

(** ** Lemmas *)

Lemma normalize_file_reference_Some v w :
  normalize_file_reference v = Some w ->
  exists p, w = file_reference (normalized p) /\ portable_ok p /\ normalized p <> "".
Proof.
  unfold normalize_file_reference.
  intros (raw & _ & (p & Hp & H)%bind_Some)%bind_Some.
  destruct (parse raw) as [q|] eqn:E; [|done]. apply (inj Some) in Hp as ->.
  destruct (is_root p) eqn:Hr; [done|]. apply (inj Some) in H as <-.
  exists p. split; [done|]. split; [by eapply parse_portable_ok|].
  unfold is_root in Hr. by case_bool_decide.
Qed.

(** The canonical reference to a non-root portable path is accepted and unchanged. *)
Lemma file_reference_canonical p :
  portable_ok p -> normalized p <> "" ->
  is_file_reference (file_reference (normalized p)) = true /\
  normalize_file_reference (file_reference (normalized p)) =
    Some (file_reference (normalized p)).
Proof.
  intros Hok Hne. apply parse_of_ok in Hok.
  unfold is_file_reference, normalize_file_reference, file_reference_rejection. simpl.
  rewrite Hok. simpl. unfold is_root, as_path_str.
  rewrite (bool_decide_false (normalized p = "")) by done. simpl.
  by rewrite (bool_decide_true (normalized p = normalized p)).
Qed.

Lemma matches_array_file items :
  workflow_value_matches_type (VArray items) "array[file]" =
  forallb is_file_reference items.
Proof.
  simpl. induction items as [|x l IH]; simpl; [done|]. rewrite IH. f_equal.
  by destruct x.
Qed.

Lemma mapM_normalize_file items out :
  mapM normalize_file_reference items = Some out ->
  forallb is_file_reference out = true /\ mapM normalize_file_reference out = Some out.
Proof.
  revert out. induction items as [|x l IH]; simpl; intros out; [by intros [= <-]|].
  intros (y & Hy & (ys & Hys & [= <-])%bind_Some)%bind_Some.
  apply normalize_file_reference_Some in Hy as (p & -> & Hp & Hne).
  destruct (file_reference_canonical p Hp Hne) as [H1 H2].
  destruct (IH _ Hys) as [H3 H4]. cbn [forallb mapM]. by rewrite H1, H2, H3, H4.
Qed.

Lemma normalize_matches v t w :
  normalize_workflow_value v t = Some w ->
  workflow_value_matches_type w t = true /\ normalize_workflow_value w t = Some w.
Proof.
  unfold normalize_workflow_value. case_bool_decide as Ht; [subst t|].
  { intros (p & -> & Hp & Hne)%normalize_file_reference_Some.
    destruct (file_reference_canonical p Hp Hne). split; done. }
  case_bool_decide as Ht'; [subst t|].
  { intros (items & Hitems & (out & Hout & ->)%fmap_Some)%bind_Some.
    apply mapM_normalize_file in Hout as [H1 H2].
    rewrite matches_array_file. split; [done|]. simpl. by rewrite H2. }
  destruct (workflow_value_matches_type v t) eqn:E; [|done].
  intros [= ->]. by rewrite E.
Qed.
End variable_value.

(** ** The run variable pool ([engine/variable_pool.rs], the pool itself)

    Declared variables with their owners, the values assigned so far and the mutation
    revision.  The declarations derived from a graph are in [Declarations.v]. *)
Local Open Scope ora_scope.

(** [WorkflowVariableDefinition] *)
Record WorkflowVariableDefinition : Type := {
  value_type : string;
  writer : string;
  max_length : option N;
}.

#[export] Instance definition_eq_dec : EqDecision WorkflowVariableDefinition.
Proof. solve_decision. Defined.

(** [WorkflowVariablePool] *)
Record WorkflowVariablePool : Type := {
  revision : N;
  catalog : gmap string WorkflowVariableDefinition;
  values : gmap string Value;
}.

#[export] Instance pool_eq_dec : EqDecision WorkflowVariablePool.
Proof. solve_decision. Defined.

Definition empty_pool : WorkflowVariablePool :=
  {| revision := 0; catalog := ∅; values := ∅ |}.

Definition with_values (pool : WorkflowVariablePool) (vs : gmap string Value) :
    WorkflowVariablePool :=
  {| revision := revision pool; catalog := catalog pool; values := vs |}.
Definition with_catalog (pool : WorkflowVariablePool)
    (c : gmap string WorkflowVariableDefinition) : WorkflowVariablePool :=
  {| revision := revision pool; catalog := c; values := values pool |}.

(** [VariableSelector] *)
Record VariableSelector : Type := {
  sel_node_id : string;
  sel_root : string;
  sel_nested : list string;
}.

#[export] Instance selector_eq_dec : EqDecision VariableSelector.
Proof. solve_decision. Defined.

Definition new_selector (node_id root : string) (nested : list string) : VariableSelector :=
  {| sel_node_id := node_id; sel_root := root; sel_nested := nested |}.

Definition try_from_parts (parts : list string) : option VariableSelector :=
  match parts with
  | node_id :: root :: nested =>
      if bool_decide (node_id = "") || bool_decide (root = "") then None
      else Some (new_selector node_id root nested)
  | _ => None
  end.

Definition qualified_name (node_id root : string) : string := node_id +:+ "." +:+ root.
Definition qualified (s : VariableSelector) : string :=
  qualified_name (sel_node_id s) (sel_root s).

(** [WorkflowVariablePoolError] *)
Inductive WorkflowVariablePoolError : Type :=
| Undeclared (selector : string)
| InvalidWriter (selector expected_writer actual_writer : string)
| TypeMismatch (selector value_type : string)
| LengthExceeded (selector : string) (max_length : N)
| PathMissing (selector segment : string)
| PathNotObject (selector path : string).

#[export] Instance pool_error_eq_dec : EqDecision WorkflowVariablePoolError.
Proof. solve_decision. Defined.

Definition pool_error_message (e : WorkflowVariablePoolError) : string :=
  match e with
  | Undeclared s => "workflow variable is not declared: " +:+ s
  | InvalidWriter s expected actual =>
      "workflow variable is owned by " +:+ expected +:+ ", not " +:+ actual +:+ ": " +:+ s
  | TypeMismatch s t =>
      "workflow variable value does not match declared type " +:+ t +:+ ": " +:+ s
  | LengthExceeded s n =>
      "workflow variable value exceeds maximum length " +:+ of_N n +:+ ": " +:+ s
  | PathMissing s segment =>
      "workflow variable has no object path segment " +:+ segment +:+ ": " +:+ s
  | PathNotObject s path =>
      "workflow variable is not an object, so path " +:+ path +:+ " cannot be resolved: " +:+ s
  end.

(** ** Operations *)

(** [declare]: the first declaration of a name wins. *)
Definition declare (pool : WorkflowVariablePool) (selector value_type writer : string) :
    WorkflowVariablePool :=
  match catalog pool !! selector with
  | Some _ => pool
  | None =>
      with_catalog pool
        (<[selector := {| value_type := value_type; writer := writer; max_length := None |}]>
           (catalog pool))
  end.

Definition get (pool : WorkflowVariablePool) (selector : string) :
    result WorkflowVariablePoolError (option Value) :=
  match catalog pool !! selector with
  | None => Err (Undeclared selector)
  | Some _ => Ok (values pool !! selector)
  end.

(** The loop of [resolve] over the nested path. *)
Fixpoint resolve_path (selector : VariableSelector) (path : list string) (value : Value) :
    result WorkflowVariablePoolError Value :=
  match path with
  | [] => Ok value
  | segment :: path =>
      match value with
      | VObject fields =>
          value ← ok_or (map_get segment fields) (PathMissing (qualified selector) segment);
          resolve_path selector path value
      | _ => Err (PathNotObject (qualified selector) (join "." (sel_nested selector)))
      end
  end.

Definition resolve (pool : WorkflowVariablePool) (selector : VariableSelector) :
    result WorkflowVariablePoolError (option Value) :=
  match catalog pool !! qualified selector with
  | None => Err (Undeclared (qualified selector))
  | Some _ =>
      match values pool !! qualified selector with
      | None => Ok None
      | Some value => Some <$> resolve_path selector (sel_nested selector) value
      end
  end.

(** [value.chars().count() > max_length] when both apply. *)
Definition exceeds_length (definition : WorkflowVariableDefinition) (value : Value) :
    option N :=
  match max_length definition, value with
  | Some n, VString text => if (n <? chars_count text)%N then Some n else None
  | _, _ => None
  end.

Section pool.
Context {debug : DebugText}.

Definition set (pool : WorkflowVariablePool) (selector actual_writer : string) (value : Value) :
    result WorkflowVariablePoolError WorkflowVariablePool :=
  definition ← ok_or (catalog pool !! selector) (Undeclared selector);
  reject (negb (bool_decide (writer definition = actual_writer)))
    with (InvalidWriter selector (writer definition) actual_writer);
  value ← ok_or (normalize_workflow_value value (value_type definition))
            (TypeMismatch selector (value_type definition));
  match exceeds_length definition value with
  | Some n => Err (LengthExceeded selector n)
  | None =>
      Ok {| revision := saturating_add_u64 (revision pool) 1;
            catalog := catalog pool;
            values := <[selector := value]> (values pool) |}
  end.

(** ** Invariants *)

(** Only declared variables have values. *)
Definition pool_scoped (pool : WorkflowVariablePool) : Prop :=
  forall k v, values pool !! k = Some v -> is_Some (catalog pool !! k).

(** The value conforms to the definition. *)
Definition conforms (definition : WorkflowVariableDefinition) (value : Value) : Prop :=
  workflow_value_matches_type value (value_type definition) = true /\
  exceeds_length definition value = None.

(** Every value is declared and conforms to its declaration. *)
Definition pool_ok (pool : WorkflowVariablePool) : Prop :=
  forall k v, values pool !! k = Some v ->
    exists d, catalog pool !! k = Some d /\ conforms d v.

(** ** Lemmas *)

Lemma set_inv pool sel w v pool' :
  set pool sel w v = Ok pool' ->
  exists d v', catalog pool !! sel = Some d /\ writer d = w /\
    normalize_workflow_value v (value_type d) = Some v' /\ conforms d v' /\
    pool' = {| revision := saturating_add_u64 (revision pool) 1; catalog := catalog pool;
               values := <[sel := v']> (values pool) |}.
Proof.
  unfold set. intros H. inv_ok. apply negb_false_iff, bool_decide_eq_true in Hx0.
  destruct (exceeds_length x x1) eqn:E; [done|]. inv_ok.
  exists x, x1. split_and!; try done. split; [by eapply normalize_matches | done].
Qed.

Lemma set_intro pool sel w v d v' :
  catalog pool !! sel = Some d -> writer d = w ->
  normalize_workflow_value v (value_type d) = Some v' -> exceeds_length d v' = None ->
  set pool sel w v = Ok {| revision := saturating_add_u64 (revision pool) 1;
    catalog := catalog pool; values := <[sel := v']> (values pool) |}.
Proof.
  intros Hd Hw Hv Hl. unfold set. rewrite Hd. simpl. rewrite bool_decide_true by done. simpl.
  rewrite Hv. simpl. by rewrite Hl.
Qed.

Lemma set_pool_ok pool sel w v pool' :
  pool_ok pool -> set pool sel w v = Ok pool' -> pool_ok pool'.
Proof.
  intros Hok (d & v' & Hd & _ & _ & Hc & ->)%set_inv k x. simpl.
  intros [[<- <-] | [Hne Hx]]%lookup_insert_Some; [by exists d | by apply Hok].
Qed.

Lemma set_scoped pool sel w v pool' :
  pool_scoped pool -> set pool sel w v = Ok pool' -> pool_scoped pool'.
Proof.
  intros Hok (d & v' & Hd & _ & _ & Hc & ->)%set_inv k x. simpl.
  intros [[<- <-] | [Hne Hx]]%lookup_insert_Some; [by exists d | by eapply Hok].
Qed.

Lemma declare_catalog pool sel t w k :
  catalog (declare pool sel t w) !! k =
  if decide (sel = k)
  then Some (default {| value_type := t; writer := w; max_length := None |} (catalog pool !! sel))
  else catalog pool !! k.
Proof.
  unfold declare. destruct (catalog pool !! sel) as [d|] eqn:E; simpl.
  - case_decide as Hk; [by subst|done].
  - case_decide as Hk; [subst; by rewrite lookup_insert_eq | by rewrite lookup_insert_ne].
Qed.

Lemma declare_values pool sel t w : values (declare pool sel t w) = values pool.
Proof. unfold declare. by destruct (catalog pool !! sel). Qed.

Lemma declare_preserves pool sel t w k d :
  catalog pool !! k = Some d -> catalog (declare pool sel t w) !! k = Some d.
Proof. intros Hd. rewrite declare_catalog. case_decide; [by subst; rewrite Hd | done]. Qed.

Lemma declare_scoped pool sel t w : pool_scoped pool -> pool_scoped (declare pool sel t w).
Proof.
  intros Hok k v. rewrite declare_values. intros [d Hd]%Hok. exists d.
  by apply declare_preserves.
Qed.

Lemma declare_pool_ok pool sel t w : pool_ok pool -> pool_ok (declare pool sel t w).
Proof.
  intros Hok k v. rewrite declare_values. intros (d & Hd & Hc)%Hok. exists d.
  split; [by apply declare_preserves | done].
Qed.

Lemma empty_pool_ok : pool_ok empty_pool.
Proof. intros k v. simpl. by rewrite lookup_empty. Qed.
Lemma empty_pool_scoped : pool_scoped empty_pool.
Proof. intros k v. simpl. by rewrite lookup_empty. Qed.

Lemma resolve_Ok_None pool sel :
  resolve pool sel = Ok None <->
  is_Some (catalog pool !! qualified sel) /\ values pool !! qualified sel = None.
Proof.
  unfold resolve. destruct (catalog pool !! qualified sel) as [d|];
    [|split; [done | by intros [[] _]]].
  destruct (values pool !! qualified sel) as [v|]; [|naive_solver].
  destruct (resolve_path sel (sel_nested sel) v); naive_solver.
Qed.

Lemma resolve_root pool sel :
  sel_nested sel = [] -> resolve pool sel = get pool (qualified sel).
Proof.
  intros Hn. unfold resolve, get. rewrite Hn. simpl.
  destruct (catalog pool !! _); [|done]. by destruct (values pool !! _).
Qed.

(** [resolve] fails only with the errors a read can have. *)
Definition read_error (e : WorkflowVariablePoolError) : Prop :=
  match e with Undeclared _ | PathMissing _ _ | PathNotObject _ _ => True | _ => False end.

Lemma resolve_path_error sel path v e : resolve_path sel path v = Err e -> read_error e.
Proof.
  revert v. induction path as [|seg path IH]; intros v; simpl; [done|].
  destruct v; try by intros [= <-].
  destruct (map_get seg fields); simpl; [apply IH | by intros [= <-]].
Qed.

Lemma resolve_error pool sel e : resolve pool sel = Err e -> read_error e.
Proof.
  unfold resolve. destruct (catalog pool !! _); [|by intros [= <-]].
  destruct (values pool !! _) as [v|]; [|done].
  destruct (resolve_path sel (sel_nested sel) v) eqn:E; [done|]. intros [= ->].
  by eapply resolve_path_error.
Qed.

(** The result of a resolved path is a subterm reached through the objects named by it. *)
Inductive reached : list string -> Value -> Value -> Prop :=
| reached_here v : reached [] v v
| reached_field seg path fields v w :
    map_get seg fields = Some v -> reached path v w -> reached (seg :: path) (VObject fields) w.

Lemma resolve_path_Ok sel path v w : resolve_path sel path v = Ok w <-> reached path v w.
Proof.
  split.
  - revert v. induction path as [|seg path IH]; intros v; simpl.
    { intros [= ->]. constructor. }
    destruct v; try done. intros H. inv_ok. econstructor; eauto.
  - induction 1 as [|seg path fields v w Hv _ IH]; simpl; [done|]. by rewrite Hv.
Qed.
End pool.

Create HintDb ora_pool.
#[export] Hint Resolve empty_pool_ok empty_pool_scoped declare_scoped declare_pool_ok
  set_pool_ok set_scoped : ora_pool.

(** ** Properties *)

Section properties.
Context {debug : DebugText}.

(** A successful write goes through the declared owner, stores the normalised value, keeps
    every value of the pool conforming to its declaration, changes no other variable and no
    declaration, advances the revision, and can be repeated with the stored value. *)
Theorem pool_set_sound pool sel w v pool' :
  pool_ok pool -> set pool sel w v = Ok pool' ->
  pool_ok pool' /\ catalog pool' = catalog pool /\
  (revision pool < u64_max -> revision pool' = revision pool + 1)%N /\
  exists d v', catalog pool !! sel = Some d /\ writer d = w /\
    normalize_workflow_value v (value_type d) = Some v' /\
    get pool' sel = Ok (Some v') /\
    (forall k, k <> sel -> get pool' k = get pool k) /\
    values <$> set pool' sel w v' = Ok (values pool').
Proof.
  intros Hok Hset. pose proof (set_pool_ok _ _ _ _ _ Hok Hset) as Hok'.
  apply set_inv in Hset as (d & v' & Hd & Hw & Hv & Hc & ->).
  split_and!; [done|done| |].
  { simpl. unfold saturating_add_u64. lia. }
  exists d, v'. unfold get. simpl. split_and!; try done.
  - by rewrite Hd, lookup_insert_eq.
  - intros k Hk. by rewrite lookup_insert_ne.
  - erewrite set_intro; [|done|done|by eapply normalize_matches|by apply Hc].
    simpl. by rewrite insert_insert_eq.
Qed.

(** A refused write names its reason, in the order the code checks: not declared, written by
    a node that does not own the variable, a value no normalisation gives the declared type, or
    a text longer than the declared maximum.  Nothing else is ever refused. *)
Theorem pool_set_refused pool sel w v e :
  set pool sel w v = Err e <->
  (catalog pool !! sel = None /\ e = Undeclared sel) \/
  exists d, catalog pool !! sel = Some d /\
    ((writer d <> w /\ e = InvalidWriter sel (writer d) w) \/
     (writer d = w /\ normalize_workflow_value v (value_type d) = None /\
        e = TypeMismatch sel (value_type d)) \/
     (writer d = w /\ exists text n,
        normalize_workflow_value v (value_type d) = Some (VString text) /\
        max_length d = Some n /\ (n < chars_count text)%N /\ e = LengthExceeded sel n)).
Proof.
  unfold set. split.
  - destruct (catalog pool !! sel) as [d|]; simpl; [|intros [= <-]; by left].
    intros H. right. exists d. split; [done|]. case_bool_decide as Hw; simpl in H.
    2: { left. by simplify_eq. }
    right. destruct (normalize_workflow_value v (value_type d)) as [v'|]; simplify_eq/=; [|by left].
    right. split; [done|]. unfold exceeds_length in H. destruct (max_length d) as [n|]; [|done].
    destruct v' as [| | |text| |]; try done.
    destruct (N.ltb_spec n (chars_count text)); simplify_eq. by exists text, n.
  - intros [[-> ->]|(d & -> & Hd)]; simpl; [done|].
    destruct Hd as [[Hw ->]|[(Hw & Hn & ->)|(Hw & text & n & Hn & Hl & Hlt & ->)]].
    + by rewrite bool_decide_false.
    + rewrite bool_decide_true by done. simpl. by rewrite Hn.
    + rewrite bool_decide_true by done. simpl. rewrite Hn. simpl. unfold exceeds_length.
      rewrite Hl. by apply N.ltb_lt in Hlt as ->.
Qed.

(** Reading a selector gives a value exactly when the variable is declared and assigned and
    every segment of the path names a field of an object; a declared variable without a value
    reads as unassigned, never as [null]; a failed read says whether the variable is undeclared
    or the path is wrong. *)
Theorem pool_resolve_spec pool sel :
  (forall w, resolve pool sel = Ok (Some w) <->
    is_Some (catalog pool !! qualified sel) /\
    exists v, values pool !! qualified sel = Some v /\ reached (sel_nested sel) v w) /\
  (resolve pool sel = Ok None <->
    is_Some (catalog pool !! qualified sel) /\ values pool !! qualified sel = None) /\
  (forall e, resolve pool sel = Err e -> read_error e) /\
  (resolve pool sel = Err (Undeclared (qualified sel)) <-> catalog pool !! qualified sel = None).
Proof.
  split_and!; [|apply resolve_Ok_None|apply resolve_error|].
  - intros w. unfold resolve. destruct (catalog pool !! _) as [d|].
    2: { split; [done | by intros [[] _]]. }
    destruct (values pool !! _) as [v|]; [|naive_solver]. rewrite fmap_Ok.
    setoid_rewrite resolve_path_Ok. naive_solver.
  - unfold resolve. destruct (catalog pool !! _) as [d|]; [|naive_solver].
    split; [|done]. destruct (values pool !! _) as [v|]; [|done].
    intros H. exfalso. destruct (resolve_path sel (sel_nested sel) v) eqn:E; [done|].
    simplify_eq/=. clear d. revert v E. induction (sel_nested sel) as [|seg path IH]; [done|].
    intros [| | | | |fields]; simpl; try done.
    destruct (map_get seg fields); simpl; [apply IH | done].
Qed.
End properties.

(** ** Witnesses *)

#[local] Instance plain_debug : DebugText := {| debug_str := quoted; debug_strs := join ", " |}.

Definition sample_pool : WorkflowVariablePool :=
  declare (declare empty_pool "agent.output" "string" "agent") "start.files" "array[file]" "start".

Lemma pool_set_sound_witness :
  exists pool', set sample_pool "start.files" "start" (VArray [VString "docs/./a.md"]) = Ok pool' /\
    get pool' "start.files" = Ok (Some (VArray [file_reference "docs/a.md"])) /\ pool_ok pool'.
Proof.
  destruct (set sample_pool "start.files" "start" (VArray [VString "docs/./a.md"]))
    as [pool'|] eqn:E; [|discriminate E].
  exists pool'. split; [done|].
  destruct (pool_set_sound _ _ _ _ _
    (declare_pool_ok _ _ _ _ (declare_pool_ok _ _ _ _ empty_pool_ok)) E) as (Hok & _).
  split; [|exact Hok]. vm_compute in E. apply Ok_inj in E. by rewrite <-E.
Defined.
