(* ===== verification/VariableTemplate.v ===== *)
(** * Variable templates ([engine/variable_template.rs])

    [{{#node.variable.path#}}] placeholders are replaced, from left to right and eagerly, by
    the values of the run's variable pool.  The [while let] loop runs on fuel: each round
    removes at least the six bytes of the two delimiters, so the length of the template is
    enough, and [render_unfold] shows that the result satisfies the loop's own equation. *)

From S2P Require Import Prelude RustStr Json VariablePool.
From Stdlib Require Import Ascii.
Local Open Scope ora_scope.

(** [VariableTemplateError] *)
Inductive VariableTemplateError : Type :=
| Unterminated
| InvalidSelector (selector : string)
| TemplateUndeclared (selector : string)
| InvalidPath (selector segment : string)
| TemplatePathNotObject (selector : string)
| UnsetVariable (selector : string).

#[export] Instance template_error_eq_dec : EqDecision VariableTemplateError.
Proof. solve_decision. Defined.

Definition template_error_message (e : VariableTemplateError) : string :=
  match e with
  | Unterminated => "template has an unterminated variable reference"
  | InvalidSelector s => "template selector " +:+ s +:+ " is not a node id and root variable"
  | TemplateUndeclared s => "template references an undeclared variable: " +:+ s
  | InvalidPath s segment =>
      "template variable " +:+ s +:+ " has no object path segment " +:+ segment
  | TemplatePathNotObject s =>
      "template variable " +:+ s +:+ " is not an object, so its path cannot be resolved"
  | UnsetVariable s => "template variable " +:+ s +:+ " has not been assigned yet"
  end.

(** The [map_err] of [pool.resolve]; the last three arms are [unreachable!]. *)
Definition template_resolve_error (e : WorkflowVariablePoolError) : fault VariableTemplateError :=
  match e with
  | Undeclared selector => Fails (TemplateUndeclared selector)
  | PathMissing selector segment => Fails (InvalidPath selector segment)
  | PathNotObject selector _ => Fails (TemplatePathNotObject selector)
  | InvalidWriter _ _ _ | TypeMismatch _ _ | LengthExceeded _ _ => Panics
  end.

Definition DOT : ascii := ".".
Definition OPEN : string := "{{#".
Definition CLOSE : string := "#}}".

Section template.
Context {json : JsonText}.

(** [render_value] *)
Definition render_value (value : Value) : string :=
  match value with VString text => text | other => json_to_string other end.

(** The value of the placeholder whose text is [selector_text]. *)
Definition placeholder_value (pool : WorkflowVariablePool) (selector_text : string) :
    result (fault VariableTemplateError) Value :=
  selector ← ok_or (try_from_parts (split_char DOT selector_text))
               (Fails (InvalidSelector selector_text));
  value ← map_err template_resolve_error (resolve pool selector);
  ok_or value (Fails (UnsetVariable (qualified selector))).

(** The loop, on the text not yet read and the text rendered so far. *)
Fixpoint render_loop (fuel : nat) (pool : WorkflowVariablePool) (rendered rest : string) :
    result (fault VariableTemplateError) string :=
  match split_once OPEN rest with
  | None => Ok (rendered +:+ rest)
  | Some (before, after_open) =>
      match fuel with
      | 0 => Err Panics
      | S fuel =>
          closed ← ok_or (split_once CLOSE after_open) (Fails Unterminated);
          value ← placeholder_value pool closed.1;
          render_loop fuel pool (rendered +:+ before +:+ render_value value) closed.2
      end
  end.

Definition render_variable_template (template : string) (pool : WorkflowVariablePool) :
    result (fault VariableTemplateError) string :=
  render_loop (String.length template) pool "" template.

(** ** The loop's own equation *)

Lemma split_once_shorter pat s a b :
  pat <> "" -> split_once pat s = Some (a, b) -> String.length b < String.length s.
Proof.
  intros Hp ->%split_once_length. destruct pat; simpl; [done|lia].
Qed.

Lemma open_shorter s before after_open x rest :
  split_once OPEN s = Some (before, after_open) -> split_once CLOSE after_open = Some (x, rest) ->
  String.length rest < String.length s.
Proof.
  intros H1%split_once_shorter H2%split_once_shorter; [lia|done|done].
Qed.

(** Any fuel from the length of the text on gives the same result, and what was rendered
    before is only ever extended. *)
Lemma render_loop_fuel pool n :
  forall s fuel1 fuel2 rendered,
    String.length s <= n -> String.length s <= fuel1 -> String.length s <= fuel2 ->
    render_loop fuel1 pool rendered s =
      (fun out => rendered +:+ out) <$> render_loop fuel2 pool "" s.
Proof.
  induction n as [|n IH]; intros s f1 f2 r Hn H1 H2.
  { destruct s; simpl in Hn; [|lia]. destruct f1, f2; done. }
  destruct f1 as [|f1]; [destruct s; simpl in *; [by destruct f2 | lia]|].
  destruct f2 as [|f2]; [destruct s; simpl in *; [done | lia]|].
  cbn [render_loop]. destruct (split_once OPEN s) as [[before after_open]|] eqn:Eo; [|done].
  destruct (split_once CLOSE after_open) as [[x rest]|] eqn:Ec; [|done].
  pose proof (open_shorter _ _ _ _ _ Eo Ec) as Hlt. cbn [ok_or mbind result_bind fst snd].
  destruct (placeholder_value pool x) as [v|]; [|done]. simpl.
  rewrite (IH rest f1 (String.length rest)) by lia.
  rewrite (IH rest f2 (String.length rest)) by lia.
  destruct (render_loop _ pool "" rest); simpl; [|done]. by rewrite !app_assoc_str.
Qed.

(** Rendering satisfies the equation of the loop: fuel never shows. *)
Lemma render_unfold template pool :
  render_variable_template template pool =
  match split_once OPEN template with
  | None => Ok template
  | Some (before, after_open) =>
      closed ← ok_or (split_once CLOSE after_open) (Fails Unterminated);
      value ← placeholder_value pool closed.1;
      rendered ← render_variable_template closed.2 pool;
      Ok (before +:+ render_value value +:+ rendered)
  end.
Proof.
  unfold render_variable_template.
  destruct (String.length template) as [|n] eqn:El.
  { destruct template; [|done]. done. }
  cbn [render_loop]. destruct (split_once OPEN template) as [[before after_open]|] eqn:Eo; [|done].
  destruct (split_once CLOSE after_open) as [[x rest]|] eqn:Ec; [|done].
  pose proof (open_shorter _ _ _ _ _ Eo Ec) as Hlt. cbn [ok_or mbind result_bind fst snd].
  destruct (placeholder_value pool x) as [v|]; [|done]. simpl.
  rewrite (render_loop_fuel pool n rest n (String.length rest)) by lia.
  destruct (render_loop _ pool "" rest); simpl; [|done]. by rewrite !app_assoc_str.
Qed.

(** Induction along the loop. *)
Lemma template_ind (P : string -> Prop) :
  (forall t, split_once OPEN t = None -> P t) ->
  (forall t before after_open, split_once OPEN t = Some (before, after_open) ->
     split_once CLOSE after_open = None -> P t) ->
  (forall t before after_open x rest, split_once OPEN t = Some (before, after_open) ->
     split_once CLOSE after_open = Some (x, rest) -> P rest -> P t) ->
  forall t, P t.
Proof.
  intros H1 H2 H3 t. remember (String.length t) as n eqn:Hn.
  revert t Hn. induction (lt_wf n) as [n _ IH]. intros t ->.
  destruct (split_once OPEN t) as [[before after_open]|] eqn:Eo; [|by apply H1].
  destruct (split_once CLOSE after_open) as [[x rest]|] eqn:Ec; [|by eapply H2].
  eapply H3; [done..|]. eapply IH; [|done]. by eapply open_shorter.
Qed.

(** ** A template as its pieces *)

Inductive piece : Type :=
| Text (text : string)
| Reference (selector_text : string).

Definition piece_source (p : piece) : string :=
  match p with Text t => t | Reference s => OPEN +:+ s +:+ CLOSE end.
Definition source_of (pieces : list piece) : string := join "" (piece_source <$> pieces).

(** What a piece renders to. *)
Definition piece_renders (pool : WorkflowVariablePool) (p : piece) (out : string) : Prop :=
  match p with
  | Text t => out = t /\ str_contains OPEN t = false
  | Reference s => str_contains CLOSE s = false /\
      exists selector value, try_from_parts (split_char DOT s) = Some selector /\
        resolve pool selector = Ok (Some value) /\ out = render_value value
  end.

Lemma join_empty_cons x l : join "" (x :: l) = x +:+ join "" l.
Proof. destruct l; simpl; [by rewrite app_nil_r_str | done]. Qed.

Lemma placeholder_value_Ok pool s v :
  placeholder_value pool s = Ok v <->
  exists selector, try_from_parts (split_char DOT s) = Some selector /\
    resolve pool selector = Ok (Some v).
Proof.
  unfold placeholder_value. split.
  - intros H. inv_ok. simplify_eq. eauto.
  - intros (selector & -> & H). simpl. by rewrite H.
Qed.

Lemma placeholder_value_no_panic pool s : placeholder_value pool s <> Err Panics.
Proof.
  unfold placeholder_value. destruct (try_from_parts _) as [sel|]; simpl; [|done].
  destruct (resolve pool sel) as [[v|]|e] eqn:E; simpl; [done..|].
  apply resolve_error in E. by destruct e.
Qed.

Lemma render_no_panic template pool : render_variable_template template pool <> Err Panics.
Proof.
  induction template as [t Ho|t before after_open Ho Hc|t before after_open x rest Ho Hc IH]
    using template_ind; rewrite render_unfold, Ho; [done|by rewrite Hc|].
  rewrite Hc. simpl. pose proof (placeholder_value_no_panic pool x).
  destruct (placeholder_value pool x) as [v|e]; simpl; [|congruence].
  by destruct (render_variable_template rest pool); simpl.
Qed.

(** ** Properties *)

(** Rendering a template that succeeds splits it into literal text, which contains no
    placeholder and is copied, and references, each of which names a declared and assigned
    variable and is replaced by its value; values are never scanned for placeholders again. *)
Theorem render_pieces template pool out :
  render_variable_template template pool = Ok out ->
  exists pieces outs,
    source_of pieces = template /\ Forall2 (piece_renders pool) pieces outs /\
    out = join "" outs.
Proof.
  revert out.
  induction template as [t Ho|t before after_open Ho Hc|t before after_open x rest Ho Hc IH]
    using template_ind; intros out; rewrite render_unfold, Ho.
  - intros [= <-]. exists [Text t], [t]. split_and!; [done| |done].
    constructor; [|done]. split; [done|]. by apply str_contains_false.
  - rewrite Hc. done.
  - rewrite Hc. simpl. intros H. inv_ok.
    apply placeholder_value_Ok in Hx as (selector & Hsel & Hres).
    destruct (IH _ Hx0) as (pieces & outs & Hsrc & Hp & ->).
    exists (Text before :: Reference x :: pieces), (before :: render_value x0 :: outs).
    split_and!.
    + unfold source_of in *. rewrite !fmap_cons, !join_empty_cons, Hsrc. simpl.
      apply split_once_Some in Ho as ->, Hc as ->. by rewrite !app_assoc_str.
    + constructor; [split; [done|by eapply split_once_before]|].
      constructor; [|done]. split; [by eapply split_once_before|]. eauto.
    + by rewrite !join_empty_cons.
Qed.

(** Rendering always returns and never reaches the arms the code marks unreachable; a
    template without [{{#] renders to itself; and a failure is that of the first reference that
    cannot be rendered: everything before it renders, and the reference is either unterminated
    or malformed, undeclared, unassigned or a path that does not exist. *)
Theorem render_failure template pool :
  render_variable_template template pool <> Err Panics /\
  (str_contains OPEN template = false -> render_variable_template template pool = Ok template) /\
  (forall e, render_variable_template template pool = Err (Fails e) ->
     exists pieces outs tail,
       template = source_of pieces +:+ OPEN +:+ tail /\
       Forall2 (piece_renders pool) pieces outs /\
       ((str_contains CLOSE tail = false /\ e = Unterminated) \/
        exists x rest, tail = x +:+ CLOSE +:+ rest /\ str_contains CLOSE x = false /\
          placeholder_value pool x = Err (Fails e))).
Proof.
  split; [apply render_no_panic|].
  induction template as [t Ho|t before after_open Ho Hc|t before after_open x rest Ho Hc IH]
    using template_ind; rewrite render_unfold, Ho.
  { done. }
  all: split; [intros Hno%str_contains_false; congruence|].
  all: intros e; rewrite Hc; simpl.
  - intros [= <-]. exists [Text before], [before], after_open. apply split_once_before in Ho as Hb; [|done].
    apply split_once_Some in Ho as ->. split_and!; [done|by constructor|].
    left. split; [|done]. by apply str_contains_false.
  - destruct (placeholder_value pool x) as [v|e'] eqn:Ev; simpl.
    + destruct IH as [_ IH].
      destruct (render_variable_template rest pool) as [|e'] eqn:Er; [done|]. intros [= ->].
      destruct (IH e eq_refl) as (pieces & outs & tail & -> & Hp & Htail).
      apply placeholder_value_Ok in Ev as (selector & Hsel & Hres).
      exists (Text before :: Reference x :: pieces), (before :: render_value v :: outs), tail.
      split_and!; [| |done].
      * unfold source_of in *. rewrite !fmap_cons, !join_empty_cons. cbn [piece_source].
        apply split_once_Some in Ho as ->, Hc as ->. by rewrite !app_assoc_str.
      * constructor; [split; [done|by eapply split_once_before]|].
        constructor; [|done]. split; [by eapply split_once_before|]. eauto.
    + intros [= ->]. exists [Text before], [before], after_open.
      apply split_once_before in Ho as Hb; [|done]. apply split_once_Some in Ho as ->.
      split_and!; [done|by constructor|]. right. exists x, rest.
      apply split_once_before in Hc as Hx; [|done]. by apply split_once_Some in Hc as ->.
Qed.
End template.

#[local] Instance plain_json : JsonText :=
  {| json_to_string v := match v with VNull => "null" | _ => "?" end; json_from_str _ := None |}.

Lemma render_pieces_witness :
  let pool := with_values (declare empty_pool "a.text" "string" "a")
                {["a.text" := VString "hi {{#b.c#}}"]} in
  render_variable_template "say {{#a.text#}}!" pool = Ok "say hi {{#b.c#}}!" /\
  exists pieces outs, source_of pieces = "say {{#a.text#}}!" /\
    Forall2 (piece_renders pool) pieces outs /\ "say hi {{#b.c#}}!" = join "" outs.
Proof.
  intros pool.
  assert (render_variable_template "say {{#a.text#}}!" pool = Ok "say hi {{#b.c#}}!") as H
    by (vm_compute; reflexivity).
  split; [exact H | exact (render_pieces _ _ _ H)].
Defined.
