(* ===== verification/Condition.v ===== *)
(** * Condition nodes ([engine/condition.rs])

    Ordered IF/ELIF cases over the variable pool with an implicit ELSE.  Compilation of the
    wire form, the sixteen comparison operators and the evaluation order are modelled with
    every error; the arms the code marks [unreachable!] are panics. *)

From S2P Require Import Prelude RustStr Json VariablePool VariableTemplate.
From Stdlib Require Import SpecFloat.
Local Open Scope ora_scope.

Definition ELSE_BRANCH_ID : string := "else".

(** ** Wire form and configuration *)

Record WireConditionRule : Type := {
  wr_variable_selector : list string;
  wr_operator : option string;
  wr_value : option Value;
}.

Record WireConditionCase : Type := {
  wc_id : option string;
  wc_logic : option string;
  wc_conditions : list WireConditionRule;
}.

Inductive ConditionLogic : Type := LogicAnd | LogicOr.

Inductive ComparisonOperator : Type :=
| Equals | NotEquals | Contains | NotContains | StartsWith | EndsWith | OpEmpty | NotEmpty
| GreaterThan | GreaterThanOrEqual | LessThan | LessThanOrEqual | Is | IsNot | Exists | NotExists.

#[export] Instance ComparisonOperator_eq_dec : EqDecision ComparisonOperator.
Proof. solve_decision. Defined.
#[export] Instance ConditionLogic_eq_dec : EqDecision ConditionLogic.
Proof. solve_decision. Defined.

Record ConditionRule : Type := {
  rule_selector : VariableSelector;
  rule_operator : ComparisonOperator;
  rule_value : option Value;
}.

Record ConditionCase : Type := {
  case_id : string;
  case_logic : ConditionLogic;
  case_conditions : list ConditionRule;
}.

Record ConditionConfig : Type := { cases : list ConditionCase }.

#[export] Instance ConditionRule_eq_dec : EqDecision ConditionRule.
Proof. solve_decision. Defined.
#[export] Instance ConditionCase_eq_dec : EqDecision ConditionCase.
Proof. solve_decision. Defined.

(** [ComparisonOperator::parse] *)
Definition parse_operator (value : string) : option ComparisonOperator :=
  if bool_decide (value = "equals") then Some Equals
  else if bool_decide (value = "not_equals") then Some NotEquals
  else if bool_decide (value = "contains") then Some Contains
  else if bool_decide (value = "not_contains") then Some NotContains
  else if bool_decide (value = "starts_with") then Some StartsWith
  else if bool_decide (value = "ends_with") then Some EndsWith
  else if bool_decide (value = "empty") then Some OpEmpty
  else if bool_decide (value = "not_empty") then Some NotEmpty
  else if bool_decide (value = "greater_than") then Some GreaterThan
  else if bool_decide (value = "greater_than_or_equal") then Some GreaterThanOrEqual
  else if bool_decide (value = "less_than") then Some LessThan
  else if bool_decide (value = "less_than_or_equal") then Some LessThanOrEqual
  else if bool_decide (value = "is") then Some Is
  else if bool_decide (value = "is_not") then Some IsNot
  else if bool_decide (value = "exists") then Some Exists
  else if bool_decide (value = "not_exists") then Some NotExists
  else None.

(** [impl Display for ComparisonOperator] *)
Definition operator_text (op : ComparisonOperator) : string :=
  match op with
  | Equals => "equals" | NotEquals => "not_equals" | Contains => "contains"
  | NotContains => "not_contains" | StartsWith => "starts_with" | EndsWith => "ends_with"
  | OpEmpty => "empty" | NotEmpty => "not_empty" | GreaterThan => "greater_than"
  | GreaterThanOrEqual => "greater_than_or_equal" | LessThan => "less_than"
  | LessThanOrEqual => "less_than_or_equal" | Is => "is" | IsNot => "is_not"
  | Exists => "exists" | NotExists => "not_exists"
  end.

Lemma operator_round_trip op : parse_operator (operator_text op) = Some op.
Proof. by destruct op. Qed.

(** [ConditionError] *)
Inductive ConditionError : Type :=
| MissingCaseId
| MissingConfig
| UnknownLogic (logic : string)
| UnknownOperator (operator : string)
| CondInvalidSelector (selector : list string)
| CondUndeclared (selector : string)
| CondInvalidPath (selector segment : string)
| CondTypeMismatch (selector : string) (operator : ComparisonOperator) (actual expected : string)
| CondUnsetVariable (selector : string).

#[export] Instance ConditionError_eq_dec : EqDecision ConditionError.
Proof. solve_decision. Defined.

Definition condition_error_message `{DebugText} (e : ConditionError) : string :=
  match e with
  | MissingCaseId => "condition case is missing an id"
  | MissingConfig => "condition node has no executable cases"
  | UnknownLogic logic => "condition case has unknown logic " +:+ logic
  | UnknownOperator operator => "condition rule has unknown operator " +:+ operator
  | CondInvalidSelector selector =>
      "condition rule selector " +:+ debug_strs selector +:+ " is not a node id and root variable"
  | CondUndeclared selector => "condition reads an undeclared variable: " +:+ selector
  | CondInvalidPath selector segment =>
      "condition variable " +:+ selector +:+ " has no object path segment " +:+ segment
  | CondTypeMismatch selector operator actual expected =>
      "operator " +:+ operator_text operator +:+ " cannot compare variable " +:+ selector
      +:+ " of type " +:+ actual +:+ " against " +:+ expected
  | CondUnsetVariable selector =>
      "condition variable " +:+ selector +:+ " has not been assigned yet"
  end.

Definition compile_rule (rule : WireConditionRule) : result ConditionError ConditionRule :=
  operator ←
    match wr_operator rule with
    | Some value => ok_or (parse_operator value) (UnknownOperator value)
    | None => Err (UnknownOperator "")
    end;
  selector ← ok_or (try_from_parts (wr_variable_selector rule))
               (CondInvalidSelector (wr_variable_selector rule));
  Ok {| rule_selector := selector; rule_operator := operator; rule_value := wr_value rule |}.

Definition compile_case (case : WireConditionCase) : result ConditionError ConditionCase :=
  id ← ok_or (wc_id case) MissingCaseId;
  logic ←
    match wc_logic case with
    | None => Ok LogicAnd
    | Some other =>
        if bool_decide (other = "and") then Ok LogicAnd
        else if bool_decide (other = "or") then Ok LogicOr
        else Err (UnknownLogic other)
    end;
  conditions ← traverse compile_rule (wc_conditions case);
  Ok {| case_id := id; case_logic := logic; case_conditions := conditions |}.

(** [ConditionConfig::from_wire] *)
Definition condition_from_wire (wire : list WireConditionCase) :
    result ConditionError ConditionConfig :=
  Build_ConditionConfig <$> traverse compile_case wire.

(** ** Comparisons of values *)

Definition is_empty (resolved : option Value) : bool :=
  match resolved with
  | None => true
  | Some VNull => true
  | Some (VString text) => bool_decide (text = "")
  | Some (VArray items) => bool_decide (items = [])
  | Some (VObject fields) => bool_decide (fields = [])
  | Some (VBool _) | Some (VNumber _) => false
  end.

(** [equal]: as [f64] when both are numbers. *)
Definition equal (actual expected : Value) : bool :=
  match as_f64 actual, as_f64 expected with
  | Some l, Some r => SFeqb l r
  | _, _ => value_eqb actual expected
  end.

Definition contains (actual expected : Value) : option bool :=
  match actual with
  | VString text => (fun needle => str_contains needle text) <$> as_str expected
  | VArray items => Some (existsb (fun item => equal item expected) items)
  | _ => None
  end.

Definition value_starts_with (actual expected : Value) : option bool :=
  a ← as_str actual; e ← as_str expected; Some (starts_with e a).

Definition value_ends_with (actual expected : Value) : option bool :=
  a ← as_str actual; e ← as_str expected; Some (ends_with e a).

(** [compare_numbers]: [partial_cmp] of the two values as [f64]. *)
Definition compare_numbers (actual expected : Value) : option comparison :=
  l ← as_f64 actual; r ← as_f64 expected; SFcompare l r.

Definition is_gt (c : comparison) : bool := match c with Gt => true | _ => false end.
Definition is_lt (c : comparison) : bool := match c with Lt => true | _ => false end.
Definition is_ge (c : comparison) : bool := negb (is_lt c).
Definition is_le (c : comparison) : bool := negb (is_gt c).

Definition type_label (value : Value) : string :=
  match value with
  | VNull => "null"
  | VBool _ => "boolean"
  | VNumber n => if num_is_i64 n || num_is_u64 n then "integer" else "number"
  | VString _ => "string"
  | VArray _ => "array"
  | VObject _ => "object"
  end.

(** [ComparisonOperator::evaluate]; the second [match] of the code cannot see the four
    operators the first one returned for ([unreachable!]). *)
Definition evaluate (op : ComparisonOperator) (resolved expected : option Value)
    (selector : string) : result (fault ConditionError) bool :=
  match op with
  | Exists => Ok (bool_decide (is_Some resolved))
  | NotExists => Ok (bool_decide (resolved = None))
  | OpEmpty => Ok (is_empty resolved)
  | NotEmpty => Ok (negb (is_empty resolved))
  | _ =>
      actual ← ok_or resolved (Fails (CondUnsetVariable selector));
      expected ← ok_or expected
        (Fails (CondTypeMismatch selector op (type_label actual) "a comparison value"));
      let mismatched :=
        Fails (CondTypeMismatch selector op (type_label actual) (type_label expected)) in
      match op with
      | Equals => Ok (equal actual expected)
      | NotEquals => Ok (negb (equal actual expected))
      | Contains => ok_or (contains actual expected) mismatched
      | NotContains => negb <$> ok_or (contains actual expected) mismatched
      | StartsWith => ok_or (value_starts_with actual expected) mismatched
      | EndsWith => ok_or (value_ends_with actual expected) mismatched
      | GreaterThan => ok_or (is_gt <$> compare_numbers actual expected) mismatched
      | GreaterThanOrEqual => ok_or (is_ge <$> compare_numbers actual expected) mismatched
      | LessThan => ok_or (is_lt <$> compare_numbers actual expected) mismatched
      | LessThanOrEqual => ok_or (is_le <$> compare_numbers actual expected) mismatched
      | Is => Ok (equal actual expected)
      | IsNot => Ok (negb (equal actual expected))
      | OpEmpty | NotEmpty | Exists | NotExists => Err Panics
      end
  end.

(** ** Resolution of the two operands *)

Definition map_pool_resolve_error (error : WorkflowVariablePoolError)
    (operator : ComparisonOperator) : fault ConditionError :=
  match error with
  | Undeclared selector => Fails (CondUndeclared selector)
  | PathMissing selector segment => Fails (CondInvalidPath selector segment)
  | PathNotObject selector path => Fails (CondTypeMismatch selector operator path "object")
  | InvalidWriter _ _ _ | TypeMismatch _ _ | LengthExceeded _ _ => Panics
  end.

Definition map_template_error (error : fault VariableTemplateError)
    (operator : ComparisonOperator) : fault ConditionError :=
  match error with
  | Fails Unterminated => Fails (CondInvalidSelector ["{{#"])
  | Fails (InvalidSelector selector) => Fails (CondInvalidSelector (split_char DOT selector))
  | Fails (TemplateUndeclared selector) => Fails (CondUndeclared selector)
  | Fails (InvalidPath selector segment) => Fails (CondInvalidPath selector segment)
  | Fails (TemplatePathNotObject selector) =>
      Fails (CondTypeMismatch selector operator "value" "object")
  | Fails (UnsetVariable selector) => Fails (CondUnsetVariable selector)
  | Panics => Panics
  end.

Definition exclusive_template_selector (text : string) : option VariableSelector :=
  inner ← str_strip_prefix OPEN (trim text);
  inner ← str_strip_suffix CLOSE inner;
  if str_contains OPEN inner || str_contains CLOSE inner then None
  else try_from_parts (split_char DOT inner).

Section condition.
Context {json : JsonText}.

Definition resolve_comparison_value (value : Value) (pool : WorkflowVariablePool)
    (operator : ComparisonOperator) : result (fault ConditionError) Value :=
  match as_str value with
  | None => Ok value
  | Some text =>
      if negb (str_contains OPEN text) then Ok value
      else
        match exclusive_template_selector text with
        | Some selector =>
            resolved ← map_err (fun e => map_pool_resolve_error e operator)
                         (resolve pool selector);
            ok_or resolved (Fails (CondUnsetVariable (qualified selector)))
        | None =>
            rendered ← map_err (fun e => map_template_error e operator)
                         (render_variable_template text pool);
            Ok (VString rendered)
        end
  end.

Definition evaluate_rule (pool : WorkflowVariablePool) (rule : ConditionRule) :
    result (fault ConditionError) bool :=
  resolved ← map_err (fun e => map_pool_resolve_error e (rule_operator rule))
               (resolve pool (rule_selector rule));
  expected ←
    match rule_value rule with
    | None => Ok None
    | Some value => Some <$> resolve_comparison_value value pool (rule_operator rule)
    end;
  evaluate (rule_operator rule) resolved expected (qualified (rule_selector rule)).

(** All rules of a visited case are evaluated before they are combined. *)
Definition case_matched (pool : WorkflowVariablePool) (case : ConditionCase) :
    result (fault ConditionError) bool :=
  match case_conditions case with
  | [] => Ok false
  | conditions =>
      outcomes ← traverse (evaluate_rule pool) conditions;
      Ok (match case_logic case with
          | LogicAnd => forallb id outcomes
          | LogicOr => existsb id outcomes
          end)
  end.

(** The loop of [evaluate_condition] over the cases. *)
Fixpoint evaluate_cases (pool : WorkflowVariablePool) (l : list ConditionCase) :
    result (fault ConditionError) string :=
  match l with
  | [] => Ok ELSE_BRANCH_ID
  | case :: l =>
      matched ← case_matched pool case;
      if matched : bool then Ok (case_id case) else evaluate_cases pool l
  end.

Definition evaluate_condition (config : ConditionConfig) (pool : WorkflowVariablePool) :
    result (fault ConditionError) string :=
  evaluate_cases pool (cases config).
End condition.

(** ** Lemmas *)

Section lemmas.
Context {json : JsonText}.
Implicit Types (pool : WorkflowVariablePool) (rule : ConditionRule) (case : ConditionCase).

(** When a case holds: it has rules, every rule evaluates, and its logic combines them. *)
Definition rule_decides pool rule (b : bool) : Prop := evaluate_rule pool rule = Ok b.

Definition case_holds pool case : Prop :=
  case_conditions case <> [] /\
  Forall (fun r => exists b, rule_decides pool r b) (case_conditions case) /\
  match case_logic case with
  | LogicAnd => Forall (fun r => rule_decides pool r true) (case_conditions case)
  | LogicOr => List.Exists (fun r => rule_decides pool r true) (case_conditions case)
  end.

Definition case_fails pool case : Prop :=
  Forall (fun r => exists b, rule_decides pool r b) (case_conditions case) /\
  match case_logic case with
  | LogicAnd => case_conditions case = [] \/
      List.Exists (fun r => rule_decides pool r false) (case_conditions case)
  | LogicOr => Forall (fun r => rule_decides pool r false) (case_conditions case)
  end.

Lemma traverse_decides pool rules outcomes :
  traverse (evaluate_rule pool) rules = Ok outcomes ->
  Forall (fun r => exists b, rule_decides pool r b) rules /\
  (forallb id outcomes = true <-> Forall (fun r => rule_decides pool r true) rules) /\
  (forallb id outcomes = false <-> List.Exists (fun r => rule_decides pool r false) rules) /\
  (existsb id outcomes = true <-> List.Exists (fun r => rule_decides pool r true) rules) /\
  (existsb id outcomes = false <-> Forall (fun r => rule_decides pool r false) rules).
Proof.
  intros H%traverse_Ok. induction H as [|r b rules bs Hr _ IH]; simpl.
  { rewrite !Exists_nil, !Forall_nil. naive_solver. }
  rewrite !Forall_cons, !Exists_cons. unfold rule_decides in *. rewrite !Hr.
  destruct IH as (H1 & H2 & H3 & H4 & H5).
  destruct b; simpl; rewrite ?H2, ?H3, ?H4, ?H5; naive_solver.
Qed.

Lemma case_matched_true pool case : case_matched pool case = Ok true <-> case_holds pool case.
Proof.
  unfold case_matched, case_holds. destruct (case_conditions case) as [|r rules] eqn:E.
  { naive_solver. }
  rewrite bind_Ok. split.
  - intros (outcomes & Ho & [= Hb]). apply traverse_decides in Ho as (? & ? & _ & ? & _).
    destruct (case_logic case); (split; [done|tauto]).
  - intros (_ & Hall & Hl).
    destruct (traverse (evaluate_rule pool) (r :: rules)) as [outcomes|e] eqn:Ho.
    + exists outcomes. split; [done|]. apply traverse_decides in Ho as (? & ? & _ & ? & _).
      destruct (case_logic case); f_equal; tauto.
    + exfalso. apply traverse_Err in Ho as (l1 & x & l2 & Heq & _ & Hx).
      rewrite Heq in Hall. apply Forall_app in Hall as [_ [[b Hb] _]%Forall_cons].
      unfold rule_decides in Hb. congruence.
Qed.

Lemma case_matched_false pool case : case_matched pool case = Ok false <-> case_fails pool case.
Proof.
  unfold case_matched, case_fails. destruct (case_conditions case) as [|r rules] eqn:E.
  { destruct (case_logic case); naive_solver. }
  rewrite bind_Ok. split.
  - intros (outcomes & Ho & [= Hb]). apply traverse_decides in Ho as (? & _ & ? & _ & ?).
    destruct (case_logic case); tauto.
  - intros (Hall & Hl).
    destruct (traverse (evaluate_rule pool) (r :: rules)) as [outcomes|e] eqn:Ho.
    + exists outcomes. split; [done|]. apply traverse_decides in Ho as (? & _ & ? & _ & ?).
      destruct (case_logic case); f_equal; naive_solver.
    + exfalso. apply traverse_Err in Ho as (l1 & x & l2 & Heq & _ & Hx).
      rewrite Heq in Hall. apply Forall_app in Hall as [_ [[b Hb] _]%Forall_cons].
      unfold rule_decides in Hb. congruence.
Qed.

Lemma evaluate_no_panic op resolved expected sel : evaluate op resolved expected sel <> Err Panics.
Proof.
  destruct op, resolved, expected; simpl; try done;
    match goal with |- context [ok_or ?o _] => by destruct o end.
Qed.

Lemma map_pool_resolve_error_no_panic pool sel op e :
  resolve pool sel = Err e -> map_pool_resolve_error e op <> Panics.
Proof. intros He%resolve_error. by destruct e. Qed.

Lemma resolve_comparison_value_no_panic v pool op :
  resolve_comparison_value v pool op <> Err Panics.
Proof.
  unfold resolve_comparison_value. destruct (as_str v) as [text|]; [|done].
  destruct (negb _); [done|]. destruct (exclusive_template_selector text) as [sel|].
  - destruct (resolve pool sel) as [[w|]|e] eqn:E; simpl; [done..|].
    pose proof (map_pool_resolve_error_no_panic _ _ op _ E). congruence.
  - pose proof (render_no_panic text pool).
    destruct (render_variable_template text pool) as [|[[]|]]; simpl; congruence.
Qed.

Lemma evaluate_rule_no_panic pool rule : evaluate_rule pool rule <> Err Panics.
Proof.
  unfold evaluate_rule. destruct (resolve pool (rule_selector rule)) as [o|e] eqn:E; simpl.
  2: { pose proof (map_pool_resolve_error_no_panic _ _ (rule_operator rule) _ E). congruence. }
  destruct (rule_value rule) as [v|]; simpl; [|apply evaluate_no_panic].
  pose proof (resolve_comparison_value_no_panic v pool (rule_operator rule)).
  destruct (resolve_comparison_value v pool (rule_operator rule)); simpl; [|congruence].
  apply evaluate_no_panic.
Qed.

(** The four operators that accept a variable without a value. *)
Definition tolerates_unset (op : ComparisonOperator) : bool :=
  match op with Exists | NotExists | OpEmpty | NotEmpty => true | _ => false end.

Lemma evaluate_rule_unset pool rule :
  resolve pool (rule_selector rule) = Ok None -> tolerates_unset (rule_operator rule) = false ->
  exists e, evaluate_rule pool rule = Err e.
Proof.
  intros Hr Hop. unfold evaluate_rule. rewrite Hr. simpl.
  destruct (match rule_value rule with None => _ | Some v => _ end) as [o|e]; simpl; [|eauto].
  destruct (rule_operator rule); simpl in *; try done; eauto.
Qed.
End lemmas.

(** ** Properties *)

Section properties.
Context {json : JsonText}.

Lemma evaluate_cases_prefix pool pre l :
  Forall (case_fails pool) pre -> evaluate_cases pool (pre ++ l) = evaluate_cases pool l.
Proof.
  induction 1 as [|case pre Hc _ IH]; [done|]. simpl.
  apply case_matched_false in Hc as ->. done.
Qed.

(** The selected branch is that of the first case, in authored order, that has rules and
    whose rules hold under its logic, and ELSE exactly when every case was evaluated and none
    holds; a case without rules never matches. *)
Theorem condition_first_match config pool branch :
  evaluate_condition config pool = Ok branch <->
  (exists pre case post, cases config = pre ++ case :: post /\
     Forall (case_fails pool) pre /\ case_holds pool case /\ branch = case_id case) \/
  (Forall (case_fails pool) (cases config) /\ branch = ELSE_BRANCH_ID).
Proof.
  unfold evaluate_condition. split.
  - induction (cases config) as [|case l IH]; simpl.
    { intros [= <-]. by right. }
    intros (matched & Hm & H)%bind_Ok. destruct matched.
    + apply case_matched_true in Hm. left. exists [], case, l. by inv_ok.
    + apply case_matched_false in Hm.
      apply IH in H as [(pre & case' & post & -> & Hpre & ?)|[Hl ?]].
      * left. exists (case :: pre), case', post. split_and!; [done|by constructor|naive_solver..].
      * right. split; [by constructor | done].
  - intros [(pre & case & post & -> & Hpre & Hc & ->)|[Hl ->]].
    + rewrite evaluate_cases_prefix by done. simpl. by apply case_matched_true in Hc as ->.
    + by rewrite <-(app_nil_r (cases config)), evaluate_cases_prefix.
Qed.

(** Evaluation fails only with the error of the first rule, in the order of evaluation, that
    cannot be decided, and every rule of a case is evaluated before the case is combined, so an
    undecidable rule is never hidden by a sibling; the arms marked unreachable are. *)
Theorem condition_failure config pool e :
  evaluate_condition config pool = Err e <->
  e <> Panics /\
  exists pre case post rules1 rule rules2,
    cases config = pre ++ case :: post /\ Forall (case_fails pool) pre /\
    case_conditions case = rules1 ++ rule :: rules2 /\
    Forall (fun r => exists b, rule_decides pool r b) rules1 /\ evaluate_rule pool rule = Err e.
Proof.
  unfold evaluate_condition. split.
  - intros H.
    enough (exists pre case post rules1 rule rules2,
      cases config = pre ++ case :: post /\ Forall (case_fails pool) pre /\
      case_conditions case = rules1 ++ rule :: rules2 /\
      Forall (fun r => exists b, rule_decides pool r b) rules1 /\
      evaluate_rule pool rule = Err e) as Hx.
    { split; [|done]. destruct Hx as (? & ? & ? & ? & rule & ? & _ & _ & _ & _ & He).
      intros ->. by apply evaluate_rule_no_panic in He. }
    induction (cases config) as [|case l IH]; simpl in H; [done|].
    apply bind_Err in H as [H|([] & Hm & H)]; [| |].
    + unfold case_matched in H. destruct (case_conditions case) as [|r rules] eqn:Er; [done|].
      apply bind_Err in H as [H|(? & _ & [=])].
      apply traverse_Err in H as (l1 & rule & l2 & Hl & Hl1 & He).
      exists [], case, l, l1, rule, l2. by rewrite Er.
    + done.
    + apply case_matched_false in Hm.
      destruct (IH H) as (pre & case' & post & r1 & rule & r2 & -> & Hpre & ?).
      exists (case :: pre), case', post, r1, rule, r2. split_and!; [done|by constructor|naive_solver..].
  - intros (_ & pre & case & post & r1 & rule & r2 & -> & Hpre & Hr & Hr1 & He).
    rewrite evaluate_cases_prefix by done. simpl. apply bind_Err. left.
    unfold case_matched. rewrite Hr. destruct (r1 ++ rule :: r2) eqn:E; [by destruct r1|].
    apply bind_Err. left. apply traverse_Err. rewrite <-E. by exists r1, rule, r2.
Qed.

(** A variable without a value is never compared: when the evaluation reaches a case with a
    rule on a declared but unassigned variable, and the operator is not one of the four that ask
    for existence or emptiness, the node fails instead of taking a branch. *)
Theorem condition_unset config pool pre case post rule :
  cases config = pre ++ case :: post -> Forall (case_fails pool) pre ->
  rule ∈ case_conditions case ->
  resolve pool (rule_selector rule) = Ok None -> tolerates_unset (rule_operator rule) = false ->
  exists e, evaluate_condition config pool = Err e.
Proof.
  intros Hc Hpre Hin Hr Hop. unfold evaluate_condition.
  rewrite Hc, evaluate_cases_prefix by done. simpl.
  destruct (evaluate_rule_unset pool rule Hr Hop) as [e He].
  destruct (case_matched pool case) as [b|e'] eqn:Em; simpl; [|eauto]. exfalso.
  assert (Forall (fun r => exists b, rule_decides pool r b) (case_conditions case)) as Hall.
  { destruct b; [apply case_matched_true in Em as (_ & ? & _) | apply case_matched_false in Em as [? _]];
      done. }
  rewrite Forall_forall in Hall. destruct (Hall _ Hin) as [b' Hb'].
  unfold rule_decides in Hb'. congruence.
Qed.

(** Numbers are compared as [f64], so integers past 2^53 can compare equal though they differ. *)
Lemma equal_large_integers :
  equal (VNumber (PosInt 9007199254740992)) (VNumber (PosInt 9007199254740993)) = true.
Proof. vm_compute. reflexivity. Qed.
End properties.

#[local] Instance plain_json : JsonText :=
  {| json_to_string v := match v with VNull => "null" | _ => "?" end; json_from_str _ := None |}.

Lemma condition_unset_witness :
  let rule := {| rule_selector := new_selector "a" "text" []; rule_operator := Equals;
                 rule_value := Some (VString "x") |} in
  let empty_case := {| case_id := "if"; case_logic := LogicAnd; case_conditions := [] |} in
  let case := {| case_id := "elif"; case_logic := LogicOr; case_conditions := [rule] |} in
  let pool := declare empty_pool "a.text" "string" "a" in
  resolve pool (rule_selector rule) = Ok None /\
  exists e, evaluate_condition {| cases := [empty_case; case] |} pool = Err e.
Proof.
  intros rule empty_case case pool. split; [reflexivity|].
  apply (condition_unset _ _ [empty_case] case [] rule).
  - reflexivity.
  - constructor; [|constructor]. split; [constructor | by left].
  - by left.
  - reflexivity.
  - reflexivity.
Defined.
