(* ===== verification/StructuredOutput.v ===== *)
(** * Structured agent output ([engine/structured_output.rs])

    Extraction of a JSON object from an agent's final response, and the validator of the JSON
    Schema subset the editor emits.  The two recursions over a schema run on fuel, its size;
    the unfolding lemmas show that the fuel never shows. *)

From S2P Require Import Prelude RustStr Json VariablePool Condition.
From Stdlib Require Import Ascii.
Local Open Scope ora_scope.

Inductive StructuredOutputError : Type :=
| NotJsonObject (reason : string)
| InvalidType (path expected actual : string)
| MissingRequired (path property : string)
| DisallowedProperty (path property : string)
| SchemaViolation (path message : string).

#[export] Instance StructuredOutputError_eq_dec : EqDecision StructuredOutputError.
Proof. solve_decision. Defined.

Definition structured_output_message (e : StructuredOutputError) : string :=
  match e with
  | NotJsonObject reason => "final assistant output is not a JSON object: " +:+ reason
  | InvalidType path expected actual =>
      "structured output at " +:+ path +:+ " has type " +:+ actual +:+ ", expected " +:+ expected
  | MissingRequired path property =>
      "structured output at " +:+ path +:+ " is missing required property " +:+ property
  | DisallowedProperty path property =>
      "structured output at " +:+ path +:+ " has unexpected property " +:+ property
  | SchemaViolation path message =>
      "structured output at " +:+ path +:+ " violates the schema: " +:+ message
  end.

(** ** Extraction *)

Definition QUOTE : ascii := byte_at 34.
Definition BACKSLASH_CHAR : ascii := byte_at 92.

(** [object_body_end]: the bytes before and after the closing brace at depth zero. *)
Fixpoint object_body (depth : Z) (in_string escaped : bool) (text : string) :
    option (string * string) :=
  match text with
  | "" => None
  | String ch rest =>
      let continue depth in_string escaped :=
        (fun p => (String ch p.1, p.2)) <$> object_body depth in_string escaped rest in
      if in_string then
        if escaped then continue depth true false
        else if bool_decide (ch = BACKSLASH_CHAR) then continue depth true true
        else if bool_decide (ch = QUOTE) then continue depth false false
        else continue depth true false
      else if bool_decide (ch = QUOTE) then continue depth true escaped
      else if bool_decide (ch = "{"%char) then continue (depth + 1)%Z false escaped
      else if bool_decide (ch = "}"%char) then
        if (depth - 1 =? 0)%Z then Some (String ch "", rest)
        else continue (depth - 1)%Z false escaped
      else continue depth false escaped
  end.

(** The fence marker of a line that opens a fence. *)
Fixpoint count_prefix (c : ascii) (s : string) : nat :=
  match s with
  | String d s => if decide (d = c) then S (count_prefix c s) else 0
  | "" => 0
  end.

Definition is_fence_char (c : ascii) : bool :=
  bool_decide (c = byte_at 96) || bool_decide (c = "~"%char).

Definition fence_marker (line : string) : option ascii :=
  match trim_start line with
  | String marker _ as trimmed =>
      if negb (is_fence_char marker) then None
      else if 3 <=? count_prefix marker trimmed then Some marker else None
  | "" => None
  end.

Definition is_closing_fence (line : string) (marker : ascii) : bool :=
  let trimmed := trim_start line in
  match trimmed with
  | String c _ => bool_decide (c = marker) && (3 <=? count_prefix marker trimmed)
  | "" => false
  end.

(** The body of an open fence and the lines after it. *)
Fixpoint fence_body (marker : ascii) (block : string) (ls : list string) :
    string * list string :=
  match ls with
  | [] => (block, [])
  | inner :: ls =>
      if is_closing_fence inner marker then (block, ls)
      else fence_body marker (block +:+ inner +:+ bytes [10%N]) ls
  end.

Fixpoint fenced_blocks_go (fuel : nat) (ls : list string) : list string :=
  match fuel, ls with
  | S fuel, line :: ls =>
      match fence_marker line with
      | None => fenced_blocks_go fuel ls
      | Some marker =>
          let body := fence_body marker "" ls in
          body.1 :: fenced_blocks_go fuel body.2
      end
  | _, _ => []
  end.

(** Every round consumes at least one line. *)
Definition fenced_blocks (text : string) : list string :=
  let ls := lines text in fenced_blocks_go (length ls) ls.

Section extract.
Context {json : JsonText}.

(** [serde_json::from_str::<Value>(text)] when it is an object. *)
Definition parse_object (text : string) : option Value :=
  value ← json_from_str text; if is_object value then Some value else None.

Fixpoint first_embedded_json_object (text : string) : option Value :=
  match text with
  | "" => None
  | String ch rest =>
      let here :=
        if bool_decide (ch = "{"%char)
        then body ← object_body 0 false false text; parse_object body.1
        else None in
      match here with Some value => Some value | None => first_embedded_json_object rest end
  end.

Fixpoint first_object (blocks : list string) : option Value :=
  match blocks with
  | [] => None
  | block :: blocks =>
      match parse_object block with Some value => Some value | None => first_object blocks end
  end.

Definition extract_json_object (text : string) : result StructuredOutputError Value :=
  let trimmed := trim text in
  match (if starts_with "{" trimmed then parse_object trimmed else None) with
  | Some value => Ok value
  | None =>
      match first_object (fenced_blocks trimmed) with
      | Some value => Ok value
      | None =>
          ok_or (first_embedded_json_object trimmed)
            (NotJsonObject (if starts_with "{" trimmed then "text is not valid JSON"
                            else "no JSON object found in the final response"))
      end
  end.
End extract.

(** ** The schema validator *)

(** Size of a value: an upper bound of the depth of any recursion over it. *)
Fixpoint value_size (v : Value) : nat :=
  match v with
  | VArray items => S (sum_list_with value_size items)
  | VObject fields => S (sum_list_with (fun kv => value_size kv.2) fields)
  | _ => 1
  end.

Definition schema_type (object : list (string * Value)) : option string :=
  map_get "type" object ≫= as_str.

(** [object.get("properties")] is an object that contains the name. *)
Definition declares (object : list (string * Value)) (name : string) : bool :=
  match map_get "properties" object ≫= as_object with
  | Some properties => map_contains_key name properties
  | None => false
  end.

(** The [required] block of [validate_schema_node]. *)
Definition check_required_schema (path : string) (object : list (string * Value))
    (entry : Value) : result StructuredOutputError unit :=
  name ← ok_or (as_str entry) (SchemaViolation path "required entry is not a string");
  reject_if (negb (declares object name))
    (SchemaViolation path ("required property " +:+ name +:+ " is not declared")).

Fixpoint schema_node (fuel : nat) (schema : Value) (path : string) :
    result StructuredOutputError unit :=
  match fuel with
  | 0 => Ok tt
  | S fuel =>
      object ← ok_or (as_object schema)
        (SchemaViolation path "schema fragment is not an object");
      value_type ← ok_or (schema_type object) (SchemaViolation path "type must be a string");
      reject (negb (bool_decide (value_type = "null")) && negb (is_supported_variable_type value_type))
        with (SchemaViolation path ("unsupported type " +:+ value_type));
      _ ← match map_get "properties" object with
          | None => Ok tt
          | Some properties =>
              reject (negb (bool_decide (value_type = "object")))
                with (SchemaViolation path "properties is only valid for object fields");
              properties ← ok_or (as_object properties)
                (SchemaViolation path "properties must be an object");
              for_each (fun kv => schema_node fuel kv.2 (path +:+ ".properties." +:+ kv.1)) properties
          end;
      _ ← match map_get "required" object with
          | None => Ok tt
          | Some required =>
              reject (negb (bool_decide (value_type = "object")))
                with (SchemaViolation path "required is only valid for object fields");
              required ← ok_or (as_array required)
                (SchemaViolation path "required must be an array");
              for_each (check_required_schema path object) required
          end;
      _ ← match map_get "additionalProperties" object with
          | None => Ok tt
          | Some additional =>
              reject_if (negb (bool_decide (value_type = "object")) || negb (is_boolean additional))
                (SchemaViolation path "additionalProperties must be a boolean on an object field")
          end;
      match map_get "items" object with
      | None => Ok tt
      | Some items =>
          reject (negb (bool_decide (value_type = "array")))
            with (SchemaViolation path "items is only valid for array fields");
          schema_node fuel items (path +:+ ".items")
      end
  end.

Definition validate_schema_node (schema : Value) (path : string) :
    result StructuredOutputError unit :=
  schema_node (value_size schema) schema path.

Definition validate_structured_output_schema (schema : Value) :
    result StructuredOutputError unit :=
  _ ← validate_schema_node schema "$";
  reject_if (negb (bool_decide ((value_get "type" schema ≫= as_str) = Some "object")))
    (SchemaViolation "$" "root type must be object").

Section validate.
Context {debug : DebugText}.

Definition matches_type (value : Value) (expected : string) : bool :=
  (bool_decide (expected = "null") && is_null value) || workflow_value_matches_type value expected.

(** The [type] block of [validate_node]. *)
Definition check_type (value schema : Value) (path : string) : result StructuredOutputError unit :=
  match value_get "type" schema ≫= as_str with
  | None => Ok tt
  | Some expected =>
      if matches_type value expected then Ok tt
      else
        match (if bool_decide (expected = "file") then file_reference_rejection value else None) with
        | Some reason => Err (SchemaViolation path reason)
        | None => Err (InvalidType path expected (type_label value))
        end
  end.

(** The [required] block of [validate_node]. *)
Definition check_required (fields : list (string * Value)) (path : string) (entry : Value) :
    result StructuredOutputError unit :=
  name ← ok_or (as_str entry) (SchemaViolation path "required entry is not a string");
  reject_if (negb (map_contains_key name fields)) (MissingRequired path name).

Definition declared_names (schema : Value) : list string :=
  match value_get "properties" schema ≫= as_object with Some ps => ps.*1 | None => [] end.

Fixpoint node_valid (fuel : nat) (value schema : Value) (path : string) :
    result StructuredOutputError unit :=
  match fuel with
  | 0 => Ok tt
  | S fuel =>
      _ ← check_type value schema path;
      _ ← match value_get "properties" schema ≫= as_object, value with
          | Some properties, VObject fields =>
              for_each (fun kv : string * Value =>
                match map_get kv.1 fields with
                | Some property_value =>
                    node_valid fuel property_value kv.2 (path +:+ "." +:+ kv.1)
                | None => Ok tt
                end) properties
          | _, _ => Ok tt
          end;
      _ ← match value_get "required" schema ≫= as_array, value with
          | Some required, VObject fields => for_each (check_required fields path) required
          | _, _ => Ok tt
          end;
      _ ← match value_get "additionalProperties" schema, value with
          | Some (VBool false), VObject fields =>
              for_each (fun kv : string * Value =>
                reject_if (negb (bool_decide (kv.1 ∈ declared_names schema)))
                  (DisallowedProperty path kv.1)) fields
          | _, _ => Ok tt
          end;
      match value_get "items" schema, value with
      | Some items, VArray l =>
          for_each (fun p : nat * Value =>
            node_valid fuel p.2 items (path +:+ "[" +:+ pretty p.1 +:+ "]")) (imap pair l)
      | _, _ => Ok tt
      end
  end.

Definition validate_node (value schema : Value) (path : string) :
    result StructuredOutputError unit :=
  node_valid (value_size schema) value schema path.

Definition validate_against_schema (value schema : Value) : result StructuredOutputError unit :=
  _ ← validate_schema_node schema "$"; validate_node value schema "$".
End validate.

(** ** Lemmas: sizes and fuel *)

Lemma value_size_pos v : 0 < value_size v.
Proof. destruct v; simpl; lia. Qed.

Lemma sum_list_with_elem {A} (f : A -> nat) x l : x ∈ l -> f x <= sum_list_with f l.
Proof. induction 1 as [x l|x y l _ IH]; simpl; lia. Qed.

Lemma value_size_field k v fields :
  (k, v) ∈ fields -> value_size v < value_size (VObject fields).
Proof. intros H. pose proof (sum_list_with_elem (fun kv => value_size kv.2) _ _ H). simpl in *. lia. Qed.

Lemma map_get_elem k v fields : map_get k fields = Some v -> (k, v) ∈ fields.
Proof.
  induction fields as [|[k' w] fields IH]; simpl; [done|]. case_decide as Hk.
  - subst. intros [= ->]. by left.
  - intros H. right. by apply IH.
Qed.

Lemma value_size_get k v fields :
  map_get k fields = Some v -> value_size v < value_size (VObject fields).
Proof. intros H%map_get_elem. by eapply value_size_field. Qed.

Lemma value_get_size k s v : value_get k s = Some v -> value_size v < value_size s.
Proof. destruct s; try done. apply value_size_get. Qed.

Lemma properties_size s ps k v :
  value_get "properties" s ≫= as_object = Some ps -> (k, v) ∈ ps -> value_size v < value_size s.
Proof.
  intros (p & Hp%value_get_size & Hps)%bind_Some Hin%value_size_field.
  destruct p; simplify_eq/=. lia.
Qed.

Lemma schema_node_fuel f1 f2 s path :
  value_size s <= f1 -> value_size s <= f2 -> schema_node f1 s path = schema_node f2 s path.
Proof.
  revert f2 s path. induction f1 as [|f1 IH]; intros f2 s path H1 H2;
    [pose proof (value_size_pos s); lia|].
  destruct f2 as [|f2]; [pose proof (value_size_pos s); lia|].
  cbn [schema_node]. apply bind_ext; [done|]. intros object Hs.
  destruct s as [| | | | |o]; try done. apply Ok_inj in Hs as ->.
  apply bind_ext; [done|]. intros t _. apply bind_ext; [done|]. intros _ _.
  apply bind_ext; [|intros _ _; apply bind_ext; [done|]; intros _ _; apply bind_ext; [done|]; intros _ _].
  - destruct (map_get "properties" object) as [p|] eqn:Ep; [|done].
    apply bind_ext; [done|]. intros _ _. apply bind_ext; [done|]. intros ps Hps.
    destruct p as [| | | | |q]; try done. apply Ok_inj in Hps as ->.
    apply for_each_ext. intros [k v] Hin%value_size_field. apply value_size_get in Ep.
    apply IH; simpl; lia.
  - destruct (map_get "items" object) as [items|] eqn:Ei; [|done].
    apply bind_ext; [done|]. intros _ _. apply value_size_get in Ei. apply IH; lia.
Qed.

Lemma node_valid_fuel `{DebugText} f1 f2 v s path :
  value_size s <= f1 -> value_size s <= f2 -> node_valid f1 v s path = node_valid f2 v s path.
Proof.
  revert f2 v s path. induction f1 as [|f1 IH]; intros f2 v s path H1 H2;
    [pose proof (value_size_pos s); lia|].
  destruct f2 as [|f2]; [pose proof (value_size_pos s); lia|].
  cbn [node_valid]. apply bind_ext; [done|]. intros _ _.
  apply bind_ext; [|intros _ _; apply bind_ext; [done|]; intros _ _; apply bind_ext; [done|]; intros _ _].
  - destruct (value_get "properties" s ≫= as_object) as [ps|] eqn:Ep; [|done].
    destruct v; try done. apply for_each_ext. intros [k sub] Hin. simpl.
    pose proof (properties_size _ _ _ _ Ep Hin). destruct (map_get k fields); [|done]. apply IH; lia.
  - destruct (value_get "items" s) as [items|] eqn:Ei; [|done]. apply value_get_size in Ei.
    destruct v; try done. apply for_each_ext. intros x _. apply IH; lia.
Qed.

(** ** What the validator decides *)

(** The supported schemas. *)
Inductive schema_wf : Value -> Prop :=
| schema_wf_object object t :
    schema_type object = Some t ->
    (t = "null" \/ is_supported_variable_type t = true) ->
    (forall p, map_get "properties" object = Some p ->
       t = "object" /\ exists ps, p = VObject ps /\ forall k s, (k, s) ∈ ps -> schema_wf s) ->
    (forall r, map_get "required" object = Some r ->
       t = "object" /\ exists l, r = VArray l /\
         forall e, e ∈ l -> exists name, e = VString name /\ declares object name = true) ->
    (forall a, map_get "additionalProperties" object = Some a ->
       t = "object" /\ exists b, a = VBool b) ->
    (forall i, map_get "items" object = Some i -> t = "array" /\ schema_wf i) ->
    schema_wf (VObject object).

Lemma check_required_schema_Ok path object e u :
  check_required_schema path object e = Ok u <->
  exists name, e = VString name /\ declares object name = true.
Proof.
  unfold check_required_schema. destruct e; simpl; try naive_solver.
  rewrite reject_if_Ok, negb_false_iff. naive_solver.
Qed.

Lemma schema_node_Ok fuel s path u :
  value_size s <= fuel -> schema_node fuel s path = Ok u <-> schema_wf s.
Proof.
  revert s path u. induction fuel as [|fuel IH]; intros s path u Hs;
    [pose proof (value_size_pos s); lia|].
  split.
  - cbn [schema_node]. intros H. inv_ok. destruct s as [| | | | |object]; try done.
    apply (inj Some) in Hx as <-.
    apply (schema_wf_object object x0); try done.
    + rewrite andb_false_iff, !negb_false_iff, bool_decide_eq_true in Hx1. done.
    + intros p Hp. rewrite Hp in Hx2. inv_ok.
      apply negb_false_iff, bool_decide_eq_true in Hx. split; [done|].
      destruct p as [| | | | |ps]; try done. apply (inj Some) in Hx5 as <-. exists ps. split; [done|].
      intros k sub Hin. apply for_each_Ok in Hx2. rewrite Forall_forall in Hx2.
      apply Hx2 in Hin as Hok. eapply IH; [|exact Hok].
      apply value_size_get in Hp. apply value_size_field in Hin. lia.
    + intros r Hr. rewrite Hr in Hx3. inv_ok.
      apply negb_false_iff, bool_decide_eq_true in Hx. split; [done|].
      destruct r as [| | | |l|]; try done. apply (inj Some) in Hx5 as <-. exists l. split; [done|].
      intros e He. apply for_each_Ok in Hx3. rewrite Forall_forall in Hx3.
      apply Hx3 in He. by apply check_required_schema_Ok in He.
    + intros a Ha. rewrite Ha in Hx4. inv_ok.
      rewrite orb_false_iff, !negb_false_iff, bool_decide_eq_true in Hx4. destruct Hx4.
      split; [done|]. destruct a; try done. eauto.
    + intros i Hi. rewrite Hi in H. inv_ok.
      apply negb_false_iff, bool_decide_eq_true in Hx. split; [done|].
      eapply IH; [|exact H]. apply value_size_get in Hi. lia.
  - destruct 1 as [object t Ht Hsup Hp Hr Ha Hi]. destruct u. cbn [schema_node as_object ok_or mbind result_bind].
    rewrite Ht. cbn [ok_or]. apply reject_Ok. split.
    { rewrite andb_false_iff, !negb_false_iff, bool_decide_eq_true. done. }
    apply bind_Ok. exists tt. split; [|apply bind_Ok; exists tt; split; [|apply bind_Ok; exists tt; split]].
    + destruct (map_get "properties" object) as [p|] eqn:Ep; [|done].
      destruct (Hp p eq_refl) as (-> & ps & -> & Hps). apply reject_Ok. split; [done|].
      apply for_each_Ok, Forall_forall. intros [k sub] Hin. apply IH; [|by eapply Hps].
      apply value_size_get in Ep. apply value_size_field in Hin. simpl. lia.
    + destruct (map_get "required" object) as [r|]; [|done].
      destruct (Hr r eq_refl) as (-> & l & -> & Hl). apply reject_Ok. split; [done|].
      apply for_each_Ok, Forall_forall. intros e He. by apply check_required_schema_Ok, Hl.
    + destruct (map_get "additionalProperties" object) as [a|]; [|done].
      by destruct (Ha a eq_refl) as (-> & b & ->).
    + destruct (map_get "items" object) as [i|] eqn:Ei; [|done].
      destruct (Hi i eq_refl) as (-> & Hwf). apply reject_Ok. split; [done|].
      apply IH; [|done]. apply value_size_get in Ei. lia.
Qed.

(** The values a schema accepts. *)
Inductive accepts `{DebugText} : Value -> Value -> Prop :=
| accepts_intro schema value :
    (forall t, value_get "type" schema ≫= as_str = Some t -> matches_type value t = true) ->
    (forall ps fields k s v, value_get "properties" schema ≫= as_object = Some ps ->
       value = VObject fields -> (k, s) ∈ ps -> map_get k fields = Some v -> accepts s v) ->
    (forall l fields e, value_get "required" schema ≫= as_array = Some l ->
       value = VObject fields -> e ∈ l ->
       exists name, e = VString name /\ map_contains_key name fields = true) ->
    (forall fields k v, value_get "additionalProperties" schema = Some (VBool false) ->
       value = VObject fields -> (k, v) ∈ fields -> k ∈ declared_names schema) ->
    (forall i l v, value_get "items" schema = Some i -> value = VArray l -> v ∈ l -> accepts i v) ->
    accepts schema value.

Section accepts.
Context {debug : DebugText}.

Lemma check_type_Ok value schema path u :
  check_type value schema path = Ok u <->
  forall t, value_get "type" schema ≫= as_str = Some t -> matches_type value t = true.
Proof.
  destruct u. unfold check_type. destruct (value_get "type" schema ≫= as_str) as [t|]; [|done].
  destruct (matches_type value t) eqn:E; [split; [by intros _ ? [= <-]|done]|].
  split; [|intros H; specialize (H t eq_refl); congruence].
  by destruct (if bool_decide _ then _ else _).
Qed.

Lemma check_required_Ok fields path e u :
  check_required fields path e = Ok u <->
  exists name, e = VString name /\ map_contains_key name fields = true.
Proof.
  unfold check_required. destruct e; simpl; try naive_solver.
  rewrite reject_if_Ok, negb_false_iff. naive_solver.
Qed.

Lemma elem_of_imap_pair {A} (l : list A) n x : (n, x) ∈ imap pair l -> x ∈ l.
Proof.
  intros (i & Hi)%list_elem_of_lookup. rewrite list_lookup_imap in Hi.
  destruct (l !! i) eqn:E; simplify_eq/=. by eapply list_elem_of_lookup_2.
Qed.

Lemma elem_of_imap_pair_2 {A} (l : list A) x : x ∈ l -> exists n, (n, x) ∈ imap pair l.
Proof.
  intros (i & Hi)%list_elem_of_lookup. exists i. apply (list_elem_of_lookup_2 _ i).
  by rewrite list_lookup_imap, Hi.
Qed.

Lemma node_valid_sound fuel value schema path u :
  value_size schema <= fuel -> node_valid fuel value schema path = Ok u -> accepts schema value.
Proof.
  revert value schema path u. induction fuel as [|fuel IH]; intros v s path u Hs;
    [pose proof (value_size_pos s); lia|].
  cbn [node_valid]. intros H. inv_ok. constructor.
  - by eapply check_type_Ok.
  - intros ps fields k sub w Hps -> Hin Hk. rewrite Hps in Hx0.
    apply for_each_Ok in Hx0. rewrite Forall_forall in Hx0. apply Hx0 in Hin as Hok. simpl in Hok.
    rewrite Hk in Hok. eapply IH; [|exact Hok]. pose proof (properties_size _ _ _ _ Hps Hin). lia.
  - intros l fields e Hl -> He. rewrite Hl in Hx1.
    apply for_each_Ok in Hx1. rewrite Forall_forall in Hx1. by apply Hx1, check_required_Ok in He.
  - intros fields k w Ha -> Hin. rewrite Ha in Hx2.
    apply for_each_Ok in Hx2. rewrite Forall_forall in Hx2. apply Hx2 in Hin. inv_ok.
    by apply negb_false_iff, bool_decide_eq_true in Hin.
  - intros i l w Hi -> Hin. rewrite Hi in H. apply for_each_Ok in H. rewrite Forall_forall in H.
    apply elem_of_imap_pair_2 in Hin as [n Hin]. apply H in Hin. eapply IH; [|exact Hin].
    apply value_get_size in Hi. lia.
Qed.

Lemma node_valid_complete fuel value schema path :
  accepts schema value -> node_valid fuel value schema path = Ok tt.
Proof.
  revert value schema path. induction fuel as [|fuel IH]; intros v s path Hacc; [done|].
  destruct Hacc as [s v Ht Hp Hr Ha Hi]. cbn [node_valid].
  apply bind_Ok; exists tt; split; [by apply check_type_Ok|].
  apply bind_Ok; exists tt; split; [|apply bind_Ok; exists tt; split; [|apply bind_Ok; exists tt; split]].
  - destruct (value_get "properties" s ≫= as_object) as [ps|]; [|done]. destruct v; try done.
    apply for_each_Ok, Forall_forall. intros [k sub] Hin. simpl.
    destruct (map_get k fields) as [w|] eqn:Ek; [|done]. by eapply IH, Hp.
  - destruct (value_get "required" s ≫= as_array) as [l|]; [|done]. destruct v; try done.
    apply for_each_Ok, Forall_forall. intros e He. by eapply check_required_Ok, Hr.
  - destruct (value_get "additionalProperties" s) as [[|[]| | | |]|]; try done. destruct v; try done.
    apply for_each_Ok, Forall_forall. intros [k w] Hin.
    apply reject_if_Ok, negb_false_iff, bool_decide_eq_true. by eapply Ha.
  - destruct (value_get "items" s) as [i|]; [|done]. destruct v; try done.
    apply for_each_Ok, Forall_forall. intros [n w] Hin%elem_of_imap_pair. by eapply IH, Hi.
Qed.

(** ** Properties *)

(** C32: the validator accepts exactly the pairs of a supported schema and a value of that schema:
    schema support is decided first, at any depth, and the value's declared types, declared
    properties, required keys, closed objects and array items are all checked, at any depth. *)
Theorem validate_against_schema_spec value schema :
  validate_against_schema value schema = Ok tt <-> schema_wf schema /\ accepts schema value.
Proof.
  unfold validate_against_schema, validate_schema_node, validate_node. rewrite bind_Ok. split.
  - intros (u & Hs & Hv). apply schema_node_Ok in Hs; [|done].
    apply node_valid_sound in Hv; done.
  - intros [Hs Hv]. exists tt. split; [by apply schema_node_Ok|by apply node_valid_complete].
Qed.
End accepts.

Section extraction.
Context {json : JsonText}.

Lemma parse_object_Some text v :
  parse_object text = Some v <-> json_from_str text = Some v /\ is_object v = true.
Proof.
  unfold parse_object. destruct (json_from_str text) as [w|]; simpl.
  - destruct (is_object w) eqn:E; split; try done; [by intros [= <-]|by intros [[= <-] _]|].
    intros [[= <-] ?]. congruence.
  - split; [done|by intros [? _]].
Qed.

Lemma object_body_Some d i e text a b :
  object_body d i e text = Some (a, b) -> text = a +:+ b.
Proof.
  revert d i e a. induction text as [|ch rest IH]; intros d i e a; simpl; [done|].
  repeat case_match; intros Hb0; simplify_eq/=; try done;
    match goal with
    | H : _ <$> object_body _ _ _ _ = Some _ |- _ =>
        apply fmap_Some in H as ([a' b'] & Hb & [= -> ->]); simpl; by erewrite <-IH
    end.
Qed.

Lemma first_embedded_Some text v :
  first_embedded_json_object text = Some v ->
  is_object v = true /\ exists a body b, text = a +:+ body +:+ b /\ json_from_str body = Some v.
Proof.
  induction text as [|ch rest IH]; [done|].
  cbn [first_embedded_json_object].
  destruct (if bool_decide (ch = "{"%char) then _ else None) as [w|] eqn:E.
  - intros [= ->]. case_bool_decide; [|done].
    apply bind_Some in E as ([body b] & Hb & Hv%parse_object_Some). simpl in Hv.
    split; [tauto|]. exists "", body, b. apply object_body_Some in Hb. simpl. tauto.
  - intros H. apply IH in H as (Ho & a & body & b & -> & Hv). split; [done|].
    by exists (String ch a), body, b.
Qed.

Lemma first_object_Some blocks v :
  first_object blocks = Some v ->
  is_object v = true /\ exists block, block ∈ blocks /\ json_from_str block = Some v.
Proof.
  induction blocks as [|block blocks IH]; simpl; [done|].
  destruct (parse_object block) as [w|] eqn:E.
  - intros [= ->]. apply parse_object_Some in E as [? ?]. split; [done|]. exists block.
    split; [by left|done].
  - intros H. apply IH in H as (? & block' & ? & ?). split; [done|]. exists block'.
    split; [by right|done].
Qed.

(** Whatever extraction returns is a JSON object that was read from the response: the whole
    trimmed response, the body of one of its fences, or a substring of it; a response that is
    itself an object is returned as it is, before any fence is looked at. *)
Theorem extract_json_object_sound text v :
  (extract_json_object text = Ok v ->
   is_object v = true /\
   (json_from_str (trim text) = Some v \/
    (exists block, block ∈ fenced_blocks (trim text) /\ json_from_str block = Some v) \/
    exists a body b, trim text = a +:+ body +:+ b /\ json_from_str body = Some v)) /\
  (starts_with "{" (trim text) = true -> json_from_str (trim text) = Some v -> is_object v = true ->
   extract_json_object text = Ok v).
Proof.
  unfold extract_json_object. split.
  - destruct (if starts_with "{" (trim text) then _ else None) as [w|] eqn:E1.
    { intros [= ->]. destruct (starts_with "{" (trim text)); [|done].
      apply parse_object_Some in E1. tauto. }
    destruct (first_object (fenced_blocks (trim text))) as [w|] eqn:E2.
    { intros [= ->]. apply first_object_Some in E2. tauto. }
    intros H. inv_ok. apply first_embedded_Some in H. tauto.
  - intros Hs Hp Ho. rewrite Hs. by rewrite (proj2 (parse_object_Some (trim text) v)).
Qed.
End extraction.

#[local] Instance brace_json : JsonText :=
  {| json_to_string _ := ""; json_from_str s := if decide (s = "{}") then Some (VObject []) else None |}.

(** An object between braces inside prose is found; braces inside strings do not count. *)
Example extract_embedded : extract_json_object "answer: {} done" = Ok (VObject []).
Proof. vm_compute. reflexivity. Qed.
Example object_body_string :
  let text := "{" +:+ quoted "}" +:+ "}x" in
  object_body 0 false false text = Some ("{" +:+ quoted "}" +:+ "}", "x").
Proof. vm_compute. reflexivity. Qed.
