(* ===== verification/GraphBase.v ===== *)
(** * Errors, edges and output bindings of a workflow graph ([engine/graph.rs])

    [GraphError] is shared by every parser of the engine: agent retry policies, iteration configurations,
    composite regions, Start inputs and the graph itself.  The second part is the interface of [petgraph], adjacency
    and topological order, with a reference implementation. *)

From stdpp Require Import relations fin_sets.
From S2P Require Import Prelude RustStr VariablePool.

Inductive GraphError : Type :=
| InvalidJson
| MissingNodes
| MissingEdges
| InvalidNode (reason : string)
| UnknownNodeType (node_id value : string)
| InvalidCondition (node_id reason : string)
| InvalidAggregator (node_id reason : string)
| InvalidIteration (node_id reason : string)
| InvalidRetry (node_id reason : string)
| InvalidRegion (node_id reason : string)
| InvalidStartVariables (node_id reason : string)
| InvalidGlobalVariables (reason : string)
| DanglingEdge (node_id : string)
| CycleDetected
| MultipleStartNodes
| DuplicateNodeId (node_id : string).

#[export] Instance GraphError_eq_dec : EqDecision GraphError.
Proof. solve_decision. Defined.

Definition graph_error_message (e : GraphError) : string :=
  match e with
  | InvalidJson => "workflow graph is not valid JSON"
  | MissingNodes => "workflow graph is missing the nodes array"
  | MissingEdges => "workflow graph is missing the edges array"
  | InvalidNode reason => "invalid node: " +:+ reason
  | UnknownNodeType id value => "node " +:+ id +:+ " has unknown node type " +:+ value
  | InvalidCondition id reason =>
      "node " +:+ id +:+ " has an invalid condition config: " +:+ reason
  | InvalidAggregator id reason =>
      "node " +:+ id +:+ " has an invalid aggregator config: " +:+ reason
  | InvalidIteration id reason =>
      "node " +:+ id +:+ " has an invalid iteration config: " +:+ reason
  | InvalidRetry id reason => "node " +:+ id +:+ " has an invalid retry config: " +:+ reason
  | InvalidRegion id reason =>
      "node " +:+ id +:+ " violates a composite region boundary: " +:+ reason
  | InvalidStartVariables id reason =>
      "node " +:+ id +:+ " has invalid Start variables: " +:+ reason
  | InvalidGlobalVariables reason => "workflow has invalid global variables: " +:+ reason
  | DanglingEdge id => "edge references missing node " +:+ id
  | CycleDetected => "workflow graph contains a cycle"
  | MultipleStartNodes => "workflow graph contains more than one start node"
  | DuplicateNodeId id => "duplicate node id: " +:+ id
  end.

(** [WorkflowGraphEdge] *)
Record WorkflowGraphEdge : Type := {
  source : string;
  target : string;
  source_handle : option string;
}.

#[export] Instance WorkflowGraphEdge_eq_dec : EqDecision WorkflowGraphEdge.
Proof. solve_decision. Defined.

(** [OutputBinding] and [OutputConfig] *)
Record OutputBinding : Type := {
  binding_name : string;
  binding_selector : VariableSelector;
}.
Record OutputConfig : Type := { output_bindings : list OutputBinding }.

#[export] Instance OutputBinding_eq_dec : EqDecision OutputBinding.
Proof. solve_decision. Defined.

Record WireOutputBinding : Type := {
  wb_name : option string;
  wb_variable_selector : list string;
}.

(** [into_output_config]: bindings without a name or with an unparseable selector are skipped. *)
Definition into_output_config (wire : list WireOutputBinding) : option OutputConfig :=
  let outputs :=
    omap (fun binding =>
      name ← wb_name binding;
      selector ← try_from_parts (wb_variable_selector binding);
      Some {| binding_name := name; binding_selector := selector |}) wire in
  if bool_decide (outputs = []) then None else Some {| output_bindings := outputs |}.

(** ** The [petgraph] interface

    What the engine relies on of [petgraph::graph::DiGraph]: vertices are numbered in insertion
    order, the edges at a vertex are listed in some fixed order, and [toposort] returns a
    topological order or reports a cycle.  [Petgraph] holds the two operations whose result the
    crate chooses, with their documented behaviour as laws; [kahn_petgraph] is an instance. *)
(** One directed edge between vertex indices, with its source port. *)
Record GEdge : Type := { e_src : nat; e_dst : nat; e_handle : option string }.

#[export] Instance GEdge_eq_dec : EqDecision GEdge.
Proof. solve_decision. Defined.

Definition g_step (es : list GEdge) (a b : nat) : Prop :=
  exists e, e ∈ es /\ e_src e = a /\ e_dst e = b.

Definition edges_in_range (n : nat) (es : list GEdge) : Prop :=
  Forall (fun e => e_src e < n /\ e_dst e < n) es.

(** [order] lists every vertex once and every edge goes forward. *)
Definition topological (n : nat) (es : list GEdge) (order : list nat) : Prop :=
  order ≡ₚ seq 0 n /\
  forall e, e ∈ es -> exists i j, order !! i = Some (e_src e) /\ order !! j = Some (e_dst e) /\ i < j.

Class Petgraph := {
  toposort : nat -> list GEdge -> option (list nat);
  adjacency : list GEdge -> list GEdge;
  toposort_Some n es order :
    edges_in_range n es -> toposort n es = Some order -> topological n es order;
  toposort_None n es :
    edges_in_range n es -> toposort n es = None -> ~ (forall a, ~ tc (g_step es) a a);
  adjacency_perm es : adjacency es ≡ₚ es;
}.

(** A topological order excludes cycles. *)
Lemma topological_tc n es order a b :
  topological n es order -> tc (g_step es) a b ->
  exists i j, order !! i = Some a /\ order !! j = Some b /\ i < j.
Proof.
  intros [Hperm Hes]. induction 1 as [a b (e & He & <- & <-)|a b c (e & He & <- & <-) _ IH].
  { by apply Hes. }
  destruct (Hes _ He) as (i & j & Hi & Hj & Hlt), IH as (j' & k & Hj' & Hk & Hlt').
  assert (j' = j) as ->.
  { eapply NoDup_lookup; [|done..]. rewrite Hperm. apply NoDup_seq. }
  exists i, k. split_and!; [done..|lia].
Qed.

Lemma topological_acyclic n es order a : topological n es order -> ~ tc (g_step es) a a.
Proof.
  intros Ht Hc. destruct (topological_tc _ _ _ _ _ Ht Hc) as (i & j & Hi & Hj & Hlt).
  assert (i = j); [|lia]. eapply NoDup_lookup; [|done..]. rewrite (proj1 Ht). apply NoDup_seq.
Qed.

(** ** A reference implementation *)

(** No edge into [r] comes from a vertex still waiting. *)
Definition is_free (es : list GEdge) (rest : list nat) (r : nat) : bool :=
  forallb (fun e => negb (bool_decide (e_dst e = r) && bool_decide (e_src e ∈ rest))) es.

Fixpoint kahn (fuel : nat) (es : list GEdge) (rest : list nat) : option (list nat) :=
  match fuel, rest with
  | _, [] => Some []
  | 0, _ => None
  | S fuel, _ =>
      match find_first (is_free es rest) rest with
      | None => None
      | Some r => cons r <$> kahn fuel es (filter (fun x => x <> r) rest)
      end
  end.

Lemma is_free_true es rest r :
  is_free es rest r = true <-> forall e, e ∈ es -> e_dst e = r -> e_src e ∉ rest.
Proof.
  unfold is_free. rewrite forallb_True, Forall_forall. split; intros H e He.
  - apply H in He. rewrite negb_true_iff, andb_false_iff, !bool_decide_eq_false in He. tauto.
  - apply negb_true_iff, andb_false_iff. rewrite !bool_decide_eq_false.
    destruct (decide (e_dst e = r)); [right; by apply H|by left].
Qed.

Lemma filter_ne_perm (rest : list nat) r :
  NoDup rest -> r ∈ rest -> rest ≡ₚ r :: filter (fun x => x <> r) rest.
Proof.
  intros Hnd Hr. apply NoDup_Permutation; [done| |].
  - apply NoDup_cons. split; [rewrite list_elem_of_filter; tauto|by apply NoDup_filter].
  - intros x. rewrite elem_of_cons, list_elem_of_filter. destruct (decide (x = r)); naive_solver.
Qed.

Lemma kahn_Some fuel es rest order :
  NoDup rest -> kahn fuel es rest = Some order ->
  order ≡ₚ rest /\
  forall e, e ∈ es -> e_src e ∈ rest -> e_dst e ∈ rest ->
    exists i j, order !! i = Some (e_src e) /\ order !! j = Some (e_dst e) /\ i < j.
Proof.
  revert rest order. induction fuel as [|fuel IH]; intros rest order Hnd; simpl.
  { destruct rest; [|done]. intros [= <-]. split; [done|]. set_solver. }
  destruct rest as [|x rest']; [intros [= <-]; split; [done|set_solver]|].
  remember (x :: rest') as rest eqn:Erest. clear Erest x rest'.
  destruct (find_first (is_free es rest) rest) as [r|] eqn:Ef; [|done].
  apply find_first_Some in Ef as [Hr Hfree]. rewrite is_free_true in Hfree.
  intros (o & Ho & ->)%fmap_Some. apply IH in Ho as [Hp Ho]; [|by apply NoDup_filter].
  pose proof (filter_ne_perm rest r Hnd Hr) as Hperm.
  split; [by rewrite Hperm, Hp|]. intros e He Hs Hd.
  destruct (decide (e_dst e = r)) as [Hdr|Hdr]; [by destruct (Hfree _ He Hdr)|].
  assert (e_dst e ∈ filter (fun x => x <> r) rest) as Hd' by (by apply list_elem_of_filter).
  destruct (decide (e_src e = r)) as [Hsr|Hsr].
  - rewrite <-Hp in Hd'. apply list_elem_of_lookup in Hd' as [j Hj].
    exists 0, (S j). split_and!; [by rewrite Hsr|done|lia].
  - destruct (Ho e He) as (i & j & Hi & Hj & Hlt); [by apply list_elem_of_filter|done|].
    exists (S i), (S j). split_and!; [done|done|lia].
Qed.

(** Vertices that all wait for each other form a cycle. *)
Lemma all_blocked_cyclic es (rest : list nat) :
  rest <> [] -> (forall r, r ∈ rest -> is_free es rest r = false) ->
  ~ (forall a, ~ tc (g_step es) a a).
Proof.
  intros Hne Hblocked Hacyc.
  set (R := fun a b => g_step es b a /\ b ∈ rest).
  assert (forall r, r ∈ rest -> exists b, R r b) as Hstep.
  { intros r Hr. apply Hblocked in Hr.
    unfold is_free in Hr. apply not_true_iff_false in Hr.
    destruct (existsb (fun e => bool_decide (e_dst e = r) && bool_decide (e_src e ∈ rest)) es) eqn:Ee.
    - apply existsb_True in Ee as (e & He & [Hd%bool_decide_eq_true Hs%bool_decide_eq_true]%andb_true_iff).
      exists (e_src e). split; [by exists e|done].
    - destruct Hr. apply forallb_True, Forall_forall. intros e He. apply negb_true_iff.
      apply existsb_False in Ee. rewrite Forall_forall in Ee. by apply Ee. }
  assert (forall a b, tc R a b -> tc (g_step es) b a) as Htc.
  { intros a b. induction 1 as [a b [? _]|a b c [Hab _] _ IH]; [by apply tc_once|].
    by eapply tc_r. }
  assert (exists r0, r0 ∈ rest) as [r0 Hr0] by (destruct rest as [|r0 ?]; [done|exists r0; by left]).
  assert (forall a b, tc R a b -> b ∈ rest) as Hin.
  { intros a b. induction 1 as [a b [_ ?]|a b c _ _ IH]; done. }
  assert (sn R r0) as Hsn.
  { apply tc_finite_sn.
    - intros a Ha. by apply (Hacyc a), Htc.
    - exists rest. intros b Hb. by eapply Hin. }
  induction Hsn as [a _ IH]. destruct (Hstep a Hr0) as [b [Hb Hbr]]. by apply (IH b).
Qed.

Lemma kahn_None fuel es rest :
  NoDup rest -> length rest <= fuel -> kahn fuel es rest = None ->
  ~ (forall a, ~ tc (g_step es) a a).
Proof.
  revert rest. induction fuel as [|fuel IH]; intros rest Hnd Hlen; simpl.
  { destruct rest; simpl in *; [done|lia]. }
  destruct rest as [|x rest']; [done|].
  remember (x :: rest') as rest eqn:Erest.
  destruct (find_first (is_free es rest) rest) as [r|] eqn:Ef.
  - intros H%fmap_None. eapply IH; [| |exact H]; [by apply NoDup_filter|].
    apply find_first_Some in Ef as [Hr _].
    pose proof (Permutation_length (filter_ne_perm rest r Hnd Hr)) as Hp. simpl in Hp. lia.
  - intros _. apply find_first_None in Ef. rewrite Forall_forall in Ef.
    eapply all_blocked_cyclic; [|done]. by rewrite Erest.
Qed.

(** Kahn's algorithm, choosing the smallest free vertex, and edges in reverse insertion order. *)
#[refine] Definition kahn_petgraph : Petgraph := {|
  toposort n es := kahn n es (seq 0 n);
  adjacency es := reverse es;
|}.
Proof.
  - intros n es order Hr H. apply kahn_Some in H as [Hp Ho]; [|apply NoDup_seq].
    split; [done|]. intros e He. unfold edges_in_range in Hr. rewrite Forall_forall in Hr.
    apply Hr in He as Hlt. apply Ho; [done| |]; rewrite elem_of_seq; lia.
  - intros n es _ H. eapply kahn_None; [| |exact H]; [apply NoDup_seq|by rewrite length_seq].
  - intros es. apply reverse_Permutation.
Defined.
