(* ===== verification/Aggregator.v ===== *)
(** * Aggregator nodes ([engine/aggregator.rs])

    An ordered list of root selectors; the node passes the value of the first assigned one
    through unchanged. *)

From S2P Require Import Prelude RustStr Json VariablePool.
Local Open Scope ora_scope.

Record WireAggregatorConfig : Type := { wire_variables : list (list string) }.
Record AggregatorConfig : Type := { variables : list VariableSelector }.

#[export] Instance AggregatorConfig_eq_dec : EqDecision AggregatorConfig.
Proof. solve_decision. Defined.

Inductive AggregatorError : Type :=
| AggMissingConfig
| EmptySelectors
| AggInvalidSelector (selector : list string)
| NestedSelector (selector : string)
| DuplicateSelector (selector : string)
| NoAssignedVariable (selectors : string)
| Pool (error : WorkflowVariablePoolError).

#[export] Instance AggregatorError_eq_dec : EqDecision AggregatorError.
Proof. solve_decision. Defined.

Definition aggregator_error_message `{DebugText} (e : AggregatorError) : string :=
  match e with
  | AggMissingConfig => "aggregator node has no config"
  | EmptySelectors => "aggregator node must declare at least one selector"
  | AggInvalidSelector s =>
      "aggregator selector " +:+ debug_strs s +:+ " is not a node id and root variable"
  | NestedSelector s =>
      "aggregator selector " +:+ s +:+ " must reference a root variable, not a nested path"
  | DuplicateSelector s => "aggregator declares duplicate selector " +:+ s
  | NoAssignedVariable s => "aggregator found no assigned variable among: " +:+ s
  | Pool e => pool_error_message e
  end.

(** [impl Display for AggregatorConfig] *)
Definition aggregator_text (config : AggregatorConfig) : string :=
  "[" +:+ join ", " (qualified <$> variables config) +:+ "]".

(** One round of the loop of [from_wire]. *)
Definition add_selector (acc : list VariableSelector) (parts : list string) :
    result AggregatorError (list VariableSelector) :=
  selector ← ok_or (try_from_parts parts) (AggInvalidSelector parts);
  reject (negb (bool_decide (sel_nested selector = []))) with (NestedSelector (qualified selector));
  reject (existsb (fun existing => bool_decide (qualified existing = qualified selector)) acc)
    with (DuplicateSelector (qualified selector));
  Ok (acc ++ [selector]).

(** [AggregatorConfig::from_wire] *)
Definition aggregator_from_wire (wire : option WireAggregatorConfig) :
    result AggregatorError AggregatorConfig :=
  wire ← ok_or wire AggMissingConfig;
  reject (bool_decide (wire_variables wire = [])) with EmptySelectors;
  Build_AggregatorConfig <$> fold_result add_selector [] (wire_variables wire).

(** The loop of [select_output]. *)
Fixpoint first_assigned (pool : WorkflowVariablePool) (selectors : list VariableSelector) :
    result WorkflowVariablePoolError (option Value) :=
  match selectors with
  | [] => Ok None
  | selector :: selectors =>
      value ← resolve pool selector;
      match value with
      | Some value => Ok (Some value)
      | None => first_assigned pool selectors
      end
  end.

Definition select_output (config : AggregatorConfig) (pool : WorkflowVariablePool) :
    result AggregatorError Value :=
  value ← map_err Pool (first_assigned pool (variables config));
  ok_or value (NoAssignedVariable (aggregator_text config)).

(** ** Lemmas *)

Definition unassigned (pool : WorkflowVariablePool) (s : VariableSelector) : Prop :=
  resolve pool s = Ok None.

Lemma first_assigned_Some pool l v :
  first_assigned pool l = Ok (Some v) <->
  exists pre s post, l = pre ++ s :: post /\ Forall (unassigned pool) pre /\
    resolve pool s = Ok (Some v).
Proof.
  induction l as [|s l IH]; simpl.
  { split; [done|]. intros ([] & ? & ? & ? & _); done. }
  rewrite bind_Ok. split.
  - intros (o & Ho & H). destruct o as [w|]; [inv_ok; by exists [], s, l|].
    apply IH in H as (pre & s' & post & -> & Hpre & ?).
    exists (s :: pre), s', post. rewrite Forall_cons. done.
  - intros ([|s' pre] & t & post & Hl & Hpre & Hv); simplify_eq/=; [by exists (Some v)|].
    apply Forall_cons in Hpre as [Hs Hpre]. exists None. split; [done|]. apply IH. by exists pre, t, post.
Qed.

Lemma first_assigned_None pool l :
  first_assigned pool l = Ok None <-> Forall (unassigned pool) l.
Proof.
  induction l as [|s l IH]; simpl; [by split|].
  rewrite Forall_cons, bind_Ok, <-IH. unfold unassigned. split.
  - intros ([v|] & ? & ?); [done | done].
  - intros [Hs Hl]. by exists None.
Qed.

Definition selectors_ok (l : list VariableSelector) : Prop :=
  Forall (fun s => sel_nested s = [] /\ sel_node_id s <> "" /\ sel_root s <> "") l /\
  NoDup (qualified <$> l).

Lemma add_selector_ok acc parts out :
  selectors_ok acc -> add_selector acc parts = Ok out ->
  selectors_ok out /\ exists s, out = acc ++ [s] /\ try_from_parts parts = Some s.
Proof.
  unfold add_selector. intros [Hf Hnd] H. inv_ok.
  apply negb_false_iff, bool_decide_eq_true in Hx0.
  split; [|eauto]. split.
  - apply Forall_app. split; [done|]. constructor; [|done]. split; [done|].
    destruct parts as [|a [|b rest]]; simpl in Hx; try done.
    repeat case_bool_decide; simplify_eq/=. done.
  - rewrite fmap_app. apply NoDup_app. split_and!; [done| |apply NoDup_singleton].
    intros q Hq ->%list_elem_of_singleton. apply list_elem_of_fmap in Hq as (s & Hs & Hin).
    apply existsb_False in Hx1. rewrite Forall_forall in Hx1.
    apply Hx1, bool_decide_eq_false in Hin. congruence.
Qed.

(** ** Properties *)

(** A compiled aggregator keeps every wire selector, in order, and holds at least one; each
    is a root variable and no two name the same variable. *)
Theorem aggregator_from_wire_ok wire config :
  aggregator_from_wire wire = Ok config ->
  selectors_ok (variables config) /\ variables config <> [] /\
  exists w, wire = Some w /\
    Forall2 (fun parts s => try_from_parts parts = Some s) (wire_variables w) (variables config).
Proof.
  unfold aggregator_from_wire. intros H. inv_ok.
  apply bool_decide_eq_false in Hx0. rename x into w, x1 into out. subst config. simpl.
  assert (selectors_ok out /\
    Forall2 (fun parts s => try_from_parts parts = Some s) (wire_variables w) out) as [? Hall].
  { eapply (fold_result_inv (fun l acc => selectors_ok acc /\
      Forall2 (fun parts s => try_from_parts parts = Some s) l acc)); [| |done].
    - repeat constructor.
    - intros l parts s1 s2 [Hok Hl] _ Hadd.
      apply add_selector_ok in Hadd as [? (s & -> & Hs)]; [|done].
      split; [done|]. apply Forall2_app; [done|]. by constructor. }
  split; [done|]. split; [|eauto]. intros ->. by inversion Hall.
Qed.

(** The aggregator passes through, unchanged, the value of the first selector, in declaration
    order, that is assigned, whatever the value is ([null], [false], [0], empty); it reports no
    match exactly when every selector is declared and unassigned. *)
Theorem select_output_first config pool :
  (forall v, select_output config pool = Ok v <->
    exists pre s post, variables config = pre ++ s :: post /\ Forall (unassigned pool) pre /\
      resolve pool s = Ok (Some v)) /\
  (select_output config pool = Err (NoAssignedVariable (aggregator_text config)) <->
    Forall (unassigned pool) (variables config)).
Proof.
  unfold select_output. split.
  - intros v. rewrite <-first_assigned_Some.
    destruct (first_assigned pool (variables config)) as [[w|]|e]; simpl; naive_solver.
  - rewrite <-first_assigned_None.
    destruct (first_assigned pool (variables config)) as [[w|]|e]; simpl; naive_solver.
Qed.

Lemma aggregator_from_wire_ok_witness :
  exists config, aggregator_from_wire (Some {| wire_variables := [["a"; "output"]; ["b"; "output"]] |})
    = Ok config /\ selectors_ok (variables config).
Proof.
  eexists. split; [reflexivity|].
  exact (proj1 (aggregator_from_wire_ok
    (Some {| wire_variables := [["a"; "output"]; ["b"; "output"]] |}) _ eq_refl)).
Defined.
