(* ===== verification/Retry.v ===== *)
(** * Node failures and their automatic retry ([engine/failure.rs], [engine/retry.rs])

    How a failure is classified, and the bounded back-off after which an agent attempt is repeated. *)

From S2P Require Import Prelude RustStr Json NodeTypes GraphBase.
Inductive NodeFailureKind : Type :=
| MissingAgentRef
| WorkflowModelNotFound
| MissingAgentConfig
| InvalidRunPayload
| PromptTemplate
| StructuredOutputFailure
| MissingSkillMaterialization
| SessionEndedWithoutStopReason
| SessionBindingRejected
| BaselinePersist
| Repository
| Session
| AgentRefusal
| UnknownStopReason
| InterruptedByRestart
| MultipleOutputs
| ConditionEvaluation
| AggregatorNoMatch.

#[export] Instance NodeFailureKind_eq_dec : EqDecision NodeFailureKind.
Proof. solve_decision. Defined.

Definition resumable (k : NodeFailureKind) : bool :=
  match k with
  | WorkflowModelNotFound | MissingAgentConfig | Session | SessionEndedWithoutStopReason
  | SessionBindingRejected | InterruptedByRestart | Repository | BaselinePersist => true
  | StructuredOutputFailure | AgentRefusal | PromptTemplate | MissingAgentRef
  | MissingSkillMaterialization | InvalidRunPayload | UnknownStopReason | MultipleOutputs
  | ConditionEvaluation | AggregatorNoMatch => false
  end.

Definition inject_into_prompt (k : NodeFailureKind) : bool :=
  match k with
  | StructuredOutputFailure | AgentRefusal | UnknownStopReason | MultipleOutputs => true
  | MissingAgentRef | WorkflowModelNotFound | MissingAgentConfig | InvalidRunPayload
  | PromptTemplate | MissingSkillMaterialization | SessionEndedWithoutStopReason
  | SessionBindingRejected | BaselinePersist | Repository | Session | InterruptedByRestart
  | ConditionEvaluation | AggregatorNoMatch => false
  end.

Definition auto_retry (k : NodeFailureKind) : bool :=
  match k with
  | Session | SessionEndedWithoutStopReason | SessionBindingRejected | StructuredOutputFailure
  | AgentRefusal | UnknownStopReason => true
  | PromptTemplate | MissingAgentRef | InvalidRunPayload | MissingSkillMaterialization
  | ConditionEvaluation | MultipleOutputs | AggregatorNoMatch | WorkflowModelNotFound
  | MissingAgentConfig | Repository | BaselinePersist | InterruptedByRestart => false
  end.

Definition failure_kind_as_str (k : NodeFailureKind) : string :=
  match k with
  | MissingAgentRef => "missing_agent_ref"
  | WorkflowModelNotFound => "workflow_model_not_found"
  | MissingAgentConfig => "missing_agent_config"
  | InvalidRunPayload => "invalid_run_payload"
  | PromptTemplate => "prompt_template"
  | StructuredOutputFailure => "structured_output"
  | MissingSkillMaterialization => "missing_skill_materialization"
  | SessionEndedWithoutStopReason => "session_ended_without_stop_reason"
  | SessionBindingRejected => "session_binding_rejected"
  | BaselinePersist => "baseline_persist"
  | Repository => "repository"
  | Session => "session"
  | AgentRefusal => "agent_refusal"
  | UnknownStopReason => "unknown_stop_reason"
  | InterruptedByRestart => "interrupted_by_restart"
  | MultipleOutputs => "multiple_outputs"
  | ConditionEvaluation => "condition_evaluation"
  | AggregatorNoMatch => "aggregator_no_match"
  end.

Lemma failure_kind_as_str_inj k l : failure_kind_as_str k = failure_kind_as_str l -> k = l.
Proof. by destruct k, l. Qed.

Record FileChange : Type := { change_path : string; additions : N; deletions : N }.

Record NodeFailure : Type := {
  failure_kind : NodeFailureKind;
  failure_message : string;
  source_chain : list string;
  failure_output : option string;
  file_changes : list FileChange;
}.

(** [NodeFailure::new] and the three builders. *)
Definition new_failure (kind : NodeFailureKind) (message : string) : NodeFailure :=
  {| failure_kind := kind; failure_message := message; source_chain := [];
     failure_output := None; file_changes := [] |}.
Definition with_output (f : NodeFailure) (output : option string) : NodeFailure :=
  {| failure_kind := failure_kind f; failure_message := failure_message f;
     source_chain := source_chain f; failure_output := output; file_changes := file_changes f |}.
Definition with_source_chain (f : NodeFailure) (chain : list string) : NodeFailure :=
  {| failure_kind := failure_kind f; failure_message := failure_message f;
     source_chain := chain; failure_output := failure_output f; file_changes := file_changes f |}.
Definition with_file_changes (f : NodeFailure) (changes : list FileChange) : NodeFailure :=
  {| failure_kind := failure_kind f; failure_message := failure_message f;
     source_chain := source_chain f; failure_output := failure_output f;
     file_changes := changes |}.

(** [NodeFailure::from_runtime] *)
Definition from_runtime (node_type : NodeType) (message : string) : NodeFailure :=
  let kind :=
    match node_type with
    | Condition => ConditionEvaluation
    | Aggregator => AggregatorNoMatch
    | Output =>
        if starts_with "multiple active output nodes:" message then MultipleOutputs
        else InvalidRunPayload
    | Start | Agent | Prompt | Tool | Iteration | Loop | LoopExit => InvalidRunPayload
    end in
  new_failure kind message.

(** ** Automatic retry of failed agent attempts ([engine/retry.rs])

    The policy of one agent node, its validation, the backoff and the retry budget.  Integers
    are kept at the width of the code ([u32] counts, [u64] seconds) with their saturation. *)
Local Open Scope ora_scope.

Definition DEFAULT_MAX_RETRIES : N := 2.
Definition DEFAULT_INITIAL_DELAY_SECONDS : N := 10.
Definition MAX_RETRIES_LIMIT : N := 5.
Definition INITIAL_DELAY_LIMIT_SECONDS : N := 300.
Definition MAX_RETRY_WAIT_SECONDS : N := 600.
Definition RETRY_WAIT_KEY : string := "retry_wait".
Definition AUTO_RETRY_KEY : string := "auto_retry".
Definition RETRY_CHAIN_KEY : string := "retry_chain".

Record AgentRetryPolicy : Type := {
  enabled : bool;
  max_retries : N;
  initial_delay_seconds : N;
}.

#[export] Instance AgentRetryPolicy_eq_dec : EqDecision AgentRetryPolicy.
Proof. solve_decision. Defined.

Definition default_policy : AgentRetryPolicy :=
  {| enabled := true; max_retries := DEFAULT_MAX_RETRIES;
     initial_delay_seconds := DEFAULT_INITIAL_DELAY_SECONDS |}.

(** [1_u64.checked_shl(shift).unwrap_or(u64::MAX)]: only a shift of 64 or more overflows. *)
Definition backoff_factor (shift : N) : N :=
  if (shift <? 64)%N then N.shiftl 1 shift else u64_max.

Definition wait_seconds (policy : AgentRetryPolicy) (retry : N) : N :=
  let factor := backoff_factor (saturating_sub retry 1) in
  N.min (saturating_mul_u64 (initial_delay_seconds policy) factor) MAX_RETRY_WAIT_SECONDS.

Definition next_retry (policy : AgentRetryPolicy) (kind : NodeFailureKind) (retries_used : N) :
    option N :=
  if enabled policy && auto_retry kind && (retries_used <? max_retries policy)%N
  then Some (saturating_add_u32 retries_used 1)
  else None.

Section parse.
Context {json : JsonText}.

Definition bounded_integer (object : list (string * Value)) (field : string) (max : N) :
    result string N :=
  value ← ok_or (map_get field object) ("retry." +:+ field +:+ " is required");
  match as_u64 value with
  | Some number =>
      if (number <=? u32_max)%N && (number <=? max)%N then Ok number
      else Err ("retry." +:+ field +:+ " must be an integer from 0 to " +:+ of_N max
                +:+ ", got " +:+ json_to_string value)
  | None => Err ("retry." +:+ field +:+ " must be an integer from 0 to " +:+ of_N max
                 +:+ ", got " +:+ json_to_string value)
  end.

Definition parse_retry_policy (node_id : string) (retry : option Value) :
    result GraphError AgentRetryPolicy :=
  match retry with
  | None | Some VNull => Ok default_policy
  | Some (VObject object) =>
      enabled ←
        match map_get "enabled" object with
        | Some (VBool enabled) => Ok enabled
        | Some other =>
            Err (InvalidRetry node_id
                   ("retry.enabled must be a boolean, got " +:+ json_to_string other))
        | None => Err (InvalidRetry node_id "retry.enabled is required")
        end;
      max_retries ← map_err (InvalidRetry node_id)
        (bounded_integer object "maxRetries" MAX_RETRIES_LIMIT);
      initial_delay_seconds ← map_err (InvalidRetry node_id)
        (bounded_integer object "initialDelaySeconds" INITIAL_DELAY_LIMIT_SECONDS);
      Ok {| enabled := enabled; max_retries := max_retries;
            initial_delay_seconds := initial_delay_seconds |}
  | Some other =>
      Err (InvalidRetry node_id ("retry must be an object, got " +:+ json_to_string other))
  end.

(** [retry_chain_from_payload]; the typed decode of the removed value is [Vec<String>]. *)
Definition strings_from_value (v : Value) : option (list string) :=
  items ← as_array v; mapM as_str items.

Definition retry_chain_from_payload (payload : option string) : list string :=
  default [] (
    text ← payload;
    payload ← json_from_str text;
    object ← as_object payload;
    chain ← map_get RETRY_CHAIN_KEY object;
    strings_from_value chain).
End parse.

(** [NodeRetryToSchedule] without the generated row id, as [try_schedule_retry] of
    [engine/engine/retry_scheduler.rs] fills it in. *)
Record NodeRetryToSchedule : Type := {
  ns_retry : N;
  ns_max_retries : N;
  ns_delay_ms : Z;
  ns_due_at : Z;
}.

(** [i64::try_from(n).unwrap_or(i64::MAX)] *)
Definition i64_of_u64 (n : N) : Z := Z.min (Z.of_N n) i64_max.

(** The decision of [try_schedule_retry] for a running attempt of a running run: the policy of
    the node, the retries used so far (the row's [auto_retry] marker) and the failure. *)
Definition retry_to_schedule (policy : AgentRetryPolicy) (kind : NodeFailureKind)
    (retries_used : N) (now : Z) : option NodeRetryToSchedule :=
  retry ← next_retry policy kind retries_used;
  let delay_ms := i64_of_u64 (saturating_mul_u64 (wait_seconds policy retry) 1000) in
  Some {| ns_retry := retry; ns_max_retries := max_retries policy; ns_delay_ms := delay_ms;
          ns_due_at := saturating_add_i64 now delay_ms |}.

(** A chain of automatic attempts: every failure is followed by the attempt that replaces it. *)
Inductive retry_chain (policy : AgentRetryPolicy) : N -> list N -> Prop :=
| chain_end used : retry_chain policy used []
| chain_next used kind retry rest :
    next_retry policy kind used = Some retry ->
    retry_chain policy retry rest -> retry_chain policy used (retry :: rest).

(** ** Lemmas *)

Definition policy_ok (p : AgentRetryPolicy) : Prop :=
  (max_retries p <= MAX_RETRIES_LIMIT /\
   initial_delay_seconds p <= INITIAL_DELAY_LIMIT_SECONDS)%N.

Lemma next_retry_Some p kind used retry :
  next_retry p kind used = Some retry <->
  enabled p = true /\ auto_retry kind = true /\ (used < max_retries p)%N /\
  retry = N.min (used + 1) u32_max.
Proof.
  unfold next_retry, saturating_add_u32.
  destruct (enabled p), (auto_retry kind), (N.ltb_spec used (max_retries p)); simpl;
    split; intros; destruct_and?; simplify_eq; try done; lia.
Qed.

Lemma backoff_min initial shift :
  (initial <= u32_max)%N ->
  N.min (saturating_mul_u64 initial (backoff_factor shift)) MAX_RETRY_WAIT_SECONDS =
  N.min (initial * 2 ^ shift) MAX_RETRY_WAIT_SECONDS.
Proof.
  intros Hi. unfold saturating_mul_u64, backoff_factor, MAX_RETRY_WAIT_SECONDS, u64_max, u32_max in *.
  destruct (N.ltb_spec shift 64) as [Hlt|Hge].
  - rewrite N.shiftl_1_l. lia.
  - destruct (N.eq_dec initial 0) as [->|Hne]; [by rewrite !N.mul_0_l|].
    assert (2 ^ 64 <= 2 ^ shift)%N by (apply N.pow_le_mono_r; lia).
    assert (2 ^ 64 = 18446744073709551616)%N as Hp by reflexivity. nia.
Qed.

Lemma bounded_integer_Ok `{JsonText} object field max n :
  bounded_integer object field max = Ok n <->
  map_get field object ≫= as_u64 = Some n /\ (n <= u32_max)%N /\ (n <= max)%N.
Proof.
  unfold bounded_integer. destruct (map_get field object) as [v|]; simpl; [|naive_solver].
  destruct (as_u64 v) as [m|]; [|naive_solver].
  destruct (N.leb_spec m u32_max), (N.leb_spec m max); simpl; split; intros;
    destruct_and?; simplify_eq; try done; lia.
Qed.

(** ** Properties *)

(** The wait before retry [n] is exactly [initial * 2^(n-1)] seconds capped at ten minutes
    for every [u32] delay and retry number (the 64-bit shift and multiplication never lose a
    wait below the cap), so it never decreases from one retry to the next. *)
Theorem wait_seconds_spec policy retry :
  (initial_delay_seconds policy <= u32_max)%N ->
  wait_seconds policy retry =
    N.min (initial_delay_seconds policy * 2 ^ (retry - 1)) MAX_RETRY_WAIT_SECONDS /\
  (forall retry', retry <= retry' -> wait_seconds policy retry <= wait_seconds policy retry')%N.
Proof.
  intros Hi. unfold wait_seconds, saturating_sub.
  rewrite backoff_min by done. split; [done|]. intros retry' Hle.
  rewrite backoff_min by done. apply N.min_le_compat_r, N.mul_le_mono_l, N.pow_le_mono_r; lia.
Qed.

(** A chain of automatic retries numbers its attempts consecutively and never exceeds the
    policy's budget: with [used] retries spent at most [max_retries - used] follow, none when the
    policy is disabled, and none after a failure that does not retry. *)
Theorem retry_chain_bounded policy used chain :
  (max_retries policy <= u32_max)%N -> retry_chain policy used chain ->
  (N.of_nat (length chain) <= max_retries policy - used)%N /\
  (enabled policy = false -> chain = []) /\
  (forall i r, chain !! i = Some r -> r = used + 1 + N.of_nat i)%N.
Proof.
  intros Hmax. induction 1 as [used|used kind retry rest Hnext Hrest IH].
  { simpl. split_and!; [lia|done|done]. }
  apply next_retry_Some in Hnext as (Hen & Hk & Hlt & ->). rewrite N.min_l in * by lia.
  destruct IH as (Hlen & _ & Hnum). cbn [length]. split_and!; [lia|congruence|].
  intros [|i] r; simpl; [intros [= <-]; lia|]. intros Hr%Hnum. lia.
Qed.

(** An accepted retry policy is the documented default when the author wrote none, and
    otherwise holds exactly the three fields of the object, within their limits; an incomplete,
    mistyped or out-of-range policy is an error naming the node, never the default. *)
Theorem parse_retry_policy_spec `{JsonText} node_id retry :
  (forall p, parse_retry_policy node_id retry = Ok p ->
    policy_ok p /\
    (((retry = None \/ retry = Some VNull) /\ p = default_policy) \/
     exists object, retry = Some (VObject object) /\
       map_get "enabled" object = Some (VBool (enabled p)) /\
       map_get "maxRetries" object ≫= as_u64 = Some (max_retries p) /\
       map_get "initialDelaySeconds" object ≫= as_u64 = Some (initial_delay_seconds p))) /\
  (forall e, parse_retry_policy node_id retry = Err e ->
    retry <> None /\ retry <> Some VNull /\ exists reason, e = InvalidRetry node_id reason).
Proof.
  assert (policy_ok default_policy) as Hdef by (vm_compute; split; done).
  unfold parse_retry_policy. split.
  - intros p. destruct retry as [[| | | | |object]|]; try done;
      [intros [= <-]; naive_solver| |intros [= <-]; naive_solver].
    intros Hok. inv_ok. apply bounded_integer_Ok in Hx0 as (? & _ & ?), Hx1 as (? & _ & ?).
    split; [done|]. right. exists object. split_and!; try done. simpl.
    destruct (map_get "enabled" object) as [[]|]; by inv_ok.
  - intros e. destruct retry as [[| | | | |object]|]; try done; try (intros [= <-]; eauto).
    intros Herr. split_and!; [done|done|].
    destruct (map_get "enabled" object) as [[]|]; simplify_eq/=; eauto.
    destruct (bounded_integer object "maxRetries" _); simplify_eq/=; eauto.
    destruct (bounded_integer object "initialDelaySeconds" _); simplify_eq/=; eauto.
Qed.

Lemma wait_seconds_spec_witness :
  wait_seconds default_policy 3 = 40%N /\
  wait_seconds default_policy 3 = N.min (10 * 2 ^ (3 - 1)) 600.
Proof.
  split; [reflexivity|].
  exact (proj1 (wait_seconds_spec default_policy 3 ltac:(vm_compute; discriminate))).
Defined.

Lemma retry_chain_bounded_witness :
  retry_chain default_policy 0 [1; 2]%N /\ (N.of_nat (length [1; 2]%N) <= 2 - 0)%N.
Proof.
  assert (retry_chain default_policy 0 [1; 2]%N) as H.
  { repeat (eapply (chain_next _ _ Session); [reflexivity|]). constructor. }
  split; [exact H|].
  exact (proj1 (retry_chain_bounded default_policy 0 [1; 2]%N ltac:(vm_compute; discriminate) H)).
Defined.
