(* ===== verification/Iteration.v ===== *)
(** * Iteration nodes: configuration, regions and the round ledger ([engine/iteration.rs])

    A region is the set of nodes whose [parentId] names the iteration node; the boundary rules
    that make it a closed subgraph are checked when the graph is parsed.  The order in which
    the regions themselves are checked is that of a hash map, a parameter. *)

From stdpp Require Import relations.
From S2P Require Import Prelude RustStr Json NodeTypes VariablePool GraphBase Search.
Local Open Scope ora_scope.

Definition DEFAULT_MAX_ITERATIONS : N := 50.

Inductive IterationErrorStrategy : Type := FailStrategy | ContinueStrategy.

#[export] Instance strategy_eq_dec : EqDecision IterationErrorStrategy.
Proof. solve_decision. Defined.

Record IterationConfig : Type := {
  iterator_selector : VariableSelector;
  collect_selector : VariableSelector;
  error_strategy : IterationErrorStrategy;
  max_iterations : N;
}.

Record WireIterationConfig : Type := {
  wi_iterator_selector : option (list string);
  wi_collect_selector : option (list string);
  wi_error_strategy : option IterationErrorStrategy;
  wi_max_iterations : option N;
}.

(** The closure [parse_selector] of [into_model]. *)
Definition parse_config_selector (node_id : string) (parts : option (list string))
    (field : string) : result GraphError VariableSelector :=
  parts ← ok_or parts (InvalidIteration node_id (field +:+ " is required"));
  ok_or (try_from_parts parts)
    (InvalidIteration node_id (field +:+ " must be a variable selector")).

(** [WireIterationConfig::into_model] *)
Definition iteration_into_model (wire : WireIterationConfig) (node_id : string) :
    result GraphError IterationConfig :=
  iterator_selector ← parse_config_selector node_id (wi_iterator_selector wire) "iteratorSelector";
  collect_selector ← parse_config_selector node_id (wi_collect_selector wire) "collectSelector";
  reject (negb (bool_decide (sel_nested collect_selector = [])))
    with (InvalidIteration node_id
            "collectSelector must reference a root variable without a nested path");
  let error_strategy :=
    match wi_error_strategy wire with
    | Some FailStrategy | None => FailStrategy
    | Some ContinueStrategy => ContinueStrategy
    end in
  let max_iterations := default DEFAULT_MAX_ITERATIONS (wi_max_iterations wire) in
  reject ((max_iterations <? 1)%N)
    with (InvalidIteration node_id
            ("maxIterations must be at least 1, got " +:+ of_N max_iterations));
  Ok {| iterator_selector := iterator_selector; collect_selector := collect_selector;
        error_strategy := error_strategy; max_iterations := max_iterations |}.

Definition parse_iteration_config (wire : option WireIterationConfig) (node_id : string) :
    result GraphError (option IterationConfig) :=
  match wire with
  | None => Err (InvalidIteration node_id "iteration node requires an iterationConfig")
  | Some wire => Some <$> iteration_into_model wire node_id
  end.

(** ** Regions *)

Record CompositeRegion : Type := { owner_id : string; member_ids : list string }.

#[export] Instance CompositeRegion_eq_dec : EqDecision CompositeRegion.
Proof. solve_decision. Defined.

(** [CompositeRegion::contains] *)
Definition region_contains (region : CompositeRegion) (node_id : string) : bool :=
  existsb (fun member => bool_decide (member = node_id)) (member_ids region).

(** One entry of the containment list the graph parser builds. *)
Record NodeEntry : Type := {
  entry_id : string;
  entry_parent : option string;
  entry_type : NodeType;
  entry_interactive : bool;
}.

Definition find_entry (nodes : list NodeEntry) (id : string) : option NodeEntry :=
  find_first (fun entry => bool_decide (entry_id entry = id)) nodes.
Definition kind_of (nodes : list NodeEntry) (id : string) : option NodeType :=
  entry_type <$> find_entry nodes id.
Definition is_interactive (nodes : list NodeEntry) (id : string) : bool :=
  match find_entry nodes id with Some entry => entry_interactive entry | None => false end.

(** Targets inside [members] of the edges leaving [id], in edge order. *)
Definition inner_targets (edges : list WorkflowGraphEdge) (members : list string) (id : string) :
    list string :=
  target <$> filter (fun e => source e = id /\ target e ∈ members) edges.

(** The nodes the search of rule 1 reaches from the owner's entry edges; each member is expanded
    at most once and pushes at most one vertex per edge. *)
Definition region_reached (region : CompositeRegion) (edges : list WorkflowGraphEdge) :
    gset string :=
  let members := member_ids region in
  let frontier := reverse (inner_targets edges members (owner_id region)) in
  pop_loop (inner_targets edges members)
    (length edges + length members * length edges) frontier ∅.

(** Rules 2, 3 and 4 for one member. *)
Definition check_member (region : CompositeRegion) (nodes : list NodeEntry)
    (edges : list WorkflowGraphEdge) (member : string) : result GraphError unit :=
  _ ← match kind_of nodes member with
      | Some Output =>
          Err (InvalidRegion member "iteration region must not contain an output node")
      | Some Iteration =>
          Err (InvalidRegion member "iteration region must not contain a nested iteration node")
      | _ => Ok tt
      end;
  reject (is_interactive nodes member)
    with (InvalidRegion member "iteration region must not contain an interactive node");
  for_each (fun edge =>
    reject_if (bool_decide (source edge = member)
               && negb (bool_decide (target edge ∈ member_ids region)))
      (InvalidRegion member ("iteration region node's edge to " +:+ target edge
         +:+ " leaves the region; connect the iteration node's exit instead"))) edges.

Definition validate_region (region : CompositeRegion) (nodes : list NodeEntry)
    (edges : list WorkflowGraphEdge) : result GraphError unit :=
  reject (bool_decide (member_ids region = []))
    with (InvalidRegion (owner_id region) "iteration region must contain at least one node");
  reject (bool_decide (inner_targets edges (member_ids region) (owner_id region) = []))
    with (InvalidRegion (owner_id region)
            "iteration region must be entered by an edge from the iteration node");
  let reached := region_reached region edges in
  _ ← for_each (fun member =>
        reject_if (negb (bool_decide (member ∈ reached)))
          (InvalidRegion member
             "iteration region node is not reachable from the iteration node's entry edge"))
        (member_ids region);
  _ ← for_each (check_member region nodes edges) (member_ids region);
  for_each (fun edge =>
    reject_if (negb (bool_decide (source edge = owner_id region))
               && negb (bool_decide (source edge ∈ member_ids region))
               && bool_decide (target edge ∈ member_ids region))
      (InvalidRegion (source edge) ("edge targets " +:+ target edge
         +:+ " inside the iteration region; only the iteration node may enter its region")))
    edges.

(** Membership first: one round of the loop that fills [members_by_owner]. *)
Definition add_member (nodes : list NodeEntry) (acc : gmap string (list string))
    (entry : NodeEntry) : result GraphError (gmap string (list string)) :=
  match entry_parent entry with
  | None => Ok acc
  | Some parent =>
      match kind_of nodes parent with
      | Some Iteration =>
          Ok (<[parent := default [] (acc !! parent) ++ [entry_id entry]]> acc)
      | _ =>
          Err (InvalidRegion (entry_id entry)
                 ("parentId must reference an iteration node, but references " +:+ parent))
      end
  end.

Definition members_by_owner (nodes : list NodeEntry) :
    result GraphError (gmap string (list string)) :=
  fold_result (add_member nodes) ∅ nodes.

Section regions.
Context {order : HashOrder}.

Definition derive_regions (nodes : list NodeEntry) (edges : list WorkflowGraphEdge) :
    result GraphError (gmap string CompositeRegion) :=
  members ← members_by_owner nodes;
  fold_result (fun regions owner =>
    let region := {| owner_id := owner; member_ids := default [] (members !! owner) |} in
    _ ← validate_region region nodes edges;
    Ok (<[owner := region]> regions)) ∅ (hash_keys members).
End regions.

(** ** The ledger *)

Inductive RoundOutcome : Type :=
| RoundSucceeded (item output : Value)
| RoundFailed (item : Value) (error : string).

#[export] Instance RoundOutcome_eq_dec : EqDecision RoundOutcome.
Proof. solve_decision. Defined.

Definition outcome_item (o : RoundOutcome) : Value :=
  match o with RoundSucceeded item _ | RoundFailed item _ => item end.

Definition to_envelope (o : RoundOutcome) : Value :=
  match o with
  | RoundSucceeded item output =>
      VObject [("item", item); ("status", VString "succeeded"); ("output", output);
               ("error", VNull)]
  | RoundFailed item error =>
      VObject [("item", item); ("status", VString "failed"); ("output", VNull);
               ("error", VString error)]
  end.

(** [IterationLedger]: a [BTreeMap] from round to outcome. *)
Notation IterationLedger := (gmap N RoundOutcome).
Definition ledger_values (l : IterationLedger) : list RoundOutcome := btree_values N.le l.

Definition outcome_output (o : RoundOutcome) : option Value :=
  match o with RoundSucceeded _ output => Some output | RoundFailed _ _ => None end.
Definition outcome_failed (o : RoundOutcome) : bool :=
  match o with RoundFailed _ _ => true | RoundSucceeded _ _ => false end.

(** [project_exposed_values]: [output], [entries] and [failed_count]. *)
Definition project_exposed_values (ledger : IterationLedger) : Value * Value * Value :=
  let outcomes := ledger_values ledger in
  (VArray (omap outcome_output outcomes), VArray (to_envelope <$> outcomes),
   json_of_nat (length (filter (fun o => outcome_failed o = true) outcomes))).

(** ** Lemmas *)

Section region_lemmas.
Implicit Types (region : CompositeRegion) (edges : list WorkflowGraphEdge).

Definition edge_step edges (x y : string) : Prop :=
  exists e, e ∈ edges /\ source e = x /\ target e = y.

(** An edge whose target is a member of the region. *)
Definition inner_step edges (members : list string) (x y : string) : Prop :=
  edge_step edges x y /\ y ∈ members.

Lemma elem_of_inner_targets edges members x y :
  y ∈ inner_targets edges members x <-> inner_step edges members x y.
Proof.
  unfold inner_targets, inner_step, edge_step. rewrite list_elem_of_fmap.
  setoid_rewrite list_elem_of_filter. naive_solver.
Qed.

Lemma inner_targets_length edges members x : length (inner_targets edges members x) <= length edges.
Proof. unfold inner_targets. rewrite length_fmap. apply length_filter. Qed.

Lemma rtc_inner_targets edges members x y :
  rtc (step (inner_targets edges members)) x y <-> rtc (inner_step edges members) x y.
Proof.
  split; apply rtc_subrel; intros a b; unfold step; by rewrite elem_of_inner_targets.
Qed.

Lemma region_reached_spec region edges m :
  m ∈ region_reached region edges <-> tc (inner_step edges (member_ids region)) (owner_id region) m.
Proof.
  unfold region_reached. set (members := member_ids region).
  assert (forall x y, x ∈ (list_to_set members : gset string) ->
    y ∈ inner_targets edges members x -> y ∈ (list_to_set members : gset string)) as Hcl.
  { intros x y _ [_ ?]%elem_of_inner_targets. by apply elem_of_list_to_set. }
  rewrite (pop_loop_reach _ _ Hcl _ _ (length edges)).
  - setoid_rewrite elem_of_reverse. setoid_rewrite elem_of_inner_targets.
    setoid_rewrite rtc_inner_targets. split.
    + intros (x & Hx & Hm). eapply tc_rtc_r; [by apply tc_once|done].
    + destruct 1 as [y z Hz|y z w Hz Ht]; [by exists z|]. exists z. split; [done|by apply tc_rtc].
  - intros y. rewrite elem_of_reverse, elem_of_inner_targets. intros [_ ?].
    by apply elem_of_list_to_set.
  - intros x _. apply inner_targets_length.
  - rewrite length_reverse. pose proof (inner_targets_length edges members (owner_id region)).
    pose proof (size_list_to_set_le members). nia.
Qed.

(** The boundary rules, as properties of the region. *)
Definition region_rules region (nodes : list NodeEntry) edges : Prop :=
  member_ids region <> [] /\
  (forall m, m ∈ member_ids region -> tc (inner_step edges (member_ids region)) (owner_id region) m) /\
  (forall m, m ∈ member_ids region ->
     kind_of nodes m <> Some Output /\ kind_of nodes m <> Some Iteration /\
     is_interactive nodes m = false) /\
  (forall x y, edge_step edges x y -> x ∈ member_ids region -> y ∈ member_ids region) /\
  (forall x y, edge_step edges x y -> y ∈ member_ids region ->
     x = owner_id region \/ x ∈ member_ids region).

Lemma check_member_Ok region nodes edges m u :
  check_member region nodes edges m = Ok u <->
  (kind_of nodes m <> Some Output /\ kind_of nodes m <> Some Iteration) /\
  is_interactive nodes m = false /\
  (forall e, e ∈ edges -> source e = m -> target e ∈ member_ids region).
Proof.
  unfold check_member. split.
  - intros H. inv_ok. apply for_each_Ok in H. rewrite Forall_forall in H.
    split_and!; [| |done|].
    1-2: intros Hk; rewrite Hk in Hx; done.
    intros e He <-. apply H in He. inv_ok. rewrite bool_decide_true in He by done.
    by apply negb_false_iff, bool_decide_eq_true in He.
  - intros ((H1 & H2) & H3 & H4). destruct u. apply bind_Ok. exists tt. split.
    { destruct (kind_of nodes m) as [[]|]; done. }
    rewrite H3. simpl. apply for_each_Ok, Forall_forall. intros e He.
    apply reject_if_Ok. case_bool_decide as Hs; [|done]. rewrite bool_decide_true by eauto. done.
Qed.

Lemma validate_region_Ok region nodes edges u :
  validate_region region nodes edges = Ok u <-> region_rules region nodes edges.
Proof.
  unfold validate_region, region_rules, edge_step. split.
  - intros H. inv_ok. apply bool_decide_eq_false in Hx.
    apply for_each_Ok in Hx1, Hx2, H. rewrite Forall_forall in Hx1. rewrite Forall_forall in Hx2. rewrite Forall_forall in H.
    split_and!.
    + done.
    + intros m Hm. apply Hx1 in Hm. inv_ok.
      by apply negb_false_iff, bool_decide_eq_true, region_reached_spec in Hm.
    + intros m Hm. apply Hx2, check_member_Ok in Hm. tauto.
    + intros a b (e & He & <- & <-) Hm. apply Hx2, check_member_Ok in Hm as (_ & _ & Hm). auto.
    + intros a b (e & He & <- & <-) Hm. apply H in He. inv_ok. reflect_bools. tauto.
  - intros (Hne & Hreach & Hmem & Hout & Hin). destruct u.
    apply reject_Ok. split; [by apply bool_decide_false|].
    apply reject_Ok. split.
    { apply bool_decide_false. destruct (member_ids region) as [|m l] eqn:Em; [done|].
         specialize (Hreach m ltac:(by left)).
         assert (exists y, inner_step edges (m :: l) (owner_id region) y) as [y Hy].
         { inversion Hreach; eauto. }
         apply elem_of_inner_targets in Hy. intros He. rewrite He in Hy. set_solver. }
    apply bind_Ok. exists tt. split.
    { apply for_each_Ok, Forall_forall. intros m Hm. apply reject_if_Ok, negb_false_iff,
        bool_decide_eq_true, region_reached_spec. by apply Hreach. }
    apply bind_Ok. exists tt. split.
    { apply for_each_Ok, Forall_forall. intros m Hm. apply check_member_Ok.
      destruct (Hmem _ Hm) as (? & ? & ?). split_and!; [done..|].
      intros e He <-. eapply Hout; eauto. }
    apply for_each_Ok, Forall_forall. intros e He. apply reject_if_Ok.
    destruct (decide (target e ∈ member_ids region)) as [Ht|Ht].
    + rewrite (bool_decide_true (target e ∈ _)) by done.
      destruct (Hin (source e) (target e) ltac:(eauto) Ht) as [Hs|Hs].
      * by rewrite bool_decide_true.
      * by rewrite (bool_decide_true (source e ∈ _)), andb_false_r by done.
    + by rewrite (bool_decide_false (target e ∈ _)), andb_false_r by done.
Qed.

(** The members of the region of [owner], in node order. *)
Definition children (nodes : list NodeEntry) (owner : string) : list string :=
  entry_id <$> filter (fun e => entry_parent e = Some owner) nodes.

Lemma members_by_owner_Ok nodes m :
  members_by_owner nodes = Ok m ->
  (forall e p, e ∈ nodes -> entry_parent e = Some p -> kind_of nodes p = Some Iteration) /\
  (forall owner, m !! owner = match children nodes owner with [] => None | l => Some l end).
Proof.
  unfold members_by_owner. intros H.
  eapply (fold_result_inv (fun l acc =>
    (forall e p, e ∈ l -> entry_parent e = Some p -> kind_of nodes p = Some Iteration) /\
    (forall owner, acc !! owner = match children l owner with [] => None | l => Some l end)));
    [| |done].
  - split; [set_solver|]. intros o. apply lookup_empty.
  - clear. intros l e s1 s2 [Hk Hm] _ Hadd. unfold add_member in Hadd.
    unfold children in *.
    destruct (entry_parent e) as [p|] eqn:Ep; inv_ok.
    2: { split; [intros e' q [?| ->%list_elem_of_singleton]%elem_of_app; [by apply Hk|congruence]|].
         intros o. rewrite filter_app, filter_cons_False, filter_nil, app_nil_r by congruence. done. }
    destruct (kind_of nodes p) as [[]|] eqn:Ekind; inv_ok. split.
    { intros e' q [?| ->%list_elem_of_singleton]%elem_of_app; [by apply Hk|congruence]. }
    intros o. rewrite filter_app. destruct (decide (o = p)) as [->|Hne].
    + rewrite lookup_insert_eq, Hm, filter_cons_True, filter_nil, fmap_app by done.
      by destruct (entry_id <$> filter _ l).
    + rewrite lookup_insert_ne, filter_cons_False, filter_nil, app_nil_r by congruence. apply Hm.
Qed.
End region_lemmas.

(** ** Properties *)

Section derive.
Context {order : HashOrder}.

Lemma derive_regions_Ok nodes edges regions :
  derive_regions nodes edges = Ok regions <->
  exists members, members_by_owner nodes = Ok members /\
    (forall o l, members !! o = Some l ->
       region_rules {| owner_id := o; member_ids := l |} nodes edges) /\
    regions = map_imap (fun o l => Some {| owner_id := o; member_ids := l |}) members.
Proof.
  unfold derive_regions. rewrite bind_Ok. apply exist_proper. intros members.
  apply and_iff_compat_l.
  set (mk := fun o => {| owner_id := o; member_ids := default [] (members !! o) |}).
  assert (forall keys acc out, fold_result (fun (regions : gmap string CompositeRegion) owner =>
      mbind (M:=result GraphError) (fun _ => Ok (<[owner := mk owner]> regions))
        (validate_region (mk owner) nodes edges)) acc keys
    = Ok out <-> Forall (fun o => region_rules (mk o) nodes edges) keys /\
      out = fold_left (fun regions o => <[o := mk o]> regions) keys acc) as Hfold.
  { induction keys as [|o keys IH]; intros acc out; simpl; [naive_solver|].
    rewrite bind_Ok. setoid_rewrite bind_Ok. setoid_rewrite validate_region_Ok.
    rewrite Forall_cons. split.
    - intros (x & (u & Hr & [= <-]) & Hk). apply IH in Hk. tauto.
    - intros [[Hr Hk] ->]. eexists. split; [exists tt; done|]. by apply IH. }
  etransitivity; [apply Hfold|]. clear Hfold.
  assert (fold_left (fun regions o => <[o := mk o]> regions) (hash_keys members) ∅
    = map_imap (fun o l => Some {| owner_id := o; member_ids := l |}) members) as ->.
  { apply map_eq. intros o. rewrite map_lookup_imap.
    assert (forall keys acc, fold_left (fun regions o => <[o := mk o]> regions) keys acc !! o
      = if decide (o ∈ keys) then Some (mk o) else acc !! o) as ->.
    { induction keys as [|k keys IH]; intros acc; cbn [fold_left].
      - by rewrite decide_False by set_solver.
      - rewrite IH. destruct (decide (o ∈ keys)) as [Hin|Hin].
        + by rewrite decide_True by set_solver.
        + destruct (decide (o = k)) as [->|Hne].
          * by rewrite decide_True, lookup_insert_eq by set_solver.
          * by rewrite decide_False, lookup_insert_ne by set_solver. }
    unfold mk. case_decide as Hin.
    - apply elem_of_hash_keys in Hin as [l Hl]. by rewrite Hl.
    - rewrite elem_of_hash_keys in Hin. rewrite lookup_empty.
      destruct (members !! o); [by destruct Hin|done]. }
  rewrite Forall_forall. unfold mk. split.
  - intros [Hk ->]. split; [|done]. intros o l Hl.
    specialize (Hk o). rewrite elem_of_hash_keys, Hl in Hk. by apply Hk.
  - intros [Hk ->]. split; [|done]. intros o [l Hl]%elem_of_hash_keys. rewrite Hl. by apply Hk.
Qed.

Lemma derive_regions_children nodes edges regions :
  derive_regions nodes edges = Ok regions ->
  (forall e p, e ∈ nodes -> entry_parent e = Some p -> kind_of nodes p = Some Iteration) /\
  (forall o r, regions !! o = Some r <->
     children nodes o <> [] /\ r = {| owner_id := o; member_ids := children nodes o |}).
Proof.
  intros (members & Hm & _ & ->)%derive_regions_Ok.
  apply members_by_owner_Ok in Hm as [Hk Hm]. split; [done|].
  intros o r. rewrite map_lookup_imap, Hm. destruct (children nodes o); naive_solver.
Qed.

Lemma derive_regions_rules nodes edges regions o r :
  derive_regions nodes edges = Ok regions -> regions !! o = Some r -> region_rules r nodes edges.
Proof.
  intros (members & _ & Hrules & ->)%derive_regions_Ok. rewrite map_lookup_imap.
  destruct (members !! o) as [l|] eqn:El; [|done]. intros [= <-]. by apply Hrules.
Qed.

(** When region derivation succeeds, every contained node names an iteration node, the region
    of an iteration node holds exactly the nodes contained in it (in node order), and every
    region obeys the boundary rules: all members reached from the owner inside the region, no
    Output, nested iteration or interactive member, no edge out of it and no edge into it but
    from the owner. *)
Theorem derive_regions_sound nodes edges regions :
  derive_regions nodes edges = Ok regions ->
  (forall e p, e ∈ nodes -> entry_parent e = Some p -> kind_of nodes p = Some Iteration) /\
  (forall o r, regions !! o = Some r <->
     children nodes o <> [] /\ r = {| owner_id := o; member_ids := children nodes o |}) /\
  (forall o r, regions !! o = Some r -> region_rules r nodes edges).
Proof.
  intros H. destruct (derive_regions_children _ _ _ H) as [Hk Hc].
  split; [done|]. split; [done|]. intros o r. by apply derive_regions_rules.
Qed.
End derive.

(** The regions do not depend on the order in which the hash map of owners is visited: if the
    derivation succeeds for one order it succeeds for every order, with the same regions. *)
Theorem derive_regions_order (o1 o2 : HashOrder) nodes edges regions :
  derive_regions (order:=o1) nodes edges = Ok regions ->
  derive_regions (order:=o2) nodes edges = Ok regions.
Proof. intros H%derive_regions_Ok. by apply derive_regions_Ok. Qed.

(** A region is enclosed: control that entered it stays in it, and every path from outside to
    a member goes through the owner, so the region can only be entered by its iteration node. *)
Theorem region_enclosed region nodes edges x y :
  region_rules region nodes edges -> rtc (edge_step edges) x y ->
  (x ∈ member_ids region -> y ∈ member_ids region) /\
  (x ∉ member_ids region -> y ∈ member_ids region ->
     rtc (edge_step edges) x (owner_id region) /\ tc (edge_step edges) (owner_id region) y).
Proof.
  intros (_ & _ & _ & Hout & Hin) Hxy.
  assert (x ∈ member_ids region -> y ∈ member_ids region) as Hstay.
  { induction Hxy as [x|x z y Hxz _ IH]; [done|]. intros Hx. apply IH. by eapply Hout. }
  split; [done|]. clear Hstay. induction Hxy as [x|x z y Hxz Hzy IH]; [done|]. intros Hx Hy.
  destruct (decide (z ∈ member_ids region)) as [Hz|Hz].
  - destruct (Hin _ _ Hxz Hz) as [->|?]; [|done]. split; [constructor|].
    eapply tc_rtc_r; [by apply tc_once|done].
  - destruct (IH Hz Hy) as [? ?]. split; [by eapply rtc_l|done].
Qed.

(** A ledger with exactly the rounds [0 .. n-1]. *)
Definition ledger_complete (n : nat) (l : IterationLedger) : Prop :=
  forall i, is_Some (l !! i) <-> (i < N.of_nat n)%N.

Lemma complete_keys n l : ledger_complete n l -> btree_keys N.le l = N.of_nat <$> seq 0 n.
Proof.
  intros Hl. apply (btree_keys_unique N.le).
  - assert (forall k s, Sorted N.le (N.of_nat <$> seq s k)) as Hs; [|apply (Hs n 0)].
    induction k as [|k IH]; intros s; csimpl; constructor; [apply IH|].
    destruct k; csimpl; constructor. lia.
  - apply NoDup_fmap_2; [apply _|apply NoDup_seq].
  - intros k. rewrite (Hl k), list_elem_of_fmap. split.
    + intros (i & -> & Hi%elem_of_seq). lia.
    + intros Hk. exists (N.to_nat k). rewrite N2Nat.id, elem_of_seq. lia.
Qed.

Lemma complete_length n l : ledger_complete n l -> length (ledger_values l) = n.
Proof.
  intros Hl. pose proof (complete_keys _ _ Hl) as Hk. unfold ledger_values, btree_values.
  unfold btree_keys in Hk. rewrite length_fmap, <-(length_fmap fst), Hk, length_fmap. apply length_seq.
Qed.

Lemma complete_values n l i : ledger_complete n l -> ledger_values l !! i = l !! N.of_nat i.
Proof.
  intros Hl. pose proof (complete_keys _ _ Hl) as Hk.
  destruct (decide (i < n)) as [Hi|Hi].
  - apply btree_values_lookup. rewrite Hk, list_lookup_fmap, lookup_seq_lt by done. done.
  - rewrite (proj2 (eq_None_not_Some (l !! N.of_nat i))) by (rewrite (Hl (N.of_nat i)); lia).
    apply lookup_ge_None. rewrite (complete_length n) by done. lia.
Qed.

(** The projection of a complete ledger of [n] rounds exposes [n] entries, the [i]-th being the
    envelope of round [i]; the outputs of the succeeded rounds in input order; and a failure
    count that accounts for all the other rounds. *)
Theorem exposed_values_complete n l :
  ledger_complete n l ->
  exists outs entries k,
    project_exposed_values l = (VArray outs, VArray entries, json_of_nat k) /\
    length entries = n /\ k + length outs = n /\
    (forall i, entries !! i = to_envelope <$> l !! N.of_nat i) /\
    outs = omap (fun i => l !! N.of_nat i ≫= outcome_output) (seq 0 n).
Proof.
  intros Hl. unfold project_exposed_values. do 3 eexists. split; [done|].
  pose proof (complete_length _ _ Hl) as Hlen. split_and!.
  - by rewrite length_fmap.
  - rewrite <-Hlen. clear. induction (ledger_values l) as [|[|] vs IH]; csimpl; [done| |].
    + rewrite filter_cons_False by done. csimpl. lia.
    + csimpl. lia.
  - intros i. rewrite list_lookup_fmap. by erewrite complete_values.
  - assert (forall i, ledger_values l !! i = l !! N.of_nat i) as Hv.
    { intros i. by eapply complete_values. }
    rewrite <-Hlen. clear Hlen Hl.
    assert (forall vs s, (forall i, vs !! i = l !! N.of_nat (s + i)) ->
      omap outcome_output vs = omap (fun i => l !! N.of_nat i ≫= outcome_output) (seq s (length vs)))
      as Hgo; [|by apply Hgo].
    clear Hv. induction vs as [|v vs IH]; intros s Hv; [done|].
    pose proof (Hv 0) as H0. csimpl in H0. rewrite Nat.add_0_r in H0. csimpl. rewrite <-H0. csimpl.
    rewrite (IH (S s)); [done|]. intros i. rewrite Nat.add_succ_comm. apply (Hv (S i)).
Qed.

(** ** Witnesses *)

#[local] Instance insertion_order : HashOrder := {| hash_order l := l; hash_order_perm l := reflexivity l |}.

Definition sample_entry (id : string) (kind : NodeType) (parent : option string) : NodeEntry :=
  {| entry_id := id; entry_parent := parent; entry_type := kind; entry_interactive := false |}.
Definition sample_nodes : list NodeEntry :=
  [sample_entry "s" Start None; sample_entry "it" Iteration None;
   sample_entry "a" Agent (Some "it"); sample_entry "b" Agent (Some "it"); sample_entry "o" Output None].
Definition sample_edge (a b : string) : WorkflowGraphEdge :=
  {| source := a; target := b; source_handle := None |}.
Definition sample_edges : list WorkflowGraphEdge :=
  [sample_edge "s" "it"; sample_edge "it" "a"; sample_edge "a" "b"; sample_edge "it" "o"].

Lemma derive_regions_sound_witness :
  exists regions, derive_regions sample_nodes sample_edges = Ok regions /\
    exists r, regions !! "it" = Some r /\ member_ids r = ["a"; "b"] /\
      region_rules r sample_nodes sample_edges.
Proof.
  destruct (derive_regions sample_nodes sample_edges) as [regions|] eqn:E; [|discriminate E].
  exists regions. split; [first [exact E | reflexivity]|]. destruct (derive_regions_sound _ _ _ E) as (_ & Hr & Hrules).
  exists {| owner_id := "it"; member_ids := ["a"; "b"] |}.
  assert (regions !! "it" = Some {| owner_id := "it"; member_ids := ["a"; "b"] |}) as H.
  { apply Hr. split; [discriminate|reflexivity]. }
  split; [exact H|]. split; [reflexivity|]. exact (Hrules _ _ H).
Defined.

Lemma derive_regions_order_witness :
  exists regions (o2 : HashOrder), derive_regions sample_nodes sample_edges = Ok regions /\
    derive_regions (order:=o2) sample_nodes sample_edges = Ok regions.
Proof.
  destruct (derive_regions sample_nodes sample_edges) as [regions|] eqn:E; [|discriminate E].
  exists regions, {| hash_order l := reverse l; hash_order_perm l := reverse_Permutation l |}.
  split; [first [exact E | reflexivity]|]. exact (derive_regions_order _ _ _ _ _ E).
Defined.

Lemma region_enclosed_witness :
  let region := {| owner_id := "it"; member_ids := ["a"; "b"] |} in
  region_rules region sample_nodes sample_edges /\ rtc (edge_step sample_edges) "s" "it".
Proof.
  intros region.
  assert (region_rules region sample_nodes sample_edges) as Hr.
  { apply (validate_region_Ok _ _ _ tt). vm_compute. reflexivity. }
  split; [exact Hr|].
  assert (rtc (edge_step sample_edges) "s" "b") as Hp.
  { apply rtc_l with "it". { exists (sample_edge "s" "it"). repeat split. by left. }
    apply rtc_l with "a". { exists (sample_edge "it" "a"). repeat split. by right; left. }
    apply rtc_once. exists (sample_edge "a" "b"). repeat split. by right; right; left. }
  refine (proj1 (proj2 (region_enclosed region sample_nodes sample_edges "s" "b" Hr Hp) _ _)).
  - by apply (bool_decide_unpack _).
  - by apply (bool_decide_unpack _).
Defined.

Lemma exposed_values_complete_witness :
  let l : gmap N RoundOutcome := <[0%N := RoundSucceeded VNull (VBool true)]> {[1%N := RoundFailed VNull "e"]} in
  ledger_complete 2 l /\ exists outs entries k,
    project_exposed_values l = (VArray outs, VArray entries, json_of_nat k) /\ k + length outs = 2.
Proof.
  intros l.
  assert (ledger_complete 2 l) as Hl.
  { intros i. unfold l. destruct (decide (i = 0%N)) as [->|H0].
    { split; [done|]. intros _. by eexists. }
    rewrite lookup_insert_ne by done. destruct (decide (i = 1%N)) as [->|H1].
    { split; [done|]. intros _. by eexists. }
    rewrite lookup_singleton_ne by done. split; [by intros []|]. lia. }
  split; [exact Hl|].
  destruct (exposed_values_complete 2 l Hl) as (outs & entries & k & Hp & _ & Hk & _).
  exists outs, entries, k. split; [exact Hp | exact Hk].
Defined.
