(* ===== verification/NodeConfig.v ===== *)
(** * Node configurations ([engine/start_input.rs], [engine/agent_config.rs], [engine/loop_config.rs])

    First the typed declarations of a Start node: form controls, the pool types they produce and the
    validation of the wire form; then the configurations of Agent and Loop nodes. *)

From S2P Require Import Prelude RustStr Json VariablePool Condition GraphBase Retry.
Local Open Scope ora_scope.

Inductive StartInputFieldType : Type :=
| TextInput | Paragraph | Select | NumberField | Checkbox | File | FileList | JsonField.

#[export] Instance StartInputFieldType_eq_dec : EqDecision StartInputFieldType.
Proof. solve_decision. Defined.

Record StartInputVariable : Type := {
  si_name : string;
  si_display_name : option string;
  si_field_type : StartInputFieldType;
  si_value_type : string;
  si_required : bool;
  si_options : list string;
  si_max_length : option N;
  si_value : option Value;
}.

Record WireStartInputVariable : Type := {
  ws_name : option string;
  ws_display_name : option string;
  ws_field_type : option string;
  ws_value_type : option string;
  ws_required : bool;
  ws_options : list string;
  ws_max_length : option N;
  ws_value : option Value;
}.

(** [StartInputFieldType::value_type] *)
Definition field_value_type (t : StartInputFieldType) : string :=
  match t with
  | TextInput | Paragraph | Select => "string"
  | NumberField => "number"
  | Checkbox => "boolean"
  | File => "file"
  | FileList => "array[file]"
  | JsonField => "any"
  end.

Definition json_types : list string :=
  ["object"; "any"; "array"; "array[string]"; "array[number]"; "array[object]";
   "array[boolean]"; "array[any]"].

(** [StartInputFieldType::produces] *)
Definition produces (t : StartInputFieldType) (value_type : string) : bool :=
  match t with
  | JsonField => bool_decide (value_type ∈ json_types)
  | _ => bool_decide (field_value_type t = value_type)
  end.

(** [StartInputFieldType::from_wire] *)
Definition field_from_wire (field_type : option string) (value_type : string) :
    option StartInputFieldType :=
  match field_type with
  | Some text =>
      if bool_decide (text = "text-input") then Some TextInput
      else if bool_decide (text = "paragraph") then Some Paragraph
      else if bool_decide (text = "select") then Some Select
      else if bool_decide (text = "number") then Some NumberField
      else if bool_decide (text = "checkbox") then Some Checkbox
      else if bool_decide (text = "file") then Some File
      else if bool_decide (text = "file-list") then Some FileList
      else if bool_decide (text = "json") then Some JsonField
      else None
  | None =>
      if bool_decide (value_type = "number") || bool_decide (value_type = "integer")
      then Some NumberField
      else if bool_decide (value_type = "boolean") then Some Checkbox
      else if bool_decide (value_type = "file") then Some File
      else if bool_decide (value_type = "array[file]") then Some FileList
      else if bool_decide (value_type = "string") || bool_decide (value_type = "secret")
      then Some TextInput
      else if produces JsonField value_type then Some JsonField
      else None
  end.

Definition is_text_field (t : StartInputFieldType) : bool :=
  match t with TextInput | Paragraph => true | _ => false end.
Definition is_select (t : StartInputFieldType) : bool :=
  match t with Select => true | _ => false end.

Definition text_exceeds (max_length : option N) (value : option Value) : option N :=
  match max_length, value with
  | Some n, Some (VString text) => if (n <? chars_count text)%N then Some n else None
  | _, _ => None
  end.

(** The value is a text that is not one of the options. *)
Definition not_an_option (options : list string) (value : option Value) : bool :=
  match value ≫= as_str with
  | Some text => negb (bool_decide (text ∈ options))
  | None => false
  end.

Section start_input.
Context {debug : DebugText}.

(** One round of the loop of [into_start_input_variables]; the names seen so far are those of
    the accepted variables. *)
Definition add_start_input (acc : list StartInputVariable) (wire : WireStartInputVariable) :
    result string (list StartInputVariable) :=
  let name := trim (default "" (ws_name wire)) in
  reject (bool_decide (name = "") || str_contains "." name)
    with "variable names must be non-empty and cannot contain dots";
  reject (bool_decide (name ∈ (si_name <$> acc))) with ("duplicate variable name " +:+ name);
  let value_type := default "" (ws_value_type wire) in
  reject (negb (is_supported_variable_type value_type))
    with ("variable " +:+ name +:+ " has unsupported type " +:+ value_type);
  field_type ← ok_or (field_from_wire (ws_field_type wire) value_type)
                 ("variable " +:+ name +:+ " has unsupported Start field type");
  reject (bool_decide (is_Some (ws_field_type wire)) && negb (produces field_type value_type))
    with ("variable " +:+ name +:+ " field type does not produce declared type " +:+ value_type);
  let options := trim <$> ws_options wire in
  reject (is_select field_type
          && (bool_decide (options = []) || bool_decide ("" ∈ options)
              || negb (bool_decide (NoDup options))))
    with ("variable " +:+ name +:+ " select options must be non-empty and unique");
  reject (negb (is_select field_type) && negb (bool_decide (options = [])))
    with ("variable " +:+ name +:+ " options are only supported for select fields");
  let display_name :=
    text ← trim <$> ws_display_name wire; if bool_decide (text = "") then None else Some text in
  reject (bool_decide (ws_max_length wire = Some 0%N))
    with ("variable " +:+ name +:+ " max length must be positive");
  reject (bool_decide (is_Some (ws_max_length wire)) && negb (is_text_field field_type))
    with ("variable " +:+ name +:+ " max length is only supported for text fields");
  value ←
    match ws_value wire with
    | Some value =>
        Some <$> ok_or (normalize_workflow_value value value_type)
          ("variable " +:+ name +:+ " value does not match declared type " +:+ value_type)
    | None => Ok None
    end;
  _ ← match text_exceeds (ws_max_length wire) value with
      | Some n => Err ("variable " +:+ name +:+ " value exceeds maximum length " +:+ of_N n)
      | None => Ok tt
      end;
  reject (is_select field_type && not_an_option options value)
    with ("variable " +:+ name +:+ " initial value is not one of its select options");
  Ok (acc ++ [{| si_name := name; si_display_name := display_name; si_field_type := field_type;
                 si_value_type := value_type; si_required := ws_required wire;
                 si_options := options; si_max_length := ws_max_length wire;
                 si_value := value |}]).

Definition into_start_input_variables (wire : list WireStartInputVariable) :
    result string (list StartInputVariable) :=
  fold_result add_start_input [] wire.

(** ** Invariant *)

Definition start_input_ok (v : StartInputVariable) : Prop :=
  si_name v <> "" /\ str_contains "." (si_name v) = false /\
  is_supported_variable_type (si_value_type v) = true /\
  (si_field_type v = Select -> si_options v <> [] /\ "" ∉ si_options v /\ NoDup (si_options v)) /\
  (si_field_type v <> Select -> si_options v = []) /\
  (forall n, si_max_length v = Some n -> n <> 0%N /\ is_text_field (si_field_type v) = true) /\
  (forall x, si_value v = Some x ->
     workflow_value_matches_type x (si_value_type v) = true /\
     normalize_workflow_value x (si_value_type v) = Some x) /\
  (forall n text, si_max_length v = Some n -> si_value v = Some (VString text) ->
     (chars_count text <= n)%N) /\
  (forall text, si_field_type v = Select -> si_value v = Some (VString text) ->
     text ∈ si_options v).

Definition start_inputs_ok (l : list StartInputVariable) : Prop :=
  Forall start_input_ok l /\ NoDup (si_name <$> l).

Lemma select_options_ok t options :
  is_select t && (bool_decide (options = []) || bool_decide ("" ∈ options)
    || negb (bool_decide (NoDup options))) = false ->
  negb (is_select t) && negb (bool_decide (options = [])) = false ->
  (t = Select -> options <> [] /\ "" ∉ options /\ NoDup options) /\
  (t <> Select -> options = []).
Proof.
  intros H1 H2. split.
  - intros ->. simpl in H1. reflect_bools. tauto.
  - intros Ht. assert (is_select t = false) as Hs by (by destruct t). rewrite Hs in H2.
    by apply negb_false_iff, bool_decide_eq_true in H2.
Qed.

Lemma text_exceeds_None n text :
  text_exceeds (Some n) (Some (VString text)) = None -> (chars_count text <= n)%N.
Proof. simpl. by destruct (N.ltb_spec n (chars_count text)). Qed.

Lemma add_start_input_ok acc wire out :
  start_inputs_ok acc -> add_start_input acc wire = Ok out ->
  start_inputs_ok out /\
  exists v, out = acc ++ [v] /\ si_name v = trim (default "" (ws_name wire)) /\
    si_value_type v = default "" (ws_value_type wire) /\ si_required v = ws_required wire.
Proof.
  unfold add_start_input. intros [Hf Hnd] H. inv_ok. split; [|by eexists].
  apply orb_false_iff in Hx as [Hne%bool_decide_eq_false Hdot].
  apply bool_decide_eq_false in Hx0, Hx6. apply negb_false_iff in Hx1.
  destruct (select_options_ok _ _ Hx4 Hx5) as [Hsel Hnosel].
  split.
  - apply Forall_app. split; [done|]. constructor; [|done].
    unfold start_input_ok. simpl. do 4 (split; [done|]). split; [done|].
    split_and!.
    + intros n Hn. rewrite Hn in Hx6, Hx7. split; [congruence|].
      by apply andb_false_iff in Hx7 as [Hx7|Hx7%negb_false_iff].
    + intros y ->. destruct (ws_value wire); inv_ok. simplify_eq.
      by eapply normalize_matches.
    + intros n text Hn ->. rewrite Hn in Hx9. apply text_exceeds_None.
      by destruct (text_exceeds (Some n) _).
    + intros text -> ->. unfold not_an_option in Hx10. simpl in Hx10.
      by apply negb_false_iff, bool_decide_eq_true in Hx10.
  - rewrite fmap_app. apply NoDup_app. split_and!; [done| |apply NoDup_singleton].
    intros n Hn ->%list_elem_of_singleton. done.
Qed.

(** ** Properties *)

(** Accepted Start declarations keep the order and number of the wire form and satisfy the
    form constraints: unique, dot-free names; a supported type; for a select, non-empty, unique
    options that contain the initial text, and no options otherwise; a positive maximum length
    only on text fields, respected by the initial text; and an initial value that already has
    its declared type, in normal form. *)
Theorem start_inputs_valid wire vs :
  into_start_input_variables wire = Ok vs ->
  start_inputs_ok vs /\
  Forall2 (fun w v => si_name v = trim (default "" (ws_name w)) /\
             si_value_type v = default "" (ws_value_type w) /\
             si_required v = ws_required w) wire vs.
Proof.
  intros H. eapply (fold_result_inv (fun l acc => start_inputs_ok acc /\
    Forall2 (fun w v => si_name v = trim (default "" (ws_name w)) /\
               si_value_type v = default "" (ws_value_type w) /\
               si_required v = ws_required w) l acc)); [| |done].
  - repeat constructor.
  - intros l w s1 s2 [Hok Hl] _ Hadd.
    apply add_start_input_ok in Hadd as [? (v & -> & Hv)]; [|done].
    split; [done|]. apply Forall2_app; [done|]. by constructor.
Qed.
End start_input.

(** The control derived for a legacy declaration produces the declared type, except that an
    [integer] is collected by the number control and a [secret] by the text control. *)
Lemma field_from_wire_legacy t f :
  field_from_wire None t = Some f -> produces f t = true \/ t = "integer" \/ t = "secret".
Proof.
  unfold field_from_wire. intros H. revert H.
  destruct (decide (t = "integer")); [by auto|]. destruct (decide (t = "secret")); [by auto|].
  rewrite (bool_decide_false (t = "integer")), (bool_decide_false (t = "secret")), !orb_false_r by done.
  repeat case_bool_decide; try (intros [= <-]; subst; by left).
  destruct (produces JsonField t) eqn:E; [intros [= <-]; by left | done].
Qed.

#[local] Instance plain_debug : DebugText := {| debug_str := quoted; debug_strs := join ", " |}.

Lemma start_inputs_valid_witness :
  let wire := {| ws_name := Some " topic "; ws_display_name := None;
                 ws_field_type := Some "select"; ws_value_type := Some "string";
                 ws_required := true; ws_options := ["a"; " b"]; ws_max_length := None;
                 ws_value := Some (VString "b") |} in
  exists v, into_start_input_variables [wire] = Ok [v] /\ si_name v = "topic" /\
    start_inputs_ok [v].
Proof.
  intros wire.
  destruct (into_start_input_variables [wire]) as [[|v [|]]|] eqn:E; [discriminate E| |discriminate E|discriminate E].
  exists v. split; [reflexivity|]. pose proof (start_inputs_valid _ _ E) as [Hok Hall].
  split; [|exact Hok]. inversion Hall as [|? ? ? ? [Hn _]]. exact Hn.
Defined.

(** ** Agent and Loop node configurations ([engine/agent_config.rs], [engine/loop_config.rs])

    The executable contract of an agent node, decoded from [data.agentConfig].  Decoding JSON
    into the wire records is serde's derived code; the decoder of one raw field,
    [promptInactivity], is a class.  The second part is the configuration of a Loop node. *)
(** [PromptInactivityPolicy] of [crates/domain/src/prompt_inactivity_policy.rs]; the default is
    [Timeout]. *)
Inductive PromptInactivityPolicy : Type := Timeout | Wait.

#[export] Instance PromptInactivityPolicy_eq_dec : EqDecision PromptInactivityPolicy.
Proof. solve_decision. Defined.

Class PolicyDecode := {
  policy_from_value : Value -> result string PromptInactivityPolicy;
}.

Inductive StructuredTextExposure : Type := StructuredOnly | IncludeFinalText.

Inductive AgentOutputContract : Type :=
| NoContract
| TextContract
| Structured (schema : Value) (text_exposure : StructuredTextExposure).

Record AgentExecutor : Type := { agent_cli : string; model_id : string }.
Record AgentSkill : Type := { skill_id : string; skill_enabled : bool }.
Record AgentMcp : Type := { mcp_id : string; mcp_enabled : bool }.

Record AgentConfig : Type := {
  executor : AgentExecutor;
  role_id : option string;
  skills : list AgentSkill;
  mcps : list AgentMcp;
  prompt : string;
  interactive : bool;
  output_contract : option AgentOutputContract;
  retry : AgentRetryPolicy;
  prompt_inactivity : PromptInactivityPolicy;
}.

Record WireOutputContract : Type := {
  wo_kind : option string;
  wo_text_exposure : option string;
  wo_schema : option Value;
}.

Record WireAgentExecutor : Type := {
  we_agent_cli : option string;
  we_model_id : option string;
}.

Record WireAgentSkill : Type := {
  wk_skill_id : option string;
  wk_enabled : option bool;
}.

Record WireAgentConfig : Type := {
  wa_executor : option WireAgentExecutor;
  wa_role_id : option string;
  wa_skills : list WireAgentSkill;
  wa_mcps : list AgentMcp;
  wa_prompt : option string;
  wa_interactive : option bool;
  wa_output_contract : option WireOutputContract;
  wa_retry : option Value;
  wa_prompt_inactivity : option Value;
}.

(** [deserialize_bindings]: a binding whose plugin id was seen before is rejected. *)
Fixpoint bindings_unique (seen : list string) (bindings : list AgentMcp) : bool :=
  match bindings with
  | [] => true
  | binding :: bindings =>
      if bool_decide (mcp_id binding ∈ seen) then false
      else bindings_unique (mcp_id binding :: seen) bindings
  end.

Definition deserialize_bindings (bindings : list AgentMcp) : result string (list AgentMcp) :=
  if bindings_unique [] bindings then Ok bindings
  else Err "MCP bindings require unique canonical plugin IDs".

(** [WireOutputContract::into_model] *)
Definition output_contract_into_model (wire : WireOutputContract) : option AgentOutputContract :=
  kind ← wo_kind wire;
  if bool_decide (kind = "none") then Some NoContract
  else if bool_decide (kind = "text") then Some TextContract
  else if bool_decide (kind = "structured") then
    Some (Structured (default VNull (wo_schema wire))
            (if bool_decide (wo_text_exposure wire = Some "includeFinalText")
             then IncludeFinalText else StructuredOnly))
  else None.

(** [WireAgentSkill::into_model] *)
Definition skill_into_model (wire : WireAgentSkill) : AgentSkill :=
  {| skill_id := default "" (wk_skill_id wire); skill_enabled := default false (wk_enabled wire) |}.

Section agent.
Context {json : JsonText} {decode : PolicyDecode}.

(** [WireAgentConfig::into_model] *)
Definition agent_into_model (wire : WireAgentConfig) (node_id : string) :
    result GraphError AgentConfig :=
  prompt_inactivity ←
    match wa_prompt_inactivity wire with
    | None => Ok Timeout
    | Some value =>
        map_err (fun source => InvalidNode ("node " +:+ node_id
                   +:+ " has invalid promptInactivity: " +:+ source))
          (policy_from_value value)
    end;
  retry ← parse_retry_policy node_id (wa_retry wire);
  Ok {| executor :=
          {| agent_cli := default "" (wa_executor wire ≫= we_agent_cli);
             model_id := default "" (wa_executor wire ≫= we_model_id) |};
        role_id := wa_role_id wire;
        skills := skill_into_model <$> wa_skills wire;
        mcps := wa_mcps wire;
        prompt := default "" (wa_prompt wire);
        interactive := default false (wa_interactive wire);
        output_contract := wa_output_contract wire ≫= output_contract_into_model;
        retry := retry;
        prompt_inactivity := prompt_inactivity |}.
End agent.

Lemma bindings_unique_spec seen bindings :
  bindings_unique seen bindings = true <->
  NoDup (mcp_id <$> bindings) /\ (forall b, b ∈ bindings -> mcp_id b ∉ seen).
Proof.
  revert seen. induction bindings as [|b l IH]; intros seen; csimpl.
  { split; [|done]. intros _. split; [constructor | set_solver]. }
  case_bool_decide as Hb; [set_solver|]. rewrite IH, NoDup_cons. set_solver.
Qed.

(** ** Loop configuration ([engine/loop_config.rs])

    The validated configuration of a bounded feedback container.  Decoding JSON into the wire
    records (with unknown fields denied) is serde's derived code, a class. *)
Inductive LoopMaxIterationsBehavior : Type := FailOnMax | SucceedOnMax.

#[export] Instance behavior_eq_dec : EqDecision LoopMaxIterationsBehavior.
Proof. solve_decision. Defined.

Inductive LoopInitialValue : Type :=
| InitConstant (value : Value)
| InitVariable (selector : VariableSelector).

Record LoopVariable : Type := {
  lv_name : string;
  lv_value_type : string;
  lv_initial : LoopInitialValue;
  lv_feedback : VariableSelector;
}.

Record LoopConfig : Type := {
  lc_max_iterations : N;
  lc_max_iterations_behavior : LoopMaxIterationsBehavior;
  lc_variables : list LoopVariable;
  lc_until : ConditionConfig;
  lc_outputs : list OutputBinding;
}.

Inductive WireInitialValue : Type :=
| WireConstant (value : Value)
| WireVariable (selector : list string).

Record WireLoopVariable : Type := {
  wl_name : string;
  wl_value_type : string;
  wl_initial : WireInitialValue;
  wl_feedback : list string;
}.

Record WireUntil : Type := { wu_logic : string; wu_conditions : list WireConditionRule }.
Record WireBinding : Type := { wd_name : string; wd_variable_selector : list string }.

Record WireLoopConfig : Type := {
  wlc_max_iterations : N;
  wlc_max_iterations_behavior : LoopMaxIterationsBehavior;
  wlc_variables : list WireLoopVariable;
  wlc_until : WireUntil;
  wlc_outputs : list WireBinding;
}.

Class LoopDecode := { loop_config_from_value : Value -> result string WireLoopConfig }.

Definition validate_name (name : string) : result string unit :=
  reject_if (bool_decide (trim name = "") || negb (bool_decide (trim name = name))
             || str_contains "." name)
    ("invalid loop variable or output name " +:+ name).

Section loop_config.
Context {debug : DebugText}.

Definition parse_selector (parts : list string) : result string VariableSelector :=
  ok_or (try_from_parts parts) ("invalid loop selector " +:+ debug_strs parts).

(** One round of the loop over the carried variables; the names seen are those accepted. *)
Definition add_loop_variable (acc : list LoopVariable) (variable : WireLoopVariable) :
    result string (list LoopVariable) :=
  _ ← validate_name (wl_name variable);
  reject (bool_decide (wl_name variable ∈ (lv_name <$> acc)))
    with ("duplicate loop variable " +:+ wl_name variable);
  reject (negb (is_supported_variable_type (wl_value_type variable)))
    with ("unsupported loop variable type " +:+ wl_value_type variable);
  initial ←
    match wl_initial variable with
    | WireConstant value =>
        InitConstant <$> ok_or (normalize_workflow_value value (wl_value_type variable))
          ("invalid initial value for " +:+ wl_name variable)
    | WireVariable selector => InitVariable <$> parse_selector selector
    end;
  feedback ← parse_selector (wl_feedback variable);
  Ok (acc ++ [{| lv_name := wl_name variable; lv_value_type := wl_value_type variable;
                 lv_initial := initial; lv_feedback := feedback |}]).

(** One round of the loop over the named outputs. *)
Definition add_loop_output (acc : list OutputBinding) (output : WireBinding) :
    result string (list OutputBinding) :=
  _ ← validate_name (wd_name output);
  reject (bool_decide (wd_name output ∈ (binding_name <$> acc)))
    with ("duplicate loop output " +:+ wd_name output);
  selector ← parse_selector (wd_variable_selector output);
  Ok (acc ++ [{| binding_name := wd_name output; binding_selector := selector |}]).

Definition compile_loop_config (wire : WireLoopConfig) : result string LoopConfig :=
  reject (negb ((1 <=? wlc_max_iterations wire)%N && (wlc_max_iterations wire <=? 100)%N))
    with "maxIterations must be between 1 and 100";
  until ← map_err condition_error_message
    (condition_from_wire
       [{| wc_id := Some "until"; wc_logic := Some (wu_logic (wlc_until wire));
           wc_conditions := wu_conditions (wlc_until wire) |}]);
  variables ← fold_result add_loop_variable [] (wlc_variables wire);
  outputs ← fold_result add_loop_output [] (wlc_outputs wire);
  Ok {| lc_max_iterations := wlc_max_iterations wire;
        lc_max_iterations_behavior := wlc_max_iterations_behavior wire;
        lc_variables := variables; lc_until := until; lc_outputs := outputs |}.

(** [LoopConfig::parse] *)
Definition parse_loop_config `{LoopDecode} (value : Value) : result string LoopConfig :=
  wire ← loop_config_from_value value; compile_loop_config wire.

(** ** Invariant of a parsed configuration *)

Definition name_ok (name : string) : Prop :=
  trim name <> "" /\ trim name = name /\ str_contains "." name = false.

Definition loop_variable_ok (v : LoopVariable) : Prop :=
  name_ok (lv_name v) /\ is_supported_variable_type (lv_value_type v) = true /\
  match lv_initial v with
  | InitConstant value => workflow_value_matches_type value (lv_value_type v) = true
  | InitVariable _ => True
  end.

Definition loop_config_ok (c : LoopConfig) : Prop :=
  (1 <= lc_max_iterations c <= 100)%N /\
  Forall loop_variable_ok (lc_variables c) /\ NoDup (lv_name <$> lc_variables c) /\
  Forall (fun o => name_ok (binding_name o)) (lc_outputs c) /\
  NoDup (binding_name <$> lc_outputs c) /\
  exists case, cases (lc_until c) = [case] /\ case_id case = "until".

Lemma validate_name_Ok name u : validate_name name = Ok u <-> name_ok name.
Proof.
  unfold validate_name, name_ok. rewrite reject_if_Ok, !orb_false_iff, negb_false_iff,
    bool_decide_eq_false, bool_decide_eq_true. tauto.
Qed.

Lemma NoDup_snoc {A B} (f : A -> B) (l : list A) x :
  NoDup (f <$> l) -> f x ∉ (f <$> l) -> NoDup (f <$> (l ++ [x])).
Proof.
  intros Hl Hx. rewrite fmap_app. apply NoDup_app. split_and!; [done| |apply NoDup_singleton].
  intros y Hy ->%list_elem_of_singleton. done.
Qed.

Lemma add_loop_variable_ok acc w out :
  Forall loop_variable_ok acc /\ NoDup (lv_name <$> acc) -> add_loop_variable acc w = Ok out ->
  Forall loop_variable_ok out /\ NoDup (lv_name <$> out).
Proof.
  unfold add_loop_variable. intros [Hf Hnd] H. inv_ok.
  apply validate_name_Ok in Hx. apply bool_decide_eq_false in Hx0. apply negb_false_iff in Hx1.
  split; [|by apply NoDup_snoc]. apply Forall_app. split; [done|]. constructor; [|done].
  split_and!; simpl; [apply Hx..|done|]. destruct (wl_initial w); inv_ok; simplify_eq; [|done].
  by eapply normalize_matches.
Qed.

Lemma add_loop_output_ok acc w out :
  Forall (fun o => name_ok (binding_name o)) acc /\ NoDup (binding_name <$> acc) ->
  add_loop_output acc w = Ok out ->
  Forall (fun o => name_ok (binding_name o)) out /\ NoDup (binding_name <$> out).
Proof.
  unfold add_loop_output. intros [Hf Hnd] H. inv_ok.
  apply validate_name_Ok in Hx. apply bool_decide_eq_false in Hx0.
  split; [|by apply NoDup_snoc]. apply Forall_app. split; [done|]. by constructor.
Qed.

Lemma compile_loop_config_ok wire c : compile_loop_config wire = Ok c -> loop_config_ok c.
Proof.
  unfold compile_loop_config. intros H. inv_ok. unfold loop_config_ok. simpl.
  apply negb_false_iff, andb_true_iff in Hx as [H1%N.leb_le H2%N.leb_le].
  assert (Forall loop_variable_ok x1 /\ NoDup (lv_name <$> x1)) as [Hv Hvn].
  { eapply (fold_result_inv (fun _ acc => Forall loop_variable_ok acc /\ NoDup (lv_name <$> acc)));
      [|intros; by eapply add_loop_variable_ok|done]. by repeat constructor. }
  assert (Forall (fun o => name_ok (binding_name o)) x2 /\ NoDup (binding_name <$> x2)) as [Ho Hon].
  { eapply (fold_result_inv (fun _ acc =>
      Forall (fun o => name_ok (binding_name o)) acc /\ NoDup (binding_name <$> acc)));
      [|intros; by eapply add_loop_output_ok|done]. by repeat constructor. }
  do 2 (split; [done|]). split; [done|]. do 2 (split; [done|]).
  unfold condition_from_wire in Hx0. inv_ok. subst x0. simpl in Hx. inv_ok.
  exists x0. split; [done|]. unfold compile_case in Hx0. simpl in Hx0. by inv_ok.
Qed.
End loop_config.
