(* ===== verification/Graph.v ===== *)
(** * The workflow graph and its topology queries ([engine/graph.rs])

    The data of a parsed graph and every query over it.  Vertices are numbered in insertion
    order as [petgraph] numbers them; its adjacency order and its topological sort are the
    [Petgraph] interface.  Parsing is in [GraphParse.v]. *)

From stdpp Require Import relations fin_sets.
From S2P Require Import Prelude RustStr Order Json Search NodeTypes VariablePool Condition.
From S2P Require Import GraphBase Aggregator NodeConfig Iteration.
From S2P Require Import GraphBase.

(** ** Data *)

Record WorkflowGraphNode : Type := {
  gn_id : string;
  gn_type : NodeType;
  gn_title : string;
  gn_description : string;
  gn_instruction : option string;
  gn_input_variables : list StartInputVariable;
  gn_agent_config : option AgentConfig;
  gn_condition_config : option ConditionConfig;
  gn_aggregator_config : option AggregatorConfig;
  gn_output_config : option OutputConfig;
  gn_iteration_config : option IterationConfig;
}.

Record WorkflowGlobalVariable : Type := {
  gv_name : string;
  gv_value_type : string;
  gv_value : option Value;
}.

(** [loops] is a [HashMap]: an association list in the order the map happens to have. *)
Inductive WorkflowGraph : Type := Build_WorkflowGraph {
  g_nodes : list WorkflowGraphNode;
  g_edges : list GEdge;
  g_index_by_id : gmap string nat;
  g_topo_rank : gmap nat nat;
  g_global_variables : list WorkflowGlobalVariable;
  g_loops : list (string * (LoopConfig * WorkflowGraph));
  g_regions : gmap string CompositeRegion;
  g_region_by_member : gmap string string;
}.

(** A node with nothing but its identity and kind. *)
Definition plain_node (id : string) (t : NodeType) : WorkflowGraphNode :=
  {| gn_id := id; gn_type := t; gn_title := ""; gn_description := ""; gn_instruction := None;
     gn_input_variables := []; gn_agent_config := None; gn_condition_config := None;
     gn_aggregator_config := None; gn_output_config := None; gn_iteration_config := None |}.

(** ** Lookups *)

Definition region (g : WorkflowGraph) (owner : string) : option CompositeRegion :=
  g_regions g !! owner.
Definition region_owner (g : WorkflowGraph) (node_id : string) : option string :=
  g_region_by_member g !! node_id.
Definition is_type (t : NodeType) (n : WorkflowGraphNode) : bool := bool_decide (gn_type n = t).
Definition start_node (g : WorkflowGraph) : option WorkflowGraphNode :=
  find_first (is_type Start) (g_nodes g).
Definition node (g : WorkflowGraph) (id : string) : option WorkflowGraphNode :=
  index ← g_index_by_id g !! id; g_nodes g !! index.
Definition node_count (g : WorkflowGraph) : nat := length (g_nodes g).
Definition edge_count (g : WorkflowGraph) : nat := length (g_edges g).

(** [self.topo_rank.get(index).copied().unwrap_or(usize::MAX)] *)
Definition rank (g : WorkflowGraph) (i : nat) : N :=
  match g_topo_rank g !! i with Some r => N.of_nat r | None => u64_max end.
Definition rank_le (g : WorkflowGraph) (i j : nat) : Prop := (rank g i <= rank g j)%N.
#[export] Instance rank_le_dec g : RelDecision (rank_le g).
Proof. intros i j. unfold rank_le. apply _. Defined.

(** [indices.into_iter().map(|index| &self.graph[index])] *)
Definition nodes_at (g : WorkflowGraph) (indices : list nat) : list WorkflowGraphNode :=
  omap (fun i => g_nodes g !! i) indices.

Definition nodes_in_topological_order (g : WorkflowGraph) : list WorkflowGraphNode :=
  nodes_at g (merge_sort (rank_le g) (seq 0 (node_count g))).

(** [order_by_topology] of a set of indices. *)
Definition order_by_topology (g : WorkflowGraph) (indices : gset nat) : list WorkflowGraphNode :=
  nodes_at g (merge_sort (rank_le g) (elements indices)).

Inductive Direction : Type := Outgoing | Incoming.

Section queries.
Context {pet : Petgraph}.

(** [self.graph.edges_directed(index, direction)] *)
Definition edges_directed (g : WorkflowGraph) (index : nat) (d : Direction) : list GEdge :=
  adjacency (filter (fun e => match d with Outgoing => e_src e | Incoming => e_dst e end = index)
               (g_edges g)).

(** [self.graph.neighbors_directed(index, direction)] *)
Definition neighbors_directed (g : WorkflowGraph) (d : Direction) (index : nat) : list nat :=
  (fun e => match d with Outgoing => e_dst e | Incoming => e_src e end) <$> edges_directed g index d.

Definition successors (g : WorkflowGraph) (id : string) : list WorkflowGraphNode :=
  match g_index_by_id g !! id with
  | None => []
  | Some index => nodes_at g (neighbors_directed g Outgoing index)
  end.

Definition predecessors (g : WorkflowGraph) (id : string) : list WorkflowGraphNode :=
  match g_index_by_id g !! id with
  | None => []
  | Some index => nodes_at g (neighbors_directed g Incoming index)
  end.

(** The key of [sort_by] in [incoming_edges]: source, target, handle. *)
Definition edge_key (e : WorkflowGraphEdge) : string * (string * option string) :=
  (source e, (target e, source_handle e)).
Definition edge_cmp : WorkflowGraphEdge -> WorkflowGraphEdge -> comparison :=
  cmp_on edge_key (cmp_pair str_cmp (cmp_pair str_cmp (cmp_option str_cmp))).

Definition incoming_edges (g : WorkflowGraph) (id : string) : list WorkflowGraphEdge :=
  match g_index_by_id g !! id with
  | None => []
  | Some index =>
      merge_sort (cmp_le edge_cmp)
        (omap (fun e => n ← g_nodes g !! e_src e;
               Some {| source := gn_id n; target := id; source_handle := e_handle e |})
           (edges_directed g index Incoming))
  end.

(** The source is the same for all, so the key of [sort_by] is the target and the handle. *)
Definition outgoing_edges (g : WorkflowGraph) (id : string) : list WorkflowGraphEdge :=
  match g_index_by_id g !! id with
  | None => []
  | Some index =>
      (fun p : string * option string =>
         {| source := id; target := p.1; source_handle := p.2 |}) <$>
      merge_sort (cmp_le (cmp_pair str_cmp (cmp_option str_cmp)))
        (omap (fun e => n ← g_nodes g !! e_dst e; Some (gn_id n, e_handle e))
           (edges_directed g index Outgoing))
  end.

Definition reachable_from (g : WorkflowGraph) (seed : nat) (d : Direction) : gset nat :=
  push_loop (neighbors_directed g d) (S (node_count g)) [seed] ∅.

Definition transitive_successors (g : WorkflowGraph) (id : string) : list WorkflowGraphNode :=
  match g_index_by_id g !! id with
  | None => []
  | Some seed => order_by_topology g (reachable_from g seed Outgoing)
  end.

Definition transitive_predecessors (g : WorkflowGraph) (id : string) : list WorkflowGraphNode :=
  match g_index_by_id g !! id with
  | None => []
  | Some seed => order_by_topology g (reachable_from g seed Incoming)
  end.

Definition ready_set (g : WorkflowGraph) (completed : gset string) : list WorkflowGraphNode :=
  filter (fun n => bool_decide (gn_id n ∉ completed)
            && forallb (fun p => bool_decide (gn_id p ∈ completed)) (predecessors g (gn_id n)) = true)
    (g_nodes g).

Definition unreachable_from_start (g : WorkflowGraph) : list string :=
  match start_node g with
  | None => gn_id <$> g_nodes g
  | Some start =>
      let reachable := gn_id <$> transitive_successors g (gn_id start) in
      gn_id <$> filter (fun n => bool_decide (gn_id n <> gn_id start)
                          && negb (bool_decide (gn_id n ∈ reachable)) = true) (g_nodes g)
  end.

End queries.

(** ** The invariant of a parsed graph *)

Record graph_ok (g : WorkflowGraph) : Prop := {
  ok_index id i :
    g_index_by_id g !! id = Some i <-> exists n, g_nodes g !! i = Some n /\ gn_id n = id;
  ok_edges : edges_in_range (node_count g) (g_edges g);
  ok_rank : exists order, topological (node_count g) (g_edges g) order /\
    forall i r, g_topo_rank g !! i = Some r <-> order !! r = Some i;
}.

(** One edge between two nodes, by their ids. *)
Definition id_step (g : WorkflowGraph) (a b : string) : Prop :=
  exists e n m, e ∈ g_edges g /\ g_nodes g !! e_src e = Some n /\ g_nodes g !! e_dst e = Some m /\
    gn_id n = a /\ gn_id m = b.

Lemma edge_ord : Ord edge_cmp.
Proof.
  unfold edge_cmp. assert (Inj eq eq edge_key).
  { intros [] []. unfold edge_key. simpl. by intros [= -> -> ->]. }
  apply ord_on; [apply _|].
  apply ord_pair; [apply str_ord|]. apply ord_pair; [apply str_ord|]. apply ord_option, str_ord.
Qed.

Section graph_lemmas.
Context (g : WorkflowGraph) (Hg : graph_ok g).

Lemma node_Some id n : node g id = Some n <-> n ∈ g_nodes g /\ gn_id n = id.
Proof using Hg.
  unfold node. split.
  - intros (i & Hi & Hn)%bind_Some. apply (ok_index g Hg) in Hi as (n' & Hn' & <-).
    simplify_eq. split; [by eapply list_elem_of_lookup_2|done].
  - intros [(i & Hi)%list_elem_of_lookup <-].
    rewrite (proj2 (ok_index g Hg (gn_id n) i)) by eauto. done.
Qed.

Lemma node_id_inj n m : n ∈ g_nodes g -> m ∈ g_nodes g -> gn_id n = gn_id m -> n = m.
Proof using Hg.
  intros Hn Hm Heq.
  pose proof (proj2 (node_Some (gn_id n) n) (conj Hn eq_refl)) as H1.
  pose proof (proj2 (node_Some (gn_id n) m) (conj Hm (eq_sym Heq))) as H2. congruence.
Qed.

Lemma index_id_inj i j n m :
  g_nodes g !! i = Some n -> g_nodes g !! j = Some m -> gn_id n = gn_id m -> i = j.
Proof using Hg.
  intros Hi Hj Heq.
  assert (g_index_by_id g !! gn_id n = Some i) by (apply (ok_index g Hg); eauto).
  assert (g_index_by_id g !! gn_id n = Some j) by (apply (ok_index g Hg); eauto).
  congruence.
Qed.

Lemma ids_NoDup : NoDup (gn_id <$> g_nodes g).
Proof using Hg.
  apply NoDup_alt. intros i j x. rewrite !list_lookup_fmap.
  intros (n & Hn & ->)%fmap_Some (m & Hm & Heq)%fmap_Some. by eapply index_id_inj.
Qed.

Lemma edge_nodes e : e ∈ g_edges g ->
  is_Some (g_nodes g !! e_src e) /\ is_Some (g_nodes g !! e_dst e).
Proof using Hg.
  intros He. pose proof (ok_edges g Hg) as Hr. unfold edges_in_range, node_count in Hr.
  rewrite Forall_forall in Hr. apply Hr in He. by rewrite !lookup_lt_is_Some.
Qed.

Lemma id_step_index i j n m :
  g_nodes g !! i = Some n -> g_nodes g !! j = Some m ->
  (g_step (g_edges g) i j <-> id_step g (gn_id n) (gn_id m)).
Proof using Hg.
  intros Hi Hj. split.
  - intros (e & He & <- & <-). by exists e, n, m.
  - intros (e & n' & m' & He & Hn & Hm & Hn' & Hm').
    exists e. split_and!; [done|by eapply index_id_inj|by eapply index_id_inj].
Qed.

Lemma tc_id_step_index i j n m :
  g_nodes g !! i = Some n -> g_nodes g !! j = Some m ->
  (tc (g_step (g_edges g)) i j <-> tc (id_step g) (gn_id n) (gn_id m)).
Proof using Hg.
  intros Hi Hj. split.
  - intros Hc. revert n Hi. induction Hc as [a b Hab|a b c Hab _ IH]; intros n Hn.
    { apply tc_once. by eapply id_step_index. }
    destruct Hab as (e & He & <- & <-). destruct (edge_nodes e He) as [_ [p Hp]].
    apply tc_l with (gn_id p); [by exists e, n, p|by apply IH].
  - intros Hc. remember (gn_id n) as a eqn:Ha. remember (gn_id m) as b eqn:Hb.
    revert i n Hi Ha. induction Hc as [a b Hab|a b c Hab _ IH]; intros i n Hi ->; subst.
    { apply tc_once. by eapply id_step_index. }
    destruct Hab as (e & n' & p & He & Hn' & Hp & Hid & <-).
    assert (e_src e = i) as <- by (by eapply index_id_inj).
    apply tc_l with (e_dst e); [by exists e|by eapply IH].
Qed.

Lemma id_step_nodes a b : id_step g a b ->
  exists n m, n ∈ g_nodes g /\ m ∈ g_nodes g /\ gn_id n = a /\ gn_id m = b.
Proof using.
  intros (e & n & m & _ & Hn & Hm & <- & <-). exists n, m.
  split_and!; [by eapply list_elem_of_lookup_2..|done|done].
Qed.

Lemma id_acyclic a : ~ tc (id_step g) a a.
Proof using Hg.
  intros Hc. assert (exists n, n ∈ g_nodes g /\ gn_id n = a) as (n & (i & Hi)%list_elem_of_lookup & <-).
  { inversion Hc as [? ? Hs|? ? ? Hs]; subst; apply id_step_nodes in Hs as (n & m & ? & _ & ? & _); eauto. }
  apply (tc_id_step_index i i n n Hi Hi) in Hc.
  destruct (ok_rank g Hg) as (order & Ht & _). by eapply topological_acyclic.
Qed.

Lemma rank_lt i j : tc (g_step (g_edges g)) i j -> (rank g i < rank g j)%N.
Proof using Hg.
  intros Hc. destruct (ok_rank g Hg) as (order & Ht & Hr).
  destruct (topological_tc _ _ _ _ _ Ht Hc) as (a & b & Ha%Hr & Hb%Hr & Hlt).
  unfold rank. rewrite Ha, Hb. lia.
Qed.

Lemma rank_inj i j : i < node_count g -> j < node_count g -> rank g i = rank g j -> i = j.
Proof using Hg.
  intros Hi Hj. destruct (ok_rank g Hg) as (order & [Hp _] & Hr).
  assert (forall k, k < node_count g -> exists r, g_topo_rank g !! k = Some r) as Hin.
  { intros k Hk. assert (k ∈ order) as Hko by (rewrite Hp, elem_of_seq; lia).
    apply list_elem_of_lookup in Hko as [r Hkr]. exists r. by apply Hr. }
  destruct (Hin i Hi) as [r Hir], (Hin j Hj) as [s Hjs]. unfold rank. rewrite Hir, Hjs.
  intros Heq. assert (r = s) as -> by lia. apply Hr in Hir, Hjs. congruence.
Qed.

Lemma elem_of_nodes_at l n : n ∈ nodes_at g l <-> exists i, i ∈ l /\ g_nodes g !! i = Some n.
Proof using. unfold nodes_at. by rewrite list_elem_of_omap. Qed.
End graph_lemmas.

#[export] Instance rank_le_total g : Total (rank_le g).
Proof. intros i j. unfold rank_le. lia. Qed.
#[export] Instance rank_le_trans g : Transitive (rank_le g).
Proof. intros i j k. unfold rank_le. lia. Qed.

Lemma tc_flip_iff {A} (R : relation A) x y : tc (fun a b => R b a) x y <-> tc R y x.
Proof.
  split; (induction 1 as [a b Hab|a b c Hab _ IH]; [by apply tc_once|by eapply tc_r]).
Qed.

Lemma tc_subrel_iff {A} (R S : relation A) x y :
  (forall a b, R a b <-> S a b) -> tc R x y <-> tc S x y.
Proof.
  intros HRS. split; (induction 1 as [a b Hab|a b c Hab _ IH];
    [apply tc_once; by apply HRS|eapply tc_l; [by apply HRS|done]]).
Qed.

Lemma sorted_lookup {A} (R : relation A) `{!Transitive R} l i j x y :
  Sorted R l -> l !! i = Some x -> l !! j = Some y -> i < j -> R x y.
Proof.
  intros Hs%Sorted_StronglySorted; [|done]. revert i j.
  induction Hs as [|z l Hs IH Hz]; intros [|i] [|j]; simpl; try done; try lia.
  - intros [= <-] Hj _. rewrite Forall_forall in Hz. apply Hz. by eapply list_elem_of_lookup_2.
  - intros Hi Hj Hlt. eapply IH; [done..|lia].
Qed.

Lemma nodes_at_lookup g l a :
  (forall i, i ∈ l -> is_Some (g_nodes g !! i)) -> nodes_at g l !! a = l !! a ≫= (g_nodes g !!.).
Proof.
  unfold nodes_at. revert a. induction l as [|i l IH]; intros a Hl; [done|].
  destruct (Hl i ltac:(by left)) as [n Hn]. csimpl. rewrite Hn.
  destruct a as [|a]; simpl; [by rewrite Hn|]. apply IH. intros j Hj. apply Hl. by right.
Qed.

Section closures.
Context {pet : Petgraph} (g : WorkflowGraph) (Hg : graph_ok g).

Lemma elem_of_edges_directed i d e :
  e ∈ edges_directed g i d <->
  e ∈ g_edges g /\ match d with Outgoing => e_src e | Incoming => e_dst e end = i.
Proof using. unfold edges_directed. rewrite adjacency_perm, list_elem_of_filter. tauto. Qed.

Definition directed_step (d : Direction) (i j : nat) : Prop :=
  match d with Outgoing => g_step (g_edges g) i j | Incoming => g_step (g_edges g) j i end.

Lemma elem_of_neighbors d i j : j ∈ neighbors_directed g d i <-> directed_step d i j.
Proof using.
  unfold neighbors_directed. rewrite list_elem_of_fmap. setoid_rewrite elem_of_edges_directed.
  destruct d; unfold directed_step, g_step; naive_solver.
Qed.

Lemma g_step_range i j : g_step (g_edges g) i j -> i < node_count g /\ j < node_count g.
Proof using Hg.
  intros (e & He & <- & <-). pose proof (ok_edges g Hg) as Hr.
  unfold edges_in_range in Hr. rewrite Forall_forall in Hr. by apply Hr.
Qed.

Lemma reachable_from_spec seed d j :
  seed < node_count g -> j ∈ reachable_from g seed d <-> tc (directed_step d) seed j.
Proof using Hg.
  intros Hs. unfold reachable_from.
  rewrite (push_loop_reach _ (list_to_set (seq 0 (node_count g)))).
  - apply tc_subrel_iff. intros a b. unfold step. apply elem_of_neighbors.
  - intros x y _ Hy%elem_of_neighbors. apply elem_of_list_to_set, elem_of_seq.
    destruct d; apply g_step_range in Hy; lia.
  - apply elem_of_list_to_set, elem_of_seq. lia.
  - pose proof (size_list_to_set_le (seq 0 (node_count g))) as Hsz. rewrite length_seq in Hsz. lia.
Qed.

(** The index of a node, and back. *)
Lemma node_index n : n ∈ g_nodes g -> exists i, g_nodes g !! i = Some n /\ i < node_count g.
Proof using. intros [i Hi]%list_elem_of_lookup. exists i. split; [done|]. by eapply lookup_lt_Some. Qed.

Lemma elem_of_transitive_successors id n :
  n ∈ transitive_successors g id <-> n ∈ g_nodes g /\ tc (id_step g) id (gn_id n).
Proof using Hg.
  unfold transitive_successors, order_by_topology.
  destruct (g_index_by_id g !! id) as [seed|] eqn:Es.
  - apply (ok_index g Hg) in Es as (s & Hs & <-).
    rewrite elem_of_nodes_at. setoid_rewrite merge_sort_Permutation. setoid_rewrite elem_of_elements.
    pose proof (lookup_lt_Some _ _ _ Hs).
    setoid_rewrite reachable_from_spec; [|done]. unfold directed_step. split.
    + intros (i & Hi & Hn). split; [by eapply list_elem_of_lookup_2|].
      by eapply tc_id_step_index in Hi.
    + intros [(i & Hi)%list_elem_of_lookup Hc]. exists i. split; [|done].
      by eapply tc_id_step_index.
  - split; [by intros ?%elem_of_nil|]. intros [Hn Hc]. exfalso.
    assert (exists m, m ∈ g_nodes g /\ gn_id m = id) as (m & (i & Hi)%list_elem_of_lookup & Hm).
    { inversion Hc as [? ? Hx|? ? ? Hx]; subst; apply id_step_nodes in Hx as (a & b & ? & _ & ? & _); eauto. }
    rewrite (proj2 (ok_index g Hg id i)) in Es by eauto. done.
Qed.

Lemma elem_of_transitive_predecessors id n :
  n ∈ transitive_predecessors g id <-> n ∈ g_nodes g /\ tc (id_step g) (gn_id n) id.
Proof using Hg.
  unfold transitive_predecessors, order_by_topology.
  destruct (g_index_by_id g !! id) as [seed|] eqn:Es.
  - apply (ok_index g Hg) in Es as (s & Hs & <-).
    rewrite elem_of_nodes_at. setoid_rewrite merge_sort_Permutation. setoid_rewrite elem_of_elements.
    pose proof (lookup_lt_Some _ _ _ Hs).
    setoid_rewrite reachable_from_spec; [|done].
    setoid_rewrite (tc_flip_iff (g_step (g_edges g))). split.
    + intros (i & Hi & Hn). split; [by eapply list_elem_of_lookup_2|].
      by eapply tc_id_step_index in Hi.
    + intros [(i & Hi)%list_elem_of_lookup Hc]. exists i. split; [|done].
      by eapply tc_id_step_index.
  - split; [by intros ?%elem_of_nil|]. intros [Hn Hc]. exfalso.
    assert (exists m, m ∈ g_nodes g /\ gn_id m = id) as (m & (i & Hi)%list_elem_of_lookup & Hm).
    { apply tc_flip_iff in Hc.
      inversion Hc as [? ? Hx|? ? ? Hx]; subst; apply id_step_nodes in Hx as (a & b & _ & ? & _ & ?); eauto. }
    rewrite (proj2 (ok_index g Hg id i)) in Es by eauto. done.
Qed.

(** Sorting indices by rank puts upstream nodes first. *)
Lemma sorted_nodes_before (l : list nat) a b n m :
  (forall i, i ∈ l -> is_Some (g_nodes g !! i)) ->
  nodes_at g (merge_sort (rank_le g) l) !! a = Some n ->
  nodes_at g (merge_sort (rank_le g) l) !! b = Some m ->
  tc (id_step g) (gn_id n) (gn_id m) -> a < b.
Proof using Hg.
  intros Hl. assert (forall i, i ∈ merge_sort (rank_le g) l -> is_Some (g_nodes g !! i)) as Hl'.
  { intros i. rewrite merge_sort_Permutation. apply Hl. }
  rewrite !nodes_at_lookup by done.
  intros (i & Hi & Hn)%bind_Some (j & Hj & Hm)%bind_Some Hc.
  eapply tc_id_step_index in Hc; [|done..]. apply (rank_lt g Hg) in Hc.
  destruct (decide (a < b)) as [|Hge]; [done|]. exfalso.
  destruct (decide (a = b)) as [->|Hne]; [simplify_eq; lia|].
  pose proof (sorted_lookup (rank_le g) _ b a j i (Sorted_merge_sort _ l) Hj Hi ltac:(lia)) as Hle.
  unfold rank_le in Hle. lia.
Qed.

Lemma nodes_at_NoDup (l : list nat) :
  (forall i, i ∈ l -> is_Some (g_nodes g !! i)) -> NoDup l -> NoDup (gn_id <$> nodes_at g l).
Proof using Hg.
  intros Hl Hnd. apply NoDup_alt. intros a b x. rewrite !list_lookup_fmap, !nodes_at_lookup by done.
  intros (n & (i & Hi & Hn)%bind_Some & ->)%fmap_Some (m & (j & Hj & Hm)%bind_Some & Heq)%fmap_Some.
  assert (i = j) as -> by (by eapply index_id_inj). by eapply NoDup_lookup.
Qed.

Lemma elem_of_predecessors id n :
  n ∈ predecessors g id <-> n ∈ g_nodes g /\ id_step g (gn_id n) id.
Proof using Hg.
  unfold predecessors. destruct (g_index_by_id g !! id) as [i|] eqn:Ei.
  - apply (ok_index g Hg) in Ei as (m & Hm & <-). rewrite elem_of_nodes_at.
    setoid_rewrite elem_of_neighbors. simpl. split.
    + intros (j & Hj & Hn). split; [by eapply list_elem_of_lookup_2|]. by eapply id_step_index in Hj.
    + intros [(j & Hj)%list_elem_of_lookup Hs]. exists j. split; [|done]. by eapply id_step_index.
  - split; [by intros ?%elem_of_nil|]. intros [_ (e & a & b & He & Ha & Hb & _ & Hid)]. exfalso.
    rewrite (proj2 (ok_index g Hg id (e_dst e))) in Ei by eauto. done.
Qed.

Lemma elem_of_successors id n :
  n ∈ successors g id <-> n ∈ g_nodes g /\ id_step g id (gn_id n).
Proof using Hg.
  unfold successors. destruct (g_index_by_id g !! id) as [i|] eqn:Ei.
  - apply (ok_index g Hg) in Ei as (m & Hi & <-). rewrite elem_of_nodes_at.
    setoid_rewrite elem_of_neighbors. unfold directed_step. split.
    + intros (j & Hj & Hn). split; [by eapply list_elem_of_lookup_2|]. by eapply id_step_index.
    + intros [(j & Hj)%list_elem_of_lookup Hc]. exists j. split; [|done]. by eapply id_step_index.
  - split; [by intros ?%elem_of_nil|]. intros [_ (m & _ & (i & Hi)%list_elem_of_lookup & _ & Hm & _)%id_step_nodes].
    rewrite (proj2 (ok_index g Hg id i)) in Ei by eauto. done.
Qed.

Lemma elem_of_incoming_edges id e :
  e ∈ incoming_edges g id <->
  exists ge n, ge ∈ g_edges g /\ g_nodes g !! e_src ge = Some n /\
    (exists m, g_nodes g !! e_dst ge = Some m /\ gn_id m = id) /\
    e = {| source := gn_id n; target := id; source_handle := e_handle ge |}.
Proof using Hg.
  unfold incoming_edges. destruct (g_index_by_id g !! id) as [i|] eqn:Ei.
  - apply (ok_index g Hg) in Ei as (m & Hm & <-). rewrite merge_sort_Permutation, list_elem_of_omap.
    setoid_rewrite elem_of_edges_directed. split.
    + intros (ge & [Hge <-] & (n & Hn & [= <-])%bind_Some). exists ge, n. do 2 (split; [done|]). split; [by exists m|done].
    + intros (ge & n & Hge & Hn & (m' & Hm' & Hid) & ->). exists ge. split.
      * split; [done|]. by eapply index_id_inj.
      * by rewrite Hn.
  - split; [by intros ?%elem_of_nil|]. intros (ge & n & _ & _ & (m & Hm & Hid) & _). exfalso.
    rewrite (proj2 (ok_index g Hg id (e_dst ge))) in Ei by eauto. done.
Qed.

Lemma incoming_edges_step id e : e ∈ incoming_edges g id -> id_step g (source e) id /\ target e = id.
Proof using Hg.
  intros (ge & n & Hge & Hn & (m & Hm & <-) & ->)%elem_of_incoming_edges. split; [|done].
  by exists ge, n, m.
Qed.

Lemma id_step_incoming a id : id_step g a id -> exists e, e ∈ incoming_edges g id /\ source e = a.
Proof using Hg.
  intros (ge & n & m & Hge & Hn & Hm & <- & <-).
  exists {| source := gn_id n; target := gn_id m; source_handle := e_handle ge |}.
  split; [|done]. apply elem_of_incoming_edges. eauto 10.
Qed.

(** Well-founded induction along the edges of the graph. *)
Lemma id_step_wf (P : string -> Prop) :
  (forall b, (forall a, id_step g a b -> P a) -> P b) -> forall b, P b.
Proof using Hg.
  intros HP b.
  assert (sn (fun y x => id_step g x y) b) as Hsn.
  { apply tc_finite_sn.
    - intros x Hx%tc_flip_iff. by eapply id_acyclic.
    - exists (gn_id <$> g_nodes g). intros x Hx%tc_flip_iff.
      assert (exists n, n ∈ g_nodes g /\ gn_id n = x) as (n & Hn & <-).
      { inversion Hx as [? ? Hs|? ? ? Hs]; subst; apply id_step_nodes in Hs as (n & _ & ? & _ & ? & _); eauto. }
      apply list_elem_of_fmap. eauto. }
  induction Hsn as [b _ IH]. apply HP. intros a Ha. by apply IH.
Qed.
End closures.

(** ** Assembling a graph

    [index_by_id] and [topo_rank] as the parser collects them from the nodes and from the
    order [toposort] returned. *)

Definition index_nodes (nodes : list WorkflowGraphNode) : gmap string nat :=
  list_to_map (imap (fun i n => (gn_id n, i)) nodes).
Definition rank_of_order (order : list nat) : gmap nat nat :=
  list_to_map (imap (fun r i => (i, r)) order).

Definition assemble (nodes : list WorkflowGraphNode) (edges : list GEdge) (order : list nat)
    (globals : list WorkflowGlobalVariable) : WorkflowGraph :=
  {| g_nodes := nodes; g_edges := edges; g_index_by_id := index_nodes nodes;
     g_topo_rank := rank_of_order order; g_global_variables := globals; g_loops := [];
     g_regions := ∅; g_region_by_member := ∅ |}.

Lemma imap_fst {A B} (f : A -> B) (l : list A) :
  (imap (fun i x => (f x, i)) l).*1 = f <$> l.
Proof.
  apply list_eq. intros i. rewrite !list_lookup_fmap, list_lookup_imap. by destruct (l !! i).
Qed.

Lemma lookup_enumerate `{Countable B} {A} (f : A -> B) (l : list A) b i :
  NoDup (f <$> l) ->
  (list_to_map (imap (fun i x => (f x, i)) l) : gmap B nat) !! b = Some i <->
  exists x, l !! i = Some x /\ f x = b.
Proof.
  intros Hnd. rewrite <-elem_of_list_to_map by (by rewrite imap_fst).
  rewrite list_elem_of_lookup. setoid_rewrite list_lookup_imap. split.
  - intros (j & (x & Hx & Heq)%fmap_Some). simplify_eq. eauto.
  - intros (x & Hx & <-). exists i. by rewrite Hx.
Qed.

Lemma assemble_ok nodes edges order globals :
  NoDup (gn_id <$> nodes) -> edges_in_range (length nodes) edges ->
  topological (length nodes) edges order -> graph_ok (assemble nodes edges order globals).
Proof.
  intros Hids Hedges Htopo. split; simpl; [|done|].
  - intros id i. by apply lookup_enumerate.
  - exists order. split; [done|]. intros i r. unfold rank_of_order.
    etransitivity; [apply (lookup_enumerate (fun x => x))|naive_solver].
    rewrite list_fmap_id, (proj1 Htopo). apply NoDup_seq.
Qed.

(** ** Properties *)

Section properties.
Context {pet : Petgraph}.

(** The transitive closures are exactly the nodes reachable by at least one edge, downstream
    or upstream: the worklist loop terminates within its bound, the node itself is never in its
    closure, no node is listed twice, and upstream nodes come first. *)
Theorem transitive_closures g id :
  graph_ok g ->
  (forall n, n ∈ transitive_successors g id <-> n ∈ g_nodes g /\ tc (id_step g) id (gn_id n)) /\
  (forall n, n ∈ transitive_predecessors g id <-> n ∈ g_nodes g /\ tc (id_step g) (gn_id n) id) /\
  id ∉ (gn_id <$> transitive_successors g id) /\ id ∉ (gn_id <$> transitive_predecessors g id) /\
  forall l, l = transitive_successors g id \/ l = transitive_predecessors g id ->
    NoDup (gn_id <$> l) /\
    forall a b n m, l !! a = Some n -> l !! b = Some m ->
      tc (id_step g) (gn_id n) (gn_id m) -> a < b.
Proof.
  intros Hg. split; [|split; [|split; [|split]]].
  - intros n. by apply elem_of_transitive_successors.
  - intros n. by apply elem_of_transitive_predecessors.
  - intros (n & -> & Hn)%list_elem_of_fmap. apply elem_of_transitive_successors in Hn as [_ Hn]; [|done].
    by eapply id_acyclic.
  - intros (n & -> & Hn)%list_elem_of_fmap. apply elem_of_transitive_predecessors in Hn as [_ Hn]; [|done].
    by eapply id_acyclic.
  - intros l Hl.
    assert (forall seed d i, seed < node_count g -> i ∈ elements (reachable_from g seed d) ->
      is_Some (g_nodes g !! i)) as Hvalid.
    { intros seed d i Hs Hi. rewrite elem_of_elements, reachable_from_spec in Hi by done.
      apply lookup_lt_is_Some_2.
      assert (tc (fun a b => directed_step g d b a) i seed) as Hi' by (by apply tc_flip_iff).
      enough (i < node_count g) by done.
      inversion Hi' as [? ? Hx|? ? ? Hx]; subst; destruct d; apply g_step_range in Hx; (done || lia). }
    assert (exists idx, l = nodes_at g (merge_sort (rank_le g) idx) /\ NoDup idx /\
      forall i, i ∈ idx -> is_Some (g_nodes g !! i)) as (idx & -> & Hnd & Hidx).
    { unfold transitive_successors, transitive_predecessors, order_by_topology in Hl.
      destruct (g_index_by_id g !! id) as [seed|] eqn:Es.
      - apply (ok_index g Hg) in Es as (s & Hs%lookup_lt_Some & _).
        destruct Hl as [->| ->]; eexists; (split; [done|]); (split; [apply NoDup_elements|]);
          intros i; by apply Hvalid.
      - exists []. destruct Hl as [->| ->]; split_and!; try done; [constructor|set_solver|constructor|set_solver]. }
    split.
    + apply nodes_at_NoDup; [done| |by rewrite merge_sort_Permutation].
      intros i. rewrite merge_sort_Permutation. apply Hidx.
    + intros a b n m. by apply sorted_nodes_before.
Qed.

(** The topological order lists every node once, and every node after all the nodes it
    depends on, directly or not. *)
Theorem topological_order_sound g :
  graph_ok g ->
  nodes_in_topological_order g ≡ₚ g_nodes g /\
  forall a b n m, nodes_in_topological_order g !! a = Some n ->
    nodes_in_topological_order g !! b = Some m -> tc (id_step g) (gn_id n) (gn_id m) -> a < b.
Proof.
  intros Hg. unfold nodes_in_topological_order, node_count.
  assert (forall i, i ∈ seq 0 (length (g_nodes g)) -> is_Some (g_nodes g !! i)) as Hv.
  { intros i [_ Hi]%elem_of_seq. by apply lookup_lt_is_Some. }
  split; [|intros a b n m; by apply sorted_nodes_before].
  unfold nodes_at. rewrite merge_sort_Permutation.
  assert (nodes_at g (seq 0 (length (g_nodes g))) = g_nodes g) as Heq;
    [|by unfold nodes_at in Heq; rewrite Heq].
  apply list_eq. intros a. rewrite nodes_at_lookup by done. destruct (decide (a < length (g_nodes g))).
  - by rewrite lookup_seq_lt by done.
  - rewrite lookup_seq_ge, lookup_ge_None_2 by lia. done.
Qed.

(** A node is ready exactly when it is not completed and all its direct predecessors are; and
    the schedule cannot get stuck: as long as some node is not completed, some node is ready. *)
Theorem ready_set_progress g completed :
  graph_ok g ->
  (forall n, n ∈ ready_set g completed <->
     n ∈ g_nodes g /\ gn_id n ∉ completed /\
     forall a, id_step g a (gn_id n) -> a ∈ completed) /\
  ((exists n, n ∈ g_nodes g /\ gn_id n ∉ completed) -> ready_set g completed <> []).
Proof.
  intros Hg.
  assert (forall n, n ∈ ready_set g completed <->
     n ∈ g_nodes g /\ gn_id n ∉ completed /\
     forall a, id_step g a (gn_id n) -> a ∈ completed) as Hspec.
  { intros n. unfold ready_set. rewrite list_elem_of_filter, andb_true_iff, bool_decide_eq_true,
      forallb_True, Forall_forall. split.
    - intros [[Hn Hp] Hin]. split_and!; [done|done|]. intros a Ha.
      destruct (id_step_nodes _ _ _ Ha) as (m & _ & Hm & _ & <- & _).
      specialize (Hp m). rewrite elem_of_predecessors, bool_decide_eq_true in Hp by done. by apply Hp.
    - intros (Hin & Hn & Hp). split_and!; [done| |done]. intros m [_ Hm]%elem_of_predecessors; [|done].
      by apply bool_decide_eq_true, Hp. }
  split; [done|]. intros (n0 & Hn0 & Hnot) Hempty.
  assert (forall b, b ∈ (gn_id <$> g_nodes g) -> b ∈ completed) as Hall.
  { apply (id_step_wf g Hg (fun b => b ∈ (gn_id <$> g_nodes g) -> b ∈ completed)).
    intros b IH (n & -> & Hn)%list_elem_of_fmap.
    destruct (decide (gn_id n ∈ completed)) as [|Hnc]; [done|].
    assert (n ∈ ready_set g completed) as Hr; [|rewrite Hempty in Hr; by apply elem_of_nil in Hr].
    apply Hspec. split_and!; [done|done|]. intros a Ha. apply IH; [done|].
    destruct (id_step_nodes _ _ _ Ha) as (m & _ & Hm & _ & <- & _). apply list_elem_of_fmap. eauto. }
  apply Hnot, Hall, list_elem_of_fmap. eauto.
Qed.
End properties.

(** The edges into and out of a node are listed in an order that does not depend on how the
    graph library stores them: any two adjacency orders give the same lists. *)
Theorem edge_lists_deterministic (p1 p2 : Petgraph) g id :
  incoming_edges (pet:=p1) g id = incoming_edges (pet:=p2) g id /\
  outgoing_edges (pet:=p1) g id = outgoing_edges (pet:=p2) g id.
Proof.
  unfold incoming_edges, outgoing_edges. destruct (g_index_by_id g !! id) as [i|]; [|done].
  split.
  - apply sort_perm_eq; [apply edge_ord|]. apply omap_Permutation.
    unfold edges_directed. by rewrite !adjacency_perm.
  - f_equal. apply sort_perm_eq; [apply ord_pair; [apply str_ord|apply ord_option, str_ord]|].
    apply omap_Permutation. unfold edges_directed. by rewrite !adjacency_perm.
Qed.

(** ** Witnesses *)

Definition sample_graph : WorkflowGraph :=
  assemble [plain_node "s" Start; plain_node "o" Output; plain_node "a" Agent; plain_node "b" Agent]
    [{| e_src := 0; e_dst := 2; e_handle := None |}; {| e_src := 0; e_dst := 3; e_handle := None |};
     {| e_src := 2; e_dst := 1; e_handle := None |}; {| e_src := 3; e_dst := 1; e_handle := None |}]
    [0; 2; 3; 1] [].

Lemma sample_graph_ok : graph_ok sample_graph.
Proof.
  apply assemble_ok.
  - by apply (bool_decide_unpack _).
  - repeat constructor; simpl; lia.
  - apply (toposort_Some (Petgraph:=kahn_petgraph)); [repeat constructor; simpl; lia|].
    vm_compute. reflexivity.
Qed.

Lemma transitive_closures_witness :
  gn_id <$> transitive_successors (pet:=kahn_petgraph) sample_graph "s" = ["a"; "b"; "o"] /\
  "s" ∉ (gn_id <$> transitive_successors (pet:=kahn_petgraph) sample_graph "s").
Proof.
  split; [vm_compute; reflexivity|].
  exact (proj1 (proj2 (proj2 (transitive_closures (pet:=kahn_petgraph) _ "s" sample_graph_ok)))).
Defined.

Lemma topological_order_sound_witness :
  gn_id <$> nodes_in_topological_order sample_graph = ["s"; "a"; "b"; "o"] /\
  nodes_in_topological_order sample_graph ≡ₚ g_nodes sample_graph.
Proof.
  split; [vm_compute; reflexivity|]. exact (proj1 (topological_order_sound _ sample_graph_ok)).
Defined.

Lemma ready_set_progress_witness :
  gn_id <$> ready_set (pet:=kahn_petgraph) sample_graph {["s"]} = ["a"; "b"] /\
  ready_set (pet:=kahn_petgraph) sample_graph {["s"]} <> [].
Proof.
  split; [vm_compute; reflexivity|].
  apply (proj2 (ready_set_progress (pet:=kahn_petgraph) _ {["s"]} sample_graph_ok)).
  exists (plain_node "o" Output). split; [by right; left | by apply (bool_decide_unpack _)].
Defined.
