(* ===== verification/Projection.v ===== *)
(** * Branch projection ([engine/branch_projection.rs])

    The scheduling state of every node, recomputed from the frozen graph, the persisted node
    rows and the branch decisions.  The fixpoint loop runs on fuel, one pass more than the
    graph has nodes; [settles] is the declarative meaning of the projection. *)

From stdpp Require Import relations fin_sets fin_maps.
From S2P Require Import Prelude RustStr Order NodeTypes Condition GraphBase Iteration.
From S2P Require Import Graph.

Inductive ProjectedNodeState : Type :=
| NotReached | PInactive | Ready | PRunning | AwaitingInput | PSucceeded | PFailed | PCancelled.

#[export] Instance ProjectedNodeState_eq_dec : EqDecision ProjectedNodeState.
Proof. solve_decision. Defined.

Inductive EdgeState : Type := EdgePending | EdgeActive | EdgeInactive | EdgeFailed.

#[export] Instance EdgeState_eq_dec : EqDecision EdgeState.
Proof. solve_decision. Defined.

Inductive ProjectionScope : Type :=
| Outer
| Region (owner_id : string) (members : CompositeRegion).

Definition seed_state (s : WorkflowNodeStatus) : ProjectedNodeState :=
  match s with
  | Succeeded => PSucceeded | Failed => PFailed | Cancelled => PCancelled
  | Running => PRunning | Pending => AwaitingInput
  end.

Notation States := (gmap string ProjectedNodeState).
Notation Decisions := (gmap string string).

(** Rows are inserted in order: the last row of a node wins. *)
Definition seed_states (rows : list WorkflowNodeRun) : States :=
  fold_left (fun states row => <[nr_node_id row := seed_state (nr_status row)]> states) rows ∅.

(** [condition_edge_active] *)
Definition condition_edge_active (condition_id : string) (edge : WorkflowGraphEdge)
    (decisions : Decisions) : bool :=
  match decisions !! condition_id with
  | None => false
  | Some selected =>
      match source_handle edge with
      | None => bool_decide (selected = ELSE_BRANCH_ID)
      | Some handle => bool_decide (handle = selected)
      end
  end.

Section projection.
Context {pet : Petgraph}.
Context (g : WorkflowGraph) (decisions : Decisions) (scope : ProjectionScope).

Definition in_scope (node_id : string) : bool :=
  match scope with
  | Outer => bool_decide (region_owner g node_id = None)
  | Region _ members => region_contains members node_id
  end.

(** The edge comes from the owner of the region being run. *)
Definition owner_edge (edge : WorkflowGraphEdge) : bool :=
  match scope with Region owner _ => bool_decide (source edge = owner) | Outer => false end.

(** The resolution of an edge by the state of its source. *)
Definition edge_outcome (edge : WorkflowGraphEdge) (st : ProjectedNodeState) : EdgeState :=
  match st with
  | PSucceeded =>
      match node g (source edge) with
      | None => EdgePending
      | Some src =>
          if bool_decide (gn_type src = NodeTypes.Condition) then
            if condition_edge_active (gn_id src) edge decisions then EdgeActive else EdgeInactive
          else EdgeActive
      end
  | PInactive | PCancelled => EdgeInactive
  | PFailed => EdgeFailed
  | _ => EdgePending
  end.

Definition edge_state (states : States) (edge : WorkflowGraphEdge) : EdgeState :=
  if owner_edge edge then EdgeActive
  else match states !! source edge with
       | Some st => edge_outcome edge st
       | None => EdgePending
       end.

(** The loop over the incoming edges: the first pending or failed edge returns. *)
Fixpoint fold_edges (states : States) (any_active : bool) (edges : list WorkflowGraphEdge) :
    ProjectedNodeState :=
  match edges with
  | [] => if any_active then Ready else PInactive
  | edge :: edges =>
      match edge_state states edge with
      | EdgePending => NotReached
      | EdgeFailed => PFailed
      | EdgeActive => fold_edges states true edges
      | EdgeInactive => fold_edges states any_active edges
      end
  end.

Definition compute_projected_state (states : States) (node_id : string) : ProjectedNodeState :=
  match incoming_edges g node_id with
  | [] =>
      if bool_decide (gn_id <$> start_node g = Some node_id) then Ready else PInactive
  | edges => fold_edges states false edges
  end.

(** One node of a pass: states gathered so far and whether anything changed. *)
Definition resolve_node (acc : States * bool) (n : WorkflowGraphNode) : States * bool :=
  if negb (in_scope (gn_id n)) || bool_decide (is_Some (acc.1 !! gn_id n)) then acc
  else
    match compute_projected_state acc.1 (gn_id n) with
    | (Ready | PInactive) as computed => (<[gn_id n := computed]> acc.1, true)
    | _ => acc
    end.

Definition pass (states : States) : States * bool :=
  fold_left resolve_node (g_nodes g) (states, false).

Fixpoint resolve_loop (fuel : nat) (states : States) : States :=
  match fuel with
  | 0 => states
  | S fuel =>
      let acc := pass states in
      if acc.2 then resolve_loop fuel acc.1 else acc.1
  end.

Definition resolve_projected_nodes (states : States) : States :=
  resolve_loop (S (node_count g)) states.

Definition state_of (states : States) (node_id : string) : ProjectedNodeState :=
  default NotReached (states !! node_id).

Definition ready_nodes (states : States) : list WorkflowGraphNode :=
  filter (fun n => in_scope (gn_id n) && bool_decide (state_of states (gn_id n) = Ready) = true)
    (g_nodes g).

Definition has_in_flight (states : States) : bool :=
  existsb (fun p : string * ProjectedNodeState =>
    match p.2 with PRunning | AwaitingInput => true | _ => false end) (map_to_list states).

(** ** What a projection means *)

(** A node settles: a persisted row fixes its state, or all its incoming edges are resolved by
    settled sources. *)
Inductive settles (seeds : States) : string -> ProjectedNodeState -> Prop :=
| settles_seed id st : seeds !! id = Some st -> settles seeds id st
| settles_entry id st n :
    seeds !! id = None -> n ∈ g_nodes g -> gn_id n = id -> in_scope id = true ->
    incoming_edges g id = [] -> compute_projected_state ∅ id = st -> settles seeds id st
| settles_edges id (active : WorkflowGraphEdge -> bool) n :
    seeds !! id = None -> n ∈ g_nodes g -> gn_id n = id -> in_scope id = true ->
    incoming_edges g id <> [] ->
    (forall e, e ∈ incoming_edges g id ->
       (owner_edge e = true /\ active e = true) \/
       (owner_edge e = false /\ exists st, settles seeds (source e) st /\
          edge_outcome e st = if active e then EdgeActive else EdgeInactive)) ->
    settles seeds id (if existsb active (incoming_edges g id) then Ready else PInactive).

(** ** Lemmas *)

Definition is_active (states : States) (e : WorkflowGraphEdge) : bool :=
  bool_decide (edge_state states e = EdgeActive).

Lemma fold_edges_result states b edges :
  ((forall e, e ∈ edges ->
      edge_state states e = if is_active states e then EdgeActive else EdgeInactive) /\
   fold_edges states b edges = if b || existsb (is_active states) edges then Ready else PInactive) \/
  fold_edges states b edges = NotReached \/ fold_edges states b edges = PFailed.
Proof using.
  revert b. induction edges as [|e edges IH]; intros b; simpl.
  { left. rewrite orb_false_r. split; [set_solver|done]. }
  assert (is_active states e = bool_decide (edge_state states e = EdgeActive)) as Ha by done.
  destruct (edge_state states e) eqn:Ee; rewrite Ha; simpl.
  - right. by left.
  - destruct (IH true) as [[Hact ->]|Hbad]; [left|by right]. rewrite orb_true_r. split; [|done].
    intros x [->|Hx]%elem_of_cons; [by rewrite Ha|by apply Hact].
  - destruct (IH b) as [[Hact ->]|Hbad]; [left|by right]. split; [|done].
    intros x [->|Hx]%elem_of_cons; [by rewrite Ha|by apply Hact].
  - right. by right.
Qed.

Lemma fold_edges_active states b edges (active : WorkflowGraphEdge -> bool) :
  (forall e, e ∈ edges -> edge_state states e = if active e then EdgeActive else EdgeInactive) ->
  fold_edges states b edges = if b || existsb active edges then Ready else PInactive.
Proof using.
  revert b. induction edges as [|e edges IH]; intros b Hact; simpl; [by rewrite orb_false_r|].
  rewrite (Hact e ltac:(by left)).
  assert (forall x, x ∈ edges -> edge_state states x = if active x then EdgeActive else EdgeInactive)
    as Hact' by (intros; apply Hact; by right).
  destruct (active e); rewrite IH by done; simpl; by rewrite ?orb_true_r.
Qed.

(** Growing the states never changes an edge that was resolved. *)
Lemma edge_state_mono states states' e :
  states ⊆ states' -> edge_state states e <> EdgePending -> edge_state states' e = edge_state states e.
Proof using.
  intros Hsub. unfold edge_state. destruct (owner_edge e); [done|].
  destruct (states !! source e) as [st|] eqn:E; [|done]. by rewrite (lookup_weaken _ _ _ _ E Hsub).
Qed.

Lemma compute_entry states id :
  incoming_edges g id = [] -> compute_projected_state states id = compute_projected_state ∅ id.
Proof using. intros He. unfold compute_projected_state. by rewrite He. Qed.

Lemma compute_edges states id :
  incoming_edges g id <> [] ->
  compute_projected_state states id = fold_edges states false (incoming_edges g id).
Proof using. intros He. unfold compute_projected_state. by destruct (incoming_edges g id). Qed.

Definition derived (st : ProjectedNodeState) : bool :=
  match st with Ready | PInactive => true | _ => false end.

(** The loop invariant: seeds are kept and everything else settles. *)
Definition sound (seeds states : States) : Prop :=
  seeds ⊆ states /\ forall id st, states !! id = Some st -> settles seeds id st.

Lemma settles_compute seeds states n :
  sound seeds states -> n ∈ g_nodes g -> in_scope (gn_id n) = true -> states !! gn_id n = None ->
  derived (compute_projected_state states (gn_id n)) = true ->
  settles seeds (gn_id n) (compute_projected_state states (gn_id n)).
Proof using.
  intros [Hsub Hset] Hn Hsc Hnone Hd.
  assert (seeds !! gn_id n = None) as Hseed.
  { destruct (seeds !! gn_id n) eqn:E; [|done]. rewrite (lookup_weaken _ _ _ _ E Hsub) in Hnone. done. }
  destruct (decide (incoming_edges g (gn_id n) = [])) as [He|He].
  { rewrite compute_entry by done. by eapply settles_entry. }
  rewrite compute_edges in * by done.
  destruct (fold_edges_result states false (incoming_edges g (gn_id n)))
    as [[Hact ->]|[Hf|Hf]]; [|by rewrite Hf in Hd..].
  apply (settles_edges seeds (gn_id n) (is_active states) n); try done.
  intros e Hin. specialize (Hact e Hin). unfold edge_state in Hact.
  destruct (owner_edge e); [left; by destruct (is_active states e)|]. right. split; [done|].
  destruct (states !! source e) as [st|] eqn:Es; [|by destruct (is_active states e)].
  exists st. split; [by apply Hset|done].
Qed.

Lemma resolve_node_sound seeds acc n :
  n ∈ g_nodes g -> sound seeds acc.1 ->
  sound seeds (resolve_node acc n).1 /\ acc.1 ⊆ (resolve_node acc n).1.
Proof using.
  intros Hn Hs. unfold resolve_node.
  destruct (negb (in_scope (gn_id n)) || bool_decide (is_Some (acc.1 !! gn_id n))) eqn:E; [done|].
  apply orb_false_iff in E as [Hsc%negb_false_iff Hno%bool_decide_eq_false].
  apply eq_None_not_Some in Hno.
  assert (forall st, compute_projected_state acc.1 (gn_id n) = st -> derived st = true ->
    sound seeds (<[gn_id n := st]> acc.1) /\ acc.1 ⊆ <[gn_id n := st]> acc.1) as Hins.
  { intros st Hst Hd. split; [|by apply insert_subseteq]. split.
    - etransitivity; [apply Hs|]. by apply insert_subseteq.
    - intros id st' [[<- <-]|[_ Hid]]%lookup_insert_Some; [|by apply Hs].
      rewrite <-Hst in *. by apply settles_compute. }
  destruct (compute_projected_state acc.1 (gn_id n)); try done; by apply Hins.
Qed.

Lemma pass_sound seeds states :
  sound seeds states -> sound seeds (pass states).1 /\ states ⊆ (pass states).1.
Proof using.
  unfold pass. intros Hs.
  assert (forall l acc, (forall n, n ∈ l -> n ∈ g_nodes g) -> sound seeds acc.1 ->
    sound seeds (fold_left resolve_node l acc).1 /\ acc.1 ⊆ (fold_left resolve_node l acc).1) as Hl.
  { induction l as [|n l IH]; intros acc Hin Hacc; simpl; [done|].
    destruct (resolve_node_sound seeds acc n) as [H1 H2]; [apply Hin; by left|done|].
    destruct (IH (resolve_node acc n)) as [H3 H4]; [intros; apply Hin; by right|done|].
    split; [done|by etransitivity]. }
  by apply (Hl (g_nodes g) (states, false)).
Qed.

(** A pass that changes nothing leaves only nodes whose edges are not all resolved. *)
Lemma pass_unchanged states :
  (pass states).2 = false ->
  (pass states).1 = states /\
  forall n, n ∈ g_nodes g -> in_scope (gn_id n) = true -> states !! gn_id n = None ->
    derived (compute_projected_state states (gn_id n)) = false.
Proof using.
  unfold pass.
  assert (forall l acc, (fold_left resolve_node l acc).2 = false -> acc.2 = false) as Hmono.
  { induction l as [|n l IH]; intros acc; simpl; [done|]. intros H%IH. revert H. unfold resolve_node.
    destruct (negb _ || _); [done|]. by destruct (compute_projected_state _ _). }
  assert (forall l acc, (fold_left resolve_node l acc).2 = false ->
    fold_left resolve_node l acc = acc /\
    forall n, n ∈ l -> in_scope (gn_id n) = true -> acc.1 !! gn_id n = None ->
      derived (compute_projected_state acc.1 (gn_id n)) = false) as Hl.
  { induction l as [|n l IH]; intros acc Hf; simpl in *; [split; [done|set_solver]|].
    pose proof (Hmono _ _ Hf) as Hn.
    assert (resolve_node acc n = acc /\ (in_scope (gn_id n) = true -> acc.1 !! gn_id n = None ->
      derived (compute_projected_state acc.1 (gn_id n)) = false)) as [Heq Hd].
    { revert Hn. unfold resolve_node.
      destruct (in_scope (gn_id n)); simpl; [|done]. case_bool_decide as Hs.
      - intros _. split; [done|]. intros _ Hx. rewrite Hx in Hs. by destruct Hs.
      - by destruct (compute_projected_state acc.1 (gn_id n)). }
    rewrite Heq in *. destruct (IH acc Hf) as [-> Hall]. split; [done|].
    intros m [->|Hm]%elem_of_cons; [done|by apply Hall]. }
  intros Hf. destruct (Hl _ _ Hf) as [-> Hall]. split; [done|]. apply Hall.
Qed.

(** A pass that changes something resolves at least one more node. *)
Definition unresolved (states : States) : list WorkflowGraphNode :=
  filter (fun n => states !! gn_id n = None) (g_nodes g).

Lemma unresolved_mono states states' :
  states ⊆ states' -> length (unresolved states') <= length (unresolved states).
Proof using.
  intros Hsub. unfold unresolved. induction (g_nodes g) as [|n l IH]; [done|].
  rewrite !filter_cons. destruct (decide (states' !! gn_id n = None)) as [H'|H'].
  - rewrite decide_True; [simpl; lia|]. destruct (states !! gn_id n) eqn:E; [|done].
    by rewrite (lookup_weaken _ _ _ _ E Hsub) in H'.
  - case_decide; simpl; lia.
Qed.

Lemma unresolved_insert states n st :
  n ∈ g_nodes g -> states !! gn_id n = None ->
  length (unresolved (<[gn_id n := st]> states)) < length (unresolved states).
Proof using.
  intros Hn Hnone. unfold unresolved. induction Hn as [n l|n m l Hn IH].
  - rewrite filter_cons_False by (by rewrite lookup_insert_eq). rewrite filter_cons_True by done.
    simpl. apply Nat.lt_succ_r.
    clear. induction l as [|m l IH]; [done|]. rewrite !filter_cons.
    destruct (decide (gn_id n = gn_id m)) as [Heq|Hne].
    + rewrite <-Heq, lookup_insert_eq. rewrite decide_False by done. case_decide; simpl; lia.
    + rewrite lookup_insert_ne by done. case_decide; simpl; lia.
  - rewrite !filter_cons. destruct (decide (gn_id n = gn_id m)) as [Heq|Hne].
    + rewrite <-Heq, lookup_insert_eq. rewrite decide_False by done.
      rewrite decide_True by done. simpl. specialize (IH Hnone). lia.
    + rewrite lookup_insert_ne by done. specialize (IH Hnone). case_decide; simpl; lia.
Qed.

Lemma pass_progress states :
  (pass states).2 = true -> length (unresolved (pass states).1) < length (unresolved states).
Proof using.
  unfold pass.
  assert (forall l acc, (forall n, n ∈ l -> n ∈ g_nodes g) ->
    length (unresolved (fold_left resolve_node l acc).1) <= length (unresolved acc.1) /\
    (acc.2 = false -> (fold_left resolve_node l acc).2 = true ->
       length (unresolved (fold_left resolve_node l acc).1) < length (unresolved acc.1))) as Hl.
  { induction l as [|n l IH]; intros acc Hin; simpl; [split; [done|congruence]|].
    destruct (IH (resolve_node acc n)) as [Hle Hlt]; [intros; apply Hin; by right|].
    assert (resolve_node acc n = acc \/
      ((resolve_node acc n).2 = true /\
       length (unresolved (resolve_node acc n).1) < length (unresolved acc.1))) as [Heq|[H2 H3]].
    { unfold resolve_node. destruct (negb (in_scope _) || _) eqn:E; [by left|].
      apply orb_false_iff in E as [_ Hno%bool_decide_eq_false]. apply eq_None_not_Some in Hno.
      destruct (compute_projected_state acc.1 (gn_id n)); try (by left); right; split; try done;
        apply unresolved_insert; (done || apply Hin; by left). }
    - rewrite Heq in *. done.
    - split; [lia|]. intros _ _. lia. }
  intros H. by apply (Hl (g_nodes g) (states, false)).
Qed.

Lemma resolve_loop_spec seeds fuel states :
  length (unresolved states) < fuel -> sound seeds states ->
  sound seeds (resolve_loop fuel states) /\ (pass (resolve_loop fuel states)).2 = false.
Proof using.
  revert states. induction fuel as [|fuel IH]; intros states Hf Hs; [lia|]. simpl.
  destruct (pass states).2 eqn:E.
  - apply pass_progress in E. apply IH; [lia|]. by apply pass_sound.
  - destruct (pass_unchanged _ E) as [-> _]. done.
Qed.

Lemma resolve_sound seeds :
  sound seeds (resolve_projected_nodes seeds) /\
  (pass (resolve_projected_nodes seeds)).2 = false.
Proof using.
  apply resolve_loop_spec.
  - apply Nat.lt_succ_r. unfold unresolved, node_count. apply length_filter.
  - split; [done|]. intros id st. apply settles_seed.
Qed.

(** ** The projection is exactly what settles *)

Section settles_ind.
Context (seeds : States) (P : string -> ProjectedNodeState -> Prop).
Context (Hseed : forall id st, seeds !! id = Some st -> P id st).
Context (Hentry : forall id st n, seeds !! id = None -> n ∈ g_nodes g -> gn_id n = id ->
  in_scope id = true -> incoming_edges g id = [] -> compute_projected_state ∅ id = st -> P id st).
Context (Hedges : forall id (active : WorkflowGraphEdge -> bool) n,
  seeds !! id = None -> n ∈ g_nodes g -> gn_id n = id -> in_scope id = true ->
  incoming_edges g id <> [] ->
  (forall e, e ∈ incoming_edges g id ->
     (owner_edge e = true /\ active e = true) \/
     (owner_edge e = false /\ exists st, settles seeds (source e) st /\ P (source e) st /\
        edge_outcome e st = if active e then EdgeActive else EdgeInactive)) ->
  P id (if existsb active (incoming_edges g id) then Ready else PInactive)).

Fixpoint settles_ind' id st (H : settles seeds id st) {struct H} : P id st.
Proof using Hseed Hentry Hedges.
  destruct H as [id st H|id st n H1 H2 H3 H4 H5 H6|id active n H1 H2 H3 H4 H5 H6].
  - by apply Hseed.
  - by eapply Hentry.
  - eapply Hedges; [done..|]. intros e He.
    destruct (H6 e He) as [Ho|(Ho & st & Hs & Hout)]; [by left|right].
    split; [done|]. exists st. split_and!; [done|by apply settles_ind'|done].
Qed.
End settles_ind.

Lemma settles_det seeds id st st' : settles seeds id st -> settles seeds id st' -> st = st'.
Proof using.
  intros H. revert st'. induction H as [id st Hs|id st n Hs Hn Hid Hsc He Hc|id act n Hs Hn Hid Hsc Hne He]
    using settles_ind'; intros st' H'.
  - destruct H'; congruence.
  - destruct H' as [? ? ?|? ? ? ? ? ? ? ? ?|? ? ? ? ? ? ? Hne _]; [congruence|congruence|done].
  - destruct H' as [? ? ?|? ? ? ? ? ? ? He' ?|id act' ? ? ? ? ? ? He']; [congruence|done|].
    erewrite existsb_cong; [done|]. intros e Hin.
    destruct (He e Hin) as [[Ho Ha]|(Ho & st & Hst & IH & Hout)],
      (He' e Hin) as [[Ho' Ha']|(Ho' & st' & Hst' & Hout')]; [congruence|congruence|congruence|].
    apply IH in Hst' as <-. rewrite Hout in Hout'. by destruct (act e), (act' e).
Qed.

Lemma settles_final seeds states id st :
  sound seeds states -> (pass states).2 = false -> settles seeds id st -> states !! id = Some st.
Proof using.
  intros Hsound Hpass H. destruct (pass_unchanged _ Hpass) as [_ Hstuck].
  assert (forall n st', n ∈ g_nodes g -> gn_id n = id -> in_scope id = true -> settles seeds id st' ->
    derived (compute_projected_state states id) = true -> states !! id = Some st') as Hdone.
  { intros n st' Hn <- Hsc Hst' Hd. destruct (states !! gn_id n) as [st''|] eqn:E.
    - apply Hsound in E. f_equal. by eapply settles_det.
    - rewrite (Hstuck n Hn Hsc E) in Hd. done. }
  revert Hdone. induction H as [id st Hs|id st n Hs Hn Hid Hsc He Hc|id act n Hs Hn Hid Hsc Hne He]
    using settles_ind'; intros Hdone.
  - by eapply lookup_weaken, Hsound.
  - eapply Hdone; [done..|by eapply settles_entry|]. rewrite compute_entry by done.
    unfold compute_projected_state. rewrite He. by case_bool_decide.
  - eapply Hdone; [done..| |].
    { apply (settles_edges seeds id act n); try done. intros e Hin.
      destruct (He e Hin) as [Ho|(Ho & st & Hst & _ & Hout)]; [by left|right]. eauto. }
    rewrite compute_edges by done. rewrite (fold_edges_active _ _ _ act); [by destruct (_ || _)|].
    intros e Hin. destruct (He e Hin) as [[Ho Ha]|(Ho & st & Hst & IH & Hout)];
      unfold edge_state; rewrite Ho; [by rewrite Ha|].
    rewrite IH; [done|]. intros n' st' Hn' <- Hsc' Hst' Hd.
    destruct (states !! gn_id n') as [st''|] eqn:E.
    + apply Hsound in E. f_equal. by eapply settles_det.
    + rewrite (Hstuck n' Hn' Hsc' E) in Hd. done.
Qed.

Lemma resolve_settles seeds id st :
  resolve_projected_nodes seeds !! id = Some st <-> settles seeds id st.
Proof using.
  destruct (resolve_sound seeds) as [Hs Hp]. split; [apply Hs|by apply settles_final].
Qed.

(** The states rows can seed. *)
Definition seeded (seeds : States) : Prop :=
  forall id st, seeds !! id = Some st -> st <> Ready /\ st <> PInactive /\ st <> NotReached.

Lemma edge_outcome_active e st :
  edge_outcome e st = EdgeActive ->
  st = PSucceeded /\ exists src, node g (source e) = Some src /\
    (gn_type src = NodeTypes.Condition -> condition_edge_active (gn_id src) e decisions = true).
Proof using.
  destruct st; simpl; try done. destruct (node g (source e)) as [src|]; [|done].
  case_bool_decide as Ht; [|intros _; split; [done|]; by exists src].
  destruct (condition_edge_active _ _ _) eqn:E; [|done]. intros _. split; [done|]. by exists src.
Qed.

Lemma edge_outcome_resolved e st :
  (edge_outcome e st = EdgeActive \/ edge_outcome e st = EdgeInactive) ->
  st = PSucceeded \/ st = PInactive \/ st = PCancelled.
Proof using. destruct st; simpl; naive_solver. Qed.
End projection.

Lemma seed_states_seeded rows : seeded (seed_states rows).
Proof.
  unfold seed_states. assert (seeded (∅ : States)) as H0 by (intros id st; by rewrite lookup_empty).
  revert H0. generalize (∅ : States) as acc. induction rows as [|row rows IH]; intros acc Hacc; simpl; [done|].
  apply IH. intros id st [[<- <-]|[_ Hid]]%lookup_insert_Some; [by destruct (nr_status row)|by eapply Hacc].
Qed.

Lemma seed_states_is_Some rows id :
  is_Some (seed_states rows !! id) <-> exists row, row ∈ rows /\ nr_node_id row = id.
Proof.
  unfold seed_states. assert (forall acc : States,
    is_Some (fold_left (fun states row => <[nr_node_id row := seed_state (nr_status row)]> states)
      rows acc !! id) <-> is_Some (acc !! id) \/ exists row, row ∈ rows /\ nr_node_id row = id) as ->.
  { induction rows as [|row rows IH]; intros acc; simpl; [set_solver|].
    rewrite IH, lookup_insert_is_Some'. set_solver. }
  rewrite lookup_empty, is_Some_alt. naive_solver.
Qed.

(** [BranchProjection::new] and [BranchProjection::new_region_round]: the rows that seed each
    projection, then the fixpoint. *)
Definition outer_rows (rows : list WorkflowNodeRun) : list WorkflowNodeRun :=
  filter (fun row => nr_iteration row = None) rows.
Definition round_rows (members : CompositeRegion) (round : N) (rows : list WorkflowNodeRun) :
    list WorkflowNodeRun :=
  filter (fun row => region_contains members (nr_node_id row) = true)
    (filter (fun row => nr_iteration row = Some round) rows).

Definition new_projection `{Petgraph} (g : WorkflowGraph) (rows : list WorkflowNodeRun)
    (decisions : Decisions) : States :=
  resolve_projected_nodes g decisions Outer (seed_states (outer_rows rows)).
Definition new_region_round `{Petgraph} (g : WorkflowGraph) (owner : string)
    (members : CompositeRegion) (round : N) (rows : list WorkflowNodeRun) (decisions : Decisions) :
    States :=
  resolve_projected_nodes g decisions (Region owner members)
    (seed_states (round_rows members round rows)).

(** ** Properties *)

Section properties.
Context {pet : Petgraph}.
Implicit Types (g : WorkflowGraph) (scope : ProjectionScope) (seeds : States).

(** C1: the fixpoint loop terminates within its bound and computes exactly the declarative
    meaning of the projection: a node has a state if and only if a row fixes it or every one of
    its incoming edges is resolved by settled sources; the state is unique and does not depend
    on the order of the passes. *)
Theorem projection_spec g decisions scope seeds id st :
  resolve_projected_nodes g decisions scope seeds !! id = Some st <->
  settles g decisions scope seeds id st.
Proof. apply resolve_settles. Qed.

(** C2: a node is dispatched only when it has no row yet and everything before it is decided: each
    incoming edge comes from the region owner or from a node that succeeded, was cancelled or
    will never run, and at least one edge is active, from a succeeded source whose branch
    decision, if it is a condition, selected that edge; a node without incoming edges is ready
    only if it is the start node. *)
Theorem ready_sound g decisions scope seeds n :
  seeded seeds -> n ∈ ready_nodes g scope (resolve_projected_nodes g decisions scope seeds) ->
  let final := resolve_projected_nodes g decisions scope seeds in
  n ∈ g_nodes g /\ in_scope g scope (gn_id n) = true /\ seeds !! gn_id n = None /\
  (incoming_edges g (gn_id n) = [] -> gn_id <$> start_node g = Some (gn_id n)) /\
  (forall e, e ∈ incoming_edges g (gn_id n) -> owner_edge scope e = true \/
     exists st, final !! source e = Some st /\ (st = PSucceeded \/ st = PInactive \/ st = PCancelled)) /\
  (incoming_edges g (gn_id n) <> [] ->
     exists e, e ∈ incoming_edges g (gn_id n) /\
       (owner_edge scope e = true \/
        final !! source e = Some PSucceeded /\ exists src, node g (source e) = Some src /\
          (gn_type src = NodeTypes.Condition -> condition_edge_active (gn_id src) e decisions = true))).
Proof.
  intros Hseeded Hin final. unfold ready_nodes in Hin.
  apply list_elem_of_filter in Hin as [[Hsc Hst]%andb_true_iff Hn].
  apply bool_decide_eq_true in Hst. unfold state_of in Hst.
  destruct (resolve_projected_nodes g decisions scope seeds !! gn_id n) as [st|] eqn:Est; [|done].
  simpl in Hst. subst st. apply resolve_settles in Est. split; [done|]. split; [done|].
  inversion Est as [? ? Hs|? ? n' Hs Hn' Hid Hsc' He Hc|? act n' Hs Hn' Hid Hsc' Hne He Hid' Hact]; subst.
  { by apply Hseeded in Hs as [? _]. }
  - split; [done|]. rewrite He. split_and!; [|set_solver|done]. intros _.
    unfold compute_projected_state in Hc. rewrite He in Hc. by case_bool_decide.
  - assert (forall e, e ∈ incoming_edges g (gn_id n) -> owner_edge scope e = true \/
      exists st, final !! source e = Some st /\
        edge_outcome g decisions e st = if act e then EdgeActive else EdgeInactive) as Hall.
    { intros e Hin. destruct (He e Hin) as [[Ho _]|(Ho & st & Hst & Hout)]; [by left|right].
      exists st. split; [by apply resolve_settles|done]. }
    split_and!; [done|done| |].
    + intros e Hin. destruct (Hall e Hin) as [?|(st & Hst & Hout)]; [by left|right].
      exists st. split; [done|]. eapply edge_outcome_resolved. destruct (act e); eauto.
    + intros _. destruct (existsb act (incoming_edges g (gn_id n))) eqn:Ea; [|done].
      apply existsb_True in Ea as (e & Hin & Ha). exists e. split; [done|].
      destruct (Hall e Hin) as [?|(st & Hst & Hout)]; [by left|right]. rewrite Ha in Hout.
      apply edge_outcome_active in Hout as [-> ?]. done.
Qed.

(** The scope is closed upstream: the predecessors of a node of the scope are in it or are the
    region's owner. *)
Definition scope_closed g scope : Prop :=
  forall a b, id_step g a b -> in_scope g scope b = true ->
    in_scope g scope a = true \/ match scope with Region owner _ => a = owner | Outer => False end.

(** C3: the schedule cannot stall silently: when nothing is ready, nothing is in flight and nothing
    in scope failed, every node of the scope is finished: it succeeded, was cancelled or is
    known never to run. *)
Theorem drained_complete g decisions scope seeds :
  graph_ok g -> scope_closed g scope -> seeded seeds ->
  let final := resolve_projected_nodes g decisions scope seeds in
  ready_nodes g scope final = [] -> has_in_flight final = false ->
  (forall n, n ∈ g_nodes g -> in_scope g scope (gn_id n) = true -> final !! gn_id n <> Some PFailed) ->
  forall n, n ∈ g_nodes g -> in_scope g scope (gn_id n) = true ->
    exists st, final !! gn_id n = Some st /\ (st = PSucceeded \/ st = PInactive \/ st = PCancelled).
Proof.
  intros Hg Hclosed Hseeded final Hready Hflight Hfail.
  assert (forall n st, n ∈ g_nodes g -> in_scope g scope (gn_id n) = true ->
    final !! gn_id n = Some st -> st = PSucceeded \/ st = PInactive \/ st = PCancelled) as Hterm.
  { intros n st Hn Hsc Hst. destruct st; auto; exfalso.
    - apply resolve_settles in Hst. remember (gn_id n) as id. remember NotReached as st.
      destruct Hst as [? ? Hs|? ? ? ? ? ? ? He Hc|]; subst.
      + by apply Hseeded in Hs as (_ & _ & ?).
      + unfold compute_projected_state in Hc. rewrite He in Hc. by case_bool_decide.
      + by destruct (existsb _ _).
    - assert (n ∈ ready_nodes g scope final) as Hr; [|rewrite Hready in Hr; by apply elem_of_nil in Hr].
      apply list_elem_of_filter. split; [|done]. rewrite Hsc. simpl. apply bool_decide_eq_true.
      unfold state_of. by rewrite Hst.
    - unfold has_in_flight in Hflight. apply existsb_False in Hflight. rewrite Forall_forall in Hflight.
      apply elem_of_map_to_list in Hst. by apply Hflight in Hst.
    - unfold has_in_flight in Hflight. apply existsb_False in Hflight. rewrite Forall_forall in Hflight.
      apply elem_of_map_to_list in Hst. by apply Hflight in Hst.
    - by apply (Hfail n). }
  assert (forall b, (exists n, n ∈ g_nodes g /\ gn_id n = b) -> in_scope g scope b = true ->
    is_Some (final !! b)) as Hall.
  { apply (id_step_wf g Hg (fun b => (exists n, n ∈ g_nodes g /\ gn_id n = b) ->
      in_scope g scope b = true -> is_Some (final !! b))).
    intros b IH (n & Hn & <-) Hsc. destruct (final !! gn_id n) eqn:E; [done|]. exfalso.
    destruct (resolve_sound g decisions scope seeds) as [_ Hp].
    destruct (pass_unchanged _ _ _ _ Hp) as [_ Hstuck]. specialize (Hstuck n Hn Hsc E).
    fold final in Hstuck. destruct (decide (incoming_edges g (gn_id n) = [])) as [He|He].
    { unfold compute_projected_state in Hstuck. rewrite He in Hstuck. by case_bool_decide. }
    rewrite compute_edges in Hstuck by done.
    rewrite (fold_edges_active _ _ _ _ _ _ (is_active g decisions scope final)) in Hstuck;
      [by destruct (_ || _)|].
    intros e Hin. unfold is_active, edge_state.
    destruct (owner_edge scope e) eqn:Ho; [done|].
    destruct (incoming_edges_step g Hg _ _ Hin) as [Hstep _].
    destruct (id_step_nodes _ _ _ Hstep) as (m & _ & Hm & _ & Hsrc & _).
    assert (in_scope g scope (source e) = true) as Hscm.
    { destruct (Hclosed _ _ Hstep Hsc) as [|Hown]; [done|]. destruct scope; [done|].
      simpl in Ho. apply bool_decide_eq_false in Ho. congruence. }
    destruct (IH _ Hstep ltac:(eauto) Hscm) as [st Hst]. rewrite Hst.
    rewrite <-Hsrc in Hst, Hscm. destruct (Hterm m st Hm Hscm Hst) as [->|[->| ->]]; simpl; try done.
    rewrite (proj2 (node_Some g Hg (source e) m)) by done.
    case_bool_decide; [|done]. by destruct (condition_edge_active _ _ _). }
  intros n Hn Hsc. destruct (Hall (gn_id n) ltac:(eauto) Hsc) as [st Hst].
  exists st. split; [done|]. by eapply Hterm.
Qed.
End properties.

(** ** Witnesses *)

#[local] Existing Instance kahn_petgraph.

Definition done_rows (ids : list string) : list WorkflowNodeRun :=
  (fun id => plain_row id id "agent" Succeeded) <$> ids.

Lemma ready_sound_witness :
  let seeds := seed_states (done_rows ["s"]) in
  gn_id <$> ready_nodes sample_graph Outer (resolve_projected_nodes sample_graph ∅ Outer seeds)
    = ["a"; "b"] /\
  seeds !! "a" = None.
Proof.
  intros seeds. split; [vm_compute; reflexivity|].
  refine (proj1 (proj2 (proj2 (ready_sound sample_graph ∅ Outer seeds (plain_node "a" Agent)
    (seed_states_seeded _) _)))).
  vm_compute. left.
Defined.

Lemma drained_complete_witness :
  let final := resolve_projected_nodes sample_graph ∅ Outer (seed_states (done_rows ["s"; "a"; "b"; "o"])) in
  exists st, final !! "o" = Some st /\ (st = PSucceeded \/ st = PInactive \/ st = PCancelled).
Proof.
  refine (drained_complete sample_graph ∅ Outer (seed_states (done_rows ["s"; "a"; "b"; "o"]))
    sample_graph_ok _ (seed_states_seeded _) _ _ _ (plain_node "o" Output) _ _).
  - intros a b _ _. left. reflexivity.
  - vm_compute. reflexivity.
  - vm_compute. reflexivity.
  - intros n Hn _. assert (Forall (fun n => resolve_projected_nodes sample_graph ∅ Outer
      (seed_states (done_rows ["s"; "a"; "b"; "o"])) !! gn_id n <> Some PFailed) (g_nodes sample_graph)) as H.
    { repeat constructor; vm_compute; discriminate. }
    rewrite Forall_forall in H. by apply H.
  - vm_compute. right. left.
  - reflexivity.
Defined.
