(* ===== verification/Declarations.v ===== *)
(** * Variable declarations derived from a graph ([engine/variable_pool.rs])

    The catalog of a run's pool: globals, node outputs, Start inputs, and in a second pass, in
    topological order, the variables of iteration and aggregator nodes, whose types derive
    from the variables they read. *)

From stdpp Require Import relations.
From S2P Require Import Prelude RustStr Json VariablePool NodeTypes.
From S2P Require Import VariableTemplate GraphBase Aggregator NodeConfig Iteration.
From S2P Require Import NodeConfig GraphBase Graph.
Local Open Scope ora_scope.

Inductive IterationDeclarationError : Type :=
| IteratorUndeclared (selector : string)
| IteratorNotArray (selector value_type : string)
| IteratorInsideOwnRegion (selector : string)
| CollectOutsideRegion (selector : string)
| CollectUndeclared (selector : string).

Inductive AggregatorDeclarationError : Type :=
| SelectorUndeclared (selector : string)
| ProducerNotPredecessor (selector producer : string)
| SelectorTypeMismatch (selector expected actual : string).

Inductive DerivedDeclarationError : Type :=
| DerivedIteration (error : IterationDeclarationError)
| DerivedAggregator (error : AggregatorDeclarationError).

Definition iteration_declaration_message (e : IterationDeclarationError) : string :=
  match e with
  | IteratorUndeclared s => "iteration source " +:+ s +:+ " is not declared"
  | IteratorNotArray s t =>
      "iteration source " +:+ s +:+ " must be an array type, but is " +:+ t
  | IteratorInsideOwnRegion s =>
      "iteration source " +:+ s +:+ " is produced inside the iteration's own region"
  | CollectOutsideRegion s =>
      "collect target " +:+ s +:+ " is not a node inside the iteration region"
  | CollectUndeclared s => "collect target " +:+ s +:+ " is not a declared variable"
  end.

Definition aggregator_declaration_message (e : AggregatorDeclarationError) : string :=
  match e with
  | SelectorUndeclared s => "aggregator selector " +:+ s +:+ " is not declared"
  | ProducerNotPredecessor s p =>
      "aggregator selector " +:+ s +:+ " is produced by " +:+ p
      +:+ ", which is not a transitive predecessor"
  | SelectorTypeMismatch s expected actual =>
      "aggregator selector " +:+ s +:+ " has type " +:+ actual
      +:+ ", but the aggregation requires " +:+ expected
  end.

(** [name.split('.').next().unwrap_or("global")]: the text before the first dot. *)
Definition name_owner (name : string) : string :=
  match split_char DOT name with owner :: _ => owner | [] => "global" end.

Definition iteration_item_type (source_type : string) : string :=
  if bool_decide (source_type = "array") || bool_decide (source_type = "array[any]") then "any"
  else if bool_decide (source_type = "array[string]") then "string"
  else if bool_decide (source_type = "array[number]") then "number"
  else if bool_decide (source_type = "array[object]") then "object"
  else if bool_decide (source_type = "array[boolean]") then "boolean"
  else if bool_decide (source_type = "array[file]") then "file"
  else "any".

(** One Start input: declare it, set its maximum length, seed its initial value. *)
Definition declare_start_input (node_id : string) (pool : WorkflowVariablePool)
    (variable : StartInputVariable) : WorkflowVariablePool :=
  let selector := qualified_name node_id (si_name variable) in
  let pool := declare pool selector (si_value_type variable) node_id in
  let pool :=
    with_catalog pool
      (alter (fun d => {| value_type := value_type d; writer := writer d;
                          max_length := si_max_length variable |}) selector (catalog pool)) in
  match si_value variable with
  | Some value => with_values pool (<[selector := value]> (values pool))
  | None => pool
  end.

Definition declares_output (t : NodeType) : bool :=
  match t with Start | Condition | Iteration | Aggregator => false | _ => true end.

Definition structured_contract (config : AgentConfig) : bool :=
  match output_contract config with Some (Structured _ _) => true | _ => false end.

Definition declare_base_node_variables (pool : WorkflowVariablePool) (n : WorkflowGraphNode) :
    WorkflowVariablePool :=
  let id := gn_id n in
  let pool :=
    if declares_output (gn_type n) then declare pool (qualified_name id "output") "string" id
    else pool in
  match gn_type n with
  | Start =>
      let pool := declare pool (qualified_name id "input") "string" id in
      fold_left (declare_start_input id) (gn_input_variables n) pool
  | Agent =>
      match gn_agent_config n with
      | Some config =>
          if structured_contract config
          then declare pool (qualified_name id "structured_output") "object" id
          else pool
      | None => pool
      end
  | _ => pool
  end.

(** The declarations of one iteration node once its two selectors are typed. *)
Definition declare_exposed (pool : WorkflowVariablePool) (node_id source_type collect_type : string) :
    WorkflowVariablePool :=
  let pool := declare pool (qualified_name node_id "item") (iteration_item_type source_type) node_id in
  let pool := declare pool (qualified_name node_id "index") "number" node_id in
  let pool := declare pool (qualified_name node_id "output") ("array[" +:+ collect_type +:+ "]") node_id in
  let pool := declare pool (qualified_name node_id "entries") "array[object]" node_id in
  declare pool (qualified_name node_id "failed_count") "number" node_id.

Definition in_region (g : WorkflowGraph) (owner id : string) : bool :=
  match region g owner with Some r => region_contains r id | None => false end.

Definition declare_one_iteration (pool : WorkflowVariablePool) (g : WorkflowGraph)
    (node_id : string) (config : IterationConfig) :
    result IterationDeclarationError WorkflowVariablePool :=
  let iterator := qualified (iterator_selector config) in
  source_def ← ok_or (catalog pool !! iterator) (IteratorUndeclared iterator);
  let source_type := value_type source_def in
  reject (negb (starts_with "array" source_type)) with (IteratorNotArray iterator source_type);
  reject (in_region g node_id (writer source_def)) with (IteratorInsideOwnRegion iterator);
  let collect := qualified (collect_selector config) in
  reject (negb (in_region g node_id (sel_node_id (collect_selector config))))
    with (CollectOutsideRegion collect);
  collect_def ← ok_or (catalog pool !! collect) (CollectUndeclared collect);
  Ok (declare_exposed pool node_id source_type (value_type collect_def)).

Section declarations.
Context {pet : Petgraph}.

(** One round of the loop over the selectors, threading the expected type. *)
Definition check_selector (pool : WorkflowVariablePool) (g : WorkflowGraph)
    (predecessors : list string) (expected : option string) (selector : VariableSelector) :
    result AggregatorDeclarationError (option string) :=
  let name := qualified selector in
  reject (bool_decide (is_Some (node g (sel_node_id selector)))
          && negb (bool_decide (sel_node_id selector ∈ predecessors)))
    with (ProducerNotPredecessor name (sel_node_id selector));
  declared ← ok_or (catalog pool !! name) (SelectorUndeclared name);
  let actual := value_type declared in
  match expected with
  | None => Ok (Some actual)
  | Some t => if bool_decide (t = actual) then Ok (Some t)
              else Err (SelectorTypeMismatch name t actual)
  end.

Definition declare_one_aggregator (pool : WorkflowVariablePool) (g : WorkflowGraph)
    (node_id : string) (config : AggregatorConfig) :
    result AggregatorDeclarationError WorkflowVariablePool :=
  let predecessors := gn_id <$> transitive_predecessors g node_id in
  expected ← fold_result (check_selector pool g predecessors) None (variables config);
  Ok (declare pool (qualified_name node_id "output") (default "any" expected) node_id).

(** One node of [declare_derived_variables]. *)
Definition declare_derived (g : WorkflowGraph) (pool : WorkflowVariablePool)
    (n : WorkflowGraphNode) : result (string * DerivedDeclarationError) WorkflowVariablePool :=
  match gn_iteration_config n, gn_aggregator_config n with
  | Some config, _ =>
      map_err (fun e => (gn_id n, DerivedIteration e)) (declare_one_iteration pool g (gn_id n) config)
  | None, Some config =>
      map_err (fun e => (gn_id n, DerivedAggregator e)) (declare_one_aggregator pool g (gn_id n) config)
  | None, None => Ok pool
  end.

(** [declare_derived_variables] mutates the pool as it goes: the pool at the failure is kept. *)
Fixpoint declare_derived_all (g : WorkflowGraph) (pool : WorkflowVariablePool)
    (ns : list WorkflowGraphNode) :
    WorkflowVariablePool * option (string * DerivedDeclarationError) :=
  match ns with
  | [] => (pool, None)
  | n :: ns =>
      match declare_derived g pool n with
      | Ok pool => declare_derived_all g pool ns
      | Err e => (pool, Some e)
      end
  end.

Definition declare_global (seed : bool) (pool : WorkflowVariablePool)
    (variable : WorkflowGlobalVariable) : WorkflowVariablePool :=
  let pool := declare pool (gv_name variable) (gv_value_type variable) (name_owner (gv_name variable)) in
  match (if seed then gv_value variable else None) with
  | Some value => with_values pool (<[gv_name variable := value]> (values pool))
  | None => pool
  end.

(** [loop_body]: the configuration and body of a container. *)
Definition loop_body (g : WorkflowGraph) (id : string) : option (LoopConfig * WorkflowGraph) :=
  snd <$> find_first (fun p => bool_decide (fst p = id)) (g_loops g).

Definition declare_loop_outputs (g : WorkflowGraph) (pool : WorkflowVariablePool)
    (n : WorkflowGraphNode) : WorkflowVariablePool :=
  match loop_body g (gn_id n) with
  | Some (config, _) =>
      fold_left (fun pool output =>
        declare pool (qualified_name (gn_id n) (binding_name output)) "any" (gn_id n))
        (lc_outputs config) pool
  | None => pool
  end.

(** [WorkflowVariablePool::from_graph] *)
Definition from_graph (g : WorkflowGraph) : WorkflowVariablePool :=
  let pool := fold_left (declare_global true) (g_global_variables g) empty_pool in
  let pool :=
    fold_left (fun pool n => declare_loop_outputs g (declare_base_node_variables pool n) n)
      (g_nodes g) pool in
  (declare_derived_all g pool (nodes_in_topological_order g)).1.

Definition has_derived (n : WorkflowGraphNode) : bool :=
  bool_decide (gn_type n = Iteration) || bool_decide (gn_type n = Aggregator).

Definition validate_derived_declarations (g : WorkflowGraph) : result GraphError unit :=
  if negb (existsb has_derived (g_nodes g)) then Ok tt
  else
    let pool := fold_left (declare_global false) (g_global_variables g) empty_pool in
    let pool := fold_left declare_base_node_variables (g_nodes g) pool in
    match (declare_derived_all g pool (nodes_in_topological_order g)).2 with
    | None => Ok tt
    | Some (node_id, DerivedIteration e) =>
        Err (InvalidIteration node_id (iteration_declaration_message e))
    | Some (node_id, DerivedAggregator e) =>
        Err (InvalidAggregator node_id (aggregator_declaration_message e))
    end.
End declarations.

(** ** Lemmas *)

Lemma declare_mono pool s t w : catalog pool ⊆ catalog (declare pool s t w).
Proof. apply map_subseteq_spec. intros k d. apply declare_preserves. Qed.

Lemma declare_declares pool s t w : is_Some (catalog (declare pool s t w) !! s).
Proof. rewrite declare_catalog, decide_True by done. eauto. Qed.

Lemma declare_exposed_mono pool id a b : catalog pool ⊆ catalog (declare_exposed pool id a b).
Proof. unfold declare_exposed. do 4 (etransitivity; [|apply declare_mono]). apply declare_mono. Qed.

Lemma fold_left_inv {A S} (P : S -> Prop) (f : S -> A -> S) (l : list A) s :
  P s -> (forall s x, x ∈ l -> P s -> P (f s x)) -> P (fold_left f l s).
Proof.
  revert s. induction l as [|x l IH]; intros s Hs Hf; simpl; [done|].
  apply IH; [apply Hf; [by left|done]|]. intros s' y Hy. apply Hf. by right.
Qed.

Lemma declare_start_input_scoped id pool v :
  pool_scoped pool -> pool_scoped (declare_start_input id pool v).
Proof.
  intros Hp. unfold declare_start_input.
  set (sel := qualified_name id (si_name v)).
  set (p1 := declare pool sel (si_value_type v) id).
  assert (is_Some (catalog p1 !! sel)) as Hsel by apply declare_declares.
  assert (pool_scoped p1) as H1 by (by apply declare_scoped).
  assert (forall f, pool_scoped (with_catalog p1 (alter f sel (catalog p1))) /\
    is_Some (catalog (with_catalog p1 (alter f sel (catalog p1))) !! sel)) as H2.
  { intros f. split.
    - intros k x Hx. simpl in *. apply H1 in Hx.
      destruct (decide (k = sel)) as [->|]; [rewrite lookup_alter_eq; by apply fmap_is_Some|].
      by rewrite lookup_alter_ne.
    - simpl. rewrite lookup_alter_eq. by apply fmap_is_Some. }
  destruct (si_value v) as [x|]; [|apply H2].
  intros k y. simpl. intros [[<- <-]|[_ Hk]]%lookup_insert_Some.
  - eapply (fun f => proj2 (H2 f)).
  - revert Hk. eapply (fun f => proj1 (H2 f)).
Qed.

Lemma declare_base_scoped pool n : pool_scoped pool -> pool_scoped (declare_base_node_variables pool n).
Proof.
  intros Hp. unfold declare_base_node_variables.
  set (p := if declares_output (gn_type n) then _ else pool).
  assert (pool_scoped p) as H1.
  { unfold p. destruct (declares_output _); [by apply declare_scoped|done]. }
  clearbody p. destruct (gn_type n); try done.
  - apply fold_left_inv; [by apply declare_scoped|]. intros s x _. apply declare_start_input_scoped.
  - destruct (gn_agent_config n); [|done]. destruct (structured_contract _); [by apply declare_scoped|done].
Qed.

(** Declarations are never lost, retyped or given to another owner. *)
Definition extends (p q : WorkflowVariablePool) : Prop :=
  forall k d, catalog p !! k = Some d ->
    exists d', catalog q !! k = Some d' /\ writer d' = writer d /\ value_type d' = value_type d.

#[global] Instance extends_preorder : PreOrder extends.
Proof.
  split; [intros p k d Hd; by exists d|].
  intros p q r Hpq Hqr k d (d' & Hd' & Hw & Ht)%Hpq.
  apply Hqr in Hd' as (d'' & Hd'' & Hw' & Ht'). exists d''. split_and!; congruence.
Qed.

Lemma extends_sub p q : catalog p ⊆ catalog q -> extends p q.
Proof. intros Hsub k d Hd. exists d. split; [by eapply lookup_weaken|done]. Qed.

Lemma extends_fold {A} (f : WorkflowVariablePool -> A -> WorkflowVariablePool) l p :
  (forall p x, x ∈ l -> extends p (f p x)) -> extends p (fold_left f l p).
Proof.
  intros Hf. apply fold_left_inv; [reflexivity|]. intros s x Hx Hs. etransitivity; [done|by apply Hf].
Qed.

Lemma declare_start_input_extends id p v : extends p (declare_start_input id p v).
Proof.
  unfold declare_start_input. etransitivity; [apply extends_sub, (declare_mono p)|].
  set (q := declare p _ _ _). intros k d Hd.
  assert (exists d', alter (fun d => {| value_type := value_type d; writer := writer d;
      max_length := si_max_length v |}) (qualified_name id (si_name v)) (catalog q) !! k = Some d' /\
    writer d' = writer d /\ value_type d' = value_type d) as (d' & Hd' & ?).
  { destruct (decide (k = qualified_name id (si_name v))) as [->|Hne].
    - rewrite lookup_alter_eq, Hd. by eexists.
    - rewrite lookup_alter_ne by done. by exists d. }
  exists d'. split; [|done]. destruct (si_value v); exact Hd'.
Qed.

Lemma declare_base_extends p n : extends p (declare_base_node_variables p n).
Proof.
  unfold declare_base_node_variables. set (q := if declares_output _ then _ else p).
  assert (extends p q) as Hq.
  { unfold q. destruct (declares_output _); [apply extends_sub, declare_mono|done]. }
  etransitivity; [exact Hq|]. clearbody q. clear Hq p. destruct (gn_type n); try done.
  - etransitivity; [apply extends_sub, declare_mono|]. apply extends_fold. intros p x _.
    apply declare_start_input_extends.
  - destruct (gn_agent_config n); [|done].
    destruct (structured_contract _); [apply extends_sub, declare_mono|done].
Qed.

Section derived.
Context {pet : Petgraph}.

Lemma declare_derived_inv g pool n pool' :
  declare_derived g pool n = Ok pool' ->
  catalog pool ⊆ catalog pool' /\ values pool' = values pool.
Proof.
  unfold declare_derived. destruct (gn_iteration_config n) as [c|].
  - unfold declare_one_iteration. intros H. inv_ok.
    split; [apply declare_exposed_mono|]. unfold declare_exposed. by rewrite !declare_values.
  - destruct (gn_aggregator_config n) as [c|]; [|by intros [= ->]].
    unfold declare_one_aggregator. intros H. inv_ok.
    split; [apply declare_mono|apply declare_values].
Qed.

Lemma declare_derived_all_mono g pool ns :
  catalog pool ⊆ catalog (declare_derived_all g pool ns).1 /\
  values (declare_derived_all g pool ns).1 = values pool.
Proof.
  revert pool. induction ns as [|n ns IH]; intros pool; simpl; [done|].
  destruct (declare_derived g pool n) as [pool'|] eqn:E; [|done].
  apply declare_derived_inv in E as [H1 H2]. destruct (IH pool') as [H3 H4].
  split; [by etransitivity|congruence].
Qed.

Lemma declare_derived_all_split g pool ns n :
  (declare_derived_all g pool ns).2 = None -> n ∈ ns ->
  exists p p', declare_derived g p n = Ok p' /\
    catalog p' ⊆ catalog (declare_derived_all g pool ns).1.
Proof.
  revert pool. induction ns as [|m ns IH]; intros pool; simpl; [set_solver|].
  destruct (declare_derived g pool m) as [pool'|] eqn:E; [|done]. intros Hn.
  intros [->|Hin]%elem_of_cons; [|by apply IH].
  exists pool, pool'. split; [done|]. apply declare_derived_all_mono.
Qed.

Lemma check_selector_Ok pool g preds expected s out :
  check_selector pool g preds expected s = Ok out ->
  exists d, catalog pool !! qualified s = Some d /\ out = Some (value_type d) /\
    (forall t, expected = Some t -> t = value_type d) /\
    (is_Some (node g (sel_node_id s)) -> sel_node_id s ∈ preds).
Proof.
  unfold check_selector. intros H. inv_ok. exists x0. split; [done|].
  rewrite andb_false_iff, negb_false_iff, bool_decide_eq_false, bool_decide_eq_true in Hx.
  destruct expected as [t|]; [case_bool_decide; [|done]|]; inv_ok; naive_solver.
Qed.

Lemma check_selectors_Ok pool g preds l expected out :
  fold_result (check_selector pool g preds) expected l = Ok out ->
  (forall t, expected = Some t -> out = Some t) /\
  forall s, s ∈ l -> exists d, catalog pool !! qualified s = Some d /\ out = Some (value_type d) /\
    (is_Some (node g (sel_node_id s)) -> sel_node_id s ∈ preds).
Proof.
  revert expected. induction l as [|s l IH]; intros expected; simpl.
  { intros [= <-]. split; [done|set_solver]. }
  intros (e & He & Hl)%bind_Ok. apply check_selector_Ok in He as (d & Hd & -> & Hexp & Hpred).
  destruct (IH _ Hl) as [Ht Hall]. specialize (Ht _ eq_refl). subst out. split.
  - intros t Hs. by rewrite (Hexp t Hs).
  - intros s' [->|Hs']%elem_of_cons; [by exists d|by apply Hall].
Qed.

(** The globals are declared first: nothing takes a global's name from its owner. *)
Lemma from_graph_globals g v :
  NoDup (gv_name <$> g_global_variables g) -> v ∈ g_global_variables g ->
  exists d, catalog (from_graph g) !! gv_name v = Some d /\
    writer d = name_owner (gv_name v) /\ value_type d = gv_value_type v.
Proof.
  intros Hnd Hv. unfold from_graph.
  set (pool := fold_left (declare_global true) (g_global_variables g) empty_pool).
  assert (exists d, catalog pool !! gv_name v = Some d /\
    writer d = name_owner (gv_name v) /\ value_type d = gv_value_type v) as (d & Hd & Hw & Ht).
  { assert (forall l p, NoDup (gv_name <$> l) -> v ∈ l -> catalog p !! gv_name v = None ->
      exists d, catalog (fold_left (declare_global true) l p) !! gv_name v = Some d /\
        writer d = name_owner (gv_name v) /\ value_type d = gv_value_type v) as Hgo;
      [|by apply Hgo; [|done|apply lookup_empty]].
    assert (forall p x, catalog (declare_global true p x) =
      catalog (declare p (gv_name x) (gv_value_type x) (name_owner (gv_name x)))) as Hcat.
    { intros p x. unfold declare_global. by destruct (gv_value x). }
    clear -Hcat. induction l as [|x l IH]; intros p Hnd Hv Hp; [by apply elem_of_nil in Hv|]. csimpl in Hnd.
    apply NoDup_cons in Hnd as [Hx Hnd]. cbn [fold_left].
    apply elem_of_cons in Hv as [->|Hv].
    - assert (extends (declare_global true p x)
        (fold_left (declare_global true) l (declare_global true p x))) as Hext.
      { apply extends_fold. intros q y _. apply extends_sub. rewrite Hcat. apply declare_mono. }
      destruct (Hext (gv_name x) {| value_type := gv_value_type x; writer := name_owner (gv_name x);
        max_length := None |}) as (d & ? & ? & ?); [|by exists d].
      by rewrite Hcat, declare_catalog, decide_True, Hp.
    - apply IH; [done..|]. rewrite Hcat, declare_catalog, decide_False; [done|].
      intros Heq. apply Hx. rewrite Heq. by apply list_elem_of_fmap_2. }
  assert (extends pool (declare_derived_all g
    (fold_left (fun pool n => declare_loop_outputs g (declare_base_node_variables pool n) n)
       (g_nodes g) pool) (nodes_in_topological_order g)).1) as Hext.
  { etransitivity; [|apply extends_sub, declare_derived_all_mono].
    apply extends_fold. intros p n _. etransitivity; [apply declare_base_extends|].
    unfold declare_loop_outputs. destruct (loop_body g (gn_id n)) as [[config body]|]; [|done].
    apply extends_fold. intros q x _. apply extends_sub, declare_mono. }
  destruct (Hext _ _ Hd) as (d' & ? & ? & ?). exists d'. split_and!; [done|congruence..].
Qed.

(** The pool in which the parser checks the derived declarations. *)
Definition checked_pool (g : WorkflowGraph) : WorkflowVariablePool :=
  (declare_derived_all g
     (fold_left declare_base_node_variables (g_nodes g)
        (fold_left (declare_global false) (g_global_variables g) empty_pool))
     (nodes_in_topological_order g)).1.

(** ** Properties *)

(** The run's initial pool assigns only declared variables, whatever the graph. *)
Theorem from_graph_scoped g : pool_scoped (from_graph g).
Proof.
  unfold from_graph. intros k v. rewrite (proj2 (declare_derived_all_mono g _ _)).
  intros Hk. eapply lookup_weaken_is_Some; [|apply declare_derived_all_mono]. revert k v Hk.
  apply (fold_left_inv pool_scoped).
  - apply (fold_left_inv pool_scoped); [apply empty_pool_scoped|].
    intros pool x _ Hp. unfold declare_global.
    destruct (gv_value x) as [y|]; [|by apply declare_scoped].
    intros k v. simpl. intros [[<- <-]|[_ Hk]]%lookup_insert_Some; [apply declare_declares|].
    by eapply declare_scoped.
  - intros pool n _ Hp. unfold declare_loop_outputs.
    destruct (loop_body g (gn_id n)) as [[config body]|]; [|by apply declare_base_scoped].
    apply (fold_left_inv pool_scoped); [by apply declare_base_scoped|].
    intros s x _. apply declare_scoped.
Qed.

(** When the parser accepts the derived declarations of a graph, every aggregator reads only
    declared variables of one type, each produced by a global or by a node it depends on; and
    every iteration reads a declared array that its own region does not produce and collects a
    declared variable of a node of its region. *)
Theorem derived_declarations_sound g n :
  graph_ok g -> validate_derived_declarations g = Ok tt -> n ∈ g_nodes g -> has_derived n = true ->
  let cat := catalog (checked_pool g) in
  (forall c, gn_iteration_config n = None -> gn_aggregator_config n = Some c ->
     exists t, forall s, s ∈ variables c ->
       (exists d, cat !! qualified s = Some d /\ value_type d = t) /\
       (is_Some (node g (sel_node_id s)) -> tc (id_step g) (sel_node_id s) (gn_id n))) /\
  (forall c, gn_iteration_config n = Some c ->
     (exists d, cat !! qualified (iterator_selector c) = Some d /\
        starts_with "array" (value_type d) = true /\ in_region g (gn_id n) (writer d) = false) /\
     is_Some (cat !! qualified (collect_selector c)) /\
     in_region g (gn_id n) (sel_node_id (collect_selector c)) = true).
Proof.
  intros Hg Hval Hn Hder cat. unfold validate_derived_declarations in Hval.
  assert (existsb has_derived (g_nodes g) = true) as Hex by (apply existsb_True; eauto).
  rewrite Hex in Hval. simpl in Hval. fold (checked_pool g) in *. unfold cat.
  assert (n ∈ nodes_in_topological_order g) as Hin.
  { unfold nodes_in_topological_order. apply elem_of_nodes_at.
    destruct (node_index g n Hn) as (i & Hi & Hlt). exists i.
    rewrite merge_sort_Permutation, elem_of_seq. split; [lia|done]. }
  assert (exists p p', declare_derived g p n = Ok p' /\ catalog p' ⊆ catalog (checked_pool g))
    as (p & p' & Hd & Hsub).
  { apply declare_derived_all_split; [|done]. revert Hval.
    destruct (declare_derived_all _ _ _) as [? [[id [e|e]]|]]; done. }
  pose proof (declare_derived_inv _ _ _ _ Hd) as [Hpp' _].
  assert (forall k d, catalog p !! k = Some d -> catalog (checked_pool g) !! k = Some d) as Hlook.
  { intros k d Hk. eapply lookup_weaken; [|exact Hsub]. by eapply lookup_weaken. }
  unfold declare_derived in Hd. split.
  - intros c Hic Hac. rewrite Hic, Hac in Hd. unfold declare_one_aggregator in Hd. inv_ok.
    apply check_selectors_Ok in Hx as [_ Hall]. exists (default "any" x). intros s Hs.
    destruct (Hall s Hs) as (d & Hd & -> & Hpred). split; [exists d; split; [by apply Hlook|done]|].
    intros Hnode. apply Hpred in Hnode as (m & Hm & Hmin)%list_elem_of_fmap. rewrite Hm.
    by apply elem_of_transitive_predecessors in Hmin as [_ ?].
  - intros c Hic. rewrite Hic in Hd. unfold declare_one_iteration in Hd. inv_ok.
    apply negb_false_iff in Hx0, Hx2. split_and!; [|by eexists; apply Hlook|done].
    exists x. split_and!; [by apply Hlook|done|done].
Qed.
End derived.

(** A global whose name is the selector of a Start input: the declaration of the global wins,
    the initial value of the input overwrites the global's. *)
Definition colliding_graph : WorkflowGraph :=
  let input := {| si_name := "count"; si_display_name := None; si_field_type := TextInput;
                  si_value_type := "string"; si_required := false; si_options := [];
                  si_max_length := None; si_value := Some (VString "three") |} in
  assemble
    [ {| gn_id := "s"; gn_type := Start; gn_title := ""; gn_description := "";
         gn_instruction := None; gn_input_variables := [input]; gn_agent_config := None;
         gn_condition_config := None; gn_aggregator_config := None; gn_output_config := None;
         gn_iteration_config := None |} ]
    [] [0]
    [ {| gv_name := "s.count"; gv_value_type := "number"; gv_value := Some (VNumber (PosInt 3)) |} ].

(** Seeding bypasses the type check of assignments: a global variable named like a Start
    input leaves a value of the wrong type in the initial pool. *)
Theorem from_graph_collision {debug : DebugText} {pet : Petgraph} :
  values (from_graph colliding_graph) !! "s.count" = Some (VString "three") /\
  (value_type <$> catalog (from_graph colliding_graph) !! "s.count") = Some "number" /\
  ~ pool_ok (from_graph colliding_graph).
Proof.
  assert (values (from_graph colliding_graph) !! "s.count" = Some (VString "three")) as Hv
    by (vm_compute; reflexivity).
  split; [done|]. split; [vm_compute; reflexivity|].
  intros Hok. destruct (Hok _ _ Hv) as (d & Hd & [Hm _]).
  assert (value_type <$> catalog (from_graph colliding_graph) !! "s.count" = Some "number") as Ht
    by (vm_compute; reflexivity).
  rewrite Hd in Ht. injection Ht as Ht. rewrite Ht in Hm. vm_compute in Hm. done.
Qed.

(** ** Witnesses *)

Definition aggregator_node (id : string) (selectors : list VariableSelector) : WorkflowGraphNode :=
  {| gn_id := id; gn_type := Aggregator; gn_title := ""; gn_description := "";
     gn_instruction := None; gn_input_variables := []; gn_agent_config := None;
     gn_condition_config := None;
     gn_aggregator_config := Some {| variables := selectors |}; gn_output_config := None;
     gn_iteration_config := None |}.

Definition merging_selectors : list VariableSelector :=
  [ {| sel_node_id := "a"; sel_root := "output"; sel_nested := [] |};
    {| sel_node_id := "b"; sel_root := "output"; sel_nested := [] |} ].

Definition merging_graph : WorkflowGraph :=
  assemble [plain_node "s" Start; aggregator_node "m" merging_selectors;
            plain_node "a" Agent; plain_node "b" Agent]
    [{| e_src := 0; e_dst := 2; e_handle := None |}; {| e_src := 0; e_dst := 3; e_handle := None |};
     {| e_src := 2; e_dst := 1; e_handle := None |}; {| e_src := 3; e_dst := 1; e_handle := None |}]
    [0; 2; 3; 1] [].

Lemma merging_graph_ok : graph_ok merging_graph.
Proof.
  apply assemble_ok.
  - by apply (bool_decide_unpack _).
  - repeat constructor; simpl; lia.
  - apply (toposort_Some (Petgraph:=kahn_petgraph)); [repeat constructor; simpl; lia|].
    vm_compute. reflexivity.
Qed.

Lemma derived_declarations_sound_witness :
  validate_derived_declarations (pet:=kahn_petgraph) merging_graph = Ok tt /\
  tc (id_step merging_graph) "a" "m" /\ tc (id_step merging_graph) "b" "m".
Proof.
  assert (validate_derived_declarations (pet:=kahn_petgraph) merging_graph = Ok tt) as Hv
    by (vm_compute; reflexivity).
  split; [exact Hv|].
  destruct (proj1 (derived_declarations_sound (pet:=kahn_petgraph) merging_graph
    (aggregator_node "m" merging_selectors) merging_graph_ok Hv ltac:(right; left) eq_refl)
    {| variables := merging_selectors |} eq_refl eq_refl) as [t Ht].
  split.
  - apply (Ht {| sel_node_id := "a"; sel_root := "output"; sel_nested := [] |} ltac:(left)).
    vm_compute. eauto.
  - apply (Ht {| sel_node_id := "b"; sel_root := "output"; sel_nested := [] |} ltac:(right; left)).
    vm_compute. eauto.
Defined.
