(* ===== verification/GraphParse.v ===== *)
(** * Parsing one scope of a graph ([engine/graph.rs])

    [into_global_variables], the node and edge loops of [parse_flat], and the derivation of the
    composite regions.  Decoding the document into the wire records is serde's derived code: a
    class. *)

From stdpp Require Import relations.
From S2P Require Import Prelude RustStr Json VariablePool NodeTypes.
From S2P Require Import VariableTemplate Condition StructuredOutput GraphBase Aggregator.
From S2P Require Import NodeConfig Iteration GraphBase Graph Projection.
From S2P Require Import Declarations.
Local Open Scope ora_scope.

(** ** Wire shapes *)

Record WireGlobalVariable : Type := {
  wg_name : option string;
  wg_value_type : option string;
  wg_value : option Value;
}.

Record WireNodeData : Type := {
  wn_node_type : option string;
  wn_title : option string;
  wn_description : option string;
  wn_instruction : option string;
  wn_input : option string;
  wn_input_variables : list WireStartInputVariable;
  wn_agent_config : option WireAgentConfig;
  wn_cases : list WireConditionCase;
  wn_aggregator_config : option WireAggregatorConfig;
  wn_outputs : list WireOutputBinding;
  wn_iteration_config : option WireIterationConfig;
}.

Record WireNode : Type := {
  wn_id : option string;
  wn_data : option WireNodeData;
  wn_parent_id : option string;
}.

Record WireEdge : Type := {
  we_source : option string;
  we_target : option string;
  we_source_handle : option string;
}.

Record ReactFlowEnvelope : Type := {
  env_nodes : option (list WireNode);
  env_edges : option (list WireEdge);
  env_global_variables : list WireGlobalVariable;
}.

(** [serde_json::from_str] at the type [ReactFlowEnvelope]. *)
Class EnvelopeDecode := { envelope_from_str : string -> option ReactFlowEnvelope }.

(** ** Global variables *)

Section globals.
Context {debug : DebugText}.

(** One round of the loop: the names seen are those of the accepted variables. *)
Definition add_global_variable (acc : list WorkflowGlobalVariable) (wire : WireGlobalVariable) :
    result string (list WorkflowGlobalVariable) :=
  let name := trim (default "" (wg_name wire)) in
  reject ((length (split_char DOT name) <? 2) || starts_with "." name || ends_with "." name)
    with ("global variable " +:+ name +:+ " must be a qualified name");
  reject (bool_decide (name ∈ (gv_name <$> acc))) with ("duplicate global variable " +:+ name);
  let value_type := default "" (wg_value_type wire) in
  reject (negb (is_supported_variable_type value_type))
    with ("global variable " +:+ name +:+ " has unsupported type " +:+ value_type);
  let runtime_owned :=
    bool_decide (name = "sys.workflow_id") || bool_decide (name = "sys.timestamp") in
  reject (negb runtime_owned && bool_decide (wg_value wire = None))
    with ("global variable " +:+ name +:+ " must have an initial value");
  value ←
    match wg_value wire with
    | Some value =>
        Some <$> ok_or (normalize_workflow_value value value_type)
          ("global variable " +:+ name +:+ " value does not match declared type " +:+ value_type)
    | None => Ok None
    end;
  Ok (acc ++ [{| gv_name := name; gv_value_type := value_type; gv_value := value |}]).

(** The runtime-owned variables replace any user declaration of the same name. *)
Definition restore_runtime_variable (variables : list WorkflowGlobalVariable)
    (owned : string * string) : list WorkflowGlobalVariable :=
  filter (fun v => gv_name v <> owned.1) variables
  ++ [{| gv_name := owned.1; gv_value_type := owned.2; gv_value := None |}].

Definition RUNTIME_VARIABLES : list (string * string) :=
  [("sys.workflow_id", "string"); ("sys.timestamp", "number")].

Definition into_global_variables (wire : list WireGlobalVariable) :
    result string (list WorkflowGlobalVariable) :=
  variables ← fold_result add_global_variable [] wire;
  Ok (fold_left restore_runtime_variable RUNTIME_VARIABLES variables).

Definition global_ok (v : WorkflowGlobalVariable) : Prop :=
  2 <= length (split_char DOT (gv_name v)) /\ is_supported_variable_type (gv_value_type v) = true /\
  (forall x, gv_value v = Some x -> workflow_value_matches_type x (gv_value_type v) = true) /\
  (gv_value v = None -> (gv_name v, gv_value_type v) ∈ RUNTIME_VARIABLES).

End globals.

(** ** Nodes *)

(** The state of the node loop: the vertices, [index_by_id] and the containment list. *)
Record NodeLoop : Type := {
  nl_nodes : list WorkflowGraphNode;
  nl_index : gmap string nat;
  nl_containment : list NodeEntry;
}.

Section nodes.
Context {debug : DebugText} {json : JsonText} {policy : PolicyDecode}.

Definition parse_kind (id : string) (data : WireNodeData) : result GraphError NodeType :=
  text ← ok_or (wn_node_type data) (InvalidNode ("node " +:+ id +:+ " has no node type"));
  map_err (UnknownNodeType id) (node_type_from_str text).

(** The fields of the node, in the order the struct literal evaluates them. *)
Definition build_node (id : string) (node_type : NodeType) (data : WireNodeData) :
    result GraphError WorkflowGraphNode :=
  input_variables ←
    match node_type with
    | Start => map_err (InvalidStartVariables id) (into_start_input_variables (wn_input_variables data))
    | _ => Ok []
    end;
  agent_config ←
    match wn_agent_config data with
    | Some wire => Some <$> agent_into_model wire id
    | None => Ok None
    end;
  condition_config ←
    match node_type with
    | Condition =>
        Some <$> map_err (fun e => InvalidCondition id (condition_error_message e))
          (condition_from_wire (wn_cases data))
    | _ => Ok None
    end;
  aggregator_config ←
    match node_type with
    | Aggregator =>
        Some <$> map_err (fun e => InvalidAggregator id (aggregator_error_message e))
          (aggregator_from_wire (wn_aggregator_config data))
    | _ => Ok None
    end;
  iteration_config ←
    match node_type with
    | Iteration => parse_iteration_config (wn_iteration_config data) id
    | _ => Ok None
    end;
  Ok {| gn_id := id; gn_type := node_type; gn_title := default "" (wn_title data);
        gn_description := default "" (wn_description data);
        gn_instruction :=
          match node_type with
          | Start => match wn_input data with Some i => Some i | None => wn_instruction data end
          | _ => wn_instruction data
          end;
        gn_input_variables := input_variables;
        gn_agent_config := agent_config;
        gn_condition_config := condition_config;
        gn_aggregator_config := aggregator_config;
        gn_output_config :=
          match node_type with Output => into_output_config (wn_outputs data) | _ => None end;
        gn_iteration_config := iteration_config |}.

Definition structured_schema (n : WorkflowGraphNode) : option Value :=
  config ← gn_agent_config n;
  match output_contract config with Some (Structured schema _) => Some schema | _ => None end.

Definition node_interactive (n : WorkflowGraphNode) : bool :=
  match gn_agent_config n with Some config => interactive config | None => false end.

Definition add_node (acc : NodeLoop) (wire : WireNode) : result GraphError NodeLoop :=
  id ← ok_or (wn_id wire) (InvalidNode "missing id");
  reject (bool_decide (is_Some (nl_index acc !! id))) with (DuplicateNodeId id);
  data ← ok_or (wn_data wire) (InvalidNode ("node " +:+ id +:+ " has no data"));
  node_type ← parse_kind id data;
  node ← build_node id node_type data;
  _ ← match structured_schema node with
      | Some schema =>
          map_err (fun e => InvalidNode ("node " +:+ id +:+ " has an invalid structured output schema: "
                                           +:+ structured_output_message e))
            (validate_structured_output_schema schema)
      | None => Ok tt
      end;
  Ok {| nl_nodes := nl_nodes acc ++ [node];
        nl_index := <[id := length (nl_nodes acc)]> (nl_index acc);
        nl_containment := nl_containment acc ++
          [{| entry_id := id; entry_parent := wn_parent_id wire; entry_type := node_type;
              entry_interactive := node_interactive node |}] |}.

Definition parse_nodes (wire : list WireNode) : result GraphError NodeLoop :=
  fold_result add_node {| nl_nodes := []; nl_index := ∅; nl_containment := [] |} wire.
End nodes.

(** ** Edges *)

Definition add_edge (index_by_id : gmap string nat)
    (acc : list GEdge * list WorkflowGraphEdge) (wire : WireEdge) :
    result GraphError (list GEdge * list WorkflowGraphEdge) :=
  source ← ok_or (we_source wire) (DanglingEdge (default "" (we_target wire)));
  target ← ok_or (we_target wire) (DanglingEdge source);
  source_index ← ok_or (index_by_id !! source) (DanglingEdge source);
  target_index ← ok_or (index_by_id !! target) (DanglingEdge target);
  Ok (acc.1 ++ [{| e_src := source_index; e_dst := target_index;
                   e_handle := we_source_handle wire |}],
      acc.2 ++ [{| source := source; target := target; source_handle := we_source_handle wire |}]).

Definition parse_edges (index_by_id : gmap string nat) (wire : list WireEdge) :
    result GraphError (list GEdge * list WorkflowGraphEdge) :=
  fold_result (add_edge index_by_id) ([], []) wire.

(** ** The scope *)

Definition with_regions (g : WorkflowGraph) (regions : gmap string CompositeRegion)
    (by_member : gmap string string) : WorkflowGraph :=
  {| g_nodes := g_nodes g; g_edges := g_edges g; g_index_by_id := g_index_by_id g;
     g_topo_rank := g_topo_rank g; g_global_variables := g_global_variables g;
     g_loops := g_loops g; g_regions := regions; g_region_by_member := by_member |}.

Section scope.
Context {debug : DebugText} {json : JsonText} {policy : PolicyDecode} {order : HashOrder}
  {pet : Petgraph} {envelope : EnvelopeDecode}.

(** [regions.values().flat_map(..).collect()]: a later pair replaces an earlier one. *)
Definition member_pairs (regions : gmap string CompositeRegion) : list (string * string) :=
  owner ← hash_keys regions;
  match regions !! owner with
  | Some r => (fun m => (m, owner_id r)) <$> member_ids r
  | None => []
  end.

Definition region_by_member (regions : gmap string CompositeRegion) : gmap string string :=
  collect_map (member_pairs regions).

Definition derive_and_validate_regions (g : WorkflowGraph) (containment : list NodeEntry)
    (edges : list WorkflowGraphEdge) : result GraphError WorkflowGraph :=
  regions ← derive_regions containment edges;
  Ok (with_regions g regions (region_by_member regions)).

(** [parse_flat] once the document is decoded. *)
Definition parse_envelope (env : ReactFlowEnvelope) : result GraphError WorkflowGraph :=
  wire_nodes ← ok_or (env_nodes env) MissingNodes;
  wire_edges ← ok_or (env_edges env) MissingEdges;
  global_variables ← map_err InvalidGlobalVariables (into_global_variables (env_global_variables env));
  nl ← parse_nodes wire_nodes;
  es ← parse_edges (nl_index nl) wire_edges;
  reject (1 <? length (filter (fun n => gn_type n = Start) (nl_nodes nl))) with MultipleStartNodes;
  topo_order ← ok_or (toposort (length (nl_nodes nl)) es.1) CycleDetected;
  let graph := {| g_nodes := nl_nodes nl; g_edges := es.1; g_index_by_id := nl_index nl;
                  g_topo_rank := rank_of_order topo_order; g_global_variables := global_variables;
                  g_loops := []; g_regions := ∅; g_region_by_member := ∅ |} in
  graph ← derive_and_validate_regions graph (nl_containment nl) es.2;
  _ ← validate_derived_declarations graph;
  Ok graph.

Definition parse_flat (source : string) : result GraphError WorkflowGraph :=
  env ← ok_or (envelope_from_str source) InvalidJson; parse_envelope env.
End scope.

(** ** Lemmas *)

Lemma index_nodes_snoc nodes n :
  gn_id n ∉ (gn_id <$> nodes) ->
  index_nodes (nodes ++ [n]) = <[gn_id n := length nodes]> (index_nodes nodes).
Proof.
  intros Hfresh. unfold index_nodes. rewrite imap_app, list_to_map_app. cbn [imap list_to_map].
  rewrite Nat.add_0_r. cbn. apply map_eq. intros k. rewrite lookup_union, lookup_insert.
  case_decide as Hk.
  - subst k. rewrite (not_elem_of_list_to_map_1 _ (gn_id n)).
    + by rewrite lookup_insert_eq.
    + by rewrite imap_fst.
  - rewrite lookup_insert_ne, lookup_empty by done. by destruct (_ !! k).
Qed.

(** The configuration of a node matches its kind, and its inputs and schema are valid. *)
Definition node_configured `{DebugText} (n : WorkflowGraphNode) : Prop :=
  start_inputs_ok (gn_input_variables n) /\
  (is_Some (gn_condition_config n) <-> gn_type n = NodeTypes.Condition) /\
  (is_Some (gn_aggregator_config n) <-> gn_type n = Aggregator) /\
  (is_Some (gn_iteration_config n) <-> gn_type n = Iteration) /\
  (forall schema, structured_schema n = Some schema ->
     validate_structured_output_schema schema = Ok tt).

Section parse_lemmas.
Context {debug : DebugText} {json : JsonText} {policy : PolicyDecode}.

Lemma build_node_Ok id t data n :
  build_node id t data = Ok n ->
  gn_id n = id /\ gn_type n = t /\
  start_inputs_ok (gn_input_variables n) /\
  (is_Some (gn_condition_config n) <-> t = NodeTypes.Condition) /\
  (is_Some (gn_aggregator_config n) <-> t = Aggregator) /\
  (is_Some (gn_iteration_config n) <-> t = Iteration).
Proof.
  unfold build_node. intros H. inv_ok.
  assert (start_inputs_ok x) as Hin.
  { assert (start_inputs_ok []) as Hnil by (split; constructor).
    destruct t; simplify_eq; try done.
    destruct (into_start_input_variables _) as [vs|] eqn:E; inv_ok.
    by apply start_inputs_valid in E as [? _]. }
  simpl. split_and!; [done|done|done|..].
  all: destruct t; inv_ok; split; intros Hs; first [done | by destruct Hs | by eexists | idtac].
  all: unfold parse_iteration_config in *; destruct (wn_iteration_config data); inv_ok; by eexists.
Qed.

(** What the node loop has built from the wire nodes seen so far. *)
Record nodes_built (wire : list WireNode) (nl : NodeLoop) : Prop := {
  nb_ids : NoDup (gn_id <$> nl_nodes nl);
  nb_index : nl_index nl = index_nodes (nl_nodes nl);
  nb_wire : wn_id <$> wire = Some <$> (gn_id <$> nl_nodes nl);
  nb_containment : Forall2 (fun n e => entry_id e = gn_id n /\ entry_type e = gn_type n /\
                              entry_interactive e = node_interactive n)
                     (nl_nodes nl) (nl_containment nl);
  nb_parents : entry_parent <$> nl_containment nl = wn_parent_id <$> wire;
  nb_configs : Forall node_configured (nl_nodes nl);
}.

Lemma lookup_index_nodes nodes id :
  NoDup (gn_id <$> nodes) -> is_Some (index_nodes nodes !! id) <-> id ∈ (gn_id <$> nodes).
Proof.
  intros Hnd. unfold index_nodes. rewrite list_elem_of_fmap. split.
  - intros [i Hi]. apply lookup_enumerate in Hi as (n & Hn & <-); [|done].
    exists n. split; [done|]. by eapply list_elem_of_lookup_2.
  - intros (n & -> & [i Hi]%list_elem_of_lookup). exists i. apply lookup_enumerate; [done|eauto].
Qed.

Lemma add_node_built wire w nl nl' :
  nodes_built wire nl -> add_node nl w = Ok nl' -> nodes_built (wire ++ [w]) nl'.
Proof.
  intros [Hids Hindex Hwire Hcont Hpar Hconf]. unfold add_node. intros H. inv_ok.
  apply bool_decide_eq_false in Hx0.
  apply build_node_Ok in Hx3 as (Hid & Ht & Hstart & Hc & Ha & Hi). subst.
  rewrite Hindex, lookup_index_nodes in Hx0 by done.
  split; simpl.
  - rewrite fmap_app. apply NoDup_app. split_and!; [done| |apply NoDup_singleton].
    intros y Hy ->%list_elem_of_singleton. done.
  - by rewrite index_nodes_snoc, Hindex.
  - rewrite !fmap_app, Hwire. simpl. f_equal. by destruct (wn_id w); inv_ok; simplify_eq/=.
  - apply Forall2_app; [done|]. by repeat constructor.
  - by rewrite !fmap_app, Hpar.
  - apply Forall_app. split; [done|]. constructor; [|constructor]. unfold node_configured.
    do 4 (split; [done|]). intros schema Hs. rewrite Hs in Hx4.
    destruct (validate_structured_output_schema schema) as [[]|]; [done|by inv_ok].
Qed.

Lemma parse_nodes_built wire nl : parse_nodes wire = Ok nl -> nodes_built wire nl.
Proof.
  unfold parse_nodes. intros H. eapply (fold_result_inv nodes_built); [| |done].
  - split; simpl; try constructor; by rewrite ?fmap_nil.
  - intros l w s1 s2 Hb _ Hadd. by eapply add_node_built.
Qed.
End parse_lemmas.

(** Each edge and its resolution to vertices. *)
Definition edge_resolved (nodes : list WorkflowGraphNode) (ge : GEdge) (e : WorkflowGraphEdge) : Prop :=
  (exists n, nodes !! e_src ge = Some n /\ gn_id n = source e) /\
  (exists m, nodes !! e_dst ge = Some m /\ gn_id m = target e) /\
  e_handle ge = source_handle e.

Lemma parse_edges_Ok nodes wire es :
  NoDup (gn_id <$> nodes) -> parse_edges (index_nodes nodes) wire = Ok es ->
  Forall2 (edge_resolved nodes) es.1 es.2 /\
  Forall2 (fun w e => we_source w = Some (source e) /\ we_target w = Some (target e) /\
             we_source_handle w = source_handle e) wire es.2.
Proof.
  intros Hnd H. eapply (fold_result_inv (fun wire es =>
    Forall2 (edge_resolved nodes) es.1 es.2 /\
    Forall2 (fun w e => we_source w = Some (source e) /\ we_target w = Some (target e) /\
             we_source_handle w = source_handle e) wire es.2)); [| |exact H].
  { by repeat constructor. }
  intros l w s1 s2 [H1 H2] _ Hadd. unfold add_edge in Hadd. inv_ok. simpl.
  apply lookup_enumerate in Hx1, Hx2; [|done..]. split.
  - apply Forall2_app; [done|]. by repeat constructor.
  - apply Forall2_app; [done|]. constructor; [|constructor]. simpl. by split_and!.
Qed.

Section global_lemmas.
Context {debug : DebugText}.

Definition globals_ok (vs : list WorkflowGlobalVariable) : Prop :=
  NoDup (gv_name <$> vs) /\ Forall global_ok vs /\
  exists user, vs = user ++
    ((fun p => {| gv_name := p.1; gv_value_type := p.2; gv_value := None |}) <$> RUNTIME_VARIABLES).

Lemma restore_inv vs owned :
  NoDup (gv_name <$> vs) -> NoDup (gv_name <$> restore_runtime_variable vs owned).
Proof.
  intros Hnd. unfold restore_runtime_variable. rewrite fmap_app. apply NoDup_app. split_and!.
  - clear -Hnd. induction vs as [|v vs IH]; [by constructor|]. csimpl in Hnd.
    apply NoDup_cons in Hnd as [Hv Hnd]. destruct (decide (gv_name v <> owned.1)).
    + rewrite filter_cons_True by done. csimpl. apply NoDup_cons. split; [|by apply IH].
      intros (x & Hx & [_ Hin]%list_elem_of_filter)%list_elem_of_fmap.
      apply Hv. rewrite Hx. by apply list_elem_of_fmap_2.
    + rewrite filter_cons_False by done. by apply IH.
  - intros x (v & -> & [Hv _]%list_elem_of_filter)%list_elem_of_fmap Hx%list_elem_of_singleton. done.
  - apply NoDup_singleton.
Qed.

Lemma globals_ok_from wire vs : into_global_variables wire = Ok vs -> globals_ok vs.
Proof.
  unfold into_global_variables. intros H. inv_ok.
  set (ok := fun v => 2 <= length (split_char DOT (gv_name v)) /\
    is_supported_variable_type (gv_value_type v) = true /\
    (forall y, gv_value v = Some y -> workflow_value_matches_type y (gv_value_type v) = true) /\
    (gv_value v = None -> gv_name v = "sys.workflow_id" \/ gv_name v = "sys.timestamp")).
  assert (NoDup (gv_name <$> x) /\ Forall ok x) as [Hnd Hall].
  { eapply (fold_result_inv (fun _ x => NoDup (gv_name <$> x) /\ Forall ok x)); [| |exact Hx];
      [split; constructor|]. clear. intros l w s1 s2 [Hnd Hall] _ Hadd.
    unfold add_global_variable in Hadd. inv_ok. reflect_bools. split.
    - rewrite fmap_app. apply NoDup_app. split_and!; [done| |apply NoDup_singleton].
      intros y Hy ->%list_elem_of_singleton. done.
    - apply Forall_app. split; [done|]. constructor; [|constructor]. simpl. split_and!.
      + apply Nat.ltb_ge. tauto.
      + tauto.
      + intros y Hy. simpl in *. destruct (wg_value w) eqn:Ew; inv_ok; simplify_eq.
        by apply normalize_matches in Hx4 as [? _].
      + intros Hv. simpl in *. destruct (wg_value w) eqn:Ew; inv_ok; simplify_eq.
        destruct (decide (trim (default "" (wg_name w)) = "sys.workflow_id")); [by left|].
        destruct (decide (trim (default "" (wg_name w)) = "sys.timestamp")); [by right|].
        exfalso. naive_solver. }
  unfold globals_ok. split; [|split].
  - cbn [fold_left RUNTIME_VARIABLES]. by do 2 apply restore_inv.
  - cbn [fold_left RUNTIME_VARIABLES]. unfold restore_runtime_variable. simpl.
    rewrite filter_app. repeat (apply Forall_app; split).
    + apply Forall_forall. intros v [Hn1 [Hn2 Hin]%list_elem_of_filter]%list_elem_of_filter.
      rewrite Forall_forall in Hall. destruct (Hall v Hin) as (? & ? & ? & Hrt).
      split_and!; [done..|]. intros Hv. destruct (Hrt Hv); simplify_eq; done.
    + rewrite filter_cons_True by done. constructor; [|constructor].
      unfold global_ok. simpl. split_and!; [vm_compute; lia|by vm_compute|done|]. intros _. by left.
    + constructor; [|constructor]. unfold global_ok. simpl.
      split_and!; [vm_compute; lia|by vm_compute|done|]. intros _. right. by left.
  - cbn [fold_left RUNTIME_VARIABLES]. unfold restore_runtime_variable. simpl.
    rewrite filter_app, filter_cons_True by done. eexists. by rewrite <-app_assoc.
Qed.
End global_lemmas.

(** ** Regions of a parsed graph *)

(** Membership is the inverse of the regions; every region belongs to an iteration node, its
    members are nodes that may run inside it, and its boundary is closed. *)
Record regions_ok (g : WorkflowGraph) : Prop := {
  ro_owner m o : region_owner g m = Some o <-> exists r, region g o = Some r /\ m ∈ member_ids r;
  ro_iteration o r : region g o = Some r ->
    owner_id r = o /\ member_ids r <> [] /\ exists n, node g o = Some n /\ gn_type n = Iteration;
  ro_member o r m : region g o = Some r -> m ∈ member_ids r ->
    (exists n, node g m = Some n /\ gn_type n <> Output /\ gn_type n <> Iteration /\
       node_interactive n = false) /\ tc (id_step g) o m;
  ro_closed o r a b : region g o = Some r -> id_step g a b ->
    (a ∈ member_ids r -> b ∈ member_ids r) /\ (b ∈ member_ids r -> a = o \/ a ∈ member_ids r);
}.

Section region_parse.
Context {order : HashOrder}.

Lemma elem_of_member_pairs regions m o :
  (forall o r, regions !! o = Some r -> owner_id r = o) ->
  (m, o) ∈ member_pairs regions <-> exists r, regions !! o = Some r /\ m ∈ member_ids r.
Proof.
  intros Hown. unfold member_pairs. rewrite list_elem_of_bind. split.
  - intros (k & Hin & [r Hr]%elem_of_hash_keys). rewrite Hr in Hin.
    apply list_elem_of_fmap in Hin as (m' & [= -> ->] & Hm). rewrite (Hown _ _ Hr). by exists r.
  - intros (r & Hr & Hm). exists o. split; [|by apply elem_of_hash_keys]. rewrite Hr.
    rewrite <-(Hown _ _ Hr) at 1. apply list_elem_of_fmap. by exists m.
Qed.

Lemma region_by_member_spec nodes edges regions m o :
  NoDup (entry_id <$> nodes) -> derive_regions nodes edges = Ok regions ->
  region_by_member regions !! m = Some o <->
  exists r, regions !! o = Some r /\ m ∈ member_ids r.
Proof.
  intros Hnd [_ Hch]%derive_regions_children.
  assert (forall o r, regions !! o = Some r -> owner_id r = o) as Hown.
  { intros o' r [_ ->]%Hch. done. }
  unfold region_by_member. rewrite lookup_collect_map, elem_of_member_pairs; [done|done|].
  intros v1 v2. rewrite !elem_of_member_pairs by done.
  intros (r1 & [_ ->]%Hch & H1) (r2 & [_ ->]%Hch & H2). simpl in *. unfold children in *.
  apply list_elem_of_fmap in H1 as (e1 & -> & [Hp1 H1]%list_elem_of_filter).
  apply list_elem_of_fmap in H2 as (e2 & Heq & [Hp2 H2]%list_elem_of_filter).
  apply list_elem_of_lookup in H1 as [i Hi], H2 as [j Hj].
  assert (i = j) as ->; [|congruence].
  eapply NoDup_lookup; [exact Hnd| |]; rewrite list_lookup_fmap; [by rewrite Hi|by rewrite Hj, Heq].
Qed.
End region_parse.

Lemma entries_kind nodes entries m :
  Forall2 (fun n e => entry_id e = gn_id n /\ entry_type e = gn_type n /\
             entry_interactive e = node_interactive n) nodes entries ->
  kind_of entries m = gn_type <$> find_first (fun n => bool_decide (gn_id n = m)) nodes /\
  is_interactive entries m =
    default false (node_interactive <$> find_first (fun n => bool_decide (gn_id n = m)) nodes).
Proof.
  unfold kind_of, is_interactive, find_entry.
  induction 1 as [|n e nodes entries (Hid & Ht & Hi) _ IH]; [done|].
  cbn [find_first]. rewrite Hid. case_bool_decide; [|done]. simpl. by rewrite Ht, Hi.
Qed.

Lemma edge_step_id_step g es x y :
  Forall2 (edge_resolved (g_nodes g)) (g_edges g) es -> edge_step es x y <-> id_step g x y.
Proof.
  intros Hf. split.
  - intros (e & [i Hi]%list_elem_of_lookup & <- & <-).
    destruct (Forall2_lookup_r _ _ _ _ _ Hf Hi) as (ge & Hge & (n & Hn & Hs) & (m & Hm & Ht) & _).
    exists ge, n, m. split_and!; [by eapply list_elem_of_lookup_2|done..].
  - intros (ge & n & m & [i Hi]%list_elem_of_lookup & Hn & Hm & <- & <-).
    destruct (Forall2_lookup_l _ _ _ _ _ Hf Hi) as (e & He & (n' & Hn' & Hs) & (m' & Hm' & Ht) & _).
    simplify_eq. exists e. split_and!; [by eapply list_elem_of_lookup_2|done..].
Qed.

(** A graph without regions. *)
Lemma no_regions_ok g : g_regions g = ∅ -> g_region_by_member g = ∅ -> regions_ok g.
Proof.
  intros Hr Hm. unfold region_owner, region.
  split; unfold region_owner, region; rewrite ?Hr, ?Hm; setoid_rewrite lookup_empty; naive_solver.
Qed.

Lemma regions_ok_closed g : regions_ok g ->
  scope_closed g Outer /\ forall o r, region g o = Some r -> scope_closed g (Projection.Region o r).
Proof.
  intros Hr. split.
  - intros a b Hab. simpl. rewrite !bool_decide_eq_true. intros Hb. left.
    destruct (region_owner g a) as [o|] eqn:Ea; [|done].
    apply (ro_owner g Hr) in Ea as (r & Hor & Ha).
    destruct (ro_closed g Hr o r a b Hor Hab) as [Hin _].
    assert (region_owner g b = Some o) as Hb' by (apply (ro_owner g Hr); eauto). congruence.
  - intros o r Hor a b Hab. simpl. unfold region_contains. rewrite !existsb_True.
    intros (m & Hm & ->%bool_decide_eq_true).
    destruct (ro_closed g Hr o r a b Hor Hab) as [_ Hin].
    destruct (Hin Hm) as [->|Ha]; [by right|left]. exists a. split; [done|by apply bool_decide_true].
Qed.

Lemma resolved_in_range nodes ges es :
  Forall2 (edge_resolved nodes) ges es -> edges_in_range (length nodes) ges.
Proof.
  unfold edges_in_range. induction 1 as [|ge e ges es (Hs & Hd & _) _ IH]; [constructor|].
  constructor; [|done]. destruct Hs as (n & Hn%lookup_lt_Some & _), Hd as (m & Hm%lookup_lt_Some & _).
  done.
Qed.

Section parse.
Context {debug : DebugText} {json : JsonText} {policy : PolicyDecode} {order : HashOrder}
  {pet : Petgraph} {envelope : EnvelopeDecode}.

Lemma with_regions_ok g containment edges g' :
  graph_ok g -> NoDup (entry_id <$> containment) ->
  Forall2 (fun n e => entry_id e = gn_id n /\ entry_type e = gn_type n /\
             entry_interactive e = node_interactive n) (g_nodes g) containment ->
  Forall2 (edge_resolved (g_nodes g)) (g_edges g) edges ->
  derive_and_validate_regions g containment edges = Ok g' -> graph_ok g' /\ regions_ok g'.
Proof.
  intros Hg Hnd Hcont Hedges. unfold derive_and_validate_regions. intros H. inv_ok.
  rename x into regions, Hx into Hder.
  assert (graph_ok (with_regions g regions (region_by_member regions))) as Hg' by (destruct Hg; by split).
  split; [done|].
  assert (forall m, node (with_regions g regions (region_by_member regions)) m
    = find_first (fun n => bool_decide (gn_id n = m)) (g_nodes g)) as Hnode.
  { intros m. destruct (find_first _ _) as [n|] eqn:E.
    - apply find_first_Some in E as [Hin Hm%bool_decide_eq_true]. by apply node_Some.
    - destruct (node _ m) as [n|] eqn:En; [|done]. apply node_Some in En as [Hin Hm]; [|done].
      apply find_first_None in E. rewrite Forall_forall in E. apply E in Hin.
      by rewrite bool_decide_true in Hin. }
  destruct (derive_regions_children _ _ _ Hder) as [Hpar Hch].
  assert (forall a b, edge_step edges a b <->
    id_step (with_regions g regions (region_by_member regions)) a b) as Hstep
    by (intros a b; by apply edge_step_id_step).
  assert (forall o r, regions !! o = Some r -> owner_id r = o) as Hown by (by intros o r [_ ->]%Hch).
  split.
  - intros m o. by apply (region_by_member_spec containment edges).
  - intros o r Hr. split; [by apply Hown|]. split; [by eapply derive_regions_rules in Hder as [? _]|].
    pose proof Hr as [Hne ->]%Hch. unfold children in Hne.
    destruct (filter _ containment) as [|e es] eqn:Ef; [done|].
    assert (e ∈ filter (fun e => entry_parent e = Some o) containment) as [Hp Hin]%list_elem_of_filter
      by (rewrite Ef; by left).
    apply (Hpar e o) in Hin; [|done]. rewrite Hnode.
    rewrite (proj1 (entries_kind _ _ o Hcont)) in Hin.
    apply fmap_Some in Hin as (n & Hn & Ht). eauto.
  - intros o r m Hr Hm. pose proof (derive_regions_rules _ _ _ _ _ Hder Hr) as (_ & Hreach & Hmem & _).
    destruct (Hmem m Hm) as (H1 & H2 & H3). split.
    + destruct (entries_kind _ _ m Hcont) as [Hk Hi]. rewrite Hk in H1, H2. rewrite Hi in H3.
      pose proof Hr as [_ ->]%Hch. simpl in Hm. unfold children in Hm.
      apply list_elem_of_fmap in Hm as (e & -> & [_ Hin]%list_elem_of_filter).
      apply list_elem_of_lookup in Hin as [i Hi'].
      destruct (Forall2_lookup_r _ _ _ _ _ Hcont Hi') as (n & Hn & Hid & _).
      rewrite Hnode. destruct (find_first _ _) as [n'|] eqn:En.
      * exists n'. simpl in *. split_and!; [done|congruence|congruence|done].
      * apply find_first_None in En. rewrite Forall_forall in En.
        apply list_elem_of_lookup_2, En in Hn. by rewrite bool_decide_true in Hn.
    + specialize (Hreach m Hm). rewrite (Hown _ _ Hr) in Hreach. revert Hreach.
      clear -Hstep. induction 1 as [x y [Hxy _]|x y z [Hxy _] _ IH].
      * apply tc_once. by apply Hstep.
      * eapply tc_l; [by apply Hstep|done].
  - intros o r a b Hr Hab%Hstep.
    pose proof (derive_regions_rules _ _ _ _ _ Hder Hr) as (_ & _ & _ & Hout & Hin).
    rewrite (Hown _ _ Hr) in Hin. split; [by apply Hout|by apply Hin].
Qed.

(** C4: a graph the parser accepts is well formed: the index and the ranks are consistent and the
    graph is acyclic; nodes and edges are those of the document, in order; at most one node is a
    Start; every node carries the configuration of its kind, with valid inputs and schema; the
    global variables are unique, typed and complete with the runtime-owned ones; every region
    belongs to an iteration node and is enclosed, so that the outer graph and every region are
    scopes the projection can run to completion; and the derived declarations type-check. *)
Theorem parse_flat_sound text g :
  parse_flat text = Ok g ->
  graph_ok g /\ regions_ok g /\
  (scope_closed g Outer /\ forall o r, region g o = Some r -> scope_closed g (Projection.Region o r)) /\
  Forall node_configured (g_nodes g) /\ globals_ok (g_global_variables g) /\
  (forall n m, n ∈ g_nodes g -> m ∈ g_nodes g -> gn_type n = Start -> gn_type m = Start -> n = m) /\
  validate_derived_declarations g = Ok tt /\ g_loops g = [] /\
  exists env nodes edges, envelope_from_str text = Some env /\ env_nodes env = Some nodes /\
    env_edges env = Some edges /\ wn_id <$> nodes = Some <$> (gn_id <$> g_nodes g) /\
    Forall2 (fun w ge => exists e, edge_resolved (g_nodes g) ge e /\
      we_source w = Some (source e) /\ we_target w = Some (target e) /\
      we_source_handle w = source_handle e) edges (g_edges g).
Proof.
  unfold parse_flat, parse_envelope. intros H. inv_ok.
  rename x into env, x0 into nodes, x1 into edges, x2 into globals, x3 into nl, x4 into es.
  apply parse_nodes_built in Hx3 as [Hids Hindex Hwire Hcont Hpar Hconf].
  rewrite Hindex in Hx4. apply parse_edges_Ok in Hx4 as [Hres Hwe]; [|done].
  set (g0 := {| g_nodes := nl_nodes nl |}) in *.
  assert (g0 = assemble (nl_nodes nl) es.1 x6 globals) as Hg0.
  { unfold g0, assemble. by rewrite Hindex. }
  pose proof (resolved_in_range _ _ _ Hres) as Hrange.
  assert (graph_ok g0) as Hok.
  { rewrite Hg0. apply assemble_ok; [done|done|]. by apply toposort_Some. }
  pose proof Hx7 as Hder.
  apply with_regions_ok in Hder as [Hgok Hrok]; [|done| |done|done].
  2: { replace (entry_id <$> nl_containment nl) with (gn_id <$> nl_nodes nl); [done|].
       clear -Hcont. induction Hcont as [|n e ns es (Hid & _) _ IH]; [done|]. csimpl. by rewrite Hid, IH. }
  assert (exists rs bm, g = with_regions g0 rs bm) as (rs & bm & ->).
  { unfold derive_and_validate_regions in Hx7. inv_ok. eauto. }
  split; [done|]. split; [done|]. split; [by apply regions_ok_closed|]. split; [done|].
  split; [by eapply globals_ok_from|].
  split.
  { intros n m Hn Hm Htn Htm. simpl in Hn, Hm. apply Nat.ltb_ge in Hx5.
    assert (n ∈ filter (fun n => gn_type n = Start) (nl_nodes nl)) as Hn' by (by apply list_elem_of_filter).
    assert (m ∈ filter (fun n => gn_type n = Start) (nl_nodes nl)) as Hm' by (by apply list_elem_of_filter).
    destruct (filter _ (nl_nodes nl)) as [|a [|b l]]; simpl in *; [by apply elem_of_nil in Hn'| |lia].
    apply list_elem_of_singleton in Hn', Hm'. congruence. }
  destruct x8. split; [done|]. split; [done|].
  exists env, nodes, edges. split_and!; [done..|].
  simpl. clear -Hres Hwe. revert edges Hwe. induction Hres as [|ge e ges es' He _ IH]; intros edges Hwe.
  - inversion Hwe. constructor.
  - inversion Hwe as [|w ? edges' ? Hw Hwe']; subst. constructor; [by exists e|by apply IH].
Qed.

(** A document whose nodes and edges are well formed but whose edges contain a cycle is
    rejected as such, whatever else it holds. *)
Theorem parse_flat_cycle text env nodes edges globals nl es a :
  envelope_from_str text = Some env -> env_nodes env = Some nodes -> env_edges env = Some edges ->
  into_global_variables (env_global_variables env) = Ok globals ->
  parse_nodes nodes = Ok nl -> parse_edges (nl_index nl) edges = Ok es ->
  length (filter (fun n => gn_type n = Start) (nl_nodes nl)) <= 1 ->
  tc (edge_step es.2) a a -> parse_flat text = Err CycleDetected.
Proof.
  intros Htext Hnodes Hedges Hglobals Hnl Hes Hstart Hcycle.
  unfold parse_flat, parse_envelope. rewrite Htext. cbn [ok_or mbind result_bind].
  rewrite Hnodes, Hedges, Hglobals. cbn [ok_or map_err mbind result_bind]. rewrite Hnl.
  cbn [mbind result_bind]. rewrite Hes. cbn [mbind result_bind].
  rewrite (proj2 (Nat.ltb_ge _ _) Hstart). cbn [reject_if mbind result_bind].
  apply parse_nodes_built in Hnl as [Hids Hindex _ _ _ _].
  rewrite Hindex in Hes. apply parse_edges_Ok in Hes as [Hres _]; [|done].
  destruct (toposort _ es.1) as [topo|] eqn:Et; [exfalso|done].
  apply toposort_Some in Et; [|by eapply resolved_in_range].
  set (g := assemble (nl_nodes nl) es.1 topo globals).
  assert (graph_ok g) as Hg by (apply assemble_ok; [done|by eapply resolved_in_range|done]).
  apply (id_acyclic g Hg a). eapply tc_subrel_iff; [|exact Hcycle].
  intros x y. symmetry. by apply edge_step_id_step.
Qed.
End parse.

(** ** Witnesses *)

#[local] Instance plain_debug : DebugText := {| debug_str := quoted; debug_strs := join ", " |}.
#[local] Instance no_text : JsonText := {| json_to_string _ := ""; json_from_str _ := None |}.
#[local] Instance no_policy : PolicyDecode := {| policy_from_value _ := Err "unknown" |}.
#[local] Instance insertion_order : HashOrder :=
  {| hash_order l := l; hash_order_perm l := reflexivity l |}.
#[local] Existing Instance kahn_petgraph.

Definition wire_data (kind : string) (config : option WireIterationConfig) : WireNodeData :=
  {| wn_node_type := Some kind; wn_title := None; wn_description := None; wn_instruction := None;
     wn_input := None; wn_input_variables := []; wn_agent_config := None; wn_cases := [];
     wn_aggregator_config := None; wn_outputs := []; wn_iteration_config := config |}.
Definition wire_node (id kind : string) (parent : option string)
    (config : option WireIterationConfig) : WireNode :=
  {| wn_id := Some id; wn_data := Some (wire_data kind config); wn_parent_id := parent |}.
Definition wire_edge (a b : string) : WireEdge :=
  {| we_source := Some a; we_target := Some b; we_source_handle := None |}.

Definition sample_envelope (edges : list WireEdge) : ReactFlowEnvelope :=
  {| env_nodes := Some
       [wire_node "s" "start" None None;
        wire_node "it" "iteration" None (Some
          {| wi_iterator_selector := Some ["list"; "items"]; wi_collect_selector := Some ["a"; "output"];
             wi_error_strategy := None; wi_max_iterations := None |});
        wire_node "a" "agent" (Some "it") None; wire_node "o" "output" None None];
     env_edges := Some edges;
     env_global_variables :=
       [{| wg_name := Some "list.items"; wg_value_type := Some "array[string]";
           wg_value := Some (VArray [VString "x"]) |}] |}.

(** A graph with one iteration region. *)
Definition region_config : IterationConfig :=
  {| iterator_selector := new_selector "list" "items" [];
     collect_selector := new_selector "a" "output" [];
     error_strategy := FailStrategy; max_iterations := 50 |}.
Definition region_owner_node : WorkflowGraphNode :=
  {| gn_id := "it"; gn_type := Iteration; gn_title := ""; gn_description := "";
     gn_instruction := None; gn_input_variables := []; gn_agent_config := None;
     gn_condition_config := None; gn_aggregator_config := None; gn_output_config := None;
     gn_iteration_config := Some region_config |}.
Definition region_nodes : list WorkflowGraphNode :=
  [plain_node "s" Start; region_owner_node; plain_node "a" Agent; plain_node "o" Output].
Definition region_edges : list WorkflowGraphEdge :=
  [{| source := "s"; target := "it"; source_handle := None |};
   {| source := "it"; target := "a"; source_handle := None |};
   {| source := "it"; target := "o"; source_handle := None |}].
Definition region_flat : WorkflowGraph :=
  assemble region_nodes
    [{| e_src := 0; e_dst := 1; e_handle := None |}; {| e_src := 1; e_dst := 2; e_handle := None |};
     {| e_src := 1; e_dst := 3; e_handle := None |}] [0; 1; 2; 3] [].
Definition region_members : CompositeRegion := {| owner_id := "it"; member_ids := ["a"] |}.
Definition region_graph : WorkflowGraph :=
  with_regions region_flat {["it" := region_members]} {["a" := "it"]}.

Lemma region_graph_ok : graph_ok region_graph /\ regions_ok region_graph.
Proof.
  set (containment := (fun n => {| entry_id := gn_id n;
    entry_parent := if bool_decide (gn_id n = "a") then Some "it" else None;
    entry_type := gn_type n; entry_interactive := node_interactive n |}) <$> region_nodes).
  apply (with_regions_ok region_flat containment region_edges).
  - apply assemble_ok.
    + by apply (bool_decide_unpack _).
    + repeat constructor; simpl; lia.
    + apply (toposort_Some (Petgraph:=kahn_petgraph)); [repeat constructor; simpl; lia|].
      vm_compute. reflexivity.
  - by apply (bool_decide_unpack _).
  - repeat constructor.
  - repeat constructor; simpl; by eexists.
  - vm_compute. reflexivity.
Qed.

(** A decoder that knows two documents. *)
#[local] Instance two_documents : EnvelopeDecode := {|
  envelope_from_str text :=
    if bool_decide (text = "region")
    then Some (sample_envelope [wire_edge "s" "it"; wire_edge "it" "a"; wire_edge "it" "o"])
    else if bool_decide (text = "cycle")
    then Some (sample_envelope [wire_edge "s" "it"; wire_edge "it" "o"; wire_edge "o" "it"])
    else None;
|}.

Lemma parse_flat_sound_witness :
  exists g, parse_flat "region" = Ok g /\ gn_id <$> nodes_in_topological_order g = ["s"; "it"; "a"; "o"] /\
    region_owner g "a" = Some "it" /\ graph_ok g /\ regions_ok g.
Proof.
  destruct (parse_flat "region") as [g|] eqn:E; [|discriminate E]. exists g.
  split; [first [exact E | reflexivity]|].
  destruct (parse_flat_sound "region" g E) as (Hg & Hr & _).
  assert (Ok g = parse_flat "region") as Hrun by (rewrite E; reflexivity).
  vm_compute in Hrun. injection Hrun as ->.
  split; [vm_compute; reflexivity|]. split; [vm_compute; reflexivity|]. split; [exact Hg | exact Hr].
Defined.

Lemma parse_flat_cycle_witness : parse_flat "cycle" = Err CycleDetected.
Proof.
  destruct (into_global_variables (env_global_variables (sample_envelope []))) as [globals|] eqn:Eg;
    [|discriminate Eg].
  destruct (parse_nodes (default [] (env_nodes (sample_envelope [])))) as [nl|] eqn:En; [|discriminate En].
  set (edges := [wire_edge "s" "it"; wire_edge "it" "o"; wire_edge "o" "it"]).
  destruct (parse_edges (nl_index nl) edges) as [es|] eqn:Ee.
  2: { vm_compute in En. injection En as <-. discriminate Ee. }
  refine (parse_flat_cycle "cycle" (sample_envelope edges) _ edges globals nl es "it"
    eq_refl eq_refl eq_refl Eg En Ee _ _).
  - vm_compute in En. injection En as <-. vm_compute. lia.
  - vm_compute in En. injection En as <-. vm_compute in Ee. injection Ee as <-.
    apply tc_l with "o"; [|apply tc_once].
    + exists {| source := "it"; target := "o"; source_handle := None |}.
      split_and!; [|reflexivity|reflexivity]. by right; left.
    + exists {| source := "o"; target := "it"; source_handle := None |}.
      split_and!; [|reflexivity|reflexivity]. by right; right; left.
Defined.
