(* ===== verification/RunPayload.v ===== *)
(** * The durable payload of a run

    [WorkflowRunPayload] ([engine/skill_delivery.rs]) and the maintenance of it by the run
    repository ([crates/db/src/repository/workflow_run_engine/]: [payload.rs], the execution
    state of [iteration.rs] and the reset of [resume.rs]).  The columns hold the payload as JSON
    text written and read by serde; the definitions work on the decoded record, [None] being a
    run without a payload column. *)

From S2P Require Import Prelude RustStr Order Json VariablePool VariableTemplate.
From S2P Require Import Iteration GraphBase NodeConfig NodeTypes Graph Declarations.
Local Open Scope ora_scope.

(** The locale and the materialisation receipt are not read here: opaque text. *)
Record WorkflowRunPayload : Type := {
  locale : string;
  skill_materialization : string;
  start_node_id : option string;
  variable_pool : WorkflowVariablePool;
  condition_decisions : gmap string string;
  iteration_ledgers : gmap string IterationLedger;
  iteration_condition_decisions : gmap string string;
  inject_last_failure : bool;
}.

Definition with_variable_pool (locale skills : string) (start : option string)
    (pool : WorkflowVariablePool) : WorkflowRunPayload :=
  {| locale := locale; skill_materialization := skills; start_node_id := start;
     variable_pool := pool; condition_decisions := ∅; iteration_ledgers := ∅;
     iteration_condition_decisions := ∅; inject_last_failure := true |}.

Definition new_payload (locale skills : string) : WorkflowRunPayload :=
  with_variable_pool locale skills None empty_pool.

Definition set_pool (pool : WorkflowVariablePool) (p : WorkflowRunPayload) : WorkflowRunPayload :=
  {| locale := locale p; skill_materialization := skill_materialization p;
     start_node_id := start_node_id p; variable_pool := pool;
     condition_decisions := condition_decisions p; iteration_ledgers := iteration_ledgers p;
     iteration_condition_decisions := iteration_condition_decisions p;
     inject_last_failure := inject_last_failure p |}.
Definition set_decisions (d : gmap string string) (p : WorkflowRunPayload) : WorkflowRunPayload :=
  {| locale := locale p; skill_materialization := skill_materialization p;
     start_node_id := start_node_id p; variable_pool := variable_pool p;
     condition_decisions := d; iteration_ledgers := iteration_ledgers p;
     iteration_condition_decisions := iteration_condition_decisions p;
     inject_last_failure := inject_last_failure p |}.
Definition set_ledgers (l : gmap string IterationLedger) (p : WorkflowRunPayload) : WorkflowRunPayload :=
  {| locale := locale p; skill_materialization := skill_materialization p;
     start_node_id := start_node_id p; variable_pool := variable_pool p;
     condition_decisions := condition_decisions p; iteration_ledgers := l;
     iteration_condition_decisions := iteration_condition_decisions p;
     inject_last_failure := inject_last_failure p |}.
Definition set_round_decisions (d : gmap string string) (p : WorkflowRunPayload) : WorkflowRunPayload :=
  {| locale := locale p; skill_materialization := skill_materialization p;
     start_node_id := start_node_id p; variable_pool := variable_pool p;
     condition_decisions := condition_decisions p; iteration_ledgers := iteration_ledgers p;
     iteration_condition_decisions := d; inject_last_failure := inject_last_failure p |}.
Definition with_inject_last_failure (inject : bool) (p : WorkflowRunPayload) : WorkflowRunPayload :=
  {| locale := locale p; skill_materialization := skill_materialization p;
     start_node_id := start_node_id p; variable_pool := variable_pool p;
     condition_decisions := condition_decisions p; iteration_ledgers := iteration_ledgers p;
     iteration_condition_decisions := iteration_condition_decisions p;
     inject_last_failure := inject |}.

(** ** Branch decisions *)

Definition legacy_decision (p : string * Value) : option (string * string) :=
  node_id ← str_strip_suffix ".selected_branch_id" p.1;
  branch ← as_str p.2;
  Some (node_id, branch).

Definition resolved_condition_decisions (p : WorkflowRunPayload) : gmap string string :=
  condition_decisions p
  ∪ collect_map (omap legacy_decision (btree_entries str_le (values (variable_pool p)))).

Definition iteration_decision_key (condition_node_id : string) (round : N) : string :=
  condition_node_id +:+ "#" +:+ of_N round.

Definition iteration_round_decisions (p : WorkflowRunPayload) (round : N) : gmap string string :=
  collect_map
    (omap (fun kv => id ← str_strip_suffix ("#" +:+ of_N round) kv.1; Some (id, kv.2))
       (btree_entries str_le (iteration_condition_decisions p))).

(** ** The ledger *)

Definition iteration_ledger (p : WorkflowRunPayload) (iteration_node_id : string) :
    option IterationLedger :=
  iteration_ledgers p !! iteration_node_id.

Inductive WorkflowRunPayloadError : Type :=
| RoundAlreadySettled (iteration_node_id : string) (round : N).

(** The entry API creates the ledger before the round is looked up in it. *)
Definition record_round_outcome (p : WorkflowRunPayload) (iteration_node_id : string) (round : N)
    (outcome : RoundOutcome) : result WorkflowRunPayloadError WorkflowRunPayload :=
  let ledger := default ∅ (iteration_ledgers p !! iteration_node_id) in
  reject (bool_decide (is_Some (ledger !! round))) with (RoundAlreadySettled iteration_node_id round);
  Ok (set_ledgers (<[iteration_node_id := <[round := outcome]> ledger]> (iteration_ledgers p)) p).

(** ** Maintenance by the repository *)

Inductive PayloadError : Type :=
| PoolFailed (e : WorkflowVariablePoolError)
| CorruptJson (text : string)
| MissingStartOwner.

Section repository.
Context {debug : DebugText} {json : JsonText}.

(** [write_pool_variable]: an undeclared selector is skipped; the flag says whether it wrote. *)
Definition write_pool_variable (pool : WorkflowVariablePool) (selector writer : string)
    (value : Value) : result PayloadError (bool * WorkflowVariablePool) :=
  match catalog pool !! selector with
  | None => Ok (false, pool)
  | Some _ => map_err PoolFailed ((fun pool => (true, pool)) <$> set pool selector writer value)
  end.

(** [write_declared_pool_variable]: an undeclared selector is an error. *)
Definition write_declared_pool_variable (pool : WorkflowVariablePool) (selector writer : string)
    (value : Value) : result PayloadError WorkflowVariablePool :=
  match catalog pool !! selector with
  | None => Err (PoolFailed (Undeclared selector))
  | Some _ => map_err PoolFailed (set pool selector writer value)
  end.

(** [update_run_execution_state]: what a completed node writes.  The code skips the write of an
    unchanged payload. *)
Definition write_completion_output (p : WorkflowRunPayload) (node_id node_type : string)
    (output : option string) : result PayloadError WorkflowRunPayload :=
  if bool_decide (node_type = "condition") || bool_decide (node_type = "aggregator") then Ok p
  else
    match output with
    | Some output =>
        r ← write_pool_variable (variable_pool p) (qualified_name node_id "output") node_id (VString output);
        Ok (set_pool r.2 p)
    | None => Ok p
    end.

Definition update_run_execution_state (p : WorkflowRunPayload) (node_id node_type : string)
    (iteration : option N) (output : option string) (structured_output : option Value) :
    result PayloadError WorkflowRunPayload :=
  p ← write_completion_output p node_id node_type output;
  if bool_decide (node_type = "condition") then
    match output with
    | Some output =>
        match iteration with
        | Some round =>
            Ok (set_round_decisions
                  (<[iteration_decision_key node_id round := output]> (iteration_condition_decisions p)) p)
        | None => Ok (set_decisions (<[node_id := output]> (condition_decisions p)) p)
        end
    | None => Ok p
    end
  else if bool_decide (node_type = "agent") then
    match structured_output with
    | Some structured =>
        r ← write_pool_variable (variable_pool p) (qualified_name node_id "structured_output") node_id structured;
        Ok (set_pool r.2 p)
    | None => Ok p
    end
  else if bool_decide (node_type = "aggregator") then
    match output with
    | Some output =>
        value ← ok_or (json_from_str output) (CorruptJson output);
        r ← write_pool_variable (variable_pool p) (qualified_name node_id "output") node_id value;
        Ok (set_pool r.2 p)
    | None => Ok p
    end
  else Ok p.

Definition seed_system_variables (pool : WorkflowVariablePool) (workflow_id : string) (now : Number) :
    result PayloadError (bool * WorkflowVariablePool) :=
  a ← write_pool_variable pool "sys.workflow_id" "sys" (VString workflow_id);
  b ← write_pool_variable a.2 "sys.timestamp" "sys" (VNumber now);
  Ok (a.1 || b.1, b.2).

(** [resolve_start_writer]: the catalog is searched in key order. *)
Definition resolve_start_writer (p : WorkflowRunPayload) : option string :=
  match start_node_id p with
  | Some id => Some id
  | None =>
      (fun kv : string * WorkflowVariableDefinition => writer kv.2) <$>
      find_first (fun kv : string * WorkflowVariableDefinition => ends_with ".request" kv.1)
        (btree_entries str_le (catalog (variable_pool p)))
  end.

Definition forget (selector : string) (pool : WorkflowVariablePool) : WorkflowVariablePool :=
  {| revision := revision pool; catalog := delete selector (catalog pool);
     values := delete selector (values pool) |}.

Definition remove_legacy_instruction_aliases (p : WorkflowRunPayload) (start_writer : option string) :
    WorkflowRunPayload :=
  let pool := forget "sys.task" (variable_pool p) in
  match start_writer with
  | Some w => set_pool (forget (qualified_name w "request") pool) p
  | None => set_pool pool p
  end.

Definition bump (pool : WorkflowVariablePool) : WorkflowVariablePool :=
  {| revision := saturating_add_u64 (revision pool) 1; catalog := catalog pool; values := values pool |}.
Definition unset (selector : string) (pool : WorkflowVariablePool) : WorkflowVariablePool :=
  with_values pool (delete selector (values pool)).

Inductive RunInputRejectionReason : Type :=
| InputUndeclared
| NotStartOwned
| InputTypeMismatch (expected_type : string)
| InputLengthExceeded (max_length : N).

Inductive UpdateTaskInputError : Type :=
| Rejected (variable : string) (reason : RunInputRejectionReason)
| DatabaseFailure (e : PayloadError).

Definition input_rejection (name : string) (e : WorkflowVariablePoolError) : UpdateTaskInputError :=
  match e with
  | TypeMismatch _ t => Rejected name (InputTypeMismatch t)
  | LengthExceeded _ n => Rejected name (InputLengthExceeded n)
  | e => DatabaseFailure (PoolFailed e)
  end.

(** One round of the loop of [update_task_input_in_payload]. *)
Definition apply_start_value (start_writer : string) (pool : WorkflowVariablePool)
    (entry : string * Value) : result UpdateTaskInputError WorkflowVariablePool :=
  let '(name, value) := entry in
  let selector := qualified_name start_writer name in
  definition ← ok_or (catalog pool !! selector) (Rejected name InputUndeclared);
  reject (negb (bool_decide (writer definition = start_writer))) with (Rejected name NotStartOwned);
  if is_null value then Ok (unset selector pool)
  else map_err (input_rejection name) (set pool selector start_writer value).

Definition update_task_input (p : WorkflowRunPayload) (variables : gmap string Value) :
    result UpdateTaskInputError WorkflowRunPayload :=
  let start_writer := resolve_start_writer p in
  let p := remove_legacy_instruction_aliases p start_writer in
  match start_writer with
  | Some w =>
      pool ← fold_result (apply_start_value w) (variable_pool p) (btree_entries str_le variables);
      Ok (set_pool (bump pool) p)
  | None =>
      if bool_decide (variables = ∅) then Ok (set_pool (bump (variable_pool p)) p)
      else Err (DatabaseFailure MissingStartOwner)
  end.

Definition mirror_run_input_into_pool (p : WorkflowRunPayload) (input : option string) :
    result PayloadError WorkflowRunPayload :=
  match resolve_start_writer p with
  | None => Ok p
  | Some w =>
      let selector := qualified_name w "input" in
      match catalog (variable_pool p) !! selector with
      | None => Ok p
      | Some _ =>
          match input with
          | Some text =>
              pool ← map_err PoolFailed (set (variable_pool p) selector w (VString text));
              Ok (set_pool (bump pool) p)
          | None =>
              let pool := unset selector (variable_pool p) in
              Ok (set_pool (if bool_decide (is_Some (values (variable_pool p) !! selector))
                            then bump pool else pool) p)
          end
      end
  end.

(** The values of the pool whose declaration the predicate accepts. *)
Definition retain_values (keep : option WorkflowVariableDefinition -> bool)
    (pool : WorkflowVariablePool) : WorkflowVariablePool :=
  with_values pool (filter (fun kv => keep (catalog pool !! kv.1) = true) (values pool)).

Definition owned_by (w : option string) (d : option WorkflowVariableDefinition) : bool :=
  match w, d with Some w, Some d => bool_decide (writer d = w) | _, _ => false end.

(** [reset_run_execution_state], the payload of a restarted run. *)
Definition reset_run_execution_state (p : WorkflowRunPayload) : WorkflowRunPayload :=
  if bool_decide (catalog (variable_pool p) = ∅) && bool_decide (condition_decisions p = ∅) then p
  else
    let start_writer := resolve_start_writer p in
    let p := remove_legacy_instruction_aliases p start_writer in
    let pool := bump (retain_values (owned_by start_writer) (variable_pool p)) in
    set_round_decisions ∅ (set_ledgers ∅ (set_decisions ∅ (set_pool pool p))).

(** [key.split('#').next().unwrap_or(key)] *)
Definition HASH := byte_at 35.
Definition decision_key_node (key : string) : string :=
  match split_char HASH key with node_id :: _ => node_id | [] => key end.

(** The payload part of [resume_from_failure]. *)
Definition resume_payload (p : WorkflowRunPayload) (cleared : list string) : WorkflowRunPayload :=
  let keep_id (id : string) := negb (bool_decide (id ∈ cleared)) in
  let pool :=
    bump (retain_values
      (fun d => match d with None => true | Some d => keep_id (writer d) end) (variable_pool p)) in
  set_round_decisions
    (filter (fun kv => keep_id (decision_key_node kv.1) = true) (iteration_condition_decisions p))
    (set_ledgers (filter (fun kv => keep_id kv.1 = true) (iteration_ledgers p))
       (set_decisions (filter (fun kv => keep_id kv.1 = true) (condition_decisions p))
          (set_pool pool p))).
End repository.

(** ** Lemmas *)

Lemma of_N_hash_free n : str_free (is_char HASH) (of_N n) = true.
Proof. apply of_N_free; [done|]. intros d. unfold pretty_N_char. by repeat case_match. Qed.

Lemma hash_split_inj a b x y :
  str_free (is_char HASH) x = true -> str_free (is_char HASH) y = true ->
  a +:+ "#" +:+ x = b +:+ "#" +:+ y -> a = b /\ x = y.
Proof.
  intros Hx Hy. revert b. induction a as [|c a IH]; intros [|d b] Heq.
  - simpl in Heq. by simplify_eq.
  - simpl in Heq. injection Heq as <- ->. exfalso. revert Hx. clear. induction b as [|e b IH]; [done|].
    simpl. by intros [_ ?]%andb_true_iff.
  - simpl in Heq. injection Heq as -> <-. exfalso. revert Hy. clear. induction a as [|e b IH]; [done|].
    simpl. by intros [_ ?]%andb_true_iff.
  - simpl in Heq. injection Heq as -> Heq. by destruct (IH b Heq) as [-> ->].
Qed.

Lemma decision_key_inj a b r s :
  iteration_decision_key a r = iteration_decision_key b s -> a = b /\ r = s.
Proof.
  unfold iteration_decision_key. intros H.
  destruct (hash_split_inj a b (of_N r) (of_N s)) as [-> Hrs]; [apply of_N_hash_free..|done|].
  split; [done|]. unfold of_N in Hrs. by apply (inj pretty) in Hrs.
Qed.

Lemma strip_round k id round :
  str_strip_suffix ("#" +:+ of_N round) k = Some id <-> k = iteration_decision_key id round.
Proof. apply strip_suffix_Some. Qed.

Lemma lookup_round_decisions p round id :
  iteration_round_decisions p round !! id =
  iteration_condition_decisions p !! iteration_decision_key id round.
Proof.
  apply option_eq. intros v. unfold iteration_round_decisions.
  assert (forall w, (id, w) ∈ omap (fun kv => id ← str_strip_suffix ("#" +:+ of_N round) kv.1; Some (id, kv.2))
       (btree_entries str_le (iteration_condition_decisions p)) <->
    iteration_condition_decisions p !! iteration_decision_key id round = Some w) as Hin.
  { intros w. rewrite list_elem_of_omap. split.
    - intros ([k b] & Hk%elem_of_btree_entries & (i & Hi%strip_round & [= -> ->])%bind_Some).
      simpl in *. by subst.
    - intros Hk. exists (iteration_decision_key id round, w). split; [by apply elem_of_btree_entries|].
      apply bind_Some. exists id. split; [by apply strip_round|done]. }
  rewrite lookup_collect_map; [apply Hin|]. intros v1 v2 H1%Hin H2%Hin. congruence.
Qed.

Lemma decision_key_node_free id round :
  str_free (is_char HASH) id = true -> decision_key_node (iteration_decision_key id round) = id.
Proof.
  intros Hid. unfold decision_key_node, iteration_decision_key, split_char.
  change ("#" +:+ of_N round) with (String HASH (of_N round)).
  rewrite split_on_app; [done|done|]. by apply bool_decide_eq_true.
Qed.

Section lemmas.
Context {debug : DebugText}.

Lemma write_pool_variable_ok pool sel w v r :
  pool_ok pool -> write_pool_variable pool sel w v = Ok r -> pool_ok r.2.
Proof.
  unfold write_pool_variable. intros Hp. destruct (catalog pool !! sel); [|by intros [= <-]].
  destruct (set pool sel w v) as [pool'|] eqn:E; [|done]. intros [= <-]. by eapply set_pool_ok.
Qed.

Lemma write_pool_variable_other pool sel w v r k :
  write_pool_variable pool sel w v = Ok r -> k <> sel -> values r.2 !! k = values pool !! k.
Proof.
  unfold write_pool_variable. destruct (catalog pool !! sel); [|by intros [= <-]].
  destruct (set pool sel w v) as [pool'|] eqn:E; [|done]. intros [= <-] Hk.
  apply set_inv in E as (d & v' & _ & _ & _ & _ & ->). simpl. by rewrite lookup_insert_ne.
Qed.

Lemma write_declared_inv pool sel w v pool' :
  write_declared_pool_variable pool sel w v = Ok pool' -> set pool sel w v = Ok pool'.
Proof.
  unfold write_declared_pool_variable. destruct (catalog pool !! sel); [|done].
  destruct (set pool sel w v); [by intros [= <-]|done].
Qed.

Lemma retain_values_ok keep pool : pool_ok pool -> pool_ok (retain_values keep pool).
Proof.
  intros Hp k v. simpl. intros [Hk _]%map_lookup_filter_Some. by apply Hp.
Qed.

Lemma forget_ok sel pool : pool_ok pool -> pool_ok (forget sel pool).
Proof.
  intros Hp k v. simpl. intros [Hne Hk]%lookup_delete_Some. rewrite lookup_delete_ne by done. by apply Hp.
Qed.

Lemma remove_aliases_ok p w :
  pool_ok (variable_pool p) -> pool_ok (variable_pool (remove_legacy_instruction_aliases p w)).
Proof. intros Hp. unfold remove_legacy_instruction_aliases. destruct w; simpl; repeat apply forget_ok; done. Qed.

Lemma unset_ok sel pool : pool_ok pool -> pool_ok (unset sel pool).
Proof. intros Hp k v. simpl. intros [_ Hk]%lookup_delete_Some. by apply Hp. Qed.

(** What a list of accepted Start values did to the pool. *)
Definition start_values_stored (w : string) (l : list (string * Value))
    (acc pool : WorkflowVariablePool) : Prop :=
  catalog pool = catalog acc /\
  (forall name v, (name, v) ∈ l ->
     exists d, catalog acc !! qualified_name w name = Some d /\ writer d = w /\
       values pool !! qualified_name w name =
         (if is_null v then None else normalize_workflow_value v (value_type d))) /\
  (forall k, (forall name v, (name, v) ∈ l -> k <> qualified_name w name) ->
     values pool !! k = values acc !! k).

Lemma qualified_name_inj w a b : qualified_name w a = qualified_name w b -> a = b.
Proof. unfold qualified_name. intros H%(inj (String.append w)). by injection H. Qed.

Lemma apply_start_value_ok w pool e pool' :
  pool_ok pool -> apply_start_value w pool e = Ok pool' ->
  pool_ok pool' /\ start_values_stored w [e] pool pool'.
Proof.
  destruct e as [name v]. unfold apply_start_value, start_values_stored. intros Hp H. inv_ok.
  apply negb_false_iff, bool_decide_eq_true in Hx0.
  destruct (is_null v) eqn:En.
  - inv_ok. split_and!; [by apply unset_ok|done| |].
    + intros n v' [= -> ->]%list_elem_of_singleton. exists x. rewrite En. simpl.
      by rewrite lookup_delete_eq.
    + intros k Hk. simpl. apply lookup_delete_ne. intros <-. by eapply Hk; [left|].
  - destruct (set pool (qualified_name w name) w v) as [p'|] eqn:Es; inv_ok.
    split; [by eapply set_pool_ok|]. apply set_inv in Es as (d & v' & Hd & Hwd & Hv & _ & ->).
    split_and!; [done| |].
    + intros n u [= -> ->]%list_elem_of_singleton. exists d. rewrite En. simpl.
      by rewrite lookup_insert_eq.
    + intros k Hk. simpl. apply lookup_insert_ne. intros <-. by eapply Hk; [left|].
Qed.

Lemma apply_start_values_ok w l acc pool :
  pool_ok acc -> NoDup l.*1 -> fold_result (apply_start_value w) acc l = Ok pool ->
  pool_ok pool /\ start_values_stored w l acc pool.
Proof.
  unfold start_values_stored.
  revert acc. induction l as [|[name v] l IH]; intros acc Hacc Hnd; csimpl in *.
  { intros [= <-]. split_and!; [done|done|set_solver|done]. }
  apply NoDup_cons in Hnd as [Hname Hnd]. intros (acc' & Hstep & Hl)%bind_Ok.
  change (apply_start_value w acc (name, v) = Ok acc') in Hstep.
  apply apply_start_value_ok in Hstep as (Ha & Hc & Hv & Hother); [|done].
  destruct (IH acc' Ha Hnd Hl) as (G1 & G2 & G3 & G4). rewrite Hc in *.
  split_and!; [done|congruence| |].
  - intros n u [[= -> ->]|Hin]%elem_of_cons; [|by apply G3].
    destruct (Hv name v) as (d & ? & ? & ?); [by left|]. exists d. split_and!; [done|done|].
    rewrite G4; [done|]. intros n' u' Hin' <-%qualified_name_inj.
    apply Hname, list_elem_of_fmap. by exists (name, u').
  - intros k Hk. rewrite G4.
    + apply Hother. intros n u [= -> ->]%list_elem_of_singleton. by eapply Hk; left.
    + intros n u Hin. eapply Hk. by right.
Qed.
End lemmas.

(** ** Properties *)

Section properties.
Context {debug : DebugText} {json : JsonText}.

(** The branch a condition takes in one round of a region is recorded for that condition and
    that round only: it is what the round's projection reads, and it changes neither the
    decision of any other condition or round, whatever the node ids are, nor the decisions of
    the outer graph. *)
Theorem round_decision_isolated p p' node_id round branch structured :
  update_run_execution_state p node_id "condition" (Some round) (Some branch) structured = Ok p' ->
  (forall r id, iteration_round_decisions p' r !! id =
     if decide (r = round /\ id = node_id) then Some branch else iteration_round_decisions p r !! id) /\
  condition_decisions p' = condition_decisions p /\ variable_pool p' = variable_pool p.
Proof.
  unfold update_run_execution_state, write_completion_output. simpl. intros [= <-].
  split; [|done]. intros r id. rewrite !lookup_round_decisions. simpl.
  case_decide as Hk.
  - destruct Hk as [-> ->]. by rewrite lookup_insert_eq.
  - rewrite lookup_insert_ne; [done|]. intros [-> ->]%decision_key_inj. by destruct Hk.
Qed.

(** The ledger is append-only: a round is recorded once, recording it again is refused and
    changes nothing, and no other round, no other iteration node and no other part of the
    payload is touched. *)
Theorem ledger_append_only p owner round outcome :
  (forall p', record_round_outcome p owner round outcome = Ok p' <->
     default ∅ (iteration_ledger p owner) !! round = None /\
     p' = set_ledgers (<[owner := <[round := outcome]> (default ∅ (iteration_ledger p owner))]>
            (iteration_ledgers p)) p) /\
  (forall e, record_round_outcome p owner round outcome = Err e <->
     is_Some (default ∅ (iteration_ledger p owner) !! round) /\ e = RoundAlreadySettled owner round) /\
  (forall p', record_round_outcome p owner round outcome = Ok p' ->
     iteration_ledger p' owner ≫= (.!! round) = Some outcome /\
     (forall r, r <> round -> iteration_ledger p' owner ≫= (.!! r) = iteration_ledger p owner ≫= (.!! r)) /\
     forall o, o <> owner -> iteration_ledger p' o = iteration_ledger p o).
Proof.
  unfold record_round_outcome, iteration_ledger.
  set (l := default ∅ (iteration_ledgers p !! owner)).
  destruct (l !! round) as [o|] eqn:E.
  - rewrite bool_decide_true by eauto. simpl. split_and!; [naive_solver| |done].
    intros e. split; [intros [= <-]; eauto|by intros [_ ->]].
  - rewrite bool_decide_false by (by intros []). simpl. split_and!.
    + intros p'. split; [by intros [= <-]|by intros [_ ->]].
    + intros e. split; [done|by intros [[] _]].
    + intros p' [= <-]. simpl. rewrite lookup_insert_eq. simpl. split_and!.
      * by rewrite lookup_insert_eq.
      * intros r Hr. rewrite lookup_insert_ne by done. unfold l.
        destruct (iteration_ledgers p !! owner); [done|]. simpl. by rewrite lookup_empty.
      * intros o Ho. by rewrite lookup_insert_ne.
Qed.

(** Resuming clears what the cleared nodes wrote and decided and keeps everything else: a value
    survives exactly when its owner is not cleared, a ledger exactly when its iteration node is
    not cleared, a decision exactly when its condition is not cleared, in every round (for
    condition ids without a number sign). *)
Theorem resume_payload_exact p cleared :
  let p' := resume_payload p cleared in
  catalog (variable_pool p') = catalog (variable_pool p) /\
  (forall k v d, catalog (variable_pool p) !! k = Some d ->
     values (variable_pool p') !! k = Some v <->
     values (variable_pool p) !! k = Some v /\ writer d ∉ cleared) /\
  (forall o l, iteration_ledger p' o = Some l <-> iteration_ledger p o = Some l /\ o ∉ cleared) /\
  (forall id b, condition_decisions p' !! id = Some b <->
     condition_decisions p !! id = Some b /\ id ∉ cleared) /\
  (forall id r b, str_free (is_char HASH) id = true ->
     iteration_round_decisions p' r !! id = Some b <->
     iteration_round_decisions p r !! id = Some b /\ id ∉ cleared).
Proof.
  intros p'. split; [done|]. unfold p', resume_payload, iteration_ledger. simpl. split_and!.
  - intros k v d Hd. rewrite map_lookup_filter_Some. simpl.
    rewrite Hd, negb_true_iff, bool_decide_eq_false. done.
  - intros o l. rewrite map_lookup_filter_Some. simpl. by rewrite negb_true_iff, bool_decide_eq_false.
  - intros id b. rewrite map_lookup_filter_Some. simpl. by rewrite negb_true_iff, bool_decide_eq_false.
  - intros id r b Hid. rewrite !lookup_round_decisions. simpl. rewrite map_lookup_filter_Some. simpl.
    by rewrite decision_key_node_free, negb_true_iff, bool_decide_eq_false.
Qed.
(** A submission of Start values is all or nothing: when it is accepted, every submitted value
    is owned by the Start node and stored in its normal form, a submitted null leaves the
    variable unassigned, every other variable is unchanged, and the pool still conforms to its
    declarations. *)
Theorem update_task_input_exact p w variables p' :
  resolve_start_writer p = Some w -> pool_ok (variable_pool p) ->
  update_task_input p variables = Ok p' ->
  let pool := variable_pool (remove_legacy_instruction_aliases p (Some w)) in
  pool_ok (variable_pool p') /\ catalog (variable_pool p') = catalog pool /\
  (forall name v, variables !! name = Some v ->
     exists d, catalog pool !! qualified_name w name = Some d /\ writer d = w /\
       values (variable_pool p') !! qualified_name w name =
         (if is_null v then None else normalize_workflow_value v (value_type d))) /\
  (forall k, (forall name, is_Some (variables !! name) -> k <> qualified_name w name) ->
     values (variable_pool p') !! k = values pool !! k).
Proof.
  intros Hw Hok Hupd pool. unfold update_task_input in Hupd. rewrite Hw in Hupd. inv_ok.
  apply apply_start_values_ok in Hx as (H1 & H2 & H3 & H4);
    [|by apply remove_aliases_ok|apply (btree_keys_NoDup str_le)].
  split_and!; [done|done| |].
  - intros name v Hin. by apply H3, elem_of_btree_entries.
  - intros k Hk. apply H4. intros name v Hin%elem_of_btree_entries. apply Hk. by eexists.
Qed.

(** A restart keeps exactly the values the Start node owns (legacy aliases apart) and no branch
    decision and no ledger, and the pool still conforms to its declarations. *)
Theorem restart_payload p :
  pool_ok (variable_pool p) ->
  (catalog (variable_pool p) <> ∅ \/ condition_decisions p <> ∅) ->
  let p' := reset_run_execution_state p in
  pool_ok (variable_pool p') /\
  condition_decisions p' = ∅ /\ iteration_ledgers p' = ∅ /\ iteration_condition_decisions p' = ∅ /\
  (forall k v, values (variable_pool p') !! k = Some v <->
     values (variable_pool p) !! k = Some v /\ k <> "sys.task" /\
     exists w d, resolve_start_writer p = Some w /\ k <> qualified_name w "request" /\
       catalog (variable_pool p) !! k = Some d /\ writer d = w).
Proof.
  intros Hok Hne. unfold reset_run_execution_state.
  replace (bool_decide _ && bool_decide _) with false
    by (symmetry; apply andb_false_iff; rewrite !bool_decide_eq_false; done).
  split_and!; [|done|done|done|].
  - assert (forall pool, pool_ok pool -> pool_ok (bump pool)) as Hb by done.
    apply Hb, retain_values_ok, remove_aliases_ok, Hok.
  - intros k v. simpl. rewrite map_lookup_filter_Some. simpl.
    destruct (resolve_start_writer p) as [w|]; simpl.
    + unfold qualified_name. rewrite !lookup_delete_Some. split.
      * intros ((Hk1 & Hk2 & Hv) & Hown). rewrite !lookup_delete_ne in Hown by done.
        destruct (catalog _ !! k) as [d|] eqn:Ed; [|done]. apply bool_decide_eq_true in Hown.
        split_and!; [done|done|]. exists w, d. by split_and!.
      * intros (Hv & Hk2 & w' & d & [= <-] & Hk1 & Hd & Hw). split; [done|].
        rewrite !lookup_delete_ne by done. rewrite Hd. by apply bool_decide_eq_true.
    + split; [by intros [_ ?]|]. intros (_ & _ & w & d & ? & _). done.
Qed.

(** A restarted run has lost the global variables of its author: a user global is declared with
    a required initial value, the restart drops the value because the Start node does not own
    it, and seeding the system variables when it starts again does not restore it. *)
Theorem restart_loses_globals {pet : Petgraph} l s start g v :
  NoDup (gv_name <$> g_global_variables g) -> v ∈ g_global_variables g ->
  name_owner (gv_name v) <> start ->
  let pool := variable_pool (reset_run_execution_state
                (with_variable_pool l s (Some start) (from_graph g))) in
  values pool !! gv_name v = None /\
  forall id now r, seed_system_variables pool id now = Ok r ->
    gv_name v <> "sys.workflow_id" -> gv_name v <> "sys.timestamp" ->
    values r.2 !! gv_name v = None.
Proof.
  intros Hnd Hv Hown pool. assert (values pool !! gv_name v = None) as Hnone.
  2: { split; [done|]. unfold seed_system_variables. intros id now r H H1 H2. inv_ok. simpl.
       by rewrite (write_pool_variable_other _ _ _ _ _ _ Hx0), (write_pool_variable_other _ _ _ _ _ _ Hx). }
  set (p := with_variable_pool l s (Some start) (from_graph g)) in pool. unfold pool.
  destruct (from_graph_globals g v Hnd Hv) as (d & Hd & Hw & _).
  unfold reset_run_execution_state. rewrite bool_decide_false.
  2: { intros He. unfold p in He. simpl in He. by rewrite He, lookup_empty in Hd. }
  simpl. apply map_lookup_filter_None. right. intros x _.
  destruct (decide (gv_name v = qualified_name start "request")) as [->|H1]; [by rewrite lookup_delete_eq|].
  rewrite lookup_delete_ne by done.
  destruct (decide (gv_name v = "sys.task")) as [->|H2]; [by rewrite lookup_delete_eq|].
  rewrite lookup_delete_ne by done. cbn [fst]. rewrite Hd. by rewrite bool_decide_false by congruence.
Qed.

(** The node of a round's decision is read up to the first number sign of its key, while keys are
    told apart from the end: for a condition whose id holds a number sign, resuming keeps the
    decision though its condition is cleared, and drops it when the node named by the text
    before the sign is cleared. *)
Theorem resume_hash_condition p id rest round branch :
  str_free (is_char HASH) id = true ->
  iteration_round_decisions p round !! (id +:+ String HASH rest) = Some branch ->
  (forall cleared, id ∉ cleared ->
     iteration_round_decisions (resume_payload p cleared) round !! (id +:+ String HASH rest) = Some branch) /\
  (forall cleared, id ∈ cleared ->
     iteration_round_decisions (resume_payload p cleared) round !! (id +:+ String HASH rest) = None).
Proof.
  intros Hid. rewrite !lookup_round_decisions. intros Hb.
  assert (decision_key_node (iteration_decision_key (id +:+ String HASH rest) round) = id) as Hn.
  { unfold decision_key_node, iteration_decision_key, split_char. rewrite app_assoc_str.
    simpl. rewrite split_on_app; [done|done|]. by apply bool_decide_eq_true. }
  split; intros cleared Hc; rewrite lookup_round_decisions; simpl.
  - apply map_lookup_filter_Some. split; [done|]. cbn [fst]. rewrite Hn. by rewrite bool_decide_false.
  - apply map_lookup_filter_None. right. intros x _. cbn [fst]. rewrite Hn. by rewrite bool_decide_true.
Qed.
End properties.

(** ** Witnesses *)

#[local] Instance plain_debug : DebugText := {| debug_str := quoted; debug_strs := join ", " |}.
#[local] Instance no_text : JsonText := {| json_to_string _ := ""; json_from_str _ := None |}.
#[local] Existing Instance kahn_petgraph.

Lemma round_decision_isolated_witness :
  exists p', update_run_execution_state (new_payload "en" "{}") "c" "condition" (Some 2%N)
      (Some "yes") None = Ok p' /\
    iteration_round_decisions p' 2 !! "c" = Some "yes" /\ iteration_round_decisions p' 1 !! "c" = None.
Proof.
  destruct (update_run_execution_state (new_payload "en" "{}") "c" "condition" (Some 2%N)
    (Some "yes") None) as [p'|] eqn:E; [|discriminate E].
  exists p'. split; [reflexivity|].
  destruct (round_decision_isolated _ _ _ _ _ _ E) as (H & _). rewrite !H. split; reflexivity.
Defined.

Definition started_payload : WorkflowRunPayload :=
  with_variable_pool "en" "{}" (Some "s")
    (declare (declare empty_pool "s.topic" "string" "s") "a.output" "string" "a").

Lemma started_payload_ok : pool_ok (variable_pool started_payload).
Proof. apply declare_pool_ok, declare_pool_ok, empty_pool_ok. Qed.

Lemma update_task_input_exact_witness :
  exists p', update_task_input started_payload {["topic" := VString "news"]} = Ok p' /\
    values (variable_pool p') !! "s.topic" = Some (VString "news") /\ pool_ok (variable_pool p').
Proof.
  destruct (update_task_input started_payload {["topic" := VString "news"]}) as [p'|] eqn:E;
    [|vm_compute in E; discriminate E].
  exists p'. split; [reflexivity|].
  destruct (update_task_input_exact started_payload "s" {["topic" := VString "news"]} p' eq_refl
    started_payload_ok E) as (Hok & _ & Hv & _).
  split; [|exact Hok]. destruct (Hv "topic" (VString "news") eq_refl) as (d & Hd & _ & H).
  change (qualified_name "s" "topic") with "s.topic" in H. rewrite H.
  vm_compute in Hd. injection Hd as <-. reflexivity.
Defined.

Lemma restart_payload_witness :
  condition_decisions (reset_run_execution_state started_payload) = ∅ /\
  pool_ok (variable_pool (reset_run_execution_state started_payload)).
Proof.
  destruct (restart_payload started_payload started_payload_ok) as (Hok & Hd & _).
  - left. intros H. apply (f_equal (lookup "s.topic")) in H. vm_compute in H. discriminate H.
  - split; [exact Hd | exact Hok].
Defined.

Definition global_region : WorkflowGlobalVariable :=
  {| gv_name := "env.region"; gv_value_type := "string"; gv_value := Some (VString "eu") |}.
Definition global_graph : WorkflowGraph := assemble [plain_node "s" Start] [] [0] [global_region].

Lemma restart_loses_globals_witness :
  values (from_graph global_graph) !! "env.region" = Some (VString "eu") /\
  values (variable_pool (reset_run_execution_state
    (with_variable_pool "en" "{}" (Some "s") (from_graph global_graph)))) !! "env.region" = None.
Proof.
  split; [reflexivity|].
  refine (proj1 (restart_loses_globals "en" "{}" "s" global_graph global_region _ _ _)).
  - by apply (bool_decide_unpack _).
  - by left.
  - by apply (bool_decide_unpack _).
Defined.

Lemma resume_hash_condition_witness :
  let p := set_round_decisions {["c#1#0" := "yes"]} (new_payload "en" "{}") in
  iteration_round_decisions (resume_payload p ["c#1"]) 0 !! "c#1" = Some "yes" /\
  iteration_round_decisions (resume_payload p ["c"]) 0 !! "c#1" = None.
Proof.
  intros p. destruct (resume_hash_condition p "c" "1" 0 "yes" eq_refl eq_refl) as [H1 H2].
  split; [apply H1 | apply H2]; by apply (bool_decide_unpack _).
Defined.
