(* ===== verification/IterationRuntime.v ===== *)
(** * The iteration runtime ([engine/node_runtime/iteration.rs])

    [plan_advance] answers, from the graph, the committed rows and the run payload alone, which
    transition a Running iteration node needs next; the plans are those of
    [engine/node_runtime.rs].  Nothing is kept between two calls. *)

From S2P Require Import Prelude RustStr Order Json NodeTypes VariablePool.
From S2P Require Import GraphBase Iteration Graph Projection GraphParse RunPayload.
Local Open Scope ora_scope.

Inductive CompositeContinuation : Type :=
| StartNextRound (round : N) (item : Value) (node_ids : list string)
| Complete (exposed : list (string * Value)) (output : option string)
| FailRound (error : string).

Inductive CompositeAdvancePlan : Type :=
| Noop
| StartRound (round : N) (item : Value) (node_ids : list string)
| StartRegionNodes (node_ids : list string)
| SettleRound (round : N) (entry : RoundOutcome) (continuation : CompositeContinuation)
| CompleteNode (exposed : list (string * Value)) (output : option string)
| FailNode (error : string).

(** [len as u32] and [current + 1] on [u32]: both keep the low 32 bits (the addition panics
    instead in a build with overflow checks). *)
Definition as_u32 (n : N) : N := (n mod 2 ^ 32)%N.
Definition rounds_of (source : Value) : N :=
  as_u32 (N.of_nat (length (default [] (as_array source)))).
Definition next_round (current : N) : N := as_u32 (current + 1).

(** [source.as_array().and_then(|items| items.get(n)).cloned().unwrap_or(Value::Null)] *)
Definition item_at (source : Value) (n : N) : Value :=
  default VNull (as_array source ≫= (fun items => items !! N.to_nat n)).

(** The rows of the region's members, in any round. *)
Definition region_rows (members : CompositeRegion) (rows : list WorkflowNodeRun) :
    list WorkflowNodeRun :=
  filter (fun row => bool_decide (is_Some (nr_iteration row))
            && region_contains members (nr_node_id row) = true) rows.

(** [iter().filter_map(|row| row.iteration).max()] *)
Fixpoint max_round (rows : list WorkflowNodeRun) : option N :=
  match rows with
  | [] => None
  | row :: rows =>
      match nr_iteration row, max_round rows with
      | Some a, Some b => Some (N.max a b)
      | Some a, None => Some a
      | None, m => m
      end
  end.

Definition exposed_variables (node_id : string) (values : Value * Value * Value) :
    list (string * Value) :=
  let '(output, entries, failed_count) := values in
  [(qualified_name node_id "output", output); (qualified_name node_id "entries", entries);
   (qualified_name node_id "failed_count", failed_count)].

Definition resolve_iterator_source (config : IterationConfig) (p : WorkflowRunPayload) :
    result string Value :=
  let selector := iterator_selector config in
  value ← map_err (fun e => "iteration source cannot be resolved: " +:+ pool_error_message e)
            (resolve (variable_pool p) selector);
  ok_or value ("iteration source " +:+ qualified selector +:+ " is not assigned yet").

Definition settle_round_outcome (config : IterationConfig) (rows : list WorkflowNodeRun)
    (round : N) (item : Value) (p : WorkflowRunPayload) : result string RoundOutcome :=
  let round_rows := filter (fun row => nr_iteration row = Some round) rows in
  match find_first (fun row => bool_decide (nr_status row = Failed)) round_rows with
  | Some failed => Ok (RoundFailed item (default "" (nr_error failed)))
  | None =>
      let collect := collect_selector config in
      if negb (existsb (fun row => bool_decide (nr_node_id row = sel_node_id collect)
                          && bool_decide (nr_status row = Succeeded)) round_rows)
      then Ok (RoundFailed item "collect target did not run this round")
      else
        value ← map_err (fun e => "collect target cannot be resolved: " +:+ pool_error_message e)
                  (resolve (variable_pool p) collect);
        output ← ok_or value ("collect target " +:+ qualified collect
                   +:+ " succeeded but produced no value this round");
        Ok (RoundSucceeded item output)
  end.

Section plan.
Context {json : JsonText} {pet : Petgraph}.

(** The projection of one round, and the ids of its ready nodes. *)
Definition round_projection (g : WorkflowGraph) (id : string) (members : CompositeRegion)
    (round : N) (rows : list WorkflowNodeRun) (p : WorkflowRunPayload) : States :=
  new_region_round g id members round rows (iteration_round_decisions p round).
Definition ready_ids (g : WorkflowGraph) (id : string) (members : CompositeRegion)
    (round : N) (rows : list WorkflowNodeRun) (p : WorkflowRunPayload) : list string :=
  gn_id <$> ready_nodes g (Region id members) (round_projection g id members round rows p).

(** [plan_startup] *)
Definition plan_startup (node_id : string) (config : IterationConfig) (g : WorkflowGraph)
    (members : CompositeRegion) (rows : list WorkflowNodeRun) (p : WorkflowRunPayload) :
    result string CompositeAdvancePlan :=
  source ← resolve_iterator_source config p;
  let selector := qualified (iterator_selector config) in
  items ← ok_or (as_array source)
            ("iteration source " +:+ selector +:+ " did not resolve to an array");
  let rounds := as_u32 (N.of_nat (length items)) in
  reject ((max_iterations config <? rounds)%N)
    with ("iteration source " +:+ selector +:+ " has " +:+ of_N rounds
          +:+ " elements, exceeding maxIterations " +:+ of_N (max_iterations config)
          +:+ "; raise maxIterations or shorten the source array");
  if bool_decide (rounds = 0%N)
  then Ok (CompleteNode (exposed_variables node_id (VArray [], VArray [], json_of_nat 0)) (Some "[]"))
  else Ok (StartRound 0 (item_at source 0) (ready_ids g node_id members 0 rows p)).

(** The node completes with the projection of its ledger. *)
Definition completion (node_id : string) (ledger : IterationLedger) :
    list (string * Value) * option string :=
  let values := project_exposed_values ledger in
  (exposed_variables node_id values, Some (json_to_string values.1.1)).

(** The current round is settled. *)
Definition plan_settled (node_id : string) (config : IterationConfig) (g : WorkflowGraph)
    (members : CompositeRegion) (rows : list WorkflowNodeRun) (p : WorkflowRunPayload)
    (source : Value) (ledger : IterationLedger) (current : N) (outcome : RoundOutcome) :
    CompositeAdvancePlan :=
  match error_strategy config, outcome with
  | FailStrategy, RoundFailed _ error => FailNode error
  | _, _ =>
      let round := next_round current in
      if (round <? rounds_of source)%N
      then StartRound round (item_at source round) (ready_ids g node_id members round rows p)
      else CompleteNode (completion node_id ledger).1 (completion node_id ledger).2
  end.

(** How a round that settles with [entry] continues. *)
Definition plan_continuation (node_id : string) (config : IterationConfig) (g : WorkflowGraph)
    (members : CompositeRegion) (rows : list WorkflowNodeRun) (p : WorkflowRunPayload)
    (source : Value) (ledger : IterationLedger) (current : N) (entry : RoundOutcome) :
    CompositeContinuation :=
  match entry, error_strategy config with
  | RoundFailed _ error, FailStrategy =>
      FailRound ("iteration round " +:+ of_N current +:+ " failed: " +:+ error)
  | _, _ =>
      let next := next_round current in
      if (next <? rounds_of source)%N
      then StartNextRound next (item_at source next) (ready_ids g node_id members next rows p)
      else
        let complete := completion node_id (<[current := entry]> ledger) in
        Complete complete.1 complete.2
  end.

(** The current round is not settled: drive it, or settle it once drained. *)
Definition plan_open (node_id : string) (config : IterationConfig) (g : WorkflowGraph)
    (members : CompositeRegion) (rows : list WorkflowNodeRun) (p : WorkflowRunPayload)
    (source : Value) (ledger : IterationLedger) (current : N) :
    result string CompositeAdvancePlan :=
  if has_in_flight (round_projection g node_id members current rows p) then Ok Noop
  else
    let ready := ready_ids g node_id members current rows p in
    if negb (bool_decide (ready = [])) then Ok (StartRegionNodes ready)
    else
      entry ← settle_round_outcome config (region_rows members rows) current
                (item_at source current) p;
      Ok (SettleRound current entry
            (plan_continuation node_id config g members rows p source ledger current entry)).

Definition plan_advance (n : WorkflowGraphNode) (g : WorkflowGraph)
    (rows : list WorkflowNodeRun) (p : WorkflowRunPayload) : result string CompositeAdvancePlan :=
  let node_id := gn_id n in
  config ← ok_or (gn_iteration_config n)
             ("iteration node " +:+ node_id +:+ " has no iteration config");
  members ← ok_or (region g node_id) ("iteration node " +:+ node_id +:+ " has no region");
  let ledger := default ∅ (iteration_ledger p node_id) in
  if bool_decide (region_rows members rows = []) && bool_decide (ledger = ∅)
  then plan_startup node_id config g members rows p
  else
    source ← resolve_iterator_source config p;
    current ← ok_or (max_round (region_rows members rows))
                ("iteration node " +:+ node_id +:+ " has region rows without a round");
    match ledger !! current with
    | Some outcome =>
        Ok (plan_settled node_id config g members rows p source ledger current outcome)
    | None => plan_open node_id config g members rows p source ledger current
    end.
End plan.

(** ** Lemmas *)

Lemma as_u32_small n : (n < 2 ^ 32)%N -> as_u32 n = n.
Proof. apply N.mod_small. Qed.

Lemma elem_of_region_rows members rows row :
  row ∈ region_rows members rows <->
  row ∈ rows /\ is_Some (nr_iteration row) /\ nr_node_id row ∈ member_ids members.
Proof.
  unfold region_rows, region_contains. rewrite list_elem_of_filter, andb_true_iff, bool_decide_eq_true,
    existsb_True. split.
  - intros ([Hi (m & Hm & ->%bool_decide_eq_true)] & Hr). done.
  - intros (Hr & Hi & Hm). split_and!; [done| |done]. exists (nr_node_id row).
    by rewrite bool_decide_true.
Qed.

Lemma max_round_spec rows :
  match max_round rows with
  | None => forall row, row ∈ rows -> nr_iteration row = None
  | Some m => (exists row, row ∈ rows /\ nr_iteration row = Some m) /\
              forall row r, row ∈ rows -> nr_iteration row = Some r -> (r <= m)%N
  end.
Proof.
  induction rows as [|x rows IH]; simpl; [set_solver|].
  destruct (nr_iteration x) as [a|] eqn:Ea; destruct (max_round rows) as [b|].
  - destruct IH as [(y & Hy & Hb) Hub]. split.
    + destruct (N.max_spec a b) as [[_ ->]|[_ ->]]; [exists y|exists x]; (split; [by constructor|done]).
    + intros y' r [->|Hin]%elem_of_cons Hr; [simplify_eq; lia|]. specialize (Hub _ _ Hin Hr). lia.
  - split; [exists x; split; [by constructor|done]|]. intros y r [->|Hin]%elem_of_cons Hr; [simplify_eq; lia|].
    rewrite (IH _ Hin) in Hr. done.
  - destruct IH as [(y & Hy & Hb) Hub]. split; [exists y; split; [by constructor|done]|].
    intros y' r [->|Hin]%elem_of_cons Hr; [congruence|by eapply Hub].
  - intros y [->|Hin]%elem_of_cons; [done|by apply IH].
Qed.

Lemma max_round_unique rows m :
  (exists row, row ∈ rows /\ nr_iteration row = Some m) ->
  (forall row r, row ∈ rows -> nr_iteration row = Some r -> (r <= m)%N) -> max_round rows = Some m.
Proof.
  intros (x & Hx & Hm) Hub. pose proof (max_round_spec rows) as H.
  destruct (max_round rows) as [b|]; [|by rewrite (H _ Hx) in Hm].
  destruct H as [(y & Hy & Hb) Hub']. f_equal. apply N.le_antisymm; [exact (Hub y b Hy Hb)|exact (Hub' x m Hx Hm)].
Qed.

(** The region has a row as soon as it has a round. *)
Lemma max_round_region members rows :
  max_round (region_rows members rows) = None -> region_rows members rows = [].
Proof.
  intros H. pose proof (max_round_spec (region_rows members rows)) as Hs. rewrite H in Hs.
  destruct (region_rows members rows) as [|x l] eqn:E; [done|]. exfalso.
  assert (x ∈ region_rows members rows) as Hx by (rewrite E; left).
  apply elem_of_region_rows in Hx as (_ & [r Hr] & _). rewrite (Hs x) in Hr; [done|left].
Qed.

Section region.
Context {json : JsonText} {pet : Petgraph}.
Context (g : WorkflowGraph) (id : string) (members : CompositeRegion).
Hypothesis (Hg : graph_ok g) (Hr : regions_ok g) (Hm : region g id = Some members).

Lemma region_in_scope m : in_scope g (Region id members) m = true <-> m ∈ member_ids members.
Proof using.
  simpl. unfold region_contains. rewrite existsb_True. split.
  - by intros (x & Hx & ->%bool_decide_eq_true).
  - intros Hin. exists m. by rewrite bool_decide_true.
Qed.

(** A member all of whose predecessors are the owner itself. *)
Lemma entry_member : exists m n, m ∈ member_ids members /\ n ∈ g_nodes g /\ gn_id n = m /\
  incoming_edges g m <> [] /\ forall e, e ∈ incoming_edges g m -> source e = id.
Proof using Hg Hr Hm.
  destruct (ro_iteration g Hr _ _ Hm) as (Hid & Hne & _).
  destruct (member_ids members) as [|m0 ms] eqn:E; [done|]. rewrite <-E in *.
  assert (m0 ∈ member_ids members) as Hm0 by (rewrite E; left). clear E Hne. revert Hm0.
  apply (id_step_wf g Hg (fun m => m ∈ member_ids members -> exists m n,
    m ∈ member_ids members /\ n ∈ g_nodes g /\ gn_id n = m /\ incoming_edges g m <> [] /\
    forall e, e ∈ incoming_edges g m -> source e = id)).
  intros m IH Hin.
  destruct (decide (Exists (fun e => source e ∈ member_ids members) (incoming_edges g m))) as [He|He].
  - apply Exists_exists in He as (e & He & Hs). eapply IH; [|done]. by eapply incoming_edges_step.
  - destruct (ro_member g Hr _ _ _ Hm Hin) as [(n & Hn & _) Htc].
    apply node_Some in Hn as [Hn Hnm]; [|done]. exists m, n. split_and!; [done|done|done| |].
    + assert (exists y, id_step g y m) as [y Hy] by (clear -Htc; induction Htc; eauto). apply id_step_incoming in Hy as (e & He' & _); [|done].
      intros Hnil. rewrite Hnil in He'. by apply elem_of_nil in He'.
    + intros e Hee. destruct (incoming_edges_step g Hg _ _ Hee) as [Hstep _].
      destruct (ro_closed g Hr _ _ _ _ Hm Hstep) as [_ Hb]. destruct (Hb Hin) as [?|Hs]; [done|].
      exfalso. apply He, Exists_exists. by exists e.
Qed.

(** A round without rows has a member to start. *)
Lemma fresh_round_ready round rows p :
  (forall row, row ∈ region_rows members rows -> nr_iteration row <> Some round) ->
  ready_ids g id members round rows p <> [].
Proof using Hg Hr Hm.
  intros Hfresh. destruct entry_member as (m & n & Hin & Hn & Hid & Hne & Hsrc).
  assert (m ∈ ready_ids g id members round rows p) as H; [|intros Hnil; rewrite Hnil in H; by apply elem_of_nil in H].
  apply list_elem_of_fmap. exists n. split; [done|]. apply list_elem_of_filter. split; [|done].
  subst m. rewrite (proj2 (region_in_scope (gn_id n))) by done. simpl. apply bool_decide_eq_true.
  unfold state_of, round_projection, new_region_round.
  assert (round_rows members round rows = []) as ->.
  { unfold round_rows. apply elem_of_nil_inv. intros row. rewrite !list_elem_of_filter.
    intros (Hc & Hit & Hrow). apply (Hfresh row); [|done]. apply elem_of_region_rows.
    split_and!; [done|by rewrite Hit|]. by apply region_in_scope. }
  rewrite (proj2 (resolve_settles g _ (Region id members) _ _ Ready)); [done|].
  replace Ready with (if existsb (fun _ => true) (incoming_edges g (gn_id n)) then Ready else PInactive)
    by (by destruct (incoming_edges g (gn_id n))).
  eapply settles_edges; [by apply lookup_empty|done|done|by apply region_in_scope|done|].
  intros e He. left. split; [|done]. simpl. apply bool_decide_eq_true. by apply Hsrc.
Qed.

(** What a ready id of a round is. *)
Lemma elem_of_ready_ids round rows p m :
  m ∈ ready_ids g id members round rows p ->
  m ∈ member_ids members /\
  (forall row, row ∈ region_rows members rows -> nr_node_id row = m -> nr_iteration row <> Some round).
Proof using.
  intros (n & -> & Hn)%list_elem_of_fmap. apply list_elem_of_filter in Hn as [[Hs Hst]%andb_true_iff Hn].
  split; [by apply region_in_scope|]. intros row Hrow Hid Hit.
  apply bool_decide_eq_true in Hst. unfold state_of, round_projection, new_region_round in Hst.
  destruct (resolve_projected_nodes _ _ _ _ !! gn_id n) as [st|] eqn:E; [|done]. simpl in Hst. subst st.
  apply resolve_settles in E.
  assert (is_Some (seed_states (round_rows members round rows) !! gn_id n)) as [st Hst].
  { apply seed_states_is_Some. exists row. split; [|done].
    apply elem_of_region_rows in Hrow as (Hrow & _ & Hmem). unfold round_rows.
    rewrite !list_elem_of_filter. split_and!; [by apply region_in_scope|done|done]. }
  pose proof (seed_states_seeded _ _ _ Hst) as (Hnr & _ & _).
  eapply Hnr, settles_det; [by apply settles_seed|done].
Qed.
End region.

Lemma settle_outcome_Ok config rows round item p entry :
  settle_round_outcome config rows round item p = Ok entry ->
  outcome_item entry = item /\
  (forall item' output, entry = RoundSucceeded item' output ->
     (forall row, row ∈ rows -> nr_iteration row = Some round -> nr_status row <> Failed) /\
     (exists row, row ∈ rows /\ nr_iteration row = Some round /\
        nr_node_id row = sel_node_id (collect_selector config) /\ nr_status row = Succeeded) /\
     resolve (variable_pool p) (collect_selector config) = Ok (Some output)).
Proof.
  unfold settle_round_outcome. destruct (find_first _ _) as [failed|] eqn:Ef; [by intros [= <-]|].
  apply find_first_None in Ef. destruct (existsb _ _) eqn:Ee; simpl; [|by intros [= <-]].
  intros H. inv_ok. split; [done|]. intros item' output [= -> ->]. split_and!.
  - intros row Hrow Hit Hst. rewrite Forall_forall in Ef.
    specialize (Ef row). rewrite bool_decide_true in Ef by done. discriminate Ef.
    by apply list_elem_of_filter.
  - apply existsb_True in Ee as (row & Hrow & [Hid Hst]%andb_true_iff).
    apply list_elem_of_filter in Hrow as [Hit Hrow]. apply bool_decide_eq_true in Hid, Hst. by exists row.
  - destruct (resolve _ _) as [[v|]|]; simpl in *; by inv_ok.
Qed.

(** The continuation of a settled round, by cases. *)
Lemma continuation_cases {json : JsonText} {pet : Petgraph} id config g members rows p source ledger
    round entry :
  match plan_continuation id config g members rows p source ledger round entry with
  | FailRound _ => outcome_failed entry = true /\ error_strategy config = FailStrategy
  | StartNextRound next item node_ids =>
      (outcome_failed entry = true -> error_strategy config = ContinueStrategy) /\
      next = next_round round /\ (next < rounds_of source)%N /\ item = item_at source next /\
      node_ids = ready_ids g id members next rows p
  | Complete exposed output =>
      (outcome_failed entry = true -> error_strategy config = ContinueStrategy) /\
      (rounds_of source <= next_round round)%N /\
      (exposed, output) = completion id (<[round := entry]> ledger)
  end.
Proof.
  unfold plan_continuation.
  destruct entry as [item output|item error]; simpl;
    [|destruct (error_strategy config); [done|]];
    destruct (next_round round <? rounds_of source)%N eqn:E;
    (apply N.ltb_lt in E || apply N.ltb_ge in E); split_and!; done.
Qed.

(** ** Properties *)

Section properties.
Context {json : JsonText} {pet : Petgraph}.

(** Before any round an iteration decides everything at once: a source that is undeclared,
    unassigned or no array, or longer than the ceiling, fails the node before any round is
    started; an empty array completes it with empty results; any other array starts round 0 on
    its first element with at least one node of the region. *)
Theorem startup_plan n g config members rows p :
  graph_ok g -> regions_ok g -> gn_iteration_config n = Some config ->
  region g (gn_id n) = Some members -> region_rows members rows = [] ->
  default ∅ (iteration_ledger p (gn_id n)) = ∅ ->
  match resolve (variable_pool p) (iterator_selector config) with
  | Ok (Some (VArray items)) =>
      (N.of_nat (length items) < 2 ^ 32)%N ->
      if (max_iterations config <? N.of_nat (length items))%N
      then exists message, plan_advance n g rows p = Err message
      else match items with
           | [] => plan_advance n g rows p = Ok (CompleteNode
                     [(qualified_name (gn_id n) "output", VArray []);
                      (qualified_name (gn_id n) "entries", VArray []);
                      (qualified_name (gn_id n) "failed_count", json_of_nat 0)] (Some "[]"))
           | first :: _ => exists node_ids, plan_advance n g rows p = Ok (StartRound 0 first node_ids) /\
               node_ids <> [] /\ forall m, m ∈ node_ids -> m ∈ member_ids members
           end
  | _ => exists message, plan_advance n g rows p = Err message
  end.
Proof.
  intros Hg Hr Hc Hm Hrows Hledger. unfold plan_advance. rewrite Hc, Hm. simpl.
  rewrite Hrows, Hledger, !bool_decide_true by done. simpl.
  unfold plan_startup, resolve_iterator_source.
  destruct (resolve (variable_pool p) (iterator_selector config)) as [[[| | | |items|]|]|]; simpl; eauto.
  intros Hlen. rewrite as_u32_small by done.
  destruct (max_iterations config <? N.of_nat (length items))%N; simpl; [eauto|].
  destruct items as [|first items]; simpl; [done|].
  eexists. split; [done|]. split.
  - eapply fresh_round_ready; [done..|]. rewrite Hrows. set_solver.
  - intros m Hin. by eapply elem_of_ready_ids in Hin as [? _].
Qed.

(** A round is settled only when it is drained, on its own rows: it is the highest round of the
    region and not in the ledger, none of its nodes is in flight or ready; it is recorded as
    succeeded only if none of its rows failed and the collected node succeeded in this very
    round, never with an output left by an earlier round; and the continuation is the failure
    of the node, the next round with at least one node, or the completion with the whole
    ledger, by the error strategy and the length of the source. *)
Theorem settle_plan n g config members rows p round entry continuation :
  graph_ok g -> regions_ok g -> gn_iteration_config n = Some config ->
  region g (gn_id n) = Some members ->
  plan_advance n g rows p = Ok (SettleRound round entry continuation) ->
  let ledger := default ∅ (iteration_ledger p (gn_id n)) in
  exists source, resolve (variable_pool p) (iterator_selector config) = Ok (Some source) /\
    max_round (region_rows members rows) = Some round /\ ledger !! round = None /\
    has_in_flight (round_projection g (gn_id n) members round rows p) = false /\
    ready_ids g (gn_id n) members round rows p = [] /\
    outcome_item entry = item_at source round /\
    (forall item output, entry = RoundSucceeded item output ->
       (forall row, row ∈ region_rows members rows -> nr_iteration row = Some round ->
          nr_status row <> Failed) /\
       (exists row, row ∈ region_rows members rows /\ nr_iteration row = Some round /\
          nr_node_id row = sel_node_id (collect_selector config) /\ nr_status row = Succeeded) /\
       resolve (variable_pool p) (collect_selector config) = Ok (Some output)) /\
    match continuation with
    | FailRound _ => outcome_failed entry = true /\ error_strategy config = FailStrategy
    | StartNextRound next item node_ids =>
        (outcome_failed entry = true -> error_strategy config = ContinueStrategy) /\
        next = next_round round /\ (next < rounds_of source)%N /\ item = item_at source next /\
        ((round < next)%N -> node_ids <> [] /\ forall m, m ∈ node_ids -> m ∈ member_ids members)
    | Complete exposed _ =>
        (outcome_failed entry = true -> error_strategy config = ContinueStrategy) /\
        (rounds_of source <= next_round round)%N /\
        exposed = exposed_variables (gn_id n) (project_exposed_values (<[round := entry]> ledger))
    end.
Proof.
  intros Hg Hr Hc Hm. unfold plan_advance. rewrite Hc, Hm. simpl.
  case_match.
  { unfold plan_startup. intros H'. inv_ok. by case_match. }
  intros H'. inv_ok. rename x into source, x0 into current.
  destruct (default ∅ (iteration_ledger p (gn_id n)) !! current) as [o|] eqn:Eo.
  { inv_ok. unfold plan_settled in *. repeat case_match; done. }
  unfold plan_open in H'. destruct (has_in_flight _) eqn:Ef; [done|].
  case_bool_decide as Hready; [|done]. simpl in H'. inv_ok. simplify_eq.
  match goal with H : settle_round_outcome _ _ _ _ _ = Ok _ |- _ =>
    apply settle_outcome_Ok in H as [Hitem Hsucc] end.
  exists source. split_and!; try done.
  { unfold resolve_iterator_source in Hx. destruct (resolve _ _) as [[v|]|]; simpl in *; by inv_ok. }
  pose proof (continuation_cases (gn_id n) config g members rows p source
    (default ∅ (iteration_ledger p (gn_id n))) round entry) as Hcont.
  destruct (plan_continuation _ _ _ _ _ _ _ _ _ _) as [next item ids|exposed output|error]; [| |done].
  2: { destruct Hcont as (? & ? & [= -> ->]). done. }
  destruct Hcont as (? & ? & ? & ? & ->). split_and!; try done. intros Hlt. split.
  - eapply fresh_round_ready; [done..|]. intros row Hrow Hit.
    pose proof (max_round_spec (region_rows members rows)) as Hmax. rewrite Hx0 in Hmax.
    destruct Hmax as [_ Hub]. specialize (Hub _ _ Hrow Hit). lia.
  - intros m Hin. by eapply elem_of_ready_ids in Hin as [? _].
Qed.
End properties.

(** ** Witnesses *)

#[local] Instance plain_text : JsonText := {| json_to_string _ := "[...]"; json_from_str _ := None |}.
#[local] Existing Instance kahn_petgraph.

Definition list_pool (items : list Value) : WorkflowVariablePool :=
  with_values (declare (declare empty_pool "list.items" "array[string]" "list") "a.output" "string" "a")
    (<["a.output" := VString "done"]> {["list.items" := VArray items]}).
Definition list_payload (items : list Value) : WorkflowRunPayload :=
  set_pool (list_pool items) (new_payload "en" "{}").

Lemma startup_plan_witness :
  exists node_ids, plan_advance region_owner_node region_graph []
    (list_payload [VString "x"; VString "y"]) = Ok (StartRound 0 (VString "x") node_ids) /\
    node_ids <> [].
Proof.
  pose proof (startup_plan region_owner_node region_graph region_config region_members []
    (list_payload [VString "x"; VString "y"]) (proj1 region_graph_ok) (proj2 region_graph_ok)
    eq_refl eq_refl eq_refl eq_refl eq_refl) as (ids & Hp & Hne & _).
  exists ids. split; [exact Hp | exact Hne].
Defined.

(** The row of the member in the first round. *)
Definition round_row : WorkflowNodeRun := in_iteration (Some 0%N) (plain_row "1" "a" "agent" Succeeded).

Lemma settle_plan_witness :
  exists continuation, plan_advance region_owner_node region_graph [round_row]
    (list_payload [VString "x"; VString "y"])
      = Ok (SettleRound 0 (RoundSucceeded (VString "x") (VString "done")) continuation) /\
    max_round (region_rows region_members [round_row]) = Some 0%N.
Proof.
  destruct (plan_advance region_owner_node region_graph [round_row]
    (list_payload [VString "x"; VString "y"])) as [plan|] eqn:E; [|vm_compute in E; discriminate E].
  assert (exists k, plan = SettleRound 0 (RoundSucceeded (VString "x") (VString "done")) k) as [k ->].
  { vm_compute in E. injection E as <-. eexists. reflexivity. }
  exists k. split; [reflexivity|].
  destruct (settle_plan region_owner_node region_graph region_config region_members [round_row]
    (list_payload [VString "x"; VString "y"]) _ _ _ (proj1 region_graph_ok) (proj2 region_graph_ok)
    eq_refl eq_refl E) as (source & _ & Hmax & _).
  exact Hmax.
Defined.
