(* ===== verification/NodeRuntime.v ===== *)
(** * The node runtimes ([engine/node_runtime.rs], [engine/node_runtime/control.rs])

    The registry maps every node type to the way it executes; the swift runtimes complete a
    running node from the committed facts alone, and the run output is chosen by the rank the
    runtimes declare.  The Agent runtime's session work is behind the executor port. *)

From S2P Require Import Prelude RustStr Json NodeTypes VariablePool Condition Aggregator GraphBase.
From S2P Require Import Retry NodeConfig Iteration GraphBase Graph.
Local Open Scope ora_scope.

(** [RegisteredNodeRuntime], without the trait objects. *)
Inductive RegisteredNodeRuntime : Type := Swift | Async | CompositeRuntime | ScopedLoop.

#[export] Instance RegisteredNodeRuntime_eq_dec : EqDecision RegisteredNodeRuntime.
Proof. solve_decision. Defined.

(** [standard_node_runtimes] and [NodeRuntimeRegistry::runtime] *)
Definition runtime (t : NodeType) : option RegisteredNodeRuntime :=
  match t with
  | Start | NodeTypes.Condition | Aggregator | Output | LoopExit => Some Swift
  | Agent => Some Async
  | Iteration => Some CompositeRuntime
  | Loop => Some ScopedLoop
  | Prompt | Tool => None
  end.

(** [run_output_rank] of the runtimes. *)
Definition run_output_rank (t : NodeType) : option N :=
  match t with
  | Output => Some 0%N
  | Agent | Iteration => Some 1%N
  | Start | NodeTypes.Condition | Aggregator | LoopExit | Loop | Prompt | Tool => None
  end.

(** [NodeRuntimeRegistry::start_input] *)
Definition start_input (run_input : option string) (n : WorkflowGraphNode) : option string :=
  match gn_type n with
  | Start => run_input
  | Agent => prompt <$> gn_agent_config n
  | Iteration => (fun config => qualified (iterator_selector config)) <$> gn_iteration_config n
  | _ => None
  end.

(** [AgentNodeRuntime::retry_policy] *)
Definition node_retry_policy (n : WorkflowGraphNode) : option AgentRetryPolicy :=
  config ← gn_agent_config n;
  if interactive config then None else Some (retry config).

(** ** The swift runtimes *)

(** [SwiftCompletion] *)
Record SwiftCompletion : Type := {
  sw_node_run : WorkflowNodeRun;
  sw_run_input : option string;
  sw_pool : WorkflowVariablePool;
  sw_node_runs : list WorkflowNodeRun;
}.

Definition map_fault {E E'} (f : E -> E') (e : fault E) : fault E' :=
  match e with Fails e => Fails (f e) | Panics => Panics end.

(** The value of one result binding, as the loop of [OutputRuntime::complete_running] reads it. *)
Definition binding_value (pool : WorkflowVariablePool) (binding : OutputBinding) :
    result string Value :=
  value ← map_err pool_error_message (resolve pool (binding_selector binding));
  ok_or value ("result " +:+ binding_name binding +:+ " references unassigned variable "
               +:+ qualified (binding_selector binding)).

Definition add_binding (pool : WorkflowVariablePool) (object : list (string * Value))
    (binding : OutputBinding) : result string (list (string * Value)) :=
  value ← binding_value pool binding;
  Ok (map_insert (binding_name binding) value object).

Section swift.
Context {debug : DebugText} {json : JsonText}.

Definition complete_start (c : SwiftCompletion) : result (fault string) string :=
  Ok (default "" (sw_run_input c)).

Definition complete_condition (n : WorkflowGraphNode) (c : SwiftCompletion) :
    result (fault string) string :=
  map_err (map_fault condition_error_message)
    match gn_condition_config n with
    | Some config => evaluate_condition config (sw_pool c)
    | None => Err (Fails MissingConfig)
    end.

Definition complete_aggregator (n : WorkflowGraphNode) (c : SwiftCompletion) :
    result (fault string) string :=
  map_err (fun e => Fails (aggregator_error_message e))
    (config ← ok_or (gn_aggregator_config n) AggMissingConfig;
     json_to_string <$> select_output config (sw_pool c)).

(** Another Output node that already succeeded. *)
Definition previous_output (c : SwiftCompletion) : option WorkflowNodeRun :=
  find_first (fun candidate =>
    negb (bool_decide (nr_id candidate = nr_id (sw_node_run c)))
    && bool_decide (nr_node_type candidate = node_type_as_str Output)
    && bool_decide (nr_status candidate = Succeeded)) (sw_node_runs c).

Definition complete_output (n : WorkflowGraphNode) (c : SwiftCompletion) :
    result (fault string) string :=
  match previous_output c with
  | Some previous =>
      Err (Fails ("multiple active output nodes: " +:+ nr_node_id previous +:+ " and " +:+ gn_id n))
  | None =>
      match gn_output_config n with
      | None => Ok ""
      | Some config =>
          object ← map_err Fails (fold_result (add_binding (sw_pool c)) [] (output_bindings config));
          Ok (json_to_string (VObject object))
      end
  end.

(** [complete_running] of the runtime registered for the node's type; [None] when it is not a
    swift runtime. *)
Definition complete_running (n : WorkflowGraphNode) (c : SwiftCompletion) :
    option (result (fault string) string) :=
  match gn_type n with
  | Start => Some (complete_start c)
  | NodeTypes.Condition => Some (complete_condition n c)
  | Aggregator => Some (complete_aggregator n c)
  | Output => Some (complete_output n c)
  | LoopExit => Some (Err (Fails "loopExit requires the Loop scheduler"))
  | Agent | Iteration | Loop | Prompt | Tool => None
  end.
End swift.

(** ** The run output *)

(** The outer succeeded rows of a ranked type, with their rank. *)
Definition output_candidate (row : WorkflowNodeRun) : option (N * WorkflowNodeRun) :=
  if bool_decide (nr_iteration row = None) && bool_decide (nr_status row = Succeeded)
  then
    t ← to_option (node_type_from_str (nr_node_type row));
    rank ← run_output_rank t;
    Some (rank, row)
  else None.

(** The order of the key [(Reverse(rank), finished_at.unwrap_or(0))]. *)
Definition key_le (a b : N * WorkflowNodeRun) : bool :=
  (b.1 <? a.1)%N
  || bool_decide (a.1 = b.1)
     && (default 0 (nr_finished_at a.2) <=? default 0 (nr_finished_at b.2))%Z.

(** [Iterator::max_by_key]: the last of the greatest elements. *)
Definition max_by (le : N * WorkflowNodeRun -> N * WorkflowNodeRun -> bool)
    (l : list (N * WorkflowNodeRun)) : option (N * WorkflowNodeRun) :=
  fold_left (fun best x =>
    match best with None => Some x | Some b => Some (if le b x then x else b) end) l None.

Definition compute_run_output (rows : list WorkflowNodeRun) : option string :=
  best ← max_by key_le (omap output_candidate rows);
  nr_output best.2.

(** ** Lemmas *)

Lemma key_le_total a b : key_le a b = true \/ key_le b a = true.
Proof.
  unfold key_le. rewrite !orb_true_iff, !andb_true_iff, !bool_decide_eq_true, !N.ltb_lt, !Z.leb_le. lia.
Qed.

Lemma key_le_trans a b c : key_le a b = true -> key_le b c = true -> key_le a c = true.
Proof.
  unfold key_le. rewrite !orb_true_iff, !andb_true_iff, !bool_decide_eq_true, !N.ltb_lt, !Z.leb_le. lia.
Qed.

Lemma key_le_refl a : key_le a a = true.
Proof. by destruct (key_le_total a a). Qed.

(** The element chosen is the last of the greatest. *)
Lemma max_by_spec l :
  match max_by key_le l with
  | None => l = []
  | Some m => exists l1 l2, l = l1 ++ m :: l2 /\
      (forall x, x ∈ l1 -> key_le x m = true) /\ (forall x, x ∈ l2 -> key_le m x = false)
  end.
Proof.
  unfold max_by. induction l as [|x l IH] using rev_ind; [done|].
  rewrite fold_left_app. simpl. destruct (fold_left _ l None) as [m|].
  - destruct IH as (l1 & l2 & -> & H1 & H2). destruct (key_le m x) eqn:E.
    + exists (l1 ++ m :: l2), []. split; [done|]. split; [|set_solver].
      intros y [Hy|[->|Hy]%elem_of_cons]%elem_of_app; [|done|].
      * eapply key_le_trans; [by apply H1|done].
      * eapply key_le_trans; [|exact E]. destruct (key_le_total y m) as [?|Hm]; [done|].
        by rewrite H2 in Hm.
    + exists l1, (l2 ++ [x]). rewrite <-app_assoc. split; [done|]. split; [done|].
      intros y [Hy| ->%list_elem_of_singleton]%elem_of_app; [by apply H2|done].
  - subst l. exists [], []. split; [done|]. split; set_solver.
Qed.

Lemma output_candidate_Some row rank row' :
  output_candidate row = Some (rank, row') <->
  row' = row /\ nr_iteration row = None /\ nr_status row = Succeeded /\
  exists t, nr_node_type row = node_type_as_str t /\ run_output_rank t = Some rank.
Proof.
  unfold output_candidate. split.
  - case_match eqn:E; [|done]. apply andb_true_iff in E as [Hi%bool_decide_eq_true Hs%bool_decide_eq_true].
    destruct (node_type_from_str (nr_node_type row)) as [t|] eqn:Et; simpl; [|done].
    apply node_type_from_str_Ok in Et. destruct (run_output_rank t) as [r|] eqn:Er; simpl; [|done].
    intros [= -> ->]. split_and!; [done..|]. by exists t.
  - intros (-> & Hi & Hs & t & Ht & Hr). rewrite !bool_decide_true by done. simpl.
    rewrite Ht, node_type_round_trip. simpl. by rewrite Hr.
Qed.

Lemma elem_of_candidates (rows : list WorkflowNodeRun) c :
  c ∈ omap output_candidate rows <-> c.2 ∈ rows /\ output_candidate c.2 = Some c.
Proof.
  destruct c as [rank row]. rewrite list_elem_of_omap. split.
  - intros (r & Hr & Hc). pose proof Hc as (-> & _)%output_candidate_Some. done.
  - intros [Hr Hc]. by exists row.
Qed.

Lemma fold_bindings_inv pool bindings acc object :
  fold_result (add_binding pool) acc bindings = Ok object ->
  (forall b, b ∈ bindings -> is_Some (to_option (binding_value pool b))) /\
  (forall name, (forall b, b ∈ bindings -> binding_name b <> name) ->
     map_get name object = map_get name acc) /\
  (NoDup (binding_name <$> bindings) ->
   forall b, b ∈ bindings -> map_get (binding_name b) object = to_option (binding_value pool b)).
Proof.
  revert acc. induction bindings as [|b bindings IH]; intros acc; simpl.
  { intros [= <-]. set_solver. }
  intros (acc' & Hstep & Hrest)%bind_Ok. unfold add_binding in Hstep. inv_ok.
  destruct (IH _ Hrest) as (H1 & H2 & H3). split_and!.
  - intros b' [->|Hb]%elem_of_cons; [rewrite Hx; by eexists|by apply H1].
  - intros name Hname. rewrite H2 by (intros b' Hb; apply Hname; by right).
    rewrite map_get_insert. rewrite decide_False; [done|]. apply Hname. by left.
  - csimpl. intros [Hnb Hnd]%NoDup_cons b' [->|Hb]%elem_of_cons; [|by apply H3].
    rewrite H2, map_get_insert, decide_True, Hx by (try done; set_solver). done.
Qed.

Lemma fold_bindings_err pool bindings acc e :
  fold_result (add_binding pool) acc bindings = Err e ->
  exists b, b ∈ bindings /\ exists m, binding_value pool b = Err m.
Proof.
  revert acc. induction bindings as [|b bindings IH]; intros acc; simpl; [done|].
  destruct (add_binding pool acc b) as [acc'|m] eqn:Ea; simpl.
  - intros (b' & Hb & Hm)%IH. exists b'. split; [by right|done].
  - intros _. exists b. split; [by left|]. unfold add_binding in Ea.
    destruct (binding_value pool b); [done|by eexists].
Qed.

(** ** Properties *)

(** A succeeded outer row of a type. *)
Definition contributes (rows : list WorkflowNodeRun) (t : NodeType) (row : WorkflowNodeRun) : Prop :=
  row ∈ rows /\ nr_iteration row = None /\ nr_status row = Succeeded /\
  nr_node_type row = node_type_as_str t.

Definition finished (row : WorkflowNodeRun) : Z := default 0%Z (nr_finished_at row).

Lemma contributes_candidate rows t row rank :
  contributes rows t row -> run_output_rank t = Some rank ->
  (rank, row) ∈ omap output_candidate rows.
Proof.
  intros (Hin & Hi & Hs & Ht) Hr. apply elem_of_candidates. split; [done|].
  apply output_candidate_Some. split_and!; [done..|]. by exists t.
Qed.

(** The run output comes from a row of the lowest rank present, one that finished last. *)
Lemma run_output_best rows :
  match max_by key_le (omap output_candidate rows) with
  | None => compute_run_output rows = None /\ omap output_candidate rows = []
  | Some (rank, row) =>
      compute_run_output rows = nr_output row /\ row ∈ rows /\
      output_candidate row = Some (rank, row) /\
      forall rank' row', (rank', row') ∈ omap output_candidate rows ->
        (rank < rank')%N \/ rank = rank' /\ (finished row' <= finished row)%Z
  end.
Proof.
  unfold compute_run_output. pose proof (max_by_spec (omap output_candidate rows)) as H.
  destruct (max_by key_le (omap output_candidate rows)) as [[rank row]|]; simpl; [|done].
  destruct H as (l1 & l2 & Hl & H1 & H2).
  assert ((rank, row) ∈ omap output_candidate rows) as Hin by (rewrite Hl; set_solver).
  apply elem_of_candidates in Hin as [Hin Hc]. split_and!; [done|done|done|].
  intros rank' row' Hx. rewrite Hl in Hx.
  assert (key_le (rank', row') (rank, row) = true) as Hle.
  { apply elem_of_app in Hx as [Hx|[->|Hx]%elem_of_cons]; [by apply H1|apply key_le_refl|].
    destruct (key_le_total (rank', row') (rank, row)) as [?|Hm]; [done|]. by rewrite H2 in Hm. }
  revert Hle. unfold key_le, finished. simpl.
  rewrite orb_true_iff, andb_true_iff, bool_decide_eq_true, N.ltb_lt, Z.leb_le. intuition lia.
Qed.

(** The output of a run is that of an Output node when one succeeded, of an Agent or Iteration
    node otherwise, always of a row outside the regions and of one that finished last; and the
    run has no output when no such row succeeded. *)
Theorem run_output_spec rows :
  ((exists row, contributes rows Output row) ->
     exists row, contributes rows Output row /\ compute_run_output rows = nr_output row /\
       forall row', contributes rows Output row' -> (finished row' <= finished row)%Z) /\
  ((forall row, ~ contributes rows Output row) ->
   (exists row, contributes rows Agent row \/ contributes rows Iteration row) ->
     exists row, (contributes rows Agent row \/ contributes rows Iteration row) /\
       compute_run_output rows = nr_output row /\
       forall row', contributes rows Agent row' \/ contributes rows Iteration row' ->
         (finished row' <= finished row)%Z) /\
  ((forall row t, t = Output \/ t = Agent \/ t = Iteration -> ~ contributes rows t row) ->
     compute_run_output rows = None).
Proof.
  pose proof (run_output_best rows) as H.
  destruct (max_by key_le (omap output_candidate rows)) as [[rank row]|].
  - destruct H as (Hout & Hin & Hc & Hbest).
    apply output_candidate_Some in Hc as (_ & Hi & Hs & t & Ht & Hr).
    assert (contributes rows t row) as Hrow by done. split_and!.
    + intros [r0 H0]. assert (t = Output) as ->.
      { pose proof (Hbest 0%N r0 (contributes_candidate _ _ _ _ H0 eq_refl)).
        destruct t; simpl in Hr; simplify_eq; [lia|done|lia]. }
      exists row. split_and!; [done..|]. intros r1 H1. simpl in Hr. simplify_eq.
      pose proof (Hbest 0%N r1 (contributes_candidate _ _ _ _ H1 eq_refl)). lia.
    + intros Hno _. exists row.
      assert (t = Agent \/ t = Iteration) as Hti.
      { destruct t; simpl in Hr; try done; [by left|by apply Hno in Hrow|by right]. }
      assert (rank = 1%N) as -> by (by destruct Hti as [-> | ->]; simpl in Hr; simplify_eq).
      split; [destruct Hti as [-> | ->]; auto|]. split; [done|]. intros r1 [H1|H1];
        pose proof (Hbest 1%N r1 (contributes_candidate _ _ _ _ H1 eq_refl)); lia.
    + intros Hno. exfalso. apply (Hno row t); [|done]. destruct t; simpl in Hr; auto; done.
  - destruct H as [Hout Hnil].
    assert (forall t r rank, run_output_rank t = Some rank -> ~ contributes rows t r) as Hno.
    { intros t r rank Hr Hc. pose proof (contributes_candidate _ _ _ _ Hc Hr) as Hin.
      rewrite Hnil in Hin. by apply elem_of_nil in Hin. }
    split_and!; [|intros _|done].
    + intros [r Hc]. by eapply Hno in Hc.
    + intros [r [Hc|Hc]]; by eapply Hno in Hc.
Qed.

Section output.
Context {debug : DebugText} {json : JsonText}.

(** An Output node completes only as the first Output of the run, and then with an object that
    maps every declared result name to the current value of its variable (and nothing else, when
    the names are distinct); it fails when another Output already succeeded or when a declared
    variable is undeclared, unassigned or has no such path. *)
Theorem output_result n c config :
  gn_output_config n = Some config -> NoDup (binding_name <$> output_bindings config) ->
  match complete_output n c with
  | Ok text =>
      previous_output c = None /\ exists object, text = json_to_string (VObject object) /\
        (forall b, b ∈ output_bindings config ->
           exists v, resolve (sw_pool c) (binding_selector b) = Ok (Some v) /\
             map_get (binding_name b) object = Some v) /\
        (forall name, name ∉ (binding_name <$> output_bindings config) -> map_get name object = None)
  | Err e => e <> Panics /\
      (is_Some (previous_output c) \/ exists b, b ∈ output_bindings config /\
         forall v, resolve (sw_pool c) (binding_selector b) <> Ok (Some v))
  end.
Proof.
  intros Hc Hnd. unfold complete_output. rewrite Hc.
  destruct (previous_output c) as [prev|]; [split; [done|left; by eexists]|].
  destruct (fold_result (add_binding (sw_pool c)) [] (output_bindings config)) as [object|e] eqn:E; simpl.
  - split; [done|]. exists object. apply fold_bindings_inv in E as (H1 & H2 & H3). split_and!; [done| |].
    + intros b Hb. rewrite H3 by done. destruct (H1 b Hb) as [v Hv]. exists v. split; [|done].
      unfold binding_value in Hv. destruct (resolve _ _) as [[w|]|]; by simplify_eq/=.
    + intros name Hname. rewrite H2; [done|]. intros b Hb <-. apply Hname. by apply list_elem_of_fmap_2.
  - split; [done|]. right. apply fold_bindings_err in E as (b & Hb & m & Hm). exists b. split; [done|].
    intros v Hv. unfold binding_value in Hm. by rewrite Hv in Hm.
Qed.
End output.

(** ** Witnesses *)

#[local] Instance plain_debug : DebugText := {| debug_str := quoted; debug_strs := join ", " |}.
#[local] Instance no_text : JsonText := {| json_to_string _ := "{...}"; json_from_str _ := None |}.

Lemma output_result_witness :
  let binding := {| binding_name := "answer"; binding_selector := new_selector "a" "text" [] |} in
  let n := {| gn_id := "o"; gn_type := Output; gn_title := ""; gn_description := "";
     gn_instruction := None; gn_input_variables := []; gn_agent_config := None;
     gn_condition_config := None; gn_aggregator_config := None;
     gn_output_config := Some {| output_bindings := [binding] |}; gn_iteration_config := None |} in
  let c := {| sw_node_run := plain_row "1" "o" "output" Running; sw_run_input := None;
     sw_pool := declare empty_pool "a.text" "string" "a"; sw_node_runs := [] |} in
  exists e, complete_output n c = Err e /\ e <> Panics.
Proof.
  intros binding n c.
  pose proof (output_result n c {| output_bindings := [binding] |} eq_refl (NoDup_singleton _)) as H.
  destruct (complete_output n c) as [text|e] eqn:E; [vm_compute in E; discriminate E|].
  exists e. split; [reflexivity | exact (proj1 H)].
Defined.
