(* ===== verification/Resume.v ===== *)
(** * Resume units ([engine/region.rs])

    Which nodes a resume from failure clears, and how a failure inside a composite propagates.
    The unit of a node inside a region or a Loop body is the composite that owns it. *)

From stdpp Require Import relations.
From S2P Require Import Prelude RustStr Order NodeTypes Iteration NodeConfig GraphBase Graph.
From S2P Require Import Declarations Projection GraphParse.

(** [FailurePropagation] ([engine/ports.rs]) *)
Inductive FailurePropagation : Type := PropagateRun | PropagateComposite.

#[export] Instance FailurePropagation_eq_dec : EqDecision FailurePropagation.
Proof. solve_decision. Defined.

Definition running_row_blocks_resume (node_type : string) : bool :=
  negb match node_type_from_str node_type with
       | Ok t => bool_decide (t = NodeTypes.Iteration) || bool_decide (t = Loop)
       | Err _ => false
       end.

Definition region_failure_propagation (g : WorkflowGraph) (node_id : string) : FailurePropagation :=
  match region_owner g node_id with Some _ => PropagateComposite | None => PropagateRun end.

(** [loop_owner] ([engine/loop_graph.rs]) *)
Definition loop_owner (g : WorkflowGraph) (node_id : string) : option string :=
  fst <$> find_first (fun p : string * (LoopConfig * WorkflowGraph) =>
    bool_decide (is_Some (node p.2.2 node_id))) (g_loops g).

Definition resume_unit_owner_id (g : WorkflowGraph) (node_id : string) : option string :=
  if bool_decide (is_Some (region g node_id)) || bool_decide (is_Some (loop_body g node_id))
  then Some node_id
  else match region_owner g node_id with Some o => Some o | None => loop_owner g node_id end.

Definition resume_unit_member_ids (g : WorkflowGraph) (owner : string) : list string :=
  match region g owner with
  | Some r => member_ids r
  | None =>
      match loop_body g owner with
      | Some (_, body) => gn_id <$> g_nodes body
      | None => []
      end
  end.

Section resume.
Context {pet : Petgraph}.

Definition insert_composite_unit (g : WorkflowGraph) (owner : string) (to_clear : gset string) :
    gset string :=
  {[owner]} ∪ to_clear ∪ list_to_set (resume_unit_member_ids g owner)
  ∪ list_to_set (gn_id <$> transitive_successors g owner).

(** One failed node of the loop of [resume_clear_node_ids]. *)
Definition clear_failed (g : WorkflowGraph) (to_clear : gset string) (node_id : string) : gset string :=
  match resume_unit_owner_id g node_id with
  | Some owner => insert_composite_unit g owner to_clear
  | None => {[node_id]} ∪ to_clear ∪ list_to_set (gn_id <$> transitive_successors g node_id)
  end.

Definition is_failed_row (row : WorkflowNodeRun) : bool :=
  match nr_status row with Failed | Cancelled => true | _ => false end.

Definition failed_node_ids (rows : list WorkflowNodeRun) : gset string :=
  list_to_set (nr_node_id <$> filter (fun row => is_failed_row row = true) rows).

Definition resume_clear_node_ids (g : WorkflowGraph) (rows : list WorkflowNodeRun) : list string :=
  btree_elements str_le
    (fold_left (clear_failed g) (btree_elements str_le (failed_node_ids rows)) ∅).

(** ** Lemmas *)

Lemma elem_of_failed_node_ids rows f :
  f ∈ failed_node_ids rows <-> exists row, row ∈ rows /\ nr_node_id row = f /\ is_failed_row row = true.
Proof using.
  unfold failed_node_ids. rewrite elem_of_list_to_set, list_elem_of_fmap.
  setoid_rewrite list_elem_of_filter. naive_solver.
Qed.

(** The nodes cleared for one failed node. *)
Definition cleared_for (g : WorkflowGraph) (f x : string) : Prop :=
  let root := default f (resume_unit_owner_id g f) in
  x = root \/ x ∈ resume_unit_member_ids g root /\ is_Some (resume_unit_owner_id g f)
  \/ tc (id_step g) root x.

Lemma elem_of_clear_failed g acc f x :
  graph_ok g -> x ∈ clear_failed g acc f <-> x ∈ acc \/ cleared_for g f x.
Proof using.
  intros Hg. assert (forall r, x ∈ gn_id <$> transitive_successors g r <-> tc (id_step g) r x) as Hs.
  { intros r. rewrite list_elem_of_fmap. setoid_rewrite elem_of_transitive_successors; [|done].
    split; [by intros (n & -> & _ & ?)|]. intros Htc.
    assert (exists y, id_step g y x) as [y Hy] by (clear -Htc; induction Htc; eauto).
    apply id_step_nodes in Hy as (_ & n & _ & Hn & _ & <-). by exists n. }
  unfold clear_failed, cleared_for, insert_composite_unit.
  destruct (resume_unit_owner_id g f) as [o|]; simpl;
    rewrite !elem_of_union, ?elem_of_list_to_set, elem_of_singleton, Hs; [|naive_solver].
  split; [|naive_solver]. intros [[[?|?]|?]|?]; [by right; left|by left|by right; right; left|by right; right; right].
Qed.

Lemma elem_of_resume_clear g rows x :
  graph_ok g ->
  x ∈ resume_clear_node_ids g rows <->
  exists f, f ∈ failed_node_ids rows /\ cleared_for g f x.
Proof using.
  intros Hg. unfold resume_clear_node_ids. rewrite elem_of_btree_elements.
  assert (forall l acc, x ∈ fold_left (clear_failed g) l acc <->
    x ∈ acc \/ exists f, f ∈ l /\ cleared_for g f x) as ->.
  { induction l as [|f l IH]; intros acc; simpl; [set_solver|].
    rewrite IH, elem_of_clear_failed by done. set_solver. }
  setoid_rewrite elem_of_btree_elements. set_solver.
Qed.

(** Loop containers are no regions and stand outside of them, and body nodes stand outside the
    outer graph. *)
Record loops_apart (g : WorkflowGraph) : Prop := {
  la_keys : NoDup (fst <$> g_loops g);
  la_kind o : is_Some (loop_body g o) -> region g o = None;
  la_graph o config body : loop_body g o = Some (config, body) -> graph_ok body;
  la_region o : is_Some (loop_body g o) -> region_owner g o = None;
  la_body o config body m : loop_body g o = Some (config, body) -> m ∈ (gn_id <$> g_nodes body) ->
    node g m = None;
}.

Lemma flat_loops_apart g : g_loops g = [] -> loops_apart g.
Proof using.
  intros Hl. split; unfold loop_body; rewrite Hl; simpl; [constructor|by intros ? []|done|by intros ? []|done].
Qed.

Section closed.
Context (g : WorkflowGraph) (Hg : graph_ok g) (Hr : regions_ok g) (Hl : loops_apart g).

(** A path into a region enters it through its owner. *)
Lemma path_into_region o r a m :
  region g o = Some r -> m ∈ member_ids r -> tc (id_step g) a m ->
  a ∈ member_ids r \/ a = o \/ tc (id_step g) a o.
Proof using Hr.
  intros Hor Hm Htc. revert Hm. induction Htc as [a m Hs|a b m Hs Htc IH]; intros Hm.
  - destruct (ro_closed g Hr _ _ _ _ Hor Hs) as [_ H]. naive_solver.
  - destruct (IH Hm) as [Hb|[->|Hb]].
    + destruct (ro_closed g Hr _ _ _ _ Hor Hs) as [_ H]. naive_solver.
    + right. right. by apply tc_once.
    + right. right. by eapply tc_l.
Qed.

Lemma member_node o r m : region g o = Some r -> m ∈ member_ids r -> is_Some (node g m).
Proof using Hr. intros Hor Hm. destruct (ro_member g Hr _ _ _ Hor Hm) as [(n & -> & _) _]. by eexists. Qed.

(** The root of a unit is no member of a region. *)
Lemma unit_root_outer f o r :
  region g o = Some r -> default f (resume_unit_owner_id g f) ∈ member_ids r -> False.
Proof using Hg Hr Hl.
  intros Hor Hin. set (x := default f (resume_unit_owner_id g f)) in *.
  assert (region_owner g x = Some o) as Hx by (apply (ro_owner g Hr); eauto).
  assert (region g x = None) as Hrx.
  { apply eq_None_not_Some. intros [r' Hr']. destruct (ro_iteration g Hr _ _ Hr') as (_ & _ & n & Hn & Ht).
    destruct (ro_member g Hr _ _ _ Hor Hin) as [(n' & Hn' & _ & Hni & _) _]. congruence. }
  assert (loop_body g x = None) as Hlx.
  { apply eq_None_not_Some. intros H. rewrite (la_region g Hl _ H) in Hx. done. }
  revert Hx Hrx Hlx. unfold x, resume_unit_owner_id.
  destruct (bool_decide (is_Some (region g f)) || bool_decide (is_Some (loop_body g f))) eqn:E; simpl.
  { intros _ H1 H2. apply orb_true_iff in E as [[? ?]%bool_decide_eq_true|[? ?]%bool_decide_eq_true]; congruence. }
  destruct (region_owner g f) as [o'|] eqn:Ef; simpl.
  { intros _ H1 _. apply (ro_owner g Hr) in Ef as (r' & Hr' & _). congruence. }
  unfold loop_owner. destruct (find_first _ (g_loops g)) as [[o' [c body]]|] eqn:Elo; simpl; [|congruence].
  intros _ _ E2. unfold loop_body in E2. apply fmap_None in E2.
  apply find_first_None in E2. rewrite Forall_forall in E2. apply find_first_Some in Elo as [Hin' _].
  apply E2 in Hin'. simpl in Hin'. by rewrite bool_decide_true in Hin'.
Qed.

Lemma cleared_for_step f x y : cleared_for g f x -> id_step g x y -> cleared_for g f y.
Proof using Hr Hl Hg.
  unfold cleared_for. set (root := default f (resume_unit_owner_id g f)).
  intros [->|[[Hm Hs]|Htc]] Hstep.
  - right. right. by apply tc_once.
  - right. left. split; [|done]. revert Hm. unfold resume_unit_member_ids.
    destruct (region g root) as [r|] eqn:Er.
    + intros Hm. destruct (ro_closed g Hr _ _ _ _ Er Hstep) as [H _]. by apply H.
    + destruct (loop_body g root) as [[c body]|] eqn:Eb; [|set_solver]. intros Hm.
      pose proof (la_body g Hl _ _ _ _ Eb Hm) as Hnone.
      apply id_step_nodes in Hstep as (n & _ & Hn & _ & <- & _).
      by rewrite (proj2 (node_Some g Hg (gn_id n) n)) in Hnone.
  - right. right. by eapply tc_r.
Qed.

Lemma cleared_for_owner f o r m :
  region g o = Some r -> m ∈ member_ids r -> cleared_for g f m -> cleared_for g f o.
Proof using Hr Hl Hg.
  intros Hor Hm. unfold cleared_for. set (root := default f (resume_unit_owner_id g f)).
  intros [->|[[Hin Hs]|Htc]].
  - exfalso. by eapply (unit_root_outer f).
  - revert Hin. unfold resume_unit_member_ids. destruct (region g root) as [r'|] eqn:Er.
    + intros Hin. left. assert (region_owner g m = Some o) by (apply (ro_owner g Hr); eauto).
      assert (region_owner g m = Some root) by (apply (ro_owner g Hr); eauto). congruence.
    + destruct (loop_body g root) as [[c body]|] eqn:Eb; [|set_solver]. intros Hin.
      pose proof (la_body g Hl _ _ _ _ Eb Hin). by destruct (member_node _ _ _ Hor Hm); simplify_eq.
  - destruct (path_into_region _ _ _ _ Hor Hm Htc) as [Hin|[->|?]]; [|by left|by right; right].
    exfalso. by eapply (unit_root_outer f).
Qed.

(** A node of a Loop body is a member of the unit of its container. *)
Lemma loop_owner_member f o :
  loop_owner g f = Some o -> f ∈ resume_unit_member_ids g o.
Proof using Hl.
  unfold loop_owner. intros ([o' [config body]] & Hf & ->)%fmap_Some. simpl.
  apply find_first_Some in Hf as [Hin [n Hn]%bool_decide_eq_true]. simpl in Hn.
  assert (loop_body g o' = Some (config, body)) as Hb.
  { unfold loop_body. pose proof (la_keys g Hl) as Hnd. revert Hin Hnd. clear.
    induction (g_loops g) as [|[k v] l IH]; csimpl; [set_solver|].
    intros [[= <- <-]|Hin]%elem_of_cons [Hk Hnd]%NoDup_cons; [by rewrite bool_decide_true|].
    rewrite bool_decide_false; [by apply IH|]. intros ->. apply Hk, list_elem_of_fmap. by eexists (_, _). }
  unfold resume_unit_member_ids. rewrite (la_kind g Hl) by (by eexists). rewrite Hb.
  apply list_elem_of_fmap. exists n. apply node_Some in Hn as [Hn <-]; [done|]. by eapply la_graph.
Qed.

Lemma cleared_for_self f : cleared_for g f f.
Proof using Hr Hl.
  unfold cleared_for, resume_unit_owner_id.
  destruct (bool_decide (is_Some (region g f)) || bool_decide (is_Some (loop_body g f))); simpl; [by left|].
  destruct (region_owner g f) as [o|] eqn:Eo; simpl.
  { right. left. split; [|by eexists]. apply (ro_owner g Hr) in Eo as (r & Hor & Hm).
    unfold resume_unit_member_ids. by rewrite Hor. }
  destruct (loop_owner g f) as [o|] eqn:El; simpl; [|by left].
  right. left. split; [by apply loop_owner_member|by eexists].
Qed.
End closed.

(** ** Properties *)

(** Resuming clears whole units and everything downstream of them: every failed or cancelled
    node is cleared, with every node after a cleared one, and an iteration node exactly together
    with all the members of its region, so that no region is resumed inside an open round; and a
    node is cleared only for such a failure: it is the failed node's unit, a member of it, or
    downstream of it. *)
Theorem resume_clears_units g rows :
  graph_ok g -> regions_ok g -> loops_apart g ->
  let clear := resume_clear_node_ids g rows in
  NoDup clear /\
  (forall row, row ∈ rows -> is_failed_row row = true -> nr_node_id row ∈ clear) /\
  (forall x y, x ∈ clear -> id_step g x y -> y ∈ clear) /\
  (forall o r m, region g o = Some r -> m ∈ member_ids r -> m ∈ clear <-> o ∈ clear) /\
  (forall x, x ∈ clear -> exists row, row ∈ rows /\ is_failed_row row = true /\
     let root := default (nr_node_id row) (resume_unit_owner_id g (nr_node_id row)) in
     x = root \/ x ∈ resume_unit_member_ids g root \/ tc (id_step g) root x).
Proof using.
  intros Hg Hr Hl clear. split; [apply btree_elements_NoDup|].
  assert (forall x y, x ∈ clear -> id_step g x y -> y ∈ clear) as Hstep.
  { intros x y (f & Hf & Hx)%elem_of_resume_clear Hs; [|done]. apply elem_of_resume_clear; [done|].
    exists f. split; [done|]. by eapply cleared_for_step. }
  split_and!; [|done| |].
  - intros row Hrow Hfail. apply elem_of_resume_clear; [done|]. exists (nr_node_id row).
    split; [|by apply cleared_for_self]. apply elem_of_failed_node_ids. by exists row.
  - intros o r m Hor Hm. split.
    + intros (f & Hf & Hx)%elem_of_resume_clear; [|done]. apply elem_of_resume_clear; [done|].
      exists f. split; [done|]. by eapply cleared_for_owner.
    + destruct (ro_member g Hr _ _ _ Hor Hm) as [_ Htc]. clear Hor Hm.
      induction Htc as [x y Hs|x y z Hs Htc IH]; intros Hx; [by eapply Hstep|by apply IH; eapply Hstep].
  - intros x (f & Hf & Hx)%elem_of_resume_clear; [|done].
    apply elem_of_failed_node_ids in Hf as (row & Hrow & <- & Hfail). exists row.
    split; [done|]. split; [done|]. destruct Hx as [?|[[? _]|?]]; auto.
Qed.
End resume.

(** ** Witnesses *)

#[local] Existing Instance kahn_petgraph.

Definition failed_rows : list WorkflowNodeRun :=
  [plain_row "1" "s" "start" Succeeded; plain_row "2" "a" "agent" Failed; plain_row "3" "b" "agent" Succeeded].

Lemma resume_clears_units_witness :
  resume_clear_node_ids sample_graph failed_rows = ["a"; "o"] /\
  (forall x y, x ∈ resume_clear_node_ids sample_graph failed_rows -> id_step sample_graph x y ->
     y ∈ resume_clear_node_ids sample_graph failed_rows).
Proof.
  split; [vm_compute; reflexivity|].
  assert (regions_ok sample_graph) as Hr by (apply no_regions_ok; reflexivity).
  exact (proj1 (proj2 (proj2 (resume_clears_units sample_graph failed_rows sample_graph_ok Hr
    (flat_loops_apart sample_graph eq_refl))))).
Defined.
