(* ===== verification/Executable.v ===== *)
(** * What makes a run startable

    The structural checks of [start] ([engine/engine.rs]): [validate_executable_graph] and
    [validate_start_inputs] ([engine/start_input.rs]), with the lookups of unsupported nodes of
    [engine/loop_graph.rs].  Loop bodies are checked recursively, on fuel: the nesting depth. *)

From stdpp Require Import relations.
From S2P Require Import Prelude RustStr Order Json NodeTypes VariablePool Condition GraphBase NodeConfig.
From S2P Require Import NodeConfig GraphBase Graph Declarations RunPayload.
Local Open Scope ora_scope.

Inductive WorkflowValidationError : Type :=
| MissingStartNode
| UnsupportedNodeType (node_id : string) (node_type : NodeType)
| UnreachableNodes (node_ids : list string)
| OutputNodeHasSuccessors (node_id : string)
| DuplicateConditionCase (node_id case_id : string)
| UnknownConditionBranch (node_id handle : string)
| DuplicateOutputName (node_id name : string)
| MissingRequiredStartVariable (name : string)
| InvalidStartVariableOption (name : string).

(** The first element that a [HashSet::insert] loop finds already present. *)
Fixpoint first_duplicate (seen : list string) (l : list string) : option string :=
  match l with
  | [] => None
  | x :: l => if bool_decide (x ∈ seen) then Some x else first_duplicate (x :: seen) l
  end.

Definition reject_duplicate (l : list string) (error : string -> WorkflowValidationError) :
    result WorkflowValidationError unit :=
  match first_duplicate [] l with Some x => Err (error x) | None => Ok tt end.

(** How deep Loop bodies are nested. *)
Fixpoint loops_depth (g : WorkflowGraph) : nat :=
  S (fold_right (fun p depth => Nat.max (loops_depth (snd (snd p))) depth) 0 (g_loops g)).

Section executable.
Context {pet : Petgraph}.

(** One node of the loop of [validate_executable_graph]. *)
Definition executable_node (validate : WorkflowGraph -> result WorkflowValidationError unit)
    (g : WorkflowGraph) (n : WorkflowGraphNode) : result WorkflowValidationError unit :=
  match gn_type n with
  | Output =>
      reject (negb (bool_decide (gn_id <$> successors g (gn_id n) = [])))
        with (OutputNodeHasSuccessors (gn_id n));
      match gn_output_config n with
      | Some config =>
          reject_duplicate (binding_name <$> output_bindings config) (DuplicateOutputName (gn_id n))
      | None => Ok tt
      end
  | NodeTypes.Condition =>
      match gn_condition_config n with
      | Some config =>
          _ ← reject_duplicate (case_id <$> cases config) (DuplicateConditionCase (gn_id n));
          for_each (fun edge =>
            let handle := default ELSE_BRANCH_ID (source_handle edge) in
            reject_if (negb (bool_decide (handle = ELSE_BRANCH_ID)
                             || existsb (fun case => bool_decide (case_id case = handle)) (cases config)))
              (UnknownConditionBranch (gn_id n) handle)) (outgoing_edges g (gn_id n))
      | None => Ok tt
      end
  | Loop => match loop_body g (gn_id n) with Some (_, body) => validate body | None => Ok tt end
  | _ => Ok tt
  end.

Fixpoint executable_graph (fuel : nat) (g : WorkflowGraph) : result WorkflowValidationError unit :=
  match fuel with
  | 0 => Ok tt
  | S fuel => for_each (executable_node (executable_graph fuel) g) (g_nodes g)
  end.

Definition validate_executable_graph (g : WorkflowGraph) : result WorkflowValidationError unit :=
  executable_graph (loops_depth g) g.

(** [first_unsupported_node] *)
Fixpoint unsupported_node (fuel : nat) (g : WorkflowGraph) : option WorkflowGraphNode :=
  match fuel with
  | 0 => None
  | S fuel =>
      match find_first (fun n => negb (supported (gn_type n))) (g_nodes g) with
      | Some n => Some n
      | None =>
          head (omap (unsupported_node fuel)
            (omap (fun n => snd <$> loop_body g (gn_id n)) (g_nodes g)))
      end
  end.

Definition first_unsupported_node (g : WorkflowGraph) : option WorkflowGraphNode :=
  unsupported_node (loops_depth g) g.

(** ** Start inputs *)

Definition missing_value (value : option Value) : bool :=
  match value with
  | None | Some VNull => true
  | Some (VString s) => bool_decide (s = "")
  | Some (VArray l) => bool_decide (l = [])
  | Some _ => false
  end.

(** One variable of the loop of [validate_start_inputs]. *)
Definition check_start_input (pool : WorkflowVariablePool) (start_id : string)
    (variable : StartInputVariable) : result WorkflowValidationError unit :=
  let value :=
    match values pool !! qualified_name start_id (si_name variable) with
    | Some v => Some v
    | None => si_value variable
    end in
  reject (si_required variable && missing_value value)
    with (MissingRequiredStartVariable (si_name variable));
  reject_if
    (negb (bool_decide (si_options variable = []))
     && match value ≫= as_str with
        | Some text => negb (bool_decide (text ∈ si_options variable))
        | None => false
        end)
    (InvalidStartVariableOption (si_name variable)).

Definition validate_start_inputs (start : WorkflowGraphNode) (payload : option WorkflowRunPayload) :
    result WorkflowValidationError unit :=
  let pool := default empty_pool (variable_pool <$> payload) in
  for_each (check_start_input pool (gn_id start)) (gn_input_variables start).

(** The checks of [start], in order, and the Start node they return. *)
Definition validate_start (g : WorkflowGraph) (payload : option WorkflowRunPayload) :
    result WorkflowValidationError WorkflowGraphNode :=
  start ← ok_or (start_node g) MissingStartNode;
  _ ← match first_unsupported_node g with
      | Some n => Err (UnsupportedNodeType (gn_id n) (gn_type n))
      | None => Ok tt
      end;
  let unreachable := unreachable_from_start g in
  reject (negb (bool_decide (unreachable = []))) with (UnreachableNodes unreachable);
  _ ← validate_executable_graph g;
  _ ← validate_start_inputs start payload;
  Ok start.
End executable.

(** ** Lemmas *)

Lemma first_duplicate_None seen l :
  first_duplicate seen l = None <-> NoDup l /\ forall x, x ∈ l -> x ∉ seen.
Proof.
  revert seen. induction l as [|x l IH]; intros seen; simpl.
  { split; [|done]. intros _. split; [constructor|set_solver]. }
  case_bool_decide as Hx.
  - split; [done|]. intros [_ H]. by destruct (H x ltac:(by left)).
  - rewrite IH, NoDup_cons. split.
    + intros [Hnd H]. split; [split; [|done]; intros Hin; by destruct (H x Hin ltac:(by left))|].
      intros y [->|Hy]%elem_of_cons; [done|]. specialize (H y Hy). set_solver.
    + intros [[Hn Hnd] H]. split; [done|]. intros y Hy [->|Hs]%elem_of_cons; [done|].
      by apply (H y); [right|].
Qed.

Lemma reject_duplicate_Ok l error u : reject_duplicate l error = Ok u <-> NoDup l.
Proof.
  unfold reject_duplicate. destruct (first_duplicate [] l) as [x|] eqn:E.
  - split; [done|]. intros Hnd. assert (first_duplicate [] l = None) as H; [|congruence].
    apply first_duplicate_None. split; [done|set_solver].
  - destruct u. apply first_duplicate_None in E as [? _]. done.
Qed.

Lemma loops_depth_body g id config body :
  loop_body g id = Some (config, body) -> loops_depth body < loops_depth g.
Proof.
  unfold loop_body. intros ([k v] & [Hin _]%find_first_Some & Hv)%fmap_Some. simpl in Hv. subst v.
  destruct g as [? ? ? ? ? loops ? ?]. simpl in *. apply Nat.lt_succ_r.
  induction loops as [|q loops IH]; simpl; [by apply elem_of_nil in Hin|].
  apply elem_of_cons in Hin as [<-|Hin]; simpl; [lia|]. specialize (IH Hin). lia.
Qed.

Lemma loops_depth_pos g : 0 < loops_depth g.
Proof. destruct g; simpl; lia. Qed.

Section lemmas.
Context {pet : Petgraph}.

Lemma executable_graph_fuel f1 f2 g :
  loops_depth g <= f1 -> loops_depth g <= f2 -> executable_graph f1 g = executable_graph f2 g.
Proof.
  revert f2 g. induction f1 as [|f1 IH]; intros f2 g H1 H2; pose proof (loops_depth_pos g); [lia|].
  destruct f2 as [|f2]; [lia|]. simpl. apply for_each_ext. intros n _. unfold executable_node.
  destruct (gn_type n); try done. destruct (loop_body g (gn_id n)) as [[c body]|] eqn:E; [|done].
  apply loops_depth_body in E. apply IH; lia.
Qed.

(** The fuel never shows: the recursion over Loop bodies is that of the code. *)
Lemma executable_unfold g :
  validate_executable_graph g = for_each (executable_node validate_executable_graph g) (g_nodes g).
Proof.
  unfold validate_executable_graph at 1. pose proof (loops_depth_pos g).
  destruct (loops_depth g) as [|d] eqn:Ed; [lia|]. simpl. apply for_each_ext. intros n _.
  unfold executable_node. destruct (gn_type n); try done.
  destruct (loop_body g (gn_id n)) as [[c body]|] eqn:E; [|done].
  apply loops_depth_body in E. apply executable_graph_fuel; lia.
Qed.

Lemma unsupported_node_fuel f1 f2 g :
  loops_depth g <= f1 -> loops_depth g <= f2 -> unsupported_node f1 g = unsupported_node f2 g.
Proof.
  revert f2 g. induction f1 as [|f1 IH]; intros f2 g H1 H2; pose proof (loops_depth_pos g); [lia|].
  destruct f2 as [|f2]; [lia|]. simpl. destruct (find_first _ _); [done|]. f_equal.
  assert (forall l, Forall (fun b => loops_depth b < loops_depth g) l ->
    omap (unsupported_node f1) l = omap (unsupported_node f2) l) as Hgo.
  { induction 1 as [|b l Hb _ IHl]; [done|]. csimpl. rewrite (IH f2 b) by lia. by rewrite IHl. }
  apply Hgo, Forall_forall. intros b (n & _ & Hb)%list_elem_of_omap.
  destruct (loop_body g (gn_id n)) as [[c body]|] eqn:E; simplify_eq/=. by eapply loops_depth_body.
Qed.

Lemma unsupported_unfold g :
  first_unsupported_node g = None <->
  (forall n, n ∈ g_nodes g -> supported (gn_type n) = true) /\
  (forall n config body, n ∈ g_nodes g -> loop_body g (gn_id n) = Some (config, body) ->
     first_unsupported_node body = None).
Proof.
  unfold first_unsupported_node at 1. pose proof (loops_depth_pos g).
  destruct (loops_depth g) as [|d] eqn:Ed; [lia|]. simpl.
  destruct (find_first _ (g_nodes g)) as [n|] eqn:Ef.
  { split; [done|]. intros [H' _]. apply find_first_Some in Ef as [Hin Hn]. by rewrite (H' n Hin) in Hn. }
  apply find_first_None in Ef. rewrite Forall_forall in Ef. rewrite head_None.
  assert (forall n config body, n ∈ g_nodes g -> loop_body g (gn_id n) = Some (config, body) ->
    unsupported_node d body = first_unsupported_node body) as Hb.
  { intros n c body _ E%loops_depth_body. apply unsupported_node_fuel; lia. }
  split.
  - intros Hnil. split.
    + intros n Hn. specialize (Ef n Hn). by apply negb_false_iff in Ef.
    + intros n c body Hn E. rewrite <-(Hb n c body Hn E).
      destruct (unsupported_node d body) as [u|] eqn:Eu; [|done]. exfalso.
      assert (u ∈ omap (unsupported_node d) (omap (fun n => snd <$> loop_body g (gn_id n)) (g_nodes g))) as Hin.
      { apply list_elem_of_omap. exists body. split; [|done]. apply list_elem_of_omap. exists n. by rewrite E. }
      rewrite Hnil in Hin. by apply elem_of_nil in Hin.
  - intros [_ Hall]. apply elem_of_nil_inv. intros u (body & Hin & Hu)%list_elem_of_omap.
    apply list_elem_of_omap in Hin as (n & Hn & E). destruct (loop_body g (gn_id n)) as [[c b]|] eqn:El;
      simplify_eq/=. rewrite (Hb n c body Hn El), (Hall n c body Hn El) in Hu. done.
Qed.
End lemmas.

(** ** Properties *)

Section properties.
Context {pet : Petgraph}.

(** What a startable scope is: a root graph or a Loop body. *)
Definition scope_executable (g : WorkflowGraph) : Prop :=
  (forall n, n ∈ g_nodes g -> gn_type n = Output ->
     (forall y, ~ id_step g (gn_id n) y) /\
     forall config, gn_output_config n = Some config -> NoDup (binding_name <$> output_bindings config)) /\
  (forall n config, n ∈ g_nodes g -> gn_type n = NodeTypes.Condition ->
     gn_condition_config n = Some config ->
     NoDup (case_id <$> cases config) /\
     forall e, e ∈ outgoing_edges g (gn_id n) ->
       let handle := default ELSE_BRANCH_ID (source_handle e) in
       handle = ELSE_BRANCH_ID \/ handle ∈ (case_id <$> cases config)) /\
  (forall n config body, n ∈ g_nodes g -> gn_type n = Loop ->
     loop_body g (gn_id n) = Some (config, body) -> validate_executable_graph body = Ok tt).

Lemma output_executable g n :
  graph_ok g -> gn_type n = Output ->
  executable_node validate_executable_graph g n = Ok tt <->
  (forall y, ~ id_step g (gn_id n) y) /\
  forall config, gn_output_config n = Some config -> NoDup (binding_name <$> output_bindings config).
Proof.
  intros Hg Ht. unfold executable_node. rewrite Ht, reject_Ok, negb_false_iff, bool_decide_eq_true.
  assert (gn_id <$> successors g (gn_id n) = [] <-> forall y, ~ id_step g (gn_id n) y) as ->.
  { split.
    - intros Hnil y Hy. pose proof (id_step_nodes _ _ _ Hy) as (_ & m & _ & Hm & _ & <-).
      assert (gn_id m ∈ gn_id <$> successors g (gn_id n)) as H.
      { apply list_elem_of_fmap_2, elem_of_successors; done. }
      rewrite Hnil in H. by apply elem_of_nil in H.
    - intros H. apply elem_of_nil_inv. intros y (m & -> & [_ Hm]%elem_of_successors)%list_elem_of_fmap; [|done].
      by apply (H (gn_id m)). }
  destruct (gn_output_config n) as [config|]; [|naive_solver]. rewrite reject_duplicate_Ok. naive_solver.
Qed.

Lemma condition_executable g n config :
  gn_type n = NodeTypes.Condition -> gn_condition_config n = Some config ->
  executable_node validate_executable_graph g n = Ok tt <->
  NoDup (case_id <$> cases config) /\
  forall e, e ∈ outgoing_edges g (gn_id n) ->
    let handle := default ELSE_BRANCH_ID (source_handle e) in
    handle = ELSE_BRANCH_ID \/ handle ∈ (case_id <$> cases config).
Proof.
  intros Ht Hc. unfold executable_node. rewrite Ht, Hc, bind_Ok.
  setoid_rewrite reject_duplicate_Ok. setoid_rewrite for_each_Ok. setoid_rewrite Forall_forall.
  setoid_rewrite reject_if_Ok. setoid_rewrite negb_false_iff. setoid_rewrite orb_true_iff.
  setoid_rewrite bool_decide_eq_true. setoid_rewrite existsb_True. setoid_rewrite bool_decide_eq_true.
  setoid_rewrite list_elem_of_fmap. split.
  - intros (_ & Hnd & H). split; [done|]. intros e He. destruct (H e He) as [?|(c & ? & ?)]; [by left|right].
    by exists c.
  - intros [Hnd H]. exists tt. split; [done|]. intros e He.
    destruct (H e He) as [?|(c & ? & ?)]; [by left|right]. by exists c.
Qed.

Lemma validate_executable_Ok g :
  graph_ok g -> validate_executable_graph g = Ok tt <-> scope_executable g.
Proof.
  intros Hg. rewrite executable_unfold, for_each_Ok, Forall_forall. unfold scope_executable. split.
  - intros H. split_and!.
    + intros n Hn Ht. by apply output_executable, H.
    + intros n config Hn Ht Hc. by apply condition_executable, H.
    + intros n config body Hn Ht Hb. specialize (H n Hn). unfold executable_node in H.
      by rewrite Ht, Hb in H.
  - intros (Ho & Hc & Hl) n Hn. destruct (gn_type n) eqn:Ht;
      try (unfold executable_node; rewrite Ht; done).
    + unfold executable_node. rewrite Ht. destruct (gn_condition_config n) as [config|] eqn:Ec; [|done].
      pose proof (proj2 (condition_executable g n config Ht Ec) (Hc n config Hn Ht Ec)) as H.
      unfold executable_node in H. by rewrite Ht, Ec in H.
    + apply output_executable; auto.
    + unfold executable_node. rewrite Ht. destruct (loop_body g (gn_id n)) as [[config body]|] eqn:Eb; [|done].
      by eapply Hl.
Qed.

Definition input_value (pool : WorkflowVariablePool) (start_id : string)
    (variable : StartInputVariable) : option Value :=
  match values pool !! qualified_name start_id (si_name variable) with
  | Some v => Some v
  | None => si_value variable
  end.

Lemma validate_inputs_Ok start payload u :
  validate_start_inputs start payload = Ok u <->
  forall variable, variable ∈ gn_input_variables start ->
    let value := input_value (default empty_pool (variable_pool <$> payload)) (gn_id start) variable in
    (si_required variable = true -> missing_value value = false) /\
    (forall text, si_options variable <> [] -> value = Some (VString text) ->
       text ∈ si_options variable).
Proof.
  unfold validate_start_inputs. rewrite for_each_Ok, Forall_forall.
  assert (forall variable, check_start_input (default empty_pool (variable_pool <$> payload))
      (gn_id start) variable = Ok tt <->
    let value := input_value (default empty_pool (variable_pool <$> payload)) (gn_id start) variable in
    (si_required variable = true -> missing_value value = false) /\
    (forall text, si_options variable <> [] -> value = Some (VString text) ->
       text ∈ si_options variable)) as H; [|by setoid_rewrite H].
  intros variable. unfold check_start_input. rewrite reject_Ok, reject_if_Ok. unfold input_value.
  set (value := match values _ !! _ with Some v => Some v | None => si_value variable end). simpl.
  rewrite !andb_false_iff, negb_false_iff, bool_decide_eq_true. split.
  - intros [Hreq Hopt]. split; [intros Hr; destruct Hreq; congruence|].
    intros text Hne ->. destruct Hopt as [?|Hopt]; [done|]. simpl in Hopt.
    by apply negb_false_iff, bool_decide_eq_true in Hopt.
  - intros [Hreq Hopt]. split; [destruct (si_required variable); auto|].
    destruct (decide (si_options variable = [])) as [?|Hne]; [by left|right].
    destruct value as [[| | |text| |]|]; simpl; try done.
    apply negb_false_iff, bool_decide_eq_true. by apply Hopt.
Qed.

Lemma unreachable_nil g start :
  graph_ok g -> start_node g = Some start ->
  unreachable_from_start g = [] <->
  forall n, n ∈ g_nodes g -> n = start \/ tc (id_step g) (gn_id start) (gn_id n).
Proof.
  intros Hg Hs. unfold unreachable_from_start. rewrite Hs.
  assert (start ∈ g_nodes g) as Hin by (unfold start_node in Hs; by apply find_first_Some in Hs as [? _]).
  split.
  - intros Hnil n Hn. destruct (decide (gn_id n = gn_id start)) as [He|He]; [left; by eapply node_id_inj|].
    right. destruct (decide (gn_id n ∈ gn_id <$> transitive_successors g (gn_id start))) as [Hr|Hr].
    + apply list_elem_of_fmap in Hr as (m & Hid & [Hm Hc]%elem_of_transitive_successors); [|done].
      by rewrite Hid.
    + exfalso. assert (gn_id n ∈ ([] : list string)) as H; [|by apply elem_of_nil in H].
      rewrite <-Hnil. apply list_elem_of_fmap_2, list_elem_of_filter. split; [|done].
      apply andb_true_iff. rewrite negb_true_iff. by rewrite bool_decide_eq_true, bool_decide_eq_false.
  - intros Hall. apply elem_of_nil_inv. intros y (n & -> & Hn)%list_elem_of_fmap.
    apply list_elem_of_filter in Hn as [[Hne%bool_decide_eq_true Hr]%andb_true_iff Hn].
    apply negb_true_iff, bool_decide_eq_false in Hr. destruct (Hall n Hn) as [->|Hc]; [done|].
    apply Hr, list_elem_of_fmap_2, elem_of_transitive_successors; done.
Qed.

(** A run starts exactly from a graph with a Start node, whose nodes are all of a supported kind
    and reachable from it, whose Output nodes are terminal and bind distinct names, whose
    conditions have distinct cases and edges on those cases or on the else branch only, whose Loop
    bodies meet the same checks, and with every required Start input given and every select
    input one of its options. *)
Theorem start_validated g payload start :
  graph_ok g ->
  validate_start g payload = Ok start <->
  start_node g = Some start /\
  (forall n, n ∈ g_nodes g -> supported (gn_type n) = true) /\
  (forall n config body, n ∈ g_nodes g -> loop_body g (gn_id n) = Some (config, body) ->
     first_unsupported_node body = None) /\
  (forall n, n ∈ g_nodes g -> n = start \/ tc (id_step g) (gn_id start) (gn_id n)) /\
  scope_executable g /\
  (forall variable, variable ∈ gn_input_variables start ->
     let value := input_value (default empty_pool (variable_pool <$> payload)) (gn_id start) variable in
     (si_required variable = true -> missing_value value = false) /\
     (forall text, si_options variable <> [] -> value = Some (VString text) ->
        text ∈ si_options variable)).
Proof.
  intros Hg. unfold validate_start. rewrite <-validate_executable_Ok by done.
  rewrite <-(validate_inputs_Ok start payload tt). split.
  - intros H. inv_ok. destruct (start_node g) as [s|] eqn:Es; [|done]. inv_ok.
    destruct (first_unsupported_node g) eqn:Eu; inv_ok.
    apply unsupported_unfold in Eu as [Hu Hb]. split_and!; try done;
      try (match goal with x : () |- _ => by destruct x end).
    apply unreachable_nil; [done..|].
    match goal with H : negb _ = false |- _ => by apply negb_false_iff, bool_decide_eq_true in H end.
  - intros (Hs & Hu & Hb & Hr & He & Hi). rewrite Hs. simpl.
    rewrite (proj2 (unsupported_unfold g)) by done. simpl.
    rewrite (proj2 (unreachable_nil g start Hg Hs) Hr). simpl. rewrite He. simpl. by rewrite Hi.
Qed.
End properties.

(** ** Witnesses *)

#[local] Existing Instance kahn_petgraph.

Lemma start_validated_witness :
  validate_start sample_graph None = Ok (plain_node "s" Start) /\
  forall n, n ∈ g_nodes sample_graph ->
    n = plain_node "s" Start \/ tc (id_step sample_graph) "s" (gn_id n).
Proof.
  assert (validate_start sample_graph None = Ok (plain_node "s" Start)) as H by (vm_compute; reflexivity).
  split; [exact H|].
  exact (proj1 (proj2 (proj2 (proj2 (proj1 (start_validated sample_graph None (plain_node "s" Start)
    sample_graph_ok) H))))).
Defined.
