(* ===== verification/Store.v ===== *)
(** * The run store: tables, transactions and schema

    The part of the SQLite database that one workflow run owns, as the engine repository
    ([crates/db/src/repository/workflow_run_engine.rs] and its modules) reads and writes it: the
    run's row of [workflow_runs], its [workflow_node_runs], the Loop rounds of
    [workflow_execution_scopes] and the root-scope binding, with the constraints of migration
    0013 ([migration/schema/schema_v0013.rs]).  Every statement of the code selects by the run's
    id or by the id of a row or scope of the run, so the rows of other runs are left out, and
    with them the column [updated_at], which nothing reads back.

    A transaction is a function of the store that may fail; a failed transaction is rolled back,
    so it has no resulting store.  Payload and round-state columns hold JSON text in the
    database: a [Column] says whether the text is absent, does not decode, or which value it
    decodes to. *)

From S2P Require Import Prelude RustStr Order Json NodeTypes VariablePool Iteration RunPayload.
Local Open Scope ora_scope.

(** ** Rows *)

Inductive Column (A : Type) : Type :=
| Null
| Malformed (text : string)
| Stored (value : A).
Arguments Null {A}.
Arguments Malformed {A} text.
Arguments Stored {A} value.

(** [WorkflowScopeStatus] *)
Inductive WorkflowScopeStatus : Type :=
| ScopePending | ScopeRunning | ScopeSucceeded | ScopeFailed | ScopeCancelled.

#[export] Instance WorkflowScopeStatus_eq_dec : EqDecision WorkflowScopeStatus.
Proof. solve_decision. Defined.

Definition scope_database_value (s : WorkflowScopeStatus) : Z :=
  match s with
  | ScopePending => 0 | ScopeRunning => 1 | ScopeSucceeded => 2 | ScopeFailed => 3
  | ScopeCancelled => 4
  end.

(** [LoopExitState] and [LoopRoundExecutionState] of [engine/loop_round.rs]. *)
Record LoopExitState : Type := {
  exit_node_run_id : string;
  exit_requested_at : Z;
  exit_result : result string (gmap string Value);
}.

Record LoopRoundExecutionState : Type := {
  round_pool : WorkflowVariablePool;
  round_decisions : gmap string string;
  round_exit : option LoopExitState;
}.

(** One row of [workflow_execution_scopes] that is a Loop round. *)
Record RoundScope : Type := {
  sc_id : string;
  sc_parent : string;
  sc_index : N;
  sc_status : WorkflowScopeStatus;
  sc_state : Column LoopRoundExecutionState;
}.

(** One row of [workflow_node_runs]. *)
Record NodeRow : Type := {
  row : WorkflowNodeRun;
  row_created_at : Z;
  row_deleted : bool;
}.

(** The run's row of [workflow_runs]; [state] is decoded to its anchor [current_nodes]. *)
Record RunColumns : Type := {
  wr_id : string;
  wr_workflow_id : string;
  wr_status : WorkflowRunStatus;
  wr_current_nodes : list string;
  wr_input : option string;
  wr_output : option string;
  wr_error : option string;
  wr_payload : Column WorkflowRunPayload;
  wr_started_at : option Z;
  wr_finished_at : option Z;
  wr_deleted : bool;
}.

Record RunStore : Type := {
  st_run : RunColumns;
  st_rows : list NodeRow;
  st_root : string;
  st_old_roots : list string;
  st_rounds : list RoundScope;
}.

(** *** Column updates *)

Definition set_status (status : WorkflowNodeStatus) (r : WorkflowNodeRun) : WorkflowNodeRun :=
  {| nr_id := nr_id r; nr_run_id := nr_run_id r; nr_scope_id := nr_scope_id r;
     nr_node_id := nr_node_id r; nr_node_type := nr_node_type r;
     nr_session_id := nr_session_id r; nr_status := status; nr_input := nr_input r;
     nr_output := nr_output r; nr_error := nr_error r; nr_payload := nr_payload r;
     nr_iteration := nr_iteration r; nr_started_at := nr_started_at r;
     nr_finished_at := nr_finished_at r |}.
Definition set_output (output : option string) (r : WorkflowNodeRun) : WorkflowNodeRun :=
  {| nr_id := nr_id r; nr_run_id := nr_run_id r; nr_scope_id := nr_scope_id r;
     nr_node_id := nr_node_id r; nr_node_type := nr_node_type r;
     nr_session_id := nr_session_id r; nr_status := nr_status r; nr_input := nr_input r;
     nr_output := output; nr_error := nr_error r; nr_payload := nr_payload r;
     nr_iteration := nr_iteration r; nr_started_at := nr_started_at r;
     nr_finished_at := nr_finished_at r |}.
Definition set_error (error : option string) (r : WorkflowNodeRun) : WorkflowNodeRun :=
  {| nr_id := nr_id r; nr_run_id := nr_run_id r; nr_scope_id := nr_scope_id r;
     nr_node_id := nr_node_id r; nr_node_type := nr_node_type r;
     nr_session_id := nr_session_id r; nr_status := nr_status r; nr_input := nr_input r;
     nr_output := nr_output r; nr_error := error; nr_payload := nr_payload r;
     nr_iteration := nr_iteration r; nr_started_at := nr_started_at r;
     nr_finished_at := nr_finished_at r |}.
Definition set_session (session : option string) (r : WorkflowNodeRun) : WorkflowNodeRun :=
  {| nr_id := nr_id r; nr_run_id := nr_run_id r; nr_scope_id := nr_scope_id r;
     nr_node_id := nr_node_id r; nr_node_type := nr_node_type r; nr_session_id := session;
     nr_status := nr_status r; nr_input := nr_input r; nr_output := nr_output r;
     nr_error := nr_error r; nr_payload := nr_payload r; nr_iteration := nr_iteration r;
     nr_started_at := nr_started_at r; nr_finished_at := nr_finished_at r |}.
Definition set_payload (payload : option string) (r : WorkflowNodeRun) : WorkflowNodeRun :=
  {| nr_id := nr_id r; nr_run_id := nr_run_id r; nr_scope_id := nr_scope_id r;
     nr_node_id := nr_node_id r; nr_node_type := nr_node_type r;
     nr_session_id := nr_session_id r; nr_status := nr_status r; nr_input := nr_input r;
     nr_output := nr_output r; nr_error := nr_error r; nr_payload := payload;
     nr_iteration := nr_iteration r; nr_started_at := nr_started_at r;
     nr_finished_at := nr_finished_at r |}.
Definition set_started (time : option Z) (r : WorkflowNodeRun) : WorkflowNodeRun :=
  {| nr_id := nr_id r; nr_run_id := nr_run_id r; nr_scope_id := nr_scope_id r;
     nr_node_id := nr_node_id r; nr_node_type := nr_node_type r;
     nr_session_id := nr_session_id r; nr_status := nr_status r; nr_input := nr_input r;
     nr_output := nr_output r; nr_error := nr_error r; nr_payload := nr_payload r;
     nr_iteration := nr_iteration r; nr_started_at := time;
     nr_finished_at := nr_finished_at r |}.
Definition set_finished (time : option Z) (r : WorkflowNodeRun) : WorkflowNodeRun :=
  {| nr_id := nr_id r; nr_run_id := nr_run_id r; nr_scope_id := nr_scope_id r;
     nr_node_id := nr_node_id r; nr_node_type := nr_node_type r;
     nr_session_id := nr_session_id r; nr_status := nr_status r; nr_input := nr_input r;
     nr_output := nr_output r; nr_error := nr_error r; nr_payload := nr_payload r;
     nr_iteration := nr_iteration r; nr_started_at := nr_started_at r;
     nr_finished_at := time |}.
Definition run_set_status (status : WorkflowRunStatus) (run : RunColumns) : RunColumns :=
  {| wr_id := wr_id run; wr_workflow_id := wr_workflow_id run; wr_status := status;
     wr_current_nodes := wr_current_nodes run; wr_input := wr_input run;
     wr_output := wr_output run; wr_error := wr_error run; wr_payload := wr_payload run;
     wr_started_at := wr_started_at run; wr_finished_at := wr_finished_at run;
     wr_deleted := wr_deleted run |}.
Definition run_set_current (nodes : list string) (run : RunColumns) : RunColumns :=
  {| wr_id := wr_id run; wr_workflow_id := wr_workflow_id run; wr_status := wr_status run;
     wr_current_nodes := nodes; wr_input := wr_input run; wr_output := wr_output run;
     wr_error := wr_error run; wr_payload := wr_payload run; wr_started_at := wr_started_at run;
     wr_finished_at := wr_finished_at run; wr_deleted := wr_deleted run |}.
Definition run_set_input (input : option string) (run : RunColumns) : RunColumns :=
  {| wr_id := wr_id run; wr_workflow_id := wr_workflow_id run; wr_status := wr_status run;
     wr_current_nodes := wr_current_nodes run; wr_input := input; wr_output := wr_output run;
     wr_error := wr_error run; wr_payload := wr_payload run; wr_started_at := wr_started_at run;
     wr_finished_at := wr_finished_at run; wr_deleted := wr_deleted run |}.
Definition run_set_output (output : option string) (run : RunColumns) : RunColumns :=
  {| wr_id := wr_id run; wr_workflow_id := wr_workflow_id run; wr_status := wr_status run;
     wr_current_nodes := wr_current_nodes run; wr_input := wr_input run; wr_output := output;
     wr_error := wr_error run; wr_payload := wr_payload run; wr_started_at := wr_started_at run;
     wr_finished_at := wr_finished_at run; wr_deleted := wr_deleted run |}.
Definition run_set_error (error : option string) (run : RunColumns) : RunColumns :=
  {| wr_id := wr_id run; wr_workflow_id := wr_workflow_id run; wr_status := wr_status run;
     wr_current_nodes := wr_current_nodes run; wr_input := wr_input run;
     wr_output := wr_output run; wr_error := error; wr_payload := wr_payload run;
     wr_started_at := wr_started_at run; wr_finished_at := wr_finished_at run;
     wr_deleted := wr_deleted run |}.
Definition run_set_payload (payload : Column WorkflowRunPayload) (run : RunColumns) : RunColumns :=
  {| wr_id := wr_id run; wr_workflow_id := wr_workflow_id run; wr_status := wr_status run;
     wr_current_nodes := wr_current_nodes run; wr_input := wr_input run;
     wr_output := wr_output run; wr_error := wr_error run; wr_payload := payload;
     wr_started_at := wr_started_at run; wr_finished_at := wr_finished_at run;
     wr_deleted := wr_deleted run |}.
Definition run_set_started (time : option Z) (run : RunColumns) : RunColumns :=
  {| wr_id := wr_id run; wr_workflow_id := wr_workflow_id run; wr_status := wr_status run;
     wr_current_nodes := wr_current_nodes run; wr_input := wr_input run;
     wr_output := wr_output run; wr_error := wr_error run; wr_payload := wr_payload run;
     wr_started_at := time; wr_finished_at := wr_finished_at run;
     wr_deleted := wr_deleted run |}.
Definition run_set_finished (time : option Z) (run : RunColumns) : RunColumns :=
  {| wr_id := wr_id run; wr_workflow_id := wr_workflow_id run; wr_status := wr_status run;
     wr_current_nodes := wr_current_nodes run; wr_input := wr_input run;
     wr_output := wr_output run; wr_error := wr_error run; wr_payload := wr_payload run;
     wr_started_at := wr_started_at run; wr_finished_at := time;
     wr_deleted := wr_deleted run |}.
Definition run_set_deleted (deleted : bool) (run : RunColumns) : RunColumns :=
  {| wr_id := wr_id run; wr_workflow_id := wr_workflow_id run; wr_status := wr_status run;
     wr_current_nodes := wr_current_nodes run; wr_input := wr_input run;
     wr_output := wr_output run; wr_error := wr_error run; wr_payload := wr_payload run;
     wr_started_at := wr_started_at run; wr_finished_at := wr_finished_at run;
     wr_deleted := deleted |}.

Definition set_rows (rows : list NodeRow) (s : RunStore) : RunStore :=
  {| st_run := st_run s; st_rows := rows; st_root := st_root s; st_old_roots := st_old_roots s;
     st_rounds := st_rounds s |}.
Definition set_run (run : RunColumns) (s : RunStore) : RunStore :=
  {| st_run := run; st_rows := st_rows s; st_root := st_root s; st_old_roots := st_old_roots s;
     st_rounds := st_rounds s |}.
Definition set_rounds (rounds : list RoundScope) (s : RunStore) : RunStore :=
  {| st_run := st_run s; st_rows := st_rows s; st_root := st_root s; st_old_roots := st_old_roots s;
     st_rounds := rounds |}.
Definition set_root (root : string) (s : RunStore) : RunStore :=
  {| st_run := st_run s; st_rows := st_rows s; st_root := root;
     st_old_roots := st_root s :: st_old_roots s; st_rounds := st_rounds s |}.

Definition on_row (f : WorkflowNodeRun -> WorkflowNodeRun) (r : NodeRow) : NodeRow :=
  {| row := f (row r); row_created_at := row_created_at r; row_deleted := row_deleted r |}.
Definition set_deleted (r : NodeRow) : NodeRow :=
  {| row := row r; row_created_at := row_created_at r; row_deleted := true |}.

Definition round_set_status (status : WorkflowScopeStatus) (c : RoundScope) : RoundScope :=
  {| sc_id := sc_id c; sc_parent := sc_parent c; sc_index := sc_index c; sc_status := status;
     sc_state := sc_state c |}.
Definition round_set_state (state : Column LoopRoundExecutionState) (c : RoundScope) : RoundScope :=
  {| sc_id := sc_id c; sc_parent := sc_parent c; sc_index := sc_index c;
     sc_status := sc_status c; sc_state := state |}.

Definition state_set_pool (pool : WorkflowVariablePool) (s : LoopRoundExecutionState) :
    LoopRoundExecutionState :=
  {| round_pool := pool; round_decisions := round_decisions s; round_exit := round_exit s |}.
Definition state_set_decisions (d : gmap string string) (s : LoopRoundExecutionState) :
    LoopRoundExecutionState :=
  {| round_pool := round_pool s; round_decisions := d; round_exit := round_exit s |}.
Definition state_set_exit (e : option LoopExitState) (s : LoopRoundExecutionState) :
    LoopRoundExecutionState :=
  {| round_pool := round_pool s; round_decisions := round_decisions s; round_exit := e |}.

(** ** Transactions *)

Inductive StoreError : Type :=
| ConstraintViolation (what : string)
| IncompleteWorkflowRunContext
| QueryReturnedNoRows
| CorruptColumn (text : string)
| PayloadFailure (e : PayloadError).

Definition Tx (A : Type) : Type := RunStore -> result StoreError (A * RunStore).

#[export] Instance tx_ret : MRet Tx := fun A x s => Ok (x, s).
#[export] Instance tx_bind : MBind Tx := fun A B k m s =>
  match m s with Ok (x, s') => k x s' | Err e => Err e end.

Definition throw {A} (e : StoreError) : Tx A := fun s => Err e.
Definition lift {A} (m : result StoreError A) : Tx A := fun s =>
  match m with Ok x => Ok (x, s) | Err e => Err e end.
Definition gets {A} (f : RunStore -> A) : Tx A := fun s => Ok (f s, s).
Definition get_store : Tx RunStore := gets (fun s => s).
Definition modify (f : RunStore -> RunStore) : Tx unit := fun s => Ok (tt, f s).

Definition require (cond : bool) (e : StoreError) : Tx unit :=
  if cond then mret tt else throw e.
Definition when (cond : bool) (m : Tx unit) : Tx unit := if cond then m else mret tt.

(** [for x in l { f(x)?; }] *)
Fixpoint each {A} (f : A -> Tx unit) (l : list A) : Tx unit :=
  match l with
  | [] => mret tt
  | x :: l => f x ;; each f l
  end.

(** What a caller sees: a failed transaction leaves the store as it was. *)
Definition commit {A} (m : Tx A) (s : RunStore) : result StoreError A * RunStore :=
  match m s with Ok (x, s') => (Ok x, s') | Err e => (Err e, s) end.

(** ** Statements *)

Definition node_active (status : WorkflowNodeStatus) : bool :=
  match status with Pending | Running => true | Succeeded | Failed | Cancelled => false end.
Definition scope_active (status : WorkflowScopeStatus) : bool :=
  match status with ScopePending | ScopeRunning => true | _ => false end.

Definition row_id (r : NodeRow) : string := nr_id (row r).
Definition live (r : NodeRow) : bool := negb (row_deleted r).
Definition status_is (status : WorkflowNodeStatus) (r : NodeRow) : bool :=
  bool_decide (nr_status (row r) = status).
Definition id_is (id : string) (r : NodeRow) : bool := bool_decide (row_id r = id).
Definition in_scope_of (scope : string) (r : NodeRow) : bool :=
  bool_decide (nr_scope_id (row r) = scope).
Definition active_row (r : NodeRow) : bool := node_active (nr_status (row r)).

(** [SELECT … FROM workflow_runs WHERE id = ? AND is_deleted = 0] *)
Definition select_run : Tx (option RunColumns) :=
  gets (fun s => if wr_deleted (st_run s) then None else Some (st_run s)).

(** [UPDATE workflow_runs SET … WHERE id = ? AND is_deleted = 0 AND …] *)
Definition update_run (p : RunColumns -> bool) (f : RunColumns -> RunColumns) : Tx unit :=
  modify (fun s => if negb (wr_deleted (st_run s)) && p (st_run s)
                   then set_run (f (st_run s)) s else s).

(** [SELECT … FROM workflow_node_runs WHERE id = ? AND is_deleted = 0]: ids are a primary key. *)
Definition find_row (s : RunStore) (id : string) : option NodeRow :=
  find_first (fun r => id_is id r && live r) (st_rows s).
Definition select_row (id : string) : Tx (option NodeRow) := gets (fun s => find_row s id).

(** [UPDATE workflow_node_runs SET … WHERE …]; the answer is the number of updated rows. *)
Definition update_rows (p : NodeRow -> bool) (f : NodeRow -> NodeRow) : Tx nat := fun s =>
  Ok (length (filter (fun r => p r = true) (st_rows s)),
      set_rows ((fun r => if p r then f r else r) <$> st_rows s) s).

Definition find_round (s : RunStore) (id : string) : option RoundScope :=
  find_first (fun c => bool_decide (sc_id c = id)) (st_rounds s).

(** [UPDATE workflow_execution_scopes SET … WHERE …] on Loop rounds. *)
Definition update_rounds (p : RoundScope -> bool) (f : RoundScope -> RoundScope) : Tx unit :=
  modify (fun s => set_rounds ((fun c => if p c then f c else c) <$> st_rounds s) s).

(** *** Insertions, with the constraints and triggers of migration 0013 *)

(** [workflow_node_runs_scope_node]: one live row per scope, node and round. *)
Definition same_slot (a b : WorkflowNodeRun) : bool :=
  bool_decide (nr_scope_id a = nr_scope_id b /\ nr_node_id a = nr_node_id b /\
               nr_iteration a = nr_iteration b).

Definition parent_running (s : RunStore) (c : RoundScope) : bool :=
  existsb (fun r => id_is (sc_parent c) r && in_scope_of (st_root s) r && status_is Running r
                    && live r) (st_rows s).

(** [workflow_node_scope_validate_insert]: the scope is the run's root scope, or a running round
    of a running row of it. *)
Definition scope_open (s : RunStore) (scope : string) : bool :=
  bool_decide (scope = st_root s)
  || existsb (fun c => bool_decide (sc_id c = scope) && bool_decide (sc_status c = ScopeRunning)
                       && parent_running s c) (st_rounds s).

Definition insert_row (r : NodeRow) : Tx unit :=
  s ← get_store;
  require (negb (existsb (id_is (row_id r)) (st_rows s))) (ConstraintViolation "workflow_node_runs.id") ;;
  require (scope_open s (nr_scope_id (row r)))
    (ConstraintViolation "node scope belongs to another workflow run") ;;
  require (negb (existsb (fun x => live x && same_slot (row x) (row r)) (st_rows s)))
    (ConstraintViolation "workflow_node_runs_scope_node") ;;
  modify (fun s => set_rows (st_rows s ++ [r]) s).

(** [workflow_scope_validate_parent] *)
Definition round_parent_ok (s : RunStore) (parent : string) : bool :=
  existsb (fun r => id_is parent r && bool_decide (nr_node_type (row r) = "loop") && live r
                    && status_is Running r && in_scope_of (st_root s) r) (st_rows s)
  && bool_decide (wr_status (st_run s) = RunRunning) && negb (wr_deleted (st_run s)).

Definition scope_ids (s : RunStore) : list string :=
  st_root s :: st_old_roots s ++ (sc_id <$> st_rounds s).

Definition insert_round (c : RoundScope) : Tx unit :=
  s ← get_store;
  require (negb (bool_decide (sc_id c ∈ scope_ids s)))
    (ConstraintViolation "workflow_execution_scopes.id") ;;
  require ((1 <=? sc_index c)%N && (sc_index c <=? 100)%N) (ConstraintViolation "round_index") ;;
  require (round_parent_ok s (sc_parent c))
    (ConstraintViolation "Loop round requires an active parent in the current root scope") ;;
  require (negb (existsb (fun d => bool_decide (sc_parent d = sc_parent c)
                                   && bool_decide (sc_index d = sc_index c)) (st_rounds s)))
    (ConstraintViolation "parent_loop_node_run_id, round_index") ;;
  require (negb (existsb (fun d => bool_decide (sc_parent d = sc_parent c)
                                   && scope_active (sc_status d)) (st_rounds s)))
    (ConstraintViolation "workflow_loop_one_active_round") ;;
  modify (fun s => set_rounds (st_rounds s ++ [c]) s).

(** A fresh root scope, bound to the run; the old one keeps its rows. *)
Definition insert_root (scope : string) : Tx unit :=
  s ← get_store;
  require (negb (bool_decide (scope ∈ scope_ids s)))
    (ConstraintViolation "workflow_execution_scopes.id") ;;
  modify (set_root scope).

(** *** Reads in creation order *)

Definition row_key (r : NodeRow) : Z * string := (row_created_at r, row_id r).
Definition row_le : relation NodeRow := cmp_le (cmp_on row_key (cmp_pair Z.compare str_cmp)).
#[export] Instance row_le_dec : RelDecision row_le := cmp_le_dec _.

Definition sorted_rows (rows : list NodeRow) : list WorkflowNodeRun :=
  row <$> merge_sort row_le rows.

(** [list_node_runs] and [list_node_runs_in_scope] *)
Definition list_node_runs (s : RunStore) : list WorkflowNodeRun :=
  sorted_rows (filter (fun r => live r = true) (st_rows s)).
Definition list_node_runs_in_scope (s : RunStore) (scope : string) : list WorkflowNodeRun :=
  sorted_rows (filter (fun r => live r && in_scope_of scope r = true) (st_rows s)).

(** [find_active_round]: the round the single-active-round index lets through. *)
Definition find_active_round (s : RunStore) (parent : string) : option RoundScope :=
  find_first (fun c => bool_decide (sc_parent c = parent) && scope_active (sc_status c)) (st_rounds s).

(** ** Payload columns *)

Definition default_payload : WorkflowRunPayload := new_payload "en-US" "".

(** [parse_run_payload] of [iteration.rs]. *)
Definition parse_run_payload (c : Column WorkflowRunPayload) : result StoreError WorkflowRunPayload :=
  match c with
  | Null => Ok default_payload
  | Malformed text => Err (CorruptColumn text)
  | Stored p => Ok p
  end.

(** [serde_json::from_str] of a column that is known to be set. *)
Definition decode {A} (c : Column A) : result StoreError A :=
  match c with
  | Null => Err IncompleteWorkflowRunContext
  | Malformed text => Err (CorruptColumn text)
  | Stored v => Ok v
  end.

(** [current_nodes] *)
Definition rewrite_current_nodes (f : list string -> list string) : Tx unit :=
  update_run (fun _ => true) (fun run => run_set_current (f (wr_current_nodes run)) run).
Definition forget_node (node_id : string) (nodes : list string) : list string :=
  filter (fun id => id <> node_id) nodes.

(** ** Reasoning about transactions *)

Lemma tx_bind_Ok {A B} (m : Tx A) (k : A -> Tx B) s b s'' :
  (m ≫= k) s = Ok (b, s'') <-> exists a s', m s = Ok (a, s') /\ k a s' = Ok (b, s'').
Proof.
  unfold mbind, tx_bind. split.
  - destruct (m s) as [[a s']|] eqn:E; [|done]. intros H. by exists a, s'.
  - by intros (a & s' & -> & H).
Qed.

Lemma tx_ret_Ok {A} (x y : A) s s' : (mret x : Tx A) s = Ok (y, s') <-> y = x /\ s' = s.
Proof. unfold mret, tx_ret. naive_solver. Qed.

Lemma lift_Ok {A} (m : result StoreError A) s x s' :
  lift m s = Ok (x, s') <-> m = Ok x /\ s' = s.
Proof. unfold lift. destruct m; naive_solver. Qed.

Lemma gets_Ok {A} (f : RunStore -> A) s x s' : gets f s = Ok (x, s') <-> x = f s /\ s' = s.
Proof. unfold gets. naive_solver. Qed.

Lemma modify_Ok f s u s' : modify f s = Ok (u, s') <-> s' = f s.
Proof. unfold modify. destruct u. naive_solver. Qed.

Lemma require_Ok b e s u s' : require b e s = Ok (u, s') <-> b = true /\ s' = s.
Proof. unfold require, throw. destruct u, b; rewrite ?tx_ret_Ok; naive_solver. Qed.

Lemma throw_Ok {A} e s (x : A) s' : throw e s = Ok (x, s') <-> False.
Proof. by split. Qed.

Lemma update_rows_Ok p f s n s' :
  update_rows p f s = Ok (n, s') <->
  n = length (filter (fun r => p r = true) (st_rows s)) /\
  s' = set_rows ((fun r => if p r then f r else r) <$> st_rows s) s.
Proof. unfold update_rows. naive_solver. Qed.

(** [inv_tx]: peel the statements of a transaction that committed. *)
Ltac inv_tx_step :=
  match goal with
  | H : mbind _ _ _ = Ok (_, _) |- _ =>
      let a := fresh "a" in let t := fresh "s" in let H1 := fresh "Hm" in
      apply tx_bind_Ok in H as (a & t & H1 & H)
  | H : mret _ _ = Ok (_, _) |- _ => apply tx_ret_Ok in H as [? ?]; simplify_eq
  | H : lift _ _ = Ok (_, _) |- _ => apply lift_Ok in H as [? ?]; simplify_eq
  | H : gets _ _ = Ok (_, _) |- _ => apply gets_Ok in H as [? ?]; simplify_eq
  | H : get_store _ = Ok (_, _) |- _ => apply gets_Ok in H as [? ?]; simplify_eq
  | H : select_run _ = Ok (_, _) |- _ => apply gets_Ok in H as [? ?]; simplify_eq
  | H : select_row _ _ = Ok (_, _) |- _ => apply gets_Ok in H as [? ?]; simplify_eq
  | H : modify _ _ = Ok (_, _) |- _ => apply modify_Ok in H; simplify_eq
  | H : require _ _ _ = Ok (_, _) |- _ => apply require_Ok in H as [? ?]; simplify_eq
  | H : throw _ _ = Ok (_, _) |- _ => by apply throw_Ok in H
  | H : update_rows _ _ _ = Ok (_, _) |- _ => apply update_rows_Ok in H as [? ?]; simplify_eq
  end.
Ltac inv_tx := repeat inv_tx_step.
