(* ===== verification/StorePayload.v ===== *)
(** * Node payloads of the run store

    The JSON object kept in [workflow_node_runs.payload]: the merges of
    [workflow_run_engine/payload_json.rs], the failure detail of [failure_detail.rs] and the
    retry markers of [engine/retry.rs].  The column is JSON text; [serde_json] and SQLite's JSON
    functions are parameters, with the documented behaviour the theorems rely on. *)

From S2P Require Import Prelude RustStr Json NodeTypes Retry Store.
Local Open Scope ora_scope.

Definition number_of_Z (z : Z) : Number :=
  if bool_decide (0 <= z)%Z then PosInt (Z.to_N z) else NegInt z.
Definition json_N (n : N) : Value := VNumber (PosInt n).
Definition json_Z (z : Z) : Value := VNumber (number_of_Z z).
Definition json_option_str (o : option string) : Value :=
  match o with Some s => VString s | None => VNull end.

Lemma as_i64_json_Z z : (i64_min <= z <= i64_max)%Z -> as_i64 (json_Z z) = Some z.
Proof.
  intros [Hlo Hhi]. unfold json_Z, number_of_Z, as_i64, num_as_i64. case_bool_decide.
  - rewrite Z2N.id by done. rewrite (proj2 (Z.leb_le _ _)) by (exact Hhi). done.
  - done.
Qed.

Notation Object := (list (string * Value)).

(** [Map::extend] *)
Definition map_extend (fields extra : Object) : Object :=
  fold_left (fun acc kv => map_insert kv.1 kv.2 acc) extra fields.

(** Removal of a member as SQLite does it: the other members keep their order. *)
Definition map_remove (key : string) (fields : Object) : Object :=
  filter (fun kv => kv.1 <> key) fields.

Lemma map_get_remove key fields : map_get key (map_remove key fields) = None.
Proof.
  unfold map_remove. induction fields as [|[k v] fields IH]; [done|].
  rewrite filter_cons. cbn [fst]. case_decide; [|done]. simpl. by rewrite decide_False.
Qed.

Lemma map_get_remove_ne key key' fields :
  key <> key' -> map_get key' (map_remove key fields) = map_get key' fields.
Proof.
  intros Hne. unfold map_remove. induction fields as [|[k v] fields IH]; [done|].
  rewrite filter_cons. cbn [fst]. case_decide as Hk; simpl; [by rewrite IH|].
  destruct (decide (k = key)) as [->|]; [|done]. by rewrite decide_False.
Qed.

Lemma map_remove_NoDup key fields : NoDup fields.*1 -> NoDup (map_remove key fields).*1.
Proof.
  intros Hnd. unfold map_remove. induction fields as [|[k v] fields IH]; [done|]. csimpl in Hnd.
  apply NoDup_cons in Hnd as [Hk Hnd]. rewrite filter_cons. case_decide; [|by apply IH].
  csimpl. apply NoDup_cons. split; [|by apply IH].
  intros (x & Hx & [_ Hin]%list_elem_of_filter)%list_elem_of_fmap. apply Hk. rewrite Hx.
  by apply list_elem_of_fmap_2.
Qed.

(** [Map::remove], a [swap_remove]: the last member takes the place of the removed one. *)
Fixpoint map_swap_remove (key : string) (fields : Object) : Object :=
  match fields with
  | [] => []
  | (k, v) :: fields =>
      if decide (k = key)
      then match last fields with Some l => l :: removelast fields | None => [] end
      else (k, v) :: map_swap_remove key fields
  end.

(** Up to the order of the members the two removals agree on an object. *)
Lemma map_swap_remove_perm key fields :
  NoDup fields.*1 -> map_swap_remove key fields ≡ₚ map_remove key fields.
Proof.
  induction fields as [|[k v] fields IH]; intros Hnd; [done|]. csimpl in Hnd.
  apply NoDup_cons in Hnd as [Hk Hnd]. unfold map_remove. rewrite filter_cons. cbn [fst map_swap_remove].
  fold (map_remove key fields). destruct (decide (k = key)) as [->|Hne].
  - rewrite decide_False by (intros H; by apply H).
    assert (map_remove key fields = fields) as ->.
    { unfold map_remove. clear -Hk. induction fields as [|[k' v'] fields IH]; [done|].
      csimpl in Hk. rewrite filter_cons_True by (cbn [fst]; set_solver). f_equal. apply IH. set_solver. }
    destruct fields as [|x fields _] using rev_ind; [done|].
    rewrite last_snoc, removelast_last. apply Permutation_cons_append.
  - rewrite decide_True by done. f_equiv. by apply IH.
Qed.

Lemma map_get_extend key fields extra :
  NoDup extra.*1 ->
  map_get key (map_extend fields extra) =
  match map_get key extra with Some v => Some v | None => map_get key fields end.
Proof.
  unfold map_extend. revert fields. induction extra as [|[k v] extra IH]; intros fields Hnd; [done|].
  csimpl in *. apply NoDup_cons in Hnd as [Hk Hnd]. rewrite IH by done. rewrite map_get_insert.
  destruct (decide (k = key)) as [->|]; [|done].
  destruct (map_get key extra) as [w|] eqn:E; [|done]. exfalso. apply Hk.
  clear -E. induction extra as [|[k' v'] extra IH]; [done|]. csimpl in *. case_decide; set_solver.
Qed.

(** ** SQLite's JSON functions on a payload text

    [json_valid], [json_remove(…, '$.retry_wait')], [json_extract(…, '$.retry_wait') IS NOT
    NULL], [json_patch(…, …)] and [json_type(…, '$.injectLastFailure') IS NOT 'false']. *)
Class SqliteJson := {
  json_valid : string -> bool;
  remove_retry_wait : string -> string;
  has_retry_wait : string -> bool;
  json_patch : string -> string -> string;
  injects_failures : string -> bool;
}.

Section payload.
Context {json : JsonText} {sqlite : SqliteJson}.

(** Documented behaviour: on the text of an object the functions act on its members. *)
Class SqliteJsonLaws : Prop := {
  has_retry_wait_spec text object :
    json_from_str text = Some (VObject object) ->
    has_retry_wait text =
      match map_get RETRY_WAIT_KEY object with None | Some VNull => false | Some _ => true end;
  remove_retry_wait_spec text object :
    json_from_str text = Some (VObject object) ->
    json_from_str (remove_retry_wait text) = Some (VObject (map_remove RETRY_WAIT_KEY object));
}.

(** [payload_object]: NULL, invalid JSON or another value counts as an empty object. *)
Definition payload_object (existing : option string) : Object :=
  match existing ≫= json_from_str with Some (VObject object) => object | _ => [] end.

Definition file_change_value (c : FileChange) : Value :=
  VObject [("path", VString (change_path c)); ("additions", json_N (additions c));
           ("deletions", json_N (deletions c))].
Definition file_changes_json (changes : list FileChange) : Value :=
  VArray (file_change_value <$> changes).

Definition merge_payload_keys (existing : option string) (keys : Object) : string :=
  json_to_string (VObject (map_extend (payload_object existing) keys)).

Definition merge_complete_payload (existing : option string) (stop_reason : option string)
    (changes : list FileChange) (patch : option Value) : option string :=
  let patch := match patch with Some (VObject object) => object | _ => [] end in
  if bool_decide (stop_reason = None) && bool_decide (changes = []) && bool_decide (patch = [])
  then existing
  else
    let object := payload_object existing in
    let object := match stop_reason with
                  | Some reason => map_insert "stop_reason" (VString reason) object
                  | None => object end in
    let object := if bool_decide (changes = []) then object
                  else map_insert "file_changes" (file_changes_json changes) object in
    Some (json_to_string (VObject (map_extend object patch))).

(** ** Failure details *)

(** [NodeFailureDetail] *)
Record NodeFailureDetail : Type := {
  fd_kind : NodeFailureKind;
  fd_message : string;
  fd_source_chain : list string;
  fd_attempt : N;
  fd_resumable : bool;
  fd_injects_previous_failure : bool;
  fd_auto_retryable : option bool;
  fd_recorded_at : Z;
}.

Definition failure_detail_value (d : NodeFailureDetail) : Value :=
  VObject
    ([("kind", VString (failure_kind_as_str (fd_kind d))); ("message", VString (fd_message d));
      ("source_chain", VArray (VString <$> fd_source_chain d)); ("attempt", json_N (fd_attempt d));
      ("resumable", VBool (fd_resumable d));
      ("injects_previous_failure", VBool (fd_injects_previous_failure d))]
     ++ match fd_auto_retryable d with Some b => [("auto_retryable", VBool b)] | None => [] end
     ++ [("recorded_at", json_Z (fd_recorded_at d))]).

Definition merge_error_detail (payload : option string) (detail : NodeFailureDetail)
    (changes : list FileChange) : string :=
  merge_payload_keys payload
    (("error_detail", failure_detail_value detail)
     :: if bool_decide (changes = []) then [] else [("file_changes", file_changes_json changes)]).

(** ** Retry markers *)

(** [NodeRetryWait] *)
Record NodeRetryWait : Type := {
  rw_attempt : N;
  rw_max_attempt : N;
  rw_retry : N;
  rw_max_retries : N;
  rw_delay_ms : Z;
  rw_scheduled_at : Z;
  rw_due_at : Z;
  rw_previous_node_run_id : string;
}.

Definition retry_wait_value (w : NodeRetryWait) : Value :=
  VObject [("attempt", json_N (rw_attempt w)); ("max_attempt", json_N (rw_max_attempt w));
           ("retry", json_N (rw_retry w)); ("max_retries", json_N (rw_max_retries w));
           ("delay_ms", json_Z (rw_delay_ms w)); ("scheduled_at", json_Z (rw_scheduled_at w));
           ("due_at", json_Z (rw_due_at w));
           ("previous_node_run_id", VString (rw_previous_node_run_id w))].

(** The typed decode of an object: every field present, integers within their width. *)
Definition field_u32 (object : Object) (key : string) : option N :=
  n ← map_get key object ≫= as_u64; if (n <=? u32_max)%N then Some n else None.
Definition field_i64 (object : Object) (key : string) : option Z := map_get key object ≫= as_i64.

Definition retry_wait_from_value (v : Value) : option NodeRetryWait :=
  object ← as_object v;
  attempt ← field_u32 object "attempt";
  max_attempt ← field_u32 object "max_attempt";
  retry ← field_u32 object "retry";
  max_retries ← field_u32 object "max_retries";
  delay_ms ← field_i64 object "delay_ms";
  scheduled_at ← field_i64 object "scheduled_at";
  due_at ← field_i64 object "due_at";
  previous ← map_get "previous_node_run_id" object ≫= as_str;
  Some {| rw_attempt := attempt; rw_max_attempt := max_attempt; rw_retry := retry;
          rw_max_retries := max_retries; rw_delay_ms := delay_ms; rw_scheduled_at := scheduled_at;
          rw_due_at := due_at; rw_previous_node_run_id := previous |}.

(** [NodeAutoRetry] *)
Record NodeAutoRetry : Type := { ar_retry : N; ar_max_retries : N }.

Definition auto_retry_value (m : NodeAutoRetry) : Value :=
  VObject [("retry", json_N (ar_retry m)); ("max_retries", json_N (ar_max_retries m))].

(** [NodeAutoRetry::from_payload] *)
Definition auto_retry_from_payload (payload : option string) : option NodeAutoRetry :=
  object ← (payload ≫= json_from_str) ≫= as_object;
  marker ← map_get AUTO_RETRY_KEY object ≫= as_object;
  retry ← field_u32 marker "retry";
  max_retries ← field_u32 marker "max_retries";
  Some {| ar_retry := retry; ar_max_retries := max_retries |}.

(** The payload of a waiting attempt, as [schedule_node_retry] builds it. *)
Definition waiting_object (wait : NodeRetryWait) (marker : NodeAutoRetry) (chain : list string) :
    Object :=
  [(RETRY_WAIT_KEY, retry_wait_value wait); (AUTO_RETRY_KEY, auto_retry_value marker);
   (RETRY_CHAIN_KEY, VArray (VString <$> chain))].

(** ** Lemmas *)

Definition retry_wait_ok (w : NodeRetryWait) : Prop :=
  (rw_attempt w <= u32_max)%N /\ (rw_max_attempt w <= u32_max)%N /\ (rw_retry w <= u32_max)%N /\
  (rw_max_retries w <= u32_max)%N /\ (i64_min <= rw_delay_ms w <= i64_max)%Z /\
  (i64_min <= rw_scheduled_at w <= i64_max)%Z /\ (i64_min <= rw_due_at w <= i64_max)%Z.

Lemma field_u32_json_N object key n :
  map_get key object = Some (json_N n) -> (n <= u32_max)%N -> field_u32 object key = Some n.
Proof.
  intros Hk Hn. unfold field_u32. rewrite Hk. simpl. by rewrite (proj2 (N.leb_le _ _)).
Qed.

Lemma field_i64_json_Z object key z :
  map_get key object = Some (json_Z z) -> (i64_min <= z <= i64_max)%Z -> field_i64 object key = Some z.
Proof. intros Hk Hz. unfold field_i64. rewrite Hk. by apply as_i64_json_Z. Qed.

Lemma retry_wait_round_trip w :
  retry_wait_ok w -> retry_wait_from_value (retry_wait_value w) = Some w.
Proof using.
  intros (H1 & H2 & H3 & H4 & H5 & H6 & H7). unfold retry_wait_from_value, retry_wait_value.
  cbn [as_object mbind option_bind].
  rewrite (field_u32_json_N _ "attempt" (rw_attempt w)) by done; cbn [mbind option_bind].
  rewrite (field_u32_json_N _ "max_attempt" (rw_max_attempt w)) by done; cbn [mbind option_bind].
  rewrite (field_u32_json_N _ "retry" (rw_retry w)) by done; cbn [mbind option_bind].
  rewrite (field_u32_json_N _ "max_retries" (rw_max_retries w)) by done; cbn [mbind option_bind].
  rewrite (field_i64_json_Z _ "delay_ms" (rw_delay_ms w)) by done; cbn [mbind option_bind].
  rewrite (field_i64_json_Z _ "scheduled_at" (rw_scheduled_at w)) by done; cbn [mbind option_bind].
  rewrite (field_i64_json_Z _ "due_at" (rw_due_at w)) by done; cbn [mbind option_bind].
  by destruct w.
Qed.

Lemma auto_retry_round_trip m :
  (ar_retry m <= u32_max)%N -> (ar_max_retries m <= u32_max)%N ->
  forall text wait chain,
    json_from_str text = Some (VObject (waiting_object wait m chain)) ->
    auto_retry_from_payload (Some text) = Some m.
Proof using.
  intros H1 H2 text wait chain Ht. unfold auto_retry_from_payload. simpl. rewrite Ht. simpl.
  rewrite (field_u32_json_N _ "retry" (ar_retry m)) by done. simpl.
  rewrite (field_u32_json_N _ "max_retries" (ar_max_retries m)) by done. simpl. by destruct m.
Qed.

Lemma strings_from_value_strings l : strings_from_value (VArray (VString <$> l)) = Some l.
Proof using.
  unfold strings_from_value. simpl. apply mapM_Some.
  induction l as [|x l IH]; csimpl; by constructor.
Qed.
End payload.
