(* ===== verification/StoreNodes.v ===== *)
(** * Node transitions of the run store

    The transactions of [workflow_run_engine.rs], [scoped_node.rs], [failure_detail.rs],
    [retry.rs], [bind.rs], [payload_json.rs] and [ai_diagnosis.rs] that start, move, complete,
    fail and retry one node run. *)

From S2P Require Import Prelude RustStr Order Json NodeTypes VariablePool Retry.
From S2P Require Import Iteration RunPayload Resume Store StorePayload.
Local Open Scope ora_scope.

(** [NodeRunToStart] *)
Record NodeRunToStart : Type := {
  ts_id : string;
  ts_scope_id : string;
  ts_node_id : string;
  ts_node_type : string;
  ts_input : option string;
  ts_iteration : option N;
}.

Inductive StartWorkflowRunResult : Type := Started | Current | StartNotFound.
Inductive AdvanceWorkflowRunResult : Type := Advanced | NotRunning | NotFound.
Inductive BindWorkflowNodeSessionResult : Type := Bound | BindNotRunning | BindNotFound.
Inductive ScheduleNodeRetryResult : Type :=
| Scheduled | RunNotActive | RetryNotRunning | RetryNotFound.
Inductive BeginNodeRetryResult : Type :=
| RetryStarted (attempt : WorkflowNodeRun)
| NotDue (due_at : Z)
| Abandoned
| NotWaiting
| BeginNotFound.

#[export] Instance StartWorkflowRunResult_eq_dec : EqDecision StartWorkflowRunResult.
Proof. solve_decision. Defined.
#[export] Instance AdvanceWorkflowRunResult_eq_dec : EqDecision AdvanceWorkflowRunResult.
Proof. solve_decision. Defined.

(** The reason objects the SQL writes into [error]. *)
Definition reason_error (reason : string) : string :=
  "{" +:+ quoted "reason" +:+ ":" +:+ quoted reason +:+ "}".
Definition INTERRUPTED_BY_RESTART : string := reason_error "interrupted_by_restart".
Definition RETRY_ABANDONED : string := reason_error "retry_abandoned".
Definition SIBLING_FAILED : string := reason_error "sibling_failed".

(** ** Starting rows *)

Definition started_row (run_id : string) (n : NodeRunToStart) (now : Z) : NodeRow :=
  {| row := {| nr_id := ts_id n; nr_run_id := run_id; nr_scope_id := ts_scope_id n;
               nr_node_id := ts_node_id n; nr_node_type := ts_node_type n; nr_session_id := None;
               nr_status := Running; nr_input := ts_input n; nr_output := None; nr_error := None;
               nr_payload := None; nr_iteration := ts_iteration n; nr_started_at := Some now;
               nr_finished_at := None |};
     row_created_at := now; row_deleted := false |}.

Definition insert_node_run (n : NodeRunToStart) (now : Z) : Tx unit :=
  run_id ← gets (fun s => wr_id (st_run s));
  insert_row (started_row run_id n now).

Definition always {A} (_ : A) : bool := true.

Definition start_run (start : NodeRunToStart) (now : Z) {debug : DebugText} :
    Tx StartWorkflowRunResult :=
  run ← select_run;
  match run with
  | None => mret StartNotFound
  | Some run =>
      if negb (bool_decide (wr_status run = RunPending)) || negb (bool_decide (wr_current_nodes run = []))
      then mret Current
      else
        insert_node_run start now ;;
        update_run always (fun r =>
          run_set_started (Some now)
            (run_set_current [ts_node_id start] (run_set_status RunRunning r))) ;;
        match wr_payload run with
        | Null => mret Started
        | Malformed text => throw (CorruptColumn text)
        | Stored p =>
            seeded ← lift (map_err PayloadFailure
                       (seed_system_variables (variable_pool p) (wr_workflow_id run) (number_of_Z now)));
            when seeded.1 (update_run always (run_set_payload (Stored (set_pool seeded.2 p)))) ;;
            mret Started
        end
  end.

(** The nodes of a wave that enter the outer anchor. *)
Definition outer_ids (runs : list NodeRunToStart) : list string :=
  ts_node_id <$> filter (fun n => ts_iteration n = None) runs.

Definition start_ready_nodes (runs : list NodeRunToStart) (now : Z) : Tx unit :=
  each (fun n => insert_node_run n now) runs ;;
  rewrite_current_nodes (fun nodes => nodes ++ outer_ids runs).

(** ** Guarded moves *)

(** Rows the statement [WHERE id = ? AND is_deleted = 0] updates. *)
Definition live_id (id : string) (r : NodeRow) : bool := id_is id r && live r.

(** The answer of a guarded update that touched no row. *)
Definition not_advanced (id : string) : Tx AdvanceWorkflowRunResult :=
  found ← select_row id;
  mret (match found with Some _ => NotRunning | None => NotFound end).

Definition transition_node_run_status (id : string) (from to : WorkflowNodeStatus) :
    Tx AdvanceWorkflowRunResult :=
  updated ← update_rows (fun r => live_id id r && status_is from r) (on_row (set_status to));
  if bool_decide (updated = 0) then not_advanced id else mret Advanced.

(** [bind_node_run_session]; whether the session belongs to the run's workspace is a fact of the
    sessions table. *)
Definition bind_node_run_session (id session : string) (session_matches_workspace : bool) :
    Tx BindWorkflowNodeSessionResult :=
  run ← select_run;
  found ← select_row id;
  match run, found with
  | Some _, Some r =>
      if negb session_matches_workspace then mret BindNotFound
      else if negb (status_is Running r) then mret BindNotRunning
      else
        update_rows (live_id id) (on_row (set_session (Some session))) ;;
        mret Bound
  | _, _ => mret BindNotFound
  end.

(** ** Completing *)

Definition round_completion_output (st : LoopRoundExecutionState) (node_id node_type : string)
    (output : option string) {debug : DebugText} : result PayloadError LoopRoundExecutionState :=
  if bool_decide (node_type = "condition") || bool_decide (node_type = "aggregator") then Ok st
  else
    match output with
    | Some output =>
        r ← write_pool_variable (round_pool st) (qualified_name node_id "output") node_id (VString output);
        Ok (state_set_pool r.2 st)
    | None => Ok st
    end.

(** [update_scope_execution_state]: what a completed child writes to its round. *)
Definition round_execution_state {debug : DebugText} {json : JsonText} (st : LoopRoundExecutionState)
    (node_id node_type : string) (output : option string) (structured_output : option Value) :
    result PayloadError LoopRoundExecutionState :=
  st ← round_completion_output st node_id node_type output;
  if bool_decide (node_type = "condition") then
    match output with
    | Some output => Ok (state_set_decisions (<[node_id := output]> (round_decisions st)) st)
    | None => Ok st
    end
  else if bool_decide (node_type = "agent") then
    match structured_output with
    | Some structured =>
        r ← write_pool_variable (round_pool st) (qualified_name node_id "structured_output") node_id structured;
        Ok (state_set_pool r.2 st)
    | None => Ok st
    end
  else if bool_decide (node_type = "aggregator") then
    match output with
    | Some output =>
        value ← ok_or (json_from_str output) (CorruptJson output);
        r ← write_pool_variable (round_pool st) (qualified_name node_id "output") node_id value;
        Ok (state_set_pool r.2 st)
    | None => Ok st
    end
  else Ok st.

Definition running_round (id : string) (c : RoundScope) : bool :=
  bool_decide (sc_id c = id) && bool_decide (sc_status c = ScopeRunning).

(** The scope a row is joined with: [Some None] is a root scope. *)
Definition find_scope (s : RunStore) (id : string) : option (option RoundScope) :=
  match find_round s id with
  | Some c => Some (Some c)
  | None => if bool_decide (id ∈ st_root s :: st_old_roots s) then Some None else None
  end.

Section json.
Context {debug : DebugText} {json : JsonText} {sqlite : SqliteJson}.

(** The execution state of the scope that owns a completed node. *)
Definition complete_root (run : RunColumns) (x : WorkflowNodeRun) (output : option string)
    (structured_output : option Value) : Tx unit :=
  match wr_payload run with
  | Null => mret tt
  | Malformed text => throw (CorruptColumn text)
  | Stored p =>
      p ← lift (map_err PayloadFailure
            (update_run_execution_state p (nr_node_id x) (nr_node_type x) (nr_iteration x) output
               structured_output));
      update_run always (run_set_payload (Stored p))
  end.

Definition complete_round_child (scope : option RoundScope) (x : WorkflowNodeRun)
    (output : option string) (structured_output : option Value) : Tx unit :=
  st ← lift (match scope with Some c => decode (sc_state c) | None => Err IncompleteWorkflowRunContext end);
  st ← lift (map_err PayloadFailure
         (round_execution_state st (nr_node_id x) (nr_node_type x) output structured_output));
  update_rounds (running_round (nr_scope_id x)) (round_set_state (Stored st)).

(** [scoped_node::complete] *)
Definition complete_node (id : string) (output : option string) (structured_output : option Value)
    (stop_reason : option string) (changes : list FileChange) (payload_patch : option Value)
    (now : Z) : Tx AdvanceWorkflowRunResult :=
  s ← get_store;
  run ← select_run;
  found ← select_row id;
  match run, found, found ≫= (fun r => find_scope s (nr_scope_id (row r))) with
  | Some run, Some r, Some scope =>
      let x := row r in
      if negb (node_active (nr_status x)) then mret NotRunning
      else
        let payload := merge_complete_payload (nr_payload x) stop_reason changes payload_patch in
        let in_root := bool_decide (nr_scope_id x = st_root s) in
        (if in_root then complete_root run x output structured_output
         else complete_round_child scope x output structured_output) ;;
        let persisted := if bool_decide (nr_node_type x = "condition") then None else output in
        update_rows (live_id id) (on_row (fun y =>
          set_finished (Some now) (set_payload payload (set_output persisted (set_status Succeeded y))))) ;;
        when in_root (rewrite_current_nodes (forget_node (nr_node_id x))) ;;
        mret Advanced
  | _, _, _ => mret NotFound
  end.

(** ** Failing *)

Definition is_round (s : RunStore) (scope : string) : bool :=
  bool_decide (is_Some (find_round s scope)).

(** [deleted_attempt_count]; the count saturates at [u32]. *)
Definition deleted_attempt (s : RunStore) (node_id : string) (iteration : option N) (scope : string)
    (r : NodeRow) : bool :=
  row_deleted r && bool_decide (nr_node_id (row r) = node_id)
  && bool_decide (nr_iteration (row r) = iteration)
  && (in_scope_of scope r || negb (is_round s scope)).
Definition deleted_attempt_count (s : RunStore) (node_id : string) (iteration : option N)
    (scope : string) : N :=
  N.min u32_max
    (N.of_nat (length (filter (fun r => deleted_attempt s node_id iteration scope r = true) (st_rows s)))).

(** [json_type(run.payload, '$.injectLastFailure') IS NOT 'false'] *)
Definition run_injects_failures (run : RunColumns) : bool :=
  match wr_payload run with
  | Null => true
  | Malformed text => injects_failures text
  | Stored p => inject_last_failure p
  end.

Definition failure_detail (s : RunStore) (x : WorkflowNodeRun) (failure : NodeFailure) (now : Z) :
    NodeFailureDetail :=
  let kind := failure_kind failure in
  {| fd_kind := kind; fd_message := failure_message failure;
     fd_source_chain := source_chain failure;
     fd_attempt := saturating_add_u32
       (deleted_attempt_count s (nr_node_id x) (nr_iteration x) (nr_scope_id x)) 1;
     fd_resumable := resumable kind;
     fd_injects_previous_failure := inject_into_prompt kind && run_injects_failures (st_run s);
     fd_auto_retryable := Some (auto_retry kind);
     fd_recorded_at := now |}.

(** [persist_failed_node_run] of the live row [id], whose payload was read as [payload]. *)
Definition persist_failed_node_run (id : string) (failure : NodeFailure) (payload : option string)
    (now : Z) : Tx unit :=
  s ← get_store;
  match find_row s id with
  | None => throw QueryReturnedNoRows
  | Some r =>
      let payload :=
        merge_error_detail payload (failure_detail s (row r) failure now) (file_changes failure) in
      update_rows (live_id id) (on_row (fun y =>
        set_finished (Some now) (set_payload (Some (remove_retry_wait payload))
          (set_output (failure_output failure)
             (set_error (Some (failure_message failure)) (set_status Failed y)))))) ;;
      mret tt
  end.

(** A waiting attempt: [payload.retry_wait] is set. *)
Definition waiting (x : WorkflowNodeRun) : bool :=
  match nr_payload x with Some text => has_retry_wait text | None => false end.

Definition coalesce {A} (a b : option A) : option A := match a with Some _ => a | None => b end.

(** [settle_retry_waits] *)
Definition settle_retry_waits (status : WorkflowNodeStatus) (error : option string) (now : Z) : Tx unit :=
  update_rows (fun r => live r && status_is Running r && waiting (row r)) (on_row (fun y =>
    set_finished (Some now) (set_payload (remove_retry_wait <$> nr_payload y)
      (set_error (coalesce error (nr_error y)) (set_status status y))))) ;;
  mret tt.

(** A failure inside a Loop round: its siblings are cancelled, the round and the Loop row fail. *)
Definition fail_round (id scope : string) (parent : option string) (error : string) (now : Z) : Tx unit :=
  update_rows (fun r => in_scope_of scope r && negb (id_is id r) && active_row r && live r)
    (on_row (fun y =>
      set_finished (coalesce (nr_finished_at y) (Some now))
        (set_error (coalesce (nr_error y) (Some SIBLING_FAILED)) (set_status Cancelled y)))) ;;
  update_rounds (fun c => bool_decide (sc_id c = scope) && scope_active (sc_status c))
    (round_set_status ScopeFailed) ;;
  match parent with
  | None => mret tt
  | Some parent =>
      update_rows (fun r => live_id parent r && active_row r) (on_row (fun y =>
        set_finished (Some now) (set_error (Some error) (set_status Failed y)))) ;;
      mret tt
  end.

(** [scoped_node::fail] *)
Definition fail_node (id : string) (failure : NodeFailure) (propagation : FailurePropagation)
    (now : Z) : Tx AdvanceWorkflowRunResult :=
  s ← get_store;
  match find_row s id, find_row s id ≫= (fun r => find_scope s (nr_scope_id (row r))) with
  | Some r, Some scope =>
      let x := row r in
      if negb (status_is Running r) then mret NotRunning
      else
        persist_failed_node_run id failure (nr_payload x) now ;;
        match propagation with
        | PropagateComposite =>
            rewrite_current_nodes (forget_node (nr_node_id x)) ;;
            mret Advanced
        | PropagateRun =>
            let error := failure_message failure in
            settle_retry_waits Cancelled (Some RETRY_ABANDONED) now ;;
            let parent := sc_parent <$> scope in
            when (negb (bool_decide (nr_scope_id x = st_root s)))
              (fail_round id (nr_scope_id x) parent error now) ;;
            let parent_row := parent ≫= (fun p => find_first (id_is p) (st_rows s)) in
            let anchor := default (nr_node_id x) ((fun p => nr_node_id (row p)) <$> parent_row) in
            rewrite_current_nodes (fun _ => [anchor]) ;;
            update_run (fun run => bool_decide (wr_status run = RunRunning)) (fun run =>
              run_set_finished (Some now) (run_set_error (Some error) (run_set_status RunFailed run))) ;;
            mret Advanced
        end
  | _, _ => mret NotFound
  end.
End json.
