(* ===== verification/StoreRun.v ===== *)
(** * The transactions of the run store on retries, rounds and runs

    [workflow_run_engine/retry.rs], the boot sweeps of [failure_detail.rs] and
    [workflow_run_engine.rs], the writes that change a node's payload only ([payload_json.rs],
    [ai_diagnosis.rs], the repair and the parking of interactive nodes), the rounds of Iterations
    and Loops ([iteration.rs], [loop_round.rs]), and the transitions of a whole run. *)

From S2P Require Import Prelude RustStr Order Json NodeTypes VariablePool Retry Iteration.
From S2P Require Import RunPayload Resume Store StorePayload StoreNodes.
Local Open Scope ora_scope.

Section json.
Context {debug : DebugText} {json : JsonText} {sqlite : SqliteJson}.

(** ** Automatic retries *)

Definition retry_wait (s : RunStore) (x : WorkflowNodeRun) (retry : NodeRetryToSchedule) (now : Z) :
    NodeRetryWait :=
  let attempt := saturating_add_u32
    (deleted_attempt_count s (nr_node_id x) (nr_iteration x) (nr_scope_id x)) 1 in
  {| rw_attempt := attempt;
     rw_max_attempt := saturating_add_u32 attempt (saturating_sub (ns_max_retries retry) (ns_retry retry));
     rw_retry := ns_retry retry; rw_max_retries := ns_max_retries retry;
     rw_delay_ms := ns_delay_ms retry; rw_scheduled_at := now; rw_due_at := ns_due_at retry;
     rw_previous_node_run_id := nr_id x |}.

(** The row that waits in place of the failed attempt [x]. *)
Definition waiting_row (s : RunStore) (x : WorkflowNodeRun) (new_id : string)
    (retry : NodeRetryToSchedule) (now : Z) : NodeRow :=
  let chain := retry_chain_from_payload (nr_payload x) ++ [nr_id x] in
  let marker := {| ar_retry := ns_retry retry; ar_max_retries := ns_max_retries retry |} in
  {| row := {| nr_id := new_id; nr_run_id := nr_run_id x; nr_scope_id := nr_scope_id x;
               nr_node_id := nr_node_id x; nr_node_type := nr_node_type x; nr_session_id := None;
               nr_status := Running; nr_input := nr_input x; nr_output := None; nr_error := None;
               nr_payload := Some (json_to_string
                 (VObject (waiting_object (retry_wait s x retry now) marker chain)));
               nr_iteration := nr_iteration x; nr_started_at := None; nr_finished_at := None |};
     row_created_at := now; row_deleted := false |}.

(** [schedule_node_retry]; [new_id] is the id generated for the waiting row. *)
Definition schedule_node_retry (id : string) (failure : NodeFailure) (new_id : string)
    (retry : NodeRetryToSchedule) (now : Z) : Tx ScheduleNodeRetryResult :=
  run ← select_run;
  found ← select_row id;
  match run, found with
  | Some run, Some r =>
      let x := row r in
      if negb (status_is Running r) then mret RetryNotRunning
      else if negb (bool_decide (wr_status run = RunRunning)) then mret RunNotActive
      else
        persist_failed_node_run id failure (nr_payload x) now ;;
        update_rows (id_is id) set_deleted ;;
        s ← get_store;
        insert_row (waiting_row s x new_id retry now) ;;
        mret Scheduled
  | _, _ => mret RetryNotFound
  end.

(** [begin_node_retry] *)
Definition begin_node_retry (id : string) (now : Z) : Tx BeginNodeRetryResult :=
  run ← select_run;
  found ← select_row id;
  match run, found with
  | Some run, Some r =>
      match (nr_payload (row r) ≫= json_from_str) ≫= as_object with
      | None => mret NotWaiting
      | Some object =>
          match map_get RETRY_WAIT_KEY object ≫= retry_wait_from_value with
          | None => mret NotWaiting
          | Some wait =>
              let payload := Some (json_to_string (VObject (map_swap_remove RETRY_WAIT_KEY object))) in
              if negb (status_is Running r) then mret NotWaiting
              else if negb (bool_decide (wr_status run = RunRunning)) then
                update_rows (id_is id) (on_row (fun y =>
                  set_finished (Some now) (set_payload payload
                    (set_error (Some RETRY_ABANDONED) (set_status Cancelled y))))) ;;
                mret Abandoned
              else if (now <? rw_due_at wait)%Z then mret (NotDue (rw_due_at wait))
              else
                update_rows (id_is id) (on_row (fun y => set_started (Some now) (set_payload payload y))) ;;
                started ← select_row id;
                match started with
                | Some r => mret (RetryStarted (row r))
                | None => throw IncompleteWorkflowRunContext
                end
          end
      end
  | _, _ => mret BeginNotFound
  end.

(** ** Boot sweeps *)

(** One row of [fail_interrupted_node_runs]. *)
Definition fail_interrupted (now : Z) (id : string) : Tx unit :=
  update_rows (fun r => live_id id r && status_is Running r) (on_row (fun y =>
    let payload := (fun text => if json_valid text then remove_retry_wait text else text) <$> nr_payload y in
    set_payload payload (set_finished (Some now)
      (set_error (Some INTERRUPTED_BY_RESTART) (set_status Failed y))))) ;;
  mret tt.

(** [fail_interrupted_node_runs], without the sessions it stops. *)
Definition fail_interrupted_node_runs (ids : list string) (now : Z) : Tx unit :=
  each (fail_interrupted now) ids.

(** [fail_orphaned_run], without the sessions it stops. *)
Definition fail_orphaned_run (now : Z) : Tx unit :=
  s ← get_store;
  if negb (existsb (fun r => status_is Running r && live r) (st_rows s)) then mret tt
  else
    let nodes := filter (fun r => active_row r && live r = true) (st_rows s) in
    let failure := new_failure InterruptedByRestart INTERRUPTED_BY_RESTART in
    each (fun r => persist_failed_node_run (row_id r) failure (nr_payload (row r)) now) nodes ;;
    update_run (fun run => bool_decide (wr_status run = RunRunning)) (fun run =>
      run_set_finished (Some now) (run_set_error (Some INTERRUPTED_BY_RESTART)
        (run_set_status RunFailed run))) ;;
    update_rounds (fun c => scope_active (sc_status c)) (round_set_status ScopeFailed).

(** ** Payload-only writes *)

(** A missing row is a no-op. *)
Definition merge_into_row (id : string) (keys : Object) : Tx unit :=
  found ← select_row id;
  match found with
  | None => mret tt
  | Some r =>
      let payload := merge_payload_keys (nr_payload (row r)) keys in
      update_rows (live_id id) (on_row (set_payload (Some payload))) ;;
      mret tt
  end.

Definition record_node_checkpoint (id snapshot_id : string) (checkpoint error : option string) : Tx unit :=
  merge_into_row id
    ([("checkpoint", json_option_str checkpoint); ("snapshot_id", VString snapshot_id)]
     ++ match error with Some e => [("checkpoint_error", VString e)] | None => [] end).

Definition record_node_injected_failure (id text : string) : Tx unit :=
  merge_into_row id [("injected_failure_context", VString text)].

Definition record_node_ai_diagnosis (id diagnosis_json : string) : Tx unit :=
  diagnosis ← lift (ok_or (json_from_str diagnosis_json) (CorruptColumn diagnosis_json));
  merge_into_row id [("ai_diagnosis", diagnosis)].

(** [COALESCE(NULLIF(payload, ''), '{}')] *)
Definition patch_base (payload : option string) : string :=
  match payload with
  | None => "{}"
  | Some text => if bool_decide (text = "") then "{}" else text
  end.

(** [repair_node_payload] *)
Definition repair_node_payload (id : string) (patch : Value) : Tx bool :=
  let patch := json_to_string patch in
  updated ← update_rows (fun r => live_id id r && status_is Pending r) (on_row (fun y =>
    set_payload (Some (json_patch (patch_base (nr_payload y)) patch)) y));
  mret (negb (bool_decide (updated = 0))).

(** [park_node_run] *)
Definition park_node_run (id : string) (completion : Value) : Tx AdvanceWorkflowRunResult :=
  let completion := json_to_string completion in
  updated ← update_rows (fun r => live_id id r && status_is Running r) (on_row (fun y =>
    set_payload (Some (json_patch (patch_base (nr_payload y)) completion)) (set_status Pending y)));
  if bool_decide (updated = 0) then not_advanced id else mret Advanced.
End json.

(** ** Iteration rounds and Loop rounds in the run store

    The atomic round transactions of [workflow_run_engine/iteration.rs], [loop_round.rs] and
    [loop_exit.rs]: a round's terminal fact and the transition that follows it commit together. *)
(** [IterationRoundContinuation] *)
Inductive IterationRoundContinuation : Type :=
| ContinueNextRound (round : N) (item : Value) (node_runs : list NodeRunToStart)
| ContinueComplete (exposed : list (string * Value)) (output : option string)
| ContinueFail (error : string).

(** [LoopRoundToStart]; the state text is the serialised [lr_state]. *)
Record LoopRoundToStart : Type := {
  lr_id : string;
  lr_parent : string;
  lr_index : N;
  lr_state : LoopRoundExecutionState;
  lr_start : NodeRunToStart;
}.

Inductive LoopCompletionReason : Type := ConditionSatisfied | MaxIterations | LoopExited.

Inductive LoopRoundAdvance : Type :=
| RequestExit (node_run_id : string) (outputs : result string (gmap string Value))
| ContinueRound (next : LoopRoundToStart)
| SucceedRound (outputs : gmap string Value) (reason : LoopCompletionReason)
| FailLoopRound (error : string).

(** ** Iteration rounds *)

(** The outer rows of a node: [run_id = ? AND node_id = ? AND iteration IS NULL AND is_deleted = 0]. *)
Definition outer_row_of (node_id : string) (r : NodeRow) : bool :=
  live r && bool_decide (nr_node_id (row r) = node_id) && bool_decide (nr_iteration (row r) = None).

(** [ORDER BY created_at DESC, id DESC LIMIT 1] *)
Definition latest_row (rows : list NodeRow) : option NodeRow := last (merge_sort row_le rows).

Definition owner_row_is_running (s : RunStore) (owner : string) : bool :=
  match latest_row (filter (fun r => outer_row_of owner r = true) (st_rows s)) with
  | Some r => status_is Running r
  | None => false
  end.

Section json.
Context {debug : DebugText} {json : JsonText} {sqlite : SqliteJson}.

Definition bind_round (owner : string) (round : N) (item : Value) (p : WorkflowRunPayload) :
    result PayloadError WorkflowRunPayload :=
  pool ← write_declared_pool_variable (variable_pool p) (qualified_name owner "item") owner item;
  pool ← write_declared_pool_variable pool (qualified_name owner "index") owner (json_N round);
  Ok (set_pool pool p).

Definition write_exposed (owner : string) (exposed : list (string * Value)) (p : WorkflowRunPayload) :
    result PayloadError WorkflowRunPayload :=
  pool ← fold_result (fun pool kv => write_declared_pool_variable pool kv.1 owner kv.2)
           (variable_pool p) exposed;
  Ok (set_pool pool p).

Definition select_payload : Tx WorkflowRunPayload :=
  run ← select_run;
  lift (match run with Some run => parse_run_payload (wr_payload run) | None => Ok default_payload end).
Definition persist_run_payload (p : WorkflowRunPayload) : Tx unit :=
  update_run always (run_set_payload (Stored p)).

Definition complete_owner_row (owner : string) (output : option string) (now : Z) : Tx unit :=
  update_rows (fun r => outer_row_of owner r && status_is Running r) (on_row (fun y =>
    set_finished (Some now) (set_output output (set_status Succeeded y)))) ;;
  rewrite_current_nodes (forget_node owner).

(** The run fails whatever its status. *)
Definition fail_owner_row (owner error : string) (now : Z) : Tx unit :=
  update_rows (fun r => outer_row_of owner r && status_is Running r) (on_row (fun y =>
    set_finished (Some now) (set_error (Some error) (set_status Failed y)))) ;;
  rewrite_current_nodes (fun _ => [owner]) ;;
  settle_retry_waits Cancelled (Some RETRY_ABANDONED) now ;;
  update_run always (fun run =>
    run_set_finished (Some now) (run_set_error (Some error) (run_set_status RunFailed run))).

(** [iteration_start_round] *)
Definition start_iteration_round (owner : string) (round : N) (item : Value)
    (node_runs : list NodeRunToStart) (now : Z) : Tx AdvanceWorkflowRunResult :=
  s ← get_store;
  if negb (owner_row_is_running s owner) then mret NotRunning
  else
    p ← select_payload;
    p ← lift (map_err PayloadFailure (bind_round owner round item p));
    persist_run_payload p ;;
    each (fun n => insert_node_run n now) node_runs ;;
    mret Advanced.

Definition continue_iteration (owner : string) (p : WorkflowRunPayload)
    (continuation : IterationRoundContinuation) (now : Z) : Tx unit :=
  match continuation with
  | ContinueNextRound round item node_runs =>
      p ← lift (map_err PayloadFailure (bind_round owner round item p));
      persist_run_payload p ;;
      each (fun n => insert_node_run n now) node_runs
  | ContinueComplete exposed output =>
      p ← lift (map_err PayloadFailure (write_exposed owner exposed p));
      persist_run_payload p ;;
      complete_owner_row owner output now
  | ContinueFail error =>
      persist_run_payload p ;;
      fail_owner_row owner error now
  end.

(** [iteration_settle_round]: a round that is already in the ledger is a replay. *)
Definition settle_iteration_round (owner : string) (round : N) (entry : RoundOutcome)
    (continuation : IterationRoundContinuation) (now : Z) : Tx AdvanceWorkflowRunResult :=
  s ← get_store;
  if negb (owner_row_is_running s owner) then mret NotRunning
  else
    p ← select_payload;
    match record_round_outcome p owner round entry with
    | Err _ => mret NotRunning
    | Ok p => continue_iteration owner p continuation now ;; mret Advanced
    end.

(** [iteration_complete_node] *)
Definition complete_iteration_node (id owner : string) (exposed : list (string * Value))
    (output : option string) (now : Z) : Tx AdvanceWorkflowRunResult :=
  found ← select_row id;
  match found with
  | None => mret NotFound
  | Some r =>
      if negb (status_is Running r) then mret NotRunning
      else
        p ← select_payload;
        p ← lift (map_err PayloadFailure (write_exposed owner exposed p));
        persist_run_payload p ;;
        complete_owner_row owner output now ;;
        mret Advanced
  end.

(** ** Loop rounds *)

Definition round_row (r : LoopRoundToStart) : RoundScope :=
  {| sc_id := lr_id r; sc_parent := lr_parent r; sc_index := lr_index r; sc_status := ScopeRunning;
     sc_state := Stored (lr_state r) |}.

(** [loop_round::start] *)
Definition start_loop_round (r : LoopRoundToStart) (now : Z) : Tx unit :=
  require (bool_decide (ts_scope_id (lr_start r) = lr_id r)) IncompleteWorkflowRunContext ;;
  insert_round (round_row r) ;;
  insert_node_run (lr_start r) now.

(** [loop_round::start_ready_nodes] *)
Definition start_scope_ready_nodes (scope : string) (runs : list NodeRunToStart) (now : Z) : Tx unit :=
  s ← get_store;
  require (existsb (running_round scope) (st_rounds s)) QueryReturnedNoRows ;;
  each (fun n =>
    require (bool_decide (ts_scope_id n = scope)) IncompleteWorkflowRunContext ;;
    insert_node_run n now) runs.

(** [settle] *)
Definition settle_round (scope : string) (status : WorkflowScopeStatus) : Tx unit :=
  update_rounds (running_round scope) (round_set_status status).

(** [loop_exit::request]: freeze the outputs, record the exit node, cancel its siblings. *)
Definition request_exit (scope id : string) (outputs : result string (gmap string Value)) (now : Z) : Tx unit :=
  s ← get_store;
  match find_round s scope with
  | None => throw QueryReturnedNoRows
  | Some c =>
      st ← lift (decode (sc_state c));
      match round_exit st with
      | Some _ => mret tt
      | None =>
          changed ← update_rows (fun r => live_id id r && in_scope_of scope r
                       && bool_decide (nr_node_type (row r) = "loopExit") && status_is Running r)
                     (on_row (fun y => set_finished (Some now) (set_status Succeeded y)));
          require (bool_decide (changed = 1)) IncompleteWorkflowRunContext ;;
          let e := {| exit_node_run_id := id; exit_requested_at := now; exit_result := outputs |} in
          update_rounds (running_round scope) (round_set_state (Stored (state_set_exit (Some e) st))) ;;
          update_rows (fun r => in_scope_of scope r && active_row r && live r)
            (on_row (fun y => set_finished (Some now) (set_status Cancelled y))) ;;
          mret tt
      end
  end.

Definition completion_stop_reason (reason : LoopCompletionReason) : string :=
  match reason with
  | ConditionSatisfied => "loop_succeeded"
  | MaxIterations => "loop_max_iterations"
  | LoopExited => "loop_exit"
  end.

Definition publish_outputs (parent_node : string) (outputs : gmap string Value)
    (pool : WorkflowVariablePool) : result PayloadError WorkflowVariablePool :=
  fold_result (fun pool kv =>
    r ← write_pool_variable pool (qualified_name parent_node kv.1) parent_node kv.2; Ok r.2)
    pool (btree_entries str_le outputs).

(** [serde_json::to_string] of a [BTreeMap]. *)
Definition outputs_text (outputs : gmap string Value) : string :=
  json_to_string (VObject (btree_entries str_le outputs)).

Definition succeed_round (scope : string) (run : RunColumns) (parent : NodeRow)
    (outputs : gmap string Value) (reason : LoopCompletionReason) (now : Z) : Tx unit :=
  let parent_node := nr_node_id (row parent) in
  settle_round scope ScopeSucceeded ;;
  p ← lift (decode (wr_payload run));
  pool ← lift (map_err PayloadFailure (publish_outputs parent_node outputs (variable_pool p)));
  let payload := merge_complete_payload (nr_payload (row parent))
                   (Some (completion_stop_reason reason)) [] None in
  update_rows (fun r => live_id (row_id parent) r && status_is Running r) (on_row (fun y =>
    set_finished (Some now) (set_payload payload (set_output (Some (outputs_text outputs))
      (set_status Succeeded y))))) ;;
  modify (fun s => set_run (run_set_payload (Stored (set_pool pool p)) (st_run s)) s) ;;
  rewrite_current_nodes (forget_node parent_node).

Definition fail_loop_round (scope : string) (parent : NodeRow) (error : string) (now : Z) : Tx unit :=
  settle_retry_waits Cancelled (Some RETRY_ABANDONED) now ;;
  update_rows (fun r => in_scope_of scope r && active_row r && live r) (on_row (fun y =>
    set_finished (Some now) (set_error (Some error) (set_status Failed y)))) ;;
  settle_round scope ScopeFailed ;;
  update_rows (fun r => live_id (row_id parent) r && status_is Running r) (on_row (fun y =>
    set_finished (Some now) (set_error (Some error) (set_status Failed y)))) ;;
  update_run (fun run => bool_decide (wr_status run = RunRunning)) (fun run =>
    run_set_finished (Some now) (run_set_error (Some error) (run_set_status RunFailed run))).

Definition advance_round (scope : string) (run : RunColumns) (parent : NodeRow)
    (advance : LoopRoundAdvance) (now : Z) : Tx unit :=
  match advance with
  | RequestExit id outputs => request_exit scope id outputs now
  | ContinueRound next =>
      require (bool_decide (lr_parent next = row_id parent)
               && bool_decide (ts_scope_id (lr_start next) = lr_id next)) IncompleteWorkflowRunContext ;;
      settle_round scope ScopeSucceeded ;;
      insert_round (round_row next) ;;
      insert_node_run (lr_start next) now
  | SucceedRound outputs reason => succeed_round scope run parent outputs reason now
  | FailLoopRound error => fail_loop_round scope parent error now
  end.

(** The two advances that may find children still active. *)
Definition advance_with_active_children (advance : LoopRoundAdvance) : bool :=
  match advance with FailLoopRound _ | RequestExit _ _ => true | _ => false end.

(** [loop_round::advance] *)
Definition advance_loop_round (scope : string) (advance : LoopRoundAdvance) (now : Z) :
    Tx AdvanceWorkflowRunResult :=
  run ← select_run;
  s ← get_store;
  match run, find_round s scope, find_round s scope ≫= (fun c => find_row s (sc_parent c)) with
  | Some run, Some c, Some parent =>
      if negb (bool_decide (sc_status c = ScopeRunning) && status_is Running parent
               && bool_decide (wr_status run = RunRunning))
      then mret NotRunning
      else if existsb (fun r => in_scope_of scope r && active_row r && live r) (st_rows s)
              && negb (advance_with_active_children advance)
      then mret NotRunning
      else
        advance_round scope run parent advance now ;;
        mret Advanced
  | _, _, _ => mret NotFound
  end.
End json.

(** ** Run transitions of the run store

    The transactions that move a whole run: [workflow_run_engine/finish.rs], [cancel.rs],
    [restart.rs] (with [restart_root_scope] of [workflow_scope.rs]), [resume.rs],
    [snapshot_switch.rs], the run-input update of [workflow_run_engine.rs] and the soft delete of
    [workflow_run.rs]. *)
Inductive CancelWorkflowRunResult : Type := RunWasCancelled | NotActive | CancelNotFound.
Inductive RestartWorkflowRunResult : Type := Restarted | NotRestartable | RestartNotFound.
Inductive ResumeWorkflowRunResult : Type := Resumed | NotResumable | ResumeNotFound.
Inductive UpdateWorkflowRunInputResult : Type :=
| InputUpdated
| NotEditable
| InputNotFound
| InputRejected (variable : string) (reason : RunInputRejectionReason).
Inductive DeleteWorkflowRunResult : Type := RunDeleted | ActiveRun | DeleteNotFound.

#[export] Instance CancelWorkflowRunResult_eq_dec : EqDecision CancelWorkflowRunResult.
Proof. solve_decision. Defined.
#[export] Instance ResumeWorkflowRunResult_eq_dec : EqDecision ResumeWorkflowRunResult.
Proof. solve_decision. Defined.

Definition run_status_in (l : list WorkflowRunStatus) (run : RunColumns) : bool :=
  bool_decide (wr_status run ∈ l).

(** [finish_run] *)
Definition finish_run (output : option string) (now : Z) : Tx unit :=
  update_run (run_status_in [RunPending; RunRunning]) (fun run =>
    run_set_current [] (run_set_finished (Some now) (run_set_output output
      (run_set_status RunSucceeded run)))).

Section json.
Context {debug : DebugText} {json : JsonText} {sqlite : SqliteJson}.

(** [cancel_run] *)
Definition cancel_run (now : Z) : Tx CancelWorkflowRunResult :=
  run ← select_run;
  match run with
  | None => mret CancelNotFound
  | Some run =>
      if negb (bool_decide (wr_status run = RunRunning)) then mret NotActive
      else
        settle_retry_waits Cancelled None now ;;
        update_rows (fun r => active_row r && live r) (on_row (fun y =>
          set_finished (Some now) (set_status Cancelled y))) ;;
        update_run always (fun run =>
          run_set_current [] (run_set_finished (Some now) (run_set_status RunCancelled run))) ;;
        update_rounds (fun c => scope_active (sc_status c)) (round_set_status ScopeCancelled) ;;
        mret RunWasCancelled
  end.

(** [restart_root_scope]; [fresh] is the random identity of the new root. *)
Definition restart_root_scope (fresh : string) : Tx unit :=
  update_rounds (fun c => scope_active (sc_status c)) (round_set_status ScopeCancelled) ;;
  insert_root fresh.

Definition reset_payload (payload : Column WorkflowRunPayload) : Tx unit :=
  match payload with
  | Null => mret tt
  | Malformed text => throw (CorruptColumn text)
  | Stored p => update_run always (run_set_payload (Stored (reset_run_execution_state p)))
  end.

(** [restart_run] *)
Definition restart_run (fresh : string) : Tx RestartWorkflowRunResult :=
  run ← select_run;
  match run with
  | None => mret RestartNotFound
  | Some run =>
      if bool_decide (wr_status run = RunRunning) then mret NotRestartable
      else
        update_rows live set_deleted ;;
        update_run always (fun run =>
          run_set_finished None (run_set_started None (run_set_error None (run_set_output None
            (run_set_current [] (run_set_status RunPending run)))))) ;;
        reset_payload (wr_payload run) ;;
        restart_root_scope fresh ;;
        mret Restarted
  end.

(** A live row of one of the listed nodes. *)
Definition cleared_row (cleared : list string) (r : NodeRow) : bool :=
  live r && bool_decide (nr_node_id (row r) ∈ cleared).

(** The round belongs to a live row of one of the listed nodes. *)
Definition cleared_round (s : RunStore) (cleared : list string) (c : RoundScope) : bool :=
  existsb (fun r => cleared_row cleared r && id_is (sc_parent c) r) (st_rows s).

Definition clear_payload (payload : Column WorkflowRunPayload) (cleared : list string) : Tx unit :=
  match payload with
  | Null => mret tt
  | Malformed text => throw (CorruptColumn text)
  | Stored p => update_run always (run_set_payload (Stored (resume_payload p cleared)))
  end.

(** [resume_from_failure] *)
Definition resume_from_failure (cleared : list string) : Tx ResumeWorkflowRunResult :=
  run ← select_run;
  match run with
  | None => mret ResumeNotFound
  | Some run =>
      if negb (run_status_in [RunFailed; RunCancelled] run) || bool_decide (cleared = [])
      then mret NotResumable
      else
        s ← get_store;
        if existsb (fun r => live r && status_is Running r
                             && running_row_blocks_resume (nr_node_type (row r))) (st_rows s)
        then mret NotResumable
        else
          update_rows (fun r => live r && existsb (fun c => in_scope_of (sc_id c) r
                                            && cleared_round s cleared c) (st_rounds s))
            set_deleted ;;
          s ← get_store;
          update_rounds (fun c => scope_active (sc_status c) && cleared_round s cleared c)
            (round_set_status ScopeCancelled) ;;
          update_rows (cleared_row cleared) set_deleted ;;
          clear_payload (wr_payload run) cleared ;;
          update_run always (fun run =>
            run_set_current [] (run_set_finished None (run_set_error None
              (run_set_status RunRunning run)))) ;;
          mret Resumed
  end.

(** [switch_run_snapshot]: the payload of another snapshot; the answer says whether it applied. *)
Definition switch_run_snapshot (payload : Column WorkflowRunPayload) : Tx bool :=
  s ← get_store;
  let applies := negb (wr_deleted (st_run s)) && run_status_in [RunFailed; RunCancelled] (st_run s) in
  update_run (run_status_in [RunFailed; RunCancelled]) (run_set_payload payload) ;;
  mret applies.

(** The run may take another input: not started, or terminal. *)
Definition input_editable (run : RunColumns) : bool :=
  bool_decide (wr_status run = RunPending) && bool_decide (wr_current_nodes run = [])
  || run_status_in [RunSucceeded; RunFailed; RunCancelled] run.

Definition write_input (input : option string) (payload : Column WorkflowRunPayload) : Tx unit :=
  update_run always (fun run => run_set_payload payload (run_set_input input run)).

(** [update_run_input] *)
Definition update_run_input (input : option string) (variables : gmap string Value) :
    Tx UpdateWorkflowRunInputResult :=
  run ← select_run;
  match run with
  | None => mret InputNotFound
  | Some run =>
      if negb (input_editable run) then mret NotEditable
      else
        match wr_payload run with
        | Null => write_input input Null ;; mret InputUpdated
        | Malformed text => throw (CorruptColumn text)
        | Stored p =>
            match update_task_input p variables with
            | Err (Rejected variable reason) => mret (InputRejected variable reason)
            | Err (DatabaseFailure e) => throw (PayloadFailure e)
            | Ok p =>
                p ← lift (map_err PayloadFailure (mirror_run_input_into_pool p input));
                write_input input (Stored p) ;;
                mret InputUpdated
            end
        end
  end.

(** [soft_delete_run], without the run's sessions; [session_running] is a fact of the sessions
    table. *)
Definition soft_delete_run (session_running : bool) : Tx DeleteWorkflowRunResult :=
  run ← select_run;
  match run with
  | None => mret DeleteNotFound
  | Some run =>
      s ← get_store;
      if bool_decide (wr_status run = RunRunning)
         || existsb (fun r => active_row r && live r) (st_rows s) || session_running
      then mret ActiveRun
      else
        update_rows live set_deleted ;;
        update_run always (run_set_deleted true) ;;
        mret RunDeleted
  end.
End json.
