(* ===== verification/StoreLaws.v ===== *)
(** * Lawful statements of the run store

    The abstract machine behind the transactions of the run repository: one statement changes
    one row, one round, the run's columns or the root binding, and only in the ways listed here.
    [store_ok] is the schema of the tables; every lawful statement preserves it, and every
    transaction of the repository is lawful. *)

From stdpp Require Import relations.
From S2P Require Import Prelude RustStr Order Json NodeTypes VariablePool Retry Iteration.
From S2P Require Import RunPayload Resume Store StorePayload StoreNodes StoreRun.
Local Open Scope ora_scope.

(** Whether the schema also asks that the stored pools be well typed; the rest of it does not
    depend on the values in the pools. *)
Class PoolTyping := { pools_typed : Prop }.
Definition typed_pool {debug : DebugText} {typing : PoolTyping} (pool : WorkflowVariablePool) : Prop :=
  pools_typed -> pool_ok pool.

Section laws.
Context {debug : DebugText} {typing : PoolTyping}.

(** ** Well-formed stores *)

Definition slot (r : NodeRow) : string * string * option N :=
  (nr_scope_id (row r), nr_node_id (row r), nr_iteration (row r)).
Definition live_rows (s : RunStore) : list NodeRow := filter (fun r => live r = true) (st_rows s).
Definition active_rounds (s : RunStore) : list RoundScope :=
  filter (fun c => scope_active (sc_status c) = true) (st_rounds s).

Definition payload_ok (p : Column WorkflowRunPayload) : Prop :=
  match p with Stored p => typed_pool (variable_pool p) | _ => True end.
Definition round_state_ok (st : Column LoopRoundExecutionState) : Prop :=
  match st with Stored st => typed_pool (round_pool st) | _ => True end.

(** The keys, indices and references of the schema, and typed pools. *)
Record store_ok (s : RunStore) : Prop := {
  so_ids : NoDup (row_id <$> st_rows s);
  so_slots : NoDup (slot <$> live_rows s);
  so_scopes : NoDup (scope_ids s);
  so_indices : NoDup ((fun c => (sc_parent c, sc_index c)) <$> st_rounds s);
  so_bounds c : c ∈ st_rounds s -> (1 <= sc_index c <= 100)%N;
  so_one_round : NoDup (sc_parent <$> active_rounds s);
  so_row_scope r : r ∈ st_rows s -> nr_scope_id (row r) ∈ scope_ids s;
  so_round_parent c : c ∈ st_rounds s ->
    exists r, r ∈ st_rows s /\ row_id r = sc_parent c /\ nr_node_type (row r) = "loop";
  so_payload : payload_ok (wr_payload (st_run s));
  so_round_state c : c ∈ st_rounds s -> round_state_ok (sc_state c);
}.

(** ** Moves *)

(** The columns no statement rewrites. *)
Definition same_row (r r' : NodeRow) : Prop :=
  row_id r' = row_id r /\ slot r' = slot r /\ nr_run_id (row r') = nr_run_id (row r) /\
  nr_node_type (row r') = nr_node_type (row r) /\ nr_input (row r') = nr_input (row r) /\
  row_created_at r' = row_created_at r.

(** The outcome of a row: what a terminal transition freezes. *)
Definition outcome (r : NodeRow) : WorkflowNodeStatus * option string * option string * option Z * option Z :=
  (nr_status (row r), nr_output (row r), nr_error (row r), nr_started_at (row r), nr_finished_at (row r)).

Inductive row_move (r : NodeRow) : NodeRow -> Prop :=
| move_stay : row_move r r
| move_active r' : live r = true -> active_row r = true -> same_row r r' -> live r' = true ->
    row_move r r'
| move_note r' : live r = true -> same_row r r' -> live r' = true -> outcome r' = outcome r ->
    row_move r r'
| move_delete : live r = true -> row_move r (set_deleted r).

(** Inserted rows are live and running, in a free slot of an open scope. *)
Record insertable (s : RunStore) (r : NodeRow) : Prop := {
  in_id : row_id r ∉ row_id <$> st_rows s;
  in_scope_open : scope_open s (nr_scope_id (row r)) = true;
  in_slot : slot r ∉ slot <$> live_rows s;
  in_running : nr_status (row r) = Running;
  in_live : live r = true;
}.

Inductive round_move (c : RoundScope) : RoundScope -> Prop :=
| round_stay : round_move c c
| round_active c' : scope_active (sc_status c) = true -> sc_id c' = sc_id c ->
    sc_parent c' = sc_parent c -> sc_index c' = sc_index c ->
    (round_state_ok (sc_state c) -> round_state_ok (sc_state c')) -> round_move c c'.

Record round_insertable (s : RunStore) (c : RoundScope) : Prop := {
  ri_id : sc_id c ∉ scope_ids s;
  ri_bounds : (1 <= sc_index c <= 100)%N;
  ri_parent : round_parent_ok s (sc_parent c) = true;
  ri_index : (sc_parent c, sc_index c) ∉ (fun c => (sc_parent c, sc_index c)) <$> st_rounds s;
  ri_one : sc_parent c ∉ sc_parent <$> active_rounds s;
  ri_running : sc_status c = ScopeRunning;
  ri_state : round_state_ok (sc_state c);
}.

(** The life of a run.  A composite that fails its own row fails the run in any state. *)
Definition run_status_step (a b : WorkflowRunStatus) : Prop :=
  a = b \/
  match b with
  | RunRunning => a = RunPending \/ a = RunFailed \/ a = RunCancelled
  | RunSucceeded => a = RunPending \/ a = RunRunning
  | RunCancelled => a = RunRunning
  | RunPending => a <> RunRunning
  | RunFailed => True
  end.

Definition run_move (run run' : RunColumns) : Prop :=
  wr_id run' = wr_id run /\ wr_workflow_id run' = wr_workflow_id run /\
  run_status_step (wr_status run) (wr_status run') /\
  (payload_ok (wr_payload run) -> payload_ok (wr_payload run')).

Inductive stmt (s : RunStore) : RunStore -> Prop :=
| stmt_row l1 r r' l2 : st_rows s = l1 ++ r :: l2 -> row_move r r' ->
    stmt s (set_rows (l1 ++ r' :: l2) s)
| stmt_insert r : insertable s r -> stmt s (set_rows (st_rows s ++ [r]) s)
| stmt_round l1 c c' l2 : st_rounds s = l1 ++ c :: l2 -> round_move c c' ->
    stmt s (set_rounds (l1 ++ c' :: l2) s)
| stmt_insert_round c : round_insertable s c -> stmt s (set_rounds (st_rounds s ++ [c]) s)
| stmt_root scope : scope ∉ scope_ids s -> stmt s (set_root scope s)
| stmt_run run : run_move (st_run s) run -> stmt s (set_run run s).

(** ** Lawful statements keep the schema *)

Lemma row_move_same r r' : row_move r r' -> same_row r r'.
Proof. destruct 1; by split_and?. Qed.

Lemma row_move_live r r' : row_move r r' -> live r' = true -> live r = true.
Proof. by destruct 1. Qed.

Lemma NoDup_app_one {A} (l : list A) x : NoDup l -> x ∉ l -> NoDup (l ++ [x]).
Proof.
  intros Hl Hx. apply NoDup_app. split_and!; [done| |apply NoDup_singleton].
  intros y Hy ->%list_elem_of_singleton. done.
Qed.

Lemma NoDup_middle {A} (l1 l2 : list A) x y : NoDup (l1 ++ x :: l2) -> (x = y \/ y ∉ l1 ++ l2) ->
  NoDup (l1 ++ y :: l2).
Proof.
  intros H Hxy. destruct Hxy as [->|Hy]; [done|].
  rewrite <-Permutation_middle in H |- *. apply NoDup_cons in H as [_ H]. by apply NoDup_cons.
Qed.

Lemma NoDup_remove {A} (l1 l2 : list A) x : NoDup (l1 ++ x :: l2) -> NoDup (l1 ++ l2).
Proof. rewrite <-Permutation_middle. by intros [_ H]%NoDup_cons. Qed.

Lemma stmt_row_ok s l1 r r' l2 :
  store_ok s -> st_rows s = l1 ++ r :: l2 -> row_move r r' -> store_ok (set_rows (l1 ++ r' :: l2) s).
Proof.
  intros Hok Hs Hm. pose proof (row_move_same _ _ Hm) as (Hid & Hslot & _ & Hty & _).
  assert (forall x, x ∈ st_rows s -> exists x', x' ∈ l1 ++ r' :: l2 /\ same_row x x') as Hfwd.
  { intros x. rewrite Hs. intros [?|[->|?]%elem_of_cons]%elem_of_app.
    - exists x. split; [set_solver|by split_and!].
    - exists r'. split; [set_solver|by apply row_move_same].
    - exists x. split; [set_solver|by split_and!]. }
  split; simpl; try apply Hok.
  - pose proof (so_ids s Hok) as H. rewrite Hs in H. rewrite fmap_app in *. csimpl in *. by rewrite Hid.
  - pose proof (so_slots s Hok) as H. unfold live_rows in *. rewrite Hs in H. simpl.
    rewrite filter_app, filter_cons, fmap_app in *.
    destruct (decide (live r' = true)) as [Hl|Hl].
    + rewrite decide_True in H by (by eapply row_move_live). csimpl in *. by rewrite Hslot.
    + case_decide; csimpl in *; [by eapply NoDup_remove|done].
  - intros x Hx. apply elem_of_app in Hx as [Hx|[->|Hx]%elem_of_cons].
    + apply (so_row_scope s Hok). rewrite Hs. set_solver.
    + unfold slot in Hslot. injection Hslot as -> _ _. apply (so_row_scope s Hok). rewrite Hs. set_solver.
    + apply (so_row_scope s Hok). rewrite Hs. set_solver.
  - intros c Hc. destruct (so_round_parent s Hok c Hc) as (x & Hx & <- & Hl).
    destruct (Hfwd x Hx) as (x' & Hx' & Hid' & _ & _ & Hty' & _). exists x'. by rewrite Hid', Hty'.
Qed.

Lemma stmt_insert_ok s r :
  store_ok s -> insertable s r -> store_ok (set_rows (st_rows s ++ [r]) s).
Proof.
  intros Hok [Hid Hopen Hslot Hrun Hlive]. split; simpl; try apply Hok.
  - rewrite fmap_app. apply NoDup_app_one; [apply Hok|done].
  - unfold live_rows in *. simpl. rewrite filter_app, filter_cons_True by done. rewrite filter_nil, fmap_app.
    apply NoDup_app_one; [apply Hok|done].
  - intros x [Hx| ->%list_elem_of_singleton]%elem_of_app; [by apply (so_row_scope s Hok)|].
    unfold scope_open in Hopen. apply orb_true_iff in Hopen as [->%bool_decide_eq_true|Hc]; [left|].
    apply existsb_True in Hc as (c & Hc & [[Hcid _]%andb_true_iff _]%andb_true_iff).
    apply bool_decide_eq_true in Hcid. unfold scope_ids. rewrite <-Hcid. right. apply elem_of_app. right.
    by apply list_elem_of_fmap_2.
  - intros c Hc. destruct (so_round_parent s Hok c Hc) as (x & Hx & ?). exists x. split; [set_solver|done].
Qed.

Lemma round_move_same c c' : round_move c c' ->
  sc_id c' = sc_id c /\ sc_parent c' = sc_parent c /\ sc_index c' = sc_index c /\
  (scope_active (sc_status c') = true -> scope_active (sc_status c) = true) /\
  (round_state_ok (sc_state c) -> round_state_ok (sc_state c')).
Proof. destruct 1; by split_and!. Qed.

Lemma stmt_round_ok s l1 c c' l2 :
  store_ok s -> st_rounds s = l1 ++ c :: l2 -> round_move c c' ->
  store_ok (set_rounds (l1 ++ c' :: l2) s).
Proof.
  intros Hok Hs (Hid & Hpar & Hidx & Hact & Hst)%round_move_same.
  assert (scope_ids (set_rounds (l1 ++ c' :: l2) s) = scope_ids s) as Hids.
  { unfold scope_ids. simpl. rewrite Hs, !fmap_app. csimpl. by rewrite Hid. }
  assert (forall d, d ∈ l1 ++ c' :: l2 -> exists d0, d0 ∈ st_rounds s /\ sc_parent d = sc_parent d0 /\
    sc_index d = sc_index d0 /\ (round_state_ok (sc_state d0) -> round_state_ok (sc_state d))) as Hback.
  { intros d. rewrite Hs. intros [?|[->|?]%elem_of_cons]%elem_of_app.
    - exists d. split; [set_solver|done].
    - exists c. split; [set_solver|done].
    - exists d. split; [set_solver|done]. }
  split; rewrite ?Hids; simpl; try apply Hok.
  - pose proof (so_indices s Hok) as H. rewrite Hs in H. rewrite fmap_app in *. csimpl in *.
    by rewrite Hpar, Hidx.
  - intros d (d0 & Hd0 & _ & -> & _)%Hback. by apply (so_bounds s Hok).
  - pose proof (so_one_round s Hok) as H. unfold active_rounds in *. rewrite Hs in H. simpl.
    rewrite filter_app, filter_cons, fmap_app in *.
    destruct (decide (scope_active (sc_status c') = true)) as [Hl|Hl].
    + rewrite decide_True in H by auto. csimpl in *. by rewrite Hpar.
    + case_decide; csimpl in *; [by eapply NoDup_remove|done].
  - intros d (d0 & Hd0 & -> & _)%Hback. by apply (so_round_parent s Hok).
  - intros d (d0 & Hd0 & _ & _ & Himp)%Hback. by apply Himp, (so_round_state s Hok).
Qed.

Lemma stmt_insert_round_ok s c :
  store_ok s -> round_insertable s c -> store_ok (set_rounds (st_rounds s ++ [c]) s).
Proof.
  intros Hok [Hid Hb Hp Hidx Hone Hrun Hst]. split; simpl; try apply Hok.
  - unfold scope_ids in *. simpl. rewrite fmap_app, app_assoc, app_comm_cons.
    apply NoDup_app_one; [apply Hok|done].
  - rewrite fmap_app. apply NoDup_app_one; [apply Hok|done].
  - intros d [Hd| ->%list_elem_of_singleton]%elem_of_app; [by apply (so_bounds s Hok)|done].
  - unfold active_rounds in *. simpl. rewrite filter_app, filter_cons_True by (by rewrite Hrun).
    rewrite filter_nil, fmap_app. apply NoDup_app_one; [apply Hok|done].
  - intros r Hr. pose proof (so_row_scope s Hok r Hr) as H. unfold scope_ids in *. simpl.
    rewrite fmap_app. set_solver.
  - intros d [Hd| ->%list_elem_of_singleton]%elem_of_app; [by apply (so_round_parent s Hok)|].
    unfold round_parent_ok in Hp. rewrite !andb_true_iff in Hp. destruct Hp as [[Hp _] _].
    apply existsb_True in Hp as (r & Hr & Hp). rewrite !andb_true_iff in Hp.
    destruct Hp as [[[[Hi%bool_decide_eq_true Ht%bool_decide_eq_true] _] _] _]. by exists r.
  - intros d [Hd| ->%list_elem_of_singleton]%elem_of_app; [by apply (so_round_state s Hok)|done].
Qed.

Lemma stmt_ok s s' : stmt s s' -> store_ok s -> store_ok s'.
Proof.
  intros Hst Hok. destruct Hst as [l1 r r' l2 Hs Hm|r Hi|l1 c c' l2 Hs Hm|c Hi|scope Hn|run Hm].
  - by eapply stmt_row_ok.
  - by apply stmt_insert_ok.
  - by eapply stmt_round_ok.
  - by apply stmt_insert_round_ok.
  - assert (scope_ids (set_root scope s) ≡ₚ scope :: scope_ids s) as Hids by done.
    split; simpl; try apply Hok.
    + rewrite Hids. apply NoDup_cons. split; [done|apply Hok].
    + intros r Hr. rewrite Hids. right. by apply (so_row_scope s Hok).
  - destruct Hm as (_ & _ & _ & Hp). split; simpl; try apply Hok. by apply Hp, Hok.
Qed.

Lemma stmts_ok s s' : rtc stmt s s' -> store_ok s -> store_ok s'.
Proof. induction 1; eauto using stmt_ok. Qed.

(** ** Statements over many rows *)

Lemma stmts_rows s (f : NodeRow -> NodeRow) :
  (forall r, r ∈ st_rows s -> row_move r (f r)) -> rtc stmt s (set_rows (f <$> st_rows s) s).
Proof.
  intros Hf.
  assert (forall l2 l1 s0, st_rows s0 = l1 ++ l2 -> (forall r, r ∈ l2 -> row_move r (f r)) ->
    rtc stmt s0 (set_rows (l1 ++ (f <$> l2)) s0)) as Hgen.
  { induction l2 as [|r l2 IH]; intros l1 s0 Hs Hl.
    { csimpl. rewrite <-Hs. by destruct s0. }
    eapply rtc_l; [apply (stmt_row s0 l1 r (f r) l2); [done|apply Hl; by left]|].
    pose proof (IH (l1 ++ [f r]) (set_rows (l1 ++ f r :: l2) s0)) as H. rewrite <-!app_assoc in H.
    apply H; [done|]. intros x Hx. apply Hl. by right. }
  by apply (Hgen (st_rows s) []).
Qed.

Lemma stmts_rounds s (f : RoundScope -> RoundScope) :
  (forall c, c ∈ st_rounds s -> round_move c (f c)) -> rtc stmt s (set_rounds (f <$> st_rounds s) s).
Proof.
  intros Hf.
  assert (forall l2 l1 s0, st_rounds s0 = l1 ++ l2 -> (forall c, c ∈ l2 -> round_move c (f c)) ->
    rtc stmt s0 (set_rounds (l1 ++ (f <$> l2)) s0)) as Hgen.
  { induction l2 as [|c l2 IH]; intros l1 s0 Hs Hl.
    { csimpl. rewrite <-Hs. by destruct s0. }
    eapply rtc_l; [apply (stmt_round s0 l1 c (f c) l2); [done|apply Hl; by left]|].
    pose proof (IH (l1 ++ [f c]) (set_rounds (l1 ++ f c :: l2) s0)) as H. rewrite <-!app_assoc in H.
    apply H; [done|]. intros x Hx. apply Hl. by right. }
  by apply (Hgen (st_rounds s) []).
Qed.

(** ** Lawful transactions *)

Definition lawful {A} (m : Tx A) : Prop :=
  forall s a s', store_ok s -> m s = Ok (a, s') -> rtc stmt s s'.

Section lawful.
Context {A B : Type}.

Lemma lawful_ret (x : A) : lawful (mret x).
Proof. intros s a s' _ H. by inv_tx. Qed.
Lemma lawful_bind (m : Tx A) (k : A -> Tx B) :
  lawful m -> (forall a, lawful (k a)) -> lawful (m ≫= k).
Proof.
  intros Hm Hk s b s' Hok H. inv_tx. etrans; [by eapply Hm|]. eapply Hk; [|done].
  eapply stmts_ok; [|done]. by eapply Hm.
Qed.
Lemma lawful_throw e : lawful (throw e : Tx A).
Proof. intros s a s' _ H. by inv_tx. Qed.
Lemma lawful_lift (m : result StoreError A) : lawful (lift m).
Proof. intros s a s' _ H. by inv_tx. Qed.
Lemma lawful_gets (f : RunStore -> A) : lawful (gets f).
Proof. intros s a s' _ H. by inv_tx. Qed.
Lemma lawful_if (b : bool) (m k : Tx A) : lawful m -> lawful k -> lawful (if b then m else k).
Proof. by destruct b. Qed.
Lemma lawful_each (f : A -> Tx unit) l : (forall x, lawful (f x)) -> lawful (each f l).
Proof.
  intros Hf. induction l as [|x l IH]; simpl; [intros s a s' _ H; by inv_tx|].
  intros s u s' Hok H. inv_tx. etrans; [by eapply Hf|]. eapply IH; [|done].
  eapply stmts_ok; [|done]. by eapply Hf.
Qed.
End lawful.

Lemma lawful_require b e : lawful (require b e).
Proof. intros s a s' _ H. by inv_tx. Qed.
Lemma lawful_when b m : lawful m -> lawful (when b m).
Proof. intros H. destruct b; simpl; [done|apply lawful_ret]. Qed.

Lemma lawful_update_run p f :
  (forall run, p run = true -> run_move run (f run)) -> lawful (update_run p f).
Proof.
  intros Hf s a s' Hok H. unfold update_run in H. inv_tx.
  destruct (negb _ && p (st_run s)) eqn:E; [|done]. apply andb_true_iff in E as [_ E].
  apply rtc_once, stmt_run, Hf, E.
Qed.

Lemma lawful_update_rows p f :
  (forall r, p r = true -> row_move r (f r)) -> lawful (update_rows p f).
Proof.
  intros Hf s a s' Hok H. inv_tx. apply (stmts_rows s (fun r => if p r then f r else r)).
  intros r _. destruct (p r) eqn:E; [by apply Hf|apply move_stay].
Qed.

Lemma lawful_update_rounds p f :
  (forall c, p c = true -> round_move c (f c)) -> lawful (update_rounds p f).
Proof.
  intros Hf s a s' Hok H. unfold update_rounds in H. inv_tx.
  apply (stmts_rounds s (fun c => if p c then f c else c)).
  intros c _. destruct (p c) eqn:E; [by apply Hf|apply round_stay].
Qed.

Lemma insert_row_Ok r s u s' :
  insert_row r s = Ok (u, s') <->
  row_id r ∉ row_id <$> st_rows s /\ scope_open s (nr_scope_id (row r)) = true /\
  slot r ∉ slot <$> live_rows s /\ s' = set_rows (st_rows s ++ [r]) s.
Proof.
  unfold insert_row. rewrite tx_bind_Ok. split.
  - intros H. destruct H as (s0 & s1 & [-> ->]%gets_Ok & H). inv_tx. split_and!; [|done| |done].
    + match goal with H : negb (existsb (id_is _) _) = true |- _ =>
        apply negb_true_iff, existsb_False in H; rewrite Forall_forall in H; rename H into Hid end.
      intros (x & Hx & Hin)%list_elem_of_fmap. specialize (Hid x Hin). unfold id_is in Hid.
      apply bool_decide_eq_false in Hid. congruence.
    + match goal with H : negb (existsb (fun x => _ && _) _) = true |- _ =>
        apply negb_true_iff, existsb_False in H; rewrite Forall_forall in H; rename H into Hsl end.
      intros (x & Hx & [Hlx Hin]%list_elem_of_filter)%list_elem_of_fmap. specialize (Hsl x Hin).
      rewrite Hlx in Hsl. simpl in Hsl. unfold same_slot in Hsl. apply bool_decide_eq_false in Hsl.
      unfold slot in Hx. injection Hx as ?? ?. naive_solver.
  - intros (Hid & Hopen & Hsl & ->). exists s, s. split; [by apply gets_Ok|].
    rewrite !tx_bind_Ok. exists tt, s. split.
    { apply require_Ok. split; [|done]. apply negb_true_iff, existsb_False, Forall_forall. intros x Hx.
      apply bool_decide_eq_false. intros Heq. apply Hid. rewrite <-Heq. by apply list_elem_of_fmap_2. }
    rewrite tx_bind_Ok. exists tt, s. split; [by apply require_Ok|].
    rewrite tx_bind_Ok. exists tt, s. split; [|by apply modify_Ok].
    apply require_Ok. split; [|done]. apply negb_true_iff, existsb_False, Forall_forall. intros x Hx.
    destruct (live x) eqn:Hlx; [|done]. simpl. apply bool_decide_eq_false. intros (E1 & E2 & E3).
    apply Hsl. apply list_elem_of_fmap. exists x. split; [unfold slot; congruence|].
    by apply list_elem_of_filter.
Qed.

Lemma lawful_insert_row r :
  nr_status (row r) = Running -> live r = true -> lawful (insert_row r).
Proof.
  intros Hrun Hlive s a s' Hok (Hid & Hopen & Hslot & ->)%insert_row_Ok.
  by apply rtc_once, stmt_insert.
Qed.

Lemma insert_round_Ok c s u s' :
  insert_round c s = Ok (u, s') ->
  s' = set_rounds (st_rounds s ++ [c]) s /\ sc_id c ∉ scope_ids s /\ (1 <= sc_index c <= 100)%N /\
  round_parent_ok s (sc_parent c) = true /\
  (sc_parent c, sc_index c) ∉ (fun c => (sc_parent c, sc_index c)) <$> st_rounds s /\
  sc_parent c ∉ sc_parent <$> active_rounds s.
Proof.
  unfold insert_round. intros H. inv_tx.
  repeat match goal with H : negb _ = true |- _ => apply negb_true_iff in H end.
  repeat match goal with H : bool_decide _ = false |- _ => apply bool_decide_eq_false in H end.
  repeat match goal with H : existsb _ _ = false |- _ => apply existsb_False in H; rewrite Forall_forall in H end.
  repeat match goal with H : _ && _ = true |- _ => apply andb_true_iff in H as [? ?] end.
  split_and!; [done|done|by apply N.leb_le|by apply N.leb_le|done| |].
  - intros (d & Hd & Hin)%list_elem_of_fmap.
    match goal with H : forall x, x ∈ st_rounds s -> _ && bool_decide (sc_index _ = _) = false |- _ =>
      specialize (H d Hin); apply andb_false_iff in H as [E|E]; apply bool_decide_eq_false in E end; naive_solver.
  - intros (d & Hd & [Ha Hin]%list_elem_of_filter)%list_elem_of_fmap.
    match goal with H : forall x, x ∈ st_rounds s -> _ && scope_active _ = false |- _ =>
      specialize (H d Hin); apply andb_false_iff in H as [E|E] end;
      [apply bool_decide_eq_false in E; naive_solver|congruence].
Qed.

Lemma lawful_insert_round c :
  sc_status c = ScopeRunning -> round_state_ok (sc_state c) -> lawful (insert_round c).
Proof.
  intros Hrun Hst s a s' Hok (-> & Hid & Hb & Hp & Hidx & Hone)%insert_round_Ok.
  by apply rtc_once, stmt_insert_round.
Qed.

Lemma lawful_insert_root scope : lawful (insert_root scope).
Proof.
  intros s a s' Hok H. unfold insert_root in H. inv_tx. apply rtc_once, stmt_root.
  match goal with H : negb _ = true |- _ => by apply negb_true_iff, bool_decide_eq_false in H end.
Qed.

End laws.

Create HintDb lawful.
#[export] Hint Resolve lawful_ret lawful_bind lawful_throw lawful_lift lawful_gets lawful_if
  lawful_each lawful_require lawful_when lawful_insert_root : lawful.

(** ** Every transaction of the run repository is lawful

    Each operation of the store, from any well-formed store, is a sequence of the lawful
    statements of [StoreLaws]; with it, every operation keeps the schema. *)
(** ** Typed pools through the payload functions *)

Section pools.
Context {debug : DebugText} {json : JsonText}.

Lemma seed_pool pool w now r : pool_ok pool -> seed_system_variables pool w now = Ok r -> pool_ok r.2.
Proof.
  unfold seed_system_variables. intros Hp H. inv_ok. simpl.
  eapply write_pool_variable_ok; [|done]. by eapply write_pool_variable_ok.
Qed.

Lemma write_completion_pool p id t out p' :
  pool_ok (variable_pool p) -> write_completion_output p id t out = Ok p' -> pool_ok (variable_pool p').
Proof.
  unfold write_completion_output. intros Hp H. case_match; [by inv_ok|]. case_match; inv_ok; [|done].
  simpl. by eapply write_pool_variable_ok.
Qed.

Lemma execution_state_pool p id t it out str p' :
  pool_ok (variable_pool p) -> update_run_execution_state p id t it out str = Ok p' ->
  pool_ok (variable_pool p').
Proof.
  unfold update_run_execution_state. intros Hp H. apply bind_Ok in H as (p1 & H1%write_completion_pool & H); [|done].
  repeat case_match; inv_ok; simpl; try done; by eapply write_pool_variable_ok.
Qed.

Lemma round_completion_pool st id t out st' :
  pool_ok (round_pool st) -> round_completion_output st id t out = Ok st' -> pool_ok (round_pool st').
Proof.
  unfold round_completion_output. intros Hp H. case_match; [by inv_ok|]. case_match; inv_ok; [|done].
  simpl. by eapply write_pool_variable_ok.
Qed.

Lemma round_execution_pool st id t out str st' :
  pool_ok (round_pool st) -> round_execution_state st id t out str = Ok st' -> pool_ok (round_pool st').
Proof.
  unfold round_execution_state. intros Hp H. apply bind_Ok in H as (s1 & H1%round_completion_pool & H); [|done].
  repeat case_match; inv_ok; simpl; try done; by eapply write_pool_variable_ok.
Qed.

Lemma declared_pool pool sel w v pool' :
  pool_ok pool -> write_declared_pool_variable pool sel w v = Ok pool' -> pool_ok pool'.
Proof. intros Hp H%write_declared_inv. by eapply set_pool_ok. Qed.

Lemma bind_round_pool owner round item p p' :
  pool_ok (variable_pool p) -> bind_round owner round item p = Ok p' -> pool_ok (variable_pool p').
Proof.
  unfold bind_round. intros Hp H. inv_ok. simpl. eapply declared_pool; [|done]. by eapply declared_pool.
Qed.

Lemma write_exposed_pool owner exposed p p' :
  pool_ok (variable_pool p) -> write_exposed owner exposed p = Ok p' -> pool_ok (variable_pool p').
Proof.
  unfold write_exposed. intros Hp H. inv_ok. simpl.
  eapply (fold_result_inv (fun _ pool => pool_ok pool)); [exact Hp| |done].
  intros _ kv p1 p2 H1 _ H2. cbv beta in *. by eapply declared_pool.
Qed.

Lemma publish_pool node outputs pool pool' :
  pool_ok pool -> publish_outputs node outputs pool = Ok pool' -> pool_ok pool'.
Proof.
  unfold publish_outputs. intros Hp H.
  eapply (fold_result_inv (fun _ pool => pool_ok pool)); [exact Hp| |done].
  intros _ kv p1 p2 H1 _ H2. cbv beta in *. inv_ok. by eapply write_pool_variable_ok.
Qed.

Lemma bump_pool pool : pool_ok pool -> pool_ok (bump pool).
Proof. done. Qed.

Lemma resume_payload_pool p cleared :
  pool_ok (variable_pool p) -> pool_ok (variable_pool (resume_payload p cleared)).
Proof. intros Hp. simpl. by apply bump_pool, retain_values_ok. Qed.

Lemma reset_pool p : pool_ok (variable_pool p) -> pool_ok (variable_pool (reset_run_execution_state p)).
Proof.
  intros Hp. unfold reset_run_execution_state. case_match; [done|]. simpl.
  by apply bump_pool, retain_values_ok, remove_aliases_ok.
Qed.

Lemma update_input_pool p variables p' :
  pool_ok (variable_pool p) -> update_task_input p variables = Ok p' -> pool_ok (variable_pool p').
Proof.
  unfold update_task_input. intros Hp H. case_match.
  - inv_ok. simpl. apply bump_pool. eapply apply_start_values_ok; [by apply remove_aliases_ok| |done].
    apply (btree_keys_NoDup str_le).
  - case_match; inv_ok. simpl. by apply bump_pool, (remove_aliases_ok p None).
Qed.

Lemma mirror_pool p input p' :
  pool_ok (variable_pool p) -> mirror_run_input_into_pool p input = Ok p' -> pool_ok (variable_pool p').
Proof.
  unfold mirror_run_input_into_pool. intros Hp H. case_match; [|by inv_ok].
  case_match; [|by inv_ok]. case_match; inv_ok; simpl.
  - apply bump_pool. by eapply set_pool_ok.
  - case_match; [apply bump_pool|]; by apply unset_ok.
Qed.

Lemma default_payload_pool : pool_ok (variable_pool default_payload).
Proof. apply empty_pool_ok. Qed.

(** The same facts, under whatever typing the schema asks for. *)
Context {typing : PoolTyping}.

Lemma typed_keep pool pool' : (pool_ok pool -> pool_ok pool') -> typed_pool pool -> typed_pool pool'.
Proof. intros H Hp Ht. apply H, Hp, Ht. Qed.

Lemma seed_ok pool w now r : typed_pool pool -> seed_system_variables pool w now = Ok r -> typed_pool r.2.
Proof. intros Hp H. eapply typed_keep, Hp. intros. by eapply seed_pool. Qed.
Lemma execution_state_ok p id t it out str p' :
  typed_pool (variable_pool p) -> update_run_execution_state p id t it out str = Ok p' ->
  typed_pool (variable_pool p').
Proof. intros Hp H. eapply typed_keep, Hp. intros. by eapply execution_state_pool. Qed.
Lemma round_execution_ok st id t out str st' :
  typed_pool (round_pool st) -> round_execution_state st id t out str = Ok st' -> typed_pool (round_pool st').
Proof. intros Hp H. eapply typed_keep, Hp. intros. by eapply round_execution_pool. Qed.
Lemma bind_round_ok owner round item p p' :
  typed_pool (variable_pool p) -> bind_round owner round item p = Ok p' -> typed_pool (variable_pool p').
Proof. intros Hp H. eapply typed_keep, Hp. intros. by eapply bind_round_pool. Qed.
Lemma write_exposed_ok owner exposed p p' :
  typed_pool (variable_pool p) -> write_exposed owner exposed p = Ok p' -> typed_pool (variable_pool p').
Proof. intros Hp H. eapply typed_keep, Hp. intros. by eapply write_exposed_pool. Qed.
Lemma publish_ok node outputs pool pool' :
  typed_pool pool -> publish_outputs node outputs pool = Ok pool' -> typed_pool pool'.
Proof. intros Hp H. eapply typed_keep, Hp. intros. by eapply publish_pool. Qed.
Lemma resume_payload_ok p cleared :
  typed_pool (variable_pool p) -> typed_pool (variable_pool (resume_payload p cleared)).
Proof. apply typed_keep, resume_payload_pool. Qed.
Lemma reset_ok p : typed_pool (variable_pool p) -> typed_pool (variable_pool (reset_run_execution_state p)).
Proof. apply typed_keep, reset_pool. Qed.
Lemma update_input_ok p variables p' :
  typed_pool (variable_pool p) -> update_task_input p variables = Ok p' -> typed_pool (variable_pool p').
Proof. intros Hp H. eapply typed_keep, Hp. intros. by eapply update_input_pool. Qed.
Lemma mirror_ok p input p' :
  typed_pool (variable_pool p) -> mirror_run_input_into_pool p input = Ok p' -> typed_pool (variable_pool p').
Proof. intros Hp H. eapply typed_keep, Hp. intros. by eapply mirror_pool. Qed.

Lemma parse_payload_ok c p : payload_ok c -> parse_run_payload c = Ok p -> typed_pool (variable_pool p).
Proof. destruct c; simpl; intros Hc H; inv_ok; [intros _; apply default_payload_pool|done]. Qed.
End pools.

(** ** Rules *)

Section rules.
Context {debug : DebugText} {typing : PoolTyping}.

(** A read hands its fact to what follows. *)
Lemma lawful_read {A B} (Q : A -> Prop) (m : Tx A) (k : A -> Tx B) :
  lawful m -> (forall s a s', store_ok s -> m s = Ok (a, s') -> Q a) ->
  (forall a, Q a -> lawful (k a)) -> lawful (m ≫= k).
Proof.
  intros Hm HQ Hk s b s' Hok H. inv_tx. etrans; [by eapply Hm|].
  eapply Hk; [by eapply HQ| |done]. eapply stmts_ok; [|done]. by eapply Hm.
Qed.

Lemma lawful_lift_bind {A B} (m : result StoreError A) (k : A -> Tx B) :
  (forall a, m = Ok a -> lawful (k a)) -> lawful (lift m ≫= k).
Proof.
  intros Hk. apply (lawful_read (fun a => m = Ok a)); [apply lawful_lift| |done].
  intros s a s' _ H. by inv_tx.
Qed.

Lemma lawful_select_run {B} (k : option RunColumns -> Tx B) :
  (forall run, (forall r, run = Some r -> payload_ok (wr_payload r)) -> lawful (k run)) ->
  lawful (select_run ≫= k).
Proof.
  intros Hk. apply (lawful_read (fun run => forall r, run = Some r -> payload_ok (wr_payload r)));
    [apply lawful_gets| |done].
  intros s run s' Hok H r ->. inv_tx. destruct (wr_deleted (st_run s)); simplify_eq.
  apply (so_payload _ Hok).
Qed.

Lemma lawful_get_store {B} (k : RunStore -> Tx B) :
  (forall s, store_ok s -> lawful (k s)) -> lawful (get_store ≫= k).
Proof.
  intros Hk. apply (lawful_read store_ok); [apply lawful_gets| |done].
  intros s s0 s' Hok H. by inv_tx.
Qed.

Lemma lawful_insert_node_run n now : lawful (insert_node_run n now).
Proof.
  apply lawful_bind; [apply lawful_gets|]. intros run_id. by apply lawful_insert_row.
Qed.

Lemma lawful_run_status p f :
  (forall run, wr_id (f run) = wr_id run /\ wr_workflow_id (f run) = wr_workflow_id run /\
    wr_payload (f run) = wr_payload run) ->
  (forall run, p run = true -> run_status_step (wr_status run) (wr_status (f run))) ->
  lawful (update_run p f).
Proof.
  intros Hf Hst. apply lawful_update_run. intros run Hp. destruct (Hf run) as (H1 & H2 & H3).
  split_and!; [done|done|by apply Hst|by rewrite H3].
Qed.

Lemma lawful_set_payload p payload :
  payload_ok payload -> lawful (update_run p (run_set_payload payload)).
Proof. intros Hp. apply lawful_update_run. intros run _. split_and!; [done|done|by left|done]. Qed.

Lemma lawful_rewrite f : lawful (rewrite_current_nodes f).
Proof. apply lawful_run_status; [done|by left]. Qed.

(** Transactions that rely on what was read from the run's row. *)
Definition run_status (s : RunStore) : WorkflowRunStatus := wr_status (st_run s).
Definition lawful_in {A} (P : WorkflowRunStatus -> Prop) (m : Tx A) : Prop :=
  forall s a s', store_ok s -> P (run_status s) -> m s = Ok (a, s') -> rtc stmt s s'.
Definition keeps_run {A} (m : Tx A) : Prop :=
  forall s a s', m s = Ok (a, s') -> run_status s' = run_status s.

Lemma lawful_in_any {A} P (m : Tx A) : lawful m -> lawful_in P m.
Proof. intros Hm s a s' Hok _. by apply Hm. Qed.

Lemma lawful_in_bind {A B} P (m : Tx A) (k : A -> Tx B) :
  lawful m -> keeps_run m -> (forall a, lawful_in P (k a)) -> lawful_in P (m ≫= k).
Proof.
  intros Hm Hkeep Hk s b s' Hok HP H. inv_tx. etrans; [by eapply Hm|].
  eapply Hk; [|by erewrite Hkeep|done]. eapply stmts_ok; [|done]. by eapply Hm.
Qed.

Lemma lawful_in_then {A B} P (m : Tx A) (k : A -> Tx B) :
  lawful_in P m -> (forall a, lawful (k a)) -> lawful_in P (m ≫= k).
Proof.
  intros Hm Hk s b s' Hok HP H. inv_tx. etrans; [by eapply Hm|].
  eapply Hk; [|done]. eapply stmts_ok; [|done]. by eapply Hm.
Qed.

Lemma lawful_in_run P p f :
  (forall run, P (wr_status run) -> p run = true -> run_move run (f run)) -> lawful_in P (update_run p f).
Proof.
  intros Hf s a s' Hok HP H. unfold update_run in H. inv_tx.
  destruct (negb _ && p (st_run s)) eqn:E; [|done]. apply andb_true_iff in E as [_ E].
  by apply rtc_once, stmt_run, Hf.
Qed.

Lemma lawful_select_run_in {B} (k : option RunColumns -> Tx B) :
  lawful (k None) ->
  (forall run, payload_ok (wr_payload run) -> lawful_in (fun st => st = wr_status run) (k (Some run))) ->
  lawful (select_run ≫= k).
Proof.
  intros Hn Hk s b s' Hok H. apply tx_bind_Ok in H as (run & s1 & [Hr ->]%gets_Ok & H).
  destruct (wr_deleted (st_run s)); subst run; [by eapply Hn|].
  eapply Hk; [apply (so_payload _ Hok)|done|done|exact H].
Qed.

Lemma keeps_update_rows p f : keeps_run (update_rows p f).
Proof. intros s a s' H. by inv_tx. Qed.
Lemma keeps_bind {A B} (m : Tx A) (k : A -> Tx B) :
  keeps_run m -> (forall a, keeps_run (k a)) -> keeps_run (m ≫= k).
Proof. intros Hm Hk s b s' H. inv_tx. rewrite (Hk _ _ _ _ H). by eapply Hm. Qed.
Lemma keeps_ret {A} (x : A) : keeps_run (mret x).
Proof. intros s a s' H. by inv_tx. Qed.
Lemma keeps_gets {A} (f : RunStore -> A) : keeps_run (gets f).
Proof. intros s a s' H. by inv_tx. Qed.
Lemma keeps_update_rounds p f : keeps_run (update_rounds p f).
Proof. intros s a s' H. unfold update_rounds in H. by inv_tx. Qed.
Lemma keeps_insert_row r : keeps_run (insert_row r).
Proof. by intros s a s' (_ & _ & _ & ->)%insert_row_Ok. Qed.
Lemma keeps_set_payload p payload : keeps_run (update_run p (run_set_payload payload)).
Proof. intros s a s' H. unfold update_run in H. inv_tx. unfold run_status. by case_match. Qed.
Lemma keeps_throw {A} e : keeps_run (throw e : Tx A).
Proof. intros s a s' H. by inv_tx. Qed.
Lemma keeps_insert_node_run n now : keeps_run (insert_node_run n now).
Proof. apply keeps_bind; [apply keeps_gets|intros; apply keeps_insert_row]. Qed.

(** Updates that ask for an active row. *)
Lemma lawful_finish_rows (p : NodeRow -> bool) (f : WorkflowNodeRun -> WorkflowNodeRun) :
  (forall r, p r = true -> live r = true /\ active_row r = true) ->
  (forall r, same_row r (on_row f r)) -> lawful (update_rows p (on_row f)).
Proof.
  intros Hp Hf. apply lawful_update_rows. intros r [Hl Ha]%Hp. by apply move_active.
Qed.

Lemma lawful_note_rows (p : NodeRow -> bool) (f : WorkflowNodeRun -> WorkflowNodeRun) :
  (forall r, p r = true -> live r = true) ->
  (forall r, same_row r (on_row f r) /\ outcome (on_row f r) = outcome r) ->
  lawful (update_rows p (on_row f)).
Proof.
  intros Hp Hf. apply lawful_update_rows. intros r Hl%Hp. destruct (Hf r). by apply move_note.
Qed.

Lemma lawful_delete_rows (p : NodeRow -> bool) :
  (forall r, p r = true -> live r = true) -> lawful (update_rows p set_deleted).
Proof. intros Hp. apply lawful_update_rows. intros r Hl%Hp. by apply move_delete. Qed.

Lemma lawful_close_rounds (p : RoundScope -> bool) status :
  (forall c, p c = true -> scope_active (sc_status c) = true) ->
  lawful (update_rounds p (round_set_status status)).
Proof. intros Hp. apply lawful_update_rounds. intros c Ha%Hp. by apply round_active. Qed.

Lemma lawful_set_round_state (p : RoundScope -> bool) st :
  (forall c, p c = true -> scope_active (sc_status c) = true) -> round_state_ok (Stored st) ->
  lawful (update_rounds p (round_set_state (Stored st))).
Proof. intros Hp Hst. apply lawful_update_rounds. intros c Ha%Hp. by apply round_active. Qed.
End rules.

Lemma status_is_true status r : status_is status r = true <-> nr_status (row r) = status.
Proof. unfold status_is. by rewrite bool_decide_eq_true. Qed.
Lemma running_active r : status_is Running r = true -> active_row r = true.
Proof. unfold active_row. by intros ->%status_is_true. Qed.
Lemma running_round_active id c : running_round id c = true -> scope_active (sc_status c) = true.
Proof. unfold running_round. by intros [_ ->%bool_decide_eq_true]%andb_true_iff. Qed.

(** The selections of the updates: live, and active where they say so. *)
Ltac selects :=
  let r := fresh "r" in let H := fresh "H" in
  intros r H; unfold live_id, outer_row_of, cleared_row in H; rewrite ?andb_true_iff in H;
  destruct_and?; split_and?; try done; try (by apply running_active);
  try (by eapply running_round_active).

#[export] Hint Resolve lawful_insert_node_run lawful_rewrite : lawful.
#[export] Hint Extern 1 (lawful (update_run _ (run_set_payload _))) =>
  apply lawful_set_payload : lawful.
(** The status a conditional update of the run starts from. *)
Ltac run_status :=
  let run := fresh "run" in let H := fresh "H" in
  intros run H; cbv beta in H; rewrite ?bool_decide_eq_true in H; rewrite ?H;
  first [by left | by right].
#[export] Hint Extern 2 (lawful (update_run _ _)) =>
  apply lawful_run_status; [done|run_status] : lawful.
#[export] Hint Extern 1 (lawful (update_rows _ set_deleted)) =>
  apply lawful_delete_rows; selects : lawful.
#[export] Hint Extern 2 (lawful (update_rows _ (on_row _))) =>
  apply lawful_finish_rows; [selects|done] : lawful.
#[export] Hint Extern 3 (lawful (update_rows _ (on_row _))) =>
  apply lawful_note_rows; [selects|done] : lawful.
#[export] Hint Extern 1 (lawful (update_rounds _ (round_set_status _))) =>
  apply lawful_close_rounds; selects : lawful.

(** Structural decomposition of a transaction. *)
Ltac lawful_step :=
  cbv beta;
  match goal with
  | |- forall _, _ => intros ?
  | |- lawful (select_run ≫= _) => apply lawful_select_run; intros ? ?
  | |- lawful (get_store ≫= _) => apply lawful_get_store; intros ? ?
  | |- lawful (lift _ ≫= _) => apply lawful_lift_bind; intros ? ?
  | |- lawful (_ ≫= _) => apply lawful_bind
  | |- lawful (when _ _) => apply lawful_when
  | |- lawful (each _ _) => apply lawful_each
  | |- lawful (match ?x with _ => _ end) => destruct x eqn:?
  | |- lawful _ => solve [eauto 2 with lawful]
  end.
Ltac lawful := repeat lawful_step.
