(* ===== verification/StoreOps.v ===== *)
(** * Lawfulness of the operations

    One lemma per operation of the run repository. *)

From stdpp Require Import relations.
From S2P Require Import Prelude RustStr Order Json NodeTypes VariablePool Retry.
From S2P Require Import Iteration RunPayload Resume Store StorePayload StoreNodes StoreRun.
From S2P Require Import StoreRun StoreLaws.
Local Open Scope ora_scope.

Section ops.
Context {debug : DebugText} {json : JsonText} {sqlite : SqliteJson} {typing : PoolTyping}.

(** ** The row with a given id *)

Lemma find_row_Some s id r :
  find_row s id = Some r -> r ∈ st_rows s /\ row_id r = id /\ live r = true.
Proof.
  intros [Hin [Hid%bool_decide_eq_true Hl]%andb_true_iff]%find_first_Some. done.
Qed.

Lemma row_unique s r x : store_ok s -> r ∈ st_rows s -> x ∈ st_rows s -> row_id x = row_id r -> x = r.
Proof.
  intros Hok Hr Hx Hid. pose proof (so_ids s Hok) as Hnd.
  apply list_elem_of_lookup in Hr as [i Hi], Hx as [j Hj].
  assert (i = j) as ->; [|congruence].
  eapply (NoDup_lookup _ _ _ _ Hnd); rewrite list_lookup_fmap.
  - rewrite Hi. done.
  - rewrite Hj. simpl. by rewrite Hid.
Qed.

Lemma find_row_unique s id r x :
  store_ok s -> find_row s id = Some r -> x ∈ st_rows s -> row_id x = id -> x = r.
Proof. intros Hok (Hr & <- & _)%find_row_Some Hx Hid. by eapply row_unique. Qed.

(** An update of the row with a given id, whose state is known. *)
Lemma stmts_update_at s id r (p : NodeRow -> bool) f n s' :
  store_ok s -> find_row s id = Some r -> (forall x, p x = true -> row_id x = id) ->
  row_move r (f r) -> update_rows p f s = Ok (n, s') -> rtc stmt s s'.
Proof.
  intros Hok Hr Hp Hm H. inv_tx. apply (stmts_rows s (fun r => if p r then f r else r)).
  intros x Hx. destruct (p x) eqn:E; [|apply move_stay].
  by rewrite (find_row_unique s id r x) by eauto.
Qed.

Lemma live_id_true id r : live_id id r = true -> row_id r = id.
Proof. unfold live_id. by intros [?%bool_decide_eq_true _]%andb_true_iff. Qed.
Lemma id_is_true id r : id_is id r = true -> row_id r = id.
Proof. by intros ?%bool_decide_eq_true. Qed.

(** ** Operations *)

Lemma lawful_start_run start now : lawful (start_run start now).
Proof.
  unfold start_run. apply lawful_select_run_in; [lawful|]. intros run Hp.
  destruct (negb (bool_decide (wr_status run = RunPending))) eqn:E; simpl; [apply lawful_in_any; lawful|].
  apply negb_false_iff, bool_decide_eq_true in E. destruct (negb _); [apply lawful_in_any; lawful|].
  apply lawful_in_bind; [lawful|apply keeps_insert_node_run|]. intros _. apply lawful_in_then.
  - apply lawful_in_run. intros r Hr _. split_and!; [done|done| |done]. right. left. by rewrite Hr.
  - intros _. destruct (wr_payload run); [lawful..|]. apply lawful_lift_bind.
    intros seeded Hs%map_err_Ok%seed_ok; [|done]. lawful.
Qed.

Lemma lawful_start_ready_nodes runs now : lawful (start_ready_nodes runs now).
Proof. unfold start_ready_nodes. lawful. Qed.

Lemma lawful_not_advanced id : lawful (not_advanced id).
Proof. unfold not_advanced. apply lawful_bind; [apply lawful_gets|]. intros. apply lawful_ret. Qed.

Lemma lawful_transition id from to :
  node_active from = true -> lawful (transition_node_run_status id from to).
Proof.
  intros Hf. unfold transition_node_run_status. apply lawful_bind.
  - apply lawful_finish_rows; [|done]. intros r [[_ Hl]%andb_true_iff Hs%status_is_true]%andb_true_iff.
    split; [done|]. unfold active_row. by rewrite Hs.
  - intros n. apply lawful_if; [apply lawful_not_advanced|apply lawful_ret].
Qed.

Lemma lawful_bind_session id session m : lawful (bind_node_run_session id session m).
Proof.
  unfold bind_node_run_session. lawful_step. apply lawful_bind; [apply lawful_gets|]. lawful.
Qed.

Lemma lawful_complete_root run x out str :
  payload_ok (wr_payload run) -> lawful (complete_root run x out str).
Proof.
  unfold complete_root. destruct (wr_payload run) as [|text|p]; intros Hp; lawful.
  apply lawful_set_payload.
  match goal with H : map_err _ _ = Ok _ |- _ => by apply map_err_Ok, execution_state_ok in H end.
Qed.

Lemma lawful_complete_round_child scope x out str :
  (forall c, scope = Some c -> round_state_ok (sc_state c)) ->
  lawful (complete_round_child scope x out str).
Proof.
  intros Hp. unfold complete_round_child. apply lawful_lift_bind. intros st Hst.
  apply lawful_lift_bind. intros st' Hst'. apply lawful_set_round_state; [selects|].
  apply map_err_Ok, round_execution_ok in Hst'; [done|].
  destruct scope as [c|]; [|done]. specialize (Hp c eq_refl).
  destruct (sc_state c); simpl in *; by inv_ok.
Qed.

Lemma complete_scope_rows b run scope x out str s u s' :
  (if b : bool then complete_root run x out str else complete_round_child scope x out str) s = Ok (u, s') ->
  st_rows s' = st_rows s.
Proof.
  destruct b; unfold complete_root, complete_round_child, update_run, update_rounds.
  - destruct (wr_payload run); intros H; inv_tx; [done|]. by case_match.
  - intros H. by inv_tx.
Qed.

Lemma find_row_rows s s' id : st_rows s' = st_rows s -> find_row s' id = find_row s id.
Proof. unfold find_row. by intros ->. Qed.

Lemma find_scope_ok s id c : store_ok s -> find_scope s id = Some (Some c) -> round_state_ok (sc_state c).
Proof.
  unfold find_scope. intros Hok. destruct (find_round s id) as [c'|] eqn:E.
  - intros [= ->]. apply find_first_Some in E as [Hc _]. by apply (so_round_state s Hok).
  - by case_bool_decide.
Qed.

Lemma lawful_complete_node id out str reason changes patch now :
  lawful (complete_node id out str reason changes patch now).
Proof.
  intros s a s' Hok H. unfold complete_node in H.
  apply tx_bind_Ok in H as (s0 & s1 & [-> ->]%gets_Ok & H).
  apply tx_bind_Ok in H as (run & s1 & [Hrun ->]%gets_Ok & H).
  apply tx_bind_Ok in H as (found & s1 & [Hfound ->]%gets_Ok & H). cbv beta in *. subst found.
  destruct run as [run|]; [|by inv_tx]. destruct (find_row s id) as [r|] eqn:Er; [|by inv_tx].
  cbn [mbind option_bind] in H. destruct (find_scope s _) as [scope|] eqn:Es; [|by inv_tx].
  destruct (node_active (nr_status (row r))) eqn:Ea; cbn [negb] in H; [|by inv_tx].
  apply tx_bind_Ok in H as ([] & s1 & H1 & H).
  assert (rtc stmt s s1) as Hs1.
  { destruct (bool_decide (nr_scope_id (row r) = st_root s)).
    - eapply lawful_complete_root; [|done|exact H1]. destruct (wr_deleted _); [done|].
      injection Hrun as ->. apply (so_payload _ Hok).
    - eapply lawful_complete_round_child; [|done|exact H1]. intros c ->. by eapply find_scope_ok. }
  pose proof (complete_scope_rows _ _ _ _ _ _ _ _ _ H1) as Hrows.
  assert (store_ok s1) as Hok1 by (by eapply stmts_ok).
  etrans; [exact Hs1|]. apply tx_bind_Ok in H as (n & s2 & H2 & H).
  assert (rtc stmt s1 s2) as Hs2.
  { eapply (stmts_update_at s1 id r); [done|by rewrite (find_row_rows s)|apply live_id_true| |exact H2].
    apply find_row_Some in Er as (_ & _ & Hl). by apply move_active. }
  etrans; [exact Hs2|].
  assert (store_ok s2) as Hok2 by (by eapply stmts_ok).
  eapply (lawful_bind (when _ _) (fun _ => mret Advanced)); [lawful|lawful|exact Hok2|exact H].
Qed.

(** What [persist_failed_node_run] does to the failed row. *)
Definition failed_row (payload : string) (failure : NodeFailure) (now : Z) (y : WorkflowNodeRun) :
    WorkflowNodeRun :=
  set_finished (Some now) (set_payload (Some (remove_retry_wait payload))
    (set_output (failure_output failure)
       (set_error (Some (failure_message failure)) (set_status Failed y)))).

Lemma persist_failed_Ok id failure payload now s u s' :
  persist_failed_node_run id failure payload now s = Ok (u, s') <->
  exists r, find_row s id = Some r /\
    s' = set_rows ((fun x => if live_id id x then
           on_row (failed_row (merge_error_detail payload (failure_detail s (row r) failure now)
                                 (file_changes failure)) failure now) x else x) <$> st_rows s) s.
Proof.
  unfold persist_failed_node_run. rewrite tx_bind_Ok. split.
  - intros (s0 & s1 & [-> ->]%gets_Ok & H). destruct (find_row s id) as [r|]; [|done].
    exists r. split; [done|]. by inv_tx.
  - intros (r & Hr & ->). exists s, s. split; [by apply gets_Ok|]. rewrite Hr.
    apply tx_bind_Ok. eexists _, _. split; [by apply update_rows_Ok|]. apply tx_ret_Ok. by destruct u.
Qed.

Lemma persist_failed_stmts id failure payload now s r u s' :
  store_ok s -> find_row s id = Some r -> active_row r = true ->
  persist_failed_node_run id failure payload now s = Ok (u, s') -> rtc stmt s s'.
Proof.
  intros Hok Hr Ha (r' & Hr' & ->)%persist_failed_Ok. rewrite Hr in Hr'. simplify_eq.
  eapply (stmts_update_at s id r'); [done|done|apply live_id_true| |by apply update_rows_Ok].
  apply find_row_Some in Hr as (_ & _ & Hl). by apply move_active.
Qed.

Lemma lawful_settle_waits status error now : lawful (settle_retry_waits status error now).
Proof. unfold settle_retry_waits. lawful. Qed.
#[local] Hint Resolve lawful_settle_waits : lawful.

Lemma lawful_fail_round id scope parent error now : lawful (fail_round id scope parent error now).
Proof. unfold fail_round. lawful. Qed.
#[local] Hint Resolve lawful_fail_round : lawful.

Lemma lawful_fail_node id failure propagation now : lawful (fail_node id failure propagation now).
Proof.
  intros s a s' Hok H. unfold fail_node in H.
  apply tx_bind_Ok in H as (s0 & s1 & [-> ->]%gets_Ok & H).
  destruct (find_row s id) as [r|] eqn:Er; [|by inv_tx].
  cbn [mbind option_bind] in H. destruct (find_scope s _) as [scope|] eqn:Es; [|by inv_tx].
  destruct (status_is Running r) eqn:Ea; cbn [negb] in H; [|by inv_tx].
  apply tx_bind_Ok in H as ([] & s1 & H1 & H).
  assert (rtc stmt s s1) as Hs1.
  { eapply persist_failed_stmts; [done|done|by apply running_active|done]. }
  etrans; [exact Hs1|]. assert (store_ok s1) as Hok1 by (by eapply stmts_ok).
  destruct propagation; (eapply lawful_bind; [| |exact Hok1|exact H]; lawful).
Qed.

Lemma lawful_schedule_retry id failure new_id retry now :
  lawful (schedule_node_retry id failure new_id retry now).
Proof.
  intros s a s' Hok H. unfold schedule_node_retry in H.
  apply tx_bind_Ok in H as (run & s1 & [Hrun ->]%gets_Ok & H).
  apply tx_bind_Ok in H as (found & s1 & [Hfound ->]%gets_Ok & H). cbv beta in *. subst found.
  destruct run as [run|]; [|by inv_tx]. destruct (find_row s id) as [r|] eqn:Er; [|by inv_tx].
  destruct (status_is Running r) eqn:Ea; cbn [negb] in H; [|by inv_tx].
  case_match; [by inv_tx|].
  apply tx_bind_Ok in H as ([] & s1 & H1 & H).
  assert (rtc stmt s s1) as Hs1.
  { eapply persist_failed_stmts; [done|done|by apply running_active|done]. }
  etrans; [exact Hs1|]. assert (store_ok s1) as Hok1 by (by eapply stmts_ok).
  apply tx_bind_Ok in H as (n & s2 & H2 & H).
  assert (exists r1, find_row s1 id = Some r1) as [r1 Hr1].
  { apply persist_failed_Ok in H1 as (r' & Hr' & ->). apply find_first_is_Some. simpl.
    apply find_row_Some in Hr' as (Hin & Hid & Hl).
    eexists. split; [apply list_elem_of_fmap; exists r'; split; [reflexivity|done]|].
    unfold live_id, id_is, row_id, live in *. by rewrite bool_decide_true, Hl; simpl; rewrite ?bool_decide_true, ?Hl. }
  assert (rtc stmt s1 s2) as Hs2.
  { eapply (stmts_update_at s1 id r1); [done|done|apply id_is_true| |exact H2].
    apply find_row_Some in Hr1 as (_ & _ & Hl). by apply move_delete. }
  etrans; [exact Hs2|]. assert (store_ok s2) as Hok2 by (by eapply stmts_ok).
  eapply (lawful_get_store (fun s => insert_row (waiting_row s (row r) new_id retry now) ;; mret Scheduled));
    [|exact Hok2|exact H].
  intros s3 _. apply lawful_bind; [by apply lawful_insert_row|lawful].
Qed.

Lemma lawful_begin_retry id now : lawful (begin_node_retry id now).
Proof.
  intros s a s' Hok H. unfold begin_node_retry in H.
  apply tx_bind_Ok in H as (run & s1 & [Hrun ->]%gets_Ok & H).
  apply tx_bind_Ok in H as (found & s1 & [Hfound ->]%gets_Ok & H). cbv beta in *. subst found.
  destruct run as [run|]; [|by inv_tx]. destruct (find_row s id) as [r|] eqn:Er; [|by inv_tx].
  destruct (_ ≫= as_object) as [object|]; [|by inv_tx].
  destruct (_ ≫= retry_wait_from_value) as [wait|]; [|by inv_tx].
  destruct (status_is Running r) eqn:Ea; cbn [negb] in H; [|by inv_tx].
  pose proof (find_row_Some _ _ _ Er) as (_ & _ & Hl).
  destruct (bool_decide _); cbn [negb] in H; [destruct (now <? rw_due_at wait)%Z; [by inv_tx|]|].
  - apply tx_bind_Ok in H as (n & s1 & H1 & H).
    apply tx_bind_Ok in H as (st & s2 & [-> ->]%gets_Ok & H). cbv beta in H.
    destruct (find_row s1 id); inv_tx.
    eapply (stmts_update_at s id r); [done|done|apply id_is_true| |by apply update_rows_Ok].
    apply move_active; [done|by apply running_active|done|done].
  - apply tx_bind_Ok in H as (n & s1 & H1 & H). inv_tx.
    eapply (stmts_update_at s id r); [done|done|apply id_is_true| |by apply update_rows_Ok].
    apply move_active; [done|by apply running_active|done|done].
Qed.

(** ** Boot sweeps and provenance *)

Lemma find_row_map s (g : NodeRow -> NodeRow) id :
  (forall r, row_id (g r) = row_id r /\ live (g r) = live r) ->
  find_row (set_rows (g <$> st_rows s) s) id = g <$> find_row s id.
Proof.
  intros Hg. unfold find_row. simpl. induction (st_rows s) as [|r l IH]; [done|]. csimpl.
  destruct (Hg r) as [Hi Hl]. unfold id_is in *. rewrite Hi, Hl. by destruct (_ && _).
Qed.

Lemma find_row_elem s r : store_ok s -> r ∈ st_rows s -> live r = true -> find_row s (row_id r) = Some r.
Proof.
  intros Hok Hr Hl. destruct (find_row s (row_id r)) as [x|] eqn:E.
  - f_equal. symmetry. by eapply find_row_unique.
  - apply find_first_None in E. rewrite Forall_forall in E. specialize (E r Hr).
    unfold id_is in E. by rewrite bool_decide_true, Hl in E.
Qed.

Lemma lawful_fail_interrupted now id : lawful (fail_interrupted now id).
Proof. unfold fail_interrupted. lawful. Qed.

Lemma lawful_fail_interrupted_rows ids now : lawful (fail_interrupted_node_runs ids now).
Proof. apply lawful_each. intros id. apply lawful_fail_interrupted. Qed.

(** Failing distinct active rows one after the other. *)
Lemma fail_each_stmts failure now (l : list NodeRow) s u s' :
  store_ok s -> NoDup (row_id <$> l) ->
  (forall r, r ∈ l -> exists x, find_row s (row_id r) = Some x /\ active_row x = true) ->
  each (fun r => persist_failed_node_run (row_id r) failure (nr_payload (row r)) now) l s = Ok (u, s') ->
  rtc stmt s s'.
Proof.
  revert s. induction l as [|r l IH]; intros s Hok Hnd Hl H; simpl in H; [by inv_tx|].
  csimpl in Hnd. apply NoDup_cons in Hnd as [Hr Hnd].
  apply tx_bind_Ok in H as ([] & s1 & H1 & H).
  destruct (Hl r) as (x & Hx & Ha); [by left|].
  assert (rtc stmt s s1) as Hs1 by (by eapply persist_failed_stmts).
  etrans; [exact Hs1|]. eapply IH; [by eapply stmts_ok|done| |exact H].
  intros r' Hr'. destruct (Hl r') as (x' & Hx' & Ha'); [by right|].
  apply persist_failed_Ok in H1 as (y & _ & ->). rewrite find_row_map by (intros z; by case_match).
  rewrite Hx'. simpl. eexists. split; [done|].
  destruct (live_id (row_id r) x') eqn:E; [|done]. exfalso. apply live_id_true in E.
  apply find_row_Some in Hx' as (_ & Hid & _). apply Hr. rewrite <-E, Hid. by apply list_elem_of_fmap_2.
Qed.

Lemma lawful_fail_orphaned now : lawful (fail_orphaned_run now).
Proof.
  intros s a s' Hok H. unfold fail_orphaned_run in H.
  apply tx_bind_Ok in H as (s0 & s1 & [-> ->]%gets_Ok & H).
  destruct (negb _) eqn:E; [by inv_tx|].
  apply tx_bind_Ok in H as ([] & s1 & H1 & H).
  assert (rtc stmt s s1) as Hs1.
  { eapply fail_each_stmts; [done| | |exact H1].
    - apply NoDup_fmap_filter, Hok.
    - intros r [[Ha Hl]%andb_true_iff Hr]%list_elem_of_filter. exists r. split; [by apply find_row_elem|done]. }
  etrans; [exact Hs1|]. assert (store_ok s1) as Hok1 by (by eapply stmts_ok).
  eapply lawful_bind; [| |exact Hok1|exact H]; lawful.
Qed.

Lemma lawful_merge_into_row id keys : lawful (merge_into_row id keys).
Proof. unfold merge_into_row. apply lawful_bind; [apply lawful_gets|]. lawful. Qed.
#[local] Hint Resolve lawful_merge_into_row : lawful.

Lemma lawful_checkpoint id snap c e : lawful (record_node_checkpoint id snap c e).
Proof. apply lawful_merge_into_row. Qed.
Lemma lawful_injected id text : lawful (record_node_injected_failure id text).
Proof. apply lawful_merge_into_row. Qed.
Lemma lawful_diagnosis id text : lawful (record_node_ai_diagnosis id text).
Proof. unfold record_node_ai_diagnosis. lawful. Qed.

Lemma lawful_repair id patch : lawful (repair_node_payload id patch).
Proof. unfold repair_node_payload. lawful. Qed.

Lemma lawful_park id completion : lawful (park_node_run id completion).
Proof.
  unfold park_node_run. apply lawful_bind; [lawful|]. intros n.
  apply lawful_if; [apply lawful_not_advanced|apply lawful_ret].
Qed.

(** ** Iteration rounds *)

Lemma lawful_select_payload {B} (k : WorkflowRunPayload -> Tx B) :
  (forall p, typed_pool (variable_pool p) -> lawful (k p)) -> lawful (select_payload ≫= k).
Proof.
  intros Hk. apply (lawful_read (fun p => typed_pool (variable_pool p))); [unfold select_payload; lawful| |done].
  intros s p s' Hok H. unfold select_payload in H.
  apply tx_bind_Ok in H as (run & s1 & [Hr ->]%gets_Ok & [Hp _]%lift_Ok).
  destruct (wr_deleted (st_run s)); subst run; [by injection Hp as <-|].
  by eapply parse_payload_ok, Hp; apply Hok.
Qed.

Lemma lawful_persist p : typed_pool (variable_pool p) -> lawful (persist_run_payload p).
Proof. intros Hp. by apply lawful_set_payload. Qed.
#[local] Hint Resolve lawful_persist : lawful.

Lemma lawful_complete_owner owner out now : lawful (complete_owner_row owner out now).
Proof. unfold complete_owner_row. lawful. Qed.
Lemma lawful_fail_owner owner error now : lawful (fail_owner_row owner error now).
Proof. unfold fail_owner_row. lawful. Qed.
#[local] Hint Resolve lawful_complete_owner lawful_fail_owner : lawful.

Lemma lawful_start_iteration_round owner round item runs now :
  lawful (start_iteration_round owner round item runs now).
Proof.
  unfold start_iteration_round. lawful_step. destruct (negb _); [apply lawful_ret|].
  apply lawful_select_payload. intros p Hp. apply lawful_lift_bind. intros p' Hp'%map_err_Ok.
  apply bind_round_ok in Hp'; [|done]. lawful.
Qed.

Lemma lawful_continue owner p c now :
  typed_pool (variable_pool p) -> lawful (continue_iteration owner p c now).
Proof.
  intros Hp. destruct c; simpl; [apply lawful_lift_bind; intros p' Hp'%map_err_Ok..|lawful].
  - apply bind_round_ok in Hp'; [|done]. lawful.
  - apply write_exposed_ok in Hp'; [|done]. lawful.
Qed.

Lemma lawful_settle_iteration owner round entry c now :
  lawful (settle_iteration_round owner round entry c now).
Proof.
  unfold settle_iteration_round. lawful_step. destruct (negb _); [apply lawful_ret|].
  apply lawful_select_payload. intros p Hp.
  destruct (record_round_outcome p owner round entry) as [p'|] eqn:E; [|apply lawful_ret].
  apply lawful_bind; [|lawful]. apply lawful_continue.
  unfold record_round_outcome in E. cbv zeta in E. destruct (reject_if _ _); [|done].
  by injection E as <-.
Qed.

Lemma lawful_complete_iteration id owner exposed out now :
  lawful (complete_iteration_node id owner exposed out now).
Proof.
  unfold complete_iteration_node. apply lawful_bind; [apply lawful_gets|]. intros [r|]; [|apply lawful_ret].
  destruct (negb _); [apply lawful_ret|]. apply lawful_select_payload. intros p Hp.
  apply lawful_lift_bind. intros p' Hp'%map_err_Ok. apply write_exposed_ok in Hp'; [|done]. lawful.
Qed.

(** ** Loop rounds *)

Definition round_to_start_ok (r : LoopRoundToStart) : Prop := typed_pool (round_pool (lr_state r)).

Lemma lawful_insert_round_row r : round_to_start_ok r -> lawful (insert_round (round_row r)).
Proof. intros Hr. by apply lawful_insert_round. Qed.
#[local] Hint Resolve lawful_insert_round_row : lawful.

Lemma lawful_start_loop_round r now : round_to_start_ok r -> lawful (start_loop_round r now).
Proof. intros Hr. unfold start_loop_round. lawful. Qed.

Lemma lawful_start_scope_ready scope runs now : lawful (start_scope_ready_nodes scope runs now).
Proof. unfold start_scope_ready_nodes. lawful. Qed.

Lemma lawful_request_exit scope id out now : lawful (request_exit scope id out now).
Proof.
  unfold request_exit. apply lawful_get_store. intros s Hok.
  destruct (find_round s scope) as [c|] eqn:Ec; [|lawful].
  assert (round_state_ok (sc_state c)) as Hc.
  { apply find_first_Some in Ec as [Hc _]. by apply (so_round_state s Hok). }
  apply lawful_lift_bind. intros st Hst. destruct (round_exit st); [lawful|].
  apply lawful_bind; [lawful|]. intros n. apply lawful_bind; [lawful|]. intros _.
  apply lawful_bind; [|lawful]. apply lawful_set_round_state; [selects|]. simpl.
  destruct (sc_state c); simpl in *; by inv_ok.
Qed.

Definition advance_ok (advance : LoopRoundAdvance) : Prop :=
  match advance with ContinueRound next => round_to_start_ok next | _ => True end.

Lemma lawful_settle_round scope status : lawful (settle_round scope status).
Proof. unfold settle_round. lawful. Qed.
#[local] Hint Resolve lawful_settle_round lawful_request_exit : lawful.

Lemma lawful_succeed_round scope run parent out reason now :
  payload_ok (wr_payload run) -> lawful (succeed_round scope run parent out reason now).
Proof.
  intros Hp. unfold succeed_round. apply lawful_bind; [lawful|]. intros _.
  apply lawful_lift_bind. intros p Hd. apply lawful_lift_bind. intros pool Hpool%map_err_Ok.
  apply publish_ok in Hpool; [|destruct (wr_payload run); simpl in *; by inv_ok].
  apply lawful_bind; [lawful|]. intros n. apply lawful_bind; [|lawful].
  intros s a s' Hok H. inv_tx. apply rtc_once, stmt_run. split_and!; [done|done|by left|done].
Qed.

Lemma lawful_fail_loop_round scope parent error now : lawful (fail_loop_round scope parent error now).
Proof. unfold fail_loop_round. lawful. Qed.
#[local] Hint Resolve lawful_succeed_round lawful_fail_loop_round : lawful.

Lemma lawful_advance scope advance now : advance_ok advance -> lawful (advance_loop_round scope advance now).
Proof.
  intros Ha. unfold advance_loop_round. apply lawful_select_run. intros run Hrun. apply lawful_get_store.
  intros s Hok. destruct run as [run|]; [|lawful]. specialize (Hrun run eq_refl).
  destruct (find_round s scope) as [c|]; [|lawful].
  destruct (Some c ≫= _) as [parent|]; [|lawful]. destruct (negb _); [lawful|].
  destruct (_ && _); [lawful|]. apply lawful_bind; [|lawful].
  unfold advance_round. destruct advance; simpl in *; lawful.
Qed.

(** ** Run transitions *)

Lemma lawful_finish out now : lawful (finish_run out now).
Proof.
  apply lawful_run_status; [done|]. intros run H%bool_decide_eq_true. right.
  apply elem_of_cons in H as [->|H%list_elem_of_singleton]; [by left|by right].
Qed.

Lemma lawful_cancel now : lawful (cancel_run now).
Proof.
  unfold cancel_run. apply lawful_select_run_in; [lawful|]. intros run Hp.
  destruct (negb _) eqn:E; [apply lawful_in_any; lawful|]. apply negb_false_iff, bool_decide_eq_true in E.
  apply lawful_in_bind; [lawful| |].
  { apply keeps_bind; [apply keeps_update_rows|intros; apply keeps_ret]. }
  intros _. apply lawful_in_bind; [lawful|apply keeps_update_rows|]. intros n.
  apply lawful_in_then; [|lawful]. apply lawful_in_run. intros r Hr _. split_and!; [done|done|right; by rewrite Hr|done].
Qed.

Lemma lawful_restart fresh : lawful (restart_run fresh).
Proof.
  unfold restart_run. apply lawful_select_run_in; [lawful|]. intros run Hrun.
  destruct (bool_decide _) eqn:E; [apply lawful_in_any; lawful|]. apply bool_decide_eq_false in E.
  apply lawful_in_bind; [lawful|apply keeps_update_rows|]. intros n. apply lawful_in_then.
  { apply lawful_in_run. intros r Hr _. split_and!; [done|done|right; by rewrite Hr|done]. }
  intros _. apply lawful_bind; [|unfold restart_root_scope; lawful].
  unfold reset_payload. destruct (wr_payload run); [lawful..|]. apply lawful_set_payload. by apply reset_ok.
Qed.

Lemma lawful_resume cleared : lawful (resume_from_failure cleared).
Proof.
  unfold resume_from_failure. apply lawful_select_run_in; [lawful|]. intros run Hrun.
  destruct (negb (run_status_in _ _)) eqn:E; simpl; [apply lawful_in_any; lawful|].
  apply negb_false_iff, bool_decide_eq_true in E.
  destruct (bool_decide _); [apply lawful_in_any; lawful|].
  apply lawful_in_bind; [apply lawful_gets|apply keeps_gets|]. intros s.
  destruct (existsb _ _); [apply lawful_in_any; lawful|].
  apply lawful_in_bind; [lawful|apply keeps_update_rows|]. intros n.
  apply lawful_in_bind; [apply lawful_gets|apply keeps_gets|]. intros s1.
  apply lawful_in_bind; [lawful|apply keeps_update_rounds|]. intros _.
  apply lawful_in_bind; [lawful|apply keeps_update_rows|]. intros n1.
  apply lawful_in_bind.
  - unfold clear_payload. destruct (wr_payload run); [lawful..|]. apply lawful_set_payload.
    by apply resume_payload_ok.
  - unfold clear_payload. destruct (wr_payload run); [apply keeps_ret|apply keeps_throw|].
    apply keeps_set_payload.
  - intros _. apply lawful_in_then; [|lawful]. apply lawful_in_run. intros r Hr _.
    split_and!; [done|done| |done]. right. rewrite Hr.
    apply elem_of_cons in E as [->|E%list_elem_of_singleton]; [right; by left|by right; right].
Qed.

Lemma lawful_switch payload : payload_ok payload -> lawful (switch_run_snapshot payload).
Proof. intros Hp. unfold switch_run_snapshot. lawful. Qed.

Lemma lawful_write_input input payload : payload_ok payload -> lawful (write_input input payload).
Proof. intros Hp. apply lawful_update_run. intros run _. split_and!; [done|done|by left|done]. Qed.

Lemma lawful_update_input input variables : lawful (update_run_input input variables).
Proof.
  unfold update_run_input. apply lawful_select_run. intros run Hrun. destruct run as [run|]; [|lawful].
  specialize (Hrun run eq_refl). destruct (negb _); [lawful|].
  destruct (wr_payload run) as [|text|p]; [|lawful|].
  - apply lawful_bind; [by apply lawful_write_input|lawful].
  - destruct (update_task_input p variables) as [p1|[]] eqn:E; [|lawful..].
    apply update_input_ok in E; [|done]. apply lawful_lift_bind. intros p2 Hp2%map_err_Ok.
    apply mirror_ok in Hp2; [|done]. apply lawful_bind; [by apply lawful_write_input|lawful].
Qed.

Lemma lawful_soft_delete b : lawful (soft_delete_run b).
Proof. unfold soft_delete_run. lawful. Qed.
End ops.
