(* ===== verification/StoreCalls.v ===== *)
(** * Histories of the run repository

    Every operation of the repository as one call; a history is any sequence of calls, each one a
    transaction that commits or is rolled back.  The theorems hold after every history: the
    schema of the tables, the finality of a node's outcome, and the refinement of the whole
    repository to a small machine of node slots. *)

From stdpp Require Import relations fin_maps.
From S2P Require Import Prelude RustStr Order Json NodeTypes VariablePool Retry.
From S2P Require Import Iteration RunPayload Resume Store StorePayload StoreNodes StoreRun.
From S2P Require Import StoreRun StoreLaws StoreOps.
Local Open Scope ora_scope.

Inductive StoreCall : Type :=
| CallStart (start : NodeRunToStart) (now : Z)
| CallStartReady (runs : list NodeRunToStart) (now : Z)
| CallTransition (id : string) (from to : WorkflowNodeStatus)
| CallBind (id session : string) (matches : bool)
| CallComplete (id : string) (output : option string) (structured : option Value)
    (stop_reason : option string) (changes : list FileChange) (patch : option Value) (now : Z)
| CallFail (id : string) (failure : NodeFailure) (propagation : FailurePropagation) (now : Z)
| CallScheduleRetry (id : string) (failure : NodeFailure) (new_id : string)
    (retry : NodeRetryToSchedule) (now : Z)
| CallBeginRetry (id : string) (now : Z)
| CallFailInterrupted (ids : list string) (now : Z)
| CallFailOrphaned (now : Z)
| CallCheckpoint (id snapshot_id : string) (checkpoint error : option string)
| CallInjected (id text : string)
| CallDiagnosis (id text : string)
| CallRepair (id : string) (patch : Value)
| CallPark (id : string) (completion : Value)
| CallStartIteration (owner : string) (round : N) (item : Value) (runs : list NodeRunToStart) (now : Z)
| CallSettleIteration (owner : string) (round : N) (entry : RoundOutcome)
    (continuation : IterationRoundContinuation) (now : Z)
| CallCompleteIteration (id owner : string) (exposed : list (string * Value))
    (output : option string) (now : Z)
| CallStartLoop (round : LoopRoundToStart) (now : Z)
| CallStartScope (scope : string) (runs : list NodeRunToStart) (now : Z)
| CallAdvanceLoop (scope : string) (advance : LoopRoundAdvance) (now : Z)
| CallFinish (output : option string) (now : Z)
| CallCancel (now : Z)
| CallRestart (fresh : string)
| CallResume (cleared : list string)
| CallSwitch (payload : Column WorkflowRunPayload)
| CallUpdateInput (input : option string) (variables : gmap string Value)
| CallDelete (session_running : bool).

Definition discard {A} (m : Tx A) : Tx unit := m ;; mret tt.

(** The run as [create_run] inserts it: pending, without rows, with the root scope its trigger
    creates. *)
Definition new_store (run_id workflow_id : string) (input : option string)
    (payload : Column WorkflowRunPayload) : RunStore :=
  {| st_run := {| wr_id := run_id; wr_workflow_id := workflow_id; wr_status := RunPending;
                  wr_current_nodes := []; wr_input := input; wr_output := None; wr_error := None;
                  wr_payload := payload; wr_started_at := None; wr_finished_at := None;
                  wr_deleted := false |};
     st_rows := []; st_root := "root:" +:+ run_id; st_old_roots := []; st_rounds := [] |}.

Section calls.
Context {debug : DebugText} {json : JsonText} {sqlite : SqliteJson} {typing : PoolTyping}.

Definition perform (c : StoreCall) : Tx unit :=
  match c with
  | CallStart start now => discard (start_run start now)
  | CallStartReady runs now => start_ready_nodes runs now
  | CallTransition id from to => discard (transition_node_run_status id from to)
  | CallBind id session matches => discard (bind_node_run_session id session matches)
  | CallComplete id out str reason changes patch now =>
      discard (complete_node id out str reason changes patch now)
  | CallFail id failure propagation now => discard (fail_node id failure propagation now)
  | CallScheduleRetry id failure new_id retry now =>
      discard (schedule_node_retry id failure new_id retry now)
  | CallBeginRetry id now => discard (begin_node_retry id now)
  | CallFailInterrupted ids now => fail_interrupted_node_runs ids now
  | CallFailOrphaned now => fail_orphaned_run now
  | CallCheckpoint id snap checkpoint error => record_node_checkpoint id snap checkpoint error
  | CallInjected id text => record_node_injected_failure id text
  | CallDiagnosis id text => record_node_ai_diagnosis id text
  | CallRepair id patch => discard (repair_node_payload id patch)
  | CallPark id completion => discard (park_node_run id completion)
  | CallStartIteration owner round item runs now =>
      discard (start_iteration_round owner round item runs now)
  | CallSettleIteration owner round entry c now =>
      discard (settle_iteration_round owner round entry c now)
  | CallCompleteIteration id owner exposed out now =>
      discard (complete_iteration_node id owner exposed out now)
  | CallStartLoop round now => start_loop_round round now
  | CallStartScope scope runs now => start_scope_ready_nodes scope runs now
  | CallAdvanceLoop scope advance now => discard (advance_loop_round scope advance now)
  | CallFinish out now => finish_run out now
  | CallCancel now => discard (cancel_run now)
  | CallRestart fresh => discard (restart_run fresh)
  | CallResume cleared => discard (resume_from_failure cleared)
  | CallSwitch payload => discard (switch_run_snapshot payload)
  | CallUpdateInput input variables => discard (update_run_input input variables)
  | CallDelete b => discard (soft_delete_run b)
  end.

(** What the callers guarantee: a status flip starts from an active status, and the pools they
    hand over are well typed. *)
Definition call_ok (c : StoreCall) : Prop :=
  match c with
  | CallTransition _ from _ => node_active from = true
  | CallStartLoop round _ => round_to_start_ok round
  | CallAdvanceLoop _ advance _ => advance_ok advance
  | CallSwitch payload => payload_ok payload
  | _ => True
  end.

Definition serve (s : RunStore) (c : StoreCall) : RunStore := (commit (perform c) s).2.
Definition serve_all (s : RunStore) (calls : list StoreCall) : RunStore := fold_left serve calls s.

Lemma lawful_discard {A} (m : Tx A) : lawful m -> lawful (discard m).
Proof. intros Hm. unfold discard. apply lawful_bind; [done|]. intros. apply lawful_ret. Qed.

Lemma perform_lawful c : call_ok c -> lawful (perform c).
Proof.
  destruct c; simpl; intros Hc; try apply lawful_discard;
    eauto using lawful_start_run, lawful_start_ready_nodes, lawful_transition, lawful_bind_session,
      lawful_complete_node, lawful_fail_node, lawful_schedule_retry, lawful_begin_retry,
      lawful_fail_interrupted_rows, lawful_fail_orphaned, lawful_checkpoint, lawful_injected,
      lawful_diagnosis, lawful_repair, lawful_park, lawful_start_iteration_round,
      lawful_settle_iteration, lawful_complete_iteration, lawful_start_loop_round,
      lawful_start_scope_ready, lawful_advance, lawful_finish, lawful_cancel, lawful_restart,
      lawful_resume, lawful_switch, lawful_update_input, lawful_soft_delete.
Qed.

Lemma serve_stmts s c : store_ok s -> call_ok c -> rtc stmt s (serve s c).
Proof.
  intros Hok Hc. unfold serve, commit. destruct (perform c s) as [[[] s']|] eqn:E; [|done].
  by eapply perform_lawful.
Qed.

Lemma serve_all_stmts s calls : store_ok s -> Forall call_ok calls -> rtc stmt s (serve_all s calls).
Proof.
  intros Hok Hc. revert s Hok. induction Hc as [|c calls Hc Hcalls IH]; intros s Hok; [done|].
  pose proof (serve_stmts s c Hok Hc) as Hs. simpl. etrans; [exact Hs|]. apply IH. by eapply stmts_ok.
Qed.

Lemma new_store_ok run_id workflow_id input payload :
  payload_ok payload -> store_ok (new_store run_id workflow_id input payload).
Proof.
  intros Hp. split; simpl; try apply NoDup_nil_2; try done; try by intros ? ?%elem_of_nil.
  by apply NoDup_singleton.
Qed.

(** ** Outcomes are final *)

Definition settled (r : NodeRow) : bool := row_deleted r || negb (active_row r).

(** What a settled row keeps. *)
Definition settled_as (r r' : NodeRow) : Prop :=
  same_row r r' /\ outcome r' = outcome r /\ (row_deleted r = true -> r' = r).

Lemma settled_as_settled r r' : settled r = true -> settled_as r r' -> settled r' = true.
Proof.
  unfold settled, active_row. intros Hs (Hsame & Ho & Hd). unfold outcome in Ho. injection Ho as -> _ _ _ _.
  apply orb_true_iff in Hs as [Hs|Hs]; apply orb_true_iff; [left|by right]. by rewrite Hd.
Qed.

Lemma settled_as_trans r1 r2 r3 : settled_as r1 r2 -> settled_as r2 r3 -> settled_as r1 r3.
Proof.
  intros (S12 & O12 & D12) (S23 & O23 & D23). unfold settled_as, same_row in *.
  destruct_and!. split_and!; try congruence. intros Hd. rewrite (D12 Hd) in *. by apply D23.
Qed.

Lemma move_settled r r' : settled r = true -> row_move r r' -> settled_as r r'.
Proof.
  intros Hs Hm. pose proof (row_move_same _ _ Hm) as Hsame. unfold settled, live in *. split; [done|].
  destruct Hm as [|r' Hl Ha _ _|r' Hl _ _ Ho|Hl]; unfold live in *.
  - done.
  - rewrite Ha in Hs. by destruct (row_deleted r).
  - split; [done|]. by destruct (row_deleted r).
  - split; [done|]. by destruct (row_deleted r).
Qed.

Lemma stmts_settled s s' r :
  rtc stmt s s' -> r ∈ st_rows s -> settled r = true -> exists r', r' ∈ st_rows s' /\ settled_as r r'.
Proof.
  intros Hst. revert r. induction Hst as [s|s s1 s' H1 _ IH]; intros r Hr Hs.
  { exists r. split; [done|]. by split_and!. }
  assert (exists r1, r1 ∈ st_rows s1 /\ settled_as r r1) as (r1 & Hr1 & H01).
  { assert (settled_as r r) as Hrefl by by split_and!.
    destruct H1 as [l1 x x' l2 Hrows Hm|x _|l1 c c' l2 _ _|c _|scope _|run _]; simpl;
      [|exists r; split; [set_solver|done]|by exists r..].
    rewrite Hrows in Hr. apply elem_of_app in Hr as [Hr|[->|Hr]%elem_of_cons].
    - exists r. split; [set_solver|done].
    - exists x'. split; [set_solver|by apply move_settled].
    - exists r. split; [set_solver|done]. }
  destruct (IH r1 Hr1) as (r' & Hr' & H12); [by eapply settled_as_settled|].
  exists r'. split; [done|by eapply settled_as_trans].
Qed.

(** ** The slot machine *)

(** A run as its scheduler sees it: the status of the run and of every occupied slot, a slot
    being a node of a scope in a round. *)
Record SlotMachine : Type := {
  phase : WorkflowRunStatus;
  slots : gmap (string * string * option N) WorkflowNodeStatus;
}.

Inductive slot_step (m : SlotMachine) : SlotMachine -> Prop :=
| slot_open k : slots m !! k = None ->
    slot_step m {| phase := phase m; slots := <[k := Running]> (slots m) |}
| slot_change k st st' : slots m !! k = Some st -> node_active st = true ->
    slot_step m {| phase := phase m; slots := <[k := st']> (slots m) |}
| slot_clear k st : slots m !! k = Some st ->
    slot_step m {| phase := phase m; slots := delete k (slots m) |}
| slot_phase p : run_status_step (phase m) p ->
    slot_step m {| phase := p; slots := slots m |}.

Definition slot_entry (r : NodeRow) : (string * string * option N) * WorkflowNodeStatus :=
  (slot r, nr_status (row r)).
Definition slots_of (s : RunStore) : SlotMachine :=
  {| phase := wr_status (st_run s); slots := list_to_map (slot_entry <$> live_rows s) |}.

Lemma slot_entry_keys l : (slot_entry <$> l).*1 = slot <$> l.
Proof. rewrite <-list_fmap_compose. done. Qed.

Lemma slots_perm l k :
  NoDup (slot <$> l) -> l ≡ₚ k -> (list_to_map (slot_entry <$> l) : gmap _ _) = list_to_map (slot_entry <$> k).
Proof.
  intros Hnd Hp. apply list_to_map_proper; [by rewrite slot_entry_keys|by rewrite Hp].
Qed.

(** The live rows around one row. *)
Lemma live_middle l1 (r : NodeRow) l2 :
  filter (fun r => live r = true) (l1 ++ r :: l2) ≡ₚ
  (if live r then [r] else []) ++ filter (fun r => live r = true) (l1 ++ l2).
Proof.
  rewrite <-Permutation_middle, filter_cons. by destruct (live r).
Qed.

Lemma stmt_slots s s' : store_ok s -> stmt s s' -> rtc slot_step (slots_of s) (slots_of s').
Proof.
  intros Hok Hst. pose proof (stmt_ok _ _ Hst Hok) as Hok'.
  pose proof (so_slots _ Hok) as Hnd. pose proof (so_slots _ Hok') as Hnd'.
  destruct Hst as [l1 r r' l2 Hrows Hm|r Hi|l1 c c' l2 _ _|c _|scope _|run (_ & _ & Hp & _)];
    try done; last by apply rtc_once, (slot_phase (slots_of s)).
  - unfold slots_of, live_rows in *. simpl in *. rewrite Hrows in *.
    pose proof (row_move_same _ _ Hm) as (_ & Hslot & _).
    rewrite !(slots_perm _ _ Hnd (live_middle l1 r l2)), !(slots_perm _ _ Hnd' (live_middle l1 r' l2)).
    rewrite (live_middle l1 r l2) in Hnd. clear Hnd' Hok' Hrows Hok.
    set (rest := filter (fun r => live r = true) (l1 ++ l2)) in *.
    destruct (live r) eqn:Hl.
    + csimpl in *. apply NoDup_cons in Hnd as [Hnot _].
      assert ((list_to_map (slot_entry <$> rest) : gmap _ _) !! slot r = None) as Hnone.
      { apply not_elem_of_list_to_map_1. by rewrite slot_entry_keys. }
      destruct Hm as [|r' _ Ha _ Hl'|r' _ _ Hl' Ho|_].
      * by rewrite Hl.
      * rewrite Hl'. simpl. rewrite Hslot. apply rtc_once.
        rewrite <-(insert_insert_eq _ (slot r) (nr_status (row r')) (nr_status (row r))).
        by eapply (slot_change {| phase := _; slots := _ |}); [apply lookup_insert_eq|].
      * rewrite Hl'. simpl. rewrite Hslot. unfold outcome in Ho. by injection Ho as -> _ _ _ _.
      * simpl. apply rtc_once. rewrite <-(delete_insert_id _ (slot r) (nr_status (row r)) Hnone) at 2.
        by eapply (slot_clear {| phase := _; slots := _ |}), lookup_insert_eq.
    + by destruct Hm; rewrite ?Hl in *.
  - destruct Hi as [_ _ Hfree Hrun Hlive]. unfold slots_of, live_rows in *. simpl in *.
    assert (filter (fun r => live r = true) (st_rows s ++ [r]) ≡ₚ r :: filter (fun r => live r = true) (st_rows s)) as Hperm.
    { rewrite filter_app, filter_cons_True, filter_nil by done. symmetry. apply Permutation_cons_append. }
    rewrite (slots_perm _ _ Hnd' Hperm). csimpl. rewrite Hrun. apply rtc_once.
    apply (slot_open {| phase := _; slots := _ |}). apply not_elem_of_list_to_map_1.
    by rewrite slot_entry_keys.
Qed.

Lemma stmts_slots s s' : store_ok s -> rtc stmt s s' -> rtc slot_step (slots_of s) (slots_of s').
Proof.
  intros Hok Hst. induction Hst as [|s s1 s' H1 _ IH]; [done|].
  etrans; [by eapply stmt_slots|]. apply IH. by eapply stmt_ok.
Qed.

(** ** Late callbacks *)

(** The calls an executor, a timer or a person makes about one attempt. *)
Inductive callback_on (id : string) : StoreCall -> Prop :=
| on_complete out str reason changes patch now :
    callback_on id (CallComplete id out str reason changes patch now)
| on_fail failure propagation now : callback_on id (CallFail id failure propagation now)
| on_schedule failure new_id retry now : callback_on id (CallScheduleRetry id failure new_id retry now)
| on_wake now : callback_on id (CallBeginRetry id now)
| on_park completion : callback_on id (CallPark id completion)
| on_bind session matches : callback_on id (CallBind id session matches)
| on_repair patch : callback_on id (CallRepair id patch)
| on_flip from to : node_active from = true -> callback_on id (CallTransition id from to).

Lemma update_rows_none p f s :
  (forall r, r ∈ st_rows s -> p r = false) -> update_rows p f s = Ok (0, s).
Proof.
  intros Hp. unfold update_rows. f_equal. f_equal.
  - induction (st_rows s) as [|r l IH]; [done|]. rewrite filter_cons_False by (rewrite Hp; [done|by left]).
    apply IH. intros x Hx. apply Hp. by right.
  - destruct s as [run rows root olds rounds]. unfold set_rows. simpl in *. f_equal.
    induction rows as [|r l IH]; [done|]. csimpl. rewrite Hp by (by left). f_equal.
    apply IH. intros x Hx. apply Hp. by right.
Qed.

(** The row [id] is not live and active. *)
Definition attempt_over (s : RunStore) (id : string) : Prop :=
  forall r, r ∈ st_rows s -> live_id id r = true -> active_row r = false.

Lemma attempt_over_find s id r :
  attempt_over s id -> find_row s id = Some r -> active_row r = false.
Proof.
  intros Ho (Hr & Hid & Hl)%find_row_Some. apply (Ho r Hr). unfold live_id, id_is. by rewrite Hid, Hl, bool_decide_true.
Qed.

Lemma inactive_not status r : node_active status = true -> active_row r = false -> status_is status r = false.
Proof.
  unfold active_row, status_is. intros Hs Hr. apply bool_decide_eq_false. intros Heq. congruence.
Qed.

Lemma guarded_update_none s id status f :
  node_active status = true -> attempt_over s id ->
  update_rows (fun r => live_id id r && status_is status r) f s = Ok (0, s).
Proof.
  intros Hs Ho. apply update_rows_none. intros r Hr. destruct (live_id id r) eqn:E; [|done].
  simpl. apply inactive_not; [done|by apply Ho].
Qed.

Lemma callback_inert s id c : attempt_over s id -> callback_on id c -> serve s c = s.
Proof.
  intros Ho Hc. unfold serve, commit.
  enough (forall s', perform c s = Ok (tt, s') -> s' = s) as Henough.
  { destruct (perform c s) as [[[] s']|] eqn:E; [by apply Henough|done]. }
  intros s' H.
  assert (forall r, find_row s id = Some r -> status_is Running r = false /\ node_active (nr_status (row r)) = false) as Hr.
  { intros r Hr%attempt_over_find; [|done]. split; [by apply inactive_not|done]. }
  destruct Hc; simpl in H; unfold discard in H; apply tx_bind_Ok in H as (a & s1 & H & Hret);
    apply tx_ret_Ok in Hret as [_ <-].
  - unfold complete_node, get_store, select_run, select_row in H. inv_tx.
    destruct (if wr_deleted (st_run s) then _ else _) as [run|]; [|by inv_tx].
    destruct (find_row s id) as [r|]; [|by inv_tx]. cbn [mbind option_bind] in H.
    destruct (find_scope s _); [|by inv_tx]. destruct (Hr r eq_refl) as [Hst Hact]. rewrite Hact in H. simpl in H. by inv_tx.
  - unfold fail_node, get_store in H. inv_tx.
    destruct (find_row s id) as [r|]; [|by inv_tx]. cbn [mbind option_bind] in H.
    destruct (find_scope s _); [|by inv_tx]. destruct (Hr r eq_refl) as [Hst Hact]. rewrite Hst in H. simpl in H. by inv_tx.
  - unfold schedule_node_retry, select_run, select_row in H. inv_tx.
    destruct (if wr_deleted (st_run s) then _ else _) as [run|]; [|by inv_tx].
    destruct (find_row s id) as [r|]; [|by inv_tx]. destruct (Hr r eq_refl) as [Hst Hact]. rewrite Hst in H. simpl in H. by inv_tx.
  - unfold begin_node_retry, select_run, select_row in H. inv_tx.
    destruct (if wr_deleted (st_run s) then _ else _) as [run|]; [|by inv_tx].
    destruct (find_row s id) as [r|]; [|by inv_tx].
    destruct (_ ≫= as_object); [|by inv_tx]. destruct (_ ≫= retry_wait_from_value); [|by inv_tx].
    destruct (Hr r eq_refl) as [Hst Hact]. rewrite Hst in H. simpl in H. by inv_tx.
  - unfold park_node_run in H. apply tx_bind_Ok in H as (n & s2 & H1 & H).
    rewrite guarded_update_none in H1 by done. simplify_eq. rewrite bool_decide_true in H by done.
    unfold not_advanced in H. by inv_tx.
  - unfold bind_node_run_session, select_run, select_row in H. inv_tx.
    destruct (if wr_deleted (st_run s) then _ else _) as [run|]; [|by inv_tx].
    destruct (find_row s id) as [r|]; [|by inv_tx]. destruct (negb matches); [by inv_tx|].
    destruct (Hr r eq_refl) as [Hst Hact]. rewrite Hst in H. simpl in H. by inv_tx.
  - unfold repair_node_payload in H. apply tx_bind_Ok in H as (n & s2 & H1 & H).
    rewrite guarded_update_none in H1 by done. simplify_eq. by inv_tx.
  - unfold transition_node_run_status in H. apply tx_bind_Ok in H as (n & s2 & H1 & H).
    rewrite guarded_update_none in H1 by done. simplify_eq. rewrite bool_decide_true in H by done.
    unfold not_advanced in H. by inv_tx.
Qed.

(** ** Properties *)

(** After every history of repository calls on a new run the tables are well formed: row and
    scope ids are unique, a live row is alone in its slot (scope, node, round), every round of a
    Loop has its own index between 1 and 100, a Loop has at most one active round, every row
    belongs to a scope of the run and every round to a Loop row, and, when the pools handed to the
    store are typed, every value in a stored pool has the type its declaration gives it. *)
Theorem store_schema run_id workflow_id input payload calls :
  payload_ok payload -> Forall call_ok calls ->
  store_ok (serve_all (new_store run_id workflow_id input payload) calls).
Proof.
  intros Hp Hc. pose proof (new_store_ok run_id workflow_id input payload Hp) as Hok.
  eapply stmts_ok; [by apply serve_all_stmts|done].
Qed.

(** A node's outcome is final.  Once a row is terminal or cleared, no history of calls changes
    its identity, status, output, error or times; a cleared row does not change at all; and every
    later callback about it, a completion, a failure, a retry, a wake-up, a parking, a session
    binding or a status flip, leaves the whole store as it is. *)
Theorem outcomes_final s calls r :
  store_ok s -> Forall call_ok calls -> r ∈ st_rows s -> settled r = true ->
  let t := serve_all s calls in
  (exists r', r' ∈ st_rows t /\ settled_as r r') /\
  (forall c, callback_on (row_id r) c -> serve t c = t).
Proof.
  intros Hok Hc Hr Hs t. pose proof (serve_all_stmts s calls Hok Hc) as Hst. fold t in Hst.
  destruct (stmts_settled s t r Hst Hr Hs) as (r' & Hr' & Has). split; [by exists r'|].
  intros c. apply callback_inert. intros x Hx Hlive.
  pose proof (stmts_ok _ _ Hst Hok) as Hokt. assert (x = r') as ->.
  { eapply row_unique; [done|done|done|]. apply live_id_true in Hlive.
    destruct Has as ((Hid & _) & _). congruence. }
  pose proof (settled_as_settled _ _ Hs Has) as Hs'. unfold settled in Hs'.
  unfold live_id, live in Hlive. apply andb_true_iff in Hlive as [_ Hl%negb_true_iff].
  rewrite Hl in Hs'. by apply negb_true_iff in Hs'.
Qed.

(** C10: the repository refines the slot machine.  Seen as the status of the run and of its occupied
    slots, every history is a sequence of steps that open a free slot as running, change the
    status of a slot that is pending or running, clear a slot, or move the run along its life
    cycle: no call re-dispatches an occupied slot and none revives a terminal node. *)
Theorem store_refines_slots s calls :
  store_ok s -> Forall call_ok calls -> rtc slot_step (slots_of s) (slots_of (serve_all s calls)).
Proof. intros Hok Hc. apply stmts_slots; [done|]. by apply serve_all_stmts. Qed.
End calls.

(** ** A concrete history *)

Section sample.
#[local] Instance typed_pools : PoolTyping := {| pools_typed := True |}.
#[local] Instance plain_debug : DebugText := {| debug_str := quoted; debug_strs := join ", " |}.
#[local] Instance no_text : JsonText := {| json_to_string _ := ""; json_from_str _ := None |}.
#[local] Instance no_sql : SqliteJson :=
  {| json_valid _ := false; remove_retry_wait t := t; has_retry_wait _ := false;
     json_patch a _ := a; injects_failures _ := true |}.

Definition sample_node (id node type : string) : NodeRunToStart :=
  {| ts_id := id; ts_scope_id := "root:run"; ts_node_id := node; ts_node_type := type;
     ts_input := None; ts_iteration := None |}.
Definition sample_store : RunStore := new_store "run" "workflow" None Null.

(** The start node runs and completes; two agents start, one fails and takes the run with it. *)
Definition sample_history : list StoreCall :=
  [CallStart (sample_node "r1" "begin" "start") 10;
   CallComplete "r1" None None None [] None 11;
   CallStartReady [sample_node "r2" "a" "agent"; sample_node "r3" "b" "agent"] 12;
   CallFail "r2" (new_failure PromptTemplate "boom") PropagateRun 13].

Lemma sample_ok : store_ok sample_store.
Proof. by apply new_store_ok. Qed.
Lemma sample_calls_ok : Forall call_ok sample_history.
Proof. by repeat constructor. Qed.

Lemma store_schema_witness :
  length (st_rows (serve_all sample_store sample_history)) = 3 /\
  store_ok (serve_all sample_store sample_history).
Proof.
  split; [vm_compute; reflexivity|]. apply (store_schema "run" "workflow" None Null sample_history); [done|].
  apply sample_calls_ok.
Defined.

Definition after_failure : RunStore := serve_all sample_store sample_history.
Definition failed_row : NodeRow :=
  default (started_row "" (sample_node "" "" "") 0) (find_row after_failure "r2").

Lemma outcomes_final_witness :
  nr_status (row failed_row) = Failed /\
  let t := serve_all after_failure [CallCancel 14; CallResume ["a"]] in
  (exists r', r' ∈ st_rows t /\ settled_as failed_row r') /\
  (forall c, callback_on (row_id failed_row) c -> serve t c = t).
Proof.
  split; [vm_compute; reflexivity|]. apply outcomes_final.
  - eapply stmts_ok; [apply serve_all_stmts; [apply sample_ok|apply sample_calls_ok]|apply sample_ok].
  - by repeat constructor.
  - apply (find_row_Some _ "r2"). vm_compute. reflexivity.
  - vm_compute. reflexivity.
Defined.

Lemma store_refines_slots_witness :
  slots_of (serve_all sample_store sample_history) <> slots_of sample_store /\
  rtc slot_step (slots_of sample_store) (slots_of (serve_all sample_store sample_history)).
Proof.
  split; [intros H; apply (f_equal phase) in H; vm_compute in H; discriminate H|].
  apply store_refines_slots; [apply sample_ok|apply sample_calls_ok].
Defined.
End sample.
