(* ===== verification/StoreSteps.v ===== *)
(** * Exact effects of root-scope transitions

    What a completion, a failure, a wave of starts and the end of a run do to the rows of the
    root scope and to the run's status: the facts the scheduler's progress rests on. *)

From stdpp Require Import relations.
From S2P Require Import Prelude RustStr Order Json NodeTypes VariablePool Retry Iteration.
From S2P Require Import RunPayload Resume Store StorePayload StoreNodes StoreRun.
From S2P Require Import StoreRun StoreLaws StoreOps.
Local Open Scope ora_scope.

(** The run is live and running, with the given root scope. *)
Record runs_in (root : string) (s : RunStore) : Prop := {
  ru_status : wr_status (st_run s) = RunRunning;
  ru_live : wr_deleted (st_run s) = false;
  ru_root : st_root s = root;
}.

(** A running row of the root scope. *)
Definition root_running (root : string) (r : NodeRow) : bool :=
  live r && in_scope_of root r && status_is Running r.
Definition running_count (root : string) (s : RunStore) : nat :=
  length (filter (fun r => root_running root r = true) (st_rows s)).

(** [f] settles a row: it only writes columns that a transition may write. *)
Record settles_by (f : WorkflowNodeRun -> WorkflowNodeRun) : Prop := {
  sb_id x : nr_id (f x) = nr_id x;
  sb_scope x : nr_scope_id (f x) = nr_scope_id x;
  sb_node x : nr_node_id (f x) = nr_node_id x;
  sb_iteration x : nr_iteration (f x) = nr_iteration x;
  sb_status x : nr_status (f x) <> Running;
}.

(** The live row [id], and no other row, is settled; the run keeps its status. *)
Definition settles_row (id : string) (s s' : RunStore) : Prop :=
  (exists f, settles_by f /\
     st_rows s' = (fun x => if live_id id x then on_row f x else x) <$> st_rows s) /\
  forall root, runs_in root s -> runs_in root s'.

Section steps.
Context {debug : DebugText} {json : JsonText} {sqlite : SqliteJson} {typing : PoolTyping}.

Lemma find_root_scope s : store_ok s -> find_scope s (st_root s) = Some None.
Proof.
  intros Hok. unfold find_scope. destruct (find_round s _) as [c|] eqn:E.
  - apply find_first_Some in E as [Hc Hp%bool_decide_eq_true]. pose proof (so_scopes s Hok) as Hnd.
    unfold scope_ids in Hnd. apply NoDup_cons in Hnd as [Hn _]. destruct Hn. rewrite <-Hp.
    apply elem_of_app. right. by apply list_elem_of_fmap_2.
  - rewrite bool_decide_eq_true_2 by left. done.
Qed.

Lemma complete_root_run run x out str s u s' root : complete_root run x out str s = Ok (u, s') ->
  runs_in root s -> runs_in root s'.
Proof.
  unfold complete_root, update_run. intros H [Hs Hd Hr].
  destruct (wr_payload run); inv_tx; [done|]. by case_match.
Qed.

Lemma rewrite_current_run f s u s' root : rewrite_current_nodes f s = Ok (u, s') ->
  st_rows s' = st_rows s /\ (runs_in root s -> runs_in root s').
Proof.
  unfold rewrite_current_nodes, update_run. intros H. inv_tx.
  split; [by case_match|]. intros []. by case_match.
Qed.

(** A running row of the root scope, as the transactions read it. *)
Lemma root_running_find root s r : store_ok s -> runs_in root s -> r ∈ st_rows s ->
  root_running root r = true ->
  find_row s (row_id r) = Some r /\ nr_scope_id (row r) = st_root s /\ nr_status (row r) = Running.
Proof.
  intros Hok Hrun Hr Hroot. unfold root_running in Hroot. rewrite !andb_true_iff in Hroot.
  destruct Hroot as [[Hl Hsc] Hst]. apply bool_decide_eq_true in Hsc. apply bool_decide_eq_true in Hst.
  split; [by apply find_row_elem|]. destruct Hrun. by subst.
Qed.

Lemma complete_settles root s r out str reason changes patch now a s' :
  store_ok s -> runs_in root s -> r ∈ st_rows s -> root_running root r = true ->
  complete_node (row_id r) out str reason changes patch now s = Ok (a, s') ->
  a = Advanced /\ settles_row (row_id r) s s'.
Proof.
  intros Hok Hrun Hr Hroot H. destruct (root_running_find root s r) as (Hf & Hsc & Hst); [done..|].
  unfold complete_node in H.
  apply tx_bind_Ok in H as (s0 & s1 & [-> ->]%gets_Ok & H).
  apply tx_bind_Ok in H as (run & s1 & [-> ->]%gets_Ok & H).
  apply tx_bind_Ok in H as (found & s1 & [-> ->]%gets_Ok & H). cbv beta in *.
  rewrite Hf in H. pose proof (ru_live _ _ Hrun) as Hd. rewrite Hd in H. cbn [mbind option_bind] in H.
  rewrite Hsc, find_root_scope in H by done. rewrite Hst in H. cbn [node_active negb] in H. cbv zeta in H.
  rewrite (bool_decide_eq_true_2 (st_root s = st_root s)) in H by done.
  apply tx_bind_Ok in H as ([] & s1 & H1 & H).
  pose proof (complete_scope_rows true _ None _ _ _ _ _ _ H1) as Hrows.
  pose proof (fun root => complete_root_run _ _ _ _ _ _ _ root H1) as Hruns.
  apply tx_bind_Ok in H as (n & s2 & [_ ->]%update_rows_Ok & H).
  apply tx_bind_Ok in H as ([] & s3 & H3 & H). inv_tx. split; [done|]. split.
  - eexists. split; [|rewrite (proj1 (rewrite_current_run _ _ _ _ "" H3)); simpl; by rewrite Hrows].
    by split.
  - intros root' Hroot'. apply (rewrite_current_run _ _ _ _ root' H3).
    destruct (Hruns _ Hroot'). by split.
Qed.

(** A failure that stays inside its composite. *)
Lemma fail_settles root s r failure now a s' :
  store_ok s -> runs_in root s -> r ∈ st_rows s -> root_running root r = true ->
  fail_node (row_id r) failure PropagateComposite now s = Ok (a, s') ->
  a = Advanced /\ settles_row (row_id r) s s'.
Proof.
  intros Hok Hrun Hr Hroot H. destruct (root_running_find root s r) as (Hf & Hsc & Hst); [done..|].
  unfold fail_node in H. apply tx_bind_Ok in H as (s0 & s1 & [-> ->]%gets_Ok & H).
  rewrite Hf in H. cbn [mbind option_bind] in H. rewrite Hsc, find_root_scope in H by done.
  unfold status_is in H. rewrite Hst in H. cbn [negb] in H. cbv zeta in H.
  rewrite bool_decide_eq_true_2 in H by done. cbn [negb] in H.
  apply tx_bind_Ok in H as ([] & s1 & (x & Hx & ->)%persist_failed_Ok & H).
  apply tx_bind_Ok in H as ([] & s2 & H2 & H). inv_tx. split; [done|]. split.
  - eexists. split; [|by rewrite (proj1 (rewrite_current_run _ _ _ _ "" H2))]. by split.
  - intros root' [? ? ?]. apply (rewrite_current_run _ _ _ _ root' H2). by split.
Qed.

(** A failure that fails the run. *)
Lemma fail_ends_run root s r failure now a s' :
  store_ok s -> runs_in root s -> r ∈ st_rows s -> root_running root r = true ->
  fail_node (row_id r) failure PropagateRun now s = Ok (a, s') ->
  a = Advanced /\ wr_status (st_run s') = RunFailed.
Proof.
  intros Hok Hrun Hr Hroot H. destruct (root_running_find root s r) as (Hf & Hsc & Hst); [done..|].
  unfold fail_node in H. apply tx_bind_Ok in H as (s0 & s1 & [-> ->]%gets_Ok & H).
  rewrite Hf in H. cbn [mbind option_bind] in H. rewrite Hsc, find_root_scope in H by done.
  unfold status_is in H. rewrite Hst in H. cbn [negb] in H. cbv zeta in H.
  rewrite bool_decide_eq_true_2 in H by done. cbn [negb] in H.
  rewrite (bool_decide_eq_true_2 (st_root s = st_root s)) in H by done. cbn [negb when] in H.
  apply tx_bind_Ok in H as ([] & s1 & (x & Hx & ->)%persist_failed_Ok & H).
  unfold settle_retry_waits in H. cbn [fmap option_fmap] in H. inv_tx. split; [done|].
  unfold rewrite_current_nodes, update_run in *. inv_tx. destruct Hrun as [Hs Hd _]. simpl.
  rewrite !Hd. simpl. rewrite Hd, Hs. done.
Qed.
(** ** Counting *)

(** The rows that stay live keep their slots. *)
Lemma settles_row_slots id s s' : settles_row id s s' -> slot <$> live_rows s' = slot <$> live_rows s.
Proof.
  intros [(f & Hf & E) _]. unfold live_rows. rewrite E. clear E.
  induction (st_rows s) as [|x l IH]; [done|]. rewrite fmap_cons, !filter_cons.
  assert (live (if live_id id x then on_row f x else x) = live x) as -> by by destruct (live_id id x).
  destruct (decide _); [|done]. csimpl. rewrite IH. f_equal.
  destruct (live_id id x); [|done]. destruct Hf as [_ Hsc Hn Hi _]. unfold slot. simpl. by rewrite Hsc, Hn, Hi.
Qed.

Lemma settled_row_count root id f (l : list NodeRow) : settles_by f ->
  let after := (fun x => if live_id id x then on_row f x else x) <$> l in
  length (filter (fun r => root_running root r = true) after)
    <= length (filter (fun r => root_running root r = true) l) /\
  ((exists r, r ∈ l /\ row_id r = id /\ root_running root r = true) ->
   length (filter (fun r => root_running root r = true) after)
    < length (filter (fun r => root_running root r = true) l)).
Proof.
  intros Hf. induction l as [|x l [IHle IHlt]]; [split; [done|]; by intros (? & ?%elem_of_nil & _)|].
  assert (live_id id x = true -> root_running root (on_row f x) = false) as Hout.
  { intros _. unfold root_running, status_is. simpl. rewrite (bool_decide_eq_false_2 _ (sb_status f Hf _)).
    by rewrite andb_false_r. }
  cbn zeta in *. rewrite fmap_cons, !filter_cons. split.
  - destruct (live_id id x) eqn:E; repeat case_decide; simpl; try congruence; try lia.
    rewrite Hout in *; done.
  - intros (r & [->|Hr]%elem_of_cons & Hid & Hroot).
    + assert (live_id id x = true) as Hl.
      { unfold live_id, id_is. rewrite Hid, bool_decide_eq_true_2 by done.
        unfold root_running in Hroot. by destruct (live x). }
      rewrite Hl, Hout by done. rewrite decide_False, decide_True by done. simpl. lia.
    + assert (exists r, r ∈ l /\ row_id r = id /\ root_running root r = true) as Hex by eauto.
      specialize (IHlt Hex). destruct (live_id id x) eqn:E; repeat case_decide; simpl; try congruence; try lia.
      rewrite Hout in *; done.
Qed.

Lemma settles_row_count root id s s' : settles_row id s s' -> running_count root s' <= running_count root s.
Proof. intros [(f & Hf & E) _]. unfold running_count. rewrite E. by apply settled_row_count. Qed.

Lemma settles_row_fewer root s s' r : settles_row (row_id r) s s' -> r ∈ st_rows s ->
  root_running root r = true -> running_count root s' < running_count root s.
Proof.
  intros [(f & Hf & E) _] Hr Hroot. unfold running_count. rewrite E. apply settled_row_count; [done|]. by exists r.
Qed.

(** The nodes that have no live row of the outer round. *)
Definition free_slot (root : string) (s : RunStore) (node_id : string) : Prop :=
  (root, node_id, None) ∉ slot <$> live_rows s.
#[export] Instance free_slot_dec root s node_id : Decision (free_slot root s node_id).
Proof. apply _. Defined.
Definition free_count (root : string) (node_ids : list string) (s : RunStore) : nat :=
  length (filter (free_slot root s) node_ids).

(** What is left to do in the outer round: two steps for a node that has not started, one for a
    running row. *)
Definition remaining (root : string) (node_ids : list string) (s : RunStore) : nat :=
  2 * free_count root node_ids s + running_count root s.

Lemma free_count_same root ids s s' : slot <$> live_rows s' = slot <$> live_rows s ->
  free_count root ids s' = free_count root ids s.
Proof.
  intros E. unfold free_count. f_equal. apply list_filter_iff. intros x. unfold free_slot. by rewrite E.
Qed.

Lemma filter_length_lt {A} (p q : A -> Prop) `{!forall x, Decision (p x), !forall x, Decision (q x)} l x :
  (forall y, q y -> p y) -> x ∈ l -> p x -> ~ q x -> length (filter q l) < length (filter p l).
Proof.
  intros Himp Hx Hp Hq.
  assert (forall k, length (filter q k) <= length (filter p k)) as Hle.
  { intros k. induction k as [|y k IH]; [done|]. rewrite !filter_cons. repeat case_decide; simpl; try lia.
    exfalso. auto. }
  apply list_elem_of_split in Hx as (l1 & l2 & ->). rewrite !filter_app, !length_app, !filter_cons.
  rewrite (decide_False (P := q x)), (decide_True (P := p x)) by done. simpl.
  pose proof (Hle l1). pose proof (Hle l2). lia.
Qed.

(** A row of the outer round, for one of the nodes. *)
Record outer_row (root : string) (ids : list string) (n : NodeRunToStart) : Prop := {
  or_scope : ts_scope_id n = root;
  or_node : ts_node_id n ∈ ids;
  or_iteration : ts_iteration n = None;
}.

Lemma insert_remaining root ids s n now s' u : outer_row root ids n ->
  insert_node_run n now s = Ok (u, s') -> remaining root ids s' < remaining root ids s /\
  (runs_in root s -> runs_in root s').
Proof.
  intros [Hsc Hid Hit] H. unfold insert_node_run in H. inv_tx.
  match goal with H : insert_row _ _ = _ |- _ => apply insert_row_Ok in H as (_ & _ & Hfree & ->) end.
  split; [|by intros [? ? ?]; split].
  set (r := started_row _ n now) in *. assert (slot r = (ts_scope_id n, ts_node_id n, None)) as Hslot.
  { unfold slot. simpl. by rewrite Hit. }
  assert (free_count (ts_scope_id n) ids (set_rows (st_rows s ++ [r]) s) < free_count (ts_scope_id n) ids s) as Hlt.
  { assert (slot <$> live_rows (set_rows (st_rows s ++ [r]) s) = (slot <$> live_rows s) ++ [slot r]) as E.
    { unfold live_rows. simpl. rewrite filter_app, filter_cons_True, filter_nil by done. by rewrite fmap_app. }
    apply (filter_length_lt _ _ _ (ts_node_id n)); unfold free_slot; rewrite ?E, <-?Hslot.
    - intros y Hy Hin. apply Hy. apply elem_of_app. by left.
    - done.
    - done.
    - intros Hn. apply Hn. apply elem_of_app. right. by left. }
  unfold remaining. assert (running_count (ts_scope_id n) (set_rows (st_rows s ++ [r]) s)
    <= running_count (ts_scope_id n) s + 1) as Hle; [|lia].
  unfold running_count. simpl. rewrite filter_app, length_app, filter_cons, filter_nil.
  case_decide; simpl; lia.
Qed.

Lemma start_ready_remaining root ids runs now s u s' : Forall (outer_row root ids) runs ->
  start_ready_nodes runs now s = Ok (u, s') ->
  remaining root ids s' + length runs <= remaining root ids s /\ (runs_in root s -> runs_in root s').
Proof.
  unfold start_ready_nodes. intros Hruns H. apply tx_bind_Ok in H as ([] & s1 & H1 & H2).
  assert (remaining root ids s1 + length runs <= remaining root ids s /\ (runs_in root s -> runs_in root s1)) as [Hle Hk].
  { clear H2. revert s H1. induction Hruns as [|n runs Hn _ IH]; intros s H1; simpl in H1; [inv_tx; simpl; auto with lia|].
    apply tx_bind_Ok in H1 as ([] & s0 & H0 & H1). apply insert_remaining with (root := root) (ids := ids) in H0 as [Hlt Hk]; [|done].
    apply IH in H1 as [Hle Hk']. split; [simpl; lia|auto]. }
  pose proof (rewrite_current_run _ _ _ _ root H2) as [Hrows Hk2]. split; [|auto].
  replace (remaining root ids s') with (remaining root ids s1); [done|].
  unfold remaining, running_count. rewrite Hrows. f_equal. f_equal. symmetry.
  apply free_count_same. unfold live_rows. by rewrite Hrows.
Qed.

Lemma finish_ends out now s u s' : wr_deleted (st_run s) = false ->
  finish_run out now s = Ok (u, s') -> wr_status (st_run s') <> RunRunning.
Proof.
  unfold finish_run, update_run. intros Hd H. inv_tx. rewrite Hd. cbn [negb andb].
  destruct (run_status_in _ _) eqn:E; [done|]. intros Hs. unfold run_status_in in E.
  by rewrite Hs in E.
Qed.
End steps.
