(* ===== verification/LoopRound.v ===== *)
(** * Loop rounds ([engine/loop_round.rs])

    The pure decisions of a Loop: the private variable pool of a round, the values carried into
    the first one, and what a completed round leads to. *)

From S2P Require Import Prelude RustStr Order Json NodeTypes VariablePool VariableTemplate.
From S2P Require Import Condition GraphBase NodeConfig Graph Declarations NodeRuntime.
From S2P Require Import RunPayload Store StoreRun.
Local Open Scope ora_scope.

(** [LoopRoundDecision]; [LoopCompletionReason] is in [StoreRounds]. *)
Inductive LoopRoundDecision : Type :=
| RoundContinues (carried : gmap string Value)
| RoundSucceeded (outputs : gmap string Value) (reason : LoopCompletionReason).

Inductive LoopRoundError : Type :=
| UnknownLoop (node_id : string)
| InvalidCarriedVariables
| InvalidRound (round max_iterations : N)
| LimitReached (max_iterations : N) (observed : string)
| RoundTypeMismatch (name value_type : string)
| UnsetValue (selector : string)
| RoundVariable (e : WorkflowVariablePoolError)
| RoundCondition (e : ConditionError).

Definition loop_round_error_message `{DebugText} (e : LoopRoundError) : string :=
  match e with
  | UnknownLoop id => "Loop container does not exist: " +:+ id
  | InvalidCarriedVariables => "carried values do not match the Loop variable declarations"
  | InvalidRound round max =>
      "invalid Loop round " +:+ of_N round +:+ "; expected 1 through " +:+ of_N max
  | LimitReached max observed =>
      "Loop did not terminate within " +:+ of_N max +:+ " rounds; last observed " +:+ observed
  | RoundTypeMismatch name t => "Loop variable " +:+ name +:+ " does not match declared type " +:+ t
  | UnsetValue selector => "Loop selector has no value in this round: " +:+ selector
  | RoundVariable e => pool_error_message e
  | RoundCondition e => condition_error_message e
  end.

(** An inactive branch's unset value is an error. *)
Definition resolve_required (pool : WorkflowVariablePool) (selector : VariableSelector) :
    result LoopRoundError Value :=
  value ← map_err RoundVariable (resolve pool selector);
  ok_or value (UnsetValue (join "." (qualified selector :: sel_nested selector))).

(** ** The round's pool *)

Section pool.
Context {debug : DebugText} {pet : Petgraph}.

(** An outer variable a round reads: a global, or written by a node the Loop depends on. *)
Definition imported (ancestors globals : list string) (key : string)
    (definition : WorkflowVariableDefinition) : bool :=
  bool_decide (writer definition ∈ ancestors) || bool_decide (key ∈ globals).

Definition import_outer (ancestors globals : list string) (outer pool : WorkflowVariablePool)
    (entry : string * WorkflowVariableDefinition) : WorkflowVariablePool :=
  if imported ancestors globals entry.1 entry.2 then
    {| revision := revision pool;
       catalog := <[entry.1 := entry.2]> (catalog pool);
       values := match values outer !! entry.1 with
                 | Some value => <[entry.1 := value]> (values pool)
                 | None => values pool
                 end |}
  else pool.

Definition carry_variable (loop_id : string) (carried : gmap string Value)
    (pool : WorkflowVariablePool) (variable : LoopVariable) :
    result (fault LoopRoundError) WorkflowVariablePool :=
  let key := qualified_name loop_id (lv_name variable) in
  let pool := declare pool key (lv_value_type variable) loop_id in
  value ← ok_or (carried !! lv_name variable) Panics;
  map_err (fun e => Fails (RoundVariable e)) (set pool key loop_id value).

Definition carried_matches (config : LoopConfig) (carried : gmap string Value) : bool :=
  bool_decide (size carried = length (lc_variables config))
  && forallb (fun v => bool_decide (is_Some (carried !! lv_name v))) (lc_variables config).

Definition ancestor_ids (g : WorkflowGraph) (id : string) : list string :=
  gn_id <$> transitive_predecessors g id.

Definition loop_round_pool (g : WorkflowGraph) (loop_id : string) (outer : WorkflowVariablePool)
    (carried : gmap string Value) : result (fault LoopRoundError) WorkflowVariablePool :=
  match loop_body g loop_id with
  | None => Err (Fails (UnknownLoop loop_id))
  | Some (config, body) =>
      reject (negb (carried_matches config carried)) with (Fails InvalidCarriedVariables);
      let globals := gv_name <$> g_global_variables g in
      let pool := fold_left (import_outer (ancestor_ids g loop_id) globals outer)
                    (btree_entries str_le (catalog outer)) (from_graph body) in
      fold_result (carry_variable loop_id carried) pool (lc_variables config)
  end.
End pool.

(** ** Round decisions *)

Section values.
Context {debug : DebugText}.

Definition typed_variable (variable : LoopVariable) (value : Value) :
    result LoopRoundError (string * Value) :=
  value ← ok_or (normalize_workflow_value value (lv_value_type variable))
            (RoundTypeMismatch (lv_name variable) (lv_value_type variable));
  Ok (lv_name variable, value).

Definition initial_value (outer : WorkflowVariablePool) (variable : LoopVariable) :
    result LoopRoundError (string * Value) :=
  value ← match lv_initial variable with
          | InitConstant value => Ok value
          | InitVariable selector => resolve_required outer selector
          end;
  typed_variable variable value.

(** [LoopConfig::initialize_carried] *)
Definition initialize_carried (config : LoopConfig) (outer : WorkflowVariablePool) :
    result LoopRoundError (gmap string Value) :=
  collect_map <$> traverse (initial_value outer) (lc_variables config).

End values.

Definition exit_output (pool : WorkflowVariablePool) (output : OutputBinding) :
    result LoopRoundError (string * Value) :=
  value ← resolve_required pool (binding_selector output); Ok (binding_name output, value).

(** [LoopConfig::exit_outputs] *)
Definition exit_outputs (config : LoopConfig) (pool : WorkflowVariablePool) :
    result LoopRoundError (gmap string Value) :=
  collect_map <$> traverse (exit_output pool) (lc_outputs config).

Definition OBSERVED_VALUE_LIMIT : nat := 160.
Definition ELLIPSIS : string := bytes [226; 128; 166]%N.

Section decide.
Context {debug : DebugText} {json : JsonText}.

Definition summarize_observed_value (value : Value) : string :=
  let raw := match value with VString text => text | other => json_to_string other end in
  let collapsed := join " " (split_whitespace raw) in
  if (chars_count collapsed <=? N.of_nat OBSERVED_VALUE_LIMIT)%N
  then take_chars OBSERVED_VALUE_LIMIT collapsed
  else take_chars OBSERVED_VALUE_LIMIT collapsed +:+ ELLIPSIS.

Definition selector_label (selector : VariableSelector) : string :=
  fold_left (fun label segment => label +:+ "." +:+ segment) (sel_nested selector)
    (qualified selector).

Definition observed_rule (pool : WorkflowVariablePool) (rule : ConditionRule) : string :=
  let shown := match resolve pool (rule_selector rule) with
               | Ok (Some value) => summarize_observed_value value
               | Ok None => "unset"
               | Err _ => "unavailable"
               end in
  selector_label (rule_selector rule) +:+ "=" +:+ shown.

Definition observed_until_summary (until : ConditionConfig) (pool : WorkflowVariablePool) : string :=
  match observed_rule pool <$> (cases until ≫= case_conditions) with
  | [] => "no until comparison"
  | parts => join ", " parts
  end.

Definition feedback_value (pool : WorkflowVariablePool) (variable : LoopVariable) :
    result LoopRoundError (string * Value) :=
  value ← resolve_required pool (lv_feedback variable);
  typed_variable variable value.

(** The until condition has a rule, and one of its cases holds. *)
Definition until_holds (until : ConditionConfig) (pool : WorkflowVariablePool) :
    result (fault ConditionError) bool :=
  if existsb (fun case => negb (bool_decide (case_conditions case = []))) (cases until) then
    branch ← evaluate_condition until pool;
    Ok (negb (bool_decide (branch = ELSE_BRANCH_ID)))
  else Ok false.

(** [LoopConfig::complete_round] *)
Definition complete_round (config : LoopConfig) (round : N) (completed : WorkflowVariablePool) :
    result (fault LoopRoundError) LoopRoundDecision :=
  reject (bool_decide (round = 0%N) || (lc_max_iterations config <? round)%N)
    with (Fails (InvalidRound round (lc_max_iterations config)));
  carried ← map_err Fails (traverse (feedback_value completed) (lc_variables config));
  satisfied ← map_err (map_fault RoundCondition) (until_holds (lc_until config) completed);
  if satisfied : bool then
    outputs ← map_err Fails (exit_outputs config completed);
    Ok (RoundSucceeded outputs ConditionSatisfied)
  else if bool_decide (round = lc_max_iterations config)
          && bool_decide (lc_max_iterations_behavior config = SucceedOnMax) then
    outputs ← map_err Fails (exit_outputs config completed);
    Ok (RoundSucceeded outputs MaxIterations)
  else if bool_decide (round = lc_max_iterations config) then
    Err (Fails (LimitReached (lc_max_iterations config)
                  (observed_until_summary (lc_until config) completed)))
  else Ok (RoundContinues (collect_map carried)).
End decide.

(** ** Lemmas *)

Lemma resolve_required_Ok pool sel v :
  resolve_required pool sel = Ok v <-> resolve pool sel = Ok (Some v).
Proof. unfold resolve_required. destruct (resolve pool sel) as [[w|]|]; naive_solver. Qed.

Section lemmas.
Context {debug : DebugText}.

(** The variables a round imports from the outer pool. *)
Definition imports (g : WorkflowGraph) {pet : Petgraph} (loop_id key : string)
    (definition : WorkflowVariableDefinition) : bool :=
  imported (ancestor_ids g loop_id) (gv_name <$> g_global_variables g) key definition.

Lemma import_other ancestors globals outer l pool k :
  (forall d, (k, d) ∈ l -> imported ancestors globals k d = false) ->
  let pool' := fold_left (import_outer ancestors globals outer) l pool in
  catalog pool' !! k = catalog pool !! k /\ values pool' !! k = values pool !! k.
Proof.
  revert pool. induction l as [|[k' d'] l IH]; intros pool Hno; [done|]. cbn [fold_left].
  destruct (IH (import_outer ancestors globals outer pool (k', d'))) as [-> ->].
  { intros d Hd. apply Hno. by right. }
  unfold import_outer. cbn [fst snd]. destruct (decide (k' = k)) as [->|Hne].
  - rewrite Hno by (by left). done.
  - destruct (imported ancestors globals k' d'); [|done]. cbn [catalog values].
    rewrite lookup_insert_ne by done. split; [done|].
    destruct (values outer !! k'); [by rewrite lookup_insert_ne|done].
Qed.

Lemma import_in ancestors globals outer l pool k d :
  NoDup l.*1 -> (k, d) ∈ l -> imported ancestors globals k d = true ->
  let pool' := fold_left (import_outer ancestors globals outer) l pool in
  catalog pool' !! k = Some d /\
  values pool' !! k = match values outer !! k with Some v => Some v | None => values pool !! k end.
Proof.
  revert pool. induction l as [|[k' d'] l IH]; intros pool Hnd Hin Himp; [by apply elem_of_nil in Hin|].
  csimpl in Hnd. apply NoDup_cons in Hnd as [Hk Hnd]. cbn [fold_left].
  apply elem_of_cons in Hin as [[= <- <-]|Hin].
  - destruct (import_other ancestors globals outer l (import_outer ancestors globals outer pool (k, d)) k)
      as [-> ->].
    { intros d' Hd'. destruct Hk. apply list_elem_of_fmap. by exists (k, d'). }
    unfold import_outer. cbn [fst snd]. rewrite Himp. cbn [catalog values].
    rewrite lookup_insert_eq. split; [done|]. destruct (values outer !! k) eqn:E; [|done].
    by rewrite lookup_insert_eq.
  - destruct (IH (import_outer ancestors globals outer pool (k', d')) Hnd Hin Himp) as [-> ->].
    split; [done|]. destruct (values outer !! k) eqn:E; [done|].
    unfold import_outer. cbn [fst snd]. destruct (imported ancestors globals k' d'); [|done].
    cbn [values]. destruct (values outer !! k') eqn:E'; [|done].
    rewrite lookup_insert_ne; [done|]. intros ->. congruence.
Qed.

(** The pool a round starts from, before its carried variables. *)
Definition inherited_pool (g : WorkflowGraph) {pet : Petgraph} (loop_id : string)
    (body : WorkflowGraph) (outer : WorkflowVariablePool) : WorkflowVariablePool :=
  fold_left (import_outer (ancestor_ids g loop_id) (gv_name <$> g_global_variables g) outer)
    (btree_entries str_le (catalog outer)) (from_graph body).

Lemma inherited_lookup {pet : Petgraph} g loop_id body outer k :
  let p := inherited_pool g loop_id body outer in
  match catalog outer !! k with
  | Some d =>
      if imports g loop_id k d then
        catalog p !! k = Some d /\
        values p !! k = match values outer !! k with
                        | Some v => Some v | None => values (from_graph body) !! k end
      else catalog p !! k = catalog (from_graph body) !! k /\
           values p !! k = values (from_graph body) !! k
  | None => catalog p !! k = catalog (from_graph body) !! k /\
            values p !! k = values (from_graph body) !! k
  end.
Proof.
  unfold inherited_pool. destruct (catalog outer !! k) as [d|] eqn:E;
    [destruct (imports g loop_id k d) eqn:Ei|].
  - apply import_in; [apply btree_keys_NoDup|by apply elem_of_btree_entries|done].
  - apply import_other. intros d' Hd'%elem_of_btree_entries. by simplify_eq.
  - apply import_other. intros d' Hd'%elem_of_btree_entries. by simplify_eq.
Qed.

(** Carrying the variables in: the other names keep their entries. *)
Lemma carry_inv loop_id carried vars pool pool' :
  NoDup (lv_name <$> vars) ->
  fold_result (carry_variable loop_id carried) pool vars = Ok pool' ->
  (forall v, v ∈ vars -> exists d x y, catalog pool' !! qualified_name loop_id (lv_name v) = Some d /\
     writer d = loop_id /\ carried !! lv_name v = Some x /\
     normalize_workflow_value x (value_type d) = Some y /\
     values pool' !! qualified_name loop_id (lv_name v) = Some y) /\
  (forall k, (forall v, v ∈ vars -> k <> qualified_name loop_id (lv_name v)) ->
     catalog pool' !! k = catalog pool !! k /\ values pool' !! k = values pool !! k) /\
  (forall k d, catalog pool !! k = Some d -> catalog pool' !! k = Some d) /\
  (pool_ok pool -> pool_ok pool').
Proof.
  revert pool. induction vars as [|v vars IH]; intros pool Hnd; simpl.
  { intros [= <-]. split_and!; [set_solver|done..]. }
  intros (p1 & Hstep & Hrest)%bind_Ok. csimpl in Hnd. apply NoDup_cons in Hnd as [Hv Hnd].
  unfold carry_variable in Hstep. apply bind_Ok in Hstep as (x & Hx & Hset).
  apply ok_or_Ok in Hx. apply map_err_Ok in Hset.
  assert (forall pool, pool_ok pool -> pool_ok (declare pool (qualified_name loop_id (lv_name v))
    (lv_value_type v) loop_id)) as Hdecl by (intros; by apply declare_pool_ok).
  pose proof Hset as (d & y & Hd & Hw & Hn & Hc & ->)%set_inv.
  destruct (IH _ Hnd Hrest) as (Hin & Hout & Hmono & Hok).
  assert (forall w, w ∈ vars -> qualified_name loop_id (lv_name v) <> qualified_name loop_id (lv_name w)) as Hne.
  { intros w Hw' Heq%(qualified_name_inj loop_id). apply Hv. rewrite Heq. by apply list_elem_of_fmap_2. }
  split_and!.
  - intros w [->|Hw']%elem_of_cons; [|by apply Hin]. exists d, x, y.
    destruct (Hout _ Hne) as [-> ->]. cbn [catalog values]. rewrite lookup_insert_eq. by split_and!.
  - intros k Hk. assert (k <> qualified_name loop_id (lv_name v)) as Hkv by (apply Hk; by left).
    destruct (Hout k) as [-> ->]; [intros w Hw'; apply Hk; by right|]. cbn [catalog values].
    rewrite lookup_insert_ne by done. rewrite declare_catalog, declare_values.
    by rewrite decide_False.
  - intros k d' Hd'. apply Hmono. cbn [catalog]. by apply declare_preserves.
  - intros Hpok. apply Hok. eapply set_pool_ok; [|exact Hset]. by apply Hdecl.
Qed.
Lemma collect_map_list_to_map `{Countable K} {V} (l : list (K * V)) :
  NoDup l.*1 -> collect_map l = list_to_map l.
Proof.
  intros Hnd. apply map_eq. intros k. apply option_eq. intros v.
  rewrite <-elem_of_list_to_map by done. apply lookup_collect_map. intros v1 v2 H1 H2.
  apply elem_of_list_to_map_1 in H1, H2; [|done..]. congruence.
Qed.

(** Collecting one entry per named item. *)
Lemma collect_traverse {A} (name : A -> string) (f : A -> result LoopRoundError (string * Value)) l m :
  NoDup (name <$> l) -> (forall x p, f x = Ok p -> p.1 = name x) ->
  collect_map <$> traverse f l = Ok m ->
  (forall x, x ∈ l -> exists v, f x = Ok (name x, v) /\ m !! name x = Some v) /\
  dom m = list_to_set (name <$> l) /\ size m = length l.
Proof.
  intros Hnd Hf H. destruct (traverse f l) as [ps|] eqn:E; [|done]. simpl in H. injection H as <-.
  apply traverse_Ok in E.
  assert (ps.*1 = name <$> l) as Hfst.
  { clear -E Hf. induction E as [|x p l ps Hp _ IH]; [done|]. csimpl. by rewrite (Hf x p Hp), IH. }
  assert (NoDup ps.*1) as Hnd' by (by rewrite Hfst).
  rewrite (collect_map_list_to_map ps) by done. split_and!.
  - intros x Hx. apply list_elem_of_lookup in Hx as [i Hi].
    destruct (Forall2_lookup_l _ _ _ _ _ E Hi) as ([k v] & Hp & Hfx).
    pose proof (Hf x _ Hfx) as Hk. simpl in Hk. subst k. exists v. split; [done|].
    apply elem_of_list_to_map; [done|]. by eapply list_elem_of_lookup_2.
  - by rewrite dom_list_to_map_L, Hfst.
  - rewrite map_size_list_to_map by done. symmetry. by eapply Forall2_length.
Qed.

Lemma typed_variable_Ok v x p :
  typed_variable v x = Ok p <->
  exists y, normalize_workflow_value x (lv_value_type v) = Some y /\ p = (lv_name v, y).
Proof.
  unfold typed_variable. destruct (normalize_workflow_value x (lv_value_type v)) as [y|]; simpl;
    naive_solver.
Qed.

Lemma feedback_value_Ok pool v p :
  feedback_value pool v = Ok p <->
  exists x y, resolve pool (lv_feedback v) = Ok (Some x) /\
    normalize_workflow_value x (lv_value_type v) = Some y /\ p = (lv_name v, y).
Proof.
  unfold feedback_value. rewrite bind_Ok. setoid_rewrite resolve_required_Ok.
  setoid_rewrite typed_variable_Ok. naive_solver.
Qed.

Lemma exit_output_Ok pool o p :
  exit_output pool o = Ok p <->
  exists x, resolve pool (binding_selector o) = Ok (Some x) /\ p = (binding_name o, x).
Proof.
  unfold exit_output. rewrite bind_Ok. setoid_rewrite resolve_required_Ok. naive_solver.
Qed.

(** The values an exit reads: one per output, each the current value of its selector. *)
Lemma exit_outputs_Ok config pool m :
  NoDup (binding_name <$> lc_outputs config) -> exit_outputs config pool = Ok m ->
  dom m = list_to_set (binding_name <$> lc_outputs config) /\
  forall o, o ∈ lc_outputs config ->
    exists x, resolve pool (binding_selector o) = Ok (Some x) /\ m !! binding_name o = Some x.
Proof.
  intros Hnd H. unfold exit_outputs in H.
  apply (collect_traverse binding_name (exit_output pool)) in H as (H1 & H2 & _); [|done|].
  - split; [done|]. intros o Ho. destruct (H1 o Ho) as (v & Hv & Hm).
    apply exit_output_Ok in Hv as (x & Hx & Heq). simplify_eq. by exists x.
  - intros x p (y & _ & ->)%exit_output_Ok. done.
Qed.

(** Values fit to be carried: one of the declared type per variable. *)
Definition carries (config : LoopConfig) (carried : gmap string Value) : Prop :=
  dom carried = list_to_set (lv_name <$> lc_variables config) /\
  size carried = length (lc_variables config) /\
  forall v, v ∈ lc_variables config -> exists x, carried !! lv_name v = Some x /\
    normalize_workflow_value x (lv_value_type v) = Some x.

Lemma collect_feedback config pool carried :
  NoDup (lv_name <$> lc_variables config) ->
  collect_map <$> traverse (feedback_value pool) (lc_variables config) = Ok carried ->
  carries config carried /\
  forall v, v ∈ lc_variables config -> exists w x, resolve pool (lv_feedback v) = Ok (Some w) /\
    normalize_workflow_value w (lv_value_type v) = Some x /\ carried !! lv_name v = Some x.
Proof.
  intros Hnd H.
  apply (collect_traverse lv_name (feedback_value pool)) in H as (H1 & H2 & H3); [|done|].
  2: { intros x p (? & ? & _ & _ & ->)%feedback_value_Ok. done. }
  assert (forall v, v ∈ lc_variables config -> exists w x, resolve pool (lv_feedback v) = Ok (Some w) /\
    normalize_workflow_value w (lv_value_type v) = Some x /\ carried !! lv_name v = Some x) as Hall.
  { intros v Hv. destruct (H1 v Hv) as (y & Hy & Hm).
    apply feedback_value_Ok in Hy as (w & x & Hw & Hx & Heq). simplify_eq. by exists w, x. }
  split; [|done]. split_and!; [done..|]. intros v Hv.
  destruct (Hall v Hv) as (w & x & _ & Hx & Hm). exists x. split; [done|]. by eapply normalize_matches.
Qed.

Lemma initialize_carried_carries config outer carried :
  NoDup (lv_name <$> lc_variables config) -> initialize_carried config outer = Ok carried ->
  carries config carried.
Proof.
  intros Hnd H. unfold initialize_carried in H.
  assert (forall v p, initial_value outer v = Ok p -> exists w x,
    normalize_workflow_value w (lv_value_type v) = Some x /\ p = (lv_name v, x)) as Hinit.
  { intros v p. unfold initial_value. intros (w & _ & (x & Hx & ->)%typed_variable_Ok)%bind_Ok.
    by exists w, x. }
  apply (collect_traverse lv_name (initial_value outer)) in H as (H1 & H2 & H3); [|done|].
  - split_and!; [done..|]. intros v Hv. destruct (H1 v Hv) as (y & Hy & Hm).
    apply Hinit in Hy as (w & x & Hx & Heq). simplify_eq. exists x. split; [done|].
    by eapply normalize_matches.
  - intros v p (w & x & _ & ->)%Hinit. done.
Qed.

(** Values fit to be carried always make a pool, when their names are free. *)
Lemma carry_all loop_id carried vars pool :
  NoDup (lv_name <$> vars) ->
  (forall v, v ∈ vars -> catalog pool !! qualified_name loop_id (lv_name v) = None /\
     exists x, carried !! lv_name v = Some x /\ normalize_workflow_value x (lv_value_type v) = Some x) ->
  exists pool', fold_result (carry_variable loop_id carried) pool vars = Ok pool' /\
    forall v x, v ∈ vars -> carried !! lv_name v = Some x ->
      values pool' !! qualified_name loop_id (lv_name v) = Some x.
Proof.
  revert pool. induction vars as [|v vars IH]; intros pool Hnd Hall.
  { exists pool. split; [done|]. by intros v x ?%elem_of_nil. }
  csimpl in Hnd. apply NoDup_cons in Hnd as [Hv Hnd].
  destruct (Hall v) as (Hfree & x & Hx & Hn); [by left|].
  set (key := qualified_name loop_id (lv_name v)) in *.
  set (def := {| value_type := lv_value_type v; writer := loop_id; max_length := None |}).
  assert (catalog (declare pool key (lv_value_type v) loop_id) !! key = Some def) as Hd.
  { rewrite declare_catalog, decide_True, Hfree by done. done. }
  set (pool1 := {| revision := saturating_add_u64 (revision (declare pool key (lv_value_type v) loop_id)) 1;
                   catalog := catalog (declare pool key (lv_value_type v) loop_id);
                   values := <[key := x]> (values (declare pool key (lv_value_type v) loop_id)) |}).
  assert (carry_variable loop_id carried pool v = Ok pool1) as Hstep.
  { unfold carry_variable. fold key. rewrite Hx. simpl. by rewrite (set_intro _ _ _ _ def x). }
  assert (forall w, w ∈ vars -> key <> qualified_name loop_id (lv_name w)) as Hne.
  { intros w Hw Heq%qualified_name_inj. apply Hv. rewrite Heq. by apply list_elem_of_fmap_2. }
  destruct (IH pool1 Hnd) as (pool' & Hfold & Hvals).
  { intros w Hw. destruct (Hall w) as (Hfw & Hxw); [by right|]. split; [|done]. unfold pool1.
    cbn [catalog]. rewrite declare_catalog, decide_False by (by apply Hne). done. }
  exists pool'. split; [simpl; by rewrite Hstep|]. intros w y [->|Hw]%elem_of_cons Hy; [|by apply Hvals].
  destruct (carry_inv _ _ _ _ _ Hnd Hfold) as (_ & Hout & _ & _).
  fold key. destruct (Hout key Hne) as [_ ->]. unfold pool1. cbn [values]. rewrite lookup_insert_eq. congruence.
Qed.

(** The names of the carried variables are free in the pool a round inherits. *)
Definition carried_names_free {pet : Petgraph} (g : WorkflowGraph) (loop_id : string)
    (outer : WorkflowVariablePool) (config : LoopConfig) (body : WorkflowGraph) : Prop :=
  forall v, v ∈ lc_variables config ->
    catalog (inherited_pool g loop_id body outer) !! qualified_name loop_id (lv_name v) = None.

Lemma carries_matches config carried : carries config carried -> carried_matches config carried = true.
Proof.
  intros (_ & Hsize & Hall). unfold carried_matches. rewrite bool_decide_true by done. simpl.
  apply forallb_True, Forall_forall. intros v Hv. apply bool_decide_eq_true.
  destruct (Hall v Hv) as (x & -> & _). by eexists.
Qed.

Lemma round_pool_made {pet : Petgraph} g loop_id config body outer carried :
  loop_body g loop_id = Some (config, body) -> NoDup (lv_name <$> lc_variables config) ->
  carried_names_free g loop_id outer config body -> carries config carried ->
  exists pool, loop_round_pool g loop_id outer carried = Ok pool /\
    forall v x, v ∈ lc_variables config -> carried !! lv_name v = Some x ->
      values pool !! qualified_name loop_id (lv_name v) = Some x.
Proof.
  intros Hbody Hnd Hfree Hc. unfold loop_round_pool. rewrite Hbody, (carries_matches _ _ Hc). simpl.
  apply carry_all; [done|]. intros v Hv. split; [by apply Hfree|]. by apply Hc.
Qed.
End lemmas.

(** ** Properties *)

Section properties.
Context {debug : DebugText} {json : JsonText} {pet : Petgraph}.

(** A round starts in a pool of its own.  Its carried variables hold exactly the values handed
    over, in normal form and owned by the Loop; every other value is either an outer value the
    round imports, of a global or of a node the Loop depends on, or an initial value of the body:
    nothing a previous round computed is visible.  Imported variables keep their writer, so no
    child can assign them. *)
Theorem round_pool_isolated g loop_id config body outer carried pool :
  loop_body g loop_id = Some (config, body) -> NoDup (lv_name <$> lc_variables config) ->
  loop_round_pool g loop_id outer carried = Ok pool ->
  let key v := qualified_name loop_id (lv_name v) in
  (forall v, v ∈ lc_variables config -> exists d x y,
     catalog pool !! key v = Some d /\ writer d = loop_id /\ carried !! lv_name v = Some x /\
     normalize_workflow_value x (value_type d) = Some y /\ values pool !! key v = Some y) /\
  (forall k x, (forall v, v ∈ lc_variables config -> k <> key v) -> values pool !! k = Some x ->
     (exists d, catalog outer !! k = Some d /\ imports g loop_id k d = true /\ values outer !! k = Some x)
     \/ values (from_graph body) !! k = Some x) /\
  (forall k d, (forall v, v ∈ lc_variables config -> k <> key v) ->
     catalog outer !! k = Some d -> imports g loop_id k d = true -> catalog pool !! k = Some d).
Proof.
  intros Hbody Hnd H key. unfold loop_round_pool in H. rewrite Hbody in H.
  apply reject_Ok in H as [_ H]. fold (inherited_pool g loop_id body outer) in H.
  destruct (carry_inv _ _ _ _ _ Hnd H) as (Hin & Hout & _ & _). split_and!; [done| |].
  - intros k x Hk Hx. destruct (Hout k Hk) as [_ Hv]. rewrite Hv in Hx. clear Hv.
    pose proof (inherited_lookup g loop_id body outer k) as Hl. simpl in Hl.
    destruct (catalog outer !! k) as [d|] eqn:Ed; [|right; by destruct Hl as [_ <-]].
    destruct (imports g loop_id k d) eqn:Ei; [|right; by destruct Hl as [_ <-]].
    destruct Hl as [_ Hl]. rewrite Hx in Hl. destruct (values outer !! k) eqn:Ev; [|by right].
    left. exists d. by simplify_eq.
  - intros k d Hk Hd Hi. destruct (Hout k Hk) as [-> _].
    pose proof (inherited_lookup g loop_id body outer k) as Hl. simpl in Hl.
    rewrite Hd, Hi in Hl. by destruct Hl.
Qed.

(** A value every selector of a list reads. *)
Definition reads (pool : WorkflowVariablePool) (selector : VariableSelector) (value : Value) : Prop :=
  resolve pool selector = Ok (Some value).

Definition outputs_read (config : LoopConfig) (pool : WorkflowVariablePool) (m : gmap string Value) : Prop :=
  dom m = list_to_set (binding_name <$> lc_outputs config) /\
  forall o, o ∈ lc_outputs config ->
    exists x, reads pool (binding_selector o) x /\ m !! binding_name o = Some x.

Definition unreadable (config : LoopConfig) (pool : WorkflowVariablePool) : Prop :=
  (exists v, v ∈ lc_variables config /\ forall x y, reads pool (lv_feedback v) x ->
     normalize_workflow_value x (lv_value_type v) <> Some y) \/
  (exists o, o ∈ lc_outputs config /\ forall x, ~ reads pool (binding_selector o) x).

Definition value_error (e : LoopRoundError) : Prop :=
  match e with UnsetValue _ | RoundVariable _ | RoundTypeMismatch _ _ => True | _ => False end.

Lemma resolve_required_Err p sel e :
  resolve_required p sel = Err e -> value_error e /\ forall x, ~ reads p sel x.
Proof.
  unfold resolve_required, reads. destruct (resolve p sel) as [[x|]|e']; simpl; try done;
    intros [= <-]; split; [done|congruence|done|congruence].
Qed.

Lemma feedback_Err p v e :
  feedback_value p v = Err e -> value_error e /\
  forall x y, reads p (lv_feedback v) x -> normalize_workflow_value x (lv_value_type v) <> Some y.
Proof.
  unfold feedback_value. intros [Hr|(x & Hx & Ht)]%bind_Err.
  - apply resolve_required_Err in Hr as [? Hr]. split; [done|]. by intros x y ?%Hr.
  - apply resolve_required_Ok in Hx. unfold typed_variable in Ht.
    destruct (normalize_workflow_value x (lv_value_type v)) as [z|] eqn:E; simpl in Ht; [done|].
    injection Ht as <-. split; [done|]. unfold reads. intros x' y Hx'. congruence.
Qed.

Lemma exit_outputs_Err config p e :
  exit_outputs config p = Err e -> value_error e /\ unreadable config p.
Proof.
  unfold exit_outputs. destruct (traverse (exit_output p) (lc_outputs config)) as [|e'] eqn:E; [done|].
  intros [= <-]. apply traverse_Err in E as (l1 & o & l2 & Hl & _ & Ho).
  unfold exit_output in Ho. apply bind_Err in Ho as [Ho|(x & _ & Ho)]; [|done].
  apply resolve_required_Err in Ho as [? Ho]. split; [done|]. right. exists o.
  split; [rewrite Hl; set_solver|done].
Qed.

Lemma exit_case config p reason P :
  NoDup (binding_name <$> lc_outputs config) ->
  (forall outputs, outputs_read config p outputs -> P (Ok (RoundSucceeded outputs reason))) ->
  (forall e, value_error e -> unreadable config p -> P (Err (Fails e))) ->
  P (outputs ← map_err Fails (exit_outputs config p); Ok (RoundSucceeded outputs reason)).
Proof.
  intros Hnd Hok Herr. destruct (exit_outputs config p) as [outputs|e] eqn:E; simpl.
  - apply Hok. by apply exit_outputs_Ok.
  - by apply Herr; eapply exit_outputs_Err.
Qed.

(** What a completed round leads to.  It continues exactly with the typed feedback of every
    variable, only below the limit and while the until condition does not hold; it succeeds with
    every output read from its pool, because the condition holds or because the limit is reached
    and the Loop succeeds there; at the limit of a failing Loop it fails; and any other failure
    has its cause in the round number, an unreadable or ill-typed selector or the condition. *)
Theorem complete_round_spec config round pool :
  loop_config_ok config ->
  let max := lc_max_iterations config in
  let until b := until_holds (lc_until config) pool = b in
  match complete_round config round pool with
  | Ok (RoundContinues carried) =>
      (1 <= round < max)%N /\ until (Ok false) /\ carries config carried /\
      forall v, v ∈ lc_variables config -> exists w x, reads pool (lv_feedback v) w /\
        normalize_workflow_value w (lv_value_type v) = Some x /\ carried !! lv_name v = Some x
  | Ok (RoundSucceeded outputs reason) =>
      (1 <= round <= max)%N /\ outputs_read config pool outputs /\
      (reason = ConditionSatisfied /\ until (Ok true) \/
       reason = MaxIterations /\ until (Ok false) /\ round = max /\
       lc_max_iterations_behavior config = SucceedOnMax)
  | Err (Fails (InvalidRound _ _)) => round = 0%N \/ (max < round)%N
  | Err (Fails (LimitReached m _)) =>
      m = max /\ round = max /\ until (Ok false) /\ lc_max_iterations_behavior config = FailOnMax
  | Err (Fails _) => (1 <= round <= max)%N /\ (unreadable config pool \/ exists e, until (Err (Fails e)))
  | Err Panics => until (Err Panics)
  end.
Proof.
  intros (Hmax & _ & Hnd & _ & Hndo & _) max until. unfold complete_round. fold max.
  destruct (bool_decide (round = 0%N) || (max <? round)%N) eqn:Eround; simpl.
  { apply orb_true_iff in Eround as [?%bool_decide_eq_true|?%N.ltb_lt]; auto. }
  apply orb_false_iff in Eround as [H0%bool_decide_eq_false Hle%N.ltb_ge].
  assert (1 <= round <= max)%N as Hround by lia.
  destruct (traverse (feedback_value pool) (lc_variables config)) as [ps|e] eqn:Ef; simpl.
  2: { apply traverse_Err in Ef as (l1 & v & l2 & Hl & _ & Hv). apply feedback_Err in Hv as [He Hv].
       destruct e; try done; split; try done; left; left; exists v; (split; [rewrite Hl; set_solver|done]). }
  destruct (collect_feedback config pool (collect_map ps) Hnd) as [Hc Hall]; [by rewrite Ef|].
  unfold until. destruct (until_holds (lc_until config) pool) as [b|[e|]]; simpl;
    [|by eauto|done].
  assert (forall reason, (reason = ConditionSatisfied /\ b = true \/
      reason = MaxIterations /\ b = false /\ round = max /\ lc_max_iterations_behavior config = SucceedOnMax) ->
    match (outputs ← map_err Fails (exit_outputs config pool); Ok (RoundSucceeded outputs reason)) with
    | Ok (RoundContinues _) => False
    | Ok (RoundSucceeded outputs r) => outputs_read config pool outputs /\ r = reason
    | Err (Fails e) => value_error e /\ unreadable config pool
    | Err Panics => False
    end) as Hexit.
  { intros reason _. by apply exit_case. }
  destruct b; [|destruct (bool_decide (round = max)) eqn:Em; simpl].
  - specialize (Hexit ConditionSatisfied ltac:(by left)).
    destruct (outputs ← _; _) as [[|outputs r]|[e|]]; try done; destruct Hexit as [Hexit ?].
    + by subst; auto.
    + destruct e; try done; auto.
  - apply bool_decide_eq_true in Em. destruct (lc_max_iterations_behavior config) eqn:Eb; simpl.
    { auto. }
    specialize (Hexit MaxIterations ltac:(by right)).
    destruct (outputs ← _; _) as [[|outputs r]|[e|]]; try done; destruct Hexit as [Hexit ?].
    + subst r. split_and!; [lia..|done|]. right. by split_and!.
    + destruct e; try done; auto.
  - apply bool_decide_eq_false in Em. split_and!; [lia..|done|done|done].
Qed.

(** The rounds of a Loop connect.  Whatever a continuing round hands over makes the pool of the
    next one, provided the names of the carried variables are free in it, and the next round then
    reads for each variable exactly the typed feedback of the round before. *)
Theorem round_feeds_next g loop_id config body outer round completed carried :
  loop_body g loop_id = Some (config, body) -> loop_config_ok config ->
  carried_names_free g loop_id outer config body ->
  complete_round config round completed = Ok (RoundContinues carried) ->
  exists pool, loop_round_pool g loop_id outer carried = Ok pool /\
    forall v, v ∈ lc_variables config -> exists w x,
      reads completed (lv_feedback v) w /\ normalize_workflow_value w (lv_value_type v) = Some x /\
      values pool !! qualified_name loop_id (lv_name v) = Some x.
Proof.
  intros Hbody Hconf Hfree H. pose proof Hconf as (_ & _ & Hnd & _).
  assert (carries config carried /\ forall v, v ∈ lc_variables config -> exists w x,
    reads completed (lv_feedback v) w /\ normalize_workflow_value w (lv_value_type v) = Some x /\
    carried !! lv_name v = Some x) as [Hc Hall].
  { unfold complete_round in H. apply reject_Ok in H as [_ H].
    destruct (traverse (feedback_value completed) (lc_variables config)) as [ps|e] eqn:Ef; [|done].
    simpl in H. destruct (until_holds (lc_until config) completed) as [b|]; [|done]. simpl in H.
    assert (carried = collect_map ps) as ->.
    { destruct b; [|destruct (bool_decide (round = _)); simpl in H;
        [destruct (bool_decide (lc_max_iterations_behavior config = SucceedOnMax)); simpl in H; [|done]|]];
        try (destruct (exit_outputs config completed); done). by injection H. }
    apply (collect_feedback config completed); [done|]. by rewrite Ef. }
  destruct (round_pool_made g loop_id config body outer carried Hbody Hnd Hfree Hc) as (pool & Hpool & Hvals).
  exists pool. split; [done|]. intros v Hv. destruct (Hall v Hv) as (w & x & Hw & Hx & Hm).
  exists w, x. split_and!; [done..|]. by apply Hvals.
Qed.
End properties.

(** ** Witnesses *)

Section sample.
#[local] Instance plain_debug : DebugText := {| debug_str := quoted; debug_strs := join ", " |}.
#[local] Instance no_text : JsonText := {| json_to_string _ := ""; json_from_str _ := None |}.
#[local] Existing Instance kahn_petgraph.

Definition add_loop (g : WorkflowGraph) (id : string) (config : LoopConfig) (body : WorkflowGraph) :
    WorkflowGraph :=
  {| g_nodes := g_nodes g; g_edges := g_edges g; g_index_by_id := g_index_by_id g;
     g_topo_rank := g_topo_rank g; g_global_variables := g_global_variables g;
     g_loops := (id, (config, body)) :: g_loops g; g_regions := g_regions g;
     g_region_by_member := g_region_by_member g |}.

(** A Loop over one text, fed back unchanged, for at most three rounds. *)
Definition echo_config : LoopConfig :=
  {| lc_max_iterations := 3; lc_max_iterations_behavior := FailOnMax;
     lc_variables := [{| lv_name := "text"; lv_value_type := "string";
                         lv_initial := InitConstant (VString "hi");
                         lv_feedback := new_selector "l" "text" [] |}];
     lc_until := {| cases := [{| case_id := "until"; case_logic := LogicAnd; case_conditions := [] |}] |};
     lc_outputs := [{| binding_name := "result"; binding_selector := new_selector "l" "text" [] |}] |}.
Definition echo_body : WorkflowGraph := assemble [plain_node "begin" Start] [] [0] [].
Definition echo_graph : WorkflowGraph :=
  add_loop (assemble [plain_node "s" Start; plain_node "l" Loop]
              [{| e_src := 0; e_dst := 1; e_handle := None |}] [0; 1] []) "l" echo_config echo_body.
Definition echo_outer : WorkflowVariablePool := from_graph echo_graph.
Definition echo_pool : WorkflowVariablePool :=
  default empty_pool (to_option (loop_round_pool echo_graph "l" echo_outer {["text" := VString "hi"]})).

Lemma echo_config_ok : loop_config_ok echo_config.
Proof.
  split_and!; try done.
  - repeat constructor; simpl; try done; by vm_compute.
  - apply NoDup_singleton.
  - repeat constructor; simpl; try done; by vm_compute.
  - apply NoDup_singleton.
  - by eexists.
Qed.

Lemma round_pool_isolated_witness :
  loop_round_pool echo_graph "l" echo_outer {["text" := VString "hi"]} = Ok echo_pool /\
  exists d x y, catalog echo_pool !! "l.text" = Some d /\ writer d = "l" /\
    ({["text" := VString "hi"]} : gmap string Value) !! "text" = Some x /\
    normalize_workflow_value x (value_type d) = Some y /\ values echo_pool !! "l.text" = Some y.
Proof.
  assert (loop_round_pool echo_graph "l" echo_outer {["text" := VString "hi"]} = Ok echo_pool) as H
    by (vm_compute; reflexivity).
  split; [exact H|].
  exact (proj1 (round_pool_isolated echo_graph "l" echo_config echo_body echo_outer _ echo_pool eq_refl
    (NoDup_singleton _) H) _ (list_elem_of_here _ _)).
Defined.

Lemma complete_round_spec_witness :
  exists carried, complete_round echo_config 1 echo_pool = Ok (RoundContinues carried) /\
    carries echo_config carried.
Proof.
  eexists. split; [vm_compute; reflexivity|].
  exact (proj1 (proj2 (proj2 (complete_round_spec echo_config 1 echo_pool echo_config_ok)))).
Defined.

Lemma round_feeds_next_witness :
  exists carried pool, complete_round echo_config 1 echo_pool = Ok (RoundContinues carried) /\
    loop_round_pool echo_graph "l" echo_outer carried = Ok pool.
Proof.
  destruct (complete_round echo_config 1 echo_pool) as [[carried|]|] eqn:E;
    [|vm_compute in E; discriminate E..].
  destruct (round_feeds_next echo_graph "l" echo_config echo_body echo_outer 1 echo_pool carried
    eq_refl echo_config_ok) as (pool & Hpool & _).
  - intros v Hv. apply list_elem_of_singleton in Hv as ->. vm_compute. reflexivity.
  - exact E.
  - exists carried, pool. split; [reflexivity|exact Hpool].
Defined.
End sample.
