(* ===== verification/JsonCodec.v ===== *)
(** * A concrete text form of JSON

    The development's theorems hold for every [JsonText] with the documented round trip.  This
    file holds one such pair, on which the concrete examples are run: a value is printed as the
    bits of its position in an enumeration, and the wire records of a text read the members they
    are named after. *)

From stdpp Require Import countable gmap.
From Stdlib Require Import SpecFloat Ascii.
From S2P Require Import Prelude RustStr Json NodeTypes VariablePool Condition GraphBase NodeConfig.
From S2P Require Import NodeConfig Aggregator Iteration GraphParse.
Local Open Scope ora_scope.

(** ** Values as trees *)

Definition float_leaf (f : spec_float) : (bool + bool) + (unit + (bool * positive * Z)) :=
  match f with
  | S754_zero s => inl (inl s)
  | S754_infinity s => inl (inr s)
  | S754_nan => inr (inl tt)
  | S754_finite s m e => inr (inr (s, m, e))
  end.
Definition leaf_float (l : (bool + bool) + (unit + (bool * positive * Z))) : spec_float :=
  match l with
  | inl (inl s) => S754_zero s
  | inl (inr s) => S754_infinity s
  | inr (inl _) => S754_nan
  | inr (inr (s, m, e)) => S754_finite s m e
  end.

#[export] Instance spec_float_countable : Countable spec_float.
Proof. apply (inj_countable' float_leaf leaf_float). by intros []. Defined.

Definition number_leaf (n : Number) : (N + Z) + spec_float :=
  match n with PosInt n => inl (inl n) | NegInt z => inl (inr z) | Float f => inr f end.
Definition leaf_number (l : (N + Z) + spec_float) : Number :=
  match l with inl (inl n) => PosInt n | inl (inr z) => NegInt z | inr f => Float f end.

#[export] Instance Number_countable : Countable Number.
Proof. apply (inj_countable' number_leaf leaf_number). by intros []. Defined.

Notation leaf := ((unit + bool) + (Number + string))%type.

Fixpoint value_tree (v : Value) : gen_tree leaf :=
  match v with
  | VNull => GenLeaf (inl (inl tt))
  | VBool b => GenLeaf (inl (inr b))
  | VNumber n => GenLeaf (inr (inl n))
  | VString s => GenLeaf (inr (inr s))
  | VArray items => GenNode 0 (map value_tree items)
  | VObject fields =>
      GenNode 1 (map (fun kv => GenNode 2 [GenLeaf (inr (inr kv.1)); value_tree kv.2]) fields)
  end.

Fixpoint tree_value (t : gen_tree leaf) : Value :=
  match t with
  | GenLeaf (inl (inl _)) => VNull
  | GenLeaf (inl (inr b)) => VBool b
  | GenLeaf (inr (inl n)) => VNumber n
  | GenLeaf (inr (inr s)) => VString s
  | GenNode 0 items => VArray (map tree_value items)
  | GenNode _ fields =>
      VObject (map (fun t => match t with
                             | GenNode _ [GenLeaf (inr (inr key)); v] => (key, tree_value v)
                             | _ => ("", VNull)
                             end) fields)
  end.

Lemma tree_value_tree v : tree_value (value_tree v) = v.
Proof.
  induction v as [| | | |items IH|fields IH]; try done; simpl; f_equal; rewrite map_map.
  - induction IH as [|v items Hv _ IHl]; [done|]. simpl. by rewrite Hv, IHl.
  - induction IH as [|[k v] fields Hv _ IHl]; [done|]. simpl in *. by rewrite Hv, IHl.
Qed.

(** ** Trees as text *)

Fixpoint bits (p : positive) : string :=
  match p with
  | xH => ""
  | xO p => String "0"%char (bits p)
  | xI p => String "1"%char (bits p)
  end.
Fixpoint of_bits (s : string) : positive :=
  match s with
  | "" => xH
  | String c s => if bool_decide (c = "1"%char) then xI (of_bits s) else xO (of_bits s)
  end.

Lemma of_bits_bits p : of_bits (bits p) = p.
Proof. induction p as [p IH|p IH|]; [| |done]; simpl; by rewrite IH. Qed.

#[export] Instance bits_json : JsonText := {|
  json_to_string v := bits (encode (value_tree v));
  json_from_str text :=
    t ← decode (of_bits text);
    let v := tree_value t in
    if value_ok v then Some v else None;
|}.

Lemma bits_printed v : value_ok v = true -> json_from_str (json_to_string v) = Some v.
Proof.
  intros Hv. unfold json_from_str, json_to_string, bits_json.
  rewrite of_bits_bits, decode_encode. simpl. by rewrite tree_value_tree, Hv.
Qed.
#[export] Instance bits_read_back : JsonReadBack.
Proof. intros v w Hv. rewrite bits_printed by done. intros [= <-]. apply reads_back_refl. Qed.

(** ** The wire records of a text *)

Definition wire_data_of (data : Value) : WireNodeData :=
  {| wn_node_type := as_str (value_at "kind" data); wn_title := None; wn_description := None;
     wn_instruction := None; wn_input := None; wn_input_variables := []; wn_agent_config := None;
     wn_cases := []; wn_aggregator_config := None; wn_outputs := []; wn_iteration_config := None |}.

Definition wire_node_of (raw : Value) : WireNode :=
  {| wn_id := as_str (value_at "id" raw); wn_data := Some (wire_data_of (value_at "data" raw));
     wn_parent_id := as_str (value_at "parentId" raw) |}.
Definition wire_edge_of (raw : Value) : WireEdge :=
  {| we_source := as_str (value_at "source" raw); we_target := as_str (value_at "target" raw);
     we_source_handle := as_str (value_at "sourceHandle" raw) |}.
Definition wire_global_of (raw : Value) : WireGlobalVariable :=
  {| wg_name := as_str (value_at "name" raw); wg_value_type := as_str (value_at "valueType" raw);
     wg_value := value_field "value" raw |}.

#[export] Instance bits_envelope : EnvelopeDecode := {|
  envelope_from_str text :=
    doc ← json_from_str text;
    Some {| env_nodes := map wire_node_of <$> as_array (value_at "nodes" doc);
            env_edges := map wire_edge_of <$> as_array (value_at "edges" doc);
            env_global_variables := map wire_global_of (array_items (value_at "globalVariables" doc)) |};
|}.
