(* ===== verification/LoopGraph.v ===== *)
(** * Container graphs ([engine/loop_graph.rs], [engine/loop_bindings.rs])

    A document with Loop containers is partitioned into a root scope and one body per Loop; every
    scope is parsed by the flat parser, and the explicit variable bindings of every scope are
    checked against what the scope can see. *)

From S2P Require Import Prelude RustStr Order Json NodeTypes VariablePool VariableTemplate Condition.
From S2P Require Import StructuredOutput GraphBase Aggregator NodeConfig Iteration.
From S2P Require Import NodeConfig GraphBase Graph Projection Declarations GraphParse Resume.
From S2P Require Import Executable Store StorePayload JsonCodec.
Local Open Scope ora_scope.

(** ** JSON accessors *)

Definition invalid (reason : string) : GraphError := InvalidNode reason.
Definition is_blank (text : string) : bool := bool_decide (trim text = "").
Definition non_blank (v : Value) : option string :=
  text ← as_str v; if is_blank text then None else Some text.


Definition node_kind (raw : Value) : Value := value_at "kind" (value_at "data" raw).
Definition container_of (raw : Value) : option Value := value_field "containerId" (value_at "data" raw).

(** ** Visibility of bindings ([loop_bindings.rs]) *)

Section bindings.
Context {pet : Petgraph}.

Definition require_visible (globals : list string) (visible_node : string -> bool)
    (selector : VariableSelector) : result GraphError unit :=
  reject_if (negb (visible_node (sel_node_id selector)
                   || bool_decide (qualified selector ∈ globals)))
    (invalid ("selector " +:+ qualified selector +:+ " is outside the visible Loop scope")).

Definition rule_selectors (config : ConditionConfig) : list VariableSelector :=
  rule_selector <$> (cases config ≫= case_conditions).

(** The selectors of the Condition and Output configuration of a node. *)
Definition node_selectors (n : WorkflowGraphNode) : list VariableSelector :=
  match gn_condition_config n with Some config => rule_selectors config | None => [] end
  ++ match gn_output_config n with
     | Some config => binding_selector <$> output_bindings config | None => [] end.

Definition id_in (ids : list string) (id : string) : bool := bool_decide (id ∈ ids).

Definition validate_node_bindings (g : WorkflowGraph) (globals inherited : list string) :
    result GraphError unit :=
  for_each (fun n =>
    let ancestors := gn_id <$> transitive_predecessors g (gn_id n) in
    for_each (require_visible globals (fun id => id_in ancestors id || id_in inherited id))
      (node_selectors n)) (g_nodes g).

Definition initial_selectors (config : LoopConfig) : list VariableSelector :=
  omap (fun v => match lv_initial v with InitVariable s => Some s | InitConstant _ => None end)
    (lc_variables config).

(** The selectors a round reads when it completes. *)
Definition round_selectors (config : LoopConfig) : list VariableSelector :=
  (lv_feedback <$> lc_variables config) ++ (binding_selector <$> lc_outputs config)
  ++ rule_selectors (lc_until config).

Definition validate_loop_bindings (root : WorkflowGraph) (globals : list string)
    (n : WorkflowGraphNode) : result GraphError unit :=
  match loop_body root (gn_id n) with
  | None => Ok tt
  | Some (config, body) =>
      let ancestors := gn_id <$> transitive_predecessors root (gn_id n) in
      _ ← for_each (require_visible globals (id_in ancestors)) (initial_selectors config);
      let visible id := bool_decide (id = gn_id n) || bool_decide (is_Some (node body id))
                        || id_in ancestors id in
      _ ← for_each (require_visible globals visible) (round_selectors config);
      validate_node_bindings body globals (gn_id n :: ancestors)
  end.

(** [loop_bindings::validate] *)
Definition validate_bindings (root : WorkflowGraph) : result GraphError unit :=
  let globals := gv_name <$> g_global_variables root in
  _ ← validate_node_bindings root globals [];
  for_each (validate_loop_bindings root globals) (nodes_in_topological_order root).
End bindings.

(** ** Queries over scopes *)

(** The bodies of the nodes of a graph, in node order. *)
Definition bodies (g : WorkflowGraph) : list WorkflowGraph :=
  omap (fun n => snd <$> loop_body g (gn_id n)) (g_nodes g).

(** [WorkflowGraph::execution_node]; the fuel bounds the nesting of bodies. *)
Fixpoint execution_node_at (fuel : nat) (g : WorkflowGraph) (id : string) : option WorkflowGraphNode :=
  match fuel with
  | 0 => None
  | S fuel =>
      match node g id with
      | Some n => Some n
      | None => head (omap (fun body => execution_node_at fuel body id) (bodies g))
      end
  end.
Definition execution_node (g : WorkflowGraph) (id : string) : option WorkflowGraphNode :=
  execution_node_at (loops_depth g) g id.

(** [WorkflowGraph::execution_scopes] *)
Fixpoint execution_scopes_at (fuel : nat) (g : WorkflowGraph) : list WorkflowGraph :=
  match fuel with
  | 0 => []
  | S fuel => g :: (bodies g ≫= execution_scopes_at fuel)
  end.
Definition execution_scopes (g : WorkflowGraph) : list WorkflowGraph :=
  execution_scopes_at (loops_depth g) g.

(** ** The partition *)

(** The state of the node loop; [sl_nodes] is the map from owners to their nodes. *)
Record ScopeLoop : Type := {
  sl_owners : gmap string (option string);
  sl_configs : gmap string LoopConfig;
  sl_nodes : list (option string * Value);
}.

Definition nodes_of (owner : option string) (l : list (option string * Value)) : list Value :=
  snd <$> filter (fun p => p.1 = owner) l.

Section scoped.
Context {debug : DebugText} {json : JsonText} {loops : LoopDecode}.

Definition scoped_owner (raw : Value) : result GraphError (option string) :=
  match container_of raw with
  | None => Ok None
  | Some v =>
      match non_blank v with
      | Some owner => Ok (Some owner)
      | None => Err (invalid "containerId must be a non-empty string when present")
      end
  end.

(** The node without its renderer parentage, when a container owns it. *)
Definition scoped_node (owner : option string) (raw : Value) : Value :=
  match owner, raw with
  | Some _, VObject object => VObject (map_swap_remove "parentId" object)
  | _, _ => raw
  end.

Definition parent_agrees (owner : option string) (raw : Value) : bool :=
  match owner, value_field "parentId" raw with
  | Some _, Some parent => bool_decide (as_str parent = owner)
  | _, _ => true
  end.

Definition add_scoped_node (edges : list Value) (acc : ScopeLoop) (raw : Value) :
    result GraphError ScopeLoop :=
  id ← ok_or (non_blank (value_at "id" raw)) (invalid "node has no non-empty ID");
  owner ← scoped_owner raw;
  reject (text_is "loopExit" (node_kind raw)
          && (bool_decide (owner = None) || existsb (fun e => text_is id (value_at "source" e)) edges))
    with (invalid "loopExit must belong to a Loop and have no outgoing edges");
  reject (bool_decide (is_Some (sl_owners acc !! id))) with (DuplicateNodeId id);
  configs ←
    (if text_is "loop" (node_kind raw) then
       reject (bool_decide (is_Some owner) || bool_decide (is_Some (value_field "parentId" raw)))
         with (invalid "nested Loops are not supported");
       config ← map_err (fun reason => invalid ("loop " +:+ id +:+ ": " +:+ reason))
                  (parse_loop_config (value_at "loopConfig" (value_at "data" raw)));
       Ok (<[id := config]> (sl_configs acc))
     else Ok (sl_configs acc));
  reject (bool_decide (is_Some owner) && text_is "iteration" (node_kind raw))
    with (invalid "nested composite nodes are not supported");
  reject (negb (parent_agrees owner raw)) with (invalid "parentId disagrees with data.containerId");
  Ok {| sl_owners := <[id := owner]> (sl_owners acc); sl_configs := configs;
        sl_nodes := sl_nodes acc ++ [(owner, scoped_node owner raw)] |}.

Definition add_scoped_edge (owners : gmap string (option string))
    (acc : list (option string * Value)) (edge : Value) :
    result GraphError (list (option string * Value)) :=
  source ← ok_or (as_str (value_at "source" edge)) (invalid "edge has no source");
  target ← ok_or (as_str (value_at "target" edge)) (invalid "edge has no target");
  source_owner ← ok_or (owners !! source) (DanglingEdge source);
  target_owner ← ok_or (owners !! target) (DanglingEdge target);
  reject (negb (bool_decide (source_owner = target_owner)))
    with (invalid "edges cannot cross Loop boundaries");
  Ok (acc ++ [(source_owner, edge)]).

Definition scope_document (nodes edges : list Value) (globals : Value) : Value :=
  VObject [("nodes", VArray nodes); ("edges", VArray edges); ("globalVariables", globals)].

Definition has_containers (envelope : Value) : bool :=
  existsb (fun raw => text_is "loop" (node_kind raw) || bool_decide (is_Some (container_of raw)))
    (array_items (value_at "nodes" envelope)).
Definition has_loop_exit (envelope : Value) : bool :=
  existsb (fun raw => text_is "loopExit" (node_kind raw)) (array_items (value_at "nodes" envelope)).

Definition document_globals (envelope : Value) : Value :=
  match value_field "globalVariables" envelope with
  | Some v => v
  | None => match value_field "global_variables" envelope with Some v => v | None => VArray [] end
  end.
End scoped.

Section parse.
Context {debug : DebugText} {json : JsonText} {policy : PolicyDecode} {order : HashOrder}
  {pet : Petgraph} {envelope : EnvelopeDecode} {loops : LoopDecode}.

Definition validate_scope (g : WorkflowGraph) : result GraphError unit :=
  reject (bool_decide (start_node g = None))
    with (invalid "every container scope requires one Start node");
  reject_if (negb (bool_decide (unreachable_from_start g = [])))
    (invalid ("unreachable scope nodes: " +:+ debug_strs (unreachable_from_start g))).

(** The owners that are no Loop, in the order the hash map lists the nodes. *)
Definition check_owners (acc : ScopeLoop) : result GraphError unit :=
  for_each (fun id =>
    match sl_owners acc !! id with
    | Some (Some owner) =>
        reject_if (negb (bool_decide (is_Some (sl_configs acc !! owner))))
          (invalid ("unknown Loop owner " +:+ owner))
    | _ => Ok tt
    end) (hash_keys (sl_owners acc)).

Definition parse_scope (nodes edges : list Value) (globals : Value) : result GraphError WorkflowGraph :=
  g ← parse_flat (json_to_string (scope_document nodes edges globals));
  _ ← validate_scope g;
  Ok g.

Definition parse_body (acc : ScopeLoop) (edges : list (option string * Value)) (globals : Value)
    (entry : string * LoopConfig) : result GraphError (string * (LoopConfig * WorkflowGraph)) :=
  body ← parse_scope (nodes_of (Some entry.1) (sl_nodes acc)) (nodes_of (Some entry.1) edges) globals;
  reject (existsb (fun n => bool_decide (gn_type n = Output)) (g_nodes body))
    with (invalid "Loop bodies export results through loopConfig.outputs");
  Ok (entry.1, (entry.2, body)).

Definition with_loops (g : WorkflowGraph) (l : list (string * (LoopConfig * WorkflowGraph))) :
    WorkflowGraph :=
  {| g_nodes := g_nodes g; g_edges := g_edges g; g_index_by_id := g_index_by_id g;
     g_topo_rank := g_topo_rank g; g_global_variables := g_global_variables g;
     g_loops := l; g_regions := g_regions g; g_region_by_member := g_region_by_member g |}.

Definition parse_containers (doc : Value) : result GraphError WorkflowGraph :=
  nodes ← ok_or (as_array (value_at "nodes" doc)) MissingNodes;
  edges ← ok_or (as_array (value_at "edges" doc)) MissingEdges;
  reject (negb (integer_is 2 (value_at "schemaVersion" doc)))
    with (invalid "container graphs require schemaVersion 2");
  acc ← fold_result (add_scoped_node edges) {| sl_owners := ∅; sl_configs := ∅; sl_nodes := [] |} nodes;
  _ ← check_owners acc;
  scoped_edges ← fold_result (add_scoped_edge (sl_owners acc)) [] edges;
  let globals := document_globals doc in
  root ← parse_scope (nodes_of None (sl_nodes acc)) (nodes_of None scoped_edges) globals;
  parsed ← traverse (parse_body acc scoped_edges globals) (btree_entries str_le (sl_configs acc));
  let root := with_loops root parsed in
  _ ← validate_bindings root;
  Ok root.

(** [parse_scoped_graph] *)
Definition parse_scoped_graph (source : string) : result GraphError WorkflowGraph :=
  doc ← ok_or (json_from_str source) InvalidJson;
  if negb (has_containers doc) then
    reject (has_loop_exit doc) with (invalid "loopExit must belong to a Loop");
    parse_flat source
  else parse_containers doc.
End parse.

(** ** What the flat parser keeps of its document *)

Section wire.
Context {debug : DebugText} {json : JsonText} {policy : PolicyDecode} {order : HashOrder}
  {pet : Petgraph} {envelope : EnvelopeDecode}.

(** The node built from a wire node. *)
Definition node_of_wire (w : WireNode) (n : WorkflowGraphNode) : Prop :=
  wn_id w = Some (gn_id n) /\ (wn_data w ≫= wn_node_type) = Some (node_type_as_str (gn_type n)).

Lemma add_node_wire acc w nl :
  add_node acc w = Ok nl -> exists n e, nl_nodes nl = nl_nodes acc ++ [n] /\ node_of_wire w n /\
    nl_containment nl = nl_containment acc ++ [e] /\ entry_id e = gn_id n /\ entry_parent e = wn_parent_id w.
Proof.
  unfold add_node. intros H. inv_ok.
  apply build_node_Ok in Hx3 as (Hid & Ht & _). simpl.
  eexists _, _. split_and!; [done| |done|by simpl|done]. split; [by rewrite Hx, Hid|].
  rewrite Hx1, Ht. unfold parse_kind in Hx2. inv_ok. simpl.
  match goal with H : node_type_from_str _ = Ok _ |- _ => apply node_type_from_str_Ok in H as <- end. done.
Qed.

Lemma parse_nodes_wire ws nl :
  parse_nodes ws = Ok nl -> Forall2 node_of_wire ws (nl_nodes nl) /\
    Forall2 (fun w e => wn_id w = Some (entry_id e) /\ entry_parent e = wn_parent_id w) ws (nl_containment nl).
Proof.
  unfold parse_nodes. intros H. eapply (fold_result_inv (fun ws nl =>
    Forall2 node_of_wire ws (nl_nodes nl) /\
    Forall2 (fun w e => wn_id w = Some (entry_id e) /\ entry_parent e = wn_parent_id w) ws (nl_containment nl)));
    [| |exact H].
  - by repeat constructor.
  - intros l w s1 s2 [H1 H2] _ (n & e & -> & Hw & -> & He & Hp)%add_node_wire.
    split; apply Forall2_app; try done; constructor; try done. destruct Hw as [Hw _]. by rewrite He.
Qed.

Lemma parse_flat_wire text g :
  parse_flat text = Ok g -> exists env ws, envelope_from_str text = Some env /\ env_nodes env = Some ws /\
    Forall2 node_of_wire ws (g_nodes g) /\
    (forall m o, region_owner g m = Some o ->
       exists w, w ∈ ws /\ wn_id w = Some m /\ wn_parent_id w = Some o).
Proof.
  unfold parse_flat, parse_envelope. intros H. inv_ok.
  pose proof (parse_nodes_built _ _ Hx3) as [Hids _ _ Hcont _ _].
  apply parse_nodes_wire in Hx3 as [Hn Hc]. unfold derive_and_validate_regions in Hx7. inv_ok.
  exists x, x0. split_and!; [done|done|done|].
  assert (NoDup (entry_id <$> nl_containment x3)) as Hnd.
  { replace (entry_id <$> nl_containment x3) with (gn_id <$> nl_nodes x3); [done|].
    clear -Hcont. induction Hcont as [|n e ns es (Hid & _) _ IH]; [done|]. csimpl. by rewrite Hid, IH. }
  match goal with H : derive_regions _ _ = Ok _ |- _ => rename H into Hder end.
  intros m o Hm. unfold region_owner in Hm. simpl in Hm.
  apply (region_by_member_spec _ _ _ _ _ Hnd Hder) in Hm as (r & Hr & Hm).
  apply derive_regions_children in Hder as [_ Hch]. apply Hch in Hr as [_ ->]. simpl in Hm.
  apply list_elem_of_fmap in Hm as (e & -> & [Hp [i Hi]%list_elem_of_lookup]%list_elem_of_filter).
  destruct (Forall2_lookup_r _ _ _ _ _ Hc Hi) as (w & Hw & Hid & Hpar).
  exists w. split_and!; [by eapply list_elem_of_lookup_2|done|congruence].
Qed.
End wire.

(** ** The partition *)

(** The nodes of a document are objects, and so is the [data] of each. *)
Definition node_is_object (raw : Value) : bool := is_object raw && is_object (value_at "data" raw).
Definition structured (doc : Value) : bool :=
  is_object doc && forallb node_is_object (array_items (value_at "nodes" doc)).

(** Documented behaviour of the decoders: an object that was read has every key once, and a derived decoder reads from the text of
    an object the members its fields are named after. *)
Class DocumentLaws `{JsonText, EnvelopeDecode} : Prop := {
  parsed_ok text doc : json_from_str text = Some doc -> value_ok doc = true;
  decoded_nodes doc env ws : value_ok doc = true -> structured doc = true ->
    envelope_from_str (json_to_string doc) = Some env ->
    env_nodes env = Some ws -> exists raws, as_array (value_at "nodes" doc) = Some raws /\
      Forall2 (fun raw w => wn_id w = as_str (value_at "id" raw) /\
        wn_parent_id w = as_str (value_at "parentId" raw) /\
        (wn_data w ≫= wn_node_type) = as_str (node_kind raw)) raws ws;
}.

Definition raw_id (raw : Value) : string := default "" (as_str (value_at "id" raw)).
Definition raw_owner (raw : Value) : option string := container_of raw ≫= non_blank.

Lemma non_blank_Some v s : non_blank v = Some s -> as_str v = Some s.
Proof. unfold non_blank. intros (t & Ht & H)%bind_Some. destruct (is_blank t); [done|]. congruence. Qed.

(** Dropping the renderer parentage changes no other member. *)
Lemma scoped_node_field key owner raw :
  value_ok raw = true -> key <> "parentId" -> value_at key (scoped_node owner raw) = value_at key raw.
Proof.
  intros Hok Hne. unfold scoped_node. destruct owner; [|done]. destruct raw as [| | | | |fields]; try done.
  simpl in Hok. apply andb_true_iff in Hok as [Hnd%bool_decide_eq_true _].
  unfold value_at, value_field. f_equal.
  assert (map_swap_remove "parentId" fields ≡ₚ map_remove "parentId" fields) as Hp
    by (by apply map_swap_remove_perm).
  rewrite <-(map_get_perm key (map_remove "parentId" fields)).
  - by apply map_get_remove_ne.
  - by apply map_remove_NoDup.
  - done.
Qed.

Lemma scoped_node_parent owner raw :
  value_ok raw = true -> is_Some owner -> value_field "parentId" (scoped_node owner raw) = None.
Proof.
  intros Hok [o ->]. destruct raw as [| | | | |fields]; try done. simpl in *.
  apply andb_true_iff in Hok as [Hnd%bool_decide_eq_true _].
  rewrite <-(map_get_remove "parentId" fields). symmetry. apply map_get_perm.
  - by apply map_remove_NoDup.
  - symmetry. by apply map_swap_remove_perm.
Qed.

Section partition.
Context {debug : DebugText} {json : JsonText} {loops : LoopDecode}.

(** What the node loop has gathered from the nodes seen so far. *)
Record partitioned (raws : list Value) (acc : ScopeLoop) : Prop := {
  pt_ids raw : raw ∈ raws -> as_str (value_at "id" raw) = Some (raw_id raw);
  pt_unique : NoDup (raw_id <$> raws);
  pt_owners id o : sl_owners acc !! id = Some o <-> exists raw, raw ∈ raws /\ raw_id raw = id /\ raw_owner raw = o;
  pt_nodes : sl_nodes acc = (fun raw => (raw_owner raw, scoped_node (raw_owner raw) raw)) <$> raws;
  pt_configs id config : sl_configs acc !! id = Some config -> loop_config_ok config /\
    exists raw, raw ∈ raws /\ raw_id raw = id /\ raw_owner raw = None /\
      value_field "parentId" raw = None /\ text_is "loop" (node_kind raw) = true;
  pt_loops raw : raw ∈ raws -> text_is "loop" (node_kind raw) = true ->
    is_Some (sl_configs acc !! raw_id raw) /\ raw_owner raw = None;
}.

Lemma scoped_owner_Ok raw o : scoped_owner raw = Ok o -> raw_owner raw = o.
Proof.
  unfold scoped_owner, raw_owner. destruct (container_of raw) as [v|]; simpl; [|congruence].
  destruct (non_blank v); congruence.
Qed.

Lemma add_scoped_node_partitioned edges raws raw acc acc' :
  partitioned raws acc -> add_scoped_node edges acc raw = Ok acc' -> partitioned (raws ++ [raw]) acc'.
Proof.
  intros [Hids Huniq Howners Hnodes Hconfigs Hloops] H. unfold add_scoped_node in H.
  apply bind_Ok in H as (id & Hid%ok_or_Ok%non_blank_Some & H).
  apply bind_Ok in H as (owner & Hown%scoped_owner_Ok & H).
  apply reject_Ok in H as [_ H]. apply reject_Ok in H as [Hfree%bool_decide_eq_false H].
  apply bind_Ok in H as (configs & Hconf & H). apply reject_Ok in H as [_ H].
  apply reject_Ok in H as [_ H]. injection H as <-.
  assert (raw_id raw = id) as Hraw by (unfold raw_id; by rewrite Hid).
  assert (id ∉ raw_id <$> raws) as Hnew.
  { intros (r & Hr & Hin)%list_elem_of_fmap. apply Hfree. exists (raw_owner r). apply Howners. by exists r. }
  split; simpl.
  - intros r [Hr| ->%list_elem_of_singleton]%elem_of_app; [by apply Hids|congruence].
  - apply NoDup_snoc; [done|]. by rewrite Hraw.
  - intros k o. rewrite lookup_insert. setoid_rewrite elem_of_app. setoid_rewrite list_elem_of_singleton.
    case_decide as Hk.
    + subst k. split; [intros [= <-]; exists raw; auto|].
      intros (r & [Hr|Hr] & Hrid & Hro); [|congruence].
      exfalso. apply Hnew. rewrite <-Hrid. by apply list_elem_of_fmap_2.
    + rewrite Howners. split; [intros (r & ? & ?); exists r; auto|].
      intros (r & [Hr| ->] & Hrid & Hro); [by exists r|congruence].
  - subst owner. by rewrite Hnodes, fmap_app.
  - intros k config Hk. destruct (text_is "loop" (node_kind raw)) eqn:Ek.
    + apply reject_Ok in Hconf as [Hnest Hconf]. inv_ok. apply lookup_insert_Some in Hk as [[<- <-]|[_ Hk]].
      * apply orb_false_iff in Hnest as [Ho%bool_decide_eq_false Hp%bool_decide_eq_false].
        split.
        { match goal with H : parse_loop_config _ = Ok _ |- _ => unfold parse_loop_config in H; inv_ok end.
          by eapply compile_loop_config_ok. }
        exists raw. split_and!; [set_solver|done|..|done].
        -- destruct (raw_owner raw); [destruct Ho; by eexists|done].
        -- destruct (value_field "parentId" raw); [destruct Hp; by eexists|done].
      * destruct (Hconfigs k config Hk) as (? & r & ? & ?). split; [done|]. exists r. set_solver.
    + inv_ok. destruct (Hconfigs k config Hk) as (? & r & ? & ?). split; [done|]. exists r. set_solver.
  - intros r [Hr| ->%list_elem_of_singleton]%elem_of_app Hk.
    + destruct (Hloops r Hr Hk) as [Hs Ho]. split; [|done].
      destruct (text_is "loop" (node_kind raw)); inv_ok; [|done]. by apply lookup_insert_is_Some'; right.
    + rewrite Hk in Hconf. apply reject_Ok in Hconf as [Hnest Hconf]. inv_ok.
      split; [rewrite lookup_insert_eq; by eexists|].
      apply orb_false_iff in Hnest as [Ho%bool_decide_eq_false _].
      destruct (raw_owner raw); [destruct Ho; by eexists|done].
Qed.

Lemma partition_Ok edges raws acc :
  fold_result (add_scoped_node edges) {| sl_owners := ∅; sl_configs := ∅; sl_nodes := [] |} raws = Ok acc ->
  partitioned raws acc.
Proof.
  intros H. eapply (fold_result_inv partitioned); [| |exact H].
  - split; simpl; try by intros ? ?%elem_of_nil.
    + constructor.
    + intros id o. rewrite lookup_empty. split; [done|]. by intros (? & ?%elem_of_nil & _).
    + done.
    + intros id config. by rewrite lookup_empty.
  - intros l raw s1 s2 Hp _ Hadd. by eapply add_scoped_node_partitioned.
Qed.

Lemma nodes_of_fmap owner raws :
  nodes_of owner ((fun raw => (raw_owner raw, scoped_node (raw_owner raw) raw)) <$> raws) =
  scoped_node owner <$> filter (fun raw => raw_owner raw = owner) raws.
Proof.
  unfold nodes_of. induction raws as [|raw raws IH]; [done|]. csimpl. rewrite !filter_cons. cbn [fst].
  destruct (decide (raw_owner raw = owner)) as [<-|]; csimpl; by rewrite IH.
Qed.
End partition.

(** A scope runs from its Start node, which reaches every other node. *)
Definition well_scoped (g : WorkflowGraph) : Prop :=
  exists start, start_node g = Some start /\
    forall n, n ∈ g_nodes g -> n = start \/ tc (id_step g) (gn_id start) (gn_id n).

(** The raw node a graph node was parsed from. *)
Definition parsed_from (raw : Value) (n : WorkflowGraphNode) : Prop :=
  as_str (value_at "id" raw) = Some (gn_id n) /\
  as_str (node_kind raw) = Some (node_type_as_str (gn_type n)).

Section scope.
Context {debug : DebugText} {json : JsonText} {policy : PolicyDecode} {order : HashOrder}
  {pet : Petgraph} {envelope : EnvelopeDecode} {loops : LoopDecode}.
Context {laws : DocumentLaws} {read_back : JsonReadBack}.

Lemma flat_parsed doc g :
  value_ok doc = true -> structured doc = true -> parse_flat (json_to_string doc) = Ok g ->
  exists raws, as_array (value_at "nodes" doc) = Some raws /\ Forall2 parsed_from raws (g_nodes g) /\
    forall m o, region_owner g m = Some o -> exists raw, raw ∈ raws /\
      as_str (value_at "id" raw) = Some m /\ as_str (value_at "parentId" raw) = Some o.
Proof.
  intros Hdoc Hs (env & ws & Henv & Hws & Hnodes & Howner)%parse_flat_wire.
  destruct (decoded_nodes doc env ws Hdoc Hs Henv Hws) as (raws & Hraws & Hdec).
  exists raws. split; [done|]. split.
  - clear -Hdec Hnodes. revert raws Hdec. induction Hnodes as [|w n ws ns [Hid Hk] _ IH]; intros raws Hdec.
    { inversion Hdec. constructor. }
    inversion Hdec as [|raw ? raws' ? (Hrid & _ & Hrk) Hrest]; subst. constructor; [|by apply IH].
    split; congruence.
  - intros m o (w & [i Hw]%list_elem_of_lookup & Hid & Hpar)%Howner.
    destruct (Forall2_lookup_r _ _ _ _ _ Hdec Hw) as (raw & Hraw & Hrid & Hrp & _).
    exists raw. split_and!; [by eapply list_elem_of_lookup_2|congruence..].
Qed.

Lemma validate_scope_Ok g u : graph_ok g -> validate_scope g = Ok u -> well_scoped g.
Proof.
  intros Hg H. unfold validate_scope in H. apply reject_Ok in H as [Hs%bool_decide_eq_false H].
  apply reject_if_Ok, negb_false_iff, bool_decide_eq_true in H.
  destruct (start_node g) as [start|] eqn:E; [|done]. exists start. split; [done|].
  by apply (unreachable_nil g start).
Qed.

Lemma parse_scope_Ok nodes edges globals g :
  Forall (fun v => value_ok v = true) nodes -> Forall (fun v => node_is_object v = true) nodes ->
  Forall (fun v => value_ok v = true) edges -> value_ok globals = true -> parse_scope nodes edges globals = Ok g ->
  graph_ok g /\ regions_ok g /\ well_scoped g /\ g_loops g = [] /\
  Forall2 parsed_from nodes (g_nodes g) /\
  (forall m o, region_owner g m = Some o -> exists raw, raw ∈ nodes /\
     as_str (value_at "id" raw) = Some m /\ as_str (value_at "parentId" raw) = Some o).
Proof.
  intros Hn Hobj He Hg H. unfold parse_scope in H.
  apply bind_Ok in H as (g' & Hflat & H). apply bind_Ok in H as (u & Hscope & H). injection H as <-.
  pose proof (parse_flat_sound _ _ Hflat) as (Hok & Hr & _ & _ & _ & _ & _ & Hloops & _).
  assert (value_ok (scope_document nodes edges globals) = true) as Hdoc.
  { unfold scope_document. cbn [value_ok]. apply andb_true_iff. split; [by apply bool_decide_eq_true, (bool_decide_unpack _)|].
    cbn [forallb snd value_ok]. rewrite Hg, (proj2 (forallb_True _ _) Hn), (proj2 (forallb_True _ _) He). done. }
  destruct (flat_parsed _ g' Hdoc) as (raws & Hraws & Hfrom & Howner); [by apply forallb_True|done|].
  simpl in Hraws. injection Hraws as <-.
  split_and!; [done|done|by eapply validate_scope_Ok|done|done|done].
Qed.
End scope.

(** The container graph a document is parsed into. *)
Record containers_ok {debug : DebugText} (g : WorkflowGraph) : Prop := {
  co_graph : graph_ok g;
  co_regions : regions_ok g;
  co_apart : loops_apart g;
  co_loop n : n ∈ g_nodes g -> gn_type n = Loop -> is_Some (loop_body g (gn_id n));
  co_body id config body : loop_body g id = Some (config, body) ->
    (exists n, node g id = Some n /\ gn_type n = Loop) /\ loop_config_ok config /\
    graph_ok body /\ well_scoped body /\ g_loops body = [] /\
    forall n, n ∈ g_nodes body -> gn_type n <> Output /\ gn_type n <> Loop /\ region body (gn_id n) = None;
  co_disjoint id id' config config' body body' m :
    loop_body g id = Some (config, body) -> loop_body g id' = Some (config', body') ->
    m ∈ (gn_id <$> g_nodes body) -> m ∈ (gn_id <$> g_nodes body') -> id = id';
}.

Section sound.
Context {debug : DebugText} {json : JsonText} {policy : PolicyDecode} {order : HashOrder}
  {pet : Petgraph} {envelope : EnvelopeDecode} {loops : LoopDecode}.
Context {laws : DocumentLaws} {read_back : JsonReadBack}.

Lemma parsed_ids raws ns :
  Forall2 parsed_from raws ns -> gn_id <$> ns = raw_id <$> raws.
Proof.
  induction 1 as [|raw n raws ns [Hid _] _ IH]; [done|]. csimpl. f_equal; [|done].
  unfold raw_id. by rewrite Hid.
Qed.

(** The scope of an owner, from the partition of the document. *)
Lemma owned_ids owner raws ns :
  Forall (fun v => value_ok v = true) raws ->
  Forall2 parsed_from (scoped_node owner <$> filter (fun raw => raw_owner raw = owner) raws) ns ->
  forall m, m ∈ (gn_id <$> ns) <-> exists raw, raw ∈ raws /\ raw_owner raw = owner /\ raw_id raw = m.
Proof.
  intros Hok Hfrom m. rewrite (parsed_ids _ _ Hfrom), <-list_fmap_compose, list_elem_of_fmap.
  rewrite Forall_forall in Hok. setoid_rewrite list_elem_of_filter. split.
  - intros (raw & -> & Ho & Hin). exists raw. split_and!; [done|done|]. simpl. unfold raw_id.
    by rewrite scoped_node_field by (try done; by apply Hok).
  - intros (raw & Hin & Ho & <-). exists raw. split; [|done]. simpl. unfold raw_id.
    by rewrite scoped_node_field by (try done; by apply Hok).
Qed.

Lemma region_owned_by_iteration g o r : regions_ok g -> region g o = Some r ->
  exists n, node g o = Some n /\ gn_type n = Iteration.
Proof. intros Hr H. by apply (ro_iteration g Hr) in H as (_ & _ & ?). Qed.

Lemma loop_body_with_loops g l id :
  loop_body (with_loops g l) id = snd <$> find_first (fun p => bool_decide (p.1 = id)) l.
Proof. done. Qed.

Lemma flat_containers_ok doc g : value_ok doc = true -> structured doc = true ->
  has_containers doc = false -> parse_flat (json_to_string doc) = Ok g -> containers_ok g.
Proof.
  intros Hdoc Hs Hno Hflat.
  pose proof (parse_flat_sound _ _ Hflat) as (Hok & Hr & _ & _ & _ & _ & _ & Hloops & _).
  destruct (flat_parsed _ g Hdoc Hs Hflat) as (raws & Hraws & Hfrom & _).
  assert (forall id, loop_body g id = None) as Hnone by (intros id; unfold loop_body; by rewrite Hloops).
  split; try done.
  - by apply flat_loops_apart.
  - intros n [i Hi]%list_elem_of_lookup Ht. exfalso.
    destruct (Forall2_lookup_r _ _ _ _ _ Hfrom Hi) as (raw & Hraw & _ & Hk).
    unfold has_containers, array_items in Hno. rewrite Hraws in Hno. simpl in Hno.
    apply existsb_False in Hno. rewrite Forall_forall in Hno.
    specialize (Hno raw (list_elem_of_lookup_2 _ _ _ Hraw)). apply orb_false_iff in Hno as [Hno _].
    unfold text_is in Hno. apply bool_decide_eq_false in Hno. rewrite Hk, Ht in Hno. done.
  - intros id config body Hb. by rewrite Hnone in Hb.
  - intros id id' config config' body body' m Hb. by rewrite Hnone in Hb.
Qed.

(** The bodies parsed for the configured Loops. *)
Lemma bodies_parsed acc edges globals parsed :
  traverse (parse_body acc edges globals) (btree_entries str_le (sl_configs acc)) = Ok parsed ->
  NoDup parsed.*1 /\
  (forall id, is_Some (sl_configs acc !! id) -> exists x, (id, x) ∈ parsed) /\
  forall id config body, (id, (config, body)) ∈ parsed ->
    sl_configs acc !! id = Some config /\
    parse_scope (nodes_of (Some id) (sl_nodes acc)) (nodes_of (Some id) edges) globals = Ok body /\
    forall n, n ∈ g_nodes body -> gn_type n <> Output.
Proof.
  intros H%traverse_Ok.
  assert (forall e p, parse_body acc edges globals e = Ok p -> p.1 = e.1 /\ p.2.1 = e.2 /\
    parse_scope (nodes_of (Some e.1) (sl_nodes acc)) (nodes_of (Some e.1) edges) globals = Ok p.2.2 /\
    forall n, n ∈ g_nodes p.2.2 -> gn_type n <> Output) as Hbody.
  { intros e p Hp. unfold parse_body in Hp. apply bind_Ok in Hp as (body & Hb & Hp).
    apply reject_Ok in Hp as [Hout Hp]. injection Hp as <-. split_and!; [done..|].
    intros n Hn Ht. apply existsb_False in Hout. rewrite Forall_forall in Hout.
    specialize (Hout n Hn). by rewrite bool_decide_true in Hout. }
  assert (parsed.*1 = btree_keys str_le (sl_configs acc)) as Hkeys.
  { unfold btree_keys. revert H. generalize (btree_entries str_le (sl_configs acc)). intros l H.
    induction H as [|e p l ps Hp _ IH]; [done|]. csimpl. f_equal; [|done]. by apply Hbody in Hp as [-> _]. }
  split_and!.
  - rewrite Hkeys. apply btree_keys_NoDup.
  - intros id [c Hc]. assert (id ∈ parsed.*1) as Hin by (rewrite Hkeys; apply elem_of_btree_keys; by eexists).
    apply list_elem_of_fmap in Hin as ([k x] & -> & Hin). by exists x.
  - intros id config body Hin. apply list_elem_of_lookup in Hin as [i Hi].
    destruct (Forall2_lookup_r _ _ _ _ _ H Hi) as ([k c] & He & Hp).
    apply Hbody in Hp as (Hk & Hc & Hs & Hout). simpl in *. subst. split_and!; [|done|done].
    apply (elem_of_btree_entries str_le). by eapply list_elem_of_lookup_2.
Qed.

Lemma Forall_filter_keep {A} (P Q : A -> Prop) `{forall x, Decision (Q x)} l :
  Forall P l -> Forall P (filter Q l).
Proof. rewrite !Forall_forall. intros HP x [_ Hx]%list_elem_of_filter. by apply HP. Qed.

Lemma value_ok_document_globals doc : value_ok doc = true -> value_ok (document_globals doc) = true.
Proof.
  intros Hok. unfold document_globals.
  destruct (value_field "globalVariables" doc) as [v|] eqn:E1; [by eapply value_ok_field|].
  destruct (value_field "global_variables" doc) as [v|] eqn:E2; [by eapply value_ok_field|done].
Qed.

Lemma value_ok_scoped_node owner raw : value_ok raw = true -> value_ok (scoped_node owner raw) = true.
Proof.
  intros Hok. unfold scoped_node. destruct owner; [|done]. destruct raw as [| | | | |fields]; try done.
  simpl in *. apply andb_true_iff in Hok as [Hnd%bool_decide_eq_true Hall].
  assert (map_swap_remove "parentId" fields ≡ₚ map_remove "parentId" fields) as Hp by (by apply map_swap_remove_perm).
  apply andb_true_iff. split; [apply bool_decide_eq_true; rewrite Hp; by apply map_remove_NoDup|].
  apply forallb_True. apply forallb_True in Hall. rewrite Hp. unfold map_remove.
  by apply Forall_filter_keep.
Qed.

Lemma scoped_edges_kept owners edges l :
  fold_result (add_scoped_edge owners) [] edges = Ok l -> l.*2 = edges.
Proof.
  intros H. apply (fold_result_inv (fun edges l => l.*2 = edges)) in H; [done|done|].
  intros seen edge l1 l2 Hl _ Hadd. cbv beta in *. unfold add_scoped_edge in Hadd. inv_ok.
  by rewrite fmap_app.
Qed.

Lemma nodes_of_Forall (P : Value -> Prop) owner l : Forall P (snd <$> l) -> Forall P (nodes_of owner l).
Proof. unfold nodes_of. rewrite !Forall_fmap. by apply Forall_filter_keep. Qed.

(** What a scope of the partition is parsed into. *)
Record scope_of (raws : list Value) (owner : option string) (s : WorkflowGraph) : Prop := {
  so_graph : graph_ok s;
  so_regions : regions_ok s;
  so_scoped : well_scoped s;
  so_loops : g_loops s = [];
  so_ids m : m ∈ (gn_id <$> g_nodes s) <-> exists raw, raw ∈ raws /\ raw_owner raw = owner /\ raw_id raw = m;
  so_kind n : n ∈ g_nodes s -> exists raw, raw ∈ raws /\ raw_owner raw = owner /\ raw_id raw = gn_id n /\
    as_str (node_kind raw) = Some (node_type_as_str (gn_type n));
  so_owner m o : region_owner s m = Some o -> exists raw, raw ∈ raws /\ raw_owner raw = owner /\
    raw_id raw = m /\ as_str (value_at "parentId" (scoped_node owner raw)) = Some o;
}.

Lemma node_is_object_scoped owner raw : value_ok raw = true -> node_is_object raw = true ->
  node_is_object (scoped_node owner raw) = true.
Proof.
  unfold node_is_object. intros Hok [H1 H2]%andb_true_iff. rewrite scoped_node_field by done. rewrite H2, andb_true_r.
  by destruct owner, raw.
Qed.

Lemma parse_scope_of raws acc owner edges globals s :
  partitioned raws acc -> Forall (fun v => value_ok v = true) raws -> Forall (fun v => node_is_object v = true) raws ->
  Forall (fun v => value_ok v = true) (snd <$> edges) -> value_ok globals = true ->
  parse_scope (nodes_of owner (sl_nodes acc)) (nodes_of owner edges) globals = Ok s ->
  scope_of raws owner s.
Proof.
  intros Hp Hraws Hobj Hedges Hglobals H. rewrite (pt_nodes _ _ Hp), nodes_of_fmap in H.
  assert (forall raw, raw ∈ raws -> value_ok raw = true) as Hok by (by apply Forall_forall).
  apply parse_scope_Ok in H as (Hg & Hr & Hw & Hl & Hfrom & Howner);
    [|apply Forall_fmap, Forall_filter_keep; eapply Forall_impl; [exact Hraws|]; intros raw; apply value_ok_scoped_node
     |apply Forall_fmap, Forall_forall; intros raw [_ Hin]%list_elem_of_filter; apply node_is_object_scoped; [by apply Hok|];
      by apply (proj1 (Forall_forall _ _) Hobj)
     |by apply nodes_of_Forall|done].
  split; [done..|by apply owned_ids| |].
  - intros n [i Hi]%list_elem_of_lookup.
    destruct (Forall2_lookup_r _ _ _ _ _ Hfrom Hi) as (raw' & Hraw' & Hid & Hk).
    apply list_elem_of_lookup_2, list_elem_of_fmap in Hraw' as (raw & -> & [Ho Hin]%list_elem_of_filter).
    exists raw. unfold node_kind in Hk. rewrite scoped_node_field in Hid, Hk by (try done; by apply Hok).
    split_and!; [done|done| |done]. unfold raw_id. by rewrite Hid.
  - intros m o (raw' & Hraw' & Hid & Hpar)%Howner.
    apply list_elem_of_fmap in Hraw' as (raw & -> & [Ho Hin]%list_elem_of_filter).
    exists raw. rewrite scoped_node_field in Hid by (try done; by apply Hok).
    split_and!; [done|done| |done]. unfold raw_id. by rewrite Hid.
Qed.

(** A body has no regions: its nodes carry no parent. *)
Lemma body_regions raws id s r o : Forall (fun v => value_ok v = true) raws ->
  scope_of raws (Some id) s -> region s o = Some r -> False.
Proof.
  intros Hraws Hs Hr. rewrite Forall_forall in Hraws.
  destruct (ro_iteration s (so_regions _ _ _ Hs) o r Hr) as (_ & Hne & _).
  destruct (member_ids r) as [|m ms] eqn:Em; [done|].
  assert (region_owner s m = Some o) as Ho.
  { apply (ro_owner s (so_regions _ _ _ Hs)). exists r. rewrite Em. split; [done|by left]. }
  apply (so_owner _ _ _ Hs) in Ho as (raw & Hin & _ & _ & Hpar).
  unfold value_at in Hpar. rewrite scoped_node_parent in Hpar; [done|by apply Hraws|by eexists].
Qed.

Lemma loop_text raw n : as_str (node_kind raw) = Some (node_type_as_str (gn_type n)) ->
  text_is "loop" (node_kind raw) = true <-> gn_type n = Loop.
Proof.
  intros Hk. unfold text_is. rewrite bool_decide_eq_true, Hk. destruct (gn_type n); simpl; split; congruence.
Qed.

Lemma elem_of_keyed {A} (l : list (string * A)) id x : NoDup l.*1 ->
  snd <$> find_first (fun p => bool_decide (p.1 = id)) l = Some x <-> (id, x) ∈ l.
Proof.
  intros Hnd. split.
  - intros ([k y] & [Hin Hk%bool_decide_eq_true]%find_first_Some & ->)%fmap_Some. simpl in *. by subst.
  - induction l as [|[k y] l IH]; [by intros ?%elem_of_nil|]. simpl. csimpl in Hnd.
    apply NoDup_cons in Hnd as [Hk Hnd]. intros [[= <- <-]|Hin]%elem_of_cons.
    + by rewrite bool_decide_true.
    + rewrite bool_decide_false; [by apply IH|]. intros ->. apply Hk.
      apply list_elem_of_fmap. by exists (id, x).
Qed.

Lemma raw_id_inj raws raw raw' : NoDup (raw_id <$> raws) -> raw ∈ raws -> raw' ∈ raws ->
  raw_id raw = raw_id raw' -> raw = raw'.
Proof.
  intros Hnd [i Hi]%list_elem_of_lookup [j Hj]%list_elem_of_lookup Heq.
  assert (i = j) as ->; [|congruence].
  eapply NoDup_lookup; [exact Hnd| |]; rewrite list_lookup_fmap; [by rewrite Hi|by rewrite Hj, Heq].
Qed.

(** The root and the bodies of a partitioned document. *)
Section scopes.
Context (raws : list Value) (acc : ScopeLoop) (root : WorkflowGraph).
Context (parsed : list (string * (LoopConfig * WorkflowGraph))).
Context (Hraws : Forall (fun v => value_ok v = true) raws) (Hp : partitioned raws acc).
Context (Hroot : scope_of raws None root) (Hnd : NoDup parsed.*1).
Context (Hall : forall id, is_Some (sl_configs acc !! id) -> exists x, (id, x) ∈ parsed).
Context (Hparsed : forall id config body, (id, (config, body)) ∈ parsed ->
  sl_configs acc !! id = Some config /\ scope_of raws (Some id) body /\
  forall n, n ∈ g_nodes body -> gn_type n <> Output).

Lemma scope_ids_disjoint owner owner' s s' m : scope_of raws owner s -> scope_of raws owner' s' ->
  m ∈ (gn_id <$> g_nodes s) -> m ∈ (gn_id <$> g_nodes s') -> owner = owner'.
Proof using Hp.
  intros Hs Hs' (raw & Hin & <- & Hid)%(so_ids _ _ _ Hs) (raw' & Hin' & <- & Hid')%(so_ids _ _ _ Hs').
  f_equal. eapply raw_id_inj; [by apply (pt_unique _ _ Hp)|done|done|congruence].
Qed.

Lemma loop_body_parsed id x : loop_body (with_loops root parsed) id = Some x <-> (id, x) ∈ parsed.
Proof using Hnd. by apply elem_of_keyed. Qed.

(** A container is a root node of kind Loop, without a renderer parent. *)
Lemma container_raw id x : (id, x) ∈ parsed -> exists raw n, raw ∈ raws /\ raw_id raw = id /\
  raw_owner raw = None /\ value_field "parentId" raw = None /\ node root id = Some n /\ gn_type n = Loop.
Proof using Hp Hroot Hparsed.
  destruct x as [config body]. intros (Hc & _)%Hparsed.
  destruct (pt_configs _ _ Hp id config Hc) as (_ & raw & Hin & Hid & Ho & Hpar & Hk).
  assert (id ∈ (gn_id <$> g_nodes root)) as Hid' by (apply (so_ids _ _ _ Hroot); by exists raw).
  apply list_elem_of_fmap in Hid' as (n & -> & Hn). exists raw, n. split_and!; try done.
  - by apply (node_Some _ (so_graph _ _ _ Hroot)).
  - destruct (so_kind _ _ _ Hroot n Hn) as (raw' & Hin' & _ & Hid' & Hk').
    assert (raw' = raw) as -> by (eapply raw_id_inj; [by apply (pt_unique _ _ Hp)|done|done|congruence]).
    by apply (loop_text raw n Hk').
Qed.

Lemma scopes_apart : loops_apart (with_loops root parsed).
Proof using Hp Hroot Hparsed Hnd.
  split.
  - done.
  - intros o [x Hx%loop_body_parsed]. apply container_raw in Hx as (raw & n & _ & _ & _ & _ & Hn & Ht).
    change (region root o = None). destruct (region root o) as [r|] eqn:E; [|done]. exfalso.
    apply (region_owned_by_iteration _ _ _ (so_regions _ _ _ Hroot)) in E as (n' & Hn' & Ht'). congruence.
  - intros o config body H%loop_body_parsed. apply Hparsed in H as (_ & Hs & _). by apply so_graph in Hs.
  - intros o [x Hx%loop_body_parsed]. apply container_raw in Hx as (raw & n & Hin & Hid & _ & Hpar & _).
    change (region_owner root o = None). destruct (region_owner root o) as [p|] eqn:E; [|done]. exfalso.
    apply (so_owner _ _ _ Hroot) in E as (raw' & Hin' & _ & Hid' & Hpar').
    assert (raw' = raw) as -> by (eapply raw_id_inj; [by apply (pt_unique _ _ Hp)|done|done|congruence]).
    simpl in Hpar'. unfold value_at in Hpar'. by rewrite Hpar in Hpar'.
  - intros o config body m H%loop_body_parsed Hm. apply Hparsed in H as (_ & Hs & _).
    change (node root m = None). destruct (node root m) as [n|] eqn:E; [|done]. exfalso.
    apply (node_Some _ (so_graph _ _ _ Hroot)) in E as [Hn <-].
    assert (None = Some o) as Heq; [|done].
    eapply scope_ids_disjoint; [exact Hroot|exact Hs| |exact Hm]. by apply list_elem_of_fmap_2.
Qed.

Lemma scopes_containers_ok : containers_ok (with_loops root parsed).
Proof using All.
  pose proof (so_graph _ _ _ Hroot) as Hg. split.
  - destruct Hg. by split.
  - destruct (so_regions _ _ _ Hroot). by split.
  - apply scopes_apart.
  - intros n Hn Ht. destruct (so_kind _ _ _ Hroot n Hn) as (raw & Hin & _ & Hid & Hk).
    apply (loop_text raw n Hk) in Ht. destruct (pt_loops _ _ Hp raw Hin Ht) as [Hc _].
    rewrite Hid in Hc. destruct (Hall _ Hc) as [x Hx]. exists x. by apply loop_body_parsed.
  - intros id config body H%loop_body_parsed. pose proof H as Hc.
    apply container_raw in Hc as (_ & n & _ & _ & _ & _ & Hn & Ht).
    apply Hparsed in H as (Hc & Hs & Hout). destruct (pt_configs _ _ Hp _ _ Hc) as [Hcok _].
    split; [by exists n|]. split; [done|]. split; [by eapply so_graph|].
    split; [by eapply so_scoped|]. split; [by eapply so_loops|].
    intros m Hm. split; [by apply Hout|]. split.
    + intros Htm. destruct (so_kind _ _ _ Hs m Hm) as (raw & Hin & Ho & _ & Hk).
      apply (loop_text raw m Hk) in Htm. destruct (pt_loops _ _ Hp raw Hin Htm) as [_ Hno]. congruence.
    + destruct (region body (gn_id m)) as [r|] eqn:E; [|done]. exfalso. by eapply body_regions.
  - intros id id' config config' body body' m H%loop_body_parsed H'%loop_body_parsed Hm Hm'.
    apply Hparsed in H as (_ & Hs & _), H' as (_ & Hs' & _).
    assert (Some id = Some id') as [= ->]; [|done]. by eapply (scope_ids_disjoint _ _ body body').
Qed.
End scopes.

(** What the container branch has built when it succeeds. *)
Lemma parse_containers_inv doc g : value_ok doc = true -> structured doc = true -> parse_containers doc = Ok g ->
  exists raws acc root parsed, as_array (value_at "nodes" doc) = Some raws /\
    Forall (fun v => value_ok v = true) raws /\ partitioned raws acc /\ check_owners acc = Ok tt /\
    scope_of raws None root /\ NoDup parsed.*1 /\
    (forall id, is_Some (sl_configs acc !! id) -> exists x, (id, x) ∈ parsed) /\
    (forall id config body, (id, (config, body)) ∈ parsed -> sl_configs acc !! id = Some config /\
       scope_of raws (Some id) body /\ forall n, n ∈ g_nodes body -> gn_type n <> Output) /\
    g = with_loops root parsed /\ validate_bindings g = Ok tt.
Proof.
  intros Hdoc Hs H. unfold parse_containers in H.
  apply bind_Ok in H as (raws & Hraws%ok_or_Ok & H). apply bind_Ok in H as (edges & Hedges%ok_or_Ok & H).
  apply reject_Ok in H as [_ H]. apply bind_Ok in H as (acc & Hacc%partition_Ok & H).
  apply bind_Ok in H as ([] & Howners & H). apply bind_Ok in H as (scoped & Hscoped%scoped_edges_kept & H).
  apply bind_Ok in H as (root & Hroot & H). apply bind_Ok in H as (parsed & Hparsed & H).
  apply bind_Ok in H as ([] & Hbind & H). injection H as <-.
  assert (forall key items, as_array (value_at key doc) = Some items -> Forall (fun v => value_ok v = true) items)
    as Hitems.
  { intros key items Hi. unfold value_at in Hi. destruct (value_field key doc) as [v|] eqn:E; [|done].
    apply (value_ok_items v); [by eapply value_ok_field|done]. }
  assert (Forall (fun v => node_is_object v = true) raws) as Hobj.
  { unfold structured, array_items in Hs. rewrite Hraws in Hs. apply andb_true_iff in Hs as [_ Hs]. by apply forallb_True. }
  pose proof (Hitems _ _ Hraws) as Hok. apply Hitems in Hedges. rewrite <-Hscoped in Hedges.
  pose proof (value_ok_document_globals doc Hdoc) as Hglobals.
  apply bodies_parsed in Hparsed as (Hnd & Hall & Hbody).
  exists raws, acc, root, parsed. split_and!; try done; [by eapply parse_scope_of|].
  intros id config body Hin. apply Hbody in Hin as (Hc & Hscope & Hout).
  split; [done|]. split; [|done]. by eapply parse_scope_of.
Qed.

Lemma parse_containers_ok doc g : value_ok doc = true -> structured doc = true -> parse_containers doc = Ok g ->
  containers_ok g /\ validate_bindings g = Ok tt.
Proof.
  intros Hdoc Hs (raws & acc & root & parsed & _ & Hok & Hacc & _ & Hroot & Hnd & Hall & Hbody & -> & Hb)%parse_containers_inv;
    [|done..].
  split; [|done]. by apply (scopes_containers_ok raws acc).
Qed.

(** The id names a node of the root or of a body. *)
Definition in_scope (g : WorkflowGraph) (id : string) : Prop :=
  id ∈ (gn_id <$> g_nodes g) \/
  exists owner config body, loop_body g owner = Some (config, body) /\ id ∈ (gn_id <$> g_nodes body).

(** Every node of the document lands in a scope. *)
Lemma parse_containers_ids doc g id : value_ok doc = true -> structured doc = true -> parse_containers doc = Ok g ->
  in_scope g id <-> exists raw, raw ∈ array_items (value_at "nodes" doc) /\ as_str (value_at "id" raw) = Some id.
Proof.
  intros Hdoc Hstr (raws & acc & root & parsed & Hraws & Hok & Hacc & Howners & Hroot & Hnd & Hall & Hbody & -> & _)%parse_containers_inv;
    [|done..].
  unfold array_items. rewrite Hraws. simpl. unfold in_scope. setoid_rewrite loop_body_parsed; [|done..].
  change (g_nodes (with_loops root parsed)) with (g_nodes root).
  rewrite (so_ids _ _ _ Hroot). split.
  - intros [(raw & Hin & _ & <-)|(owner & config & body & Hp & Hid)].
    + exists raw. split; [done|]. by apply (pt_ids _ _ Hacc).
    + apply Hbody in Hp as (_ & Hs & _). apply (so_ids _ _ _ Hs) in Hid as (raw & Hin & _ & <-).
      exists raw. split; [done|]. by apply (pt_ids _ _ Hacc).
  - intros (raw & Hin & Hid). assert (raw_id raw = id) as Hr by (unfold raw_id; by rewrite Hid).
    destruct (raw_owner raw) as [owner|] eqn:Eo; [right|left; by exists raw].
    unfold check_owners in Howners. apply for_each_Ok in Howners. rewrite Forall_forall in Howners.
    assert (sl_owners acc !! id = Some (Some owner)) as Hown by (apply (pt_owners _ _ Hacc); by exists raw).
    specialize (Howners id). rewrite Hown in Howners.
    assert (is_Some (sl_configs acc !! owner)) as Hc.
    { pose proof (Howners ltac:(apply elem_of_hash_keys; by eexists)) as Hi.
      by apply reject_if_Ok, negb_false_iff, bool_decide_eq_true in Hi. }
    destruct (Hall _ Hc) as [[config body] Hp]. exists owner, config, body. split; [done|].
    apply Hbody in Hp as (_ & Hs & _). apply (so_ids _ _ _ Hs). by exists raw.
Qed.

(** Reading a printed document back changes neither its shape nor its texts. *)
Lemma node_kind_read raw raw' : reads_back raw raw' -> as_str (node_kind raw) = as_str (node_kind raw').
Proof using. intros H. by apply reads_back_str, reads_back_at, reads_back_at. Qed.

Lemma structured_read doc doc' : reads_back doc doc' -> structured doc = true -> structured doc' = true.
Proof using.
  intros H. unfold structured. rewrite <-(reads_back_is_object _ _ H), !andb_true_iff, !forallb_True.
  pose proof (reads_back_items _ _ (reads_back_at "nodes" _ _ H)) as Hitems. intros [-> Hs]. split; [done|].
  induction Hitems as [|raw raw' l k Hr _ IH]; [done|]. apply Forall_cons in Hs as [Hraw Hl]. constructor; [|by apply IH].
  unfold node_is_object in *. by rewrite <-(reads_back_is_object _ _ Hr), <-(reads_back_is_object _ _ (reads_back_at "data" _ _ Hr)).
Qed.

Lemma has_containers_read doc doc' : reads_back doc doc' -> has_containers doc = has_containers doc'.
Proof using.
  intros H. unfold has_containers. pose proof (reads_back_items _ _ (reads_back_at "nodes" _ _ H)) as Hitems.
  induction Hitems as [|raw raw' l k Hr _ IH]; [done|]. simpl. f_equal; [|done]. f_equal.
  - unfold text_is. by rewrite (node_kind_read _ _ Hr).
  - unfold container_of. apply bool_decide_ext.
    destruct (reads_back_field "containerId" _ _ (reads_back_at "data" _ _ Hr)); [by split; eexists|done].
Qed.

Lemma ids_read doc doc' id : reads_back doc doc' ->
  (exists raw, raw ∈ array_items (value_at "nodes" doc) /\ as_str (value_at "id" raw) = Some id) <->
  (exists raw, raw ∈ array_items (value_at "nodes" doc') /\ as_str (value_at "id" raw) = Some id).
Proof using.
  intros H. pose proof (reads_back_items _ _ (reads_back_at "nodes" _ _ H)) as Hitems. split; intros (raw & [i Hi]%list_elem_of_lookup & Hid).
  - destruct (Forall2_lookup_l _ _ _ _ _ Hitems Hi) as (raw' & Hi' & Hr). exists raw'.
    split; [by eapply list_elem_of_lookup_2|]. by rewrite <-(reads_back_str _ _ (reads_back_at "id" _ _ Hr)).
  - destruct (Forall2_lookup_r _ _ _ _ _ Hitems Hi) as (raw' & Hi' & Hr). exists raw'.
    split; [by eapply list_elem_of_lookup_2|]. by rewrite (reads_back_str _ _ (reads_back_at "id" _ _ Hr)).
Qed.

Lemma parse_scoped_ids doc g id : value_ok doc = true -> structured doc = true ->
  parse_scoped_graph (json_to_string doc) = Ok g ->
  in_scope g id <-> exists raw, raw ∈ array_items (value_at "nodes" doc) /\ as_str (value_at "id" raw) = Some id.
Proof.
  intros Hok Hs H. unfold parse_scoped_graph in H. apply bind_Ok in H as (doc' & Hdoc%ok_or_Ok & H).
  pose proof (read_back _ _ Hok Hdoc) as Hread. pose proof (structured_read _ _ Hread Hs) as Hs'.
  destruct (has_containers doc') eqn:E; simpl in H.
  - rewrite (ids_read _ _ _ Hread). apply parse_containers_ids; [by eapply parsed_ok|done..].
  - apply reject_Ok in H as [_ H].
    pose proof (parse_flat_sound _ _ H) as (_ & _ & _ & _ & _ & _ & _ & Hloops & _).
    destruct (flat_parsed _ g Hok Hs H) as (raws & Hraws & Hfrom & _).
    unfold array_items. rewrite Hraws. simpl. unfold in_scope, loop_body. rewrite Hloops. simpl.
    rewrite (parsed_ids _ _ Hfrom), list_elem_of_fmap.
    assert (forall raw, raw ∈ raws -> as_str (value_at "id" raw) = Some (raw_id raw)) as Hid.
    { intros raw [i Hi]%list_elem_of_lookup. destruct (Forall2_lookup_l _ _ _ _ _ Hfrom Hi) as (n & _ & Hn & _).
      unfold raw_id. by rewrite Hn. }
    split.
    + intros [(raw & -> & Hin)|(? & ? & ? & ? & _)]; [|done]. exists raw. split; [done|by apply Hid].
    + intros (raw & Hin & Hr). left. exists raw. split; [|done]. rewrite Hid in Hr by done. congruence.
Qed.

(** *** Bindings *)

(** A selector reads a node that is visible where it stands, or a global variable. *)
Definition reads_visible (root : WorkflowGraph) (visible : string -> Prop) (s : VariableSelector) : Prop :=
  visible (sel_node_id s) \/ qualified s ∈ (gv_name <$> g_global_variables root).
(** Edges lead from [a] to [b]. *)
Definition upstream (g : WorkflowGraph) (a b : string) : Prop := tc (id_step g) a b.

(** What every binding of a container graph may read. *)
Record bindings_visible (root : WorkflowGraph) : Prop := {
  bv_root n s : n ∈ g_nodes root -> s ∈ node_selectors n -> reads_visible root (fun id => upstream root id (gn_id n)) s;
  bv_initial loop config body s : loop_body root loop = Some (config, body) -> s ∈ initial_selectors config ->
    reads_visible root (fun id => upstream root id loop) s;
  bv_round loop config body s : loop_body root loop = Some (config, body) -> s ∈ round_selectors config ->
    reads_visible root (fun id => id = loop \/ id ∈ (gn_id <$> g_nodes body) \/ upstream root id loop) s;
  bv_body loop config body n s : loop_body root loop = Some (config, body) -> n ∈ g_nodes body -> s ∈ node_selectors n ->
    reads_visible root (fun id => upstream body id (gn_id n) \/ id = loop \/ upstream root id loop) s;
}.

Lemma require_visible_Ok root (visible : string -> bool) (P : string -> Prop) selectors u :
  (forall id, visible id = true -> P id) ->
  for_each (require_visible (gv_name <$> g_global_variables root) visible) selectors = Ok u ->
  forall s, s ∈ selectors -> reads_visible root P s.
Proof using.
  intros HP H s Hs. apply for_each_Ok in H. rewrite Forall_forall in H. apply H in Hs.
  unfold require_visible in Hs. apply reject_if_Ok, negb_false_iff, orb_true_iff in Hs as [Hv|Hv%bool_decide_eq_true];
    [left; by apply HP|by right].
Qed.

Lemma ancestor_upstream g id m : graph_ok g -> id_in (gn_id <$> transitive_predecessors g id) m = true -> upstream g m id.
Proof using.
  intros Hg H%bool_decide_eq_true. apply list_elem_of_fmap in H as (n & -> & Hn).
  by apply elem_of_transitive_predecessors in Hn as [_ ?].
Qed.

Lemma validate_node_bindings_Ok root g inherited u : graph_ok g ->
  validate_node_bindings g (gv_name <$> g_global_variables root) inherited = Ok u ->
  forall n s, n ∈ g_nodes g -> s ∈ node_selectors n ->
    reads_visible root (fun id => upstream g id (gn_id n) \/ id ∈ inherited) s.
Proof using.
  intros Hg H n s Hn Hs. unfold validate_node_bindings in H. apply for_each_Ok in H. rewrite Forall_forall in H.
  apply H in Hn. cbv zeta in Hn. eapply require_visible_Ok; [|exact Hn|done].
  intros id [Hid|Hid%bool_decide_eq_true]%orb_true_iff; [left; by apply ancestor_upstream|by right].
Qed.

Lemma reads_visible_mono root (P Q : string -> Prop) s : (forall id, P id -> Q id) -> reads_visible root P s -> reads_visible root Q s.
Proof using. intros HPQ [H|H]; [left; by apply HPQ|by right]. Qed.

Lemma validate_bindings_Ok g : containers_ok g -> validate_bindings g = Ok tt -> bindings_visible g.
Proof using.
  intros Hg H. unfold validate_bindings in H. apply bind_Ok in H as ([] & Hroot & H). apply for_each_Ok in H.
  rewrite Forall_forall in H. pose proof (co_graph g Hg) as Hok.
  assert (forall loop config body, loop_body g loop = Some (config, body) -> graph_ok body /\ exists n, gn_id n = loop /\
    validate_loop_bindings g (gv_name <$> g_global_variables g) n = Ok tt) as Hloop.
  { intros loop config body Hb. destruct (co_body g Hg _ _ _ Hb) as ((n & Hn & _) & _ & Hbody & _). split; [done|].
    apply (node_Some _ Hok) in Hn as [Hn Hid]. exists n. split; [done|]. apply H. by rewrite (proj1 (topological_order_sound g Hok)). }
  split.
  - intros n s Hn Hs. eapply reads_visible_mono; [|by eapply validate_node_bindings_Ok].
    intros id [?|?%elem_of_nil]; done.
  - intros loop config body s Hb Hs. destruct (Hloop _ _ _ Hb) as (_ & n & <- & Hv). unfold validate_loop_bindings in Hv.
    rewrite Hb in Hv. apply bind_Ok in Hv as ([] & Hi & _). eapply require_visible_Ok; [|exact Hi|done]. intros id. by apply ancestor_upstream.
  - intros loop config body s Hb Hs. destruct (Hloop _ _ _ Hb) as (Hbok & n & <- & Hv). unfold validate_loop_bindings in Hv.
    rewrite Hb in Hv. apply bind_Ok in Hv as ([] & _ & Hv). apply bind_Ok in Hv as ([] & Hr & _).
    eapply require_visible_Ok; [|exact Hr|done]. intros id [[->%bool_decide_eq_true|Hn%bool_decide_eq_true]%orb_true_iff|Ha]%orb_true_iff.
    + by left.
    + right. left. destruct Hn as [m Hm]. apply (node_Some _ Hbok) in Hm as [Hm <-]. by apply list_elem_of_fmap_2.
    + right. right. by apply ancestor_upstream.
  - intros loop config body m s Hb Hm Hs. destruct (Hloop _ _ _ Hb) as (Hbok & n & <- & Hv). unfold validate_loop_bindings in Hv.
    rewrite Hb in Hv. apply bind_Ok in Hv as ([] & _ & Hv). apply bind_Ok in Hv as ([] & _ & Hv).
    eapply reads_visible_mono; [|eapply validate_node_bindings_Ok; [exact Hbok|exact Hv|done..]].
    intros id [Hu|[->|Hin]%elem_of_cons]; [by left|by right; left|right; right].
    apply ancestor_upstream; [done|]. by apply bool_decide_eq_true.
Qed.

Lemma parse_scoped_ok doc g : value_ok doc = true -> structured doc = true ->
  parse_scoped_graph (json_to_string doc) = Ok g ->
  containers_ok g /\ (has_containers doc = true -> bindings_visible g).
Proof.
  intros Hok Hs H. unfold parse_scoped_graph in H. apply bind_Ok in H as (doc' & Hdoc%ok_or_Ok & H).
  pose proof (read_back _ _ Hok Hdoc) as Hread. rewrite (has_containers_read _ _ Hread).
  destruct (has_containers doc') eqn:E; simpl in H.
  - apply parse_containers_ok in H as [Hc Hb]; [|by eapply parsed_ok|by eapply structured_read].
    split; [done|]. intros _. by apply validate_bindings_Ok.
  - apply reject_Ok in H as [_ H]. split; [|done]. eapply flat_containers_ok; [exact Hok|done| |done].
    by rewrite (has_containers_read _ _ Hread).
Qed.

(** C31: a container graph the parser accepts is well formed: the root and every Loop body is an
    acyclic graph whose regions, bodies and root share no node; the bodies are exactly those of
    the root's Loop nodes, whose configurations are valid; every body runs from one Start that
    reaches all its nodes and holds neither an Output, a nested Loop nor a region.  When the document
    has containers, a Condition or Output of the root reads only nodes upstream of it, an initial
    value of a Loop only nodes upstream of the Loop, the feedback, outputs and until rules of a round
    also the Loop and the nodes of its body, and a node of the body those upstream of it in the body,
    the Loop, and what is upstream of the Loop; any of them may read a global variable.  The document
    is a projected one: it and its nodes with their data are JSON objects. *)
Theorem parse_scoped_sound doc g :
  value_ok doc = true -> structured doc = true -> parse_scoped_graph (json_to_string doc) = Ok g ->
  containers_ok g /\ (has_containers doc = true -> bindings_visible g).
Proof. apply parse_scoped_ok. Qed.
End sound.

(** ** Examples *)

#[export] Instance bits_document_laws : DocumentLaws (H:=bits_json) (H0:=bits_envelope).
Proof.
  split.
  - intros text doc H. unfold json_from_str, bits_json in H. apply bind_Some in H as (t & _ & H).
    cbv zeta in H. destruct (value_ok (tree_value t)) eqn:E; [|done]. congruence.
  - intros doc env ws Hok _ Henv Hws. unfold envelope_from_str, bits_envelope in Henv.
    rewrite bits_printed in Henv by done. injection Henv as <-. simpl in Hws.
    apply fmap_Some in Hws as (raws & Hraws & ->). exists raws. split; [done|].
    clear. induction raws as [|raw raws IH]; [constructor|]. simpl. by constructor.
Qed.

Section sample.
#[local] Instance plain_debug : DebugText := {| debug_str := quoted; debug_strs := join ", " |}.
#[local] Instance no_policy : PolicyDecode := {| policy_from_value _ := Err "unknown" |}.
#[local] Instance insertion_order : HashOrder :=
  {| hash_order l := l; hash_order_perm l := reflexivity l |}.
#[local] Existing Instance kahn_petgraph.

(** A decoder for Loops over one text that is fed back unchanged, for at most three rounds. *)
#[local] Instance echo_loops : LoopDecode := {|
  loop_config_from_value _ := Ok
    {| wlc_max_iterations := 3; wlc_max_iterations_behavior := FailOnMax;
       wlc_variables := [{| wl_name := "text"; wl_value_type := "string";
                            wl_initial := WireConstant (VString "hi"); wl_feedback := ["l"; "text"] |}];
       wlc_until := {| wu_logic := "and";
         wu_conditions := [{| wr_variable_selector := ["l"; "text"]; wr_operator := Some "not_empty";
                              wr_value := None |}] |};
       wlc_outputs := [{| wd_name := "result"; wd_variable_selector := ["l"; "text"] |}] |};
|}.

Definition raw_node (id kind : string) (owner : option string) : Value :=
  VObject ([("id", VString id);
            ("data", VObject (("kind", VString kind)
                              :: match owner with Some o => [("containerId", VString o)] | None => [] end))]).
Definition raw_edge (a b : string) : Value :=
  VObject [("source", VString a); ("target", VString b)].

(** A Start, a Loop and its body of a Start and an Agent. *)
Definition loop_document : Value :=
  VObject [("schemaVersion", VNumber (PosInt 2));
           ("nodes", VArray [raw_node "s" "start" None; raw_node "l" "loop" None;
                             raw_node "begin" "start" (Some "l"); raw_node "work" "agent" (Some "l")]);
           ("edges", VArray [raw_edge "s" "l"; raw_edge "begin" "work"])].

Lemma parse_scoped_sound_witness :
  exists g config body, parse_scoped_graph (json_to_string loop_document) = Ok g /\ containers_ok g /\
    loop_body g "l" = Some (config, body) /\ gn_id <$> g_nodes body = ["begin"; "work"].
Proof.
  destruct (parse_scoped_graph (json_to_string loop_document)) as [g|] eqn:E.
  2: { vm_compute in E. discriminate E. }
  destruct (parse_scoped_sound loop_document g eq_refl eq_refl E) as [Hok _].
  destruct (loop_body g "l") as [[config body]|] eqn:Eb.
  2: { vm_compute in E. injection E as <-. vm_compute in Eb. discriminate Eb. }
  exists g, config, body. split; [reflexivity|]. split; [exact Hok|]. split; [exact Eb|].
  vm_compute in E. injection E as <-. vm_compute in Eb. injection Eb as <- <-. vm_compute. reflexivity.
Defined.
End sample.
