(* ===== verification/Document.v ===== *)
(** * Execution documents ([engine/execution_document.rs], [engine/unused_references.rs])

    The authoring document is projected on the part the entry can reach; what remains is parsed
    as a container graph and may not refer to the nodes that were left out.  [parse] is
    [WorkflowGraph::parse], the entry of every run. *)

From stdpp Require Import relations.
From S2P Require Import Prelude RustStr Order Json Search NodeTypes VariablePool VariableTemplate.
From S2P Require Import Condition StructuredOutput GraphBase Aggregator NodeConfig Iteration.
From S2P Require Import NodeConfig GraphBase Graph Projection Declarations GraphParse Resume.
From S2P Require Import Executable JsonCodec LoopGraph.
Local Open Scope ora_scope.

(** ** The structure of a document *)

(** [Node]; the map's keys are its [id]. *)
Record DocNode : Type := {
  dn_kind : string;
  dn_owner : option string;
}.

Record UnrecognizedAuthoringNode : Type := {
  un_node_id : string;
  un_kind : string;
}.

Record AuthoringParticipation : Type := {
  ap_unused_node_ids : list string;
  ap_unrecognized_nodes : list UnrecognizedAuthoringNode;
}.

Record ExecutionDocument : Type := {
  ed_graph : Value;
  ed_unused_node_ids : list string;
  ed_unrecognized_nodes : list UnrecognizedAuthoringNode;
}.

(** The state of the node loop. *)
Record DocLoop : Type := {
  dl_nodes : gmap string DocNode;
  dl_starts : gmap (option string) string;
  dl_unrecognized : list UnrecognizedAuthoringNode;
}.

Definition required_string (v : Value) (reason : string) : result GraphError string :=
  ok_or (non_blank v) (invalid reason).

(** The container and the renderer parent a node declares. *)
Definition declared_container (raw : Value) : result GraphError (option string) :=
  match container_of raw with
  | None => Ok None
  | Some v => Some <$> required_string v "containerId must be a non-empty string"
  end.
Definition declared_parent (raw : Value) : result GraphError (option string) :=
  match value_field "parentId" raw with
  | None | Some VNull => Ok None
  | Some v => Some <$> required_string v "parentId must be a non-empty string"
  end.

Definition add_doc_node (acc : DocLoop) (raw : Value) : result GraphError DocLoop :=
  id ← required_string (value_at "id" raw) "missing id";
  kind ← required_string (node_kind raw) ("node " +:+ id +:+ " has no node type");
  let unrecognized :=
    match node_type_from_str kind with
    | Ok _ => dl_unrecognized acc
    | Err _ => dl_unrecognized acc ++ [{| un_node_id := id; un_kind := kind |}]
    end in
  container ← declared_container raw;
  parent ← declared_parent raw;
  reject (bool_decide (is_Some container) && bool_decide (is_Some parent)
          && negb (bool_decide (container = parent)))
    with (invalid "parentId disagrees with data.containerId");
  let owner := match container with Some c => Some c | None => parent end in
  reject (bool_decide (is_Some (dl_nodes acc !! id))) with (DuplicateNodeId id);
  reject (bool_decide (kind = "start") && bool_decide (is_Some (dl_starts acc !! owner)))
    with MultipleStartNodes;
  Ok {| dl_nodes := <[id := {| dn_kind := kind; dn_owner := owner |}]> (dl_nodes acc);
        dl_starts := if bool_decide (kind = "start") then <[owner := id]> (dl_starts acc)
                     else dl_starts acc;
        dl_unrecognized := unrecognized |}.

Definition container_kind (kind : string) : bool :=
  bool_decide (kind = "loop") || bool_decide (kind = "iteration").

(** One round of the ownership loop. *)
Definition check_doc_owner (nodes : gmap string DocNode) (raw : Value) : result GraphError unit :=
  id ← required_string (value_at "id" raw) "missing id";
  match nodes !! id with
  | None => Ok tt
  | Some n =>
      match dn_owner n with
      | None => Ok tt
      | Some owner =>
          parent ← ok_or (nodes !! owner) (invalid ("unknown container owner " +:+ owner));
          let expected := if bool_decide (is_Some (container_of raw)) then "loop" else "iteration" in
          reject_if (negb (bool_decide (dn_kind parent = expected))
                     || bool_decide (is_Some (dn_owner parent)) || container_kind (dn_kind n))
            (InvalidRegion id "invalid or nested container ownership")
      end
  end.

(** One round of the edge loop; an edge of [acc] is the source and target it connects. *)
Definition add_doc_edge (nodes : gmap string DocNode) (acc : list (string * string)) (edge : Value) :
    result GraphError (list (string * string)) :=
  source ← required_string (value_at "source" edge) "edge has no source";
  target ← required_string (value_at "target" edge) "edge has no target";
  from ← ok_or (nodes !! source) (DanglingEdge source);
  to ← ok_or (nodes !! target) (DanglingEdge target);
  reject (negb (bool_decide (dn_owner from = dn_owner to))
          && negb (bool_decide (dn_kind from = "iteration") && bool_decide (dn_owner to = Some source)))
    with (InvalidRegion source "edge crosses a container boundary");
  Ok (acc ++ [(source, target)]).

(** ** The frontier *)

Section frontier.
Context (nodes : gmap string DocNode) (starts : gmap (option string) string).
Context (edges : list (string * string)).

(** [outgoing.get(id)] *)
Definition outgoing (id : string) : list string := snd <$> filter (fun e => e.1 = id) edges.

Definition is_loop (id : string) : bool :=
  match nodes !! id with Some n => bool_decide (dn_kind n = "loop") | None => false end.

(** What popping a node pushes: the entry of a Loop, then the targets of its edges. *)
Definition doc_successors (id : string) : list string :=
  (if is_loop id then match starts !! Some id with Some entry => [entry] | None => [] end else [])
  ++ outgoing id.

(** [while let Some(id) = frontier.pop()]; the head of the list is the top of the vector. *)
Fixpoint frontier_loop (fuel : nat) (frontier : list string) (active : gset string) :
    result GraphError (gset string) :=
  match fuel, frontier with
  | S fuel, id :: frontier =>
      if bool_decide (id ∈ active) then frontier_loop fuel frontier active
      else if is_loop id && bool_decide (starts !! Some id = None)
      then Err (invalid "every active Loop requires one Start node")
      else frontier_loop fuel (reverse (doc_successors id) ++ frontier) ({[id]} ∪ active)
  | _, _ => Ok active
  end.

(** Every node is expanded once, and an expansion pushes at most one entry and the edges. *)
Definition frontier_fuel : nat := 1 + size nodes * S (length edges).
End frontier.

(** ** The projection *)

Definition id_active (active : gset string) (v : Value) : bool :=
  match as_str v with Some id => bool_decide (id ∈ active) | None => false end.

(** [retain] on an array member of the document. *)
Definition retain (key : string) (keep : Value -> bool) (doc : Value) : Value :=
  match doc with
  | VObject fields =>
      VObject (map_insert key (VArray (filter (fun v => keep v = true) (array_items (value_at key doc)))) fields)
  | _ => doc
  end.

Definition retain_active (active : gset string) (doc : Value) : Value :=
  retain "edges" (fun e => id_active active (value_at "source" e) && id_active active (value_at "target" e))
    (retain "nodes" (fun n => id_active active (value_at "id" n)) doc).

Section document.
Context {json : JsonText}.

(** [project] of the parsed document. *)
Definition project_document (doc : Value) : result GraphError ExecutionDocument :=
  reject (negb (is_object doc)) with InvalidJson;
  raw_nodes ← ok_or (as_array (value_at "nodes" doc)) MissingNodes;
  raw_edges ← ok_or (as_array (value_at "edges" doc)) MissingEdges;
  acc ← fold_result add_doc_node {| dl_nodes := ∅; dl_starts := ∅; dl_unrecognized := [] |} raw_nodes;
  _ ← for_each (check_doc_owner (dl_nodes acc)) raw_nodes;
  reject (existsb (fun n => bool_decide (dn_kind n = "loop")) (map_to_list (dl_nodes acc)).*2
          && negb (integer_is 2 (value_at "schemaVersion" doc)))
    with (invalid "container graphs require schemaVersion 2");
  edges ← fold_result (add_doc_edge (dl_nodes acc)) [] raw_edges;
  match dl_starts acc !! None with
  | None => Ok {| ed_graph := doc; ed_unused_node_ids := [];
                  ed_unrecognized_nodes := dl_unrecognized acc |}
  | Some start =>
      active ← frontier_loop (dl_nodes acc) (dl_starts acc) edges
                 (frontier_fuel (dl_nodes acc) edges) [start] ∅;
      Ok {| ed_graph := retain_active active doc;
            ed_unused_node_ids :=
              filter (fun id => id ∉ active) (btree_keys str_le (dl_nodes acc));
            ed_unrecognized_nodes := dl_unrecognized acc |}
  end.

Definition project (text : string) : result GraphError ExecutionDocument :=
  doc ← ok_or (json_from_str text) InvalidJson; project_document doc.

(** [WorkflowGraph::unused_node_ids] and [WorkflowGraph::authoring_participation] *)
Definition unused_node_ids (text : string) : result GraphError (list string) :=
  ed_unused_node_ids <$> project text.

Definition authoring_participation (text : string) : result GraphError AuthoringParticipation :=
  document ← project text;
  let unrecognized := un_node_id <$> ed_unrecognized_nodes document in
  Ok {| ap_unused_node_ids := filter (fun id => id ∉ unrecognized) (ed_unused_node_ids document);
        ap_unrecognized_nodes := ed_unrecognized_nodes document |}.
End document.

(** ** References to unused nodes ([unused_references.rs]) *)

Definition require_used (unused : list string) (node_id : string) : result GraphError unit :=
  reject_if (bool_decide (node_id ∈ unused)) (invalid ("variable references unused node " +:+ node_id)).

(** The fuel is the length of the text: every round consumes an opening. *)
Fixpoint visit_references (fuel : nat) (unused : list string) (remaining : string) : result GraphError unit :=
  match fuel, split_once OPEN remaining with
  | S fuel, Some (_, after_open) =>
      match split_once CLOSE after_open with
      | None => Ok tt
      | Some (selector, rest) =>
          _ ← match split_once "." selector with
              | Some (node_id, _) => require_used unused node_id
              | None => Ok tt
              end;
          visit_references fuel unused rest
      end
  | _, _ => Ok tt
  end.
Definition visit_template_node_ids (unused : list string) (text : string) : result GraphError unit :=
  visit_references (String.length text) unused text.

Definition config_rules (config : ConditionConfig) : list ConditionRule := cases config ≫= case_conditions.

Definition option_list {A B} (f : A -> list B) (o : option A) : list B :=
  match o with Some x => f x | None => [] end.

(** The selectors of the condition, output and aggregator configuration of a node. *)
Definition config_selectors (n : WorkflowGraphNode) : list VariableSelector :=
  option_list (fun c => rule_selector <$> config_rules c) (gn_condition_config n)
  ++ option_list (fun c => binding_selector <$> output_bindings c) (gn_output_config n)
  ++ option_list variables (gn_aggregator_config n).

Definition iteration_selectors (n : WorkflowGraphNode) : list VariableSelector :=
  option_list (fun c => [iterator_selector c; collect_selector c]) (gn_iteration_config n).

Definition loop_variable_selectors (v : LoopVariable) : list VariableSelector :=
  match lv_initial v with InitVariable s => [s] | InitConstant _ => [] end ++ [lv_feedback v].
Definition loop_selectors (config : LoopConfig) : list VariableSelector :=
  (lc_variables config ≫= loop_variable_selectors) ++ (binding_selector <$> lc_outputs config)
  ++ (rule_selector <$> config_rules (lc_until config)).

(** The string operands of the rules of a configuration. *)
Definition rule_texts (config : ConditionConfig) : list string :=
  omap (fun rule => rule_value rule ≫= as_str) (config_rules config).

Section references.
Context {pet : Petgraph}.

Definition scope_selectors (scope : WorkflowGraph) (n : WorkflowGraphNode) : list VariableSelector :=
  config_selectors n ++ iteration_selectors n
  ++ option_list (fun p => loop_selectors p.1) (loop_body scope (gn_id n)).
Definition scope_texts (scope : WorkflowGraph) (n : WorkflowGraphNode) : list string :=
  option_list (fun c => [prompt c]) (gn_agent_config n)
  ++ option_list rule_texts (gn_condition_config n)
  ++ option_list (fun p => rule_texts (lc_until p.1)) (loop_body scope (gn_id n)).

Definition validate_node_references (unused : list string) (scope : WorkflowGraph)
    (n : WorkflowGraphNode) : result GraphError unit :=
  _ ← for_each (fun s => require_used unused (sel_node_id s)) (scope_selectors scope n);
  for_each (visit_template_node_ids unused) (scope_texts scope n).

(** [unused_references::validate] *)
Definition validate_references (g : WorkflowGraph) (unused : list string) : result GraphError unit :=
  for_each (fun scope => for_each (validate_node_references unused scope) (g_nodes scope))
    (execution_scopes g).
End references.

(** ** [WorkflowGraph::parse] *)

Section parse.
Context {debug : DebugText} {json : JsonText} {policy : PolicyDecode} {order : HashOrder}
  {pet : Petgraph} {envelope : EnvelopeDecode} {loops : LoopDecode}.

Definition parse (text : string) : result GraphError WorkflowGraph :=
  document ← project text;
  g ← parse_scoped_graph (json_to_string (ed_graph document));
  _ ← validate_references g (ed_unused_node_ids document);
  Ok g.
End parse.

(** ** The execution order of a raw document *)

Definition doc_items (key : string) (doc : Value) : list Value := array_items (value_at key doc).
Definition has_id (raw : Value) (id : string) : Prop := as_str (value_at "id" raw) = Some id.
Definition has_kind (raw : Value) (kind : string) : Prop := as_str (node_kind raw) = Some kind.

(** The owner a node declares: its container, or else its renderer parent. *)
Definition doc_owner (raw : Value) : option string :=
  match container_of raw with
  | Some v => as_str v
  | None => value_field "parentId" raw ≫= as_str
  end.

Definition doc_node (doc : Value) (id kind : string) (owner : option string) : Prop :=
  exists raw, raw ∈ doc_items "nodes" doc /\ has_id raw id /\ has_kind raw kind /\ doc_owner raw = owner.
Definition doc_edge (doc : Value) (a b : string) : Prop :=
  exists edge, edge ∈ doc_items "edges" doc /\ as_str (value_at "source" edge) = Some a /\
    as_str (value_at "target" edge) = Some b.

(** Control passes along an edge, or from a Loop to the Start of its body. *)
Definition doc_step (doc : Value) (a b : string) : Prop :=
  doc_edge doc a b \/ (exists owner, doc_node doc a "loop" owner) /\ doc_node doc b "start" (Some a).
Definition doc_reachable (doc : Value) (id : string) : Prop :=
  exists start, doc_node doc start "start" None /\ rtc (doc_step doc) start id.

(** ** What the node loop gathers *)

Lemma required_string_Ok v reason s : required_string v reason = Ok s -> non_blank v = Some s /\ as_str v = Some s.
Proof. unfold required_string. intros H%ok_or_Ok. split; [done|]. by apply non_blank_Some. Qed.

Lemma declared_container_Ok raw o : declared_container raw = Ok o -> o = container_of raw ≫= as_str /\
  (is_Some (container_of raw) -> is_Some o).
Proof.
  unfold declared_container. destruct (container_of raw) as [v|]; intros H; inv_ok.
  - apply required_string_Ok in Hx as [_ Hx]. simpl. rewrite Hx. split; [done|by eexists].
  - split; [done|]. by intros [].
Qed.

Lemma declared_parent_Ok raw o : declared_parent raw = Ok o -> o = value_field "parentId" raw ≫= as_str.
Proof.
  unfold declared_parent. destruct (value_field "parentId" raw) as [v|]; intros H; [|by inv_ok].
  destruct v; inv_ok; simpl; try done; apply required_string_Ok in Hx as [_ Hx]; simpl in Hx; congruence.
Qed.

Lemma add_doc_node_Ok acc raw acc' : add_doc_node acc raw = Ok acc' -> exists id kind,
  has_id raw id /\ has_kind raw kind /\ dl_nodes acc !! id = None /\
  dl_nodes acc' = <[id := {| dn_kind := kind; dn_owner := doc_owner raw |}]> (dl_nodes acc) /\
  (kind = "start" -> dl_starts acc !! doc_owner raw = None) /\
  dl_starts acc' = if bool_decide (kind = "start") then <[doc_owner raw := id]> (dl_starts acc)
                   else dl_starts acc.
Proof.
  unfold add_doc_node. intros H.
  apply bind_Ok in H as (id & [_ Hid]%required_string_Ok & H).
  apply bind_Ok in H as (kind & [_ Hkind]%required_string_Ok & H). cbv zeta in H.
  apply bind_Ok in H as (container & [Hc Hcs]%declared_container_Ok & H).
  apply bind_Ok in H as (parent & Hp%declared_parent_Ok & H).
  apply reject_Ok in H as [_ H]. apply reject_Ok in H as [Hfree%bool_decide_eq_false H].
  apply reject_Ok in H as [Hstart H]. injection H as <-. exists id, kind.
  assert (match container with Some c => Some c | None => parent end = doc_owner raw) as Ho.
  { unfold doc_owner. destruct (container_of raw) as [v|]; simpl in *; subst.
    - destruct (Hcs ltac:(by eexists)) as [c Hc]. by rewrite Hc.
    - done. }
  rewrite Ho in *. split_and!; try done.
  - apply eq_None_not_Some. done.
  - intros ->. simpl in Hstart. apply bool_decide_eq_false in Hstart. by apply eq_None_not_Some.
Qed.

Lemma named_node_is_object raw id kind : has_id raw id -> has_kind raw kind -> node_is_object raw = true.
Proof.
  unfold has_id, has_kind, node_kind, node_is_object, value_at, value_field. destruct raw as [| | | | |fields]; try done.
  intros _. by destruct (map_get "data" fields) as [[]|].
Qed.

(** What the node loop knows of the nodes seen so far. *)
Record gathered (raws : list Value) (acc : DocLoop) : Prop := {
  ga_nodes id n : dl_nodes acc !! id = Some n <->
    exists raw, raw ∈ raws /\ has_id raw id /\ has_kind raw (dn_kind n) /\ doc_owner raw = dn_owner n;
  ga_ids raw : raw ∈ raws -> exists id, has_id raw id;
  ga_objects raw : raw ∈ raws -> node_is_object raw = true;
  ga_starts o id : dl_starts acc !! o = Some id <->
    dl_nodes acc !! id = Some {| dn_kind := "start"; dn_owner := o |};
}.

Lemma gathered_Ok raws acc :
  fold_result add_doc_node {| dl_nodes := ∅; dl_starts := ∅; dl_unrecognized := [] |} raws = Ok acc ->
  gathered raws acc.
Proof.
  intros H. eapply (fold_result_inv gathered) in H; [done|..].
  - split; simpl; try by intros ? ?%elem_of_nil.
    + intros id n. rewrite lookup_empty. split; [done|]. by intros (? & ?%elem_of_nil & _).
    + intros o id. by rewrite !lookup_empty.
  - clear. intros seen raw a a' [Hn Hi Hj Hs] _ (id & kind & Hid & Hkind & Hfree & Hnodes & Hone & Hstarts)%add_doc_node_Ok.
    assert (forall k n, dl_nodes a !! k = Some n -> k <> id) as Hne by (intros k n Hk ->; congruence).
    split.
    + intros k n. rewrite Hnodes, lookup_insert. setoid_rewrite elem_of_app. setoid_rewrite list_elem_of_singleton.
      destruct (decide (id = k)) as [<-|Hne'].
      * split; [intros [= <-]; exists raw; auto|].
        intros (r & [Hr| ->] & Hrid & Hrk & Hro).
        -- assert (dl_nodes a !! id = Some n) as Hn' by (apply Hn; by exists r). congruence.
        -- unfold has_kind in *. destruct n. simpl in *. congruence.
      * rewrite Hn. split; [intros (r & ? & ?); exists r; auto|].
        intros (r & [Hr| ->] & Hrid & Hro); [by exists r|]. unfold has_id in *. congruence.
    + intros r [Hr| ->%list_elem_of_singleton]%elem_of_app; [by apply Hi|by exists id].
    + intros r [Hr| ->%list_elem_of_singleton]%elem_of_app; [by apply Hj|by eapply named_node_is_object].
    + intros o k. rewrite Hnodes, Hstarts. case_bool_decide as Hk.
      * specialize (Hone Hk). subst kind.
        destruct (decide (o = doc_owner raw)) as [->|Ho], (decide (k = id)) as [->|Hkk].
        -- rewrite !lookup_insert_eq. done.
        -- rewrite lookup_insert_eq, lookup_insert_ne by done. rewrite <-Hs, Hone. split; [congruence|done].
        -- rewrite lookup_insert_eq, lookup_insert_ne by done. rewrite Hs, Hfree. split; [done|congruence].
        -- rewrite !lookup_insert_ne by done. apply Hs.
      * rewrite Hs. destruct (decide (k = id)) as [->|Hkk]; [|by rewrite lookup_insert_ne].
        rewrite lookup_insert_eq, Hfree. split; [done|congruence].
Qed.

(** ** What the edge loop gathers *)

Lemma add_doc_edge_Ok nodes acc edge acc' : add_doc_edge nodes acc edge = Ok acc' -> exists a b from to,
  as_str (value_at "source" edge) = Some a /\ as_str (value_at "target" edge) = Some b /\
  nodes !! a = Some from /\ nodes !! b = Some to /\ acc' = acc ++ [(a, b)] /\
  (dn_owner from = dn_owner to \/ dn_kind from = "iteration" /\ dn_owner to = Some a).
Proof.
  unfold add_doc_edge. intros H.
  apply bind_Ok in H as (a & [_ Ha]%required_string_Ok & H).
  apply bind_Ok in H as (b & [_ Hb]%required_string_Ok & H).
  apply bind_Ok in H as (from & Hfrom%ok_or_Ok & H). apply bind_Ok in H as (to & Hto%ok_or_Ok & H).
  apply reject_Ok in H as [Hcross H]. injection H as <-. exists a, b, from, to. split_and!; try done.
  apply andb_false_iff in Hcross as [Hcross|Hcross]; apply negb_false_iff in Hcross.
  - apply bool_decide_eq_true in Hcross. by left.
  - right. apply andb_true_iff in Hcross. by rewrite !bool_decide_eq_true in Hcross.
Qed.

(** A gathered edge connects known nodes of one owner, or an iteration with its members. *)
Definition edge_allowed (nodes : gmap string DocNode) (a b : string) : Prop :=
  exists from to, nodes !! a = Some from /\ nodes !! b = Some to /\
    (dn_owner from = dn_owner to \/ dn_kind from = "iteration" /\ dn_owner to = Some a).

Lemma doc_edges_Ok nodes raws edges : fold_result (add_doc_edge nodes) [] raws = Ok edges ->
  (forall a b, (a, b) ∈ edges <-> exists edge, edge ∈ raws /\ as_str (value_at "source" edge) = Some a /\
    as_str (value_at "target" edge) = Some b) /\
  (forall a b, (a, b) ∈ edges -> edge_allowed nodes a b) /\
  forall edge, edge ∈ raws -> exists a b, as_str (value_at "source" edge) = Some a /\
    as_str (value_at "target" edge) = Some b.
Proof.
  intros H. eapply (fold_result_inv (fun raws edges => (forall a b, (a, b) ∈ edges <-> _) /\
    (forall a b, (a, b) ∈ edges -> edge_allowed nodes a b) /\ _)) in H; [exact H|..].
  - split_and!; [|by intros a b ?%elem_of_nil|by intros edge ?%elem_of_nil].
    intros a b. split; [by intros ?%elem_of_nil|by intros (? & ?%elem_of_nil & _)].
  - clear. intros seen edge l l' (Hl & Ha & Hs) _ (a & b & from & to & Hea & Heb & Hf & Ht & -> & Ho)%add_doc_edge_Ok.
    split_and!.
    + intros c d. rewrite elem_of_app, Hl, list_elem_of_singleton. setoid_rewrite elem_of_app.
      setoid_rewrite list_elem_of_singleton. split.
      * intros [(e & ? & ?)|[= -> ->]]; [exists e; auto|exists edge; auto].
      * intros (e & [He| ->] & Hc & Hd); [left; by exists e|right; congruence].
    + intros c d [Hin|[= -> ->]%list_elem_of_singleton]%elem_of_app; [by apply Ha|by exists from, to].
    + intros e [He| ->%list_elem_of_singleton]%elem_of_app; [by apply Hs|by exists a, b].
Qed.

(** ** The frontier computes what control can reach *)

Section reach.
Context (nodes : gmap string DocNode) (starts : gmap (option string) string).
Context (edges : list (string * string)).

Lemma elem_of_outgoing a b : b ∈ outgoing edges a <-> (a, b) ∈ edges.
Proof.
  unfold outgoing. rewrite list_elem_of_fmap. split.
  - intros ([x y] & -> & [Hx Hin]%list_elem_of_filter). simpl in *. by subst.
  - intros Hin. exists (a, b). split; [done|]. by apply list_elem_of_filter.
Qed.

Lemma elem_of_doc_successors a b : b ∈ doc_successors nodes starts edges a <->
  (a, b) ∈ edges \/ is_loop nodes a = true /\ starts !! Some a = Some b.
Proof.
  unfold doc_successors. rewrite elem_of_app, elem_of_outgoing.
  destruct (is_loop nodes a), (starts !! Some a) as [e|];
    rewrite ?list_elem_of_singleton, ?elem_of_nil; naive_solver.
Qed.

Lemma doc_successors_length a : length (doc_successors nodes starts edges a) <= S (length edges).
Proof.
  unfold doc_successors, outgoing. rewrite length_app, length_fmap.
  pose proof (length_filter (fun e : string * string => e.1 = a) edges).
  destruct (is_loop nodes a), (starts !! Some a); simpl; lia.
Qed.

(** A run that succeeds is the plain search, and has met no Loop without entry. *)
Lemma frontier_loop_Ok fuel frontier active r :
  frontier_loop nodes starts edges fuel frontier active = Ok r ->
  r = pop_loop (doc_successors nodes starts edges) fuel frontier active /\
  forall id, id ∈ r -> id ∉ active -> is_loop nodes id = true -> is_Some (starts !! Some id).
Proof.
  revert frontier active. induction fuel as [|fuel IH]; intros frontier active H; simpl in *.
  { injection H as <-. done. }
  destruct frontier as [|id frontier]; [by injection H as <-|].
  case_bool_decide as Hin; [by apply IH|].
  destruct (is_loop nodes id && bool_decide (starts !! Some id = None)) eqn:Hloop; [done|]. apply IH in H as [-> Hall]. split; [done|].
  intros k Hk Hka Hl. destruct (decide (k = id)) as [->|Hne]; [|apply Hall; set_solver].
  rewrite Hl in Hloop. simpl in Hloop. apply bool_decide_eq_false in Hloop. by apply not_eq_None_Some.
Qed.

Context (Hedges : forall a b, (a, b) ∈ edges -> is_Some (nodes !! b)).
Context (Hstarts : forall o id, starts !! o = Some id -> is_Some (nodes !! id)).

Lemma frontier_reach start r : is_Some (nodes !! start) ->
  frontier_loop nodes starts edges (frontier_fuel nodes edges) [start] ∅ = Ok r ->
  forall id, id ∈ r <-> rtc (fun a b => b ∈ doc_successors nodes starts edges a) start id.
Proof using Hedges Hstarts.
  intros Hs [-> _]%frontier_loop_Ok id.
  rewrite (pop_loop_reach (doc_successors nodes starts edges) (dom nodes)) with (d := S (length edges)).
  - setoid_rewrite list_elem_of_singleton. split; [by intros (x & -> & H)|]. intros H. by exists start.
  - intros x y _ [Hxy|[_ Hxy]]%elem_of_doc_successors; apply elem_of_dom; [by eapply Hedges|by eapply Hstarts].
  - intros y ->%list_elem_of_singleton. by apply elem_of_dom.
  - intros x _. apply doc_successors_length.
  - unfold frontier_fuel. rewrite size_dom. simpl. lia.
Qed.
End reach.

(** ** The projection *)

Section projection.
Context (doc : Value) (acc : DocLoop) (edges : list (string * string)).
Context (Hacc : gathered (doc_items "nodes" doc) acc).
Context (Hedges : forall a b, (a, b) ∈ edges <-> doc_edge doc a b).
Context (Hallowed : forall a b, (a, b) ∈ edges -> edge_allowed (dl_nodes acc) a b).

Lemma doc_node_gathered id kind owner :
  doc_node doc id kind owner <-> dl_nodes acc !! id = Some {| dn_kind := kind; dn_owner := owner |}.
Proof using Hacc. by rewrite (ga_nodes _ _ Hacc). Qed.

Lemma successors_step a b :
  b ∈ doc_successors (dl_nodes acc) (dl_starts acc) edges a <-> doc_step doc a b.
Proof using Hacc Hedges.
  rewrite elem_of_doc_successors. unfold doc_step. rewrite Hedges. f_equiv.
  unfold is_loop. rewrite (ga_starts _ _ Hacc). setoid_rewrite doc_node_gathered. f_equiv.
  destruct (dl_nodes acc !! a) as [[k o]|]; rewrite ?bool_decide_eq_true; simpl; naive_solver.
Qed.

Lemma root_start_unique start : dl_starts acc !! None = Some start <-> doc_node doc start "start" None.
Proof using Hacc. by rewrite (ga_starts _ _ Hacc), doc_node_gathered. Qed.

(** The search of the frontier is reachability in the document. *)
Lemma active_reachable start r : dl_starts acc !! None = Some start ->
  frontier_loop (dl_nodes acc) (dl_starts acc) edges (frontier_fuel (dl_nodes acc) edges) [start] ∅ = Ok r ->
  forall id, id ∈ r <-> doc_reachable doc id.
Proof using Hacc Hedges Hallowed.
  intros Hs Hr id. rewrite frontier_reach with (start := start) (r := r); [| | | |exact Hr].
  - split.
    + intros Hid. exists start. split; [by apply root_start_unique|].
      eapply rtc_subrel; [|exact Hid]. intros a b. apply successors_step.
    + intros (s & Hs'%root_start_unique & Hid). assert (s = start) as -> by congruence.
      eapply rtc_subrel; [|exact Hid]. intros a b. apply successors_step.
  - intros a b (from & to & _ & Ht & _)%Hallowed. by eexists.
  - intros o k Hk%(ga_starts _ _ Hacc). by eexists.
  - apply (ga_starts _ _ Hacc) in Hs. by eexists.
Qed.

(** Control enters a container through its owner. *)
Lemma reachable_owner id kind owner : doc_reachable doc id -> doc_node doc id kind (Some owner) ->
  doc_reachable doc owner.
Proof using Hacc Hedges Hallowed.
  intros (start & Hstart & Hreach). revert kind owner. pattern id.
  refine (rtc_ind_r _ start _ _ id Hreach).
  - intros kind owner Hnode. rewrite doc_node_gathered in *. congruence.
  - clear Hreach. intros b c Hreach Hstep IH kind owner Hnode.
    assert (doc_reachable doc b) as Hb by (by exists start). destruct Hstep as [Hedge|[_ Hentry]].
    + apply Hedges, Hallowed in Hedge as (from & to & Hf & Ht & Ho).
      rewrite doc_node_gathered in Hnode. rewrite Hnode in Ht. injection Ht as <-. simpl in Ho.
      destruct Ho as [Ho|[_ [= ->]]]; [|done]. destruct from as [k o]. simpl in Ho. subst o.
      eapply IH; [done..|]. by rewrite doc_node_gathered.
    + rewrite doc_node_gathered in *. assert (owner = b) as -> by congruence. done.
Qed.
End projection.

(** ** What a projection keeps *)

Lemma retain_items key key' keep doc : is_Some (as_array (value_at key doc)) ->
  doc_items key' (retain key keep doc) =
    if decide (key' = key) then filter (fun v => keep v = true) (doc_items key doc) else doc_items key' doc.
Proof.
  intros [l Hl]. unfold doc_items, retain, value_at, value_field in *.
  destruct doc as [| | | | |fields]; try done. rewrite map_get_insert.
  destruct (decide (key' = key)) as [->|Hne]; [by rewrite decide_True|by rewrite decide_False].
Qed.

Lemma retain_field key key' keep doc : key' <> key -> value_field key' (retain key keep doc) = value_field key' doc.
Proof.
  intros Hne. destruct doc as [| | | | |fields]; try done. simpl. rewrite map_get_insert.
  by rewrite decide_False by done.
Qed.

(** The projection of a document whose root has a Start. *)
Record projected (doc : Value) (ed : ExecutionDocument) : Prop := {
  pr_nodes raw : raw ∈ doc_items "nodes" (ed_graph ed) <->
    raw ∈ doc_items "nodes" doc /\ exists id, has_id raw id /\ doc_reachable doc id;
  pr_edges edge : edge ∈ doc_items "edges" (ed_graph ed) <->
    edge ∈ doc_items "edges" doc /\ exists a b, as_str (value_at "source" edge) = Some a /\
      as_str (value_at "target" edge) = Some b /\ doc_reachable doc a /\ doc_reachable doc b;
  pr_order : doc_items "nodes" (ed_graph ed) `sublist_of` doc_items "nodes" doc /\
    doc_items "edges" (ed_graph ed) `sublist_of` doc_items "edges" doc;
  pr_other key : key <> "nodes" -> key <> "edges" ->
    value_field key (ed_graph ed) = value_field key doc;
  pr_unused id : id ∈ ed_unused_node_ids ed <->
    (exists kind owner, doc_node doc id kind owner) /\ ~ doc_reachable doc id;
  pr_owner id kind owner : doc_reachable doc id -> doc_node doc id kind (Some owner) ->
    doc_reachable doc owner;
  pr_loop id owner : doc_reachable doc id -> doc_node doc id "loop" owner ->
    exists entry, doc_node doc entry "start" (Some id) /\ doc_reachable doc entry;
}.

Lemma id_active_True active v : id_active active v = true <-> exists id, as_str v = Some id /\ id ∈ active.
Proof.
  unfold id_active. destruct (as_str v) as [id|]; rewrite ?bool_decide_eq_true; naive_solver.
Qed.

Lemma retain_active_items doc active : is_Some (as_array (value_at "nodes" doc)) ->
  is_Some (as_array (value_at "edges" doc)) ->
  doc_items "nodes" (retain_active active doc) =
    filter (fun n => id_active active (value_at "id" n) = true) (doc_items "nodes" doc) /\
  doc_items "edges" (retain_active active doc) =
    filter (fun e => id_active active (value_at "source" e) && id_active active (value_at "target" e) = true)
      (doc_items "edges" doc).
Proof.
  intros Hn He. unfold retain_active.
  assert (forall keep, is_Some (as_array (value_at "edges" (retain "nodes" keep doc)))) as He'.
  { intros keep. unfold value_at. by rewrite retain_field. }
  rewrite !(retain_items "edges") by done. rewrite !(retain_items "nodes") by done. done.
Qed.

Section document.
Context {json : JsonText}.

Lemma project_document_inv doc ed : project_document doc = Ok ed ->
  is_object doc = true /\ is_Some (as_array (value_at "nodes" doc)) /\ is_Some (as_array (value_at "edges" doc)) /\
  exists acc edges, gathered (doc_items "nodes" doc) acc /\
    (forall a b, (a, b) ∈ edges <-> doc_edge doc a b) /\
    (forall a b, (a, b) ∈ edges -> edge_allowed (dl_nodes acc) a b) /\
    match dl_starts acc !! None with
    | None => ed_graph ed = doc /\ ed_unused_node_ids ed = []
    | Some start => exists active,
        frontier_loop (dl_nodes acc) (dl_starts acc) edges
          (frontier_fuel (dl_nodes acc) edges) [start] ∅ = Ok active /\
        ed_graph ed = retain_active active doc /\
        ed_unused_node_ids ed = filter (fun id => id ∉ active) (btree_keys str_le (dl_nodes acc))
    end.
Proof.
  unfold project_document. intros H. apply reject_Ok in H as [Hobj%negb_false_iff H].
  apply bind_Ok in H as (raws & Hraws%ok_or_Ok & H). apply bind_Ok in H as (raw_edges & Hre%ok_or_Ok & H).
  apply bind_Ok in H as (acc & Hacc%gathered_Ok & H). apply bind_Ok in H as (u & _ & H).
  apply reject_Ok in H as [_ H].
  apply bind_Ok in H as (edges & (Hedges & Hallowed & _)%doc_edges_Ok & H).
  split; [done|]. split; [by eexists|]. split; [by eexists|]. exists acc, edges.
  split; [by unfold doc_items, array_items; rewrite Hraws|].
  split; [unfold doc_edge, doc_items, array_items; by rewrite Hre|]. split; [done|].
  destruct (dl_starts acc !! None) as [start|]; [|by injection H as <-].
  apply bind_Ok in H as (active & Hactive & H). injection H as <-. by exists active.
Qed.

Lemma projected_active doc ed acc edges start active :
  is_Some (as_array (value_at "nodes" doc)) -> is_Some (as_array (value_at "edges" doc)) ->
  gathered (doc_items "nodes" doc) acc -> (forall a b, (a, b) ∈ edges <-> doc_edge doc a b) ->
  (forall a b, (a, b) ∈ edges -> edge_allowed (dl_nodes acc) a b) ->
  dl_starts acc !! None = Some start ->
  frontier_loop (dl_nodes acc) (dl_starts acc) edges (frontier_fuel (dl_nodes acc) edges) [start] ∅ = Ok active ->
  ed_graph ed = retain_active active doc ->
  ed_unused_node_ids ed = filter (fun id => id ∉ active) (btree_keys str_le (dl_nodes acc)) ->
  projected doc ed.
Proof.
  intros Hn He Hacc Hedges Hallowed Hstart Hactive Hgraph Hunused.
  pose proof (active_reachable doc acc edges Hacc Hedges Hallowed start active Hstart Hactive) as Hr.
  destruct (retain_active_items doc active Hn He) as [Hnodes' Hedges'].
  split; rewrite ?Hgraph, ?Hunused, ?Hnodes', ?Hedges'.
  - intros raw. rewrite list_elem_of_filter, id_active_True. setoid_rewrite Hr. unfold has_id. tauto.
  - intros edge. rewrite list_elem_of_filter, andb_true_iff, !id_active_True. setoid_rewrite Hr. naive_solver.
  - split; apply sublist_filter.
  - intros key H1 H2. unfold retain_active. by rewrite !retain_field by done.
  - intros id. rewrite list_elem_of_filter, Hr, (elem_of_btree_keys str_le).
    setoid_rewrite (doc_node_gathered doc acc Hacc).
    split; [intros [? [[k o] ?]]; eauto|intros [(k & o & ?) ?]; eauto].
  - by apply (reachable_owner doc acc edges).
  - intros id owner Hid Hloop. apply (doc_node_gathered doc acc Hacc) in Hloop as Hnode.
    apply frontier_loop_Ok in Hactive as [_ Hentry].
    destruct (Hentry id) as [entry Hs]; [by apply Hr|set_solver|unfold is_loop; by rewrite Hnode, bool_decide_true|].
    exists entry. assert (doc_node doc entry "start" (Some id)) as Hen
      by (apply (doc_node_gathered doc acc Hacc); by apply (ga_starts _ _ Hacc)).
    split; [done|]. destruct Hid as (s & Hs' & Hid). exists s. split; [done|].
    eapply rtc_r; [exact Hid|]. right. split; [by exists owner|done].
Qed.

Lemma project_document_projected doc ed : project_document doc = Ok ed ->
  (forall start, doc_node doc start "start" None -> projected doc ed) /\
  (~ (exists start, doc_node doc start "start" None) -> ed_graph ed = doc /\ ed_unused_node_ids ed = []).
Proof.
  intros (_ & Hn & He & acc & edges & Hacc & Hedges & Hallowed & H)%project_document_inv. split.
  - intros start Hstart. apply (root_start_unique doc acc Hacc) in Hstart as Hs. rewrite Hs in H.
    destruct H as (active & Hactive & Hg & Hu). by eapply projected_active.
  - intros Hno. destruct (dl_starts acc !! None) as [start|] eqn:E; [|done].
    destruct Hno. exists start. by apply (root_start_unique doc acc Hacc).
Qed.

Lemma project_structured doc ed : project_document doc = Ok ed -> structured (ed_graph ed) = true.
Proof.
  intros (Hobj & Hn & He & acc & edges & Hacc & _ & _ & H)%project_document_inv.
  assert (Forall (fun raw => node_is_object raw = true) (doc_items "nodes" doc)) as Hall
    by (apply Forall_forall, (ga_objects _ _ Hacc)).
  unfold structured. apply andb_true_iff. rewrite forallb_True. fold (doc_items "nodes" (ed_graph ed)).
  destruct (dl_starts acc !! None) as [start|]; [|by destruct H as [-> _]].
  destruct H as (active & _ & -> & _). split; [unfold retain_active; by destruct doc|].
  rewrite (proj1 (retain_active_items doc active Hn He)). by apply Forall_filter_keep.
Qed.

(** Projecting an authoring document keeps exactly the nodes that control can reach from the
    root Start, along edges and into the bodies of reached Loops, and the edges between them, in
    document order and with every other member untouched; the owner of a kept node is kept, every
    kept Loop has an entry, and the other nodes are reported as unused.  A document without a root
    Start is left as it is. *)
Theorem project_keeps_reachable doc ed :
  project_document doc = Ok ed ->
  (forall start, doc_node doc start "start" None -> projected doc ed) /\
  (~ (exists start, doc_node doc start "start" None) -> ed_graph ed = doc /\ ed_unused_node_ids ed = []).
Proof. apply project_document_projected. Qed.
End document.

(** ** References *)

Lemma require_used_Ok unused id u : require_used unused id = Ok u <-> id ∉ unused.
Proof. unfold require_used. rewrite reject_if_Ok. by rewrite bool_decide_eq_false. Qed.

Section references.
Context {pet : Petgraph}.

Lemma validate_references_Ok g unused : validate_references g unused = Ok tt <->
  forall scope n, scope ∈ execution_scopes g -> n ∈ g_nodes scope ->
    (forall s, s ∈ scope_selectors scope n -> sel_node_id s ∉ unused) /\
    (forall text, text ∈ scope_texts scope n -> visit_template_node_ids unused text = Ok tt).
Proof.
  unfold validate_references. rewrite for_each_Ok, Forall_forall. setoid_rewrite for_each_Ok.
  setoid_rewrite Forall_forall.
  assert (forall scope n, validate_node_references unused scope n = Ok tt <->
    (forall s, s ∈ scope_selectors scope n -> sel_node_id s ∉ unused) /\
    (forall text, text ∈ scope_texts scope n -> visit_template_node_ids unused text = Ok tt)) as Hn; [|].
  { intros scope n. unfold validate_node_references. rewrite bind_Ok.
    setoid_rewrite for_each_Ok. setoid_rewrite Forall_forall. setoid_rewrite require_used_Ok.
    split; [intros ([] & ? & ?); done|intros [? ?]; by exists tt]. }
  setoid_rewrite Hn. naive_solver.
Qed.
End references.

Lemma execution_scopes_flat fuel body : g_loops body = [] -> 0 < fuel -> execution_scopes_at fuel body = [body].
Proof.
  intros Hl Hf. destruct fuel; [lia|]. simpl. unfold bodies, loop_body. rewrite Hl. simpl. f_equal.
  by induction (g_nodes body).
Qed.

(** The scopes of a parsed graph are the root and the bodies. *)
Lemma elem_of_execution_scopes {debug : DebugText} g scope : containers_ok g ->
  scope ∈ execution_scopes g <-> scope = g \/ exists id config, loop_body g id = Some (config, scope).
Proof.
  intros Hg. unfold execution_scopes. pose proof (loops_depth_pos g) as Hpos.
  destruct (loops_depth g) as [|d] eqn:Ed; [lia|]. cbn [execution_scopes_at]. rewrite elem_of_cons.
  f_equiv. unfold bodies. rewrite list_elem_of_bind. split.
  - intros (body & Hin & Hb). apply list_elem_of_omap in Hb as (n & Hn & ([config b] & Hlb & ->)%fmap_Some).
    simpl in *. exists (gn_id n), config. pose proof (loops_depth_body _ _ _ _ Hlb).
    pose proof (loops_depth_pos b). apply (co_body g Hg) in Hlb as Hb.
    rewrite execution_scopes_flat in Hin; [|tauto|lia]. apply list_elem_of_singleton in Hin. by subst.
  - intros (id & config & Hlb). exists scope. pose proof (loops_depth_body _ _ _ _ Hlb).
    pose proof (loops_depth_pos scope). destruct (co_body g Hg _ _ _ Hlb) as ((n & Hn & _) & Hb).
    rewrite execution_scopes_flat; [|tauto|lia]. split; [by left|].
    apply list_elem_of_omap. exists n. apply (node_Some _ (co_graph g Hg)) in Hn as [Hn <-].
    split; [done|]. by rewrite Hlb.
Qed.

(** ** Parsing *)

Lemma value_ok_retain key keep doc : value_ok doc = true -> value_ok (retain key keep doc) = true.
Proof.
  intros Hok. destruct doc as [| | | | |fields]; try done.
  assert (value_ok (VArray (filter (fun v => keep v = true) (array_items (value_at key (VObject fields))))) = true) as Hv.
  { simpl. apply forallb_True, Forall_filter_keep. unfold value_at.
    destruct (value_field key (VObject fields)) as [v|] eqn:E; [|constructor]. simpl.
    apply value_ok_field in E; [|done]. unfold array_items.
    destruct (as_array v) as [l|] eqn:El; [by eapply value_ok_items|constructor]. }
  unfold retain. set (w := VArray _) in *. clearbody w. simpl in Hok |- *.
  apply andb_true_iff in Hok as [Hnd%bool_decide_eq_true Hall].
  apply andb_true_iff. split; [by apply bool_decide_eq_true, map_insert_keys|]. clear Hnd.
  induction fields as [|[k x] fields IH]; simpl in *; [by rewrite Hv|].
  apply andb_true_iff in Hall as [Hx Hall]. case_decide; simpl; [by rewrite Hv, Hall|]. by rewrite Hx, IH.
Qed.

Section parse_sound.
Context {debug : DebugText} {json : JsonText} {policy : PolicyDecode} {order : HashOrder}
  {pet : Petgraph} {envelope : EnvelopeDecode} {loops : LoopDecode}.
Context {laws : DocumentLaws} {read_back : JsonReadBack}.

Lemma project_value_ok doc ed : value_ok doc = true -> project_document doc = Ok ed ->
  value_ok (ed_graph ed) = true.
Proof using.
  intros Hok (_ & _ & _ & acc & edges & _ & _ & _ & H)%project_document_inv.
  destruct (dl_starts acc !! None); [destruct H as (active & _ & -> & _)|by destruct H as [-> _]].
  by do 2 apply value_ok_retain.
Qed.

Lemma parse_inv text g : parse text = Ok g -> exists doc ed,
  json_from_str text = Some doc /\ project_document doc = Ok ed /\
  value_ok (ed_graph ed) = true /\ structured (ed_graph ed) = true /\
  parse_scoped_graph (json_to_string (ed_graph ed)) = Ok g /\
  validate_references g (ed_unused_node_ids ed) = Ok tt.
Proof using laws.
  unfold parse, project. intros H. apply bind_Ok in H as (ed & Hed & H).
  apply bind_Ok in Hed as (doc & Hdoc%ok_or_Ok & Hed). apply bind_Ok in H as (g' & Hg & H).
  apply bind_Ok in H as ([] & Href & H). injection H as ->. exists doc, ed. split_and!; try done.
  - eapply project_value_ok; [|done]. by eapply parsed_ok.
  - by eapply project_structured.
Qed.

Lemma parse_well_formed text g : parse text = Ok g -> containers_ok g.
Proof using laws read_back.
  intros (doc & ed & _ & _ & Hok & Hs & Hscoped & _)%parse_inv. by apply parse_scoped_ok in Hscoped as [Hg _].
Qed.

(** The selectors that rendering the text looks up, from left to right. *)
Inductive looks_up : string -> VariableSelector -> Prop :=
| looks_up_first text before after source rest s : split_once OPEN text = Some (before, after) ->
    split_once CLOSE after = Some (source, rest) -> try_from_parts (split_char DOT source) = Some s -> looks_up text s
| looks_up_later text before after source rest s : split_once OPEN text = Some (before, after) ->
    split_once CLOSE after = Some (source, rest) -> looks_up rest s -> looks_up text s.

Lemma visit_references_Ok fuel unused text s : String.length text <= fuel ->
  visit_references fuel unused text = Ok tt -> looks_up text s -> sel_node_id s ∉ unused.
Proof using.
  intros Hf H Hs. revert fuel Hf H.
  induction Hs as [text before after source rest s Ho Hc Hsel|text before after source rest s Ho Hc _ IH]; intros fuel Hf H.
  - destruct fuel as [|fuel]; [destruct text; simpl in Hf; [done|lia]|]. simpl in H. rewrite Ho, Hc in H.
    apply bind_Ok in H as ([] & H & _). unfold try_from_parts in Hsel. destruct (split_char DOT source) as [|a [|b l]] eqn:E; [done..|].
    apply split_char_once in E as [t Ht]. change (String DOT "") with "." in Ht. rewrite Ht in H.
    destruct (bool_decide (a = "") || bool_decide (b = "")); [done|]. injection Hsel as <-. by apply require_used_Ok in H.
  - pose proof (open_shorter _ _ _ _ _ Ho Hc) as Hlt. destruct fuel as [|fuel]; [lia|]. simpl in H. rewrite Ho, Hc in H.
    apply bind_Ok in H as ([] & _ & H). eapply IH; [|done]. lia.
Qed.

(** C30: the graph a run executes is well formed and holds exactly the nodes that control can
    reach from the document's root Start; no selector of a node or of a Loop's configuration names one
    of the other nodes, which the projection left out, and neither does any selector that rendering one of its templates
    (prompts, operands of rules) looks up. *)
Theorem parse_sound text g :
  parse text = Ok g ->
  containers_ok g /\ exists doc ed, json_from_str text = Some doc /\ project_document doc = Ok ed /\
    (forall start, doc_node doc start "start" None -> forall id,
       (in_scope g id <-> doc_reachable doc id /\ exists raw, raw ∈ doc_items "nodes" doc /\ has_id raw id) /\
       (id ∈ ed_unused_node_ids ed <-> (exists kind owner, doc_node doc id kind owner) /\ ~ doc_reachable doc id)) /\
    (forall scope n, scope = g \/ (exists id config, loop_body g id = Some (config, scope)) ->
       n ∈ g_nodes scope ->
       (forall s, s ∈ scope_selectors scope n -> sel_node_id s ∉ ed_unused_node_ids ed) /\
       (forall t s, t ∈ scope_texts scope n -> looks_up t s -> sel_node_id s ∉ ed_unused_node_ids ed)).
Proof using laws read_back.
  intros (doc & ed & Hdoc & Hed & Hok & Hs & Hscoped & Href)%parse_inv.
  pose proof (parse_scoped_ok _ _ Hok Hs Hscoped) as [Hg _]. split; [done|]. exists doc, ed.
  split; [done|]. split; [done|]. split.
  - intros start Hstart id. apply project_document_projected in Hed as [Hp _]. specialize (Hp _ Hstart).
    split; [|apply (pr_unused _ _ Hp)].
    rewrite (parse_scoped_ids _ _ _ Hok Hs Hscoped). fold (doc_items "nodes" (ed_graph ed)).
    setoid_rewrite (pr_nodes _ _ Hp). unfold has_id. naive_solver.
  - intros scope n Hscope Hn. rewrite validate_references_Ok in Href.
    destruct (Href scope n) as [Hsel Htext]; [by apply elem_of_execution_scopes|done|]. split; [done|].
    intros t s Ht Hlook. eapply visit_references_Ok; [|by apply Htext|done]. done.
Qed.
End parse_sound.

(** ** Examples *)

Section sample.
#[local] Existing Instances LoopGraph.plain_debug LoopGraph.no_policy LoopGraph.insertion_order.
#[local] Existing Instances kahn_petgraph echo_loops.

(** The Loop document with an Agent that nothing reaches. *)
Definition spare_document : Value :=
  VObject [("schemaVersion", VNumber (PosInt 2));
           ("nodes", VArray [raw_node "s" "start" None; raw_node "spare" "agent" None;
                             raw_node "l" "loop" None; raw_node "begin" "start" (Some "l");
                             raw_node "work" "agent" (Some "l")]);
           ("edges", VArray [raw_edge "spare" "l"; raw_edge "s" "l"; raw_edge "begin" "work"])].

Lemma spare_start : doc_node spare_document "s" "start" None.
Proof. exists (raw_node "s" "start" None). repeat split. by left. Qed.

Lemma project_keeps_reachable_witness :
  exists ed, project_document spare_document = Ok ed /\ projected spare_document ed /\
    ed_unused_node_ids ed = ["spare"] /\ length (doc_items "edges" (ed_graph ed)) = 2.
Proof.
  destruct (project_document spare_document) as [ed|] eqn:E.
  2: { vm_compute in E. discriminate E. }
  pose proof (proj1 (project_keeps_reachable spare_document ed E) "s" spare_start) as Hp.
  exists ed. split; [reflexivity|]. split; [exact Hp|]. vm_compute in E. injection E as <-.
  split; vm_compute; reflexivity.
Defined.

Lemma parse_sound_witness :
  exists g, parse (json_to_string spare_document) = Ok g /\ containers_ok g /\
    gn_id <$> g_nodes g = ["s"; "l"].
Proof.
  destruct (parse (json_to_string spare_document)) as [g|] eqn:E.
  2: { vm_compute in E. discriminate E. }
  pose proof (proj1 (parse_sound (json_to_string spare_document) g E)) as Hg.
  exists g. split; [reflexivity|]. split; [exact Hg|]. vm_compute in E. injection E as <-.
  vm_compute. reflexivity.
Defined.
End sample.
