(* ===== verification/Engine.v ===== *)
(** * The run engine: state, ports and commands ([engine/engine.rs], [engine/node_executor.rs])

    The engine is stateless: every command reads the run from the repository, decides with the
    pure components and writes back through repository transactions.  A computation of the engine
    threads the run's store, the ports (identifiers, clock, executor) and the log of what it asked
    of the outside: dispatched nodes, armed timers, published invalidations.  Every repository
    call commits or rolls back on its own; an error stops the command where it is raised and keeps
    what was committed before. *)

From S2P Require Import Prelude RustStr Json NodeTypes VariablePool Retry GraphBase.
From S2P Require Import Iteration GraphBase Graph RunPayload Resume Executable Store StorePayload.
From S2P Require Import StoreNodes StoreRun.
Local Open Scope ora_scope.

Inductive EngineError : Type :=
| WorkflowRunNotFound (run_id : string)
| GraphParseError (e : GraphError)
| ValidationError (e : WorkflowValidationError)
| RepositoryError (e : StoreError)
| LoopStateError (message : string).

Definition engine_error_message (e : EngineError) : string :=
  match e with
  | WorkflowRunNotFound run_id => "workflow run not found: " +:+ run_id
  | GraphParseError _ => "workflow graph is invalid"
  | ValidationError _ => "workflow graph is not executable"
  | RepositoryError _ => "workflow run repository operation failed"
  | LoopStateError message => "workflow Loop state cannot be serialized: " +:+ message
  end.

Inductive LoopExitCleanup : Type := CleanupComplete | CleanupPending.

(** The ports of the engine that are code of other crates: the identifier generator, the clock,
    the executor's answer to a cleanup, and the identifier SQLite draws for a fresh root scope.
    [P] is whatever state they keep. *)
Class EnginePorts (P : Type) := {
  generate_node_run_id : P -> string * P;
  generate_scope_id : P -> string * P;
  random_root_id : P -> string * P;
  now_timestamp_millis : P -> Z * P;
  cleanup_loop_exit : string -> string -> P -> LoopExitCleanup * P;
}.

(** [error.to_string()] of the [serde_json] error on a text that is no round state. *)
Class DecodeMessage := { decode_message : string -> string }.

(** What the engine asks of the outside. *)
Inductive EngineEvent : Type :=
| Dispatched (node_run_id : string) (n : WorkflowGraphNode) (scope_id : string)
    (pool : WorkflowVariablePool)
| CompositeStarted (node_run_id : string) (n : WorkflowGraphNode)
| RetryArmed (node_run_id : string) (due_at : Z)
| RunInvalidated.

(** The workspace and the snapshot of the run are rows of other tables: whether the workspace is
    live, and the graph text of the snapshot when its row is live. *)
Record EngineState (P : Type) : Type := {
  es_store : RunStore;
  es_workspace : bool;
  es_graph : option string;
  es_ports : P;
  es_events : list EngineEvent;
}.
Arguments es_store {P} _.
Arguments es_workspace {P} _.
Arguments es_graph {P} _.
Arguments es_ports {P} _.
Arguments es_events {P} _.

(** How a computation ends; [OutOfFuel] is the model's bound on a loop that has none. *)
Inductive outcome (A : Type) : Type :=
| Done (x : A)
| Raised (e : EngineError)
| Panicked
| OutOfFuel.
Arguments Done {A} x.
Arguments Raised {A} e.
Arguments Panicked {A}.
Arguments OutOfFuel {A}.

Definition Eng (P A : Type) : Type := EngineState P -> outcome A * EngineState P.

Section monad.
Context {P : Type}.

#[export] Instance eng_ret : MRet (Eng P) := fun A x e => (Done x, e).
#[export] Instance eng_bind : MBind (Eng P) := fun A B k m e =>
  match m e with
  | (Done x, e') => k x e'
  | (Raised err, e') => (Raised err, e')
  | (Panicked, e') => (Panicked, e')
  | (OutOfFuel, e') => (OutOfFuel, e')
  end.

Definition raise {A} (err : EngineError) : Eng P A := fun e => (Raised err, e).
Definition panic {A} : Eng P A := fun e => (Panicked, e).
Definition out_of_fuel {A} : Eng P A := fun e => (OutOfFuel, e).
Definition asks {A} (f : EngineState P -> A) : Eng P A := fun e => (Done (f e), e).

Definition with_store (s : RunStore) (e : EngineState P) : EngineState P :=
  {| es_store := s; es_workspace := es_workspace e; es_graph := es_graph e;
     es_ports := es_ports e; es_events := es_events e |}.
Definition with_ports (p : P) (e : EngineState P) : EngineState P :=
  {| es_store := es_store e; es_workspace := es_workspace e; es_graph := es_graph e;
     es_ports := p; es_events := es_events e |}.
Definition with_event (event : EngineEvent) (e : EngineState P) : EngineState P :=
  {| es_store := es_store e; es_workspace := es_workspace e; es_graph := es_graph e;
     es_ports := es_ports e; es_events := es_events e ++ [event] |}.

(** A fallible step, and the two ways a command handles the error of another one. *)
Definition of_result {E A} (f : E -> EngineError) (m : result E A) : Eng P A :=
  match m with Ok x => mret x | Err err => raise (f err) end.
Definition attempt {A} (m : Eng P A) : Eng P (result EngineError A) := fun e =>
  match m e with
  | (Done x, e') => (Done (Ok x), e')
  | (Raised err, e') => (Done (Err err), e')
  | (Panicked, e') => (Panicked, e')
  | (OutOfFuel, e') => (OutOfFuel, e')
  end.

(** A repository transaction, and a read. *)
Definition commits {A} (m : Tx A) : Eng P A := fun e =>
  let (r, s) := commit m (es_store e) in
  (match r with Ok x => Done x | Err err => Raised (RepositoryError err) end, with_store s e).
Definition reads {A} (f : RunStore -> A) : Eng P A := asks (fun e => f (es_store e)).

(** A use of a port, and an event. *)
Definition port {A} (f : P -> A * P) : Eng P A := fun e =>
  let (x, p) := f (es_ports e) in (Done x, with_ports p e).
Definition emit (event : EngineEvent) : Eng P unit := fun e => (Done tt, with_event event e).

(** [for x in l { f(x)?; }] *)
Fixpoint for_all {A} (f : A -> Eng P unit) (l : list A) : Eng P unit :=
  match l with
  | [] => mret tt
  | x :: l => f x ;; for_all f l
  end.
Fixpoint map_all {A B} (f : A -> Eng P B) (l : list A) : Eng P (list B) :=
  match l with
  | [] => mret []
  | x :: l => y ← f x; ys ← map_all f l; mret (y :: ys)
  end.
End monad.

Definition is_advanced (r : AdvanceWorkflowRunResult) : bool := bool_decide (r = Advanced).

(** ** The execution context *)

Record ExecutionContext : Type := {
  ec_run : RunColumns;
  ec_graph_json : string;
  ec_root_scope_id : string;
}.

(** [find_execution_context] of the repository and [execution_context] of the engine. *)
Definition find_execution_context {P} (e : EngineState P) : result StoreError (option ExecutionContext) :=
  let run := st_run (es_store e) in
  if wr_deleted run || negb (es_workspace e) then Ok None
  else
    match es_graph e with
    | None => Err IncompleteWorkflowRunContext
    | Some text =>
        Ok (Some {| ec_run := run; ec_graph_json := text; ec_root_scope_id := st_root (es_store e) |})
    end.

Definition execution_context {P} : Eng P ExecutionContext :=
  found ← asks find_execution_context;
  found ← of_result RepositoryError found;
  match found with
  | Some context => mret context
  | None => run_id ← reads (fun s => wr_id (st_run s)); raise (WorkflowRunNotFound run_id)
  end.

(** [execution_state_from] and [execution_payload_from]: a payload that is absent or does not
    decode is the default one. *)
Definition execution_state_from (payload : Column WorkflowRunPayload) :
    WorkflowVariablePool * gmap string string :=
  match payload with
  | Stored p => (variable_pool p, resolved_condition_decisions p)
  | Null | Malformed _ => (empty_pool, ∅)
  end.
Definition execution_payload_from (payload : Column WorkflowRunPayload) : WorkflowRunPayload :=
  match payload with Stored p => p | Null | Malformed _ => default_payload end.

(** ** Repository calls of the engine *)

Definition publish {P} : Eng P unit := emit RunInvalidated.

(** [if advanced { publish }] *)
Definition publish_if {P} (advanced : bool) : Eng P unit :=
  if advanced then publish else mret tt.

(** [find_active_loop_round]; the state column is read as text. *)
Definition find_active_loop_round {P} (parent : string) : Eng P (option RoundScope) :=
  found ← reads (fun s => find_active_round s parent);
  match found with
  | Some c =>
      match sc_state c with
      | Null => raise (RepositoryError IncompleteWorkflowRunContext)
      | _ => mret (Some c)
      end
  | None => mret None
  end.

Section calls.
Context {P : Type} {ports : EnginePorts P}.
Context {debug : DebugText} {json : JsonText} {sqlite : SqliteJson}.

(** [repository.complete_node(id, Some(output), None, None, [], None, now)] *)
Definition complete_with (id output : string) (now : Z) : Eng P AdvanceWorkflowRunResult :=
  commits (complete_node id (Some output) None None [] None now).

Definition fail_with (id : string) (failure : NodeFailure) (now : Z) : Eng P unit :=
  _ ← commits (fail_node id failure PropagateRun now); mret tt.

(** A row to start, under a fresh id. *)
Definition row_to_start (scope : string) (n : WorkflowGraphNode) (input : option string)
    (iteration : option N) : Eng P NodeRunToStart :=
  id ← port generate_node_run_id;
  mret {| ts_id := id; ts_scope_id := scope; ts_node_id := gn_id n;
          ts_node_type := node_type_as_str (gn_type n); ts_input := input; ts_iteration := iteration |}.
End calls.
