(* ===== verification/CompositeScheduler.v ===== *)
(** * Scheduling composite nodes ([engine/engine/loop_scheduler.rs], [loop_exit.rs], [composite_scheduler.rs])

    One scheduling pass for a running Loop row: it starts the first round, drives the active
    round's body with the same projection as the outer graph, and settles a drained round; a break
    freezes its outputs first and completes once the executor has cleaned up. *)

From S2P Require Import Prelude RustStr Json NodeTypes VariablePool Condition GraphBase Retry.
From S2P Require Import Iteration NodeConfig GraphBase Graph Projection Declarations RunPayload.
From S2P Require Import IterationRuntime NodeRuntime Resume Executable Store StorePayload.
From S2P Require Import StoreNodes StoreRun LoopRound Engine.
Local Open Scope ora_scope.

Inductive LoopScheduleOutcome : Type := Progressed | Waiting.

#[export] Instance LoopScheduleOutcome_eq_dec : EqDecision LoopScheduleOutcome.
Proof. solve_decision. Defined.

(** [requests_loop_exit] of the registered runtime. *)
Definition requests_loop_exit (t : NodeType) : bool := bool_decide (t = LoopExit).

Definition running (r : WorkflowNodeRun) : bool := bool_decide (nr_status r = Running).
Definition running_rows (rows : list WorkflowNodeRun) : list WorkflowNodeRun :=
  filter (fun r => running r = true) rows.

Section scheduler.
Context {P : Type} {ports : EnginePorts P}.
Context {debug : DebugText} {json : JsonText} {sqlite : SqliteJson} {decoding : DecodeMessage}.
Context {pet : Petgraph}.

(** The Loop row fails for a reason of its own. *)
Definition fail_loop_row (loop : WorkflowNodeRun) (message : string) (now : Z) :
    Eng P LoopScheduleOutcome :=
  _ ← fail_with (nr_id loop) (new_failure InvalidRunPayload message) now; mret Progressed.

Definition advance_with (scope : string) (advance : LoopRoundAdvance) (now : Z) :
    Eng P LoopScheduleOutcome :=
  _ ← commits (advance_loop_round scope advance now); mret Progressed.

(** A fallible pure step whose panic is the engine's. *)
Definition decide_with {A} (m : result (fault LoopRoundError) A)
    (failed : string -> Eng P LoopScheduleOutcome) (k : A -> Eng P LoopScheduleOutcome) :
    Eng P LoopScheduleOutcome :=
  match m with
  | Ok x => k x
  | Err (Fails e) => failed (loop_round_error_message e)
  | Err Panics => panic
  end.

(** [prepare_loop_round] *)
Definition prepare_loop_round (loop : WorkflowNodeRun) (body : WorkflowGraph) (round : N)
    (pool : WorkflowVariablePool) : Eng P LoopRoundToStart :=
  start ← of_result ValidationError (ok_or (start_node body) MissingStartNode);
  scope_id ← port generate_scope_id;
  row ← row_to_start scope_id start None None;
  mret {| lr_id := scope_id; lr_parent := nr_id loop; lr_index := round;
          lr_state := {| round_pool := pool; round_decisions := ∅; round_exit := None |};
          lr_start := row |}.

(** No round is active: freeze the inputs and start the first round. *)
Definition start_first_round (g : WorkflowGraph) (loop : WorkflowNodeRun) (config : LoopConfig)
    (body : WorkflowGraph) (outer_pool : WorkflowVariablePool) (now : Z) :
    Eng P LoopScheduleOutcome :=
  match initialize_carried config outer_pool with
  | Err e => fail_loop_row loop (loop_round_error_message e) now
  | Ok carried =>
      decide_with (loop_round_pool g (nr_node_id loop) outer_pool carried)
        (fun message => fail_loop_row loop message now)
        (fun pool =>
           round ← prepare_loop_round loop body 1 pool;
           _ ← commits (start_loop_round round now);
           mret Progressed)
  end.

(** [complete_loop_controls] *)
Fixpoint complete_loop_controls (body : WorkflowGraph) (st : LoopRoundExecutionState)
    (rows : list WorkflowNodeRun) (l : list WorkflowNodeRun) (progressed : bool) (now : Z) :
    Eng P bool :=
  match l with
  | [] => mret progressed
  | r :: l =>
      match node body (nr_node_id r) with
      | None => complete_loop_controls body st rows l progressed now
      | Some n =>
          match complete_running n {| sw_node_run := r; sw_run_input := None;
                                      sw_pool := round_pool st; sw_node_runs := rows |} with
          | None => complete_loop_controls body st rows l progressed now
          | Some (Ok output) =>
              _ ← complete_with (nr_id r) output now;
              complete_loop_controls body st rows l true now
          | Some (Err (Fails message)) =>
              _ ← fail_with (nr_id r) (from_runtime (gn_type n) message) now; mret true
          | Some (Err Panics) => panic
          end
      end
  end.

(** The running exit node of the round, whose break has not been recorded yet. *)
Definition exit_row (body : WorkflowGraph) (rows : list WorkflowNodeRun) : option WorkflowNodeRun :=
  find_first (fun r => running r
    && match node body (nr_node_id r) with Some n => requests_loop_exit (gn_type n) | None => false end) rows.

(** Async nodes are handed to the executor with the round's pool. *)
Definition dispatch_async (scope : string) (pool : WorkflowVariablePool)
    (p : WorkflowGraphNode * NodeRunToStart) : Eng P unit :=
  match runtime (gn_type p.1) with
  | Some Async => emit (Dispatched (ts_id p.2) p.1 scope pool)
  | _ => mret tt
  end.

(** A reachable break starts alone. *)
Definition narrowed (ready : list WorkflowGraphNode) : list WorkflowGraphNode :=
  match find_first (fun n => requests_loop_exit (gn_type n)) ready with
  | Some n => [n]
  | None => ready
  end.

Definition start_round_nodes (scope : string) (pool : WorkflowVariablePool)
    (ready : list WorkflowGraphNode) (now : Z) : Eng P LoopScheduleOutcome :=
  runs ← map_all (fun n => row_to_start scope n None None) ready;
  _ ← commits (start_scope_ready_nodes scope runs now);
  _ ← for_all (dispatch_async scope pool) (zip ready runs);
  mret Progressed.

(** The round is drained: it feeds the next one, succeeds or fails the Loop. *)
Definition finish_round (g : WorkflowGraph) (loop : WorkflowNodeRun) (config : LoopConfig)
    (body : WorkflowGraph) (outer_pool : WorkflowVariablePool) (c : RoundScope)
    (st : LoopRoundExecutionState) (now : Z) : Eng P LoopScheduleOutcome :=
  let failed message := advance_with (sc_id c) (FailLoopRound message) now in
  decide_with (complete_round config (sc_index c) (round_pool st)) failed (fun decision =>
    match decision with
    | RoundContinues carried =>
        decide_with (loop_round_pool g (nr_node_id loop) outer_pool carried) failed (fun pool =>
          next ← prepare_loop_round loop body (sc_index c + 1) pool;
          advance_with (sc_id c) (ContinueRound next) now)
    | RoundSucceeded outputs reason => advance_with (sc_id c) (SucceedRound outputs reason) now
    end).

(** The active round is open: complete its swift nodes, start what is ready, or settle it. *)
Definition drive_round (g : WorkflowGraph) (loop : WorkflowNodeRun) (config : LoopConfig)
    (body : WorkflowGraph) (outer_pool : WorkflowVariablePool) (c : RoundScope)
    (st : LoopRoundExecutionState) (now : Z) : Eng P LoopScheduleOutcome :=
  rows ← reads (fun s => list_node_runs_in_scope s (sc_id c));
  match exit_row body rows with
  | Some r =>
      let outputs := map_err loop_round_error_message (exit_outputs config (round_pool st)) in
      advance_with (sc_id c) (RequestExit (nr_id r) outputs) now
  | None =>
      progressed ← complete_loop_controls body st rows (running_rows rows) false now;
      if progressed : bool then mret Progressed
      else
        rows ← reads (fun s => list_node_runs_in_scope s (sc_id c));
        let states := new_projection body rows (round_decisions st) in
        let ready := narrowed (ready_nodes body Outer states) in
        if negb (bool_decide (ready = [])) then start_round_nodes (sc_id c) (round_pool st) ready now
        else if has_in_flight states then mret Waiting
        else finish_round g loop config body outer_pool c st now
  end.

(** [settle_loop_exit] *)
Definition settle_loop_exit (parent scope : string) (result_of : result string unit) : Eng P unit :=
  found ← find_active_loop_round parent;
  match found with
  | None => mret tt
  | Some c =>
      if negb (bool_decide (sc_id c = scope)) then mret tt
      else
        match sc_state c with
        | Stored st =>
            match round_exit st with
            | None => mret tt
            | Some exit =>
                let advance :=
                  match result_of with
                  | Err error => FailLoopRound error
                  | Ok _ =>
                      match exit_result exit with
                      | Ok outputs => SucceedRound outputs LoopExited
                      | Err error => FailLoopRound error
                      end
                  end in
                now ← port now_timestamp_millis;
                _ ← commits (advance_loop_round scope advance now);
                mret tt
            end
        | Malformed text => raise (LoopStateError (decode_message text))
        | Null => raise (RepositoryError IncompleteWorkflowRunContext)
        end
  end.

(** [drive_loop_exit_cleanup] *)
Definition drive_loop_exit_cleanup (parent scope : string) : Eng P LoopScheduleOutcome :=
  answer ← port (cleanup_loop_exit parent scope);
  match answer with
  | CleanupComplete => _ ← settle_loop_exit parent scope (Ok tt); mret Progressed
  | CleanupPending => mret Waiting
  end.

(** [run_loop_schedule] *)
Definition run_loop_schedule (g : WorkflowGraph) (loop : WorkflowNodeRun)
    (outer_pool : WorkflowVariablePool) (now : Z) : Eng P LoopScheduleOutcome :=
  match loop_body g (nr_node_id loop) with
  | None => fail_loop_row loop ("Loop " +:+ nr_node_id loop +:+ " has no executable body") now
  | Some (config, body) =>
      found ← find_active_loop_round (nr_id loop);
      match found with
      | None => start_first_round g loop config body outer_pool now
      | Some c =>
          match sc_state c with
          | Stored st =>
              match round_exit st with
              | Some _ => drive_loop_exit_cleanup (nr_id loop) (sc_id c)
              | None => drive_round g loop config body outer_pool c st now
              end
          | Malformed text =>
              advance_with (sc_id c)
                (FailLoopRound ("Loop round state is invalid: " +:+ decode_message text)) now
          | Null => raise (RepositoryError IncompleteWorkflowRunContext)
          end
      end
  end.
End scheduler.

(** ** Advancing composite nodes ([engine/engine/composite_scheduler.rs])

    Every running row of an iteration node is planned from persisted facts and the plan is
    executed as one repository transaction; every running row of a Loop node is handed to the
    Loop scheduler.  At most one transition commits per pass. *)
(** [region_rows_round] of [engine/region.rs] *)
Definition region_rows_round (g : WorkflowGraph) (owner : WorkflowNodeRun)
    (rows : list WorkflowNodeRun) : option N :=
  members ← region g (nr_node_id owner); max_round (region_rows members rows).

Section scheduler.
Context {P : Type} {ports : EnginePorts P}.
Context {debug : DebugText} {json : JsonText} {sqlite : SqliteJson} {decoding : DecodeMessage}.
Context {pet : Petgraph}.

Definition planned_row (context : ExecutionContext) (round : option N) (n : WorkflowGraphNode) :
    Eng P NodeRunToStart :=
  row_to_start (ec_root_scope_id context) n (start_input (wr_input (ec_run context)) n) round.

(** [materialize] *)
Definition materialize (g : WorkflowGraph) (context : ExecutionContext) (round : option N)
    (node_ids : list string) : Eng P (list NodeRunToStart) :=
  map_all (planned_row context round) (omap (node g) node_ids).

(** The rows a plan started, when the repository committed it. *)
Definition started_if (r : AdvanceWorkflowRunResult) (rows : list NodeRunToStart) :
    option (list NodeRunToStart) :=
  if is_advanced r then Some rows else None.

(** [execute_composite_plan]; the round of the started rows, which the caller ignores, is left
    out of the answer. *)
Definition execute_composite_plan (g : WorkflowGraph) (context : ExecutionContext)
    (owner : WorkflowNodeRun) (rows : list WorkflowNodeRun) (plan : CompositeAdvancePlan) (now : Z) :
    Eng P (option (list NodeRunToStart)) :=
  match plan with
  | Noop => mret None
  | StartRound round item node_ids =>
      runs ← materialize g context (Some round) node_ids;
      r ← commits (start_iteration_round (nr_node_id owner) round item runs now);
      mret (started_if r runs)
  | StartRegionNodes node_ids =>
      runs ← materialize g context (region_rows_round g owner rows) node_ids;
      _ ← commits (start_ready_nodes runs now);
      mret (Some runs)
  | SettleRound round entry continuation =>
      p ← match continuation with
          | StartNextRound next item node_ids =>
              runs ← materialize g context (Some next) node_ids;
              mret (ContinueNextRound next item runs, runs)
          | Complete exposed output => mret (ContinueComplete exposed output, [])
          | FailRound error => mret (ContinueFail error, [])
          end;
      r ← commits (settle_iteration_round (nr_node_id owner) round entry p.1 now);
      mret (started_if r p.2)
  | CompleteNode exposed output =>
      r ← commits (complete_iteration_node (nr_id owner) (nr_node_id owner) exposed output now);
      mret (started_if r [])
  | FailNode error =>
      r ← commits (fail_node (nr_id owner) (new_failure InvalidRunPayload error) PropagateRun now);
      mret (started_if r [])
  end.

(** A row the plan started goes to the executor with the context and the pool as they are now. *)
Definition dispatch_planned (g : WorkflowGraph) (planned : NodeRunToStart) : Eng P unit :=
  match node g (ts_node_id planned) with
  | Some n =>
      match runtime (gn_type n) with
      | Some Async =>
          refreshed ← execution_context;
          let pool := (execution_state_from (wr_payload (ec_run refreshed))).1 in
          emit (Dispatched (ts_id planned) n (ec_root_scope_id refreshed) pool)
      | _ => mret tt
      end
  | None => mret tt
  end.

(** One running iteration row; the answer is whether a transition was committed. *)
Definition advance_composite (g : WorkflowGraph) (rows : list WorkflowNodeRun)
    (context : ExecutionContext) (now : Z) (owner : WorkflowNodeRun) (n : WorkflowGraphNode) :
    Eng P bool :=
  match plan_advance n g rows (execution_payload_from (wr_payload (ec_run context))) with
  | Err error =>
      _ ← fail_with (nr_id owner) (from_runtime (gn_type n) error) now;
      publish ;; mret true
  | Ok plan =>
      started ← execute_composite_plan g context owner rows plan now;
      match started with
      | None => mret false
      | Some runs => publish ;; for_all (dispatch_planned g) runs ;; mret true
      end
  end.

Definition advance_loop (g : WorkflowGraph) (context : ExecutionContext) (now : Z)
    (owner : WorkflowNodeRun) : Eng P bool :=
  let pool := variable_pool (execution_payload_from (wr_payload (ec_run context))) in
  r ← run_loop_schedule g owner pool now;
  match r with
  | Progressed => publish ;; mret true
  | Waiting => mret false
  end.

(** The loop of [advance_composites] over the running rows. *)
Fixpoint advance_rows (g : WorkflowGraph) (rows : list WorkflowNodeRun) (context : ExecutionContext)
    (now : Z) (l : list WorkflowNodeRun) : Eng P bool :=
  match l with
  | [] => mret false
  | owner :: l =>
      advanced ←
        match node g (nr_node_id owner) with
        | None => mret false
        | Some n =>
            match runtime (gn_type n) with
            | Some ScopedLoop => advance_loop g context now owner
            | Some CompositeRuntime => advance_composite g rows context now owner n
            | _ => mret false
            end
        end;
      if advanced : bool then mret true else advance_rows g rows context now l
  end.

(** [advance_composites] *)
Definition advance_composites (g : WorkflowGraph) (rows : list WorkflowNodeRun)
    (context : ExecutionContext) (now : Z) : Eng P bool :=
  advance_rows g rows context now (running_rows rows).
End scheduler.
