(* ===== verification/Scheduler.v ===== *)
(** * Scheduling a run ([engine/engine.rs], [engine/engine/retry_scheduler.rs])

    The scheduling loop and the commands of the engine.  The loop of [run_schedule] runs on
    fuel; what its rounds do and when it ends is the subject of the files that follow. *)

From S2P Require Import Prelude RustStr Json NodeTypes VariablePool Retry GraphBase.
From S2P Require Import NodeConfig Iteration GraphBase Graph Projection Declarations.
From S2P Require Import GraphParse NodeRuntime RunPayload Resume Executable Store StorePayload.
From S2P Require Import StoreNodes StoreRun LoopRound LoopGraph Document.
From S2P Require Import Engine CompositeScheduler.
Local Open Scope ora_scope.

Section scheduler.
Context {P : Type} {ports : EnginePorts P}.
Context {debug : DebugText} {json : JsonText} {sqlite : SqliteJson} {decoding : DecodeMessage}.
Context {policy : PolicyDecode} {order : HashOrder} {pet : Petgraph} {envelope : EnvelopeDecode}
  {loops : LoopDecode}.

Definition parse_graph (context : ExecutionContext) : Eng P WorkflowGraph :=
  of_result GraphParseError (parse (ec_graph_json context)).

(** ** One pass *)

(** What the pass over the running swift nodes says: schedule no further, or whether one of them
    was completed. *)
Inductive SwiftPass : Type := PassStops | PassCompleted (completed : bool).

(** One running swift node. *)
Definition complete_swift (g : WorkflowGraph) (n : WorkflowGraphNode) (r : WorkflowNodeRun)
    (m : result (fault string) string) (now : Z) : Eng P SwiftPass :=
  match m with
  | Ok output =>
      advanced ← complete_with (nr_id r) output now;
      publish_if (is_advanced advanced) ;; mret (PassCompleted true)
  | Err (Fails message) =>
      let propagation := region_failure_propagation g (nr_node_id r) in
      advanced ← commits (fail_node (nr_id r) (from_runtime (gn_type n) message) propagation now);
      publish_if (is_advanced advanced) ;;
      mret (match propagation with PropagateComposite => PassCompleted true | PropagateRun => PassStops end)
  | Err Panics => panic
  end.

(** The loop over the running rows. *)
Fixpoint swift_pass (g : WorkflowGraph) (context : ExecutionContext) (pool : WorkflowVariablePool)
    (rows l : list WorkflowNodeRun) (completed : bool) (now : Z) : Eng P SwiftPass :=
  match l with
  | [] => mret (PassCompleted completed)
  | r :: l =>
      match node g (nr_node_id r) with
      | None => swift_pass g context pool rows l completed now
      | Some n =>
          match complete_running n {| sw_node_run := r; sw_run_input := wr_input (ec_run context);
                                      sw_pool := pool; sw_node_runs := rows |} with
          | None => swift_pass g context pool rows l completed now
          | Some m =>
              pass ← complete_swift g n r m now;
              match pass with
              | PassStops => mret PassStops
              | PassCompleted c => swift_pass g context pool rows l (completed || c) now
              end
          end
      end
  end.

(** Async nodes are dispatched, composite nodes reported as started. *)
Definition dispatch_ready (context : ExecutionContext) (pool : WorkflowVariablePool)
    (p : WorkflowGraphNode * NodeRunToStart) : Eng P unit :=
  match runtime (gn_type p.1) with
  | Some Async => emit (Dispatched (ts_id p.2) p.1 (ec_root_scope_id context) pool)
  | Some CompositeRuntime => emit (CompositeStarted (ts_id p.2) p.1)
  | Some Swift | Some ScopedLoop | None => mret tt
  end.

(** The nodes of the outer graph that may start; the answer is whether any was started.  When
    nothing is ready and nothing is in flight the run finishes. *)
Definition start_or_finish (g : WorkflowGraph) (pool : WorkflowVariablePool) (now : Z) : Eng P bool :=
  context ← execution_context;
  let decisions := (execution_state_from (wr_payload (ec_run context))).2 in
  rows ← reads list_node_runs;
  let states := new_projection g rows decisions in
  let ready := ready_nodes g Outer states in
  if bool_decide (ready = []) then
    if has_in_flight states then mret false
    else
      _ ← commits (finish_run (compute_run_output rows) now);
      publish ;; mret false
  else
    runs ← map_all (planned_row context None) ready;
    _ ← commits (start_ready_nodes runs now);
    publish ;;
    for_all (dispatch_ready context pool) (zip ready runs) ;;
    mret true.

(** One round of the scheduling loop; the answer is whether the loop goes on. *)
Definition schedule_round (now : Z) : Eng P bool :=
  context ← execution_context;
  if negb (bool_decide (wr_status (ec_run context) = RunRunning)) then mret false
  else
    g ← parse_graph context;
    rows ← reads (fun s => list_node_runs_in_scope s (ec_root_scope_id context));
    let pool := (execution_state_from (wr_payload (ec_run context))).1 in
    pass ← swift_pass g context pool rows (running_rows rows) false now;
    match pass with
    | PassStops => mret false
    | PassCompleted true => mret true
    | PassCompleted false =>
        advanced ← advance_composites g rows context now;
        if advanced : bool then mret true else start_or_finish g pool now
    end.

Fixpoint schedule_loop (fuel : nat) (now : Z) : Eng P unit :=
  match fuel with
  | 0 => out_of_fuel
  | S fuel =>
      again ← schedule_round now;
      if again : bool then schedule_loop fuel now else mret tt
  end.

(** [run_schedule]; [resume] is the same for a run a crash left without an active node. *)
Definition run_schedule (fuel : nat) : Eng P unit :=
  now ← port now_timestamp_millis; schedule_loop fuel now.
Definition resume (fuel : nat) : Eng P unit := run_schedule fuel.

(** ** Commands *)

(** The run's payload as [validate_start_inputs] reads it. *)
Definition start_payload (payload : Column WorkflowRunPayload) : option WorkflowRunPayload :=
  match payload with Stored p => Some p | Null | Malformed _ => None end.

Definition start (fuel : nat) : Eng P StartWorkflowRunResult :=
  context ← execution_context;
  g ← parse_graph context;
  n ← of_result ValidationError (validate_start g (start_payload (wr_payload (ec_run context))));
  row ← planned_row context None n;
  now ← port now_timestamp_millis;
  r ← commits (start_run row now);
  match r with
  | Started => publish ;; run_schedule fuel ;; mret Started
  | Current => mret Current
  | StartNotFound => run_id ← reads (fun s => wr_id (st_run s)); raise (WorkflowRunNotFound run_id)
  end.

Definition cancel : Eng P CancelWorkflowRunResult :=
  now ← port now_timestamp_millis;
  r ← commits (cancel_run now);
  publish_if (bool_decide (r = RunWasCancelled)) ;; mret r.

Definition resume_from_failure (fuel : nat) : Eng P ResumeWorkflowRunResult :=
  context ← execution_context;
  if negb (bool_decide (wr_status (ec_run context) ∈ [RunFailed; RunCancelled])) then mret NotResumable
  else
    g ← parse_graph context;
    rows ← reads list_node_runs;
    let to_clear := resume_clear_node_ids g rows in
    if bool_decide (to_clear = []) then mret NotResumable
    else
      now ← port now_timestamp_millis;
      r ← commits (StoreRun.resume_from_failure to_clear);
      match r with
      | Resumed => publish ;; run_schedule fuel ;; mret Resumed
      | _ => mret r
      end.

Definition restart (fuel : nat) : Eng P RestartWorkflowRunResult :=
  now ← port now_timestamp_millis;
  fresh ← port random_root_id;
  r ← commits (restart_run fresh);
  match r with
  | Restarted => publish ;; _ ← start fuel; mret Restarted
  | _ => mret r
  end.

Definition update_run_input (input : option string) (variables : gmap string Value) :
    Eng P UpdateWorkflowRunInputResult :=
  now ← port now_timestamp_millis;
  commits (StoreRun.update_run_input input variables).

(** [complete_node_with_payload_patch], and [complete_node] with no patch. *)
Definition complete_node_with_payload_patch (fuel : nat) (id : string) (output : option string)
    (structured_output : option Value) (stop_reason : option string) (changes : list FileChange)
    (patch : option Value) : Eng P unit :=
  now ← port now_timestamp_millis;
  r ← commits (StoreNodes.complete_node id output structured_output stop_reason changes patch now);
  match r with
  | Advanced => publish ;; run_schedule fuel
  | NotRunning | NotFound => mret tt
  end.
Definition complete_node (fuel : nat) (id : string) (output : option string)
    (structured_output : option Value) (stop_reason : option string) (changes : list FileChange) :
    Eng P unit :=
  complete_node_with_payload_patch fuel id output structured_output stop_reason changes None.

Definition record_node_checkpoint (id snapshot_id : string) (checkpoint error : option string) :
    Eng P unit :=
  now ← port now_timestamp_millis;
  commits (StoreRun.record_node_checkpoint id snapshot_id checkpoint error).

(** [finish_loop_exit] *)
Definition finish_loop_exit (fuel : nat) (parent scope : string) (result_of : result string unit) :
    Eng P unit :=
  settle_loop_exit parent scope result_of ;; publish ;; run_schedule fuel.

(** [failure_propagation] *)
Definition failure_propagation (r : WorkflowNodeRun) : Eng P FailurePropagation :=
  match nr_iteration r with
  | None => mret PropagateRun
  | Some _ =>
      context ← execution_context;
      g ← parse_graph context;
      mret (region_failure_propagation g (nr_node_id r))
  end.

(** ** Automatic retry *)

(** The policy of the failed attempt's node, when an executor drives it. *)
Definition attempt_policy (g : WorkflowGraph) (node_id : string) : option AgentRetryPolicy :=
  n ← execution_node g node_id;
  match runtime (gn_type n) with Some Async => node_retry_policy n | _ => None end.

(** [NodeAutoRetry::from_payload(..).map_or(0, |marker| marker.retry)] *)
Definition retries_used (r : WorkflowNodeRun) : N :=
  match auto_retry_from_payload (nr_payload r) with Some marker => ar_retry marker | None => 0 end.

Definition try_schedule_retry (r : WorkflowNodeRun) (failure : NodeFailure) (now : Z) : Eng P bool :=
  if negb (running r) then mret false
  else
    context ← execution_context;
    if negb (bool_decide (wr_status (ec_run context) = RunRunning)) then mret false
    else
      g ← parse_graph context;
      match attempt_policy g (nr_node_id r) with
      | None => mret false
      | Some policy =>
          match retry_to_schedule policy (failure_kind failure) (retries_used r) now with
          | None => mret false
          | Some retry =>
              new_id ← port generate_node_run_id;
              answer ← commits (schedule_node_retry (nr_id r) failure new_id retry now);
              match answer with
              | Scheduled => publish ;; emit (RetryArmed new_id (ns_due_at retry)) ;; mret true
              | RetryNotRunning | RetryNotFound => mret true
              | RunNotActive => mret false
              end
          end
      end.

(** [schedule_retry]: an error while deciding leaves the failure to the normal path. *)
Definition schedule_retry (r : WorkflowNodeRun) (failure : NodeFailure) (now : Z) : Eng P bool :=
  answer ← attempt (try_schedule_retry r failure now);
  mret (match answer with Ok consumed => consumed | Err _ => false end).

Definition fail_node (fuel : nat) (id : string) (failure : NodeFailure) : Eng P unit :=
  found ← reads (fun s => find_row s id);
  match found with
  | None => mret tt
  | Some found =>
      let r := row found in
      now ← port now_timestamp_millis;
      consumed ← schedule_retry r failure now;
      if consumed : bool then mret tt
      else
        propagation ← failure_propagation r;
        advanced ← commits (StoreNodes.fail_node id failure propagation now);
        if is_advanced advanced then
          publish ;;
          match propagation with PropagateComposite => run_schedule fuel | PropagateRun => mret tt end
        else mret tt
  end.

(** The body and the pool of the active round the attempt belongs to. *)
Fixpoint retry_round (g : WorkflowGraph) (scope : string) (l : list WorkflowNodeRun) :
    Eng P (option (WorkflowGraph * WorkflowVariablePool)) :=
  match l with
  | [] => mret None
  | loop :: l =>
      match loop_body g (nr_node_id loop) with
      | None => retry_round g scope l
      | Some (_, body) =>
          found ← find_active_loop_round (nr_id loop);
          match found with
          | None => retry_round g scope l
          | Some c =>
              if bool_decide (sc_id c = scope) then
                match sc_state c with
                | Stored st => mret (Some (body, round_pool st))
                | Malformed text => raise (LoopStateError (decode_message text))
                | Null => raise (RepositoryError IncompleteWorkflowRunContext)
                end
              else retry_round g scope l
          end
      end
  end.

(** [dispatch_started_retry] *)
Definition dispatch_started_retry (r : WorkflowNodeRun) : Eng P bool :=
  context ← execution_context;
  g ← parse_graph context;
  target ←
    if bool_decide (nr_scope_id r = ec_root_scope_id context)
    then mret (Some (g, (execution_state_from (wr_payload (ec_run context))).1))
    else
      rows ← reads (fun s => list_node_runs_in_scope s (ec_root_scope_id context));
      retry_round g (nr_scope_id r) (running_rows rows);
  match target with
  | None => mret false
  | Some (scope_graph, pool) =>
      match node scope_graph (nr_node_id r) with
      | None => mret false
      | Some n =>
          match runtime (gn_type n) with
          | Some Async => emit (Dispatched (nr_id r) n (nr_scope_id r) pool) ;; mret true
          | _ => mret false
          end
      end
  end.

Definition dispatch_failure (node_id : string) (answer : result EngineError bool) : option NodeFailure :=
  match answer with
  | Ok true => None
  | Ok false =>
      Some (new_failure InvalidRunPayload
              ("retry of node " +:+ node_id +:+ " has no executable target in its scope"))
  | Err error =>
      let kind := match error with RepositoryError _ => Repository | _ => InvalidRunPayload end in
      Some (new_failure kind
              ("retry of node " +:+ node_id +:+ " could not be dispatched: "
               +:+ engine_error_message error))
  end.

(** [wake_retry] *)
Definition wake_retry (fuel : nat) (id : string) : Eng P unit :=
  now ← port now_timestamp_millis;
  answer ← commits (begin_node_retry id now);
  match answer with
  | RetryStarted r =>
      publish ;;
      answer ← attempt (dispatch_started_retry r);
      match dispatch_failure (nr_node_id r) answer with
      | None => mret tt
      | Some failure => fail_node fuel (nr_id r) failure
      end
  | NotDue due_at => emit (RetryArmed id due_at)
  | Abandoned => publish
  | NotWaiting | BeginNotFound => mret tt
  end.
End scheduler.
