(* ===== verification/EngineEffects.v ===== *)
(** * What a computation of the engine may do

    An engine relation describes the effect of a computation whatever its outcome: it is kept by
    reads, by the ports, by quiet events and by every repository call, and it allows a call that
    starts rows to be followed by the dispatch of those rows.  Every function of the scheduler
    respects every engine relation; the relations are instances of one interface. *)

From stdpp Require Import relations.
From S2P Require Import Prelude RustStr Order Json NodeTypes VariablePool GraphBase Retry.
From S2P Require Import NodeConfig Iteration GraphBase Graph Projection Declarations.
From S2P Require Import GraphParse RunPayload IterationRuntime NodeRuntime Resume Executable Store.
From S2P Require Import StorePayload StoreNodes StoreRun StoreLaws StoreOps StoreCalls LoopRound.
From S2P Require Import LoopGraph Document Engine CompositeScheduler Scheduler.
Local Open Scope ora_scope.

(** The engine hands over pools it builds from the graph; their typing is not part of the laws. *)
#[export] Instance schema_only : PoolTyping := {| pools_typed := False |}.

(** ** Starting rows *)

Definition dispatched_ids (events : list EngineEvent) : list string :=
  omap (fun event => match event with Dispatched id _ _ _ => Some id | _ => None end) events.

(** The events dispatch some of the rows, each at most once and for its own node. *)
Record dispatches_of (runs : list NodeRunToStart) (events : list EngineEvent) : Prop := {
  do_once : NoDup (dispatched_ids events);
  do_row id n scope pool : Dispatched id n scope pool ∈ events -> gn_type n = Agent /\
    exists run, run ∈ runs /\ ts_id run = id /\ ts_node_id run = gn_id n;
}.

(** The rows of [runs] are new in [s'], live and running. *)
Record starts (s : RunStore) (runs : list NodeRunToStart) (s' : RunStore) : Prop := {
  st_fresh run : run ∈ runs -> ts_id run ∉ (row_id <$> st_rows s);
  st_inserted run : run ∈ runs -> exists r, r ∈ st_rows s' /\ row_id r = ts_id run /\
    nr_node_id (row r) = ts_node_id run /\ nr_scope_id (row r) = ts_scope_id run /\
    nr_status (row r) = Running /\ live r = true;
  st_distinct : NoDup (ts_id <$> runs);
}.

Definition quiet (event : EngineEvent) : Prop :=
  match event with Dispatched _ _ _ _ => False | _ => True end.

Definition with_events {P} (events : list EngineEvent) (e : EngineState P) : EngineState P :=
  {| es_store := es_store e; es_workspace := es_workspace e; es_graph := es_graph e;
     es_ports := es_ports e; es_events := es_events e ++ events |}.

(** ** Computations that only dispatch *)

Section dispatch.
Context {P : Type}.

(** A computation that only dispatches rows of [runs]. *)
Definition only_dispatches {A} (runs : list NodeRunToStart) (m : Eng P A) : Prop :=
  forall e o e', m e = (o, e') ->
    exists events, e' = with_events events e /\ dispatches_of runs events.

Lemma with_events_nil (e : EngineState P) : with_events [] e = e.
Proof. destruct e as [s w g p ev]. unfold with_events. simpl. by rewrite app_nil_r. Qed.
Lemma with_events_app l1 l2 (e : EngineState P) : with_events l2 (with_events l1 e) = with_events (l1 ++ l2) e.
Proof. unfold with_events. simpl. by rewrite app_assoc. Qed.

Lemma dispatches_nil runs : dispatches_of runs [].
Proof. split; [constructor|]. by intros ? ? ? ? ?%elem_of_nil. Qed.

Lemma dispatched_ids_app l1 l2 : dispatched_ids (l1 ++ l2) = dispatched_ids l1 ++ dispatched_ids l2.
Proof. unfold dispatched_ids. by rewrite omap_app. Qed.

Lemma elem_of_dispatched_ids id events : id ∈ dispatched_ids events <->
  exists n scope pool, Dispatched id n scope pool ∈ events.
Proof.
  unfold dispatched_ids. rewrite list_elem_of_omap. split.
  - intros ([] & Hin & ?); simplify_eq. eauto.
  - intros (n & scope & pool & Hin). eauto.
Qed.

Lemma dispatches_app runs1 runs2 l1 l2 : NoDup (ts_id <$> (runs1 ++ runs2)) ->
  dispatches_of runs1 l1 -> dispatches_of runs2 l2 -> dispatches_of (runs1 ++ runs2) (l1 ++ l2).
Proof.
  intros Hnd [H1 H1'] [H2 H2']. rewrite fmap_app in Hnd. apply NoDup_app in Hnd as (_ & Hdis & _). split.
  - rewrite dispatched_ids_app. apply NoDup_app. split_and!; [done| |done].
    intros id (n & scope & pool & Hin)%elem_of_dispatched_ids (n' & scope' & pool' & Hin')%elem_of_dispatched_ids.
    apply H1' in Hin as (_ & r & Hr & Hid & _). apply H2' in Hin' as (_ & r' & Hr' & Hid' & _).
    apply (Hdis id); apply list_elem_of_fmap; [by exists r|by exists r'].
  - intros id n scope pool [Hin|Hin]%elem_of_app.
    + apply H1' in Hin as (Ht & r & Hr & Hid). split; [done|]. exists r. set_solver.
    + apply H2' in Hin as (Ht & r & Hr & Hid). split; [done|]. exists r. set_solver.
Qed.

Lemma only_ret {A} runs (x : A) : only_dispatches runs (mret x).
Proof.
  intros e o e' H. injection H as _ <-. exists []. rewrite with_events_nil.
  split; [done|apply dispatches_nil].
Qed.

Lemma only_quiet {A} runs event (k : Eng P A) : quiet event -> only_dispatches runs k ->
  only_dispatches runs (emit event ;; k).
Proof.
  intros Hq Hk e o e' H. apply Hk in H as (events & -> & [Ho Hr]). exists (event :: events).
  split; [unfold with_events, with_event; simpl; by rewrite <-app_assoc|].
  split; [by destruct event|]. intros id n scope pool [<-|Hin]%elem_of_cons; [done|by eapply Hr].
Qed.

Lemma only_emit runs event : quiet event -> only_dispatches runs (emit event : Eng P unit).
Proof.
  intros Hq e o e' H. injection H as _ <-. exists [event]. split; [done|]. split.
  - destruct event; [done|constructor..].
  - by intros id n scope pool <-%list_elem_of_singleton.
Qed.

Lemma only_then {A B} runs (m : Eng P A) (k : A -> Eng P B) :
  only_dispatches runs m -> (forall x, only_dispatches [] (k x)) -> only_dispatches runs (m ≫= k).
Proof.
  intros Hm Hk e o e' H. unfold mbind, eng_bind in H. destruct (m e) as [[x|err| |] e1] eqn:E;
    apply Hm in E as (l1 & -> & H1); [|injection H as _ <-; by exists l1..].
  apply Hk in H as (l2 & -> & H2). exists (l1 ++ l2). rewrite with_events_app. split; [done|].
  split; [|].
  - rewrite dispatched_ids_app. replace (dispatched_ids l2) with (@nil string); [rewrite app_nil_r; apply H1|].
    destruct (dispatched_ids l2) as [|id l] eqn:El; [done|].
    assert (id ∈ dispatched_ids l2) as (n & scope & pool & Hin)%elem_of_dispatched_ids by (rewrite El; left).
    apply H2 in Hin as (_ & ? & ?%elem_of_nil & _). done.
  - intros id n scope pool [Hin|Hin]%elem_of_app; [by eapply (do_row _ _ H1)|].
    apply H2 in Hin as (_ & ? & ?%elem_of_nil & _). done.
Qed.

Lemma only_for_all {A} (f : A -> Eng P unit) (run_of : A -> NodeRunToStart) l :
  NoDup (ts_id <$> (run_of <$> l)) -> (forall x, x ∈ l -> only_dispatches [run_of x] (f x)) ->
  only_dispatches (run_of <$> l) (for_all f l).
Proof.
  induction l as [|x l IH]; intros Hnd Hf; [apply only_ret|]. cbn [for_all]. intros e o e' H.
  unfold mbind, eng_bind in H. csimpl in *.
  assert (forall e o e', f x e = (o, e') -> exists events, e' = with_events events e /\
    dispatches_of [run_of x] events) as Hx by (apply Hf; by left).
  assert (forall l1, dispatches_of [run_of x] l1 -> dispatches_of (run_of x :: (run_of <$> l)) l1) as Hweak.
  { intros l1 H1. rewrite <-(app_nil_r l1). apply (dispatches_app [run_of x]); [done|done|apply dispatches_nil]. }
  destruct (f x e) as [[[]|err| |] e1] eqn:E; apply Hx in E as (l1 & -> & H1);
    [|injection H as _ <-; exists l1; split; [done|by apply Hweak]..].
  apply IH in H as (l2 & -> & H2).
  - exists (l1 ++ l2). rewrite with_events_app. split; [done|]. by apply (dispatches_app [run_of x]).
  - by apply NoDup_cons in Hnd as [_ Hnd].
  - intros y Hy. apply Hf. by right.
Qed.
End dispatch.

(** ** Engine relations *)

Section rel.
Context {P : Type} {debug : DebugText} {json : JsonText} {sqlite : SqliteJson}.

Class EngineRel (R : relation (EngineState P)) : Prop := {
  er_preorder :: PreOrder R;
  er_ports e p : R e (with_ports p e);
  er_event e event : quiet event -> R e (with_event event e);
  er_call e c : call_ok c -> R e (with_store (serve (es_store e) c) e);
  er_start e c s' runs events : call_ok c -> perform c (es_store e) = Ok (tt, s') ->
    starts (es_store e) runs s' -> dispatches_of runs events ->
    R e (with_events events (with_store s' e));
}.

Definition effect {A} (R : relation (EngineState P)) (m : Eng P A) : Prop :=
  forall e o e', m e = (o, e') -> R e e'.

Context (R : relation (EngineState P)) `{!EngineRel R}.

Lemma effect_same {A} (m : Eng P A) : (forall e, (m e).2 = e) -> effect R m.
Proof. intros Hm e o e' H. specialize (Hm e). rewrite H in Hm. simpl in Hm. by subst. Qed.

Lemma effect_ret {A} (x : A) : effect R (mret x). Proof. by apply effect_same. Qed.
Lemma effect_raise {A} err : effect R (raise err : Eng P A). Proof. by apply effect_same. Qed.
Lemma effect_panic {A} : effect R (panic : Eng P A). Proof. by apply effect_same. Qed.
Lemma effect_fuel {A} : effect R (out_of_fuel : Eng P A). Proof. by apply effect_same. Qed.
Lemma effect_asks {A} (f : EngineState P -> A) : effect R (asks f). Proof. by apply effect_same. Qed.
Lemma effect_reads {A} (f : RunStore -> A) : effect R (reads f). Proof. by apply effect_same. Qed.
Lemma effect_of_result {E A} (f : E -> EngineError) (m : result E A) : effect R (of_result f m).
Proof. destruct m; [apply effect_ret|apply effect_raise]. Qed.

Lemma effect_bind {A B} (m : Eng P A) (k : A -> Eng P B) :
  effect R m -> (forall x, effect R (k x)) -> effect R (m ≫= k).
Proof.
  intros Hm Hk e o e' H. unfold mbind, eng_bind in H. destruct (m e) as [[x|err| |] e1] eqn:E;
    apply Hm in E; [|by injection H as _ <-..]. etrans; [exact E|]. by eapply Hk.
Qed.

Lemma left_id_eng {A B} (x : A) (k : A -> Eng P B) : mret x ≫= k = k x.
Proof. done. Qed.

Lemma effect_attempt {A} (m : Eng P A) : effect R m -> effect R (attempt m).
Proof.
  intros Hm e o e' H. unfold attempt in H. destruct (m e) as [[x|err| |] e1] eqn:E;
    injection H as _ <-; by eapply Hm.
Qed.

Lemma effect_port {A} (f : P -> A * P) : effect R (port f).
Proof. intros e o e' H. unfold port in H. destruct (f _). injection H as _ <-. apply er_ports. Qed.

Lemma effect_emit event : quiet event -> effect R (emit event).
Proof. intros Hq e o e' H. injection H as _ <-. by apply er_event. Qed.

Lemma effect_for_all {A} (f : A -> Eng P unit) l : (forall x, effect R (f x)) -> effect R (for_all f l).
Proof. intros Hf. induction l; simpl; [apply effect_ret|]. by apply effect_bind. Qed.

Lemma effect_map_all {A B} (f : A -> Eng P B) l : (forall x, effect R (f x)) -> effect R (map_all f l).
Proof.
  intros Hf. induction l; simpl; [apply effect_ret|]. apply effect_bind; [done|]. intros y.
  apply effect_bind; [done|]. intros ys. apply effect_ret.
Qed.

(** A repository call; its answer may be read. *)
Lemma effect_commits {A} c (m : Tx A) : call_ok c -> (forall s, perform c s = discard m s) ->
  effect R (commits m).
Proof.
  intros Hc Hp e o e' H. unfold commits, commit in H.
  replace e' with (with_store (serve (es_store e) c) e); [by apply er_call|].
  unfold serve, commit. rewrite Hp. unfold discard, mbind, tx_bind.
  destruct (m (es_store e)) as [[x s]|err]; by injection H as _ <-.
Qed.

Lemma discard_unit (m : Tx unit) s : m s = discard m s.
Proof. unfold discard, mbind, tx_bind. by destruct (m s) as [[[] s']|]. Qed.

(** A step whose result has a property. *)
Definition returns {A} (Q : A -> Prop) (m : Eng P A) : Prop :=
  forall e x e', m e = (Done x, e') -> Q x.

Lemma effect_bind_returns {A B} (Q : A -> Prop) (m : Eng P A) (k : A -> Eng P B) :
  effect R m -> returns Q m -> (forall x, Q x -> effect R (k x)) -> effect R (m ≫= k).
Proof.
  intros Hm HQ Hk e o e' H. unfold mbind, eng_bind in H. destruct (m e) as [[x|err| |] e1] eqn:E;
    pose proof E as HE; apply Hm in E; [|by injection H as _ <-..]. etrans; [exact E|].
  eapply Hk, H. by eapply HQ.
Qed.

Lemma effect_assoc {A B C} (m : Eng P A) (k : A -> Eng P B) (h : B -> Eng P C) :
  effect R (m ≫= (fun x => k x ≫= h)) -> effect R ((m ≫= k) ≫= h).
Proof.
  intros Hm e o e' H. apply (Hm e o e'). unfold mbind, eng_bind in *.
  destruct (m e) as [[x|err| |] e1]; exact H.
Qed.

Lemma effect_start {A B} c (m : Tx A) (k : A -> Eng P B) (runs : A -> list NodeRunToStart) :
  call_ok c -> (forall s, perform c s = discard m s) ->
  (forall s x s', m s = Ok (x, s') -> starts s (runs x) s') ->
  (forall x, NoDup (ts_id <$> runs x) -> only_dispatches (runs x) (k x)) -> effect R (commits m ≫= k).
Proof.
  intros Hc Hp Hstart Hk e o e' H. unfold mbind, eng_bind, commits, commit in H.
  destruct (m (es_store e)) as [[x s]|err] eqn:Em.
  - pose proof (Hstart _ _ _ Em) as Hst. apply Hk in H as (events & -> & Hd); [|by destruct Hst].
    eapply er_start; [exact Hc| |exact Hst|exact Hd].
    rewrite Hp. unfold discard, mbind, tx_bind. by rewrite Em.
  - injection H as _ <-. destruct e as [s w g p ev]. reflexivity.
Qed.

End rel.

(** ** The effect of the scheduler

    Every function of the Loop scheduler, the composite scheduler and the run scheduler respects
    every engine relation. *)
(** ** Calls that start rows *)

Section starts.
Context {debug : DebugText} {json : JsonText} {sqlite : SqliteJson}.

(** The store after one row was inserted. *)
Definition inserts (s : RunStore) (n : NodeRunToStart) (s' : RunStore) : Prop :=
  ts_id n ∉ (row_id <$> st_rows s) /\
  exists run_id now, st_rows s' = st_rows s ++ [started_row run_id n now].

Lemma insert_node_run_inserts n now s u s' : insert_node_run n now s = Ok (u, s') -> inserts s n s'.
Proof.
  unfold insert_node_run. intros H. inv_tx. apply insert_row_Ok in H as (Hid & _ & _ & ->).
  split; [exact Hid|by eexists _, _].
Qed.

Lemma each_starts (f : NodeRunToStart -> Tx unit) runs s u s' :
  (forall n s u s', f n s = Ok (u, s') -> inserts s n s') -> each f runs s = Ok (u, s') ->
  starts s runs s' /\ exists new, st_rows s' = st_rows s ++ new.
Proof.
  intros Hf. revert s. induction runs as [|n runs IH]; intros s H; simpl in H.
  { inv_tx. split; [|exists []; by rewrite app_nil_r]. split; [|..|constructor]; by intros ? ?%elem_of_nil. }
  apply tx_bind_Ok in H as ([] & s1 & [Hfresh (rid & now & Hrows)]%Hf & H).
  apply IH in H as [[Hfr Hin Hd] [new Hnew]]. rewrite Hrows in *. split; [split|].
  - intros x [->|Hx]%elem_of_cons; [done|]. apply Hfr in Hx. set_solver.
  - intros x [->|Hx]%elem_of_cons; [|by apply Hin]. exists (started_row rid n now).
    rewrite Hnew. split; [set_solver|]. by split_and!.
  - csimpl. apply NoDup_cons. split; [|done]. intros (x & Hx & Hin')%list_elem_of_fmap.
    apply (Hfr x Hin'). rewrite fmap_app, elem_of_app. right. rewrite <-Hx. by left.
  - exists (started_row rid n now :: new). by rewrite Hnew, <-app_assoc.
Qed.

Lemma starts_rows s0 s1 runs s2 s3 : st_rows s0 = st_rows s1 -> starts s1 runs s2 ->
  st_rows s2 = st_rows s3 -> starts s0 runs s3.
Proof. intros H0 [Hf Hi Hd] H3. split; [by rewrite H0|by rewrite <-H3|done]. Qed.

Lemma starts_nil s s' : starts s [] s'.
Proof. split; [|..|constructor]; by intros ? ?%elem_of_nil. Qed.

Lemma update_run_rows p f s u s' : update_run p f s = Ok (u, s') -> st_rows s' = st_rows s.
Proof. unfold update_run. intros H. inv_tx. by case_match. Qed.

Lemma start_ready_starts runs now s u s' : start_ready_nodes runs now s = Ok (u, s') -> starts s runs s'.
Proof.
  unfold start_ready_nodes, rewrite_current_nodes. intros H.
  apply tx_bind_Ok in H as ([] & s1 & H1 & H2%update_run_rows).
  apply each_starts in H1 as [Hst _]; [|intros; by eapply insert_node_run_inserts].
  by eapply starts_rows.
Qed.

Lemma start_scope_starts scope runs now s u s' :
  start_scope_ready_nodes scope runs now s = Ok (u, s') -> starts s runs s'.
Proof.
  unfold start_scope_ready_nodes. intros H. apply tx_bind_Ok in H as (s0 & s1 & [-> ->]%gets_Ok & H).
  apply tx_bind_Ok in H as ([] & s2 & [_ ->]%require_Ok & H).
  apply each_starts in H as [Hst _]; [done|]. intros n t v t' Ht.
  apply tx_bind_Ok in Ht as ([] & t1 & [_ ->]%require_Ok & Ht). by eapply insert_node_run_inserts.
Qed.

Lemma start_iteration_starts owner round item runs now s r s' :
  start_iteration_round owner round item runs now s = Ok (r, s') ->
  starts s (default [] (started_if r runs)) s' /\ (r <> Advanced -> s' = s).
Proof.
  unfold start_iteration_round. intros H. apply tx_bind_Ok in H as (s0 & s1 & [-> ->]%gets_Ok & H).
  destruct (negb _); [inv_tx; split; [apply starts_nil|done]|].
  apply tx_bind_Ok in H as (p & s2 & H1 & H). apply tx_bind_Ok in H as (p' & s3 & [_ ->]%lift_Ok & H).
  apply tx_bind_Ok in H as ([] & s4 & Hp%update_run_rows & H).
  apply tx_bind_Ok in H as ([] & s5 & Hi & H). inv_tx. split; [|done].
  apply each_starts in Hi as [Hst _]; [|intros; by eapply insert_node_run_inserts].
  eapply starts_rows; [|exact Hst|done]. rewrite Hp. unfold select_payload in H1. by inv_tx.
Qed.

Lemma settle_iteration_starts owner round entry continuation now s r s' :
  settle_iteration_round owner round entry continuation now s = Ok (r, s') ->
  starts s (default [] (started_if r
    match continuation with ContinueNextRound _ _ runs => runs | _ => [] end)) s' /\
  (r <> Advanced -> s' = s).
Proof.
  unfold settle_iteration_round. intros H. apply tx_bind_Ok in H as (s0 & s1 & [-> ->]%gets_Ok & H).
  destruct (negb _); [inv_tx; split; [apply starts_nil|done]|].
  apply tx_bind_Ok in H as (p & s2 & H1 & H).
  assert (s2 = s) as -> by (unfold select_payload in H1; by inv_tx).
  destruct (record_round_outcome p owner round entry) as [p'|];
    [|inv_tx; split; [apply starts_nil|done]].
  apply tx_bind_Ok in H as ([] & s3 & Hc & H). inv_tx. split; [|done].
  destruct continuation as [next item runs|exposed out|error]; simpl in Hc; [|apply starts_nil..].
  apply tx_bind_Ok in Hc as (p2 & t1 & [_ ->]%lift_Ok & Hc).
  apply tx_bind_Ok in Hc as ([] & t2 & Hp%update_run_rows & Hi).
  apply each_starts in Hi as [Hst _]; [|intros; by eapply insert_node_run_inserts].
  by eapply starts_rows.
Qed.
End starts.

(** ** The schedulers *)

Section effects.
Context {P : Type} {ports : EnginePorts P}.
Context {debug : DebugText} {json : JsonText} {sqlite : SqliteJson} {decoding : DecodeMessage}.
Context {pet : Petgraph}.
Context (R : relation (EngineState P)) {HR : EngineRel R}.

#[local] Hint Resolve effect_ret effect_raise effect_panic effect_fuel effect_asks effect_reads
  effect_of_result effect_port : effect.
#[local] Hint Extern 1 (quiet _) => exact I : effect.
#[local] Hint Resolve effect_emit : effect.

Ltac eff_step :=
  cbv beta zeta;
  match goal with
  | |- forall _, _ => intros ?
  | |- effect _ (_ ≫= _) => apply effect_bind; [exact HR| |intros ?]
  | |- effect _ (match ?x with _ => _ end) => destruct x eqn:?
  | |- effect _ (for_all _ _) => apply effect_for_all; [exact HR|intros ?]
  | |- effect _ (map_all _ _) => apply effect_map_all; [exact HR|intros ?]
  | |- effect _ (attempt _) => apply effect_attempt; [exact HR|]
  | |- effect _ _ => solve [eauto 2 with effect]
  end.
Ltac eff := repeat eff_step.

(** *** Repository calls *)

Ltac call c := apply (effect_commits R c); [done|intros; first [reflexivity|apply discard_unit]].

Lemma effect_complete id out str reason changes patch now :
  effect R (commits (StoreNodes.complete_node id out str reason changes patch now)).
Proof using HR. call (CallComplete id out str reason changes patch now). Qed.
Lemma effect_fail id failure propagation now :
  effect R (commits (StoreNodes.fail_node id failure propagation now)).
Proof using HR. call (CallFail id failure propagation now). Qed.
Lemma effect_start_loop round now : effect R (commits (start_loop_round round now)).
Proof using HR.
  apply (effect_commits R (CallStartLoop round now)); [intros []|intros; apply discard_unit].
Qed.
Lemma effect_advance scope advance now : effect R (commits (advance_loop_round scope advance now)).
Proof using HR.
  apply (effect_commits R (CallAdvanceLoop scope advance now)); [|done].
  destruct advance; simpl; [done| |done..]. intros [].
Qed.
Lemma effect_finish out now : effect R (commits (finish_run out now)).
Proof using HR. call (CallFinish out now). Qed.
Lemma effect_complete_iteration id owner exposed out now :
  effect R (commits (complete_iteration_node id owner exposed out now)).
Proof using HR. call (CallCompleteIteration id owner exposed out now). Qed.
#[local] Hint Resolve effect_complete effect_fail effect_start_loop effect_advance effect_finish
  effect_complete_iteration : effect.

Lemma effect_publish : effect R publish. Proof using HR. unfold publish. eff. Qed.
Lemma effect_publish_if b : effect R (publish_if b).
Proof using HR. unfold publish_if, publish. eff. Qed.
#[local] Hint Resolve effect_publish effect_publish_if : effect.

Lemma effect_find_round parent : effect R (find_active_loop_round parent).
Proof using HR. unfold find_active_loop_round. eff. Qed.
Lemma effect_complete_with id out now : effect R (complete_with id out now).
Proof using HR. unfold complete_with. eff. Qed.
Lemma effect_fail_with id failure now : effect R (fail_with id failure now).
Proof using HR. unfold fail_with. eff. Qed.
Lemma effect_context : effect R execution_context.
Proof using HR. unfold execution_context. eff. Qed.
#[local] Hint Resolve effect_find_round effect_complete_with effect_fail_with effect_context : effect.

Lemma effect_row scope n input iteration : effect R (row_to_start scope n input iteration).
Proof using HR. unfold row_to_start. eff. Qed.
Lemma effect_planned_row context round n : effect R (planned_row context round n).
Proof using HR. apply effect_row. Qed.
#[local] Hint Resolve effect_row effect_planned_row : effect.

(** *** Blocks that start and dispatch *)

Definition row_for (n : WorkflowGraphNode) (run : NodeRunToStart) : Prop := ts_node_id run = gn_id n.

Lemma row_returns scope n input iteration : returns (row_for n) (row_to_start scope n input iteration).
Proof using.
  intros e x e' H. unfold row_to_start, mbind, eng_bind, port in H. destruct (generate_node_run_id _).
  by injection H as <- _.
Qed.

Lemma map_all_returns {A B} (Q : A -> B -> Prop) (f : A -> Eng P B) l :
  (forall x, returns (Q x) (f x)) -> returns (Forall2 Q l) (map_all f l).
Proof using.
  intros Hf. induction l as [|x l IH]; intros e ys e' H; simpl in H; [injection H as <- _; constructor|].
  unfold mbind, eng_bind in H. destruct (f x e) as [[y|err| |] e1] eqn:E; [|done..].
  destruct (map_all f l e1) as [[zs|err| |] e2] eqn:E2; [|done..]. injection H as <- _.
  constructor; [by eapply Hf|by eapply IH].
Qed.

Lemma only_zip (f : WorkflowGraphNode * NodeRunToStart -> Eng P unit) ready runs :
  Forall2 row_for ready runs -> NoDup (ts_id <$> runs) ->
  (forall n run, row_for n run -> only_dispatches [run] (f (n, run))) ->
  only_dispatches runs (for_all f (zip ready runs)).
Proof using.
  intros Hrows Hnd Hf.
  assert ((zip ready runs).*2 = runs) as Hz.
  { clear -Hrows. induction Hrows as [|n r ns rs _ _ IH]; [done|]. csimpl. by rewrite IH. }
  rewrite <-Hz at 1. apply only_for_all; [by rewrite Hz|].
  intros [n run] Hin. apply Hf. apply list_elem_of_lookup in Hin as [i Hi].
  apply lookup_zip_with_Some in Hi as (n' & r' & [= -> ->] & Hn & Hr).
  by eapply Forall2_lookup_lr.
Qed.

Lemma only_dispatch n run scope pool : gn_type n = Agent -> row_for n run ->
  only_dispatches [run] (emit (Dispatched (ts_id run) n scope pool) : Eng P unit).
Proof using.
  intros Ht Hrow e o e' H. injection H as _ <-. eexists [_]. split; [done|]. split; [apply NoDup_singleton|].
  intros id n' scope' pool' [= -> -> -> ->]%list_elem_of_singleton. split; [done|]. exists run.
  split; [by left|done].
Qed.

Lemma async_agent n : runtime (gn_type n) = Some Async -> gn_type n = Agent.
Proof using. by destruct (gn_type n). Qed.

Lemma only_dispatch_async scope pool n run : row_for n run ->
  only_dispatches [run] (dispatch_async scope pool (n, run) : Eng P unit).
Proof using.
  intros Hrow. unfold dispatch_async. simpl. destruct (runtime (gn_type n)) as [[]|] eqn:E;
    try apply only_ret. by apply only_dispatch; [apply async_agent|].
Qed.

Lemma only_dispatch_ready context pool n run : row_for n run ->
  only_dispatches [run] (dispatch_ready context pool (n, run) : Eng P unit).
Proof using.
  intros Hrow. unfold dispatch_ready. simpl. destruct (runtime (gn_type n)) as [[]|] eqn:E;
    try apply only_ret; [by apply only_dispatch; [apply async_agent|]|by apply only_emit].
Qed.

(** *** The Loop scheduler *)

Lemma effect_start_round_nodes scope pool ready now : effect R (start_round_nodes scope pool ready now).
Proof using HR.
  unfold start_round_nodes. apply (effect_bind_returns R (Forall2 row_for ready));
    [eff|apply map_all_returns; intros n; apply row_returns|]. intros runs Hrows.
  apply (effect_start R (CallStartScope scope runs now) _ _ (fun _ => runs));
    [done|intros; apply discard_unit|intros; by eapply start_scope_starts|].
  intros _ Hnd. apply only_then; [|intros; apply only_ret].
  apply (only_zip _ ready); [done|done|]. intros. by apply only_dispatch_async.
Qed.
#[local] Hint Resolve effect_start_round_nodes : effect.

Lemma effect_decide {A} (m : result (fault LoopRoundError) A) failed k :
  (forall message, effect R (failed message)) -> (forall x, effect R (k x)) ->
  effect R (decide_with m failed k : Eng P LoopScheduleOutcome).
Proof using HR. intros Hf Hk. unfold decide_with. destruct m as [x|[e|]]; [apply Hk|apply Hf|exact (effect_panic R)]. Qed.

Lemma effect_fail_loop_row loop message now : effect R (fail_loop_row loop message now).
Proof using HR. unfold fail_loop_row. eff. Qed.
Lemma effect_advance_with scope advance now : effect R (advance_with scope advance now).
Proof using HR. unfold advance_with. eff. Qed.
Lemma effect_prepare loop body round pool : effect R (prepare_loop_round loop body round pool).
Proof using HR. unfold prepare_loop_round. eff. Qed.
#[local] Hint Resolve effect_fail_loop_row effect_advance_with effect_prepare : effect.

Lemma effect_start_first g loop config body pool now :
  effect R (start_first_round g loop config body pool now).
Proof using HR.
  unfold start_first_round. destruct (initialize_carried config pool); [|eff].
  apply effect_decide; [intros; eff|]. intros. eff.
Qed.

Lemma effect_controls body st rows l progressed now :
  effect R (complete_loop_controls body st rows l progressed now).
Proof using HR.
  revert progressed. induction l as [|r l IH]; intros progressed; simpl; [eff|].
  destruct (node body _); [|apply IH]. destruct (complete_running _ _) as [[out|[message|]]|]; [|eff..|apply IH].
  apply effect_bind; [exact HR|eff|]. intros. apply IH.
Qed.

Lemma effect_finish_round g loop config body pool c st now :
  effect R (finish_round g loop config body pool c st now).
Proof using HR.
  unfold finish_round. apply effect_decide; [intros; eff|]. intros [carried|outputs reason]; [|eff].
  apply effect_decide; intros; eff.
Qed.
#[local] Hint Resolve effect_start_first effect_controls effect_finish_round : effect.

Lemma effect_drive g loop config body pool c st now :
  effect R (drive_round g loop config body pool c st now).
Proof using HR. unfold drive_round. eff. Qed.
Lemma effect_settle_exit parent scope r : effect R (settle_loop_exit parent scope r).
Proof using HR. unfold settle_loop_exit. eff. Qed.
#[local] Hint Resolve effect_drive effect_settle_exit : effect.
Lemma effect_cleanup parent scope : effect R (drive_loop_exit_cleanup parent scope).
Proof using HR. unfold drive_loop_exit_cleanup. eff. Qed.
#[local] Hint Resolve effect_cleanup : effect.
Lemma effect_run_loop g loop pool now : effect R (run_loop_schedule g loop pool now).
Proof using HR. unfold run_loop_schedule. eff. Qed.
#[local] Hint Resolve effect_run_loop : effect.

(** *** The composite scheduler *)

Lemma effect_materialize g context round ids : effect R (materialize g context round ids).
Proof using HR. unfold materialize. eff. Qed.
#[local] Hint Resolve effect_materialize : effect.

Lemma only_dispatch_planned g run : graph_ok g ->
  only_dispatches [run] (dispatch_planned g run : Eng P unit).
Proof using.
  intros Hg. unfold dispatch_planned. destruct (node g _) as [n|] eqn:En; [|apply only_ret].
  apply (node_Some g Hg) in En as [_ Hid].
  destruct (runtime (gn_type n)) as [[]|] eqn:E; try apply only_ret.
  intros e o e' H. unfold mbind, eng_bind in H.
  assert (forall e : EngineState P, (execution_context e).2 = e) as Hsame.
  { clear. intros e. unfold execution_context, mbind, eng_bind, asks, reads, raise, of_result.
    destruct (find_execution_context e) as [[context|]|]; reflexivity. }
  specialize (Hsame e). destruct (execution_context e) as [[context|err| |] e1]; simpl in Hsame; subst e1.
  - eapply only_dispatch; [by apply async_agent| |exact H]. done.
  - injection H as _ <-. exists []. rewrite with_events_nil. split; [done|apply dispatches_nil].
  - injection H as _ <-. exists []. rewrite with_events_nil. split; [done|apply dispatches_nil].
  - injection H as _ <-. exists []. rewrite with_events_nil. split; [done|apply dispatches_nil].
Qed.

(** What follows a plan: the started rows are published and dispatched. *)
Definition after_plan (g : WorkflowGraph) (started : option (list NodeRunToStart)) : Eng P bool :=
  match started with
  | None => mret false
  | Some runs => publish ;; for_all (dispatch_planned g) runs ;; mret true
  end.

Lemma only_after_plan g started : graph_ok g -> NoDup (ts_id <$> default [] started) ->
  only_dispatches (default [] started) (after_plan g started).
Proof using.
  intros Hg Hnd. destruct started as [runs|]; [|apply only_ret]. simpl in *. unfold publish.
  apply only_quiet; [exact I|]. apply only_then; [|intros; apply only_ret].
  rewrite <-(list_fmap_id runs) at 1. apply (only_for_all _ id); [by rewrite list_fmap_id|].
  intros run _. by apply only_dispatch_planned.
Qed.

Lemma effect_after_nothing g (started : option (list NodeRunToStart)) : default [] started = [] ->
  effect R (after_plan g started).
Proof using HR. intros Hn. unfold after_plan. destruct started as [runs|]; [simpl in Hn; subst; simpl|]; eff. Qed.

(** A call that answers whether it was committed, then the dispatch of what it started. *)
Lemma effect_started {A} c (m : Tx A) g (started : A -> option (list NodeRunToStart)) : graph_ok g ->
  call_ok c -> (forall s, perform c s = discard m s) ->
  (forall s x s', m s = Ok (x, s') -> starts s (default [] (started x)) s') ->
  effect R ((x ← commits m; mret (started x)) ≫= after_plan g).
Proof using HR.
  intros Hg Hc Hp Hs. apply effect_assoc.
  apply (effect_start R c _ _ (fun x => default [] (started x))); [done|done|done|].
  intros x Hnd e o e' H. by eapply only_after_plan.
Qed.

Lemma effect_plan g context owner rows plan now : graph_ok g ->
  effect R (execute_composite_plan g context owner rows plan now ≫= after_plan g).
Proof using HR.
  intros Hg. destruct plan as [|round item ids|ids|round entry continuation|exposed out|error];
    unfold execute_composite_plan.
  - by apply (effect_after_nothing g None).
  - apply effect_assoc, effect_bind; [exact HR|eff|]. intros runs.
    apply (effect_started (CallStartIteration (nr_node_id owner) round item runs now)); [done|done|done|].
    intros s x s' H. by apply start_iteration_starts in H as [H _].
  - apply effect_assoc, effect_bind; [exact HR|eff|]. intros runs.
    apply (effect_started (CallStartReady runs now) _ _ (fun _ => Some runs)); [done|done|..].
    + intros. apply discard_unit.
    + intros s x s' H. by eapply start_ready_starts.
  - apply effect_assoc, (effect_bind_returns R (fun p : IterationRoundContinuation * list NodeRunToStart =>
      p.2 = match p.1 with ContinueNextRound _ _ runs => runs | _ => [] end)).
    + destruct continuation; eff.
    + destruct continuation; intros e p e' H; [|by injection H as <- _..].
      unfold mbind, eng_bind in H. destruct (materialize _ _ _ _ e) as [[runs|err| |] e1];
        [by injection H as <- _|done..].
    + intros [k runs] Hk. simpl in *. subst runs.
      apply (effect_started (CallSettleIteration (nr_node_id owner) round entry k now)); [done|done|done|].
      intros s x s' H. by apply settle_iteration_starts in H as [H _].
  - apply effect_assoc, effect_bind; [exact HR|eff|]. intros r. rewrite left_id_eng.
    apply effect_after_nothing. by destruct r.
  - apply effect_assoc, effect_bind; [exact HR|eff|]. intros r. rewrite left_id_eng.
    apply effect_after_nothing. by destruct r.
Qed.

Lemma effect_advance_composite g rows context now owner n : graph_ok g ->
  effect R (advance_composite g rows context now owner n).
Proof using HR.
  intros Hg. unfold advance_composite. destruct (plan_advance _ _ _ _); [|eff].
  by apply (effect_plan g context owner rows).
Qed.

Lemma effect_advance_loop g context now owner : effect R (advance_loop g context now owner).
Proof using HR. unfold advance_loop. eff. Qed.

Lemma effect_advance_composites g rows context now : graph_ok g ->
  effect R (advance_composites g rows context now).
Proof using HR.
  intros Hg. unfold advance_composites. induction (running_rows rows) as [|owner l IH]; simpl; [eff|].
  apply effect_bind; [exact HR| |intros []; [eff|done]].
  destruct (node g _) as [n|]; [|eff]. destruct (runtime (gn_type n)) as [[]|]; try eff.
  - by apply effect_advance_composite.
  - apply effect_advance_loop.
Qed.

(** *** The run scheduler *)

Lemma effect_swift g n r m now : effect R (complete_swift g n r m now).
Proof using HR. unfold complete_swift. destruct m as [out|[message|]]; eff. Qed.
#[local] Hint Resolve effect_swift : effect.

Lemma effect_swift_pass g context pool rows l completed now :
  effect R (swift_pass g context pool rows l completed now).
Proof using HR.
  revert completed. induction l as [|r l IH]; intros completed; simpl; [eff|].
  destruct (node g _); [|apply IH]. destruct (complete_running _ _); [|apply IH].
  apply effect_bind; [exact HR|eff|]. intros [|c]; [eff|apply IH].
Qed.

Lemma effect_start_or_finish g pool now : effect R (start_or_finish g pool now).
Proof using HR.
  unfold start_or_finish. apply effect_bind; [exact HR|eff|]. intros context. cbv zeta.
  apply effect_bind; [exact HR|eff|]. intros rows.
  set (ready := ready_nodes g Outer _). destruct (bool_decide _); [eff|].
  apply (effect_bind_returns R (Forall2 row_for ready));
    [eff|apply map_all_returns; intros n; apply row_returns|]. intros runs Hrows.
  apply (effect_start R (CallStartReady runs now) _ _ (fun _ => runs));
    [done|intros; apply discard_unit|intros; by eapply start_ready_starts|].
  intros _ Hnd. unfold publish. apply only_quiet; [exact I|].
  apply only_then; [|intros; apply only_ret]. apply (only_zip _ ready); [done|done|].
  intros. by apply only_dispatch_ready.
Qed.
End effects.
