(* ===== verification/EngineHistory.v ===== *)
(** * The commands of the engine

    Every command is a history of repository calls, whatever its outcome, so that the laws of the
    run store hold after any sequence of commands; and a command that schedules dispatches only
    attempts it has just created, each of them once. *)

From stdpp Require Import relations pretty.
From S2P Require Import Prelude RustStr Order Json NodeTypes VariablePool GraphBase Retry.
From S2P Require Import NodeConfig Iteration GraphBase Graph Projection.
From S2P Require Import Declarations GraphParse RunPayload NodeRuntime Resume Executable Store.
From S2P Require Import StorePayload StoreNodes StoreRun StoreLaws StoreOps StoreCalls LoopRound.
From S2P Require Import JsonCodec LoopGraph Document Engine CompositeScheduler Scheduler EngineEffects.
Local Open Scope ora_scope.

(** ** Effects of the commands *)

Section commands.
Context {P : Type} {ports : EnginePorts P}.
Context {debug : DebugText} {json : JsonText} {sqlite : SqliteJson} {decoding : DecodeMessage}.
Context {policy : PolicyDecode} {order : HashOrder} {pet : Petgraph} {envelope : EnvelopeDecode}
  {loops : LoopDecode}.
Context {laws : DocumentLaws} {read_back : JsonReadBack}.

Section effects.
Context (R : relation (EngineState P)) {HR : EngineRel R}.

#[local] Hint Resolve effect_ret effect_raise effect_panic effect_fuel effect_asks effect_reads
  effect_of_result effect_port : effect.
#[local] Hint Extern 1 (quiet _) => exact I : effect.
#[local] Hint Resolve effect_emit effect_publish effect_publish_if effect_context effect_planned_row
  effect_swift_pass effect_start_or_finish effect_settle_exit effect_fail effect_complete : effect.

Ltac eff_step :=
  cbv beta zeta;
  match goal with
  | |- forall _, _ => intros ?
  | |- effect _ (_ ≫= _) => apply effect_bind; [exact HR| |intros ?]
  | |- effect _ (match ?x with _ => _ end) => destruct x eqn:?
  | |- effect _ (attempt _) => apply effect_attempt; [exact HR|]
  | |- effect _ _ => solve [eauto 2 with effect]
  end.
Ltac eff := repeat eff_step.
Ltac call c := apply (effect_commits R c); [done|intros; first [reflexivity|apply discard_unit]].

Lemma effect_parse context : effect R (parse_graph context).
Proof using HR. apply effect_of_result, HR. Qed.
#[local] Hint Resolve effect_parse : effect.

Lemma parse_graph_returns context : returns (fun g => containers_ok g) (parse_graph context : Eng P _).
Proof using laws read_back.
  intros e g e' H. unfold parse_graph, of_result in H.
  destruct (parse _) as [g'|] eqn:E; [|done]. injection H as <- _. by apply parse_well_formed in E.
Qed.

Lemma effect_schedule_round now : effect R (schedule_round now).
Proof using HR laws read_back.
  unfold schedule_round. apply effect_bind; [exact HR|eff|]. intros context.
  destruct (negb _); [eff|]. apply (effect_bind_returns R _ _ _ (effect_parse context) (parse_graph_returns context)).
  intros g Hg. apply effect_bind; [exact HR|eff|]. intros rows. cbv zeta.
  apply effect_bind; [exact HR|eff|]. intros [|[]]; [eff..|].
  apply effect_bind; [exact HR|apply effect_advance_composites, co_graph, Hg; exact HR|]. intros. eff.
Qed.

Lemma effect_schedule_loop fuel now : effect R (schedule_loop fuel now).
Proof using HR laws read_back.
  induction fuel as [|fuel IH]; simpl; [eff|].
  apply effect_bind; [exact HR|apply effect_schedule_round|]. intros []; [done|eff].
Qed.

Lemma effect_run_schedule fuel : effect R (run_schedule fuel).
Proof using HR laws read_back. unfold run_schedule. apply effect_bind; [exact HR|eff|]. intros. apply effect_schedule_loop. Qed.
#[local] Hint Resolve effect_run_schedule : effect.

Lemma effect_start_run fuel : effect R (start fuel).
Proof using HR laws read_back.
  unfold start. do 5 (apply effect_bind; [exact HR|eff|]; intros ?).
  apply effect_bind; [exact HR| |intros []; eff].
  match goal with |- effect _ (commits (start_run ?r ?n)) => call (CallStart r n) end.
Qed.
#[local] Hint Resolve effect_start_run : effect.

Lemma effect_cancel : effect R cancel.
Proof using HR.
  unfold cancel. apply effect_bind; [exact HR|eff|]; intros now.
  apply effect_bind; [exact HR|call (CallCancel now)|intros; eff].
Qed.

Lemma effect_resume_from_failure fuel : effect R (resume_from_failure fuel).
Proof using HR laws read_back.
  unfold resume_from_failure. apply effect_bind; [exact HR|eff|]; intros context.
  destruct (negb _); [eff|]. do 2 (apply effect_bind; [exact HR|eff|]; intros ?). cbv zeta.
  destruct (bool_decide _); [eff|]. apply effect_bind; [exact HR|eff|]; intros now.
  apply effect_bind; [exact HR| |intros []; eff].
  match goal with |- effect _ (commits (StoreRun.resume_from_failure ?l)) => call (CallResume l) end.
Qed.

Lemma effect_restart fuel : effect R (restart fuel).
Proof using HR laws read_back.
  unfold restart. do 2 (apply effect_bind; [exact HR|eff|]; intros ?).
  apply effect_bind; [exact HR| |intros []; eff].
  match goal with |- effect _ (commits (restart_run ?l)) => call (CallRestart l) end.
Qed.

Lemma effect_update_input input variables : effect R (update_run_input input variables).
Proof using HR.
  unfold update_run_input. apply effect_bind; [exact HR|eff|]; intros now.
  call (CallUpdateInput input variables).
Qed.

Lemma effect_complete_patch fuel id out str reason changes patch :
  effect R (complete_node_with_payload_patch fuel id out str reason changes patch).
Proof using HR laws read_back. unfold complete_node_with_payload_patch. eff. Qed.

Lemma effect_checkpoint id snap checkpoint error : effect R (record_node_checkpoint id snap checkpoint error).
Proof using HR.
  unfold record_node_checkpoint. apply effect_bind; [exact HR|eff|]; intros now.
  call (CallCheckpoint id snap checkpoint error).
Qed.

Lemma effect_finish_exit fuel parent scope r : effect R (finish_loop_exit fuel parent scope r).
Proof using HR laws read_back. unfold finish_loop_exit. eff. Qed.

Lemma effect_propagation r : effect R (failure_propagation r).
Proof using HR. unfold failure_propagation. eff. Qed.
#[local] Hint Resolve effect_propagation : effect.

Lemma effect_try_retry r failure now : effect R (try_schedule_retry r failure now).
Proof using HR.
  unfold try_schedule_retry. destruct (negb _); [eff|]. apply effect_bind; [exact HR|eff|]; intros context.
  destruct (negb _); [eff|]. apply effect_bind; [exact HR|eff|]; intros g.
  destruct (attempt_policy _ _); [|eff]. destruct (retry_to_schedule _ _ _ _) as [retry|]; [|eff].
  apply effect_bind; [exact HR|eff|]; intros new_id. apply effect_bind; [exact HR| |intros; eff].
  call (CallScheduleRetry (nr_id r) failure new_id retry now).
Qed.

Lemma effect_schedule_retry r failure now : effect R (schedule_retry r failure now).
Proof using HR. unfold schedule_retry. apply effect_bind; [exact HR|apply effect_attempt, effect_try_retry; exact HR|intros; eff]. Qed.
#[local] Hint Resolve effect_schedule_retry : effect.

Lemma effect_fail_node fuel id failure : effect R (fail_node fuel id failure).
Proof using HR laws read_back. unfold fail_node. eff. Qed.
#[local] Hint Resolve effect_fail_node : effect.

(** A wake-up dispatches the attempt it has started. *)
Context (Hwake : forall e id n scope pool, R e (with_event (Dispatched id n scope pool) e)).

Lemma effect_retry_round g scope l : effect R (retry_round g scope l).
Proof using HR.
  induction l as [|loop l IH]; simpl; [eff|]. destruct (loop_body g _) as [[config body]|]; [|done].
  apply effect_bind; [exact HR|apply effect_find_round, HR|]. intros [c|]; [|done].
  destruct (bool_decide _); [eff|done].
Qed.

Lemma effect_dispatch_retry r : effect R (dispatch_started_retry r).
Proof using HR Hwake.
  unfold dispatch_started_retry. do 2 (apply effect_bind; [exact HR|eff|]; intros ?).
  apply effect_bind; [exact HR| |].
  { destruct (bool_decide _); [eff|]. apply effect_bind; [exact HR|eff|]; intros ?.
    apply effect_retry_round. }
  intros [[g pool]|]; [|eff]. destruct (node g _); [|eff]. destruct (runtime _) as [[]|]; try eff.
  intros e o e' H. injection H as _ <-. apply Hwake.
Qed.

Lemma effect_wake fuel id : effect R (wake_retry fuel id).
Proof using HR Hwake laws read_back.
  unfold wake_retry. apply effect_bind; [exact HR|eff|]; intros now.
  apply effect_bind; [exact HR|call (CallBeginRetry id now)|]. intros [r|due| | |]; [|eff..].
  apply effect_bind; [exact HR|eff|]; intros ?.
  apply effect_bind; [exact HR|apply effect_attempt, effect_dispatch_retry; exact HR|]. intros answer.
  destruct (dispatch_failure _ answer); eff.
Qed.
End effects.
End commands.

(** ** Histories of the engine

    The commands of the engine and the calls other parts of the backend make on the same tables,
    as one type; a history is any sequence of them, each one run to its outcome.  Whatever the
    outcomes, a history of commands is a history of the repository, so it refines the slot
    machine; and a command that schedules dispatches only attempts it has just created. *)
Inductive EngineCommand : Type :=
| StartRun
| ResumeRun
| CancelRun
| ResumeFromFailure
| RestartRun
| UpdateInput (input : option string) (variables : gmap string Value)
| CompleteNode (id : string) (output : option string) (structured : option Value)
    (stop_reason : option string) (changes : list FileChange) (patch : option Value)
| RecordCheckpoint (id snapshot_id : string) (checkpoint error : option string)
| FinishLoopExit (parent scope : string) (result_of : result string unit)
| FailNode (id : string) (failure : NodeFailure)
| WakeRetry (id : string)
| Outside (c : StoreCall)
| Surroundings (workspace : bool) (graph : option string).

(** What the other callers of the repository guarantee. *)
Definition command_ok {debug : DebugText} (c : EngineCommand) : Prop :=
  match c with Outside c => call_ok c | _ => True end.

(** A command that reaches [dispatch_started_retry]. *)
Definition is_wake (c : EngineCommand) : bool := match c with WakeRetry _ => true | _ => false end.

(** ** Two engine relations *)

Section relations.
Context {P : Type} {debug : DebugText} {json : JsonText} {sqlite : SqliteJson}.

(** The store moves by a history of calls. *)
Definition by_calls (e e' : EngineState P) : Prop :=
  exists calls, Forall call_ok calls /\ es_store e' = serve_all (es_store e) calls.

#[export] Instance by_calls_rel : EngineRel by_calls.
Proof.
  split.
  - split.
    + intros e. by exists [].
    + intros e1 e2 e3 (l1 & H1 & E1) (l2 & H2 & E2). exists (l1 ++ l2). split; [by apply Forall_app|].
      unfold serve_all in *. by rewrite fold_left_app, <-E1.
  - intros e p. by exists [].
  - intros e event _. by exists [].
  - intros e c Hc. exists [c]. split; [by constructor|done].
  - intros e c s' runs events Hc Hp _ _. exists [c]. split; [by constructor|]. simpl.
    unfold serve, commit. by rewrite Hp.
Qed.

Lemma by_calls_wake e id n scope pool : by_calls e (with_event (Dispatched id n scope pool) e).
Proof. by exists []. Qed.

(** Every dispatched attempt is new, is the row of its agent node, and is dispatched once. *)
Record fresh_dispatches (s : RunStore) (events : list EngineEvent) (s' : RunStore) : Prop := {
  fr_once : NoDup (dispatched_ids events);
  fr_row id n scope pool : Dispatched id n scope pool ∈ events ->
    id ∉ (row_id <$> st_rows s) /\ gn_type n = Agent /\
    exists r, r ∈ st_rows s' /\ row_id r = id /\ nr_node_id (row r) = gn_id n;
}.

Definition dispatches_fresh (e e' : EngineState P) : Prop :=
  store_ok (es_store e) -> rtc stmt (es_store e) (es_store e') /\
  exists events, es_events e' = es_events e ++ events /\
    fresh_dispatches (es_store e) events (es_store e').

Lemma stmts_keep s s' r : rtc stmt s s' -> r ∈ st_rows s -> exists r', r' ∈ st_rows s' /\ same_row r r'.
Proof.
  intros Hst. revert r. induction Hst as [s|s s1 s' H1 _ IH]; intros r Hr.
  { exists r. split; [done|]. by split_and!. }
  assert (exists r1, r1 ∈ st_rows s1 /\ same_row r r1) as (r1 & Hr1 & H01).
  { assert (same_row r r) as Hrefl by by split_and!.
    destruct H1 as [l1 x x' l2 Hrows Hm|x _|l1 c c' l2 _ _|c _|scope _|run _]; simpl;
      [|exists r; split; [set_solver|done]|by exists r..].
    rewrite Hrows in Hr. apply elem_of_app in Hr as [Hr|[->|Hr]%elem_of_cons].
    - exists r. split; [set_solver|done].
    - exists x'. split; [set_solver|by apply row_move_same].
    - exists r. split; [set_solver|done]. }
  destruct (IH r1 Hr1) as (r' & Hr' & H12). exists r'. split; [done|].
  unfold same_row in *. destruct_and!. split_and!; congruence.
Qed.

Lemma stmts_keep_ids s s' id : rtc stmt s s' -> id ∈ (row_id <$> st_rows s) -> id ∈ (row_id <$> st_rows s').
Proof.
  intros Hst (r & -> & Hr)%list_elem_of_fmap. destruct (stmts_keep s s' r Hst Hr) as (r' & Hr' & Hs & _).
  rewrite <-Hs. by apply list_elem_of_fmap_2.
Qed.

Lemma fresh_nil s s' : fresh_dispatches s [] s'.
Proof. split; [constructor|]. by intros ? ? ? ? ?%elem_of_nil. Qed.

Lemma fresh_quiet s event s' : quiet event -> fresh_dispatches s [event] s'.
Proof.
  intros Hq. split; [destruct event; [done|constructor..]|]. by intros id n scope pool <-%list_elem_of_singleton.
Qed.

Lemma fresh_trans s1 l1 s2 l2 s3 : rtc stmt s1 s2 -> rtc stmt s2 s3 ->
  fresh_dispatches s1 l1 s2 -> fresh_dispatches s2 l2 s3 -> fresh_dispatches s1 (l1 ++ l2) s3.
Proof.
  intros H12 H23 [O1 R1] [O2 R2]. split.
  - rewrite dispatched_ids_app. apply NoDup_app. split_and!; [done| |done].
    intros id (n & scope & pool & Hin)%elem_of_dispatched_ids (n' & scope' & pool' & Hin')%elem_of_dispatched_ids.
    apply R1 in Hin as (_ & _ & r & Hr & <- & _). apply R2 in Hin' as (Hn & _). apply Hn.
    by apply list_elem_of_fmap_2.
  - intros id n scope pool [Hin|Hin]%elem_of_app.
    + apply R1 in Hin as (Hn & Ht & r & Hr & Hid & Hnode). split_and!; [done|done|].
      destruct (stmts_keep s2 s3 r H23 Hr) as (r' & Hr' & Hid' & Hslot & _). exists r'.
      unfold slot in Hslot. injection Hslot as _ Hslot _. split_and!; congruence.
    + apply R2 in Hin as (Hn & Ht & Hr). split_and!; [|done|done].
      intros Hid. by apply Hn, (stmts_keep_ids s1).
Qed.

#[export] Instance dispatches_fresh_rel : EngineRel dispatches_fresh.
Proof.
  assert (forall e : EngineState P, exists events, es_events e = es_events e ++ events /\
    fresh_dispatches (es_store e) events (es_store e)) as Hnil.
  { intros e. exists []. split; [by rewrite app_nil_r|apply fresh_nil]. }
  split.
  - split.
    + intros e Hok. split; [done|apply Hnil].
    + intros e1 e2 e3 H12 H23 Hok. destruct (H12 Hok) as (S12 & l1 & E1 & F1).
      destruct H23 as (S23 & l2 & E2 & F2); [by eapply stmts_ok|].
      split; [by etrans|]. exists (l1 ++ l2). rewrite E2, E1, app_assoc. split; [done|].
      by eapply fresh_trans.
  - intros e p Hok. split; [done|exact (Hnil e)].
  - intros e event Hq Hok. split; [done|]. exists [event]. split; [done|by apply fresh_quiet].
  - intros e c Hc Hok. split; [by apply serve_stmts|]. exists []. simpl. rewrite app_nil_r.
    split; [done|apply fresh_nil].
  - intros e c s' runs events Hc Hp [Hfresh Hin _] [Honce Hrow] Hok. simpl.
    split; [by eapply perform_lawful|]. exists events. split; [done|]. split; [done|].
    intros id n scope pool Hev. apply Hrow in Hev as (Ht & run & Hrun & <- & Hnode).
    split_and!; [by apply Hfresh|done|]. apply Hin in Hrun as (r & Hr & Hid & Hn & _).
    exists r. split_and!; congruence.
Qed.
End relations.

(** ** Running commands *)

Section history.
Context {P : Type} {ports : EnginePorts P}.
Context {debug : DebugText} {json : JsonText} {sqlite : SqliteJson} {decoding : DecodeMessage}.
Context {policy : PolicyDecode} {order : HashOrder} {pet : Petgraph} {envelope : EnvelopeDecode}
  {loops : LoopDecode}.
Context (fuel : nat).

(** The state after a command, whatever its outcome. *)
Definition after {A} (m : Eng P A) (e : EngineState P) : EngineState P := (m e).2.

Definition run_command (c : EngineCommand) (e : EngineState P) : EngineState P :=
  match c with
  | StartRun => after (start fuel) e
  | ResumeRun => after (resume fuel) e
  | CancelRun => after cancel e
  | ResumeFromFailure => after (Scheduler.resume_from_failure fuel) e
  | RestartRun => after (restart fuel) e
  | UpdateInput input variables => after (Scheduler.update_run_input input variables) e
  | CompleteNode id out str reason changes patch =>
      after (complete_node_with_payload_patch fuel id out str reason changes patch) e
  | RecordCheckpoint id snap checkpoint error =>
      after (Scheduler.record_node_checkpoint id snap checkpoint error) e
  | FinishLoopExit parent scope r => after (finish_loop_exit fuel parent scope r) e
  | FailNode id failure => after (Scheduler.fail_node fuel id failure) e
  | WakeRetry id => after (wake_retry fuel id) e
  | Outside c => with_store (serve (es_store e) c) e
  | Surroundings workspace graph =>
      {| es_store := es_store e; es_workspace := workspace; es_graph := graph;
         es_ports := es_ports e; es_events := es_events e |}
  end.

Definition run_commands (commands : list EngineCommand) (e : EngineState P) : EngineState P :=
  fold_left (fun e c => run_command c e) commands e.

Context {laws : DocumentLaws} {read_back : JsonReadBack}.

Section generic.
Context (R : relation (EngineState P)) {HR : EngineRel R}.
Context (Hsurroundings : forall e workspace graph,
  R e {| es_store := es_store e; es_workspace := workspace; es_graph := graph;
         es_ports := es_ports e; es_events := es_events e |}).

Lemma effect_after {A} (m : Eng P A) e : effect R m -> R e (after m e).
Proof using. intros Hm. unfold after. destruct (m e) as [o e'] eqn:E. by eapply Hm. Qed.

Lemma command_effect c e : command_ok c -> is_wake c = false -> R e (run_command c e).
Proof using HR Hsurroundings laws read_back.
  intros Hc Hw. destruct c; try done; simpl; try apply effect_after.
  - by apply effect_start_run.
  - by apply effect_run_schedule.
  - by apply effect_cancel.
  - by apply effect_resume_from_failure.
  - by apply effect_restart.
  - by apply effect_update_input.
  - by apply effect_complete_patch.
  - by apply effect_checkpoint.
  - by apply effect_finish_exit.
  - by apply effect_fail_node.
  - by apply er_call.
  - apply Hsurroundings.
Qed.

Lemma commands_effect commands e : Forall command_ok commands -> Forall (fun c => is_wake c = false) commands ->
  R e (run_commands commands e).
Proof using HR Hsurroundings laws read_back.
  intros Hc Hw. revert e. induction Hc as [|c l Hc _ IH]; intros e; [reflexivity|].
  apply Forall_cons in Hw as [Hw Hl]. simpl. etrans; [by apply command_effect|by apply IH].
Qed.
End generic.

Lemma commands_by_calls commands e : Forall command_ok commands -> by_calls e (run_commands commands e).
Proof using laws read_back.
  intros Hc. revert e. induction Hc as [|c l Hc _ IH]; intros e; [reflexivity|].
  simpl. etrans; [|by apply IH]. destruct (is_wake c) eqn:Hw.
  - destruct c; try done. simpl. apply effect_after. apply effect_wake; [apply _|]. apply by_calls_wake.
  - apply command_effect; [apply _| |done|done]. by exists [].
Qed.

(** C5: the engine refines the slot machine.  Whatever the ports answer, whatever fails and
    whatever other parts of the backend do in between, after any sequence of commands the tables
    satisfy their schema, the run as its scheduler sees it has moved by steps of the slot machine,
    and every attempt that had settled before is still there with the outcome it had. *)
Theorem engine_refines_slots commands e :
  store_ok (es_store e) -> Forall command_ok commands ->
  let e' := run_commands commands e in
  store_ok (es_store e') /\
  rtc slot_step (slots_of (es_store e)) (slots_of (es_store e')) /\
  forall r, r ∈ st_rows (es_store e) -> settled r = true ->
    exists r', r' ∈ st_rows (es_store e') /\ settled_as r r'.
Proof.
  intros Hok Hc e'. destruct (commands_by_calls commands e Hc) as (calls & Hcalls & E).
  fold e' in E. pose proof (serve_all_stmts _ calls Hok Hcalls) as Hst. rewrite <-E in Hst. split_and!.
  - by eapply stmts_ok.
  - by apply stmts_slots.
  - intros r Hr Hs. by eapply stmts_settled.
Qed.

(** C8: an attempt is dispatched at most once.  In any sequence of commands that does not wake a
    waiting retry, every dispatch is of an attempt created after the sequence began, whose row is
    in the store, for its own node, which is an agent; and no attempt is dispatched twice. *)
Theorem dispatched_once commands e :
  store_ok (es_store e) -> Forall command_ok commands -> Forall (fun c => is_wake c = false) commands ->
  let e' := run_commands commands e in
  exists events, es_events e' = es_events e ++ events /\ NoDup (dispatched_ids events) /\
    forall id n scope pool, Dispatched id n scope pool ∈ events ->
      id ∉ (row_id <$> st_rows (es_store e)) /\ gn_type n = Agent /\
      exists r, r ∈ st_rows (es_store e') /\ row_id r = id /\ nr_node_id (row r) = gn_id n.
Proof.
  intros Hok Hc Hw e'.
  assert (dispatches_fresh e e') as Hd.
  { apply commands_effect; [apply _| |done|done]. intros e0 w g Hok0. split; [done|]. exists [].
    rewrite app_nil_r. split; [done|apply fresh_nil]. }
  destruct (Hd Hok) as (_ & events & E & [Honce Hrow]). by exists events.
Qed.
End history.

(** ** A concrete engine *)

Section sample.
#[local] Existing Instances LoopGraph.plain_debug LoopGraph.no_policy LoopGraph.insertion_order.
#[local] Existing Instances kahn_petgraph echo_loops StoreCalls.no_sql.

(** Identifiers are numbered, the clock ticks once per identifier. *)
#[local] Instance counting_ports : EnginePorts nat := {|
  generate_node_run_id n := ("attempt-" +:+ pretty n, S n);
  generate_scope_id n := ("scope-" +:+ pretty n, S n);
  random_root_id n := ("root-" +:+ pretty n, S n);
  now_timestamp_millis n := (Z.of_nat n, S n);
  cleanup_loop_exit _ _ n := (CleanupComplete, n);
|}.
#[local] Instance plain_decoding : DecodeMessage := {| decode_message text := text |}.

(** A start node and an agent after it. *)
Definition agent_document : Value :=
  VObject [("schemaVersion", VNumber (PosInt 2));
           ("nodes", VArray [raw_node "s" "start" None; raw_node "work" "agent" None]);
           ("edges", VArray [raw_edge "s" "work"])].

Definition fresh_engine (document : Value) : EngineState nat :=
  {| es_store := new_store "run" "workflow" None (Stored default_payload);
     es_workspace := true; es_graph := Some (json_to_string document); es_ports := 0;
     es_events := [] |}.

Definition statuses (e : EngineState nat) : list (string * string * WorkflowNodeStatus) :=
  (fun r => (row_id r, nr_node_id (row r), nr_status (row r))) <$> st_rows (es_store e).

Lemma fresh_engine_ok document : store_ok (es_store (fresh_engine document)).
Proof. by apply new_store_ok. Qed.

(** The run starts, its agent answers, and the run ends; a late failure report changes nothing. *)
Definition answered : list EngineCommand :=
  [StartRun; CompleteNode "attempt-3" (Some "done") None None [] None;
   FailNode "attempt-3" (new_failure PromptTemplate "late")].

Lemma answered_ok : Forall command_ok answered.
Proof. by repeat constructor. Qed.

Lemma engine_refines_slots_witness :
  statuses (run_commands 9 answered (fresh_engine agent_document)) =
    [("attempt-0", "s", Succeeded); ("attempt-3", "work", Succeeded)] /\
  rtc slot_step (slots_of (es_store (fresh_engine agent_document)))
    (slots_of (es_store (run_commands 9 answered (fresh_engine agent_document)))).
Proof.
  split; [vm_compute; reflexivity|].
  apply (engine_refines_slots 9 answered (fresh_engine agent_document));
    [apply fresh_engine_ok|apply answered_ok].
Defined.

Lemma dispatched_once_witness :
  dispatched_ids (es_events (run_commands 9 answered (fresh_engine agent_document))) = ["attempt-3"] /\
  exists events, es_events (run_commands 9 answered (fresh_engine agent_document)) = [] ++ events /\
    NoDup (dispatched_ids events).
Proof.
  split; [vm_compute; reflexivity|].
  destruct (dispatched_once 9 answered (fresh_engine agent_document)) as (events & H & Hnd & _);
    [apply fresh_engine_ok|apply answered_ok|by repeat constructor|]. exists events. split; [exact H|exact Hnd].
Defined.
End sample.
