(* ===== verification/EngineProgress.v ===== *)
(** * Progress of the scheduling loop

    When [run_schedule] returns, the run has ended or nothing more can start before an answer
    arrives; and for a graph without composite containers the loop does return, within a number
    of rounds the graph bounds. *)

From stdpp Require Import relations.
From S2P Require Import Prelude RustStr Order Json NodeTypes VariablePool Retry GraphBase.
From S2P Require Import NodeConfig Iteration GraphBase Graph Projection.
From S2P Require Import Declarations GraphParse NodeRuntime RunPayload Resume Executable Store.
From S2P Require Import StorePayload StoreNodes StoreRun StoreLaws.
From S2P Require Import StoreLaws StoreOps StoreCalls StoreSteps JsonCodec LoopRound LoopGraph.
From S2P Require Import Document Engine CompositeScheduler Scheduler EngineEffects.
From S2P Require Import EngineEffects EngineHistory.
Local Open Scope ora_scope.

Section progress.
Context {P : Type} {ports : EnginePorts P}.
Context {debug : DebugText} {json : JsonText} {sqlite : SqliteJson} {decoding : DecodeMessage}.
Context {policy : PolicyDecode} {order : HashOrder} {pet : Petgraph} {envelope : EnvelopeDecode}
  {loops : LoopDecode}.

(** ** Steps *)

Lemma eng_bind_done {A B} (m : Eng P A) (k : A -> Eng P B) e b e' :
  (m ≫= k) e = (Done b, e') -> exists x e1, m e = (Done x, e1) /\ k x e1 = (Done b, e').
Proof using.
  unfold mbind, eng_bind. destruct (m e) as [[x|err| |] e1]; [|done..]. intros H. by exists x, e1.
Qed.

Lemma eng_bind_fuel {A B} (m : Eng P A) (k : A -> Eng P B) e e' :
  (m ≫= k) e = (OutOfFuel, e') -> m e = (OutOfFuel, e') \/
  exists x e1, m e = (Done x, e1) /\ k x e1 = (OutOfFuel, e').
Proof using.
  unfold mbind, eng_bind. destruct (m e) as [[x|err| |] e1]; intros H; [right|done|done|left].
  - by exists x, e1.
  - by injection H as ->.
Qed.

Lemma commits_done {A} (m : Tx A) e (x : A) (e' : EngineState P) : commits m e = (Done x, e') ->
  exists s, m (es_store e) = Ok (x, s) /\ e' = with_store s e.
Proof using.
  unfold commits, commit. destruct (m _) as [[y s]|err]; intros H; [|done]. injection H as -> <-. by exists s.
Qed.

Lemma commits_no_fuel {A} (m : Tx A) e (e' : EngineState P) : commits m e = (OutOfFuel, e') -> False.
Proof using. unfold commits, commit. by destruct (m _) as [[]|]. Qed.

Lemma context_done e c (e' : EngineState P) : execution_context e = (Done c, e') ->
  e' = e /\ find_execution_context e = Ok (Some c).
Proof using.
  unfold execution_context, mbind, eng_bind, asks, of_result, reads, raise.
  destruct (find_execution_context e) as [[c'|]|] eqn:E; intros H; [|done..]. by injection H as -> ->.
Qed.

Lemma context_of (e : EngineState P) c : find_execution_context e = Ok (Some c) ->
  wr_deleted (st_run (es_store e)) = false /\ ec_run c = st_run (es_store e) /\
  ec_root_scope_id c = st_root (es_store e) /\ es_graph e = Some (ec_graph_json c).
Proof using.
  unfold find_execution_context. destruct (wr_deleted _); [done|]. simpl.
  destruct (negb _); [done|]. destruct (es_graph e); intros H; [|done]. by injection H as <-.
Qed.

(** ** Quiescence *)

(** Nothing of the outer graph can start, and something is in flight. *)
Definition quiescent (e : EngineState P) : Prop :=
  exists context g, find_execution_context e = Ok (Some context) /\
    parse (ec_graph_json context) = Ok g /\
    let states := new_projection g (list_node_runs (es_store e))
                    (execution_state_from (wr_payload (ec_run context))).2 in
    ready_nodes g Outer states = [] /\ has_in_flight states = true.

(** The round's running rows, as they are still in the store. *)
Definition still_running (root : string) (s : RunStore) (l : list WorkflowNodeRun) : Prop :=
  NoDup (nr_id <$> l) /\
  Forall (fun r => exists x, x ∈ st_rows s /\ row x = r /\ root_running root x = true) l.

Lemma still_running_settled root s s' r l : settles_row (nr_id r) s s' ->
  still_running root s (r :: l) -> still_running root s' l.
Proof using.
  intros [(f & _ & E) _] [Hnd Hl]. apply NoDup_cons in Hnd as [Hn Hnd]. apply Forall_cons in Hl as [_ Hl].
  split; [done|]. apply Forall_forall. intros y Hy. rewrite Forall_forall in Hl.
  destruct (Hl y Hy) as (x & Hx & <- & Hroot). exists x. split; [|done]. rewrite E.
  apply list_elem_of_fmap. exists x. split; [|done]. destruct (live_id (nr_id r) x) eqn:Hid; [|done].
  apply live_id_true in Hid. destruct Hn. apply list_elem_of_fmap. by exists (row x).
Qed.

Lemma sorted_rows_elem l r : r ∈ sorted_rows l <-> exists x, x ∈ l /\ row x = r.
Proof using.
  unfold sorted_rows. rewrite list_elem_of_fmap. split; intros (x & H1 & H2).
  - exists x. rewrite merge_sort_Permutation in H2. done.
  - exists x. by rewrite merge_sort_Permutation.
Qed.

Lemma running_rows_still s : store_ok s ->
  still_running (st_root s) s (running_rows (list_node_runs_in_scope s (st_root s))).
Proof using.
  intros Hok. split.
  - unfold running_rows. apply NoDup_fmap_filter.
    unfold list_node_runs_in_scope, sorted_rows. rewrite <-list_fmap_compose.
    rewrite merge_sort_Permutation. apply NoDup_fmap_filter.
    apply Hok.
  - apply Forall_forall. intros r [Hr (x & Hx & <-)%sorted_rows_elem]%list_elem_of_filter.
    apply list_elem_of_filter in Hx as [Hl Hx]. exists x. split_and!; [done|done|].
    unfold root_running, status_is. apply andb_true_iff. by split.
Qed.
(** What one running swift node does to the run. *)
Definition swift_result (root id : string) (e e' : EngineState P) (o : outcome SwiftPass) : Prop :=
  match o with
  | Done PassStops => wr_status (st_run (es_store e')) <> RunRunning
  | Done (PassCompleted c) => c = true /\ settles_row id (es_store e) (es_store e') /\
      store_ok (es_store e')
  | OutOfFuel => False
  | Raised _ | Panicked => True
  end.

Lemma publish_if_run b (e : EngineState P) :
  exists e', publish_if b e = (Done tt, e') /\ es_store e' = es_store e.
Proof using. destruct b; eexists; split; reflexivity. Qed.

Lemma commits_ok {A} (m : Tx A) e (x : A) (e' : EngineState P) : lawful m -> store_ok (es_store e) ->
  commits m e = (Done x, e') -> store_ok (es_store e').
Proof using.
  intros Hm Hok H. apply commits_done in H as (s & H & ->). eapply stmts_ok; [|exact Hok]. by eapply Hm.
Qed.

Lemma complete_swift_spec root g n x m now e o e' :
  store_ok (es_store e) -> runs_in root (es_store e) -> x ∈ st_rows (es_store e) ->
  root_running root x = true -> complete_swift g n (row x) m now e = (o, e') ->
  swift_result root (row_id x) e e' o.
Proof using.
  intros Hok Hrun Hx Hroot H. unfold complete_swift in H. destruct m as [out|[message|]].
  - unfold mbind at 1, eng_bind in H.
    destruct (complete_with _ _ _ e) as [[a|err| |] e1] eqn:E1; [|injection H as <- <-; done..|].
    2: { by apply commits_no_fuel in E1. }
    pose proof (commits_ok _ _ _ _ (lawful_complete_node _ _ _ _ _ _ _) Hok E1) as Hok1.
    apply commits_done in E1 as (s & E1 & ->). apply (complete_settles root) in E1 as [-> Hset]; [|done..].
    destruct (publish_if_run (is_advanced Advanced) (with_store s e)) as (e2 & Hp & Hs).
    unfold mbind, eng_bind in H. rewrite Hp in H. injection H as <- <-. simpl. rewrite Hs. by split_and!.
  - cbv zeta in H. unfold mbind at 1, eng_bind in H.
    destruct (commits _ e) as [[a|err| |] e1] eqn:E1; [|injection H as <- <-; done..|].
    2: { by apply commits_no_fuel in E1. }
    pose proof (commits_ok _ _ _ _ (lawful_fail_node _ _ _ _) Hok E1) as Hok1.
    apply commits_done in E1 as (s & E1 & ->).
    destruct (publish_if_run (is_advanced a) (with_store s e)) as (e2 & Hp & Hs).
    unfold mbind, eng_bind in H. rewrite Hp in H. injection H as <- <-.
    destruct (region_failure_propagation g _).
    + apply (fail_ends_run root) in E1 as [-> Hst]; [|done..]. simpl. rewrite Hs. simpl. by rewrite Hst.
    + apply (fail_settles root) in E1 as [-> Hset]; [|done..]. simpl. rewrite Hs. by split_and!.
  - by injection H as <- <-.
Qed.

(** The store as the pass over the swift nodes leaves it. *)
Record pass_keeps (root : string) (s s' : RunStore) : Prop := {
  pk_ok : store_ok s';
  pk_runs : runs_in root s';
  pk_slots : slot <$> live_rows s' = slot <$> live_rows s;
  pk_count : running_count root s' <= running_count root s;
}.

Definition pass_result (g : WorkflowGraph) (root : string) (l : list WorkflowNodeRun) (completed : bool)
    (e e' : EngineState P) (o : outcome SwiftPass) : Prop :=
  match o with
  | Done PassStops => wr_status (st_run (es_store e')) <> RunRunning
  | Done (PassCompleted c) => pass_keeps root (es_store e) (es_store e') /\
      (completed = true -> c = true) /\
      (c = true -> completed = false -> running_count root (es_store e') < running_count root (es_store e)) /\
      (c = false -> e' = e /\
        forall r n, r ∈ l -> node g (nr_node_id r) = Some n -> runtime (gn_type n) <> Some Swift)
  | OutOfFuel => False
  | Raised _ | Panicked => True
  end.

Lemma not_completing n c : complete_running n c = None -> runtime (gn_type n) <> Some Swift.
Proof using. unfold complete_running. by destruct (gn_type n). Qed.

Lemma swift_pass_spec g context pool rows root l completed now e o e' :
  store_ok (es_store e) -> runs_in root (es_store e) -> still_running root (es_store e) l ->
  swift_pass g context pool rows l completed now e = (o, e') -> pass_result g root l completed e e' o.
Proof using.
  revert completed e. induction l as [|r l IH]; intros completed e Hok Hrun Hl H; simpl in H.
  { injection H as <- <-. simpl. split_and!; [by split|done|by intros ->|]. intros _. split; [done|].
    by intros r n ?%elem_of_nil. }
  assert (still_running root (es_store e) l) as Hl'.
  { destruct Hl as [Hnd Hl]. apply NoDup_cons in Hnd as [_ Hnd]. by apply Forall_cons in Hl as [_ Hl]. }
  assert (Hskip : (forall n, node g (nr_node_id r) = Some n -> runtime (gn_type n) <> Some Swift) ->
    swift_pass g context pool rows l completed now e = (o, e') -> pass_result g root (r :: l) completed e e' o).
  { intros Hno H'. apply IH in H'; [|done..]. destruct o as [[|c]|err| |]; try done. simpl in *.
    destruct H' as (Hk & Hc' & Hlt & Hsame). split_and!; [done|done|done|]. intros Hc.
    destruct (Hsame Hc) as [-> Hnos]. split; [done|]. intros r' n [->|Hr']%elem_of_cons; eauto. }
  destruct (node g (nr_node_id r)) as [n|] eqn:En; [|by apply Hskip].
  destruct (complete_running n _) as [m|] eqn:Em.
  2: { apply Hskip; [|done]. intros n' [= <-]. by eapply not_completing. }
  destruct Hl as [Hnd Hl]. pose proof Hl as Hl0. apply Forall_cons in Hl0 as [(x & Hx & Hrx & Hroot) _].
  unfold mbind at 1, eng_bind in H.
  destruct (complete_swift _ _ _ _ _ e) as [o1 e1] eqn:E1. rewrite <-Hrx in E1.
  apply (complete_swift_spec root) in E1; [|done..].
  destruct o1 as [[|c]|err| |]; simpl in E1; [by injection H as <- <-| |by injection H as <- <-..].
  destruct E1 as (-> & Hset & Hok1). rewrite orb_true_r in H.
  pose proof (settles_row_slots _ _ _ Hset) as Hslots.
  pose proof (settles_row_fewer root _ _ _ Hset Hx Hroot) as Hfew.
  assert (runs_in root (es_store e1)) as Hrun1 by by apply Hset.
  apply IH in H; [|done|done|].
  2: { eapply (still_running_settled root _ _ (row x)); [exact Hset|]. rewrite Hrx. by split. }
  destruct o as [[|c]|err| |]; try done. simpl in *.
  destruct H as ([Hok2 Hrun2 Hsl2 Hc2] & Hc & _). rewrite Hc by done. split_and!; [|done| |done].
  - split; [done|done|congruence|lia].
  - intros _ _. lia.
Qed.
(** ** Starting or finishing *)

Lemma planned_one context n (e : EngineState P) :
  exists run e', planned_row context None n e = (Done run, e') /\ es_store e' = es_store e /\
    outer_row (ec_root_scope_id context) [gn_id n] run.
Proof using.
  unfold planned_row, row_to_start, mbind, eng_bind, port. destruct (generate_node_run_id _) as [id p].
  eexists _, _. split; [reflexivity|]. split; [done|]. split; [done|by left|done].
Qed.

Lemma outer_row_mono root ids ids' run : (forall id, id ∈ ids -> id ∈ ids') ->
  outer_row root ids run -> outer_row root ids' run.
Proof using. intros Hin [? ? ?]. split; auto. Qed.

Lemma planned_rows context ready (e : EngineState P) :
  exists runs e', map_all (planned_row context None) ready e = (Done runs, e') /\
    es_store e' = es_store e /\ length runs = length ready /\
    Forall (outer_row (ec_root_scope_id context) (gn_id <$> ready)) runs.
Proof using.
  revert e. induction ready as [|n ready IH]; intros e; [by exists [], e|]. simpl.
  destruct (planned_one context n e) as (run & e1 & H1 & Hs1 & Hrun).
  destruct (IH e1) as (runs & e' & H & Hs & Hlen & Hall).
  exists (run :: runs), e'. unfold mbind, eng_bind. rewrite H1, H. split_and!; [done|congruence|simpl; by rewrite Hlen|].
  apply Forall_cons. split; [|eapply Forall_impl; [exact Hall|intros r]];
    apply outer_row_mono || (eapply outer_row_mono; [|exact Hrun]); set_solver.
Qed.

Lemma for_all_quiet {A} (f : A -> Eng P unit) l e :
  (forall x e, exists e', f x e = (Done tt, e') /\ es_store e' = es_store e) ->
  exists e', for_all f l e = (Done tt, e') /\ es_store e' = es_store e.
Proof using.
  intros Hf. revert e. induction l as [|x l IH]; intros e; [by exists e|]. simpl.
  destruct (Hf x e) as (e1 & H1 & Hs1). destruct (IH e1) as (e2 & H2 & Hs2). exists e2.
  unfold mbind, eng_bind. rewrite H1, H2. split; [done|congruence].
Qed.

Lemma dispatch_ready_quiet context pool p (e : EngineState P) :
  exists e', dispatch_ready context pool p e = (Done tt, e') /\ es_store e' = es_store e.
Proof using.
  unfold dispatch_ready. destruct (runtime _) as [[]|]; by eexists; split.
Qed.

(** What the end of a round does: the run is over, or nothing was done and something is in flight,
    or a wave of nodes was started. *)
Definition end_result (g : WorkflowGraph) (root : string) (e e' : EngineState P) (o : outcome bool) : Prop :=
  match o with
  | Done false => wr_status (st_run (es_store e')) <> RunRunning \/
      e' = e /\ exists context, find_execution_context e = Ok (Some context) /\
        let states := new_projection g (list_node_runs (es_store e))
                        (execution_state_from (wr_payload (ec_run context))).2 in
        ready_nodes g Outer states = [] /\ has_in_flight states = true
  | Done true => runs_in root (es_store e) ->
      runs_in root (es_store e') /\
      remaining root (gn_id <$> g_nodes g) (es_store e') < remaining root (gn_id <$> g_nodes g) (es_store e)
  | OutOfFuel => False
  | Raised _ | Panicked => True
  end.

Lemma start_or_finish_spec g root pool now (e : EngineState P) o e' :
  start_or_finish g pool now e = (o, e') -> end_result g root e e' o.
Proof using.
  intros H. unfold start_or_finish in H. unfold mbind at 1, eng_bind in H.
  destruct (execution_context e) as [[c|err| |] e0] eqn:E0; [|injection H as <- <-; done..|].
  2: { exfalso. unfold execution_context, mbind, eng_bind, asks, of_result, reads, raise in E0.
       by destruct (find_execution_context e) as [[]|]. }
  apply context_done in E0 as [-> Hc]. destruct (context_of e c Hc) as (Hdel & Hrun & Hroot & _).
  cbv zeta in H. unfold mbind at 1, eng_bind in H. unfold reads at 1, asks in H.
  destruct (bool_decide _) eqn:Er.
  - apply bool_decide_eq_true in Er. destruct (has_in_flight _) eqn:Ef.
    + injection H as <- <-. right. split; [done|]. by exists c.
    + unfold mbind at 1, eng_bind in H.
      destruct (commits _ e) as [[[]|err| |] e1] eqn:E1; [|injection H as <- <-; done..|].
      2: { by apply commits_no_fuel in E1. }
      apply commits_done in E1 as (s & E1 & ->). injection H as <- <-. left. simpl.
      by eapply finish_ends.
  - set (ready := ready_nodes g Outer _) in *. assert (Hin : forall n, n ∈ ready -> n ∈ g_nodes g).
    { intros n Hn. unfold ready, ready_nodes in Hn. by apply list_elem_of_filter in Hn as [_ Hn]. }
    destruct (planned_rows c ready e) as (runs & e1 & E1 & Hs1 & Hlen & Hruns).
    assert (0 < length ready) as Hpos.
    { destruct ready; [by rewrite bool_decide_eq_true_2 in Er|simpl; lia]. }
    unfold mbind at 1, eng_bind in H. rewrite E1 in H. unfold mbind at 1, eng_bind in H.
    destruct (commits _ e1) as [[[]|err| |] e2] eqn:E2; [|injection H as <- <-; done..|].
    2: { by apply commits_no_fuel in E2. }
    apply commits_done in E2 as (s & E2 & ->).
    destruct (for_all_quiet (dispatch_ready c pool) (zip ready runs) (with_event RunInvalidated (with_store s e1)))
      as (e3 & E3 & Hs3); [intros; apply dispatch_ready_quiet|].
    unfold mbind, eng_bind, publish, emit in H. cbn in H. rewrite E3 in H. injection H as <- <-.
    simpl in Hs3. intros Hroots. rewrite Hs3. rewrite Hs1 in E2.
    assert (Forall (outer_row root (gn_id <$> g_nodes g)) runs) as Hruns'.
    { eapply Forall_impl; [exact Hruns|]. intros r. rewrite Hroot, (ru_root _ _ Hroots).
      apply outer_row_mono. intros id (n & -> & Hn)%list_elem_of_fmap. by apply list_elem_of_fmap_2, Hin. }
    apply (start_ready_remaining root (gn_id <$> g_nodes g)) in E2 as [Hle Hk]; [|done].
    split; [by apply Hk|]. lia.
Qed.
(** ** Rounds *)

(** The graph text of the run is not the engine's to change. *)
Definition same_graph (e e' : EngineState P) : Prop := es_graph e' = es_graph e.
#[local] Instance same_graph_rel : EngineRel same_graph.
Proof.
  unfold same_graph. split; [split|..]; try done. intros e1 e2 e3 H1 H2. by rewrite H2, H1.
Qed.

Context {laws : DocumentLaws} {read_back : JsonReadBack}.

Lemma round_keeps_ok now e o e' : store_ok (es_store e) -> schedule_round now e = (o, e') ->
  store_ok (es_store e') /\ es_graph e' = es_graph e.
Proof using laws read_back.
  intros Hok H. split.
  - destruct (effect_schedule_round dispatches_fresh now e o e' H Hok) as [Hst _]. by eapply stmts_ok.
  - by apply (effect_schedule_round same_graph) in H.
Qed.

(** The answer of a round, by what it did. *)
Definition round_result (e e' : EngineState P) (o : outcome bool) : Prop :=
  match o with
  | Done false => wr_status (st_run (es_store e')) <> RunRunning \/ quiescent e'
  | _ => True
  end.

Lemma schedule_round_spec now e o e' : store_ok (es_store e) -> schedule_round now e = (o, e') ->
  round_result e e' o.
Proof using laws read_back.
  intros Hok H. destruct o as [[]|err| |]; try done. unfold schedule_round in H.
  apply eng_bind_done in H as (c & e1 & [-> Hc]%context_done & H).
  destruct (context_of e c Hc) as (Hdel & Hrun & Hroot & Hg).
  destruct (bool_decide _) eqn:Es; cbn [negb] in H.
  2: { injection H as <-. left. rewrite <-Hrun. by apply bool_decide_eq_false in Es. }
  apply bool_decide_eq_true in Es. apply eng_bind_done in H as (g & e1 & Eg & H).
  pose proof (parse_graph_returns c e g e1 Eg) as Hgok.
  unfold parse_graph, of_result in Eg. destruct (parse _) as [g'|] eqn:Ep; [|done]. injection Eg as -> <-.
  apply eng_bind_done in H as (rows & e1 & Er & H). injection Er as <- <-. cbv zeta in H.
  apply eng_bind_done in H as (pass & e1 & Epass & H). rewrite Hroot in Epass.
  apply (swift_pass_spec _ _ _ _ (st_root (es_store e))) in Epass; [|done|split; congruence|by apply running_rows_still].
  destruct pass as [|[]]; [injection H as <-; by left|done|].
  destruct Epass as (_ & _ & _ & Hsame). destruct (Hsame eq_refl) as [-> _].
  apply eng_bind_done in H as (adv & e2 & Ea & H). destruct adv; [done|].
  assert (es_graph e2 = es_graph e) as Hg2.
  { pose proof (effect_advance_composites same_graph g (list_node_runs_in_scope (es_store e) (ec_root_scope_id c)) c now) as Heff.
    apply Heff in Ea; [done|]. by apply co_graph. }
  apply (start_or_finish_spec g (st_root (es_store e2))) in H as [H|[-> (c2 & Hc2 & Hready & Hfl)]]; [by left|right].
  exists c2, g. split_and!; [done| |done..]. destruct (context_of e2 c2 Hc2) as (_ & _ & _ & Hg').
  rewrite <-Ep. f_equal. congruence.
Qed.
(** ** Termination *)

(** No Iteration and no Loop: the nodes complete in the scheduler or by an executor. *)
Definition flat (g : WorkflowGraph) : Prop :=
  forall n, n ∈ g_nodes g -> gn_type n <> Iteration /\ gn_type n <> Loop.

Lemma flat_composites g rows context now (e : EngineState P) : graph_ok g -> flat g ->
  advance_composites g rows context now e = (Done false, e).
Proof using.
  intros Hg Hflat. unfold advance_composites. induction (running_rows rows) as [|owner l IH]; [done|].
  simpl. unfold mbind, eng_bind.
  assert (match node g (nr_node_id owner) with
    | Some n => match runtime (gn_type n) with
        | Some ScopedLoop => advance_loop g context now owner
        | Some CompositeRuntime => advance_composite g rows context now owner n
        | _ => mret false
        end
    | None => mret false
    end e = (Done false, e)) as ->; [|exact IH].
  destruct (node g _) as [n|] eqn:En; [|done]. apply node_Some in En as [Hn _]; [|done].
  apply Hflat in Hn as [Hi Hl]. by destruct (gn_type n).
Qed.

(** A round over a flat graph: it never runs out of fuel, and when the loop goes on, fewer steps
    remain. *)
Definition flat_result (g : WorkflowGraph) (e e' : EngineState P) (o : outcome bool) : Prop :=
  let root := st_root (es_store e) in
  match o with
  | OutOfFuel => False
  | Done true => st_root (es_store e') = root /\
      remaining root (gn_id <$> g_nodes g) (es_store e') < remaining root (gn_id <$> g_nodes g) (es_store e)
  | _ => True
  end.

Lemma flat_round g text now e o e' : store_ok (es_store e) -> es_graph e = Some text ->
  parse text = Ok g -> flat g -> schedule_round now e = (o, e') -> flat_result g e e' o.
Proof using laws read_back.
  intros Hok Htext Hparse Hflat H. unfold schedule_round in H. unfold mbind at 1, eng_bind in H.
  destruct (execution_context e) as [[c|err| |] e0] eqn:E0; [|injection H as <- <-; done..|].
  2: { exfalso. unfold execution_context, mbind, eng_bind, asks, of_result, reads, raise in E0.
       by destruct (find_execution_context e) as [[]|]. }
  apply context_done in E0 as [-> Hc]. destruct (context_of e c Hc) as (Hdel & Hrun & Hroot & Hg).
  rewrite Htext in Hg. injection Hg as ->.
  destruct (bool_decide _) eqn:Es; cbn [negb] in H; [|by injection H as <- <-].
  apply bool_decide_eq_true in Es. unfold mbind at 1, eng_bind in H. unfold parse_graph in H.
  rewrite Hparse in H. simpl in H. unfold mbind at 1, eng_bind in H. unfold reads at 1, asks in H. cbv zeta in H.
  assert (runs_in (st_root (es_store e)) (es_store e)) as Hruns by (split; congruence).
  unfold mbind at 1, eng_bind in H. rewrite Hroot in H.
  destruct (swift_pass _ _ _ _ _ _ _ e) as [op e1] eqn:Epass.
  apply (swift_pass_spec _ _ _ _ (st_root (es_store e))) in Epass; [|done|done|by apply running_rows_still].
  destruct op as [[|[]]|err| |]; simpl in Epass; try (by injection H as <- <-); try done.
  - injection H as <- <-. destruct Epass as ([_ Hr Hs _] & _ & Hlt & _). specialize (Hlt eq_refl eq_refl).
    split; [apply Hr|]. unfold remaining. rewrite (free_count_same _ _ _ _ Hs). lia.
  - destruct Epass as (_ & _ & _ & Hsame). destruct (Hsame eq_refl) as [-> _].
    unfold mbind at 1, eng_bind in H.
    rewrite flat_composites in H; [|by apply co_graph, (parse_well_formed (ec_graph_json c))|done].
    apply (start_or_finish_spec g (st_root (es_store e))) in H. destruct o as [[]|err| |]; try done.
    destruct (H Hruns) as [[_ _ Hr] Hlt]. by split.
Qed.

Lemma flat_loop g text now fuel e o e' : store_ok (es_store e) -> es_graph e = Some text ->
  parse text = Ok g -> flat g ->
  remaining (st_root (es_store e)) (gn_id <$> g_nodes g) (es_store e) < fuel ->
  schedule_loop fuel now e = (o, e') -> o <> OutOfFuel.
Proof using laws read_back.
  revert e. induction fuel as [|fuel IH]; intros e Hok Htext Hparse Hflat Hlt H; [lia|].
  simpl in H. unfold mbind, eng_bind in H. destruct (schedule_round now e) as [o1 e1] eqn:E1.
  destruct (round_keeps_ok _ _ _ _ Hok E1) as [Hok1 Hg1].
  apply (flat_round g text) in E1; [|done..].
  destruct o1 as [[]|err| |]; [|by injection H as <- _..|done].
  destruct E1 as [Hr Hlt']. eapply IH, H; [done|congruence|done|done|]. rewrite Hr. lia.
Qed.

(** C7: the scheduling loop ends at rest.  Whatever the graph, when [run_schedule] returns, the
    run is no longer running, or nothing of the outer graph can start and some node is in flight:
    the run never stands still while a node could start, nor runs on with nothing left to do. *)
Theorem schedule_rests fuel now e e' : store_ok (es_store e) ->
  schedule_loop fuel now e = (Done tt, e') ->
  wr_status (st_run (es_store e')) <> RunRunning \/ quiescent e'.
Proof.
  revert e. induction fuel as [|fuel IH]; intros e Hok H; [done|]. simpl in H.
  apply eng_bind_done in H as (again & e1 & E1 & H).
  destruct again; [eapply IH, H; by eapply round_keeps_ok|].
  injection H as <-. by apply (schedule_round_spec now e (Done false) e1).
Qed.

(** C6: [run_schedule] terminates.  For a graph without composite containers, a number of rounds
    bounded by twice the nodes still to start plus the rows that run is enough: every round that
    goes on settles a running row or starts a node in a free slot. *)
Theorem run_schedule_terminates fuel g text e o e' : store_ok (es_store e) ->
  es_graph e = Some text -> parse text = Ok g -> flat g ->
  2 * length (g_nodes g) + running_count (st_root (es_store e)) (es_store e) < fuel ->
  run_schedule fuel e = (o, e') -> o <> OutOfFuel.
Proof.
  intros Hok Htext Hparse Hflat Hlt H. unfold run_schedule, mbind, eng_bind, port in H.
  destruct (now_timestamp_millis (es_ports e)) as [now p].
  eapply (flat_loop g text now fuel (with_ports p e)); [done|done|done|done| |exact H].
  simpl. unfold remaining, free_count. rewrite <-(length_fmap gn_id (g_nodes g)) in Hlt.
  pose proof (length_filter (free_slot (st_root (es_store e)) (es_store e)) (gn_id <$> g_nodes g)). lia.
Qed.
End progress.

(** ** A concrete schedule *)

Section sample.
#[local] Existing Instances LoopGraph.plain_debug LoopGraph.no_policy LoopGraph.insertion_order.
#[local] Existing Instances kahn_petgraph echo_loops StoreCalls.no_sql counting_ports plain_decoding.

(** The start node's row is running; nothing else has happened. *)
Definition starting : StoreCall :=
  CallStart {| ts_id := "first"; ts_scope_id := "root:run"; ts_node_id := "s"; ts_node_type := "start";
               ts_input := None; ts_iteration := None |} 5.
Definition starting_engine : EngineState nat :=
  with_store (serve (es_store (fresh_engine agent_document)) starting) (fresh_engine agent_document).

Lemma starting_ok : store_ok (es_store starting_engine).
Proof. eapply stmts_ok; [by apply serve_stmts; [apply fresh_engine_ok|]|apply fresh_engine_ok]. Qed.

Lemma schedule_rests_witness :
  exists e', schedule_loop 4 7 starting_engine = (Done tt, e') /\
    statuses e' = [("first", "s", Succeeded); ("attempt-0", "work", Running)] /\
    (wr_status (st_run (es_store e')) <> RunRunning \/ quiescent e').
Proof.
  destruct (schedule_loop 4 7 starting_engine) as [o e'] eqn:E.
  assert (fst (schedule_loop 4 7 starting_engine) = Done tt) as Ho by (vm_compute; reflexivity).
  assert (statuses (snd (schedule_loop 4 7 starting_engine))
    = [("first", "s", Succeeded); ("attempt-0", "work", Running)]) as Hs by (vm_compute; reflexivity).
  rewrite E in Ho, Hs. simpl in Ho, Hs. subst o. exists e'. split; [reflexivity|]. split; [exact Hs|].
  exact (schedule_rests 4 7 starting_engine e' starting_ok E).
Defined.

Lemma run_schedule_terminates_witness :
  exists g, parse (json_to_string agent_document) = Ok g /\ length (g_nodes g) = 2 /\
    fst (run_schedule 6 starting_engine) <> OutOfFuel.
Proof.
  destruct (parse (json_to_string agent_document)) as [g|] eqn:E.
  2: { vm_compute in E. discriminate E. }
  destruct (run_schedule 6 starting_engine) as [o e'] eqn:Er.
  exists g. split; [reflexivity|].
  assert (length (g_nodes g) = 2 /\ flat g) as [Hlen Hflat].
  { vm_compute in E. injection E as <-. split; [reflexivity|].
    intros n Hn. apply list_elem_of_In in Hn as [<-|[<-|[]]]; split; discriminate. }
  split; [exact Hlen|].
  apply (run_schedule_terminates 6 g (json_to_string agent_document) starting_engine o e');
    [apply starting_ok|reflexivity|exact E|exact Hflat| |exact Er].
  rewrite Hlen. vm_compute. lia.
Defined.
End sample.
