(* ===== verification/EngineCancel.v ===== *)
(** * A cancelled run stays stopped

    Cancelling settles every attempt and every round of the run.  From then on no answer of an
    executor, no timer, no retry and no scheduling pass starts or dispatches anything, until the
    run is restarted or resumed. *)

From stdpp Require Import relations.
From S2P Require Import Prelude RustStr Order Json NodeTypes VariablePool Retry GraphBase.
From S2P Require Import NodeConfig Iteration GraphBase Graph Projection.
From S2P Require Import Declarations GraphParse NodeRuntime RunPayload Resume Executable Store.
From S2P Require Import StorePayload StoreNodes StoreRun StoreLaws.
From S2P Require Import StoreLaws StoreOps StoreCalls StoreSteps JsonCodec LoopRound LoopGraph.
From S2P Require Import Document Engine CompositeScheduler Scheduler EngineEffects.
From S2P Require Import EngineEffects EngineHistory EngineProgress.
Local Open Scope ora_scope.

(** The run was cancelled and no attempt of it is pending or running. *)
Record halted (s : RunStore) : Prop := {
  ha_status : wr_status (st_run s) = RunCancelled;
  ha_rows r : r ∈ st_rows s -> live r = true -> active_row r = false;
}.

Section stores.
Context {debug : DebugText} {json : JsonText} {sqlite : SqliteJson}.

Lemma cancel_halts now s s' : cancel_run now s = Ok (RunWasCancelled, s') -> halted s'.
Proof.
  unfold cancel_run. intros H. apply tx_bind_Ok in H as (run & s1 & [-> ->]%gets_Ok & H). cbv beta in H.
  destruct (wr_deleted (st_run s)) eqn:Hd; [by inv_tx|].
  destruct (negb _); [by inv_tx|]. unfold settle_retry_waits, update_run, update_rounds in H. inv_tx.
  simpl. rewrite Hd. simpl. split; [done|]. intros r (x & -> & Hx)%list_elem_of_fmap Hl.
  destruct (active_row x && live x) eqn:E; [done|]. apply andb_false_iff in E as [E|E]; [done|].
  by rewrite E in Hl.
Qed.

Lemma halted_over s id : halted s -> attempt_over s id.
Proof. intros [_ Hr] r Hin Hid. apply Hr; [done|]. unfold live_id in Hid. by destruct (live r); rewrite ?andb_false_r in Hid. Qed.

(** The answer and the store of a callback on a halted run. *)
Lemma halted_complete s id out str reason changes patch now a s' : halted s ->
  StoreNodes.complete_node id out str reason changes patch now s = Ok (a, s') -> s' = s /\ a <> Advanced.
Proof.
  intros Hh H. unfold StoreNodes.complete_node in H.
  apply tx_bind_Ok in H as (s0 & s1 & [-> ->]%gets_Ok & H).
  apply tx_bind_Ok in H as (run & s1 & [-> ->]%gets_Ok & H).
  apply tx_bind_Ok in H as (found & s1 & [-> ->]%gets_Ok & H). cbv beta in *.
  destruct (wr_deleted _); [by inv_tx|]. destruct (find_row s id) as [r|] eqn:Er; [|by inv_tx].
  cbn [mbind option_bind] in H. destruct (find_scope s _); [|by inv_tx].
  pose proof (attempt_over_find _ _ _ (halted_over s id Hh) Er) as Ha. unfold active_row in Ha.
  rewrite Ha in H. simpl in H. by inv_tx.
Qed.

Lemma halted_fail s id failure propagation now a s' : halted s ->
  StoreNodes.fail_node id failure propagation now s = Ok (a, s') -> s' = s /\ a <> Advanced.
Proof.
  intros Hh H. unfold StoreNodes.fail_node in H. apply tx_bind_Ok in H as (s0 & s1 & [-> ->]%gets_Ok & H).
  destruct (find_row s id) as [r|] eqn:Er; [|by inv_tx]. cbn [mbind option_bind] in H.
  destruct (find_scope s _); [|by inv_tx].
  pose proof (attempt_over_find _ _ _ (halted_over s id Hh) Er) as Ha.
  rewrite (inactive_not Running r) in H by done. simpl in H. by inv_tx.
Qed.

Lemma halted_begin s id now a s' : halted s -> begin_node_retry id now s = Ok (a, s') ->
  s' = s /\ (a = NotWaiting \/ a = BeginNotFound).
Proof.
  intros Hh H. unfold begin_node_retry in H. apply tx_bind_Ok in H as (run & s1 & [-> ->]%gets_Ok & H).
  apply tx_bind_Ok in H as (found & s1 & [-> ->]%gets_Ok & H). cbv beta in *.
  destruct (wr_deleted _); [inv_tx; auto|]. destruct (find_row s id) as [r|] eqn:Er; [|inv_tx; auto].
  pose proof (attempt_over_find _ _ _ (halted_over s id Hh) Er) as Ha.
  destruct (_ ≫= as_object) as [object|]; [|inv_tx; auto].
  destruct (_ ≫= retry_wait_from_value) as [wait|]; [|inv_tx; auto].
  cbv zeta in H. rewrite (inactive_not Running r) in H by done. simpl in H. inv_tx; auto.
Qed.

Lemma halted_advance s scope advance now a s' : halted s ->
  advance_loop_round scope advance now s = Ok (a, s') -> s' = s.
Proof.
  intros Hh H. unfold advance_loop_round in H. apply tx_bind_Ok in H as (run & s1 & [-> ->]%gets_Ok & H).
  apply tx_bind_Ok in H as (s0 & s1 & [-> ->]%gets_Ok & H). cbv beta in *.
  destruct (wr_deleted _); [by inv_tx|]. destruct (find_round s scope) as [c|]; [|by inv_tx].
  cbn [mbind option_bind] in H. destruct (find_row s _); [|by inv_tx].
  rewrite (ha_status s Hh) in H. rewrite (bool_decide_eq_false_2 (RunCancelled = RunRunning)) in H by done.
  rewrite andb_false_r in H. simpl in H. by inv_tx.
Qed.

Lemma halted_start s row now a s' : halted s -> start_run row now s = Ok (a, s') -> s' = s /\ a <> Started.
Proof.
  intros Hh H. unfold start_run in H. apply tx_bind_Ok in H as (run & s1 & [-> ->]%gets_Ok & H). cbv beta in H.
  destruct (wr_deleted _); [by inv_tx|]. rewrite (ha_status s Hh) in H. simpl in H. by inv_tx.
Qed.

Lemma halted_cancel s now a s' : halted s -> cancel_run now s = Ok (a, s') -> s' = s.
Proof.
  intros Hh H. unfold cancel_run in H. apply tx_bind_Ok in H as (run & s1 & [-> ->]%gets_Ok & H). cbv beta in H.
  destruct (wr_deleted _); [by inv_tx|]. rewrite (ha_status s Hh) in H. simpl in H. by inv_tx.
Qed.

Lemma halted_update_input s input variables a s' : halted s ->
  StoreRun.update_run_input input variables s = Ok (a, s') -> halted s'.
Proof.
  intros Hh H. unfold StoreRun.update_run_input, write_input, update_run in H.
  apply tx_bind_Ok in H as (run & s1 & [-> ->]%gets_Ok & H). cbv beta in H.
  destruct (wr_deleted (st_run s)) eqn:Hd; [by inv_tx|].
  destruct (negb _); [by inv_tx|]. destruct Hh as [Hs Hr].
  destruct (wr_payload _) as [|text|p]; [inv_tx; rewrite Hd; by split|by inv_tx|].
  destruct (update_task_input p variables) as [p'|[]]; [|by inv_tx..].
  inv_tx. rewrite Hd. by split.
Qed.

Lemma halted_checkpoint s id snap checkpoint error a s' : halted s ->
  StoreRun.record_node_checkpoint id snap checkpoint error s = Ok (a, s') -> halted s'.
Proof.
  intros [Hs Hr] H. unfold StoreRun.record_node_checkpoint, merge_into_row in H.
  apply tx_bind_Ok in H as (found & s1 & [-> ->]%gets_Ok & H). cbv beta in H.
  destruct (find_row s id) as [r|]; [|by inv_tx]. cbv zeta in H. inv_tx. split; [done|]. simpl.
  intros x (y & -> & Hy)%list_elem_of_fmap. destruct (live_id id y); simpl; apply (Hr y Hy).
Qed.
End stores.

(** ** Computations on a halted run *)

Section stays.
Context {P : Type} {ports : EnginePorts P}.
Context {debug : DebugText} {json : JsonText} {sqlite : SqliteJson} {decoding : DecodeMessage}.
Context {policy : PolicyDecode} {order : HashOrder} {pet : Petgraph} {envelope : EnvelopeDecode}
  {loops : LoopDecode}.

(** Nothing but quiet events were added. *)
Definition adds_quiet (e e' : EngineState P) : Prop :=
  exists events, es_events e' = es_events e ++ events /\ Forall quiet events.

(** The computation keeps a halted run halted, dispatches nothing, and its result satisfies [Q]. *)
Definition stays {A} (Q : A -> Prop) (m : Eng P A) : Prop :=
  forall e o e', halted (es_store e) -> m e = (o, e') ->
    halted (es_store e') /\ adds_quiet e e' /\ forall x, o = Done x -> Q x.

Lemma adds_quiet_refl e : adds_quiet e e.
Proof using. exists []. split; [by rewrite app_nil_r|constructor]. Qed.

Lemma adds_quiet_trans e1 e2 e3 : adds_quiet e1 e2 -> adds_quiet e2 e3 -> adds_quiet e1 e3.
Proof using.
  intros (l1 & E1 & H1) (l2 & E2 & H2). exists (l1 ++ l2). split; [by rewrite E2, E1, app_assoc|].
  by apply Forall_app.
Qed.

Lemma stays_same {A} (Q : A -> Prop) (m : Eng P A) :
  (forall e, (m e).2 = e) -> (forall e x, halted (es_store e) -> (m e).1 = Done x -> Q x) -> stays Q m.
Proof using.
  intros Hm HQ e o e' Hh H. specialize (Hm e). rewrite H in Hm. simpl in Hm. subst e'.
  split_and!; [done|apply adds_quiet_refl|]. intros x ->. apply (HQ e); [done|]. by rewrite H.
Qed.

Lemma stays_ret {A} (Q : A -> Prop) (x : A) : Q x -> stays Q (mret x).
Proof using. intros HQ. apply stays_same; [done|]. by intros e y _ [= <-]. Qed.
Lemma stays_raise {A} (Q : A -> Prop) err : stays Q (raise err : Eng P A).
Proof using. by apply stays_same. Qed.
Lemma stays_fuel {A} (Q : A -> Prop) : stays Q (out_of_fuel : Eng P A).
Proof using. by apply stays_same. Qed.
Lemma stays_of_result {E A} (f : E -> EngineError) (m : result E A) : stays (fun _ => True) (of_result f m).
Proof using. destruct m; [by apply stays_ret|apply stays_raise]. Qed.
Lemma stays_asks {A} (Q : A -> Prop) (f : EngineState P -> A) :
  (forall e, halted (es_store e) -> Q (f e)) -> stays Q (asks f).
Proof using. intros HQ. apply stays_same; [done|]. intros e x Hh [= <-]. by apply HQ. Qed.
Lemma stays_port {A} (f : P -> A * P) : stays (fun _ => True) (port f).
Proof using.
  intros e o e' Hh H. unfold port in H. destruct (f _). injection H as <- <-.
  split_and!; [done|apply (adds_quiet_refl e)|done].
Qed.
Lemma stays_emit event : quiet event -> stays (fun _ => True) (emit event : Eng P unit).
Proof using.
  intros Hq e o e' Hh H. injection H as <- <-. split_and!; [done| |done]. exists [event].
  split; [done|by constructor].
Qed.

Lemma stays_bind {A B} (Q : A -> Prop) (S : B -> Prop) (m : Eng P A) (k : A -> Eng P B) :
  stays Q m -> (forall x, Q x -> stays S (k x)) -> stays S (m ≫= k).
Proof using.
  intros Hm Hk e o e' Hh H. unfold mbind, eng_bind in H. destruct (m e) as [o1 e1] eqn:E.
  apply Hm in E as (Hh1 & H1 & HQ); [|done]. destruct o1 as [x|err| |]; [|by injection H as <- <-..].
  apply (Hk x) in H as (Hh2 & H2 & HS); [|by apply HQ|done].
  split_and!; [done|by eapply adds_quiet_trans|done].
Qed.

Lemma stays_weaken {A} (Q S : A -> Prop) (m : Eng P A) : (forall x, Q x -> S x) -> stays Q m -> stays S m.
Proof using.
  intros HQS Hm e o e' Hh H. apply Hm in H as (? & ? & HQ); [|done]. split_and!; auto.
Qed.

Lemma stays_commits {A} (Q : A -> Prop) (m : Tx A) :
  (forall s x s', halted s -> m s = Ok (x, s') -> halted s' /\ Q x) -> stays Q (commits m : Eng P A).
Proof using.
  intros Hm e o e' Hh H. unfold commits, commit in H.
  destruct (m (es_store e)) as [[x s]|err] eqn:E; injection H as <- <-.
  - apply Hm in E as [Hs HQ]; [|done]. split_and!; [done|apply (adds_quiet_refl e)|by intros y [= <-]].
  - split_and!; [by destruct e|apply (adds_quiet_refl e)|done].
Qed.

Lemma stays_attempt {A} (Q : A -> Prop) (m : Eng P A) : stays Q m ->
  stays (fun r => forall x, r = Ok x -> Q x) (attempt m).
Proof using.
  intros Hm e o e' Hh H. unfold attempt in H. destruct (m e) as [o1 e1] eqn:E.
  apply Hm in E as (Hh1 & H1 & HQ); [|done].
  destruct o1 as [x|err| |]; injection H as <- <-; split_and!; try done.
  - intros r [= <-] y [= <-]. by apply HQ.
  - by intros r [= <-] y Hy.
Qed.

Definition anything {A} (_ : A) : Prop := True.
Ltac stay Q := apply (stays_bind Q).

Lemma stays_publish : stays anything (publish : Eng P unit).
Proof using. by apply stays_emit. Qed.
Lemma stays_publish_if b : stays anything (publish_if b : Eng P unit).
Proof using. destruct b; [apply stays_publish|by apply stays_ret]. Qed.

Lemma stays_context : stays (fun c => wr_status (ec_run c) = RunCancelled) (execution_context : Eng P _).
Proof using.
  intros e o e' Hh H. assert (e' = e) as ->.
  { unfold execution_context, mbind, eng_bind, asks, of_result, reads, raise in H.
    destruct (find_execution_context e) as [[]|]; injection H as _ <-; done. }
  split_and!; [done|apply adds_quiet_refl|]. intros c ->. apply context_done in H as [_ Hc].
  apply context_of in Hc as (_ & -> & _). apply Hh.
Qed.

Lemma stays_schedule fuel : stays anything (run_schedule fuel : Eng P unit).
Proof using.
  unfold run_schedule. stay (@anything Z); [apply stays_port|]. intros now _.
  destruct fuel as [|fuel]; simpl; [apply stays_fuel|].
  stay (fun again : bool => again = false); [|intros [] ?; [done|by apply stays_ret]].
  unfold schedule_round. stay (fun c => wr_status (ec_run c) = RunCancelled); [apply stays_context|].
  intros c Hc. rewrite Hc. simpl. by apply stays_ret.
Qed.

Lemma stays_start fuel : stays anything (start fuel : Eng P _).
Proof using.
  unfold start. stay (fun c => wr_status (ec_run c) = RunCancelled); [apply stays_context|]. intros c _.
  stay (@anything WorkflowGraph); [apply stays_of_result|]. intros g _.
  stay (@anything WorkflowGraphNode); [apply stays_of_result|]. intros n _.
  stay (@anything NodeRunToStart).
  { unfold planned_row, row_to_start. stay (@anything string); [apply stays_port|]. intros. by apply stays_ret. }
  intros row _. stay (@anything Z); [apply stays_port|]. intros now _.
  stay (fun r => r <> Started).
  { apply stays_commits. intros s x s' Hh H. by apply halted_start in H as [-> Hx]. }
  intros [] Hr; [done|by apply stays_ret|].
  stay (@anything string); [by apply stays_asks|]. intros. apply stays_raise.
Qed.

Lemma stays_cancel : stays anything (cancel : Eng P _).
Proof using.
  unfold cancel. stay (@anything Z); [apply stays_port|]. intros now _.
  stay (@anything CancelWorkflowRunResult).
  { apply stays_commits. intros s x s' Hh H. by apply halted_cancel in H as ->. }
  intros r _. stay (@anything unit); [apply stays_publish_if|]. intros. by apply stays_ret.
Qed.

Lemma stays_complete fuel id out str reason changes patch :
  stays anything (complete_node_with_payload_patch fuel id out str reason changes patch : Eng P _).
Proof using.
  unfold complete_node_with_payload_patch. stay (@anything Z); [apply stays_port|]. intros now _.
  stay (fun r => r <> Advanced).
  { apply stays_commits. intros s x s' Hh H. by apply halted_complete in H as [-> Hx]. }
  intros [] Hr; [done|by apply stays_ret..].
Qed.

Lemma stays_update input variables : stays anything (Scheduler.update_run_input input variables : Eng P _).
Proof using.
  unfold Scheduler.update_run_input. stay (@anything Z); [apply stays_port|]. intros now _.
  apply stays_commits. intros s x s' Hh H. split; [by eapply halted_update_input|done].
Qed.

Lemma stays_checkpoint id snap checkpoint error :
  stays anything (Scheduler.record_node_checkpoint id snap checkpoint error : Eng P _).
Proof using.
  unfold Scheduler.record_node_checkpoint. stay (@anything Z); [apply stays_port|]. intros now _.
  apply stays_commits. intros s x s' Hh H. split; [by eapply halted_checkpoint|done].
Qed.

Lemma stays_exit fuel parent scope r : stays anything (finish_loop_exit fuel parent scope r : Eng P _).
Proof using.
  unfold finish_loop_exit. stay (@anything unit).
  2: { intros _ _. stay (@anything unit); [apply stays_publish|]. intros. apply stays_schedule. }
  unfold settle_loop_exit. stay (@anything (option RoundScope)).
  { unfold find_active_loop_round. stay (@anything (option RoundScope)); [by apply stays_asks|].
    intros [c|] _; [|by apply stays_ret]. destruct (sc_state c); [apply stays_raise|by apply stays_ret..]. }
  intros [c|] _; [|by apply stays_ret]. destruct (negb _); [by apply stays_ret|].
  destruct (sc_state c) as [|text|st]; [apply stays_raise..|].
  destruct (round_exit st) as [exit|]; [|by apply stays_ret].
  stay (@anything Z); [apply stays_port|]. intros now _.
  stay (@anything AdvanceWorkflowRunResult); [|intros; by apply stays_ret].
  apply stays_commits. intros s x s' Hh H. by apply halted_advance in H as ->.
Qed.

Lemma stays_fail fuel id failure : stays anything (Scheduler.fail_node fuel id failure : Eng P _).
Proof using.
  unfold Scheduler.fail_node. stay (fun found => forall r, found = Some r -> active_row r = false).
  { apply stays_asks. intros e Hh r Hr. by eapply attempt_over_find, Hr; apply halted_over. }
  intros [r|] Hr; [|by apply stays_ret]. specialize (Hr r eq_refl). cbv zeta.
  stay (@anything Z); [apply stays_port|]. intros now _.
  stay (fun consumed : bool => consumed = false).
  { unfold schedule_retry. stay (fun r : result EngineError bool => forall x, r = Ok x -> x = false).
    - apply stays_attempt. unfold try_schedule_retry, running.
      pose proof (inactive_not Running r eq_refl Hr) as Hn. unfold status_is in Hn. rewrite Hn.
      by apply stays_ret.
    - intros [x|err] Hx; apply stays_ret; [by apply Hx|done]. }
  intros consumed ->. stay (@anything FailurePropagation).
  { unfold failure_propagation. destruct (nr_iteration _); [|by apply stays_ret].
    stay (fun c => wr_status (ec_run c) = RunCancelled); [apply stays_context|]. intros c _.
    stay (@anything WorkflowGraph); [apply stays_of_result|]. intros. by apply stays_ret. }
  intros propagation _. stay (fun r => r <> Advanced).
  { apply stays_commits. intros s x s' Hh H. by apply halted_fail in H as [-> Hx]. }
  intros [] Ha; [done|by apply stays_ret..].
Qed.

Lemma stays_wake fuel id : stays anything (wake_retry fuel id : Eng P _).
Proof using.
  unfold wake_retry. stay (@anything Z); [apply stays_port|]. intros now _.
  stay (fun r => r = NotWaiting \/ r = BeginNotFound).
  { apply stays_commits. intros s x s' Hh H. by apply halted_begin in H as [-> Hx]. }
  intros r [-> | ->]; by apply stays_ret.
Qed.
(** The commands a stopped run may still receive: everything but a restart, a resume from the
    failure, and the calls of other parts of the backend. *)
Definition while_stopped (c : EngineCommand) : bool :=
  match c with RestartRun | ResumeFromFailure | Outside _ => false | _ => true end.

Lemma stopped_command fuel c (e : EngineState P) : halted (es_store e) -> while_stopped c = true ->
  halted (es_store (run_command fuel c e)) /\ adds_quiet e (run_command fuel c e).
Proof using.
  intros Hh Hc.
  assert (Hafter : forall A (m : Eng P A), stays anything m ->
    halted (es_store (after m e)) /\ adds_quiet e (after m e)).
  { intros A m Hm. unfold after. destruct (m e) as [o e'] eqn:E. by apply Hm in E as (? & ? & _). }
  destruct c; try done; simpl; try apply Hafter.
  - apply stays_start.
  - apply stays_schedule.
  - apply stays_cancel.
  - apply stays_update.
  - apply stays_complete.
  - apply stays_checkpoint.
  - apply stays_exit.
  - apply stays_fail.
  - apply stays_wake.
  - split; [done|exact (adds_quiet_refl e)].
Qed.

Lemma quiet_dispatches events : Forall quiet events -> dispatched_ids events = [].
Proof using. induction 1 as [|[] l Hx _ IH]; [done|by destruct Hx|exact IH..]. Qed.

(** C9: cancelling is final.  Once [cancel] has cancelled the run, no attempt of it is pending or
    running, and no answer of an executor, failure report, retry timer, cleanup result, start or
    scheduling pass that comes later changes that or dispatches a node: the run stays cancelled
    until it is restarted or resumed. *)
Theorem cancel_stops_run fuel commands e e1 :
  cancel e = (Done RunWasCancelled, e1) -> Forall (fun c => while_stopped c = true) commands ->
  let e' := run_commands fuel commands e1 in
  wr_status (st_run (es_store e')) = RunCancelled /\
  (forall r, r ∈ st_rows (es_store e') -> live r = true -> active_row r = false) /\
  dispatched_ids (es_events e') = dispatched_ids (es_events e).
Proof.
  intros H Hall. unfold cancel in H. apply eng_bind_done in H as (now & e0 & E0 & H).
  apply eng_bind_done in H as (r & e2 & E2 & H). apply eng_bind_done in H as ([] & e3 & E3 & H).
  injection H as -> <-. apply commits_done in E2 as (s & E2 & ->). apply cancel_halts in E2.
  unfold port in E0. destruct (now_timestamp_millis _). injection E0 as _ <-. injection E3 as <-.
  set (e1 := with_event RunInvalidated _). intros e'.
  assert (halted (es_store e') /\ adds_quiet e1 e') as [[Hs Hr] (events & He & Hq)].
  { assert (halted (es_store e1)) as Hh by exact E2. subst e'. clearbody e1. clear E2.
    revert e1 Hh. induction Hall as [|c l Hc _ IH]; intros e1 Hh; [split; [done|apply adds_quiet_refl]|].
    destruct (stopped_command fuel c e1 Hh Hc) as [Hh2 H2]. destruct (IH _ Hh2) as [Hh3 H3].
    split; [exact Hh3|by eapply adds_quiet_trans]. }
  split_and!; [done|done|]. rewrite He, dispatched_ids_app, (quiet_dispatches events), app_nil_r by done.
  simpl. rewrite dispatched_ids_app. simpl. by rewrite app_nil_r.
Qed.
End stays.

Section sample.
#[local] Existing Instances LoopGraph.plain_debug LoopGraph.no_policy LoopGraph.insertion_order.
#[local] Existing Instances kahn_petgraph echo_loops StoreCalls.no_sql counting_ports plain_decoding.

Lemma cancel_stops_run_witness :
  let e := run_commands 9 [StartRun] (fresh_engine agent_document) in
  let late := [CompleteNode "attempt-3" (Some "late") None None [] None; ResumeRun; WakeRetry "attempt-3"] in
  (exists e1, cancel e = (Done RunWasCancelled, e1) /\
    let e' := run_commands 9 late e1 in
    statuses e' = [("attempt-0", "s", Succeeded); ("attempt-3", "work", Cancelled)] /\
    wr_status (st_run (es_store e')) = RunCancelled).
Proof.
  intros e late. destruct (cancel e) as [o e1] eqn:E.
  assert (fst (cancel e) = Done RunWasCancelled) as Ho by (vm_compute; reflexivity).
  assert (statuses (run_commands 9 late (snd (cancel e)))
    = [("attempt-0", "s", Succeeded); ("attempt-3", "work", Cancelled)]) as Hs by (vm_compute; reflexivity).
  rewrite E in Ho, Hs. simpl in Ho, Hs. subst o. exists e1. split; [reflexivity|]. split; [exact Hs|].
  apply (cancel_stops_run 9 late e e1 E). by repeat constructor.
Defined.
End sample.
