(* ===== verification/SnapshotSwitch.v ===== *)
(** * Switching a stopped run to another snapshot ([engine/snapshot_switch.rs])

    Whether a newer graph can take over the live rows of a failed or cancelled run, and the pool
    it starts from. *)

From stdpp Require Import fin_maps.
From S2P Require Import Prelude RustStr Order Json NodeTypes VariablePool NodeConfig Iteration.
From S2P Require Import NodeConfig GraphBase Graph Projection Declarations GraphParse Resume.
From S2P Require Import NodeConfig JsonCodec LoopGraph Document.
Local Open Scope ora_scope.

(** [SnapshotIncompatibility]: its reason. *)
Definition SnapshotIncompatibility : Type := string.

Definition incompatible {A} (reason : string) : result SnapshotIncompatibility A := Err reason.

(** [start_variable_set] *)
Definition start_variable_set (start : WorkflowGraphNode) : gset (string * string * bool) :=
  list_to_set ((fun v => (si_name v, si_value_type v, si_required v)) <$> gn_input_variables start).

#[export] Instance IterationConfig_eq_dec : EqDecision IterationConfig.
Proof. solve_decision. Defined.

Section switch.
Context {pet : Petgraph}.

(** The node of a live row must still be there with its type. *)
Definition check_row (new_graph : WorkflowGraph) (r : WorkflowNodeRun) : result SnapshotIncompatibility unit :=
  match node new_graph (nr_node_id r) with
  | None => incompatible ("node_missing:" +:+ nr_node_id r)
  | Some n =>
      reject_if (negb (bool_decide (node_type_as_str (gn_type n) = nr_node_type r)))
        ("node_type_changed:" +:+ nr_node_id r)
  end.

Definition check_start (old_graph new_graph : WorkflowGraph) : result SnapshotIncompatibility unit :=
  match start_node old_graph, start_node new_graph with
  | Some old_start, Some new_start =>
      if bool_decide (gn_id old_start = gn_id new_start) then
        reject_if (negb (bool_decide (start_variable_set old_start = start_variable_set new_start)))
          "start_variables_changed"
      else incompatible "start_node_changed"
  | _, _ => incompatible "start_node_changed"
  end.

Definition succeeded_writers (rows : list WorkflowNodeRun) : gset string :=
  list_to_set (nr_node_id <$> filter (fun r => nr_status r = Succeeded) rows).

Definition should_carry (selector : string) (pool : WorkflowVariablePool) (succeeded : gset string)
    (start_id : option string) : bool :=
  if starts_with "sys." selector then true
  else
    match catalog pool !! selector with
    | None => false
    | Some d =>
        bool_decide (writer d = "sys") || bool_decide (writer d = "global")
        || bool_decide (start_id = Some (writer d)) || bool_decide (writer d ∈ succeeded)
    end.

(** One value of the old pool. *)
Definition carry_value (pool : WorkflowVariablePool) (succeeded : gset string) (start_id : option string)
    (new_pool : WorkflowVariablePool) (kv : string * Value) :
    result SnapshotIncompatibility WorkflowVariablePool :=
  let (selector, value) := kv in
  if negb (should_carry selector pool succeeded start_id) then Ok new_pool
  else
    match catalog new_pool !! selector with
    | None => incompatible ("variable_missing:" +:+ selector)
    | Some new_definition =>
        let changed :=
          match catalog pool !! selector with
          | Some d => negb (bool_decide (value_type d = value_type new_definition))
          | None => false
          end in
        if changed then incompatible ("variable_type_changed:" +:+ selector)
        else Ok (with_values new_pool (<[selector := value]> (values new_pool)))
    end.

(** The composites a resume would restart. *)
Definition resume_unit_owners (old_graph : WorkflowGraph) (rows : list WorkflowNodeRun) : gset string :=
  list_to_set (omap (fun r => resume_unit_owner_id old_graph (nr_node_id r))
    (filter (fun r => nr_status r = Failed \/ nr_status r = Cancelled) rows)).

Definition owner_succeeded (rows : list WorkflowNodeRun) (id : string) : bool :=
  existsb (fun r => bool_decide (nr_node_id r = id) && bool_decide (nr_iteration r = None)
                    && bool_decide (nr_status r = Succeeded)) rows.

Definition region_members (g : WorkflowGraph) (id : string) : gset string :=
  match region g id with Some r => list_to_set (member_ids r) | None => ∅ end.

(** A completed iteration must not have changed. *)
Definition check_region (old_graph new_graph : WorkflowGraph) (rows : list WorkflowNodeRun)
    (n : WorkflowGraphNode) : result SnapshotIncompatibility unit :=
  match region old_graph (gn_id n) with
  | None => Ok tt
  | Some old_region =>
      if bool_decide (gn_id n ∈ resume_unit_owners old_graph rows) then Ok tt
      else if negb (owner_succeeded rows (gn_id n)) then Ok tt
      else
        let new_config := node new_graph (gn_id n) ≫= gn_iteration_config in
        reject_if (negb (bool_decide (gn_iteration_config n = new_config))
                   || negb (bool_decide (list_to_set (member_ids old_region) = region_members new_graph (gn_id n))))
          ("iteration node " +:+ gn_id n +:+ " changed after it completed")
  end.

Definition bump_revision (pool : WorkflowVariablePool) (r : N) : WorkflowVariablePool :=
  {| revision := saturating_add_u64 r 1; catalog := catalog pool; values := values pool |}.

Definition plan_snapshot_switch (old_graph new_graph : WorkflowGraph) (rows : list WorkflowNodeRun)
    (pool : WorkflowVariablePool) : result SnapshotIncompatibility WorkflowVariablePool :=
  for_each (check_row new_graph) rows ;;
  check_start old_graph new_graph ;;
  let start_id := gn_id <$> start_node old_graph in
  new_pool ← fold_result (carry_value pool (succeeded_writers rows) start_id) (from_graph new_graph)
               (btree_entries str_le (values pool));
  for_each (check_region old_graph new_graph rows) (g_nodes old_graph) ;;
  Ok (bump_revision new_pool (revision pool)).
(** ** Carrying values *)

(** A carried value has a declaration of the same type in the new catalog. *)
Definition carries (pool : WorkflowVariablePool) (succeeded : gset string) (start_id : option string)
    (new_catalog : gmap string WorkflowVariableDefinition) (selector : string) : Prop :=
  exists d', new_catalog !! selector = Some d' /\
    forall d, catalog pool !! selector = Some d -> value_type d = value_type d'.

Definition carried (pool : WorkflowVariablePool) (succeeded : gset string) (start_id : option string)
    (kv : string * Value) : Prop := should_carry kv.1 pool succeeded start_id = true.
#[local] Instance carried_dec pool succeeded start_id kv : Decision (carried pool succeeded start_id kv).
Proof. unfold carried. apply _. Defined.

Lemma carry_value_Ok pool succeeded start_id np kv p :
  carry_value pool succeeded start_id np kv = Ok p <->
  (carried pool succeeded start_id kv -> carries pool succeeded start_id (catalog np) kv.1) /\
  p = with_values np (if should_carry kv.1 pool succeeded start_id
                      then <[kv.1 := kv.2]> (values np) else values np).
Proof.
  destruct kv as [k v]. unfold carry_value, carried, carries. cbn [fst snd].
  destruct (should_carry k pool succeeded start_id) eqn:E; cbn [negb].
  2: { split; [intros [= <-]|intros [_ ->]]; by destruct np. }
  split.
  - intros H. destruct (catalog np !! k) as [d'|] eqn:Ed; [|done].
    destruct (catalog pool !! k) as [d|] eqn:Ek.
    + destruct (bool_decide _) eqn:Eb; [|done]. apply bool_decide_eq_true in Eb. injection H as <-.
      split; [|done]. intros _. exists d'. split; [done|]. by intros d0 [= <-].
    + injection H as <-. split; [|done]. intros _. by exists d'.
  - intros [H ->]. destruct (H eq_refl) as (d' & -> & Hd). destruct (catalog pool !! k) as [d|]; [|done].
    rewrite bool_decide_eq_true_2; [done|]. by apply Hd.
Qed.

Lemma fold_carry pool succeeded start_id l np p : NoDup l.*1 ->
  fold_result (carry_value pool succeeded start_id) np l = Ok p <->
  (forall kv, kv ∈ l -> carried pool succeeded start_id kv ->
     carries pool succeeded start_id (catalog np) kv.1) /\
  p = with_values np (list_to_map (filter (carried pool succeeded start_id) l) ∪ values np).
Proof.
  revert np p. induction l as [|[k v] l IH]; intros np p Hnd.
  - assert (with_values np (list_to_map (filter (carried pool succeeded start_id) []) ∪ values np) = np) as ->.
    { change (filter _ []) with (@nil (string * Value)). rewrite list_to_map_nil, map_empty_union.
      by destruct np. }
    split; [intros [= <-]; split; [by intros ? ?%elem_of_nil|done]|by intros [_ ->]].
  - apply NoDup_cons in Hnd as [Hk Hnd]. cbn [fold_result]. rewrite bind_Ok. setoid_rewrite carry_value_Ok.
    assert (Hu : with_values (with_values np (if should_carry k pool succeeded start_id
        then <[k := v]> (values np) else values np))
        (list_to_map (filter (carried pool succeeded start_id) l) ∪
          (if should_carry k pool succeeded start_id then <[k := v]> (values np) else values np))
      = with_values np (list_to_map (filter (carried pool succeeded start_id) ((k, v) :: l)) ∪ values np)).
    { unfold with_values. simpl. f_equal. rewrite filter_cons. destruct (should_carry k _ _ _) eqn:E.
      2: { rewrite decide_False by (unfold carried; simpl; by rewrite E). done. }
      rewrite decide_True by done. simpl.
      rewrite <-insert_union_r; [by rewrite insert_union_l|].
      apply not_elem_of_list_to_map_1. intros (kv & -> & [_ Hin]%list_elem_of_filter)%list_elem_of_fmap.
      apply Hk. change (kv.1 ∈ l.*1). by apply list_elem_of_fmap_2. }
    split.
    + intros (np' & [Hkv ->] & [Hl ->]%IH); [|done]. split; [|exact Hu].
      intros kv [->|Hin]%elem_of_cons; [done|by apply Hl].
    + intros [Hall ->]. eexists. split; [split; [|reflexivity]; intros; by apply Hall; [left|]|].
      apply IH; [done|]. split; [|by rewrite <-Hu]. intros kv Hin. apply Hall. by right.
Qed.
(** ** When a switch is accepted *)

(** The values a run takes along: the system variables, the globals, the inputs of the start node
    and the outputs of nodes that have succeeded. *)
Definition taken_along (old_graph : WorkflowGraph) (rows : list WorkflowNodeRun)
    (pool : WorkflowVariablePool) (selector : string) : Prop :=
  (exists rest, selector = "sys." +:+ rest) \/
  exists d, catalog pool !! selector = Some d /\
    (writer d = "sys" \/ writer d = "global" \/
     (exists n, start_node old_graph = Some n /\ gn_id n = writer d) \/
     exists r, r ∈ rows /\ nr_status r = Succeeded /\ nr_node_id r = writer d).

(** A composite a resume restarts, and one that has completed. *)
Definition to_resume (old_graph : WorkflowGraph) (rows : list WorkflowNodeRun) (id : string) : Prop :=
  exists r, r ∈ rows /\ (nr_status r = Failed \/ nr_status r = Cancelled) /\
    resume_unit_owner_id old_graph (nr_node_id r) = Some id.
Definition has_completed (rows : list WorkflowNodeRun) (id : string) : Prop :=
  exists r, r ∈ rows /\ nr_node_id r = id /\ nr_iteration r = None /\ nr_status r = Succeeded.

Lemma should_carry_true old_graph rows pool selector :
  should_carry selector pool (succeeded_writers rows) (gn_id <$> start_node old_graph) = true <->
  taken_along old_graph rows pool selector.
Proof.
  unfold should_carry, taken_along. destruct (starts_with "sys." selector) eqn:Es.
  { apply starts_with_true in Es. split; auto. }
  assert (~ exists rest, selector = "sys." +:+ rest) as Hno.
  { intros H. apply starts_with_true in H. congruence. }
  destruct (catalog pool !! selector) as [d|]; [|split; [done|by intros [?|(? & ? & _)]]].
  rewrite !orb_true_iff, !bool_decide_eq_true. unfold succeeded_writers.
  rewrite elem_of_list_to_set, list_elem_of_fmap. setoid_rewrite list_elem_of_filter. split.
  - intros H. right. exists d. split; [done|]. destruct H as [[[H|H]|H]|(r & Hw & Hs & Hr)]; [auto..| |].
    + do 2 right. left. by apply fmap_Some in H as (n & Hn & ->); exists n.
    + do 3 right. by exists r.
  - intros [?|(d' & [= <-] & H)]; [done|]. destruct H as [H|[H|[(n & -> & Hn)|(r & Hr & Hs & Hw)]]]; auto.
    + left. right. simpl. by rewrite Hn.
    + right. by exists r.
Qed.

Lemma resume_unit_owners_spec old_graph rows id :
  id ∈ resume_unit_owners old_graph rows <-> to_resume old_graph rows id.
Proof.
  unfold resume_unit_owners, to_resume. rewrite elem_of_list_to_set, list_elem_of_omap.
  setoid_rewrite list_elem_of_filter. naive_solver.
Qed.

Lemma owner_succeeded_true rows id : owner_succeeded rows id = true <-> has_completed rows id.
Proof.
  unfold owner_succeeded, has_completed. rewrite existsb_True. split.
  - intros (r & Hr & H). rewrite !andb_true_iff, !bool_decide_eq_true in H. exists r. by destruct_and!.
  - intros (r & Hr & H). exists r. rewrite !andb_true_iff, !bool_decide_eq_true. by destruct_and!.
Qed.

(** The new graph can take over the rows of the run. *)
Record compatible (old_graph new_graph : WorkflowGraph) (rows : list WorkflowNodeRun)
    (pool : WorkflowVariablePool) : Prop := {
  cp_rows r : r ∈ rows -> exists n, node new_graph (nr_node_id r) = Some n /\
    node_type_as_str (gn_type n) = nr_node_type r;
  cp_start : exists a b, start_node old_graph = Some a /\ start_node new_graph = Some b /\
    gn_id a = gn_id b /\ start_variable_set a = start_variable_set b;
  cp_values selector : is_Some (values pool !! selector) -> taken_along old_graph rows pool selector ->
    exists d', catalog (from_graph new_graph) !! selector = Some d' /\
      forall d, catalog pool !! selector = Some d -> value_type d = value_type d';
  cp_regions n old_region : n ∈ g_nodes old_graph -> region old_graph (gn_id n) = Some old_region ->
    ~ to_resume old_graph rows (gn_id n) -> has_completed rows (gn_id n) ->
    gn_iteration_config n = node new_graph (gn_id n) ≫= gn_iteration_config /\
    list_to_set (member_ids old_region) = region_members new_graph (gn_id n);
}.

(** The pool of the plan: the declarations of the new graph, and its initial values overridden by
    the values the run takes along. *)
Record migrated (old_graph new_graph : WorkflowGraph) (rows : list WorkflowNodeRun)
    (pool p : WorkflowVariablePool) : Prop := {
  mg_revision : revision p = saturating_add_u64 (revision pool) 1;
  mg_catalog : catalog p = catalog (from_graph new_graph);
  mg_taken selector v : values pool !! selector = Some v -> taken_along old_graph rows pool selector ->
    values p !! selector = Some v;
  mg_initial selector : values pool !! selector = None \/ ~ taken_along old_graph rows pool selector ->
    values p !! selector = values (from_graph new_graph) !! selector;
}.

Definition migrated_pool (old_graph new_graph : WorkflowGraph) (rows : list WorkflowNodeRun)
    (pool : WorkflowVariablePool) : WorkflowVariablePool :=
  {| revision := saturating_add_u64 (revision pool) 1;
     catalog := catalog (from_graph new_graph);
     values := filter (carried pool (succeeded_writers rows) (gn_id <$> start_node old_graph)) (values pool)
               ∪ values (from_graph new_graph) |}.

Lemma migrated_spec old_graph new_graph rows pool p :
  migrated old_graph new_graph rows pool p <-> p = migrated_pool old_graph new_graph rows pool.
Proof.
  assert (migrated old_graph new_graph rows pool (migrated_pool old_graph new_graph rows pool)) as Hm.
  { split; [done|done|..]; simpl.
    - intros selector v Hv Ht. apply lookup_union_Some_l. apply map_lookup_filter_Some. split; [done|].
      by apply should_carry_true.
    - intros selector Hno. apply lookup_union_r. apply map_lookup_filter_None.
      destruct Hno as [?|Hno]; [by left|right]. intros v _ Hc. by apply Hno, should_carry_true. }
  split; [|by intros ->]. intros [Hr Hc Ht Hi]. destruct Hm as [Hr' Hc' Ht' Hi'].
  destruct p as [pr pc pv]. simpl in *. subst pr pc. unfold migrated_pool in *. f_equal. simpl in *.
  apply map_eq. intros selector.
  destruct (should_carry selector pool (succeeded_writers rows) (gn_id <$> start_node old_graph)) eqn:E.
  - apply should_carry_true in E. destruct (values pool !! selector) as [v|] eqn:Ev.
    + by rewrite (Ht _ v), (Ht' _ v).
    + by rewrite Hi, Hi' by auto.
  - assert (~ taken_along old_graph rows pool selector) as Hno.
    { intros H. apply should_carry_true in H. congruence. }
    by rewrite Hi, Hi' by auto.
Qed.

Lemma check_row_Ok g r : check_row g r = Ok tt <->
  exists n, node g (nr_node_id r) = Some n /\ node_type_as_str (gn_type n) = nr_node_type r.
Proof.
  unfold check_row. destruct (node g _) as [n|]; [|split; [done|by intros (? & ? & _)]].
  rewrite reject_if_Ok, negb_false_iff, bool_decide_eq_true. naive_solver.
Qed.

Lemma check_start_Ok old_graph new_graph : check_start old_graph new_graph = Ok tt <->
  exists a b, start_node old_graph = Some a /\ start_node new_graph = Some b /\
    gn_id a = gn_id b /\ start_variable_set a = start_variable_set b.
Proof.
  unfold check_start. destruct (start_node old_graph) as [a|], (start_node new_graph) as [b|];
    try (split; [done|by intros (? & ? & ? & ? & _)]).
  case_bool_decide as Hid; [|split; [done|by intros (? & ? & [= ->] & [= ->] & ? & _)]].
  rewrite reject_if_Ok, negb_false_iff, bool_decide_eq_true. naive_solver.
Qed.

Lemma check_region_Ok old_graph new_graph rows n : check_region old_graph new_graph rows n = Ok tt <->
  forall old_region, region old_graph (gn_id n) = Some old_region ->
    ~ to_resume old_graph rows (gn_id n) -> has_completed rows (gn_id n) ->
    gn_iteration_config n = node new_graph (gn_id n) ≫= gn_iteration_config /\
    list_to_set (member_ids old_region) = region_members new_graph (gn_id n).
Proof.
  setoid_rewrite <-resume_unit_owners_spec. setoid_rewrite <-owner_succeeded_true. unfold check_region. destruct (region old_graph _) as [r|]; [|by split].
  case_bool_decide as Hin; [split; [by intros _ ? _ ?|done]|].
  destruct (owner_succeeded _ _); [|split; [by intros _ ? _ _|done]]. cbn [negb].
  cbv zeta. rewrite reject_if_Ok, orb_false_iff, !negb_false_iff, !bool_decide_eq_true.
  split; [by intros H ? [= <-]|by intros H; apply H].
Qed.

Lemma carried_entries (P : string * Value -> Prop) `{!forall kv, Decision (P kv)} (m : gmap string Value) :
  (list_to_map (filter P (btree_entries str_le m)) : gmap string Value) = filter P m.
Proof.
  rewrite map_filter_alt. apply list_to_map_proper.
  - rewrite (btree_entries_perm str_le m).
    pose proof (NoDup_fst_map_to_list m) as Hnd.
    assert (forall l : list (string * Value), NoDup l.*1 -> NoDup (filter P l).*1) as Hf.
    { intros l. induction l as [|kv l IH]; intros Hl; [done|]. rewrite filter_cons.
      apply NoDup_cons in Hl as [Hn Hl]. case_decide; [|by apply IH]. apply NoDup_cons. split; [|by apply IH].
      intros (x & Hx & [_ Hin]%list_elem_of_filter)%list_elem_of_fmap. apply Hn.
      rewrite Hx. change (x.1 ∈ l.*1). by apply list_elem_of_fmap_2. }
    by apply Hf.
  - by rewrite (btree_entries_perm str_le m).
Qed.

(** A switch is accepted exactly when the new snapshot is compatible.  Every live row keeps its
    node and type, the start node and its variables are the same, every value that is carried
    over is declared with its type, and every iteration that has completed and is not resumed is
    unchanged; the new pool then has the new declarations, and the carried values over the new
    initial ones. *)
Theorem snapshot_switch_spec old_graph new_graph rows pool p :
  plan_snapshot_switch old_graph new_graph rows pool = Ok p <->
  compatible old_graph new_graph rows pool /\ migrated old_graph new_graph rows pool p.
Proof.
  rewrite migrated_spec. unfold plan_snapshot_switch. cbv zeta. rewrite bind_Ok. setoid_rewrite bind_Ok. setoid_rewrite bind_Ok.
  setoid_rewrite bind_Ok.
  assert (Hkeys : NoDup (btree_entries str_le (values pool)).*1) by apply btree_keys_NoDup.
  split.
  - intros ([] & Hrows & [] & Hstart & np & Hfold & [] & Hregions & [= <-]).
    apply for_each_Ok in Hrows, Hregions. apply check_start_Ok in Hstart.
    apply fold_carry in Hfold as [Hvals ->]; [|done]. rewrite Forall_forall in Hrows.
    rewrite Forall_forall in Hregions. split; [split|].
    + intros r Hr. by apply check_row_Ok, Hrows.
    + done.
    + intros selector [v Hv] Ht. apply (Hvals (selector, v)); [by apply elem_of_btree_entries|].
      by apply should_carry_true.
    + intros n old_region Hn. by apply check_region_Ok, Hregions.
    + unfold bump_revision, migrated_pool, with_values. simpl. by rewrite carried_entries.
  - intros [[Hrows Hstart Hvals Hregions] ->]. exists tt. split.
    { apply for_each_Ok, Forall_forall. intros r Hr. by apply check_row_Ok, Hrows. }
    exists tt. split; [by apply check_start_Ok|]. eexists. split.
    { apply fold_carry; [done|]. split; [|reflexivity]. intros [k v] Hin Hc. simpl.
      apply elem_of_btree_entries in Hin. apply (Hvals k); [by exists v|]. by apply should_carry_true. }
    exists tt. split.
    { apply for_each_Ok, Forall_forall. intros n Hn. apply check_region_Ok. intros. by eapply Hregions. }
    unfold bump_revision, migrated_pool, with_values. simpl. by rewrite carried_entries.
Qed.
End switch.

(** ** Runs that cannot switch *)

Section loops.
Context {debug : DebugText} {json : JsonText} {policy : PolicyDecode} {order : HashOrder}
  {pet : Petgraph} {envelope : EnvelopeDecode} {loops : LoopDecode}.
Context {laws : DocumentLaws} {read_back : JsonReadBack}.

Lemma check_rows_Err g rows r : r ∈ rows -> node g (nr_node_id r) = None ->
  exists e, for_each (check_row g) rows = Err e.
Proof using.
  intros Hr Hn. destruct (for_each (check_row g) rows) as [[]|e] eqn:E; [|by exists e].
  apply for_each_Ok in E. rewrite Forall_forall in E. apply E, check_row_Ok in Hr as (n & Hn' & _).
  congruence.
Qed.

(** A run with live rows of a Loop round cannot switch.  The rows of the round are live rows
    of the run, and their nodes are looked up among the outer nodes only; in a parsed graph no
    body node is one of those, so even the switch to the graph the run already executes is
    refused. *)
Theorem loop_rows_refuse_switch text g loop config body rows pool r :
  parse text = Ok g -> loop_body g loop = Some (config, body) ->
  r ∈ rows -> nr_node_id r ∈ (gn_id <$> g_nodes body) ->
  exists reason, plan_snapshot_switch g g rows pool = Err reason.
Proof.
  intros Hg%parse_well_formed Hbody Hr Hin. unfold plan_snapshot_switch.
  destruct (check_rows_Err g rows r Hr) as [e He]; [|exists e; by rewrite He].
  by eapply la_body; [apply (co_apart _ Hg)|..].
Qed.
End loops.

Section sample.
#[local] Existing Instances LoopGraph.plain_debug LoopGraph.no_policy LoopGraph.insertion_order.
#[local] Existing Instances kahn_petgraph echo_loops.

Definition body_row : WorkflowNodeRun :=
  {| nr_id := "r"; nr_run_id := "run"; nr_scope_id := "round"; nr_node_id := "work"; nr_node_type := "agent";
     nr_session_id := None; nr_status := Failed; nr_input := None; nr_output := None; nr_error := None;
     nr_payload := None; nr_iteration := None; nr_started_at := None; nr_finished_at := None |}.

Lemma loop_rows_refuse_switch_witness :
  exists g reason, parse (json_to_string loop_document) = Ok g /\
    plan_snapshot_switch g g [body_row] (from_graph g) = Err reason /\ reason = "node_missing:work".
Proof.
  destruct (parse (json_to_string loop_document)) as [g|] eqn:E.
  2: { vm_compute in E. discriminate E. }
  destruct (loop_body g "l") as [[config body]|] eqn:Eb.
  2: { vm_compute in E. injection E as <-. vm_compute in Eb. discriminate Eb. }
  destruct (loop_rows_refuse_switch (json_to_string loop_document) g "l" config body [body_row]
    (from_graph g) body_row E Eb) as [reason Hr].
  - by left.
  - vm_compute in E. injection E as <-. vm_compute in Eb. injection Eb as <- <-. right. by left.
  - exists g, reason. split; [reflexivity|]. split; [exact Hr|].
    vm_compute in E. injection E as <-. vm_compute in Hr. injection Hr as <-. reflexivity.
Defined.
End sample.
