(* ===== verification/EffectStatus.v ===== *)
(** * Identities and statuses of the Effect system ([crates/effect/src/identity.rs], [status.rs])

    The wrapped identities are strings, counters are numbers of their width.  [sha256_hex] is the
    lower-case hexadecimal SHA-256 of a text, code of another crate. *)

From Stdlib Require Import Ascii.
From S2P Require Import Prelude RustStr Json.
Local Open Scope ora_scope.

Inductive IdentityError : Type :=
| InvalidEffectKind (value : string)
| InvalidConsumerKind (value : string)
| EmptyConsumerIdentity
| EmptyConsumerAdapterIdentity
| EmptyResourceAdapterIdentity
| EmptyResourceKey
| EmptyNativeResourceIdentity
| EmptySourceRevisionKey
| EmptyWorkerIdentity
| InvalidDigest (value : string)
| InvalidFingerprint (value : string)
| InvalidSkillName (value : string)
| GenerationExhausted
| ZeroStatusVersion
| StatusVersionExhausted.

Class Sha256 := { sha256_hex : string -> string }.

(** The opaque identities. *)
Notation EffectScopeId := string (only parsing).
Notation EffectSourceIdentity := string (only parsing).
Notation EffectRevisionId := string (only parsing).
Notation DesiredEffectIdentity := string (only parsing).
Notation ConsumerRevisionId := string (only parsing).
Notation EffectTargetId := string (only parsing).
Notation EffectResourceId := string (only parsing).
Notation ManagedIdentity := string (only parsing).
Notation ReconcileAttemptId := string (only parsing).
Notation EffectOperationId := string (only parsing).
Notation ArtifactId := string (only parsing).
Notation NativeResourceIdentity := string (only parsing).
Notation EffectKind := string (only parsing).

(** ** Kinds *)

(** [validate_namespaced] *)
Definition validate_namespaced (value : string) : bool :=
  match split_once "/" value with
  | None => false
  | Some (namespace, name) =>
      negb (bool_decide (namespace = "") || bool_decide (name = "") || str_contains "/" name
            || negb (bool_decide (trim value = value)))
  end.

Definition skill_kind : EffectKind := "ora/skill".
Definition parse_effect_kind (value : string) : result IdentityError EffectKind :=
  if validate_namespaced value then Ok value else Err (InvalidEffectKind value).
Definition parse_consumer_kind (value : string) : result IdentityError string :=
  if validate_namespaced value then Ok value else Err (InvalidConsumerKind value).

Record ConsumerIdentity : Type := { consumer_kind : string; stable_key : string }.
#[export] Instance ConsumerIdentity_eq_dec : EqDecision ConsumerIdentity.
Proof. solve_decision. Defined.
#[export] Instance ConsumerIdentity_countable : Countable ConsumerIdentity.
Proof.
  refine (inj_countable' (fun c => (consumer_kind c, stable_key c))
    (fun p => {| consumer_kind := p.1; stable_key := p.2 |}) _). by intros [].
Defined.

Definition new_consumer (kind key : string) : result IdentityError ConsumerIdentity :=
  if bool_decide (trim key = "") then Err EmptyConsumerIdentity
  else Ok {| consumer_kind := kind; stable_key := key |}.

(** A named identity of [named_identity!]. *)
Definition parse_named (error : IdentityError) (value : string) : result IdentityError string :=
  if bool_decide (trim value = "") then Err error else Ok value.

(** ** Counters *)

Notation Generation := N (only parsing).
Definition generation_next (g : Generation) : result IdentityError Generation :=
  if (g <? u64_max)%N then Ok (g + 1)%N else Err GenerationExhausted.

Notation StatusVersion := N (only parsing).
Definition initial_version : StatusVersion := 1%N.
Definition new_version (value : N) : result IdentityError StatusVersion :=
  if bool_decide (value = 0%N) then Err ZeroStatusVersion else Ok value.
Definition version_next (v : StatusVersion) : result IdentityError StatusVersion :=
  if (v <? u64_max)%N then Ok (v + 1)%N else Err StatusVersionExhausted.

Lemma version_next_Ok v v' : version_next v = Ok v' <-> (v < u64_max /\ v' = v + 1)%N.
Proof.
  unfold version_next. destruct (v <? u64_max)%N eqn:E.
  - apply N.ltb_lt in E. split; [by intros [= <-]|by intros [_ ->]].
  - apply N.ltb_ge in E. split; [done|]. intros [H _]. exfalso. exact (proj1 (N.lt_nge _ _) H E).
Qed.

(** ** Digests *)

Definition is_hexdigit (c : ascii) : bool := ascii_in 48 57 c || ascii_in 97 102 c || ascii_in 65 70 c.

(** [validate_hash] *)
Definition validate_hash (error : string -> IdentityError) (value : string) : result IdentityError string :=
  match str_strip_prefix "sha256:" value with
  | None => Err (error value)
  | Some hex =>
      if negb (bool_decide (String.length hex = 64)) || negb (str_free (fun c => negb (is_hexdigit c)) hex)
      then Err (error value)
      else Ok ("sha256:" +:+ str_to_lower hex)
  end.
Definition parse_digest (value : string) : result IdentityError string := validate_hash InvalidDigest value.
Definition parse_fingerprint (value : string) : result IdentityError string :=
  validate_hash InvalidFingerprint value.

(** A separator byte of a hashed text. *)
Definition NUL : string := bytes [0%N].

Section sha.
Context {sha : Sha256}.

Definition digest_sha256 (text : string) : string := "sha256:" +:+ sha256_hex text.

(** [ConsumerIdentity::storage_key] and [ManagedIdentity::for_intent] *)
Definition storage_key (c : ConsumerIdentity) : string :=
  "consumer:" +:+ sha256_hex ("ora-effect-consumer-v1" +:+ NUL +:+ consumer_kind c +:+ NUL +:+ stable_key c).
Definition for_intent (resource : EffectResourceId) (desired : DesiredEffectIdentity) : ManagedIdentity :=
  "managed:" +:+ sha256_hex ("ora-effect-managed-intent-v1" +:+ NUL +:+ resource +:+ NUL +:+ desired).
End sha.

(** ** Skill names *)

(** [validate_skill_name] of the domain; the bytes that pass are ASCII, so the UTF-16 length is
    the number of bytes. *)
Definition skill_name_byte (c : ascii) : bool :=
  is_ascii_alphabetic c || ascii_in 48 57 c || is_char "."%char c || is_char "_"%char c || is_char "-"%char c.
Definition validate_skill_name (name : string) : bool :=
  negb (bool_decide (name = "")) && negb (starts_with "." name)
  && str_free (fun c => negb (skill_name_byte c)) name && (String.length name <=? 255)%nat.

Record SkillName : Type := { display : string; canonical : string }.
Definition parse_skill_name (value : string) : result IdentityError SkillName :=
  if validate_skill_name value then Ok {| display := value; canonical := str_to_lower value |}
  else Err (InvalidSkillName value).

(** ** Properties *)

Lemma lower_hexdigit c : is_hexdigit c = true -> is_hexdigit (to_ascii_lower c) = true.
Proof. destruct c as [[] [] [] [] [] [] [] []]; vm_compute; done. Qed.
Lemma lower_idempotent c : to_ascii_lower (to_ascii_lower c) = to_ascii_lower c.
Proof. destruct c as [[] [] [] [] [] [] [] []]; vm_compute; done. Qed.

Lemma str_lower_idempotent s : str_to_lower (str_to_lower s) = str_to_lower s.
Proof. induction s as [|c s IH]; [done|]. simpl. by rewrite lower_idempotent, IH. Qed.
Lemma str_lower_length s : String.length (str_to_lower s) = String.length s.
Proof. induction s as [|c s IH]; [done|]. simpl. by rewrite IH. Qed.
Lemma str_lower_hex s : str_free (fun c => negb (is_hexdigit c)) s = true ->
  str_free (fun c => negb (is_hexdigit c)) (str_to_lower s) = true.
Proof.
  induction s as [|c s IH]; [done|]. simpl. intros [Hc%negb_true_iff Hs]%andb_true_iff.
  apply andb_true_iff. split; [|by apply IH]. apply negb_false_iff in Hc.
  by rewrite lower_hexdigit.
Qed.

(** A parsed hash is in its canonical form: it parses to itself. *)
Lemma validate_hash_canonical error value h :
  validate_hash error value = Ok h -> validate_hash error h = Ok h.
Proof.
  unfold validate_hash. destruct (str_strip_prefix _ value) as [hex|]; [|done].
  destruct (_ || _) eqn:E; [done|]. intros H%Ok_inj. subst h. apply orb_false_iff in E as [E1 E2].
  apply negb_false_iff, bool_decide_eq_true in E1. apply negb_false_iff in E2.
  assert (str_strip_prefix "sha256:" ("sha256:" +:+ str_to_lower hex) = Some (str_to_lower hex)) as Hp
    by (by apply strip_prefix_Some).
  rewrite Hp.
  rewrite str_lower_length, E1, bool_decide_eq_true_2, str_lower_hex, str_lower_idempotent by done. done.
Qed.

(** Two skills are the same one exactly when their spellings agree up to case. *)
Lemma skill_name_identity a b x y : parse_skill_name a = Ok x -> parse_skill_name b = Ok y ->
  canonical x = canonical y <-> eq_ignore_ascii_case a b = true.
Proof.
  unfold parse_skill_name. destruct (validate_skill_name a), (validate_skill_name b); try done.
  intros [= <-] [= <-]. simpl. unfold eq_ignore_ascii_case. by rewrite bool_decide_eq_true.
Qed.

(** ** Convergence statuses of the Effect system ([crates/effect/src/status.rs])

    The generation watermarks of a Target and of a Resource and the transitions between their
    phases.  A transition is a function on the status; the code changes the fields before it
    takes the next version, so a status whose version is exhausted keeps the change and returns
    the error: the pair [transition] holds both. *)
Local Open Scope N_scope.

Notation LocalTimestamp := Z (only parsing).

Inductive StatusTransitionError : Type :=
| InvalidTargetWatermarks
| InvalidResourceWatermarks
| GenerationRegression
| InvalidObservedGeneration
| InvalidAppliedGeneration
| MismatchedReadinessReceipt
| EmptyConditionCode
| NotInRecovery
| Identity (e : IdentityError).

(** A method of [&mut self]: its result and the status it leaves. *)
Definition transition (S : Type) : Type := result StatusTransitionError unit * S.

(** ** Targets *)

Record TargetProgress : Type :=
  { desired : Generation; observed : Generation; applied : Generation; ready : Generation }.

Definition restore_progress (d o a r : Generation) : result StatusTransitionError TargetProgress :=
  if (a <? r) || (o <? a) || (d <? o) then Err InvalidTargetWatermarks
  else Ok {| desired := d; observed := o; applied := a; ready := r |}.
Definition pending_progress (d : Generation) : TargetProgress :=
  {| desired := d; observed := 0; applied := 0; ready := 0 |}.

Inductive ReconcileStage : Type := Planning | Coordinating | Applying | Verifying | Activating.
Inductive TargetPhase : Type :=
| TargetPending
| TargetReconciling (stage : ReconcileStage)
| TargetCurrent
| CurrentWithIssues
| TargetRetiring
| TargetRecoveryRequired (operation : EffectOperationId).
Inductive TargetIssueState : Type := Clear | HasNonBlockingIssues.

Record TargetStatus : Type :=
  { target : EffectTargetId; progress : TargetProgress; phase : TargetPhase; version : StatusVersion }.

Definition pending_target (t : EffectTargetId) (d : Generation) : TargetStatus :=
  {| target := t; progress := pending_progress d; phase := TargetPending; version := initial_version |}.

Definition is_target_recovery (p : TargetPhase) : bool :=
  match p with TargetRecoveryRequired _ => true | _ => false end.

(** [TargetStatus::advance_version] *)
Definition advance_version (s : TargetStatus) : transition TargetStatus :=
  match version_next (version s) with
  | Ok v => (Ok tt, {| target := target s; progress := progress s; phase := phase s; version := v |})
  | Err e => (Err (Identity e), s)
  end.

Definition with_phase (s : TargetStatus) (p : TargetProgress) (ph : TargetPhase) : TargetStatus :=
  {| target := target s; progress := p; phase := ph; version := version s |}.

Definition request_generation (s : TargetStatus) (g : Generation) : transition TargetStatus :=
  let p := progress s in
  if g <? desired p then (Err GenerationRegression, s)
  else advance_version (with_phase s
         {| desired := g; observed := observed p; applied := applied p; ready := ready p |} TargetPending).

Definition record_observed (s : TargetStatus) (g : Generation) : transition TargetStatus :=
  let p := progress s in
  if (g <? observed p) || (desired p <? g) then (Err InvalidObservedGeneration, s)
  else advance_version (with_phase s
         {| desired := desired p; observed := g; applied := applied p; ready := ready p |}
         (TargetReconciling Planning)).

Definition record_applied (s : TargetStatus) (g : Generation) : transition TargetStatus :=
  let p := progress s in
  if (g <? applied p) || (observed p <? g) then (Err InvalidAppliedGeneration, s)
  else advance_version (with_phase s
         {| desired := desired p; observed := observed p; applied := g; ready := ready p |}
         (TargetReconciling Activating)).

(** The [proof] of a receipt is opaque to the core. *)
Record AdapterReceipt : Type := { receipt_version : N; receipt_payload : Value }.
Record ReadinessReceipt : Type :=
  { rr_target : EffectTargetId; rr_generation : Generation; rr_consumer_revision : ConsumerRevisionId;
    rr_projection : string; rr_proof : AdapterReceipt }.

Definition record_ready (s : TargetStatus) (r : ReadinessReceipt) (expected_consumer_revision : ConsumerRevisionId)
    (expected_projection : string) (issue_state : TargetIssueState) : transition TargetStatus :=
  let p := progress s in
  if negb (bool_decide (rr_target r = target s))
     || negb (bool_decide (rr_consumer_revision r = expected_consumer_revision))
     || negb (bool_decide (rr_projection r = expected_projection))
     || (applied p <? rr_generation r) || (rr_generation r <? ready p)
  then (Err MismatchedReadinessReceipt, s)
  else advance_version (with_phase s
         {| desired := desired p; observed := observed p; applied := applied p; ready := rr_generation r |}
         (match issue_state with Clear => TargetCurrent | HasNonBlockingIssues => CurrentWithIssues end)).

Definition require_recovery (s : TargetStatus) (operation : EffectOperationId) : transition TargetStatus :=
  advance_version (with_phase s (progress s) (TargetRecoveryRequired operation)).
Definition resume_from_recovery (s : TargetStatus) : transition TargetStatus :=
  if is_target_recovery (phase s) then advance_version (with_phase s (progress s) TargetPending)
  else (Err NotInRecovery, s).
Definition resume_retiring_from_recovery (s : TargetStatus) : transition TargetStatus :=
  if is_target_recovery (phase s) then advance_version (with_phase s (progress s) TargetRetiring)
  else (Err NotInRecovery, s).

(** ** Resources *)

Inductive ResourcePhase : Type :=
| ResourcePending
| ResourceReconciling
| ResourceCurrent
| ResourceRetiring
| ResourceRecoveryRequired (operation : EffectOperationId).

Record ResourceStatus : Type :=
  { rs_resource : EffectResourceId; rs_desired : Generation; rs_observed : Generation;
    rs_applied : Generation; rs_phase : ResourcePhase; rs_version : StatusVersion }.

Definition pending_resource (r : EffectResourceId) (d : Generation) : ResourceStatus :=
  {| rs_resource := r; rs_desired := d; rs_observed := 0; rs_applied := 0;
     rs_phase := ResourcePending; rs_version := initial_version |}.
Definition restore_resource (r : EffectResourceId) (d o a : Generation) (ph : ResourcePhase)
    (v : StatusVersion) : result StatusTransitionError ResourceStatus :=
  if (o <? a) || (d <? o) then Err InvalidResourceWatermarks
  else Ok {| rs_resource := r; rs_desired := d; rs_observed := o; rs_applied := a;
             rs_phase := ph; rs_version := v |}.

Definition resource_advance_version (s : ResourceStatus) : transition ResourceStatus :=
  match version_next (rs_version s) with
  | Ok v => (Ok tt, {| rs_resource := rs_resource s; rs_desired := rs_desired s; rs_observed := rs_observed s;
                       rs_applied := rs_applied s; rs_phase := rs_phase s; rs_version := v |})
  | Err e => (Err (Identity e), s)
  end.

Definition resource_with (s : ResourceStatus) (d o a : Generation) (ph : ResourcePhase) : ResourceStatus :=
  {| rs_resource := rs_resource s; rs_desired := d; rs_observed := o; rs_applied := a;
     rs_phase := ph; rs_version := rs_version s |}.

Definition resource_request_generation (s : ResourceStatus) (g : Generation) : transition ResourceStatus :=
  if g <? rs_desired s then (Err GenerationRegression, s)
  else resource_advance_version (resource_with s g (rs_observed s) (rs_applied s) ResourcePending).
Definition resource_record_observed (s : ResourceStatus) (g : Generation) : transition ResourceStatus :=
  if (g <? rs_observed s) || (rs_desired s <? g) then (Err InvalidObservedGeneration, s)
  else resource_advance_version (resource_with s (rs_desired s) g (rs_applied s) ResourceReconciling).
Definition resource_record_applied (s : ResourceStatus) (g : Generation) : transition ResourceStatus :=
  if (g <? rs_applied s) || (rs_observed s <? g) then (Err InvalidAppliedGeneration, s)
  else resource_advance_version (resource_with s (rs_desired s) (rs_observed s) g ResourceCurrent).
Definition resource_require_recovery (s : ResourceStatus) (operation : EffectOperationId) :
    transition ResourceStatus :=
  resource_advance_version
    (resource_with s (rs_desired s) (rs_observed s) (rs_applied s) (ResourceRecoveryRequired operation)).
Definition resource_resume_from_recovery (s : ResourceStatus) : transition ResourceStatus :=
  match rs_phase s with
  | ResourceRecoveryRequired _ =>
      resource_advance_version (resource_with s (rs_desired s) (rs_observed s) (rs_applied s) ResourcePending)
  | _ => (Err NotInRecovery, s)
  end.

(** [StableConditionCode::parse] *)
Definition parse_condition_code (value : string) : result StatusTransitionError string :=
  if bool_decide (trim value = "") then Err EmptyConditionCode else Ok value.

(** ** Transitions as a relation *)

Inductive TargetEvent : Type :=
| RequestGeneration (g : Generation)
| RecordObserved (g : Generation)
| RecordApplied (g : Generation)
| RecordReady (r : ReadinessReceipt) (revision : ConsumerRevisionId) (projection : string) (i : TargetIssueState)
| RequireRecovery (operation : EffectOperationId)
| ResumeFromRecovery
| ResumeRetiringFromRecovery.

Definition target_event (s : TargetStatus) (e : TargetEvent) : transition TargetStatus :=
  match e with
  | RequestGeneration g => request_generation s g
  | RecordObserved g => record_observed s g
  | RecordApplied g => record_applied s g
  | RecordReady r revision projection i => record_ready s r revision projection i
  | RequireRecovery operation => require_recovery s operation
  | ResumeFromRecovery => resume_from_recovery s
  | ResumeRetiringFromRecovery => resume_retiring_from_recovery s
  end.

(** Whatever the events return, the status a history leaves. *)
Definition target_history (s : TargetStatus) (es : list TargetEvent) : TargetStatus :=
  fold_left (fun s e => (target_event s e).2) es s.

Inductive ResourceEvent : Type :=
| ResourceRequest (g : Generation)
| ResourceObserve (g : Generation)
| ResourceApply (g : Generation)
| ResourceQuarantine (operation : EffectOperationId)
| ResourceResume.

Definition resource_event (s : ResourceStatus) (e : ResourceEvent) : transition ResourceStatus :=
  match e with
  | ResourceRequest g => resource_request_generation s g
  | ResourceObserve g => resource_record_observed s g
  | ResourceApply g => resource_record_applied s g
  | ResourceQuarantine operation => resource_require_recovery s operation
  | ResourceResume => resource_resume_from_recovery s
  end.
Definition resource_history (s : ResourceStatus) (es : list ResourceEvent) : ResourceStatus :=
  fold_left (fun s e => (resource_event s e).2) es s.

(** ** Invariants *)

Definition ordered (p : TargetProgress) : Prop :=
  ready p <= applied p /\ applied p <= observed p /\ observed p <= desired p.
(** No watermark of [q] is below that of [p]. *)
Definition advances (p q : TargetProgress) : Prop :=
  desired p <= desired q /\ observed p <= observed q /\ applied p <= applied q /\ ready p <= ready q.
Definition target_ordered (s : TargetStatus) : Prop := ordered (progress s).
Definition resource_ordered (s : ResourceStatus) : Prop :=
  rs_applied s <= rs_observed s /\ rs_observed s <= rs_desired s.

#[export] Instance advances_preorder : PreOrder advances.
Proof. split; [intros p|intros p q r]; unfold advances; lia. Qed.

(** The part of a step the version does not depend on. *)
Ltac step_status :=
  repeat match goal with
  | |- context [if ?b then _ else _] => let E := fresh "E" in destruct b eqn:E
  | |- context [match version_next ?v with _ => _ end] => let E := fresh "E" in destruct (version_next v) eqn:E
  | |- context [match rs_phase ?s with _ => _ end] => destruct (rs_phase s)
  end;
  repeat match goal with
  | H : _ || _ = false |- _ => apply orb_false_iff in H as [? ?]
  | H : _ || _ = true |- _ => clear H
  | H : (_ <? _) = false |- _ => apply N.ltb_ge in H
  | H : (_ <? _) = true |- _ => apply N.ltb_lt in H
  | H : version_next _ = Ok _ |- _ => apply version_next_Ok in H as [? ->]
  end; simpl in *.

Lemma target_event_ordered s e : target_ordered s -> target_ordered (target_event s e).2.
Proof.
  unfold target_ordered, ordered. intros H.
  destruct e; simpl; unfold request_generation, record_observed, record_applied, record_ready, require_recovery,
    resume_from_recovery, resume_retiring_from_recovery, advance_version, with_phase; step_status; simpl; lia.
Qed.

Lemma target_event_advances s e :
  target_ordered s ->
  advances (progress s) (progress (target_event s e).2) /\ version s <= version (target_event s e).2.
Proof.
  unfold target_ordered, ordered, advances. intros H.
  destruct e; simpl; unfold request_generation, record_observed, record_applied, record_ready, require_recovery,
    resume_from_recovery, resume_retiring_from_recovery, advance_version, with_phase; step_status; simpl; lia.
Qed.

Lemma target_event_target s e : target (target_event s e).2 = target s.
Proof.
  destruct e; simpl; unfold request_generation, record_observed, record_applied, record_ready, require_recovery,
    resume_from_recovery, resume_retiring_from_recovery, advance_version, with_phase; step_status; done.
Qed.

(** Readiness moves only by a receipt that names this Target and the projection it asks for. *)
Lemma target_event_ready s e :
  ready (progress (target_event s e).2) <> ready (progress s) ->
  exists r revision projection i, e = RecordReady r revision projection i
    /\ rr_target r = target s /\ rr_consumer_revision r = revision /\ rr_projection r = projection
    /\ rr_generation r = ready (progress (target_event s e).2) /\ rr_generation r <= applied (progress s).
Proof.
  intros H. destruct e as [| | |r revision projection i| | |];
    try (exfalso; apply H; simpl; unfold request_generation, record_observed, record_applied, require_recovery,
      resume_from_recovery, resume_retiring_from_recovery, advance_version, with_phase; step_status; done).
  exists r, revision, projection, i. revert H. simpl. unfold record_ready, advance_version, with_phase.
  destruct (_ || _) eqn:E; [done|]. intros _.
  repeat (apply orb_false_iff in E as [E ?]). apply negb_false_iff, bool_decide_eq_true in E.
  repeat match goal with H : negb _ = false |- _ => apply negb_false_iff, bool_decide_eq_true in H
                       | H : (_ <? _) = false |- _ => apply N.ltb_ge in H end.
  simpl. destruct (version_next _); simpl; done.
Qed.

(** A refused transition leaves the status; an accepted one takes the next version. *)
Lemma target_event_version s e :
  version s < u64_max ->
  let '(r, s') := target_event s e in
  match r with
  | Ok _ => version s' = version s + 1
  | Err _ => s' = s
  end.
Proof.
  intros Hv. destruct e; simpl; unfold request_generation, record_observed, record_applied, record_ready, require_recovery,
    resume_from_recovery, resume_retiring_from_recovery, advance_version, with_phase; simpl;
    try (destruct (_ : bool); [done|]); try (destruct (_ : bool); [|done]);
    destruct (version_next (version s)) eqn:E; simpl;
    try (apply version_next_Ok in E as [_ ->]; done);
    exfalso; unfold version_next in E; apply N.ltb_lt in Hv; by rewrite Hv in E.
Qed.

Lemma resource_event_ordered s e : resource_ordered s -> resource_ordered (resource_event s e).2.
Proof.
  unfold resource_ordered. intros H.
  destruct e; simpl; unfold resource_request_generation, resource_record_observed, resource_record_applied,
    resource_require_recovery, resource_resume_from_recovery, resource_advance_version, resource_with;
    step_status; simpl; lia.
Qed.
Lemma resource_event_advances s e :
  resource_ordered s ->
  let s' := (resource_event s e).2 in
  rs_desired s <= rs_desired s' /\ rs_observed s <= rs_observed s' /\ rs_applied s <= rs_applied s'
  /\ rs_version s <= rs_version s'.
Proof.
  unfold resource_ordered. intros H.
  destruct e; simpl; unfold resource_request_generation, resource_record_observed, resource_record_applied,
    resource_require_recovery, resource_resume_from_recovery, resource_advance_version, resource_with;
    step_status; simpl; lia.
Qed.

(** ** Properties *)

Lemma restore_progress_ordered d o a r p : restore_progress d o a r = Ok p <->
  ordered p /\ p = {| desired := d; observed := o; applied := a; ready := r |}.
Proof.
  unfold restore_progress, ordered. destruct (_ || _) eqn:E.
  - split; [done|]. intros [H ->]. simpl in H. exfalso.
    repeat (apply orb_true_iff in E as [E|E]); apply N.ltb_lt in E; lia.
  - repeat (apply orb_false_iff in E as [E ?]).
    repeat match goal with H : (_ <? _) = false |- _ => apply N.ltb_ge in H end.
    split; [intros [= <-]; simpl; done|by intros [_ ->]].
Qed.

Lemma target_history_snoc s es e :
  target_history s (es ++ [e]) = (target_event (target_history s es) e).2.
Proof. unfold target_history. by rewrite fold_left_app. Qed.

(** The events of a history that carry a receipt accepted for this Target. *)
Definition accepted_receipt (t : EffectTargetId) (g : Generation) (e : TargetEvent) : Prop :=
  exists r revision projection i, e = RecordReady r revision projection i
    /\ rr_target r = t /\ rr_consumer_revision r = revision /\ rr_projection r = projection
    /\ rr_generation r = g.

(** A Target's watermarks stay ordered (ready <= applied <= observed <= desired), none ever
    moves back, nor does the version, whatever transitions are tried in whatever order, refused
    ones and exhausted versions included. *)
Theorem target_watermarks_kept (s : TargetStatus) (es : list TargetEvent)
    (Hs : target_ordered s) :
  target_ordered (target_history s es)
  /\ advances (progress s) (progress (target_history s es))
  /\ version s <= version (target_history s es)
  /\ target (target_history s es) = target s.
Proof.
  induction es as [|e es (IH1 & IH2 & IH3 & IH4)] using rev_ind.
  - split_and!; [done|reflexivity|simpl; lia|done].
  - rewrite target_history_snoc. destruct (target_event_advances _ e IH1) as [H1 H2].
    split_and!; [by apply target_event_ordered|by etransitivity|by etransitivity|].
    by rewrite target_event_target.
Qed.

(** Readiness is only ever proven: when the ready watermark of a history differs from the
    one it began with, some event of the history carried a readiness receipt of this very Target,
    for the consumer revision and projection asked for, at exactly the generation now ready. *)
Theorem readiness_needs_receipt (s : TargetStatus) (es : list TargetEvent)
    (Hr : ready (progress (target_history s es)) <> ready (progress s)) :
  exists e, e ∈ es /\ accepted_receipt (target s) (ready (progress (target_history s es))) e.
Proof.
  induction es as [|e es IH] using rev_ind; [done|].
  rewrite target_history_snoc in *.
  destruct (decide (ready (progress (target_event (target_history s es) e).2)
                    = ready (progress (target_history s es)))) as [Heq|Hne].
  - rewrite Heq in *. destruct (IH Hr) as (e' & ? & ?). exists e'. split; [set_solver|done].
  - exists e. split; [set_solver|].
    destruct (target_event_ready _ _ Hne) as (r & revision & projection & i & -> & H1 & H2 & H3 & H4 & _).
    exists r, revision, projection, i. split_and!; try done. rewrite H1.
    clear. unfold target_history. assert (forall es s, target (fold_left (fun s e => (target_event s e).2) es s)
      = target s) as Ht; [|by apply Ht].
    clear. induction es as [|e es IH]; intros s; [done|]. simpl. by rewrite IH, target_event_target.
Qed.

Lemma resource_history_ordered s es : resource_ordered s ->
  resource_ordered (resource_history s es)
  /\ rs_applied s <= rs_applied (resource_history s es).
Proof.
  unfold resource_history. revert s. induction es as [|e es IH]; intros s H; [done|]. simpl.
  destruct (IH _ (resource_event_ordered _ e H)) as [H1 H2].
  destruct (resource_event_advances _ e H) as (_ & _ & H3 & _). split; [done|by etransitivity].
Qed.

(** A Target that is asked for generation 3 and converges to it. *)
Definition sample_status : TargetStatus := pending_target "t" 3.
Definition sample_receipt : ReadinessReceipt :=
  {| rr_target := "t"; rr_generation := 3; rr_consumer_revision := "c"; rr_projection := "p";
     rr_proof := {| receipt_version := 1; receipt_payload := VNull |} |}.
Definition sample_events : list TargetEvent :=
  [RecordObserved 3; RecordApplied 3; RecordReady sample_receipt "c" "p" Clear; RequestGeneration 2;
   RequireRecovery "op"; ResumeFromRecovery].

Lemma target_watermarks_kept_witness :
  progress (target_history sample_status sample_events) = {| desired := 3; observed := 3; applied := 3; ready := 3 |}
  /\ target_ordered (target_history sample_status sample_events).
Proof.
  split; [vm_compute; reflexivity|].
  apply (target_watermarks_kept sample_status sample_events). unfold target_ordered, ordered. simpl. lia.
Defined.

Lemma readiness_needs_receipt_witness :
  exists e, e ∈ sample_events
    /\ accepted_receipt "t" (ready (progress (target_history sample_status sample_events))) e.
Proof. apply (readiness_needs_receipt sample_status sample_events). vm_compute. discriminate. Defined.
