(* ===== verification/EffectOperation.v ===== *)
(** * Operation and attempt journals of the Effect system ([crates/effect/src/operation.rs])

    An operation is an immutable intent with a progress that only moves along prepared, applied,
    finalized, or through a recovery that closes it by evidence.  An attempt is the ordered set
    of operations of one reconcile with its own linear phases. *)

From S2P Require Import Prelude RustStr Json PortablePath EffectStatus.
Local Open Scope ora_scope.
Local Open Scope Z_scope.

(** [ExactPreviousState] and [ExactPlannedState] have the same shape. *)
Inductive ExactState : Type :=
| Missing
| Present (native_identity : NativeResourceIdentity) (fingerprint : string) (managed_identity : ManagedIdentity).
#[export] Instance ExactState_eq_dec : EqDecision ExactState.
Proof. solve_decision. Defined.
Notation ExactPreviousState := ExactState (only parsing).
Notation ExactPlannedState := ExactState (only parsing).

Inductive EffectMutation : Type := Create | Update | Replace | Delete.
#[export] Instance EffectMutation_eq_dec : EqDecision EffectMutation.
Proof. solve_decision. Defined.

Record FilesystemOperationPlan : Type :=
  { fo_workspace_root : string; fo_resource_relative_path : PortableRelativePath; fo_resource_root : string;
    fo_source_root : option string; fo_staging_path : string; fo_backup_path : string }.
Record JsonMergeOperationPlan : Type :=
  { jm_workspace_root : string; jm_resource_relative_path : PortableRelativePath;
    jm_ownership_relative_path : PortableRelativePath; jm_configuration_path : string; jm_ownership_path : string;
    jm_staging_path : string; jm_backup_path : string; jm_mutation : EffectMutation;
    jm_managed_identity : ManagedIdentity; jm_native_identity : NativeResourceIdentity;
    jm_desired_effect : option DesiredEffectIdentity; jm_input : option Value }.
Inductive VersionedAdapterPlan : Type :=
| FilesystemDirectoryV1Plan (plan : FilesystemOperationPlan)
| JsonMergeV1Plan (plan : JsonMergeOperationPlan).

Inductive OperationProgress : Type :=
| Prepared (prepared_at : LocalTimestamp)
| Applied (prepared_at applied_at : LocalTimestamp)
| Finalized (prepared_at applied_at finalized_at : LocalTimestamp)
| FinalizedWithoutEffect (prepared_at : LocalTimestamp) (applied_at : option LocalTimestamp)
    (finalized_at : LocalTimestamp)
| RecoveryRequired (prepared_at : LocalTimestamp) (applied_at : option LocalTimestamp)
    (detected_at : LocalTimestamp).
#[export] Instance OperationProgress_eq_dec : EqDecision OperationProgress.
Proof. solve_decision. Defined.

Record EffectOperationIntent : Type :=
  { oi_attempt : ReconcileAttemptId; oi_resource : EffectResourceId; oi_generation : Generation; oi_sequence : N;
    oi_mutation : EffectMutation; oi_expected : ExactPreviousState; oi_planned : ExactPlannedState;
    oi_payload : VersionedAdapterPlan }.

(** [EffectOperation]: the intent's fields are written out in the code. *)
Record EffectOperation : Type :=
  { op_identity : EffectOperationId; op_intent : EffectOperationIntent; op_progress : OperationProgress }.

(** [ReconcileAttemptPhase] *)
Inductive ReconcileAttemptPhase : Type :=
| AttemptPrepared | Coordinated | AttemptApplied | Verified | Activated | AttemptFinalized
| AttemptRecoveryRequired.
#[export] Instance ReconcileAttemptPhase_eq_dec : EqDecision ReconcileAttemptPhase.
Proof. solve_decision. Defined.

Inductive OperationTransitionError : Type :=
| InvalidMutationStates
| ExpectedPrepared
| ExpectedApplied
| ExpectedRecoveryRequired
| CannotRequireRecovery
| EmptyCoordinationResources
| EmptyAttemptOperations
| UnexpectedAttemptPhase (expected actual : ReconcileAttemptPhase)
| CannotRequireAttemptRecovery.

(** ** Operations *)

Definition validate_mutation_states (mutation : EffectMutation) (expected : ExactPreviousState)
    (planned : ExactPlannedState) : result OperationTransitionError unit :=
  let valid := match mutation, expected, planned with
    | Create, Missing, Present _ _ _ | Delete, Present _ _ _, Missing => true
    | (Update | Replace), Present previous_native _ previous_managed, Present planned_native _ planned_managed =>
        bool_decide (previous_native = planned_native) && bool_decide (previous_managed = planned_managed)
    | _, _, _ => false
    end in
  if negb valid then Err InvalidMutationStates else Ok tt.

Definition prepare (identity : EffectOperationId) (intent : EffectOperationIntent) (prepared_at : LocalTimestamp) :
    result OperationTransitionError EffectOperation :=
  _ ← validate_mutation_states (oi_mutation intent) (oi_expected intent) (oi_planned intent);
  Ok {| op_identity := identity; op_intent := intent; op_progress := Prepared prepared_at |}.
Definition restore (identity : EffectOperationId) (intent : EffectOperationIntent) (progress : OperationProgress) :
    result OperationTransitionError EffectOperation :=
  _ ← validate_mutation_states (oi_mutation intent) (oi_expected intent) (oi_planned intent);
  Ok {| op_identity := identity; op_intent := intent; op_progress := progress |}.

(** The transitions of the progress; the operation keeps its identity and intent. *)
Definition progress_applied (p : OperationProgress) (applied_at : LocalTimestamp) :
    result OperationTransitionError OperationProgress :=
  match p with
  | Prepared prepared_at => Ok (Applied prepared_at (Z.max applied_at prepared_at))
  | _ => Err ExpectedPrepared
  end.
Definition progress_finalized (p : OperationProgress) (finalized_at : LocalTimestamp) :
    result OperationTransitionError OperationProgress :=
  match p with
  | Applied prepared_at applied_at => Ok (Finalized prepared_at applied_at (Z.max finalized_at applied_at))
  | _ => Err ExpectedApplied
  end.
Definition progress_recovery (p : OperationProgress) (detected_at : LocalTimestamp) :
    result OperationTransitionError OperationProgress :=
  match p with
  | Prepared prepared_at => Ok (RecoveryRequired prepared_at None (Z.max detected_at prepared_at))
  | Applied prepared_at applied_at =>
      Ok (RecoveryRequired prepared_at (Some applied_at) (Z.max detected_at applied_at))
  | Finalized _ _ _ | FinalizedWithoutEffect _ _ _ | RecoveryRequired _ _ _ => Err CannotRequireRecovery
  end.
Definition progress_recovered (p : OperationProgress) (finalized_at : LocalTimestamp) :
    result OperationTransitionError OperationProgress :=
  match p with
  | RecoveryRequired prepared_at applied_at detected_at =>
      let applied_at := default (Z.max detected_at prepared_at) applied_at in
      Ok (Finalized prepared_at applied_at (Z.max finalized_at applied_at))
  | _ => Err ExpectedRecoveryRequired
  end.
Definition progress_closed (p : OperationProgress) (finalized_at : LocalTimestamp) :
    result OperationTransitionError OperationProgress :=
  match p with
  | RecoveryRequired prepared_at applied_at detected_at =>
      Ok (FinalizedWithoutEffect prepared_at applied_at (Z.max finalized_at detected_at))
  | _ => Err ExpectedRecoveryRequired
  end.

Definition with_progress (o : EffectOperation) (p : OperationProgress) : EffectOperation :=
  {| op_identity := op_identity o; op_intent := op_intent o; op_progress := p |}.

Definition op_mark_applied (o : EffectOperation) (applied_at : LocalTimestamp) :
    result OperationTransitionError EffectOperation :=
  with_progress o <$> progress_applied (op_progress o) applied_at.
Definition op_finalize (o : EffectOperation) (finalized_at : LocalTimestamp) :
    result OperationTransitionError EffectOperation :=
  with_progress o <$> progress_finalized (op_progress o) finalized_at.
Definition op_require_recovery (o : EffectOperation) (detected_at : LocalTimestamp) :
    result OperationTransitionError EffectOperation :=
  with_progress o <$> progress_recovery (op_progress o) detected_at.
Definition op_finalize_recovered (o : EffectOperation) (finalized_at : LocalTimestamp) :
    result OperationTransitionError EffectOperation :=
  with_progress o <$> progress_recovered (op_progress o) finalized_at.
Definition op_close_without_effect (o : EffectOperation) (finalized_at : LocalTimestamp) :
    result OperationTransitionError EffectOperation :=
  with_progress o <$> progress_closed (op_progress o) finalized_at.

(** ** Artifacts and coordination *)

Inductive ArtifactRole : Type := Staging | Backup | Compensation.
Inductive ArtifactState : Type := Reserved | Retained | PendingCleanup | CleanupFailed.
Record OperationArtifact : Type :=
  { ar_identity : ArtifactId; ar_operation : EffectOperationId; ar_role : ArtifactRole; ar_locator : string;
    ar_expected_fingerprint : string; ar_state : ArtifactState }.
Definition with_artifact_state (a : OperationArtifact) (s : ArtifactState) : OperationArtifact :=
  {| ar_identity := ar_identity a; ar_operation := ar_operation a; ar_role := ar_role a; ar_locator := ar_locator a;
     ar_expected_fingerprint := ar_expected_fingerprint a; ar_state := s |}.

Record CoordinationContract : Type := { cc_kind : string; cc_version : N }.
#[export] Instance CoordinationContract_eq_dec : EqDecision CoordinationContract.
Proof. solve_decision. Defined.
Inductive CoordinationRequirement : Type :=
| Uninterrupted
| QuiesceBeforeMutation (contract : CoordinationContract).
#[export] Instance CoordinationRequirement_eq_dec : EqDecision CoordinationRequirement.
Proof. solve_decision. Defined.

Record CoordinationPlan : Type :=
  { cp_resources : gset EffectResourceId; cp_participants : gmap EffectTargetId CoordinationRequirement }.
Definition new_coordination_plan (resources : gset EffectResourceId)
    (participants : gmap EffectTargetId CoordinationRequirement) : result OperationTransitionError CoordinationPlan :=
  if bool_decide (resources = ∅) then Err EmptyCoordinationResources
  else Ok {| cp_resources := resources; cp_participants := participants |}.

Inductive CoordinationReceiptState : Type := SafeToMutate | Reactivated.
#[export] Instance CoordinationReceiptState_eq_dec : EqDecision CoordinationReceiptState.
Proof. solve_decision. Defined.
Record CoordinationReceipt : Type :=
  { cr_target : EffectTargetId; cr_contract : CoordinationContract; cr_state : CoordinationReceiptState;
    cr_proof : AdapterReceipt }.

(** ** Attempts *)

Record ReconcileAttemptIntent : Type :=
  { ai_target : EffectTargetId; ai_generation : Generation; ai_consumer_revision : ConsumerRevisionId;
    ai_target_projection : string; ai_resource_projections : gset string; ai_coordination : CoordinationPlan;
    ai_operations : list EffectOperationId }.
Record ReconcileAttempt : Type :=
  { at_identity : ReconcileAttemptId; at_intent : ReconcileAttemptIntent; at_phase : ReconcileAttemptPhase }.

Definition attempt_restore (identity : ReconcileAttemptId) (intent : ReconcileAttemptIntent)
    (phase : ReconcileAttemptPhase) : result OperationTransitionError ReconcileAttempt :=
  match ai_operations intent with
  | [] => Err EmptyAttemptOperations
  | _ => Ok {| at_identity := identity; at_intent := intent; at_phase := phase |}
  end.
Definition attempt_prepare (identity : ReconcileAttemptId) (intent : ReconcileAttemptIntent) :
    result OperationTransitionError ReconcileAttempt :=
  match ai_operations intent with
  | [] => Err EmptyAttemptOperations
  | _ => Ok {| at_identity := identity; at_intent := intent; at_phase := AttemptPrepared |}
  end.

Definition with_attempt_phase (a : ReconcileAttempt) (p : ReconcileAttemptPhase) : ReconcileAttempt :=
  {| at_identity := at_identity a; at_intent := at_intent a; at_phase := p |}.
Definition attempt_transition (a : ReconcileAttempt) (expected next : ReconcileAttemptPhase) :
    result OperationTransitionError ReconcileAttempt :=
  if negb (bool_decide (at_phase a = expected)) then Err (UnexpectedAttemptPhase expected (at_phase a))
  else Ok (with_attempt_phase a next).

Definition mark_coordinated (a : ReconcileAttempt) := attempt_transition a AttemptPrepared Coordinated.
Definition attempt_mark_applied (a : ReconcileAttempt) := attempt_transition a Coordinated AttemptApplied.
Definition mark_verified (a : ReconcileAttempt) := attempt_transition a AttemptApplied Verified.
Definition mark_activated (a : ReconcileAttempt) := attempt_transition a Verified Activated.
Definition attempt_finalize (a : ReconcileAttempt) := attempt_transition a Activated AttemptFinalized.
Definition attempt_finalize_recovered (a : ReconcileAttempt) :=
  attempt_transition a AttemptRecoveryRequired AttemptFinalized.
Definition attempt_require_recovery (a : ReconcileAttempt) : result OperationTransitionError ReconcileAttempt :=
  match at_phase a with
  | AttemptPrepared | Coordinated | AttemptApplied | Verified | Activated =>
      Ok (with_attempt_phase a AttemptRecoveryRequired)
  | AttemptFinalized | AttemptRecoveryRequired => Err CannotRequireAttemptRecovery
  end.

(** ** The journal as a state machine *)

Inductive OperationEvent : Type :=
| MarkApplied (at_ : LocalTimestamp)
| FinalizeOperation (at_ : LocalTimestamp)
| RequireOperationRecovery (at_ : LocalTimestamp)
| FinalizeRecovered (at_ : LocalTimestamp)
| CloseWithoutEffect (at_ : LocalTimestamp).
Definition operation_event (o : EffectOperation) (e : OperationEvent) :
    result OperationTransitionError EffectOperation :=
  match e with
  | MarkApplied t => op_mark_applied o t
  | FinalizeOperation t => op_finalize o t
  | RequireOperationRecovery t => op_require_recovery o t
  | FinalizeRecovered t => op_finalize_recovered o t
  | CloseWithoutEffect t => op_close_without_effect o t
  end.

(** One accepted event. *)
Definition operation_step (o o' : EffectOperation) : Prop := exists e, operation_event o e = Ok o'.

(** The timestamps of a progress are in the order of its phases. *)
Definition timestamps_ordered (p : OperationProgress) : Prop :=
  match p with
  | Prepared _ => True
  | Applied p a => p <= a
  | Finalized p a f => p <= a /\ a <= f
  | FinalizedWithoutEffect p a f => match a with Some a => p <= a /\ a <= f | None => p <= f end
  | RecoveryRequired p a d => match a with Some a => p <= a /\ a <= d | None => p <= d end
  end.
Definition prepared_time (p : OperationProgress) : LocalTimestamp :=
  match p with
  | Prepared p | Applied p _ | Finalized p _ _ | FinalizedWithoutEffect p _ _ | RecoveryRequired p _ _ => p
  end.
(** When the application was recorded, where it was. *)
Definition applied_time (p : OperationProgress) : option LocalTimestamp :=
  match p with
  | Prepared _ => None
  | Applied _ a | Finalized _ a _ => Some a
  | FinalizedWithoutEffect _ a _ | RecoveryRequired _ a _ => a
  end.
Definition closed (p : OperationProgress) : bool :=
  match p with Finalized _ _ _ | FinalizedWithoutEffect _ _ _ => true | _ => false end.

(** How far a progress is: every accepted event raises it. *)
Definition progress_rank (p : OperationProgress) : nat :=
  match p with
  | Prepared _ => 0
  | Applied _ _ => 1
  | RecoveryRequired _ _ _ => 2
  | Finalized _ _ _ | FinalizedWithoutEffect _ _ _ => 3
  end.

Lemma operation_step_facts o o' : operation_step o o' ->
  op_identity o' = op_identity o /\ op_intent o' = op_intent o
  /\ prepared_time (op_progress o') = prepared_time (op_progress o)
  /\ (timestamps_ordered (op_progress o) -> timestamps_ordered (op_progress o'))
  /\ (progress_rank (op_progress o) < progress_rank (op_progress o'))%nat
  /\ (forall t, applied_time (op_progress o) = Some t -> applied_time (op_progress o') = Some t).
Proof.
  intros [e H]. revert H. destruct o as [? ? []], e; simpl; intros H; inv H; simpl;
    repeat match goal with x : option _ |- _ => destruct x end; simpl;
    split_and!; intros; simplify_eq; try done; lia.
Qed.

(** A closed journal accepts nothing more. *)
Lemma closed_final o e : closed (op_progress o) = true -> is_Some (to_option (operation_event o e)) -> False.
Proof. destruct o as [? ? []], e; simpl; intros Hc [? H]; done. Qed.

(** Ordinary work never closes a journal without its effect, and never after a recovery was
    required: closing then takes a recovery event. *)
Lemma recovering_closes_by_recovery o e o' p a d : op_progress o = RecoveryRequired p a d ->
  operation_event o e = Ok o' ->
  (exists t, e = FinalizeRecovered t) \/ (exists t, e = CloseWithoutEffect t).
Proof. destruct o as [? ? []], e; simpl; intros [= -> -> ->] H; inv H; eauto. Qed.

(** ** Attempts *)

Inductive AttemptEvent : Type :=
| MarkCoordinated | MarkAttemptApplied | MarkVerified | MarkActivated | FinalizeAttempt
| FinalizeAttemptRecovered | RequireAttemptRecovery.
Definition attempt_event (a : ReconcileAttempt) (e : AttemptEvent) : result OperationTransitionError ReconcileAttempt :=
  match e with
  | MarkCoordinated => mark_coordinated a
  | MarkAttemptApplied => attempt_mark_applied a
  | MarkVerified => mark_verified a
  | MarkActivated => mark_activated a
  | FinalizeAttempt => attempt_finalize a
  | FinalizeAttemptRecovered => attempt_finalize_recovered a
  | RequireAttemptRecovery => attempt_require_recovery a
  end.

(** The attempt after a list of accepted events. *)
Definition attempt_run (a : ReconcileAttempt) (es : list AttemptEvent) : result OperationTransitionError ReconcileAttempt :=
  fold_result attempt_event a es.

(** The ordinary order of the phases, and the recovery detour. *)
Definition linear_events : list AttemptEvent :=
  [MarkCoordinated; MarkAttemptApplied; MarkVerified; MarkActivated; FinalizeAttempt].
Definition recovery_events (n : nat) : list AttemptEvent :=
  take n linear_events ++ [RequireAttemptRecovery; FinalizeAttemptRecovered].

Definition phase_rank (p : ReconcileAttemptPhase) : nat :=
  match p with
  | AttemptPrepared => 0 | Coordinated => 1 | AttemptApplied => 2 | Verified => 3 | Activated => 4
  | AttemptRecoveryRequired => 5 | AttemptFinalized => 6
  end.

Lemma attempt_event_facts a e a' : attempt_event a e = Ok a' ->
  at_identity a' = at_identity a /\ at_intent a' = at_intent a
  /\ (phase_rank (at_phase a) < phase_rank (at_phase a'))%nat.
Proof. destruct a as [? ? []], e; cbn; intros H; inv H; simpl; split_and!; try done; lia. Qed.

(** ** Properties *)

Lemma operation_rank_bound n o o' : nsteps operation_step n o o' ->
  (n + progress_rank (op_progress o) <= progress_rank (op_progress o'))%nat.
Proof.
  induction 1 as [|n o o1 o2 H1 _ IH]; [lia|].
  apply operation_step_facts in H1 as (_ & _ & _ & _ & ? & _). lia.
Qed.

Lemma progress_rank_le p : (progress_rank p <= 3)%nat.
Proof. destruct p; simpl; lia. Qed.
Lemma closed_rank p : closed p = true <-> progress_rank p = 3%nat.
Proof. destruct p; simpl; done. Qed.

Lemma operation_history o o' : rtc operation_step o o' ->
  op_identity o' = op_identity o /\ op_intent o' = op_intent o
  /\ (timestamps_ordered (op_progress o) -> timestamps_ordered (op_progress o'))
  /\ (forall t, applied_time (op_progress o) = Some t -> applied_time (op_progress o') = Some t)
  /\ (closed (op_progress o) = true -> o' = o).
Proof.
  induction 1 as [|o o1 o2 H1 _ IH]; [done|].
  pose proof (operation_step_facts _ _ H1) as (F1 & F2 & _ & F4 & F5 & F6).
  destruct IH as (G1 & G2 & G3 & G4 & _). split_and!.
  - congruence.
  - congruence.
  - auto.
  - auto.
  - intros Hc. apply closed_rank in Hc. pose proof (progress_rank_le (op_progress o1)). lia.
Qed.

Lemma prepare_Ok identity intent t o : prepare identity intent t = Ok o <->
  validate_mutation_states (oi_mutation intent) (oi_expected intent) (oi_planned intent) = Ok tt
  /\ o = {| op_identity := identity; op_intent := intent; op_progress := Prepared t |}.
Proof.
  unfold prepare. rewrite bind_Ok. split.
  - intros ([] & H & [= <-]). done.
  - intros [H ->]. by exists tt.
Qed.

(** The life of an operation journal.  Whatever transitions are accepted after [prepare], in
    whatever order, the identity and the intent are the prepared ones, the recorded times are in
    the order of the phases (prepared <= applied <= finalized or detected), at most three
    transitions are accepted, apply evidence once recorded is never erased, and a closed journal
    never changes again. *)
Theorem operation_lifecycle (identity : EffectOperationId) (intent : EffectOperationIntent)
    (t : LocalTimestamp) (o o' : EffectOperation) (n : nat)
    (Hp : prepare identity intent t = Ok o) (Hs : nsteps operation_step n o o') :
  op_identity o' = identity /\ op_intent o' = intent
  /\ timestamps_ordered (op_progress o') /\ (n <= 3)%nat
  /\ (forall o'', rtc operation_step o' o'' ->
        (forall a, applied_time (op_progress o') = Some a -> applied_time (op_progress o'') = Some a)
        /\ (closed (op_progress o') = true -> o'' = o')).
Proof.
  apply prepare_Ok in Hp as [_ ->]. pose proof (operation_rank_bound _ _ _ Hs) as Hn.
  pose proof (progress_rank_le (op_progress o')). apply rtc_nsteps_2, operation_history in Hs as (H1 & H2 & H3 & _).
  split_and!; [done|done|by apply H3|simpl in Hn; lia|].
  intros o'' Hs. apply operation_history in Hs as (_ & _ & _ & ? & ?). done.
Qed.

Lemma attempt_run_cons a e es :
  attempt_run a (e :: es) = (a' ← attempt_event a e; attempt_run a' es).
Proof. done. Qed.

(** An attempt is finalized in exactly two ways.  From [prepare], a sequence of accepted
    transitions ends in [Finalized] if and only if it is coordinated, applied, verified,
    activated, finalized in this order, or some proper prefix of it followed by the recovery
    detour; so no stage of evidence is ever skipped. *)
Theorem attempt_finalized_iff (identity : ReconcileAttemptId) (intent : ReconcileAttemptIntent)
    (a : ReconcileAttempt) (es : list AttemptEvent)
    (Hp : attempt_prepare identity intent = Ok a) :
  (exists a', attempt_run a es = Ok a' /\ at_phase a' = AttemptFinalized)
  <-> es = linear_events \/ exists n, (n <= 4)%nat /\ es = recovery_events n.
Proof.
  unfold attempt_prepare in Hp. destruct (ai_operations intent); [done|]. injection Hp as <-. split.
  - intros (a' & H & Hf).
    do 7 (destruct es as [|[] es]; cbn in H; try discriminate; try (injection H as <-; simpl in Hf);
          try discriminate Hf;
          try (by left); try (right; by (exists 0%nat + exists 1%nat + exists 2%nat + exists 3%nat + exists 4%nat);
                              split; [lia|reflexivity])).
  - intros [->|(n & Hn & ->)]; [by eexists|].
    do 5 (destruct n as [|n]; [by eexists|]). lia.
Qed.

(** ** Samples *)

Definition sample_plan : VersionedAdapterPlan :=
  FilesystemDirectoryV1Plan
    {| fo_workspace_root := "/w"; fo_resource_relative_path := {| normalized := "skills" |};
       fo_resource_root := "/w/skills"; fo_source_root := Some "/s"; fo_staging_path := "/w/.s";
       fo_backup_path := "/w/.b" |}.
Definition sample_intent : EffectOperationIntent :=
  {| oi_attempt := "a"; oi_resource := "r"; oi_generation := 3%N; oi_sequence := 0%N; oi_mutation := Create;
     oi_expected := Missing; oi_planned := Present "x" "f" "m"; oi_payload := sample_plan |}.
Definition sample_operation (p : OperationProgress) : EffectOperation :=
  {| op_identity := "op"; op_intent := sample_intent; op_progress := p |}.

(** Applied by a clock that went back, then recovered. *)
Lemma operation_lifecycle_witness :
  timestamps_ordered (Finalized 10 10 12)
  /\ (forall o, rtc operation_step (sample_operation (Finalized 10 10 12)) o ->
        o = sample_operation (Finalized 10 10 12)).
Proof.
  assert (nsteps operation_step 3 (sample_operation (Prepared 10)) (sample_operation (Finalized 10 10 12))) as Hs.
  { econstructor; [by exists (MarkApplied 7)|]. econstructor; [by exists (RequireOperationRecovery 11)|].
    econstructor; [by exists (FinalizeRecovered 12)|]. constructor. }
  pose proof (operation_lifecycle "op" sample_intent 10 (sample_operation (Prepared 10)) _ 3 eq_refl Hs) as H.
  destruct H as (_ & _ & H1 & _ & H2). split; [exact H1|].
  intros o Ho. exact (proj2 (H2 o Ho) eq_refl).
Defined.

Definition sample_attempt_intent : ReconcileAttemptIntent :=
  {| ai_target := "t"; ai_generation := 3%N; ai_consumer_revision := "c"; ai_target_projection := "p";
     ai_resource_projections := ∅; ai_coordination := {| cp_resources := {["r"]}; cp_participants := ∅ |};
     ai_operations := ["op"] |}.
Lemma attempt_finalized_iff_witness :
  ~ exists a', attempt_run {| at_identity := "a"; at_intent := sample_attempt_intent; at_phase := AttemptPrepared |}
                 [MarkCoordinated; MarkVerified; MarkActivated; FinalizeAttempt] = Ok a'
               /\ at_phase a' = AttemptFinalized.
Proof.
  intros H.
  apply (attempt_finalized_iff "a" sample_attempt_intent
    {| at_identity := "a"; at_intent := sample_attempt_intent; at_phase := AttemptPrepared |} _ eq_refl) in H.
  destruct H as [H|(n & Hn & H)]; [discriminate|].
  do 5 (destruct n as [|n]; [discriminate|]). lia.
Defined.
