(* ===== verification/EffectPorts.v ===== *)
(** * Desired state, declarations and projections of the Effect system

    [crates/effect/src/desired.rs], [target.rs], [projection.rs] and [planner.rs]: what a scope
    wants, what a consumer declares, and the complete views and mutations a planner derives. *)

From S2P Require Import Prelude RustStr Order Json PortablePath EffectStatus EffectOperation.
Local Open Scope ora_scope.

(** ** Desired state *)

Inductive SkillSourceKind : Type := LocalSource | PluginSource.
Record SkillSourceKey : Type := { source_kind : SkillSourceKind; namespace : string; skill_name : SkillName }.
Record SkillDefinition : Type :=
  { sd_source : SkillSourceKey; sd_skill_md_digest : string; sd_package_fingerprint : string;
    sd_package_root : string }.
Inductive ValidatedEffectDefinition : Type := SkillDefinitionV (definition : SkillDefinition).
Definition definition_kind (d : ValidatedEffectDefinition) : EffectKind :=
  match d with SkillDefinitionV _ => skill_kind end.

(** [StableReason::parse] *)
Inductive DesiredStateError : Type :=
| EmptyStableReason
| DuplicateDesiredEffect (identity : DesiredEffectIdentity).
Definition parse_stable_reason (value : string) : result DesiredStateError string :=
  if bool_decide (trim value = "") then Err EmptyStableReason else Ok value.

Inductive RevisionAvailability : Type := Available | Unavailable (reason : string).
Record EffectRevision : Type :=
  { er_identity : EffectRevisionId; er_source : EffectSourceIdentity; er_revision_key : string;
    er_definition : ValidatedEffectDefinition; er_digest : string; er_availability : RevisionAvailability }.

Inductive ValidatedEffectParameters : Type := SkillParametersV.
Definition parameters_kind (p : ValidatedEffectParameters) : EffectKind :=
  match p with SkillParametersV => skill_kind end.

Record CapabilitySet : Type :=
  { effect_protocols : gmap EffectKind N; materialization_contracts : gset string;
    coordination_contracts : gset string; readiness_contracts : gset string }.
Record CapabilityRequirement : Type :=
  { required_protocols : gmap EffectKind N; required_contracts : gset string }.

(** [CapabilityRequirement::is_satisfied_by] *)
Definition is_satisfied_by (r : CapabilityRequirement) (c : CapabilitySet) : bool :=
  forallb (fun p : EffectKind * N => bool_decide (effect_protocols c !! p.1 = Some p.2))
    (btree_entries str_le (required_protocols r))
  && bool_decide (required_contracts r ⊆ materialization_contracts c).

Inductive TargetInclusion : Type := AllEligible | Only (consumers : gset ConsumerIdentity).
Record TargetSelector : Type :=
  { required_capabilities : CapabilityRequirement; include : TargetInclusion; exclude : gset ConsumerIdentity }.
(** [TargetSelector::selects] *)
Definition selects (s : TargetSelector) (consumer : ConsumerIdentity) (c : CapabilitySet) : bool :=
  let included := match include s with
    | AllEligible => true
    | Only consumers => bool_decide (consumer ∈ consumers)
    end in
  included && negb (bool_decide (consumer ∈ exclude s)) && is_satisfied_by (required_capabilities s) c.
(** [TargetSelector::default] *)
Definition default_selector : TargetSelector :=
  {| required_capabilities := {| required_protocols := ∅; required_contracts := ∅ |};
     include := AllEligible; exclude := ∅ |}.

Record DesiredEffect : Type :=
  { de_identity : DesiredEffectIdentity; de_revision : EffectRevisionId;
    de_parameters : ValidatedEffectParameters; de_audience : TargetSelector }.
Record DesiredState : Type :=
  { ds_scope : EffectScopeId; ds_generation : Generation; ds_effects : gmap DesiredEffectIdentity DesiredEffect }.

(** [DesiredState::normalized] *)
Definition normalized_state (scope : EffectScopeId) (generation : Generation) (effects : list DesiredEffect) :
    result DesiredStateError DesiredState :=
  m ← fold_result (fun (acc : gmap DesiredEffectIdentity DesiredEffect) e =>
        match acc !! de_identity e with
        | Some _ => Err (DuplicateDesiredEffect (de_identity e))
        | None => Ok (<[de_identity e := e]> acc)
        end) ∅ effects;
  Ok {| ds_scope := scope; ds_generation := generation; ds_effects := m |}.

(** ** Declarations *)

Record ConsumerRevision : Type :=
  { cv_identity : ConsumerRevisionId; cv_consumer : ConsumerIdentity; cv_capabilities : CapabilitySet;
    cv_declaration_digest : string }.
Inductive Lifecycle : Type := Active | Retiring.
#[export] Instance Lifecycle_eq_dec : EqDecision Lifecycle.
Proof. solve_decision. Defined.
Record EffectTarget : Type :=
  { et_identity : EffectTargetId; et_scope : EffectScopeId; et_consumer : ConsumerIdentity;
    et_consumer_revision : ConsumerRevisionId; et_lifecycle : Lifecycle }.

Record MaterializationContract : Type := { mc_kind : string; mc_version : N }.
#[export] Instance MaterializationContract_eq_dec : EqDecision MaterializationContract.
Proof. solve_decision. Defined.
#[export] Instance MaterializationContract_countable : Countable MaterializationContract.
Proof.
  refine (inj_countable' (fun c => (mc_kind c, mc_version c))
    (fun p => {| mc_kind := p.1; mc_version := p.2 |}) _). by intros [].
Defined.
Definition skill_directory_v1 : MaterializationContract := {| mc_kind := "ora/skill-directory"; mc_version := 1 |}.
Definition agent_restart_v1 : CoordinationContract := {| cc_kind := "ora/agent-restart"; cc_version := 1 |}.
Definition contract_key (kind : string) (version : N) : string := kind +:+ ".v" +:+ of_N version.
Definition materialization_key (c : MaterializationContract) : string := contract_key (mc_kind c) (mc_version c).
Definition coordination_key (c : CoordinationContract) : string := contract_key (cc_kind c) (cc_version c).

(** [ResourcePath::parse] *)
Inductive DeclarationError : Type :=
| UnsafeRelativePath (value : string)
| WorkspaceRootResource
| EmptyMaterializationFormat
| MissingCoordinationCapability (contract : string)
| MissingMaterializationCapability (contract : string)
| IncompatibleResourceFormats (key : string)
| IncompatibleResourceContracts (key : string).
Notation ResourcePath := PortableRelativePath (only parsing).
Definition parse_resource_path (value : string) : result DeclarationError ResourcePath :=
  p ← map_err (fun _ => UnsafeRelativePath value) (PortablePath.parse value);
  reject is_root p with WorkspaceRootResource; Ok p.
Definition parse_materialization_format (value : string) : result DeclarationError string :=
  if bool_decide (trim value = "") then Err EmptyMaterializationFormat else Ok value.

Inductive VersionedResourceDescriptor : Type :=
| FilesystemDirectoryV1 (workspace_root : string) (relative_path : ResourcePath)
| FilesystemFileV1 (workspace_root : string) (relative_path ownership_relative_path : ResourcePath).
Record EffectResource : Type :=
  { ef_identity : EffectResourceId; ef_scope : EffectScopeId; ef_resource_key : string; ef_adapter : string;
    ef_descriptor : VersionedResourceDescriptor; ef_format : string; ef_lifecycle : Lifecycle }.
Record TargetResourceBinding : Type :=
  { tb_target : EffectTargetId; tb_resource : EffectResourceId; tb_materialization_contract : MaterializationContract;
    tb_accepts : CapabilityRequirement; tb_coordination : CoordinationRequirement }.
Record TargetDeclaration : Type :=
  { td_target : EffectTargetId; td_consumer_revision : ConsumerRevisionId;
    td_bindings : gmap EffectResourceId TargetResourceBinding; td_digest : string }.

Record FilesystemResourceTemplate : Type :=
  { ft_relative_path : ResourcePath; ft_materialization_format : string;
    ft_materialization_contract : MaterializationContract; ft_accepts : CapabilityRequirement;
    ft_coordination : CoordinationRequirement; ft_ownership_relative_path : option ResourcePath }.
(** [FilesystemResourceTemplate::resource_key] *)
Definition resource_key (t : FilesystemResourceTemplate) : string :=
  (if ft_ownership_relative_path t then "filesystem-file" else "filesystem-directory")
  +:+ ":" +:+ normalized (ft_relative_path t).
Record ConsumerDeclaration : Type :=
  { cd_consumer : ConsumerIdentity; cd_adapter : string; cd_capabilities : CapabilitySet;
    cd_resources : list FilesystemResourceTemplate }.

(** One round of [ConsumerDeclaration::validate] *)
Definition validate_template (c : CapabilitySet) (seen : gmap string (string * MaterializationContract))
    (t : FilesystemResourceTemplate) : result DeclarationError (gmap string (string * MaterializationContract)) :=
  let contract := materialization_key (ft_materialization_contract t) in
  reject negb (bool_decide (contract ∈ materialization_contracts c)) with MissingMaterializationCapability contract;
  _ ← match ft_coordination t with
      | QuiesceBeforeMutation contract =>
          reject_if (negb (bool_decide (coordination_key contract ∈ coordination_contracts c)))
            (MissingCoordinationCapability (coordination_key contract))
      | Uninterrupted => Ok tt
      end;
  let key := resource_key t in
  _ ← match seen !! key with
      | Some (existing_format, existing_contract) =>
          reject negb (bool_decide (existing_format = ft_materialization_format t))
            with IncompatibleResourceFormats key;
          reject_if (negb (bool_decide (existing_contract = ft_materialization_contract t)))
            (IncompatibleResourceContracts key)
      | None => Ok tt
      end;
  Ok (<[key := (ft_materialization_format t, ft_materialization_contract t)]> seen).
Definition validate_declaration (d : ConsumerDeclaration) : result DeclarationError unit :=
  _ ← fold_result (validate_template (cd_capabilities d)) ∅ (cd_resources d); Ok tt.

(** ** Projections and plans *)

Record ResourceRequirement : Type :=
  { rq_target : EffectTargetId; rq_resource : EffectResourceId; rq_desired_effects : gset DesiredEffectIdentity;
    rq_materialization_contract : MaterializationContract; rq_digest : string }.
Record TargetProjection : Type :=
  { tp_target : EffectTargetId; tp_generation : Generation; tp_consumer_revision : ConsumerRevisionId;
    tp_desired_effects : gset DesiredEffectIdentity;
    tp_resource_requirements : gmap EffectResourceId ResourceRequirement; tp_digest : string }.
Record SkillMaterializationInput : Type :=
  { sm_name : SkillName; sm_source : SkillSourceKey; sm_package_root : string; sm_skill_md_digest : string;
    sm_package_fingerprint : string }.
Inductive VersionedMaterializationInput : Type := SkillDirectoryV1 (input : SkillMaterializationInput).
Record ResolvedMaterialization : Type :=
  { rm_managed_identity : ManagedIdentity; rm_desired_effect : DesiredEffectIdentity; rm_revision : EffectRevisionId;
    rm_native_identity : NativeResourceIdentity; rm_fingerprint : string; rm_contract : MaterializationContract;
    rm_input_digest : string; rm_input : VersionedMaterializationInput }.
Record ResourceProjection : Type :=
  { rp_resource : EffectResourceId; rp_generation : Generation; rp_contributors : gset EffectTargetId;
    rp_items : gmap ManagedIdentity ResolvedMaterialization; rp_digest : string }.
Record ManagedItem : Type :=
  { mi_identity : ManagedIdentity; mi_resource : EffectResourceId; mi_desired_effect : DesiredEffectIdentity;
    mi_applied_revision : EffectRevisionId; mi_native_identity : NativeResourceIdentity; mi_fingerprint : string;
    mi_applied_generation : Generation }.
Inductive OwnershipEvidence : Type := NoOwnershipEvidence | Claims (identity : ManagedIdentity).
#[export] Instance OwnershipEvidence_eq_dec : EqDecision OwnershipEvidence.
Proof. solve_decision. Defined.
Record ObservedItem : Type :=
  { ob_native_identity : NativeResourceIdentity; ob_fingerprint : string; ob_ownership_evidence : OwnershipEvidence }.
Record ResourceObservation : Type :=
  { ro_resource : EffectResourceId; ro_items : gmap NativeResourceIdentity ObservedItem; ro_fingerprint : string }.
Record PreservedItem : Type :=
  { pi_resource : EffectResourceId; pi_native_identity : NativeResourceIdentity; pi_fingerprint : string }.

(** *** Conditions *)

Inductive ConditionOwner : Type := OwnerTarget (t : EffectTargetId) | OwnerResource (r : EffectResourceId).
Inductive ConditionSubject : Type :=
| SubjectConsumer (c : ConsumerIdentity)
| SubjectTarget (t : EffectTargetId)
| SubjectDesiredEffect (d : DesiredEffectIdentity)
| SubjectResource (r : EffectResourceId)
| SubjectManagedItem (m : ManagedIdentity)
| SubjectOperation (o : EffectOperationId)
| SubjectArtifact (a : ArtifactId).
Inductive ConditionImpact : Type := Blocking | NonBlocking.
Inductive ConditionRetry : Type :=
| OnChange
| Backoff (initial_delay_millis maximum_delay_millis : N)
| Manual.
Inductive ConditionGeneration : Type := Unscoped | AtGeneration (g : Generation).
Record ConditionProposal : Type :=
  { cn_owner : ConditionOwner; cn_subject : ConditionSubject; cn_code : string; cn_impact : ConditionImpact;
    cn_retry : ConditionRetry; cn_generation : ConditionGeneration; cn_message : string;
    cn_parameters : gmap string string }.

(** *** Planner interface *)

Record PlannedMutation : Type :=
  { pm_managed_identity : ManagedIdentity; pm_desired_effect : option DesiredEffectIdentity;
    pm_mutation : EffectMutation; pm_expected : ExactPreviousState; pm_planned : ExactPlannedState;
    pm_input : option VersionedMaterializationInput }.
Inductive PlannedResourceChange : Type :=
| Mutate (m : PlannedMutation)
| ForgetMissing (identity : ManagedIdentity).
Record ResourcePlan : Type :=
  { pl_projection : ResourceProjection; pl_preserved : list PreservedItem; pl_changes : list PlannedResourceChange }.
Inductive PlanningResult (T : Type) : Type :=
| Projected (value : T)
| Blocked (conditions : list ConditionProposal).
Arguments Projected {T} value.
Arguments Blocked {T} conditions.

Inductive PlannerError : Type :=
| ScopeMismatch
| ConsumerMismatch
| ConsumerRevisionMismatch
| ObservationResourceMismatch
| RequirementResourceMismatch
| DesiredEffectMissing (d : DesiredEffectIdentity)
| Serialize
| PlannerIdentity (e : IdentityError).

Record TargetPlanningInput : Type :=
  { ti_desired : DesiredState; ti_target : EffectTarget; ti_consumer_revision : ConsumerRevision;
    ti_declaration : TargetDeclaration; ti_resources : gmap EffectResourceId EffectResource;
    ti_revisions : gmap EffectRevisionId EffectRevision }.
Record ResourcePlanningInput : Type :=
  { ri_resource : EffectResource; ri_generation : Generation; ri_requirements : list ResourceRequirement;
    ri_desired_effects : gmap DesiredEffectIdentity DesiredEffect; ri_revisions : gmap EffectRevisionId EffectRevision;
    ri_managed : list ManagedItem; ri_observed : ResourceObservation }.

(** [EffectPlanner] *)
Class EffectPlanner : Type := {
  project_target : TargetPlanningInput -> result PlannerError (PlanningResult TargetProjection);
  plan_resource : ResourcePlanningInput -> result PlannerError (PlanningResult ResourcePlan);
}.

(** ** Properties of the data model *)

Lemma normalized_state_Ok scope generation effects s : normalized_state scope generation effects = Ok s <->
  NoDup (de_identity <$> effects)
  /\ s = {| ds_scope := scope; ds_generation := generation;
            ds_effects := list_to_map ((fun e => (de_identity e, e)) <$> effects) |}.
Proof.
  unfold normalized_state. rewrite bind_Ok.
  set (f := fun _ _ => _). assert (forall l acc m,
    fold_result f acc l = Ok m <->
      NoDup (de_identity <$> l) /\ (forall e, e ∈ l -> acc !! de_identity e = None)
      /\ m = list_to_map ((fun e => (de_identity e, e)) <$> l) ∪ acc) as Hf.
  { induction l as [|e l IH]; intros acc m; csimpl.
    - split; [intros [= <-]|intros (_ & _ & ->)]; [|by rewrite map_empty_union].
      split_and!; [constructor|set_solver|by rewrite map_empty_union].
    - rewrite bind_Ok. unfold f at 1. split.
      + intros (acc' & Ha & H). destruct (acc !! de_identity e) eqn:E; [done|]. injection Ha as <-.
        apply IH in H as (Hnd & Hfresh & ->). split_and!.
        * constructor; [|done]. rewrite list_elem_of_fmap. intros (e' & Heq & Hin).
          specialize (Hfresh e' Hin). rewrite <-Heq, lookup_insert_eq in Hfresh. done.
        * intros e' [->|Hin]%elem_of_cons; [done|]. specialize (Hfresh e' Hin).
          by apply lookup_insert_None in Hfresh as [? _].
        * rewrite <-insert_union_l, insert_union_r; [done|].
          apply not_elem_of_list_to_map_1. rewrite <-list_fmap_compose. intros (e' & Heq & Hin)%list_elem_of_fmap.
          simpl in Heq. specialize (Hfresh e' Hin). rewrite <-Heq, lookup_insert_eq in Hfresh. done.
      + intros ((Hni & Hnd)%NoDup_cons & Hfresh & ->). exists (<[de_identity e:=e]> acc).
        rewrite (Hfresh e) by set_solver. split; [done|]. apply IH. split_and!; [done| |].
        * intros e' Hin. apply lookup_insert_None. split; [apply Hfresh; set_solver|].
          intros Heq. apply Hni. rewrite Heq. by apply list_elem_of_fmap_2.
        * rewrite <-insert_union_l, insert_union_r; [done|].
          apply not_elem_of_list_to_map_1. rewrite <-list_fmap_compose. done. }
  split.
  - intros (m & Hm & [= <-]). apply Hf in Hm as (? & _ & ->). by rewrite map_union_empty.
  - intros [Hnd ->]. eexists. split; [|done]. apply Hf. split_and!; [done|done|by rewrite map_union_empty].
Qed.

(** ** Ports of the Effect system ([crates/effect/src/ports.rs])

    The repository, the adapters and the clock are code behind traits: a class of operations on
    an arbitrary world [W].  A program over the ports runs in a monad that threads the world and
    records each call with its success, in order; [wp] reasons about the recorded calls whatever
    the world answers. *)
(** ** Records that cross the ports *)

Record ReconcileClaim : Type := { rc_token : N; rc_worker : string; rc_lease_until : LocalTimestamp }.
Record ResourceClaim : Type :=
  { rcl_resource : EffectResourceId; rcl_target_claim : N; rcl_resource_fence : N; rcl_worker : string;
    rcl_lease_until : LocalTimestamp }.
Record RelatedTargetSnapshot : Type :=
  { rt_target : EffectTarget; rt_consumer_revision : ConsumerRevision; rt_declaration : TargetDeclaration }.

(** [ReconcileSnapshot]; its [request] and [claim] copies are not read by the reconciler. *)
Record ReconcileSnapshot : Type :=
  { sn_desired : DesiredState; sn_target : EffectTarget; sn_consumer_revision : ConsumerRevision;
    sn_declaration : TargetDeclaration; sn_resources : gmap EffectResourceId EffectResource;
    sn_revisions : gmap EffectRevisionId EffectRevision;
    sn_related_targets : gmap EffectTargetId RelatedTargetSnapshot;
    sn_coordination_participants : gmap EffectResourceId (gmap EffectTargetId CoordinationRequirement);
    sn_participant_targets : gmap EffectTargetId EffectTarget; sn_target_status : TargetStatus;
    sn_resource_statuses : gmap EffectResourceId ResourceStatus;
    sn_managed : gmap EffectResourceId (list ManagedItem) }.

Definition with_statuses (s : ReconcileSnapshot) (t : TargetStatus) (r : gmap EffectResourceId ResourceStatus) :
    ReconcileSnapshot :=
  {| sn_desired := sn_desired s; sn_target := sn_target s; sn_consumer_revision := sn_consumer_revision s;
     sn_declaration := sn_declaration s; sn_resources := sn_resources s; sn_revisions := sn_revisions s;
     sn_related_targets := sn_related_targets s; sn_coordination_participants := sn_coordination_participants s;
     sn_participant_targets := sn_participant_targets s; sn_target_status := t; sn_resource_statuses := r;
     sn_managed := sn_managed s |}.

Record ProjectionCommit : Type :=
  { pc_target_projections : list TargetProjection; pc_resource_projections : list ResourceProjection;
    pc_target_status : TargetStatus; pc_resource_statuses : list ResourceStatus; pc_managed : list ManagedItem;
    pc_removed_managed : list ManagedIdentity; pc_conditions : list ConditionProposal;
    pc_readiness : option ReadinessReceipt }.
Record AttemptFinalization : Type :=
  { af_attempt : ReconcileAttempt; af_operations : list EffectOperation; af_managed : list ManagedItem;
    af_removed_managed : list ManagedIdentity; af_target_statuses : list TargetStatus;
    af_resource_statuses : list ResourceStatus; af_readiness : option ReadinessReceipt;
    af_coordination_receipts : list CoordinationReceipt; af_conditions : list ConditionProposal }.

Record RecoveryAttemptJournal : Type :=
  { ja_attempt : ReconcileAttempt; ja_operations : list EffectOperation; ja_artifacts : list OperationArtifact }.
Record TargetRecoveryJournal : Type :=
  { tj_target : EffectTarget; tj_target_status : TargetStatus; tj_attempts : list RecoveryAttemptJournal }.
Inductive RecoveryOperationClosure : Type :=
| ClosureFinalized (operation : EffectOperation)
| ClosureWithoutEffect (operation : EffectOperation).
Record RecoveryAttemptClosure : Type :=
  { ac_attempt : ReconcileAttempt; ac_operations : list RecoveryOperationClosure }.
Record TargetRecoveryFinalization : Type :=
  { tf_target : EffectTargetId; tf_attempts : list RecoveryAttemptClosure; tf_finalized_at : LocalTimestamp }.

(** [ApplyReceipt], [VerificationReceipt] and [CleanupReceipt]: an identity and a proof. *)
Record Receipt : Type := { rec_subject : string; rec_proof : AdapterReceipt }.
Record PreparedOperation : Type := { po_operation : EffectOperation; po_artifacts : list OperationArtifact }.

(** ** The ports *)

(** [RepositoryError], [ConsumerAdapterError] and [ResourceAdapterError] wrap an opaque source. *)
Definition PortError : Type := string.

Class Ports (W : Type) : Type := {
  now : W -> LocalTimestamp * W;
  random_identity : W -> string * W;
  (** the repository *)
  load_reconcile_snapshot : EffectTargetId -> ReconcileClaim -> W -> result PortError ReconcileSnapshot * W;
  claim_resources : EffectTargetId -> ReconcileClaim -> list EffectResourceId -> LocalTimestamp -> LocalTimestamp ->
    W -> result PortError (option (list ResourceClaim)) * W;
  prepare_attempt : ReconcileClaim -> ReconcileAttempt -> list TargetProjection -> list ResourceProjection ->
    list EffectOperation -> list OperationArtifact -> W -> result PortError unit * W;
  record_attempt_progress : ReconcileClaim -> ReconcileAttempt -> list EffectOperation -> list CoordinationReceipt ->
    W -> result PortError unit * W;
  block_target : EffectTargetId -> ReconcileClaim -> TargetStatus -> list ResourceStatus -> list ConditionProposal ->
    W -> result PortError unit * W;
  commit_projection : ReconcileClaim -> ProjectionCommit -> W -> result PortError unit * W;
  finalize_attempt : ReconcileClaim -> AttemptFinalization -> W -> result PortError unit * W;
  quarantine_unfinished_operations : LocalTimestamp -> W -> result PortError N * W;
  load_target_recovery : EffectTargetId -> W -> result PortError (option TargetRecoveryJournal) * W;
  finalize_target_recovery : TargetRecoveryFinalization -> W -> result PortError unit * W;
  complete_artifact_cleanup : ArtifactId -> Receipt -> W -> result PortError unit * W;
  mark_artifact_cleanup_failed : OperationArtifact -> W -> result PortError unit * W;
  (** the consumer adapter *)
  coordinate : EffectTarget -> CoordinationPlan -> W -> result PortError CoordinationReceipt * W;
  reactivate : EffectTarget -> CoordinationPlan -> W -> result PortError CoordinationReceipt * W;
  verify_ready : EffectTarget -> TargetProjection -> W -> result PortError ReadinessReceipt * W;
  (** the resource adapter *)
  prepare_operation : EffectResource -> ReconcileAttemptId -> Generation -> N -> PlannedMutation -> LocalTimestamp ->
    W -> result PortError PreparedOperation * W;
  observe : EffectResource -> W -> result PortError ResourceObservation * W;
  apply : EffectOperation -> W -> result PortError Receipt * W;
  verify : EffectOperation -> W -> result PortError Receipt * W;
  verify_expected : EffectOperation -> W -> result PortError Receipt * W;
  cleanup : OperationArtifact -> W -> result PortError Receipt * W;
}.

(** ** Recorded calls *)

Inductive Call : Type :=
| CLoadSnapshot (t : EffectTargetId)
| CClaimResources (t : EffectTargetId) (rs : list EffectResourceId)
| CPrepareAttempt (a : ReconcileAttempt) (operations : list EffectOperation) (artifacts : list OperationArtifact)
| CRecordProgress (a : ReconcileAttempt) (operations : list EffectOperation) (receipts : list CoordinationReceipt)
| CBlockTarget (t : EffectTargetId) (s : TargetStatus) (conditions : list ConditionProposal)
| CCommitProjection (c : ProjectionCommit)
| CFinalizeAttempt (f : AttemptFinalization)
| CQuarantine (at_ : LocalTimestamp)
| CLoadRecovery (t : EffectTargetId)
| CFinalizeRecovery (f : TargetRecoveryFinalization)
| CCompleteCleanup (a : ArtifactId)
| CMarkCleanupFailed (a : OperationArtifact)
| CCoordinate (t : EffectTarget) (p : CoordinationPlan)
| CReactivate (t : EffectTarget) (p : CoordinationPlan)
| CVerifyReady (t : EffectTarget) (p : TargetProjection)
| CPrepareOperation (r : EffectResource) (m : PlannedMutation)
| CObserve (r : EffectResource)
| CApply (o : EffectOperation)
| CVerify (o : EffectOperation)
| CVerifyExpected (o : EffectOperation)
| CCleanup (a : OperationArtifact).

(** A call and whether it succeeded. *)
Notation Event := (Call * bool)%type (only parsing).
Notation Trace := (list (Call * bool)) (only parsing).

(** ** Programs over the ports *)

Section program.
Context {W E : Type}.

Definition program (A : Type) : Type := W * Trace -> result E A * (W * Trace).

Definition pret {A} (v : A) : program A := fun s => (Ok v, s).
Definition perr {A} (e : E) : program A := fun s => (Err e, s).
Definition pbind {A B} (m : program A) (k : A -> program B) : program B := fun s =>
  match m s with
  | (Ok v, s') => k v s'
  | (Err e, s') => (Err e, s')
  end.
Definition lift {A} (r : result E A) : program A := fun s => (r, s).
(** An answer of the world that is not recorded. *)
Definition ask {A} (f : W -> A * W) : program A := fun '(w, tr) => let '(v, w') := f w in (Ok v, (w', tr)).
Definition succeeded {F A} (r : result F A) : bool := match r with Ok _ => true | Err _ => false end.
(** A recorded call; its failure is handed to the program. *)
Definition attempt {A} (c : Call) (f : W -> result PortError A * W) : program (result PortError A) :=
  fun '(w, tr) => let '(r, w') := f w in (Ok r, (w', tr ++ [(c, succeeded r)])).
(** A recorded call whose failure ends the program. *)
Definition call {A} (wrap : PortError -> E) (c : Call) (f : W -> result PortError A * W) : program A :=
  pbind (attempt c f) (fun r => lift (map_err wrap r)).

Fixpoint pfold {S A} (f : S -> A -> program S) (s : S) (l : list A) : program S :=
  match l with
  | [] => pret s
  | x :: l => pbind (f s x) (fun s' => pfold f s' l)
  end.

(** *** Reasoning about the recorded calls *)

Definition wp {A} (m : program A) (Q : result E A -> Trace -> Prop) (tr : Trace) : Prop :=
  forall w, Q (m (w, tr)).1 (m (w, tr)).2.2.

Lemma wp_mono {A} (m : program A) (Q R : result E A -> Trace -> Prop) tr :
  wp m Q tr -> (forall r tr', Q r tr' -> R r tr') -> wp m R tr.
Proof. unfold wp. auto. Qed.

Lemma wp_ret {A} (v : A) Q tr : Q (Ok v) tr -> wp (pret v) Q tr.
Proof. by intros H w. Qed.
Lemma wp_err {A} e (Q : result E A -> Trace -> Prop) tr : Q (Err e) tr -> wp (perr e) Q tr.
Proof. by intros H w. Qed.
Lemma wp_lift {A} (r : result E A) Q tr : Q r tr -> wp (lift r) Q tr.
Proof. by intros H w. Qed.
Lemma wp_ask {A} (f : W -> A * W) Q tr : (forall v, Q (Ok v) tr) -> wp (ask f) Q tr.
Proof. intros H w. unfold ask. destruct (f w). apply H. Qed.
Lemma wp_attempt {A} c (f : W -> result PortError A * W) Q tr :
  (forall r, Q (Ok r) (tr ++ [(c, succeeded r)])) -> wp (attempt c f) Q tr.
Proof. intros H w. unfold attempt. destruct (f w). apply H. Qed.

Lemma wp_bind {A B} (m : program A) (k : A -> program B) Q tr :
  wp m (fun r tr' => match r with Ok v => wp (k v) Q tr' | Err e => Q (Err e) tr' end) tr ->
  wp (pbind m k) Q tr.
Proof.
  intros H w. specialize (H w). unfold pbind. destruct (m (w, tr)) as [[v|e] [w' tr']]; simpl in *; [apply H|done].
Qed.

Lemma wp_call {A} wrap c (f : W -> result PortError A * W) Q tr :
  (forall v, Q (Ok v) (tr ++ [(c, true)])) -> (forall e, Q (Err (wrap e)) (tr ++ [(c, false)])) ->
  wp (call wrap c f) Q tr.
Proof.
  intros HO HE. apply wp_bind, wp_attempt. intros [v|e]; apply wp_lift; [apply HO|apply HE].
Qed.

(** A loop keeps an invariant on the processed elements, the state and the trace. *)
Lemma wp_fold {S A} (f : S -> A -> program S) (I : list A -> S -> Trace -> Prop) (Q : result E S -> Trace -> Prop) l :
  (forall done x todo s tr, l = done ++ x :: todo -> I done s tr ->
     wp (f s x) (fun r tr' => match r with Ok s' => I (done ++ [x]) s' tr' | Err e => Q (Err e) tr' end) tr) ->
  (forall s tr, I l s tr -> Q (Ok s) tr) ->
  forall s tr, I [] s tr -> wp (pfold f s l) Q tr.
Proof.
  intros Hstep Hend. assert (forall todo done s tr, l = done ++ todo -> I done s tr -> wp (pfold f s todo) Q tr) as H.
  2:{ intros s tr HI. by apply (H l []). }
  induction todo as [|x todo IH]; intros done s tr Hl HI; simpl.
  - apply wp_ret, Hend. by rewrite Hl, app_nil_r.
  - apply wp_bind. eapply wp_mono; [by apply (Hstep done x todo)|].
    intros [s'|e] tr' H; [|done]. apply (IH (done ++ [x])); [by rewrite <-app_assoc|done].
Qed.
End program.
Arguments program W E A : clear implicits.

Notation "x <- m ;; k" := (pbind m (fun x => k)) (at level 20, m at level 99, k at level 200, right associativity,
  only parsing) : ora_scope.
Notation "' p <- m ;; k" := (pbind m (fun p => k)) (at level 20, p pattern, m at level 99, k at level 200,
  right associativity, only parsing) : ora_scope.

(** ** Guarded calls

    A discipline on the recorded calls of a program over the Effect ports: every call is made in
    a trace that allows it.  [calls] is the triple that keeps it, with a postcondition on the
    result and the extended trace; its rules follow the program's constructors. *)
Lemma subseteq_snoc (tr : Trace) x : tr ⊆ tr ++ [x].
Proof. set_solver. Qed.
Lemma elem_of_snoc (tr : Trace) x : x ∈ tr ++ [x].
Proof. set_solver. Qed.
#[export] Hint Resolve subseteq_snoc elem_of_snoc : core.

(** Every call of the trace was made after a prefix that [G] allows. *)
Definition guarded (G : Call -> Trace -> Prop) (tr : Trace) : Prop :=
  forall pre c b post, tr = pre ++ (c, b) :: post -> G c pre.

Lemma guarded_nil G : guarded G [].
Proof. intros [|? ?] c b post H; done. Qed.

Lemma guarded_snoc G tr c b : guarded G tr -> G c tr -> guarded G (tr ++ [(c, b)]).
Proof.
  intros Htr Hc pre d b' post H.
  destruct post as [|x post _] using rev_ind.
  - apply app_inj_tail in H as [-> [= -> ->]]. done.
  - rewrite app_comm_cons, app_assoc in H. apply app_inj_tail in H as [-> _].
    by eapply Htr.
Qed.

(** A guard that never looks at the trace holds of every call made. *)
Lemma guarded_const (P : Call -> Prop) tr : guarded (fun c _ => P c) tr <-> forall c b, (c, b) ∈ tr -> P c.
Proof.
  split.
  - intros H c b (pre & post & ->)%list_elem_of_split. by eapply H.
  - intros H pre c b post ->. apply (H c b). set_solver.
Qed.

Section calls.
Context {W E : Type} (G : Call -> Trace -> Prop).

Definition calls {A} (tr : Trace) (m : program W E A) (Q : A -> Trace -> Prop) : Prop :=
  guarded G tr -> wp m (fun r tr' => guarded G tr' /\ tr ⊆ tr' /\ forall v, r = Ok v -> Q v tr') tr.

Lemma calls_ret {A} tr (v : A) Q : Q v tr -> calls tr (pret v) Q.
Proof. intros H Htr. apply wp_ret. split_and!; [done|done|]. by intros ? [= <-]. Qed.
Lemma calls_err {A} tr e (Q : A -> Trace -> Prop) : calls tr (perr e) Q.
Proof. intros Htr. apply wp_err. by split_and!. Qed.
Lemma calls_lift {A} tr (r : result E A) Q : (forall v, r = Ok v -> Q v tr) -> calls tr (lift r) Q.
Proof. intros H Htr. apply wp_lift. by split_and!. Qed.
Lemma calls_ask {A} tr (f : W -> A * W) Q : (forall v, Q v tr) -> calls tr (ask f) Q.
Proof. intros H Htr. apply wp_ask. intros v. split_and!; [done|done|]. by intros ? [= <-]. Qed.
Lemma calls_attempt {A} tr c (f : W -> result PortError A * W) Q :
  G c tr -> (forall r, Q r (tr ++ [(c, succeeded r)])) -> calls tr (attempt c f) Q.
Proof.
  intros Hc H Htr. apply wp_attempt. intros r. split_and!; [by apply guarded_snoc|set_solver|]. by intros ? [= <-].
Qed.
Lemma calls_call {A} tr wrap c (f : W -> result PortError A * W) Q :
  G c tr -> (forall v, Q v (tr ++ [(c, true)])) -> calls tr (call wrap c f) Q.
Proof.
  intros Hc H Htr. apply wp_call; intros x; (split_and!; [by apply guarded_snoc|set_solver|]); [|done].
  by intros ? [= <-].
Qed.

Lemma calls_bind {A B} tr (m : program W E A) (k : A -> program W E B) P Q :
  calls tr m P -> (forall v tr', tr ⊆ tr' -> P v tr' -> calls tr' (k v) Q) -> calls tr (pbind m k) Q.
Proof.
  intros Hm Hk Htr. apply wp_bind. eapply wp_mono; [by apply Hm|]. intros [v|e] tr' (Hg & Hsub & HP).
  - eapply wp_mono; [by apply (Hk v tr' Hsub (HP v eq_refl))|]. simpl. intros r tr'' (? & ? & ?).
    split_and!; [done|by etransitivity|done].
  - by split_and!.
Qed.

Lemma calls_mono {A} tr (m : program W E A) P Q :
  calls tr m P -> (forall v tr', tr ⊆ tr' -> P v tr' -> Q v tr') -> calls tr m Q.
Proof.
  intros Hm HPQ Htr. eapply wp_mono; [by apply Hm|]. simpl. intros r tr' (? & ? & H). split_and!; [done|done|].
  intros v Hv. apply HPQ; [done|by apply H].
Qed.

Lemma calls_fold {S A} (f : S -> A -> program W E S) (I : list A -> S -> Trace -> Prop) l s tr :
  (forall done x todo s tr', l = done ++ x :: todo -> tr ⊆ tr' -> I done s tr' -> calls tr' (f s x) (I (done ++ [x]))) ->
  I [] s tr -> calls tr (pfold f s l) (I l).
Proof.
  intros Hstep HI Htr.
  apply (wp_fold f (fun done s tr' => guarded G tr' /\ tr ⊆ tr' /\ I done s tr')).
  - intros done x todo s' tr' Hl (Hg & Hsub & HI'). eapply wp_mono; [by apply (Hstep done x todo s' tr')|].
    simpl. intros [v|e] tr'' (? & ? & H).
    + split_and!; [done|by etransitivity|by apply H].
    + split_and!; [done|by etransitivity|done].
  - intros s' tr' (? & ? & ?). split_and!; [done|done|]. by intros v [= <-].
  - by split_and!.
Qed.

(** The discipline from an empty trace. *)
Lemma calls_start {A} (m : program W E A) Q w r w' tr :
  calls [] m Q -> m (w, []) = (r, (w', tr)) -> guarded G tr /\ (forall v, r = Ok v -> Q v tr).
Proof.
  intros H Hm. specialize (H (guarded_nil G) w). rewrite Hm in H. simpl in H. naive_solver.
Qed.
End calls.

(** The rules, for loops and branches without interesting postconditions. *)
Ltac call_step :=
  match goal with
  | |- calls _ _ (pret _) _ => apply calls_ret
  | |- calls _ _ (perr _) _ => apply calls_err
  | |- calls _ _ (lift _) _ => apply calls_lift; intros ? ?
  | |- calls _ _ (ask _) _ => apply calls_ask; intros ?
  | |- calls _ _ (attempt _ _) _ => apply calls_attempt; [|intros ?]
  | |- calls _ _ (call _ _ _) _ => apply calls_call; [|intros ?]
  end.

(** A step whose call is always allowed and whose result does not matter. *)
Ltac free_bind :=
  eapply calls_bind with (P := fun _ _ => True); [call_step; exact I|intros ? ? ? _].
