(* ===== verification/SkillPlanner.v ===== *)
(** * The Skill planner ([crates/effect-skill/src/planner.rs] and [planner/target.rs])

    The planner projects a Target, classifies what an adapter observed into ledger matches and
    preserved items, resolves the desired items of a Resource and plans the exact mutations.  The
    digests of its drafts come from [serde_json] and [sha2] and are the parameter
    [PlannerDigests]. *)

From S2P Require Import Prelude RustStr Json Order EffectStatus EffectOperation EffectPorts.
Local Open Scope ora_scope.

(** [digest_serializable] of each draft; an error is the serializer's. *)
Class PlannerDigests : Type := {
  digest_input : VersionedMaterializationInput -> result PlannerError string;
  digest_resource_projection : EffectResourceId -> Generation -> gset EffectTargetId ->
    gmap ManagedIdentity ResolvedMaterialization -> result PlannerError string;
  digest_requirement : EffectTargetId -> EffectResourceId -> Generation -> ConsumerRevisionId ->
    gset DesiredEffectIdentity -> MaterializationContract -> result PlannerError string;
  digest_target_projection : EffectTargetId -> Generation -> ConsumerRevisionId -> gset DesiredEffectIdentity ->
    gmap EffectResourceId ResourceRequirement -> result PlannerError string;
}.

Definition blocking_condition (owner : ConditionOwner) (subject : ConditionSubject) (code : string)
    (generation : Generation) (message : string) (retry : ConditionRetry) : ConditionProposal :=
  {| cn_owner := owner; cn_subject := subject; cn_code := code; cn_impact := Blocking; cn_retry := retry;
     cn_generation := AtGeneration generation; cn_message := message; cn_parameters := ∅ |}.

(** ** Observation *)

(** The ledger row an observed item exactly matches. *)
Definition exact_match (ledger : gmap ManagedIdentity ManagedItem) (observation : ResourceObservation)
    (observed : ObservedItem) : option ManagedItem :=
  match ob_ownership_evidence observed with
  | Claims identity =>
      match ledger !! identity with
      | Some managed =>
          if bool_decide (mi_resource managed = ro_resource observation)
             && bool_decide (mi_native_identity managed = ob_native_identity observed)
          then Some managed else None
      | None => None
      end
  | NoOwnershipEvidence => None
  end.

Definition ledger_of (managed : list ManagedItem) : gmap ManagedIdentity ManagedItem :=
  collect_map ((fun item => (mi_identity item, item)) <$> managed).

Definition classify_step (ledger : gmap ManagedIdentity ManagedItem) (observation : ResourceObservation)
    (acc : list PreservedItem * gmap ManagedIdentity ObservedItem) (observed : ObservedItem) :
    list PreservedItem * gmap ManagedIdentity ObservedItem :=
  match exact_match ledger observation observed with
  | Some managed => (acc.1, <[mi_identity managed := observed]> acc.2)
  | None => (acc.1 ++ [{| pi_resource := ro_resource observation; pi_native_identity := ob_native_identity observed;
                          pi_fingerprint := ob_fingerprint observed |}], acc.2)
  end.
Definition classify_observation (managed : list ManagedItem) (observation : ResourceObservation) :
    list PreservedItem * gmap ManagedIdentity ObservedItem :=
  fold_left (classify_step (ledger_of managed) observation) (btree_values str_le (ro_items observation)) ([], ∅).

(** ** Changes *)

Definition materialize_change (managed : ManagedItem) (desired : ResolvedMaterialization) (mutation : EffectMutation)
    (expected : ExactPreviousState) : PlannedResourceChange :=
  Mutate {| pm_managed_identity := mi_identity managed; pm_desired_effect := Some (rm_desired_effect desired);
            pm_mutation := mutation; pm_expected := expected;
            pm_planned := Present (rm_native_identity desired) (rm_fingerprint desired) (mi_identity managed);
            pm_input := Some (rm_input desired) |}.

(** A creation for a desired item without a ledger row. *)
Definition create_change (desired : ResolvedMaterialization) : PlannedResourceChange :=
  Mutate {| pm_managed_identity := rm_managed_identity desired;
            pm_desired_effect := Some (rm_desired_effect desired); pm_mutation := Create; pm_expected := Missing;
            pm_planned := Present (rm_native_identity desired) (rm_fingerprint desired) (rm_managed_identity desired);
            pm_input := Some (rm_input desired) |}.

Definition managed_drifted (managed : ManagedItem) (current : option ObservedItem) : bool :=
  match current with
  | Some current => negb (bool_decide (ob_fingerprint current = mi_fingerprint managed))
  | None => false
  end.
Definition up_to_date (managed : ManagedItem) (current : ObservedItem) (desired : ResolvedMaterialization) : bool :=
  bool_decide (ob_fingerprint current = rm_fingerprint desired)
  && bool_decide (mi_applied_revision managed = rm_revision desired)
  && bool_decide (mi_native_identity managed = rm_native_identity desired).

(** The changes of one ledger row whose item has not drifted. *)
Definition managed_changes (managed : ManagedItem) (current : option ObservedItem)
    (desired : option ResolvedMaterialization) : list PlannedResourceChange :=
  match current, desired with
  | None, None => [ForgetMissing (mi_identity managed)]
  | Some current, None =>
      [Mutate {| pm_managed_identity := mi_identity managed; pm_desired_effect := None; pm_mutation := Delete;
                 pm_expected := Present (ob_native_identity current) (ob_fingerprint current) (mi_identity managed);
                 pm_planned := Missing; pm_input := None |}]
  | None, Some desired => [materialize_change managed desired Create Missing]
  | Some current, Some desired =>
      if up_to_date managed current desired then []
      else
        let mutation := if bool_decide (mi_native_identity managed = rm_native_identity desired)
                        then Update else Replace in
        [materialize_change managed desired mutation
           (Present (ob_native_identity current) (ob_fingerprint current) (mi_identity managed))]
  end.

Definition drift_condition (generation : Generation) (owner : ConditionOwner) (managed : ManagedItem) :
    ConditionProposal :=
  blocking_condition owner (SubjectManagedItem (mi_identity managed)) "managed_item_drift" generation
    "A Managed Item changed outside Ora and cannot be overwritten safely." Manual.

(** [plan_changes]: the changes, and the drift conditions it appends. *)
Definition plan_changes (generation : Generation) (managed : list ManagedItem)
    (observed : gmap ManagedIdentity ObservedItem) (projection : ResourceProjection) (owner : ConditionOwner) :
    list PlannedResourceChange * list ConditionProposal :=
  let step acc managed_item :=
    let current := observed !! mi_identity managed_item in
    if managed_drifted managed_item current
    then (acc.1, acc.2 ++ [drift_condition generation owner managed_item])
    else (acc.1 ++ managed_changes managed_item current (rp_items projection !! mi_identity managed_item), acc.2) in
  let '(changes, conditions) := fold_left step managed ([], []) in
  let existing : gset ManagedIdentity := list_to_set (mi_identity <$> managed) in
  let creates := filter (fun desired => rm_managed_identity desired ∉ existing)
                   (btree_values str_le (rp_items projection)) in
  (changes ++ (create_change <$> creates), conditions).

(** ** Resources *)

Section planner.
Context {sha : Sha256} {digests : PlannerDigests}.

(** The contributions of every requirement. *)
Definition requirement_step (resource : EffectResourceId)
    (acc : gset EffectTargetId * gset DesiredEffectIdentity * gset MaterializationContract)
    (requirement : ResourceRequirement) :
    result PlannerError (gset EffectTargetId * gset DesiredEffectIdentity * gset MaterializationContract) :=
  reject negb (bool_decide (rq_resource requirement = resource)) with RequirementResourceMismatch;
  let '(contributors, desired_ids, contracts) := acc in
  Ok ({[rq_target requirement]} ∪ contributors, desired_ids ∪ rq_desired_effects requirement,
      {[rq_materialization_contract requirement]} ∪ contracts).

(** The state of the loop over the desired effects. *)
Record Resolution : Type :=
  { native_owners : gmap NativeResourceIdentity DesiredEffectIdentity;
    items : gmap ManagedIdentity ResolvedMaterialization;
    blocked_by : list ConditionProposal }.

(** The identity of the ledger row of a desired effect, or a new one. *)
Definition managed_identity_of (resource : EffectResourceId) (by_desired : gmap DesiredEffectIdentity ManagedItem)
    (desired : DesiredEffectIdentity) : ManagedIdentity :=
  match by_desired !! desired with
  | Some managed => mi_identity managed
  | None => for_intent resource desired
  end.

Definition materialization_input (d : SkillDefinition) : VersionedMaterializationInput :=
  SkillDirectoryV1
    {| sm_name := skill_name (sd_source d); sm_source := sd_source d; sm_package_root := sd_package_root d;
       sm_skill_md_digest := sd_skill_md_digest d; sm_package_fingerprint := sd_package_fingerprint d |}.

Definition resolve_step (input : ResourcePlanningInput) (contract : MaterializationContract)
    (by_desired : gmap DesiredEffectIdentity ManagedItem) (acc : Resolution) (desired_id : DesiredEffectIdentity) :
    result PlannerError Resolution :=
  let resource := ef_identity (ri_resource input) in
  let block code message :=
    blocking_condition (OwnerResource resource) (SubjectDesiredEffect desired_id) code (ri_generation input)
      message OnChange in
  desired ← ok_or (ri_desired_effects input !! desired_id) (DesiredEffectMissing desired_id);
  match ri_revisions input !! de_revision desired with
  | None =>
      Ok {| native_owners := native_owners acc; items := items acc;
            blocked_by := blocked_by acc
              ++ [block "revision_missing" "The selected immutable Effect revision is unavailable."] |}
  | Some revision =>
      let '(SkillDefinitionV definition) := er_definition revision in
      native ← map_err PlannerIdentity
        (parse_named EmptyNativeResourceIdentity (canonical (skill_name (sd_source definition))));
      let owners := <[native := desired_id]> (native_owners acc) in
      let conflict := match native_owners acc !! native with
        | Some previous => negb (bool_decide (previous = desired_id))
        | None => false
        end in
      if conflict
      then Ok {| native_owners := owners; items := items acc;
                 blocked_by := blocked_by acc
                   ++ [block "native_identity_conflict"
                         "Multiple Desired Effects resolve to the same native Resource identity."] |}
      else
        let managed := managed_identity_of resource by_desired desired_id in
        digest ← digest_input (materialization_input definition);
        Ok {| native_owners := owners;
              items := <[managed :=
                {| rm_managed_identity := managed; rm_desired_effect := desired_id;
                   rm_revision := er_identity revision; rm_native_identity := native;
                   rm_fingerprint := sd_package_fingerprint definition; rm_contract := contract;
                   rm_input_digest := digest; rm_input := materialization_input definition |}]> (items acc);
              blocked_by := blocked_by acc |}
  end.

(** The items whose native identity a preserved item occupies. *)
Definition occupied_conditions (input : ResourcePlanningInput) (preserved : list PreservedItem)
    (resolved : gmap ManagedIdentity ResolvedMaterialization) : list ConditionProposal :=
  let natives : gset NativeResourceIdentity := list_to_set (pi_native_identity <$> preserved) in
  (fun item => blocking_condition (OwnerResource (ef_identity (ri_resource input)))
                 (SubjectDesiredEffect (rm_desired_effect item)) "preserved_item_conflict" (ri_generation input)
                 ("A Preserved Item already occupies the required native identity: "
                  +:+ rm_native_identity item +:+ ".") OnChange)
  <$> filter (fun item => rm_native_identity item ∈ natives) (btree_values str_le resolved).

(** [SkillPlanner::plan_resource] *)
Definition skill_plan_resource (input : ResourcePlanningInput) :
    result PlannerError (PlanningResult ResourcePlan) :=
  let resource := ef_identity (ri_resource input) in
  let owner := OwnerResource resource in
  let block code message :=
    Ok (Blocked [blocking_condition owner (SubjectResource resource) code (ri_generation input) message OnChange]) in
  reject negb (bool_decide (ro_resource (ri_observed input) = resource)) with ObservationResourceMismatch;
  let '(preserved, observed_managed) := classify_observation (ri_managed input) (ri_observed input) in
  c ← fold_result (requirement_step resource) (∅, ∅, ∅) (ri_requirements input);
  let '(contributors, desired_ids, contracts) := c in
  if (1 <? size contracts)%nat
  then block "materialization_contract_conflict"
         "Target contributions require incompatible Resource materialization contracts."
  else
    let contract := default skill_directory_v1 (head (elements contracts)) in
    if negb (bool_decide (contract = skill_directory_v1))
    then block "unsupported_materialization_contract"
           "The Skill planner does not support the Resource materialization contract."
    else
      let by_desired := collect_map ((fun m => (mi_desired_effect m, m)) <$> ri_managed input) in
      resolved ← fold_result (resolve_step input contract by_desired)
        {| native_owners := ∅; items := ∅; blocked_by := [] |} (btree_elements str_le desired_ids);
      let conditions := blocked_by resolved ++ occupied_conditions input preserved (items resolved) in
      match conditions with
      | _ :: _ => Ok (Blocked conditions)
      | [] =>
          digest ← digest_resource_projection resource (ri_generation input) contributors (items resolved);
          let projection := {| rp_resource := resource; rp_generation := ri_generation input;
                               rp_contributors := contributors; rp_items := items resolved; rp_digest := digest |} in
          let '(changes, drift) :=
            plan_changes (ri_generation input) (ri_managed input) observed_managed projection owner in
          match drift with
          | _ :: _ => Ok (Blocked drift)
          | [] => Ok (Projected {| pl_projection := projection; pl_preserved := preserved; pl_changes := changes |})
          end
      end.

(** ** Targets *)

Definition validate_target_input (input : TargetPlanningInput) : result PlannerError unit :=
  let target := ti_target input in
  let revision := ti_consumer_revision input in
  reject negb (bool_decide (ds_scope (ti_desired input) = et_scope target)) with ScopeMismatch;
  reject negb (bool_decide (et_consumer target = cv_consumer revision)) with ConsumerMismatch;
  reject_if (negb (bool_decide (et_consumer_revision target = cv_identity revision))
             || negb (bool_decide (td_consumer_revision (ti_declaration input) = cv_identity revision))
             || negb (bool_decide (td_target (ti_declaration input) = et_identity target)))
    ConsumerRevisionMismatch.

(** What one desired effect contributes: nothing, a condition or a selection. *)
Inductive Selection : Type := NotSelected | SelectionBlocked (c : ConditionProposal) | Selected.

Definition select_effect (input : TargetPlanningInput) (desired : DesiredEffect) : Selection :=
  let target := ti_target input in
  let capabilities := cv_capabilities (ti_consumer_revision input) in
  let block code message :=
    SelectionBlocked (blocking_condition (OwnerTarget (et_identity target))
      (SubjectDesiredEffect (de_identity desired)) code (ds_generation (ti_desired input)) message OnChange) in
  if bool_decide (et_lifecycle target = Retiring) then NotSelected
  else if negb (selects (de_audience desired) (et_consumer target) capabilities) then NotSelected
  else if negb (bool_decide (parameters_kind (de_parameters desired) = skill_kind)) then NotSelected
  else
    match ti_revisions input !! de_revision desired with
    | None => block "revision_missing" "The selected immutable Effect revision is unavailable."
    | Some revision =>
        match er_availability revision with
        | Unavailable _ => block "revision_unavailable" "The selected immutable Effect revision is unavailable."
        | Available =>
            if negb (bool_decide (definition_kind (er_definition revision) = parameters_kind (de_parameters desired)))
            then block "effect_kind_mismatch" "The Desired parameters do not match the selected definition kind."
            else if negb (bool_decide (effect_protocols capabilities !! definition_kind (er_definition revision)
                                       = Some 1%N))
            then block "unsupported_effect" "The Consumer Revision does not support this Effect protocol."
            else Selected
        end
    end.

Definition select_step (input : TargetPlanningInput) (acc : gset DesiredEffectIdentity * list ConditionProposal)
    (desired : DesiredEffect) : gset DesiredEffectIdentity * list ConditionProposal :=
  match select_effect input desired with
  | NotSelected => acc
  | SelectionBlocked c => (acc.1, acc.2 ++ [c])
  | Selected => ({[de_identity desired]} ∪ acc.1, acc.2)
  end.

Definition binding_step (input : TargetPlanningInput) (selected : gset DesiredEffectIdentity)
    (acc : gmap EffectResourceId ResourceRequirement * list ConditionProposal) (binding : TargetResourceBinding) :
    result PlannerError (gmap EffectResourceId ResourceRequirement * list ConditionProposal) :=
  let target := et_identity (ti_target input) in
  let revision := ti_consumer_revision input in
  let generation := ds_generation (ti_desired input) in
  let resource := tb_resource binding in
  let block code message :=
    Ok (acc.1, acc.2 ++ [blocking_condition (OwnerTarget target) (SubjectResource resource) code generation message
                           OnChange]) in
  match ti_resources input !! resource with
  | None => block "resource_declaration_missing" "The Target binding refers to a Resource outside its declaration."
  | Some _ =>
      if negb (is_satisfied_by (tb_accepts binding) (cv_capabilities revision))
      then block "invalid_resource_binding" "The Target binding exceeds the Consumer Revision capabilities."
      else if negb (bool_decide (tb_materialization_contract binding = skill_directory_v1)) then Ok acc
      else
        let contract := tb_materialization_contract binding in
        digest ← digest_requirement target resource generation (cv_identity revision) selected contract;
        Ok (<[resource := {| rq_target := target; rq_resource := resource; rq_desired_effects := selected;
                             rq_materialization_contract := contract; rq_digest := digest |}]> acc.1, acc.2)
  end.

(** [SkillPlanner::project_target_snapshot] *)
Definition skill_project_target (input : TargetPlanningInput) :
    result PlannerError (PlanningResult TargetProjection) :=
  _ ← validate_target_input input;
  let '(selected, conditions) :=
    fold_left (select_step input) (btree_values str_le (ds_effects (ti_desired input))) (∅, []) in
  b ← fold_result (binding_step input selected) (∅, conditions)
        (btree_values str_le (td_bindings (ti_declaration input)));
  let '(requirements, conditions) := b in
  match conditions with
  | _ :: _ => Ok (Blocked conditions)
  | [] =>
      let target := et_identity (ti_target input) in
      let generation := ds_generation (ti_desired input) in
      let revision := cv_identity (ti_consumer_revision input) in
      digest ← digest_target_projection target generation revision selected requirements;
      Ok (Projected {| tp_target := target; tp_generation := generation; tp_consumer_revision := revision;
                       tp_desired_effects := selected; tp_resource_requirements := requirements;
                       tp_digest := digest |})
  end.

#[global] Instance skill_planner : EffectPlanner :=
  {| project_target := skill_project_target; plan_resource := skill_plan_resource |}.
End planner.
