(* ===== verification/SkillPlannerLaws.v ===== *)
(** * What the Skill planner plans

    The mutations of a plan are authorised by the ledger and the observation, leave preserved
    items alone and, run one after another on the observed state, end in the projection. *)

From S2P Require Import Prelude RustStr Json PortablePath Order EffectStatus EffectOperation EffectPorts SkillPlanner.
Local Open Scope ora_scope.

(** ** The observation *)

(** What the schema and the adapters guarantee of the planner's input: unique row identities and
    native identities per Resource, and observed items under their own native identity. *)
Definition ledger_ok (managed : list ManagedItem) : Prop :=
  NoDup (mi_identity <$> managed) /\ NoDup (mi_native_identity <$> managed).
Definition observation_ok (o : ResourceObservation) : Prop :=
  map_Forall (fun n i => ob_native_identity i = n) (ro_items o).

Lemma NoDup_fmap_eq {A B} (f : A -> B) l x y : NoDup (f <$> l) -> x ∈ l -> y ∈ l -> f x = f y -> x = y.
Proof.
  induction l as [|z l IH]; csimpl; [intros _ Hx; by apply not_elem_of_nil in Hx|].
  intros [Hz Hnd]%NoDup_cons [->|Hx]%elem_of_cons [->|Hy]%elem_of_cons Heq; auto.
  - exfalso. apply Hz. rewrite Heq. by apply list_elem_of_fmap_2.
  - exfalso. apply Hz. rewrite <-Heq. by apply list_elem_of_fmap_2.
Qed.

Lemma ledger_of_lookup managed m row : NoDup (mi_identity <$> managed) ->
  ledger_of managed !! m = Some row <-> row ∈ managed /\ mi_identity row = m.
Proof.
  intros Hnd. unfold ledger_of. rewrite lookup_collect_map.
  - rewrite list_elem_of_fmap. split; [by intros (? & [= -> ->] & ?)|intros [? <-]; eauto].
  - intros v1 v2 (x & [= -> ->] & Hx)%list_elem_of_fmap (y & [= Hxy ->] & Hy)%list_elem_of_fmap.
    by eapply NoDup_fmap_eq.
Qed.

Definition preserved_of (o : ResourceObservation) (i : ObservedItem) : PreservedItem :=
  {| pi_resource := ro_resource o; pi_native_identity := ob_native_identity i; pi_fingerprint := ob_fingerprint i |}.

Lemma classify_fold ledger o l acc :
  fold_left (classify_step ledger o) l acc
  = (acc.1 ++ (preserved_of o <$> filter (fun i => exact_match ledger o i = None) l),
     fold_left (fun m p => <[p.1 := p.2]> m)
       (omap (fun i => (fun row => (mi_identity row, i)) <$> exact_match ledger o i) l) acc.2).
Proof.
  revert acc. induction l as [|i l IH]; intros [a b]; csimpl; [by rewrite app_nil_r|].
  rewrite IH. unfold classify_step. rewrite filter_cons. case_decide as Hd.
  - rewrite Hd. csimpl. by rewrite <-app_assoc.
  - by destruct (exact_match ledger o i) as [row|].
Qed.

Lemma exact_match_Some ledger o i row : exact_match ledger o i = Some row <->
  exists m, ob_ownership_evidence i = Claims m /\ ledger !! m = Some row
    /\ mi_resource row = ro_resource o /\ mi_native_identity row = ob_native_identity i.
Proof.
  unfold exact_match. destruct (ob_ownership_evidence i) as [|m]; [split; [done|by intros (? & ? & _)]|].
  destruct (ledger !! m) as [row'|] eqn:E.
  - split.
    + destruct (_ && _) eqn:E2; [|done]. intros [= ->].
      apply andb_true_iff in E2 as [?%bool_decide_eq_true ?%bool_decide_eq_true]. by exists m.
    + intros (m' & [= <-] & E' & H1 & H2). rewrite E in E'. injection E' as <-.
      by rewrite !bool_decide_eq_true_2.
  - split; [done|]. intros (m' & [= <-] & E' & _). by rewrite E in E'.
Qed.

(** The observed items in key order. *)
Lemma elem_of_observed o i : i ∈ btree_values str_le (ro_items o) <-> exists n, ro_items o !! n = Some i.
Proof.
  unfold btree_values. rewrite list_elem_of_fmap. split.
  - intros ([n i'] & -> & H%elem_of_btree_entries). by exists n.
  - intros [n H]. exists (n, i). by rewrite elem_of_btree_entries.
Qed.

Section classify.
Context (managed : list ManagedItem) (o : ResourceObservation).
Context (Hl : ledger_ok managed) (Ho : observation_ok o).

(** The row [row] owns the observed item [i]. *)
Definition owns (row : ManagedItem) (i : ObservedItem) : Prop :=
  row ∈ managed /\ ob_ownership_evidence i = Claims (mi_identity row) /\ mi_resource row = ro_resource o
  /\ mi_native_identity row = ob_native_identity i /\ ro_items o !! ob_native_identity i = Some i.

Lemma exact_match_owns i row : i ∈ btree_values str_le (ro_items o) ->
  exact_match (ledger_of managed) o i = Some row <-> owns row i.
Proof using Hl Ho.
  intros [n Hn]%elem_of_observed. pose proof (Ho _ _ Hn) as Hkey. simpl in Hkey. subst n.
  rewrite exact_match_Some. unfold owns. setoid_rewrite ledger_of_lookup; [|apply Hl]. split.
  - intros (m & ? & [? <-] & ? & ?). done.
  - intros (? & ? & ? & ? & ?). by exists (mi_identity row).
Qed.

Lemma classify_matched m i : (classify_observation managed o).2 !! m = Some i <->
  exists row, owns row i /\ mi_identity row = m.
Proof using Hl Ho.
  unfold classify_observation. rewrite classify_fold. simpl.
  change (fold_left _ ?l ∅) with (collect_map (K:=ManagedIdentity) (V:=ObservedItem) l).
  assert (forall k v, (k, v) ∈ omap (fun i => (fun row => (mi_identity row, i))
      <$> exact_match (ledger_of managed) o i) (btree_values str_le (ro_items o))
    <-> exists row, owns row v /\ mi_identity row = k) as Hin.
  { intros k v. rewrite list_elem_of_omap. split.
    - intros (i' & Hi & (row & Hrow & [= -> ->])%fmap_Some). exists row. split; [by apply exact_match_owns|done].
    - intros (row & Hrow & <-). exists v.
      assert (v ∈ btree_values str_le (ro_items o)) as Hv by (apply elem_of_observed; eexists; apply Hrow).
      split; [done|]. apply fmap_Some. exists row. split; [by apply exact_match_owns|done]. }
  rewrite lookup_collect_map; [apply Hin|].
  intros v1 v2 (r1 & H1 & E1)%Hin (r2 & H2 & E2)%Hin.
  destruct H1 as (M1 & _ & _ & N1 & O1), H2 as (M2 & _ & _ & N2 & O2).
  assert (r1 = r2) as -> by (eapply (NoDup_fmap_eq mi_identity); [apply Hl|done..|congruence]).
  congruence.
Qed.

Lemma classify_preserved p : p ∈ (classify_observation managed o).1 <->
  exists i, ro_items o !! ob_native_identity i = Some i /\ (forall row, ~ owns row i) /\ p = preserved_of o i.
Proof using Hl Ho.
  unfold classify_observation. rewrite classify_fold. simpl. rewrite list_elem_of_fmap.
  setoid_rewrite list_elem_of_filter. split.
  - intros (i & -> & Hnone & Hi). exists i. split_and!; [|intros row Hrow|done].
    + apply elem_of_observed in Hi as [n Hn]. by rewrite (Ho _ _ Hn : ob_native_identity i = n).
    + apply (exact_match_owns i row Hi) in Hrow. by rewrite Hrow in Hnone.
  - intros (i & Hi & Hno & ->). exists i.
    assert (i ∈ btree_values str_le (ro_items o)) as Hv by (apply elem_of_observed; by eexists).
    split_and!; [done| |done]. destruct (exact_match _ _ _) as [row|] eqn:E; [|done].
    apply exact_match_owns in E; [by apply Hno in E|done].
Qed.
End classify.

(** ** The list of changes *)

Definition row_drifted (observed : gmap ManagedIdentity ObservedItem) (row : ManagedItem) : bool :=
  managed_drifted row (observed !! mi_identity row).
Definition row_changes (observed : gmap ManagedIdentity ObservedItem)
    (projected : gmap ManagedIdentity ResolvedMaterialization) (row : ManagedItem) : list PlannedResourceChange :=
  managed_changes row (observed !! mi_identity row) (projected !! mi_identity row).

Lemma plan_changes_eq g managed observed projection owner :
  plan_changes g managed observed projection owner
  = (concat (row_changes observed (rp_items projection) <$> filter (fun r => row_drifted observed r = false) managed)
     ++ (create_change <$> filter (fun d => rm_managed_identity d ∉ mi_identity <$> managed)
           (btree_values str_le (rp_items projection))),
     drift_condition g owner <$> filter (fun r => row_drifted observed r = true) managed).
Proof.
  unfold plan_changes. set (step := fun _ _ => _).
  assert (forall l acc, fold_left step l acc
    = (acc.1 ++ concat (row_changes observed (rp_items projection) <$> filter (fun r => row_drifted observed r = false) l),
       acc.2 ++ (drift_condition g owner <$> filter (fun r => row_drifted observed r = true) l))) as Hf.
  { induction l as [|r l IH]; intros [a c]; csimpl; [by rewrite !app_nil_r|].
    rewrite IH. unfold step. rewrite !filter_cons. fold (row_drifted observed r).
    destruct (row_drifted observed r); simpl.
    - by rewrite <-app_assoc.
    - fold (row_changes observed (rp_items projection) r). by rewrite <-app_assoc. }
  rewrite Hf. simpl. do 3 f_equal. apply list_filter_iff. intros d.
  by rewrite elem_of_list_to_set.
Qed.

Lemma plan_changes_no_drift g managed observed projection owner changes :
  plan_changes g managed observed projection owner = (changes, []) ->
  Forall (fun r => row_drifted observed r = false) managed
  /\ changes = concat (row_changes observed (rp_items projection) <$> managed)
       ++ (create_change <$> filter (fun d => rm_managed_identity d ∉ mi_identity <$> managed)
             (btree_values str_le (rp_items projection))).
Proof.
  rewrite plan_changes_eq. intros [= Hc Hd%fmap_nil_inv].
  assert (Forall (fun r => row_drifted observed r = false) managed) as HF.
  { apply Forall_forall. intros r Hr. apply not_true_is_false. intros Hdr.
    assert (r ∈ filter (fun r => row_drifted observed r = true) managed) as Hin
      by (by apply list_elem_of_filter).
    rewrite Hd in Hin. by apply not_elem_of_nil in Hin. }
  split; [done|]. rewrite <-Hc. f_equal. f_equal. f_equal.
  clear -HF. induction HF as [|r l Hr _ IH]; [done|]. rewrite filter_cons, decide_True by done. by rewrite IH.
Qed.

(** ** Running changes on the external state *)

(** Items by native identity: a fingerprint and an ownership marker. *)
Notation ExternalState := (gmap NativeResourceIdentity (string * OwnershipEvidence)) (only parsing).
Definition external (o : ResourceObservation) : ExternalState :=
  (fun i => (ob_fingerprint i, ob_ownership_evidence i)) <$> ro_items o.

(** What an apply does when the state is exactly the expected one ([filesystem.rs],
    [apply_operation]): a creation and a replacement refuse an occupied name. *)
Definition run_mutation (e : ExternalState) (m : PlannedMutation) : option ExternalState :=
  match pm_expected m, pm_planned m with
  | Missing, Present n f i =>
      if bool_decide (e !! n = None) then Some (<[n := (f, Claims i)]> e) else None
  | Present n f i, Missing =>
      if bool_decide (e !! n = Some (f, Claims i)) then Some (delete n e) else None
  | Present n f i, Present n' f' i' =>
      if bool_decide (e !! n = Some (f, Claims i)) && bool_decide (delete n e !! n' = None)
      then Some (<[n' := (f', Claims i')]> (delete n e)) else None
  | Missing, Missing => None
  end.
Definition run_change (e : ExternalState) (c : PlannedResourceChange) : option ExternalState :=
  match c with Mutate m => run_mutation e m | ForgetMissing _ => Some e end.
Fixpoint run_changes (e : ExternalState) (cs : list PlannedResourceChange) : option ExternalState :=
  match cs with [] => Some e | c :: cs => e' ← run_change e c; run_changes e' cs end.

Lemma run_changes_app e cs cs' : run_changes e (cs ++ cs') = e' ← run_changes e cs; run_changes e' cs'.
Proof.
  revert e. induction cs as [|c cs IH]; intros e; [done|]. simpl. destruct (run_change e c); [apply IH|done].
Qed.

(** The name a change works on, where it works on one; its new content. *)
Definition effect_of (c : PlannedResourceChange) : option (NativeResourceIdentity * option (string * OwnershipEvidence)) :=
  match c with
  | ForgetMissing _ => None
  | Mutate m =>
      match pm_expected m, pm_planned m with
      | Missing, Present n f i => Some (n, Some (f, Claims i))
      | Present n _ _, Missing => Some (n, None)
      | Present n _ _, Present n' f' i' => if bool_decide (n = n') then Some (n, Some (f', Claims i')) else None
      | Missing, Missing => None
      end
  end.
(** The change works on one name and the state [e] is the one it expects. *)
Definition ready_for (e : ExternalState) (c : PlannedResourceChange) : Prop :=
  match c with
  | ForgetMissing _ => True
  | Mutate m =>
      match pm_expected m, pm_planned m with
      | Missing, Present n f i => e !! n = None
      | Present n f i, Missing => e !! n = Some (f, Claims i)
      | Present n f i, Present n' f' i' => n = n' /\ e !! n = Some (f, Claims i)
      | Missing, Missing => False
      end
  end.

Definition set_name (e : ExternalState) (x : NativeResourceIdentity * option (string * OwnershipEvidence)) :
    ExternalState := match x.2 with Some v => <[x.1 := v]> e | None => delete x.1 e end.

Lemma ready_for_run e c : ready_for e c ->
  run_change e c = Some (match effect_of c with Some x => set_name e x | None => e end).
Proof.
  destruct c as [m|]; [|done]. simpl. unfold run_mutation.
  destruct (pm_expected m) as [|n f i], (pm_planned m) as [|n' f' i']; simpl; try done.
  - intros H. by rewrite bool_decide_eq_true_2.
  - intros H. by rewrite bool_decide_eq_true_2.
  - intros [<- H]. rewrite !bool_decide_eq_true_2; [|done|apply lookup_delete_eq|done]. simpl.
    f_equal. apply (insert_delete_eq (M:=gmap NativeResourceIdentity)).
Qed.

Lemma ready_for_ext e e' c : (forall x, effect_of c = Some x -> e !! x.1 = e' !! x.1) ->
  ready_for e c -> ready_for e' c.
Proof.
  destruct c as [m|]; [|done]. simpl.
  destruct (pm_expected m) as [|n f i], (pm_planned m) as [|n' f' i']; simpl; try done.
  - intros H. pose proof (H _ eq_refl) as He. simpl in He. congruence.
  - intros H. pose proof (H _ eq_refl) as He. simpl in He. congruence.
  - intros H [<- Hn]. rewrite bool_decide_eq_true_2 in H by done. pose proof (H _ eq_refl) as He. simpl in He.
    split; congruence.
Qed.

Lemma set_name_lookup e x : set_name e x !! x.1 = x.2.
Proof. unfold set_name. destruct x as [n [v|]]; simpl; [apply lookup_insert_eq|apply lookup_delete_eq]. Qed.
Lemma set_name_ne e x n : n <> x.1 -> set_name e x !! n = e !! n.
Proof.
  intros Hn. unfold set_name. destruct x as [n' [v|]]; simpl in *; [by apply lookup_insert_ne|by apply lookup_delete_ne].
Qed.

(** Changes that work on different names, each ready in the first state, all succeed. *)
Lemma run_changes_disjoint e cs : NoDup (omap effect_of cs).*1 -> Forall (ready_for e) cs ->
  exists e', run_changes e cs = Some e'
    /\ (forall n, n ∉ (omap effect_of cs).*1 -> e' !! n = e !! n)
    /\ (forall c x, c ∈ cs -> effect_of c = Some x -> e' !! x.1 = x.2).
Proof.
  revert e. induction cs as [|c cs IH]; intros e Hnd Hr.
  { exists e. split_and!; [done|done|]. intros c x Hc. by apply not_elem_of_nil in Hc. }
  apply Forall_cons in Hr as [Hc Hr]. simpl. rewrite (ready_for_run _ _ Hc). simpl in Hnd.
  destruct (effect_of c) as [x|] eqn:Ex; simpl.
  - apply NoDup_cons in Hnd as [Hx Hnd].
    destruct (IH (set_name e x)) as (e' & He & Hout & Hin); [done| |].
    { apply Forall_forall. intros d Hd. eapply ready_for_ext; [|by eapply (proj1 (Forall_forall _ _) Hr)].
      intros y Hy. symmetry. apply set_name_ne. intros Heq. apply Hx. rewrite <-Heq.
      apply list_elem_of_fmap_2. apply list_elem_of_omap. by exists d. }
    exists e'. split_and!; [done| |].
    + intros n [Hn ?]%not_elem_of_cons. rewrite Hout by done. by apply set_name_ne.
    + intros d y [->|Hd]%elem_of_cons Hy; [|by eapply Hin]. rewrite Ex in Hy. injection Hy as <-.
      rewrite Hout by done. apply set_name_lookup.
  - destruct (IH e) as (e' & He & Hout & Hin); [done|done|]. exists e'. split_and!; [done|done|].
    intros d y [->|Hd]%elem_of_cons Hy; [congruence|by eapply Hin].
Qed.

(** ** Resolution *)

Section planner.
Context {sha : Sha256} {digests : PlannerDigests}.

Definition by_desired_of (managed : list ManagedItem) : gmap DesiredEffectIdentity ManagedItem :=
  collect_map ((fun m => (mi_desired_effect m, m)) <$> managed).
(** The identity the planner gives a desired effect of the Resource. *)
Definition identity_of (input : ResourcePlanningInput) (d : DesiredEffectIdentity) : ManagedIdentity :=
  managed_identity_of (ef_identity (ri_resource input)) (by_desired_of (ri_managed input)) d.
Definition empty_resolution : Resolution := {| native_owners := ∅; items := ∅; blocked_by := [] |}.

(** The item a desired effect resolves to. *)
Definition resolves (input : ResourcePlanningInput) (contract : MaterializationContract) (d : DesiredEffectIdentity)
    (item : ResolvedMaterialization) : Prop :=
  exists desired revision definition,
    ri_desired_effects input !! d = Some desired /\ ri_revisions input !! de_revision desired = Some revision
    /\ er_definition revision = SkillDefinitionV definition
    /\ rm_managed_identity item = identity_of input d /\ rm_desired_effect item = d
    /\ rm_revision item = er_identity revision
    /\ rm_native_identity item = canonical (skill_name (sd_source definition))
    /\ rm_fingerprint item = sd_package_fingerprint definition /\ rm_contract item = contract
    /\ digest_input (rm_input item) = Ok (rm_input_digest item)
    /\ rm_input item = materialization_input definition.

Definition resolution_ok (input : ResourcePlanningInput) (contract : MaterializationContract)
    (ds : list DesiredEffectIdentity) (acc : Resolution) : Prop :=
  blocked_by acc = [] ->
  (forall m item, items acc !! m = Some item -> exists d, d ∈ ds /\ m = identity_of input d
     /\ resolves input contract d item /\ native_owners acc !! rm_native_identity item = Some d)
  /\ (forall n d, native_owners acc !! n = Some d -> d ∈ ds)
  /\ (forall d, d ∈ ds -> is_Some (items acc !! identity_of input d)).

Lemma parse_named_Ok e value v : parse_named e value = Ok v -> v = value.
Proof. unfold parse_named. case_bool_decide; [done|]. by intros [= <-]. Qed.

Lemma app_nonempty {A} (l : list A) x : l ++ [x] <> [].
Proof. by destruct l. Qed.

Lemma resolve_step_ok input contract ds acc d acc' :
  d ∉ ds -> resolution_ok input contract ds acc ->
  resolve_step input contract (by_desired_of (ri_managed input)) acc d = Ok acc' ->
  resolution_ok input contract (ds ++ [d]) acc'.
Proof.
  intros Hd Hok Hstep Hb'. unfold resolve_step in Hstep.
  apply bind_Ok in Hstep as (desired & Hdes%ok_or_Ok & Hstep).
  destruct (ri_revisions input !! de_revision desired) as [revision|] eqn:Hrev.
  2:{ injection Hstep as <-. simpl in Hb'. by apply app_nonempty in Hb'. }
  destruct (er_definition revision) as [definition] eqn:Hdef.
  apply bind_Ok in Hstep as (native & Hnat%map_err_Ok%parse_named_Ok & Hstep). subst native.
  set (n := canonical (skill_name (sd_source definition))) in *.
  destruct (match native_owners acc !! n with Some _ => _ | None => _ end) eqn:Hconf.
  { injection Hstep as <-. simpl in Hb'. by apply app_nonempty in Hb'. }
  apply bind_Ok in Hstep as (digest & Hdig & [= <-]). simpl in Hb'. destruct (Hok Hb') as (H1 & H2 & H3).
  assert (native_owners acc !! n = None) as Hfree.
  { destruct (native_owners acc !! n) as [prev|] eqn:E; [|done]. exfalso. apply Hd.
    apply negb_false_iff, bool_decide_eq_true in Hconf. subst. by eapply H2. }
  split_and!; simpl.
  - fold (identity_of input d). intros m item [[<- <-]|[Hne Hm]]%lookup_insert_Some.
    + exists d. split_and!; [set_solver|done| |simpl; apply lookup_insert_eq].
      exists desired, revision, definition. by split_and!.
    + destruct (H1 _ _ Hm) as (d' & Hin & -> & Hres & Hown). exists d'.
      split_and!; [set_solver|done|done|]. rewrite lookup_insert_ne; [done|]. intros Heq.
      rewrite <-Heq in Hown. discriminate (eq_trans (eq_sym Hfree) Hown).
  - intros k d' [[_ <-]|[_ Hk]]%lookup_insert_Some; [set_solver|]. specialize (H2 _ _ Hk). set_solver.
  - fold (identity_of input d). intros d' [Hin| ->%list_elem_of_singleton]%elem_of_app.
    + destruct (decide (identity_of input d' = identity_of input d)) as [->|Hne].
      * rewrite lookup_insert_eq. by eexists.
      * rewrite lookup_insert_ne by done. by apply H3.
    + rewrite lookup_insert_eq. by eexists.
Qed.

Lemma resolve_fold_ok input contract ds acc : NoDup ds ->
  fold_result (resolve_step input contract (by_desired_of (ri_managed input))) empty_resolution ds = Ok acc ->
  resolution_ok input contract ds acc.
Proof.
  revert acc. induction ds as [|d ds IH] using rev_ind; intros acc Hnd H.
  - injection H as <-. intros _. split_and!; [done|done|]. intros d Hd. by apply not_elem_of_nil in Hd.
  - apply NoDup_app in Hnd as (Hnd & Hdis & _). rewrite fold_result_app in H.
    apply bind_Ok in H as (acc1 & H1 & H). apply bind_Ok in H as (acc2 & H2 & [= <-]).
    eapply resolve_step_ok; [|by apply IH|done]. intros Hin. eapply Hdis; [done|set_solver].
Qed.

(** ** Requirements *)

Lemma requirement_fold resource l acc c ds ms :
  fold_result (requirement_step resource) acc l = Ok (c, ds, ms) ->
  Forall (fun r => rq_resource r = resource) l
  /\ (forall d, d ∈ ds <-> d ∈ acc.1.2 \/ exists r, r ∈ l /\ d ∈ rq_desired_effects r)
  /\ (forall t, t ∈ c <-> t ∈ acc.1.1 \/ exists r, r ∈ l /\ rq_target r = t)
  /\ (forall k, k ∈ ms <-> k ∈ acc.2 \/ exists r, r ∈ l /\ rq_materialization_contract r = k).
Proof.
  revert acc. induction l as [|r l IH]; intros [[c0 d0] m0] H.
  - injection H as <- <- <-. simpl. split_and!; [done|intros d; split; [by left|]..];
      by intros [?|(r & Hr%not_elem_of_nil & _)].
  - simpl in H. apply bind_Ok in H as ([[c1 d1] m1] & Hs & H). unfold requirement_step in Hs.
    apply reject_Ok in Hs as [Hr%negb_false_iff%bool_decide_eq_true [= <- <- <-]].
    apply IH in H as (HF & Hd & Hc & Hm). simpl in *. split_and!; [by constructor| | |]; intros x;
      rewrite ?Hd, ?Hc, ?Hm; set_solver.
Qed.

(** What a projected plan is made of. *)
Lemma plan_resource_inv input plan : skill_plan_resource input = Ok (Projected plan) ->
  exists desired_ids resolved,
    ro_resource (ri_observed input) = ef_identity (ri_resource input)
    /\ Forall (fun r => rq_resource r = ef_identity (ri_resource input)
                        /\ rq_materialization_contract r = skill_directory_v1) (ri_requirements input)
    /\ (forall d, d ∈ desired_ids <-> exists r, r ∈ ri_requirements input /\ d ∈ rq_desired_effects r)
    /\ (forall t, t ∈ rp_contributors (pl_projection plan) <-> exists r, r ∈ ri_requirements input /\ rq_target r = t)
    /\ resolution_ok input skill_directory_v1 (btree_elements str_le desired_ids) resolved
    /\ blocked_by resolved = []
    /\ occupied_conditions input (pl_preserved plan) (items resolved) = []
    /\ pl_preserved plan = (classify_observation (ri_managed input) (ri_observed input)).1
    /\ rp_items (pl_projection plan) = items resolved
    /\ rp_resource (pl_projection plan) = ef_identity (ri_resource input)
    /\ rp_generation (pl_projection plan) = ri_generation input
    /\ plan_changes (ri_generation input) (ri_managed input)
         (classify_observation (ri_managed input) (ri_observed input)).2 (pl_projection plan)
         (OwnerResource (ef_identity (ri_resource input))) = (pl_changes plan, []).
Proof.
  unfold skill_plan_resource. intros H.
  apply reject_Ok in H as [Hobs%negb_false_iff%bool_decide_eq_true H].
  destruct (classify_observation _ _) as [preserved observed] eqn:Hcl.
  apply bind_Ok in H as ([[c ds] ms] & Hreq & H).
  destruct (1 <? size ms)%nat eqn:Hsize; [done|]. apply Nat.ltb_ge in Hsize.
  destruct (negb _) eqn:Hcontract; [done|]. apply negb_false_iff, bool_decide_eq_true in Hcontract.
  apply bind_Ok in H as (resolved & Hres & H).
  destruct (blocked_by resolved ++ _) as [|? ?] eqn:Hcond; [|done]. apply app_eq_nil in Hcond as [Hb Hocc].
  apply bind_Ok in H as (digest & Hdig & H).
  destruct (plan_changes _ _ _ _ _) as [changes drift] eqn:Hch.
  destruct drift; [|done]. injection H as <-. simpl.
  apply requirement_fold in Hreq as (HF & Hd & Hc & Hm). simpl in *.
  exists ds, resolved. split_and!; try done.
  - apply Forall_forall. intros r Hr. split; [by eapply (proj1 (Forall_forall _ _) HF)|].
    assert (rq_materialization_contract r ∈ ms) as Hin by (apply Hm; right; by exists r).
    destruct (elements ms) as [|k l] eqn:El.
    + exfalso. apply elements_empty_iff in El. set_solver.
    + simpl in Hcontract. rewrite <-Hcontract.
      assert (length (elements ms) = size ms) as Hlen by done. rewrite El in Hlen. simpl in Hlen.
      destruct l; [|simpl in Hlen; lia]. apply elem_of_elements in Hin. rewrite El in Hin. set_solver.
  - intros d. rewrite Hd. set_solver.
  - intros t. rewrite Hc. set_solver.
  - rewrite Hcontract in Hres. apply resolve_fold_ok; [apply btree_elements_NoDup|done].
Qed.

(** ** Plans *)

Record plan_facts (input : ResourcePlanningInput) (plan : ResourcePlan) : Prop := {
  pf_keyed : forall m d, rp_items (pl_projection plan) !! m = Some d -> rm_managed_identity d = m;
  pf_natives : forall m1 m2 d1 d2, rp_items (pl_projection plan) !! m1 = Some d1 ->
    rp_items (pl_projection plan) !! m2 = Some d2 -> rm_native_identity d1 = rm_native_identity d2 -> m1 = m2;
  pf_free : forall p m d, p ∈ pl_preserved plan -> rp_items (pl_projection plan) !! m = Some d ->
    rm_native_identity d <> pi_native_identity p;
  pf_preserved : pl_preserved plan = (classify_observation (ri_managed input) (ri_observed input)).1;
  pf_drift : Forall (fun r => row_drifted (classify_observation (ri_managed input) (ri_observed input)).2 r = false)
    (ri_managed input);
  pf_changes : pl_changes plan
    = concat (row_changes (classify_observation (ri_managed input) (ri_observed input)).2
                (rp_items (pl_projection plan)) <$> ri_managed input)
      ++ (create_change <$> filter (fun d => rm_managed_identity d ∉ mi_identity <$> ri_managed input)
            (btree_values str_le (rp_items (pl_projection plan))));
}.

Lemma elem_of_items (m : gmap ManagedIdentity ResolvedMaterialization) d :
  d ∈ btree_values str_le m <-> exists k, m !! k = Some d.
Proof.
  unfold btree_values. rewrite list_elem_of_fmap. split.
  - intros ([k d'] & -> & H%elem_of_btree_entries). by exists k.
  - intros [k H]. exists (k, d). by rewrite elem_of_btree_entries.
Qed.

Lemma plan_resource_facts input plan : skill_plan_resource input = Ok (Projected plan) -> plan_facts input plan.
Proof.
  intros (ds & resolved & _ & _ & _ & _ & Hok & Hb & Hocc & Hpres & Hitems & _ & _ & Hch)%plan_resource_inv.
  destruct (Hok Hb) as (H1 & H2 & H3). apply plan_changes_no_drift in Hch as [Hd Hch].
  constructor; rewrite ?Hitems; try done.
  - intros m d Hm. destruct (H1 _ _ Hm) as (e & _ & -> & (? & ? & ? & Hr) & _). apply Hr.
  - intros m1 m2 d1 d2 Hm1 Hm2 Heq. destruct (H1 _ _ Hm1) as (e1 & _ & -> & _ & Ho1).
    destruct (H1 _ _ Hm2) as (e2 & _ & -> & _ & Ho2). rewrite Heq, Ho2 in Ho1. congruence.
  - intros p m d Hp Hm Heq. unfold occupied_conditions in Hocc. apply fmap_nil_inv in Hocc.
    assert (d ∈ filter (fun item => rm_native_identity item
        ∈ (list_to_set (pi_native_identity <$> pl_preserved plan) : gset NativeResourceIdentity))
        (btree_values str_le (items resolved))) as Hin.
    { apply list_elem_of_filter. split; [|apply elem_of_items; by eexists].
      apply elem_of_list_to_set. rewrite Heq. by apply list_elem_of_fmap_2. }
    rewrite Hocc in Hin. by apply not_elem_of_nil in Hin.
  - by rewrite Hch, Hitems.
Qed.
End planner.

(** ** Running a plan *)

(** Rows keep their native identity. *)
Definition no_renames (managed : list ManagedItem) (projected : gmap ManagedIdentity ResolvedMaterialization) : Prop :=
  forall row d, row ∈ managed -> projected !! mi_identity row = Some d ->
    rm_native_identity d = mi_native_identity row.

Section run.
Context (managed : list ManagedItem) (o : ResourceObservation)
  (projected : gmap ManagedIdentity ResolvedMaterialization).
Context (Hl : ledger_ok managed) (Ho : observation_ok o).
Local Notation observed := ((classify_observation managed o).2).

(** Every mutation of a ledger row starts from what was observed of that row, unchanged since. *)
Lemma row_changes_expected row m n f i : row ∈ managed ->
  row_drifted observed row = false ->
  Mutate m ∈ row_changes observed projected row -> pm_expected m = Present n f i ->
  i = mi_identity row /\ n = mi_native_identity row /\ f = mi_fingerprint row
  /\ external o !! n = Some (f, Claims i).
Proof using Hl Ho.
  intros Hrow Hd Hm He. unfold row_changes, row_drifted, managed_drifted in *.
  destruct (observed !! mi_identity row) as [cur|] eqn:Hcur.
  2:{ destruct (projected !! mi_identity row); simpl in Hm; apply list_elem_of_singleton in Hm; [|done].
      injection Hm as ->. done. }
  apply negb_false_iff, bool_decide_eq_true in Hd.
  apply (classify_matched managed o Hl Ho) in Hcur as (row' & (Hin & Hcl & _ & Hnat & Hlook) & Hid).
  assert (row' = row) as -> by (eapply (NoDup_fmap_eq mi_identity); [apply Hl|done..]).
  assert (i = mi_identity row /\ n = ob_native_identity cur /\ f = ob_fingerprint cur) as (-> & -> & ->).
  { destruct (projected !! mi_identity row) as [d|]; simpl in Hm.
    - destruct (up_to_date _ _ _); [by apply not_elem_of_nil in Hm|].
      apply list_elem_of_singleton in Hm. injection Hm as ->. simpl in He. by injection He as <- <- <-.
    - apply list_elem_of_singleton in Hm. injection Hm as ->. simpl in He. by injection He as <- <- <-. }
  split_and!; [done|done|done|]. unfold external. by rewrite lookup_fmap, Hlook, <-Hcl.
Qed.

Context (Hkeyed : forall m d, projected !! m = Some d -> rm_managed_identity d = m).
Context (Hnat : forall m1 m2 d1 d2, projected !! m1 = Some d1 -> projected !! m2 = Some d2 ->
  rm_native_identity d1 = rm_native_identity d2 -> m1 = m2).
Context (Hfree : forall p m d, p ∈ (classify_observation managed o).1 -> projected !! m = Some d ->
  rm_native_identity d <> pi_native_identity p).
Context (Hdrift : Forall (fun r => row_drifted observed r = false) managed).
Context (Hren : no_renames managed projected).

(** What a ledger row's name holds in the end. *)
Definition row_content (row : ManagedItem) : option (string * OwnershipEvidence) :=
  match projected !! mi_identity row with
  | Some d => Some (rm_fingerprint d, Claims (mi_identity row))
  | None => None
  end.
Definition item_content (d : ResolvedMaterialization) : string * OwnershipEvidence :=
  (rm_fingerprint d, Claims (rm_managed_identity d)).

(** Who an observed name belongs to. *)
Lemma name_owner n v : external o !! n = Some v ->
  (exists p, p ∈ (classify_observation managed o).1 /\ pi_native_identity p = n)
  \/ (exists row cur, row ∈ managed /\ mi_native_identity row = n /\ observed !! mi_identity row = Some cur
        /\ v = (mi_fingerprint row, Claims (mi_identity row))).
Proof using Hl Ho Hdrift.
  unfold external. intros (i & <- & Hi)%lookup_fmap_Some. pose proof (Ho _ _ Hi) as Hn. simpl in Hn. subst n.
  destruct (exact_match (ledger_of managed) o i) as [row|] eqn:E.
  - right. assert (i ∈ btree_values str_le (ro_items o)) as Hin by (apply elem_of_observed; by eexists).
    apply (exact_match_owns managed o Hl Ho i row Hin) in E. exists row, i.
    assert (observed !! mi_identity row = Some i) as Hobs by (apply classify_matched; [done..|by exists row]).
    destruct E as (Hrow & Hcl & _ & Hna & _). split_and!; [done|done|done|].
    pose proof (proj1 (Forall_forall _ _) Hdrift _ Hrow) as Hd. unfold row_drifted, managed_drifted in Hd.
    rewrite Hobs in Hd. apply negb_false_iff, bool_decide_eq_true in Hd. by rewrite Hd, Hcl.
  - left. exists (preserved_of o i). split; [|done]. apply classify_preserved; [done..|].
    exists i. split_and!; [done| |done]. intros row Hrow.
    assert (i ∈ btree_values str_le (ro_items o)) as Hin by (apply elem_of_observed; by eexists).
    apply (exact_match_owns managed o Hl Ho i row Hin) in Hrow. congruence.
Qed.

Lemma preserved_name p : p ∈ (classify_observation managed o).1 ->
  is_Some (external o !! pi_native_identity p)
  /\ (forall row, row ∈ managed -> is_Some (observed !! mi_identity row) ->
        mi_native_identity row <> pi_native_identity p).
Proof using Hl Ho.
  intros (i & Hi & Hno & ->)%classify_preserved; [|done..]. simpl. split.
  - unfold external. rewrite lookup_fmap, Hi. by eexists.
  - intros row Hrow [cur Hcur] Heq. apply classify_matched in Hcur as (row' & Hown & Hid); [|done..].
    apply (Hno row'). destruct Hown as (Hin & Hcl & Hres & Hn & Hlook).
    assert (row' = row) as -> by (eapply (NoDup_fmap_eq mi_identity); [apply Hl|done..]).
    assert (cur = i) as -> by congruence. done.
Qed.

Lemma row_change_ready row c : row ∈ managed -> c ∈ row_changes observed projected row ->
  ready_for (external o) c
  /\ (forall x, effect_of c = Some x -> x = (mi_native_identity row, row_content row)).
Proof using Hl Ho Hfree Hdrift Hren.
  intros Hrow Hc. pose proof (proj1 (Forall_forall _ _) Hdrift _ Hrow) as Hd.
  unfold row_changes, row_drifted, managed_drifted, row_content in *.
  destruct (observed !! mi_identity row) as [cur|] eqn:Hcur.
  - apply negb_false_iff, bool_decide_eq_true in Hd.
    pose proof Hcur as Hown. apply classify_matched in Hown as (row' & (Hin & Hcl & _ & Hna & Hlook) & Hid); [|done..].
    assert (row' = row) as -> by (eapply (NoDup_fmap_eq mi_identity); [apply Hl|done..]).
    assert (external o !! ob_native_identity cur = Some (ob_fingerprint cur, Claims (mi_identity row))) as He
      by (unfold external; by rewrite lookup_fmap, Hlook, <-Hcl).
    destruct (projected !! mi_identity row) as [d|] eqn:Hp; simpl in Hc.
    + destruct (up_to_date _ _ _); [by apply not_elem_of_nil in Hc|].
      apply list_elem_of_singleton in Hc as ->. simpl. pose proof (Hren _ _ Hrow Hp) as Hn.
      rewrite bool_decide_eq_true_2 by congruence.
      split; [split; [congruence|done]|]. intros x [= <-]. by rewrite Hna.
    + apply list_elem_of_singleton in Hc as ->. simpl. split; [done|]. intros x [= <-]. by rewrite Hna.
  - destruct (projected !! mi_identity row) as [d|] eqn:Hp; simpl in Hc; apply list_elem_of_singleton in Hc as ->;
      simpl; [|done].
    pose proof (Hren _ _ Hrow Hp) as Hn. split; [|intros x [= <-]; by rewrite Hn].
    destruct (external o !! rm_native_identity d) as [v|] eqn:E; [exfalso|done].
    apply name_owner in E as [(p & Hp' & Hpn)|(row' & cur & Hr & Hn' & Hcur' & _)].
    + eapply Hfree; [done|exact Hp|done].
    + assert (row' = row) as -> by (eapply (NoDup_fmap_eq mi_native_identity); [apply Hl|done..|congruence]).
      congruence.
Qed.

Lemma row_changes_at_most row : length (row_changes observed projected row) <= 1.
Proof using.
  unfold row_changes. destruct (observed !! _), (projected !! _); simpl; try lia.
  destruct (up_to_date _ _ _); simpl; lia.
Qed.

Lemma row_changes_names rows : rows ⊆+ managed ->
  (omap effect_of (concat (row_changes observed projected <$> rows))).*1 `sublist_of` (mi_native_identity <$> rows).
Proof using Hl Ho Hkeyed Hnat Hfree Hdrift Hren.
  induction rows as [|row rows IH]; intros Hsub; [done|]. csimpl. rewrite omap_app, fmap_app.
  assert (row ∈ managed) as Hrow by (eapply elem_of_submseteq; [|done]; set_solver).
  specialize (IH ltac:(etransitivity; [|exact Hsub]; by apply submseteq_cons)).
  pose proof (row_changes_at_most row) as Hlen. pose proof (fun c => row_change_ready row c Hrow) as Hr.
  destruct (row_changes observed projected row) as [|c [|]]; simpl in *; [by apply sublist_cons| |lia].
  destruct (Hr c ltac:(set_solver)) as [_ Hx]. destruct (effect_of c) as [x|]; simpl; [|by apply sublist_cons].
  rewrite (Hx x eq_refl). simpl. by apply sublist_skip.
Qed.

(** *** The creations *)

Definition new_items : list ResolvedMaterialization :=
  filter (fun d => rm_managed_identity d ∉ mi_identity <$> managed) (btree_values str_le projected).

Lemma elem_of_new_items d : d ∈ new_items <->
  projected !! rm_managed_identity d = Some d /\ rm_managed_identity d ∉ mi_identity <$> managed.
Proof using Hkeyed.
  unfold new_items. rewrite list_elem_of_filter, elem_of_items. split.
  - intros [? [k Hk]]. split; [|done]. by rewrite (Hkeyed _ _ Hk).
  - intros [? ?]. split; [done|by eexists].
Qed.

Lemma new_items_names : NoDup (rm_native_identity <$> new_items).
Proof using Hkeyed Hnat.
  apply NoDup_fmap_filter. unfold btree_values. rewrite <-list_fmap_compose.
  apply NoDup_fmap_2_strong.
  - intros [k1 d1] [k2 d2] H1%elem_of_btree_entries H2%elem_of_btree_entries Heq. simpl in Heq.
    assert (k1 = k2) as -> by (by eapply Hnat). congruence.
  - rewrite btree_entries_perm. apply NoDup_map_to_list.
Qed.

Lemma create_effects (ds : list ResolvedMaterialization) : omap effect_of (create_change <$> ds)
  = (fun d => (rm_native_identity d, Some (item_content d))) <$> ds.
Proof using. induction ds as [|d ds IH]; [done|]. csimpl. by rewrite IH. Qed.

Lemma item_row_name row d : row ∈ managed -> projected !! rm_managed_identity d = Some d ->
  rm_managed_identity d ∉ mi_identity <$> managed -> mi_native_identity row = rm_native_identity d ->
  row_content row = None.
Proof using Hnat Hren.
  intros Hrow Hd Hnew Heq. unfold row_content. destruct (projected !! mi_identity row) as [d'|] eqn:E; [|done].
  exfalso. apply Hnew. rewrite (Hnat _ _ _ _ Hd E) by (rewrite (Hren _ _ Hrow E); done).
  by apply list_elem_of_fmap_2.
Qed.

(** *** The two phases *)

Definition row_phase : list PlannedResourceChange := concat (row_changes observed projected <$> managed).
Definition names (cs : list PlannedResourceChange) : list NativeResourceIdentity := (omap effect_of cs).*1.

Lemma elem_of_row_phase c : c ∈ row_phase <-> exists row, row ∈ managed /\ c ∈ row_changes observed projected row.
Proof using.
  unfold row_phase. generalize (classify_observation managed o).2. intros obs. clear.
  induction managed as [|r l IH]; csimpl.
  - split; [by intros ?%not_elem_of_nil|by intros (? & ?%not_elem_of_nil & _)].
  - rewrite elem_of_app, IH. clear IH. setoid_rewrite elem_of_cons. naive_solver.
Qed.

Lemma elem_of_names n cs : n ∈ names cs <-> exists c x, c ∈ cs /\ effect_of c = Some x /\ x.1 = n.
Proof using.
  unfold names. rewrite list_elem_of_fmap. setoid_rewrite list_elem_of_omap. naive_solver.
Qed.

Lemma touched_row n : n ∈ names row_phase -> exists row c, row ∈ managed /\ mi_native_identity row = n
  /\ c ∈ row_phase /\ effect_of c = Some (n, row_content row)
  /\ (is_Some (observed !! mi_identity row) \/ is_Some (projected !! mi_identity row)).
Proof using Hl Ho Hfree Hdrift Hren.
  intros (c & x & Hc & Hx & <-)%elem_of_names. pose proof Hc as (row & Hrow & Hcr)%elem_of_row_phase.
  destruct (row_change_ready row c Hrow Hcr) as [_ Hxr]. pose proof (Hxr _ Hx) as ->. simpl.
  exists row, c. split_and!; [done|done|done|done|]. unfold row_changes in Hcr.
  destruct (observed !! mi_identity row); [left; by eexists|].
  destruct (projected !! mi_identity row); [right; by eexists|].
  simpl in Hcr. apply list_elem_of_singleton in Hcr as ->. done.
Qed.

Lemma untouched_row row : row ∈ managed -> mi_native_identity row ∉ names row_phase ->
  (observed !! mi_identity row = None /\ projected !! mi_identity row = None)
  \/ (is_Some (projected !! mi_identity row) /\ external o !! mi_native_identity row = row_content row).
Proof using Hl Ho Hfree Hdrift Hren.
  intros Hrow Hn.
  assert (forall c, c ∈ row_changes observed projected row -> effect_of c = None) as Hno.
  { intros c Hc. destruct (effect_of c) as [x|] eqn:Ex; [exfalso|done]. apply Hn, elem_of_names.
    exists c, x. split_and!; [apply elem_of_row_phase; by exists row|done|].
    by rewrite (proj2 (row_change_ready row c Hrow Hc) x Ex). }
  destruct (observed !! mi_identity row) as [cur|] eqn:Hcur.
  - right. destruct (projected !! mi_identity row) as [d|] eqn:Hp; unfold row_changes in Hno; rewrite Hcur, Hp in Hno.
    + split; [by eexists|]. unfold row_content. rewrite Hp.
      simpl in Hno. destruct (up_to_date row cur d) eqn:Hup.
      * apply andb_true_iff in Hup as [[Hf%bool_decide_eq_true _]%andb_true_iff _].
        apply classify_matched in Hcur as (row' & (Hin & Hcl & _ & Hna & Hlook) & Hid); [|done..].
        assert (row' = row) as -> by (eapply (NoDup_fmap_eq mi_identity); [apply Hl|done..]).
        unfold external. by rewrite lookup_fmap, Hna, Hlook, <-Hcl, <-Hf.
      * exfalso. specialize (Hno _ ltac:(by apply list_elem_of_singleton)). simpl in Hno.
        apply classify_matched in Hcur as (row' & (Hin & _ & _ & Hna & _) & Hid); [|done..].
        assert (row' = row) as -> by (eapply (NoDup_fmap_eq mi_identity); [apply Hl|done..]).
        rewrite bool_decide_eq_true_2 in Hno; [done|]. by rewrite (Hren _ _ Hrow Hp).
    + simpl in Hno. by specialize (Hno _ ltac:(by apply list_elem_of_singleton)).
  - destruct (projected !! mi_identity row) as [d|] eqn:Hp; unfold row_changes in Hno; rewrite Hcur, Hp in Hno.
    + simpl in Hno. by specialize (Hno _ ltac:(by apply list_elem_of_singleton)).
    + by left.
Qed.

Lemma run_row_phase : exists e1, run_changes (external o) row_phase = Some e1
  /\ (forall n, n ∉ names row_phase -> e1 !! n = external o !! n)
  /\ (forall row, row ∈ managed -> mi_native_identity row ∈ names row_phase ->
        e1 !! mi_native_identity row = row_content row).
Proof using Hl Ho Hkeyed Hnat Hfree Hdrift Hren.
  destruct (run_changes_disjoint (external o) row_phase) as (e1 & Hrun & Hout & Hin).
  { eapply sublist_NoDup; [|by apply row_changes_names]. apply Hl. }
  { apply Forall_forall. intros c (row & Hrow & Hc)%elem_of_row_phase. by apply (row_change_ready row c). }
  exists e1. split_and!; [done|done|]. intros row Hrow Hn.
  apply touched_row in Hn as (row' & c & Hrow' & Heq & Hc & Hx & _).
  assert (row' = row) as -> by (eapply (NoDup_fmap_eq mi_native_identity); [apply Hl|done..]).
  exact (Hin _ _ Hc Hx).
Qed.

Lemma new_item_free (e1 : ExternalState) d :
  (forall n, n ∉ names row_phase -> e1 !! n = external o !! n) ->
  (forall row, row ∈ managed -> mi_native_identity row ∈ names row_phase ->
     e1 !! mi_native_identity row = row_content row) ->
  d ∈ new_items -> e1 !! rm_native_identity d = None.
Proof using Hl Ho Hkeyed Hnat Hfree Hdrift Hren.
  intros Hout Hin [Hd Hnew]%elem_of_new_items.
  destruct (decide (rm_native_identity d ∈ names row_phase)) as [Hn|Hn].
  - pose proof Hn as (row & c & Hrow & Heq & _)%touched_row. rewrite <-Heq in Hn |- *.
    rewrite (Hin _ Hrow Hn). by apply (item_row_name row d).
  - rewrite (Hout _ Hn). destruct (external o !! _) as [v|] eqn:E; [exfalso|done].
    apply name_owner in E as [(p & Hp & Hpn)|(row & cur & Hrow & Heq & Hcur & _)].
    + by eapply Hfree.
    + pose proof (item_row_name row d Hrow Hd Hnew Heq) as Hc. rewrite <-Heq in Hn.
      destruct (untouched_row row Hrow Hn) as [[? _]|[[d' Hd'] _]]; [congruence|].
      unfold row_content in Hc. by rewrite Hd' in Hc.
Qed.

Lemma run_both_phases : exists final,
  run_changes (external o) (row_phase ++ (create_change <$> new_items)) = Some final
  /\ (forall d, d ∈ new_items -> final !! rm_native_identity d = Some (item_content d))
  /\ (forall row, row ∈ managed -> mi_native_identity row ∉ rm_native_identity <$> new_items ->
        mi_native_identity row ∈ names row_phase -> final !! mi_native_identity row = row_content row)
  /\ (forall n, n ∉ rm_native_identity <$> new_items -> n ∉ names row_phase -> final !! n = external o !! n).
Proof using Hl Ho Hkeyed Hnat Hfree Hdrift Hren.
  destruct run_row_phase as (e1 & Hrun & Hout & Hin).
  assert ((omap effect_of (create_change <$> new_items)).*1 = rm_native_identity <$> new_items) as Hnames
    by (by rewrite create_effects, <-list_fmap_compose).
  destruct (run_changes_disjoint e1 (create_change <$> new_items)) as (final & Hrun2 & Hout2 & Hin2).
  { rewrite Hnames. apply new_items_names. }
  { apply Forall_forall. intros c (d & -> & Hd)%list_elem_of_fmap. by apply new_item_free. }
  rewrite Hnames in Hout2. exists final. split_and!.
  - rewrite run_changes_app, Hrun. done.
  - intros d Hd. exact (Hin2 (create_change d) _ (list_elem_of_fmap_2 create_change _ _ Hd) eq_refl).
  - intros row Hrow Hn2 Hn. rewrite Hout2 by done. by apply Hin.
  - intros n Hn2 Hn. rewrite Hout2 by done. by apply Hout.
Qed.

(** The plan runs to its end; a name then holds what a preserved item held, or a projected item. *)
Lemma run_plan :
  exists final,
    run_changes (external o) (row_phase ++ (create_change <$> new_items)) = Some final
    /\ (forall n v, final !! n = Some v <->
          (exists p, p ∈ (classify_observation managed o).1 /\ pi_native_identity p = n /\ external o !! n = Some v)
          \/ (exists m d, projected !! m = Some d /\ rm_native_identity d = n
                /\ v = (rm_fingerprint d, Claims m))).
Proof using Hl Ho Hkeyed Hnat Hfree Hdrift Hren.
  destruct run_both_phases as (final & Hrun & Hnew & Hrow & Hrest). exists final. split; [done|]. intros n v. split.
  - intros Hf. destruct (decide (n ∈ rm_native_identity <$> new_items)) as [Hn2|Hn2].
    { apply list_elem_of_fmap in Hn2 as (d & -> & Hd). rewrite (Hnew _ Hd) in Hf. injection Hf as <-.
      right. apply elem_of_new_items in Hd as [Hd _]. by exists (rm_managed_identity d), d. }
    destruct (decide (n ∈ names row_phase)) as [Hn|Hn].
    + pose proof Hn as (row & c & Hr & <- & _)%touched_row. rewrite (Hrow _ Hr Hn2 Hn) in Hf.
      unfold row_content in Hf. destruct (projected !! mi_identity row) as [d|] eqn:Hp; [|done].
      injection Hf as <-. right. exists (mi_identity row), d. split_and!; [done|by apply Hren|done].
    + rewrite (Hrest _ Hn2 Hn) in Hf. pose proof Hf as [(p & Hp & <-)|(row & cur & Hr & <- & Hcur & _)]%name_owner.
      * left. by exists p.
      * right. destruct (untouched_row row Hr Hn) as [[? _]|[[d Hd] Hc]]; [congruence|].
        rewrite Hc in Hf. unfold row_content in Hf. rewrite Hd in Hf. injection Hf as <-.
        exists (mi_identity row), d. split_and!; [done|by apply Hren|done].
  - intros [(p & Hp & <- & He)|(m & d & Hd & <- & ->)].
    + rewrite Hrest; [done| |].
      * intros (d & Heq & [Hd _]%elem_of_new_items)%list_elem_of_fmap. by eapply Hfree.
      * intros (row & c & Hr & Heq & _ & _ & Hor)%touched_row. destruct (preserved_name p Hp) as [_ Hno].
        destruct Hor as [Hobs|[d Hd]]; [by eapply Hno|]. eapply Hfree; [done|exact Hd|].
        by rewrite (Hren _ _ Hr Hd).
    + pose proof (Hkeyed _ _ Hd) as <-. destruct (decide (rm_managed_identity d ∈ mi_identity <$> managed)) as [Hm|Hm].
      2:{ apply Hnew, elem_of_new_items. by split. }
      apply list_elem_of_fmap in Hm as (row & Heq & Hr). rewrite Heq in Hd.
      rewrite (Hren _ _ Hr Hd).
      assert (mi_native_identity row ∉ rm_native_identity <$> new_items) as Hn2.
      { intros (d' & Hn & [Hd' Hm']%elem_of_new_items)%list_elem_of_fmap. apply Hm'.
        rewrite <-(Hnat _ _ _ _ Hd Hd'); [by apply list_elem_of_fmap_2|]. by rewrite (Hren _ _ Hr Hd). }
      assert (row_content row = Some (rm_fingerprint d, Claims (rm_managed_identity d))) as Hc
        by (unfold row_content; by rewrite Hd, Heq).
      rewrite <-Hc. destruct (decide (mi_native_identity row ∈ names row_phase)) as [Hn|Hn]; [by apply Hrow|].
      rewrite (Hrest _ Hn2 Hn). destruct (untouched_row row Hr Hn) as [[_ ?]|[_ ?]]; [congruence|done].
Qed.
End run.

(** ** What a plan that ran has left

    Whatever names the changes move: a run that went through ends in the projection. *)
Definition starts_at (c : PlannedResourceChange) : option NativeResourceIdentity :=
  match c with Mutate m => match pm_expected m with Present n _ _ => Some n | Missing => None end | ForgetMissing _ => None end.
Definition taken_from (c : PlannedResourceChange) : option ManagedIdentity :=
  match c with Mutate m => match pm_expected m with Present _ _ i => Some i | Missing => None end | ForgetMissing _ => None end.
Definition leaves (c : PlannedResourceChange) : option (NativeResourceIdentity * (string * OwnershipEvidence)) :=
  match c with
  | Mutate m => match pm_planned m with Present n f i => Some (n, (f, Claims i)) | Missing => None end
  | ForgetMissing _ => None
  end.

Lemma run_change_cases e c e' n v : run_change e c = Some e' -> e' !! n = Some v ->
  leaves c = Some (n, v) \/ (e !! n = Some v /\ starts_at c <> Some n).
Proof.
  destruct c as [m|i]; simpl; [|intros [= <-]; by right]. unfold run_mutation.
  destruct (pm_expected m) as [|a f i], (pm_planned m) as [|b f' i']; try done.
  - case_bool_decide; [|done]. intros [= <-]. rewrite lookup_insert. case_decide; [subst; intros [= <-]; by left|by right].
  - case_bool_decide; [|done]. intros [= <-] [Hne Hv]%lookup_delete_Some. right. split; [done|congruence].
  - case_bool_decide; [|done]. case_bool_decide; [|done]. intros [= <-]. rewrite lookup_insert.
    case_decide; [subst; intros [= <-]; by left|]. intros [Hne Hv]%lookup_delete_Some. right. split; [done|congruence].
Qed.

(** A name that an identity holds changes only by a change that takes it from this identity. *)
Lemma run_change_keeps e c e' n f m : run_change e c = Some e' -> e !! n = Some (f, Claims m) ->
  taken_from c <> Some m -> e' !! n = Some (f, Claims m).
Proof.
  destruct c as [x|i]; simpl; [|by intros [= <-]]. unfold run_mutation.
  destruct (pm_expected x) as [|a f1 i], (pm_planned x) as [|b f' i']; try done.
  - case_bool_decide; [|done]. intros [= <-] He _. rewrite lookup_insert_ne; congruence.
  - case_bool_decide; [|done]. intros [= <-] He Ht. rewrite lookup_delete_ne; congruence.
  - case_bool_decide as Ha; [|done]. case_bool_decide as Hb; [|done]. intros [= <-] He Ht.
    assert (a <> n) as Hn by congruence. rewrite lookup_insert_ne, lookup_delete_ne; [done..|].
    intros ->. rewrite lookup_delete_ne in Hb by done. congruence.
Qed.

Lemma run_change_untouched e c e' n : run_change e c = Some e' -> starts_at c <> Some n ->
  (forall v, leaves c <> Some (n, v)) -> e' !! n = e !! n.
Proof.
  destruct c as [x|i]; simpl; [|by intros [= <-]]. unfold run_mutation.
  destruct (pm_expected x) as [|a f1 i], (pm_planned x) as [|b f' i']; try done.
  - case_bool_decide; [|done]. intros [= <-] _ Hb. rewrite lookup_insert_ne; [done|]. intros ->. by eapply Hb.
  - case_bool_decide; [|done]. intros [= <-] Ha _. rewrite lookup_delete_ne; [done|congruence].
  - case_bool_decide; [|done]. case_bool_decide; [|done]. intros [= <-] Ha Hb.
    rewrite lookup_insert_ne, lookup_delete_ne; [done|congruence|]. intros ->. by eapply Hb.
Qed.

Lemma run_changes_origin e cs e' n v : run_changes e cs = Some e' -> e' !! n = Some v ->
  (exists c, c ∈ cs /\ leaves c = Some (n, v)) \/ (e !! n = Some v /\ forall c, c ∈ cs -> starts_at c <> Some n).
Proof.
  revert e. induction cs as [|c cs IH]; intros e; simpl.
  { intros [= ->] Hv. right. split; [done|]. by intros c ?%not_elem_of_nil. }
  intros (e1 & Hc & Hrun)%bind_Some Hv. destruct (IH _ Hrun Hv) as [(d & Hd & Hl)|[He Hno]].
  - left. exists d. split; [by right|done].
  - destruct (run_change_cases _ _ _ _ _ Hc He) as [Hl|[He' Hs]]; [left; exists c; split; [by left|done]|].
    right. split; [done|]. by intros d [->|Hd]%elem_of_cons; [|apply Hno].
Qed.

Lemma run_changes_keeps e cs e' n f m : run_changes e cs = Some e' -> e !! n = Some (f, Claims m) ->
  (forall c, c ∈ cs -> taken_from c <> Some m) -> e' !! n = Some (f, Claims m).
Proof.
  revert e. induction cs as [|c cs IH]; intros e; simpl; [by intros [= ->]|].
  intros (e1 & Hc & Hrun)%bind_Some He Hno. apply (IH e1 Hrun); [|by intros d Hd; apply Hno; right].
  eapply run_change_keeps; [exact Hc|done|]. apply Hno. by left.
Qed.

Lemma run_changes_untouched e cs e' n : run_changes e cs = Some e' ->
  (forall c, c ∈ cs -> starts_at c <> Some n /\ forall v, leaves c <> Some (n, v)) -> e' !! n = e !! n.
Proof.
  revert e. induction cs as [|c cs IH]; intros e; simpl; [by intros [= ->]|].
  intros (e1 & Hc & Hrun)%bind_Some Hno. rewrite (IH e1 Hrun) by (intros d Hd; apply Hno; by right).
  destruct (Hno c ltac:(by left)). by eapply run_change_untouched.
Qed.

Lemma run_changes_leaves e cs c e' n f m : run_changes e cs = Some e' -> c ∈ cs ->
  leaves c = Some (n, (f, Claims m)) -> (forall d, d ∈ cs -> taken_from d = Some m -> d = c) -> e' !! n = Some (f, Claims m).
Proof.
  revert e'. induction cs as [|x cs IH] using rev_ind; intros e'; [by intros _ ?%not_elem_of_nil|].
  rewrite run_changes_app. intros (e1 & Hrun & (e2 & Hx & [= ->])%bind_Some)%bind_Some Hc Hl Hone.
  destruct (decide (leaves x = Some (n, (f, Claims m)))) as [Hlx|Hne].
  - clear -Hx Hlx. destruct x as [x|]; [|done]. simpl in *.
    unfold run_mutation in Hx. destruct (pm_planned x) as [|b f' i']; [done|]. injection Hlx as -> -> ->.
    destruct (pm_expected x); repeat (case_bool_decide; [|done]); injection Hx as <-; apply lookup_insert_eq.
  - assert (x <> c) as Hxc by (by intros ->). eapply run_change_keeps; [exact Hx| |].
    + apply IH; [done| |done|intros d Hd; apply Hone; set_solver].
      apply elem_of_app in Hc as [Hc|Hc%list_elem_of_singleton]; [done|congruence].
    + intros Ht. apply Hxc, Hone; [set_solver|done].
Qed.

Section settled.
Context (managed : list ManagedItem) (o : ResourceObservation)
  (projected : gmap ManagedIdentity ResolvedMaterialization).
Context (Hl : ledger_ok managed) (Ho : observation_ok o).
Local Notation observed := ((classify_observation managed o).2).
Context (Hkeyed : forall m d, projected !! m = Some d -> rm_managed_identity d = m).
Context (Hfree : forall p m d, p ∈ (classify_observation managed o).1 -> projected !! m = Some d ->
  rm_native_identity d <> pi_native_identity p).
Context (Hdrift : Forall (fun r => row_drifted observed r = false) managed).
Local Notation changes := (row_phase managed o projected ++ (create_change <$> new_items managed projected)).

Lemma elem_of_both_phases c : c ∈ changes <->
  (exists row, row ∈ managed /\ c ∈ row_changes observed projected row) \/
  (exists d, d ∈ new_items managed projected /\ c = create_change d).
Proof using. rewrite elem_of_app, elem_of_row_phase, list_elem_of_fmap. naive_solver. Qed.

(** A change that takes a name from an identity is the one of its row, and finds it observed. *)
Lemma change_taken c m : c ∈ changes -> taken_from c = Some m -> exists row, row ∈ managed /\ mi_identity row = m /\
  row_changes observed projected row = [c] /\ is_Some (observed !! m) /\ starts_at c = Some (mi_native_identity row).
Proof using Hl Ho Hdrift.
  intros [(row & Hrow & Hc)|(d & _ & ->)]%elem_of_both_phases Ht; [|done]. exists row.
  destruct c as [x|]; [|done]. simpl in Ht. destruct (pm_expected x) as [|n f i] eqn:Ex; [done|]. injection Ht as ->.
  pose proof (proj1 (Forall_forall _ _) Hdrift _ Hrow) as Hd.
  destruct (row_changes_expected managed o projected Hl Ho row x n f m Hrow Hd Hc Ex) as (-> & -> & _ & _).
  split; [done|]. split; [done|]. split; [|split; [|simpl; by rewrite Ex]].
  - pose proof (row_changes_at_most managed o projected row) as Hlen.
    destruct (row_changes observed projected row) as [|y [|]]; simpl in *; [by apply not_elem_of_nil in Hc| |lia].
    by apply list_elem_of_singleton in Hc as ->.
  - unfold row_changes in Hc. destruct (observed !! mi_identity row); [by eexists|]. exfalso.
    destruct (projected !! mi_identity row); apply list_elem_of_singleton in Hc; [|done]. by injection Hc as ->.
Qed.

Lemma change_leaves c n v : c ∈ changes -> leaves c = Some (n, v) -> exists d,
  projected !! rm_managed_identity d = Some d /\ n = rm_native_identity d /\ v = (rm_fingerprint d, Claims (rm_managed_identity d)).
Proof using Hkeyed.
  intros [(row & _ & Hc)|(d & Hd & ->)]%elem_of_both_phases Hlv.
  - unfold row_changes in Hc. destruct (observed !! mi_identity row) as [cur|], (projected !! mi_identity row) as [d|] eqn:Hp; simpl in Hc.
    + destruct (up_to_date _ _ _); [by apply not_elem_of_nil in Hc|]. apply list_elem_of_singleton in Hc as ->. injection Hlv as <- <-.
      exists d. rewrite (Hkeyed _ _ Hp). done.
    + by apply list_elem_of_singleton in Hc as ->.
    + apply list_elem_of_singleton in Hc as ->. injection Hlv as <- <-. exists d. rewrite (Hkeyed _ _ Hp). done.
    + by apply list_elem_of_singleton in Hc as ->.
  - injection Hlv as <- <-. exists d. by apply elem_of_new_items in Hd as [Hd _].
Qed.

(** The change that brings a projected item, or its name holds the item already. *)
Lemma item_change m d : projected !! m = Some d ->
  (exists c, c ∈ changes /\ leaves c = Some (rm_native_identity d, (rm_fingerprint d, Claims m)) /\
     forall c', c' ∈ changes -> taken_from c' = Some m -> c' = c) \/
  (external o !! rm_native_identity d = Some (rm_fingerprint d, Claims m) /\
     forall c', c' ∈ changes -> taken_from c' <> Some m).
Proof using Hl Ho Hkeyed Hdrift.
  intros Hd. pose proof (Hkeyed _ _ Hd) as Hk.
  destruct (decide (m ∈ mi_identity <$> managed)) as [(row & -> & Hrow)%list_elem_of_fmap|Hnew].
  2:{ left. exists (create_change d). split; [|split; [by rewrite <-Hk|]].
      - apply elem_of_both_phases. right. exists d. split; [|done]. apply elem_of_new_items; [done|]. by rewrite Hk.
      - intros c' Hc' (row & Hrow & <- & _)%change_taken; [|done]. destruct Hnew. by apply list_elem_of_fmap_2. }
  assert (forall c', c' ∈ changes -> taken_from c' = Some (mi_identity row) ->
    row_changes observed projected row = [c'] /\ is_Some (observed !! mi_identity row)) as Hown.
  { intros c' Hc' (row' & Hrow' & Heq & Hch & Hs & _)%change_taken; [|done].
    assert (row' = row) as -> by (eapply (NoDup_fmap_eq mi_identity); [apply Hl|done..]). done. }
  assert (forall c, row_changes observed projected row = [c] ->
    leaves c = Some (rm_native_identity d, (rm_fingerprint d, Claims (mi_identity row))) ->
    exists c, c ∈ changes /\ leaves c = Some (rm_native_identity d, (rm_fingerprint d, Claims (mi_identity row))) /\
      forall c', c' ∈ changes -> taken_from c' = Some (mi_identity row) -> c' = c) as Hone.
  { intros c Hc Hlv. exists c. split; [apply elem_of_both_phases; left; exists row; rewrite Hc; split; [done|by apply list_elem_of_singleton]|].
    split; [done|]. intros c' Hc' Ht. destruct (Hown c' Hc' Ht) as [Hc'' _]. congruence. }
  unfold row_changes in Hone, Hown. rewrite Hd in Hone, Hown.
  destruct (observed !! mi_identity row) as [cur|] eqn:Hcur; simpl in Hone, Hown; [|left; by eapply Hone].
  destruct (up_to_date row cur d) eqn:Hup; [right|left; by eapply Hone].
  split; [|intros c' Hc' Ht; by destruct (Hown c' Hc' Ht)].
  apply andb_true_iff in Hup as [[Hf%bool_decide_eq_true _]%andb_true_iff Hn%bool_decide_eq_true].
  apply classify_matched in Hcur as (row' & (Hin & Hcl & _ & Hna & Hlook) & Hid); [|done..].
  assert (row' = row) as -> by (eapply (NoDup_fmap_eq mi_identity); [apply Hl|done..]).
  unfold external. rewrite lookup_fmap, <-Hn, Hna, Hlook. simpl. by rewrite Hf, Hcl.
Qed.

Lemma run_settles final : run_changes (external o) changes = Some final -> forall n v, final !! n = Some v <->
  (exists p, p ∈ (classify_observation managed o).1 /\ pi_native_identity p = n /\ external o !! n = Some v)
  \/ (exists m d, projected !! m = Some d /\ rm_native_identity d = n /\ v = (rm_fingerprint d, Claims m)).
Proof using Hl Ho Hkeyed Hfree Hdrift.
  intros Hrun n v. split.
  - intros Hv. destruct (run_changes_origin _ _ _ _ _ Hrun Hv) as [(c & Hc & Hlv)|[He Hno]].
    + destruct (change_leaves _ _ _ Hc Hlv) as (d & Hd & -> & ->). right. by exists (rm_managed_identity d), d.
    + destruct (name_owner managed o Hl Ho Hdrift n v He) as [(p & Hp & Hpn)|(row & cur & Hrow & <- & Hcur & ->)]; [left; by exists p|right].
      pose proof (proj1 (Forall_forall _ _) Hdrift _ Hrow) as Hdr.
      assert (forall m, Mutate m ∈ row_changes observed projected row -> pm_expected m = Missing) as Hmiss.
      { intros m Hm. destruct (pm_expected m) as [|n f i] eqn:Em; [done|exfalso].
        destruct (row_changes_expected managed o projected Hl Ho row m n f i Hrow Hdr Hm Em) as (_ & -> & _).
        apply (Hno (Mutate m)); [apply elem_of_both_phases; left; by exists row|]. simpl. by rewrite Em. }
      unfold row_drifted, managed_drifted in Hdr. rewrite Hcur in Hdr. apply negb_false_iff, bool_decide_eq_true in Hdr.
      unfold row_changes in Hmiss. rewrite Hcur in Hmiss. destruct (projected !! mi_identity row) as [d|] eqn:Hp; simpl in Hmiss.
      * destruct (up_to_date row cur d) eqn:Hup; [|by specialize (Hmiss _ ltac:(by apply list_elem_of_singleton))].
        apply andb_true_iff in Hup as [[Hf%bool_decide_eq_true _]%andb_true_iff Hn%bool_decide_eq_true].
        exists (mi_identity row), d. split_and!; [done|congruence|congruence].
      * by specialize (Hmiss _ ltac:(by apply list_elem_of_singleton)).
  - intros [(p & Hp & <- & He)|(m & d & Hd & <- & ->)].
    + rewrite (run_changes_untouched _ _ _ _ Hrun); [done|]. intros c Hc. split.
      * intros Hs. assert (exists m, taken_from c = Some m) as [m Ht].
        { destruct c as [x|]; [|done]. simpl in *. destruct (pm_expected x); [done|]. by eexists. }
        destruct (change_taken _ _ Hc Ht) as (row & Hrow & <- & _ & Hobs & Hs').
        destruct (preserved_name managed o Hl Ho p Hp) as [_ Hno]. apply (Hno row Hrow Hobs). congruence.
      * intros w Hw. destruct (change_leaves _ _ _ Hc Hw) as (d & Hd & Hn & _). by eapply Hfree.
    + destruct (item_change m d Hd) as [(c & Hc & Hlv & Hone)|[He Hno]].
      * by eapply run_changes_leaves.
      * by eapply run_changes_keeps.
Qed.
End settled.

(** ** Properties *)

Section theorems.
Context {sha : Sha256} {digests : PlannerDigests}.

(** The names a mutation may change. *)
Definition mutated_name (m : PlannedMutation) (n : NativeResourceIdentity) : Prop :=
  (exists f i, pm_expected m = Present n f i) \/ (exists f i, pm_planned m = Present n f i).

Lemma row_mutation_planned observed projected row m n f i :
  Mutate m ∈ row_changes observed projected row -> pm_planned m = Present n f i ->
  exists d, projected !! mi_identity row = Some d /\ n = rm_native_identity d /\ f = rm_fingerprint d
    /\ i = mi_identity row.
Proof.
  unfold row_changes. destruct (observed !! _) as [cur|], (projected !! _) as [d|]; simpl.
  - destruct (up_to_date _ _ _); [by intros ?%not_elem_of_nil|].
    intros [= ->]%list_elem_of_singleton. simpl. intros [= <- <- <-]. by exists d.
  - by intros [= ->]%list_elem_of_singleton.
  - intros [= ->]%list_elem_of_singleton. simpl. intros [= <- <- <-]. by exists d.
  - by intros [=]%list_elem_of_singleton.
Qed.

Lemma elem_of_changes input plan c : plan_facts input plan -> c ∈ pl_changes plan ->
  (exists row, row ∈ ri_managed input
     /\ c ∈ row_changes (classify_observation (ri_managed input) (ri_observed input)).2
              (rp_items (pl_projection plan)) row)
  \/ (exists d, rp_items (pl_projection plan) !! rm_managed_identity d = Some d /\ c = create_change d).
Proof.
  intros Hf. rewrite (pf_changes _ _ Hf), elem_of_app. intros [Hc|Hc].
  - left. by apply (elem_of_row_phase _ (ri_observed input)) in Hc.
  - right. apply list_elem_of_fmap in Hc as (d & -> & [_ [k Hk]%elem_of_items]%list_elem_of_filter).
    exists d. by rewrite (pf_keyed _ _ Hf _ _ Hk).
Qed.

(** C12: a plan only touches what the ledger proves to be Ora's.  A planned update, replacement or
    deletion expects exactly the name and fingerprint a ledger row records, and that name was
    observed carrying this row's marker and this fingerprint; and no mutation, creations included,
    starts from or ends at a name a preserved item holds. *)
Theorem plan_touches_only_owned (input : ResourcePlanningInput) (plan : ResourcePlan) (m : PlannedMutation)
    (Hl : ledger_ok (ri_managed input)) (Ho : observation_ok (ri_observed input))
    (Hp : skill_plan_resource input = Ok (Projected plan)) (Hm : Mutate m ∈ pl_changes plan) :
  (forall n f i, pm_expected m = Present n f i ->
     external (ri_observed input) !! n = Some (f, Claims i)
     /\ exists row, row ∈ ri_managed input /\ mi_identity row = i /\ mi_native_identity row = n
          /\ mi_fingerprint row = f)
  /\ (forall n p, mutated_name m n -> p ∈ pl_preserved plan -> pi_native_identity p <> n).
Proof.
  pose proof (plan_resource_facts _ _ Hp) as Hf.
  destruct (elem_of_changes _ _ _ Hf Hm) as [(row & Hrow & Hc)|(d & Hd & [= ->])].
  - pose proof (proj1 (Forall_forall _ _) (pf_drift _ _ Hf) _ Hrow) as Hdr. split.
    + intros n f i He.
      destruct (row_changes_expected _ _ _ Hl Ho row m n f i Hrow Hdr Hc He) as (-> & -> & -> & H). split; [done|].
      by exists row.
    + intros n p [(f & i & He)|(f & i & He)] Hpp Heq.
      * destruct (row_changes_expected _ _ _ Hl Ho row m n f i Hrow Hdr Hc He) as (_ & Hn & _).
        rewrite (pf_preserved _ _ Hf) in Hpp. destruct (preserved_name _ _ Hl Ho p Hpp) as [_ Hno].
        apply (Hno row Hrow); [|congruence]. unfold row_changes in Hc.
        destruct (_ !! mi_identity row); [by eexists|]. exfalso.
        destruct (_ !! mi_identity row); apply list_elem_of_singleton in Hc; [|done]. by injection Hc as ->.
      * destruct (row_mutation_planned _ _ _ _ _ _ _ Hc He) as (d & Hd & -> & _). by eapply pf_free.
  - split; [done|]. intros n p [(f & i & He)|(f & i & He)] Hpp Heq; [done|]. simpl in He. injection He as <- _ _.
    by eapply pf_free.
Qed.

(** Running a plan reaches the projection.  When ledger rows keep their names, every change of
    a projected plan finds exactly the state it expects when the changes run in order on the
    observed Resource, and the Resource then holds the preserved items, unchanged, and the items
    of the projection, each under its name with its fingerprint and owner, and nothing else. *)
Theorem plan_reaches_projection (input : ResourcePlanningInput) (plan : ResourcePlan)
    (Hl : ledger_ok (ri_managed input)) (Ho : observation_ok (ri_observed input))
    (Hp : skill_plan_resource input = Ok (Projected plan))
    (Hr : no_renames (ri_managed input) (rp_items (pl_projection plan))) :
  exists final,
    run_changes (external (ri_observed input)) (pl_changes plan) = Some final
    /\ (forall n v, final !! n = Some v <->
          (exists p, p ∈ pl_preserved plan /\ pi_native_identity p = n
             /\ external (ri_observed input) !! n = Some v)
          \/ (exists m d, rp_items (pl_projection plan) !! m = Some d /\ rm_native_identity d = n
                /\ v = (rm_fingerprint d, Claims m))).
Proof.
  pose proof (plan_resource_facts _ _ Hp) as Hf. rewrite (pf_changes _ _ Hf), (pf_preserved _ _ Hf).
  apply run_plan; [done|done|apply Hf|apply Hf| |apply Hf|done].
  intros p m d H. apply (pf_free _ _ Hf). by rewrite (pf_preserved _ _ Hf).
Qed.

(** Of the mutations a plan holds, the operation journal accepts exactly those that are not
    replacements: a planned [Replace] changes the native identity, which
    [validate_mutation_states] forbids, so a ledger row whose effect changes its name can never
    be reconciled. *)
Theorem planned_replace_refused (input : ResourcePlanningInput) (plan : ResourcePlan) (m : PlannedMutation)
    (Hl : ledger_ok (ri_managed input)) (Ho : observation_ok (ri_observed input))
    (Hp : skill_plan_resource input = Ok (Projected plan)) (Hm : Mutate m ∈ pl_changes plan) :
  validate_mutation_states (pm_mutation m) (pm_expected m) (pm_planned m)
  = (if bool_decide (pm_mutation m = Replace) then Err InvalidMutationStates else Ok tt).
Proof.
  pose proof (plan_resource_facts _ _ Hp) as Hf.
  destruct (elem_of_changes _ _ _ Hf Hm) as [(row & Hrow & Hc)|(d & Hd & [= ->])]; [|done].
  unfold row_changes in Hc.
  destruct (_ !! mi_identity row) as [cur|] eqn:Hcur, (rp_items _ !! mi_identity row) as [d|]; simpl in Hc.
  - destruct (up_to_date _ _ _); [by apply not_elem_of_nil in Hc|].
    apply list_elem_of_singleton in Hc. injection Hc as ->. simpl.
    apply (classify_matched _ _ Hl Ho) in Hcur as (row' & (Hin & _ & _ & Hna & _) & Hid).
    assert (row' = row) as -> by (eapply (NoDup_fmap_eq mi_identity); [apply Hl|done..]).
    rewrite <-Hna. unfold validate_mutation_states. rewrite (bool_decide_eq_true_2 (mi_identity row = _)) by done.
    rewrite andb_true_r. by case_bool_decide.
  - apply list_elem_of_singleton in Hc. by injection Hc as ->.
  - apply list_elem_of_singleton in Hc. by injection Hc as ->.
  - by apply list_elem_of_singleton in Hc.
Qed.

(** A projection is complete and holds nothing else.  Every desired effect some Target's
    requirement names has an item under its managed identity (the ledger's, or the one derived
    from the Resource and the effect), and every item resolves such an effect: its revision,
    name, content and contract are those of the selected revision. *)
Theorem projection_complete (input : ResourcePlanningInput) (plan : ResourcePlan)
    (Hp : skill_plan_resource input = Ok (Projected plan)) :
  (forall r d, r ∈ ri_requirements input -> d ∈ rq_desired_effects r ->
     is_Some (rp_items (pl_projection plan) !! identity_of input d))
  /\ (forall m item, rp_items (pl_projection plan) !! m = Some item ->
        exists r d, r ∈ ri_requirements input /\ d ∈ rq_desired_effects r /\ m = identity_of input d
          /\ resolves input skill_directory_v1 d item)
  /\ (forall t, t ∈ rp_contributors (pl_projection plan) <-> exists r, r ∈ ri_requirements input /\ rq_target r = t).
Proof.
  apply plan_resource_inv in Hp as (ds & resolved & _ & _ & Hds & Hc & Hok & Hb & _ & _ & Hitems & _).
  destruct (Hok Hb) as (H1 & _ & H3). rewrite Hitems. split_and!; [| |done].
  - intros r d Hr Hd. apply H3, elem_of_btree_elements, Hds. by exists r.
  - intros m item Hm. destruct (H1 _ _ Hm) as (d & Hd & -> & Hres & _).
    apply elem_of_btree_elements, Hds in Hd as (r & Hr & Hd). by exists r, d.
Qed.
End theorems.

(** ** A sample Resource

    One skill to update, one to remove, one to add under the removed one's name, next to a
    directory of the user. *)

#[local] Instance sample_sha : Sha256 := {| sha256_hex := fun text => text |}.
#[local] Instance sample_digests : PlannerDigests :=
  {| digest_input := fun _ => Ok "i"; digest_resource_projection := fun _ _ _ _ => Ok "r";
     digest_requirement := fun _ _ _ _ _ _ => Ok "q"; digest_target_projection := fun _ _ _ _ _ => Ok "t" |}.

Definition sample_skill (name lower fingerprint : string) : SkillDefinition :=
  {| sd_source := {| source_kind := LocalSource; namespace := "local";
                     skill_name := {| display := name; canonical := lower |} |};
     sd_skill_md_digest := "md"; sd_package_fingerprint := fingerprint; sd_package_root := "/pkg" |}.
Definition sample_revision (id : string) (d : SkillDefinition) : EffectRevision :=
  {| er_identity := id; er_source := "s"; er_revision_key := "k"; er_definition := SkillDefinitionV d;
     er_digest := "x"; er_availability := Available |}.
Definition sample_desired (id revision : string) : DesiredEffect :=
  {| de_identity := id; de_revision := revision; de_parameters := SkillParametersV; de_audience := default_selector |}.
Definition sample_row (id desired native fingerprint : string) : ManagedItem :=
  {| mi_identity := id; mi_resource := "r"; mi_desired_effect := desired; mi_applied_revision := "v0";
     mi_native_identity := native; mi_fingerprint := fingerprint; mi_applied_generation := 1%N |}.
Definition sample_item (native fingerprint : string) (o : OwnershipEvidence) : ObservedItem :=
  {| ob_native_identity := native; ob_fingerprint := fingerprint; ob_ownership_evidence := o |}.

(** [name]: what the updated skill is called now. *)
Definition sample_input (name : string) : ResourcePlanningInput :=
  {| ri_resource := {| ef_identity := "r"; ef_scope := "w"; ef_resource_key := "filesystem-directory:skills";
       ef_adapter := "fs"; ef_descriptor := FilesystemDirectoryV1 "/w" {| normalized := "skills" |};
       ef_format := "ora/skill-directory.v1"; ef_lifecycle := Active |};
     ri_generation := 2%N;
     ri_requirements := [{| rq_target := "t"; rq_resource := "r"; rq_desired_effects := {["d1"; "d3"]};
       rq_materialization_contract := skill_directory_v1; rq_digest := "q" |}];
     ri_desired_effects := {["d1" := sample_desired "d1" "v1"; "d3" := sample_desired "d3" "v3"]};
     ri_revisions := {["v1" := sample_revision "v1" (sample_skill name name "f1+");
                       "v3" := sample_revision "v3" (sample_skill "Beta" "beta" "f3")]};
     ri_managed := [sample_row "m1" "d1" "alpha" "f1"; sample_row "m2" "d2" "beta" "f2"];
     ri_observed := {| ro_resource := "r"; ro_fingerprint := "o";
       ro_items := {["alpha" := sample_item "alpha" "f1" (Claims "m1"); "beta" := sample_item "beta" "f2" (Claims "m2");
                     "gamma" := sample_item "gamma" "f0" NoOwnershipEvidence]} |} |}.

Definition planned (r : result PlannerError (PlanningResult ResourcePlan)) : option ResourcePlan :=
  match r with Ok (Projected plan) => Some plan | _ => None end.
Definition sample_plan_of (name : string) : ResourcePlan :=
  default {| pl_projection := {| rp_resource := ""; rp_generation := 0%N; rp_contributors := ∅; rp_items := ∅;
                                 rp_digest := "" |}; pl_preserved := []; pl_changes := [] |}
    (planned (skill_plan_resource (sample_input name))).

Definition mutations (plan : ResourcePlan) : list (EffectMutation * ExactState * ExactState) :=
  omap (fun c => match c with Mutate m => Some (pm_mutation m, pm_expected m, pm_planned m) | _ => None end)
    (pl_changes plan).

(** The removal comes before the creation under the same name. *)
Example sample_mutations : mutations (sample_plan_of "alpha")
  = [(Update, Present "alpha" "f1" "m1", Present "alpha" "f1+" "m1"); (Delete, Present "beta" "f2" "m2", Missing);
     (Create, Missing, Present "beta" "f3" (for_intent "r" "d3"))].
Proof. vm_compute. reflexivity. Qed.

Lemma sample_ledger_ok name : ledger_ok (ri_managed (sample_input name)).
Proof. split; vm_compute; repeat constructor; set_solver. Qed.
Lemma sample_observation_ok name : observation_ok (ri_observed (sample_input name)).
Proof. apply map_Forall_to_list. vm_compute. repeat constructor. Qed.

Lemma plan_touches_only_owned_witness :
  exists m, Mutate m ∈ pl_changes (sample_plan_of "alpha") /\ pm_mutation m = Delete
    /\ (forall p, p ∈ pl_preserved (sample_plan_of "alpha") -> pi_native_identity p <> "beta").
Proof.
  assert (Mutate {| pm_managed_identity := "m2"; pm_desired_effect := None; pm_mutation := Delete;
            pm_expected := Present "beta" "f2" "m2"; pm_planned := Missing; pm_input := None |}
          ∈ pl_changes (sample_plan_of "alpha")) as Hm
    by (vm_compute; right; left).
  eexists. split; [exact Hm|]. split; [reflexivity|]. intros p Hp.
  eapply (plan_touches_only_owned (sample_input "alpha") (sample_plan_of "alpha"));
    [apply sample_ledger_ok|apply sample_observation_ok|vm_compute; reflexivity|exact Hm| |exact Hp].
  left. exists "f2", "m2". reflexivity.
Defined.

Lemma plan_reaches_projection_witness :
  exists final,
    run_changes (external (ri_observed (sample_input "alpha"))) (pl_changes (sample_plan_of "alpha")) = Some final
    /\ final !! "beta" = Some ("f3", Claims (for_intent "r" "d3")).
Proof.
  destruct (plan_reaches_projection (sample_input "alpha") (sample_plan_of "alpha")) as (final & Hrun & Hf).
  - apply sample_ledger_ok.
  - apply sample_observation_ok.
  - vm_compute. reflexivity.
  - intros row d Hrow Hd. cbn [ri_managed sample_input] in Hrow.
    apply elem_of_cons in Hrow as [->|Hrow]; [|apply list_elem_of_singleton in Hrow as ->]; vm_compute in Hd.
    + injection Hd as <-. reflexivity.
    + discriminate Hd.
  - exists final. split; [exact Hrun|]. apply Hf. right.
    destruct (rp_items (pl_projection (sample_plan_of "alpha")) !! for_intent "r" "d3") as [d|] eqn:E;
      vm_compute in E; [|discriminate E].
    exists (for_intent "r" "d3"), d. injection E as <-. split; [vm_compute; reflexivity|split; reflexivity].
Defined.

Lemma planned_replace_refused_witness :
  exists m, Mutate m ∈ pl_changes (sample_plan_of "delta")
    /\ validate_mutation_states (pm_mutation m) (pm_expected m) (pm_planned m) = Err InvalidMutationStates.
Proof.
  set (m := {| pm_managed_identity := "m1"; pm_desired_effect := Some "d1"; pm_mutation := Replace;
    pm_expected := Present "alpha" "f1" "m1"; pm_planned := Present "delta" "f1+" "m1";
    pm_input := Some (materialization_input (sample_skill "delta" "delta" "f1+")) |}).
  assert (Mutate m ∈ pl_changes (sample_plan_of "delta")) as Hm by (vm_compute; left).
  assert (skill_plan_resource (sample_input "delta") = Ok (Projected (sample_plan_of "delta"))) as Hp
    by (vm_compute; reflexivity).
  exists m. split; [exact Hm|].
  exact (planned_replace_refused (sample_input "delta") (sample_plan_of "delta") m
           (sample_ledger_ok "delta") (sample_observation_ok "delta") Hp Hm).
Defined.

Lemma projection_complete_witness :
  is_Some (rp_items (pl_projection (sample_plan_of "alpha")) !! for_intent "r" "d3").
Proof.
  eapply (projection_complete (sample_input "alpha") (sample_plan_of "alpha")) with (d := "d3").
  - vm_compute. reflexivity.
  - left.
  - set_solver.
Defined.
