(* ===== verification/EffectReconcile.v ===== *)
(** * The reconciler ([crates/effect/src/reconcile.rs])

    One claimed Target is reconciled from a fresh snapshot: planned, then blocked, confirmed
    without mutation, or driven through the durable attempt journal.  The program runs over the
    ports of EffectPorts with any planner. *)

From S2P Require Import Prelude RustStr Order Json EffectStatus EffectOperation EffectPorts.
Local Open Scope ora_scope.

Inductive ReconcileError : Type :=
| Repository (e : PortError)
| Planner (e : PlannerError)
| ConsumerError (e : PortError)
| ResourceError (e : PortError)
| Status (e : StatusTransitionError)
| Operation (e : OperationTransitionError)
| ResourceMissing (r : EffectResourceId)
| ResourceStatusMissing (r : EffectResourceId)
| ResourceClaimUnavailable
| ClaimedResourceSetChanged
| CoordinationParticipantsMissing (r : EffectResourceId)
| ParticipantMissing (t : EffectTargetId)
| CoordinationContractConflict (t : EffectTargetId)
| MismatchedCoordinationReceipt (t : EffectTargetId)
| MismatchedOperationReceipt (o : EffectOperationId)
| OperationSequenceExhausted.

Inductive ReconcileOutcome : Type :=
| OutcomeCurrent (target : EffectTargetId) (generation : Generation)
| OutcomeBlocked (target : EffectTargetId) (generation : Generation) (conditions : list ConditionProposal)
| OutcomeMutated (target : EffectTargetId) (generation : Generation) (operations : N).

Record MutationPass : Type :=
  { ps_snapshot : ReconcileSnapshot; ps_target_projection : TargetProjection;
    ps_contributor_projections : gmap EffectTargetId TargetProjection;
    ps_resource_plans : gmap EffectResourceId ResourcePlan }.
Inductive SnapshotPlan : Type :=
| PlanReady (pass : MutationPass)
| PlanBlocked (snapshot : ReconcileSnapshot) (conditions : list ConditionProposal).

(** The [?] of a status transition: the new status, or the error. *)
Definition status_step {S} (t : transition S) : result ReconcileError S :=
  match t with (Ok _, s) => Ok s | (Err e, _) => Err (Status e) end.
(** ** Pure parts *)

Definition validate_coordination_receipt (receipt : CoordinationReceipt) (target : EffectTargetId)
    (requirement : CoordinationRequirement) (expected_state : CoordinationReceiptState) : result ReconcileError unit :=
  match requirement with
  | QuiesceBeforeMutation contract =>
      reject_if (negb (bool_decide (cr_target receipt = target)) || negb (bool_decide (cr_contract receipt = contract))
                 || negb (bool_decide (cr_state receipt = expected_state))) (MismatchedCoordinationReceipt target)
  | Uninterrupted => Err (MismatchedCoordinationReceipt target)
  end.

(** One participant of one resource, in [coordination_plan] *)
Definition merge_participant (participants : gmap EffectTargetId CoordinationRequirement)
    (p : EffectTargetId * CoordinationRequirement) :
    result ReconcileError (gmap EffectTargetId CoordinationRequirement) :=
  let '(target, requirement) := p in
  match participants !! target, requirement with
  | Some (QuiesceBeforeMutation existing), QuiesceBeforeMutation next =>
      if negb (bool_decide (existing = next)) then Err (CoordinationContractConflict target)
      else Ok (<[target := requirement]> participants)
  | Some (QuiesceBeforeMutation _), Uninterrupted => Ok participants
  | _, _ => Ok (<[target := requirement]> participants)
  end.
Definition merge_resource (snapshot : ReconcileSnapshot) (participants : gmap EffectTargetId CoordinationRequirement)
    (resource : EffectResourceId) : result ReconcileError (gmap EffectTargetId CoordinationRequirement) :=
  ps ← ok_or (sn_coordination_participants snapshot !! resource) (CoordinationParticipantsMissing resource);
  fold_result merge_participant participants (btree_entries str_le ps).
Definition coordination_plan (snapshot : ReconcileSnapshot) (resources : list EffectResourceId) :
    result ReconcileError CoordinationPlan :=
  participants ← fold_result (merge_resource snapshot) ∅ resources;
  map_err Operation (new_coordination_plan (list_to_set resources) participants).

Definition managed_of_item (generation : Generation) (resource : EffectResourceId) (m : ResolvedMaterialization) :
    ManagedItem :=
  {| mi_identity := rm_managed_identity m; mi_resource := resource; mi_desired_effect := rm_desired_effect m;
     mi_applied_revision := rm_revision m; mi_native_identity := rm_native_identity m;
     mi_fingerprint := rm_fingerprint m; mi_applied_generation := generation |}.
Definition projected_managed (plans : gmap EffectResourceId ResourcePlan) (generation : Generation) :
    list ManagedItem :=
  flat_map (fun p : EffectResourceId * ResourcePlan =>
              managed_of_item generation p.1 <$> btree_values str_le (rp_items (pl_projection p.2)))
    (btree_entries str_le plans).

(** The ledger rows of the snapshot, resource by resource. *)
Definition snapshot_rows (snapshot : ReconcileSnapshot) : list ManagedItem :=
  mjoin (btree_values str_le (sn_managed snapshot)).
(** The rows that no projection holds. *)
Definition dropped_rows (snapshot : ReconcileSnapshot) (managed : list ManagedItem) : list ManagedIdentity :=
  mi_identity <$> filter (fun row => mi_identity row ∉ mi_identity <$> managed) (snapshot_rows snapshot).

Definition is_mutation (c : PlannedResourceChange) : bool := match c with Mutate _ => true | _ => false end.
Definition plan_mutations (plan : ResourcePlan) : list PlannedResourceChange :=
  filter (fun c => is_mutation c = true) (pl_changes plan).
Definition all_mutations (plans : gmap EffectResourceId ResourcePlan) : list PlannedResourceChange :=
  flat_map plan_mutations (btree_values str_le plans).

(** [sort] and [dedup] of the removed rows. *)
Fixpoint dedup (l : list string) : list string :=
  match l with
  | x :: ((y :: _) as rest) => if bool_decide (x = y) then dedup rest else x :: dedup rest
  | _ => l
  end.
Definition sorted_dedup (l : list string) : list string := dedup (merge_sort str_le l).

Definition recovery_condition_of (owner : ConditionOwner) (operation : EffectOperationId) (generation : Generation) :
    ConditionProposal :=
  {| cn_owner := owner; cn_subject := SubjectOperation operation; cn_code := "recovery_required";
     cn_impact := Blocking; cn_retry := Manual; cn_generation := AtGeneration generation;
     cn_message := "An Effect operation requires explicit recovery."; cn_parameters := ∅ |}.
Definition recovery_condition (target : EffectTargetId) := recovery_condition_of (OwnerTarget target).
Definition resource_recovery_condition (resource : EffectResourceId) := recovery_condition_of (OwnerResource resource).

Section reconcile.
Context {W : Type} {ports : Ports W} {planner : EffectPlanner}.
Local Notation prog := (program W ReconcileError).

(** ** Planning *)

Definition planning_input (snapshot : ReconcileSnapshot) (target : EffectTarget) (revision : ConsumerRevision)
    (declaration : TargetDeclaration) : TargetPlanningInput :=
  {| ti_desired := sn_desired snapshot; ti_target := target; ti_consumer_revision := revision;
     ti_declaration := declaration; ti_resources := sn_resources snapshot; ti_revisions := sn_revisions snapshot |}.

(** What the loop over the contributors of one Resource accumulates. *)
Record Contributions : Type :=
  { co_conditions : list ConditionProposal; co_projections : gmap EffectTargetId TargetProjection;
    co_requirements : list ResourceRequirement }.

Definition own_condition (target : EffectTargetId) (c : ConditionProposal) : ConditionProposal :=
  {| cn_owner := OwnerTarget target; cn_subject := cn_subject c; cn_code := cn_code c; cn_impact := cn_impact c;
     cn_retry := cn_retry c; cn_generation := cn_generation c; cn_message := cn_message c;
     cn_parameters := cn_parameters c |}.

Definition contribute (snapshot : ReconcileSnapshot) (own : TargetProjection) (resource : EffectResourceId)
    (acc : Contributions) (related : RelatedTargetSnapshot) : result ReconcileError Contributions :=
  if negb (bool_decide (is_Some (td_bindings (rt_declaration related) !! resource))) then Ok acc
  else
    planned ← (if bool_decide (et_identity (rt_target related) = tp_target own) then Ok (Projected own)
               else map_err Planner (project_target (planning_input snapshot (rt_target related)
                                       (rt_consumer_revision related) (rt_declaration related))));
    match planned with
    | Blocked conditions =>
        Ok {| co_conditions := co_conditions acc
                ++ (own_condition (et_identity (sn_target snapshot)) <$> conditions);
              co_projections := co_projections acc; co_requirements := co_requirements acc |}
    | Projected projection =>
        Ok {| co_conditions := co_conditions acc;
              co_projections := <[tp_target projection := projection]> (co_projections acc);
              co_requirements := co_requirements acc ++
                match tp_resource_requirements projection !! resource with Some r => [r] | None => [] end |}
    end.

(** All contributors of every required Resource, and the requirements by Resource. *)
Definition contribute_resource (snapshot : ReconcileSnapshot) (own : TargetProjection)
    (acc : list ConditionProposal * gmap EffectTargetId TargetProjection
           * gmap EffectResourceId (list ResourceRequirement))
    (resource : EffectResourceId) :
    result ReconcileError (list ConditionProposal * gmap EffectTargetId TargetProjection
                           * gmap EffectResourceId (list ResourceRequirement)) :=
  let '(conditions, projections, by_resource) := acc in
  c ← fold_result (contribute snapshot own resource)
        {| co_conditions := conditions; co_projections := projections; co_requirements := [] |}
        (btree_values str_le (sn_related_targets snapshot));
  Ok (co_conditions c, co_projections c, <[resource := co_requirements c]> by_resource).

(** The statuses, the plans and the conditions of the planning loop. *)
Record PlanningState : Type :=
  { pt_statuses : gmap EffectResourceId ResourceStatus; pt_plans : gmap EffectResourceId ResourcePlan;
    pt_conditions : list ConditionProposal }.

Definition plan_one (snapshot : ReconcileSnapshot) (by_resource : gmap EffectResourceId (list ResourceRequirement))
    (acc : PlanningState) (resource_id : EffectResourceId) : prog PlanningState :=
  let generation := ds_generation (sn_desired snapshot) in
  resource <- lift (ok_or (sn_resources snapshot !! resource_id) (ResourceMissing resource_id)) ;;
  observation <- call ResourceError (CObserve resource) (observe resource) ;;
  status <- lift (ok_or (pt_statuses acc !! resource_id) (ResourceStatusMissing resource_id)) ;;
  status <- lift (if (rs_desired status <? generation)%N
                  then status_step (resource_request_generation status generation) else Ok status) ;;
  status <- lift (status_step (resource_record_observed status generation)) ;;
  planned <- lift (map_err Planner (plan_resource
    {| ri_resource := resource; ri_generation := generation;
       ri_requirements := default [] (by_resource !! resource_id);
       ri_desired_effects := ds_effects (sn_desired snapshot); ri_revisions := sn_revisions snapshot;
       ri_managed := default [] (sn_managed snapshot !! resource_id); ri_observed := observation |})) ;;
  let statuses := <[resource_id := status]> (pt_statuses acc) in
  match planned with
  | Projected plan =>
      pret {| pt_statuses := statuses; pt_plans := <[resource_id := plan]> (pt_plans acc);
              pt_conditions := pt_conditions acc |}
  | Blocked conditions =>
      pret {| pt_statuses := statuses; pt_plans := pt_plans acc; pt_conditions := pt_conditions acc ++ conditions |}
  end.

(** [plan_snapshot] *)
Definition plan_snapshot (snapshot : ReconcileSnapshot) : prog SnapshotPlan :=
  let generation := ds_generation (sn_desired snapshot) in
  let statuses := sn_resource_statuses snapshot in
  target_status <- lift (if (desired (progress (sn_target_status snapshot)) <? generation)%N
                         then status_step (request_generation (sn_target_status snapshot) generation)
                         else Ok (sn_target_status snapshot)) ;;
  projected <- lift (map_err Planner (project_target (planning_input snapshot (sn_target snapshot)
                                        (sn_consumer_revision snapshot) (sn_declaration snapshot)))) ;;
  match projected with
  | Blocked conditions => pret (PlanBlocked (with_statuses snapshot target_status statuses) conditions)
  | Projected own =>
      target_status <- lift (status_step (record_observed target_status generation)) ;;
      let resources := btree_keys str_le (tp_resource_requirements own) in
      ' (conditions, projections, by_resource) <-
        lift (fold_result (contribute_resource snapshot own) ([], {[tp_target own := own]}, ∅) resources) ;;
      planned <- pfold (plan_one snapshot by_resource)
        {| pt_statuses := statuses; pt_plans := ∅; pt_conditions := conditions |} resources ;;
      let snapshot := with_statuses snapshot target_status (pt_statuses planned) in
      match pt_conditions planned with
      | _ :: _ => pret (PlanBlocked snapshot (pt_conditions planned))
      | [] => pret (PlanReady {| ps_snapshot := snapshot; ps_target_projection := own;
                                 ps_contributor_projections := projections; ps_resource_plans := pt_plans planned |})
      end
  end.

(** ** Commits without mutation *)

Definition commit_blocked (snapshot : ReconcileSnapshot) (conditions : list ConditionProposal) (claim : ReconcileClaim) :
    prog ReconcileOutcome :=
  let target := et_identity (sn_target snapshot) in
  let generation := ds_generation (sn_desired snapshot) in
  _ <- call Repository (CBlockTarget target (sn_target_status snapshot) conditions)
         (block_target target claim (sn_target_status snapshot)
            (btree_values str_le (sn_resource_statuses snapshot)) conditions) ;;
  pret (OutcomeBlocked target generation conditions).

(** Every planned Resource and the Target reach [generation]. *)
Definition apply_status (generation : Generation) (statuses : gmap EffectResourceId ResourceStatus)
    (resource : EffectResourceId) : result ReconcileError (gmap EffectResourceId ResourceStatus) :=
  status ← ok_or (statuses !! resource) (ResourceStatusMissing resource);
  status ← status_step (resource_record_applied status generation);
  Ok (<[resource := status]> statuses).
Definition record_all_applied (pass : MutationPass) (generation : Generation) : result ReconcileError ReconcileSnapshot :=
  let snapshot := ps_snapshot pass in
  statuses ← fold_result (apply_status generation) (sn_resource_statuses snapshot)
               (btree_keys str_le (ps_resource_plans pass));
  target_status ← status_step (record_applied (sn_target_status snapshot) generation);
  Ok (with_statuses snapshot target_status statuses).

(** [verify_ready] and [record_ready] *)
Definition confirm_ready (pass : MutationPass) (snapshot : ReconcileSnapshot) :
    prog (ReadinessReceipt * TargetStatus) :=
  let projection := ps_target_projection pass in
  readiness <- call ConsumerError (CVerifyReady (sn_target snapshot) projection)
                 (verify_ready (sn_target snapshot) projection) ;;
  status <- lift (status_step (record_ready (sn_target_status snapshot) readiness
                    (cv_identity (sn_consumer_revision snapshot)) (tp_digest projection) Clear)) ;;
  pret (readiness, status).

Definition commit_current_without_mutation (pass : MutationPass) (claim : ReconcileClaim) : prog ReconcileOutcome :=
  let generation := tp_generation (ps_target_projection pass) in
  snapshot <- lift (record_all_applied pass generation) ;;
  ' (readiness, status) <- confirm_ready pass snapshot ;;
  let managed := projected_managed (ps_resource_plans pass) generation in
  let commit :=
    {| pc_target_projections := btree_values str_le (ps_contributor_projections pass);
       pc_resource_projections := pl_projection <$> btree_values str_le (ps_resource_plans pass);
       pc_target_status := status;
       pc_resource_statuses := btree_values str_le (sn_resource_statuses snapshot);
       pc_managed := managed; pc_removed_managed := dropped_rows snapshot managed; pc_conditions := [];
       pc_readiness := Some readiness |} in
  _ <- call Repository (CCommitProjection commit) (commit_projection claim commit) ;;
  pret (OutcomeCurrent (et_identity (sn_target snapshot)) generation).

(** ** Mutations *)

(** The journal being prepared. *)
Record Journal : Type :=
  { jn_operations : list EffectOperation; jn_artifacts : list OperationArtifact;
    jn_removed : list ManagedIdentity; jn_sequence : N }.

Definition prepare_change (resource : EffectResource) (attempt_id : ReconcileAttemptId) (generation : Generation)
    (prepared_at : LocalTimestamp) (j : Journal) (change : PlannedResourceChange) : prog Journal :=
  match change with
  | Mutate mutation =>
      prepared <- call ResourceError (CPrepareOperation resource mutation)
        (prepare_operation resource attempt_id generation (jn_sequence j) mutation prepared_at) ;;
      if (jn_sequence j <? u32_max)%N
      then pret {| jn_operations := jn_operations j ++ [po_operation prepared];
                   jn_artifacts := jn_artifacts j ++ po_artifacts prepared; jn_removed := jn_removed j;
                   jn_sequence := jn_sequence j + 1 |}
      else perr OperationSequenceExhausted
  | ForgetMissing identity =>
      pret {| jn_operations := jn_operations j; jn_artifacts := jn_artifacts j;
              jn_removed := jn_removed j ++ [identity]; jn_sequence := jn_sequence j |}
  end.
Definition prepare_resource (pass : MutationPass) (attempt_id : ReconcileAttemptId) (prepared_at : LocalTimestamp)
    (j : Journal) (p : EffectResourceId * ResourcePlan) : prog Journal :=
  resource <- lift (ok_or (sn_resources (ps_snapshot pass) !! p.1) (ResourceMissing p.1)) ;;
  pfold (prepare_change resource attempt_id (tp_generation (ps_target_projection pass)) prepared_at) j
    (pl_changes p.2).

(** The mutated Resources. *)
Definition mutated_resources (pass : MutationPass) : list EffectResourceId :=
  (filter (fun p : EffectResourceId * ResourcePlan => existsb is_mutation (pl_changes p.2) = true)
     (btree_entries str_le (ps_resource_plans pass))).*1.

Definition attempt_intent (pass : MutationPass) (coordination : CoordinationPlan) (operations : list EffectOperation) :
    ReconcileAttemptIntent :=
  let projection := ps_target_projection pass in
  {| ai_target := et_identity (sn_target (ps_snapshot pass)); ai_generation := tp_generation projection;
     ai_consumer_revision := cv_identity (sn_consumer_revision (ps_snapshot pass));
     ai_target_projection := tp_digest projection;
     ai_resource_projections := list_to_set ((fun plan => rp_digest (pl_projection plan))
                                  <$> btree_values str_le (ps_resource_plans pass));
     ai_coordination := coordination; ai_operations := op_identity <$> operations |}.

(** Everything the phases after [prepare_attempt] thread. *)
Record AttemptState : Type :=
  { as_attempt : ReconcileAttempt; as_operations : list EffectOperation; as_receipts : list CoordinationReceipt;
    as_coordinated : gset EffectTargetId }.

Definition record_progress (claim : ReconcileClaim) (s : AttemptState) : prog unit :=
  call Repository (CRecordProgress (as_attempt s) (as_operations s) (as_receipts s))
    (record_attempt_progress claim (as_attempt s) (as_operations s) (as_receipts s)).

Definition move_attempt (s : AttemptState) (step : ReconcileAttempt -> result OperationTransitionError ReconcileAttempt) :
    result ReconcileError AttemptState :=
  a ← map_err Operation (step (as_attempt s));
  Ok {| as_attempt := a; as_operations := as_operations s; as_receipts := as_receipts s;
        as_coordinated := as_coordinated s |}.

(** A move of the attempt and the record of it. *)
Definition move_and_record (claim : ReconcileClaim) (s : AttemptState)
    (step : ReconcileAttempt -> result OperationTransitionError ReconcileAttempt) : prog AttemptState :=
  s <- lift (move_attempt s step) ;;
  _ <- record_progress claim s ;;
  pret s.

Definition coordinate_participant (snapshot : ReconcileSnapshot) (plan : CoordinationPlan) (claim : ReconcileClaim)
    (s : AttemptState) (p : EffectTargetId * CoordinationRequirement) : prog AttemptState :=
  match p.2 with
  | Uninterrupted => pret s
  | QuiesceBeforeMutation _ =>
      participant <- lift (ok_or (sn_participant_targets snapshot !! p.1) (ParticipantMissing p.1)) ;;
      receipt <- call ConsumerError (CCoordinate participant plan) (coordinate participant plan) ;;
      _ <- lift (validate_coordination_receipt receipt p.1 p.2 SafeToMutate) ;;
      let s := {| as_attempt := as_attempt s; as_operations := as_operations s;
                  as_receipts := as_receipts s ++ [receipt]; as_coordinated := {[p.1]} ∪ as_coordinated s |} in
      _ <- record_progress claim s ;;
      pret s
  end.

(** One round of the loop over the operations: apply, journal, verify. *)
Definition apply_operation (claim : ReconcileClaim) (s : AttemptState) (index : nat) : prog AttemptState :=
  match as_operations s !! index with
  | None => pret s
  | Some operation =>
      receipt <- call ResourceError (CApply operation) (apply operation) ;;
      _ <- lift (reject_if (negb (bool_decide (rec_subject receipt = op_identity operation)))
                   (MismatchedOperationReceipt (op_identity operation))) ;;
      applied_at <- ask now ;;
      operation <- lift (map_err Operation (op_mark_applied operation applied_at)) ;;
      let s := {| as_attempt := as_attempt s; as_operations := <[index := operation]> (as_operations s);
                  as_receipts := as_receipts s; as_coordinated := as_coordinated s |} in
      _ <- record_progress claim s ;;
      verification <- call ResourceError (CVerify operation) (verify operation) ;;
      _ <- lift (reject_if (negb (bool_decide (rec_subject verification = op_identity operation)))
                   (MismatchedOperationReceipt (op_identity operation))) ;;
      pret s
  end.

Definition reactivate_participant (snapshot : ReconcileSnapshot) (plan : CoordinationPlan) (s : AttemptState)
    (participant_id : EffectTargetId) : prog AttemptState :=
  participant <- lift (ok_or (sn_participant_targets snapshot !! participant_id) (ParticipantMissing participant_id)) ;;
  receipt <- call ConsumerError (CReactivate participant plan) (reactivate participant plan) ;;
  requirement <- lift (ok_or (cp_participants plan !! participant_id) (ParticipantMissing participant_id)) ;;
  _ <- lift (validate_coordination_receipt receipt participant_id requirement Reactivated) ;;
  pret {| as_attempt := as_attempt s; as_operations := as_operations s; as_receipts := as_receipts s ++ [receipt];
          as_coordinated := as_coordinated s |}.

Definition finalize_operation (acc : list EffectOperation) (operation : EffectOperation) : prog (list EffectOperation) :=
  finalized_at <- ask now ;;
  operation <- lift (map_err Operation (op_finalize operation finalized_at)) ;;
  pret (acc ++ [operation]).

Definition cleanup_artifact (artifact : OperationArtifact) : prog unit :=
  let artifact := with_artifact_state artifact PendingCleanup in
  receipt <- attempt (CCleanup artifact) (cleanup artifact) ;;
  match receipt with
  | Ok receipt => call Repository (CCompleteCleanup (ar_identity artifact))
                    (complete_artifact_cleanup (ar_identity artifact) receipt)
  | Err _ =>
      let artifact := with_artifact_state artifact CleanupFailed in
      call Repository (CMarkCleanupFailed artifact) (mark_artifact_cleanup_failed artifact)
  end.

(** *** The phases of [apply_mutations] *)

(** Operations, artifacts and the attempt journal, before any external effect. *)
Definition prepare_journal (pass : MutationPass) (claim : ReconcileClaim) :
    prog (CoordinationPlan * Journal * ReconcileAttempt) :=
  prepared_at <- ask now ;;
  coordination <- lift (coordination_plan (ps_snapshot pass) (mutated_resources pass)) ;;
  attempt_id <- ask random_identity ;;
  journal <- pfold (prepare_resource pass attempt_id prepared_at)
    {| jn_operations := []; jn_artifacts := []; jn_removed := []; jn_sequence := 0 |}
    (btree_entries str_le (ps_resource_plans pass)) ;;
  attempt <- lift (map_err Operation
    (attempt_prepare attempt_id (attempt_intent pass coordination (jn_operations journal)))) ;;
  _ <- call Repository (CPrepareAttempt attempt (jn_operations journal) (jn_artifacts journal))
    (prepare_attempt claim attempt (btree_values str_le (ps_contributor_projections pass))
       (pl_projection <$> btree_values str_le (ps_resource_plans pass)) (jn_operations journal)
       (jn_artifacts journal)) ;;
  pret (coordination, journal, attempt).

(** The safe-to-mutate barrier. *)
Definition coordinate_all (snapshot : ReconcileSnapshot) (plan : CoordinationPlan) (claim : ReconcileClaim)
    (s : AttemptState) : prog AttemptState :=
  s <- pfold (coordinate_participant snapshot plan claim) s (btree_entries str_le (cp_participants plan)) ;;
  move_and_record claim s mark_coordinated.

Definition apply_all (claim : ReconcileClaim) (s : AttemptState) : prog AttemptState :=
  s <- pfold (apply_operation claim) s (seq 0 (length (as_operations s))) ;;
  s <- move_and_record claim s attempt_mark_applied ;;
  move_and_record claim s mark_verified.

Definition reactivate_all (snapshot : ReconcileSnapshot) (plan : CoordinationPlan) (claim : ReconcileClaim)
    (s : AttemptState) : prog AttemptState :=
  s <- pfold (reactivate_participant snapshot plan) s (btree_elements str_le (as_coordinated s)) ;;
  move_and_record claim s mark_activated.

(** Readiness and the atomic finalization. *)
Definition finalize_all (pass : MutationPass) (claim : ReconcileClaim) (journal : Journal) (s : AttemptState) :
    prog unit :=
  let generation := tp_generation (ps_target_projection pass) in
  snapshot <- lift (record_all_applied pass generation) ;;
  ' (readiness, status) <- confirm_ready pass snapshot ;;
  let managed := projected_managed (ps_resource_plans pass) generation in
  let removed := sorted_dedup (jn_removed journal ++ dropped_rows snapshot managed) in
  operations <- pfold finalize_operation [] (as_operations s) ;;
  s <- lift (move_attempt s attempt_finalize) ;;
  let finalization :=
    {| af_attempt := as_attempt s; af_operations := operations; af_managed := managed; af_removed_managed := removed;
       af_target_statuses := [status];
       af_resource_statuses := btree_values str_le (sn_resource_statuses snapshot);
       af_readiness := Some readiness; af_coordination_receipts := as_receipts s; af_conditions := [] |} in
  call Repository (CFinalizeAttempt finalization) (finalize_attempt claim finalization).

Definition apply_mutations (pass : MutationPass) (claim : ReconcileClaim) : prog ReconcileOutcome :=
  ' (coordination, journal, attempt) <- prepare_journal pass claim ;;
  let s := {| as_attempt := attempt; as_operations := jn_operations journal; as_receipts := [];
              as_coordinated := ∅ |} in
  s <- coordinate_all (ps_snapshot pass) coordination claim s ;;
  s <- apply_all claim s ;;
  s <- reactivate_all (ps_snapshot pass) coordination claim s ;;
  _ <- finalize_all pass claim journal s ;;
  _ <- pfold (fun _ artifact => cleanup_artifact artifact) tt (jn_artifacts journal) ;;
  pret (OutcomeMutated (et_identity (sn_target (ps_snapshot pass))) (tp_generation (ps_target_projection pass))
          (jn_sequence journal)).

(** ** The whole pass *)

(** The Resources are claimed, and the snapshot is loaded again under the claims. *)
Definition claimed_snapshot (target_id : EffectTargetId) (claim : ReconcileClaim) (lease_until : LocalTimestamp) :
    prog ReconcileSnapshot :=
  now_ <- ask now ;;
  snapshot <- call Repository (CLoadSnapshot target_id) (load_reconcile_snapshot target_id claim) ;;
  let resource_ids := btree_keys str_le (td_bindings (sn_declaration snapshot)) in
  match resource_ids with
  | [] => pret snapshot
  | _ =>
      claims <- call Repository (CClaimResources (et_identity (sn_target snapshot)) resource_ids)
        (claim_resources (et_identity (sn_target snapshot)) claim resource_ids now_ lease_until) ;;
      claims <- lift (ok_or claims ResourceClaimUnavailable) ;;
      _ <- lift (reject_if (negb (length claims =? length resource_ids)%nat) ResourceClaimUnavailable) ;;
      snapshot <- call Repository (CLoadSnapshot target_id) (load_reconcile_snapshot target_id claim) ;;
      _ <- lift (reject_if (negb (bool_decide (btree_keys str_le (td_bindings (sn_declaration snapshot))
                                              = resource_ids))) ClaimedResourceSetChanged) ;;
      pret snapshot
  end.

Definition reconcile (target_id : EffectTargetId) (claim : ReconcileClaim) (resource_lease_until : LocalTimestamp) :
    prog ReconcileOutcome :=
  snapshot <- claimed_snapshot target_id claim resource_lease_until ;;
  plan <- plan_snapshot snapshot ;;
  match plan with
  | PlanBlocked snapshot conditions => commit_blocked snapshot conditions claim
  | PlanReady pass =>
      match all_mutations (ps_resource_plans pass) with
      | [] => commit_current_without_mutation pass claim
      | _ => apply_mutations pass claim
      end
  end.
End reconcile.

(** ** Recovery of a quarantined Target ([crates/effect/src/recovery.rs])

    Recovery closes journals by evidence only: an operation is finalized when its planned state is
    proven, closed without effect when its expected baseline is, and nothing is ever applied. *)
Inductive RecoveryError : Type :=
| RecoveryRepository (e : PortError)
| RecoveryResource (e : PortError)
| RecoveryStatus (e : StatusTransitionError)
| RecoveryOperation (e : OperationTransitionError)
| TargetMissing (t : EffectTargetId)
| NotRecoverable (r : EffectResourceId) (o : EffectOperationId).

Inductive RecoveryOutcome : Type :=
| Recovered (target : EffectTargetId) (finalized closed_without_effect : nat)
| AlreadyHealthy (target : EffectTargetId).

(** Attempts closed so far, their artifacts and the two counters. *)
Record Closing : Type :=
  { cl_attempts : list RecoveryAttemptClosure; cl_artifacts : list OperationArtifact; cl_finalized : nat;
    cl_without_effect : nat }.

Section recover.
Context {W : Type} {ports : Ports W}.
Local Notation prog := (program W RecoveryError).

(** [prove_closure] *)
Definition prove_closure (operation : EffectOperation) : prog RecoveryOperationClosure :=
  finalized_at <- ask now ;;
  verified <- attempt (CVerify operation) (verify operation) ;;
  if succeeded verified
  then operation <- lift (map_err RecoveryOperation (op_finalize_recovered operation finalized_at)) ;;
       pret (ClosureFinalized operation)
  else
    expected <- attempt (CVerifyExpected operation) (verify_expected operation) ;;
    if succeeded expected
    then operation <- lift (map_err RecoveryOperation (op_close_without_effect operation finalized_at)) ;;
         pret (ClosureWithoutEffect operation)
    else perr (NotRecoverable (oi_resource (op_intent operation)) (op_identity operation)).

Definition is_finalized_closure (c : RecoveryOperationClosure) : bool :=
  match c with ClosureFinalized _ => true | ClosureWithoutEffect _ => false end.

Definition close_operation (closures : list RecoveryOperationClosure) (operation : EffectOperation) :
    prog (list RecoveryOperationClosure) :=
  closure <- prove_closure operation ;;
  pret (closures ++ [closure]).

Definition close_attempt (acc : Closing) (journal : RecoveryAttemptJournal) : prog Closing :=
  closures <- pfold close_operation [] (ja_operations journal) ;;
  attempt <- lift (map_err RecoveryOperation (attempt_finalize_recovered (ja_attempt journal))) ;;
  pret {| cl_attempts := cl_attempts acc ++ [{| ac_attempt := attempt; ac_operations := closures |}];
          cl_artifacts := cl_artifacts acc ++ ja_artifacts journal;
          cl_finalized := cl_finalized acc + length (filter (fun c => is_finalized_closure c = true) closures);
          cl_without_effect := cl_without_effect acc
            + length (filter (fun c => is_finalized_closure c = false) closures) |}.

(** [cleanup_artifacts] *)
Definition recovery_cleanup (artifact : OperationArtifact) : prog unit :=
  receipt <- attempt (CCleanup artifact) (cleanup artifact) ;;
  match receipt with
  | Ok receipt => call RecoveryRepository (CCompleteCleanup (ar_identity artifact))
                    (complete_artifact_cleanup (ar_identity artifact) receipt)
  | Err _ => call RecoveryRepository (CMarkCleanupFailed artifact) (mark_artifact_cleanup_failed artifact)
  end.

(** [recover], from the loaded journal on. *)
Definition recover_loaded (target : EffectTargetId) (journal : TargetRecoveryJournal) : prog RecoveryOutcome :=
  if bool_decide (length (tj_attempts journal) = 0)
     && negb (is_target_recovery (phase (tj_target_status journal)))
  then pret (AlreadyHealthy target)
  else
    finalized_at <- ask now ;;
    closing <- pfold close_attempt
      {| cl_attempts := []; cl_artifacts := []; cl_finalized := 0; cl_without_effect := 0 |}
      (tj_attempts journal) ;;
    let finalization := {| tf_target := target; tf_attempts := cl_attempts closing; tf_finalized_at := finalized_at |} in
    _ <- call RecoveryRepository (CFinalizeRecovery finalization) (finalize_target_recovery finalization) ;;
    _ <- pfold (fun _ artifact => recovery_cleanup artifact) tt (cl_artifacts closing) ;;
    pret (if bool_decide (cl_finalized closing + cl_without_effect closing = 0)
          then AlreadyHealthy target
          else Recovered target (cl_finalized closing) (cl_without_effect closing)).

Definition recover (target : EffectTargetId) : prog RecoveryOutcome :=
  now_ <- ask now ;;
  _ <- call RecoveryRepository (CQuarantine now_) (quarantine_unfinished_operations now_) ;;
  journal <- call RecoveryRepository (CLoadRecovery target) (load_target_recovery target) ;;
  journal <- lift (ok_or journal (TargetMissing target)) ;;
  recover_loaded target journal.

(** The answer of the repository to the load of a recovery that starts in [w]: after the clock was
    read and the quarantine ran. *)
Definition loaded_journal (target : EffectTargetId) (w : W) : result PortError (option TargetRecoveryJournal) :=
  let '(now_, w1) := now w in
  let '(_, w2) := quarantine_unfinished_operations now_ w1 in
  (load_target_recovery target w2).1.
End recover.

(** ** Evidence *)

Definition closed_operation (c : RecoveryOperationClosure) : EffectOperation :=
  match c with ClosureFinalized o | ClosureWithoutEffect o => o end.

(** A closure rests on what the adapter proved of the journaled operation [o]. *)
Definition proven (o : EffectOperation) (c : RecoveryOperationClosure) (tr : Trace) : Prop :=
  op_identity (closed_operation c) = op_identity o /\ op_intent (closed_operation c) = op_intent o
  /\ (exists p a d, op_progress o = RecoveryRequired p a d)
  /\ match c with
     | ClosureFinalized o' =>
         (CVerify o, true) ∈ tr /\ exists p a f, op_progress o' = Finalized p a f
     | ClosureWithoutEffect o' =>
         (CVerify o, false) ∈ tr /\ (CVerifyExpected o, true) ∈ tr
         /\ exists p a f, op_progress o' = FinalizedWithoutEffect p a f
     end.

(** An attempt is closed with a proof for every operation it owns. *)
Definition attempt_proven (j : RecoveryAttemptJournal) (c : RecoveryAttemptClosure) (tr : Trace) : Prop :=
  at_phase (ja_attempt j) = AttemptRecoveryRequired
  /\ ac_attempt c = with_attempt_phase (ja_attempt j) AttemptFinalized
  /\ Forall2 (fun o c => proven o c tr) (ja_operations j) (ac_operations c).

(** An artifact of the loaded journal [j]. *)
Definition owned_artifact (j : TargetRecoveryJournal) (a : OperationArtifact) : Prop :=
  exists attempt, attempt ∈ tj_attempts j /\ a ∈ ja_artifacts attempt.

(** Nothing is applied; the attempts that close are those of the journal the repository answered
    with, each with every proof; and the artifacts of that journal are cleaned up afterwards. *)
Definition evidence_only (t : EffectTargetId) (journal : result PortError (option TargetRecoveryJournal)) (c : Call)
    (pre : Trace) : Prop :=
  match c with
  | CApply _ | CPrepareAttempt _ _ _ | CFinalizeAttempt _ | CCommitProjection _ => False
  | CFinalizeRecovery f =>
      exists j, journal = Ok (Some j) /\ tf_target f = t
        /\ Forall2 (fun j c => attempt_proven j c pre) (tj_attempts j) (tf_attempts f)
  | CCleanup a | CMarkCleanupFailed a =>
      (exists f, (CFinalizeRecovery f, true) ∈ pre) /\ exists j, journal = Ok (Some j) /\ owned_artifact j a
  | CCompleteCleanup id =>
      (exists f, (CFinalizeRecovery f, true) ∈ pre)
      /\ exists j a, journal = Ok (Some j) /\ owned_artifact j a /\ id = ar_identity a /\ (CCleanup a, true) ∈ pre
  | _ => True
  end.

Lemma proven_mono tr tr' o c : tr ⊆ tr' -> proven o c tr -> proven o c tr'.
Proof.
  intros Hs (? & ? & ? & Hc). split_and!; [done|done|done|].
  destruct c; [destruct Hc as [? ?]|destruct Hc as (? & ? & ?)]; split_and!; auto.
Qed.
Lemma attempt_proven_mono tr tr' j c : tr ⊆ tr' -> attempt_proven j c tr -> attempt_proven j c tr'.
Proof.
  intros Hs (? & ? & H). split_and!; [done|done|]. eapply Forall2_impl; [exact H|]. intros o x. by apply proven_mono.
Qed.

Section laws.
Context {W : Type} {ports : Ports W} (target : EffectTargetId) (loaded : TargetRecoveryJournal).
Local Notation recovery_calls := (calls (W:=W) (E:=RecoveryError) (evidence_only target (Ok (Some loaded)))).

Lemma prove_closure_calls o tr : recovery_calls tr (prove_closure o) (proven o).
Proof.
  unfold prove_closure. free_bind.
  eapply calls_bind with (P := fun r tr' => (CVerify o, succeeded r) ∈ tr').
  { call_step; [exact I|]. set_solver. }
  intros r tr1 _ Hr. destruct (succeeded r).
  - eapply calls_bind with (P := fun o' tr' => tr' = tr1 /\ proven o (ClosureFinalized o') tr1).
    { apply calls_lift. intros o' (p & Hp & ->)%map_err_Ok%fmap_Ok. split; [done|].
      destruct o as [? ? []]; simpl in Hp; try done. injection Hp as <-. split_and!; simpl; eauto 10. }
    intros o' tr2 _ [-> Hp]. by call_step.
  - eapply calls_bind with (P := fun r tr' => (CVerifyExpected o, succeeded r) ∈ tr').
    { call_step; [exact I|]. set_solver. }
    intros r' tr2 Hs Hr'. destruct (succeeded r'); [|by call_step].
    eapply calls_bind with (P := fun o' tr' => tr' = tr2 /\ proven o (ClosureWithoutEffect o') tr2).
    { apply calls_lift. intros o' (p & Hp & ->)%map_err_Ok%fmap_Ok. split; [done|].
      destruct o as [? ? []]; simpl in Hp; try done. injection Hp as <-. split_and!; simpl; eauto 10. }
    intros o' tr3 _ [-> Hp]. by call_step.
Qed.

(** The journals closed so far, and their artifacts. *)
Definition closing_of (js : list RecoveryAttemptJournal) (acc : Closing) (tr : Trace) : Prop :=
  Forall2 (fun j c => attempt_proven j c tr) js (cl_attempts acc) /\ cl_artifacts acc = mjoin (ja_artifacts <$> js).

Lemma close_attempt_calls acc j js tr : closing_of js acc tr ->
  recovery_calls tr (close_attempt acc j) (closing_of (js ++ [j])).
Proof.
  intros [Hjs Hart]. unfold close_attempt. eapply calls_bind.
  { apply (calls_fold _ _ (fun done cs tr' => Forall2 (fun o c => proven o c tr') done cs)); [|constructor].
    intros done o todo cs tr' _ Hs HI. unfold close_operation. eapply calls_bind; [apply prove_closure_calls|].
    intros c tr2 Hs2 Hc. call_step. apply Forall2_app; [|by constructor].
    eapply Forall2_impl; [exact HI|]. intros x y. by apply proven_mono. }
  intros cs tr1 Hs1 Hcs. eapply calls_bind with (P := fun a tr' => tr' = tr1
    /\ at_phase (ja_attempt j) = AttemptRecoveryRequired /\ a = with_attempt_phase (ja_attempt j) AttemptFinalized).
  { apply calls_lift. intros a Ha%map_err_Ok. unfold attempt_finalize_recovered, attempt_transition in Ha.
    destruct (negb _) eqn:E; [done|]. injection Ha as <-. apply negb_false_iff, bool_decide_eq_true in E. done. }
  intros a tr2 _ (-> & Hph & ->). call_step. split; simpl;
    [|by rewrite Hart, fmap_app, join_app; simpl; rewrite app_nil_r]. apply Forall2_app.
  - eapply Forall2_impl; [exact Hjs|]. intros x y. by apply attempt_proven_mono.
  - constructor; [|constructor]. split_and!; [done|done|exact Hcs].
Qed.

Lemma recovery_cleanup_calls a tr : owned_artifact loaded a -> (exists f, (CFinalizeRecovery f, true) ∈ tr) ->
  recovery_calls tr (recovery_cleanup a) (fun _ _ => True).
Proof.
  intros Ha [f Hf]. unfold recovery_cleanup.
  eapply calls_bind with (P := fun r tr' => (CCleanup a, succeeded r) ∈ tr').
  { call_step; [|by apply elem_of_snoc]. split; [by exists f|by exists loaded]. }
  intros r tr3 Hs3 Hr. case_match; (call_step; [|done]); (split; [exists f; set_solver|]).
  - exists loaded, a. by split_and!.
  - by exists loaded.
Qed.

Lemma recover_loaded_calls tr : recovery_calls tr (recover_loaded target loaded) (fun _ _ => True).
Proof.
  unfold recover_loaded. case_match; [by call_step|]. free_bind. eapply calls_bind.
  { apply (calls_fold _ _ closing_of); [|done]. intros done j todo acc ? _ _ HI. by apply close_attempt_calls. }
  intros closing tr1 _ [Hcl Hart]. eapply calls_bind with (P := fun _ tr' => exists f, (CFinalizeRecovery f, true) ∈ tr').
  { call_step; [by exists loaded|]. eexists. by apply elem_of_snoc. }
  intros [] tr2 _ [f Hf]. eapply calls_bind with (P := fun _ _ => True); [|intros; by call_step].
  apply (calls_fold _ _ (fun _ _ _ => True)); [|done]. intros done a todo ? ? Hl Hs _.
  apply recovery_cleanup_calls; [|exists f; by apply Hs].
  assert (a ∈ mjoin (ja_artifacts <$> tj_attempts loaded)) as (l & Ha & Hin)%list_elem_of_join
    by (rewrite <-Hart, Hl; set_solver).
  apply list_elem_of_fmap in Hin as (attempt & -> & Hin). by exists attempt.
Qed.
End laws.

(** A recovery keeps its discipline with the journal its world answers with. *)
Lemma recover_guarded {W} {ports : Ports W} t (w : W) :
  guarded (evidence_only t (loaded_journal t w)) (recover t (w, [])).2.2.
Proof.
  unfold recover, loaded_journal, call, pbind, ask, attempt, lift.
  destruct (now w) as [now_ w1]. destruct (quarantine_unfinished_operations now_ w1) as [q w2].
  simpl. destruct (load_target_recovery t w2) as [r w3] eqn:Hload. simpl.
  assert (guarded (evidence_only t r) [(CQuarantine now_, succeeded q)]) as H1
    by (apply (guarded_snoc _ []); [apply guarded_nil|exact I]).
  destruct q as [q|e]; simpl; [|exact H1].
  assert (guarded (evidence_only t r) [(CQuarantine now_, true); (CLoadRecovery t, succeeded r)]) as H2
    by (apply (guarded_snoc _ [_]); [done|exact I]).
  destruct r as [[j|]|e]; simpl; [|exact H2..].
  pose proof (recover_loaded_calls t j _ H2 w3) as (H & _). exact H.
Qed.
