(* ===== verification/EffectReconcileLaws.v ===== *)
(** * The write-ahead discipline of the reconciler

    Whatever the repository and the adapters answer, external state is touched only after the
    journal and the coordination barrier are durable, one verified operation at a time, and
    nothing is finalized without the evidence it claims. *)

From S2P Require Import Prelude RustStr Json Order EffectStatus EffectOperation EffectPorts.
From S2P Require Import EffectPorts EffectReconcile.
Local Open Scope ora_scope.

Lemma Forall2_with_elem {A B} (P : A -> B -> Prop) l k :
  Forall2 P l k -> Forall2 (fun x y => P x y /\ x ∈ l) l k.
Proof.
  intros H. apply Forall2_same_length_lookup_2; [by eapply Forall2_length|]. intros i x y Hx Hy.
  split; [by eapply Forall2_lookup_lr|by eapply list_elem_of_lookup_2].
Qed.

(** ** Evidence in a trace *)

Definition same_operation (o o' : EffectOperation) : Prop :=
  op_identity o' = op_identity o /\ op_intent o' = op_intent o.
Definition is_applied (o : EffectOperation) : Prop := exists p a, op_progress o = Applied p a.
Definition is_finalized (o : EffectOperation) : Prop := exists p a f, op_progress o = Finalized p a f.

(** The journal of the attempt and of its operations is durable. *)
Definition journaled (a : ReconcileAttempt) (ops : list EffectOperation) (tr : Trace) : Prop :=
  at_phase a = AttemptPrepared /\ ai_operations (at_intent a) = op_identity <$> ops
  /\ exists artifacts, (CPrepareAttempt a ops artifacts, true) ∈ tr.

(** Every participant that must quiesce was coordinated, with a matching receipt. *)
Definition quiesced (plan : CoordinationPlan) (receipts : list CoordinationReceipt) (tr : Trace) : Prop :=
  forall t c, cp_participants plan !! t = Some (QuiesceBeforeMutation c) ->
    (exists r, r ∈ receipts /\ cr_target r = t /\ cr_contract r = c /\ cr_state r = SafeToMutate)
    /\ exists participant, (CCoordinate participant plan, true) ∈ tr.
(** The barrier is durable: the attempt was recorded in phase [Coordinated] with the receipts. *)
Definition coordinated (a : ReconcileAttempt) (ops : list EffectOperation) (tr : Trace) : Prop :=
  exists receipts, (CRecordProgress (with_attempt_phase a Coordinated) ops receipts, true) ∈ tr
    /\ quiesced (ai_coordination (at_intent a)) receipts tr.

(** The repository durably recorded [o] as applied, among the operations of the attempt [a]. *)
Definition recorded_applied (a : ReconcileAttempt) (o : EffectOperation) (tr : Trace) : Prop :=
  is_applied o
  /\ exists ops receipts, (CRecordProgress (with_attempt_phase a Coordinated) ops receipts, true) ∈ tr /\ o ∈ ops.
(** The operation was applied, journaled as applied and verified. *)
Definition applied_verified (a : ReconcileAttempt) (o : EffectOperation) (tr : Trace) : Prop :=
  (CApply o, true) ∈ tr
  /\ exists o', same_operation o o' /\ recorded_applied a o' tr /\ (CVerify o', true) ∈ tr.

(** A journaled operation and what may be recorded of it: itself, or itself applied once the
    adapter applied it. *)
Definition progressed (tr : Trace) (o o' : EffectOperation) : Prop :=
  o' = o \/ same_operation o o' /\ is_applied o' /\ (CApply o, true) ∈ tr.

(** The Target's status was confirmed by a receipt of the consumer. *)
Definition confirmed (r : ReadinessReceipt) (s : TargetStatus) (tr : Trace) : Prop :=
  phase s = TargetCurrent /\ rr_target r = target s /\ ready (progress s) = rr_generation r
  /\ exists et projection, (CVerifyReady et projection, true) ∈ tr /\ rr_projection r = tp_digest projection.

(** What each call requires of the calls before it. *)
Definition write_ahead (c : Call) (pre : Trace) : Prop :=
  match c with
  | CApply o =>
      exists a ops k, journaled a ops pre /\ coordinated a ops pre /\ ops !! k = Some o
        /\ forall i o', (i < k)%nat -> ops !! i = Some o' -> applied_verified a o' pre
  | CRecordProgress a' ops' _ =>
      exists a ops p, journaled a ops pre /\ a' = with_attempt_phase a p /\ Forall2 (progressed pre) ops ops'
  | CVerify o' =>
      exists a ops o, journaled a ops pre /\ o ∈ ops /\ same_operation o o' /\ (CApply o, true) ∈ pre
        /\ recorded_applied a o' pre
  | CReactivate _ plan =>
      exists a ops, journaled a ops pre /\ plan = ai_coordination (at_intent a)
        /\ forall o, o ∈ ops -> applied_verified a o pre
  | CFinalizeAttempt f =>
      exists a ops, journaled a ops pre /\ coordinated a ops pre
        /\ af_attempt f = with_attempt_phase a AttemptFinalized
        /\ Forall2 (fun o o' => same_operation o o' /\ is_finalized o' /\ applied_verified a o pre) ops (af_operations f)
        /\ exists r s, af_readiness f = Some r /\ af_target_statuses f = [s] /\ confirmed r s pre
  | CCommitProjection c =>
      exists r, pc_readiness c = Some r /\ confirmed r (pc_target_status c) pre
  | _ => True
  end.

Section mono.
Context (tr tr' : Trace) (Hsub : tr ⊆ tr').

Lemma journaled_mono a ops : journaled a ops tr -> journaled a ops tr'.
Proof using Hsub. intros (? & ? & arts & ?). split_and!; [done|done|]. exists arts. by apply Hsub. Qed.
Lemma quiesced_mono plan receipts : quiesced plan receipts tr -> quiesced plan receipts tr'.
Proof using Hsub. intros H t c Hc. destruct (H t c Hc) as [? [p ?]]. split; [done|]. exists p. by apply Hsub. Qed.
Lemma coordinated_mono a ops : coordinated a ops tr -> coordinated a ops tr'.
Proof using Hsub.
  intros (receipts & ? & ?). exists receipts. split; [by apply Hsub|by apply quiesced_mono].
Qed.
Lemma recorded_applied_mono a o : recorded_applied a o tr -> recorded_applied a o tr'.
Proof using Hsub. intros (? & ops & receipts & ? & ?). split; [done|]. exists ops, receipts. split; [by apply Hsub|done]. Qed.
Lemma applied_verified_mono a o : applied_verified a o tr -> applied_verified a o tr'.
Proof using Hsub.
  intros (? & o' & ? & ? & ?). split; [by apply Hsub|]. exists o'.
  split_and!; [done|by apply recorded_applied_mono|by apply Hsub].
Qed.
Lemma progressed_mono ops ops' : Forall2 (progressed tr) ops ops' -> Forall2 (progressed tr') ops ops'.
Proof using Hsub.
  intros H. eapply Forall2_impl; [exact H|]. intros o o' [-> |(? & ? & ?)]; [by left|right].
  split_and!; [done|done|by apply Hsub].
Qed.
Lemma confirmed_mono r s : confirmed r s tr -> confirmed r s tr'.
Proof using Hsub.
  intros (? & ? & ? & et & projection & ? & ?). split_and!; [done|done|done|]. exists et, projection.
  split; [by apply Hsub|done].
Qed.
End mono.

Lemma progressed_refl tr ops : Forall2 (progressed tr) ops ops.
Proof. apply Forall_Forall2_diag, Forall_true. intros o. by left. Qed.

(** ** Planning only reads *)

(** Calls that change nothing outside the claims of this pass. *)
Definition reads (c : Call) : bool :=
  match c with CLoadSnapshot _ | CClaimResources _ _ | CObserve _ => true | _ => false end.

Section planning.
Context {W : Type} {ports : Ports W} {planner : EffectPlanner}.
Context (G : Call -> Trace -> Prop) (HG : forall c pre, reads c = true -> G c pre).

Local Ltac read_bind :=
  eapply calls_bind with (P := fun _ _ => True); [call_step; first [exact I | by apply HG]|intros ? ? ? _].

Lemma plan_one_calls snapshot by_resource acc r tr :
  calls G tr (plan_one snapshot by_resource acc r) (fun _ _ => True).
Proof using HG. unfold plan_one. repeat read_bind. case_match; by call_step. Qed.

(** A blocked plan has a reason. *)
Lemma plan_snapshot_calls snapshot tr : calls G tr (plan_snapshot snapshot) (fun _ _ => True).
Proof using HG.
  unfold plan_snapshot. do 2 read_bind.
  match goal with |- calls _ _ (match ?p with _ => _ end) _ => destruct p as [own|conditions] end; [|by call_step].
  read_bind. eapply calls_bind with (P := fun _ _ => True); [by call_step|].
  intros [[conditions projections] by_resource] ? ? _.
  eapply calls_bind; [apply (calls_fold _ _ (fun _ _ _ => True)); [|done]|].
  - intros. apply plan_one_calls.
  - intros planned ? ? _. destruct (pt_conditions planned); by call_step.
Qed.

Lemma claimed_snapshot_calls t claim until tr : calls G tr (claimed_snapshot t claim until) (fun _ _ => True).
Proof using HG.
  unfold claimed_snapshot. do 2 read_bind.
  destruct (btree_keys _ _); [by call_step|]. repeat read_bind. by call_step.
Qed.
End planning.

Lemma reads_write_ahead c pre : reads c = true -> write_ahead c pre.
Proof. by destruct c. Qed.

Section laws.
Context {W : Type} {ports : Ports W} {planner : EffectPlanner}.
Local Notation guarded_calls := (calls (W:=W) (E:=ReconcileError) write_ahead).

(** ** Preparation *)

(** The sequence counts the operations. *)
Definition counted (j : Journal) : Prop := jn_sequence j = N.of_nat (length (jn_operations j)).

Lemma prepare_resource_calls pass attempt_id at_ j p tr : counted j ->
  guarded_calls tr (prepare_resource pass attempt_id at_ j p) (fun j' _ => counted j').
Proof.
  intros Hj. unfold prepare_resource. free_bind.
  apply (calls_fold _ _ (fun _ j' _ => counted j')); [|done]. intros _ [m|i] _ s ? _ _ Hs; simpl.
  - free_bind. case_match; call_step. unfold counted in *. simpl. rewrite length_app, Hs. simpl. lia.
  - by call_step.
Qed.

Lemma prepare_journal_calls pass claim tr :
  guarded_calls tr (prepare_journal pass claim) (fun v tr' =>
    let '(coordination, journal, a) := v in
    journaled a (jn_operations journal) tr' /\ counted journal
    /\ at_intent a = attempt_intent pass coordination (jn_operations journal)).
Proof.
  unfold prepare_journal. free_bind. eapply calls_bind with (P := fun _ _ => True); [by call_step|].
  intros coordination ? _ _. free_bind.
  eapply calls_bind; [apply (calls_fold _ _ (fun _ j _ => counted j)); [|done]|].
  { intros. by apply prepare_resource_calls. }
  intros journal tr1 _ Hcount. eapply calls_bind.
  { apply (calls_lift _ _ _ (fun a _ => at_phase a = AttemptPrepared
      /\ at_intent a = attempt_intent pass coordination (jn_operations journal))).
    intros a Ha%map_err_Ok. unfold attempt_prepare in Ha. destruct (ai_operations _); [done|].
    by injection Ha as <-. }
  intros a tr2 _ [Hph Hint]. eapply calls_bind.
  { apply (calls_call _ _ _ _ _ (fun _ tr' => journaled a (jn_operations journal) tr')); [exact I|].
    intros []. split_and!; [done|by rewrite Hint|]. by eexists. }
  intros [] tr3 _ Hj. by call_step.
Qed.

(** ** Coordination *)

Lemma validate_coordination_receipt_Ok r t req st u : validate_coordination_receipt r t req st = Ok u ->
  exists c, req = QuiesceBeforeMutation c /\ cr_target r = t /\ cr_contract r = c /\ cr_state r = st.
Proof.
  unfold validate_coordination_receipt. destruct req as [|c]; [done|]. intros H%reject_if_Ok.
  apply orb_false_iff in H as [[H1 H2]%orb_false_iff H3].
  apply negb_false_iff, bool_decide_eq_true in H1, H2, H3. by exists c.
Qed.

(** What the loop over the participants has established of [done]. *)
Definition coordinating (a : ReconcileAttempt) (ops : list EffectOperation)
    (done : list (EffectTargetId * CoordinationRequirement)) (s : AttemptState) (tr : Trace) : Prop :=
  as_attempt s = a /\ as_operations s = ops
  /\ forall t c, (t, QuiesceBeforeMutation c) ∈ done ->
       (exists r, r ∈ as_receipts s /\ cr_target r = t /\ cr_contract r = c /\ cr_state r = SafeToMutate)
       /\ exists participant, (CCoordinate participant (ai_coordination (at_intent a)), true) ∈ tr.

Lemma coordinate_participant_calls snapshot claim a ops done s x tr :
  journaled a ops tr -> coordinating a ops done s tr ->
  guarded_calls tr (coordinate_participant snapshot (ai_coordination (at_intent a)) claim s x)
    (coordinating a ops (done ++ [x])).
Proof.
  intros Hj (Ha & Ho & Hq). destruct x as [t [|c]]; unfold coordinate_participant, record_progress; simpl.
  - call_step. split_and!; [done|done|]. intros t' c [H|H%list_elem_of_singleton]%elem_of_app; [by apply Hq|done].
  - free_bind.
    eapply calls_bind with (P := fun r tr' =>
      exists participant, (CCoordinate participant (ai_coordination (at_intent a)), true) ∈ tr').
    { call_step; [exact I|]. by eexists. }
    intros receipt tr1 Hs1 [participant Hp].
    eapply calls_bind with (P := fun _ _ => cr_target receipt = t /\ cr_contract receipt = c
      /\ cr_state receipt = SafeToMutate).
    { apply calls_lift. intros u Hu.
      by destruct (validate_coordination_receipt_Ok receipt t (QuiesceBeforeMutation c) SafeToMutate u Hu)
        as (c' & [= ->] & ?). }
    intros [] tr2 Hs2 Hr. eapply calls_bind with (P := fun _ _ => True).
    { call_step; [|done]. exists a, ops, (at_phase a). split_and!; [|by rewrite Ha; destruct a|].
      - eapply journaled_mono; [|exact Hj]. set_solver.
      - simpl. rewrite Ho. apply progressed_refl. }
    intros [] tr3 Hs3 _. call_step. split_and!; [done|done|]. simpl.
    intros t' c' [Hin|[= -> ->]%list_elem_of_singleton]%elem_of_app.
    + destruct (Hq t' c' Hin) as [(r & ? & ?) [q ?]]. split; [exists r; split; [apply elem_of_app; by left|done]|exists q; set_solver].
    + split; [exists receipt; split; [apply elem_of_app; right; by apply list_elem_of_singleton|done]|].
      exists participant. set_solver.
Qed.

Lemma move_attempt_Ok s step s' : move_attempt s step = Ok s' -> exists a, step (as_attempt s) = Ok a
  /\ s' = {| as_attempt := a; as_operations := as_operations s; as_receipts := as_receipts s;
             as_coordinated := as_coordinated s |}.
Proof. unfold move_attempt. intros (a & Ha%map_err_Ok & [= <-])%bind_Ok. by exists a. Qed.

Lemma attempt_transition_Ok a p q a' : attempt_transition a p q = Ok a' -> at_phase a = p /\ a' = with_attempt_phase a q.
Proof.
  unfold attempt_transition. destruct (negb _) eqn:E; [done|]. intros [= <-].
  by apply negb_false_iff, bool_decide_eq_true in E.
Qed.

Definition initial_state (a : ReconcileAttempt) (ops : list EffectOperation) : AttemptState :=
  {| as_attempt := a; as_operations := ops; as_receipts := []; as_coordinated := ∅ |}.

Lemma coordinate_all_calls snapshot claim a ops tr : journaled a ops tr ->
  guarded_calls tr (coordinate_all snapshot (ai_coordination (at_intent a)) claim (initial_state a ops))
    (fun s tr' => as_attempt s = with_attempt_phase a Coordinated /\ as_operations s = ops
                  /\ coordinated a ops tr').
Proof.
  intros Hj. unfold coordinate_all, move_and_record, record_progress. eapply calls_bind.
  { apply (calls_fold _ _ (coordinating a ops)); [|by split_and!; [..|intros ? ? ?%not_elem_of_nil]].
    intros. apply coordinate_participant_calls; [|done]. by eapply journaled_mono. }
  intros s1 tr1 Hs1 (Ha & Ho & Hq). eapply calls_bind with (P := fun s' tr' => tr' = tr1
    /\ as_attempt s' = with_attempt_phase a Coordinated /\ as_operations s' = ops /\ as_receipts s' = as_receipts s1).
  { apply calls_lift. intros s' (a' & H & ->)%move_attempt_Ok. apply attempt_transition_Ok in H as [_ ->].
    simpl. by rewrite Ha. }
  intros s2 tr2 _ (-> & Ha2 & Ho2 & Hr2). eapply calls_bind with (P := fun _ tr' => coordinated a ops tr').
  - call_step.
    { exists a, ops, Coordinated. split_and!; [by eapply journaled_mono|done|]. rewrite Ho2. apply progressed_refl. }
    exists (as_receipts s2). rewrite Ha2, Ho2. split; [done|].
    intros t c Hc. rewrite Hr2. destruct (Hq t c) as [? [p ?]]; [by apply elem_of_btree_entries|].
    split; [done|]. exists p. set_solver.
  - intros [] tr3 _ Hc. by call_step.
Qed.

(** ** Application *)

(** The first [k] operations are applied and verified, the others as journaled. *)
Definition applying (a : ReconcileAttempt) (ops : list EffectOperation) (k : nat) (s : AttemptState) (tr : Trace) :
    Prop :=
  as_attempt s = with_attempt_phase a Coordinated /\ length (as_operations s) = length ops
  /\ (forall i o, (i < k)%nat -> ops !! i = Some o -> applied_verified a o tr
        /\ exists o', as_operations s !! i = Some o' /\ same_operation o o' /\ is_applied o')
  /\ (forall i, (k <= i)%nat -> as_operations s !! i = ops !! i).

Lemma op_mark_applied_Ok o t o' : op_mark_applied o t = Ok o' -> same_operation o o' /\ is_applied o'.
Proof.
  unfold op_mark_applied. intros (p & H & ->)%fmap_Ok. unfold same_operation, is_applied. simpl. split; [done|].
  destruct (op_progress o); simpl in H; try done. injection H as <-. eauto.
Qed.

Lemma applying_progressed a ops k s tr : applying a ops k s tr -> Forall2 (progressed tr) ops (as_operations s).
Proof.
  intros (_ & Hlen & Hdone & Htodo). apply Forall2_same_length_lookup_2; [done|]. intros i o o' Ho Ho'.
  destruct (decide (i < k)%nat) as [Hi|Hi].
  - destruct (Hdone i o Hi Ho) as [[Happ _] (x & Hx & ? & ?)]. simplify_eq. right. by split_and!.
  - left. rewrite Htodo in Ho' by lia. congruence.
Qed.

Lemma apply_operation_calls claim a ops k s tr :
  journaled a ops tr -> coordinated a ops tr -> (k < length ops)%nat -> applying a ops k s tr ->
  guarded_calls tr (apply_operation claim s k) (applying a ops (S k)).
Proof.
  intros Hj Hc Hk HI. pose proof (applying_progressed _ _ _ _ _ HI) as Hprog.
  destruct HI as (Ha & Hlen & Hdone & Htodo). unfold apply_operation, record_progress.
  rewrite Htodo by done. destruct (ops !! k) as [o|] eqn:Ho; [|apply lookup_ge_None in Ho; lia].
  eapply calls_bind with (P := fun _ tr' => (CApply o, true) ∈ tr').
  { call_step; [|done]. exists a, ops, k. split_and!; [done|done|done|]. intros i o' Hi Ho'. by eapply Hdone. }
  intros receipt tr1 Hs1 Happ. free_bind. free_bind.
  eapply calls_bind with (P := fun o' _ => same_operation o o' /\ is_applied o').
  { apply calls_lift. intros o' Ho'%map_err_Ok. by eapply op_mark_applied_Ok. }
  intros o' tr2 Hs2 [Hsame Hap].
  assert (k < length (as_operations s))%nat as Hk' by (by rewrite Hlen).
  assert (tr ⊆ tr2) as Hsub2 by set_solver.
  eapply calls_bind with (P := fun _ tr' => recorded_applied a o' tr').
  { call_step.
    - exists a, ops, Coordinated. split_and!; [by eapply journaled_mono|done|]. simpl.
      rewrite <-(list_insert_id ops k o Ho). apply Forall2_insert; [by eapply progressed_mono|].
      right. split_and!; [done|done|]. set_solver.
    - split; [done|]. eexists _, _. simpl. rewrite Ha. split; [apply elem_of_snoc|].
      eapply list_elem_of_lookup_2. by apply list_lookup_insert_eq. }
  intros [] tr2' Hs2' Hrec.
  eapply calls_bind with (P := fun _ tr' => (CVerify o', true) ∈ tr').
  { call_step; [|done]. exists a, ops, o.
    split_and!; [eapply journaled_mono; [|done]; set_solver|by eapply list_elem_of_lookup_2|done|set_solver|done]. }
  intros verification tr3 Hs3 Hver. free_bind. call_step.
  split_and!; simpl; [done|by rewrite length_insert| |].
  - intros i x Hi Hx. destruct (decide (i = k)) as [->|Hne].
    + assert (x = o) as -> by congruence. split.
      * split; [set_solver|]. exists o'. split_and!; [done|eapply recorded_applied_mono; [|exact Hrec]; set_solver|set_solver].
      * exists o'. split; [|done]. by apply list_lookup_insert_eq.
    + destruct (Hdone i x) as [Hav (y & Hy & ?)]; [lia|done|]. split.
      * eapply applied_verified_mono; [|done]. set_solver.
      * exists y. by rewrite list_lookup_insert_ne.
  - intros i Hi. rewrite list_lookup_insert_ne by lia. apply Htodo. lia.
Qed.

(** All operations are applied and verified. *)
Definition all_applied (a : ReconcileAttempt) (ops : list EffectOperation) (s : AttemptState) (tr : Trace) : Prop :=
  (forall o, o ∈ ops -> applied_verified a o tr)
  /\ Forall2 (fun o o' => same_operation o o' /\ is_applied o') ops (as_operations s).

Lemma applying_all a ops s tr : applying a ops (length ops) s tr ->
  as_attempt s = with_attempt_phase a Coordinated /\ all_applied a ops s tr.
Proof.
  intros (Ha & Hlen & Hdone & _). split; [done|]. split.
  - intros o [i Hi]%list_elem_of_lookup_1. eapply Hdone; [by eapply lookup_lt_Some|done].
  - apply Forall2_same_length_lookup_2; [done|]. intros i o o' Hi Hi'.
    destruct (Hdone i o) as [_ (x & Hx & ?)]; [by eapply lookup_lt_Some|done|]. by simplify_eq.
Qed.

Lemma all_applied_mono a ops s s' tr tr' : tr ⊆ tr' -> as_operations s' = as_operations s ->
  all_applied a ops s tr -> all_applied a ops s' tr'.
Proof.
  intros Hsub Hs [H1 H2]. split; [|by rewrite Hs]. intros o Ho. eapply applied_verified_mono; [done|by apply H1].
Qed.

Lemma all_applied_progressed a ops s tr : all_applied a ops s tr -> Forall2 (progressed tr) ops (as_operations s).
Proof.
  intros [H1 H2]. eapply Forall2_impl; [exact (Forall2_with_elem _ _ _ H2)|]. simpl.
  intros o o' [[? ?] Hin]. right. split_and!; [done|done|]. apply (H1 o Hin).
Qed.

(** A recorded move of the attempt, which keeps everything else. *)
Lemma moved_calls claim (step : ReconcileAttempt -> result OperationTransitionError ReconcileAttempt) a ops p0 p q s tr :
  journaled a ops tr -> all_applied a ops s tr -> as_attempt s = with_attempt_phase a p0 ->
  (forall x y, step x = Ok y -> at_phase x = p /\ y = with_attempt_phase x q) ->
  guarded_calls tr (move_and_record claim s step)
    (fun s' tr' => tr ⊆ tr' /\ as_attempt s' = with_attempt_phase a q
       /\ as_operations s' = as_operations s /\ as_coordinated s' = as_coordinated s).
Proof.
  intros Hj Hall Ha Hstep. unfold move_and_record, record_progress. eapply calls_bind with (P := fun s' tr' => tr' = tr
    /\ as_attempt s' = with_attempt_phase a q /\ as_operations s' = as_operations s
    /\ as_coordinated s' = as_coordinated s).
  { apply calls_lift. intros s' (a' & H & ->)%move_attempt_Ok. apply Hstep in H as [_ ->]. by rewrite Ha. }
  intros s' tr1 _ (-> & H1 & H2 & H3). eapply calls_bind with (P := fun _ tr' => tr ⊆ tr').
  { call_step; [|done]. exists a, ops, q. split_and!; [done|done|]. rewrite H2. by eapply all_applied_progressed. }
  intros [] tr2 _ Hs. call_step. by split_and!.
Qed.

Lemma apply_all_calls claim a ops s tr :
  journaled a ops tr -> coordinated a ops tr ->
  as_attempt s = with_attempt_phase a Coordinated -> as_operations s = ops ->
  guarded_calls tr (apply_all claim s)
    (fun s' tr' => as_attempt s' = with_attempt_phase a Verified /\ all_applied a ops s' tr').
Proof.
  intros Hj Hc Ha Ho. unfold apply_all. eapply calls_bind.
  { apply (calls_fold _ _ (fun done s' tr' => applying a ops (length done) s' tr')).
    - intros done k todo s' tr' Hl Hsub HI. rewrite length_app. simpl.
      assert (k = length done /\ (k < length ops)%nat) as [-> Hk].
      { rewrite Ho in Hl. assert (seq 0 (length ops) !! length done = Some k) as Hlk
          by (rewrite Hl; by apply list_lookup_middle).
        apply lookup_seq in Hlk as [-> ?]. split; lia. }
      rewrite Nat.add_1_r. apply apply_operation_calls; [|by eapply coordinated_mono|done|done].
      by eapply journaled_mono.
    - split_and!; [done|by rewrite Ho|simpl; lia|]. intros i _. by rewrite Ho. }
  intros s1 tr1 Hs1 H1. rewrite length_seq, Ho in H1. apply applying_all in H1 as [Ha1 Hall1].
  eapply calls_bind; [apply (moved_calls _ _ a ops Coordinated Coordinated AttemptApplied);
    [by eapply journaled_mono|done|done|intros ? ?; apply attempt_transition_Ok]|].
  intros s2 tr2 _ (Hs2 & Ha2 & Ho2 & _). assert (all_applied a ops s2 tr2) as Hall2 by (by eapply all_applied_mono).
  eapply calls_mono; [apply (moved_calls _ _ a ops AttemptApplied AttemptApplied Verified);
    [eapply journaled_mono; [|done]; by etransitivity|done|done|intros ? ?; apply attempt_transition_Ok]|].
  intros s3 tr3 _ (Hs3 & Ha3 & Ho3 & _). simpl. split; [done|]. by eapply all_applied_mono.
Qed.

(** ** Reactivation and finalization *)

Lemma reactivate_all_calls snapshot claim a ops s tr :
  journaled a ops tr -> as_attempt s = with_attempt_phase a Verified -> all_applied a ops s tr ->
  guarded_calls tr (reactivate_all snapshot (ai_coordination (at_intent a)) claim s)
    (fun s' tr' => as_attempt s' = with_attempt_phase a Activated /\ all_applied a ops s' tr').
Proof.
  intros Hj Ha Hall. unfold reactivate_all. eapply calls_bind.
  { apply (calls_fold _ _ (fun _ s' tr' => as_attempt s' = as_attempt s /\ all_applied a ops s' tr')); [|done].
    intros done t todo s' tr' _ Hsub [Ha' Hall']. unfold reactivate_participant. free_bind.
    eapply calls_bind with (P := fun _ _ => True).
    { call_step; [|done]. exists a, ops. split_and!; [by eapply journaled_mono; [|done]; set_solver|done|].
      intros o Ho. eapply applied_verified_mono; [|by apply Hall']. set_solver. }
    intros receipt tr1 Hs1 _. repeat free_bind. call_step. split; [done|].
    eapply all_applied_mono; [|done|exact Hall']. set_solver. }
  intros s1 tr1 Hs1 [Ha1 Hall1].
  eapply calls_mono; [apply (moved_calls _ _ a ops Verified Verified Activated);
    [by eapply journaled_mono|done|congruence|intros ? ?; apply attempt_transition_Ok]|].
  intros s2 tr2 _ (Hs2 & Ha2 & Ho2 & _). split; [done|]. by eapply all_applied_mono.
Qed.

Lemma record_ready_confirms s r revision projection s' :
  status_step (record_ready s r revision projection Clear) = Ok s' ->
  phase s' = TargetCurrent /\ rr_target r = target s' /\ ready (progress s') = rr_generation r
  /\ rr_projection r = projection.
Proof.
  unfold status_step, record_ready, advance_version, with_phase. destruct (_ || _) eqn:E; [done|].
  repeat (apply orb_false_iff in E as [E ?]). apply negb_false_iff, bool_decide_eq_true in E.
  repeat match goal with H : negb _ = false |- _ => apply negb_false_iff, bool_decide_eq_true in H end.
  simpl. destruct (version_next _); [|done]. intros [= <-]. done.
Qed.

Lemma confirm_ready_calls pass snapshot tr :
  guarded_calls tr (confirm_ready pass snapshot) (fun v tr' => confirmed v.1 v.2 tr').
Proof.
  unfold confirm_ready.
  eapply calls_bind with (P := fun _ tr' => (CVerifyReady (sn_target snapshot) (ps_target_projection pass), true) ∈ tr');
    [by call_step|].
  intros r tr1 _ Hr. eapply calls_bind with (P := fun s tr' => tr' = tr1 /\ phase s = TargetCurrent
    /\ rr_target r = target s /\ ready (progress s) = rr_generation r
    /\ rr_projection r = tp_digest (ps_target_projection pass)).
  { apply calls_lift. intros s Hs. by apply record_ready_confirms in Hs as (? & ? & ? & ?). }
  intros s tr2 _ (-> & ? & ? & ? & ?). call_step. split_and!; [done..|]. by eexists _, _.
Qed.

Lemma finalize_operations_calls ops l tr :
  Forall2 (fun o o' => same_operation o o' /\ is_applied o') ops l ->
  guarded_calls tr (pfold finalize_operation [] l)
    (fun l' _ => Forall2 (fun o o' => same_operation o o' /\ is_finalized o') ops l').
Proof.
  intros Hops. eapply calls_mono.
  { apply (calls_fold _ _ (fun done l' _ =>
      Forall2 (fun o o' => same_operation o o' /\ is_finalized o') (take (length done) ops) l')); [|constructor].
    intros done o todo l' tr' Hl _ HI. unfold finalize_operation. free_bind.
    eapply calls_bind with (P := fun o' _ => same_operation o o' /\ is_finalized o').
    { apply calls_lift. intros o' Ho'%map_err_Ok. unfold op_finalize in Ho'.
      apply fmap_Ok in Ho' as (p & Hp & ->). split; [done|]. unfold is_finalized. simpl.
      destruct (op_progress o); simpl in Hp; try done. injection Hp as <-. eauto. }
    intros o' tr2 _ [[H1 H2] Hf]. call_step. rewrite length_app. simpl.
    rewrite Hl in Hops. apply Forall2_app_inv_r in Hops as (ops1 & ops2 & H3 & H4 & ->).
    apply Forall2_cons_inv_r in H4 as (x & ops3 & [[Hx1 Hx2] _] & _ & ->).
    pose proof (Forall2_length _ _ _ H3) as Hlen. rewrite <-Hlen in HI |- *.
    rewrite take_app_length in HI. rewrite take_app_add. simpl.
    apply Forall2_app; [done|]. constructor; [|constructor]. split; [|done]. split; congruence. }
  intros l' tr' _ H. simpl in H. by rewrite <-(Forall2_length _ _ _ Hops), firstn_all in H.
Qed.

Lemma finalize_all_calls pass claim journal a ops s tr :
  journaled a ops tr -> coordinated a ops tr -> as_attempt s = with_attempt_phase a Activated ->
  all_applied a ops s tr ->
  guarded_calls tr (finalize_all pass claim journal s)
    (fun _ tr' => exists f, (CFinalizeAttempt f, true) ∈ tr' /\ af_attempt f = with_attempt_phase a AttemptFinalized
                    /\ length (af_operations f) = length ops).
Proof.
  intros Hj Hc Ha [Hall Hops]. unfold finalize_all. free_bind.
  eapply calls_bind; [apply confirm_ready_calls|]. intros [r st] tr1 Hs1 Hconf.
  eapply calls_bind; [by apply finalize_operations_calls|]. intros l tr2 Hs2 Hl.
  eapply calls_bind with (P := fun s' tr' => tr' = tr2 /\ as_attempt s' = with_attempt_phase a AttemptFinalized).
  { apply calls_lift. intros s' (a' & Hm & ->)%move_attempt_Ok. apply attempt_transition_Ok in Hm as [_ ->].
    simpl. by rewrite Ha. }
  intros s' tr3 _ [-> Ha']. assert (tr ⊆ tr2) as Hsub by set_solver. call_step.
  - exists a, ops. split_and!; simpl; [by eapply journaled_mono|by eapply coordinated_mono|done| |].
    + eapply Forall2_impl; [exact (Forall2_with_elem _ _ _ Hl)|]. simpl.
      intros o o' ([? ?] & Hin). split_and!; [done|done|]. apply (applied_verified_mono tr); [done|by apply Hall].
    + exists r, st. split; [done|]. split; [done|]. exact (confirmed_mono tr1 tr2 Hs2 r st Hconf).
  - eexists. split; [apply elem_of_snoc|]. split; [done|]. exact (eq_sym (Forall2_length _ _ _ Hl)).
Qed.

Lemma cleanup_artifact_calls artifact tr : guarded_calls tr (cleanup_artifact artifact) (fun _ _ => True).
Proof.
  unfold cleanup_artifact. free_bind. case_match; by call_step.
Qed.

(** What an outcome stands for. *)
Definition outcome_evidence (o : ReconcileOutcome) (tr : Trace) : Prop :=
  match o with
  | OutcomeMutated t g n =>
      exists f, (CFinalizeAttempt f, true) ∈ tr /\ at_phase (af_attempt f) = AttemptFinalized
        /\ ai_target (at_intent (af_attempt f)) = t /\ ai_generation (at_intent (af_attempt f)) = g
        /\ N.of_nat (length (af_operations f)) = n
  | OutcomeCurrent t g =>
      exists c, (CCommitProjection c, true) ∈ tr /\ applied (progress (pc_target_status c)) = g
  | OutcomeBlocked t g cs => exists s, (CBlockTarget t s cs, true) ∈ tr
  end.

Lemma apply_mutations_calls pass claim tr :
  guarded_calls tr (apply_mutations pass claim) outcome_evidence.
Proof.
  unfold apply_mutations. eapply calls_bind; [apply prepare_journal_calls|].
  intros [[coordination journal] a] tr1 _ (Hj & Hcount & Hint).
  assert (coordination = ai_coordination (at_intent a)) as Hco by (by rewrite Hint). rewrite Hco.
  eapply calls_bind; [by apply (coordinate_all_calls _ _ a (jn_operations journal))|].
  intros s2 tr2 Hs2 (Ha2 & Ho2 & Hc). eapply calls_bind.
  { apply (apply_all_calls _ a (jn_operations journal)); [by eapply journaled_mono|done..]. }
  intros s3 tr3 Hs3 (Ha3 & Hall3). eapply calls_bind.
  { apply (reactivate_all_calls _ _ a (jn_operations journal)); [|done..].
    eapply journaled_mono; [|done]. by etransitivity. }
  intros s4 tr4 Hs4 (Ha4 & Hall4). eapply calls_bind.
  { apply (finalize_all_calls _ _ _ a (jn_operations journal)); [| |done..].
    - eapply journaled_mono; [|done]. etransitivity; [done|]. by etransitivity.
    - eapply coordinated_mono; [|done]. by etransitivity. }
  intros [] tr5 Hs5 (f & Hf & Hfa & Hfl).
  eapply calls_bind with (P := fun _ _ => True).
  { apply (calls_fold _ _ (fun _ _ _ => True)); [|done]. intros. apply cleanup_artifact_calls. }
  intros [] tr6 Hs6 _. call_step. exists f. rewrite Hfa, Hfl. simpl. rewrite Hint. simpl.
  split_and!; [by apply Hs6|done..].
Qed.

(** Applied watermarks after [record_all_applied] and [confirm_ready]. *)
Lemma record_ready_applied s r revision projection i s' :
  status_step (record_ready s r revision projection i) = Ok s' -> applied (progress s') = applied (progress s).
Proof.
  unfold status_step, record_ready, advance_version, with_phase. destruct (_ || _); [done|]. simpl.
  destruct (version_next _); [|done]. by intros [= <-].
Qed.
Lemma record_all_applied_Ok pass g snapshot : record_all_applied pass g = Ok snapshot ->
  applied (progress (sn_target_status snapshot)) = g /\ sn_target snapshot = sn_target (ps_snapshot pass).
Proof.
  unfold record_all_applied. intros (statuses & _ & (st & Hst & [= <-])%bind_Ok)%bind_Ok. simpl. split; [|done].
  unfold status_step, record_applied, advance_version, with_phase in Hst. destruct (_ || _); [done|].
  simpl in Hst. destruct (version_next _); [|done]. by injection Hst as <-.
Qed.

Lemma commit_current_calls pass claim tr :
  guarded_calls tr (commit_current_without_mutation pass claim) outcome_evidence.
Proof.
  unfold commit_current_without_mutation. eapply calls_bind with (P := fun snapshot _ =>
    applied (progress (sn_target_status snapshot)) = tp_generation (ps_target_projection pass)).
  { apply calls_lift. intros s Hs. by apply record_all_applied_Ok in Hs as [? _]. }
  intros snapshot tr1 _ Happ. eapply calls_bind with (P := fun v tr' => confirmed v.1 v.2 tr'
    /\ applied (progress v.2) = tp_generation (ps_target_projection pass)).
  { unfold confirm_ready.
    eapply calls_bind with (P := fun _ tr' => (CVerifyReady (sn_target snapshot) (ps_target_projection pass), true) ∈ tr');
      [by call_step|].
    intros r tr2 _ Hr. eapply calls_bind with (P := fun s tr' => tr' = tr2 /\ phase s = TargetCurrent
      /\ rr_target r = target s /\ ready (progress s) = rr_generation r
      /\ rr_projection r = tp_digest (ps_target_projection pass) /\ applied (progress s) = tp_generation (ps_target_projection pass)).
    { apply calls_lift. intros s Hs. pose proof (record_ready_applied _ _ _ _ _ _ Hs) as Ha.
      apply record_ready_confirms in Hs as (? & ? & ? & ?). split_and!; [done..|congruence]. }
    intros s tr3 _ (-> & ? & ? & ? & ? & ?). call_step. split; [|done]. split_and!; [done..|]. by eexists _, _. }
  intros [r st] tr2 _ [Hc Ha]. eapply calls_bind.
  { apply (calls_call _ _ _ _ _ (fun _ tr' => exists c, (CCommitProjection c, true) ∈ tr'
      /\ applied (progress (pc_target_status c)) = tp_generation (ps_target_projection pass))).
    - exists r. done.
    - intros []. eexists. split; [apply elem_of_snoc|done]. }
  intros [] tr3 _ Hev. by call_step.
Qed.

Lemma reconcile_calls t claim until tr : guarded_calls tr (reconcile t claim until) outcome_evidence.
Proof.
  unfold reconcile. eapply calls_bind; [apply claimed_snapshot_calls, reads_write_ahead|]. intros snapshot tr1 _ _.
  eapply calls_bind; [apply plan_snapshot_calls, reads_write_ahead|]. intros [pass|blocked conditions] tr2 _ _.
  - destruct (all_mutations _); [apply commit_current_calls|apply apply_mutations_calls].
  - unfold commit_blocked. eapply calls_bind.
    { apply (calls_call _ _ _ _ _ (fun _ tr' => exists s,
        (CBlockTarget (et_identity (sn_target blocked)) s conditions, true) ∈ tr')); [exact I|].
      intros []. by eexists. }
    intros [] tr3 _ Hev. by call_step.
Qed.
End laws.
