(* ===== verification/EffectLaws.v ===== *)
(** * The discipline of reconciliation and recovery, end to end

    The theorems speak of every world behind the ports: the answers of the repository, the
    adapters, the planner and the clock are arbitrary.  The second part shows that a plan that was applied
    leaves nothing to plan. *)

From S2P Require Import Prelude RustStr Order Json PortablePath EffectStatus EffectOperation.
From S2P Require Import EffectPorts SkillPlanner SkillPlannerLaws EffectReconcile.
From S2P Require Import EffectReconcileLaws EffectReconcile.
Local Open Scope ora_scope.

(** ** Programs and their results *)

Lemma pbind_result {W E A B} (m : program W E A) (k : A -> program W E B) s v :
  (pbind m k s).1 = Ok v -> exists u s', m s = (Ok u, s') /\ (k u s').1 = Ok v.
Proof. unfold pbind. destruct (m s) as [[u|e] s']; [|done]. eauto. Qed.

(** Calls that change external state or the durable ledger. *)
Definition mutating (c : Call) : bool :=
  match c with
  | CApply _ | CCoordinate _ _ | CReactivate _ _ | CPrepareAttempt _ _ _ | CFinalizeAttempt _ => true
  | _ => false
  end.
Definition mutated (o : ReconcileOutcome) : bool := match o with OutcomeMutated _ _ _ => true | _ => false end.

Section discipline.
Context {W : Type} {ports : Ports W} {planner : EffectPlanner}.

Lemma apply_mutations_mutated pass claim s o : (apply_mutations pass claim s).1 = Ok o -> mutated o = true.
Proof.
  unfold apply_mutations. intros ([[coordination journal] a] & s1 & _ & H)%pbind_result.
  repeat (apply pbind_result in H as (? & ? & _ & H)). simpl in H. by injection H as <-.
Qed.

Local Notation quiet := (fun (c : Call) (_ : Trace) => mutating c = false).

Lemma reconcile_quiet t claim until w r w' tr o :
  reconcile t claim until (w, []) = (r, (w', tr)) -> r = Ok o -> mutated o = false ->
  guarded quiet tr.
Proof.
  intros Hrun -> Ho. revert Hrun. unfold reconcile, pbind.
  destruct (claimed_snapshot t claim until (w, [])) as [[snapshot|e] [w1 tr1]] eqn:E1; [|done].
  assert (forall c pre, reads c = true -> quiet c pre) as HG by (by intros []).
  pose proof (claimed_snapshot_calls quiet HG t claim until [] (guarded_nil _) w) as (Hg1 & _ & _).
  rewrite E1 in Hg1. simpl in Hg1.
  destruct (plan_snapshot snapshot (w1, tr1)) as [[plan|e] [w2 tr2]] eqn:E2; [|done].
  pose proof (plan_snapshot_calls quiet HG snapshot tr1 Hg1 w1) as (Hg2 & _ & _). rewrite E2 in Hg2. simpl in Hg2.
  destruct plan as [pass|blocked conditions].
  - destruct (all_mutations _).
    + assert (calls quiet tr2 (commit_current_without_mutation pass claim) (fun _ _ => True)) as Hc.
      { unfold commit_current_without_mutation, confirm_ready. eapply calls_bind with (P := fun _ _ => True);
          [by call_step|intros snapshot' ? _ _]. eapply calls_bind with (P := fun _ _ => True).
        - eapply calls_bind with (P := fun _ _ => True); [by call_step|intros ? ? _ _].
          eapply calls_bind with (P := fun _ _ => True); [by call_step|intros ? ? _ _]. by call_step.
        - intros [? ?] ? _ _. eapply calls_bind with (P := fun _ _ => True); [by call_step|intros ? ? _ _].
          by call_step. }
      intros Hrun. specialize (Hc Hg2 w2) as (Hg3 & _ & _). by rewrite Hrun in Hg3.
    + intros Hrun. assert ((apply_mutations pass claim (w2, tr2)).1 = Ok o) as Ho' by (by rewrite Hrun).
      apply apply_mutations_mutated in Ho'. congruence.
  - assert (calls quiet tr2 (commit_blocked blocked conditions claim) (fun _ _ => True)) as Hc.
    { unfold commit_blocked. eapply calls_bind with (P := fun _ _ => True); [by call_step|intros ? ? _ _].
      by call_step. }
    intros Hrun. specialize (Hc Hg2 w2) as (Hg3 & _ & _). by rewrite Hrun in Hg3.
Qed.

(** C13: the write-ahead rule of a reconcile.  Whatever the repository, adapters and planner do and
    wherever the pass stops, every call of it keeps [write_ahead].  An operation is applied only
    after: its attempt and operation journals were durably prepared; every Target that must quiesce
    was coordinated with a matching receipt and this barrier was durably recorded; and all earlier
    operations of the attempt were applied, durably recorded as applied and verified.  An operation
    is recorded as applied only after the adapter applied it, and verified only after that record is
    durable.  Targets are reactivated, and the attempt is submitted as finalized, only with all its
    operations applied, recorded and verified, and the latter only with a readiness receipt of the
    consumer for this Target and projection. *)
Theorem apply_after_journal (t : EffectTargetId) (claim : ReconcileClaim) (until : LocalTimestamp) (w w' : W)
    (r : result ReconcileError ReconcileOutcome) (pre post : Trace) (c : Call) (b : bool)
    (Hrun : reconcile t claim until (w, []) = (r, (w', pre ++ (c, b) :: post))) :
  write_ahead c pre.
Proof.
  destruct (calls_start _ _ _ _ _ _ _ (reconcile_calls t claim until []) Hrun) as [Hg _].
  exact (Hg pre c b post eq_refl).
Qed.

(** Nothing is finalized without its evidence.  An atomic finalization is only submitted for a
    durably journaled and coordinated attempt, in phase [Finalized], with exactly the journaled
    operations, each applied, journaled and verified before, and with a readiness receipt the
    consumer returned for this very Target and projection, whose generation is the recorded ready
    watermark. *)
Theorem finalize_after_evidence (t : EffectTargetId) (claim : ReconcileClaim) (until : LocalTimestamp) (w w' : W)
    (r : result ReconcileError ReconcileOutcome) (pre post : Trace) (f : AttemptFinalization) (b : bool)
    (Hrun : reconcile t claim until (w, []) = (r, (w', pre ++ (CFinalizeAttempt f, b) :: post))) :
  exists a ops, journaled a ops pre /\ coordinated a ops pre
    /\ af_attempt f = with_attempt_phase a AttemptFinalized
    /\ Forall2 (fun o o' => same_operation o o' /\ is_finalized o' /\ applied_verified a o pre) ops (af_operations f)
    /\ exists receipt s, af_readiness f = Some receipt /\ af_target_statuses f = [s] /\ confirmed receipt s pre.
Proof.
  destruct (calls_start _ _ _ _ _ _ _ (reconcile_calls t claim until []) Hrun) as [Hg _].
  exact (Hg pre (CFinalizeAttempt f) b post eq_refl).
Qed.

(** An outcome tells the truth.  A reconcile that reports [Mutated] has durably finalized an
    attempt of that Target, generation and number of operations; one that reports [Current] has
    committed a projection with that applied generation; one that reports [Blocked] has recorded
    the conditions; and the last two have applied, coordinated and journaled nothing. *)
Theorem outcome_durable (t : EffectTargetId) (claim : ReconcileClaim) (until : LocalTimestamp) (w w' : W)
    (o : ReconcileOutcome) (tr : Trace)
    (Hrun : reconcile t claim until (w, []) = (Ok o, (w', tr))) :
  outcome_evidence o tr /\ (mutated o = false -> forall c b, (c, b) ∈ tr -> mutating c = false).
Proof.
  destruct (calls_start _ _ _ _ _ _ _ (reconcile_calls t claim until []) Hrun) as [_ Hq].
  split; [by apply Hq|]. intros Ho. apply (guarded_const (fun c => mutating c = false)).
  by eapply (reconcile_quiet t claim until w _ w' tr o).
Qed.

(** C14: recovery closes journals by proof only and never touches external state.  In any recovery,
    whatever the repository and the adapter answer: nothing is applied; the atomic closure is only
    submitted for the recovered Target and for exactly the attempts of the journal the repository
    answered with, when every operation of every one of them was proven, either in its planned
    state (and is then finalized) or, that failing, in its exact previous state (and is then closed
    without effect); and only artifacts of that journal are cleaned up, after the closure
    committed, and completed after the adapter removed them. *)
Theorem recovery_by_proof (t : EffectTargetId) (w w' : W) (r : result RecoveryError RecoveryOutcome)
    (pre post : Trace) (c : Call) (b : bool)
    (Hrun : recover t (w, []) = (r, (w', pre ++ (c, b) :: post))) :
  evidence_only t (loaded_journal t w) c pre.
Proof.
  pose proof (recover_guarded t w) as Hg. rewrite Hrun in Hg. exact (Hg pre c b post eq_refl).
Qed.
End discipline.

(** ** A sample world

    The Resource of the planner's sample, shared by one agent that must restart. *)

Definition sample_consumer : ConsumerIdentity := {| consumer_kind := "ora/agent-plugin"; stable_key := "agent" |}.
Definition sample_target : EffectTarget :=
  {| et_identity := "t"; et_scope := "w"; et_consumer := sample_consumer; et_consumer_revision := "c";
     et_lifecycle := Active |}.
Definition sample_consumer_revision : ConsumerRevision :=
  {| cv_identity := "c"; cv_consumer := sample_consumer; cv_declaration_digest := "d";
     cv_capabilities := {| effect_protocols := {["ora/skill" := 1%N]}; materialization_contracts := ∅;
                           coordination_contracts := ∅; readiness_contracts := ∅ |} |}.
Definition sample_declaration : TargetDeclaration :=
  {| td_target := "t"; td_consumer_revision := "c"; td_digest := "d";
     td_bindings := {["r" := {| tb_target := "t"; tb_resource := "r"; tb_materialization_contract := skill_directory_v1;
       tb_accepts := {| required_protocols := ∅; required_contracts := ∅ |};
       tb_coordination := QuiesceBeforeMutation agent_restart_v1 |}]} |}.
Definition sample_snapshot (input : ResourcePlanningInput) : ReconcileSnapshot :=
  {| sn_desired := {| ds_scope := "w"; ds_generation := 2%N; ds_effects := ri_desired_effects input |};
     sn_target := sample_target; sn_consumer_revision := sample_consumer_revision;
     sn_declaration := sample_declaration; sn_resources := {["r" := ri_resource input]};
     sn_revisions := ri_revisions input;
     sn_related_targets := {["t" := {| rt_target := sample_target; rt_consumer_revision := sample_consumer_revision;
                                       rt_declaration := sample_declaration |}]};
     sn_coordination_participants := {["r" := {["t" := QuiesceBeforeMutation agent_restart_v1]}]};
     sn_participant_targets := {["t" := sample_target]}; sn_target_status := pending_target "t" 2%N;
     sn_resource_statuses := {["r" := pending_resource "r" 2%N]}; sn_managed := {["r" := ri_managed input]} |}.

Definition sample_proof : AdapterReceipt := {| receipt_version := 1; receipt_payload := VNull |}.
Definition sample_coordination (s : CoordinationReceiptState) : CoordinationReceipt :=
  {| cr_target := "t"; cr_contract := agent_restart_v1; cr_state := s; cr_proof := sample_proof |}.
Definition sample_receipt_of (subject : string) : Receipt := {| rec_subject := subject; rec_proof := sample_proof |}.

(** One quarantined attempt: the first operation landed, the second did not. *)
Definition quarantined (id : string) : EffectOperation :=
  {| op_identity := id; op_intent := sample_intent; op_progress := RecoveryRequired 1 None 2 |}.
Definition sample_recovery : TargetRecoveryJournal :=
  {| tj_target := sample_target; tj_target_status := pending_target "t" 2%N;
     tj_attempts := [{| ja_attempt := {| at_identity := "a"; at_intent := sample_attempt_intent;
                                         at_phase := AttemptRecoveryRequired |};
                        ja_operations := [quarantined "landed"; quarantined "lost"]; ja_artifacts := [] |}] |}.

(** The world is a clock. *)
#[local] Instance sample_ports : Ports N :=
  let ok {A} (v : A) (w : N) : result PortError A * N := (Ok v, w) in
  {| now := fun w => (Z.of_N w, (w + 1)%N);
     random_identity := fun w => ("id-" +:+ of_N w, (w + 1)%N);
     load_reconcile_snapshot := fun _ _ => ok (sample_snapshot (sample_input "alpha"));
     claim_resources := fun _ _ rs _ _ => ok (Some ((fun r =>
       {| rcl_resource := r; rcl_target_claim := 1%N; rcl_resource_fence := 1%N; rcl_worker := "w";
          rcl_lease_until := 9%Z |}) <$> rs));
     prepare_attempt := fun _ _ _ _ _ _ => ok tt;
     record_attempt_progress := fun _ _ _ _ => ok tt;
     block_target := fun _ _ _ _ _ => ok tt;
     commit_projection := fun _ _ => ok tt;
     finalize_attempt := fun _ _ => ok tt;
     quarantine_unfinished_operations := fun _ => ok 0%N;
     load_target_recovery := fun _ => ok (Some sample_recovery);
     finalize_target_recovery := fun _ => ok tt;
     complete_artifact_cleanup := fun _ _ => ok tt;
     mark_artifact_cleanup_failed := fun _ => ok tt;
     coordinate := fun _ _ => ok (sample_coordination SafeToMutate);
     reactivate := fun _ _ => ok (sample_coordination Reactivated);
     verify_ready := fun t p => ok {| rr_target := et_identity t; rr_generation := tp_generation p;
       rr_consumer_revision := tp_consumer_revision p; rr_projection := tp_digest p; rr_proof := sample_proof |};
     prepare_operation := fun r a g n m at_ w =>
       match prepare ("op-" +:+ of_N n)
               {| oi_attempt := a; oi_resource := ef_identity r; oi_generation := g; oi_sequence := n;
                  oi_mutation := pm_mutation m; oi_expected := pm_expected m; oi_planned := pm_planned m;
                  oi_payload := sample_plan |} at_ with
       | Ok o => ok {| po_operation := o; po_artifacts := [] |} w
       | Err _ => (Err "invalid mutation states", w)
       end;
     observe := fun _ => ok (ri_observed (sample_input "alpha"));
     apply := fun o => ok (sample_receipt_of (op_identity o));
     verify := fun o w => if bool_decide (op_identity o = "lost") then (Err "not planned", w)
                          else ok (sample_receipt_of (op_identity o)) w;
     verify_expected := fun o => ok (sample_receipt_of (op_identity o));
     cleanup := fun a => ok (sample_receipt_of (ar_identity a)) |}.

Definition sample_claim : ReconcileClaim := {| rc_token := 1; rc_worker := "w"; rc_lease_until := 9%Z |}.
#[local] Existing Instances sample_sha sample_digests.
Definition sample_run := reconcile (planner := skill_planner) "t" sample_claim 9%Z (0%N, []).
Definition sample_trace : Trace := sample_run.2.2.

Example sample_outcome : sample_run.1 = Ok (OutcomeMutated "t" 2%N 3%N).
Proof. vm_compute. reflexivity. Qed.

Definition call_name (c : Call) : string :=
  match c with
  | CLoadSnapshot _ => "load" | CClaimResources _ _ => "claim" | CObserve _ => "observe"
  | CPrepareOperation _ _ => "prepare_operation" | CPrepareAttempt _ _ _ => "prepare_attempt"
  | CRecordProgress _ _ _ => "record" | CCoordinate _ _ => "coordinate" | CApply _ => "apply" | CVerify _ => "verify"
  | CReactivate _ _ => "reactivate" | CVerifyReady _ _ => "verify_ready" | CFinalizeAttempt _ => "finalize"
  | CQuarantine _ => "quarantine" | CLoadRecovery _ => "load_recovery" | CVerifyExpected _ => "verify_expected"
  | CFinalizeRecovery _ => "finalize_recovery" | _ => "other"
  end.
Example sample_protocol : call_name ∘ fst <$> sample_trace
  = ["load"; "claim"; "load"; "observe"; "prepare_operation"; "prepare_operation"; "prepare_operation";
     "prepare_attempt"; "coordinate"; "record"; "record"; "apply"; "record"; "verify"; "apply"; "record"; "verify";
     "apply"; "record"; "verify"; "record"; "record"; "reactivate"; "record"; "verify_ready"; "finalize"].
Proof. vm_compute. reflexivity. Qed.

Definition applied_at (n : nat) : EffectOperation :=
  match sample_trace !! n with Some (CApply o, _) => o | _ => sample_operation (Prepared 0) end.
Lemma first_not_applied a ops artifacts : (CPrepareAttempt a ops artifacts, true) ∈ take 14 sample_trace ->
  ops !! 0%nat = Some (applied_at 14) -> False.
Proof.
  intros Hin H. assert (head ops = Some (applied_at 14)) as H' by (by destruct ops). clear H. revert Hin H'.
  vm_compute. intros Hin. repeat (apply elem_of_cons in Hin as [Hin|Hin]; [try discriminate Hin; injection Hin as -> -> ->; discriminate|]).
  by apply elem_of_nil in Hin.
Qed.

Lemma apply_after_journal_witness :
  op_identity (applied_at 14) = "op-1"
  /\ exists a ops o, journaled a ops (take 14 sample_trace) /\ coordinated a ops (take 14 sample_trace)
       /\ ops !! 0%nat = Some o /\ applied_verified a o (take 14 sample_trace).
Proof.
  assert (reconcile (planner := skill_planner) "t" sample_claim 9%Z (0%N, [])
    = (sample_run.1, (sample_run.2.1, take 14 sample_trace ++ (CApply (applied_at 14), true) :: drop 15 sample_trace)))
    as Hrun by (vm_compute; reflexivity).
  split; [vm_compute; reflexivity|].
  assert (write_ahead (CApply (applied_at 14)) (take 14 sample_trace)) as (a & ops & k & Hj & Hc & Hk & Hall)
    by exact (apply_after_journal "t" sample_claim 9%Z 0%N _ _ _ _ _ _ Hrun).
  destruct k as [|k].
  - exfalso. destruct Hj as (_ & _ & artifacts & Hin). revert Hk. apply (first_not_applied a ops artifacts Hin).
  - destruct ops as [|o ops]; [done|]. exact (ex_intro _ a (ex_intro _ (o :: ops) (ex_intro _ o
      (conj Hj (conj Hc (conj eq_refl (Hall 0%nat o (Nat.lt_0_succ k) eq_refl))))))).
Defined.

Definition sample_finalization : AttemptFinalization :=
  match sample_trace !! 25%nat with
  | Some (CFinalizeAttempt f, _) => f
  | _ => {| af_attempt := {| at_identity := ""; at_intent := sample_attempt_intent; at_phase := AttemptPrepared |};
            af_operations := []; af_managed := []; af_removed_managed := []; af_target_statuses := [];
            af_resource_statuses := []; af_readiness := None; af_coordination_receipts := []; af_conditions := [] |}
  end.
Lemma finalize_after_evidence_witness :
  length (af_operations sample_finalization) = 3%nat
  /\ exists receipt s, af_readiness sample_finalization = Some receipt
       /\ af_target_statuses sample_finalization = [s] /\ confirmed receipt s (take 25 sample_trace).
Proof.
  assert (reconcile (planner := skill_planner) "t" sample_claim 9%Z (0%N, [])
    = (sample_run.1, (sample_run.2.1, take 25 sample_trace ++ (CFinalizeAttempt sample_finalization, true) :: [])))
    as Hrun by (vm_compute; reflexivity).
  split; [vm_compute; reflexivity|].
  destruct (finalize_after_evidence "t" sample_claim 9%Z 0%N _ _ _ _ _ _ Hrun) as (a & ops & _ & _ & _ & _ & H).
  exact H.
Defined.

Lemma outcome_durable_witness :
  exists f, (CFinalizeAttempt f, true) ∈ sample_trace /\ ai_target (at_intent (af_attempt f)) = "t".
Proof.
  assert (reconcile (planner := skill_planner) "t" sample_claim 9%Z (0%N, [])
    = (Ok (OutcomeMutated "t" 2%N 3%N), (sample_run.2.1, sample_trace))) as Hrun by (vm_compute; reflexivity).
  destruct (outcome_durable "t" sample_claim 9%Z 0%N _ _ _ Hrun) as [(f & Hf & _ & Ht & _) _].
  exact (ex_intro _ f (conj Hf Ht)).
Defined.

Definition sample_recovery_run := recover "t" (0%N, []).
Definition closed_recovery : TargetRecoveryFinalization :=
  match sample_recovery_run.2.2 !! 5%nat with
  | Some (CFinalizeRecovery f, _) => f
  | _ => {| tf_target := ""; tf_attempts := []; tf_finalized_at := 0%Z |}
  end.
Example sample_recovered : sample_recovery_run.1 = Ok (Recovered "t" 1 1).
Proof. vm_compute. reflexivity. Qed.
Lemma recovery_by_proof_witness :
  length (tf_attempts closed_recovery) = 1%nat
  /\ Forall2 (fun j c => attempt_proven j c (take 5 sample_recovery_run.2.2)) (tj_attempts sample_recovery)
       (tf_attempts closed_recovery).
Proof.
  assert (recover "t" (0%N, [])
    = (sample_recovery_run.1, (sample_recovery_run.2.1,
       take 5 sample_recovery_run.2.2 ++ (CFinalizeRecovery closed_recovery, true) :: [])))
    as Hrun by (vm_compute; reflexivity).
  split; [vm_compute; reflexivity|].
  destruct (recovery_by_proof "t" 0%N _ _ _ _ _ _ Hrun) as (j & Hj & _ & H).
  injection Hj as <-. exact H.
Defined.

(** ** Convergence of the Skill planner

    Once a plan has run and its projection is the ledger, planning the same requirements on the
    new observation projects the same items and plans nothing. *)
Section converge.
Context {sha : Sha256} {digests : PlannerDigests}.

(** The ledger a reconcile writes for one Resource. *)
Definition projected_rows (projection : ResourceProjection) : list ManagedItem :=
  managed_of_item (rp_generation projection) (rp_resource projection) <$> btree_values str_le (rp_items projection).

(** The same planning input, after the plan: its ledger and what is observed then. *)
Definition replan_input (input : ResourcePlanningInput) (plan : ResourcePlan) (o : ResourceObservation) :
    ResourcePlanningInput :=
  {| ri_resource := ri_resource input; ri_generation := ri_generation input; ri_requirements := ri_requirements input;
     ri_desired_effects := ri_desired_effects input; ri_revisions := ri_revisions input;
     ri_managed := projected_rows (pl_projection plan); ri_observed := o |}.

(** The identities the planner derives do not collide (they are SHA-256 digests, or the ledger's). *)
Definition identities_distinct (input : ResourcePlanningInput) : Prop :=
  forall r1 r2 d1 d2, r1 ∈ ri_requirements input -> r2 ∈ ri_requirements input ->
    d1 ∈ rq_desired_effects r1 -> d2 ∈ rq_desired_effects r2 ->
    identity_of input d1 = identity_of input d2 -> d1 = d2.

Lemma elem_of_projected_rows projection row : row ∈ projected_rows projection <-> exists m item,
  rp_items projection !! m = Some item
  /\ row = managed_of_item (rp_generation projection) (rp_resource projection) item.
Proof.
  unfold projected_rows. rewrite list_elem_of_fmap. setoid_rewrite elem_of_items. naive_solver.
Qed.

Lemma projected_rows_ok input plan : plan_facts input plan -> ledger_ok (projected_rows (pl_projection plan)).
Proof.
  intros Hf. unfold projected_rows, ledger_ok. rewrite <-!list_fmap_compose. unfold btree_values.
  rewrite <-!list_fmap_compose. split; apply NoDup_fmap_2_strong;
    try (rewrite btree_entries_perm; apply NoDup_map_to_list);
    intros [m1 d1] [m2 d2] H1%elem_of_btree_entries H2%elem_of_btree_entries Heq; simpl in Heq.
  - rewrite (pf_keyed _ _ Hf _ _ H1), (pf_keyed _ _ Hf _ _ H2) in Heq. congruence.
  - assert (m1 = m2) by (by eapply (pf_natives _ _ Hf)). congruence.
Qed.

(** A step of the resolution only reads the identity of its own effect. *)
Lemma resolve_step_ext input input' contract bd bd' acc d :
  ri_resource input' = ri_resource input -> ri_generation input' = ri_generation input ->
  ri_desired_effects input' = ri_desired_effects input -> ri_revisions input' = ri_revisions input ->
  managed_identity_of (ef_identity (ri_resource input)) bd' d = managed_identity_of (ef_identity (ri_resource input)) bd d ->
  resolve_step input' contract bd' acc d = resolve_step input contract bd acc d.
Proof. intros H1 H2 H3 H4 H5. unfold resolve_step. by rewrite H1, H2, H3, H4, H5. Qed.

Lemma resolve_fold_ext input input' contract bd bd' acc ds :
  ri_resource input' = ri_resource input -> ri_generation input' = ri_generation input ->
  ri_desired_effects input' = ri_desired_effects input -> ri_revisions input' = ri_revisions input ->
  (forall d, d ∈ ds -> managed_identity_of (ef_identity (ri_resource input)) bd' d
                       = managed_identity_of (ef_identity (ri_resource input)) bd d) ->
  fold_result (resolve_step input' contract bd') acc ds = fold_result (resolve_step input contract bd) acc ds.
Proof.
  intros H1 H2 H3 H4. revert acc. induction ds as [|d ds IH]; intros acc H5; [done|]. simpl.
  rewrite (resolve_step_ext input input' contract bd bd') by (try done; apply H5; set_solver).
  destruct (resolve_step _ _ _ _ _); [|done]. simpl. apply IH. intros; apply H5; set_solver.
Qed.

(** The new ledger gives every required effect the identity it had. *)
Lemma replan_identity input plan o d r :
  skill_plan_resource input = Ok (Projected plan) -> identities_distinct input ->
  r ∈ ri_requirements input -> d ∈ rq_desired_effects r ->
  identity_of (replan_input input plan o) d = identity_of input d.
Proof.
  intros Hp Hinj Hr Hd. pose proof (plan_resource_facts _ _ Hp) as Hf.
  apply plan_resource_inv in Hp as (ds & resolved & _ & _ & Hds & _ & Hok & Hb & _ & _ & Hitems & _).
  destruct (Hok Hb) as (H1 & _ & H3). rewrite <-Hitems in H1, H3.
  assert (forall m item, rp_items (pl_projection plan) !! m = Some item -> rm_desired_effect item = d ->
    m = identity_of input d) as Hkey.
  { intros m item Hm Heq. destruct (H1 _ _ Hm) as (d' & _ & -> & (? & ? & ? & Hres) & _).
    destruct Hres as (_ & _ & _ & _ & Hdes & _). congruence. }
  destruct (H3 d) as [item Hitem]; [apply elem_of_btree_elements, Hds; by exists r|].
  assert (rm_desired_effect item = d) as Hdes.
  { destruct (H1 _ _ Hitem) as (d' & Hd' & Heq & (? & ? & ? & Hres) & _). destruct Hres as (_ & _ & _ & _ & Hdes & _).
    apply elem_of_btree_elements, Hds in Hd' as (r' & Hr' & Hd'). rewrite Hdes. symmetry. by apply (Hinj r r'). }
  unfold identity_of at 1, managed_identity_of. simpl.
  assert (by_desired_of (projected_rows (pl_projection plan)) !! d
    = Some (managed_of_item (rp_generation (pl_projection plan)) (rp_resource (pl_projection plan)) item)) as ->.
  - unfold by_desired_of. rewrite lookup_collect_map.
    + rewrite list_elem_of_fmap. eexists. split; [|apply elem_of_projected_rows; by eexists _, _]. simpl. by rewrite Hdes.
    + intros v1 v2 (x & [= Hx ->] & Hx')%list_elem_of_fmap (y & [= Hy ->] & Hy')%list_elem_of_fmap.
      apply elem_of_projected_rows in Hx' as (m1 & i1 & Hi1 & ->), Hy' as (m2 & i2 & Hi2 & ->). simpl in *.
      assert (m1 = m2) as -> by (rewrite (Hkey m1 i1), (Hkey m2 i2); done). congruence.
  - simpl. apply (pf_keyed _ _ Hf _ _ Hitem).
Qed.

(** What the world holds after the plan ran. *)
Definition reached (input : ResourcePlanningInput) (plan : ResourcePlan) (o : ResourceObservation) : Prop :=
  observation_ok o /\ ro_resource o = ro_resource (ri_observed input)
  /\ run_changes (external (ri_observed input)) (pl_changes plan) = Some (external o).

Section after.
Context (input : ResourcePlanningInput) (plan : ResourcePlan) (o : ResourceObservation).
Context (Hf : plan_facts input plan) (Ho : observation_ok o)
  (Hres : ro_resource o = rp_resource (pl_projection plan)).
Context (Hfinal : forall n v, external o !! n = Some v <->
  (exists p, p ∈ pl_preserved plan /\ pi_native_identity p = n /\ external (ri_observed input) !! n = Some v)
  \/ (exists m d, rp_items (pl_projection plan) !! m = Some d /\ rm_native_identity d = n
        /\ v = (rm_fingerprint d, Claims m))).

Local Notation rows := (projected_rows (pl_projection plan)).

(** Every projected item is observed under its new row. *)
Lemma item_observed m d : rp_items (pl_projection plan) !! m = Some d ->
  exists i, (classify_observation rows o).2 !! m = Some i /\ ob_fingerprint i = rm_fingerprint d
    /\ ob_native_identity i = rm_native_identity d
    /\ owns rows o (managed_of_item (rp_generation (pl_projection plan)) (rp_resource (pl_projection plan)) d) i.
Proof using Hf Ho Hres Hfinal.
  intros Hd. pose proof (pf_keyed _ _ Hf _ _ Hd) as Hk.
  assert (external o !! rm_native_identity d = Some (rm_fingerprint d, Claims m)) as He
    by (apply Hfinal; right; by exists m, d).
  unfold external in He. rewrite lookup_fmap in He. destruct (ro_items o !! rm_native_identity d) as [i|] eqn:Hi; [|done].
  simpl in He. injection He as Hfp Hcl. pose proof (Ho _ _ Hi) as Hn. simpl in Hn.
  assert (owns rows o (managed_of_item (rp_generation (pl_projection plan)) (rp_resource (pl_projection plan)) d) i)
    as Hown.
  { split_and!; simpl; [apply elem_of_projected_rows; by exists m, d|by rewrite Hcl, Hk|by rewrite Hres|done|by rewrite Hn]. }
  exists i. split_and!; [|done|done|done].
  apply classify_matched; [by eapply projected_rows_ok|done|]. eexists. split; [exact Hown|]. by simpl.
Qed.

Lemma no_new_conflict : occupied_conditions (replan_input input plan o) (classify_observation rows o).1
  (rp_items (pl_projection plan)) = [].
Proof using Hf Ho Hres Hfinal.
  unfold occupied_conditions. rewrite filter_none; [done|]. intros d [m Hd]%elem_of_items Hin.
  apply elem_of_list_to_set, list_elem_of_fmap in Hin as (p & Heq & Hp).
  apply classify_preserved in Hp as (i & Hi & Hno & ->); [|by eapply projected_rows_ok|done]. simpl in Heq.
  destruct (item_observed m d Hd) as (i' & _ & _ & Hn & Hown).
  apply (Hno (managed_of_item (rp_generation (pl_projection plan)) (rp_resource (pl_projection plan)) d)).
  assert (i = i') as ->; [|exact Hown].
  destruct Hown as (_ & _ & _ & _ & Hi'). congruence.
Qed.

Lemma nothing_to_change : plan_changes (ri_generation input) rows (classify_observation rows o).2
  (pl_projection plan) (OwnerResource (ef_identity (ri_resource input))) = ([], []).
Proof using Hf Ho Hres Hfinal.
  assert (forall row, row ∈ rows -> row_drifted (classify_observation rows o).2 row = false
    /\ row_changes (classify_observation rows o).2 (rp_items (pl_projection plan)) row = []) as Hrow.
  { intros row (m & d & Hd & ->)%elem_of_projected_rows. pose proof (pf_keyed _ _ Hf _ _ Hd) as Hk.
    destruct (item_observed m d Hd) as (i & Hi & Hfp & Hn & _).
    unfold row_drifted, row_changes, managed_drifted. simpl. rewrite Hk, Hi, Hd. simpl.
    rewrite bool_decide_eq_true_2 by done. split; [done|].
    unfold up_to_date. simpl. by rewrite !bool_decide_eq_true_2. }
  rewrite plan_changes_eq. f_equal.
  - rewrite (filter_none _ (btree_values _ _)), fmap_nil, app_nil_r.
    + apply concat_none. intros row [_ Hin]%list_elem_of_filter. by apply Hrow.
    + intros d [m Hd]%elem_of_items Hin. apply Hin. apply list_elem_of_fmap.
      eexists. split; [|apply elem_of_projected_rows; by exists m, d]. done.
  - rewrite filter_none; [done|]. intros row Hin Hd. by rewrite (proj1 (Hrow row Hin)) in Hd.
Qed.
End after.

(** Replanning takes the same steps, and ends without a change. *)
Lemma replan_steps input plan o (rows := projected_rows (pl_projection plan)) :
  skill_plan_resource input = Ok (Projected plan) -> identities_distinct input ->
  ro_resource o = ro_resource (ri_observed input) ->
  occupied_conditions (replan_input input plan o) (classify_observation rows o).1 (rp_items (pl_projection plan)) = [] ->
  plan_changes (ri_generation input) rows (classify_observation rows o).2 (pl_projection plan)
    (OwnerResource (ef_identity (ri_resource input))) = ([], []) ->
  skill_plan_resource (replan_input input plan o) = Ok (Projected {| pl_projection := pl_projection plan;
    pl_preserved := (classify_observation rows o).1; pl_changes := [] |}).
Proof.
  intros Hp Hinj Hro Hocc Hch. pose proof (replan_identity input plan o) as Hid.
  specialize (fun d r => Hid d r Hp Hinj). unfold skill_plan_resource in Hp |- *.
  cbn [ri_resource ri_generation ri_requirements ri_managed ri_observed replan_input]. rewrite Hro. fold rows.
  destruct (negb (bool_decide (ro_resource _ = _))); [done|]. simpl in Hp |- *.
  destruct (classify_observation (ri_managed input) _) as [preserved observed].
  destruct (classify_observation rows o) as [preserved' observed']. simpl in Hocc, Hch.
  apply bind_Ok in Hp as ([[c ds] ms] & Hreq & Hp). rewrite Hreq. simpl in Hp |- *.
  destruct (1 <? size ms)%nat; [done|]. destruct (negb (bool_decide (default _ _ = _))); [done|].
  apply bind_Ok in Hp as (resolved & Hres & Hp).
  erewrite (resolve_fold_ext input (replan_input input plan o)); [rewrite Hres|done..|].
  - simpl in Hp |- *. destruct (blocked_by resolved); [|done]. simpl in Hp |- *.
    destruct (occupied_conditions input preserved (items resolved)); [|done].
    apply bind_Ok in Hp as (digest & Hdig & Hp).
    destruct (plan_changes _ (ri_managed input) _ _ _) as [changes drift].
    destruct drift; [|done]. injection Hp as <-. simpl in *. by rewrite Hocc, Hdig; simpl; rewrite Hch.
  - intros d Hd%elem_of_btree_elements. apply requirement_fold in Hreq as (_ & Hds & _).
    apply Hds in Hd as [Hd|(r & Hr & Hd)]; [by apply not_elem_of_empty in Hd|]. by apply (Hid d r).
Qed.

(** C11: planning converges.  Let the ledger and the observation name every item once, and let the
    identities of different required effects differ (the planner derives them by SHA-256).  When all
    changes of a projected plan, renames included, have run in order on the observed Resource and its
    projection has become the ledger, planning the same requirements against what is then observed
    projects the very same items and contributors and plans no change at all: a second reconcile
    mutates nothing. *)
Theorem plan_converges (input : ResourcePlanningInput) (plan : ResourcePlan) (o : ResourceObservation)
    (Hl : ledger_ok (ri_managed input)) (Hob : observation_ok (ri_observed input))
    (Hp : skill_plan_resource input = Ok (Projected plan))
    (Hinj : identities_distinct input) (Ho : reached input plan o) :
  exists plan', skill_plan_resource (replan_input input plan o) = Ok (Projected plan')
    /\ pl_projection plan' = pl_projection plan /\ pl_changes plan' = [].
Proof.
  pose proof (plan_resource_facts _ _ Hp) as Hf. destruct Ho as (Hoo & Hro & Hrun).
  pose proof (plan_resource_inv _ _ Hp) as (_ & _ & Hobs & _ & _ & _ & _ & _ & _ & _ & _ & Hrr & _).
  rewrite (pf_changes _ _ Hf : pl_changes plan = row_phase _ _ _ ++ (create_change <$> new_items _ _)) in Hrun.
  pose proof (run_settles _ _ _ Hl Hob (pf_keyed _ _ Hf)) as Hfinal. rewrite <-(pf_preserved _ _ Hf) in Hfinal.
  specialize (Hfinal (pf_free _ _ Hf) (pf_drift _ _ Hf) _ Hrun).
  eexists. split; [apply replan_steps; try done|done].
  - apply no_new_conflict; [done|done|congruence|done].
  - apply nothing_to_change; [done|done|congruence|done].
Qed.
End converge.

(** ** Witness *)

#[local] Existing Instance sample_sha.
#[local] Existing Instance sample_digests.

(** The user's directory after the sample plan: the update and the creation are there, the removed
    item is gone and the unowned item stays. *)
Definition sample_after : ResourceObservation :=
  {| ro_resource := "r"; ro_fingerprint := "o2";
     ro_items := {["alpha" := sample_item "alpha" "f1+" (Claims "m1");
                   "beta" := sample_item "beta" "f3" (Claims (for_intent "r" "d3"));
                   "gamma" := sample_item "gamma" "f0" NoOwnershipEvidence]} |}.

Lemma sample_distinct : identities_distinct (sample_input "alpha").
Proof.
  intros r1 r2 d1 d2 ->%list_elem_of_singleton ->%list_elem_of_singleton H1 H2. cbn [rq_desired_effects] in H1, H2.
  assert (d1 = "d1" \/ d1 = "d3") as [-> | ->] by set_solver; assert (d2 = "d1" \/ d2 = "d3") as [-> | ->] by set_solver;
    vm_compute; congruence.
Qed.

Lemma plan_converges_witness :
  exists plan', skill_plan_resource (replan_input (sample_input "alpha") (sample_plan_of "alpha") sample_after)
    = Ok (Projected plan') /\ pl_changes plan' = [].
Proof.
  destruct (plan_converges (sample_input "alpha") (sample_plan_of "alpha") sample_after) as (plan' & Hp & _ & Hc).
  - apply sample_ledger_ok.
  - apply sample_observation_ok.
  - vm_compute. reflexivity.
  - apply sample_distinct.
  - split; [|split; vm_compute; reflexivity]. apply map_Forall_to_list. vm_compute. repeat constructor.
  - exists plan'. split; [exact Hp|exact Hc].
Defined.
