(* ===== verification/ScheduledTask.v ===== *)
(** * Scheduled task definitions

    [crates/domain/src/scheduled_task.rs], [agent_ref.rs] and the calendar of the backend
    ([crates/backend/src/scheduled_task_calendar.rs]).  Timestamps are [i64] milliseconds with the
    saturation the code has.  Cron expressions and time zones belong to other crates: the class
    [Cron] holds the operations the calendar uses. *)

From S2P Require Import Prelude RustStr.
Local Open Scope ora_scope.
Local Open Scope Z_scope.

Notation ScheduledTaskId := string (only parsing).
Notation ProjectId := string (only parsing).
Notation AgentRef := string (only parsing).

(** ** [i64] *)

Definition in_i64 (z : Z) : bool := (i64_min <=? z) && (z <=? i64_max).
Definition checked_i64 (z : Z) : option Z := if in_i64 z then Some z else None.
Definition saturate_i64 (z : Z) : Z := Z.max i64_min (Z.min z i64_max).

Lemma in_i64_spec z : in_i64 z = true <-> i64_min <= z <= i64_max.
Proof. unfold in_i64. rewrite andb_true_iff, !Z.leb_le. done. Qed.
Lemma saturate_i64_id z : in_i64 z = true -> saturate_i64 z = z.
Proof. rewrite in_i64_spec. unfold saturate_i64. lia. Qed.
Lemma checked_i64_Some z x : checked_i64 z = Some x <-> in_i64 z = true /\ x = z.
Proof. unfold checked_i64. destruct (in_i64 z); naive_solver. Qed.

(** ** Definitions *)

(** The errors of [DomainModelError] a scheduled task meets. *)
Inductive DomainModelError : Type :=
| InvalidAgentRef (value : string)
| EmptyScheduledTaskName
| EmptyScheduledTaskPrompt
| ScheduledTaskIntervalTooShort
| InvalidScheduledTaskTime
| EmptyScheduledTaskWeekdays.

(** [AgentRef::parse] *)
Definition agent_ref_parse (value : string) : result DomainModelError AgentRef :=
  let trimmed := trim value in
  if bool_decide (trimmed = "") then Err (InvalidAgentRef value) else Ok trimmed.

Definition FULL_AUTO_IN_WORKTREE_POLICY : string := "full_auto_in_worktree".

Inductive ScheduledTaskWeekday : Type :=
| Monday | Tuesday | Wednesday | Thursday | Friday | Saturday | Sunday.
#[export] Instance ScheduledTaskWeekday_eq_dec : EqDecision ScheduledTaskWeekday.
Proof. solve_decision. Defined.
Definition WEEKDAYS : list ScheduledTaskWeekday :=
  [Monday; Tuesday; Wednesday; Thursday; Friday; Saturday; Sunday].
Definition weekday_index (day : ScheduledTaskWeekday) : nat :=
  match day with
  | Monday => 0 | Tuesday => 1 | Wednesday => 2 | Thursday => 3 | Friday => 4 | Saturday => 5 | Sunday => 6
  end%nat.
#[export] Program Instance ScheduledTaskWeekday_countable : Countable ScheduledTaskWeekday :=
  inj_countable' weekday_index (fun i => default Monday (WEEKDAYS !! i)) _.
Next Obligation. by intros []. Qed.

Inductive ScheduledTaskSchedule : Type :=
| EveryHours (interval : N)
| Daily (hour minute : N)
| Weekly (weekdays : gset ScheduledTaskWeekday) (hour minute : N).
#[export] Instance ScheduledTaskSchedule_eq_dec : EqDecision ScheduledTaskSchedule.
Proof. solve_decision. Defined.

(** The order of a [BTreeSet] of weekdays. *)
Definition weekday_list (weekdays : gset ScheduledTaskWeekday) : list ScheduledTaskWeekday :=
  filter (fun day => day ∈ weekdays) WEEKDAYS.

Definition validate_time (hour minute : N) : result DomainModelError unit :=
  reject_if ((23 <? hour)%N || (59 <? minute)%N) InvalidScheduledTaskTime.
Definition every_hours (interval : N) : result DomainModelError ScheduledTaskSchedule :=
  reject (bool_decide (interval = 0%N)) with ScheduledTaskIntervalTooShort;
  Ok (EveryHours interval).
Definition daily (hour minute : N) : result DomainModelError ScheduledTaskSchedule :=
  _ ← validate_time hour minute; Ok (Daily hour minute).
Definition weekly (weekdays : gset ScheduledTaskWeekday) (hour minute : N) :
    result DomainModelError ScheduledTaskSchedule :=
  reject (bool_decide (weekdays = ∅)) with EmptyScheduledTaskWeekdays;
  _ ← validate_time hour minute;
  Ok (Weekly weekdays hour minute).

Definition is_every_hours (s : ScheduledTaskSchedule) : bool :=
  match s with EveryHours _ => true | _ => false end.

Definition HOUR_MILLIS : Z := 60 * 60 * 1000.

(** [i64::div_euclid] panics on zero: the outer [None].  The inner one is the code's own [None]. *)
Definition next_hourly_occurrence_after (s : ScheduledTaskSchedule) (anchor_at after : Z) : option (option Z) :=
  match s with
  | EveryHours interval =>
      match checked_i64 (Z.of_N interval * HOUR_MILLIS) with
      | None => Some None
      | Some interval_millis =>
          let elapsed := saturate_i64 (after - anchor_at) in
          if bool_decide (interval_millis = 0) then None
          else
            let completed_intervals := elapsed / interval_millis in
            Some (completed ← checked_i64 (completed_intervals + 1);
                  offset ← checked_i64 (completed * interval_millis);
                  checked_i64 (anchor_at + offset))
      end
  | _ => Some None
  end.

Inductive ScheduledTaskExecutionLocation : Type := Local | Cloud.
#[export] Instance ScheduledTaskExecutionLocation_eq_dec : EqDecision ScheduledTaskExecutionLocation.
Proof. solve_decision. Defined.

Record ScheduledTaskApproval : Type := { policy : string; consented_at : Z }.
#[export] Instance ScheduledTaskApproval_eq_dec : EqDecision ScheduledTaskApproval.
Proof. solve_decision. Defined.
Definition full_auto_in_worktree (at_ : Z) : ScheduledTaskApproval :=
  {| policy := FULL_AUTO_IN_WORKTREE_POLICY; consented_at := at_ |}.
Definition is_supported (a : ScheduledTaskApproval) : bool :=
  bool_decide (policy a = FULL_AUTO_IN_WORKTREE_POLICY).

Record AuditFields : Type := { created_at : Z; updated_at : Z; is_deleted : bool }.
#[export] Instance AuditFields_eq_dec : EqDecision AuditFields.
Proof. solve_decision. Defined.

Record ScheduledTask : Type := {
  sk_id : ScheduledTaskId;
  sk_name : string;
  sk_enabled : bool;
  sk_schedule : ScheduledTaskSchedule;
  sk_execution_location : ScheduledTaskExecutionLocation;
  sk_project_id : ProjectId;
  sk_agent_ref : AgentRef;
  sk_model : option string;
  sk_prompt : string;
  sk_revision : N;
  sk_approval : option ScheduledTaskApproval;
  sk_schedule_anchor_at : option Z;
  sk_worktree_base_branch : option string;
  sk_audit_fields : AuditFields;
}.
#[export] Instance ScheduledTask_eq_dec : EqDecision ScheduledTask.
Proof. solve_decision. Defined.

(** [ScheduledTask::new] *)
Definition new_scheduled_task (id : ScheduledTaskId) (name : string) (enabled : bool)
    (schedule : ScheduledTaskSchedule) (location : ScheduledTaskExecutionLocation) (project_id : ProjectId)
    (agent_ref : AgentRef) (model : option string) (prompt : string) (approval : option ScheduledTaskApproval)
    (audit_fields : AuditFields) : result DomainModelError ScheduledTask :=
  let name := trim name in
  reject (bool_decide (name = "")) with EmptyScheduledTaskName;
  let prompt := trim prompt in
  reject (bool_decide (prompt = "")) with EmptyScheduledTaskPrompt;
  Ok {| sk_id := id; sk_name := name; sk_enabled := enabled; sk_schedule := schedule;
        sk_execution_location := location; sk_project_id := project_id; sk_agent_ref := agent_ref;
        sk_model := model; sk_prompt := prompt; sk_revision := 1; sk_approval := approval;
        sk_schedule_anchor_at := None; sk_worktree_base_branch := None; sk_audit_fields := audit_fields |}.

Definition with_anchor (t : ScheduledTask) (anchor : option Z) : ScheduledTask :=
  {| sk_id := sk_id t; sk_name := sk_name t; sk_enabled := sk_enabled t; sk_schedule := sk_schedule t;
     sk_execution_location := sk_execution_location t; sk_project_id := sk_project_id t;
     sk_agent_ref := sk_agent_ref t; sk_model := sk_model t; sk_prompt := sk_prompt t;
     sk_revision := sk_revision t; sk_approval := sk_approval t; sk_schedule_anchor_at := anchor;
     sk_worktree_base_branch := sk_worktree_base_branch t; sk_audit_fields := sk_audit_fields t |}.
Definition with_branch (t : ScheduledTask) (branch : option string) : ScheduledTask :=
  {| sk_id := sk_id t; sk_name := sk_name t; sk_enabled := sk_enabled t; sk_schedule := sk_schedule t;
     sk_execution_location := sk_execution_location t; sk_project_id := sk_project_id t;
     sk_agent_ref := sk_agent_ref t; sk_model := sk_model t; sk_prompt := sk_prompt t;
     sk_revision := sk_revision t; sk_approval := sk_approval t;
     sk_schedule_anchor_at := sk_schedule_anchor_at t; sk_worktree_base_branch := branch;
     sk_audit_fields := sk_audit_fields t |}.
Definition with_revision (t : ScheduledTask) (revision : N) : ScheduledTask :=
  {| sk_id := sk_id t; sk_name := sk_name t; sk_enabled := sk_enabled t; sk_schedule := sk_schedule t;
     sk_execution_location := sk_execution_location t; sk_project_id := sk_project_id t;
     sk_agent_ref := sk_agent_ref t; sk_model := sk_model t; sk_prompt := sk_prompt t; sk_revision := revision;
     sk_approval := sk_approval t; sk_schedule_anchor_at := sk_schedule_anchor_at t;
     sk_worktree_base_branch := sk_worktree_base_branch t; sk_audit_fields := sk_audit_fields t |}.

Definition anchored (t : ScheduledTask) : bool := is_every_hours (sk_schedule t) && sk_enabled t.
Definition reanchor_on_enable (t : ScheduledTask) (enabled_at : Z) : ScheduledTask :=
  with_anchor t (if anchored t then Some enabled_at else None).
Definition preserve_schedule_anchor (t existing : ScheduledTask) : ScheduledTask :=
  with_anchor t (if anchored t then sk_schedule_anchor_at existing else None).
Definition freeze_worktree_base_branch (t : ScheduledTask) (branch : string) : ScheduledTask :=
  with_branch t (Some (trim branch)).
Definition local_activation_allowed (t : ScheduledTask) : bool :=
  bool_decide (sk_execution_location t = Local)
  && match sk_approval t with Some approval => is_supported approval | None => false end.

(** ** The calendar *)

Definition weekday_cron_name (day : ScheduledTaskWeekday) : string :=
  match day with
  | Monday => "MON" | Tuesday => "TUE" | Wednesday => "WED" | Thursday => "THU" | Friday => "FRI"
  | Saturday => "SAT" | Sunday => "SUN"
  end.

Definition calendar_cron_expression (s : ScheduledTaskSchedule) : option string :=
  match s with
  | Daily hour minute => Some ("0 " +:+ of_N minute +:+ " " +:+ of_N hour +:+ " * * *")
  | Weekly weekdays hour minute =>
      Some ("0 " +:+ of_N minute +:+ " " +:+ of_N hour +:+ " * * "
            +:+ join "," (weekday_cron_name <$> weekday_list weekdays))
  | EveryHours _ => None
  end.

Definition is_schedulable (t : ScheduledTask) : bool :=
  sk_enabled t && bool_decide (sk_execution_location t = Local) && local_activation_allowed t
  && match sk_worktree_base_branch t with Some branch => negb (bool_decide (trim branch = "")) | None => false end
  && match sk_schedule t with
     | EveryHours _ => bool_decide (is_Some (sk_schedule_anchor_at t))
     | Daily _ _ | Weekly _ _ _ => true
     end.

(** [cron::Schedule] in a [chrono] time zone: an expression that parses, an instant in range, and
    the first occurrence strictly after an instant. *)
Class Cron : Type := {
  cron_parses : string -> bool;
  instant_in_range : Z -> bool;
  cron_next : string -> Z -> option Z;
  cron_next_later : forall expression t t', cron_next expression t = Some t' -> t < t';
}.

Section calendar.
Context {cron : Cron}.

(** [schedule.after(start)], up to the first occurrence past [until]; one step per millisecond of
    the interval is enough. *)
Fixpoint occurrences_until (fuel : nat) (expression : string) (start until : Z) : list Z :=
  match fuel with
  | O => []
  | S fuel =>
      match cron_next expression start with
      | Some t => if until <? t then [] else t :: occurrences_until fuel expression t until
      | None => []
      end
  end.
Definition occurrences_between (expression : string) (start until : Z) : list Z :=
  occurrences_until (Z.to_nat (until - start)) expression start until.

(** The last two elements. *)
Definition last_two (l : list Z) : list Z := drop (length l - 2) l.

Definition recent_hourly_occurrences (interval : N) (anchor : option Z) (observed_at : Z) : list Z :=
  match anchor with
  | None => []
  | Some anchor_at =>
      let interval_millis := saturate_i64 (Z.of_N interval * HOUR_MILLIS) in
      if interval_millis <=? 0 then []
      else
        let first := saturate_i64 (anchor_at + interval_millis) in
        if observed_at <? first then []
        else
          let elapsed := saturate_i64 (observed_at - first) in
          let latest := saturate_i64 (first + saturate_i64 (elapsed / interval_millis * interval_millis)) in
          let previous := saturate_i64 (latest - interval_millis) in
          if anchor_at <=? previous then [previous; latest] else [latest]
  end.

Definition recent_scheduled_occurrences (t : ScheduledTask) (observed_at : Z) : list Z :=
  match sk_schedule t with
  | EveryHours interval => recent_hourly_occurrences interval (sk_schedule_anchor_at t) observed_at
  | Daily _ _ | Weekly _ _ _ =>
      match calendar_cron_expression (sk_schedule t) with
      | None => []
      | Some expression =>
          let start_at := Z.min (updated_at (sk_audit_fields t)) observed_at in
          if negb (cron_parses expression) || negb (instant_in_range start_at) || negb (instant_in_range observed_at)
          then [] else last_two (occurrences_between expression start_at observed_at)
      end
  end.

Definition DAY_MILLIS : Z := 24 * HOUR_MILLIS.
Definition latest_calendar_occurrence_at_or_before (s : ScheduledTaskSchedule) (observed_at : Z) : option Z :=
  expression ← calendar_cron_expression s;
  if negb (cron_parses expression) || negb (instant_in_range observed_at) then None
  else last (occurrences_between expression (observed_at - 8 * DAY_MILLIS) observed_at).
End calendar.

(** ** Hourly occurrences *)

(** The points of the grid an anchor and an interval span. *)
Definition on_grid (anchor h x : Z) : Prop := exists k, x = anchor + k * h.

Lemma hourly_millis interval s : every_hours interval = Ok s -> (interval <= 65535)%N ->
  s = EveryHours interval /\ 0 < Z.of_N interval * HOUR_MILLIS
  /\ checked_i64 (Z.of_N interval * HOUR_MILLIS) = Some (Z.of_N interval * HOUR_MILLIS)
  /\ saturate_i64 (Z.of_N interval * HOUR_MILLIS) = Z.of_N interval * HOUR_MILLIS.
Proof.
  intros [H [= <-]]%reject_Ok Hu. apply bool_decide_eq_false in H.
  assert (in_i64 (Z.of_N interval * HOUR_MILLIS) = true) as Hi
    by (apply in_i64_spec; unfold HOUR_MILLIS, i64_min, i64_max; lia).
  split_and!; [done|unfold HOUR_MILLIS; lia|by apply checked_i64_Some|by apply saturate_i64_id].
Qed.

(** The first grid point after an instant. *)
Lemma grid_next anchor h t : 0 < h -> let x := anchor + ((t - anchor) / h + 1) * h in
  t < x /\ on_grid anchor h x /\ forall y, t < y -> on_grid anchor h y -> x <= y.
Proof.
  intros Hh x. pose proof (Z.div_mod (t - anchor) h ltac:(lia)) as Hd.
  pose proof (Z.mod_pos_bound (t - anchor) h Hh) as Hm. split_and!; [lia|by eexists|].
  intros y Hy [k ->]. enough ((t - anchor) / h + 1 <= k) by (unfold x; nia).
  enough ((t - anchor) / h < k) by lia. apply Z.div_lt_upper_bound; lia.
Qed.

(** Hourly occurrences keep to the grid of the enable time.  For an interval the domain
    accepts and a difference of instants that fits, the computation does not panic; what it
    returns is the least point [anchor + k * interval] strictly after the instant, and it returns
    nothing only when that point or its distance from the anchor overflows. *)
Theorem hourly_occurrence_least (interval : N) (s : ScheduledTaskSchedule) (anchor after : Z)
    (Hs : every_hours interval = Ok s) (Hu : (interval <= 65535)%N) (Hd : in_i64 (after - anchor) = true) :
  let h := Z.of_N interval * HOUR_MILLIS in
  exists x, (after < x /\ on_grid anchor h x /\ forall y, after < y -> on_grid anchor h y -> x <= y)
    /\ next_hourly_occurrence_after s anchor after
       = Some (if in_i64 (x - anchor) && in_i64 x then Some x else None).
Proof.
  intros h. destruct (hourly_millis _ _ Hs Hu) as (-> & Hh & Hc & _). fold h in Hh, Hc.
  pose proof (grid_next anchor h after Hh) as Hx. cbv zeta in Hx.
  eexists. split; [exact Hx|]. unfold next_hourly_occurrence_after. fold h. rewrite Hc, saturate_i64_id by done.
  rewrite bool_decide_eq_false_2 by lia. f_equal. set (q := (after - anchor) / h) in *.
  assert (in_i64 (q + 1) = true) as Hq.
  { apply in_i64_spec. apply in_i64_spec in Hd. unfold q. unfold i64_min, i64_max in *.
    pose proof (Z.div_mod (after - anchor) h ltac:(lia)). pose proof (Z.mod_pos_bound (after - anchor) h Hh).
    assert (2 <= h) by (subst h; unfold HOUR_MILLIS in *; lia). set (d := after - anchor) in *. nia. }
  replace (anchor + (q + 1) * h - anchor) with ((q + 1) * h) by lia.
  assert (checked_i64 (q + 1) = Some (q + 1)) as -> by by apply checked_i64_Some. cbn [option_bind mbind].
  unfold checked_i64. by destruct (in_i64 ((q + 1) * h)).
Qed.

Lemma saturates_to z : in_i64 z = true -> saturate_i64 z = z.
Proof. apply saturate_i64_id. Qed.

(** What startup recovery reads of an hourly task.  From the first occurrence on, the list is
    always the last two grid points up to now: before the second occurrence its older point is
    the enable time itself, which is not an occurrence. *)
Theorem recent_hourly_points (interval : N) (s : ScheduledTaskSchedule) (anchor observed : Z)
    (Hs : every_hours interval = Ok s) (Hu : (interval <= 65535)%N)
    (Ha : 0 <= anchor) (Hb : observed <= i64_max) (Hf : anchor + Z.of_N interval * HOUR_MILLIS <= i64_max)
    (Hl : i64_min <= observed) :
  let h := Z.of_N interval * HOUR_MILLIS in
  (observed < anchor + h -> recent_hourly_occurrences interval (Some anchor) observed = [])
  /\ (anchor + h <= observed -> exists k, 1 <= k /\ anchor + k * h <= observed < anchor + k * h + h
        /\ recent_hourly_occurrences interval (Some anchor) observed = [anchor + (k - 1) * h; anchor + k * h]).
Proof.
  intros h. destruct (hourly_millis _ _ Hs Hu) as (-> & Hh & _ & Hsat). fold h in Hh, Hsat, Hf.
  unfold recent_hourly_occurrences. fold h. rewrite Hsat.
  rewrite (proj2 (Z.leb_gt h 0)) by lia.
  rewrite (saturates_to (anchor + h)) by (apply in_i64_spec; unfold i64_min, i64_max in *; lia). split.
  - intros Ho. by rewrite (proj2 (Z.ltb_lt _ _)).
  - intros Ho. rewrite (proj2 (Z.ltb_ge _ _)) by done.
    rewrite (saturates_to (observed - (anchor + h))) by (apply in_i64_spec; unfold i64_min, i64_max in *; lia).
    set (q := (observed - (anchor + h)) / h).
    pose proof (Z.div_mod (observed - (anchor + h)) h ltac:(lia)) as Hdm. fold q in Hdm.
    pose proof (Z.mod_pos_bound (observed - (anchor + h)) h Hh) as Hm.
    assert (0 <= q) as Hq by (apply Z.div_pos; lia).
    assert (0 <= q * h) by nia.
    rewrite (saturates_to (q * h)) by (apply in_i64_spec; unfold i64_min, i64_max in *; lia).
    rewrite (saturates_to (anchor + h + q * h)) by (apply in_i64_spec; unfold i64_min, i64_max in *; lia).
    rewrite (saturates_to (anchor + h + q * h - h)) by (apply in_i64_spec; unfold i64_min, i64_max in *; lia).
    rewrite (proj2 (Z.leb_le _ _)) by lia. exists (q + 1). split_and!; [lia|lia|lia|]. f_equal; [lia|]. f_equal. lia.
Qed.

(** The calendar loop has fuel to spare. *)
Lemma occurrences_until_fuel `{Cron} fuel fuel' expression start until :
  (Z.to_nat (until - start) <= fuel)%nat -> (Z.to_nat (until - start) <= fuel')%nat ->
  occurrences_until fuel expression start until = occurrences_until fuel' expression start until.
Proof.
  assert (forall f e t u, (Z.to_nat (u - t) <= f)%nat ->
    occurrences_until (S f) e t u = occurrences_until f e t u) as Hstep.
  { induction f as [|f IH]; intros e t u Hf.
    - simpl. destruct (cron_next e t) as [x|] eqn:E; [|done]. apply cron_next_later in E.
      by rewrite (proj2 (Z.ltb_lt u x)) by lia.
    - simpl. destruct (cron_next e t) as [x|] eqn:E; [|done]. pose proof (cron_next_later _ _ _ E).
      destruct (u <? x) eqn:Eu; [done|]. f_equal. apply (IH e x u). apply Z.ltb_ge in Eu. lia. }
  assert (forall d e t u f, (Z.to_nat (u - t) <= f)%nat ->
    occurrences_until (d + f) e t u = occurrences_until f e t u) as Hadd.
  { induction d as [|d IH]; intros e t u f Hf; [done|]. rewrite <-(IH e t u f Hf). apply (Hstep (d + f)%nat). lia. }
  intros H1 H2. rewrite <-(Hadd fuel' expression start until fuel H1), <-(Hadd fuel expression start until fuel' H2).
  f_equal. lia.
Qed.

(** A task enabled at 9:00 with an interval of one hour, observed at 10:05 on the same day. *)
Lemma hourly_occurrence_least_witness :
  next_hourly_occurrence_after (EveryHours 1) 32400000 36300000 = Some (Some 39600000).
Proof.
  destruct (hourly_occurrence_least 1 (EveryHours 1) 32400000 36300000) as (x & (H1 & [k ->] & H3) & Hn);
    [reflexivity|discriminate|reflexivity|].
  assert (k = 2) as ->; [|exact Hn].
  specialize (H3 39600000). unfold on_grid, HOUR_MILLIS in *. simpl in *.
  assert (k <= 2) by (assert (32400000 + k * 3600000 <= 39600000) by (apply H3; [lia|by exists 2]); lia). lia.
Defined.

Lemma recent_hourly_points_witness :
  recent_hourly_occurrences 1 (Some 32400000) 36300000 = [32400000; 36000000].
Proof.
  destruct (recent_hourly_points 1 (EveryHours 1) 32400000 36300000) as [_ H];
    [reflexivity|discriminate|lia|unfold i64_max; lia|unfold HOUR_MILLIS, i64_max; lia|unfold i64_min; lia|].
  destruct H as (k & Hk & Hb & Hr); [unfold HOUR_MILLIS; lia|].
  assert (k = 1) as -> by (unfold HOUR_MILLIS in Hb; lia). exact Hr.
Defined.
