(* ===== verification/ScheduledRun.v ===== *)
(** * Scheduled runs ([crates/domain/src/scheduled_run.rs])

    The occurrence of a task, the run it may admit, the forward-only life of a run and the
    verdict its agent reports in the last message. *)

From S2P Require Import Prelude RustStr ScheduledTask.
From Stdlib Require Import Ascii.
Local Open Scope ora_scope.
Local Open Scope Z_scope.

Notation ScheduledRunId := string (only parsing).
Notation SessionId := string (only parsing).
Notation TaskId := string (only parsing).

Definition MAX_SCHEDULED_OCCURRENCE_LATENESS_MILLIS : Z := 10 * 60 * 1000.
Definition MAX_CONCURRENT_LOCAL_SCHEDULED_RUNS : nat := 4.
Definition MAX_SCHEDULED_TASK_HISTORY_ENTRIES : nat := 100.

(** ** Occurrences *)

Record ScheduledOccurrence : Type := { oc_task_id : ScheduledTaskId; oc_scheduled_at : Z }.
#[export] Instance ScheduledOccurrence_eq_dec : EqDecision ScheduledOccurrence.
Proof. solve_decision. Defined.

Inductive ScheduledMissReason : Type := AppNotRunning | LateTrigger.
#[export] Instance ScheduledMissReason_eq_dec : EqDecision ScheduledMissReason.
Proof. solve_decision. Defined.

Inductive ScheduledOccurrenceTiming : Type := NotDue | Due | TimingMissed (reason : ScheduledMissReason).

Definition timing_at (o : ScheduledOccurrence) (observed_at : Z) : ScheduledOccurrenceTiming :=
  if observed_at <? oc_scheduled_at o then NotDue
  else if saturate_i64 (observed_at - oc_scheduled_at o) <=? MAX_SCHEDULED_OCCURRENCE_LATENESS_MILLIS then Due
  else TimingMissed LateTrigger.

Record ScheduledMissedOccurrence : Type :=
  { ms_occurrence : ScheduledOccurrence; ms_reason : ScheduledMissReason; ms_observed_at : Z }.

(** ** Runs *)

Record ScheduledRunSnapshot : Type :=
  { sp_revision : N; sp_project_id : ProjectId; sp_worktree_base_branch : option string; sp_agent_ref : AgentRef;
    sp_model : option string; sp_prompt : string; sp_approval : option ScheduledTaskApproval }.

Inductive ScheduledRunStatus : Type :=
| RunAccepted | RunRunning | RunSucceeded | RunFailed | RunCancelled | SkippedBusy | SkippedCapacity.
#[export] Instance ScheduledRunStatus_eq_dec : EqDecision ScheduledRunStatus.
Proof. solve_decision. Defined.
Definition run_is_active (s : ScheduledRunStatus) : bool :=
  match s with RunAccepted | RunRunning => true | _ => false end.

Inductive ScheduledRunFailureReason : Type :=
| TargetUnavailable | ModelUnavailable | WorktreeFailed | ApprovalPolicyInvalid | RunTimeout | ExecutionError.
#[export] Instance ScheduledRunFailureReason_eq_dec : EqDecision ScheduledRunFailureReason.
Proof. solve_decision. Defined.

Inductive ScheduledRunVerdict : Type := VPass | VWarn | VFail | VBlocked | VIdle | VRangeUnresolved.
#[export] Instance ScheduledRunVerdict_eq_dec : EqDecision ScheduledRunVerdict.
Proof. solve_decision. Defined.

Record ScheduledRun : Type := {
  rn_id : ScheduledRunId;
  rn_occurrence : ScheduledOccurrence;
  rn_snapshot : ScheduledRunSnapshot;
  rn_status : ScheduledRunStatus;
  rn_session_id : option SessionId;
  rn_worktree_path : option string;
  rn_worktree_task_id : option TaskId;
  rn_failure_reason : option ScheduledRunFailureReason;
  rn_verdict : option ScheduledRunVerdict;
  rn_verdict_detail : option string;
  rn_verdict_at : option Z;
  rn_created_at : Z;
  rn_updated_at : Z;
}.

(** [ScheduledRun::accepted] *)
Definition accepted_run (id : ScheduledRunId) (occurrence : ScheduledOccurrence) (task : ScheduledTask)
    (accepted_at : Z) : ScheduledRun :=
  {| rn_id := id; rn_occurrence := occurrence;
     rn_snapshot :=
       {| sp_revision := sk_revision task; sp_project_id := sk_project_id task;
          sp_worktree_base_branch := sk_worktree_base_branch task; sp_agent_ref := sk_agent_ref task;
          sp_model := sk_model task; sp_prompt := sk_prompt task; sp_approval := sk_approval task |};
     rn_status := RunAccepted; rn_session_id := None; rn_worktree_path := None; rn_worktree_task_id := None;
     rn_failure_reason := None; rn_verdict := None; rn_verdict_detail := None; rn_verdict_at := None;
     rn_created_at := accepted_at; rn_updated_at := accepted_at |}.

Inductive ScheduledRunTransition : Type :=
| Start (session_id : SessionId) (worktree_path : string) (worktree_task_id : TaskId)
| Succeed
| FailRun (reason : ScheduledRunFailureReason)
| CancelRun.

Definition is_allowed_from (t : ScheduledRunTransition) (status : ScheduledRunStatus) : bool :=
  match t with
  | Start _ _ _ => bool_decide (status = RunAccepted)
  | Succeed => bool_decide (status = RunRunning)
  | FailRun _ | CancelRun => run_is_active status
  end.

(** The columns a transition writes. *)
Definition with_lifecycle (r : ScheduledRun) (status : ScheduledRunStatus) (session : option SessionId)
    (path : option string) (task : option TaskId) (reason : option ScheduledRunFailureReason) (at_ : Z) :
    ScheduledRun :=
  {| rn_id := rn_id r; rn_occurrence := rn_occurrence r; rn_snapshot := rn_snapshot r; rn_status := status;
     rn_session_id := session; rn_worktree_path := path; rn_worktree_task_id := task; rn_failure_reason := reason;
     rn_verdict := rn_verdict r; rn_verdict_detail := rn_verdict_detail r; rn_verdict_at := rn_verdict_at r;
     rn_created_at := rn_created_at r; rn_updated_at := at_ |}.

(** A committed binding that differs from the one asked for. *)
Definition rebinds (existing : option string) (value : string) : bool :=
  match existing with Some existing => negb (bool_decide (existing = value)) | None => false end.

(** [ScheduledRun::transition]: the new run, or [None] when the code returns [false] and leaves
    the run as it is. *)
Definition run_transition (r : ScheduledRun) (t : ScheduledRunTransition) (at_ : Z) : option ScheduledRun :=
  if negb (is_allowed_from t (rn_status r)) then None
  else
    match t with
    | Start session_id worktree_path worktree_task_id =>
        if rebinds (rn_worktree_task_id r) worktree_task_id || rebinds (rn_worktree_path r) worktree_path then None
        else Some (with_lifecycle r RunRunning (Some session_id) (Some worktree_path) (Some worktree_task_id) None at_)
    | Succeed =>
        Some (with_lifecycle r RunSucceeded (rn_session_id r) (rn_worktree_path r) (rn_worktree_task_id r) None at_)
    | FailRun reason =>
        Some (with_lifecycle r RunFailed (rn_session_id r) (rn_worktree_path r) (rn_worktree_task_id r)
                (Some reason) at_)
    | CancelRun =>
        Some (with_lifecycle r RunCancelled (rn_session_id r) (rn_worktree_path r) (rn_worktree_task_id r) None at_)
    end.

(** ** Verdicts *)

Definition verdict_as_str (v : ScheduledRunVerdict) : string :=
  match v with
  | VPass => "pass" | VWarn => "warn" | VFail => "fail" | VBlocked => "blocked" | VIdle => "idle"
  | VRangeUnresolved => "range_unresolved"
  end.
Definition verdict_parse (value : string) : option ScheduledRunVerdict :=
  let token := str_to_lower (trim value) in
  if bool_decide (token = "pass") then Some VPass
  else if bool_decide (token = "warn") then Some VWarn
  else if bool_decide (token = "fail") then Some VFail
  else if bool_decide (token = "blocked") then Some VBlocked
  else if bool_decide (token = "idle") then Some VIdle
  else if bool_decide (token = "range_unresolved") then Some VRangeUnresolved
  else None.

Definition MAX_SCHEDULED_RUN_VERDICT_DETAIL_CHARS : N := 2000.

Record ScheduledRunVerdictAnnotation : Type := { an_verdict : ScheduledRunVerdict; an_detail : option string }.

Definition CR : ascii := byte_at 13.
Definition LF : ascii := byte_at 10.

(** [text.replace("\r\n", "\n").replace('\r', "\n")] *)
Fixpoint replace_crlf (s : string) : string :=
  match s with
  | String a ((String b rest) as tail) =>
      if is_char CR a && is_char LF b then String LF (replace_crlf rest) else String a (replace_crlf tail)
  | _ => s
  end.
Fixpoint replace_cr (s : string) : string :=
  match s with String a rest => String (if is_char CR a then LF else a) (replace_cr rest) | "" => "" end.
Definition normalize_newlines (text : string) : string := replace_cr (replace_crlf text).

Fixpoint str_skip (n : nat) (s : string) : string :=
  match n, s with
  | O, _ | _, "" => s
  | S n, String _ rest => str_skip n rest
  end.

(** The text after a marker that is looked for in the lower-cased line. *)
Definition after_marker (marker line : string) : option string :=
  match split_once marker (str_to_lower line) with
  | Some (before, _) => Some (str_skip (String.length before + String.length marker) line)
  | None => None
  end.

Definition verdict_of_lines (after : string) (next : option string) : option ScheduledRunVerdictAnnotation :=
  verdict ← verdict_parse after;
  let detail := next ≫= fun line => trim <$> after_marker "qa_detail:" line in
  if match detail with Some value => (MAX_SCHEDULED_RUN_VERDICT_DETAIL_CHARS <? chars_count value)%N | None => false end
  then None
  else Some {| an_verdict := verdict; an_detail := detail |}.

Fixpoint verdict_scan (lines : list string) : option ScheduledRunVerdictAnnotation :=
  match lines with
  | [] => None
  | line :: rest =>
      match after_marker "qa_verdict:" line with
      | None => verdict_scan rest
      | Some after => verdict_of_lines after (head rest)
      end
  end.

Definition parse_scheduled_run_verdict (text : string) : option ScheduledRunVerdictAnnotation :=
  verdict_scan (split_char LF (normalize_newlines text)).

(** ** Reports *)

Definition one_line (s : string) : bool := str_free (is_char CR) s && str_free (is_char LF) s.

Lemma replace_crlf_free s : str_free (is_char CR) s = true -> replace_crlf s = s.
Proof.
  induction s as [|a s IH]; [done|]. intros Ha. pose proof Ha as Hb. simpl in Hb.
  apply andb_true_iff in Hb as [Hb%negb_true_iff Hs]. destruct s as [|b s]; [done|].
  cbn [replace_crlf]. rewrite Hb. simpl. f_equal. by apply IH.
Qed.
Lemma replace_cr_free s : str_free (is_char CR) s = true -> replace_cr s = s.
Proof.
  induction s as [|a s IH]; [done|]. simpl. intros [Ha%negb_true_iff Hs]%andb_true_iff. by rewrite Ha, IH.
Qed.

Lemma str_free_join p sep l : str_free p sep = true -> Forall (fun s => str_free p s = true) l ->
  str_free p (join sep l) = true.
Proof.
  intros Hsep Hl. induction Hl as [|s l Hs Hl IH]; [done|]. destruct (decide (l = [])) as [->|Hne]; [done|].
  rewrite join_cons by done. clear -Hs Hsep IH.
  assert (forall a b, str_free p a = true -> str_free p b = true -> str_free p (a +:+ b) = true) as Happ.
  { intros a b Ha Hb. induction a as [|c a IHa]; [done|]. simpl in *. apply andb_true_iff in Ha as [-> Ha]. by apply IHa. }
  by repeat apply Happ.
Qed.

(** A text of one-line lines is read line by line. *)
Lemma verdict_lines l : l <> [] -> Forall (fun s => one_line s = true) l ->
  parse_scheduled_run_verdict (join (String LF "") l) = verdict_scan l.
Proof.
  intros Hne Hl. assert (Forall (fun s => str_free (is_char CR) s = true) l) as Hcr
    by (eapply Forall_impl; [exact Hl|]; intros s [H _]%andb_true_iff; done).
  assert (str_free (is_char CR) (join (String LF "") l) = true) as Hf by by apply str_free_join.
  unfold parse_scheduled_run_verdict, normalize_newlines.
  rewrite replace_crlf_free, replace_cr_free by done. unfold split_char. rewrite split_on_join; [done|done|done|].
  eapply Forall_impl; [exact Hl|]. by intros s [_ H]%andb_true_iff.
Qed.

Lemma verdict_scan_skip pre l : Forall (fun line => after_marker "qa_verdict:" line = None) pre ->
  verdict_scan (pre ++ l) = verdict_scan l.
Proof. induction 1 as [|line pre Hl _ IH]; [done|]. simpl. by rewrite Hl. Qed.

Lemma trim_space s : trim (" " +:+ s) = trim s.
Proof. done. Qed.
Lemma after_detail d : after_marker "qa_detail:" ("QA_DETAIL: " +:+ d) = Some (" " +:+ d).
Proof. unfold after_marker. destruct d; done. Qed.
Lemma after_verdict v : after_marker "qa_verdict:" ("QA_VERDICT: " +:+ verdict_as_str v) = Some (" " +:+ verdict_as_str v).
Proof. by destruct v. Qed.
Lemma verdict_token v : verdict_parse (" " +:+ verdict_as_str v) = Some v.
Proof. by destruct v; vm_compute. Qed.
Lemma verdict_line v : one_line ("QA_VERDICT: " +:+ verdict_as_str v) = true.
Proof. by destruct v; vm_compute. Qed.

(** The lines an agent is asked to write. *)
Definition report (v : ScheduledRunVerdict) (detail : option string) : list string :=
  ("QA_VERDICT: " +:+ verdict_as_str v) :: match detail with Some d => ["QA_DETAIL: " +:+ d] | None => [] end.

Lemma verdict_scan_report v detail post :
  match detail with
  | Some d => trim d = d /\ (chars_count d <= MAX_SCHEDULED_RUN_VERDICT_DETAIL_CHARS)%N
  | None => match head post with Some line => after_marker "qa_detail:" line = None | None => True end
  end ->
  verdict_scan (report v detail ++ post) = Some {| an_verdict := v; an_detail := detail |}.
Proof.
  intros Hd. unfold report. cbn [app verdict_scan]. rewrite after_verdict. unfold verdict_of_lines.
  rewrite verdict_token. cbn [mbind option_bind]. destruct detail as [d|].
  - destruct Hd as [Ht Hc]. cbn [app head mbind option_bind]. rewrite after_detail. cbn [fmap option_fmap option_map].
    rewrite trim_space, Ht. by rewrite (proj2 (N.ltb_ge _ _) Hc).
  - cbn [app]. destruct (head post) as [line|]; [|done]. cbn [mbind option_bind]. by rewrite Hd.
Qed.

(** What an agent reports is what is recorded.  A report is found behind any lines without the
    marker, whatever follows it, and gives back the verdict and the detail, provided the detail
    is one trimmed line within the bound, and that without a detail the next line is not one. *)
Theorem verdict_report_roundtrip (pre post : list string) (v : ScheduledRunVerdict) (detail : option string)
    (Hpre : Forall (fun line => after_marker "qa_verdict:" line = None) pre)
    (Hlines : Forall (fun line => one_line line = true) (pre ++ report v detail ++ post))
    (Hd : match detail with
          | Some d => trim d = d /\ (chars_count d <= MAX_SCHEDULED_RUN_VERDICT_DETAIL_CHARS)%N
          | None => match head post with Some line => after_marker "qa_detail:" line = None | None => True end
          end) :
  parse_scheduled_run_verdict (join (String LF "") (pre ++ report v detail ++ post))
  = Some {| an_verdict := v; an_detail := detail |}.
Proof.
  rewrite verdict_lines by (try done; by destruct pre). rewrite verdict_scan_skip by done.
  by apply verdict_scan_report.
Qed.

Lemma verdict_report_roundtrip_witness :
  parse_scheduled_run_verdict
    (join (String LF "") ["checks done"; "QA_VERDICT: fail"; "QA_DETAIL: overflow in parser"; "QA_VERDICT: pass"])
  = Some {| an_verdict := VFail; an_detail := Some "overflow in parser" |}.
Proof.
  apply (verdict_report_roundtrip ["checks done"] ["QA_VERDICT: pass"] VFail (Some "overflow in parser")).
  - repeat constructor.
  - repeat constructor.
  - split; [vm_compute; reflexivity|vm_compute; discriminate].
Defined.

(** ** Transitions *)

(** A transition keeps what identifies a run and what it was admitted with. *)
Lemma run_transition_frame r t at_ r' : run_transition r t at_ = Some r' ->
  rn_id r' = rn_id r /\ rn_occurrence r' = rn_occurrence r /\ rn_snapshot r' = rn_snapshot r
  /\ rn_created_at r' = rn_created_at r /\ rn_verdict r' = rn_verdict r.
Proof.
  unfold run_transition. destruct (negb _); [done|]. destruct t; try (intros [= <-]; done).
  destruct (_ || _); [done|]. by intros [= <-].
Qed.

(** It starts from an active run, and an active result is a run that is now running. *)
Lemma run_transition_status r t at_ r' : run_transition r t at_ = Some r' ->
  run_is_active (rn_status r) = true
  /\ (run_is_active (rn_status r') = true -> rn_status r' = RunRunning /\ rn_status r = RunAccepted).
Proof.
  unfold run_transition. destruct (negb _) eqn:E; [done|]. apply negb_false_iff in E.
  destruct t; simpl in E; try apply bool_decide_eq_true in E.
  - destruct (_ || _); [done|]. intros [= <-]. rewrite E. done.
  - intros [= <-]. by rewrite E.
  - by intros [= <-].
  - by intros [= <-].
Qed.

(** The failure reason is there exactly for a failed run. *)
Definition reason_ok (r : ScheduledRun) : Prop := rn_status r = RunFailed <-> is_Some (rn_failure_reason r).
Lemma run_transition_reason r t at_ r' : run_transition r t at_ = Some r' -> reason_ok r'.
Proof.
  unfold run_transition, reason_ok. destruct (negb _); [done|].
  destruct t; try (destruct (_ || _); [done|]); intros [= <-]; simpl.
  1, 2, 4: split; [intros [=]|intros [? [=]]].
  split; [by eexists|done].
Qed.
