(* ===== verification/ScheduledStore.v ===== *)
(** * The scheduled-task tables

    [crates/db/src/repository/scheduled_run.rs], [scheduled_task.rs], [scheduled_artifact.rs], the
    ownership commit of [task_workspace.rs] and the constraints of migrations 0015 to 0021.  A
    table is a map from its primary key; a row is the record its columns decode to, and
    [map_scheduled_run_row] with [run_row_roundtrip] relates it to the text columns.  An operation
    is one transaction: it returns the new tables, or an error and no tables. *)

From S2P Require Import Prelude RustStr Order ScheduledTask ScheduledRun.
Local Open Scope ora_scope.
Local Open Scope Z_scope.

Inductive ScheduledDatabaseError : Type :=
| CorruptScheduledTaskRevision (value : string)
| CorruptScheduledTaskApproval (policy : option string) (consented_at : option Z)
| CorruptScheduledRunStatus (value : string)
| CorruptScheduledRunFailureReason (value : string)
| CorruptScheduledRunVerdict (value : string)
| CorruptScheduledMissReason (value : string)
| CorruptScheduledArtifactSize (value : string)
| DomainError (e : DomainModelError)
| ConstraintViolation
| QueryReturnedNoRows.

Local Notation db := (result ScheduledDatabaseError).

(** A schema constraint of the statement. *)
Definition require_row (b : bool) : db unit := reject_if (negb b) ConstraintViolation.

(** ** Text columns *)

Definition status_column (s : ScheduledRunStatus) : string :=
  match s with
  | RunAccepted => "accepted" | RunRunning => "running" | RunSucceeded => "succeeded" | RunFailed => "failed"
  | RunCancelled => "cancelled" | SkippedBusy => "skipped_busy" | SkippedCapacity => "skipped_capacity"
  end.
Definition parse_status (value : string) : db ScheduledRunStatus :=
  if bool_decide (value = "accepted") then Ok RunAccepted
  else if bool_decide (value = "running") then Ok RunRunning
  else if bool_decide (value = "succeeded") then Ok RunSucceeded
  else if bool_decide (value = "failed") then Ok RunFailed
  else if bool_decide (value = "cancelled") then Ok RunCancelled
  else if bool_decide (value = "skipped_busy") then Ok SkippedBusy
  else if bool_decide (value = "skipped_capacity") then Ok SkippedCapacity
  else Err (CorruptScheduledRunStatus value).

Definition failure_reason_column (r : ScheduledRunFailureReason) : string :=
  match r with
  | TargetUnavailable => "target_unavailable" | ModelUnavailable => "model_unavailable"
  | WorktreeFailed => "worktree_failed" | ApprovalPolicyInvalid => "approval_policy_invalid"
  | RunTimeout => "timeout" | ExecutionError => "execution_error"
  end.
Definition parse_failure_reason (value : string) : db ScheduledRunFailureReason :=
  if bool_decide (value = "target_unavailable") then Ok TargetUnavailable
  else if bool_decide (value = "model_unavailable") then Ok ModelUnavailable
  else if bool_decide (value = "worktree_failed") then Ok WorktreeFailed
  else if bool_decide (value = "approval_policy_invalid") then Ok ApprovalPolicyInvalid
  else if bool_decide (value = "timeout") then Ok RunTimeout
  else if bool_decide (value = "execution_error") then Ok ExecutionError
  else Err (CorruptScheduledRunFailureReason value).

(** [parse_verdict] of the repository is exact, unlike [ScheduledRunVerdict::parse]. *)
Definition parse_verdict_column (value : string) : db ScheduledRunVerdict :=
  if bool_decide (value = "pass") then Ok VPass
  else if bool_decide (value = "warn") then Ok VWarn
  else if bool_decide (value = "fail") then Ok VFail
  else if bool_decide (value = "blocked") then Ok VBlocked
  else if bool_decide (value = "idle") then Ok VIdle
  else if bool_decide (value = "range_unresolved") then Ok VRangeUnresolved
  else Err (CorruptScheduledRunVerdict value).

Definition missed_reason_column (r : ScheduledMissReason) : string :=
  match r with AppNotRunning => "app_not_running" | LateTrigger => "late_trigger" end.
Definition parse_missed_reason (value : string) : db ScheduledMissReason :=
  if bool_decide (value = "app_not_running") then Ok AppNotRunning
  else if bool_decide (value = "late_trigger") then Ok LateTrigger
  else Err (CorruptScheduledMissReason value).

(** [scheduled_approval.rs] *)
Definition approval_columns (a : option ScheduledTaskApproval) : option string * option Z :=
  match a with Some a => (Some (policy a), Some (consented_at a)) | None => (None, None) end.
Definition map_approval_columns (p : option string) (at_ : option Z) : db (option ScheduledTaskApproval) :=
  match p, at_ with
  | None, None => Ok None
  | Some p', Some at' =>
      if bool_decide (p' = FULL_AUTO_IN_WORKTREE_POLICY) then Ok (Some (full_auto_in_worktree at'))
      else Err (CorruptScheduledTaskApproval p at_)
  | _, _ => Err (CorruptScheduledTaskApproval p at_)
  end.

(** The columns of [scheduled_runs]. *)
Record RunRow : Type := {
  rw_id : string; rw_task_id : string; rw_scheduled_at : Z; rw_task_revision : Z; rw_project_id : string;
  rw_worktree_base_branch : option string; rw_agent_ref : string; rw_model : option string; rw_prompt : string;
  rw_approval_policy : option string; rw_approval_consented_at : option Z; rw_status : string;
  rw_session_id : option string; rw_worktree_path : option string; rw_worktree_task_id : option string;
  rw_failure_reason : option string; rw_verdict : option string; rw_verdict_detail : option string;
  rw_verdict_at : option Z; rw_created_at : Z; rw_updated_at : Z;
}.

Definition parse_optional {A} (f : string -> db A) (v : option string) : db (option A) :=
  match v with Some v => Some <$> f v | None => Ok None end.

(** A revision column holds a positive [i64]. *)
Definition revision_of (value : Z) : db N :=
  reject (value <=? 0) with (CorruptScheduledTaskRevision (of_Z value));
  Ok (Z.to_N value).

Definition map_scheduled_run_row (r : RunRow) : db ScheduledRun :=
  revision ← revision_of (rw_task_revision r);
  approval ← map_approval_columns (rw_approval_policy r) (rw_approval_consented_at r);
  agent_ref ← map_err DomainError (agent_ref_parse (rw_agent_ref r));
  status ← parse_status (rw_status r);
  failure_reason ← parse_optional parse_failure_reason (rw_failure_reason r);
  verdict ← parse_optional parse_verdict_column (rw_verdict r);
  Ok {| rn_id := rw_id r;
        rn_occurrence := {| oc_task_id := rw_task_id r; oc_scheduled_at := rw_scheduled_at r |};
        rn_snapshot :=
          {| sp_revision := revision; sp_project_id := rw_project_id r;
             sp_worktree_base_branch := rw_worktree_base_branch r; sp_agent_ref := agent_ref;
             sp_model := rw_model r; sp_prompt := rw_prompt r; sp_approval := approval |};
        rn_status := status; rn_session_id := rw_session_id r; rn_worktree_path := rw_worktree_path r;
        rn_worktree_task_id := rw_worktree_task_id r; rn_failure_reason := failure_reason; rn_verdict := verdict;
        rn_verdict_detail := rw_verdict_detail r; rn_verdict_at := rw_verdict_at r;
        rn_created_at := rw_created_at r; rn_updated_at := rw_updated_at r |}.

(** The parameters of the statements that write a run. *)
Definition run_columns (r : ScheduledRun) : RunRow :=
  let a := approval_columns (sp_approval (rn_snapshot r)) in
  {| rw_id := rn_id r; rw_task_id := oc_task_id (rn_occurrence r); rw_scheduled_at := oc_scheduled_at (rn_occurrence r);
     rw_task_revision := Z.of_N (sp_revision (rn_snapshot r)); rw_project_id := sp_project_id (rn_snapshot r);
     rw_worktree_base_branch := sp_worktree_base_branch (rn_snapshot r); rw_agent_ref := sp_agent_ref (rn_snapshot r);
     rw_model := sp_model (rn_snapshot r); rw_prompt := sp_prompt (rn_snapshot r); rw_approval_policy := a.1;
     rw_approval_consented_at := a.2; rw_status := status_column (rn_status r); rw_session_id := rn_session_id r;
     rw_worktree_path := rn_worktree_path r; rw_worktree_task_id := rn_worktree_task_id r;
     rw_failure_reason := failure_reason_column <$> rn_failure_reason r; rw_verdict := verdict_as_str <$> rn_verdict r;
     rw_verdict_detail := rn_verdict_detail r; rw_verdict_at := rn_verdict_at r; rw_created_at := rn_created_at r;
     rw_updated_at := rn_updated_at r |}.

(** ** Tables *)

Inductive OccurrenceOutcome : Type := OutcomeAccepted | OutcomeMissed (reason : ScheduledMissReason).
#[export] Instance OccurrenceOutcome_eq_dec : EqDecision OccurrenceOutcome.
Proof. solve_decision. Defined.
Record OccurrenceRow : Type := { ow_outcome : OccurrenceOutcome; ow_observed_at : Z }.

Notation OccurrenceKey := (string * Z)%type (only parsing).

Record ScheduledStore : Type := {
  sd_projects : gset ProjectId;
  sd_tasks : gmap ScheduledTaskId ScheduledTask;
  sd_runs : gmap ScheduledRunId ScheduledRun;
  sd_occurrences : gmap (string * Z) OccurrenceRow;
}.
Definition with_tasks (s : ScheduledStore) (t : gmap ScheduledTaskId ScheduledTask) : ScheduledStore :=
  {| sd_projects := sd_projects s; sd_tasks := t; sd_runs := sd_runs s; sd_occurrences := sd_occurrences s |}.
Definition with_runs (s : ScheduledStore) (r : gmap ScheduledRunId ScheduledRun) : ScheduledStore :=
  {| sd_projects := sd_projects s; sd_tasks := sd_tasks s; sd_runs := r; sd_occurrences := sd_occurrences s |}.
Definition with_occurrences (s : ScheduledStore) (o : gmap (string * Z) OccurrenceRow) : ScheduledStore :=
  {| sd_projects := sd_projects s; sd_tasks := sd_tasks s; sd_runs := sd_runs s; sd_occurrences := o |}.

Definition occurrence_key (o : ScheduledOccurrence) : string * Z := (oc_task_id o, oc_scheduled_at o).
Definition run_key (r : ScheduledRun) : string * Z := occurrence_key (rn_occurrence r).
Definition run_list (s : ScheduledStore) : list ScheduledRun := (map_to_list (sd_runs s)).*2.
Definition active (r : ScheduledRun) : bool := run_is_active (rn_status r).
Definition runs_where (p : ScheduledRun -> bool) (s : ScheduledStore) : list ScheduledRun :=
  filter (fun r => p r = true) (run_list s).

(** ** Admission *)

Inductive ScheduledOccurrenceCandidate : Type :=
| CandidateRun (run : ScheduledRun)
| CandidateMissed (missed : ScheduledMissedOccurrence).
Definition candidate_occurrence (c : ScheduledOccurrenceCandidate) : ScheduledOccurrence :=
  match c with CandidateRun run => rn_occurrence run | CandidateMissed missed => ms_occurrence missed end.
Definition candidate_columns (c : ScheduledOccurrenceCandidate) : OccurrenceRow :=
  match c with
  | CandidateRun run => {| ow_outcome := OutcomeAccepted; ow_observed_at := rn_created_at run |}
  | CandidateMissed missed => {| ow_outcome := OutcomeMissed (ms_reason missed); ow_observed_at := ms_observed_at missed |}
  end.

Inductive ScheduledOccurrenceResolution : Type :=
| ResolvedNotDue
| AdmittedRun (run : ScheduledRun)
| ExistingRun (run : ScheduledRun)
| Missed (missed : ScheduledMissedOccurrence)
| ExistingMissed (missed : ScheduledMissedOccurrence).

Definition of_task (task : ScheduledTaskId) (r : ScheduledRun) : bool :=
  bool_decide (oc_task_id (rn_occurrence r) = task).

Definition admission_status (s : ScheduledStore) (task : ScheduledTaskId) : ScheduledRunStatus :=
  if (0 <? length (runs_where (fun r => of_task task r && active r) s))%nat then SkippedBusy
  else if (MAX_CONCURRENT_LOCAL_SCHEDULED_RUNS <=? length (runs_where active s))%nat then SkippedCapacity
  else RunAccepted.

Definition with_status (r : ScheduledRun) (status : ScheduledRunStatus) : ScheduledRun :=
  with_lifecycle r status (rn_session_id r) (rn_worktree_path r) (rn_worktree_task_id r) (rn_failure_reason r)
    (rn_updated_at r).
Definition with_verdict (r : ScheduledRun) (v : option ScheduledRunVerdict) (detail : option string) (at_ : option Z) :
    ScheduledRun :=
  {| rn_id := rn_id r; rn_occurrence := rn_occurrence r; rn_snapshot := rn_snapshot r; rn_status := rn_status r;
     rn_session_id := rn_session_id r; rn_worktree_path := rn_worktree_path r;
     rn_worktree_task_id := rn_worktree_task_id r; rn_failure_reason := rn_failure_reason r; rn_verdict := v;
     rn_verdict_detail := detail; rn_verdict_at := at_; rn_created_at := rn_created_at r;
     rn_updated_at := rn_updated_at r |}.

(** The [CHECK]s of a run row.  For a failed row without a reason the check is [NULL], which SQLite
    accepts. *)
Definition approval_check (a : option ScheduledTaskApproval) : bool :=
  match a with Some a => is_supported a | None => true end.
Definition run_checks (r : ScheduledRun) : bool :=
  (1 <=? Z.of_N (sp_revision (rn_snapshot r))) && approval_check (sp_approval (rn_snapshot r))
  && match rn_failure_reason r with Some _ => bool_decide (rn_status r = RunFailed) | None => true end.

(** The statement does not name the verdict columns, which start as [NULL]. *)
Definition insert_scheduled_run (s : ScheduledStore) (run : ScheduledRun) : db ScheduledStore :=
  reject (i64_max <? Z.of_N (sp_revision (rn_snapshot run)))
    with (CorruptScheduledTaskRevision (of_N (sp_revision (rn_snapshot run))));
  _ ← require_row (bool_decide (sd_runs s !! rn_id run = None));
  _ ← require_row (negb (existsb (fun r => bool_decide (run_key r = run_key run)) (run_list s)));
  _ ← require_row (bool_decide (is_Some (sd_tasks s !! oc_task_id (rn_occurrence run))));
  _ ← require_row (run_checks run);
  Ok (with_runs s (<[rn_id run := with_verdict run None None None]> (sd_runs s))).

(** The run of an occurrence. *)
Definition run_at (s : ScheduledStore) (key : string * Z) : option ScheduledRun :=
  head (runs_where (fun r => bool_decide (run_key r = key)) s).

Definition load_existing_resolution (s : ScheduledStore) (o : ScheduledOccurrence) (row : OccurrenceRow) :
    db ScheduledOccurrenceResolution :=
  match ow_outcome row with
  | OutcomeAccepted =>
      run ← ok_or (run_at s (occurrence_key o)) QueryReturnedNoRows;
      Ok (ExistingRun run)
  | OutcomeMissed reason =>
      Ok (ExistingMissed {| ms_occurrence := o; ms_reason := reason; ms_observed_at := ow_observed_at row |})
  end.

(** The occurrences of a task other than one, newest first. *)
Definition other_times (s : ScheduledStore) (task : ScheduledTaskId) (at_ : Z) : list Z :=
  merge_sort Z.ge
    ((filter (fun key : string * Z => key.1 = task /\ key.2 <> at_) (map_to_list (sd_occurrences s)).*1).*2).
(** [LIMIT -1 OFFSET 99] *)
Definition beyond_retention (s : ScheduledStore) (task : ScheduledTaskId) (at_ : Z) : list Z :=
  drop (MAX_SCHEDULED_TASK_HISTORY_ENTRIES - 1) (other_times s task at_).

(** A run the retention keeps: it is active, or its worktree is still linked. *)
Definition protected (r : ScheduledRun) : bool := active r || bool_decide (is_Some (rn_worktree_task_id r)).

(** The runs the first statement deletes. *)
Definition droppable (task : ScheduledTaskId) (times : list Z) (r : ScheduledRun) : Prop :=
  oc_task_id (rn_occurrence r) = task /\ oc_scheduled_at (rn_occurrence r) ∈ times /\ protected r = false.
#[export] Instance droppable_dec task times r : Decision (droppable task times r).
Proof. unfold droppable. apply _. Defined.
Definition prune_runs (s : ScheduledStore) (task : ScheduledTaskId) (times : list Z) : ScheduledStore :=
  with_runs s (filter (fun p : string * ScheduledRun => ~ droppable task times p.2) (sd_runs s)).

Definition prune_oldest_history (s : ScheduledStore) (task : ScheduledTaskId) (just_inserted_at : Z) : ScheduledStore :=
  let times := beyond_retention s task just_inserted_at in
  let s := prune_runs s task times in
  with_occurrences s (filter (fun p : (string * Z) * OccurrenceRow =>
    ~ (p.1.1 = task /\ p.1.2 ∈ times
       /\ existsb (fun r => bool_decide (run_key r = p.1) && protected r) (run_list s) = false)) (sd_occurrences s)).

Definition resolve_scheduled_occurrence (c : ScheduledOccurrenceCandidate) (s : ScheduledStore) :
    db (ScheduledOccurrenceResolution * ScheduledStore) :=
  let o := candidate_occurrence c in
  match sd_occurrences s !! occurrence_key o with
  | Some row => resolution ← load_existing_resolution s o row; Ok (resolution, s)
  | None =>
      _ ← require_row (bool_decide (is_Some (sd_tasks s !! oc_task_id o)));
      let s := with_occurrences s (<[occurrence_key o := candidate_columns c]> (sd_occurrences s)) in
      match c with
      | CandidateRun run =>
          let admitted := with_status run (admission_status s (oc_task_id o)) in
          s ← insert_scheduled_run s admitted;
          Ok (AdmittedRun admitted, prune_oldest_history s (oc_task_id o) (oc_scheduled_at o))
      | CandidateMissed missed => Ok (Missed missed, prune_oldest_history s (oc_task_id o) (oc_scheduled_at o))
      end
  end.

(** ** History *)

Inductive ScheduledTaskHistoryEntry : Type :=
| EntryRun (run : ScheduledRun)
| EntryMissed (missed : ScheduledMissedOccurrence).

Definition history_entry (s : ScheduledStore) (key : string * Z) (row : OccurrenceRow) : db ScheduledTaskHistoryEntry :=
  match ow_outcome row with
  | OutcomeAccepted => run ← ok_or (run_at s key) QueryReturnedNoRows; Ok (EntryRun run)
  | OutcomeMissed reason =>
      Ok (EntryMissed {| ms_occurrence := {| oc_task_id := key.1; oc_scheduled_at := key.2 |}; ms_reason := reason;
                         ms_observed_at := ow_observed_at row |})
  end.
Definition later_key (p q : (string * Z) * OccurrenceRow) : Prop := p.1.2 >= q.1.2.
#[export] Instance later_key_dec : RelDecision later_key.
Proof. intros p q. unfold later_key. apply _. Defined.
Definition list_scheduled_task_history (task : ScheduledTaskId) (s : ScheduledStore) : db (list ScheduledTaskHistoryEntry) :=
  traverse (fun p : (string * Z) * OccurrenceRow => history_entry s p.1 p.2)
    (merge_sort later_key (filter (fun p => p.1.1 = task) (map_to_list (sd_occurrences s)))).

(** ** Lifecycle *)

Definition fail_interrupted_scheduled_runs (interrupted_at : Z) (s : ScheduledStore) : nat * ScheduledStore :=
  (length (runs_where active s),
   with_runs s ((fun r => if active r
     then with_lifecycle r RunFailed (rn_session_id r) (rn_worktree_path r) (rn_worktree_task_id r)
            (Some ExecutionError) interrupted_at
     else r) <$> sd_runs s)).

(** [ORDER BY updated_at, id] *)
Definition older_run (p q : ScheduledRun) : Prop :=
  cmp_pair Z.compare str_cmp (rn_updated_at p, rn_id p) (rn_updated_at q, rn_id q) <> Gt.
#[export] Instance older_run_dec : RelDecision older_run.
Proof. intros p q. unfold older_run. apply _. Defined.
Definition list_scheduled_runs_with_retained_worktrees (s : ScheduledStore) : list ScheduledRun :=
  merge_sort older_run (runs_where (fun r => negb (active r) && bool_decide (is_Some (rn_worktree_task_id r))) s).

Definition update_run (run_id : ScheduledRunId) (f : ScheduledRun -> ScheduledRun) (s : ScheduledStore) : ScheduledStore :=
  with_runs s (alter f run_id (sd_runs s)).

Definition clear_retained_worktree_link (run_id : ScheduledRunId) (s : ScheduledStore) : ScheduledStore :=
  update_run run_id (fun r => with_lifecycle r (rn_status r) (rn_session_id r) (rn_worktree_path r) None
                                (rn_failure_reason r) (rn_updated_at r)) s.

Definition annotate_scheduled_run_verdict (run_id : ScheduledRunId) (v : ScheduledRunVerdict) (detail : option string)
    (annotated_at : Z) (s : ScheduledStore) : bool * ScheduledStore :=
  match sd_runs s !! run_id with
  | Some r =>
      if bool_decide (rn_status r = RunSucceeded)
      then (true, update_run run_id (fun r => with_verdict r (Some v) detail (Some annotated_at)) s)
      else (false, s)
  | None => (false, s)
  end.

Inductive ScheduledRunTransitionResolution : Type :=
| RunUpdated (run : ScheduledRun)
| RunNotFound
| RunInvalidState (run : ScheduledRun).

(** The transaction is immediate: nothing comes between the read and the write.  Whether the database
    carries it out ([commits]) is an argument; a failed one is rolled back. *)
Definition transition_scheduled_run (commits : bool) (run_id : ScheduledRunId) (t : ScheduledRunTransition) (transitioned_at : Z)
    (s : ScheduledStore) : db (ScheduledRunTransitionResolution * ScheduledStore) :=
  _ ← require_row commits;
  match sd_runs s !! run_id with
  | None => Ok (RunNotFound, s)
  | Some run =>
      match run_transition run t transitioned_at with
      | None => Ok (RunInvalidState run, s)
      | Some run' => Ok (RunUpdated run', update_run run_id (fun _ => run') s)
      end
  end.

(** The ownership commit ([commit_scheduled_run_worktree] of [task_workspace.rs]): whether the project
    is visible and whether the rows of the other tables commit are arguments. *)
Inductive WorkspaceCommitOutcome : Type := ProjectNotVisible | RunNotAdmissible | Committed.
Definition commit_run_worktree (project_visible rows_commit : bool) (run_id : ScheduledRunId) (task_id : TaskId)
    (worktree_path : string) (project_id : ProjectId) (now : Z) (s : ScheduledStore) :
    db (WorkspaceCommitOutcome * ScheduledStore) :=
  if negb project_visible then Ok (ProjectNotVisible, s)
  else
    match sd_runs s !! run_id with
    | Some r =>
        if bool_decide (rn_status r = RunAccepted) && bool_decide (sp_project_id (rn_snapshot r) = project_id)
           && bool_decide (rn_worktree_task_id r = None)
        then
          _ ← require_row rows_commit;
          Ok (Committed, update_run run_id (fun r =>
                with_lifecycle r (rn_status r) (rn_session_id r) (Some worktree_path) (Some task_id)
                  (rn_failure_reason r) now) s)
        else Ok (RunNotAdmissible, s)
    | None => Ok (RunNotAdmissible, s)
    end.

(** ** Definitions *)

Definition serialize_revision (revision : N) : db unit :=
  reject_if (i64_max <? Z.of_N revision) (CorruptScheduledTaskRevision (of_N revision)).

(** [deserialize_schedule], after serde. *)
Definition revalidate_schedule (s : ScheduledTaskSchedule) : result DomainModelError ScheduledTaskSchedule :=
  match s with
  | EveryHours interval => every_hours interval
  | Daily hour minute => daily hour minute
  | Weekly weekdays hour minute => weekly weekdays hour minute
  end.

(** [map_scheduled_task_row]: the stored columns are validated again. *)
Definition map_scheduled_task_row (t : ScheduledTask) : db ScheduledTask :=
  schedule ← map_err DomainError (revalidate_schedule (sk_schedule t));
  revision ← revision_of (Z.of_N (sk_revision t));
  let columns := approval_columns (sk_approval t) in
  approval ← map_approval_columns columns.1 columns.2;
  agent_ref ← map_err DomainError (agent_ref_parse (sk_agent_ref t));
  task ← map_err DomainError
    (new_scheduled_task (sk_id t) (sk_name t) (sk_enabled t) schedule (sk_execution_location t) (sk_project_id t)
       agent_ref (sk_model t) (sk_prompt t) approval (sk_audit_fields t));
  Ok (with_branch (with_anchor (with_revision task revision) (sk_schedule_anchor_at t)) (sk_worktree_base_branch t)).

Definition task_checks (t : ScheduledTask) : bool := (1 <=? sk_revision t)%N && approval_check (sk_approval t).

Definition create_scheduled_task (t : ScheduledTask) (s : ScheduledStore) : db (ScheduledTask * ScheduledStore) :=
  _ ← serialize_revision (sk_revision t);
  _ ← require_row (bool_decide (sd_tasks s !! sk_id t = None));
  _ ← require_row (bool_decide (sk_project_id t ∈ sd_projects s));
  _ ← require_row (task_checks t);
  Ok (t, with_tasks s (<[sk_id t := t]> (sd_tasks s))).

Definition visible (t : ScheduledTask) : bool := negb (is_deleted (sk_audit_fields t)).

Definition find_scheduled_task (task_id : ScheduledTaskId) (s : ScheduledStore) : db (option ScheduledTask) :=
  match sd_tasks s !! task_id with
  | Some t => if visible t then Some <$> map_scheduled_task_row t else Ok None
  | None => Ok None
  end.

(** [ORDER BY created_at, id] *)
Definition older_task (p q : ScheduledTask) : Prop :=
  cmp_pair Z.compare str_cmp (created_at (sk_audit_fields p), sk_id p) (created_at (sk_audit_fields q), sk_id q) <> Gt.
#[export] Instance older_task_dec : RelDecision older_task.
Proof. intros p q. unfold older_task. apply _. Defined.
Definition list_scheduled_tasks (s : ScheduledStore) : db (list ScheduledTask) :=
  traverse map_scheduled_task_row
    (merge_sort older_task (filter (fun t => visible t = true) (map_to_list (sd_tasks s)).*2)).

Inductive ScheduledTaskUpdateResolution : Type :=
| TaskUpdated (task : ScheduledTask)
| TaskNotFound
| TaskConflict.

(** The columns an update writes: not the identity, the location, the creation time nor the
    deletion mark. *)
Definition updated_task (row t : ScheduledTask) : ScheduledTask :=
  {| sk_id := sk_id row; sk_name := sk_name t; sk_enabled := sk_enabled t; sk_schedule := sk_schedule t;
     sk_execution_location := sk_execution_location row; sk_project_id := sk_project_id t;
     sk_agent_ref := sk_agent_ref t; sk_model := sk_model t; sk_prompt := sk_prompt t; sk_revision := sk_revision t;
     sk_approval := sk_approval t; sk_schedule_anchor_at := sk_schedule_anchor_at t;
     sk_worktree_base_branch := sk_worktree_base_branch t;
     sk_audit_fields := {| created_at := created_at (sk_audit_fields row);
                           updated_at := updated_at (sk_audit_fields t);
                           is_deleted := is_deleted (sk_audit_fields row) |} |}.

(** The statement; its outcome is committed before the definition is read back. *)
Definition update_task_row (t : ScheduledTask) (expected_updated_at : Z) (s : ScheduledStore) :
    db (bool * ScheduledStore) :=
  _ ← serialize_revision (sk_revision t);
  match sd_tasks s !! sk_id t with
  | Some row =>
      if visible row && bool_decide (updated_at (sk_audit_fields row) = expected_updated_at)
      then
        _ ← require_row (bool_decide (sk_project_id t ∈ sd_projects s) && task_checks t);
        Ok (true, with_tasks s (<[sk_id t := updated_task row t]> (sd_tasks s)))
      else Ok (false, s)
  | None => Ok (false, s)
  end.
Definition update_scheduled_task (t : ScheduledTask) (expected_updated_at : Z) (s : ScheduledStore) :
    db ScheduledTaskUpdateResolution * ScheduledStore :=
  match update_task_row t expected_updated_at s with
  | Err e => (Err e, s)
  | Ok (updated, s) =>
      (found ← find_scheduled_task (sk_id t) s;
       Ok match updated, found with
          | true, Some task => TaskUpdated task
          | false, Some _ => TaskConflict
          | _, None => TaskNotFound
          end, s)
  end.

Definition soft_delete_scheduled_task (task_id : ScheduledTaskId) (deleted_at : Z) (s : ScheduledStore) :
    bool * ScheduledStore :=
  match sd_tasks s !! task_id with
  | Some t =>
      if visible t
      then (true, with_tasks s (<[task_id :=
        {| sk_id := sk_id t; sk_name := sk_name t; sk_enabled := false; sk_schedule := sk_schedule t;
           sk_execution_location := sk_execution_location t; sk_project_id := sk_project_id t;
           sk_agent_ref := sk_agent_ref t; sk_model := sk_model t; sk_prompt := sk_prompt t;
           sk_revision := sk_revision t; sk_approval := sk_approval t;
           sk_schedule_anchor_at := sk_schedule_anchor_at t; sk_worktree_base_branch := sk_worktree_base_branch t;
           sk_audit_fields := {| created_at := created_at (sk_audit_fields t); updated_at := deleted_at;
                                 is_deleted := true |} |}]> (sd_tasks s)))
      else (false, s)
  | None => (false, s)
  end.
