(* ===== verification/ScheduledLaws.v ===== *)
(** * What the scheduled-task tables keep

    The invariant of the tables after any history of transactions, what a transaction may do to an
    occurrence and its run, the replay of a resolution and the bound of a task's history. *)

From stdpp Require Import fin_maps.
From S2P Require Import Prelude RustStr Order ScheduledTask ScheduledRun ScheduledStore.
Local Open Scope ora_scope.
Local Open Scope Z_scope.

(** ** Counting *)

Lemma elem_of_run_list s r : r ∈ run_list s <-> exists id, sd_runs s !! id = Some r.
Proof.
  unfold run_list. rewrite list_elem_of_fmap. split.
  - intros ([id r'] & -> & H%elem_of_map_to_list). by exists id.
  - intros [id H]. exists (id, r). by rewrite elem_of_map_to_list.
Qed.
Lemma elem_of_runs_where p s r : r ∈ runs_where p s <-> p r = true /\ exists id, sd_runs s !! id = Some r.
Proof. unfold runs_where. by rewrite list_elem_of_filter, elem_of_run_list. Qed.

Definition run_ids (p : ScheduledRun -> bool) (s : ScheduledStore) : gset string :=
  dom (filter (fun kv : string * ScheduledRun => p kv.2 = true) (sd_runs s)).
Lemma elem_of_run_ids p s id : id ∈ run_ids p s <-> exists r, sd_runs s !! id = Some r /\ p r = true.
Proof.
  unfold run_ids. rewrite elem_of_dom. unfold is_Some. setoid_rewrite map_lookup_filter_Some. naive_solver.
Qed.

Lemma runs_where_size p s : length (runs_where p s) = size (run_ids p s).
Proof.
  unfold runs_where, run_list, run_ids. rewrite filter_snd, length_fmap.
  rewrite size_dom. rewrite <-length_map_to_list. apply Permutation_length. symmetry. apply map_to_list_filtered.
Qed.

Lemma runs_where_le p q s s' : (forall id r', sd_runs s' !! id = Some r' -> p r' = true ->
    exists r, sd_runs s !! id = Some r /\ q r = true) ->
  (length (runs_where p s') <= length (runs_where q s))%nat.
Proof.
  intros H. rewrite !runs_where_size. apply subseteq_size. intros id (r & Hr & Hp)%elem_of_run_ids.
  apply elem_of_run_ids. by apply (H id r).
Qed.

Lemma runs_where_nil p s : runs_where p s = [] <-> forall id r, sd_runs s !! id = Some r -> p r = false.
Proof.
  split.
  - intros Hn id r Hr. destruct (p r) eqn:E; [|done]. exfalso. apply (not_elem_of_nil r). rewrite <-Hn.
    apply elem_of_runs_where. eauto.
  - intros H. destruct (runs_where p s) as [|r l] eqn:E; [done|]. exfalso.
    assert (r ∈ runs_where p s) as (Hp & id & Hr)%elem_of_runs_where by (rewrite E; set_solver).
    specialize (H _ _ Hr). congruence.
Qed.

(** ** The invariant *)

Definition verdict_ok (r : ScheduledRun) : Prop := is_Some (rn_verdict r) -> rn_status r = RunSucceeded.

Record sched_ok (s : ScheduledStore) : Prop := {
  so_keyed : forall id r, sd_runs s !! id = Some r -> rn_id r = id;
  so_run_occurrence : forall id r, sd_runs s !! id = Some r ->
    exists row, sd_occurrences s !! run_key r = Some row /\ ow_outcome row = OutcomeAccepted;
  so_occurrence_run : forall key row, sd_occurrences s !! key = Some row -> ow_outcome row = OutcomeAccepted ->
    exists id r, sd_runs s !! id = Some r /\ run_key r = key;
  so_unique : forall id1 r1 id2 r2, sd_runs s !! id1 = Some r1 -> sd_runs s !! id2 = Some r2 ->
    run_key r1 = run_key r2 -> id1 = id2;
  so_capacity : (length (runs_where active s) <= MAX_CONCURRENT_LOCAL_SCHEDULED_RUNS)%nat;
  so_single : forall id1 r1 id2 r2, sd_runs s !! id1 = Some r1 -> sd_runs s !! id2 = Some r2 ->
    active r1 = true -> active r2 = true ->
    oc_task_id (rn_occurrence r1) = oc_task_id (rn_occurrence r2) -> id1 = id2;
  so_reason : forall id r, sd_runs s !! id = Some r -> reason_ok r;
  so_verdict : forall id r, sd_runs s !! id = Some r -> verdict_ok r;
}.

(** ** Updates of runs *)

(** What a transaction may change of a run that stays. *)
Record advances_run (r r' : ScheduledRun) : Prop := {
  ar_id : rn_id r' = rn_id r;
  ar_occurrence : rn_occurrence r' = rn_occurrence r;
  ar_snapshot : rn_snapshot r' = rn_snapshot r;
  ar_created : rn_created_at r' = rn_created_at r;
  ar_active : active r' = true -> active r = true;
  ar_final : active r = false -> rn_status r' = rn_status r /\ rn_failure_reason r' = rn_failure_reason r;
  ar_reason : reason_ok r -> reason_ok r';
  ar_verdict : verdict_ok r -> verdict_ok r';
}.
#[export] Instance advances_run_preorder : PreOrder advances_run.
Proof.
  split; [by constructor|]. intros x y z [] []. constructor; try congruence; auto.
  intros Hx. destruct (ar_final0 Hx) as [H1 H2].
  assert (active y = false) as Hy by (unfold active in *; congruence).
  destruct (ar_final1 Hy). split; congruence.
Qed.

(** Only runs change, and each of them advances. *)
Record run_step (s s' : ScheduledStore) : Prop := {
  st_occurrences : sd_occurrences s' = sd_occurrences s;
  st_tasks : sd_tasks s' = sd_tasks s;
  st_forward : forall id r, sd_runs s !! id = Some r -> exists r', sd_runs s' !! id = Some r' /\ advances_run r r';
  st_backward : forall id r', sd_runs s' !! id = Some r' -> exists r, sd_runs s !! id = Some r /\ advances_run r r';
}.

Lemma run_step_ok s s' : run_step s s' -> sched_ok s -> sched_ok s'.
Proof.
  intros Hst Hok.
  assert (forall r r', advances_run r r' -> run_key r' = run_key r) as Hkey
    by (intros r r' H; unfold run_key; by rewrite (ar_occurrence _ _ H)).
  constructor.
  - intros id r' (r & Hr & Ha)%(st_backward _ _ Hst). rewrite (ar_id _ _ Ha). by apply (so_keyed _ Hok).
  - intros id r' (r & Hr & Ha)%(st_backward _ _ Hst). rewrite (Hkey _ _ Ha), (st_occurrences _ _ Hst).
    by apply (so_run_occurrence _ Hok id).
  - intros key row Hrow Ha. rewrite (st_occurrences _ _ Hst) in Hrow.
    destruct (so_occurrence_run _ Hok _ _ Hrow Ha) as (id & r & Hr & Hk).
    destruct (st_forward _ _ Hst _ _ Hr) as (r' & Hr' & Hadv). exists id, r'. by rewrite (Hkey _ _ Hadv).
  - intros id1 r1' id2 r2' (r1 & H1 & A1)%(st_backward _ _ Hst) (r2 & H2 & A2)%(st_backward _ _ Hst).
    rewrite (Hkey _ _ A1), (Hkey _ _ A2). by apply (so_unique _ Hok).
  - etransitivity; [|apply (so_capacity _ Hok)]. apply runs_where_le.
    intros id r' (r & Hr & Ha)%(st_backward _ _ Hst) Hact. exists r. split; [done|]. by apply (ar_active _ _ Ha).
  - intros id1 r1' id2 r2' (r1 & H1 & A1)%(st_backward _ _ Hst) (r2 & H2 & A2)%(st_backward _ _ Hst) B1 B2.
    rewrite (ar_occurrence _ _ A1), (ar_occurrence _ _ A2).
    apply (so_single _ Hok _ _ _ _ H1 H2); [by apply (ar_active _ _ A1)|by apply (ar_active _ _ A2)].
  - intros id r' (r & Hr & Ha)%(st_backward _ _ Hst). apply (ar_reason _ _ Ha), (so_reason _ Hok _ _ Hr).
  - intros id r' (r & Hr & Ha)%(st_backward _ _ Hst). apply (ar_verdict _ _ Ha), (so_verdict _ Hok _ _ Hr).
Qed.

Lemma run_step_refl s : run_step s s.
Proof. constructor; [done..| |]; intros id r Hr; exists r; split; done || reflexivity. Qed.

Lemma update_run_step id f s : (forall r, sd_runs s !! id = Some r -> advances_run r (f r)) ->
  run_step s (update_run id f s).
Proof.
  intros Hf. constructor; [done|done| |]; simpl; intros i r Hr.
  - destruct (decide (i = id)) as [->|Hne].
    + exists (f r). rewrite lookup_alter_eq, Hr. split; [done|by apply Hf].
    + exists r. rewrite lookup_alter_ne by done. split; [done|reflexivity].
  - destruct (decide (i = id)) as [->|Hne].
    + rewrite lookup_alter_eq in Hr. destruct (sd_runs s !! id) as [x|] eqn:E; [|done].
      injection Hr as <-. exists x. split; [done|by apply Hf].
    + rewrite lookup_alter_ne in Hr by done. exists r. split; [done|reflexivity].
Qed.

Definition interrupted (at_ : Z) (r : ScheduledRun) : ScheduledRun :=
  if active r
  then with_lifecycle r RunFailed (rn_session_id r) (rn_worktree_path r) (rn_worktree_task_id r)
         (Some ExecutionError) at_
  else r.

(** A run that leaves the active states without a verdict. *)
Lemma lifecycle_advances r status session path task reason at_ :
  (run_is_active status = true -> active r = true) ->
  (active r = false -> status = rn_status r /\ reason = rn_failure_reason r) ->
  (status = RunFailed <-> is_Some reason) \/ (status = rn_status r /\ reason = rn_failure_reason r) ->
  (is_Some (rn_verdict r) -> rn_status r = RunSucceeded -> status = RunSucceeded) ->
  advances_run r (with_lifecycle r status session path task reason at_).
Proof.
  intros Ha Hf Hr Hv. constructor; try done; simpl.
  - intros Hok. unfold reason_ok in *. simpl. destruct Hr as [Hr|[-> ->]]; done.
  - unfold verdict_ok. simpl. intros Hok Hs. by apply Hv, Hok.
Qed.

Lemma interrupted_advances at_ r : advances_run r (interrupted at_ r).
Proof.
  unfold interrupted. destruct (active r) eqn:E; [|reflexivity]. apply lifecycle_advances; simpl.
  - done.
  - congruence.
  - left. split; [by eexists|done].
  - intros _ H. unfold active in E. by rewrite H in E.
Qed.

Lemma run_transition_advances r t at_ r' : run_transition r t at_ = Some r' -> advances_run r r'.
Proof.
  intros H. pose proof (run_transition_frame _ _ _ _ H) as (H1 & H2 & H3 & H4 & H5).
  pose proof (run_transition_status _ _ _ _ H) as [Ha Hs]. constructor; try done.
  - unfold active. intros Hf. congruence.
  - intros _. by eapply run_transition_reason.
  - unfold verdict_ok. rewrite H5. intros Hok Hv. specialize (Hok Hv). by rewrite Hok in Ha.
Qed.

Lemma fail_interrupted_step at_ s : run_step s (fail_interrupted_scheduled_runs at_ s).2.
Proof.
  constructor; [done|done| |]; simpl; intros id r; rewrite lookup_fmap; fold (interrupted at_).
  - intros ->. eexists. split; [done|apply interrupted_advances].
  - destruct (sd_runs s !! id) as [x|]; [|done]. intros [= <-]. exists x. split; [done|apply interrupted_advances].
Qed.

Lemma transition_step commits id t at_ s res s' :
  transition_scheduled_run commits id t at_ s = Ok (res, s') -> run_step s s'.
Proof.
  unfold transition_scheduled_run. intros (_ & _ & H)%bind_Ok. revert H.
  destruct (sd_runs s !! id) as [r|] eqn:Hr; [|intros [= _ <-]; apply run_step_refl].
  destruct (run_transition r t at_) as [r'|] eqn:Ht; intros [= _ <-]; [|apply run_step_refl].
  apply update_run_step. intros x Hx. rewrite Hr in Hx. injection Hx as <-. by eapply run_transition_advances.
Qed.

Lemma clear_link_step id s : run_step s (clear_retained_worktree_link id s).
Proof. apply update_run_step. intros r _. apply lifecycle_advances; try done. by right. Qed.

Lemma annotate_step id v detail at_ s : run_step s (annotate_scheduled_run_verdict id v detail at_ s).2.
Proof.
  unfold annotate_scheduled_run_verdict. destruct (sd_runs s !! id) as [r|] eqn:Hr; [|apply run_step_refl].
  case_bool_decide as Hst; [|apply run_step_refl]. apply update_run_step. intros x Hx.
  rewrite Hr in Hx. injection Hx as <-. constructor; try done. by intros _ _.
Qed.

Lemma commit_step visible commits id task path project now s o s' :
  commit_run_worktree visible commits id task path project now s = Ok (o, s') -> run_step s s'.
Proof.
  unfold commit_run_worktree. destruct (negb visible); [intros [= _ <-]; apply run_step_refl|].
  destruct (sd_runs s !! id) as [r|] eqn:Hr; [|intros [= _ <-]; apply run_step_refl].
  destruct (_ && _); [|intros [= _ <-]; apply run_step_refl].
  intros (u & _ & [= _ <-])%bind_Ok. apply update_run_step. intros x _. apply lifecycle_advances; try done. by right.
Qed.

(** ** Pruning *)

Section prune.
Context (s : ScheduledStore) (task : ScheduledTaskId) (at_ : Z).
Local Notation times := (beyond_retention s task at_).

Lemma prune_run id r : sd_runs (prune_oldest_history s task at_) !! id = Some r <->
  sd_runs s !! id = Some r /\ ~ droppable task times r.
Proof. unfold prune_oldest_history. simpl. rewrite map_lookup_filter_Some. done. Qed.

Lemma prune_occurrence key row : sd_occurrences (prune_oldest_history s task at_) !! key = Some row <->
  sd_occurrences s !! key = Some row
  /\ (key.1 = task -> key.2 ∈ times -> exists id r, sd_runs s !! id = Some r /\ run_key r = key /\ protected r = true).
Proof.
  set (s1 := prune_runs s task times).
  assert (existsb (fun r => bool_decide (run_key r = key) && protected r) (run_list s1) = true <->
    exists id r, sd_runs s !! id = Some r /\ run_key r = key /\ protected r = true) as Hex.
  { rewrite existsb_True. setoid_rewrite elem_of_run_list. setoid_rewrite andb_true_iff.
    setoid_rewrite bool_decide_eq_true. unfold s1. simpl. setoid_rewrite map_lookup_filter_Some. split.
    - intros (r & (id & H1 & _) & H2 & H3). by exists id, r.
    - intros (id & r & H1 & H2 & H3). exists r. split; [|done]. exists id. split; [done|].
      intros (_ & _ & H). simpl in H. congruence. }
  unfold prune_oldest_history. cbn [sd_occurrences with_occurrences]. rewrite map_lookup_filter_Some. fold s1.
  change (sd_occurrences s1) with (sd_occurrences s). simpl fst. rewrite <-Hex.
  destruct (existsb _ (run_list s1)); split; intros [H1 H2]; (split; [done|]); try done.
  - intros (_ & _ & ?). done.
  - intros H3 H4. exfalso. by apply H2.
  - intros (H3 & H4 & _). by specialize (H2 H3 H4).
Qed.

Lemma prune_ok : sched_ok s -> sched_ok (prune_oldest_history s task at_).
Proof.
  intros Hok. constructor.
  - intros id r [Hr _]%prune_run. by apply (so_keyed _ Hok).
  - intros id r [Hr Hnd]%prune_run. destruct (so_run_occurrence _ Hok _ _ Hr) as (row & Hrow & Ha).
    exists row. split; [|done]. apply prune_occurrence. split; [done|]. intros H1 H2. exists id, r. split_and!; [done..|].
    destruct (protected r) eqn:E; [done|]. exfalso. by apply Hnd.
  - intros key row [Hrow Hkeep]%prune_occurrence Ha.
    destruct (so_occurrence_run _ Hok _ _ Hrow Ha) as (id & r & Hr & <-). exists id, r. split; [|done].
    apply prune_run. split; [done|]. intros (H1 & H2 & H3). destruct (Hkeep H1 H2) as (id' & r' & Hr' & Hk & Hp).
    assert (id' = id) as -> by (by eapply (so_unique _ Hok)). congruence.
  - intros id1 r1 id2 r2 [H1 _]%prune_run [H2 _]%prune_run. by apply (so_unique _ Hok).
  - etransitivity; [|apply (so_capacity _ Hok)]. apply runs_where_le. intros id r [Hr _]%prune_run Ha. by exists r.
  - intros id1 r1 id2 r2 [H1 _]%prune_run [H2 _]%prune_run. by apply (so_single _ Hok).
  - intros id r [Hr _]%prune_run. by apply (so_reason _ Hok id).
  - intros id r [Hr _]%prune_run. by apply (so_verdict _ Hok id).
Qed.
End prune.

(** ** Resolving an occurrence *)

(** A row of the occurrence table that holds no run yet. *)
Definition record_occurrence (c : ScheduledOccurrenceCandidate) (s : ScheduledStore) : ScheduledStore :=
  with_occurrences s (<[occurrence_key (candidate_occurrence c) := candidate_columns c]> (sd_occurrences s)).

Lemma insert_run_inv s run s' : insert_scheduled_run s run = Ok s' ->
  sd_runs s !! rn_id run = None
  /\ (forall id r, sd_runs s !! id = Some r -> run_key r <> run_key run)
  /\ (is_Some (rn_failure_reason run) -> rn_status run = RunFailed)
  /\ s' = with_runs s (<[rn_id run := with_verdict run None None None]> (sd_runs s)).
Proof.
  unfold insert_scheduled_run, require_row. intros (u & _ & H)%bind_Ok.
  apply bind_Ok in H as (u1 & H1%reject_if_Ok & H). apply bind_Ok in H as (u2 & H2%reject_if_Ok & H).
  apply bind_Ok in H as (u3 & _ & H). apply bind_Ok in H as (u4 & H4%reject_if_Ok & [= <-]).
  apply negb_false_iff in H1, H2, H4. apply bool_decide_eq_true in H1. split_and!; [done| | |done].
  - intros id r Hr Hk. apply negb_true_iff in H2. pose proof (proj1 (existsb_False _ _) H2) as Hf.
    rewrite Forall_forall in Hf. specialize (Hf r ltac:(apply elem_of_run_list; by exists id)).
    by apply bool_decide_eq_false in Hf.
  - unfold run_checks in H4. apply andb_true_iff in H4 as [_ H4]. intros [x Hx]. rewrite Hx in H4.
    by apply bool_decide_eq_true in H4.
Qed.

Lemma admission_cases s task :
  (admission_status s task = RunAccepted /\ (length (runs_where active s) < MAX_CONCURRENT_LOCAL_SCHEDULED_RUNS)%nat
     /\ forall id r, sd_runs s !! id = Some r -> active r = true -> oc_task_id (rn_occurrence r) <> task)
  \/ (run_is_active (admission_status s task) = false /\ admission_status s task <> RunFailed).
Proof.
  unfold admission_status. destruct (0 <? _)%nat eqn:E1; [by right|]. destruct (_ <=? _)%nat eqn:E2; [by right|].
  left. apply Nat.ltb_ge in E1. apply Nat.leb_gt in E2. split_and!; [done|done|]. intros id r Hr Ha Ht.
  assert (runs_where (fun r => of_task task r && active r) s = []) as Hn
    by (apply length_zero_iff_nil; lia).
  rewrite runs_where_nil in Hn. specialize (Hn _ _ Hr). unfold of_task in Hn.
  rewrite Ha, bool_decide_eq_true_2 in Hn by done. done.
Qed.

Lemma admit_ok s run s' (c := CandidateRun run) (task := oc_task_id (rn_occurrence run)) :
  sched_ok s -> sd_occurrences s !! run_key run = None ->
  insert_scheduled_run (record_occurrence c s) (with_status run (admission_status (record_occurrence c s) task))
    = Ok s' -> sched_ok s'.
Proof.
  intros Hok Hnone Hins. set (s1 := record_occurrence c s) in *.
  set (run' := with_status run (admission_status s1 task)) in *.
  apply insert_run_inv in Hins as (Hid & Hkeys & Hreason & ->).
  assert (forall id r, <[rn_id run' := with_verdict run' None None None]> (sd_runs s1) !! id = Some r ->
    (id = rn_id run' /\ r = with_verdict run' None None None) \/ (id <> rn_id run' /\ sd_runs s !! id = Some r)) as Hlk.
  { intros id r [[<- <-]|[? ?]]%lookup_insert_Some; [by left|by right]. }
  assert (forall id r, sd_runs s !! id = Some r -> id <> rn_id run') as Hfresh
    by (intros id r Hr ->; change (sd_runs s1) with (sd_runs s) in Hid; congruence).
  pose proof (admission_cases s1 task) as Hadm. constructor; simpl.
  - intros id r [[-> ->]|[_ Hr]]%Hlk; [done|]. by apply (so_keyed _ Hok).
  - intros id r [[-> ->]|[_ Hr]]%Hlk.
    + exists (candidate_columns c). split; [|done]. apply lookup_insert_eq.
    + destruct (so_run_occurrence _ Hok _ _ Hr) as (row & Hrow & Ha). exists row. split; [|done].
      rewrite lookup_insert_ne; [done|]. intros Heq. change (run_key run = run_key r) in Heq. congruence.
  - intros key row [[<- <-]|[Hne Hrow]]%lookup_insert_Some Ha.
    + exists (rn_id run'), (with_verdict run' None None None). split; [apply lookup_insert_eq|done].
    + destruct (so_occurrence_run _ Hok _ _ Hrow Ha) as (id & r & Hr & Hk). exists id, r. split; [|done].
      rewrite lookup_insert_ne; [done|]. intros Heq. by apply (Hfresh _ _ Hr).
  - intros id1 r1 id2 r2 [[-> ->]|[_ H1]]%Hlk [[-> ->]|[_ H2]]%Hlk Hk; [done| | |].
    + exfalso. by apply (Hkeys id2 r2 H2).
    + exfalso. by apply (Hkeys id1 r1 H1).
    + by eapply (so_unique _ Hok).
  - destruct Hadm as [(Hst & Hlt & _)|[Hst _]].
    + rewrite runs_where_size. rewrite runs_where_size in Hlt.
      assert (run_ids active (with_runs s1 (<[rn_id run' := with_verdict run' None None None]> (sd_runs s1)))
        ⊆ {[rn_id run']} ∪ run_ids active s1) as Hsub.
      { intros id (r & [[-> ->]|[_ Hr]]%Hlk & Ha)%elem_of_run_ids; [set_solver|].
        apply elem_of_union_r, elem_of_run_ids. by exists r. }
      apply subseteq_size in Hsub. pose proof (size_union_alt {[rn_id run']} (run_ids active s1)) as Hu.
      rewrite Hu, size_singleton in Hsub. etransitivity; [exact Hsub|].
      assert (size (run_ids active s1 ∖ {[rn_id run']}) <= size (run_ids active s1))%nat
        by (apply subseteq_size; set_solver). lia.
    + etransitivity; [|apply (so_capacity _ Hok)]. apply runs_where_le.
      intros id r [[-> ->]|[_ Hr]]%Hlk Ha; [|by exists r]. unfold active in Ha. simpl in Ha. congruence.
  - intros id1 r1 id2 r2 [[-> ->]|[_ H1]]%Hlk [[-> ->]|[_ H2]]%Hlk A1 A2 Ht; [done| | |by eapply (so_single _ Hok)].
    + exfalso. destruct Hadm as [(_ & _ & Hno)|[Hst _]]; [by apply (Hno id2 r2)|]. unfold active in A1. simpl in A1. congruence.
    + exfalso. destruct Hadm as [(_ & _ & Hno)|[Hst _]]; [by apply (Hno id1 r1)|]. unfold active in A2. simpl in A2. congruence.
  - intros id r [[-> ->]|[_ Hr]]%Hlk; [|by apply (so_reason _ Hok id)]. unfold reason_ok. simpl. split.
    + intros Hf. destruct Hadm as [(Hst & _)|[_ Hst]]; congruence.
    + intros Hs. by apply Hreason.
  - intros id r [[-> ->]|[_ Hr]]%Hlk; [|by apply (so_verdict _ Hok id)]. unfold verdict_ok. simpl. by intros [? ?].
Qed.

Lemma record_missed_ok s m : sched_ok s -> sd_occurrences s !! occurrence_key (ms_occurrence m) = None ->
  sched_ok (record_occurrence (CandidateMissed m) s).
Proof.
  intros Hok Hnone. destruct Hok. constructor; try done; simpl.
  - intros id r Hr. destruct (so_run_occurrence0 _ _ Hr) as (row & Hrow & Ha). exists row. split; [|done].
    rewrite lookup_insert_ne; [done|]. congruence.
  - intros key row [[<- <-]|[Hne Hrow]]%lookup_insert_Some Ha; [done|]. by eapply so_occurrence_run0.
Qed.

(** The outcomes of a resolution. *)
Lemma resolve_inv c s res s' : resolve_scheduled_occurrence c s = Ok (res, s') ->
  (exists row, sd_occurrences s !! occurrence_key (candidate_occurrence c) = Some row
     /\ load_existing_resolution s (candidate_occurrence c) row = Ok res /\ s' = s)
  \/ (sd_occurrences s !! occurrence_key (candidate_occurrence c) = None
      /\ exists s1, s' = prune_oldest_history s1 (oc_task_id (candidate_occurrence c)) (oc_scheduled_at (candidate_occurrence c))
      /\ match c with
         | CandidateRun run =>
             let admitted := with_status run (admission_status (record_occurrence c s) (oc_task_id (rn_occurrence run))) in
             res = AdmittedRun admitted /\ insert_scheduled_run (record_occurrence c s) admitted = Ok s1
         | CandidateMissed m => res = Missed m /\ s1 = record_occurrence c s
         end).
Proof.
  unfold resolve_scheduled_occurrence. destruct (sd_occurrences s !! _) as [row|] eqn:Hrow.
  - intros (r & Hr & [= <- <-])%bind_Ok. left. eauto.
  - intros (u & _ & H)%bind_Ok. right. split; [done|]. destruct c as [run|m].
    + apply bind_Ok in H as (s1 & Hs1 & [= <- <-]). exists s1. done.
    + injection H as <- <-. eexists. done.
Qed.

Lemma resolve_ok c s res s' : sched_ok s -> resolve_scheduled_occurrence c s = Ok (res, s') -> sched_ok s'.
Proof.
  intros Hok [(row & _ & _ & ->)|(Hnone & s1 & -> & H)]%resolve_inv; [done|]. apply prune_ok.
  destruct c as [run|m].
  - destruct H as [_ H]. by eapply admit_ok.
  - destruct H as [_ ->]. by apply record_missed_ok.
Qed.

Lemma run_at_Some s key r : sched_ok s ->
  run_at s key = Some r <-> exists id, sd_runs s !! id = Some r /\ run_key r = key.
Proof.
  intros Hok. unfold run_at. split.
  - intros H. assert (r ∈ runs_where (fun r => bool_decide (run_key r = key)) s) as
      (Hk%bool_decide_eq_true & id & Hr)%elem_of_runs_where; [|by exists id].
    destruct (runs_where _ s); [done|]. injection H as ->. set_solver.
  - intros (id & Hr & Hk). assert (r ∈ runs_where (fun r => bool_decide (run_key r = key)) s) as Hin.
    { apply elem_of_runs_where. rewrite bool_decide_eq_true. eauto. }
    destruct (runs_where _ s) as [|x l] eqn:E; [by apply not_elem_of_nil in Hin|]. simpl. f_equal.
    assert (x ∈ runs_where (fun r => bool_decide (run_key r = key)) s) as
      (Hx%bool_decide_eq_true & id' & Hr')%elem_of_runs_where by (rewrite E; set_solver).
    assert (id' = id) as -> by (eapply (so_unique _ Hok); [done..|congruence]). congruence.
Qed.

(** ** The retention bound *)

Lemma elem_of_other_times s task at_ t :
  t ∈ other_times s task at_ <-> t <> at_ /\ is_Some (sd_occurrences s !! (task, t)).
Proof.
  unfold other_times. rewrite merge_sort_Permutation, list_elem_of_fmap. split.
  - intros ([k x] & -> & [[Hk Ht] Hin]%list_elem_of_filter). simpl in *. subst. split; [done|].
    apply list_elem_of_fmap in Hin as ([key row] & Heq & Hin%elem_of_map_to_list). simpl in Heq. subst. by exists row.
  - intros [Hne [row Hrow]]. exists (task, t). split; [done|]. apply list_elem_of_filter. split; [done|].
    apply list_elem_of_fmap. exists ((task, t), row). by rewrite elem_of_map_to_list.
Qed.
Lemma other_times_NoDup s task at_ : NoDup (other_times s task at_).
Proof.
  unfold other_times. rewrite merge_sort_Permutation. apply NoDup_fmap_2_strong.
  - intros [k1 x1] [k2 x2] [[H1 _] _]%list_elem_of_filter [[H2 _] _]%list_elem_of_filter Heq. simpl in *. congruence.
  - apply NoDup_filter, NoDup_fst_map_to_list.
Qed.
Lemma other_times_sorted s task at_ : StronglySorted Z.ge (other_times s task at_).
Proof.
  apply Sorted_StronglySorted; [intros ???; lia|]. apply Sorted_merge_sort. intros x y. lia.
Qed.

Lemma elem_of_beyond s task at_ t : t ∈ beyond_retention s task at_ ->
  t <> at_ /\ is_Some (sd_occurrences s !! (task, t))
  /\ exists newer, length newer = (MAX_SCHEDULED_TASK_HISTORY_ENTRIES - 1)%nat /\ NoDup newer
     /\ forall x, x ∈ newer -> t < x /\ x <> at_ /\ is_Some (sd_occurrences s !! (task, x))
                               /\ x ∉ beyond_retention s task at_.
Proof.
  unfold beyond_retention. set (n := (MAX_SCHEDULED_TASK_HISTORY_ENTRIES - 1)%nat). set (l := other_times s task at_).
  intros Ht. assert (take n l ++ drop n l = l) as Hsplit by apply take_drop.
  pose proof (other_times_NoDup s task at_) as Hnd. pose proof (other_times_sorted s task at_) as Hs.
  fold l in Hnd, Hs. rewrite <-Hsplit in Hnd, Hs. apply NoDup_app in Hnd as (Hnd & Hdis & _).
  assert (t ∈ l) as Hl by (rewrite <-Hsplit; set_solver). apply elem_of_other_times in Hl as [H1 H2].
  split_and!; [done|done|]. exists (take n l). split_and!; [|done|].
  - rewrite length_take. assert (n < length l)%nat; [|lia]. apply list_elem_of_lookup in Ht as [i Hi].
    rewrite lookup_drop in Hi. apply lookup_lt_Some in Hi. lia.
  - intros x Hx. assert (x ∈ l) as Hxl by (rewrite <-Hsplit; set_solver).
    apply elem_of_other_times in Hxl as [H3 H4]. split_and!; [|done|done|by apply Hdis].
    assert (x >= t) as Hge by (by eapply (StronglySorted_app_1_elem_of Z.ge)).
    assert (x <> t) by (intros ->; by apply (Hdis t)). lia.
Qed.

(** ** Histories *)

Inductive ScheduledCall : Type :=
| CallResolve (c : ScheduledOccurrenceCandidate)
| CallTransition (commits : bool) (run : ScheduledRunId) (t : ScheduledRunTransition) (at_ : Z)
| CallInterrupted (at_ : Z)
| CallClearLink (run : ScheduledRunId)
| CallAnnotate (run : ScheduledRunId) (v : ScheduledRunVerdict) (detail : option string) (at_ : Z)
| CallCommit (visible commits : bool) (run : ScheduledRunId) (task : TaskId) (path : string) (project : ProjectId) (at_ : Z)
| CallCreate (t : ScheduledTask)
| CallUpdate (t : ScheduledTask) (expected : Z)
| CallDelete (task : ScheduledTaskId) (at_ : Z)
| CallProject (project : ProjectId).

(** The tables a call leaves; a failed transaction is rolled back. *)
Definition committed {A} (s : ScheduledStore) (r : result ScheduledDatabaseError (A * ScheduledStore)) : ScheduledStore :=
  match r with Ok (_, s') => s' | Err _ => s end.
Definition scheduled_call (s : ScheduledStore) (c : ScheduledCall) : ScheduledStore :=
  match c with
  | CallResolve c => committed s (resolve_scheduled_occurrence c s)
  | CallTransition commits run t at_ => committed s (transition_scheduled_run commits run t at_ s)
  | CallInterrupted at_ => (fail_interrupted_scheduled_runs at_ s).2
  | CallClearLink run => clear_retained_worktree_link run s
  | CallAnnotate run v detail at_ => (annotate_scheduled_run_verdict run v detail at_ s).2
  | CallCommit visible commits run task path project at_ =>
      committed s (commit_run_worktree visible commits run task path project at_ s)
  | CallCreate t => committed s (create_scheduled_task t s)
  | CallUpdate t expected => (update_scheduled_task t expected s).2
  | CallDelete task at_ => (soft_delete_scheduled_task task at_ s).2
  | CallProject project =>
      {| sd_projects := {[project]} ∪ sd_projects s; sd_tasks := sd_tasks s; sd_runs := sd_runs s;
         sd_occurrences := sd_occurrences s |}
  end.
Definition new_scheduled_store : ScheduledStore :=
  {| sd_projects := ∅; sd_tasks := ∅; sd_runs := ∅; sd_occurrences := ∅ |}.
Definition scheduled_history (cs : list ScheduledCall) : ScheduledStore :=
  fold_left scheduled_call cs new_scheduled_store.

(** A call advances runs, resolves an occurrence or leaves runs and occurrences alone. *)
Definition same_runs (s s' : ScheduledStore) : Prop :=
  sd_runs s' = sd_runs s /\ sd_occurrences s' = sd_occurrences s.
Lemma update_same_runs t expected s : same_runs s (update_scheduled_task t expected s).2.
Proof.
  unfold update_scheduled_task, update_task_row, serialize_revision, reject_if.
  destruct (i64_max <? _); [done|]. simpl. destruct (sd_tasks s !! sk_id t); [|done].
  destruct (_ && _); [|done]. unfold require_row, reject_if. by destruct (negb _).
Qed.
Lemma call_cases s c :
  run_step s (scheduled_call s c)
  \/ (exists cand res, c = CallResolve cand /\ resolve_scheduled_occurrence cand s = Ok (res, scheduled_call s c))
  \/ same_runs s (scheduled_call s c).
Proof.
  destruct c; simpl.
  - destruct (resolve_scheduled_occurrence c s) as [[res s']|e] eqn:E; simpl; [right; left; eauto|by right; right].
  - left. destruct (transition_scheduled_run _ _ _ _ _) as [[res s']|e] eqn:E; [by eapply transition_step|apply run_step_refl].
  - left. apply fail_interrupted_step.
  - left. apply clear_link_step.
  - left. apply annotate_step.
  - left. destruct (commit_run_worktree _ _ _ _ _ _ _ s) as [[o s']|e] eqn:E; [by eapply commit_step|apply run_step_refl].
  - right. right. destruct (create_scheduled_task t s) as [[x s']|e] eqn:E; [|done].
    do 4 apply bind_Ok in E as (? & _ & E). by injection E as _ <-.
  - right. right. apply update_same_runs.
  - right. right. unfold soft_delete_scheduled_task. unfold same_runs.
    by destruct (sd_tasks s !! task); [destruct (visible _)|].
  - by right; right.
Qed.

Lemma same_runs_ok s s' : same_runs s s' -> sched_ok s -> sched_ok s'.
Proof.
  intros [H1 H2] Hok.
  assert (forall p, runs_where p s' = runs_where p s) as Hw by (intros p; unfold runs_where, run_list; by rewrite H1).
  destruct Hok. constructor; rewrite ?H1, ?H2, ?Hw; try done; intros; rewrite ?H1, ?H2 in *; eauto.
Qed.

Lemma call_ok s c : sched_ok s -> sched_ok (scheduled_call s c).
Proof.
  intros Hok. destruct (call_cases s c) as [H|[(cand & res & -> & H)|H]].
  - by eapply run_step_ok.
  - by eapply resolve_ok.
  - by eapply same_runs_ok.
Qed.

Lemma history_ok cs : sched_ok (scheduled_history cs).
Proof.
  unfold scheduled_history. assert (sched_ok new_scheduled_store) as H.
  { constructor; simpl; intros *; rewrite ?lookup_empty; try done. unfold runs_where, run_list. simpl.
    rewrite map_to_list_empty. simpl. unfold MAX_CONCURRENT_LOCAL_SCHEDULED_RUNS. lia. }
  revert H. generalize new_scheduled_store. induction cs as [|c cs IH]; intros s Hs; [done|]. by apply IH, call_ok.
Qed.

(** ** Scheduled runs: the guarantees of the tables

    Over any history of transactions: how many runs are active, what an occurrence and its run
    may become, what a replayed resolution answers and how long a history grows; and the round
    trip of the text columns. *)
(** C15: after any history of transactions, in any order and with any failures: at most four runs
    are active, at most one per task; a run and its occurrence record belong to each other, one
    to one; a run has a failure reason exactly when it failed, and a verdict only when it
    succeeded. *)
Theorem scheduled_invariant (cs : list ScheduledCall) :
  let s := scheduled_history cs in
  (length (runs_where active s) <= 4)%nat
  /\ (forall id1 r1 id2 r2, sd_runs s !! id1 = Some r1 -> sd_runs s !! id2 = Some r2 ->
        active r1 = true -> active r2 = true ->
        oc_task_id (rn_occurrence r1) = oc_task_id (rn_occurrence r2) -> id1 = id2)
  /\ (forall key, (exists row, sd_occurrences s !! key = Some row /\ ow_outcome row = OutcomeAccepted)
        <-> exists id r, sd_runs s !! id = Some r /\ run_key r = key)
  /\ (forall id1 r1 id2 r2, sd_runs s !! id1 = Some r1 -> sd_runs s !! id2 = Some r2 ->
        run_key r1 = run_key r2 -> id1 = id2)
  /\ (forall id r, sd_runs s !! id = Some r ->
        rn_id r = id /\ (rn_status r = RunFailed <-> is_Some (rn_failure_reason r))
        /\ (is_Some (rn_verdict r) -> rn_status r = RunSucceeded)).
Proof.
  intros s. pose proof (history_ok cs) as Hok. fold s in Hok.
  split_and!; [apply Hok|by apply Hok| |by apply Hok|].
  - intros key. split; [intros (row & H1 & H2); by eapply (so_occurrence_run _ Hok)|].
    intros (id & r & Hr & <-). by eapply (so_run_occurrence _ Hok).
  - intros id r Hr. split_and!; [by apply (so_keyed _ Hok)|by apply (so_reason _ Hok id)|by apply (so_verdict _ Hok id)].
Qed.

(** Runs that a step keeps. *)
Definition run_kept (key : string * Z) (s s' : ScheduledStore) : Prop :=
  forall id r, sd_runs s !! id = Some r -> run_key r = key ->
    exists r', sd_runs s' !! id = Some r' /\ advances_run r r'.
(** What may be dropped: a settled, unlinked run behind 99 newer facts that stay. *)
Definition dropped_by_retention (key : string * Z) (s s' : ScheduledStore) : Prop :=
  sd_occurrences s' !! key = None
  /\ (forall id r, sd_runs s !! id = Some r -> run_key r = key -> active r = false /\ rn_worktree_task_id r = None)
  /\ exists newer, length newer = 99%nat /\ NoDup newer
       /\ forall t, t ∈ newer -> key.2 < t /\ is_Some (sd_occurrences s' !! (key.1, t)).

Lemma insert_kept c s s1 key row : sd_occurrences s !! occurrence_key (candidate_occurrence c) = None ->
  match c with
  | CandidateRun run => insert_scheduled_run (record_occurrence c s)
      (with_status run (admission_status (record_occurrence c s) (oc_task_id (rn_occurrence run)))) = Ok s1
  | CandidateMissed m => s1 = record_occurrence c s
  end ->
  (sd_occurrences s !! key = Some row -> sd_occurrences s1 !! key = Some row)
  /\ (forall id r, sd_runs s !! id = Some r -> sd_runs s1 !! id = Some r)
  /\ (forall id r, sd_runs s1 !! id = Some r -> run_key r <> occurrence_key (candidate_occurrence c) ->
        sd_runs s !! id = Some r).
Proof.
  intros Hnone H.
  assert (sd_occurrences s !! key = Some row -> sd_occurrences (record_occurrence c s) !! key = Some row) as Hk.
  { intros Hrow. simpl. rewrite lookup_insert_ne; [done|]. congruence. }
  destruct c as [run|m].
  - apply insert_run_inv in H as (Hid & _ & _ & ->). split_and!; [done| |]; simpl.
    + intros id r Hr. rewrite lookup_insert_ne; [done|]. intros <-. simpl in Hid. congruence.
    + intros id r [[_ <-]|[_ Hr]]%lookup_insert_Some Hne; [|done]. exfalso. by apply Hne.
  - subst. done.
Qed.

(** C16: an occurrence is settled once.  Whatever transaction comes next, an occurrence that was
    resolved keeps its outcome, and its run keeps its identity, its occurrence, the snapshot it
    was admitted with, its creation time and, once it has ended, its status and reason; or the
    retention of another occurrence of the same task drops it, and then its run, if any, had
    ended and held no worktree, and 99 newer facts of the task stay. *)
Theorem occurrence_settled_once (s : ScheduledStore) (c : ScheduledCall) (key : string * Z) (row : OccurrenceRow)
    (Hok : sched_ok s) (Hrow : sd_occurrences s !! key = Some row) :
  (sd_occurrences (scheduled_call s c) !! key = Some row /\ run_kept key s (scheduled_call s c))
  \/ (dropped_by_retention key s (scheduled_call s c)
      /\ exists cand, c = CallResolve cand /\ oc_task_id (candidate_occurrence cand) = key.1
                      /\ oc_scheduled_at (candidate_occurrence cand) <> key.2).
Proof.
  destruct (call_cases s c) as [H|[(cand & res & -> & H)|[H1 H2]]].
  - left. rewrite (st_occurrences _ _ H). split; [done|]. intros id r Hr _. by apply (st_forward _ _ H).
  - apply resolve_inv in H as [(? & _ & _ & ->)|(Hnone & s1 & -> & H)].
    { left. split; [done|]. intros id r Hr _. by exists r. }
    assert (match cand with
      | CandidateRun run => insert_scheduled_run (record_occurrence cand s)
          (with_status run (admission_status (record_occurrence cand s) (oc_task_id (rn_occurrence run)))) = Ok s1
      | CandidateMissed m => s1 = record_occurrence cand s
      end) as Hins by (destruct cand; apply H). clear H.
    destruct (insert_kept _ _ _ key row Hnone Hins) as (Hk & Hr & Hb). specialize (Hk Hrow).
    set (task := oc_task_id (candidate_occurrence cand)). set (at_ := oc_scheduled_at (candidate_occurrence cand)).
    destruct (sd_occurrences (prune_oldest_history s1 task at_) !! key) as [row'|] eqn:Hp.
    + left. pose proof Hp as [Hrow' Hkeep]%prune_occurrence. assert (row' = row) as -> by congruence. split; [done|].
      intros id r Hid Hkey. exists r. split; [|reflexivity]. apply prune_run. split; [by apply Hr|].
      intros (D1 & D2 & D3). subst key. destruct (Hkeep D1 D2) as (id' & r' & Hr' & Hk' & Hp').
      assert (id' = id) as ->; [|rewrite (Hr _ _ Hid) in Hr'; congruence].
      assert (run_key r' <> occurrence_key (candidate_occurrence cand)) as Hne by (rewrite Hk'; congruence).
      by eapply (so_unique _ Hok); [exact (Hb _ _ Hr' Hne)|exact Hid|].
    + right. assert (key.1 = task /\ key.2 ∈ beyond_retention s1 task at_
        /\ forall id r, sd_runs s1 !! id = Some r -> run_key r = key -> protected r = false) as (H1 & H2 & H3).
      { destruct (decide (key.1 = task)) as [H1|H1].
        2:{ exfalso. rewrite (proj2 (prune_occurrence s1 task at_ key row)) in Hp; [done|]. by split. }
        destruct (decide (key.2 ∈ beyond_retention s1 task at_)) as [H2|H2].
        2:{ exfalso. rewrite (proj2 (prune_occurrence s1 task at_ key row)) in Hp; [done|]. by split. }
        split_and!; [done|done|]. intros id r Hid Hkey. destruct (protected r) eqn:E; [|done]. exfalso.
        rewrite (proj2 (prune_occurrence s1 task at_ key row)) in Hp; [done|]. split; [done|]. intros _ _. by exists id, r. }
      apply elem_of_beyond in H2 as (Hne & _ & newer & Hlen & Hnd & Hnew). split.
      * split_and!; [done| |].
        -- intros id r Hid Hkey. specialize (H3 _ _ (Hr _ _ Hid) Hkey). unfold protected in H3.
           apply orb_false_iff in H3 as [? H3%bool_decide_eq_false]. split; [done|].
           destruct (rn_worktree_task_id r); [|done]. exfalso. apply H3. by eexists.
        -- exists newer. split_and!; [done|done|]. intros t Ht. destruct (Hnew t Ht) as (Hlt & _ & [x Hx] & Hnb).
           split; [done|]. exists x. apply prune_occurrence. rewrite H1. split; [done|]. simpl. intros _ ?. done.
      * exists cand. split_and!; [done|done|]. by apply not_eq_sym.
  - left. rewrite H2. split; [done|]. intros id r Hr _. exists r. by rewrite H1.
Qed.

Lemma not_beyond s task at_ : at_ ∉ beyond_retention s task at_.
Proof. intros (H & _)%elem_of_beyond. done. Qed.

(** Resolving is idempotent.  After an occurrence was admitted or recorded as missed, resolving
    any candidate for the same occurrence changes nothing and answers with what was stored: the
    run as it was admitted, not the one of the new candidate, or the missed fact. *)
Theorem resolve_replay (s s' : ScheduledStore) (c c' : ScheduledOccurrenceCandidate)
    (res : ScheduledOccurrenceResolution) (Hok : sched_ok s)
    (Hfirst : resolve_scheduled_occurrence c s = Ok (res, s'))
    (Hsame : candidate_occurrence c' = candidate_occurrence c) :
  resolve_scheduled_occurrence c' s'
  = Ok (match res with
        | AdmittedRun run => ExistingRun (with_verdict run None None None)
        | Missed missed => ExistingMissed missed
        | other => other
        end, s').
Proof.
  unfold resolve_scheduled_occurrence at 1. rewrite Hsame.
  pose proof (resolve_ok _ _ _ _ Hok Hfirst) as Hok'.
  pose proof Hfirst as [(row & Hrow & Hload & ->)|(Hnone & s1 & -> & H)]%resolve_inv.
  { rewrite Hrow, Hload. unfold load_existing_resolution in Hload. destruct (ow_outcome row).
    - by apply bind_Ok in Hload as (? & _ & [= <-]).
    - by injection Hload as <-. }
  set (o := candidate_occurrence c) in *.
  assert (sd_occurrences s1 !! occurrence_key o = Some (candidate_columns c)) as Hrow.
  { destruct c as [run|m]; destruct H as [_ H].
    - apply insert_run_inv in H as (_ & _ & _ & ->). apply lookup_insert_eq.
    - subst s1. apply lookup_insert_eq. }
  assert (sd_occurrences (prune_oldest_history s1 (oc_task_id o) (oc_scheduled_at o)) !! occurrence_key o
    = Some (candidate_columns c)) as Hrow'.
  { apply prune_occurrence. split; [done|]. intros _ Hb. by apply not_beyond in Hb. }
  rewrite Hrow'. destruct c as [run|m]; destruct H as [-> H].
  - unfold load_existing_resolution. cbn [ow_outcome candidate_columns].
    rewrite (proj2 (run_at_Some _ _ (with_verdict (with_status run (admission_status (record_occurrence (CandidateRun run) s)
      (oc_task_id (rn_occurrence run)))) None None None) Hok')); [done|].
    apply insert_run_inv in H as (_ & _ & _ & ->). eexists. split; [|done]. apply prune_run.
    split; [apply lookup_insert_eq|]. intros (_ & Hb & _). by apply not_beyond in Hb.
  - unfold o. simpl. by destruct m.
Qed.

(** A task's history is bounded.  After a resolution that stored a fact, at most a hundred
    occurrences of its task are ones the retention may ever drop, that is, neither their run is
    active nor does it hold a worktree. *)
Theorem history_bounded (s s' : ScheduledStore) (c : ScheduledOccurrenceCandidate)
    (res : ScheduledOccurrenceResolution) (times : list Z)
    (Hfirst : resolve_scheduled_occurrence c s = Ok (res, s'))
    (Hnew : sd_occurrences s !! occurrence_key (candidate_occurrence c) = None)
    (Hnd : NoDup times)
    (Htimes : forall t, t ∈ times -> is_Some (sd_occurrences s' !! (oc_task_id (candidate_occurrence c), t))
       /\ forall id r, sd_runs s' !! id = Some r -> run_key r = (oc_task_id (candidate_occurrence c), t) ->
            protected r = false) :
  (length times <= 100)%nat.
Proof.
  apply resolve_inv in Hfirst as [(row & Hrow & _)|(_ & s1 & -> & _)]; [congruence|].
  set (task := oc_task_id (candidate_occurrence c)) in *. set (at_ := oc_scheduled_at (candidate_occurrence c)) in *.
  assert (times ⊆ at_ :: take 99 (other_times s1 task at_)) as Hsub.
  { intros t Ht. destruct (Htimes t Ht) as [[row Hrow] Hun]. destruct (decide (t = at_)) as [->|Hne]; [by left|right].
    apply prune_occurrence in Hrow as [Hrow Hkeep].
    assert (t ∈ other_times s1 task at_) as Hin by (apply elem_of_other_times; split; [done|by eexists]).
    rewrite <-(take_drop 99 (other_times s1 task at_)) in Hin. apply elem_of_app in Hin as [?|Hd]; [done|].
    destruct (Hkeep eq_refl Hd) as (id & r & Hr & Hk & Hp).
    enough (protected r = false) by congruence. apply (Hun id); [|done]. apply prune_run. split; [done|].
    intros (_ & _ & ?). congruence. }
  apply NoDup_submseteq in Hsub; [|done]. apply submseteq_length in Hsub. simpl in Hsub.
  rewrite length_take in Hsub. lia.
Qed.

(** ** Text columns *)

Lemma status_column_parse st : parse_status (status_column st) = Ok st.
Proof. by destruct st. Qed.
Lemma failure_reason_column_parse r : parse_failure_reason (failure_reason_column r) = Ok r.
Proof. by destruct r. Qed.
Lemma verdict_column_parse v : parse_verdict_column (verdict_as_str v) = Ok v.
Proof. by destruct v. Qed.
Lemma missed_reason_column_parse r : parse_missed_reason (missed_reason_column r) = Ok r.
Proof. by destruct r. Qed.
Lemma parse_optional_fmap {A} (enc : A -> string) (dec : string -> result ScheduledDatabaseError A) o :
  (forall x, dec (enc x) = Ok x) -> parse_optional dec (enc <$> o) = Ok o.
Proof. intros H. destruct o as [x|]; [|done]. simpl. by rewrite H. Qed.
Lemma approval_columns_parse a : approval_check a = true ->
  map_approval_columns (approval_columns a).1 (approval_columns a).2 = Ok a.
Proof.
  destruct a as [[p at_]|]; [|done]. simpl. unfold is_supported. simpl. intros H. rewrite H.
  apply bool_decide_eq_true in H. by subst.
Qed.

(** A run row that satisfies the schema reads back as the run it was written from, when its
    agent reference is one the domain produces. *)
Theorem run_row_roundtrip (r : ScheduledRun)
    (Hc : run_checks r = true) (Ha : agent_ref_parse (sp_agent_ref (rn_snapshot r)) = Ok (sp_agent_ref (rn_snapshot r))) :
  map_scheduled_run_row (run_columns r) = Ok r.
Proof.
  unfold run_checks in Hc. apply andb_true_iff in Hc as [[Hrev%Z.leb_le Happ]%andb_true_iff _].
  unfold map_scheduled_run_row, run_columns, revision_of. cbn -[map_approval_columns approval_columns agent_ref_parse].
  rewrite (proj2 (Z.leb_gt _ 0)) by lia. cbn -[map_approval_columns approval_columns agent_ref_parse].
  rewrite approval_columns_parse by done. cbn -[agent_ref_parse]. rewrite Ha. cbn.
  rewrite status_column_parse. cbn. rewrite (parse_optional_fmap _ _ _ failure_reason_column_parse). cbn.
  rewrite (parse_optional_fmap _ _ _ verdict_column_parse). cbn. rewrite N2Z.id. by destruct r as [? [] [] ? ? ? ? ? ? ? ? ? ?].
Qed.

(** ** A small history *)

Definition sample_task : ScheduledTask :=
  {| sk_id := "quality"; sk_name := "Quality"; sk_enabled := true; sk_schedule := EveryHours 1;
     sk_execution_location := Local; sk_project_id := "p"; sk_agent_ref := "ora/codex"; sk_model := None;
     sk_prompt := "Check"; sk_revision := 1; sk_approval := Some (full_auto_in_worktree 5);
     sk_schedule_anchor_at := Some 0; sk_worktree_base_branch := Some "main";
     sk_audit_fields := {| created_at := 5; updated_at := 5; is_deleted := false |} |}.
Definition sample_run (id : string) (at_ : Z) : ScheduledRun :=
  accepted_run id {| oc_task_id := "quality"; oc_scheduled_at := at_ |} sample_task (at_ + 1).
Definition sample_calls : list ScheduledCall :=
  [CallProject "p"; CallCreate sample_task; CallResolve (CandidateRun (sample_run "r1" 100))].
Definition sample_tables : ScheduledStore := scheduled_history sample_calls.
Definition sample_row : OccurrenceRow := {| ow_outcome := OutcomeAccepted; ow_observed_at := 101 |}.

Lemma occurrence_settled_once_witness :
  exists r, sd_runs (scheduled_call sample_tables (CallTransition true "r1" (Start "s" "w" "t") 110)) !! "r1" = Some r
    /\ rn_status r = RunRunning /\ advances_run (sample_run "r1" 100) r.
Proof.
  destruct (occurrence_settled_once sample_tables (CallTransition true "r1" (Start "s" "w" "t") 110) ("quality", 100) sample_row)
    as [[_ H]|[[H _] _]].
  - apply history_ok.
  - vm_compute. reflexivity.
  - destruct (H "r1" (sample_run "r1" 100)) as (r & Hr & Ha); [vm_compute; reflexivity|reflexivity|].
    exists r. split; [exact Hr|]. split; [|exact Ha]. vm_compute in Hr. injection Hr as <-. reflexivity.
  - vm_compute in H. discriminate H.
Defined.

Lemma resolve_replay_witness :
  exists s', resolve_scheduled_occurrence (CandidateRun (sample_run "r2" 200)) sample_tables
      = Ok (AdmittedRun (with_status (sample_run "r2" 200) SkippedBusy), s')
    /\ resolve_scheduled_occurrence (CandidateRun (sample_run "r3" 200)) s'
       = Ok (ExistingRun (with_status (sample_run "r2" 200) SkippedBusy), s').
Proof.
  assert (exists s', resolve_scheduled_occurrence (CandidateRun (sample_run "r2" 200)) sample_tables
    = Ok (AdmittedRun (with_status (sample_run "r2" 200) SkippedBusy), s')) as [s' Hs]
    by (eexists; vm_compute; reflexivity).
  exists s'. split; [exact Hs|].
  exact (resolve_replay sample_tables s' (CandidateRun (sample_run "r2" 200)) (CandidateRun (sample_run "r3" 200)) _
           (history_ok sample_calls) Hs eq_refl).
Defined.

Lemma history_bounded_witness : (length [100%Z; 200%Z] <= 100)%nat.
Proof.
  set (m := CandidateMissed {| ms_occurrence := {| oc_task_id := "other"; oc_scheduled_at := 200 |};
                               ms_reason := LateTrigger; ms_observed_at := 300 |}).
  set (s := {| sd_projects := ∅; sd_tasks := {["other" := sample_task]}; sd_runs := ∅;
               sd_occurrences := {[("other", 100%Z) := {| ow_outcome := OutcomeMissed AppNotRunning; ow_observed_at := 150 |}]} |}).
  assert (exists res s', resolve_scheduled_occurrence m s = Ok (res, s') /\ sd_runs s' = ∅
    /\ is_Some (sd_occurrences s' !! ("other", 100%Z)) /\ is_Some (sd_occurrences s' !! ("other", 200%Z)))
    as (res & s' & Hs & Hr & H1 & H2).
  { eexists _, _. split; [vm_compute; reflexivity|]. split; [vm_compute; reflexivity|].
    split; vm_compute; by eexists. }
  apply (history_bounded s s' m res [100%Z; 200%Z] Hs).
  - vm_compute. reflexivity.
  - repeat constructor; set_solver.
  - intros t [-> | ->%list_elem_of_singleton]%elem_of_cons; (split; [done|]); intros id r; rewrite Hr; rewrite lookup_empty; discriminate.
Defined.

Lemma run_row_roundtrip_witness : map_scheduled_run_row (run_columns (sample_run "r1" 100)) = Ok (sample_run "r1" 100).
Proof. apply (run_row_roundtrip (sample_run "r1" 100)); vm_compute; reflexivity. Defined.
