(* ===== verification/ScheduledHandlers.v ===== *)
(** * Scheduled task use cases ([crates/application/src/scheduled_task])

    The handlers of [handlers.rs] with their mapping to the public contract ([mapper.rs]), the
    admission of a live occurrence ([admission.rs]) and the recovery of offline ones
    ([offline_recovery.rs]).  The project and workspace repositories and the Git probe are the
    traits the handlers are generic over: a class.  The clock and the identifier generator are
    arguments.  A handler prepares (reads) and persists (one transaction) separately, as the code
    does, so that other requests may come in between. *)

From stdpp Require Import fin_maps.
From S2P Require Import Prelude RustStr ScheduledTask ScheduledRun ScheduledStore.
Local Open Scope ora_scope.
Local Open Scope Z_scope.

(** ** Ports *)

Inductive WorkspaceLocation : Type :=
| LocalFilesystem (path : string)
| Ssh (connection_ref path : string)
| RemoteTarget (plugin_id target_ref locator : string).
Inductive WorkspaceLifecycle : Type := WsProvisioning | WsActive | WsUnavailable | WsRetiring | WsDeleted.
#[export] Instance WorkspaceLifecycle_eq_dec : EqDecision WorkspaceLifecycle.
Proof. solve_decision. Defined.
Record Workspace : Type :=
  { ws_id : string; ws_project_id : ProjectId; ws_location : WorkspaceLocation; ws_lifecycle : WorkspaceLifecycle;
    ws_audit_fields : AuditFields }.
Definition is_admissible (w : Workspace) : bool :=
  bool_decide (ws_lifecycle w = WsActive) && negb (is_deleted (ws_audit_fields w)).
Record Project : Type :=
  { pr_id : ProjectId; pr_repository_kind : string; pr_default_branch : option string }.

Inductive TaskWorktreeProvisionerError : Type :=
| NotARepository
| BaseBranchNotFound (branch_name : string)
| OperationFailed (context : string).

(** The answers of one moment: reading changes nothing. *)
Class ScheduledTargets : Type := {
  find_project : ProjectId -> result string (option Project);
  find_main_workspace : ProjectId -> result string (option Workspace);
  validate_git_worktree_target : string -> result TaskWorktreeProvisionerError unit;
  resolve_default_branch : string -> result TaskWorktreeProvisionerError (option string);
  (** Git names no branch by a blank. *)
  resolved_branch_named : forall path branch, resolve_default_branch path = Ok (Some branch) -> trim branch <> "";
}.

Inductive ApplicationError : Type :=
| ScheduledTaskNotFound (task_id : string)
| ScheduledTaskConflict (task_id : string)
| ScheduledTaskNameBlank
| ScheduledTaskPromptBlank
| ScheduledTaskAgentRefInvalid
| ScheduledTaskIntervalTooShort'
| ScheduledTaskTimeInvalid
| ScheduledTaskWeekdaysEmpty
| ScheduledTaskRequiresGitProject
| ScheduledTaskCloudUnavailable
| ScheduledTaskApprovalRequired
| ProjectNotFound (project_id : string)
| ProjectRepositoryError (source : string)
| WorkspaceRepositoryError (source : string)
| ProvisionerError (source : TaskWorktreeProvisionerError)
| ScheduledTaskRepositoryError (source : ScheduledDatabaseError).

Local Notation answer := (result ApplicationError).

Definition from_scheduled_task_domain_error (e : DomainModelError) : ApplicationError :=
  match e with
  | EmptyScheduledTaskName => ScheduledTaskNameBlank
  | EmptyScheduledTaskPrompt => ScheduledTaskPromptBlank
  | InvalidAgentRef _ => ScheduledTaskAgentRefInvalid
  | ScheduledTaskIntervalTooShort => ScheduledTaskIntervalTooShort'
  | InvalidScheduledTaskTime => ScheduledTaskTimeInvalid
  | EmptyScheduledTaskWeekdays => ScheduledTaskWeekdaysEmpty
  end.

(** ** Contract *)

Inductive ScheduledTaskApprovalPolicy : Type := FullAutoInWorktree.
Definition approval_from_policy (p : ScheduledTaskApprovalPolicy) (consented_at : Z) : ScheduledTaskApproval :=
  match p with FullAutoInWorktree => full_auto_in_worktree consented_at end.
Inductive ScheduledTaskApprovalChange : Type :=
| Keep
| Grant (policy : ScheduledTaskApprovalPolicy)
| Revoke.

Record CreateScheduledTaskRequest : Type := {
  cr_name : string; cr_enabled : bool; cr_schedule : ScheduledTaskSchedule;
  cr_execution_location : ScheduledTaskExecutionLocation; cr_project_id : string; cr_agent_ref : string;
  cr_model : option string; cr_prompt : string; cr_approval_policy : option ScheduledTaskApprovalPolicy;
}.
Record UpdateScheduledTaskRequest : Type := {
  ur_task_id : string; ur_expected_updated_at : Z; ur_name : string; ur_enabled : bool;
  ur_schedule : ScheduledTaskSchedule; ur_project_id : string; ur_agent_ref : string; ur_model : option string;
  ur_prompt : string; ur_approval_change : ScheduledTaskApprovalChange;
}.

(** The public form of a task.  The contract's schedule, weekday, location, status, reason and
    verdict types repeat the constructors of the domain's and stand for them here. *)
Record ContractScheduledTask : Type := {
  ct_id : string; ct_name : string; ct_enabled : bool; ct_schedule : ScheduledTaskSchedule;
  ct_execution_location : ScheduledTaskExecutionLocation; ct_project_id : string; ct_agent_ref : string;
  ct_model : option string; ct_prompt : string; ct_revision : N;
  ct_approval : option (ScheduledTaskApprovalPolicy * Z); ct_created_at : Z; ct_updated_at : Z;
}.
Definition map_approval (a : ScheduledTaskApproval) : option (ScheduledTaskApprovalPolicy * Z) :=
  if is_supported a then Some (FullAutoInWorktree, consented_at a) else None.
Definition map_task (t : ScheduledTask) : ContractScheduledTask :=
  {| ct_id := sk_id t; ct_name := sk_name t; ct_enabled := sk_enabled t; ct_schedule := sk_schedule t;
     ct_execution_location := sk_execution_location t; ct_project_id := sk_project_id t;
     ct_agent_ref := sk_agent_ref t; ct_model := sk_model t; ct_prompt := sk_prompt t; ct_revision := sk_revision t;
     ct_approval := sk_approval t ≫= map_approval; ct_created_at := created_at (sk_audit_fields t);
     ct_updated_at := updated_at (sk_audit_fields t) |}.

Inductive ContractHistoryEntry : Type :=
| ContractRun (id : string) (scheduled_at : Z) (revision : N) (status : ScheduledRunStatus)
    (session_id worktree_path worktree_task_id : option string) (failure_reason : option ScheduledRunFailureReason)
    (verdict : option ScheduledRunVerdict) (verdict_detail : option string) (verdict_at : option Z)
    (created_at updated_at : Z)
| ContractMissed (scheduled_at : Z) (reason : ScheduledMissReason) (observed_at : Z).
Definition map_history_entry (e : ScheduledTaskHistoryEntry) : ContractHistoryEntry :=
  match e with
  | EntryRun r =>
      ContractRun (rn_id r) (oc_scheduled_at (rn_occurrence r)) (sp_revision (rn_snapshot r)) (rn_status r)
        (rn_session_id r) (rn_worktree_path r) (rn_worktree_task_id r) (rn_failure_reason r) (rn_verdict r)
        (rn_verdict_detail r) (rn_verdict_at r) (rn_created_at r) (rn_updated_at r)
  | EntryMissed m => ContractMissed (oc_scheduled_at (ms_occurrence m)) (ms_reason m) (ms_observed_at m)
  end.

(** [parse_schedule]: weekdays of a contract are those of the domain. *)
Definition parse_schedule (s : ScheduledTaskSchedule) : answer ScheduledTaskSchedule :=
  map_err from_scheduled_task_domain_error (revalidate_schedule s).

(** ** Reads *)

Definition find_task (task_id : ScheduledTaskId) (s : ScheduledStore) : answer ScheduledTask :=
  found ← map_err ScheduledTaskRepositoryError (find_scheduled_task task_id s);
  ok_or found (ScheduledTaskNotFound task_id).

Definition handle_get (task_id : ScheduledTaskId) (s : ScheduledStore) : answer ContractScheduledTask :=
  map_task <$> find_task task_id s.
Definition handle_list (s : ScheduledStore) : answer (list ContractScheduledTask) :=
  tasks ← map_err ScheduledTaskRepositoryError (list_scheduled_tasks s); Ok (List.map map_task tasks).
Definition handle_list_history (task_id : ScheduledTaskId) (s : ScheduledStore) : answer (list ContractHistoryEntry) :=
  entries ← map_err ScheduledTaskRepositoryError (list_scheduled_task_history task_id s);
  Ok (List.map map_history_entry entries).

(** [Option::filter] *)
Definition keep_if {A} (p : A -> bool) (o : option A) : option A :=
  match o with Some x => if p x then Some x else None | None => None end.

(** ** Checks *)

Section targets.
Context {targets : ScheduledTargets}.

Definition require_git_project (project_id : ProjectId) : answer Project :=
  found ← map_err ProjectRepositoryError (find_project project_id);
  project ← ok_or found (ProjectNotFound project_id);
  reject (negb (bool_decide (pr_repository_kind project = "git"))) with ScheduledTaskRequiresGitProject;
  Ok project.

(** The path of the admissible local main workspace. *)
Definition main_workspace_path (project_id : ProjectId) : answer string :=
  found ← map_err WorkspaceRepositoryError (find_main_workspace project_id);
  workspace ← ok_or (keep_if is_admissible found) ScheduledTaskRequiresGitProject;
  match ws_location workspace with
  | LocalFilesystem path => Ok path
  | _ => Err ScheduledTaskRequiresGitProject
  end.
Definition from_provisioner_error (e : TaskWorktreeProvisionerError) : ApplicationError :=
  match e with NotARepository => ScheduledTaskRequiresGitProject | other => ProvisionerError other end.

Definition resolve_worktree_base_branch (project : Project) (project_id : ProjectId) : answer string :=
  match keep_if (fun branch => negb (bool_decide (trim branch = ""))) (pr_default_branch project) with
  | Some branch => Ok branch
  | None =>
      path ← main_workspace_path project_id;
      found ← map_err from_provisioner_error (resolve_default_branch path);
      ok_or found ScheduledTaskRequiresGitProject
  end.

Definition require_activation_approval (t : ScheduledTask) : answer unit :=
  reject_if (sk_enabled t && negb (local_activation_allowed t)) ScheduledTaskApprovalRequired.

Definition require_active_local_target (t : ScheduledTask) : answer unit :=
  if negb (sk_enabled t) then Ok tt
  else
    path ← main_workspace_path (sk_project_id t);
    map_err from_provisioner_error (validate_git_worktree_target path).

(** ** Create *)

(** [CreateScheduledTaskHandler::prepare] *)
Definition prepare_create (now : Z) (new_id : ScheduledTaskId) (r : CreateScheduledTaskRequest) : answer ScheduledTask :=
  reject (bool_decide (cr_execution_location r = Cloud)) with ScheduledTaskCloudUnavailable;
  let project_id := cr_project_id r in
  project ← require_git_project project_id;
  branch ← resolve_worktree_base_branch project project_id;
  let approval := (fun p => approval_from_policy p now) <$> cr_approval_policy r in
  schedule ← parse_schedule (cr_schedule r);
  agent_ref ← map_err from_scheduled_task_domain_error (agent_ref_parse (cr_agent_ref r));
  task ← map_err from_scheduled_task_domain_error
    (new_scheduled_task new_id (cr_name r) (cr_enabled r) schedule Local project_id agent_ref (cr_model r)
       (cr_prompt r) approval {| created_at := now; updated_at := now; is_deleted := false |});
  let task := freeze_worktree_base_branch (reanchor_on_enable task now) branch in
  _ ← require_activation_approval task;
  _ ← require_active_local_target task;
  Ok task.

(** ** Update *)

Record PreparedScheduledTaskUpdate : Type := { pu_task : ScheduledTask; pu_expected_updated_at : Z }.

(** The inputs of a run: a change of one of them starts a new revision. *)
Definition revision_changed (existing : ScheduledTask) (schedule : ScheduledTaskSchedule) (project_id : ProjectId)
    (agent_ref : AgentRef) (model : option string) (prompt : string) : bool :=
  negb (bool_decide (schedule = sk_schedule existing)) || negb (bool_decide (project_id = sk_project_id existing))
  || negb (bool_decide (agent_ref = sk_agent_ref existing)) || negb (bool_decide (model = sk_model existing))
  || negb (bool_decide (prompt = sk_prompt existing)).

Definition changed_approval (existing : ScheduledTask) (project_changed : bool) (c : ScheduledTaskApprovalChange)
    (now : Z) : option ScheduledTaskApproval :=
  match c with
  | Keep => if project_changed then None else sk_approval existing
  | Grant policy => Some (approval_from_policy policy now)
  | Revoke => None
  end.

(** The time an update of a task stamps. *)
Definition next_updated_at (now : Z) (existing : ScheduledTask) : Z :=
  Z.max now (saturate_i64 (updated_at (sk_audit_fields existing) + 1)).

(** Whether an update starts a new hourly grid. *)
Definition reanchors (existing replacement : ScheduledTask) : bool :=
  (negb (sk_enabled existing) && sk_enabled replacement)
  || (negb (is_every_hours (sk_schedule existing)) && is_every_hours (sk_schedule replacement)).

(** [UpdateScheduledTaskHandler::prepare], after the definition was found. *)
Definition prepare_replacement (now : Z) (r : UpdateScheduledTaskRequest) (existing : ScheduledTask) :
    answer PreparedScheduledTaskUpdate :=
  let task_id := ur_task_id r in
  reject (negb (bool_decide (ur_expected_updated_at r = updated_at (sk_audit_fields existing))))
    with (ScheduledTaskConflict task_id);
  reject (bool_decide (sk_execution_location existing = Cloud)) with ScheduledTaskCloudUnavailable;
  let now := next_updated_at now existing in
  let project_id := ur_project_id r in
  project ← require_git_project project_id;
  let project_changed := negb (bool_decide (project_id = sk_project_id existing)) in
  resolved_branch ← (if project_changed || bool_decide (sk_worktree_base_branch existing = None)
                     then Some <$> resolve_worktree_base_branch project project_id else Ok None);
  schedule ← parse_schedule (ur_schedule r);
  agent_ref ← map_err from_scheduled_task_domain_error (agent_ref_parse (ur_agent_ref r));
  let prompt := trim (ur_prompt r) in
  let changed := revision_changed existing schedule project_id agent_ref (ur_model r) prompt in
  let approval := changed_approval existing project_changed (ur_approval_change r) now in
  task ← map_err from_scheduled_task_domain_error
    (new_scheduled_task task_id (ur_name r) (ur_enabled r) schedule (sk_execution_location existing) project_id
       agent_ref (ur_model r) prompt approval
       {| created_at := created_at (sk_audit_fields existing); updated_at := now; is_deleted := false |});
  let replacement := with_revision task (sk_revision existing + if changed then 1 else 0) in
  let replacement := if reanchors existing replacement then reanchor_on_enable replacement now
                     else preserve_schedule_anchor replacement existing in
  let replacement := match resolved_branch with
                     | Some branch => freeze_worktree_base_branch replacement branch
                     | None => with_branch replacement (sk_worktree_base_branch existing)
                     end in
  _ ← require_activation_approval replacement;
  _ ← require_active_local_target replacement;
  Ok {| pu_task := replacement; pu_expected_updated_at := ur_expected_updated_at r |}.

Definition prepare_update (now : Z) (r : UpdateScheduledTaskRequest) (s : ScheduledStore) :
    answer PreparedScheduledTaskUpdate :=
  existing ← find_task (ur_task_id r) s;
  prepare_replacement now r existing.
End targets.

(** ** Writes *)

(** [CreateScheduledTaskHandler::persist] *)
Definition persist_create (t : ScheduledTask) (s : ScheduledStore) : answer ContractScheduledTask * ScheduledStore :=
  match create_scheduled_task t s with
  | Ok (task, s) => (Ok (map_task task), s)
  | Err e => (Err (ScheduledTaskRepositoryError e), s)
  end.

(** What an update answers. *)
Definition update_response (task_id : ScheduledTaskId) (r : result ScheduledDatabaseError ScheduledTaskUpdateResolution) :
    answer ContractScheduledTask :=
  match r with
  | Ok (TaskUpdated task) => Ok (map_task task)
  | Ok TaskNotFound => Err (ScheduledTaskNotFound task_id)
  | Ok TaskConflict => Err (ScheduledTaskConflict task_id)
  | Err e => Err (ScheduledTaskRepositoryError e)
  end.
(** [UpdateScheduledTaskHandler::persist] *)
Definition persist_update (p : PreparedScheduledTaskUpdate) (s : ScheduledStore) :
    answer ContractScheduledTask * ScheduledStore :=
  let '(r, s) := update_scheduled_task (pu_task p) (pu_expected_updated_at p) s in
  (update_response (sk_id (pu_task p)) r, s).

(** [DeleteScheduledTaskHandler::handle] *)
Definition handle_delete (now : Z) (task_id : ScheduledTaskId) (s : ScheduledStore) : answer string * ScheduledStore :=
  let '(deleted, s) := soft_delete_scheduled_task task_id now s in
  (if deleted then Ok task_id else Err (ScheduledTaskNotFound task_id), s).

(** The replacement of [RevokeScheduledTaskApprovalHandler::handle]. *)
Definition revoked (now : Z) (t : ScheduledTask) : ScheduledTask :=
  {| sk_id := sk_id t; sk_name := sk_name t; sk_enabled := false; sk_schedule := sk_schedule t;
     sk_execution_location := sk_execution_location t; sk_project_id := sk_project_id t;
     sk_agent_ref := sk_agent_ref t; sk_model := sk_model t; sk_prompt := sk_prompt t; sk_revision := sk_revision t;
     sk_approval := None; sk_schedule_anchor_at := sk_schedule_anchor_at t;
     sk_worktree_base_branch := sk_worktree_base_branch t;
     sk_audit_fields := {| created_at := created_at (sk_audit_fields t); updated_at := next_updated_at now t;
                           is_deleted := is_deleted (sk_audit_fields t) |} |}.
Definition prepare_revoke (now : Z) (task_id : ScheduledTaskId) (s : ScheduledStore) : answer PreparedScheduledTaskUpdate :=
  task ← find_task task_id s;
  Ok {| pu_task := revoked now task; pu_expected_updated_at := updated_at (sk_audit_fields task) |}.

(** ** Occurrences *)

(** [AdmitScheduledOccurrenceHandler::handle] *)
Definition admit_occurrence (new_id : ScheduledRunId) (t : ScheduledTask) (scheduled_at accepted_at : Z)
    (s : ScheduledStore) : answer ScheduledOccurrenceResolution * ScheduledStore :=
  let o := {| oc_task_id := sk_id t; oc_scheduled_at := scheduled_at |} in
  let resolve c := match resolve_scheduled_occurrence c s with
                   | Ok (r, s) => (Ok r, s)
                   | Err e => (Err (ScheduledTaskRepositoryError e), s)
                   end in
  match timing_at o accepted_at with
  | NotDue => (Ok ResolvedNotDue, s)
  | Due => resolve (CandidateRun (accepted_run new_id o t accepted_at))
  | TimingMissed reason =>
      resolve (CandidateMissed {| ms_occurrence := o; ms_reason := reason; ms_observed_at := accepted_at |})
  end.

(** [RecordOfflineMissedOccurrenceHandler::handle] *)
Definition offline_expired (observed_at scheduled_at : Z) : bool :=
  (scheduled_at <=? observed_at)
  && (MAX_SCHEDULED_OCCURRENCE_LATENESS_MILLIS <? saturate_i64 (observed_at - scheduled_at)).
Definition max_time (l : list Z) : option Z :=
  match l with [] => None | t :: l => Some (fold_left Z.max l t) end.
Inductive OfflineRecoveryResolution : Type :=
| NothingMissed
| Recorded (r : ScheduledOccurrenceResolution).
Definition record_offline_missed (t : ScheduledTask) (times : list Z) (observed_at : Z) (s : ScheduledStore) :
    answer OfflineRecoveryResolution * ScheduledStore :=
  match max_time (filter (fun x => offline_expired observed_at x = true) times) with
  | None => (Ok NothingMissed, s)
  | Some scheduled_at =>
      let missed := {| ms_occurrence := {| oc_task_id := sk_id t; oc_scheduled_at := scheduled_at |};
                       ms_reason := AppNotRunning; ms_observed_at := observed_at |} in
      match resolve_scheduled_occurrence (CandidateMissed missed) s with
      | Ok (r, s) => (Ok (Recorded r), s)
      | Err e => (Err (ScheduledTaskRepositoryError e), s)
      end
  end.
