(* ===== verification/ScheduledDefinitions.v ===== *)
(** * Scheduled task definitions: what the use cases guarantee

    A client's requests, each prepared and persisted in its own transaction with any others in
    between; the well-formedness every stored definition keeps, what one update does and that a
    stale one is refused. *)

From stdpp Require Import fin_maps.
From S2P Require Import Prelude RustStr ScheduledTask ScheduledRun ScheduledStore ScheduledLaws ScheduledHandlers.
Local Open Scope ora_scope.
Local Open Scope Z_scope.

(** ** Definitions that read back *)

(** What the row mapping validates again. *)
Record readable (t : ScheduledTask) : Prop := {
  rd_schedule : revalidate_schedule (sk_schedule t) = Ok (sk_schedule t);
  rd_revision : (0 < sk_revision t)%N;
  rd_approval : approval_check (sk_approval t) = true;
  rd_agent_ref : agent_ref_parse (sk_agent_ref t) = Ok (sk_agent_ref t);
  rd_name : trim (sk_name t) = sk_name t /\ sk_name t <> "";
  rd_prompt : trim (sk_prompt t) = sk_prompt t /\ sk_prompt t <> "";
}.

Lemma approval_columns_read a : approval_check a = true ->
  map_approval_columns (approval_columns a).1 (approval_columns a).2 = Ok a.
Proof.
  destruct a as [[p at_]|]; [|done]. unfold approval_check, is_supported. simpl. intros Hp%bool_decide_eq_true.
  rewrite bool_decide_eq_true_2 by done. unfold full_auto_in_worktree. by rewrite <-Hp.
Qed.

Lemma readable_row t : readable t -> map_scheduled_task_row t = Ok t.
Proof.
  intros [Hs Hr Ha Hg [Hn Hn'] [Hp Hp']]. unfold map_scheduled_task_row. rewrite Hs. cbn [map_err].
  unfold revision_of. rewrite (proj2 (Z.leb_gt _ _)) by lia. cbn. rewrite approval_columns_read by done. cbn.
  rewrite Hg. cbn. unfold new_scheduled_task. rewrite Hn, Hp, !bool_decide_eq_false_2 by done. cbn.
  rewrite N2Z.id. by destruct t.
Qed.

Lemma agent_ref_parse_read value r : agent_ref_parse value = Ok r -> agent_ref_parse r = Ok r.
Proof.
  unfold agent_ref_parse. case_bool_decide as H; [done|]. intros [= <-]. rewrite trim_idemp.
  by rewrite bool_decide_eq_false_2.
Qed.
Lemma parse_schedule_read s s' : parse_schedule s = Ok s' -> revalidate_schedule s' = Ok s'.
Proof.
  unfold parse_schedule. intros H%map_err_Ok. assert (s' = s) as ->; [|done]. destruct s as [i|h m|w h m]; simpl in H.
  - unfold every_hours in H. by apply reject_Ok in H as [_ [= <-]].
  - unfold daily in H. by apply bind_Ok in H as (? & _ & [= <-]).
  - unfold weekly in H. apply reject_Ok in H as [_ H]. by apply bind_Ok in H as (? & _ & [= <-]).
Qed.

(** ** Well-formed definitions *)

Record definition_ok (t : ScheduledTask) : Prop := {
  dk_readable : readable t;
  dk_local : sk_execution_location t = Local;
  dk_approved : sk_enabled t = true -> local_activation_allowed t = true;
  dk_branch : exists branch, sk_worktree_base_branch t = Some branch /\ trim branch <> "";
  dk_anchor : anchored t = true -> is_Some (sk_schedule_anchor_at t);
}.

Lemma definition_schedulable t : definition_ok t -> is_schedulable t = sk_enabled t.
Proof.
  intros [_ Hl Ha (branch & Hb & Hn) Hk]. unfold is_schedulable. destruct (sk_enabled t) eqn:E; [|done].
  rewrite Hl, (Ha eq_refl), Hb, bool_decide_eq_true_2, bool_decide_eq_false_2 by done. simpl.
  unfold anchored in Hk. rewrite E, andb_true_r in Hk. destruct (sk_schedule t); [|done|done].
  by apply bool_decide_eq_true, Hk.
Qed.

(** What [ScheduledTask::new] makes of its arguments. *)
Lemma new_scheduled_task_Ok id name enabled schedule location project_id agent_ref model prompt approval audit t :
  new_scheduled_task id name enabled schedule location project_id agent_ref model prompt approval audit = Ok t ->
  trim name <> "" /\ trim prompt <> ""
  /\ t = {| sk_id := id; sk_name := trim name; sk_enabled := enabled; sk_schedule := schedule;
            sk_execution_location := location; sk_project_id := project_id; sk_agent_ref := agent_ref;
            sk_model := model; sk_prompt := trim prompt; sk_revision := 1; sk_approval := approval;
            sk_schedule_anchor_at := None; sk_worktree_base_branch := None; sk_audit_fields := audit |}.
Proof.
  unfold new_scheduled_task. intros [H1%bool_decide_eq_false H]%reject_Ok.
  apply reject_Ok in H as [H2%bool_decide_eq_false H]. by apply Ok_inj in H as <-.
Qed.

Section targets.
Context {targets : ScheduledTargets}.

Lemma resolved_branch project project_id branch :
  resolve_worktree_base_branch project project_id = Ok branch -> trim branch <> "".
Proof.
  unfold resolve_worktree_base_branch. destruct (keep_if _ _) as [b|] eqn:E.
  - intros [= <-]. destruct (pr_default_branch project) as [b'|]; [|done]. simpl in E.
    destruct (negb _) eqn:En; [|done]. injection E as <-. by apply negb_true_iff, bool_decide_eq_false in En.
  - intros (path & _ & H)%bind_Ok. apply bind_Ok in H as (found & H & Hf). apply map_err_Ok in H.
    apply ok_or_Ok in Hf as ->. by eapply resolved_branch_named.
Qed.

Lemma activation_approved t u : require_activation_approval t = Ok u ->
  sk_enabled t = true -> local_activation_allowed t = true.
Proof.
  unfold require_activation_approval. intros H%reject_if_Ok He. rewrite He in H. simpl in H. by apply negb_false_iff in H.
Qed.

(** ** Creation *)

Lemma prepare_create_ok now new_id r t : prepare_create now new_id r = Ok t ->
  definition_ok t /\ visible t = true /\ updated_at (sk_audit_fields t) = now.
Proof.
  unfold prepare_create. intros [_ H]%reject_Ok. apply bind_Ok in H as (project & _ & H).
  apply bind_Ok in H as (branch & Hb & H). apply bind_Ok in H as (schedule & Hs & H).
  apply bind_Ok in H as (agent_ref & Hg & H). apply bind_Ok in H as (task & Ht & H).
  apply bind_Ok in H as (? & Ha & H). apply bind_Ok in H as (? & _ & [= <-]).
  apply map_err_Ok in Hg. apply map_err_Ok, new_scheduled_task_Ok in Ht as (Hn & Hp & ->).
  apply resolved_branch in Hb. split; [|done]. split; try done.
  - split; simpl; try done.
    + by apply parse_schedule_read in Hs.
    + by destruct (cr_approval_policy r) as [[]|].
    + by apply agent_ref_parse_read in Hg.
    + by rewrite trim_idemp.
    + by rewrite trim_idemp.
  - by eapply activation_approved.
  - exists (trim branch). by rewrite trim_idemp.
  - simpl. unfold anchored. simpl. intros ->. by eexists.
Qed.

(** ** Updates *)

(** The inputs a run is started with, apart from the base branch and the consent. *)
Definition run_inputs (t : ScheduledTask) : ScheduledTaskSchedule * ProjectId * AgentRef * option string * string :=
  (sk_schedule t, sk_project_id t, sk_agent_ref t, sk_model t, sk_prompt t).

Lemma revision_changed_inputs existing s p a m prompt :
  revision_changed existing s p a m prompt = negb (bool_decide ((s, p, a, m, prompt) = run_inputs existing)).
Proof.
  unfold revision_changed, run_inputs. rewrite <-!negb_andb. f_equal. apply Bool.eq_iff_eq_true.
  rewrite !andb_true_iff, !bool_decide_eq_true.
  split; [by intros [[[[-> ->] ->] ->] ->]|by intros [= -> -> -> -> ->]].
Qed.

(** What a prepared replacement is, in terms of the definition it replaces. *)
Record replaces (now : Z) (r : UpdateScheduledTaskRequest) (existing : ScheduledTask) (p : PreparedScheduledTaskUpdate) :
    Prop := {
  rp_id : sk_id (pu_task p) = ur_task_id r;
  rp_expected : pu_expected_updated_at p = updated_at (sk_audit_fields existing);
  rp_created : created_at (sk_audit_fields (pu_task p)) = created_at (sk_audit_fields existing);
  rp_updated : updated_at (sk_audit_fields (pu_task p)) = next_updated_at now existing;
  rp_revision : sk_revision (pu_task p)
    = (sk_revision existing + if bool_decide (run_inputs (pu_task p) = run_inputs existing) then 0 else 1)%N;
  rp_approval : sk_approval (pu_task p)
    = changed_approval existing (negb (bool_decide (sk_project_id (pu_task p) = sk_project_id existing)))
        (ur_approval_change r) (next_updated_at now existing);
  rp_anchor : sk_schedule_anchor_at (pu_task p)
    = if anchored (pu_task p)
      then if anchored existing then sk_schedule_anchor_at existing else Some (next_updated_at now existing)
      else None;
}.

Lemma with_branch_match t o b : match o with
  | Some branch => freeze_worktree_base_branch t branch
  | None => with_branch t b
  end = with_branch t (match o with Some branch => Some (trim branch) | None => b end).
Proof. by destruct o. Qed.
Lemma with_anchor_if t (c : bool) now existing :
  (if c then reanchor_on_enable t now else preserve_schedule_anchor t existing)
  = with_anchor t (if anchored t then if c then Some now else sk_schedule_anchor_at existing else None).
Proof. unfold reanchor_on_enable, preserve_schedule_anchor. by destruct c, (anchored t). Qed.

Lemma replaces_anchor now r existing p : replaces now r existing p ->
  (anchored existing = true -> is_Some (sk_schedule_anchor_at existing)) ->
  anchored (pu_task p) = true -> is_Some (sk_schedule_anchor_at (pu_task p)).
Proof. intros Hrep Hk Ht. rewrite (rp_anchor _ _ _ _ Hrep), Ht. destruct (anchored existing); [by apply Hk|by eexists]. Qed.
Lemma and_keep (P Q : Prop) : P -> (P -> Q) -> P /\ Q.
Proof. auto. Qed.
Lemma prepare_replacement_Ok now r existing p : prepare_replacement now r existing = Ok p ->
  replaces now r existing p /\ (definition_ok existing -> definition_ok (pu_task p)).
Proof.
  unfold prepare_replacement. intros [He%negb_false_iff%bool_decide_eq_true H]%reject_Ok.
  apply reject_Ok in H as [_ H]. apply bind_Ok in H as (project & _ & H).
  apply bind_Ok in H as (resolved & Hr & H). apply bind_Ok in H as (schedule & Hs & H).
  apply bind_Ok in H as (agent_ref & Hg & H). apply bind_Ok in H as (task & Ht & H). apply map_err_Ok in Hg.
  apply map_err_Ok, new_scheduled_task_Ok in Ht as (Hn & Hp & ->). rewrite with_branch_match, with_anchor_if in H.
  apply bind_Ok in H as (? & Ha & H). apply bind_Ok in H as (? & _ & H). apply Ok_inj in H as <-.
  apply and_keep; [|intros Hrep].
  - split; simpl; try done.
    + rewrite revision_changed_inputs. unfold run_inputs. simpl. rewrite trim_idemp.
      clear Ha Hr. by destruct (bool_decide _).
    + unfold reanchors, anchored. simpl.
      destruct (is_every_hours schedule), (ur_enabled r), (is_every_hours (sk_schedule existing)), (sk_enabled existing); done.
  - intros [[_ Hrev Happ _ _ _] Hl _ (b & Hb & Hbn) Hk]. split; [split; simpl; try done|done| | |].
    + by apply parse_schedule_read in Hs.
    + case_match; lia.
    + clear Ha Hr Hrep. destruct (ur_approval_change r); [by destruct (bool_decide _)|by destruct policy|done].
    + by apply agent_ref_parse_read in Hg.
    + by rewrite trim_idemp.
    + rewrite !trim_idemp. by rewrite trim_idemp in Hp.
    + exact (activation_approved _ _ Ha).
    + simpl. destruct (_ || _).
      * apply fmap_Ok in Hr as (branch & Hbr & ->). apply resolved_branch in Hbr. exists (trim branch). by rewrite trim_idemp.
      * injection Hr as <-. by exists b.
    + exact (replaces_anchor _ _ _ _ Hrep Hk).
Qed.

Lemma prepare_update_Ok now r s p : prepare_update now r s = Ok p ->
  exists existing, find_task (ur_task_id r) s = Ok existing /\ prepare_replacement now r existing = Ok p.
Proof. unfold prepare_update. by intros (existing & H1 & H2)%bind_Ok; exists existing. Qed.
End targets.

Lemma revoked_ok now t : definition_ok t -> definition_ok (revoked now t).
Proof. intros [[]]. split; simpl; try done. unfold anchored. simpl. by rewrite andb_false_r. Qed.

(** ** The tables *)

Definition tasks_ok (s : ScheduledStore) : Prop :=
  forall id t, sd_tasks s !! id = Some t ->
    sk_id t = id /\ definition_ok t /\ (is_deleted (sk_audit_fields t) = true -> sk_enabled t = false).

Lemma find_task_visible s id t : tasks_ok s -> find_task id s = Ok t <-> sd_tasks s !! id = Some t /\ visible t = true.
Proof.
  intros Hok. unfold find_task, find_scheduled_task. destruct (sd_tasks s !! id) as [t'|] eqn:E; [|by split; [|intros [? _]]].
  destruct (Hok _ _ E) as (_ & Ht & _). destruct (visible t') eqn:Hv.
  - rewrite (readable_row t') by apply Ht. simpl. split; [by intros [= <-]|by intros [[= <-] _]].
  - split; [done|]. intros [[= <-] H]. congruence.
Qed.

Lemma updated_task_ok row t : definition_ok row -> definition_ok t -> definition_ok (updated_task row t).
Proof.
  intros [_ Hl _ _ _] [[] Hlt Ha Hb Hk]. split; simpl; try done.
  intros He. specialize (Ha He). unfold local_activation_allowed in *. simpl. rewrite Hl. by rewrite Hlt in Ha.
Qed.

(** What a replacement leaves: the tables as they were, or the row rewritten when the version is the
    expected one. *)
Lemma persist_update_cases p s : let '(r, s') := persist_update p s in
  s' = s \/ exists row, sd_tasks s !! sk_id (pu_task p) = Some row /\ visible row = true
    /\ updated_at (sk_audit_fields row) = pu_expected_updated_at p
    /\ s' = with_tasks s (<[sk_id (pu_task p) := updated_task row (pu_task p)]> (sd_tasks s)).
Proof.
  unfold persist_update, update_scheduled_task, update_task_row, serialize_revision, reject_if.
  destruct (i64_max <? _); [by left|]. cbn [mbind result_bind]. destruct (sd_tasks s !! _) as [row|] eqn:E; [|by left].
  destruct (visible row && _) eqn:Ev; [|by left]. apply andb_true_iff in Ev as [Hv He%bool_decide_eq_true].
  unfold require_row, reject_if. destruct (negb _); [by left|]. right. by exists row.
Qed.

(** ** Requests in flight *)

(** The tables and what clients have prepared and not persisted. *)
Record DefinitionState : Type := {
  df_store : ScheduledStore;
  df_created : list ScheduledTask;
  df_prepared : list PreparedScheduledTaskUpdate;
}.
Definition with_store (st : DefinitionState) (s : ScheduledStore) : DefinitionState :=
  {| df_store := s; df_created := df_created st; df_prepared := df_prepared st |}.
Definition new_definitions : DefinitionState :=
  {| df_store := new_scheduled_store; df_created := []; df_prepared := [] |}.

(** A transaction that is not on definitions. *)
Definition run_call (c : ScheduledCall) : bool :=
  match c with CallCreate _ | CallUpdate _ _ | CallDelete _ _ => false | _ => true end.

Inductive definition_step (st : DefinitionState) : DefinitionState -> Prop :=
| step_prepare_create (P : ScheduledTargets) now new_id r t :
    in_i64 now = true -> prepare_create now new_id r = Ok t ->
    definition_step st {| df_store := df_store st; df_created := t :: df_created st; df_prepared := df_prepared st |}
| step_persist_create t : t ∈ df_created st ->
    definition_step st (with_store st (persist_create t (df_store st)).2)
| step_prepare_update (P : ScheduledTargets) now r p :
    in_i64 now = true -> prepare_update now r (df_store st) = Ok p ->
    definition_step st {| df_store := df_store st; df_created := df_created st; df_prepared := p :: df_prepared st |}
| step_prepare_revoke now task_id p :
    in_i64 now = true -> prepare_revoke now task_id (df_store st) = Ok p ->
    definition_step st {| df_store := df_store st; df_created := df_created st; df_prepared := p :: df_prepared st |}
| step_persist_update p : p ∈ df_prepared st ->
    definition_step st (with_store st (persist_update p (df_store st)).2)
| step_delete now task_id : in_i64 now = true ->
    definition_step st (with_store st (handle_delete now task_id (df_store st)).2)
| step_run c : run_call c = true ->
    definition_step st (with_store st (scheduled_call (df_store st) c)).

Notation version t := (updated_at (sk_audit_fields t)).

(** A replacement raises the version, unless the version is the last one. *)
Definition prepared_ok (p : PreparedScheduledTaskUpdate) : Prop :=
  definition_ok (pu_task p) /\ in_i64 (version (pu_task p)) = true
  /\ pu_expected_updated_at p <= version (pu_task p)
  /\ (pu_expected_updated_at p < i64_max -> pu_expected_updated_at p < version (pu_task p)).

Lemma next_version now t : in_i64 now = true -> in_i64 (version t) = true ->
  in_i64 (next_updated_at now t) = true /\ version t <= next_updated_at now t
  /\ (version t < i64_max -> version t < next_updated_at now t).
Proof. rewrite !in_i64_spec. unfold next_updated_at, saturate_i64, i64_min, i64_max. lia. Qed.

Lemma run_call_tasks s c : run_call c = true -> sd_tasks (scheduled_call s c) = sd_tasks s.
Proof.
  intros Hc. destruct c; try done; simpl.
  - unfold committed. destruct (resolve_scheduled_occurrence c s) as [[res s']|] eqn:E; [|done].
    apply resolve_inv in E as [(? & _ & _ & ->)|(_ & s1 & -> & H)]; [done|].
    destruct c as [run|m]; destruct H as [_ H]; [|by subst s1]. by apply insert_run_inv in H as (_ & _ & _ & ->).
  - destruct (transition_scheduled_run _ _ _ _ _) as [[res s']|e] eqn:E; [by eapply transition_step|apply run_step_refl].
  - apply annotate_step.
  - unfold committed. destruct (commit_run_worktree _ _ _ _ _ _ _ _) as [[o s']|] eqn:E; [|done].
    by apply commit_step in E as [].
Qed.

Lemma persist_create_cases t s :
  (persist_create t s).2 = s
  \/ (sd_tasks s !! sk_id t = None /\ (persist_create t s).2 = with_tasks s (<[sk_id t := t]> (sd_tasks s))).
Proof.
  unfold persist_create. destruct (create_scheduled_task t s) as [[x s']|e] eqn:E; [right|by left].
  unfold create_scheduled_task in E. apply bind_Ok in E as (? & _ & E).
  apply bind_Ok in E as (? & H%reject_if_Ok%negb_false_iff%bool_decide_eq_true & E).
  do 2 apply bind_Ok in E as (? & _ & E). by injection E as _ <-.
Qed.

Lemma handle_delete_cases now id s :
  (handle_delete now id s).2 = s
  \/ exists row t, sd_tasks s !! id = Some row /\ visible row = true
       /\ (handle_delete now id s).2 = with_tasks s (<[id := t]> (sd_tasks s))
       /\ sk_id t = sk_id row /\ sk_enabled t = false /\ sk_audit_fields t =
          {| created_at := created_at (sk_audit_fields row); updated_at := now; is_deleted := true |}
       /\ (definition_ok row -> definition_ok t).
Proof.
  unfold handle_delete, soft_delete_scheduled_task. destruct (sd_tasks s !! id) as [row|]; [|by left].
  destruct (visible row) eqn:Hv; [right|by left]. eexists row, _. split_and!; try done.
  intros [[]]. split; simpl; try done. unfold anchored. simpl. by rewrite andb_false_r.
Qed.

Record rows_ok (s : ScheduledStore) : Prop := {
  ro_tasks : tasks_ok s;
  ro_versions : forall id t, sd_tasks s !! id = Some t -> in_i64 (version t) = true;
}.
(** A transaction that keeps the rows, and lets versions grow. *)
Record rows_step (s s' : ScheduledStore) : Prop := {
  rs_rows : rows_ok s';
  rs_grow : forall id t', sd_tasks s' !! id = Some t' -> visible t' = true ->
    sd_tasks s !! id = None \/ exists t, sd_tasks s !! id = Some t /\ visible t = true /\ version t <= version t';
  rs_stay : forall id, is_Some (sd_tasks s !! id) -> is_Some (sd_tasks s' !! id);
}.

Lemma rows_same s s' : rows_ok s -> sd_tasks s' = sd_tasks s -> rows_step s s'.
Proof.
  intros [Ht Hv] Heq. split; [split; unfold tasks_ok; by rewrite Heq| |by rewrite Heq].
  rewrite Heq. intros id t Hid Hvis. right. by exists t.
Qed.

Lemma rows_insert s id t : rows_ok s -> sk_id t = id -> definition_ok t -> in_i64 (version t) = true ->
  (is_deleted (sk_audit_fields t) = true -> sk_enabled t = false) ->
  (visible t = true ->
    sd_tasks s !! id = None \/ exists row, sd_tasks s !! id = Some row /\ visible row = true /\ version row <= version t) ->
  rows_step s (with_tasks s (<[id := t]> (sd_tasks s))).
Proof.
  intros [Ht Hv] Hid Hok Hver Hdel Hgrow. split; [split; [unfold tasks_ok|]| |]; cbn [sd_tasks with_tasks].
  - intros id' t' [[<- <-]|[_ H]]%lookup_insert_Some; [by split_and!|by apply Ht].
  - intros id' t' [[<- <-]|[_ H]]%lookup_insert_Some; [done|by eapply Hv].
  - intros id' t' [[<- <-]|[_ H]]%lookup_insert_Some Hvis; [by apply Hgrow|]. right. by exists t'.
  - intros id' [t' Ht']. destruct (decide (id = id')) as [->|Hne]; [rewrite lookup_insert_eq|rewrite lookup_insert_ne by done];
      by eexists.
Qed.

Lemma create_rows t s : rows_ok s -> definition_ok t -> visible t = true -> in_i64 (version t) = true ->
  rows_step s (persist_create t s).2.
Proof.
  intros Hs Hok Hvis Hver. destruct (persist_create_cases t s) as [->|[Hnone ->]]; [by apply rows_same|].
  apply rows_insert; try done; [|by left]. unfold visible in Hvis. by destruct (is_deleted _).
Qed.

Lemma update_rows p s : rows_ok s -> prepared_ok p -> rows_step s (persist_update p s).2.
Proof.
  intros Hs (Hok & Hver & Hle & _). pose proof (persist_update_cases p s) as H.
  destruct (persist_update p s) as [r s']. destruct H as [->|(row & Hrow & Hvis & Hexp & ->)]; [by apply rows_same|].
  pose proof (ro_tasks _ Hs _ _ Hrow) as (Hid & Hrok & _). apply rows_insert; try done.
  - by apply updated_task_ok.
  - unfold visible in Hvis. simpl. by destruct (is_deleted _).
  - intros _. right. exists row. split_and!; [done|done|]. simpl. lia.
Qed.

Lemma delete_rows now id s : rows_ok s -> in_i64 now = true -> rows_step s (handle_delete now id s).2.
Proof.
  intros Hs Hnow. destruct (handle_delete_cases now id s) as [->|(row & t & Hrow & Hvis & -> & Hid & Hen & Hau & Hok)];
    [by apply rows_same|]. pose proof (ro_tasks _ Hs _ _ Hrow) as (Hid' & Hrok & _).
  apply rows_insert; [done|congruence|by apply Hok|by rewrite Hau|done|]. unfold visible. rewrite Hau. done.
Qed.

Lemma prepared_from now p existing s id : in_i64 now = true -> rows_ok s -> find_task id s = Ok existing ->
  (definition_ok existing -> definition_ok (pu_task p)) ->
  version (pu_task p) = next_updated_at now existing -> pu_expected_updated_at p = version existing -> prepared_ok p.
Proof.
  intros Hnow [Ht Hv] Hf Hok Hver Hexp. apply find_task_visible in Hf as [Hrow _]; [|done].
  destruct (next_version now existing Hnow (Hv _ _ Hrow)) as (H1 & H2 & H3). unfold prepared_ok.
  rewrite Hver, Hexp. split_and!; try done. apply Hok. by apply (Ht _ _ Hrow).
Qed.

Record definitions_ok (st : DefinitionState) : Prop := {
  do_rows : rows_ok (df_store st);
  do_created : forall t, t ∈ df_created st -> definition_ok t /\ visible t = true /\ in_i64 (version t) = true;
  do_prepared : forall p, p ∈ df_prepared st -> prepared_ok p;
}.

Lemma definition_step_ok st st' : definitions_ok st -> definition_step st st' ->
  definitions_ok st' /\ rows_step (df_store st) (df_store st').
Proof.
  intros [Hr Hc Hp] H.
  assert (forall s', rows_step (df_store st) s' -> definitions_ok (with_store st s') /\ rows_step (df_store st) s') as Hstore
    by (intros s' Hs; split; [split; [apply Hs|done|done]|done]).
  inversion H as [P now id r t Hn Ht|t Ht|P now r p Hn Hpr|now id p Hn Hpr|p Hin|now id Hn|c Hrun]; subst; clear H; simpl.
  - split; [|by apply rows_same]. split; simpl; try done. intros t' [->|?]%elem_of_cons; [|by apply Hc].
    apply prepare_create_ok in Ht as (? & ? & ->). done.
  - apply Hstore. destruct (Hc _ Ht) as (? & ? & ?). by apply create_rows.
  - split; [|by apply rows_same]. split; simpl; try done. intros p' [->|?]%elem_of_cons; [|by apply Hp].
    apply prepare_update_Ok in Hpr as (existing & Hf & [Hrep Hok]%prepare_replacement_Ok).
    by eapply prepared_from; [..|apply Hrep|apply Hrep].
  - split; [|by apply rows_same]. split; simpl; try done. intros p' [->|?]%elem_of_cons; [|by apply Hp].
    unfold prepare_revoke in Hpr. apply bind_Ok in Hpr as (existing & Hf & [= <-]).
    eapply prepared_from; try done. apply revoked_ok.
  - apply Hstore. by apply update_rows, Hp.
  - apply Hstore. by apply delete_rows.
  - apply Hstore. apply rows_same; [done|]. by apply run_call_tasks.
Qed.

Lemma new_definitions_ok : definitions_ok new_definitions.
Proof. split; [split; intros id t|intros t|intros p]; simpl; rewrite ?lookup_empty, ?elem_of_nil; done. Qed.

Lemma reachable_ok st : rtc definition_step new_definitions st -> definitions_ok st.
Proof.
  intros H. remember new_definitions as st0 eqn:E. assert (definitions_ok st0) as Hok by (subst; apply new_definitions_ok).
  clear E. induction H as [|st0 st1 st2 H1 _ IH]; [done|]. apply IH. by apply (definition_step_ok st0).
Qed.

(** C18: an enabled definition can run.  Over any history of requests, with any interleaving of the
    transactions of concurrent clients and of the scheduler, a visible definition reads back
    exactly as it was stored, is local, and the scheduler may start it exactly when it is
    enabled: it then has the user's consent, a base branch and, if hourly, an anchor. *)
Theorem enabled_definitions_schedulable (st : DefinitionState) (id : ScheduledTaskId) (t : ScheduledTask)
    (Hst : rtc definition_step new_definitions st) (Ht : sd_tasks (df_store st) !! id = Some t)
    (Hvis : visible t = true) :
  find_scheduled_task id (df_store st) = Ok (Some t) /\ sk_execution_location t = Local
  /\ is_schedulable t = sk_enabled t.
Proof.
  destruct (ro_tasks _ (do_rows _ (reachable_ok st Hst)) _ _ Ht) as (_ & Hok & _). split_and!.
  - unfold find_scheduled_task. rewrite Ht, Hvis, readable_row by apply Hok. done.
  - apply Hok.
  - by apply definition_schedulable.
Qed.

(** What an update prepares.  The replacement is prepared only against the version the client
    saw; it keeps the identity and the creation time, counts a new revision exactly when the
    schedule, the project, the agent, the model or the prompt changes, drops the consent when it
    is kept across a move to another project, and keeps the hourly grid exactly when the task
    was hourly and enabled before and still is. *)
Theorem update_prepares_replacement {targets : ScheduledTargets} (now : Z) (r : UpdateScheduledTaskRequest)
    (s : ScheduledStore) (p : PreparedScheduledTaskUpdate) (Hp : prepare_update now r s = Ok p) :
  exists existing, find_task (ur_task_id r) s = Ok existing
    /\ ur_expected_updated_at r = updated_at (sk_audit_fields existing) /\ replaces now r existing p.
Proof.
  apply prepare_update_Ok in Hp as (existing & Hf & H). exists existing. split; [done|].
  pose proof H as [Hrep _]%prepare_replacement_Ok. pose proof H as [He _]%reject_Ok.
  split; [|done]. by apply negb_false_iff, bool_decide_eq_true in He.
Qed.

(** Once a version is past, it does not come back. *)
Definition version_past (s : ScheduledStore) (id : ScheduledTaskId) (v : Z) : Prop :=
  is_Some (sd_tasks s !! id) /\ forall t, sd_tasks s !! id = Some t -> visible t = true -> v < version t.

Lemma version_past_step s s' id v : rows_step s s' -> version_past s id v -> version_past s' id v.
Proof.
  intros [_ Hg Hs] [Hsome Hv]. split; [by apply Hs|]. intros t' Ht' Hvis.
  destruct (Hg _ _ Ht' Hvis) as [Hn|(t & Ht & Hvt & Hle)]; [destruct Hsome; congruence|].
  specialize (Hv _ Ht Hvt). lia.
Qed.
Lemma version_past_rtc st st' id v : definitions_ok st -> rtc definition_step st st' ->
  version_past (df_store st) id v -> version_past (df_store st') id v.
Proof.
  intros Hok H. induction H as [|st st1 st' H1 _ IH]; [done|]. intros Hv.
  destruct (definition_step_ok _ _ Hok H1) as [Hok1 Hs]. apply IH; [done|]. by eapply version_past_step.
Qed.

(** A replacement that was accepted was for the version of the row, which it replaced. *)
Lemma persist_update_accepted p s c s' : persist_update p s = (Ok c, s') ->
  exists row, sd_tasks s !! sk_id (pu_task p) = Some row /\ visible row = true
    /\ version row = pu_expected_updated_at p
    /\ s' = with_tasks s (<[sk_id (pu_task p) := updated_task row (pu_task p)]> (sd_tasks s)).
Proof.
  unfold persist_update, update_scheduled_task, update_task_row, serialize_revision, reject_if.
  destruct (i64_max <? _); [done|]. cbn [mbind result_bind]. destruct (sd_tasks s !! _) as [row|] eqn:E.
  2:{ destruct (find_scheduled_task _ _) as [[]|]; done. }
  destruct (visible row && _) eqn:Ev.
  2:{ destruct (find_scheduled_task _ _) as [[]|]; done. }
  apply andb_true_iff in Ev as [Hv He%bool_decide_eq_true]. unfold require_row, reject_if. destruct (negb _); [done|].
  cbn [mbind result_bind]. intros [= _ <-]. by exists row.
Qed.

Lemma persist_update_stale p s : tasks_ok s -> version_past s (sk_id (pu_task p)) (pu_expected_updated_at p) ->
  Z.of_N (sk_revision (pu_task p)) <= i64_max ->
  exists row, sd_tasks s !! sk_id (pu_task p) = Some row
    /\ persist_update p s = (Err (if visible row then ScheduledTaskConflict (sk_id (pu_task p))
                                  else ScheduledTaskNotFound (sk_id (pu_task p))), s).
Proof.
  intros Hok [[row Hrow] Hv] Hrev. exists row. split; [done|]. destruct (Hok _ _ Hrow) as (_ & Hr & _).
  unfold persist_update, update_scheduled_task, update_task_row, serialize_revision, reject_if.
  rewrite (proj2 (Z.ltb_ge _ _)) by done. cbn [mbind result_bind]. rewrite Hrow.
  destruct (visible row) eqn:Hvis.
  - specialize (Hv _ Hrow Hvis). rewrite bool_decide_eq_false_2 by lia. cbn [andb].
    unfold find_scheduled_task. rewrite Hrow, Hvis, readable_row by apply Hr. done.
  - cbn [andb]. unfold find_scheduled_task. by rewrite Hrow, Hvis.
Qed.

(** No update is lost.  When two clients prepared replacements against the same version of a
    definition and one of them was accepted, the other is refused whenever it comes, whatever
    requests come in between, and changes nothing: as a conflict, or as not found when the
    definition has been deleted. *)
Theorem stale_update_refused (st : DefinitionState) (p1 p2 : PreparedScheduledTaskUpdate)
    (c : ContractScheduledTask) (s1 : ScheduledStore) (st2 : DefinitionState)
    (Hst : rtc definition_step new_definitions st) (H1 : p1 ∈ df_prepared st) (H2 : p2 ∈ df_prepared st)
    (Hid : sk_id (pu_task p1) = sk_id (pu_task p2)) (Hexp : pu_expected_updated_at p1 = pu_expected_updated_at p2)
    (Hlast : pu_expected_updated_at p1 < i64_max) (Hrev : Z.of_N (sk_revision (pu_task p2)) <= i64_max)
    (Haccepted : persist_update p1 (df_store st) = (Ok c, s1))
    (Hlater : rtc definition_step (with_store st s1) st2) :
  exists row, sd_tasks (df_store st2) !! sk_id (pu_task p2) = Some row
    /\ persist_update p2 (df_store st2)
       = (Err (if visible row then ScheduledTaskConflict (sk_id (pu_task p2))
               else ScheduledTaskNotFound (sk_id (pu_task p2))), df_store st2).
Proof.
  pose proof (reachable_ok _ Hst) as Hok.
  assert (definition_step st (with_store st s1)) as Hstep.
  { replace s1 with (persist_update p1 (df_store st)).2 by (by rewrite Haccepted). by apply step_persist_update. }
  destruct (definition_step_ok _ _ Hok Hstep) as [Hok1 _].
  assert (definitions_ok st2) as Hok2.
  { apply reachable_ok. etrans; [exact Hst|]. eapply rtc_l; [exact Hstep|done]. }
  apply persist_update_stale; [apply Hok2| |done]. eapply version_past_rtc; [exact Hok1|done|].
  apply persist_update_accepted in Haccepted as (row & Hrow & Hvis & Hver & ->).
  destruct (do_prepared _ Hok _ H1) as (_ & _ & _ & Hlt). rewrite <-Hid, <-Hexp. split.
  - simpl. rewrite lookup_insert_eq. by eexists.
  - simpl. intros t. rewrite lookup_insert_eq. intros [= <-] _. simpl. by apply Hlt.
Qed.

(** ** A sample *)

Definition sample_workspace : Workspace :=
  {| ws_id := "w"; ws_project_id := "p"; ws_location := LocalFilesystem "/src"; ws_lifecycle := WsActive;
     ws_audit_fields := {| created_at := 0; updated_at := 0; is_deleted := false |} |}.
#[local] Program Instance sample_targets : ScheduledTargets := {
  find_project id := Ok (Some {| pr_id := id; pr_repository_kind := "git"; pr_default_branch := None |});
  find_main_workspace _ := Ok (Some sample_workspace);
  validate_git_worktree_target _ := Ok tt;
  resolve_default_branch _ := Ok (Some "main");
}.
Next Obligation. intros path branch H. simpl in H. apply Ok_inj in H. injection H as <-. by vm_compute. Qed.

Definition sample_request : CreateScheduledTaskRequest :=
  {| cr_name := " Quality report "; cr_enabled := true; cr_schedule := EveryHours 6; cr_execution_location := Local;
     cr_project_id := "p"; cr_agent_ref := "ora/agent"; cr_model := None; cr_prompt := "Run the quality gate";
     cr_approval_policy := Some FullAutoInWorktree |}.
Definition sample_update (prompt : string) (enabled : bool) : UpdateScheduledTaskRequest :=
  {| ur_task_id := "t"; ur_expected_updated_at := 1000; ur_name := "Quality report"; ur_enabled := enabled;
     ur_schedule := EveryHours 6; ur_project_id := "p"; ur_agent_ref := "ora/agent"; ur_model := None;
     ur_prompt := prompt; ur_approval_change := Keep |}.

Definition unwrap {E A} (d : A) (r : result E A) : A := match r with Ok a => a | Err _ => d end.
Definition blank_task : ScheduledTask :=
  {| sk_id := ""; sk_name := ""; sk_enabled := false; sk_schedule := EveryHours 1; sk_execution_location := Cloud;
     sk_project_id := ""; sk_agent_ref := ""; sk_model := None; sk_prompt := ""; sk_revision := 0;
     sk_approval := None; sk_schedule_anchor_at := None; sk_worktree_base_branch := None;
     sk_audit_fields := {| created_at := 0; updated_at := 0; is_deleted := false |} |}.
Definition sample_task : ScheduledTask := Eval vm_compute in unwrap blank_task (prepare_create 1000 "t" sample_request).
Definition sample_st1 : DefinitionState :=
  with_store new_definitions (scheduled_call new_scheduled_store (CallProject "p")).
Definition sample_st2 : DefinitionState :=
  {| df_store := df_store sample_st1; df_created := [sample_task]; df_prepared := [] |}.
Definition sample_st3 : DefinitionState := with_store sample_st2 (persist_create sample_task (df_store sample_st2)).2.
Definition sample_prepared (prompt : string) (enabled : bool) : PreparedScheduledTaskUpdate :=
  unwrap {| pu_task := blank_task; pu_expected_updated_at := 0 |}
    (prepare_update 2000 (sample_update prompt enabled) (df_store sample_st3)).
Definition sample_p1 : PreparedScheduledTaskUpdate := Eval vm_compute in sample_prepared "Run all gates" true.
Definition sample_p2 : PreparedScheduledTaskUpdate := Eval vm_compute in sample_prepared "Run the quality gate" false.
Definition sample_st4 : DefinitionState :=
  {| df_store := df_store sample_st3; df_created := [sample_task]; df_prepared := [sample_p1] |}.
Definition sample_st5 : DefinitionState :=
  {| df_store := df_store sample_st3; df_created := [sample_task]; df_prepared := [sample_p2; sample_p1] |}.

Lemma sample_reach : rtc definition_step new_definitions sample_st5.
Proof.
  eapply rtc_l; [by apply (step_run _ (CallProject "p"))|]. fold sample_st1.
  eapply rtc_l; [apply (step_prepare_create _ sample_targets 1000 "t" sample_request sample_task); by vm_compute|].
  fold sample_st2. eapply rtc_l; [apply (step_persist_create sample_st2 sample_task); by apply list_elem_of_here|].
  fold sample_st3. eapply rtc_l; [apply (step_prepare_update sample_st3 sample_targets 2000
    (sample_update "Run all gates" true) sample_p1); by vm_compute|].
  fold sample_st4. eapply rtc_l; [apply (step_prepare_update sample_st4 sample_targets 2000
    (sample_update "Run the quality gate" false) sample_p2); by vm_compute|]. reflexivity.
Qed.

Lemma enabled_definitions_schedulable_witness :
  find_scheduled_task "t" (df_store sample_st5) = Ok (Some sample_task)
  /\ sk_execution_location sample_task = Local /\ is_schedulable sample_task = sk_enabled sample_task.
Proof.
  assert (sd_tasks (df_store sample_st5) !! "t" = Some sample_task) as H by (vm_compute; reflexivity).
  exact (enabled_definitions_schedulable sample_st5 "t" sample_task sample_reach H eq_refl).
Defined.

Lemma update_prepares_replacement_witness :
  exists existing, find_task "t" (df_store sample_st3) = Ok existing
    /\ 1000 = updated_at (sk_audit_fields existing)
    /\ replaces 2000 (sample_update "Run all gates" true) existing sample_p1.
Proof.
  assert (prepare_update 2000 (sample_update "Run all gates" true) (df_store sample_st3) = Ok sample_p1) as H
    by (vm_compute; reflexivity).
  exact (update_prepares_replacement 2000 (sample_update "Run all gates" true) (df_store sample_st3) sample_p1 H).
Defined.

Definition sample_s6 : ScheduledStore := (persist_update sample_p1 (df_store sample_st5)).2.
Lemma stale_update_refused_witness :
  exists row, sd_tasks sample_s6 !! "t" = Some row
    /\ persist_update sample_p2 sample_s6
       = (Err (if visible row then ScheduledTaskConflict "t" else ScheduledTaskNotFound "t"), sample_s6).
Proof.
  assert (exists c, persist_update sample_p1 (df_store sample_st5) = (Ok c, sample_s6)) as [c Hc]
    by (eexists; vm_compute; reflexivity).
  refine (stale_update_refused sample_st5 sample_p1 sample_p2 c sample_s6 (with_store sample_st5 sample_s6)
    sample_reach _ _ eq_refl eq_refl eq_refl _ Hc _).
  - apply list_elem_of_further, list_elem_of_here.
  - apply list_elem_of_here.
  - by vm_compute.
  - reflexivity.
Defined.
