(* ===== verification/ScheduledRuntime.v ===== *)
(** * The scheduled-task runtime of the desktop backend

    [crates/backend/src/scheduled_task.rs], [scheduled_task_runtime.rs] with its contracts, and
    the worktree janitor of [scheduled_task_worktree.rs].  The runtime holds one timer handle per
    task; a timer triggers a task, the trigger admits the occurrence and the executor drives the
    run through its worktree, session and settlement.  What the outside answers (Git, sessions,
    clocks, agents) is an argument, and other transactions come in between the executor's own. *)

From stdpp Require Import fin_maps.
From Stdlib Require Import Ascii.
From S2P Require Import Prelude RustStr ScheduledTask ScheduledRun ScheduledStore ScheduledLaws ScheduledHandlers.
Local Open Scope ora_scope.
Local Open Scope Z_scope.

(** ** Effects *)

Inductive ScheduledTaskEvent : Type :=
| RunStarted (task_id session_id worktree_task_id project_id : string)
| RunFinished (task_id run_id : string) (status : ScheduledRunStatus) (reason : option ScheduledRunFailureReason)
| OccurrenceMissed (task_id : string) (scheduled_at : Z) (reason : ScheduledMissReason).

(** What happens outside the tables, in order. *)
Inductive RuntimeEffect : Type :=
| ProvisionWorktree (run_id : ScheduledRunId)
| StopSession (session_id : SessionId)
| Publish (e : ScheduledTaskEvent)
| CollectArtifacts (run_id : ScheduledRunId)
| SweepArtifacts
| DeleteTask (task_id : TaskId).

(** ** The janitor *)

Definition MAX_RETAINED_SCHEDULED_WORKTREES : nat := 10.
Definition SCHEDULED_ARTIFACT_DIRECTORY : string := ".ora-scheduled-artifacts".

(** A status path inside the declared output directory. *)
Definition is_separator (a : ascii) : bool := is_char "/"%char a || is_char "\"%char a.
Definition is_declared_artifact_path (path : string) : bool :=
  let path := trim_end_matches is_separator path in
  bool_decide (path = SCHEDULED_ARTIFACT_DIRECTORY) || starts_with (SCHEDULED_ARTIFACT_DIRECTORY +:+ "/") path
  || starts_with (SCHEDULED_ARTIFACT_DIRECTORY +:+ "\") path.
(** [git_worktree_has_changes]: the checkout's existence, the paths of [git status] for the worktree Git
    finds there and the patch against a baseline, if they can be read. *)
Definition git_worktree_has_changes (checkout_exists : bool) (status : option (list string)) (baseline : option string)
    (diff : string -> option string) : option bool :=
  if negb checkout_exists then Some false
  else
    entries ← status;
    if existsb (fun path => negb (is_declared_artifact_path path)) entries then Some true
    else
      base ← baseline;
      patch ← diff base;
      Some (negb (bool_decide (patch = ""))).

Record RetentionCandidate : Type := {
  rc_run_id : ScheduledRunId; rc_task_id : TaskId; rc_task_exists : bool; rc_in_use : bool;
  rc_has_changes : option bool;
}.
Definition unmodified (c : RetentionCandidate) : bool := bool_decide (rc_has_changes c = Some false).

Fixpoint discard_walk (remaining_overflow : nat) (candidates : list RetentionCandidate) : list (TaskId * ScheduledRunId) :=
  match candidates with
  | [] => []
  | c :: rest =>
      if negb (rc_task_exists c) || rc_in_use c then discard_walk remaining_overflow rest
      else if unmodified c then (rc_task_id c, rc_run_id c) :: discard_walk remaining_overflow rest
      else
        match remaining_overflow with
        | S remaining_overflow => (rc_task_id c, rc_run_id c) :: discard_walk remaining_overflow rest
        | O => discard_walk O rest
        end
  end.
Definition retained_candidate (c : RetentionCandidate) : bool :=
  rc_task_exists c && negb (rc_in_use c) && negb (unmodified c).
Definition retention_discards (candidates : list RetentionCandidate) (max_retained : nat) :
    list (TaskId * ScheduledRunId) :=
  discard_walk (length (filter (fun c => retained_candidate c = true) candidates) - max_retained) candidates.

(** What the probes of a sweep answer: [find_task] ([None]: the read failed), activity, the committed
    checkout path, the classification of a worktree and whether a deletion succeeds. *)
Record JanitorProbes : Type := {
  jp_task_exists : TaskId -> option bool;
  jp_in_use : TaskId -> bool;
  jp_checkout_path : TaskId -> option string;
  jp_has_changes : ScheduledRunId -> TaskId -> string -> option bool;
  jp_delete : TaskId -> bool;
}.

Record Exec : Type := { ex_store : ScheduledStore; ex_effects : list RuntimeEffect }.
Definition emit (e : RuntimeEffect) (x : Exec) : Exec :=
  {| ex_store := ex_store x; ex_effects := ex_effects x ++ [e] |}.
Definition set_store (x : Exec) (s : ScheduledStore) : Exec := {| ex_store := s; ex_effects := ex_effects x |}.

Section janitor.
Variable probes : JanitorProbes.

Definition discard_task (task_id : TaskId) (run_id : ScheduledRunId) (x : Exec) : Exec :=
  let x := emit (DeleteTask task_id) x in
  if jp_delete probes task_id then set_store x (clear_retained_worktree_link run_id (ex_store x)) else x.

(** One run of the sweep: its candidate, and the link cleared when the task is gone. *)
Definition retention_candidate (run : ScheduledRun) (x : Exec) : option RetentionCandidate * Exec :=
  match rn_worktree_task_id run with
  | None => (None, x)
  | Some task_id =>
      match jp_task_exists probes task_id with
      | None => (None, x)
      | Some false => (None, set_store x (clear_retained_worktree_link (rn_id run) (ex_store x)))
      | Some true =>
          match (match rn_worktree_path run with Some path => Some path | None => jp_checkout_path probes task_id end) with
          | None => (None, x)
          | Some path =>
              (Some {| rc_run_id := rn_id run; rc_task_id := task_id; rc_task_exists := true;
                       rc_in_use := jp_in_use probes task_id;
                       rc_has_changes := jp_has_changes probes (rn_id run) task_id path |}, x)
          end
      end
  end.
Fixpoint retention_candidates (runs : list ScheduledRun) (x : Exec) : list RetentionCandidate * Exec :=
  match runs with
  | [] => ([], x)
  | run :: rest =>
      let '(c, x) := retention_candidate run x in
      let '(cs, x) := retention_candidates rest x in
      (match c with Some c => c :: cs | None => cs end, x)
  end.
Definition enforce_retention (x : Exec) : Exec :=
  let '(candidates, x) := retention_candidates (list_scheduled_runs_with_retained_worktrees (ex_store x)) x in
  fold_left (fun x d => discard_task d.1 d.2 x) (retention_discards candidates MAX_RETAINED_SCHEDULED_WORKTREES) x.

Definition janitor_run_finished (run : ScheduledRun) (task_id : TaskId) (worktree_path : option string) (x : Exec) : Exec :=
  if negb (bool_decide (jp_task_exists probes task_id = Some true)) || jp_in_use probes task_id then x
  else
    match (match worktree_path with Some path => jp_has_changes probes (rn_id run) task_id path | None => Some false end) with
    | Some false => discard_task task_id (rn_id run) x
    | _ => enforce_retention x
    end.
End janitor.

(** ** The executor *)

(** [StopReason] of the agent client protocol, which may grow. *)
Inductive StopReason : Type := EndTurn | StopCancelled | MaxTokens | MaxTurnRequests | Refusal | OtherStop.
Definition scheduled_run_completion_transition (r : StopReason) : ScheduledRunTransition :=
  match r with EndTurn => Succeed | StopCancelled => CancelRun | _ => FailRun ExecutionError end.

(** What the select loop sees next: the timeout, or an item of the prompt stream. *)
Inductive PromptPoll : Type := PollTimeout | PollUpdate | PollCompleted (reason : StopReason) | PollError | PollClosed.

(** How provisioning goes: whether Git prepares the checkout, the identity and the path it gets, and
    whether the ownership commit finds the project and can write the other rows. *)
Record WorktreeAttempt : Type :=
  { wa_prepared : bool; wa_task : TaskId; wa_path : string; wa_visible : bool; wa_commits : bool; wa_now : Z }.

Record ExecutionEnv : Type := {
  ee_attempt : WorktreeAttempt;
  ee_session : option SessionId;               (** [None]: the session does not start *)
  ee_prompt : option (list PromptPoll);        (** [None]: the prompt does not start *)
  ee_message : option string;                  (** the final assistant message; [None] also when its annotation does not commit *)
  ee_started_at : Z;
  ee_start_commits : bool;                     (** whether the database carries out the start, and the terminal write *)
  ee_finished_at : Z;
  ee_finish_commits : bool;
  ee_janitor : JanitorProbes;
  ee_before_commit : list ScheduledCall;       (** transactions of others, between the executor's own *)
  ee_before_start : list ScheduledCall;
  ee_before_finish : list ScheduledCall;
  ee_before_annotate : list ScheduledCall;
}.

Definition others (cs : list ScheduledCall) (x : Exec) : Exec := set_store x (fold_left scheduled_call cs (ex_store x)).

(** [transition]: whether the lifecycle write was accepted.  A failure of the database is logged and
    answered like a refusal. *)
Definition transition (commits : bool) (run : ScheduledRun) (t : ScheduledRunTransition) (now : Z) (x : Exec) :
    bool * Exec :=
  match transition_scheduled_run commits (rn_id run) t now (ex_store x) with
  | Ok (RunUpdated _, s) => (true, set_store x s)
  | Ok (_, s) => (false, set_store x s)
  | Err _ => (false, x)
  end.

(** [publish_finished] *)
Definition finished_event (run : ScheduledRun) (t : ScheduledRunTransition) : option ScheduledTaskEvent :=
  let finished status reason := Some (RunFinished (oc_task_id (rn_occurrence run)) (rn_id run) status reason) in
  match t with
  | Start _ _ _ => None
  | Succeed => finished RunSucceeded None
  | FailRun reason => finished RunFailed (Some reason)
  | CancelRun => finished RunCancelled None
  end.
Definition publish_finished (run : ScheduledRun) (t : ScheduledRunTransition) (x : Exec) : Exec :=
  match finished_event run t with Some e => emit (Publish e) x | None => x end.

Section executor.
Variable env : ExecutionEnv.

(** [settle_terminal_run] *)
Definition settle_terminal_run (run : ScheduledRun) (t : ScheduledRunTransition) (x : Exec) : bool * Exec :=
  let '(accepted, x) := transition (ee_finish_commits env) run t (ee_finished_at env) (others (ee_before_finish env) x) in
  (accepted, if accepted then publish_finished run t x else x).

Definition finish (run : ScheduledRun) (worktree_task_id : option TaskId) (worktree_path : option string)
    (t : ScheduledRunTransition) (x : Exec) : Exec :=
  let '(accepted, x) := settle_terminal_run run t x in
  if accepted
  then match worktree_task_id with
       | Some task_id => janitor_run_finished (ee_janitor env) run task_id worktree_path x
       | None => x
       end
  else x.

Definition annotate_verdict (run : ScheduledRun) (x : Exec) : Exec :=
  match ee_message env ≫= parse_scheduled_run_verdict with
  | Some a => set_store x (annotate_scheduled_run_verdict (rn_id run) (an_verdict a) (an_detail a) (ee_finished_at env)
                             (ex_store x)).2
  | None => x
  end.

(** [settle_succeeded_run] *)
Definition settle_succeeded_run (run : ScheduledRun) (x : Exec) : bool * Exec :=
  let '(accepted, x) := transition (ee_finish_commits env) run Succeed (ee_finished_at env) (others (ee_before_finish env) x) in
  if accepted
  then (true, publish_finished run Succeed
                (emit (CollectArtifacts (rn_id run)) (annotate_verdict run (others (ee_before_annotate env) x))))
  else (false, x).

Definition finish_succeeded (run : ScheduledRun) (task_id : TaskId) (worktree_path : string) (x : Exec) : Exec :=
  let '(accepted, x) := settle_succeeded_run run x in
  if accepted
  then emit SweepArtifacts (janitor_run_finished (ee_janitor env) run task_id (Some worktree_path) x)
  else x.

(** The loop over the prompt stream; the timeout is armed, so silence ends in it. *)
Fixpoint drive_prompt (run : ScheduledRun) (session_id : SessionId) (task_id : TaskId) (worktree_path : string)
    (polls : list PromptPoll) (x : Exec) : Exec :=
  let stopped := emit (StopSession session_id) x in
  let failed reason := finish run (Some task_id) (Some worktree_path) (FailRun reason) stopped in
  match polls with
  | [] | PollTimeout :: _ => failed RunTimeout
  | PollUpdate :: rest => drive_prompt run session_id task_id worktree_path rest x
  | PollCompleted reason :: _ =>
      match scheduled_run_completion_transition reason with
      | Succeed => finish_succeeded run task_id worktree_path stopped
      | t => finish run (Some task_id) (Some worktree_path) t stopped
      end
  | PollError :: _ | PollClosed :: _ => failed ExecutionError
  end.

(** [create_for_scheduled_run]: the checkout, then the ownership commit. *)
Definition create_for_scheduled_run (run : ScheduledRun) (x : Exec) : option (TaskId * string) * Exec :=
  let a := ee_attempt env in
  let x := others (ee_before_commit env) (emit (ProvisionWorktree (rn_id run)) x) in
  if negb (wa_prepared a) then (None, x)
  else
    match commit_run_worktree (wa_visible a) (wa_commits a) (rn_id run) (wa_task a) (wa_path a)
            (sp_project_id (rn_snapshot run)) (wa_now a) (ex_store x) with
    | Ok (Committed, s) => (Some (wa_task a, wa_path a), set_store x s)
    | Ok (_, s) => (None, set_store x s)
    | Err _ => (None, x)
    end.

(** [DesktopScheduledRunExecutor::execute] *)
Definition execute (run : ScheduledRun) (x : Exec) : Exec :=
  match keep_if (fun branch => negb (bool_decide (trim branch = ""))) (sp_worktree_base_branch (rn_snapshot run)) with
  | None => finish run None None (FailRun WorktreeFailed) x
  | Some _ =>
      let '(created, x) := create_for_scheduled_run run x in
      match created with
      | None => finish run None None (FailRun WorktreeFailed) x
      | Some (task_id, worktree_path) =>
          match ee_session env with
          | None => finish run (Some task_id) None (FailRun TargetUnavailable) x
          | Some session_id =>
              let '(started, x) :=
                transition (ee_start_commits env) run (Start session_id worktree_path task_id) (ee_started_at env)
                  (others (ee_before_start env) x) in
              if negb started
              then janitor_run_finished (ee_janitor env) run task_id None (emit (StopSession session_id) x)
              else
                let x := emit (Publish (RunStarted (oc_task_id (rn_occurrence run)) session_id task_id
                                          (sp_project_id (rn_snapshot run)))) x in
                match ee_prompt env with
                | None =>
                    finish run (Some task_id) (Some worktree_path) (FailRun ExecutionError)
                      (emit (StopSession session_id) x)
                | Some polls => drive_prompt run session_id task_id worktree_path polls x
                end
          end
      end
  end.
End executor.

(** ** Timers *)

Inductive ScheduledTaskHandle : Type :=
| HandleCron (expression : string)
| HandleDelay (scheduled_at : Z).

(** The runtime: the tables, the timer of each task, triggers queued to run at once, and effects. *)
Record Runtime : Type := {
  rt_exec : Exec;
  rt_handles : gmap ScheduledTaskId ScheduledTaskHandle;
  rt_queue : list (ScheduledTaskId * Z);
}.
Notation rt_store rt := (ex_store (rt_exec rt)).
Definition with_exec (rt : Runtime) (x : Exec) : Runtime :=
  {| rt_exec := x; rt_handles := rt_handles rt; rt_queue := rt_queue rt |}.
Definition with_rt_store (rt : Runtime) (s : ScheduledStore) : Runtime := with_exec rt (set_store (rt_exec rt) s).
Definition with_handles (rt : Runtime) (h : gmap ScheduledTaskId ScheduledTaskHandle) : Runtime :=
  {| rt_exec := rt_exec rt; rt_handles := h; rt_queue := rt_queue rt |}.

Section runtime.
Context {cron : Cron}.

(** [schedule_hourly] and [schedule_calendar], while the scheduler takes registrations. *)
Definition task_handle (t : ScheduledTask) (now : Z) : option ScheduledTaskHandle :=
  match sk_schedule t with
  | EveryHours _ =>
      anchor_at ← sk_schedule_anchor_at t;
      match next_hourly_occurrence_after (sk_schedule t) anchor_at now with
      | Some (Some scheduled_at) => Some (HandleDelay scheduled_at)
      | _ => None
      end
  | _ =>
      expression ← calendar_cron_expression (sk_schedule t);
      if cron_parses expression then Some (HandleCron expression) else None
  end.

Definition cancel (task_id : ScheduledTaskId) (rt : Runtime) : Runtime :=
  with_handles rt (delete task_id (rt_handles rt)).
Definition reconcile (t : ScheduledTask) (now : Z) (rt : Runtime) : Runtime :=
  let rt := cancel (sk_id t) rt in
  if negb (is_schedulable t) then rt
  else match task_handle t now with
       | Some handle => with_handles rt (<[sk_id t := handle]> (rt_handles rt))
       | None => rt
       end.

(** ** Triggers *)

Record TriggerEnv : Type :=
  { te_now : Z; te_observed_at : Z; te_run_id : ScheduledRunId; te_execution : ExecutionEnv }.

(** The settlement of an admission. *)
Definition settle_admission (env : TriggerEnv) (admission : result ApplicationError ScheduledOccurrenceResolution)
    (x : Exec) : Exec :=
  match admission with
  | Ok (AdmittedRun run) => execute (te_execution env) run (emit SweepArtifacts x)
  | Ok (Missed missed) =>
      emit (Publish (OccurrenceMissed (oc_task_id (ms_occurrence missed)) (oc_scheduled_at (ms_occurrence missed))
                       (ms_reason missed))) (emit SweepArtifacts x)
  | _ => x
  end.

Definition trigger (env : TriggerEnv) (task_id : ScheduledTaskId) (scheduled_at : Z) (rt : Runtime) : Runtime :=
  match find_scheduled_task task_id (rt_store rt) with
  | Ok (Some t) =>
      if negb (is_schedulable t) then cancel task_id rt
      else
        let rt := if is_every_hours (sk_schedule t) then reconcile t (te_now env) rt else rt in
        let '(admission, s) := admit_occurrence (te_run_id env) t scheduled_at (te_observed_at env) (rt_store rt) in
        with_exec rt (settle_admission env admission (set_store (rt_exec rt) s))
  | _ => rt
  end.

Definition trigger_calendar (env : TriggerEnv) (observed_at : Z) (task_id : ScheduledTaskId) (rt : Runtime) : Runtime :=
  match find_scheduled_task task_id (rt_store rt) with
  | Ok (Some t) =>
      match latest_calendar_occurrence_at_or_before (sk_schedule t) observed_at with
      | Some scheduled_at => trigger env task_id scheduled_at rt
      | None => rt
      end
  | _ => rt
  end.

(** ** Startup *)

Definition recover_offline_occurrences (t : ScheduledTask) (observed_at : Z) (rt : Runtime) : Runtime :=
  if negb (is_schedulable t) then rt
  else
    let occurrences := recent_scheduled_occurrences t observed_at in
    match last occurrences with
    | None => rt
    | Some latest =>
        let '(r, s) := record_offline_missed t occurrences observed_at (rt_store rt) in
        let rt := with_rt_store rt s in
        match r with
        | Err _ => rt
        | Ok _ =>
            if saturate_i64 (observed_at - latest) <=? MAX_SCHEDULED_OCCURRENCE_LATENESS_MILLIS
            then {| rt_exec := rt_exec rt; rt_handles := rt_handles rt; rt_queue := rt_queue rt ++ [(sk_id t, latest)] |}
            else rt
        end
    end.

(** [restore], with one clock reading; the retention sweep at its end is queued and best-effort. *)
Definition restore (now : Z) (rt : Runtime) : Runtime :=
  let rt := with_rt_store rt (fail_interrupted_scheduled_runs now (rt_store rt)).2 in
  match list_scheduled_tasks (rt_store rt) with
  | Ok tasks => fold_left (fun rt t => reconcile t now (recover_offline_occurrences t now rt)) tasks rt
  | Err _ => rt
  end.

(** ** The API *)

Definition require_requested_model (model : option string) (models : list string) : bool :=
  match model with None => true | Some model => existsb (fun m => bool_decide (m = model)) models end.
(** [validate_agent_model]: the agent's models are asked in the project's main workspace. *)
Definition validate_agent_model {targets : ScheduledTargets} (agent_models : string -> string -> option (list string))
    (t : ScheduledTask) : bool :=
  match find_main_workspace (sk_project_id t) with
  | Ok (Some workspace) =>
      match agent_models (sk_agent_ref t) (ws_id workspace) with
      | Some models => require_requested_model (sk_model t) models
      | None => false
      end
  | _ => false
  end.
Definition runtime_eligible {targets : ScheduledTargets} (agent_models : string -> string -> option (list string))
    (t : ScheduledTask) : bool :=
  negb (sk_enabled t && bool_decide (sk_execution_location t = Local)) || validate_agent_model agent_models t.

(** [ScheduledTaskApi::create], [update], [delete] and [revoke_approval].  A successful write is mirrored in
    the timers. *)
Definition api_create {targets : ScheduledTargets} (agent_models : string -> string -> option (list string)) (now : Z)
    (new_id : ScheduledTaskId) (r : CreateScheduledTaskRequest) (rt : Runtime) : Runtime :=
  match prepare_create now new_id r with
  | Ok t =>
      if negb (runtime_eligible agent_models t) then rt
      else
        let '(response, s) := persist_create t (rt_store rt) in
        let rt := with_rt_store rt s in
        match response with Ok _ => reconcile t now rt | Err _ => rt end
  | Err _ => rt
  end.
Definition api_update {targets : ScheduledTargets} (agent_models : string -> string -> option (list string)) (now : Z)
    (r : UpdateScheduledTaskRequest) (rt : Runtime) : Runtime :=
  match prepare_update now r (rt_store rt) with
  | Ok p =>
      if negb (runtime_eligible agent_models (pu_task p)) then rt
      else
        let '(response, s) := persist_update p (rt_store rt) in
        let rt := with_rt_store rt s in
        match response with Ok _ => reconcile (pu_task p) now rt | Err _ => rt end
  | Err _ => rt
  end.
Definition api_delete (now : Z) (task_id : ScheduledTaskId) (rt : Runtime) : Runtime :=
  let '(response, s) := handle_delete now task_id (rt_store rt) in
  let rt := with_rt_store rt s in
  match response with Ok _ => cancel task_id rt | Err _ => rt end.
Definition api_revoke_approval (now : Z) (task_id : ScheduledTaskId) (rt : Runtime) : Runtime :=
  match prepare_revoke now task_id (rt_store rt) with
  | Ok p =>
      let '(response, s) := persist_update p (rt_store rt) in
      let rt := with_rt_store rt s in
      match response with Ok _ => cancel task_id rt | Err _ => rt end
  | Err _ => rt
  end.
End runtime.
