(* ===== verification/ScheduledExecution.v ===== *)
(** * The executor settles what was admitted

    Whatever Git, the session and the agent do and whatever other transactions come in between,
    an admitted run ends, and what is announced is what is stored. *)

From stdpp Require Import fin_maps.
From S2P Require Import Prelude RustStr ScheduledTask ScheduledRun ScheduledStore ScheduledLaws ScheduledHandlers.
From S2P Require Import ScheduledDefinitions ScheduledRuntime.
Local Open Scope ora_scope.
Local Open Scope Z_scope.

(** ** What others may do to a run *)

(** A transaction that neither admits, starts nor binds a run: only the executor that holds the run does. *)
Definition spares (id : ScheduledRunId) (c : ScheduledCall) : bool :=
  match c with
  | CallResolve (CandidateRun run) => negb (bool_decide (rn_id run = id))
  | CallTransition _ run (Start _ _ _) _ => negb (bool_decide (run = id))
  | CallCommit _ _ run _ _ _ _ => negb (bool_decide (run = id))
  | _ => true
  end.

(** An active run keeps its status and path, and its link unless it is cleared; an ended run stays as it
    ended. *)
Record drift (r r' : ScheduledRun) : Prop := {
  dr_active : active r' = true ->
    active r = true /\ rn_status r' = rn_status r /\ rn_worktree_path r' = rn_worktree_path r
    /\ (rn_worktree_task_id r' = None \/ rn_worktree_task_id r' = rn_worktree_task_id r);
  dr_final : active r = false -> rn_status r' = rn_status r /\ rn_failure_reason r' = rn_failure_reason r;
}.
#[export] Instance drift_preorder : PreOrder drift.
Proof.
  split.
  - intros r. split; [|done]. intros Ha. split_and!; try done. by right.
  - intros x y z [A1 F1] [A2 F2]. split.
    + intros Hz. destruct (A2 Hz) as (Hy & S2 & P2 & T2). destruct (A1 Hy) as (Hx & S1 & P1 & T1).
      split_and!; [done|congruence|congruence|]. destruct T2 as [-> | ->]; [by left|done].
    + intros Hx. destruct (F1 Hx) as [S1 R1].
      assert (active y = false) as Hy by (unfold active in *; congruence). destruct (F2 Hy). split; congruence.
Qed.

(** The run of an identity, when it is there afterwards, comes from one that was there before. *)
Definition from_run (R : ScheduledRun -> ScheduledRun -> Prop) (id : ScheduledRunId) (s s' : ScheduledStore) : Prop :=
  forall r', sd_runs s' !! id = Some r' -> exists r, sd_runs s !! id = Some r /\ R r r'.

Lemma from_run_refl id s : from_run drift id s s.
Proof. intros r Hr. exists r. split; [done|reflexivity]. Qed.
Lemma from_run_same id s s' : sd_runs s' = sd_runs s -> from_run drift id s s'.
Proof. intros Heq r Hr. rewrite Heq in Hr. exists r. split; [done|reflexivity]. Qed.
Lemma from_run_trans id s1 s2 s3 : from_run drift id s1 s2 -> from_run drift id s2 s3 -> from_run drift id s1 s3.
Proof.
  intros H1 H2 r3 Hr3. destruct (H2 _ Hr3) as (r2 & Hr2 & D2). destruct (H1 _ Hr2) as (r1 & Hr1 & D1).
  exists r1. split; [done|]. by transitivity r2.
Qed.

Lemma update_run_from id f run s : (run = id -> forall r, drift r (f r)) -> from_run drift id s (update_run run f s).
Proof.
  intros Hf r' Hr'. simpl in Hr'. destruct (decide (run = id)) as [->|Hne].
  - rewrite lookup_alter_eq in Hr'. destruct (sd_runs s !! id) as [r|]; [|done]. injection Hr' as <-.
    exists r. split; [done|by apply Hf].
  - rewrite lookup_alter_ne in Hr' by done. exists r'. split; [done|reflexivity].
Qed.

Lemma clear_link_drift id run s : from_run drift id s (clear_retained_worktree_link run s).
Proof.
  apply update_run_from. intros _ r. split; [|done]. intros Ha. split_and!; [done|done|done|by left].
Qed.
Lemma annotate_drift id run v detail at_ s : from_run drift id s (annotate_scheduled_run_verdict run v detail at_ s).2.
Proof.
  unfold annotate_scheduled_run_verdict. destruct (sd_runs s !! run); [|apply from_run_refl].
  case_bool_decide; [|apply from_run_refl]. apply update_run_from. intros _ r. split; [|done].
  intros Ha. split_and!; try done. by right.
Qed.

(** A transition other than a start ends an active run. *)
Lemma run_transition_ends r t at_ r' : run_transition r t at_ = Some r' ->
  match t with Start _ _ _ => False | _ => True end ->
  active r = true /\ active r' = false
  /\ rn_status r' = match t with Succeed => RunSucceeded | FailRun _ => RunFailed | _ => RunCancelled end
  /\ rn_failure_reason r' = match t with FailRun reason => Some reason | _ => None end.
Proof.
  intros H Ht. pose proof (run_transition_status _ _ _ _ H) as [Ha _]. unfold run_transition in H.
  destruct (negb _); [done|]. destruct t; [done|..]; by injection H as <-.
Qed.

Lemma transition_drift commits id run t at_ s : match t with Start _ _ _ => run <> id | _ => True end ->
  from_run drift id s (committed s (transition_scheduled_run commits run t at_ s)).
Proof.
  intros Ht. unfold transition_scheduled_run. destruct commits; [|apply from_run_refl]. simpl.
  destruct (sd_runs s !! run) as [r|] eqn:Hr; [|apply from_run_refl].
  destruct (run_transition r t at_) as [r'|] eqn:E; [|apply from_run_refl].
  intros x Hx. simpl in Hx. destruct (decide (run = id)) as [->|Hne].
  - rewrite lookup_alter_eq, Hr in Hx. injection Hx as <-. exists r. split; [done|].
    destruct (run_transition_ends _ _ _ _ E) as (Ha & Hf & _); [by destruct t|].
    split; [intros; congruence|intros; congruence].
  - rewrite lookup_alter_ne in Hx by done. exists x. split; [done|reflexivity].
Qed.

Lemma resolve_drift id c s res s' : (forall run, c = CandidateRun run -> rn_id run <> id) ->
  resolve_scheduled_occurrence c s = Ok (res, s') -> from_run drift id s s'.
Proof.
  intros Hc [(row & _ & _ & ->)|(_ & s1 & -> & H)]%resolve_inv; [apply from_run_refl|].
  intros r Hr. apply prune_run in Hr as [Hr _]. exists r. split; [|reflexivity].
  destruct c as [run|m]; destruct H as [_ H]; [|by subst s1].
  apply insert_run_inv in H as (_ & _ & _ & ->). simpl in Hr. specialize (Hc run eq_refl).
  by rewrite lookup_insert_ne in Hr.
Qed.

Lemma call_drift id c s : spares id c = true -> from_run drift id s (scheduled_call s c).
Proof.
  intros Hc. destruct c; simpl in *.
  - unfold committed. destruct (resolve_scheduled_occurrence c s) as [[res s']|] eqn:E; [|apply from_run_refl].
    eapply resolve_drift; [|exact E]. intros run0 ->. by apply negb_true_iff, bool_decide_eq_false in Hc.
  - apply transition_drift. destruct t; [|done..]. by apply negb_true_iff, bool_decide_eq_false in Hc.
  - intros r Hr. unfold fail_interrupted_scheduled_runs in Hr. simpl in Hr. rewrite lookup_fmap in Hr.
    destruct (sd_runs s !! id) as [x|] eqn:E; [|done]. injection Hr as <-.
    exists x. split; [done|]. destruct (active x) eqn:Ha; [|reflexivity]. split; [done|congruence].
  - apply clear_link_drift.
  - apply annotate_drift.
  - apply negb_true_iff, bool_decide_eq_false in Hc. unfold committed, commit_run_worktree.
    destruct (negb visible); [apply from_run_refl|]. destruct (sd_runs s !! run); [|apply from_run_refl].
    destruct (_ && _ && _); [|apply from_run_refl]. unfold require_row, reject_if.
    destruct (negb commits); [apply from_run_refl|]. apply update_run_from. done.
  - unfold committed. destruct (create_scheduled_task t s) as [[x s']|e] eqn:E; [|apply from_run_refl].
    do 4 apply bind_Ok in E as (? & _ & E). injection E as _ <-. by apply from_run_same.
  - apply from_run_same, update_same_runs.
  - apply from_run_same. unfold soft_delete_scheduled_task. destruct (sd_tasks s !! task); [|done]. by destruct (visible _).
  - by apply from_run_same.
Qed.

Lemma calls_drift id cs s : Forall (fun c => spares id c = true) cs -> from_run drift id s (fold_left scheduled_call cs s).
Proof.
  intros H. revert s. induction H as [|c cs Hc _ IH]; intros s; [apply from_run_refl|]. simpl.
  eapply from_run_trans; [by apply call_drift|apply IH].
Qed.

(** ** Phases of a run *)

Definition while_active (Q : ScheduledRun -> Prop) (id : ScheduledRunId) (s : ScheduledStore) : Prop :=
  forall r, sd_runs s !! id = Some r -> active r = true -> Q r.
(** Accepted; bound by the ownership commit; running; over. *)
Definition unbound (r : ScheduledRun) : Prop :=
  rn_status r = RunAccepted /\ rn_worktree_task_id r = None /\ rn_worktree_path r = None.
Definition bound_to (task_id : TaskId) (path : string) (r : ScheduledRun) : Prop :=
  rn_status r = RunAccepted /\ (rn_worktree_task_id r = None \/ rn_worktree_task_id r = Some task_id)
  /\ (rn_worktree_path r = None \/ rn_worktree_path r = Some path).
Definition running (r : ScheduledRun) : Prop := rn_status r = RunRunning.
Notation settled := (while_active (fun _ => False)).
Notation any_phase := (while_active (fun _ => True)).

Lemma while_active_drift Q id s s' : (forall r r', Q r -> active r = true -> active r' = true -> drift r r' -> Q r') ->
  from_run drift id s s' -> while_active Q id s -> while_active Q id s'.
Proof.
  intros HQ Hf Hw r' Hr' Ha'. destruct (Hf _ Hr') as (r & Hr & Hd).
  destruct (dr_active _ _ Hd Ha') as (Ha & _). apply (HQ r); try done. by apply Hw.
Qed.
Lemma unbound_drift r r' : unbound r -> active r = true -> active r' = true -> drift r r' -> unbound r'.
Proof.
  intros (H1 & H2 & H3) _ Ha [(_ & S & P & T)%(fun f => f Ha) _]. unfold unbound. rewrite S, P.
  split_and!; [done| |done]. by destruct T as [-> | ->].
Qed.
Lemma bound_drift task_id path r r' : bound_to task_id path r -> active r = true -> active r' = true -> drift r r' ->
  bound_to task_id path r'.
Proof.
  intros (H1 & H2 & H3) _ Ha [(_ & S & P & T)%(fun f => f Ha) _]. unfold bound_to. rewrite S, P.
  split_and!; [done| |done]. destruct T as [-> | ->]; [by left|done].
Qed.
Lemma running_drift r r' : running r -> active r = true -> active r' = true -> drift r r' -> running r'.
Proof. intros H _ Ha [(_ & S & _)%(fun f => f Ha) _]. unfold running. by rewrite S. Qed.

(** ** Announcements *)

Definition is_finished (e : RuntimeEffect) : bool :=
  match e with Publish (RunFinished _ _ _ _) => true | _ => false end.
Definition finished_effects (x : Exec) : list RuntimeEffect := filter (fun e => is_finished e = true) (ex_effects x).

Lemma finished_emit e x : finished_effects (emit e x) = finished_effects x ++ (if is_finished e then [e] else []).
Proof. unfold finished_effects. simpl. rewrite filter_app. by destruct e as [| |[]| | |]. Qed.

(** The run, if it is there, has ended this way. *)
Definition ended (status : ScheduledRunStatus) (reason : option ScheduledRunFailureReason) (id : ScheduledRunId)
    (s : ScheduledStore) : Prop :=
  forall r, sd_runs s !! id = Some r -> rn_status r = status /\ rn_failure_reason r = reason.
Lemma ended_drift status reason id s s' : run_is_active status = false -> from_run drift id s s' ->
  ended status reason id s -> ended status reason id s'.
Proof.
  intros Hs Hf He r' Hr'. destruct (Hf _ Hr') as (r & Hr & Hd). destruct (He _ Hr) as [S R].
  destruct (dr_final _ _ Hd) as [S' R']; [unfold active; congruence|]. split; congruence.
Qed.

(** A step of an execution that announces nothing and lets the run drift. *)
Record quiet (id : ScheduledRunId) (x x' : Exec) : Prop := {
  qt_drift : from_run drift id (ex_store x) (ex_store x');
  qt_finished : finished_effects x' = finished_effects x;
}.
Lemma quiet_refl id x : quiet id x x.
Proof. split; [apply from_run_refl|done]. Qed.
Lemma quiet_trans id x y z : quiet id x y -> quiet id y z -> quiet id x z.
Proof. intros [D1 F1] [D2 F2]. split; [by eapply from_run_trans|congruence]. Qed.
Lemma quiet_emit id e x : is_finished e = false -> quiet id x (emit e x).
Proof. intros He. split; [apply from_run_refl|]. by rewrite finished_emit, He, app_nil_r. Qed.
Lemma quiet_store id x s : from_run drift id (ex_store x) s -> quiet id x (set_store x s).
Proof. by split. Qed.
Lemma quiet_others id cs x : Forall (fun c => spares id c = true) cs -> quiet id x (others cs x).
Proof. intros H. by apply quiet_store, calls_drift. Qed.

Lemma quiet_discard probes id task run x : quiet id x (discard_task probes task run x).
Proof.
  unfold discard_task. eapply quiet_trans; [by apply (quiet_emit id (DeleteTask task))|].
  destruct (jp_delete probes task); [|apply quiet_refl]. apply quiet_store, clear_link_drift.
Qed.
Lemma quiet_candidate probes id run x : quiet id x (retention_candidate probes run x).2.
Proof.
  unfold retention_candidate. destruct (rn_worktree_task_id run) as [task|]; [|apply quiet_refl].
  destruct (jp_task_exists probes task) as [[]|]; simpl; [|apply quiet_store, clear_link_drift|apply quiet_refl].
  destruct (match rn_worktree_path run with Some _ => _ | None => _ end); apply quiet_refl.
Qed.
Lemma quiet_candidates probes id runs x : quiet id x (retention_candidates probes runs x).2.
Proof.
  revert x. induction runs as [|run runs IH]; intros x; [apply quiet_refl|]. simpl.
  pose proof (quiet_candidate probes id run x) as H1. destruct (retention_candidate probes run x) as [c x1].
  specialize (IH x1). destruct (retention_candidates probes runs x1) as [cs x2]. by eapply quiet_trans.
Qed.
Lemma quiet_retention probes id x : quiet id x (enforce_retention probes x).
Proof.
  unfold enforce_retention.
  pose proof (quiet_candidates probes id (list_scheduled_runs_with_retained_worktrees (ex_store x)) x) as H.
  destruct (retention_candidates _ _ _) as [cs x1]. eapply quiet_trans; [exact H|]. clear H.
  generalize (retention_discards cs MAX_RETAINED_SCHEDULED_WORKTREES). intros l. revert x1.
  induction l as [|d l IH]; intros x1; [apply quiet_refl|]. simpl. eapply quiet_trans; [apply quiet_discard|apply IH].
Qed.
Lemma quiet_janitor probes id run task path x : quiet id x (janitor_run_finished probes run task path x).
Proof.
  unfold janitor_run_finished. destruct (_ || _); [apply quiet_refl|].
  destruct (match path with Some _ => _ | None => _ end) as [[]|];
    [apply quiet_retention|apply quiet_discard|apply quiet_retention].
Qed.

(** ** The executor's own transactions *)

Definition terminal_status (t : ScheduledRunTransition) : ScheduledRunStatus :=
  match t with Start _ _ _ => RunRunning | Succeed => RunSucceeded | FailRun _ => RunFailed | CancelRun => RunCancelled end.
Definition terminal_reason (t : ScheduledRunTransition) : option ScheduledRunFailureReason :=
  match t with FailRun reason => Some reason | _ => None end.

(** The run is there and active. *)
Definition present (id : ScheduledRunId) (x : Exec) : Prop :=
  exists r, sd_runs (ex_store x) !! id = Some r /\ active r = true.

Definition terminal_from (t : ScheduledRunTransition) (id : ScheduledRunId) (s : ScheduledStore) : Prop :=
  match t with Start _ _ _ => False | Succeed => while_active running id s | _ => True end.

(** An accepted terminal write ends the run; so does, in effect, a refused one, unless the database
    failed. *)
Lemma terminal_transition commits run t now x : terminal_from t (rn_id run) (ex_store x) ->
  let '(accepted, x') := transition commits run t now x in
  (accepted || commits = true -> settled (rn_id run) (ex_store x')) /\ finished_effects x' = finished_effects x
  /\ (accepted = true -> ended (terminal_status t) (terminal_reason t) (rn_id run) (ex_store x'))
  /\ (commits = true -> present (rn_id run) x -> accepted = true).
Proof.
  intros Ht. unfold transition, transition_scheduled_run. destruct commits; [|done]. simpl. destruct (sd_runs (ex_store x) !! rn_id run) as [r|] eqn:Hr.
  2:{ split_and!; [|done|done|]; [intros _ r Hr'; simpl in Hr'; congruence|]. intros _ (r & Hr' & _). congruence. }
  destruct (run_transition r t now) as [r'|] eqn:E.
  - destruct (run_transition_ends _ _ _ _ E) as (_ & Hf & S & R); [by destruct t|]. split_and!; [|done| |done].
    + intros _ y Hy Ha. simpl in Hy. rewrite lookup_alter_eq, Hr in Hy. injection Hy as <-. congruence.
    + intros _ y Hy. simpl in Hy. rewrite lookup_alter_eq, Hr in Hy. injection Hy as <-. rewrite S, R. by destruct t.
  - assert (active r = true -> False) as Hn; [|split_and!; [|done|done|]].
    2: intros _ y Hy Ha; simpl in Hy; rewrite Hr in Hy; injection Hy as <-; by apply Hn.
    2: intros _ (y & Hy & Ha); rewrite Hr in Hy; injection Hy as <-; by destruct Hn.
    intros Ha. unfold run_transition in E. destruct (negb (is_allowed_from t (rn_status r))) eqn:Hn.
    + apply negb_true_iff in Hn. destruct t; simpl in *; [done| |unfold active in Ha; congruence..].
      rewrite (Ht _ Hr Ha), bool_decide_eq_true_2 in Hn; done.
    + destruct t; done.
Qed.

Lemma start_transition commits run session task path now x : while_active (bound_to task path) (rn_id run) (ex_store x) ->
  let '(accepted, x') := transition commits run (Start session path task) now x in
  finished_effects x' = finished_effects x
  /\ (if accepted then while_active running (rn_id run) (ex_store x') else commits = true -> settled (rn_id run) (ex_store x'))
  /\ (commits = true -> present (rn_id run) x -> accepted = true /\ present (rn_id run) x').
Proof.
  intros Hb. unfold transition, transition_scheduled_run. destruct commits; [|done]. simpl. destruct (sd_runs (ex_store x) !! rn_id run) as [r|] eqn:Hr.
  2:{ split_and!; [done| |]; [intros _ r Hr'; simpl in Hr'; congruence|]. intros _ (r & Hr' & _). congruence. }
  destruct (run_transition r _ now) as [r'|] eqn:E; (split; [done|]).
  - assert (rn_status r' = RunRunning) as S.
    { unfold run_transition in E. destruct (negb _); [done|]. destruct (_ || _); [done|]. by injection E as <-. }
    split.
    + intros y Hy Ha. simpl in Hy. rewrite lookup_alter_eq, Hr in Hy. by injection Hy as <-.
    + intros _ _. split; [done|]. exists r'. simpl. rewrite lookup_alter_eq, Hr. split; [done|]. unfold active. by rewrite S.
  - assert (active r = true -> False) as Hn; [|split].
    2: intros _ y Hy Ha; simpl in Hy; rewrite Hr in Hy; injection Hy as <-; by apply Hn.
    2: intros _ (y & Hy & Ha); rewrite Hr in Hy; injection Hy as <-; by destruct Hn.
    intros Ha. destruct (Hb _ Hr Ha) as (S & T & P). unfold run_transition in E.
    simpl in E. rewrite S, bool_decide_eq_true_2 in E by done. simpl in E.
    assert (rebinds (rn_worktree_task_id r) task = false) as H1
      by (destruct T as [-> | ->]; [done|]; unfold rebinds; by rewrite bool_decide_eq_true_2).
    assert (rebinds (rn_worktree_path r) path = false) as H2
      by (destruct P as [-> | ->]; [done|]; unfold rebinds; by rewrite bool_decide_eq_true_2).
    by rewrite H1, H2 in E.
Qed.

Section execution.
Variable env : ExecutionEnv.
Variable run : ScheduledRun.
Notation id := (rn_id run).

(** The transactions of others leave the run to its executor. *)
Definition env_spares : Prop :=
  Forall (fun c => spares id c = true)
    (ee_before_commit env ++ ee_before_start env ++ ee_before_finish env ++ ee_before_annotate env).
Hypothesis Hspares : env_spares.

Lemma spares_all : Forall (fun c => spares id c = true) (ee_before_commit env)
  /\ Forall (fun c => spares id c = true) (ee_before_start env)
  /\ Forall (fun c => spares id c = true) (ee_before_finish env)
  /\ Forall (fun c => spares id c = true) (ee_before_annotate env).
Proof. unfold env_spares in Hspares. rewrite !Forall_app in Hspares. done. Qed.
Lemma quiet_commit x : quiet id x (others (ee_before_commit env) x).
Proof. apply quiet_others, spares_all. Qed.
Lemma quiet_start x : quiet id x (others (ee_before_start env) x).
Proof. apply quiet_others, spares_all. Qed.
Lemma quiet_finish x : quiet id x (others (ee_before_finish env) x).
Proof. apply quiet_others, spares_all. Qed.
Lemma quiet_before_annotate x : quiet id x (others (ee_before_annotate env) x).
Proof. apply quiet_others, spares_all. Qed.

(** Nobody else writes between the executor's transactions. *)
Definition undisturbed : Prop :=
  ee_before_commit env = [] /\ ee_before_start env = [] /\ ee_before_finish env = [] /\ ee_before_annotate env = [].

(** The database carries out the lifecycle writes of the executor. *)
Definition writes_commit : Prop := ee_start_commits env = true /\ ee_finish_commits env = true.

(** What an execution comes to: the run is over, unless a lifecycle write failed; at most one end is announced, the one stored; and one is
    announced when nobody else could end the run. *)
Record concluded (x x' : Exec) : Prop := {
  cc_settled : writes_commit -> settled id (ex_store x');
  cc_announced : finished_effects x' = finished_effects x
    \/ exists status reason, run_is_active status = false
         /\ finished_effects x' = finished_effects x ++ [Publish (RunFinished (oc_task_id (rn_occurrence run)) id status reason)]
         /\ ended status reason id (ex_store x');
  cc_heard : writes_commit -> undisturbed -> present id x -> finished_effects x' <> finished_effects x;
}.

Lemma concluded_before x y z : finished_effects y = finished_effects x ->
  (writes_commit -> undisturbed -> present id x -> present id y) -> concluded y z -> concluded x z.
Proof. intros H Hp [S A B]. split; [done|by rewrite H in A|]. intros Hw Hu Hx. rewrite <-H. by apply B; [| |apply Hp]. Qed.
Lemma concluded_after x y z : concluded x y -> quiet id y z -> concluded x z.
Proof.
  intros [S A B] [D F]. split.
  - intros Hw. by eapply while_active_drift; [|exact D|exact (S Hw)].
  - rewrite F. destruct A as [A|(status & reason & H1 & H2 & H3)]; [by left|right].
    exists status, reason. split_and!; [done|done|]. by eapply ended_drift.
  - by rewrite F.
Qed.
Lemma concluded_emit e x z : is_finished e = false -> concluded (emit e x) z -> concluded x z.
Proof. intros He. apply concluded_before; [by apply (quiet_emit id)|done]. Qed.
Lemma undisturbed_others cs x : cs = [] -> others cs x = x.
Proof. intros ->. by destruct x. Qed.

(** An accepted terminal transition and its announcement. *)
Lemma concluded_publish t x y : settled id (ex_store y) -> finished_effects y = finished_effects x ->
  terminal_from t id (ex_store x) -> ended (terminal_status t) (terminal_reason t) id (ex_store y) ->
  concluded x (publish_finished run t y).
Proof.
  intros Hs Hf Ht He.
  assert (t <> Start "" "" "" -> exists e, finished_effects (publish_finished run t y) = finished_effects x ++ [e]
    /\ e = Publish (RunFinished (oc_task_id (rn_occurrence run)) id (terminal_status t) (terminal_reason t))) as He'.
  { intros _. destruct t; [done|..]; eexists; (split; [|done]); cbn [publish_finished finished_event];
      by rewrite finished_emit, Hf. }
  destruct He' as (e & He1 & ->); [by intros ->|]. split.
  - intros _. by destruct t.
  - right. exists (terminal_status t), (terminal_reason t). split_and!; [by destruct t|done|by destruct t].
  - intros _ _ _ H. rewrite He1 in H. apply (f_equal length) in H. rewrite length_app in H. simpl in H. lia.
Qed.

Lemma finish_concluded task path t x : terminal_from t id (ex_store (others (ee_before_finish env) x)) ->
  concluded x (finish env run task path t x).
Proof.
  intros Ht. unfold finish, settle_terminal_run. pose proof (terminal_transition (ee_finish_commits env) run t (ee_finished_at env) _ Ht) as H.
  destruct (transition _ run t _ _) as [accepted y]. destruct H as (Hs & Hf & He & Hp).
  assert (finished_effects y = finished_effects x) as Hfx by (rewrite Hf; apply (qt_finished _ _ _ (quiet_finish _))).
  destruct accepted.
  - assert (concluded x (publish_finished run t y)) as Hc.
    { eapply (concluded_before _ (others (ee_before_finish env) x)).
      - apply (qt_finished _ _ _ (quiet_finish _)).
      - intros _ (_ & _ & Hn & _). by rewrite undisturbed_others.
      - apply concluded_publish; auto. }
    destruct task; [|done]. eapply concluded_after; [exact Hc|apply quiet_janitor].
  - split; [intros [_ Hc]; by apply Hs|by left|]. intros [_ Hc] (_ & _ & Hn & _).
    rewrite undisturbed_others in Hp by done. intros Hx. by specialize (Hp Hc Hx).
Qed.

Lemma running_quiet x y : quiet id x y -> while_active running id (ex_store x) -> while_active running id (ex_store y).
Proof. intros Hq. apply while_active_drift; [apply running_drift|]. apply Hq. Qed.

Lemma quiet_annotate x : quiet id x (annotate_verdict env run x).
Proof.
  unfold annotate_verdict. destruct (_ ≫= _); [|apply quiet_refl]. apply quiet_store, annotate_drift.
Qed.

Lemma succeeded_concluded task path x : while_active running id (ex_store x) ->
  concluded x (finish_succeeded env run task path x).
Proof.
  intros Hr. unfold finish_succeeded, settle_succeeded_run.
  pose proof (running_quiet _ _ (quiet_finish _) Hr) as Ht.
  pose proof (terminal_transition (ee_finish_commits env) run Succeed (ee_finished_at env) _ Ht) as H.
  destruct (transition _ run Succeed _ _) as [accepted y]. destruct H as (Hs & Hf & He & Hp).
  assert (finished_effects y = finished_effects x) as Hfx by (rewrite Hf; apply (qt_finished _ _ _ (quiet_finish _))).
  destruct accepted.
  2:{ split; [intros [_ Hc]; by apply Hs|by left|]. intros [_ Hc] (_ & _ & Hn & _).
      rewrite undisturbed_others in Hp by done. intros Hx. by specialize (Hp Hc Hx). }
  set (z := emit (CollectArtifacts id) (annotate_verdict env run (others (ee_before_annotate env) y))).
  assert (quiet id y z) as Hq.
  { eapply quiet_trans; [apply quiet_before_annotate|]. eapply quiet_trans; [apply quiet_annotate|].
    by apply quiet_emit. }
  eapply concluded_after; [|eapply quiet_trans; [apply quiet_janitor|by apply quiet_emit]].
  eapply concluded_publish; [|by rewrite (qt_finished _ _ _ Hq)|exact Hr|].
  - eapply while_active_drift; [|exact (qt_drift _ _ _ Hq)|by apply Hs]. done.
  - eapply ended_drift; [|exact (qt_drift _ _ _ Hq)|by apply He]. done.
Qed.

Lemma drive_concluded session task path polls x : while_active running id (ex_store x) ->
  concluded x (drive_prompt env run session task path polls x).
Proof.
  intros Hr. induction polls as [|poll polls IH].
  { apply (concluded_emit (StopSession session)); [done|]. by apply finish_concluded. }
  destruct poll as [| |reason| |]; cbn [drive_prompt].
  2: done.
  2:{ apply (concluded_emit (StopSession session)); [done|].
      destruct reason; cbn [scheduled_run_completion_transition]; try (by apply finish_concluded).
      by apply succeeded_concluded. }
  all: apply (concluded_emit (StopSession session)); [done|]; by apply finish_concluded.
Qed.

Lemma create_bound x : while_active unbound id (ex_store x) ->
  let '(created, y) := create_for_scheduled_run env run x in
  finished_effects y = finished_effects x /\ (undisturbed -> present id x -> present id y)
  /\ match created with Some (task, path) => while_active (bound_to task path) id (ex_store y) | None => True end.
Proof.
  intros Hu. unfold create_for_scheduled_run. set (a := ee_attempt env).
  set (y := others (ee_before_commit env) (emit (ProvisionWorktree id) x)).
  assert (quiet id x y) as [Hd Hf].
  { eapply quiet_trans; [by apply (quiet_emit id (ProvisionWorktree id))|]. apply quiet_commit. }
  assert (undisturbed -> present id x -> present id y) as Hp
    by (intros (Hn & _); unfold y; by rewrite undisturbed_others).
  pose proof (while_active_drift _ _ _ _ unbound_drift Hd Hu) as Hy. clearbody y.
  destruct (negb (wa_prepared a)); [done|]. unfold commit_run_worktree. destruct (negb (wa_visible a)); [done|].
  destruct (sd_runs (ex_store y) !! id) as [r|] eqn:Hr; [|done]. destruct (_ && _ && _); [|done].
  unfold require_row, reject_if. destruct (negb (wa_commits a)); [done|]. cbn [mbind result_bind]. split_and!; [done| |].
  - intros Hn Hx. destruct (Hp Hn Hx) as (z & Hz & Ha). eexists. simpl. rewrite lookup_alter_eq, Hz. by split.
  - intros z Hz Ha. simpl in Hz. rewrite lookup_alter_eq, Hr in Hz. injection Hz as <-.
    destruct (Hy _ Hr Ha) as (S & _). unfold bound_to. simpl. split_and!; [done|by right|by right].
Qed.

Lemma execute_concluded x : while_active unbound id (ex_store x) -> concluded x (execute env run x).
Proof.
  intros Hu. unfold execute. destruct (keep_if _ _); [|by apply finish_concluded].
  pose proof (create_bound x Hu) as H. destruct (create_for_scheduled_run env run x) as [[[task path]|] y].
  2:{ destruct H as (Hf & Hp & _). eapply concluded_before; [exact Hf|by intros _|by apply finish_concluded]. }
  destruct H as (Hf & Hp & Hb). eapply (concluded_before _ y); [done|by intros _|].
  destruct (ee_session env) as [session|]; [|by apply finish_concluded].
  assert (while_active (bound_to task path) id (ex_store (others (ee_before_start env) y))) as Hb'
    by (eapply while_active_drift; [apply bound_drift|apply quiet_start|exact Hb]).
  pose proof (start_transition (ee_start_commits env) run session task path (ee_started_at env) _ Hb') as H.
  destruct (transition _ run (Start session path task) _ _) as [started z]. destruct H as (Hfz & Hz & Hpz).
  assert (finished_effects z = finished_effects y) as Hfy by (rewrite Hfz; apply (qt_finished _ _ _ (quiet_start _))).
  assert (writes_commit -> undisturbed -> present id y -> started = true /\ present id z) as Hst
    by (intros [Hc _] (_ & Hn & _) ?; rewrite undisturbed_others in Hpz by done; by apply Hpz).
  eapply (concluded_before _ z); [done|by intros ? ? ?; apply Hst|]. destruct started; cbn [negb].
  - eapply concluded_emit; [|destruct (ee_prompt env) as [polls|]; [by apply drive_concluded|]]; [done|].
    eapply concluded_emit; [|by apply finish_concluded]. done.
  - eapply concluded_after; [|apply quiet_janitor].
    split; [intros [Hc _]; exact (Hz Hc)|left; by apply (quiet_emit id)|].
    intros [Hc _] _ (r & Hr & Ha). by destruct (Hz Hc _ Hr Ha).
Qed.
End execution.

(** ** Accepted runs *)

(** A run that was just admitted, as its row is. *)
Lemma admitted_unbound c run s s' : resolve_scheduled_occurrence c s = Ok (AdmittedRun run, s') ->
  (forall r, c = CandidateRun r -> rn_worktree_task_id r = None /\ rn_worktree_path r = None) ->
  while_active unbound (rn_id run) s'.
Proof.
  intros [(row & _ & H & _)|(_ & s1 & -> & H)]%resolve_inv Hc.
  { unfold load_existing_resolution in H. destruct (ow_outcome row); [|done]. by apply bind_Ok in H as (? & _ & ?). }
  destruct c as [r|m]; destruct H as [Hres H]; [|done]. injection Hres as ->.
  destruct (Hc r eq_refl) as [Ht Hp]. apply insert_run_inv in H as (_ & _ & _ & ->).
  intros y Hy Ha. apply prune_run in Hy as [Hy _]. simpl in Hy. rewrite lookup_insert_eq in Hy. injection Hy as <-.
  unfold unbound. simpl. split_and!; [|done|done]. unfold active in Ha. simpl in Ha.
  destruct (admission_cases (record_occurrence (CandidateRun r) s) (oc_task_id (rn_occurrence r))) as [(-> & _)|[Hf _]]; [done|].
  congruence.
Qed.

Lemma admitted_present c run s s' : resolve_scheduled_occurrence c s = Ok (AdmittedRun run, s') ->
  rn_status run = RunAccepted -> present (rn_id run) {| ex_store := s'; ex_effects := [] |}.
Proof.
  intros [(row & _ & H & _)|(_ & s1 & -> & H)]%resolve_inv Hs.
  { unfold load_existing_resolution in H. destruct (ow_outcome row); [|done]. by apply bind_Ok in H as (? & _ & ?). }
  destruct c as [r|m]; destruct H as [Hres H]; [|done]. injection Hres as ->.
  apply insert_run_inv in H as (_ & _ & _ & ->). eexists. simpl. split.
  - apply prune_run. simpl. split; [apply lookup_insert_eq|]. intros (_ & Hb & _). simpl in Hb.
    by apply elem_of_beyond in Hb as [? _].
  - unfold active. simpl in *. by rewrite Hs.
Qed.

(** C17: every admitted run ends.  Once an occurrence is admitted and handed to the executor, then
    however Git, the session, the agent and the clock answer, and whatever transactions of other
    parties come in between (as long as they leave admitting, binding and starting this run to its
    executor): unless the database fails on the start or the terminal write (a failure is only
    logged), the run is not left active; if it fails, the run may stay active, which nothing
    announces as an end, until the startup recovery of the next process, which ends it as failed; at
    most one end is announced, and it is the status and the reason the row keeps; and if nobody else
    writes, the database carries out both writes and the run was accepted, one is. *)
Theorem admitted_run_settles (env : ExecutionEnv) (new_id : ScheduledRunId) (o : ScheduledOccurrence)
    (t : ScheduledTask) (accepted_at : Z) (run : ScheduledRun) (s s' : ScheduledStore)
    (Hadmitted : resolve_scheduled_occurrence (CandidateRun (accepted_run new_id o t accepted_at)) s = Ok (AdmittedRun run, s'))
    (Hspares : env_spares env run) :
  let x := execute env run {| ex_store := s'; ex_effects := [] |} in
  (writes_commit env -> forall r, sd_runs (ex_store x) !! rn_id run = Some r -> active r = false)
  /\ (forall r now, sd_runs (ex_store x) !! rn_id run = Some r -> active r = true ->
        finished_effects x = []
        /\ exists r', sd_runs (fail_interrupted_scheduled_runs now (ex_store x)).2 !! rn_id run = Some r'
             /\ rn_status r' = RunFailed /\ rn_failure_reason r' = Some ExecutionError)
  /\ (finished_effects x = []
      \/ exists status reason, run_is_active status = false
           /\ finished_effects x = [Publish (RunFinished (oc_task_id (rn_occurrence run)) (rn_id run) status reason)]
           /\ forall r, sd_runs (ex_store x) !! rn_id run = Some r -> rn_status r = status /\ rn_failure_reason r = reason)
  /\ (writes_commit env -> undisturbed env -> rn_status run = RunAccepted -> finished_effects x <> []).
Proof.
  assert (while_active unbound (rn_id run) s') as Hu by (eapply admitted_unbound; [exact Hadmitted|by intros r [= <-]]).
  destruct (execute_concluded env run Hspares {| ex_store := s'; ex_effects := [] |} Hu) as [S A B].
  split_and!; [| |exact A|].
  - intros Hw r Hr. destruct (active r) eqn:Ha; [by destruct (S Hw _ Hr Ha)|done].
  - intros r now Hr Ha. split.
    + destruct A as [A|(status & reason & Hs & _ & He)]; [exact A|]. destruct (He r Hr) as [Hst _].
      unfold active in Ha. congruence.
    + unfold fail_interrupted_scheduled_runs. simpl. rewrite lookup_fmap, Hr. simpl. rewrite Ha. by eexists.
  - intros Hw Hn Hs. apply B; [done|done|]. by eapply admitted_present.
Qed.

(** A skipped run still costs a checkout.  The runtime hands every admitted run to the executor, one
    that was skipped for a busy task or a full desktop too: a worktree is provisioned for it before
    the ownership commit refuses the run, and nothing of it is recorded. *)
Theorem skipped_run_provisions (env : ExecutionEnv) (run r : ScheduledRun) (s : ScheduledStore) (branch : string)
    (Hrun : sd_runs s !! rn_id run = Some r) (Hskipped : active r = false)
    (Hbranch : sp_worktree_base_branch (rn_snapshot run) = Some branch) (Hnamed : trim branch <> "")
    (Halone : undisturbed env) :
  execute env run {| ex_store := s; ex_effects := [] |}
  = {| ex_store := s; ex_effects := [ProvisionWorktree (rn_id run)] |}.
Proof.
  destruct Halone as (H1 & H2 & H3 & H4). unfold execute. rewrite Hbranch. cbn [keep_if].
  rewrite bool_decide_eq_false_2 by done. cbn [negb]. unfold create_for_scheduled_run. rewrite undisturbed_others by done.
  assert (forall b1 b2 task path project now, exists o,
    commit_run_worktree b1 b2 (rn_id run) task path project now s = Ok (o, s) /\ o <> Committed) as Hc.
  { intros b1 b2 task path project now. unfold commit_run_worktree. destruct (negb b1); [by eexists|].
    rewrite Hrun. rewrite (bool_decide_eq_false_2 (rn_status r = RunAccepted)); [by eexists|].
    intros Hs. unfold active in Hskipped. by rewrite Hs in Hskipped. }
  assert (forall x, ex_store x = s -> finish env run None None (FailRun WorktreeFailed) x = x) as Hf.
  { intros x <-. unfold finish, settle_terminal_run. rewrite undisturbed_others by done.
    unfold transition, transition_scheduled_run. destruct (ee_finish_commits env); [|done]. simpl. rewrite Hrun.
    unfold run_transition, active in *. simpl. rewrite Hskipped. simpl. by destruct x. }
  destruct (negb (wa_prepared (ee_attempt env))); [by rewrite Hf|].
  cbn [ex_store emit]. destruct (Hc (wa_visible (ee_attempt env)) (wa_commits (ee_attempt env)) (wa_task (ee_attempt env))
    (wa_path (ee_attempt env)) (sp_project_id (rn_snapshot run)) (wa_now (ee_attempt env))) as (o & -> & Hne).
  destruct o; [by rewrite Hf|by rewrite Hf|done].
Qed.

(** ** A sample *)

Definition sample_probes : JanitorProbes :=
  {| jp_task_exists _ := Some true; jp_in_use _ := false; jp_checkout_path _ := None;
     jp_has_changes _ _ _ := Some true; jp_delete _ := true |}.
Definition sample_env (commits : bool) (calls : list ScheduledCall) : ExecutionEnv :=
  {| ee_attempt := {| wa_prepared := true; wa_task := "w"; wa_path := "/wt"; wa_visible := true; wa_commits := true; wa_now := 1 |};
     ee_session := Some "s"; ee_prompt := Some [PollUpdate; PollCompleted EndTurn];
     ee_message := Some "QA_VERDICT: warn"; ee_started_at := 2; ee_start_commits := true;
     ee_finished_at := 3; ee_finish_commits := commits; ee_janitor := sample_probes;
     ee_before_commit := []; ee_before_start := []; ee_before_finish := calls; ee_before_annotate := [] |}.
Definition sample_occurrence : ScheduledOccurrence := {| oc_task_id := "t"; oc_scheduled_at := 21601000 |}.
Definition sample_admission : ScheduledStore * ScheduledRun :=
  match resolve_scheduled_occurrence (CandidateRun (accepted_run "r1" sample_occurrence sample_task 21601000))
          (df_store sample_st3) with
  | Ok (AdmittedRun run, s) => (s, run)
  | _ => (df_store sample_st3, accepted_run "" sample_occurrence sample_task 0)
  end.

(** The terminal write fails: the run stays active, and the startup recovery ends it. *)
Definition sample_stuck : Exec :=
  execute (sample_env false [CallDelete "t" 4]) sample_admission.2 {| ex_store := sample_admission.1; ex_effects := [] |}.
Definition sample_settled : Exec :=
  execute (sample_env true [CallDelete "t" 4; CallInterrupted 5]) sample_admission.2
    {| ex_store := sample_admission.1; ex_effects := [] |}.
Lemma admitted_run_settles_witness :
  (forall r, sd_runs (ex_store sample_settled) !! "r1" = Some r -> active r = false)
  /\ (exists r, sd_runs (ex_store sample_stuck) !! "r1" = Some r /\ active r = true)
  /\ finished_effects sample_stuck = []
  /\ exists r', sd_runs (fail_interrupted_scheduled_runs 9 (ex_store sample_stuck)).2 !! "r1" = Some r'
       /\ rn_status r' = RunFailed /\ rn_failure_reason r' = Some ExecutionError.
Proof.
  assert (exists r, sd_runs (ex_store sample_stuck) !! "r1" = Some r /\ active r = true) as (r & Hr & Ha)
    by (eexists; split; vm_compute; reflexivity).
  assert (resolve_scheduled_occurrence (CandidateRun (accepted_run "r1" sample_occurrence sample_task 21601000))
    (df_store sample_st3) = Ok (AdmittedRun sample_admission.2, sample_admission.1)) as Hadm by (vm_compute; reflexivity).
  assert (env_spares (sample_env true [CallDelete "t" 4; CallInterrupted 5]) sample_admission.2) as H1 by repeat constructor.
  assert (env_spares (sample_env false [CallDelete "t" 4]) sample_admission.2) as H2 by repeat constructor.
  refine (conj _ (conj (ex_intro _ r (conj Hr Ha)) _)).
  - destruct (admitted_run_settles (sample_env true [CallDelete "t" 4; CallInterrupted 5]) "r1" sample_occurrence sample_task
      21601000 sample_admission.2 (df_store sample_st3) sample_admission.1 Hadm H1) as [H _].
    exact (H (conj eq_refl eq_refl)).
  - destruct (admitted_run_settles (sample_env false [CallDelete "t" 4]) "r1" sample_occurrence sample_task
      21601000 sample_admission.2 (df_store sample_st3) sample_admission.1 Hadm H2) as [_ [H _]].
    exact (H r 9 Hr Ha).
Defined.

(** The second run of the task, while the first one is active. *)
Definition sample_second : ScheduledStore * ScheduledRun :=
  match resolve_scheduled_occurrence
          (CandidateRun (accepted_run "r2" {| oc_task_id := "t"; oc_scheduled_at := 43201000 |} sample_task 43201000))
          sample_admission.1 with
  | Ok (AdmittedRun run, s) => (s, run)
  | _ => sample_admission
  end.
Lemma skipped_run_provisions_witness :
  rn_status sample_second.2 = SkippedBusy
  /\ execute (sample_env true []) sample_second.2 {| ex_store := sample_second.1; ex_effects := [] |}
     = {| ex_store := sample_second.1; ex_effects := [ProvisionWorktree "r2"] |}.
Proof.
  split; [vm_compute; reflexivity|].
  assert (exists r, sd_runs sample_second.1 !! "r2" = Some r /\ active r = false) as (r & Hr & Ha)
    by (eexists; split; vm_compute; reflexivity).
  refine (skipped_run_provisions (sample_env true []) sample_second.2 r sample_second.1 "main" Hr Ha _ _ _).
  - vm_compute. reflexivity.
  - vm_compute. discriminate.
  - repeat split.
Defined.
