(* ===== verification/ScheduledTimers.v ===== *)
(** * Timers, triggers and the retention of worktrees

    The timers the runtime keeps are those of the stored definitions; a trigger acts only on what
    is due; the janitor discards the oldest worktrees. *)

From stdpp Require Import fin_maps.
From S2P Require Import Prelude RustStr Order ScheduledTask ScheduledRun ScheduledStore ScheduledLaws ScheduledHandlers.
From S2P Require Import ScheduledDefinitions ScheduledRuntime ScheduledExecution.
Local Open Scope ora_scope.
Local Open Scope Z_scope.

(** ** Retention *)

Definition discard_key (c : RetentionCandidate) : TaskId * ScheduledRunId := (rc_task_id c, rc_run_id c).
(** An unused worktree without changes. *)
Definition clean_candidate (c : RetentionCandidate) : bool := rc_task_exists c && negb (rc_in_use c) && unmodified c.

Lemma discard_walk_spec k cs :
  discard_walk k cs
  ≡ₚ (discard_key <$> filter (fun c => clean_candidate c = true) cs)
     ++ (discard_key <$> take k (filter (fun c => retained_candidate c = true) cs)).
Proof.
  revert k. induction cs as [|c cs IH]; intros k; [by destruct k|].
  assert (clean_candidate c = rc_task_exists c && negb (rc_in_use c) && unmodified c) as Hc by done.
  assert (retained_candidate c = rc_task_exists c && negb (rc_in_use c) && negb (unmodified c)) as Hr by done.
  rewrite !filter_cons. cbn [discard_walk].
  destruct (rc_task_exists c), (rc_in_use c); simpl in Hc, Hr |- *;
    try (rewrite decide_False by congruence; rewrite decide_False by congruence; apply IH).
  destruct (unmodified c); simpl in Hr.
  - rewrite decide_True, decide_False by congruence. simpl. by rewrite IH.
  - rewrite decide_False, decide_True by congruence. destruct k as [|k]; [apply (IH 0%nat)|].
    simpl. rewrite IH. by rewrite Permutation_middle.
Qed.

(** What a retention sweep discards.  Of the worktrees that are still there and not in use: every
    one without changes, and of those with changes (or that cannot be classified) the oldest
    ones beyond the bound, so that as many as the bound allows are kept, the newest.  Nothing
    else is discarded, and nothing twice. *)
Theorem retention_discards_oldest (cs : list RetentionCandidate) (max_retained : nat) :
  let retained := filter (fun c => retained_candidate c = true) cs in
  retention_discards cs max_retained
  ≡ₚ (discard_key <$> filter (fun c => clean_candidate c = true) cs)
     ++ (discard_key <$> take (length retained - max_retained) retained)
  /\ length (drop (length retained - max_retained) retained) = (length retained `min` max_retained)%nat.
Proof. split; [apply discard_walk_spec|]. rewrite length_drop. lia. Qed.

(** ** Executions leave definitions alone *)

Definition same_tasks (x x' : Exec) : Prop := sd_tasks (ex_store x') = sd_tasks (ex_store x).
#[export] Instance same_tasks_preorder : PreOrder same_tasks.
Proof. split; [done|]. intros x y z. unfold same_tasks. congruence. Qed.

Lemma transition_tasks commits run t now x : same_tasks x (transition commits run t now x).2.
Proof.
  unfold transition, same_tasks. destruct (transition_scheduled_run _ _ _ _ _) as [[res s]|e] eqn:E; [|done].
  apply transition_step, st_tasks in E. by destruct res.
Qed.
Lemma others_tasks cs x : Forall (fun c => run_call c = true) cs -> same_tasks x (others cs x).
Proof.
  intros H. unfold same_tasks, others. simpl. generalize (ex_store x). induction H as [|c cs Hc _ IH]; [done|].
  intros s. simpl. rewrite IH. by apply run_call_tasks.
Qed.
Lemma publish_tasks run t x : same_tasks x (publish_finished run t x).
Proof. by destruct t. Qed.
Lemma discard_tasks probes task run x : same_tasks x (discard_task probes task run x).
Proof. unfold discard_task. by destruct (jp_delete probes task). Qed.

Lemma candidates_tasks probes runs x : same_tasks x (retention_candidates probes runs x).2.
Proof.
  revert x. induction runs as [|run runs IH]; intros x; [done|]. simpl.
  assert (same_tasks x (retention_candidate probes run x).2) as H.
  { unfold retention_candidate. destruct (rn_worktree_task_id run) as [task|]; [|done].
    destruct (jp_task_exists probes task) as [[]|]; [|done|done].
    by destruct (match rn_worktree_path run with Some _ => _ | None => _ end). }
  destruct (retention_candidate probes run x) as [c x1]. specialize (IH x1).
  destruct (retention_candidates probes runs x1). by transitivity x1.
Qed.
Lemma retention_tasks probes x : same_tasks x (enforce_retention probes x).
Proof.
  unfold enforce_retention. pose proof (candidates_tasks probes (list_scheduled_runs_with_retained_worktrees (ex_store x)) x) as H.
  destruct (retention_candidates _ _ _) as [cs x1]. transitivity x1; [exact H|]. clear H.
  generalize (retention_discards cs MAX_RETAINED_SCHEDULED_WORKTREES). intros l. revert x1.
  induction l as [|d l IH]; intros x1; [done|]. simpl. etransitivity; [apply discard_tasks|apply IH].
Qed.
Lemma janitor_tasks probes run task path x : same_tasks x (janitor_run_finished probes run task path x).
Proof.
  unfold janitor_run_finished. destruct (_ || _); [done|].
  destruct (match path with Some _ => _ | None => _ end) as [[]|];
    [apply retention_tasks|apply discard_tasks|apply retention_tasks].
Qed.

Section execution.
Variable env : ExecutionEnv.
Hypothesis Hothers : Forall (fun c => run_call c = true)
  (ee_before_commit env ++ ee_before_start env ++ ee_before_finish env ++ ee_before_annotate env).

Lemma env_tasks x : same_tasks x (others (ee_before_commit env) x) /\ same_tasks x (others (ee_before_start env) x)
  /\ same_tasks x (others (ee_before_finish env) x) /\ same_tasks x (others (ee_before_annotate env) x).
Proof. rewrite !Forall_app in Hothers. destruct Hothers as (? & ? & ? & ?). split_and!; by apply others_tasks. Qed.

Lemma transition_after commits run t now cs x y : same_tasks x (others cs y) ->
  same_tasks x (transition commits run t now (others cs y)).2.
Proof. intros H. etransitivity; [exact H|apply transition_tasks]. Qed.

Lemma finish_tasks run task path t x : same_tasks x (finish env run task path t x).
Proof.
  unfold finish, settle_terminal_run.
  pose proof (transition_after (ee_finish_commits env) run t (ee_finished_at env) (ee_before_finish env) x x) as H.
  destruct (transition _ run t _ _) as [accepted y]. specialize (H ltac:(apply env_tasks)).
  destruct accepted; [|exact H]. assert (same_tasks x (publish_finished run t y)) as Hp
    by (etransitivity; [exact H|apply publish_tasks]).
  destruct task; [|exact Hp]. etransitivity; [exact Hp|apply janitor_tasks].
Qed.

Lemma annotate_tasks run x : same_tasks x (annotate_verdict env run x).
Proof.
  unfold annotate_verdict. destruct (_ ≫= _); [|done]. unfold same_tasks. simpl. apply annotate_step.
Qed.

Lemma succeeded_tasks run task path x : same_tasks x (finish_succeeded env run task path x).
Proof.
  unfold finish_succeeded, settle_succeeded_run.
  pose proof (transition_after (ee_finish_commits env) run Succeed (ee_finished_at env) (ee_before_finish env) x x) as H.
  destruct (transition _ run Succeed _ _) as [accepted y]. specialize (H ltac:(apply env_tasks)).
  destruct accepted; [|exact H]. etransitivity; [|apply (janitor_tasks (ee_janitor env) run task (Some path))].
  etransitivity; [exact H|]. etransitivity; [apply (env_tasks y)|apply annotate_tasks].
Qed.

Lemma drive_tasks run session task path polls x : same_tasks x (drive_prompt env run session task path polls x).
Proof.
  induction polls as [|poll polls IH]; [apply (finish_tasks _ _ _ _ (emit _ x))|].
  destruct poll as [| |reason| |]; cbn [drive_prompt]; try exact IH; try apply (finish_tasks _ _ _ _ (emit _ x)).
  destruct reason; cbn [scheduled_run_completion_transition]; try apply (finish_tasks _ _ _ _ (emit _ x)).
  apply (succeeded_tasks _ _ _ (emit _ x)).
Qed.

Lemma create_tasks run x : same_tasks x (create_for_scheduled_run env run x).2.
Proof.
  unfold create_for_scheduled_run. set (y := others _ _).
  assert (same_tasks x y) as H by apply (env_tasks (emit (ProvisionWorktree (rn_id run)) x)).
  destruct (negb _); [exact H|]. destruct (commit_run_worktree _ _ _ _ _ _ _ _) as [[o s]|] eqn:E; [|exact H].
  apply commit_step in E as [_ Ht _ _]. destruct o; unfold same_tasks in *; simpl; congruence.
Qed.

Lemma execute_tasks run x : same_tasks x (execute env run x).
Proof.
  unfold execute. destruct (keep_if _ _); [|apply finish_tasks].
  pose proof (create_tasks run x) as H. destruct (create_for_scheduled_run env run x) as [[[task path]|] y].
  2:{ etransitivity; [exact H|apply finish_tasks]. }
  destruct (ee_session env) as [session|]; [|etransitivity; [exact H|apply finish_tasks]].
  pose proof (transition_after (ee_start_commits env) run (Start session path task) (ee_started_at env) (ee_before_start env) x y) as Hz.
  destruct (transition _ run _ _ _) as [started z].
  specialize (Hz ltac:(etransitivity; [exact H|apply env_tasks])). destruct started; cbn [negb].
  - destruct (ee_prompt env); [etransitivity; [exact Hz|apply (drive_tasks _ _ _ _ _ (emit _ z))]|].
    etransitivity; [exact Hz|apply (finish_tasks _ _ _ _ (emit _ (emit _ z)))].
  - etransitivity; [exact Hz|apply (janitor_tasks _ _ _ _ (emit _ z))].
Qed.
End execution.

Lemma resolve_tasks c s res s' : resolve_scheduled_occurrence c s = Ok (res, s') -> sd_tasks s' = sd_tasks s.
Proof.
  intros H. pose proof (run_call_tasks s (CallResolve c) eq_refl) as Ht. simpl in Ht. by rewrite H in Ht.
Qed.
Lemma admit_tasks id t at_ now s : sd_tasks (admit_occurrence id t at_ now s).2 = sd_tasks s.
Proof.
  unfold admit_occurrence. destruct (timing_at _ _); [done|..];
    destruct (resolve_scheduled_occurrence _ s) as [[r s']|] eqn:E; try done; by apply resolve_tasks in E.
Qed.
Lemma offline_tasks t times at_ s : sd_tasks (record_offline_missed t times at_ s).2 = sd_tasks s.
Proof.
  unfold record_offline_missed. destruct (max_time _); [|done].
  destruct (resolve_scheduled_occurrence _ s) as [[r s']|] eqn:E; try done; by apply resolve_tasks in E.
Qed.

(** ** Timers mirror definitions *)

Section timers.
Context {cron : Cron}.

(** The timer a row calls for, when it is registered at a time. *)
Definition armed (row : option ScheduledTask) (now : Z) : option ScheduledTaskHandle :=
  match row with Some t => if visible t && sk_enabled t then task_handle t now else None | None => None end.

Definition mirrors (rt : Runtime) : Prop :=
  rows_ok (rt_store rt)
  /\ forall id, exists now, rt_handles rt !! id = armed (sd_tasks (rt_store rt) !! id) now.

(** Registering a definition arms its timer, and only its timer. *)
Lemma reconcile_handles t now rt : definition_ok t ->
  rt_exec (reconcile t now rt) = rt_exec rt
  /\ rt_handles (reconcile t now rt) !! sk_id t = (if sk_enabled t then task_handle t now else None)
  /\ forall id, id <> sk_id t -> rt_handles (reconcile t now rt) !! id = rt_handles rt !! id.
Proof.
  intros Hok. unfold reconcile. rewrite definition_schedulable by done. destruct (sk_enabled t); cbn [negb].
  - destruct (task_handle t now) as [h|]; simpl; split_and!; try done.
    + by rewrite lookup_insert_eq.
    + intros id Hne. by rewrite lookup_insert_ne, lookup_delete_ne.
    + by rewrite lookup_delete_eq.
    + intros id Hne. by rewrite lookup_delete_ne.
  - simpl. split_and!; [done|by rewrite lookup_delete_eq|]. intros id Hne. by rewrite lookup_delete_ne.
Qed.

(** The timers of the other rows are not concerned by a write of one row. *)
Lemma mirrors_row rt rt' id t : mirrors rt -> rows_ok (rt_store rt') ->
  sd_tasks (rt_store rt') = <[id := t]> (sd_tasks (rt_store rt)) ->
  (forall id', id' <> id -> rt_handles rt' !! id' = rt_handles rt !! id') ->
  (exists now, rt_handles rt' !! id = armed (Some t) now) -> mirrors rt'.
Proof.
  intros [Hr Hm] Hr' Ht Hh Hid. split; [done|]. intros id'. rewrite Ht. destruct (decide (id' = id)) as [->|Hne].
  - by rewrite lookup_insert_eq.
  - rewrite lookup_insert_ne, Hh by done. apply Hm.
Qed.
Lemma mirrors_same rt rt' : mirrors rt -> sd_tasks (rt_store rt') = sd_tasks (rt_store rt) ->
  rt_handles rt' = rt_handles rt -> mirrors rt'.
Proof.
  intros [Hr Hm] Ht Hh. split; [by apply (rows_same _ _ Hr)|]. intros id. rewrite Ht, Hh. apply Hm.
Qed.

Lemma armed_updated row t now : visible row = true -> sk_enabled t = sk_enabled (updated_task row t) ->
  armed (Some (updated_task row t)) now = if sk_enabled t then task_handle t now else None.
Proof. intros Hv _. unfold armed. assert (visible (updated_task row t) = true) as -> by done. done. Qed.

(** An accepted write is a write, and a refused one is none. *)
Lemma persist_update_answer p s : rows_ok s -> prepared_ok p ->
  match persist_update p s with
  | (Ok _, s') => exists row, sd_tasks s !! sk_id (pu_task p) = Some row /\ visible row = true
      /\ s' = with_tasks s (<[sk_id (pu_task p) := updated_task row (pu_task p)]> (sd_tasks s))
  | (Err _, s') => s' = s
  end.
Proof.
  intros Hs (Hok & _). destruct (persist_update p s) as [[c|e] s'] eqn:E.
  { apply persist_update_accepted in E as (row & Hrow & Hv & _ & ->). by exists row. }
  unfold persist_update, update_scheduled_task, update_task_row, serialize_revision, reject_if in E.
  destruct (i64_max <? _); [by injection E|]. cbn [mbind result_bind] in E.
  destruct (sd_tasks s !! _) as [row|] eqn:Hrow; [|by injection E].
  destruct (visible row && _) eqn:Hv; [|by injection E]. apply andb_true_iff in Hv as [Hv _].
  unfold require_row, reject_if in E. destruct (negb _); [by injection E|]. cbn [mbind result_bind] in E. exfalso.
  unfold find_scheduled_task in E. cbn [sd_tasks with_tasks] in E. rewrite lookup_insert_eq in E.
  assert (visible (updated_task row (pu_task p)) = true) as Hv' by done. rewrite Hv', readable_row in E; [done|].
  apply updated_task_ok; [|done]. by apply (ro_tasks _ Hs _ _ Hrow).
Qed.

Lemma persist_create_answer t s : rows_ok s ->
  match persist_create t s with
  | (Ok _, s') => sd_tasks s !! sk_id t = None /\ s' = with_tasks s (<[sk_id t := t]> (sd_tasks s))
  | (Err _, s') => s' = s
  end.
Proof.
  intros Hs. unfold persist_create. destruct (create_scheduled_task t s) as [[x s']|e] eqn:E; [|done].
  unfold create_scheduled_task in E. apply bind_Ok in E as (? & _ & E).
  apply bind_Ok in E as (? & H%reject_if_Ok%negb_false_iff%bool_decide_eq_true & E).
  do 2 apply bind_Ok in E as (? & _ & E). by injection E as _ <-.
Qed.

Lemma handle_delete_answer now id s :
  match handle_delete now id s with
  | (Ok _, s') => exists t, visible t = false /\ s' = with_tasks s (<[id := t]> (sd_tasks s))
  | (Err _, s') => s' = s
  end.
Proof.
  unfold handle_delete, soft_delete_scheduled_task. destruct (sd_tasks s !! id) as [row|]; [|done].
  destruct (visible row); [|done]. eexists. by split; [|reflexivity].
Qed.

(** One task is made to match. *)
Lemma mirrors_reconcile rt id row t now : mirrors rt -> definition_ok t -> sk_id t = id ->
  rows_ok (with_tasks (rt_store rt) (<[id := row]> (sd_tasks (rt_store rt)))) ->
  armed (Some row) now = (if sk_enabled t then task_handle t now else None) ->
  mirrors (reconcile t now (with_rt_store rt (with_tasks (rt_store rt) (<[id := row]> (sd_tasks (rt_store rt)))))).
Proof.
  intros Hm Hok <- Hrows Ha.
  destruct (reconcile_handles t now (with_rt_store rt (with_tasks (rt_store rt) (<[sk_id t := row]> (sd_tasks (rt_store rt))))) Hok)
    as (Hx & Hh & Hne). eapply (mirrors_row rt _ (sk_id t) row); try done.
  - by rewrite Hx.
  - by rewrite Hx.
  - exists now. by rewrite Hh, Ha.
Qed.
Lemma mirrors_cancel rt id row : mirrors rt ->
  rows_ok (with_tasks (rt_store rt) (<[id := row]> (sd_tasks (rt_store rt)))) ->
  visible row && sk_enabled row = false ->
  mirrors (cancel id (with_rt_store rt (with_tasks (rt_store rt) (<[id := row]> (sd_tasks (rt_store rt)))))).
Proof.
  intros Hm Hrows Ha. eapply (mirrors_row rt _ id row); try done.
  - intros id' Hne. simpl. by rewrite lookup_delete_ne.
  - exists 0. unfold armed. rewrite Ha. simpl. by rewrite lookup_delete_eq.
Qed.

(** ** Steps *)

Lemma mirrors_create {targets : ScheduledTargets} models now id r rt : in_i64 now = true -> mirrors rt ->
  mirrors (api_create models now id r rt).
Proof.
  intros Hn Hm. unfold api_create. destruct (prepare_create now id r) as [t|] eqn:E; [|done].
  apply prepare_create_ok in E as (Hok & Hvis & Hver). destruct (negb _); [done|].
  pose proof (persist_create_answer t (rt_store rt) (proj1 Hm)) as H.
  assert (rows_step (rt_store rt) (persist_create t (rt_store rt)).2) as [Hrows _ _]
    by (apply create_rows; [apply Hm|done|done|by rewrite Hver]).
  destruct (persist_create t (rt_store rt)) as [[c|e] s'].
  - destruct H as [_ ->]. apply mirrors_reconcile; try done. unfold armed. by rewrite Hvis.
  - subst s'. by apply (mirrors_same rt).
Qed.

Lemma mirrors_update {targets : ScheduledTargets} models now r rt : in_i64 now = true -> mirrors rt ->
  mirrors (api_update models now r rt).
Proof.
  intros Hn Hm. unfold api_update. destruct (prepare_update now r (rt_store rt)) as [p|] eqn:E; [|done].
  apply prepare_update_Ok in E as (existing & Hf & [Hrep Hok]%prepare_replacement_Ok).
  assert (prepared_ok p) as Hp by (eapply prepared_from; [exact Hn|apply Hm|exact Hf|exact Hok|apply Hrep|apply Hrep]).
  destruct (negb _); [done|]. pose proof (persist_update_answer p _ (proj1 Hm) Hp) as H.
  pose proof (rs_rows _ _ (update_rows p _ (proj1 Hm) Hp)) as Hrows.
  destruct (persist_update p (rt_store rt)) as [[c|e] s'].
  - destruct H as (row & Hrow & Hv & ->). apply mirrors_reconcile; try done; [apply Hp|by apply armed_updated].
  - subst s'. by apply (mirrors_same rt).
Qed.

Lemma mirrors_delete now id rt : in_i64 now = true -> mirrors rt -> mirrors (api_delete now id rt).
Proof.
  intros Hn Hm. unfold api_delete. pose proof (handle_delete_answer now id (rt_store rt)) as H.
  pose proof (rs_rows _ _ (delete_rows now id _ (proj1 Hm) Hn)) as Hrows.
  destruct (handle_delete now id (rt_store rt)) as [[c|e] s'].
  - destruct H as (t & Hv & ->). apply mirrors_cancel; try done. by rewrite Hv.
  - subst s'. by apply (mirrors_same rt).
Qed.

Lemma mirrors_revoke now id rt : in_i64 now = true -> mirrors rt -> mirrors (api_revoke_approval now id rt).
Proof.
  intros Hn Hm. unfold api_revoke_approval, prepare_revoke. destruct (find_task id (rt_store rt)) as [t|] eqn:E; [|done].
  cbn [mbind result_bind]. set (p := {| pu_task := revoked now t; pu_expected_updated_at := _ |}).
  assert (prepared_ok p) as Hp
    by (eapply prepared_from; [exact Hn|apply Hm|exact E|apply revoked_ok|done|done]).
  pose proof (persist_update_answer p _ (proj1 Hm) Hp) as H.
  pose proof (rs_rows _ _ (update_rows p _ (proj1 Hm) Hp)) as Hrows.
  apply find_task_visible in E as [Ht _]; [|apply Hm]. pose proof (ro_tasks _ (proj1 Hm) _ _ Ht) as (Hid & _).
  destruct (persist_update p (rt_store rt)) as [[c|e] s'].
  - destruct H as (row & Hrow & Hv & ->). assert (sk_id (pu_task p) = id) as Hpid by done. rewrite Hpid in *.
    apply mirrors_cancel; try done. by rewrite andb_false_r.
  - subst s'. by apply (mirrors_same rt).
Qed.

Lemma mirrors_trigger env id at_ rt :
  Forall (fun c => run_call c = true) (ee_before_commit (te_execution env) ++ ee_before_start (te_execution env)
    ++ ee_before_finish (te_execution env) ++ ee_before_annotate (te_execution env)) ->
  mirrors rt -> mirrors (trigger env id at_ rt).
Proof.
  intros Ho Hm. unfold trigger. destruct (find_scheduled_task id (rt_store rt)) as [[t|]|] eqn:E; [|done|done].
  assert (find_task id (rt_store rt) = Ok t) as Hf by (unfold find_task; by rewrite E).
  apply find_task_visible in Hf as [Ht Hv]; [|apply Hm].
  destruct (ro_tasks _ (proj1 Hm) _ _ Ht) as (Hid & Hok & _). rewrite definition_schedulable by done.
  destruct (sk_enabled t) eqn:He; cbn [negb].
  2:{ split; [apply Hm|]. intros id'. simpl. destruct (decide (id' = id)) as [->|Hne].
      - exists 0. rewrite lookup_delete_eq, Ht. unfold armed. by rewrite He, andb_false_r.
      - rewrite lookup_delete_ne by done. apply Hm. }
  set (rt1 := if is_every_hours _ then _ else rt).
  assert (mirrors rt1 /\ rt_exec rt1 = rt_exec rt) as [Hm1 Hx].
  { unfold rt1. destruct (is_every_hours _); [|done]. destruct (reconcile_handles t (te_now env) rt Hok) as (Hx & Hh & Hn).
    split; [|done]. split; rewrite Hx; [apply Hm|]. intros id'. destruct (decide (id' = id)) as [->|Hne].
    - exists (te_now env). rewrite <-Hid at 1. rewrite Hh, Ht. unfold armed. by rewrite Hv, He.
    - rewrite Hn by congruence. apply Hm. }
  clearbody rt1. pose proof (admit_tasks (te_run_id env) t at_ (te_observed_at env) (rt_store rt1)) as Ha.
  destruct (admit_occurrence _ _ _ _ _) as [admission s]. simpl in Ha. eapply mirrors_same; [exact Hm1| |done].
  simpl. unfold settle_admission. destruct admission as [[]|]; simpl; try done.
  etransitivity; [apply (execute_tasks _ Ho run (emit SweepArtifacts (set_store (rt_exec rt1) s)))|done].
Qed.

Lemma mirrors_calendar env observed_at id rt :
  Forall (fun c => run_call c = true) (ee_before_commit (te_execution env) ++ ee_before_start (te_execution env)
    ++ ee_before_finish (te_execution env) ++ ee_before_annotate (te_execution env)) ->
  mirrors rt -> mirrors (trigger_calendar env observed_at id rt).
Proof.
  intros Ho Hm. unfold trigger_calendar. destruct (find_scheduled_task _ _) as [[t|]|]; [|done|done].
  destruct (latest_calendar_occurrence_at_or_before _ _); [by apply mirrors_trigger|done].
Qed.

(** ** Startup *)

Lemma recover_frame t now rt :
  sd_tasks (rt_store (recover_offline_occurrences t now rt)) = sd_tasks (rt_store rt)
  /\ rt_handles (recover_offline_occurrences t now rt) = rt_handles rt.
Proof.
  unfold recover_offline_occurrences. destruct (negb _); [done|]. destruct (last _) as [latest|]; [|done].
  pose proof (offline_tasks t (recent_scheduled_occurrences t now) now (rt_store rt)) as H.
  destruct (record_offline_missed _ _ _ _) as [[r|e] s]; simpl in H; [|done]. by destruct (_ <=? _).
Qed.

Lemma list_tasks_rows s : rows_ok s -> exists tasks, list_scheduled_tasks s = Ok tasks
  /\ forall t, t ∈ tasks <-> sd_tasks s !! sk_id t = Some t /\ visible t = true.
Proof.
  intros Hs. unfold list_scheduled_tasks. set (rows := merge_sort _ _). exists rows.
  assert (forall t, t ∈ rows <-> sd_tasks s !! sk_id t = Some t /\ visible t = true) as Hin.
  { intros t. unfold rows. rewrite merge_sort_Permutation, list_elem_of_filter, list_elem_of_fmap. split.
    - intros [Hv ([id t'] & -> & H%elem_of_map_to_list)]. simpl in *. destruct (ro_tasks _ Hs _ _ H) as (-> & _). done.
    - intros [Ht Hv]. split; [done|]. exists (sk_id t, t). split; [done|]. by apply elem_of_map_to_list. }
  split; [|done]. apply traverse_Ok. apply Forall2_same_length_lookup_2; [done|]. intros i x y Hx Hy.
  assert (x = y) as -> by congruence. apply readable_row. apply list_elem_of_lookup_2, Hin in Hy as [Hy _].
  by apply (ro_tasks _ Hs _ _ Hy).
Qed.

Lemma restore_fold now tasks rt : rows_ok (rt_store rt) ->
  (forall t, t ∈ tasks -> sd_tasks (rt_store rt) !! sk_id t = Some t /\ visible t = true) ->
  let rt' := fold_left (fun rt t => reconcile t now (recover_offline_occurrences t now rt)) tasks rt in
  sd_tasks (rt_store rt') = sd_tasks (rt_store rt)
  /\ forall id, rt_handles rt' !! id
       = if bool_decide (id ∈ sk_id <$> tasks) then armed (sd_tasks (rt_store rt) !! id) now else rt_handles rt !! id.
Proof.
  intros Hs. revert rt Hs. induction tasks as [|t tasks IH]; intros rt Hs Hin; [done|]. cbn [fold_left].
  destruct (Hin t) as [Ht Hv]; [by left|]. pose proof (ro_tasks _ Hs _ _ Ht) as (_ & Hok & _).
  destruct (recover_frame t now rt) as [Hrt Hrh]. set (rt1 := recover_offline_occurrences t now rt) in *.
  destruct (reconcile_handles t now rt1 Hok) as (Hx & Hh & Hne).
  assert (sd_tasks (rt_store (reconcile t now rt1)) = sd_tasks (rt_store rt)) as Htasks by (by rewrite Hx).
  destruct (IH (reconcile t now rt1)) as [IH1 IH2].
  { by apply (rows_same (rt_store rt)). }
  { intros t' Ht'. rewrite Htasks. apply Hin. by right. }
  split; [by rewrite IH1|]. intros id. rewrite IH2, Htasks. rewrite fmap_cons.
  destruct (decide (id ∈ sk_id <$> tasks)) as [Hi|Hi].
  { rewrite !bool_decide_eq_true_2; [done|by right|done]. }
  rewrite (bool_decide_eq_false_2 _ Hi). destruct (decide (id = sk_id t)) as [->|Hid].
  - rewrite bool_decide_eq_true_2 by left. rewrite Hh, Ht. unfold armed. by rewrite Hv.
  - rewrite bool_decide_eq_false_2 by (rewrite elem_of_cons; naive_solver). by rewrite Hne, Hrh.
Qed.

Lemma mirrors_restore now rt : rows_ok (rt_store rt) -> rt_handles rt = ∅ -> mirrors (restore now rt).
Proof.
  intros Hs Hnone. unfold restore. set (rt1 := with_rt_store rt _).
  assert (sd_tasks (rt_store rt1) = sd_tasks (rt_store rt)) as Ht1 by done.
  assert (rows_ok (rt_store rt1)) as Hs1 by (by apply (rows_same (rt_store rt))).
  destruct (list_tasks_rows _ Hs1) as (tasks & -> & Hin).
  destruct (restore_fold now tasks rt1 Hs1) as [Ht Hh]; [intros t; by apply Hin|].
  split; [by apply (rows_same (rt_store rt1))|]. intros id. exists now. rewrite Hh, Ht. case_bool_decide as Hid; [done|].
  assert (rt_handles rt1 = ∅) as -> by done. rewrite lookup_empty. unfold armed.
  destruct (sd_tasks (rt_store rt1) !! id) as [t|] eqn:E; [|done]. destruct (visible t) eqn:Hv; [|done]. exfalso.
  apply Hid. destruct (ro_tasks _ Hs1 _ _ E) as (Hk & _). rewrite list_elem_of_fmap. exists t. split; [done|].
  apply Hin. by rewrite Hk.
Qed.

(** What the runtime does, one call at a time: requests, timers, and transactions on runs. *)
Inductive runtime_step (rt : Runtime) : Runtime -> Prop :=
| runtime_create (P : ScheduledTargets) models now new_id r : in_i64 now = true ->
    runtime_step rt (api_create models now new_id r rt)
| runtime_update (P : ScheduledTargets) models now r : in_i64 now = true -> runtime_step rt (api_update models now r rt)
| runtime_delete now id : in_i64 now = true -> runtime_step rt (api_delete now id rt)
| runtime_revoke now id : in_i64 now = true -> runtime_step rt (api_revoke_approval now id rt)
| runtime_trigger env id scheduled_at :
    Forall (fun c => run_call c = true) (ee_before_commit (te_execution env) ++ ee_before_start (te_execution env)
      ++ ee_before_finish (te_execution env) ++ ee_before_annotate (te_execution env)) ->
    runtime_step rt (trigger env id scheduled_at rt)
| runtime_tick env observed_at id :
    Forall (fun c => run_call c = true) (ee_before_commit (te_execution env) ++ ee_before_start (te_execution env)
      ++ ee_before_finish (te_execution env) ++ ee_before_annotate (te_execution env)) ->
    runtime_step rt (trigger_calendar env observed_at id rt)
| runtime_call c : run_call c = true -> runtime_step rt (with_rt_store rt (scheduled_call (rt_store rt) c)).

Lemma mirrors_step rt rt' : mirrors rt -> runtime_step rt rt' -> mirrors rt'.
Proof.
  intros Hm H. inversion H; subst.
  - by apply mirrors_create.
  - by apply mirrors_update.
  - by apply mirrors_delete.
  - by apply mirrors_revoke.
  - by apply mirrors_trigger.
  - by apply mirrors_calendar.
  - eapply mirrors_same; [exact Hm| |done]. by apply run_call_tasks.
Qed.

(** C19: the timers mirror the definitions.  From a start over the tables a previous process left, after
    any sequence of requests, timers and transactions on runs, a task has a timer exactly when its
    definition is visible and enabled and the registration was not refused, and the timer is the
    one its schedule asks for: the cron expression of a calendar schedule, or a point of the
    hourly grid of the anchor. *)
Theorem timers_mirror_definitions (st : DefinitionState) (started_at : Z) (rt0 rt : Runtime)
    (Hst : rtc definition_step new_definitions st) (Htables : rt_store rt0 = df_store st)
    (Hfresh : rt_handles rt0 = ∅) (Hsteps : rtc runtime_step (restore started_at rt0) rt) :
  forall id, exists now, rt_handles rt !! id
    = match sd_tasks (rt_store rt) !! id with
      | Some t => if visible t && sk_enabled t then task_handle t now else None
      | None => None
      end.
Proof.
  assert (mirrors (restore started_at rt0)) as Hm.
  { apply mirrors_restore; [|done]. rewrite Htables. apply do_rows. by apply reachable_ok. }
  revert Hm. induction Hsteps as [rt1|rt1 rt2 rt3 H1 _ IH]; [intros [_ Hm]; exact Hm|].
  intros Hm. apply IH. by eapply mirrors_step.
Qed.

(** ** What a trigger does *)

(** A trigger acts only on what is due.  It does nothing outside the tables unless the definition
    is visible and may run and the occurrence was not settled before and is not in the future;
    within ten minutes of the planned time it may execute a run, which carries the inputs of the
    current definition; later it only announces the occurrence as missed. *)
Theorem trigger_acts_only_when_due (env : TriggerEnv) (id : ScheduledTaskId) (scheduled_at : Z) (rt : Runtime)
    (Hrows : rows_ok (rt_store rt))
    (Hacts : ex_effects (rt_exec (trigger env id scheduled_at rt)) <> ex_effects (rt_exec rt)) :
  exists t, sd_tasks (rt_store rt) !! id = Some t /\ visible t = true /\ sk_enabled t = true
    /\ sd_occurrences (rt_store rt) !! (id, scheduled_at) = None /\ scheduled_at <= te_observed_at env
    /\ ((saturate_i64 (te_observed_at env - scheduled_at) <= MAX_SCHEDULED_OCCURRENCE_LATENESS_MILLIS
         /\ exists run s, rn_id run = te_run_id env
              /\ rn_snapshot run = rn_snapshot (accepted_run "" {| oc_task_id := id; oc_scheduled_at := scheduled_at |} t 0)
              /\ rt_exec (trigger env id scheduled_at rt)
                 = execute (te_execution env) run (emit SweepArtifacts (set_store (rt_exec rt) s)))
        \/ (MAX_SCHEDULED_OCCURRENCE_LATENESS_MILLIS < saturate_i64 (te_observed_at env - scheduled_at)
            /\ ex_effects (rt_exec (trigger env id scheduled_at rt))
               = ex_effects (rt_exec rt) ++ [SweepArtifacts; Publish (OccurrenceMissed id scheduled_at LateTrigger)])).
Proof.
  revert Hacts. unfold trigger. destruct (find_scheduled_task id (rt_store rt)) as [[t|]|] eqn:E; [|done|done].
  assert (find_task id (rt_store rt) = Ok t) as Hf by (unfold find_task; by rewrite E).
  apply find_task_visible in Hf as [Ht Hv]; [|apply Hrows].
  destruct (ro_tasks _ Hrows _ _ Ht) as (Hid & Hok & _). rewrite definition_schedulable by done.
  destruct (sk_enabled t) eqn:He; cbn [negb]; [|done].
  set (rt1 := if is_every_hours _ then _ else rt).
  assert (rt_exec rt1 = rt_exec rt) as Hx.
  { unfold rt1. destruct (is_every_hours _); [|done]. by apply reconcile_handles. }
  clearbody rt1. rewrite Hx. unfold admit_occurrence, timing_at. cbn [oc_scheduled_at].
  destruct (te_observed_at env <? scheduled_at) eqn:Hd; [done|]. apply Z.ltb_ge in Hd.
  assert (forall c, candidate_occurrence c = {| oc_task_id := sk_id t; oc_scheduled_at := scheduled_at |} ->
    forall res s', resolve_scheduled_occurrence c (ex_store (rt_exec rt)) = Ok (res, s') ->
    sd_occurrences (rt_store rt) !! (id, scheduled_at) = None /\ match c with
      | CandidateRun run => exists status, res = AdmittedRun (with_status run status)
      | CandidateMissed m => res = Missed m end
    \/ match res with AdmittedRun _ | Missed _ => False | _ => True end) as Hres.
  { intros c Hc res s' [(row & _ & H & _)|(Hnone & s1 & _ & H)]%resolve_inv.
    - right. unfold load_existing_resolution in H. destruct (ow_outcome row); [|by injection H as <-].
      by apply bind_Ok in H as (? & _ & [= <-]).
    - left. rewrite Hc in Hnone. unfold occurrence_key in Hnone. simpl in Hnone. rewrite Hid in Hnone. split; [done|].
      destruct c; destruct H as [-> _]; [by eexists|done]. }
  destruct (saturate_i64 _ <=? _) eqn:Hl; [apply Z.leb_le in Hl|apply Z.leb_gt in Hl].
  - destruct (resolve_scheduled_occurrence _ _) as [[res s']|] eqn:R; [|done].
    apply Hres in R as [[Hnone [status ->]]|Hno]; [|simpl; by destruct res|done]. intros _. exists t. split_and!; try done.
    left. split; [done|]. eexists _, s'. split_and!; [..|done]; done.
  - destruct (resolve_scheduled_occurrence _ _) as [[res s']|] eqn:R; [|done].
    apply Hres in R as [[Hnone ->]|Hno]; [|simpl; by destruct res|done]. intros _. exists t. split_and!; try done.
    right. split; [done|]. simpl. by rewrite <-app_assoc, Hid.
Qed.
End timers.

(** ** A sample *)

#[local] Program Instance sample_cron : Cron :=
  { cron_parses _ := true; instant_in_range _ := true; cron_next _ t := Some (t + DAY_MILLIS) }.
Next Obligation. intros _ t t' [= <-]. unfold DAY_MILLIS, HOUR_MILLIS. lia. Qed.

Definition sample_runtime : Runtime :=
  {| rt_exec := {| ex_store := df_store sample_st5; ex_effects := [] |}; rt_handles := ∅; rt_queue := [] |}.

Lemma timers_mirror_definitions_witness :
  let rt := api_delete 50000 "t" (restore 40000 sample_runtime) in
  rt_handles (restore 40000 sample_runtime) !! "t" = Some (HandleDelay 21601000)
  /\ forall id, exists now, rt_handles rt !! id
    = match sd_tasks (rt_store rt) !! id with
      | Some t => if visible t && sk_enabled t then task_handle t now else None
      | None => None
      end.
Proof.
  split; [vm_compute; reflexivity|].
  apply (timers_mirror_definitions sample_st5 40000 sample_runtime (api_delete 50000 "t" (restore 40000 sample_runtime))
    sample_reach eq_refl eq_refl).
  eapply rtc_l; [apply (runtime_delete _ 50000 "t"); reflexivity|reflexivity].
Defined.

Definition sample_trigger : TriggerEnv :=
  {| te_now := 21601000; te_observed_at := 21601500; te_run_id := "r1"; te_execution := sample_env true [] |}.
Lemma trigger_acts_only_when_due_witness :
  exists t, sd_tasks (df_store sample_st5) !! "t" = Some t /\ visible t = true /\ sk_enabled t = true
    /\ sd_occurrences (df_store sample_st5) !! ("t", 21601000) = None /\ 21601000 <= 21601500
    /\ ((saturate_i64 (21601500 - 21601000) <= MAX_SCHEDULED_OCCURRENCE_LATENESS_MILLIS
         /\ exists run s, rn_id run = "r1"
              /\ rn_snapshot run = rn_snapshot (accepted_run "" {| oc_task_id := "t"; oc_scheduled_at := 21601000 |} t 0)
              /\ rt_exec (trigger sample_trigger "t" 21601000 sample_runtime)
                 = execute (sample_env true []) run (emit SweepArtifacts (set_store (rt_exec sample_runtime) s)))
        \/ (MAX_SCHEDULED_OCCURRENCE_LATENESS_MILLIS < saturate_i64 (21601500 - 21601000)
            /\ ex_effects (rt_exec (trigger sample_trigger "t" 21601000 sample_runtime))
               = [SweepArtifacts; Publish (OccurrenceMissed "t" 21601000 LateTrigger)])).
Proof.
  assert (ex_effects (rt_exec (trigger sample_trigger "t" 21601000 sample_runtime)) <> []) as H
    by (vm_compute; discriminate).
  exact (trigger_acts_only_when_due sample_trigger "t" 21601000 sample_runtime (do_rows _ (reachable_ok _ sample_reach)) H).
Defined.
