(* ===== verification/TaskScheduler.v ===== *)
(** * The background scheduler ([crates/scheduler])

    A delayed task races its handle: the control block of [handle.rs] decides by compare-and-exchange
    whether the future runs or the cancellation wins.  The supervisor of [scheduler.rs] takes
    registrations until a shutdown, which waits for every task.  Both are step relations: one step
    is one atomic access or one action of a thread. *)

From stdpp Require Import relations.
From S2P Require Import Prelude.

(** ** The control block of a delayed task *)

(** [DelayControl]: the atomic state; the token is a separate flag. *)
Inductive DelayState : Type := DelayPending | DelayRunning | DelayDone | DelayCancelled.
#[export] Instance DelayState_eq_dec : EqDecision DelayState.
Proof. solve_decision. Defined.
Inductive CancelOutcome : Type := OutcomeCancelled | AlreadyRunning | AlreadyDone.
#[export] Instance CancelOutcome_eq_dec : EqDecision CancelOutcome.
Proof. solve_decision. Defined.

(** [compare_exchange]: the new state, and whether the exchange happened. *)
Definition compare_exchange (s current new : DelayState) : DelayState * bool :=
  if bool_decide (s = current) then (new, true) else (s, false).
Definition claim_running (s : DelayState) : DelayState * bool := compare_exchange s DelayPending DelayRunning.
Definition cancel_exchange (s : DelayState) : DelayState * bool := compare_exchange s DelayPending DelayCancelled.
(** [DelayHandle::cancel] after a lost race. *)
Definition lost_outcome (s : DelayState) : CancelOutcome :=
  match s with DelayRunning => AlreadyRunning | _ => AlreadyDone end.

(** Where [run_delayed_future] is. *)
Inductive DelayTaskPc : Type := Sleeping | Executing | FutureReturned | TaskExited.
(** Where the handle is: between calls, in [cancel] (or, with [true], in its drop) after the exchange, or
    dropped or detached. *)
Inductive HandlePc : Type := HandleIdle | CancelWon (dropping : bool) | CancelLost (dropping : bool) | HandleGone.

Record DelayWorld : Type := {
  dw_state : DelayState;
  dw_token : bool;
  dw_task : DelayTaskPc;
  dw_handle : HandlePc;
  dw_runs : nat;                          (** how often the future was entered *)
  dw_outcomes : list CancelOutcome;       (** what [cancel] answered *)
}.
Definition new_delay : DelayWorld :=
  {| dw_state := DelayPending; dw_token := false; dw_task := Sleeping; dw_handle := HandleIdle; dw_runs := 0;
     dw_outcomes := [] |}.

Definition task_at (w : DelayWorld) (s : DelayState) (pc : DelayTaskPc) (runs : nat) : DelayWorld :=
  {| dw_state := s; dw_token := dw_token w; dw_task := pc; dw_handle := dw_handle w; dw_runs := runs;
     dw_outcomes := dw_outcomes w |}.
Definition handle_at (w : DelayWorld) (s : DelayState) (pc : HandlePc) : DelayWorld :=
  {| dw_state := s; dw_token := dw_token w; dw_task := dw_task w; dw_handle := pc; dw_runs := dw_runs w;
     dw_outcomes := dw_outcomes w |}.
(** The return of a cancellation; a drop has no caller to answer. *)
Definition answered (w : DelayWorld) (dropping token : bool) (o : CancelOutcome) : DelayWorld :=
  {| dw_state := dw_state w; dw_token := token; dw_task := dw_task w;
     dw_handle := if dropping then HandleGone else HandleIdle; dw_runs := dw_runs w;
     dw_outcomes := if dropping then dw_outcomes w else o :: dw_outcomes w |}.

(** The delay elapsed: the future runs when the claim succeeds. *)
Definition elapse (w : DelayWorld) : DelayWorld :=
  let '(s, claimed) := claim_running (dw_state w) in
  if claimed then task_at w s Executing (S (dw_runs w)) else task_at w s TaskExited (dw_runs w).
Definition observe_token (w : DelayWorld) : DelayWorld :=
  task_at w (cancel_exchange (dw_state w)).1 TaskExited (dw_runs w).
Definition exchange_for_cancel (dropping : bool) (w : DelayWorld) : DelayWorld :=
  let '(s, won) := cancel_exchange (dw_state w) in handle_at w s (if won then CancelWon dropping else CancelLost dropping).

Inductive delay_step (w : DelayWorld) : DelayWorld -> Prop :=
| delay_elapsed : dw_task w = Sleeping -> delay_step w (elapse w)
| delay_token : dw_task w = Sleeping -> dw_token w = true -> delay_step w (observe_token w)
| delay_returned : dw_task w = Executing -> delay_step w (task_at w (dw_state w) FutureReturned (dw_runs w))
| delay_marked : dw_task w = FutureReturned -> delay_step w (task_at w DelayDone TaskExited (dw_runs w))
| delay_aborted : delay_step w (task_at w (dw_state w) TaskExited (dw_runs w))
| handle_exchange dropping : dw_handle w = HandleIdle -> delay_step w (exchange_for_cancel dropping w)
| handle_token dropping : dw_handle w = CancelWon dropping ->
    delay_step w (answered w dropping true OutcomeCancelled)
| handle_read dropping : dw_handle w = CancelLost dropping ->
    delay_step w (answered w dropping (dw_token w) (lost_outcome (dw_state w)))
| handle_detach : dw_handle w = HandleIdle -> delay_step w (handle_at w (dw_state w) HandleGone).

Record delay_ok (w : DelayWorld) : Prop := {
  dl_pending : dw_state w = DelayPending -> dw_runs w = 0 /\ dw_outcomes w = [];
  dl_cancelled : dw_state w = DelayCancelled -> dw_runs w = 0;
  dl_started : dw_state w = DelayRunning \/ dw_state w = DelayDone -> dw_runs w = 1;
  dl_task : match dw_task w with
            | Sleeping => dw_state w = DelayPending \/ dw_state w = DelayCancelled
            | Executing | FutureReturned => dw_state w = DelayRunning
            | TaskExited => True
            end;
  dl_token : dw_token w = true -> dw_state w = DelayCancelled;
  dl_handle : match dw_handle w with
              | CancelWon _ => dw_state w = DelayCancelled /\ OutcomeCancelled ∉ dw_outcomes w
              | CancelLost _ => dw_state w <> DelayPending
              | _ => True
              end;
  dl_outcomes : forall o, o ∈ dw_outcomes w ->
    match o with
    | OutcomeCancelled => dw_state w = DelayCancelled
    | AlreadyRunning => dw_runs w = 1
    | AlreadyDone => dw_state w = DelayDone \/ dw_state w = DelayCancelled
    end;
  dl_once : length (filter (fun o => o = OutcomeCancelled) (dw_outcomes w)) <= 1;
}.

Lemma no_cancelled l : OutcomeCancelled ∉ l -> filter (fun o => o = OutcomeCancelled) l = [].
Proof. intros H. apply filter_none. by intros x Hx ->. Qed.

Lemma delay_step_ok w w' : delay_ok w -> delay_step w w' -> delay_ok w'.
Proof.
  intros [Hp Hc Hs Ht Htok Hh Ho H1] H. inversion H; subst; clear H.
  - unfold elapse, claim_running, compare_exchange. case_bool_decide as E; [|by split].
    destruct (Hp E) as [Hr Hn]. split; simpl; try done.
    + intros _. by rewrite Hr.
    + intros Htk. specialize (Htok Htk). congruence.
    + destruct (dw_handle w); try done. destruct Hh. congruence.
    + rewrite Hn. by intros o ?%elem_of_nil.
  - unfold observe_token, cancel_exchange, compare_exchange. case_bool_decide as E; [|by split].
    match goal with H : dw_token w = true |- _ => specialize (Htok H) end. congruence.
  - split; simpl; try done. by rewrite H0 in Ht.
  - rewrite H0 in Ht. split; simpl; try done.
    + intros _. by apply Hs; left.
    + intros Htk. specialize (Htok Htk). congruence.
    + destruct (dw_handle w); try done. destruct Hh. congruence.
    + intros o Hin. specialize (Ho _ Hin). destruct o; [congruence|done|by left].
  - by split.
  - unfold exchange_for_cancel, cancel_exchange, compare_exchange. case_bool_decide as E; [|by split].
    destruct (Hp E) as [Hr Hn]. split; simpl; try done.
    + by intros [].
    + destruct (dw_task w); [by right|congruence..|done].
    + rewrite Hn. split; [done|]. apply not_elem_of_nil.
    + rewrite Hn. by intros o ?%elem_of_nil.
  - rewrite H0 in Hh. destruct Hh as [Hst Hno]. split; simpl; try done.
    + congruence.
    + by destruct dropping.
    + destruct dropping; [done|]. intros o [->|Hin]%elem_of_cons; [done|by apply Ho].
    + destruct dropping; [done|]. rewrite filter_cons_True, no_cancelled by done. done.
  - rewrite H0 in Hh. split; simpl; try done.
    + by destruct dropping.
    + destruct dropping; [done|]. intros o [->|Hin]%elem_of_cons; [|by apply Ho].
      destruct (dw_state w) eqn:E; simpl; [done|by apply Hs; left|by left|by right].
    + destruct dropping; [done|]. rewrite filter_cons_False; [done|]. by destruct (dw_state w).
  - by split.
Qed.

Lemma new_delay_ok : delay_ok new_delay.
Proof. split; simpl; try done; [by intros []|by left|by intros o ?%elem_of_nil|lia]. Qed.

(** A delayed task and its cancellation exclude each other.  Under every interleaving of the task,
    its handle and a shutdown, the future is entered at most once; [cancel] answers that it
    cancelled at most once, and then the future never runs; it answers that the task is running
    only when the future was entered; and an answer that it is done means that the future returned
    or never will run. *)
Theorem delay_cancel_exclusive (w : DelayWorld) (Hreach : rtc delay_step new_delay w) :
  dw_runs w <= 1
  /\ length (filter (fun o => o = OutcomeCancelled) (dw_outcomes w)) <= 1
  /\ (OutcomeCancelled ∈ dw_outcomes w -> dw_runs w = 0)
  /\ (AlreadyRunning ∈ dw_outcomes w -> dw_runs w = 1)
  /\ (AlreadyDone ∈ dw_outcomes w -> dw_state w = DelayDone \/ dw_state w = DelayCancelled /\ dw_runs w = 0).
Proof.
  assert (delay_ok w) as [Hp Hc Hs _ _ _ Ho H1].
  { pose proof new_delay_ok as Hok. induction Hreach as [|x y z H1 _ IH]; [done|]. apply IH. by eapply delay_step_ok. }
  split_and!; [|done| | |].
  - destruct (dw_state w); [destruct (Hp eq_refl); lia|rewrite Hs; auto|rewrite Hs; auto|rewrite Hc; auto].
  - intros H%Ho. by apply Hc.
  - intros H. exact (Ho _ H).
  - intros H. destruct (Ho _ H) as [H'|H']; [by left|right; auto].
Qed.

Lemma delay_cancel_exclusive_witness :
  let w := {| dw_state := DelayRunning; dw_token := false; dw_task := Executing; dw_handle := HandleIdle; dw_runs := 1;
              dw_outcomes := [AlreadyRunning] |} in
  dw_runs w <= 1
  /\ length (filter (fun o => o = OutcomeCancelled) (dw_outcomes w)) <= 1
  /\ (OutcomeCancelled ∈ dw_outcomes w -> dw_runs w = 0)
  /\ (AlreadyRunning ∈ dw_outcomes w -> dw_runs w = 1)
  /\ (AlreadyDone ∈ dw_outcomes w -> dw_state w = DelayDone \/ dw_state w = DelayCancelled /\ dw_runs w = 0).
Proof.
  apply delay_cancel_exclusive.
  eapply rtc_l; [by apply delay_elapsed|]. eapply rtc_l; [by apply (handle_exchange _ false)|].
  eapply rtc_l; [by apply (handle_read _ false)|]. reflexivity.
Defined.

(** ** The control block of a cron job *)

(** [CronControl::cancel]: whether this call stopped the loop, and the stopped bit afterwards. *)
Inductive CronCancelOutcome : Type := CronCancelled | CronAlreadyStopped.
Definition cron_cancel (stopped : bool) : CronCancelOutcome * bool :=
  (if stopped then CronAlreadyStopped else CronCancelled, true).
(** One turn of [run_cron_loop]: the loop returns when it is stopped, when the expression has no further tick
    and when it is stopped during the wait; a tick runs otherwise, and only then. *)
Inductive CronTurn : Type := CronReturns | CronTicks.
Definition cron_turn (stopped : bool) (next : option Z) (stopped_in_wait : bool) : CronTurn :=
  if stopped then CronReturns
  else match next with
       | None => CronReturns
       | Some _ => if stopped_in_wait then CronReturns else CronTicks
       end.

(** ** The supervisor *)

(** A registered task is known by a number. *)
Inductive SchedulerCommand : Type :=
| Register (task : nat)
| Shutdown.
Inductive SupervisorPhase : Type := Serving | Draining | Complete.

Record Supervisor : Type := {
  sv_is_shutdown : bool;
  sv_signalling : bool;                  (** a [shutdown] that set the flag and has not sent the command *)
  sv_queue : list SchedulerCommand;
  sv_alive : list nat;                   (** the spawned tasks of the [JoinSet] *)
  sv_exited : list nat;
  sv_phase : SupervisorPhase;
  sv_accepted : list nat;                (** the registrations that returned a handle *)
  sv_rejected : list nat;
}.
Definition new_supervisor : Supervisor :=
  {| sv_is_shutdown := false; sv_signalling := false; sv_queue := []; sv_alive := []; sv_exited := [];
     sv_phase := Serving; sv_accepted := []; sv_rejected := [] |}.

(** [schedule_cron] and [schedule_after]: check and send under one lock.  The receiver lives until the
    supervisor is complete. *)
Definition register (task : nat) (s : Supervisor) : Supervisor :=
  if sv_is_shutdown s then
    {| sv_is_shutdown := true; sv_signalling := sv_signalling s; sv_queue := sv_queue s; sv_alive := sv_alive s;
       sv_exited := sv_exited s; sv_phase := sv_phase s; sv_accepted := sv_accepted s;
       sv_rejected := task :: sv_rejected s |}
  else
    match sv_phase s with
    | Complete =>
        {| sv_is_shutdown := true; sv_signalling := sv_signalling s; sv_queue := sv_queue s; sv_alive := sv_alive s;
           sv_exited := sv_exited s; sv_phase := sv_phase s; sv_accepted := sv_accepted s;
           sv_rejected := task :: sv_rejected s |}
    | _ =>
        {| sv_is_shutdown := false; sv_signalling := sv_signalling s; sv_queue := sv_queue s ++ [Register task];
           sv_alive := sv_alive s; sv_exited := sv_exited s; sv_phase := sv_phase s;
           sv_accepted := task :: sv_accepted s; sv_rejected := sv_rejected s |}
    end.

(** [shutdown] sets the flag under the lock, and sends after it was released. *)
Definition begin_shutdown (s : Supervisor) : Supervisor :=
  {| sv_is_shutdown := true; sv_signalling := sv_signalling s || negb (sv_is_shutdown s); sv_queue := sv_queue s;
     sv_alive := sv_alive s; sv_exited := sv_exited s; sv_phase := sv_phase s; sv_accepted := sv_accepted s;
     sv_rejected := sv_rejected s |}.
Definition send_shutdown (s : Supervisor) : Supervisor :=
  {| sv_is_shutdown := sv_is_shutdown s; sv_signalling := false; sv_queue := sv_queue s ++ [Shutdown];
     sv_alive := sv_alive s; sv_exited := sv_exited s; sv_phase := sv_phase s; sv_accepted := sv_accepted s;
     sv_rejected := sv_rejected s |}.

(** One command of the supervisor's loop. *)
Definition receive (c : SchedulerCommand) (queue : list SchedulerCommand) (s : Supervisor) : Supervisor :=
  {| sv_is_shutdown := sv_is_shutdown s; sv_signalling := sv_signalling s; sv_queue := queue;
     sv_alive := match c with Register task => task :: sv_alive s | Shutdown => sv_alive s end;
     sv_exited := sv_exited s; sv_phase := match c with Register _ => Serving | Shutdown => Draining end;
     sv_accepted := sv_accepted s; sv_rejected := sv_rejected s |}.
(** A task exits, by itself or aborted by the drain. *)
Definition task_exit (task : nat) (alive : list nat) (s : Supervisor) : Supervisor :=
  {| sv_is_shutdown := sv_is_shutdown s; sv_signalling := sv_signalling s; sv_queue := sv_queue s; sv_alive := alive;
     sv_exited := task :: sv_exited s; sv_phase := sv_phase s; sv_accepted := sv_accepted s;
     sv_rejected := sv_rejected s |}.
Definition complete (s : Supervisor) : Supervisor :=
  {| sv_is_shutdown := sv_is_shutdown s; sv_signalling := sv_signalling s; sv_queue := sv_queue s; sv_alive := [];
     sv_exited := sv_exited s; sv_phase := Complete; sv_accepted := sv_accepted s; sv_rejected := sv_rejected s |}.

Inductive supervisor_step (s : Supervisor) : Supervisor -> Prop :=
| sup_register task : supervisor_step s (register task s)
| sup_begin_shutdown : supervisor_step s (begin_shutdown s)
| sup_send_shutdown : sv_signalling s = true -> supervisor_step s (send_shutdown s)
| sup_receive c queue : sv_phase s = Serving -> sv_queue s = c :: queue -> supervisor_step s (receive c queue s)
| sup_exit task pre post : sv_alive s = pre ++ task :: post -> supervisor_step s (task_exit task (pre ++ post) s)
| sup_complete : sv_phase s = Draining -> sv_alive s = [] -> supervisor_step s (complete s).

Definition registrations (queue : list SchedulerCommand) : list nat :=
  concat ((fun c => match c with Register task => [task] | Shutdown => [] end) <$> queue).

Record supervisor_ok (s : Supervisor) : Prop := {
  (** Every accepted task is waiting, alive or gone. *)
  sp_accounted : sv_accepted s ≡ₚ registrations (sv_queue s) ++ sv_alive s ++ sv_exited s;
  (** The shutdown command is the last one. *)
  sp_last : forall pre post, sv_queue s = pre ++ Shutdown :: post ->
    post = [] /\ sv_is_shutdown s = true /\ sv_signalling s = false;
  sp_drained : sv_phase s <> Serving -> sv_queue s = [] /\ sv_is_shutdown s = true /\ sv_signalling s = false;
  sp_signal : sv_signalling s = true -> sv_is_shutdown s = true;
  sp_complete : sv_phase s = Complete -> sv_alive s = [];
}.

Lemma registrations_app q1 q2 : registrations (q1 ++ q2) = registrations q1 ++ registrations q2.
Proof. unfold registrations. by rewrite fmap_app, concat_app. Qed.

(** A command in a queue that grew by one is in the queue or the new one. *)
Lemma snoc_split {A} (l : list A) x pre y post : l ++ [x] = pre ++ y :: post ->
  (exists post', l = pre ++ y :: post' /\ post = post' ++ [x]) \/ (pre = l /\ y = x /\ post = []).
Proof.
  destruct post as [|z post] using rev_ind.
  - intros H. apply app_inj_tail in H as [-> ->]. by right.
  - rewrite app_comm_cons, app_assoc. intros H. apply app_inj_tail in H as [-> ->]. left. by exists post.
Qed.

Lemma supervisor_step_ok s s' : supervisor_ok s -> supervisor_step s s' -> supervisor_ok s'.
Proof.
  intros [Ha Hl Hd Hs Hc] H. inversion H as [task| |Hsig|c queue Hp Hq|task pre post Hal|Hp Hal]; subst; clear H.
  - unfold register. destruct (sv_is_shutdown s) eqn:Hf; [by split|].
    destruct (sv_phase s) eqn:Hp; [|by destruct (Hd ltac:(done)) as (_ & ? & _)..]. split; simpl; try done.
    + rewrite registrations_app, <-app_assoc, Ha. by apply Permutation_middle.
    + intros pre post [(post' & Hq & ->)|(_ & ? & _)]%snoc_split; [|done].
      by destruct (Hl _ _ Hq) as (_ & ? & _).
  - split; simpl; try done.
    + intros pre post Hq. destruct (Hl _ _ Hq) as (-> & Hf & ->). by rewrite Hf.
    + intros Hp. destruct (Hd Hp) as (-> & Hf & ->). by rewrite Hf.
  - specialize (Hs Hsig). split; simpl; try done.
    + rewrite registrations_app. simpl. by rewrite app_nil_r.
    + intros pre post [(post' & Hq & ->)|(_ & _ & ->)]%snoc_split; [|done].
      destruct (Hl _ _ Hq) as (_ & _ & ?). congruence.
    + intros Hp. destruct (Hd Hp) as (_ & _ & ?). congruence.
  - rewrite Hq in Ha. destruct c as [task|]; split; simpl; try done.
    + rewrite Ha. by apply Permutation_middle.
    + intros pre post ->. by apply (Hl (Register task :: pre)).
    + intros pre post ->. destruct (Hl [] (pre ++ Shutdown :: post) Hq) as (Hn & _). by destruct pre.
    + intros _. destruct (Hl [] queue Hq) as (-> & ? & ?). done.
  - split; simpl; try done.
    + rewrite Ha, Hal. apply Permutation_app_head. rewrite <-(Permutation_middle pre post task). by apply Permutation_middle.
    + intros Hp. specialize (Hc Hp). rewrite Hal in Hc. by destruct pre.
  - split; simpl; try done.
    + by rewrite Ha, Hal.
    + intros _. apply Hd. by rewrite Hp.
Qed.

(** A shutdown leaves nothing behind.  Whatever the order of registrations, clones that shut down,
    the supervisor and the tasks: once the supervisor is complete, every registration that returned
    a handle was spawned and has exited, none is waiting in the queue, and later registrations are
    refused. *)
Theorem shutdown_drains_everything (s : Supervisor) (Hreach : rtc supervisor_step new_supervisor s)
    (Hcomplete : sv_phase s = Complete) :
  sv_accepted s ≡ₚ sv_exited s /\ sv_queue s = []
  /\ forall task, sv_accepted (register task s) = sv_accepted s /\ task ∈ sv_rejected (register task s).
Proof.
  assert (supervisor_ok s) as [Ha _ Hd _ Hc].
  { assert (supervisor_ok new_supervisor) as Hok by (split; simpl; try done; by intros []).
    clear Hcomplete. induction Hreach as [|x y z H1 _ IH]; [done|]. apply IH. by eapply supervisor_step_ok. }
  destruct Hd as (Hq & Hf & _); [by rewrite Hcomplete|]. rewrite Hq, (Hc Hcomplete) in Ha. split_and!; [done|done|].
  intros task. unfold register. rewrite Hf. split; [done|by left].
Qed.

Definition sample_shutdown : Supervisor :=
  {| sv_is_shutdown := true; sv_signalling := false; sv_queue := []; sv_alive := []; sv_exited := [7];
     sv_phase := Complete; sv_accepted := [7]; sv_rejected := [] |}.
Lemma shutdown_drains_everything_witness :
  sv_accepted sample_shutdown ≡ₚ sv_exited sample_shutdown /\ sv_queue sample_shutdown = []
  /\ forall task, sv_accepted (register task sample_shutdown) = sv_accepted sample_shutdown
                  /\ task ∈ sv_rejected (register task sample_shutdown).
Proof.
  apply shutdown_drains_everything; [|reflexivity].
  eapply rtc_l; [apply (sup_register _ 7)|]. eapply rtc_l; [apply sup_begin_shutdown|].
  eapply rtc_l; [by apply sup_send_shutdown|]. eapply rtc_l; [by eapply (sup_receive _ (Register 7))|].
  eapply rtc_l; [by eapply (sup_exit _ 7 [] [])|]. eapply rtc_l; [by eapply (sup_receive _ Shutdown)|].
  eapply rtc_l; [by apply sup_complete|]. reflexivity.
Defined.
