(* ===== verification/ScheduledArtifacts.v ===== *)
(** * Scheduled run artifacts

    [crates/domain/src/scheduled_artifact.rs], the collection of
    [application/src/scheduled_task/artifact_store/collection.rs], the manifest tables of
    [db/src/repository/scheduled_artifact.rs] (migration 0021) and the collecting handler of
    [artifact_handlers.rs].  The worktree directory is a tree whose files carry the outcome of their
    copy; Unicode folding belongs to another crate. *)

From stdpp Require Import fin_maps.
From S2P Require Import Prelude RustStr PortablePath Order ScheduledTask ScheduledRun ScheduledStore.
From S2P Require Import ScheduledRuntime.
From Stdlib Require Import Ascii.
Local Open Scope ora_scope.

(** ** Data *)

Definition MAX_SCHEDULED_ARTIFACT_BYTES : N := 10 * 1024 * 1024.
Definition MAX_SCHEDULED_ARTIFACTS_PER_RUN : nat := 64.
Definition MAX_SCHEDULED_ARTIFACT_TOTAL_BYTES : N := 64 * 1024 * 1024.

Inductive ScheduledArtifactKind : Type :=
| ArtifactMarkdown | ArtifactJson | ArtifactText | ArtifactLog | ArtifactXml | ArtifactHtml.
#[export] Instance ScheduledArtifactKind_eq_dec : EqDecision ScheduledArtifactKind.
Proof. solve_decision. Defined.
Definition artifact_kind_as_str (k : ScheduledArtifactKind) : string :=
  match k with
  | ArtifactMarkdown => "markdown" | ArtifactJson => "json" | ArtifactText => "text" | ArtifactLog => "log"
  | ArtifactXml => "xml" | ArtifactHtml => "html"
  end.
Definition artifact_kind_parse (value : string) : option ScheduledArtifactKind :=
  let token := str_to_lower (trim value) in
  if bool_decide (token = "markdown") then Some ArtifactMarkdown
  else if bool_decide (token = "json") then Some ArtifactJson
  else if bool_decide (token = "text") then Some ArtifactText
  else if bool_decide (token = "log") then Some ArtifactLog
  else if bool_decide (token = "xml") then Some ArtifactXml
  else if bool_decide (token = "html") then Some ArtifactHtml
  else None.

(** What follows the last dot; the whole name when there is none. *)
Definition kind_of_file_name (name : string) : option ScheduledArtifactKind :=
  let extension := str_to_lower (default "" (last (split_char "."%char name))) in
  if bool_decide (extension = "md") || bool_decide (extension = "markdown") then Some ArtifactMarkdown
  else if bool_decide (extension = "json") then Some ArtifactJson
  else if bool_decide (extension = "txt") then Some ArtifactText
  else if bool_decide (extension = "log") then Some ArtifactLog
  else if bool_decide (extension = "xml") then Some ArtifactXml
  else if bool_decide (extension = "html") then Some ArtifactHtml
  else None.

Inductive ScheduledArtifactRejectionReason : Type :=
| UnsupportedType | PathUnsafe | SymlinkRejected | HardLink | TooLarge | TooMany | TotalTooLarge | ReadFailed | CopyFailed.
#[export] Instance ScheduledArtifactRejectionReason_eq_dec : EqDecision ScheduledArtifactRejectionReason.
Proof. solve_decision. Defined.

Record ScheduledRunArtifact : Type :=
  { ra_relative_path : string; ra_kind : ScheduledArtifactKind; ra_size_bytes : N; ra_registered_at : Z }.
Record ScheduledArtifactRejection : Type := { rj_name : string; rj_reason : ScheduledArtifactRejectionReason }.
Record CollectedScheduledArtifacts : Type :=
  { cs_artifacts : list ScheduledRunArtifact; cs_rejections : list ScheduledArtifactRejection }.

(** ** The worktree directory *)

(** [fs::copy] into a temporary file, its size check and its rename. *)
Inductive CopyResult : Type := Copied | CopyTooLarge | CopyChanged | CopyRefused.
(** A file name is UTF-8, or it only has a lossy reading. *)
Inductive FileName : Type := Utf8Name (name : string) | UndecodableName (lossy : string).
(** [None] for what cannot be read: the links of a file, the entries of a directory.  The entries of a
    directory are in the order of their names. *)
Inductive SourceNode : Type :=
| SourceFile (size : N) (multiple_links : option bool) (copy : CopyResult)
| SourceSymlink
| SourceOther
| SourceUnreadable
| SourceDirectory (entries : option (list (FileName * SourceNode))).

(** [nfc().to_lowercase()] *)
Class FoldCase : Type := { fold_case : string -> string }.

(** [parse_artifact_relative_path]: no alternate data streams. *)
Definition parse_artifact_relative_path (raw : string) : option StrictRelativePath :=
  if negb (str_free (is_char ":"%char) raw) then None
  else match strict_parse raw with Ok p => Some p | Err _ => None end.

Record CollectionState : Type :=
  { cl_names : list string; cl_total_bytes : N; cl_collected : CollectedScheduledArtifacts }.
Definition new_collection : CollectionState :=
  {| cl_names := []; cl_total_bytes := 0; cl_collected := {| cs_artifacts := []; cs_rejections := [] |} |}.

Definition reject_artifact (name : string) (reason : ScheduledArtifactRejectionReason) (st : CollectionState) : CollectionState :=
  {| cl_names := cl_names st; cl_total_bytes := cl_total_bytes st;
     cl_collected := {| cs_artifacts := cs_artifacts (cl_collected st);
                        cs_rejections := cs_rejections (cl_collected st) ++ [{| rj_name := name; rj_reason := reason |}] |} |}.

Definition saturate_u64 (n : N) : N := N.min n (2 ^ 64 - 1).
Definition check_bounds (collected_count : nat) (collected_bytes candidate_bytes : N) :
    result ScheduledArtifactRejectionReason unit :=
  reject (MAX_SCHEDULED_ARTIFACT_BYTES <? candidate_bytes)%N with TooLarge;
  reject (MAX_SCHEDULED_ARTIFACTS_PER_RUN <=? collected_count) with TooMany;
  reject_if (MAX_SCHEDULED_ARTIFACT_TOTAL_BYTES <? saturate_u64 (collected_bytes + candidate_bytes))%N TotalTooLarge.

Section collection.
Context {folding : FoldCase}.
Variable registered_at : Z.

Definition collect_file (size : N) (multiple_links : option bool) (copy : CopyResult) (parsed : StrictRelativePath)
    (relative : string) (st : CollectionState) : CollectionState :=
  match kind_of_file_name (strict_file_name parsed) with
  | None => reject_artifact relative UnsupportedType st
  | Some kind =>
      match multiple_links with
      | Some true => reject_artifact relative HardLink st
      | None => reject_artifact relative ReadFailed st
      | Some false =>
          match check_bounds (length (cs_artifacts (cl_collected st))) (cl_total_bytes st) size with
          | Err reason => reject_artifact relative reason st
          | Ok _ =>
              match copy with
              | Copied =>
                  {| cl_names := cl_names st; cl_total_bytes := saturate_u64 (cl_total_bytes st + size);
                     cl_collected :=
                       {| cs_artifacts := cs_artifacts (cl_collected st)
                            ++ [{| ra_relative_path := strict_path parsed; ra_kind := kind; ra_size_bytes := size;
                                   ra_registered_at := registered_at |}];
                          cs_rejections := cs_rejections (cl_collected st) |} |}
              | CopyTooLarge => reject_artifact relative TooLarge st
              | CopyChanged => reject_artifact relative ReadFailed st
              | CopyRefused => reject_artifact relative CopyFailed st
              end
          end
      end
  end.

Definition child_path (prefix name : string) : string :=
  if bool_decide (prefix = "") then name else prefix +:+ "/" +:+ name.

(** [visit_directory] over the entries below a prefix; [None] when a directory cannot be read. *)
Fixpoint visit_directory (node : SourceNode) (prefix : string) (st : CollectionState) : option CollectionState :=
  match node with
  | SourceDirectory None => None
  | SourceDirectory (Some entries) =>
      (fix walk (entries : list (FileName * SourceNode)) (st : CollectionState) : option CollectionState :=
         match entries with
         | [] => Some st
         | (UndecodableName lossy, _) :: rest => walk rest (reject_artifact lossy PathUnsafe st)
         | (Utf8Name name, child) :: rest =>
             let relative := child_path prefix name in
             match parse_artifact_relative_path relative with
             | None => walk rest (reject_artifact relative PathUnsafe st)
             | Some parsed =>
                 let key := fold_case (strict_path parsed) in
                 if bool_decide (key ∈ cl_names st) then walk rest (reject_artifact relative PathUnsafe st)
                 else
                   let st := {| cl_names := key :: cl_names st; cl_total_bytes := cl_total_bytes st;
                                cl_collected := cl_collected st |} in
                   match child with
                   | SourceUnreadable => walk rest (reject_artifact relative ReadFailed st)
                   | SourceSymlink => walk rest (reject_artifact relative SymlinkRejected st)
                   | SourceDirectory _ =>
                       match visit_directory child relative st with Some st => walk rest st | None => None end
                   | SourceOther => walk rest (reject_artifact relative PathUnsafe st)
                   | SourceFile size links copy => walk rest (collect_file size links copy parsed relative st)
                   end
             end
         end) entries st
  | _ => Some st
  end.

(** [ScheduledArtifactStore::collect] and the answer of the handler to a storage failure: [None] for a
    missing directory. *)
Definition only_rejection (reason : ScheduledArtifactRejectionReason) : CollectedScheduledArtifacts :=
  {| cs_artifacts := []; cs_rejections := [{| rj_name := SCHEDULED_ARTIFACT_DIRECTORY; rj_reason := reason |}] |}.
Definition collect_artifacts (directory : option SourceNode) : CollectedScheduledArtifacts :=
  match directory with
  | None => {| cs_artifacts := []; cs_rejections := [] |}
  | Some SourceSymlink => only_rejection SymlinkRejected
  | Some (SourceDirectory entries) =>
      match visit_directory (SourceDirectory entries) "" new_collection with
      | Some st => cl_collected st
      | None => only_rejection ReadFailed
      end
  | Some SourceUnreadable => only_rejection ReadFailed
  | Some _ => only_rejection PathUnsafe
  end.
End collection.

(** ** The manifest *)

Record ArtifactTables : Type := {
  at_artifacts : gmap (ScheduledRunId * string) ScheduledRunArtifact;
  at_rejections : gmap (ScheduledRunId * string) ScheduledArtifactRejectionReason;
}.
Definition insert_artifact (run_id : ScheduledRunId) (t : ArtifactTables) (a : ScheduledRunArtifact) :
    result ScheduledDatabaseError ArtifactTables :=
  reject (i64_max <? Z.of_N (ra_size_bytes a))%Z with (CorruptScheduledArtifactSize (ra_relative_path a));
  _ ← require_row (bool_decide (at_artifacts t !! (run_id, ra_relative_path a) = None));
  Ok {| at_artifacts := <[(run_id, ra_relative_path a) := a]> (at_artifacts t); at_rejections := at_rejections t |}.
Definition insert_rejection (run_id : ScheduledRunId) (t : ArtifactTables) (r : ScheduledArtifactRejection) :
    result ScheduledDatabaseError ArtifactTables :=
  _ ← require_row (bool_decide (at_rejections t !! (run_id, rj_name r) = None));
  Ok {| at_artifacts := at_artifacts t; at_rejections := <[(run_id, rj_name r) := rj_reason r]> (at_rejections t) |}.
(** One transaction. *)
Definition record_scheduled_run_artifacts (run_id : ScheduledRunId) (c : CollectedScheduledArtifacts) (t : ArtifactTables) :
    result ScheduledDatabaseError ArtifactTables :=
  t ← fold_result (insert_artifact run_id) t (cs_artifacts c);
  fold_result (insert_rejection run_id) t (cs_rejections c).

(** [ORDER BY registered_at, relative_path] *)
Definition earlier_artifact (a b : ScheduledRunArtifact) : Prop :=
  cmp_pair Z.compare str_cmp (ra_registered_at a, ra_relative_path a) (ra_registered_at b, ra_relative_path b) <> Gt.
#[export] Instance earlier_artifact_dec : RelDecision earlier_artifact.
Proof. intros a b. unfold earlier_artifact. apply _. Defined.
Definition list_scheduled_run_artifacts (run_id : ScheduledRunId) (t : ArtifactTables) : list ScheduledRunArtifact :=
  merge_sort earlier_artifact (filter (fun p => p.1.1 = run_id) (map_to_list (at_artifacts t))).*2.
Definition find_scheduled_run_artifact (run_id : ScheduledRunId) (relative_path : string) (t : ArtifactTables) :
    option ScheduledRunArtifact := at_artifacts t !! (run_id, relative_path).
Definition delete_scheduled_run_artifact (run_id : ScheduledRunId) (relative_path : string) (t : ArtifactTables) :
    bool * ArtifactTables :=
  (bool_decide (is_Some (at_artifacts t !! (run_id, relative_path))),
   {| at_artifacts := delete (run_id, relative_path) (at_artifacts t); at_rejections := at_rejections t |}).
Definition delete_scheduled_run_artifact_rows (run_id : ScheduledRunId) (t : ArtifactTables) : ArtifactTables :=
  {| at_artifacts := filter (fun p => p.1.1 <> run_id) (at_artifacts t);
     at_rejections := filter (fun p => p.1.1 <> run_id) (at_rejections t) |}.

(** [CollectScheduledRunArtifactsHandler::handle], for a run whose identifier is a safe segment. *)
Definition collect_and_record {folding : FoldCase} (run_id : ScheduledRunId) (directory : option SourceNode)
    (registered_at : Z) (t : ArtifactTables) : result ScheduledDatabaseError CollectedScheduledArtifacts * ArtifactTables :=
  let collected := collect_artifacts registered_at directory in
  match record_scheduled_run_artifacts run_id collected t with
  | Ok t => (Ok collected, t)
  | Err e => (Err e, t)
  end.

(** ** What is collected *)

Definition sizes (l : list ScheduledRunArtifact) : N := foldr (fun a n => (ra_size_bytes a + n)%N) 0%N l.
Lemma sizes_app l1 l2 : sizes (l1 ++ l2) = (sizes l1 + sizes l2)%N.
Proof. induction l1 as [|a l1 IH]; simpl; [done|]. rewrite IH. lia. Qed.

Section laws.
Context {folding : FoldCase}.
Variable registered_at : Z.

Definition artifact_key (a : ScheduledRunArtifact) : string := fold_case (ra_relative_path a).
(** A collected file: within its bound, under the run's directory, of a known kind. *)
Record artifact_ok (a : ScheduledRunArtifact) : Prop := {
  ao_size : (ra_size_bytes a <= MAX_SCHEDULED_ARTIFACT_BYTES)%N;
  ao_path : parse_artifact_relative_path (ra_relative_path a) = Some {| strict_path := ra_relative_path a |};
  ao_kind : kind_of_file_name (strict_file_name {| strict_path := ra_relative_path a |}) = Some (ra_kind a);
}.
Record collection_ok (names : list string) (total : N) (l : list ScheduledRunArtifact) : Prop := {
  co_count : length l <= MAX_SCHEDULED_ARTIFACTS_PER_RUN;
  co_sizes : sizes l = total;
  co_total : (total <= MAX_SCHEDULED_ARTIFACT_TOTAL_BYTES)%N;
  co_names : forall a, a ∈ l -> artifact_key a ∈ names;
  co_distinct : NoDup (artifact_key <$> l);
  co_each : Forall artifact_ok l;
}.
Definition state_ok (st : CollectionState) : Prop :=
  collection_ok (cl_names st) (cl_total_bytes st) (cs_artifacts (cl_collected st)).

Lemma reject_ok name reason st : state_ok st -> state_ok (reject_artifact name reason st).
Proof. done. Qed.

Lemma check_bounds_Ok count bytes size u : check_bounds count bytes size = Ok u ->
  (size <= MAX_SCHEDULED_ARTIFACT_BYTES)%N /\ count < MAX_SCHEDULED_ARTIFACTS_PER_RUN
  /\ (saturate_u64 (bytes + size) <= MAX_SCHEDULED_ARTIFACT_TOTAL_BYTES)%N.
Proof.
  unfold check_bounds. intros [H1%N.ltb_ge H]%reject_Ok. apply reject_Ok in H as [H2%Nat.leb_gt H].
  apply reject_if_Ok, N.ltb_ge in H. done.
Qed.

Lemma parse_artifact_idem raw p : parse_artifact_relative_path raw = Some p ->
  parse_artifact_relative_path (strict_path p) = Some {| strict_path := strict_path p |}.
Proof.
  unfold parse_artifact_relative_path. destruct (negb (str_free _ raw)) eqn:Hc; [done|]. apply negb_false_iff in Hc.
  destruct (strict_parse raw) as [q|] eqn:Hq; [|done]. intros [= <-].
  assert (strict_parse (strict_path q) = Ok q) as Hq'.
  { pose proof Hq as (_ & H2 & H3 & Hn)%strict_parse_segments. unfold strict_parse, strict_parse_with_limits in *.
    rewrite H2, (to_slashes_id _ H3). rewrite <-Hn in Hq. by destruct (has_control raw). }
  pose proof Hq as (_ & _ & _ & Hn)%strict_parse_segments.
  assert (str_free (is_char ":"%char) (strict_path q) = true) as ->.
  { rewrite Hn. clear -Hc. induction raw as [|c raw IH]; [done|]. simpl in *.
    apply andb_true_iff in Hc as [H1 H2]. rewrite IH, andb_true_r by done. by destruct (is_char BACKSLASH c). }
  rewrite Hq'. by destruct q.
Qed.

Lemma collect_file_ok size links copy raw parsed relative st : parse_artifact_relative_path raw = Some parsed ->
  fold_case (strict_path parsed) ∈ cl_names st ->
  (forall a, a ∈ cs_artifacts (cl_collected st) -> artifact_key a <> fold_case (strict_path parsed)) ->
  state_ok st -> state_ok (collect_file registered_at size links copy parsed relative st).
Proof.
  intros Hp Hin Hnew Hok. unfold collect_file. destruct (kind_of_file_name _) as [kind|] eqn:Hk; [|by apply reject_ok].
  destruct links as [[]|]; [by apply reject_ok| |by apply reject_ok].
  destruct (check_bounds _ _ _) as [u|reason] eqn:Hb; [|by apply reject_ok]. destruct copy; try by apply reject_ok.
  apply check_bounds_Ok in Hb as (Hs & Hc & Ht). destruct Hok as [K1 K2 K3 K4 K5 K6].
  assert (saturate_u64 (cl_total_bytes st + size) = (cl_total_bytes st + size)%N) as Hsat.
  { unfold saturate_u64, MAX_SCHEDULED_ARTIFACT_TOTAL_BYTES, MAX_SCHEDULED_ARTIFACT_BYTES in *. lia. }
  split; cbn [cl_collected cs_artifacts cl_names cl_total_bytes].
  - rewrite length_app. simpl. lia.
  - rewrite sizes_app, K2, Hsat. simpl. lia.
  - done.
  - intros a [Ha|Ha]%elem_of_app; [by apply K4|]. apply list_elem_of_singleton in Ha as ->. done.
  - rewrite fmap_app. apply NoDup_app. split_and!; [done| |apply NoDup_singleton].
    intros k (a & -> & Ha)%list_elem_of_fmap Hk'%list_elem_of_singleton. by apply (Hnew a).
  - apply Forall_app. split; [done|]. apply Forall_singleton. split; simpl; [done| |].
    + by eapply parse_artifact_idem.
    + destruct parsed. done.
Qed.

Lemma visit_ok node prefix st st' : visit_directory registered_at node prefix st = Some st' -> state_ok st -> state_ok st'.
Proof.
  revert prefix st st'. revert node. fix IH 1. intros node prefix st st'.
  destruct node as [| | | |[entries|]]; cbn [visit_directory]; try (by intros [= <-]).
  revert st. induction entries as [|[name child] rest IHr]; intros st; [by intros [= <-]|].
  pose proof (IH child) as IHc. clear IH.
  destruct name as [name|lossy]; [|intros H Hok; eapply IHr; [exact H|by apply reject_ok]].
  destruct (parse_artifact_relative_path (child_path prefix name)) as [parsed|] eqn:Hp;
    [|intros H Hok; eapply IHr; [exact H|by apply reject_ok]].
  case_bool_decide as Hin; intros H Hok; [eapply IHr; [exact H|by apply reject_ok]|].
  set (st1 := {| cl_names := _ |}) in *.
  assert (state_ok st1) as Hok1.
  { destruct Hok as [K1 K2 K3 K4 K5 K6]. split; try done. intros a Ha. right. by apply K4. }
  destruct child as [size links copy| | | |entries']; try (eapply IHr; [exact H|by apply reject_ok]).
  - eapply IHr; [exact H|]. eapply collect_file_ok; [exact Hp|by left| |done]. intros a Ha Heq.
    apply Hin. rewrite <-Heq. by apply (co_names _ _ _ Hok).
  - destruct (visit_directory registered_at (SourceDirectory entries') (child_path prefix name) st1) as [st2|] eqn:E; [|done].
    eapply IHr; [exact H|]. eapply IHc; [exact E|done].
Qed.

(** *** Where a collected file comes from, and where its copy goes *)

(** A regular file with one link below a directory, copied whole, whose names down to it are [path].
    Nothing is reached through a symbolic link. *)
Inductive holds_file : SourceNode -> list string -> N -> Prop :=
| holds_here size : holds_file (SourceFile size (Some false) Copied) [] size
| holds_below entries name child path size :
    (Utf8Name name, child) ∈ entries -> holds_file child path size ->
    holds_file (SourceDirectory (Some entries)) (name :: path) size.

(** A name that neither leaves its directory nor names a stream, on any platform. *)
Definition plain_segment (s : string) : Prop :=
  s <> "" /\ s <> "." /\ s <> ".."
  /\ Forall (fun c => c <> "/" /\ c <> "\" /\ c <> ":" /\ c <> NUL)%char (String.list_ascii_of_string s).
(** A relative path of plain names, which on any root stays below it. *)
Definition contained (path : string) (segments : list string) : Prop :=
  path = join "/" segments /\ segments <> [] /\ Forall plain_segment segments
  /\ forall root, to_path {| strict_path := path |} root = root ++ segments.

(** The extensions of a kind, and the names it is for: those that end in one of them, in any case,
    after their last dot, or consist of it. *)
Definition kind_extensions (k : ScheduledArtifactKind) : list string :=
  match k with
  | ArtifactMarkdown => ["md"; "markdown"] | ArtifactJson => ["json"] | ArtifactText => ["txt"]
  | ArtifactLog => ["log"] | ArtifactXml => ["xml"] | ArtifactHtml => ["html"]
  end.
Definition kind_allowed (k : ScheduledArtifactKind) (name : string) : Prop :=
  exists extension, str_to_lower extension ∈ kind_extensions k
    /\ (name = extension \/ exists stem, name = stem +:+ "." +:+ extension).

Lemma kind_of_file_name_allowed name k : kind_of_file_name name = Some k -> kind_allowed k name.
Proof.
  unfold kind_of_file_name. destruct (last_segment_of "."%char name) as (e & -> & Hname). cbn [default].
  intros H. exists e. split; [|exact Hname]. cbv zeta in H.
  repeat match type of H with
         | (if ?c then _ else _) = _ => destruct c eqn:E; [injection H as <-; simpl; clear -E; reflect_bools; set_solver|clear E]
         end.
  done.
Qed.

Lemma str_free_chars p s : str_free p s = true -> Forall (fun c => p c = false) (String.list_ascii_of_string s).
Proof.
  induction s as [|c s IH]; [constructor|]. simpl. intros [H%negb_true_iff Hs]%andb_true_iff. constructor; [done|by apply IH].
Qed.

Lemma artifact_path_contained raw p : parse_artifact_relative_path raw = Some p ->
  contained (strict_path p) (split_char SLASH (strict_path p)).
Proof.
  intros Hp. apply parse_artifact_idem in Hp. revert Hp. unfold parse_artifact_relative_path at 1.
  destruct (negb (str_free _ _)) eqn:Hc; [done|]. apply negb_false_iff in Hc.
  destruct (strict_parse (strict_path p)) as [q|e] eqn:Hq; [|done]. intros [= ->].
  apply strict_parse_segments in Hq as ([Hne Hok _ _ _] & _). cbn [strict_path] in *.
  split_and!; [by rewrite join_split_char|done| |].
  - pose proof (split_on_str_free (is_char SLASH) (is_char ":"%char) _ Hc) as Hcolon.
    apply Forall_forall. intros s Hs. rewrite Forall_forall in Hok, Hcolon.
    pose proof (Hok s Hs) as (H1 & H2 & H3 & H4 & H5 & _)%segment_ok_spec. specialize (Hcolon s Hs).
    apply str_free_chars in H4, H5, Hcolon. split_and!; [done|done|done|].
    apply Forall_forall. intros c Hc'. rewrite Forall_forall in H4, H5, Hcolon.
    specialize (H4 c Hc'). specialize (H5 c Hc'). specialize (Hcolon c Hc').
    unfold is_char in *. apply orb_false_iff in H4 as [H4 H4']. unfold is_char in *.
    apply bool_decide_eq_false in H4, H4', H5, Hcolon. by split_and!.
  - intros root. unfold to_path. simpl. case_bool_decide as E; [|done]. exfalso. rewrite E in Hok. simpl in Hok.
    by apply Forall_cons in Hok as [? _].
Qed.

(** The artifact is the copy of a file of the directory, at its path below it. *)
Definition copy_of (node : SourceNode) (prefix : string) (a : ScheduledRunArtifact) : Prop :=
  exists path, path <> [] /\ holds_file node path (ra_size_bytes a)
    /\ ra_relative_path a = to_slashes (child_path prefix (join "/" path)).

Lemma child_path_below prefix name path : child_path prefix name <> "" -> path <> [] ->
  child_path (child_path prefix name) (join "/" path) = child_path prefix (join "/" (name :: path)).
Proof.
  intros Hn Hp. rewrite join_cons by done. unfold child_path at 1. rewrite bool_decide_eq_false_2 by done.
  unfold child_path. case_bool_decide; [done|]. by rewrite !app_assoc_str.
Qed.

Lemma copy_of_below entries name child prefix a : (Utf8Name name, child) ∈ entries -> child_path prefix name <> "" ->
  copy_of child (child_path prefix name) a -> copy_of (SourceDirectory (Some entries)) prefix a.
Proof.
  intros Hin Hn (path & Hp & Hf & Heq). exists (name :: path). split_and!; [done|by eapply holds_below|].
  by rewrite Heq, child_path_below.
Qed.

Lemma copy_of_rest x rest prefix a :
  copy_of (SourceDirectory (Some rest)) prefix a -> copy_of (SourceDirectory (Some (x :: rest))) prefix a.
Proof.
  intros (path & Hp & Hf & Heq). exists path. split_and!; [done| |done]. inversion Hf; subst.
  eapply holds_below; [right; done|done].
Qed.

Lemma parse_artifact_text raw p : parse_artifact_relative_path raw = Some p -> strict_path p = to_slashes raw /\ raw <> "".
Proof.
  unfold parse_artifact_relative_path. destruct (negb _); [done|]. destruct (strict_parse raw) as [q|] eqn:Hq; [|done].
  intros [= <-]. split; [by apply strict_parse_segments in Hq as (_ & _ & _ & ?)|]. by intros ->.
Qed.

(** What one file adds. *)
Lemma collect_file_adds size links copy parsed relative st a :
  a ∈ cs_artifacts (cl_collected (collect_file registered_at size links copy parsed relative st)) ->
  a ∈ cs_artifacts (cl_collected st)
  \/ links = Some false /\ copy = Copied /\ ra_relative_path a = strict_path parsed /\ ra_size_bytes a = size.
Proof.
  unfold collect_file. destruct (kind_of_file_name _); [|by left]. destruct links as [[]|]; [by left| |by left].
  destruct (check_bounds _ _ _); [|by left]. destruct copy; try by left. simpl.
  intros [Ha| ->%list_elem_of_singleton]%elem_of_app; [by left|by right].
Qed.

Lemma visit_copies node prefix st st' a : visit_directory registered_at node prefix st = Some st' ->
  a ∈ cs_artifacts (cl_collected st') -> a ∈ cs_artifacts (cl_collected st) \/ copy_of node prefix a.
Proof.
  revert prefix st st'. revert node. fix IH 1. intros node prefix st st'.
  destruct node as [| | | |[entries|]]; cbn [visit_directory]; try (intros [= <-]; by left).
  revert st. induction entries as [|[name child] rest IHr]; intros st; [intros [= <-]; by left|].
  assert (forall st, _ = Some st' -> a ∈ cs_artifacts (cl_collected st') ->
    a ∈ cs_artifacts (cl_collected st) \/ copy_of (SourceDirectory (Some ((name, child) :: rest))) prefix a) as IHw
    by (intros s H Ha; destruct (IHr s H Ha) as [?|?]; [by left|right; by apply copy_of_rest]). clear IHr.
  pose proof (IH child) as IHc. clear IH.
  destruct name as [name|lossy]; [|intros H Ha; by apply (IHw _ H)].
  destruct (parse_artifact_relative_path (child_path prefix name)) as [parsed|] eqn:Hp; [|intros H Ha; by apply (IHw _ H)].
  case_bool_decide as Hin; intros H Ha; [by apply (IHw _ H)|].
  apply parse_artifact_text in Hp as [Htext Hne].
  destruct child as [size links copy| | | |entries']; try by apply (IHw _ H).
  - destruct (IHw _ H Ha) as [Ha'|?]; [|by right].
    apply collect_file_adds in Ha' as [?|(-> & -> & Hpath & <-)]; [by left|right].
    exists [name]. split_and!; [done|by eapply holds_below; [left|constructor]|]. simpl. congruence.
  - destruct (visit_directory registered_at (SourceDirectory entries') (child_path prefix name) _) as [st2|] eqn:E; [|done].
    destruct (IHw _ H Ha) as [Ha'|?]; [|by right].
    destruct (IHc _ _ _ E Ha') as [?|Hc]; [by left|right]. eapply copy_of_below; [left|done..].
Qed.

(** C20: what a run can leave behind is bounded and contained.  Whatever the agent put in the declared
    directory, at most 64 files are collected, each of at most 10 MiB, of at most 64 MiB together;
    no two of them fold to the same name, so that none overwrites another on any file system.  Each
    is the complete copy of a regular file, with a single link and reached through no symbolic link,
    found in that directory at that path (a backslash in a name read as a separator); its path
    consists of plain names only, without traversal, separators, drives or streams, so that it stays
    below any root; and its kind is the one its extension is for. *)
Theorem collected_within_bounds (directory : option SourceNode) :
  let l := cs_artifacts (collect_artifacts registered_at directory) in
  length l <= 64 /\ (sizes l <= 64 * 1024 * 1024)%N /\ NoDup (artifact_key <$> l)
  /\ Forall (fun a => (ra_size_bytes a <= 10 * 1024 * 1024)%N
       /\ (exists node path, directory = Some node /\ holds_file node path (ra_size_bytes a)
             /\ ra_relative_path a = to_slashes (join "/" path))
       /\ exists segments name, contained (ra_relative_path a) segments
             /\ last segments = Some name /\ kind_allowed (ra_kind a) name) l.
Proof.
  assert (exists names total, collection_ok names total (cs_artifacts (collect_artifacts registered_at directory)))
    as (names & total & [K1 K2 K3 K4 K5 K6]).
  { assert (collection_ok [] 0 []) as H0 by (split; try done; [simpl; lia|by intros a ?%elem_of_nil|constructor]).
    unfold collect_artifacts. destruct directory as [[| | | |entries]|]; try (by exists [], 0%N).
    destruct (visit_directory _ _ _ _) as [st|] eqn:E; [|by exists [], 0%N]. eexists _, _.
    by eapply visit_ok. }
  split_and!; [done|by rewrite K2|done|]. apply Forall_forall. intros a Ha.
  pose proof (proj1 (Forall_forall _ _) K6 a Ha) as [H1 H2 H3]. split_and!; [done| |].
  - unfold collect_artifacts in Ha. destruct directory as [[| | | |entries]|]; try by apply elem_of_nil in Ha.
    destruct (visit_directory _ _ _ _) as [st|] eqn:E; [|by apply elem_of_nil in Ha].
    destruct (visit_copies _ _ _ _ _ E Ha) as [?%elem_of_nil|(path & _ & Hf & Heq)]; [done|]. by exists (SourceDirectory entries), path.
  - pose proof (artifact_path_contained _ _ H2) as Hc. cbn [strict_path] in Hc.
    destruct (last_Some_of _ (proj1 (proj2 Hc))) as [name Hname]. exists (split_char SLASH (ra_relative_path a)), name.
    split_and!; [done|done|]. apply kind_of_file_name_allowed. unfold strict_file_name in H3. cbn [strict_path] in H3.
    by rewrite Hname in H3.
Qed.
End laws.

(** ** Recording *)

(** A table of rejections refuses a name that comes twice. *)
Lemma insert_rejections_distinct run_id l t t' : fold_result (insert_rejection run_id) t l = Ok t' ->
  NoDup (rj_name <$> l) /\ at_artifacts t' = at_artifacts t
  /\ forall r, r ∈ l -> at_rejections t !! (run_id, rj_name r) = None.
Proof.
  revert t. induction l as [|r l IH]; intros t; simpl; [intros [= <-]; split_and!; [constructor|done|by intros r ?%elem_of_nil]|].
  intros (t1 & H1 & H)%bind_Ok. unfold insert_rejection in H1.
  apply bind_Ok in H1 as (? & Hn%reject_if_Ok%negb_false_iff%bool_decide_eq_true & [= <-]).
  apply IH in H as (Hnd & Ha & Hin). simpl in Ha, Hin. split_and!; [|done|].
  - constructor; [|done]. intros (r' & Heq & Hr')%list_elem_of_fmap. specialize (Hin _ Hr').
    rewrite <-Heq in Hin. by rewrite lookup_insert_eq in Hin.
  - intros r' [->|Hr']%elem_of_cons; [done|]. specialize (Hin _ Hr').
    destruct (decide (rj_name r = rj_name r')) as [Heq|Hne]; [by rewrite Heq, lookup_insert_eq in Hin|].
    rewrite lookup_insert_ne in Hin; [done|]. congruence.
Qed.

Lemma insert_artifacts_kept run_id l t t' : fold_result (insert_artifact run_id) t l = Ok t' ->
  at_rejections t' = at_rejections t.
Proof.
  revert t. induction l as [|a l IH]; intros t; simpl; [by intros [= <-]|].
  intros (t1 & H1 & H)%bind_Ok. rewrite (IH _ H). unfold insert_artifact in H1.
  apply reject_Ok in H1 as [_ H1]. by apply bind_Ok in H1 as (? & _ & [= <-]).
Qed.

(** The manifest of a run is recorded whole or not at all, and an agent decides which.  Rejections are
    keyed by name, yet a file name that is not UTF-8 is rejected under its lossy reading, without its
    directory: two such files with one reading give two rejections of one name, the second insertion
    fails, and the whole manifest of the run, its accepted artifacts included, is rolled back although
    the files have been copied. *)
Theorem equal_rejections_lose_manifest {folding : FoldCase} (run_id : ScheduledRunId) (directory : option SourceNode)
    (registered_at : Z) (t : ArtifactTables)
    (Hdup : ~ NoDup (rj_name <$> cs_rejections (collect_artifacts registered_at directory))) :
  let r := collect_and_record run_id directory registered_at t in
  (exists e, r.1 = Err e) /\ r.2 = t.
Proof.
  intros r. unfold r, collect_and_record.
  destruct (record_scheduled_run_artifacts _ _ _) as [t'|e] eqn:E; [|by split; [exists e|]].
  unfold record_scheduled_run_artifacts in E. apply bind_Ok in E as (t1 & _ & E).
  apply insert_rejections_distinct in E as (Hnd & _ & _). by destruct Hdup.
Qed.

(** A report beside two directories that each hold a file whose name is one stray byte. *)
Definition ascii_folding : FoldCase := {| fold_case := str_to_lower |}.
Definition sample_worktree_artifacts : SourceNode :=
  let stray := SourceDirectory (Some [(UndecodableName "?", SourceFile 3 (Some false) Copied)]) in
  SourceDirectory (Some [(Utf8Name "a", stray); (Utf8Name "b", stray);
                         (Utf8Name "report.md", SourceFile 12 (Some false) Copied)]).
Definition empty_artifact_tables : ArtifactTables := {| at_artifacts := ∅; at_rejections := ∅ |}.

Lemma equal_rejections_lose_manifest_witness :
  let collected := collect_artifacts (folding := ascii_folding) 7 (Some sample_worktree_artifacts) in
  ra_relative_path <$> cs_artifacts collected = ["report.md"]
  /\ (exists e, (collect_and_record (folding := ascii_folding) "run" (Some sample_worktree_artifacts) 7 empty_artifact_tables).1
                = Err e)
  /\ (collect_and_record (folding := ascii_folding) "run" (Some sample_worktree_artifacts) 7 empty_artifact_tables).2
     = empty_artifact_tables.
Proof.
  intros collected. split; [by vm_compute|].
  assert (rj_name <$> cs_rejections collected = ["?"; "?"]) as Hr by (vm_compute; reflexivity).
  refine (equal_rejections_lose_manifest (folding := ascii_folding) "run" (Some sample_worktree_artifacts) 7
            empty_artifact_tables _).
  intros Hnd. fold collected in Hnd. rewrite Hr in Hnd. apply NoDup_cons in Hnd as [Hn _]. apply Hn. left.
Defined.
