(* ===== verification/KeyedLocks.v ===== *)
(** * Keyed resource locks ([crates/backend/src/git_cleanup/keyed_locks.rs])

    Shared and exclusive leases per key over one mutex and one condition variable.  A step is one
    critical section of the mutex; a waiter sleeps until a release notifies everyone (or wakes up for
    no reason). *)

From stdpp Require Import relations fin_maps.
From S2P Require Import Prelude.
Local Open Scope ora_scope.

(** ** The state of a key *)

Record LockState : Type := { readers : nat; writer : bool; waiting_writers : nat }.
#[export] Instance LockState_eq_dec : EqDecision LockState.
Proof. solve_decision. Defined.
Definition idle_state : LockState := {| readers := 0; writer := false; waiting_writers := 0 |}.
Definition is_idle (s : LockState) : bool :=
  (readers s =? 0)%nat && negb (writer s) && (waiting_writers s =? 0)%nat.

Notation LockStates := (gmap string LockState) (only parsing).
Definition entry (states : gmap string LockState) (key : string) : LockState := default idle_state (states !! key).

(** One turn of the loop of [acquire_shared] under the mutex. *)
Definition shared_turn (key : string) (states : gmap string LockState) : bool * gmap string LockState :=
  let s := entry states key in
  if negb (writer s) && (waiting_writers s =? 0)%nat
  then (true, <[key := {| readers := S (readers s); writer := writer s; waiting_writers := waiting_writers s |}]> states)
  else (false, <[key := s]> states).

(** [acquire_exclusive]: the registration of the waiting writer, and one turn of its loop. *)
Definition register_writer (key : string) (states : gmap string LockState) : gmap string LockState :=
  let s := entry states key in
  <[key := {| readers := readers s; writer := writer s; waiting_writers := S (waiting_writers s) |}]> states.
Definition exclusive_turn (key : string) (states : gmap string LockState) : bool * gmap string LockState :=
  let s := entry states key in
  if (readers s =? 0)%nat && negb (writer s)
  then (true, <[key := {| readers := readers s; writer := true; waiting_writers := pred (waiting_writers s) |}]> states)
  else (false, <[key := s]> states).

(** [release]: [None] stands for the panic of an unsigned subtraction below zero. *)
Definition released (exclusive : bool) (s : LockState) : option LockState :=
  if exclusive then Some {| readers := readers s; writer := false; waiting_writers := waiting_writers s |}
  else match readers s with
       | O => None
       | S n => Some {| readers := n; writer := writer s; waiting_writers := waiting_writers s |}
       end.
Definition release (key : string) (exclusive : bool) (states : gmap string LockState) : option (gmap string LockState) :=
  match states !! key with
  | None => Some states
  | Some s => (fun s => if is_idle s then delete key states else <[key := s]> states) <$> released exclusive s
  end.

(** ** Requests *)

(** A request for a lease: waiting (awake, or asleep on the condition variable), or a live guard. *)
Inductive RequestPhase : Type := Waiting (awake : bool) | Holding.
#[export] Instance RequestPhase_eq_dec : EqDecision RequestPhase.
Proof. solve_decision. Defined.
Record Request : Type := { rq_key : string; rq_exclusive : bool; rq_phase : RequestPhase }.
Definition at_phase (r : Request) (p : RequestPhase) : Request :=
  {| rq_key := rq_key r; rq_exclusive := rq_exclusive r; rq_phase := p |}.
(** [notify_all] *)
Definition notified (r : Request) : Request :=
  match rq_phase r with Waiting _ => at_phase r (Waiting true) | Holding => r end.

Record LockWorld : Type := { lw_states : gmap string LockState; lw_requests : list Request; lw_panicked : bool }.
Definition new_locks : LockWorld := {| lw_states := ∅; lw_requests := []; lw_panicked := false |}.

Definition turn (exclusive : bool) : string -> gmap string LockState -> bool * gmap string LockState :=
  if exclusive then exclusive_turn else shared_turn.
Definition turned (granted : bool) : RequestPhase := if granted then Holding else Waiting false.

(** A new request enters the mutex. *)
Definition lock_request (key : string) (exclusive : bool) (w : LockWorld) : LockWorld :=
  let states := if exclusive then register_writer key (lw_states w) else lw_states w in
  let '(granted, states) := turn exclusive key states in
  {| lw_states := states;
     lw_requests := {| rq_key := key; rq_exclusive := exclusive; rq_phase := turned granted |} :: lw_requests w;
     lw_panicked := lw_panicked w |}.
(** A waiter that woke up looks again. *)
Definition lock_retry (pre : list Request) (r : Request) (post : list Request) (w : LockWorld) : LockWorld :=
  let '(granted, states) := turn (rq_exclusive r) (rq_key r) (lw_states w) in
  {| lw_states := states; lw_requests := pre ++ at_phase r (turned granted) :: post; lw_panicked := lw_panicked w |}.
(** A guard is dropped. *)
Definition lock_drop (pre : list Request) (r : Request) (post : list Request) (w : LockWorld) : LockWorld :=
  match release (rq_key r) (rq_exclusive r) (lw_states w) with
  | Some states => {| lw_states := states; lw_requests := notified <$> pre ++ post; lw_panicked := lw_panicked w |}
  | None => {| lw_states := lw_states w; lw_requests := pre ++ post; lw_panicked := true |}
  end.

Inductive lock_step (w : LockWorld) : LockWorld -> Prop :=
| lock_requested key exclusive : lock_step w (lock_request key exclusive w)
| lock_woken pre r awake post : lw_requests w = pre ++ r :: post -> rq_phase r = Waiting awake ->
    lock_step w (lock_retry pre r post w)
| lock_dropped pre r post : lw_requests w = pre ++ r :: post -> rq_phase r = Holding ->
    lock_step w (lock_drop pre r post w).

(** ** Accounting *)

Definition holds (exclusive : bool) (key : string) (r : Request) : bool :=
  bool_decide (rq_phase r = Holding) && bool_decide (rq_exclusive r = exclusive) && bool_decide (rq_key r = key).
Definition waits_exclusive (key : string) (r : Request) : bool :=
  negb (bool_decide (rq_phase r = Holding)) && rq_exclusive r && bool_decide (rq_key r = key).
Definition count (p : Request -> bool) (l : list Request) : nat := length (filter (fun r => p r = true) l).

Lemma count_app p l1 l2 : count p (l1 ++ l2) = (count p l1 + count p l2)%nat.
Proof. unfold count. by rewrite filter_app, length_app. Qed.
Lemma count_cons p r l : count p (r :: l) = ((if p r then 1 else 0) + count p l)%nat.
Proof. unfold count. rewrite filter_cons. destruct (p r); by simpl. Qed.
Lemma count_notified p l : (forall r, p (notified r) = p r) -> count p (notified <$> l) = count p l.
Proof. intros H. induction l as [|r l IH]; [done|]. rewrite fmap_cons, !count_cons, IH. by rewrite H. Qed.
Lemma count_pos p l : (0 < count p l)%nat <-> exists r, r ∈ l /\ p r = true.
Proof.
  induction l as [|r l IH]; [split; [unfold count; simpl; lia|by intros (r & ?%elem_of_nil & _)]|].
  rewrite count_cons. split.
  - destruct (p r) eqn:E; [exists r; by split; [left|]|]. intros (r' & ? & ?)%IH. exists r'. split; [by right|done].
  - intros (r' & [->|Hr']%elem_of_cons & H); [rewrite H; lia|]. assert (0 < count p l)%nat by (apply IH; eauto). lia.
Qed.

(** What a turn finds free. *)
Definition free (exclusive : bool) (s : LockState) : bool :=
  if exclusive then (readers s =? 0)%nat && negb (writer s) else negb (writer s) && (waiting_writers s =? 0)%nat.

(** The entry of a key counts the requests of that key. *)
Definition accounts (key : string) (s : LockState) (l : list Request) : Prop :=
  readers s = count (holds false key) l
  /\ (if writer s then 1 else 0)%nat = count (holds true key) l
  /\ waiting_writers s = count (waits_exclusive key) l
  /\ (writer s = true -> readers s = 0%nat).

Record locks_ok (w : LockWorld) : Prop := {
  lk_state : forall key, accounts key (entry (lw_states w) key) (lw_requests w);
  lk_collected : forall key s, lw_states w !! key = Some s -> is_idle s = false;
  (** A sleeping waiter could not go. *)
  lk_asleep : forall r, r ∈ lw_requests w -> rq_phase r = Waiting false ->
    free (rq_exclusive r) (entry (lw_states w) (rq_key r)) = false;
  lk_panic : lw_panicked w = false;
}.

(** ** Laws of the entries *)

Lemma entry_insert key s m : entry (<[key := s]> m) key = s.
Proof. unfold entry. by rewrite lookup_insert_eq. Qed.
Lemma entry_insert_ne key key' s m : key <> key' -> entry (<[key := s]> m) key' = entry m key'.
Proof. intros. unfold entry. by rewrite lookup_insert_ne. Qed.
Lemma entry_delete key m : entry (delete key m) key = idle_state.
Proof. unfold entry. by rewrite lookup_delete_eq. Qed.
Lemma entry_delete_ne key key' m : key <> key' -> entry (delete key m) key' = entry m key'.
Proof. intros. unfold entry. by rewrite lookup_delete_ne. Qed.
Lemma is_idle_eq s : is_idle s = true -> s = idle_state.
Proof.
  unfold is_idle. destruct s as [r wr ww]; simpl. intros [[H1%Nat.eqb_eq H2]%andb_true_iff H3%Nat.eqb_eq]%andb_true_iff.
  subst. by destruct wr.
Qed.

(** A request only counts for its own key. *)
Lemma tally_other key r : rq_key r <> key ->
  holds false key r = false /\ holds true key r = false /\ waits_exclusive key r = false.
Proof.
  intros H. unfold holds, waits_exclusive. rewrite (bool_decide_eq_false_2 _ H), !andb_false_r. done.
Qed.
Lemma accounts_other key s l l' :
  (forall p, p = holds false key \/ p = holds true key \/ p = waits_exclusive key -> count p l' = count p l) ->
  accounts key s l -> accounts key s l'.
Proof. intros H. unfold accounts. by rewrite !H by tauto. Qed.
(** The accounts with a request in the middle. *)
Lemma accounts_middle key s pre r post :
  accounts key s (pre ++ r :: post) <->
    readers s = ((if holds false key r then 1 else 0) + count (holds false key) (pre ++ post))%nat
    /\ (if writer s then 1 else 0)%nat = ((if holds true key r then 1 else 0) + count (holds true key) (pre ++ post))%nat
    /\ waiting_writers s = ((if waits_exclusive key r then 1 else 0) + count (waits_exclusive key) (pre ++ post))%nat
    /\ (writer s = true -> readers s = 0%nat).
Proof. unfold accounts. rewrite !count_app, !count_cons. intuition lia. Qed.
Lemma accounts_ne key s pre r post : rq_key r <> key -> accounts key s (pre ++ r :: post) <-> accounts key s (pre ++ post).
Proof. intros H. destruct (tally_other _ _ H) as (E1 & E2 & E3). rewrite accounts_middle, E1, E2, E3. done. Qed.
Lemma tally_phase key exclusive p :
  let r := {| rq_key := key; rq_exclusive := exclusive; rq_phase := p |} in
  let held := bool_decide (p = Holding) in
  holds false key r = held && negb exclusive /\ holds true key r = held && exclusive
  /\ waits_exclusive key r = negb held && exclusive.
Proof.
  unfold holds, waits_exclusive; simpl. rewrite (bool_decide_eq_true_2 (key = key)) by done. rewrite !andb_true_r.
  destruct exclusive; rewrite ?(bool_decide_eq_true_2 (true = true)), ?(bool_decide_eq_true_2 (false = false)),
    ?(bool_decide_eq_false_2 (true = false)), ?(bool_decide_eq_false_2 (false = true)) by done; simpl;
    rewrite ?andb_true_r, ?andb_false_r; done.
Qed.

(** ** Every step keeps the accounts *)

Definition taken (exclusive : bool) (s : LockState) : LockState :=
  if exclusive then {| readers := readers s; writer := true; waiting_writers := pred (waiting_writers s) |}
  else {| readers := S (readers s); writer := writer s; waiting_writers := waiting_writers s |}.
Lemma turn_spec exclusive key m :
  let s := entry m key in
  turn exclusive key m = (free exclusive s, <[key := if free exclusive s then taken exclusive s else s]> m).
Proof. destruct exclusive; simpl; unfold exclusive_turn, shared_turn; case_match; done. Qed.
Lemma taken_busy exclusive s : is_idle (taken exclusive s) = false.
Proof. destruct exclusive; unfold is_idle; simpl; [by rewrite andb_false_r|done]. Qed.
Lemma not_free_busy exclusive s : free exclusive s = false -> is_idle s = false.
Proof. unfold is_idle, free. destruct exclusive, (readers s =? 0)%nat, (writer s), (waiting_writers s =? 0)%nat; done. Qed.
Lemma free_exclusive s : free true s = true -> readers s = 0%nat /\ writer s = false.
Proof. simpl. intros [H%Nat.eqb_eq Hw%negb_true_iff]%andb_true_iff. done. Qed.
Lemma free_shared s : free false s = true -> writer s = false /\ waiting_writers s = 0%nat.
Proof. simpl. intros [Hw%negb_true_iff H%Nat.eqb_eq]%andb_true_iff. done. Qed.
(** Taking a lease leaves nobody else free, unless they already were. *)
Lemma taken_blocks e e' s : free e s = true -> free e' s = false -> free e' (taken e s) = false.
Proof.
  unfold free, taken. destruct e, e'; simpl; rewrite ?andb_false_r; try done.
Qed.


(** What a turn does to the accounts of its own key. *)
Lemma turn_accounts key ex awake s pre post :
  let r p := {| rq_key := key; rq_exclusive := ex; rq_phase := p |} in
  accounts key s (pre ++ r (Waiting awake) :: post) ->
  accounts key (if free ex s then taken ex s else s) (pre ++ r (turned (free ex s)) :: post).
Proof.
  intros r A. rewrite accounts_middle in A |- *. revert A. unfold r.
  destruct (tally_phase key ex (Waiting awake)) as (-> & -> & ->).
  destruct (tally_phase key ex (turned (free ex s))) as (-> & -> & ->).
  destruct (free ex s) eqn:Hf; [|done]. simpl.
  intros (A1 & A2 & A3 & A4). destruct ex; simpl in *.
  - apply free_exclusive in Hf as [F1 F2]. rewrite F2 in A2. repeat split; [lia..|]. by rewrite F1.
  - apply free_shared in Hf as [F1 F2]. rewrite F1 in *. repeat split; by try lia.
Qed.
(** Another waiter that could not go still cannot. *)
Lemma turn_blocks e e' s : free e' s = false -> free e' (if free e s then taken e s else s) = false.
Proof. destruct (free e s) eqn:H; [by apply taken_blocks|done]. Qed.
Lemma turn_busy ex s : is_idle (if free ex s then taken ex s else s) = false.
Proof. destruct (free ex s) eqn:H; [apply taken_busy|by apply (not_free_busy ex)]. Qed.

Lemma retry_ok w pre r awake post :
  locks_ok w -> lw_requests w = pre ++ r :: post -> rq_phase r = Waiting awake -> locks_ok (lock_retry pre r post w).
Proof.
  intros [Hacc Hcol Hsleep Hp] Hl Hr. unfold lock_retry. rewrite turn_spec. rewrite Hl in Hacc, Hsleep.
  destruct r as [key ex ph]; simpl in *; subst ph.
  split; simpl; [intros k'|intros k' s'|intros r' Hr' Hph|done].
  - destruct (decide (key = k')) as [->|Hne].
    + rewrite entry_insert. eapply turn_accounts, Hacc.
    + rewrite entry_insert_ne by done. specialize (Hacc k'). by rewrite accounts_ne in * by done.
  - destruct (decide (key = k')) as [->|Hne]; [rewrite lookup_insert_eq; intros [= <-]; apply turn_busy|].
    rewrite lookup_insert_ne by done. apply Hcol.
  - apply elem_of_app in Hr'. rewrite elem_of_cons in Hr'. destruct (decide (key = rq_key r')) as [Heq|Hne].
    + rewrite <- Heq, entry_insert. destruct Hr' as [H|[->|H]].
      * apply turn_blocks. rewrite Heq. apply Hsleep; [by apply elem_of_app; left|done].
      * simpl in Hph |- *. by destruct (free ex (entry (lw_states w) key)) eqn:E; rewrite ?E.
      * apply turn_blocks. rewrite Heq. apply Hsleep; [apply elem_of_app; right; by right|done].
    + rewrite entry_insert_ne by done. apply Hsleep; [|done].
      destruct Hr' as [H|[->|H]]; [by apply elem_of_app; left|done|apply elem_of_app; right; by right].
Qed.

(** A writer that has just registered. *)
Definition registered (key : string) (exclusive : bool) (w : LockWorld) : LockWorld :=
  {| lw_states := (if exclusive then register_writer key (lw_states w) else lw_states w);
     lw_requests := {| rq_key := key; rq_exclusive := exclusive; rq_phase := Waiting true |} :: lw_requests w;
     lw_panicked := lw_panicked w |}.
Lemma request_retry key exclusive w :
  lock_request key exclusive w =
    lock_retry [] {| rq_key := key; rq_exclusive := exclusive; rq_phase := Waiting true |} (lw_requests w)
      (registered key exclusive w).
Proof. done. Qed.
Lemma registered_blocks e s : free e s = false ->
  free e {| readers := readers s; writer := writer s; waiting_writers := S (waiting_writers s) |} = false.
Proof. destruct e; simpl; [done|by rewrite andb_false_r]. Qed.

Lemma registered_ok key exclusive w : locks_ok w -> locks_ok (registered key exclusive w).
Proof.
  intros [Hacc Hcol Hsleep Hp]. split; simpl; [intros k'|intros k' s'|intros r' Hr' Hph|done].
  - apply (accounts_middle _ _ [] _ (lw_requests w)). specialize (Hacc k') as (A1 & A2 & A3 & A4).
    destruct (decide (key = k')) as [->|Hne].
    + destruct (tally_phase k' exclusive (Waiting true)) as (-> & -> & ->).
      destruct exclusive; simpl; unfold register_writer; rewrite ?entry_insert; simpl; repeat split; by try lia.
    + destruct (tally_other k' {| rq_key := key; rq_exclusive := exclusive; rq_phase := Waiting true |} Hne) as (-> & -> & ->).
      destruct exclusive; unfold register_writer; rewrite ?entry_insert_ne by done; done.
  - destruct exclusive; [|apply Hcol]. unfold register_writer.
    destruct (decide (key = k')) as [->|Hne]; [rewrite lookup_insert_eq|rewrite lookup_insert_ne by done; apply Hcol].
    intros [= <-]. unfold is_idle; simpl. by rewrite andb_false_r.
  - apply elem_of_cons in Hr' as [->|Hr']; [done|]. specialize (Hsleep _ Hr' Hph). destruct exclusive; [|done].
    unfold register_writer. destruct (decide (key = rq_key r')) as [->|Hne];
      [rewrite entry_insert; by apply registered_blocks|by rewrite entry_insert_ne].
Qed.

(** ** Dropping a guard *)

Lemma notified_tally key r :
  holds false key (notified r) = holds false key r /\ holds true key (notified r) = holds true key r
  /\ waits_exclusive key (notified r) = waits_exclusive key r.
Proof. destruct r as [k ex [a|]]; done. Qed.
Lemma accounts_notified key s l : accounts key s l -> accounts key s (notified <$> l).
Proof.
  apply accounts_other. intros p Hp. apply count_notified. intros r.
  destruct (notified_tally key r) as (? & ? & ?), Hp as [->|[->| ->]]; done.
Qed.
Lemma notified_awake r : rq_phase (notified r) <> Waiting false.
Proof. by destruct r as [k ex [a|]]. Qed.

(** A guard's entry is there, and giving the lease back does not underflow. *)
Lemma released_accounts key ex s pre post :
  accounts key s (pre ++ {| rq_key := key; rq_exclusive := ex; rq_phase := Holding |} :: post) ->
  is_idle s = false /\ exists s', released ex s = Some s' /\ accounts key s' (pre ++ post).
Proof.
  rewrite accounts_middle. destruct (tally_phase key ex Holding) as (-> & -> & ->). simpl.
  intros (A1 & A2 & A3 & A4). unfold accounts, is_idle. destruct ex; simpl in *.
  - destruct (writer s) eqn:E; [|lia]. split; [by rewrite andb_false_r|]. eexists; split; [done|]. simpl.
    repeat split; [lia..|done].
  - destruct (readers s) as [|n] eqn:E; [lia|]. split; [done|]. eexists; split; [done|]. simpl.
    repeat split; [lia..|]. intros H. specialize (A4 H). lia.
Qed.
Lemma drop_ok w pre r post :
  locks_ok w -> lw_requests w = pre ++ r :: post -> rq_phase r = Holding -> locks_ok (lock_drop pre r post w).
Proof.
  intros [Hacc Hcol Hsleep Hp] Hl Hr. rewrite Hl in Hacc. destruct r as [key ex ph]; simpl in *; subst ph.
  destruct (released_accounts _ _ _ _ _ (Hacc key)) as (Hbusy & s' & Hrel & Hacc').
  unfold lock_drop, release; simpl. unfold entry in Hbusy, Hrel.
  destruct (lw_states w !! key) as [s|] eqn:E; [|done]. simpl in Hbusy, Hrel. rewrite Hrel. simpl.
  split; simpl; [intros k'|intros k' s0|intros r' (r0 & -> & _)%list_elem_of_fmap H; by destruct (notified_awake r0)|done].
  - apply accounts_notified. destruct (decide (key = k')) as [->|Hne].
    + destruct (is_idle s') eqn:Hi; [|by rewrite entry_insert]. rewrite entry_delete. by rewrite <- (is_idle_eq s').
    + specialize (Hacc k'). rewrite accounts_ne in Hacc by done.
      destruct (is_idle s'); [by rewrite entry_delete_ne|by rewrite entry_insert_ne].
  - destruct (is_idle s') eqn:Hi.
    + intros H. apply (Hcol k' s0). by apply lookup_delete_Some in H as [_ H].
    + intros [[<- <-]|[_ H]]%lookup_insert_Some; [done|by apply (Hcol k')].
Qed.

Lemma new_locks_ok : locks_ok new_locks.
Proof. split; simpl; [by intros key; repeat split|by intros key s; rewrite lookup_empty|by intros r ?%elem_of_nil|done]. Qed.
Lemma lock_step_ok w w' : lock_step w w' -> locks_ok w -> locks_ok w'.
Proof.
  intros [key ex|pre r awake post Hl Hr|pre r post Hl Hr] Hok.
  - rewrite request_retry. by eapply retry_ok; [apply registered_ok| |].
  - by eapply retry_ok.
  - by apply drop_ok.
Qed.
Lemma lock_history_ok w : rtc lock_step new_locks w -> locks_ok w.
Proof.
  intros H. assert (Hgen : forall w0 w, rtc lock_step w0 w -> locks_ok w0 -> locks_ok w).
  { clear. intros w0 w. induction 1; [done|]. intros. by apply IHrtc, (lock_step_ok x). }
  by apply (Hgen _ _ H), new_locks_ok.
Qed.

(** ** What the locks promise *)

Definition asleep (r : Request) : bool := bool_decide (rq_phase r = Waiting false).

(** Exclusion: after any history of requests, wake-ups and drops, two live guards of the same key are both shared;
    so an exclusive guard is the only guard of its key, and no release ever underflows a counter. *)
Theorem guards_exclude w pre r1 mid r2 post :
  rtc lock_step new_locks w -> lw_requests w = pre ++ r1 :: mid ++ r2 :: post ->
  rq_phase r1 = Holding -> rq_phase r2 = Holding -> rq_key r1 = rq_key r2 ->
  (rq_exclusive r1 || rq_exclusive r2 = false) /\ lw_panicked w = false.
Proof.
  intros Hw Hl H1 H2 Hk. destruct (lock_history_ok _ Hw) as [Hacc _ _ Hp]. split; [|done].
  destruct (Hacc (rq_key r2)) as (A1 & A2 & _ & A4). rewrite Hl in A1, A2.
  rewrite !count_app, !count_cons, !count_app, !count_cons in A1, A2.
  destruct r1 as [k e1 p1], r2 as [k2 e2 p2]; simpl in *; subst.
  destruct (tally_phase k2 e1 Holding) as (S1 & X1 & _), (tally_phase k2 e2 Holding) as (S2 & X2 & _).
  rewrite S1, S2 in A1. rewrite X1, X2 in A2.
  destruct (writer (entry (lw_states w) k2)); [specialize (A4 eq_refl)|]; destruct e1, e2; simpl in *; by try lia.
Qed.

Definition sample_reader : Request := {| rq_key := "task-1"; rq_exclusive := false; rq_phase := Holding |}.
Definition sample_readers : LockWorld := lock_request "task-1" false (lock_request "task-1" false new_locks).
Lemma guards_exclude_witness :
  rq_exclusive sample_reader || rq_exclusive sample_reader = false /\ lw_panicked sample_readers = false.
Proof.
  apply (guards_exclude sample_readers [] sample_reader [] sample_reader []); try reflexivity.
  eapply rtc_l; [apply lock_requested|]. eapply rtc_l; [apply lock_requested|]. apply rtc_refl.
Defined.

(** A key without requests has no entry. *)
Lemma unused_collected w key :
  locks_ok w -> Forall (fun r => rq_key r <> key) (lw_requests w) -> lw_states w !! key = None.
Proof.
  intros [Hacc Hcol _ _] Hnone. destruct (lw_states w !! key) as [s|] eqn:E; [|done]. exfalso.
  assert (Hzero : forall p, (forall r, rq_key r <> key -> p r = false) -> count p (lw_requests w) = 0%nat).
  { intros p Hp. destruct (decide (count p (lw_requests w) = 0%nat)) as [|Hpos]; [done|].
    assert (H : (0 < count p (lw_requests w))%nat) by lia.
    apply count_pos in H as (r & Hin & Ht). rewrite Forall_forall in Hnone. rewrite Hp in Ht; [done|by apply Hnone]. }
  destruct (Hacc key) as (A1 & A2 & A3 & _). unfold entry in A1, A2, A3. rewrite E in A1, A2, A3. simpl in *.
  rewrite Hzero in A1, A2, A3 by (intros r ?; by apply tally_other).
  specialize (Hcol _ _ E). unfold is_idle in Hcol. rewrite A1, A3 in Hcol. by destruct (writer s).
Qed.

(** Who answers for a request. *)
Definition waker (w : LockWorld) (key : string) : Prop :=
  exists r, r ∈ lw_requests w /\ rq_key r = key
    /\ (rq_phase r = Holding \/ (rq_phase r = Waiting true /\ rq_exclusive r = true)).
Lemma holder_wakes w ex key : (0 < count (holds ex key) (lw_requests w))%nat -> waker w key.
Proof.
  intros (r & Hin & Hh)%count_pos. unfold holds in Hh.
  apply andb_true_iff in Hh as [[?%bool_decide_eq_true _]%andb_true_iff ?%bool_decide_eq_true]. exists r; auto.
Qed.
Lemma writer_wakes w key : locks_ok w -> free true (entry (lw_states w) key) = true ->
  (0 < count (waits_exclusive key) (lw_requests w))%nat -> waker w key.
Proof.
  intros Hok Hfree (r & Hin & Hx)%count_pos. unfold waits_exclusive in Hx.
  apply andb_true_iff in Hx as [[Hp%negb_true_iff Hex]%andb_true_iff Hkey%bool_decide_eq_true].
  exists r. split_and!; [done..|]. right. split; [|done].
  destruct (rq_phase r) as [[|]|] eqn:Eph; [done| |done].
  pose proof (lk_asleep _ Hok _ Hin Eph) as Hb. rewrite Hex, Hkey in Hb. congruence.
Qed.

(** C28: No lost wake-up and no deadlock: whenever a request sleeps on the condition variable, some request of its key
    either holds a guard, whose drop wakes everybody, or is a waiting writer that is already awake.  The map does not
    grow with history: a key without requests has no entry. *)
Theorem sleepers_have_waker w r :
  rtc lock_step new_locks w -> r ∈ lw_requests w -> asleep r = true ->
  waker w (rq_key r)
  /\ (forall key, Forall (fun r' => rq_key r' <> key) (lw_requests w) -> lw_states w !! key = None).
Proof.
  intros Hw Hr Hs%bool_decide_eq_true. pose proof (lock_history_ok _ Hw) as Hok.
  split; [|intros key; by apply unused_collected].
  destruct (lk_state _ Hok (rq_key r)) as (A1 & A2 & A3 & _).
  pose proof (lk_asleep _ Hok _ Hr Hs) as Hblocked.
  destruct (free true (entry (lw_states w) (rq_key r))) eqn:Hfree.
  - apply writer_wakes; [done..|]. rewrite <- A3. pose proof (free_exclusive _ Hfree) as [_ Hwr].
    destruct (rq_exclusive r); [congruence|]. unfold free in Hblocked. rewrite Hwr in Hblocked. simpl in Hblocked. apply Nat.eqb_neq in Hblocked. lia.
  - simpl in Hfree. apply andb_false_iff in Hfree as [H%Nat.eqb_neq|H%negb_false_iff].
    + apply (holder_wakes _ false). lia.
    + apply (holder_wakes _ true). rewrite H in A2. lia.
Qed.

Definition sample_waiter : Request := {| rq_key := "task-1"; rq_exclusive := true; rq_phase := Waiting false |}.
Lemma sleepers_have_waker_witness :
  waker (lock_request "task-1" true sample_readers) "task-1"
  /\ (forall key, Forall (fun r' => rq_key r' <> key) (lw_requests (lock_request "task-1" true sample_readers)) ->
       lw_states (lock_request "task-1" true sample_readers) !! key = None).
Proof.
  apply (sleepers_have_waker (lock_request "task-1" true sample_readers) sample_waiter); [|by left|reflexivity].
  eapply rtc_l; [apply lock_requested|]. eapply rtc_l; [apply lock_requested|].
  eapply rtc_l; [apply lock_requested|]. apply rtc_refl.
Defined.

(** Writers are preferred: while a writer waits for a key, no step grants a shared lease of it. *)
Theorem writers_preferred w w' key :
  rtc lock_step new_locks w -> (0 < count (waits_exclusive key) (lw_requests w))%nat -> lock_step w w' ->
  (count (holds false key) (lw_requests w') <= count (holds false key) (lw_requests w))%nat.
Proof.
  intros Hw Hpos Hstep. pose proof (lock_history_ok _ Hw) as Hok.
  destruct (lk_state _ Hok key) as (_ & _ & A3 & _). rewrite <- A3 in Hpos.
  assert (Hblocked : free false (entry (lw_states w) key) = false).
  { unfold free. destruct (waiting_writers _); [lia|]. by rewrite andb_false_r. }
  assert (Hother : forall k ex p, k <> key -> holds false key {| rq_key := k; rq_exclusive := ex; rq_phase := p |} = false).
  { intros k ex p Hne. by apply tally_other. }
  assert (Hex : forall k p, holds false key {| rq_key := k; rq_exclusive := true; rq_phase := p |} = false).
  { intros k p. unfold holds; simpl. by rewrite andb_false_r. }
  destruct Hstep as [k ex|pre [k ex ph] awake post Hl Hr|pre r post Hl Hr].
  - rewrite request_retry. unfold lock_retry. rewrite turn_spec. unfold at_phase. cbn [lw_requests rq_key rq_exclusive app].
    rewrite count_cons. destruct ex; [by rewrite Hex|]. destruct (decide (k = key)) as [->|Hne]; [|by rewrite Hother].
    cbn [lw_states registered]. by rewrite Hblocked.
  - unfold lock_retry. rewrite turn_spec, Hl, !count_app. unfold at_phase. cbn [lw_requests rq_key rq_exclusive].
    rewrite count_app, !count_cons. destruct ex; [rewrite !Hex; lia|].
    destruct (decide (k = key)) as [->|Hne]; [|rewrite !Hother by done; lia].
    rewrite Hblocked. unfold holds; simpl. lia.
  - unfold lock_drop. destruct (release _ _ _); simpl.
    + rewrite count_notified by (intros r0; apply notified_tally). rewrite Hl, !count_app, !count_cons. lia.
    + rewrite Hl, !count_app, !count_cons. lia.
Qed.
