(* ===== verification/Gitlancer.v ===== *)
(** * The Git runtime ([crates/gitlancer/src])

    Typed operations over [git] command lines: the commands they build, the output they parse and the
    refusals they make before a command runs.  The process that runs a command is the parameter
    [GitRunner], over an arbitrary world; the paths are Unix paths. *)

From Stdlib Require Import Ascii.
From S2P Require Import Prelude RustStr PortablePath.
Local Open Scope ora_scope.

(** ** Host paths ([std::path], Unix) *)

(** [Path::components]: repeated and trailing separators and inner [.] disappear; a leading [.] stays. *)
Definition segment_component (segment : string) : list Component :=
  if bool_decide (segment = "") || bool_decide (segment = ".") then []
  else if bool_decide (segment = "..") then [ParentDir] else [Normal (Some segment)].
Definition components (path : string) : list Component :=
  match split_char SLASH path with
  | first :: rest =>
      (if starts_with "/" path then [RootDir] else if bool_decide (first = ".") then [CurDir] else segment_component first)
      ++ mbind segment_component rest
  | [] => []
  end.
#[export] Instance Component_eq_dec : EqDecision Component.
Proof. solve_decision. Defined.
(** [PathBuf] equality. *)
Definition same_path (a b : string) : bool := bool_decide (components a = components b).
Definition path_is_absolute (path : string) : bool := starts_with "/" path.
Definition path_join (base path : string) : string :=
  if path_is_absolute path || bool_decide (base = "") then path
  else if ends_with "/" base then base +:+ path else base +:+ "/" +:+ path.
Definition file_name (path : string) : option string :=
  match last (components path) with Some (Normal name) => name | _ => None end.

(** [crates/utils/src/path/lexical.rs], on components; a [PathBuf] under construction is the list of
    its components, and [pop] takes the last one unless it is the root. *)
Definition path_pop (path : list Component) : list Component :=
  match last path with Some RootDir | Some Prefix | None => path | Some _ => take (length path - 1) path end.
Definition normalize_absolute (path : list Component) : list Component :=
  fold_left (fun normalized c =>
    match c with
    | Prefix | RootDir | Normal _ => normalized ++ [c]
    | CurDir => normalized
    | ParentDir => path_pop normalized
    end) path [].
Fixpoint normalize_relative_from (normalized path : list Component) : option (list Component) :=
  match path with
  | [] => Some normalized
  | Prefix :: _ | RootDir :: _ => None
  | CurDir :: rest => normalize_relative_from normalized rest
  | ParentDir :: rest =>
      match normalized with
      | [] => None
      | _ :: _ => normalize_relative_from (take (length normalized - 1) normalized) rest
      end
  | Normal s :: rest => normalize_relative_from (normalized ++ [Normal s]) rest
  end.
Definition normalize_relative (path : list Component) : option (list Component) := normalize_relative_from [] path.
(** [Path::strip_prefix] *)
Fixpoint strip_components (prefix path : list Component) : option (list Component) :=
  match prefix, path with
  | [], rest => Some rest
  | c :: prefix, d :: path => if bool_decide (c = d) then strip_components prefix path else None
  | _ :: _, [] => None
  end.

(** ** Errors *)

Inductive DomainError : Type :=
| NotARepository (path : string)
| BranchNotFound (repo branch : string)
| BranchAlreadyExists (repo branch : string)
| NotAWorktree (path : string)
| MainWorktreeDeletionUnsupported (repo : string)
| PathOutsideWorktree (path worktree : list Component)
| WorktreeMismatch (worktree repo : string).
Inductive GitExecError : Type :=
| GitNotFound
| SpawnFailed (args : list string)
| NonZeroExit (code : option Z) (args : list string) (stdout stderr : string)
| OutputTooLarge (stream : string) (limit : nat)
| OutputReadFailed (stream : string).
Inductive ParseError : Type := MissingLine | InvalidWorktreeList | InvalidStatus | InvalidCheckpoint.
Inductive GitlancerError : Type :=
| Domain (e : DomainError)
| Exec (e : GitExecError)
| Parse (e : ParseError)
| Io
| CommitMetadataUnavailable (source : GitlancerError)
| DiffTooLarge (byte_count max_byte_count : nat).

(** ** Commands ([exec/]) *)

Record GitEnv : Type := { terminal_prompt : bool; lang : string; pager : string; variables : gmap string string }.
Definition automation_defaults : GitEnv :=
  {| terminal_prompt := false; lang := "C"; pager := "cat"; variables := ∅ |}.
Definition with_variable (name value : string) (e : GitEnv) : GitEnv :=
  {| terminal_prompt := terminal_prompt e; lang := lang e; pager := pager e; variables := <[name := value]> (variables e) |}.
Definition GIT_CONFIG_COUNT : string := "GIT_CONFIG_COUNT".

(** [str::parse::<usize>] of a decimal number: an optional sign, at least one digit, no overflow. *)
Fixpoint parse_digits (acc : N) (s : string) : option N :=
  match s with
  | "" => Some acc
  | String c rest => if ascii_in 48 57 c then parse_digits (acc * 10 + (N_of_ascii c - 48))%N rest else None
  end.
Definition parse_usize (s : string) : option N :=
  let digits := default s (str_strip_prefix "+" s) in
  if bool_decide (digits = "") then None
  else n ← parse_digits 0 digits; if (n <=? u64_max)%N then Some n else None.
Definition config_count (e : GitEnv) : N := default 0%N (variables e !! GIT_CONFIG_COUNT ≫= parse_usize).
Definition with_config (key value : string) (e : GitEnv) : GitEnv :=
  let index := config_count e in
  with_variable GIT_CONFIG_COUNT (of_N (index + 1))
    (with_variable ("GIT_CONFIG_VALUE_" +:+ of_N index) value
      (with_variable ("GIT_CONFIG_KEY_" +:+ of_N index) key e)).

Inductive GitIntent : Type := ReadOnly | Mutating | Network.
#[export] Instance GitIntent_eq_dec : EqDecision GitIntent.
Proof. solve_decision. Defined.
Record GitCommand : Type := {
  gc_cwd : string; gc_args : list string; gc_env : GitEnv; gc_intent : GitIntent; gc_time_limit : option N;
}.
Definition new_command (cwd : string) (args : list string) (env : GitEnv) (intent : GitIntent) : GitCommand :=
  {| gc_cwd := cwd; gc_args := args; gc_env := env; gc_intent := intent; gc_time_limit := None |}.
Record GitOutput : Type := { go_code : option Z; go_stdout : string; go_stderr : string; go_duration_ms : N }.

(** A step of a program that runs commands. *)
Definition gitM (World E A : Type) : Type := World -> result E A * World.
#[export] Instance gitM_ret World E : MRet (gitM World E) := fun A x w => (Ok x, w).
#[export] Instance gitM_bind World E : MBind (gitM World E) := fun A B k m w =>
  match m w with (Ok x, w) => k x w | (Err e, w) => (Err e, w) end.
Definition lift {World E A} (r : result E A) : gitM World E A := fun w => (r, w).
Definition fails {World E A} (e : E) : gitM World E A := fun w => (Err e, w).
Definition map_error {World E E' A} (f : E -> E') (m : gitM World E A) : gitM World E' A :=
  fun w => let '(r, w) := m w in (map_err f r, w).

(** [GitRunner::run] *)
Class GitRunner (World : Type) := run : GitCommand -> gitM World GitExecError GitOutput.

(** [run_bounded], the default of the trait. *)
Definition run_bounded `{GitRunner World} (command : GitCommand) (max_stdout max_stderr : nat) :
    gitM World GitExecError GitOutput :=
  output ← run command;
  if (max_stdout <? String.length (go_stdout output))%nat then fails (OutputTooLarge "stdout" max_stdout)
  else if (max_stderr <? String.length (go_stderr output))%nat then fails (OutputTooLarge "stderr" max_stderr)
  else mret output.

(** ** Worktrees ([domain/], [parse/worktree.rs]) *)

Record Repository : Type := { repo_root : string }.
Inductive WorktreeKind : Type := Main | Linked (name : string).
#[export] Instance WorktreeKind_eq_dec : EqDecision WorktreeKind.
Proof. solve_decision. Defined.
Record WorktreeHandle : Type := {
  wh_repo_root : string; wh_worktree_root : string; wh_git_dir : string; wh_kind : WorktreeKind;
  wh_branch_name : option string;
}.
#[export] Instance WorktreeHandle_eq_dec : EqDecision WorktreeHandle.
Proof. solve_decision. Defined.

Definition resolve_repo_relative_path (h : WorktreeHandle) (path : string) : result DomainError (list Component) :=
  let worktree_root := normalize_absolute (components (wh_worktree_root h)) in
  if path_is_absolute path then
    let normalized := normalize_absolute (components path) in
    ok_or (strip_components worktree_root normalized) (PathOutsideWorktree normalized worktree_root)
  else ok_or (normalize_relative (components path)) (PathOutsideWorktree (components path) worktree_root).

Definition derive_linked_worktree_name (worktree_root : string) : string := default worktree_root (file_name worktree_root).
Definition build_worktree_handle (root worktree_root : string) (branch : option string) : WorktreeHandle :=
  {| wh_repo_root := root; wh_worktree_root := worktree_root; wh_git_dir := path_join worktree_root ".git";
     wh_kind := if same_path worktree_root root then Main else Linked (derive_linked_worktree_name worktree_root);
     wh_branch_name := branch |}.

(** The loop over the lines: the handles so far, the current path and the current branch. *)
Definition finish_record (root : string) (acc : list WorktreeHandle) (path branch : option string) :
    list WorktreeHandle * option string :=
  match path with
  | Some worktree_root => (acc ++ [build_worktree_handle root worktree_root branch], None)
  | None => (acc, branch)
  end.
Fixpoint parse_worktree_lines (root : string) (acc : list WorktreeHandle) (path branch : option string)
    (ls : list string) : list WorktreeHandle :=
  match ls with
  | [] => (finish_record root acc path branch).1
  | line :: ls =>
      let trimmed := trim line in
      match str_strip_prefix "worktree " trimmed with
      | Some new_path =>
          let '(acc, branch) := finish_record root acc path branch in
          parse_worktree_lines root acc (Some new_path) branch ls
      | None =>
          match str_strip_prefix "branch refs/heads/" trimmed with
          | Some branch => parse_worktree_lines root acc path (Some branch) ls
          | None => parse_worktree_lines root acc path branch ls
          end
      end
  end.
Definition parse_worktree_list (root stdout : string) : result ParseError (list WorktreeHandle) :=
  let worktrees := parse_worktree_lines root [] None None (lines stdout) in
  if bool_decide (worktrees = []) then Err InvalidWorktreeList else Ok worktrees.

(** [parse/commit.rs] *)
Record CommitResponse : Type := { commit_id : string; summary : string }.
Definition parse_commit_response (stdout : string) : result ParseError CommitResponse :=
  let ls := trim <$> lines stdout in
  id ← ok_or (ls !! 0) MissingLine;
  summary ← ok_or (ls !! 1) MissingLine;
  Ok {| commit_id := id; summary := summary |}.
Definition parse_commit_id (stdout : string) : result ParseError string :=
  ok_or (find_first (fun l => negb (bool_decide (l = ""))) (trim <$> lines stdout)) MissingLine.

(** ** Status ([parse/status.rs]) *)

Record StatusFileEntry : Type := { sf_path : string; is_staged : bool; is_untracked : bool }.
#[export] Instance StatusFileEntry_eq_dec : EqDecision StatusFileEntry.
Proof. solve_decision. Defined.

(** [fields.next()] on [record.split(' ')]; a skipped column that is missing ends the skipping. *)
Definition SPACE : ascii := " "%char.
Definition metadata_columns (record_type : string) : nat :=
  if bool_decide (record_type = "1") then 6 else if bool_decide (record_type = "2") then 7 else 8.
Definition starts_with_byte (c : ascii) (s : string) : bool := match s with String d _ => bool_decide (c = d) | "" => false end.
Definition parse_status_record (record : string) : option StatusFileEntry :=
  if starts_with "#" record then None
  else
    match split_char SPACE record with
    | record_type :: fields =>
        if bool_decide (record_type = "1") || bool_decide (record_type = "2") || bool_decide (record_type = "u") then
          match fields with
          | xy :: fields =>
              Some {| sf_path := join " " (drop (metadata_columns record_type) fields);
                      is_staged := negb (starts_with_byte "."%char xy); is_untracked := false |}
          | [] => None
          end
        else if bool_decide (record_type = "?") then Some {| sf_path := join " " fields; is_staged := false; is_untracked := true |}
        else None
    | [] => None
    end.
Definition status_records (stdout : string) : list string :=
  filter (fun entry => entry <> "") (split_char NUL stdout).
Definition parse_status_v2_entries (stdout : string) : list StatusFileEntry := omap parse_status_record (status_records stdout).
Definition parse_status_v2 (stdout : string) : list string :=
  filter (fun entry => starts_with "#" entry = false) (status_records stdout).

(** ** Operations ([git/]) *)

Section operations.
Context {World : Type} `{!GitRunner World}.
Local Notation git := (gitM World GitlancerError).

(** [self.runner().run(&command)?] *)
Definition exec (command : GitCommand) : git GitOutput := map_error Exec (run command).
Definition read_only (cwd : string) (args : list string) : GitCommand := new_command cwd args automation_defaults ReadOnly.
Definition mutating (cwd : string) (args : list string) : GitCommand := new_command cwd args automation_defaults Mutating.

(** *** [repository.rs] *)

Definition list_worktrees (r : Repository) : git (list WorktreeHandle) :=
  output ← exec (read_only (repo_root r) ["worktree"; "list"; "--porcelain"]);
  lift (map_err Parse (parse_worktree_list (repo_root r) (go_stdout output))).

Definition first_worktree (stdout : string) : option string :=
  head (omap (fun line => str_strip_prefix "worktree " (trim line)) (lines stdout)).
Definition discover_repository (root : string) : git Repository :=
  output ← map_error (fun e => match e with NonZeroExit _ _ _ _ => Domain (NotARepository root) | other => Exec other end)
    (run (read_only root ["worktree"; "list"; "--porcelain"]));
  top_level ← lift (ok_or (first_worktree (go_stdout output)) (Parse InvalidWorktreeList));
  mret {| repo_root := top_level |}.

(** *** [worktree.rs] *)

Inductive WorktreeDeletionMode : Type := WorktreeChecked | WorktreeForce.

Definition worktree_name (h : WorktreeHandle) : string := match wh_kind h with Main => "main" | Linked name => name end.
Definition resolve_worktree (r : Repository) (name : string) : git WorktreeHandle :=
  worktrees ← list_worktrees r;
  lift (ok_or (find_first (fun h => bool_decide (worktree_name h = name)) worktrees) (Domain (NotAWorktree (repo_root r)))).
Definition on_branch (branch : string) (h : WorktreeHandle) : bool := bool_decide (wh_branch_name h = Some branch).
Definition resolve_worktree_by_branch (r : Repository) (branch : string) : git WorktreeHandle :=
  worktrees ← list_worktrees r;
  lift (ok_or (find_first (on_branch branch) worktrees) (Domain (NotAWorktree (repo_root r)))).

Record CreateWorktreeRequest : Type := { cw_worktree_root : string; cw_branch_name : string; cw_base_commit_id : string }.
Definition build_create_worktree_command (r : Repository) (q : CreateWorktreeRequest) : GitCommand :=
  mutating (repo_root r) ["worktree"; "add"; "-b"; cw_branch_name q; cw_worktree_root q; cw_base_commit_id q].
Definition build_failed_create_worktree_cleanup_command (r : Repository) (q : CreateWorktreeRequest) : GitCommand :=
  mutating (repo_root r) ["worktree"; "remove"; cw_worktree_root q; "--force"].
Definition build_failed_create_branch_cleanup_command (r : Repository) (q : CreateWorktreeRequest) : GitCommand :=
  mutating (repo_root r) ["branch"; "-D"; cw_branch_name q].
(** Both commands run; the first failure is reported. *)
Definition cleanup_failed_worktree_creation (r : Repository) (q : CreateWorktreeRequest) : git unit := fun w =>
  let '(worktree_cleanup, w) := run (build_failed_create_worktree_cleanup_command r q) w in
  let '(branch_cleanup, w) := run (build_failed_create_branch_cleanup_command r q) w in
  (match worktree_cleanup, branch_cleanup with
   | Err e, _ => Err (Exec e) | Ok _, Err e => Err (Exec e) | Ok _, Ok _ => Ok tt
   end, w).

Definition build_delete_worktree_command (r : Repository) (h : WorktreeHandle) (mode : WorktreeDeletionMode) : GitCommand :=
  mutating (repo_root r)
    (["worktree"; "remove"; wh_worktree_root h] ++ match mode with WorktreeForce => ["--force"] | WorktreeChecked => [] end).
Definition delete_worktree (r : Repository) (h : WorktreeHandle) (mode : WorktreeDeletionMode) : git string :=
  if negb (same_path (wh_repo_root h) (repo_root r)) then fails (Domain (WorktreeMismatch (wh_worktree_root h) (repo_root r)))
  else if bool_decide (wh_kind h = Main) then fails (Domain (MainWorktreeDeletionUnsupported (repo_root r)))
  else _ ← exec (build_delete_worktree_command r h mode); mret (wh_worktree_root h).

(** *** [branch.rs] *)

Inductive BranchDeletionMode : Type := BranchChecked | BranchForce.

Definition non_empty_lines (stdout : string) : list string := filter (fun l => l <> "") (trim <$> lines stdout).
Definition list_branches (r : Repository) : git (list string) :=
  output ← exec (read_only (repo_root r) ["for-each-ref"; "--format=%(refname:lstrip=2)"; "refs/heads"]);
  mret (non_empty_lines (go_stdout output)).
Definition build_create_branch_command (r : Repository) (branch commit : string) : GitCommand :=
  mutating (repo_root r) ["branch"; branch; commit].
Definition create_branch (r : Repository) (branch commit : string) : git string :=
  existing ← list_branches r;
  if bool_decide (branch ∈ existing) then fails (Domain (BranchAlreadyExists (repo_root r) branch))
  else _ ← exec (build_create_branch_command r branch commit); mret branch.
Definition build_delete_branch_command (r : Repository) (branch : string) (mode : BranchDeletionMode) : GitCommand :=
  mutating (repo_root r) ["branch"; match mode with BranchChecked => "-d" | BranchForce => "-D" end; branch].
Definition delete_branch (r : Repository) (branch : string) (mode : BranchDeletionMode) : git string :=
  existing ← list_branches r;
  if negb (bool_decide (branch ∈ existing)) then fails (Domain (BranchNotFound (repo_root r) branch))
  else _ ← exec (build_delete_branch_command r branch mode); mret branch.
Definition resolve_current_branch (r : Repository) : git (option string) := fun w =>
  match run (read_only (repo_root r) ["symbolic-ref"; "--quiet"; "--short"; "HEAD"]) w with
  | (Ok output, w) =>
      let branch := trim (go_stdout output) in (Ok (if bool_decide (branch = "") then None else Some branch), w)
  | (Err (NonZeroExit (Some 1%Z) _ _ _), w) => (Ok None, w)
  | (Err e, w) => (Err (Exec e), w)
  end.

(** *** [base_branch.rs] *)

Definition list_worktree_bases (r : Repository) : git (list string) :=
  output ← exec (read_only (repo_root r) ["for-each-ref"; "--format=%(refname:short)"; "refs/heads"]);
  mret (non_empty_lines (go_stdout output)).
Definition resolve_worktree_base_commit (r : Repository) (reference : string) : git string :=
  output ← map_error (fun e => match e with
                               | NonZeroExit _ _ _ _ => Domain (BranchNotFound (repo_root r) reference)
                               | other => Exec other
                               end)
    (run (read_only (repo_root r) ["rev-parse"; reference +:+ "^{commit}"]));
  lift (map_err Parse (parse_commit_id (go_stdout output))).

(** *** [status.rs], [commit.rs], [push.rs], [sync.rs] *)

Definition status_command (h : WorktreeHandle) : GitCommand := read_only (wh_worktree_root h) ["status"; "--porcelain=v2"; "-z"].
Definition status (h : WorktreeHandle) : git (list string) :=
  output ← exec (status_command h); mret (parse_status_v2 (go_stdout output)).
Definition status_entries (h : WorktreeHandle) : git (list StatusFileEntry) :=
  output ← exec (status_command h); mret (parse_status_v2_entries (go_stdout output)).

Definition build_add_command (h : WorktreeHandle) (paths : list string) : GitCommand :=
  mutating (wh_worktree_root h) (["add"; "--"] ++ paths).
Definition add (h : WorktreeHandle) (paths : list string) : git (list string) :=
  _ ← exec (build_add_command h paths); mret paths.
Definition stage_all (h : WorktreeHandle) : git unit :=
  _ ← exec (mutating (wh_worktree_root h) ["add"; "--all"; "--"; "."]); mret tt.
Definition build_unstage_command (h : WorktreeHandle) (paths : list string) : GitCommand :=
  mutating (wh_worktree_root h) (["restore"; "--staged"; "--"] ++ paths).
Definition unstage (h : WorktreeHandle) (paths : list string) : git (list string) :=
  match paths with
  | [] => mret []
  | _ => _ ← exec (build_unstage_command h paths); mret paths
  end.
Definition build_commit_command (h : WorktreeHandle) (message : string) (allow_empty : bool) : GitCommand :=
  mutating (wh_worktree_root h)
    (["commit"; "--no-gpg-sign"; "-m"; message] ++ if allow_empty then ["--allow-empty"] else []).
Definition newline : string := bytes [10%N].
Definition commit (h : WorktreeHandle) (message : string) (allow_empty : bool) : git CommitResponse :=
  _ ← exec (build_commit_command h message allow_empty);
  hash ← map_error (fun e => CommitMetadataUnavailable (Exec e)) (run (read_only (wh_worktree_root h) ["rev-parse"; "HEAD"]));
  summary ← map_error (fun e => CommitMetadataUnavailable (Exec e))
    (run (read_only (wh_worktree_root h) ["log"; "-1"; "--pretty=%s"; "HEAD"]));
  let metadata := trim_end (go_stdout hash) +:+ newline +:+ trim_end (go_stdout summary) +:+ newline in
  lift (map_err (fun e => CommitMetadataUnavailable (Parse e)) (parse_commit_response metadata)).

Definition DEFAULT_REMOTE_NAME : string := "origin".
Definition PUSH_HINT : string := "push authentication may be unavailable; configure a Git credential helper or HTTPS token".
(** The branch and the remote pushed to. *)
Definition push_branch (h : WorktreeHandle) : git (string * string) :=
  branch ← lift (ok_or (wh_branch_name h) (Domain (NotAWorktree (wh_worktree_root h))));
  _ ← map_error (fun e => Exec match e with
                               | NonZeroExit code args stdout stderr => NonZeroExit code args stdout (stderr +:+ newline +:+ PUSH_HINT)
                               | other => other
                               end)
    (run (new_command (wh_worktree_root h) ["push"; "--set-upstream"; DEFAULT_REMOTE_NAME; branch]
            (with_variable "GIT_TERMINAL_PROMPT" "0" automation_defaults) Network));
  mret (branch, DEFAULT_REMOTE_NAME).

Record CloneRequest : Type := {
  cl_repository_url : string; cl_destination : string; cl_working_dir : string; cl_branch : option string; cl_env : GitEnv;
}.
Definition build_clone_command (q : CloneRequest) : GitCommand :=
  new_command (cl_working_dir q)
    (["clone"] ++ match cl_branch q with Some branch => ["--branch"; branch] | None => [] end
     ++ [cl_repository_url q; cl_destination q]) (cl_env q) Network.
Definition clone (q : CloneRequest) : git unit := _ ← exec (build_clone_command q); mret tt.
Definition fetch (r : Repository) (remote : string) (env : GitEnv) : git unit :=
  _ ← exec (new_command (repo_root r) ["fetch"; remote] env Network); mret tt.
Definition checkout (r : Repository) (branch : string) : git unit :=
  _ ← exec (mutating (repo_root r) ["checkout"; branch]); mret tt.
Definition pull (r : Repository) (branch : string) (env : GitEnv) : git unit :=
  _ ← exec (new_command (repo_root r) ["pull"; "--ff-only"; "origin"; branch] env Network); mret tt.
End operations.

(** [find_worktree] and [create_worktree] compare canonical paths: [std::fs::canonicalize] of an
    existing path is the world's. *)
Class HostCanonical (World : Type) := canonicalize : World -> string -> option string.

Section discovery.
Context {World : Type} `{!GitRunner World, !HostCanonical World}.
Local Notation git := (gitM World GitlancerError).

(** The longest prefix of components that exists, resolved, then the rest. *)
Definition render_components (cs : list Component) : string :=
  let names := omap (fun c => match c with Normal (Some s) => Some s | ParentDir => Some ".." | CurDir => Some "." | _ => None end) cs in
  match cs with RootDir :: _ => "/" +:+ join "/" names | _ => join "/" names end.
Fixpoint longest_existing (w : World) (n : nat) (cs : list Component) : option (list Component) :=
  match canonicalize w (render_components (take n cs)) with
  | Some real => Some (normalize_absolute (normalize_absolute (components real) ++ drop n cs))
  | None =>
      match n with
      | O => None
      | S n' => match last (take n cs) with Some (Normal _) => longest_existing w n' cs | _ => None end
      end
  end.
Definition canonicalize_longest_existing_prefix (w : World) (path : string) : list Component :=
  let cs := components path in default (normalize_absolute cs) (longest_existing w (length cs) cs).

(** [max_by_key] keeps the last of the deepest. *)
Definition deepest {A} (depth : A -> nat) (l : list A) : option A :=
  fold_left (fun best x => match best with
                           | Some b => if (depth x <? depth b)%nat then best else Some x
                           | None => Some x
                           end) l None.
Definition containing (w : World) (candidate : list Component) (worktrees : list WorktreeHandle) :
    list (WorktreeHandle * list Component) :=
  filter (fun p : WorktreeHandle * list Component => is_Some (strip_components p.2 candidate))
    ((fun h => (h, canonicalize_longest_existing_prefix w (wh_worktree_root h))) <$> worktrees).
Definition find_worktree (r : Repository) (candidate_path : string) : git WorktreeHandle := fun w =>
  let candidate := canonicalize_longest_existing_prefix w candidate_path in
  match list_worktrees r w with
  | (Ok worktrees, w) =>
      (ok_or (fst <$> deepest (fun p => length p.2) (containing w candidate worktrees))
         (Domain (NotAWorktree (render_components candidate))), w)
  | (Err e, w) => (Err e, w)
  end.

(** The handle found and the commit it starts from. *)
Definition create_worktree (r : Repository) (q : CreateWorktreeRequest) : git (WorktreeHandle * string) := fun w =>
  match exec (build_create_worktree_command r q) w with
  | (Err e, w) => (Err e, w)
  | (Ok _, w) =>
      match find_worktree r (cw_worktree_root q) w with
      | (Ok worktree, w) => (Ok (worktree, cw_base_commit_id q), w)
      | (Err error, w) =>
          match cleanup_failed_worktree_creation r q w with
          | (Ok _, w) => (Err error, w)
          | (Err e, w) => (Err e, w)
          end
      end
  end.
End discovery.

(** ** Text laws *)

(** A line that [lines] and [trim] leave alone. *)
Definition plain_line (s : string) : Prop :=
  str_free (is_char (byte_at 10)) s = true /\ str_strip_suffix (bytes [13%N]) s = None /\ trim s = s.
Lemma lines_terminated l : Forall plain_line l -> lines (terminated (byte_at 10) l) = l.
Proof.
  intros Hl. unfold lines. rewrite split_terminated by (eapply Forall_impl; [exact Hl|]; by intros ? []).
  rewrite last_app. cbn [last]. rewrite length_app, Nat.add_sub, take_app_length.
  induction Hl as [|s l (_ & Hs & _) Hl IH]; [done|]. rewrite fmap_cons, IH, Hs. done.
Qed.

(** *** Numbers *)

Lemma digit_char d : (d < 10)%N -> ascii_in 48 57 (pretty_N_char d) = true /\ (N_of_ascii (pretty_N_char d) - 48 = d)%N.
Proof.
  intros Hd. assert (H : forallb (fun d => ascii_in 48 57 (pretty_N_char d) && (N_of_ascii (pretty_N_char d) - 48 =? d)%N)
    (N.of_nat <$> seq 0 10) = true) by (vm_compute; reflexivity).
  rewrite forallb_forall in H. specialize (H d). rewrite andb_true_iff, N.eqb_eq in H. apply H.
  apply list_elem_of_In, list_elem_of_fmap. exists (N.to_nat d). rewrite N2Nat.id. split; [done|].
  apply elem_of_seq. lia.
Qed.
Lemma parse_pretty_go x s : parse_digits 0 (pretty_N_go x s) = parse_digits x s.
Proof.
  revert s. induction (N.lt_wf_0 x) as [x _ IH]. intros s.
  destruct (decide (x = 0)%N) as [->|Hx]; [by rewrite pretty_N_go_0|].
  rewrite pretty_N_go_step by lia. rewrite IH by (apply N.div_lt; lia). cbn [parse_digits].
  destruct (digit_char (x `mod` 10)) as [-> ->]; [by apply N.mod_lt|].
  rewrite (N.mul_comm (x `div` 10) 10), <- N.div_mod by done. done.
Qed.
Lemma pretty_digits (n : N) : exists c rest, pretty n = String c rest /\ ascii_in 48 57 c = true.
Proof.
  assert (Hgo : forall x c s, ascii_in 48 57 c = true ->
    exists d rest, pretty_N_go x (String c s) = String d rest /\ ascii_in 48 57 d = true).
  { intros x. induction (N.lt_wf_0 x) as [x _ IH]. intros c s Hc.
    destruct (decide (x = 0)%N) as [->|Hx]; [rewrite pretty_N_go_0; eauto|].
    rewrite pretty_N_go_step by lia. apply IH; [apply N.div_lt; lia|]. apply digit_char, N.mod_lt. lia. }
  unfold pretty, pretty_N. case_decide as H0; [by exists "0"%char, ""|].
  rewrite pretty_N_go_step by lia. apply Hgo, digit_char, N.mod_lt. lia.
Qed.
Lemma parse_usize_pretty n : (n <= u64_max)%N -> parse_usize (of_N n) = Some n.
Proof.
  intros Hn. unfold parse_usize, of_N. destruct (pretty_digits n) as (c & rest & Hp & Hc).
  assert (Hplus : str_strip_prefix "+" (pretty n) = None).
  { rewrite Hp. simpl. destruct (decide _) as [<-|]; [by vm_compute in Hc|done]. }
  rewrite Hplus. cbn [default]. rewrite bool_decide_eq_false_2 by (rewrite Hp; done).
  assert (Hd : parse_digits 0 (pretty n) = Some n).
  { unfold pretty, pretty_N. case_decide as H0; [by subst|]. by rewrite parse_pretty_go. }
  rewrite Hd. simpl. by rewrite (proj2 (N.leb_le _ _) Hn).
Qed.

(** ** Command-scoped configuration *)

Definition with_configs (l : list (string * string)) (e : GitEnv) : GitEnv :=
  fold_left (fun e kv => with_config kv.1 kv.2 e) l e.
Definition config_key (i : nat) : string := "GIT_CONFIG_KEY_" +:+ of_N (N.of_nat i).
Definition config_value (i : nat) : string := "GIT_CONFIG_VALUE_" +:+ of_N (N.of_nat i).
Lemma config_key_inj i j : config_key i = config_key j -> i = j.
Proof. unfold config_key. intros [= H%(inj pretty)]. lia. Qed.
Lemma config_value_inj i j : config_value i = config_value j -> i = j.
Proof. unfold config_value. intros [= H%(inj pretty)]. lia. Qed.

(** The entries added to an environment are numbered in order and none shadows another: after any number of
    [with_config] the count names how many there are and every key and value is found under its own index, the same
    key twice included. *)
Theorem config_entries_numbered l :
  (N.of_nat (length l) <= u64_max)%N ->
  let e := with_configs l automation_defaults in
  config_count e = N.of_nat (length l)
  /\ forall i k v, l !! i = Some (k, v) -> variables e !! config_key i = Some k /\ variables e !! config_value i = Some v.
Proof.
  induction l as [|[k v] l IH] using rev_ind; intros Hlen; [done|].
  rewrite length_app in Hlen |- *. simpl in Hlen. destruct IH as [Hc Hl]; [lia|].
  unfold with_configs. rewrite fold_left_app. cbn [fold_left fst snd]. fold (with_configs l automation_defaults).
  set (e := with_configs l automation_defaults) in *.
  assert (He : variables (with_config k v e) = <[GIT_CONFIG_COUNT := of_N (N.of_nat (length l) + 1)]>
    (<[config_value (length l) := v]> (<[config_key (length l) := k]> (variables e)))).
  { unfold with_config. by rewrite Hc. }
  split.
  - unfold config_count. rewrite He, lookup_insert_eq. cbn [mbind option_bind].
    rewrite parse_usize_pretty by lia. simpl. lia.
  - intros i k' v' Hi. rewrite He.
    assert (H1 : forall n, GIT_CONFIG_COUNT <> config_key n) by done.
    assert (H2 : forall n, GIT_CONFIG_COUNT <> config_value n) by done.
    assert (H3 : forall n m, config_value n <> config_key m) by done.
    rewrite !(lookup_insert_ne _ GIT_CONFIG_COUNT) by auto.
    rewrite (lookup_insert_ne _ (config_value _) (config_key _)) by auto.
    apply lookup_app_Some in Hi as [Hi|[Hge Hi]].
    + pose proof (lookup_lt_Some _ _ _ Hi). destruct (Hl _ _ _ Hi) as [<- <-].
      split; [rewrite lookup_insert_ne; [done|intros ?%config_key_inj; lia]|].
      rewrite lookup_insert_ne by (intros ?%config_value_inj; lia). by rewrite lookup_insert_ne by auto.
    + apply list_lookup_singleton_Some in Hi as [Hi [= -> ->]]. replace i with (length l) by lia.
      by rewrite !lookup_insert_eq.
Qed.
Lemma config_entries_numbered_witness :
  let e := with_configs [("http.proxy", ""); ("http.proxy", "http://proxy:8080")] automation_defaults in
  config_count e = 2%N.
Proof. exact (proj1 (config_entries_numbered [("http.proxy", ""); ("http.proxy", "http://proxy:8080")] ltac:(vm_compute; done))). Defined.

(** ** What [git worktree list --porcelain] prints *)

Record PorcelainEntry : Type := { pe_path : string; pe_head : string; pe_branch : option string }.
Definition porcelain_lines (e : PorcelainEntry) : list string :=
  ["worktree " +:+ pe_path e; "HEAD " +:+ pe_head e;
   match pe_branch e with Some b => "branch refs/heads/" +:+ b | None => "detached" end; ""].
Definition porcelain (es : list PorcelainEntry) : string := terminated (byte_at 10) (mbind porcelain_lines es).
Definition entry_plain (e : PorcelainEntry) : Prop := Forall plain_line (porcelain_lines e).

Lemma strip_prefix_app pat s : str_strip_prefix pat (pat +:+ s) = Some s.
Proof. by apply strip_prefix_Some. Qed.
(** One record: the previous one is finished, and its own path and branch are current. *)
Lemma parse_entry root acc path branch e ls :
  entry_plain e ->
  parse_worktree_lines root acc path branch (porcelain_lines e ++ ls) =
    parse_worktree_lines root (finish_record root acc path branch).1 (Some (pe_path e))
      (match pe_branch e with Some b => Some b | None => (finish_record root acc path branch).2 end) ls.
Proof.
  intros He. unfold entry_plain, porcelain_lines in He |- *.
  apply Forall_cons in He as [(_ & _ & H1) He]. apply Forall_cons in He as [(_ & _ & H2) He].
  apply Forall_cons in He as [(_ & _ & H3) _]. cbn [app parse_worktree_lines].
  rewrite H1, H2, H3, strip_prefix_app. destruct (finish_record root acc path branch) as [acc' branch'].
  by destruct (pe_branch e) as [b|].
Qed.
Lemma parse_entries root acc path branch es :
  Forall entry_plain es ->
  parse_worktree_lines root acc (Some path) branch (mbind porcelain_lines es) =
    acc ++ build_worktree_handle root path branch
      :: ((fun e => build_worktree_handle root (pe_path e) (pe_branch e)) <$> es).
Proof.
  intros Hes. revert acc path branch. induction Hes as [|e es He Hes IH]; intros acc path branch; [done|].
  cbn [mbind list_bind]. rewrite parse_entry by done. cbn [finish_record fst snd].
  replace (match pe_branch e with Some b => Some b | None => None end) with (pe_branch e) by (by destruct (pe_branch e)).
  etransitivity; [apply IH|]. by rewrite <- app_assoc.
Qed.

(** What a handle says of the worktree Git listed: its place, its branch and its kind.  The main
    checkout is the one at the root of the repository; a linked one is named by the last part of its
    path. *)
Record handle_of (root : string) (e : PorcelainEntry) (h : WorktreeHandle) : Prop := {
  ho_repository : wh_repo_root h = root;
  ho_place : wh_worktree_root h = pe_path e;
  ho_git_dir : wh_git_dir h = path_join (pe_path e) ".git";
  ho_branch : wh_branch_name h = pe_branch e;
  ho_main : wh_kind h = Main <-> components (pe_path e) = components root;
  ho_linked name : wh_kind h = Linked name ->
    match last (components (pe_path e)) with Some (Normal (Some n)) => name = n | _ => name = pe_path e end;
}.
Lemma handle_built root e : handle_of root e (build_worktree_handle root (pe_path e) (pe_branch e)).
Proof.
  split; [done..| |]; unfold build_worktree_handle; cbn [wh_kind]; unfold same_path; case_bool_decide as Hc.
  - done.
  - done.
  - done.
  - intros name [= <-]. unfold derive_linked_worktree_name, file_name.
    by destruct (last (components (pe_path e))) as [[| | | |[n|]]|].
Qed.

(** C29: Reading back the listing of Git gives every worktree once, in order, with its own path and branch: a detached
    worktree never inherits the branch of the one before it, the main checkout is exactly the entry at the repository
    root, and every other one is linked, under the name of its directory.  The listing is the porcelain format of Git, of
    paths and branches without line breaks or surrounding white space ([entry_plain]). *)
Theorem worktree_list_roundtrip root es :
  es <> [] -> Forall entry_plain es ->
  exists hs, parse_worktree_list root (porcelain es) = Ok hs /\ Forall2 (handle_of root) es hs.
Proof.
  intros Hne Hes. exists ((fun e => build_worktree_handle root (pe_path e) (pe_branch e)) <$> es). split.
  2: { apply Forall2_fmap_r, Forall_Forall2_diag, Forall_true. apply handle_built. }
  unfold parse_worktree_list, porcelain. rewrite lines_terminated.
  - destruct Hes as [|e es He Hes]; [done|]. cbn [mbind list_bind]. rewrite parse_entry by done.
    cbn [finish_record fst snd].
    replace (match pe_branch e with Some b => Some b | None => None end) with (pe_branch e) by (by destruct (pe_branch e)).
    rewrite (parse_entries root [] (pe_path e) (pe_branch e) es Hes). done.
  - clear Hne. induction Hes as [|e es He Hes IH]; [constructor|]. cbn [mbind list_bind]. by apply Forall_app.
Qed.
Definition sample_entries : list PorcelainEntry :=
  [ {| pe_path := "/tmp/repo"; pe_head := "0123"; pe_branch := Some "main" |};
    {| pe_path := "/tmp/worktrees/feature tree"; pe_head := "89ab"; pe_branch := None |} ].
Lemma worktree_list_roundtrip_witness :
  exists hs, parse_worktree_list "/tmp/repo" (porcelain sample_entries) = Ok hs /\ Forall2 (handle_of "/tmp/repo") sample_entries hs.
Proof.
  apply (worktree_list_roundtrip "/tmp/repo" sample_entries); [done|].
  repeat constructor; vm_compute; reflexivity.
Defined.

(** The first line of a listing that starts a record. *)
Definition first_listed (stdout top : string) : Prop :=
  exists before line after, lines stdout = before ++ line :: after /\ trim line = "worktree " +:+ top
    /\ Forall (fun l => starts_with "worktree " (trim l) = false) before.
Lemma first_worktree_Some stdout top : first_worktree stdout = Some top -> first_listed stdout top.
Proof.
  unfold first_worktree, first_listed. induction (lines stdout) as [|l ls IH]; [done|]. cbn [omap list_omap].
  destruct (str_strip_prefix "worktree " (trim l)) as [x|] eqn:E.
  - intros [= ->]. exists [], l, ls. split_and!; [done|by apply strip_prefix_Some|constructor].
  - intros (before & line & after & -> & H1 & H2)%IH. exists (l :: before), line, after. split_and!; [done|done|].
    constructor; [|done]. unfold starts_with. rewrite E. done.
Qed.

(** ** Containment *)

Definition is_normal (c : Component) : bool := match c with Normal _ => true | _ => false end.
Definition all_normal (cs : list Component) : Prop := Forall (fun c => is_normal c = true) cs.
Lemma all_normal_take n cs : all_normal cs -> all_normal (take n cs).
Proof. apply Forall_take. Qed.
Lemma all_normal_snoc cs s : all_normal cs -> all_normal (cs ++ [Normal s]).
Proof. intros H. apply Forall_app. by repeat constructor. Qed.

Lemma normalize_relative_normal normalized path rel :
  all_normal normalized -> normalize_relative_from normalized path = Some rel -> all_normal rel.
Proof.
  revert normalized. induction path as [|c path IH]; intros normalized Hn; [by intros [= <-]|].
  destruct c as [| | | |s]; cbn [normalize_relative_from]; try done.
  - by apply IH.
  - destruct normalized as [|c normalized]; [done|]. apply IH. by apply all_normal_take.
  - apply IH. by apply all_normal_snoc.
Qed.

(** Below the root there are only names. *)
Definition rooted (cs : list Component) : Prop := exists names, cs = RootDir :: names /\ all_normal names.
Lemma pop_rooted cs : rooted cs -> rooted (path_pop cs).
Proof.
  intros (names & -> & Hn). unfold path_pop. destruct names as [|c names] using rev_ind; [by exists []|].
  rewrite app_comm_cons, last_snoc. apply Forall_app in Hn as [Hn Hc]. rewrite Forall_singleton in Hc.
  destruct c; try done. rewrite length_app, Nat.add_sub, take_app_length. by exists names.
Qed.
Lemma normalize_rooted acc path :
  rooted acc -> Forall (fun c => c <> RootDir /\ c <> Prefix) path ->
  rooted (fold_left (fun normalized c =>
    match c with
    | Prefix | RootDir | Normal _ => normalized ++ [c]
    | CurDir => normalized
    | ParentDir => path_pop normalized
    end) path acc).
Proof.
  intros Hacc Hp. revert acc Hacc. induction Hp as [|c path [Hc1 Hc2] Hp IH]; intros acc Hacc; [done|].
  cbn [fold_left]. apply IH. destruct c as [| | | |s]; try done; [by apply pop_rooted|].
  destruct Hacc as (names & -> & Hn). exists (names ++ [Normal s]). split; [done|]. by apply all_normal_snoc.
Qed.
Lemma segment_components_inner l : Forall (fun c => c <> RootDir /\ c <> Prefix) (mbind segment_component l).
Proof.
  induction l as [|s l IH]; [constructor|]. cbn [mbind list_bind]. apply Forall_app. split; [|done].
  unfold segment_component. repeat case_match; repeat constructor; done.
Qed.
Lemma components_absolute path : path_is_absolute path = true ->
  exists rest, components path = RootDir :: rest /\ Forall (fun c => c <> RootDir /\ c <> Prefix) rest.
Proof.
  unfold path_is_absolute. intros H. unfold components. rewrite H. destruct (split_char SLASH path) as [|first rest] eqn:E.
  { by apply split_on_ne in E. }
  eexists. split; [reflexivity|]. apply segment_components_inner.
Qed.
Lemma normalize_absolute_rooted path : path_is_absolute path = true -> rooted (normalize_absolute (components path)).
Proof.
  intros (rest & -> & Hr)%components_absolute. unfold normalize_absolute. cbn [fold_left app].
  apply normalize_rooted; [exists []; split; [done|constructor]|done].
Qed.
Lemma strip_components_Some prefix path rest : strip_components prefix path = Some rest <-> path = prefix ++ rest.
Proof.
  revert path. induction prefix as [|c prefix IH]; intros path; [split; [by intros [= ->]|by intros ->]|].
  destruct path as [|d path]; cbn [strip_components]; [done|]. case_bool_decide as Hd.
  - subst d. rewrite IH. split; [by intros ->|by intros [= ->]].
  - split; [done|intros [= ?]; congruence].
Qed.

(** A path accepted for a checkout stays inside it: what [resolve_repo_relative_path] returns has no root, no
    [..] and no [.]; for an absolute path the checkout's root followed by the result is that very path, normalized. *)
Theorem repo_relative_path_contained h path rel :
  path_is_absolute (wh_worktree_root h) = true -> resolve_repo_relative_path h path = Ok rel ->
  all_normal rel
  /\ (path_is_absolute path = true ->
        normalize_absolute (components (wh_worktree_root h)) ++ rel = normalize_absolute (components path)).
Proof.
  intros Hroot. unfold resolve_repo_relative_path. destruct (path_is_absolute path) eqn:Habs.
  - intros Hs%ok_or_Ok%strip_components_Some. split; [|done].
    destruct (normalize_absolute_rooted _ Habs) as (names & Hn & Hall).
    destruct (normalize_absolute_rooted _ Hroot) as (names' & Hn' & _). rewrite Hn, Hn' in Hs.
    injection Hs as Hs. rewrite Hs in Hall. by apply Forall_app in Hall as [_ Hall].
  - intros Hr%ok_or_Ok. split; [|done]. by eapply (normalize_relative_normal []); [constructor|].
Qed.
Definition sample_handle : WorktreeHandle := build_worktree_handle "/repo" "/repo/wt" (Some "main").
Lemma repo_relative_path_contained_witness :
  resolve_repo_relative_path sample_handle "/repo/wt/src/../lib.rs" = Ok [Normal (Some "lib.rs")]
  /\ all_normal [Normal (Some "lib.rs")].
Proof.
  assert (E : resolve_repo_relative_path sample_handle "/repo/wt/src/../lib.rs" = Ok [Normal (Some "lib.rs")])
    by (vm_compute; reflexivity).
  split; [exact E|]. exact (proj1 (repo_relative_path_contained sample_handle _ _ ltac:(vm_compute; reflexivity) E)).
Defined.

(** ** Status records *)

(** An ordinary change ([1]) and an untracked file, as porcelain v2 prints them. *)
Inductive StatusRecord : Type :=
| OrdinaryChange (xy : string) (metadata : list string) (path : string)
| UntrackedFile (path : string).
Definition status_record (r : StatusRecord) : string :=
  match r with
  | OrdinaryChange xy metadata path => join " " (["1"; xy] ++ metadata ++ [path])
  | UntrackedFile path => join " " ["?"; path]
  end.
Definition status_entry (r : StatusRecord) : StatusFileEntry :=
  match r with
  | OrdinaryChange xy _ path =>
      {| sf_path := path; is_staged := negb (starts_with_byte "."%char xy); is_untracked := false |}
  | UntrackedFile path => {| sf_path := path; is_staged := false; is_untracked := true |}
  end.
Definition one_word (s : string) : Prop := str_free (is_char SPACE) s = true.
(** Six columns of one word between the state and the path; the path is any text without NUL. *)
Definition record_wf (r : StatusRecord) : Prop :=
  str_free (is_char NUL) (status_record r) = true
  /\ match r with
     | OrdinaryChange xy metadata _ => length metadata = 6%nat /\ Forall one_word (xy :: metadata)
     | UntrackedFile _ => True
     end.

Lemma join_snoc sep l s : join sep (l ++ [s]) = match l with [] => s | _ => join sep l +:+ sep +:+ s end.
Proof.
  induction l as [|x l IH]; [done|]. rewrite <- app_comm_cons. rewrite join_cons by (by destruct l). rewrite IH.
  destruct l as [|y l]; [done|]. rewrite (join_cons sep x (y :: l)) by done. by rewrite !app_assoc_str.
Qed.
Lemma split_words l path :
  Forall one_word l -> split_char SPACE (join " " (l ++ [path])) = l ++ split_char SPACE path.
Proof.
  unfold split_char. induction 1 as [|s l Hs Hl IH]; [done|]. rewrite <- app_comm_cons, join_cons by (by destruct l).
  change (s +:+ " " +:+ join " " (l ++ [path])) with (s +:+ String SPACE (join " " (l ++ [path]))).
  rewrite split_on_app; [by rewrite IH|done|]. unfold is_char. by rewrite bool_decide_eq_true_2.
Qed.
Lemma parse_record r : record_wf r -> parse_status_record (status_record r) = Some (status_entry r).
Proof.
  intros [_ Hr]. unfold parse_status_record. destruct r as [xy metadata path|path]; cbn [status_record status_entry].
  - destruct Hr as [Hlen Hw]. change (["1"; xy] ++ metadata ++ [path]) with (("1" :: xy :: metadata) ++ [path]).
    rewrite split_words by (constructor; [done|exact Hw]).
    assert (Hh : starts_with "#" (join " " (("1" :: xy :: metadata) ++ [path])) = false).
    { rewrite <- app_comm_cons, join_cons by done. done. }
    rewrite Hh. cbn [app]. rewrite bool_decide_eq_true_2 by done. cbn [orb].
    assert (Hj : join " " (drop (metadata_columns "1") (metadata ++ split_char SPACE path)) = path).
    { replace (metadata_columns "1") with (length metadata) by (by rewrite Hlen).
      rewrite drop_app_length. apply join_split_char. }
    by rewrite Hj.
  - change ["?"; path] with (["?"] ++ [path]). rewrite split_words by (by repeat constructor).
    assert (Hh : starts_with "#" (join " " (["?"] ++ [path])) = false) by done.
    rewrite Hh. cbn [app]. rewrite (bool_decide_eq_true_2 ("?" = "?")) by done.
    rewrite !bool_decide_eq_false_2 by done. cbn [orb].
    assert (Hj : join " " (split_char SPACE path) = path) by apply join_split_char. by rewrite Hj.
Qed.

(** Reading back a status of ordinary changes and untracked files gives exactly those files, in order, with paths
    that may contain spaces, staged exactly when the index column is not a dot. *)
Theorem status_roundtrip rs :
  Forall record_wf rs -> parse_status_v2_entries (terminated NUL (status_record <$> rs)) = status_entry <$> rs.
Proof.
  intros Hrs. unfold parse_status_v2_entries, status_records. rewrite split_terminated.
  - rewrite filter_app, (filter_cons_False _ "") by (by intros []). cbn [filter list_filter]. rewrite app_nil_r.
    induction Hrs as [|r rs Hr Hrs IH]; [done|]. rewrite !fmap_cons, filter_cons_True.
    + cbn [omap list_omap]. rewrite parse_record by done. f_equal. exact IH.
    + destruct r; done.
  - apply Forall_fmap. eapply Forall_impl; [exact Hrs|]. by intros r [].
Qed.
Definition sample_records : list StatusRecord :=
  [OrdinaryChange "M." ["N..."; "100644"; "100644"; "100644"; "abc"; "abc"] "my file.txt"; UntrackedFile "new file.txt"].
Lemma status_roundtrip_witness :
  parse_status_v2_entries (terminated NUL (status_record <$> sample_records)) = status_entry <$> sample_records.
Proof. apply (status_roundtrip sample_records). repeat constructor. Defined.

(** A rename is printed as two records, the second being only the old path, and the parser does not skip it: when
    the old path itself reads like an untracked record, a file that does not exist is listed as untracked. *)
Theorem rename_source_is_listed xy metadata path old :
  record_wf (UntrackedFile old) -> length metadata = 7%nat -> Forall one_word (xy :: metadata) ->
  str_free (is_char NUL) (join " " (["2"; xy] ++ metadata ++ [path])) = true ->
  parse_status_v2_entries (terminated NUL [join " " (["2"; xy] ++ metadata ++ [path]); "? " +:+ old]) =
    [ {| sf_path := path; is_staged := negb (starts_with_byte "."%char xy); is_untracked := false |};
      {| sf_path := old; is_staged := false; is_untracked := true |} ].
Proof.
  intros [Hnul _] Hlen Hw Hfree. unfold parse_status_v2_entries, status_records.
  rewrite split_terminated by (by repeat constructor).
  pose proof (parse_record (UntrackedFile old) (conj Hnul I)) as Hold. cbn [status_record status_entry] in Hold.
  change (["2"; xy] ++ metadata ++ [path]) with (("2" :: xy :: metadata) ++ [path]) in *.
  assert (Hnew : parse_status_record (join " " (("2" :: xy :: metadata) ++ [path])) =
    Some {| sf_path := path; is_staged := negb (starts_with_byte "."%char xy); is_untracked := false |}).
  { unfold parse_status_record. rewrite split_words by (constructor; [done|exact Hw]).
    assert (Hh : starts_with "#" (join " " (("2" :: xy :: metadata) ++ [path])) = false).
    { rewrite <- app_comm_cons, join_cons by done. done. }
    rewrite Hh. cbn [app]. rewrite (bool_decide_eq_true_2 ("2" = "2")) by done. rewrite orb_true_r. cbn [orb].
    assert (Hj : join " " (drop (metadata_columns "2") (metadata ++ split_char SPACE path)) = path).
    { replace (metadata_columns "2") with (length metadata) by (by rewrite Hlen).
      rewrite drop_app_length. apply join_split_char. }
    by rewrite Hj. }
  cbn [app] in Hnew |- *. rewrite filter_cons_True by done. rewrite filter_cons_True by done.
  rewrite filter_cons_False by (by intros []). cbn [filter list_filter omap list_omap].
  rewrite Hnew. change ("? " +:+ old) with (join " " ["?"; old]). by rewrite Hold.
Qed.
Lemma rename_source_is_listed_witness :
  let metadata := ["N..."; "100644"; "100644"; "100644"; "abc"; "abc"; "R100"] in
  parse_status_v2_entries (terminated NUL [join " " (["2"; "R."] ++ metadata ++ ["notes.md"]); "? " +:+ "draft.md"]) =
    [ {| sf_path := "notes.md"; is_staged := true; is_untracked := false |};
      {| sf_path := "draft.md"; is_staged := false; is_untracked := true |} ].
Proof.
  intros metadata. apply (rename_source_is_listed "R." metadata "notes.md" "draft.md");
    [split; done|done|repeat constructor|vm_compute; reflexivity].
Defined.

(** ** Guards before a mutation *)

Section guards.
Context {World : Type} {runner : GitRunner World} {canonical : HostCanonical World}.
Implicit Types (w : World).

(** Nothing runs for a worktree of another repository or for the main checkout. *)
Lemma delete_worktree_refuses r h mode w :
  same_path (wh_repo_root h) (repo_root r) = false \/ wh_kind h = Main ->
  exists e, delete_worktree r h mode w = (Err (Domain e), w).
Proof.
  intros Hguard. unfold delete_worktree. destruct (same_path _ _) eqn:E; simpl; [|by eexists].
  destruct Hguard as [?|Hm]; [done|]. rewrite bool_decide_eq_true_2 by done. by eexists.
Qed.
(** A branch that Git does not list is never asked to be deleted. *)
Lemma delete_branch_refuses r branch mode w branches w1 :
  list_branches r w = (Ok branches, w1) -> branch ∉ branches ->
  delete_branch r branch mode w = (Err (Domain (BranchNotFound (repo_root r) branch)), w1).
Proof.
  intros Hl Hn. unfold delete_branch, mbind, gitM_bind. rewrite Hl. by rewrite bool_decide_eq_false_2.
Qed.

(** A worktree that cannot be found after [git worktree add] succeeded is taken back: both the worktree and the
    branch are asked to be removed, whatever the first answer is, and the creation fails. *)
Theorem failed_creation_is_undone r q w e w' :
  create_worktree r q w = (Err e, w') ->
  (exists e1, run (build_create_worktree_command r q) w = (Err e1, w'))
  \/ exists output w1 e2 w2,
       run (build_create_worktree_command r q) w = (Ok output, w1)
       /\ find_worktree r (cw_worktree_root q) w1 = (Err e2, w2)
       /\ w' = (run (build_failed_create_branch_cleanup_command r q)
                  (run (build_failed_create_worktree_cleanup_command r q) w2).2).2.
Proof.
  unfold create_worktree, exec, map_error. destruct (run (build_create_worktree_command r q) w) as [[output|e1] w1]; simpl.
  - destruct (find_worktree r (cw_worktree_root q) w1) as [[h|e2] w2] eqn:Ef; [done|].
    unfold cleanup_failed_worktree_creation.
    destruct (run (build_failed_create_worktree_cleanup_command r q) w2) as [r1 w3] eqn:E1.
    destruct (run (build_failed_create_branch_cleanup_command r q) w3) as [r2 w4] eqn:E2.
    intros H. right. exists output, w1, e2, w2. split_and!; [done|done|]. rewrite E1; simpl. rewrite E2; simpl.
    by destruct r1, r2; injection H as _ <-.
  - intros [= <- <-]. left. by exists e1.
Qed.
End guards.

(** A runner that records the arguments of every command and prints nothing. *)
#[export] Instance recording_runner : GitRunner (list (list string)) := fun command w =>
  (Ok {| go_code := Some 0%Z; go_stdout := ""; go_stderr := ""; go_duration_ms := 0 |}, w ++ [gc_args command]).
#[export] Instance identity_canonical : HostCanonical (list (list string)) := fun _ path => Some path.
Definition sample_create : CreateWorktreeRequest :=
  {| cw_worktree_root := "/worktrees/task"; cw_branch_name := "ora/task"; cw_base_commit_id := "base" |}.
Lemma failed_creation_is_undone_witness :
  exists e w', create_worktree {| repo_root := "/repo" |} sample_create ([] : list (list string)) = (Err e, w')
    /\ w' = [["worktree"; "add"; "-b"; "ora/task"; "/worktrees/task"; "base"]; ["worktree"; "list"; "--porcelain"];
             ["worktree"; "remove"; "/worktrees/task"; "--force"]; ["branch"; "-D"; "ora/task"]].
Proof.
  destruct (create_worktree {| repo_root := "/repo" |} sample_create ([] : list (list string))) as [r w'] eqn:E.
  pose proof E as E'. vm_compute in E. injection E as <- <-. eexists _, _. split; [reflexivity|].
  destruct (failed_creation_is_undone _ _ _ _ _ E') as [(e1 & H)|(output & w1 & e2 & w2 & H1 & H2 & H3)].
  - by vm_compute in H.
  - vm_compute in H1. injection H1 as _ <-. vm_compute in H2. injection H2 as _ <-. rewrite H3. vm_compute. reflexivity.
Defined.
