(* ===== verification/GitCleanup.v ===== *)
(** * Durable Git cleanup: jobs, leases and outcomes

    [crates/domain/src/git_cleanup.rs], [crates/application/src/task/git_cleanup.rs] and [branch.rs],
    and the tables of [crates/db/src/repository/git_cleanup_job.rs] and
    [worktree_provisioning_lease.rs] with the constraints of migration 0004.  A repository operation is
    one transaction: new tables, or an error and the old ones. *)

From S2P Require Import Prelude RustStr Order ScheduledTask Gitlancer.
Local Open Scope ora_scope.
Local Open Scope Z_scope.

Notation WorkspaceId := string (only parsing).
Notation GitCleanupJobId := string (only parsing).
Notation WorktreeProvisioningLeaseId := string (only parsing).

(** ** The domain *)

Definition MAX_CLEANUP_JOB_ERROR_CHARS : nat := 1024.

Inductive GitCleanupJobState : Type := JobPending | JobCompleted | JobManualAttention.
#[export] Instance GitCleanupJobState_eq_dec : EqDecision GitCleanupJobState.
Proof. solve_decision. Defined.

Definition database_value (s : GitCleanupJobState) : string :=
  match s with JobPending => "pending" | JobCompleted => "completed" | JobManualAttention => "manual_attention" end.
(** The error is [InvalidGitCleanupJobState]. *)
Definition from_database_value (value : string) : result string GitCleanupJobState :=
  if bool_decide (value = "pending") then Ok JobPending
  else if bool_decide (value = "completed") then Ok JobCompleted
  else if bool_decide (value = "manual_attention") then Ok JobManualAttention
  else Err value.

Record GitCleanupJob : Type := {
  jb_id : GitCleanupJobId; jb_project_id : ProjectId; jb_workspace_id : WorkspaceId; jb_repository_root : string;
  jb_checkout_root : option string; jb_branch_name : string; jb_state : GitCleanupJobState; jb_attempts : Z;
  jb_next_attempt_at : Z; jb_last_attempt_at : option Z; jb_last_error : option string; jb_created_at : Z;
  jb_updated_at : Z;
}.
#[export] Instance GitCleanupJob_eq_dec : EqDecision GitCleanupJob.
Proof. solve_decision. Defined.

Definition pending (id : GitCleanupJobId) (project_id : ProjectId) (workspace_id : WorkspaceId)
    (repository_root : string) (checkout_root : option string) (branch_name : string) (now : Z) : GitCleanupJob :=
  {| jb_id := id; jb_project_id := project_id; jb_workspace_id := workspace_id; jb_repository_root := repository_root;
     jb_checkout_root := checkout_root; jb_branch_name := branch_name; jb_state := JobPending; jb_attempts := 0;
     jb_next_attempt_at := now; jb_last_attempt_at := None; jb_last_error := None; jb_created_at := now;
     jb_updated_at := now |}.

Definition truncate_cleanup_error (error : string) : string :=
  if (N.of_nat MAX_CLEANUP_JOB_ERROR_CHARS <? chars_count error)%N then take_chars MAX_CLEANUP_JOB_ERROR_CHARS error
  else error.

Record WorktreeProvisioningLease : Type := {
  ls_id : WorktreeProvisioningLeaseId; ls_project_id : ProjectId; ls_workspace_id : WorkspaceId;
  ls_repository_root : string; ls_checkout_root : string; ls_branch_name : string; ls_lease_expires_at : Z;
  ls_created_at : Z; ls_updated_at : Z;
}.
#[export] Instance WorktreeProvisioningLease_eq_dec : EqDecision WorktreeProvisioningLease.
Proof. solve_decision. Defined.

Definition new_lease (id : WorktreeProvisioningLeaseId) (project_id : ProjectId) (workspace_id : WorkspaceId)
    (repository_root checkout_root branch_name : string) (lease_expires_at now : Z) : WorktreeProvisioningLease :=
  {| ls_id := id; ls_project_id := project_id; ls_workspace_id := workspace_id; ls_repository_root := repository_root;
     ls_checkout_root := checkout_root; ls_branch_name := branch_name; ls_lease_expires_at := lease_expires_at;
     ls_created_at := now; ls_updated_at := now |}.
Definition into_cleanup_job (l : WorktreeProvisioningLease) (job_id : GitCleanupJobId) (now : Z) : GitCleanupJob :=
  pending job_id (ls_project_id l) (ls_workspace_id l) (ls_repository_root l) (Some (ls_checkout_root l))
    (ls_branch_name l) now.

(** ** Branch names *)

Definition WORKSPACE_BRANCH_PREFIX_LEN : nat := 8.
Definition workspace_branch_prefix (workspace_id : WorkspaceId) : string :=
  take_chars WORKSPACE_BRANCH_PREFIX_LEN workspace_id.
Definition branch_name_for_workspace (workspace_id : WorkspaceId) : string :=
  "ora/" +:+ workspace_branch_prefix workspace_id.

(** ** Outcomes of a cleanup *)

Inductive CleanupStage : Type := StageWorktree | StageBranch.
Definition stage_as_str (s : CleanupStage) : string :=
  match s with StageWorktree => "worktree" | StageBranch => "branch" end.
Inductive ResourceRemoval : Type := ResourceRemoved | ResourceAlreadyAbsent.
Inductive WorktreeRemoval : Type := WorktreeRemoved | WorktreeAlreadyAbsent | OwnershipLost.

(** An error and the texts of its chain of causes. *)
Record GitCleanupError : Type := { ge_stage : CleanupStage; ge_context : string; ge_causes : list string }.
Definition error_display (e : GitCleanupError) : string :=
  "git cleanup " +:+ stage_as_str (ge_stage e) +:+ " stage failed: " +:+ ge_context e.
Definition error_chain (e : GitCleanupError) : string :=
  fold_left (fun rendered cause => rendered +:+ ": " +:+ cause) (ge_causes e) (error_display e).

Record RemoveTaskWorktreeRequest : Type := {
  wq_repository_root : string; wq_branch_name : string; wq_checkout_root : option string;
  wq_legacy_checkout_probe : option string;
}.
Record RemoveTaskBranchRequest : Type := { bq_repository_root : string; bq_branch_name : string }.

Inductive CleanupJobDisposition : Type :=
| DispositionCompleted
| DispositionRetry (error : string)
| DispositionManualAttention (reason : string).

(** [Uuid::parse_str] is the [uuid] crate's: whether a text is a UUID. *)
Class UuidText := { uuid_parses : string -> bool }.

Definition validate_cleanup_identity `{UuidText} (job : GitCleanupJob) : result string unit :=
  reject (negb (uuid_parses (jb_workspace_id job))) with ("workspace id is not a full UUID: " +:+ jb_workspace_id job);
  let expected_branch := branch_name_for_workspace (jb_workspace_id job) in
  reject_if (negb (bool_decide (jb_branch_name job = expected_branch)))
    ("branch name " +:+ jb_branch_name job +:+ " does not match the branch derived from the workspace id ("
     +:+ expected_branch +:+ ")").

Definition OWNERSHIP_REASON : string := "non-empty checkout exists but Git metadata cannot prove Ora ownership".
Definition error_texts {A} (r : result GitCleanupError A) : list string :=
  match r with Ok _ => [] | Err e => [error_chain e] end.
Definition reduce_cleanup_outcomes (worktree : result GitCleanupError WorktreeRemoval)
    (branch : result GitCleanupError ResourceRemoval) : CleanupJobDisposition :=
  match worktree with
  | Ok OwnershipLost =>
      DispositionManualAttention
        (match branch with
         | Err e => OWNERSHIP_REASON +:+ "; branch stage also failed: " +:+ error_chain e
         | Ok _ => OWNERSHIP_REASON
         end)
  | _ =>
      match error_texts worktree ++ error_texts branch with
      | [] => DispositionCompleted
      | errors => DispositionRetry (join "; " errors)
      end
  end.

Definition legacy_checkout_probe (configured_worktree_root : string) (job : GitCleanupJob) : string :=
  path_join configured_worktree_root (jb_workspace_id job).

(** ** The tables *)

Inductive CleanupDatabaseError : Type := CleanupConstraint | CleanupNoRows | CorruptJobState (value : string).
Local Notation db := (result CleanupDatabaseError).

Record CleanupTables : Type := {
  ct_jobs : gmap string GitCleanupJob;
  ct_leases : gmap string WorktreeProvisioningLease;
}.
Definition with_jobs (t : CleanupTables) (jobs : gmap string GitCleanupJob) : CleanupTables :=
  {| ct_jobs := jobs; ct_leases := ct_leases t |}.
Definition with_leases (t : CleanupTables) (leases : gmap string WorktreeProvisioningLease) : CleanupTables :=
  {| ct_jobs := ct_jobs t; ct_leases := leases |}.

(** The columns of a job, and [map_job_row]. *)
Record JobRow : Type := {
  jr_id : string; jr_project_id : string; jr_workspace_id : string; jr_repository_root : string;
  jr_checkout_root : option string; jr_branch_name : string; jr_state : string; jr_attempts : Z;
  jr_next_attempt_at : Z; jr_last_attempt_at : option Z; jr_last_error : option string; jr_created_at : Z;
  jr_updated_at : Z;
}.
Definition job_columns (j : GitCleanupJob) : JobRow :=
  {| jr_id := jb_id j; jr_project_id := jb_project_id j; jr_workspace_id := jb_workspace_id j;
     jr_repository_root := jb_repository_root j; jr_checkout_root := jb_checkout_root j;
     jr_branch_name := jb_branch_name j; jr_state := database_value (jb_state j); jr_attempts := jb_attempts j;
     jr_next_attempt_at := jb_next_attempt_at j; jr_last_attempt_at := jb_last_attempt_at j;
     jr_last_error := jb_last_error j; jr_created_at := jb_created_at j; jr_updated_at := jb_updated_at j |}.
Definition map_job_row (r : JobRow) : db GitCleanupJob :=
  state ← map_err CorruptJobState (from_database_value (jr_state r));
  Ok {| jb_id := jr_id r; jb_project_id := jr_project_id r; jb_workspace_id := jr_workspace_id r;
        jb_repository_root := jr_repository_root r; jb_checkout_root := jr_checkout_root r;
        jb_branch_name := jr_branch_name r; jb_state := state; jb_attempts := jr_attempts r;
        jb_next_attempt_at := jr_next_attempt_at r; jb_last_attempt_at := jr_last_attempt_at r;
        jb_last_error := jr_last_error r; jb_created_at := jr_created_at r; jb_updated_at := jr_updated_at r |}.

(** The [CHECK]s. *)
Definition job_checks (j : GitCleanupJob) : bool :=
  negb (bool_decide (jb_project_id j = "")) && negb (bool_decide (jb_workspace_id j = ""))
  && negb (bool_decide (jb_repository_root j = "")) && negb (bool_decide (jb_branch_name j = ""))
  && (0 <=? jb_attempts j).
Definition lease_checks (l : WorktreeProvisioningLease) : bool :=
  negb (bool_decide (ls_project_id l = "")) && negb (bool_decide (ls_workspace_id l = ""))
  && negb (bool_decide (ls_repository_root l = "")) && negb (bool_decide (ls_checkout_root l = ""))
  && negb (bool_decide (ls_branch_name l = "")).

Definition require (b : bool) : db unit := reject_if (negb b) CleanupConstraint.

(** *** Jobs *)

Definition insert_job_row (t : CleanupTables) (j : GitCleanupJob) : db CleanupTables :=
  _ ← require (bool_decide (ct_jobs t !! jb_id j = None));
  _ ← require (job_checks j);
  Ok (with_jobs t (<[jb_id j := j]> (ct_jobs t))).
Definition insert_jobs (t : CleanupTables) (jobs : list GitCleanupJob) : db CleanupTables :=
  fold_result insert_job_row t jobs.
Definition insert_job (j : GitCleanupJob) (t : CleanupTables) : db CleanupTables := insert_jobs t [j].

Definition is_pending (j : GitCleanupJob) : bool := bool_decide (jb_state j = JobPending).
Definition due (now : Z) (j : GitCleanupJob) : bool := is_pending j && (jb_next_attempt_at j <=? now).
Definition job_rows (t : CleanupTables) : list GitCleanupJob := (map_to_list (ct_jobs t)).*2.

(** [ORDER BY next_attempt_at, id LIMIT limit] *)
Definition dispatch_before (p q : GitCleanupJob) : Prop :=
  cmp_pair Z.compare str_cmp (jb_next_attempt_at p, jb_id p) (jb_next_attempt_at q, jb_id q) <> Gt.
#[export] Instance dispatch_before_dec : RelDecision dispatch_before.
Proof. intros p q. unfold dispatch_before. apply _. Defined.
Definition due_jobs (now : Z) (limit : nat) (t : CleanupTables) : list GitCleanupJob :=
  take limit (merge_sort dispatch_before (filter (fun j => due now j = true) (job_rows t))).

(** [ORDER BY created_at, id] *)
Definition created_before (p q : GitCleanupJob) : Prop :=
  cmp_pair Z.compare str_cmp (jb_created_at p, jb_id p) (jb_created_at q, jb_id q) <> Gt.
#[export] Instance created_before_dec : RelDecision created_before.
Proof. intros p q. unfold created_before. apply _. Defined.
Definition list_jobs (t : CleanupTables) : list GitCleanupJob := merge_sort created_before (job_rows t).

(** [UPDATE ... WHERE id = ?1 AND state = 'pending'] *)
Definition update_pending (job_id : GitCleanupJobId) (f : GitCleanupJob -> GitCleanupJob) (t : CleanupTables) :
    CleanupTables :=
  with_jobs t (alter (fun j => if is_pending j then f j else j) job_id (ct_jobs t)).

Definition completed_job (now : Z) (j : GitCleanupJob) : GitCleanupJob :=
  {| jb_id := jb_id j; jb_project_id := jb_project_id j; jb_workspace_id := jb_workspace_id j;
     jb_repository_root := jb_repository_root j; jb_checkout_root := jb_checkout_root j;
     jb_branch_name := jb_branch_name j; jb_state := JobCompleted; jb_attempts := jb_attempts j;
     jb_next_attempt_at := jb_next_attempt_at j; jb_last_attempt_at := Some now; jb_last_error := jb_last_error j;
     jb_created_at := jb_created_at j; jb_updated_at := now |}.
Definition failed_job (state : GitCleanupJobState) (error : string) (next_attempt_at now : Z) (j : GitCleanupJob) :
    GitCleanupJob :=
  {| jb_id := jb_id j; jb_project_id := jb_project_id j; jb_workspace_id := jb_workspace_id j;
     jb_repository_root := jb_repository_root j; jb_checkout_root := jb_checkout_root j;
     jb_branch_name := jb_branch_name j; jb_state := state; jb_attempts := jb_attempts j + 1;
     jb_next_attempt_at := next_attempt_at; jb_last_attempt_at := Some now; jb_last_error := Some error;
     jb_created_at := jb_created_at j; jb_updated_at := now |}.

Definition mark_completed (job_id : GitCleanupJobId) (now : Z) : CleanupTables -> CleanupTables :=
  update_pending job_id (completed_job now).
Definition record_retryable_failure (job_id : GitCleanupJobId) (error : string) (next_attempt_at now : Z) :
    CleanupTables -> CleanupTables :=
  update_pending job_id (failed_job JobPending (truncate_cleanup_error error) next_attempt_at now).
Definition mark_manual_attention (job_id : GitCleanupJobId) (error : string) (now : Z) :
    CleanupTables -> CleanupTables :=
  update_pending job_id (fun j => failed_job JobManualAttention (truncate_cleanup_error error) (jb_next_attempt_at j) now j).

Definition purgeable (cutoff : Z) (j : GitCleanupJob) : Prop := jb_state j = JobCompleted /\ jb_updated_at j < cutoff.
#[export] Instance purgeable_dec cutoff j : Decision (purgeable cutoff j).
Proof. unfold purgeable. apply _. Defined.
Definition purge_completed_before (cutoff : Z) (t : CleanupTables) : nat * CleanupTables :=
  (length (filter (purgeable cutoff) (job_rows t)),
   with_jobs t (filter (fun p : string * GitCleanupJob => ~ purgeable cutoff p.2) (ct_jobs t))).

(** *** Leases *)

Definition create_lease (l : WorktreeProvisioningLease) (t : CleanupTables) : db CleanupTables :=
  _ ← require (bool_decide (ct_leases t !! ls_id l = None));
  _ ← require (lease_checks l);
  Ok (with_leases t (<[ls_id l := l]> (ct_leases t))).

Definition renewed_lease (lease_expires_at now : Z) (l : WorktreeProvisioningLease) : WorktreeProvisioningLease :=
  {| ls_id := ls_id l; ls_project_id := ls_project_id l; ls_workspace_id := ls_workspace_id l;
     ls_repository_root := ls_repository_root l; ls_checkout_root := ls_checkout_root l;
     ls_branch_name := ls_branch_name l; ls_lease_expires_at := lease_expires_at; ls_created_at := ls_created_at l;
     ls_updated_at := now |}.
Definition renew_lease (lease_id : WorktreeProvisioningLeaseId) (lease_expires_at now : Z) (t : CleanupTables) :
    bool * CleanupTables :=
  (bool_decide (is_Some (ct_leases t !! lease_id)),
   with_leases t (alter (renewed_lease lease_expires_at now) lease_id (ct_leases t))).
Definition delete_lease (lease_id : WorktreeProvisioningLeaseId) (t : CleanupTables) : bool * CleanupTables :=
  (bool_decide (is_Some (ct_leases t !! lease_id)), with_leases t (delete lease_id (ct_leases t))).

(** One lease becomes a job; the identifier of the job is generated. *)
Definition convert_lease (job_id : GitCleanupJobId) (now : Z) (t : CleanupTables) (l : WorktreeProvisioningLease) :
    db CleanupTables :=
  t ← insert_jobs t [into_cleanup_job l job_id now];
  Ok (with_leases t (delete (ls_id l) (ct_leases t))).

(** [WHERE lease_expires_at < now ORDER BY lease_expires_at, id] *)
Definition expires_before (p q : WorktreeProvisioningLease) : Prop :=
  cmp_pair Z.compare str_cmp (ls_lease_expires_at p, ls_id p) (ls_lease_expires_at q, ls_id q) <> Gt.
#[export] Instance expires_before_dec : RelDecision expires_before.
Proof. intros p q. unfold expires_before. apply _. Defined.
Definition expired_leases (now : Z) (t : CleanupTables) : list WorktreeProvisioningLease :=
  merge_sort expires_before (filter (fun l => ls_lease_expires_at l < now) (map_to_list (ct_leases t)).*2).
Definition reclaim_expired_leases (job_id_for : WorktreeProvisioningLeaseId -> GitCleanupJobId) (now : Z)
    (t : CleanupTables) : db CleanupTables :=
  fold_result (fun t l => convert_lease (job_id_for (ls_id l)) now t l) t (expired_leases now t).

Definition release_to_cleanup (job_id : GitCleanupJobId) (lease_id : WorktreeProvisioningLeaseId) (now : Z)
    (t : CleanupTables) : db CleanupTables :=
  match ct_leases t !! lease_id with
  | Some l => convert_lease job_id now t l
  | None => Ok t
  end.

(** ** Laws *)

Lemma state_roundtrip s : from_database_value (database_value s) = Ok s.
Proof. by destruct s. Qed.
Lemma job_row_roundtrip j : map_job_row (job_columns j) = Ok j.
Proof. unfold map_job_row; simpl. rewrite state_roundtrip. by destruct j. Qed.

(** The stored error text is bounded, whatever the cleaner reports. *)
Lemma truncated_bounded error :
  (chars_count (truncate_cleanup_error error) <= N.of_nat MAX_CLEANUP_JOB_ERROR_CHARS)%N.
Proof.
  unfold truncate_cleanup_error. destruct (N.ltb_spec (N.of_nat MAX_CLEANUP_JOB_ERROR_CHARS) (chars_count error)).
  - apply chars_count_take.
  - done.
Qed.

(** Only two confirmed removals complete a job; losing the ownership stops it. *)
Lemma reduce_completed wt br :
  reduce_cleanup_outcomes wt br = DispositionCompleted <->
  (exists w, wt = Ok w /\ w <> OwnershipLost) /\ (exists b, br = Ok b).
Proof. destruct wt as [[]|], br; simpl; naive_solver. Qed.
Lemma reduce_manual wt br :
  (exists reason, reduce_cleanup_outcomes wt br = DispositionManualAttention reason) <-> wt = Ok OwnershipLost.
Proof. destruct wt as [[]|], br; simpl; naive_solver. Qed.

(** *** Rows *)

Lemma lookup_update_pending id f t id' :
  ct_jobs (update_pending id f t) !! id' =
    (if decide (id = id') then (fun j => if is_pending j then f j else j) <$> ct_jobs t !! id' else ct_jobs t !! id').
Proof. unfold update_pending; simpl. destruct (decide (id = id')) as [->|]; [by rewrite lookup_alter_eq|by rewrite lookup_alter_ne]. Qed.

Lemma elem_of_job_rows t j : j ∈ job_rows t <-> exists id, ct_jobs t !! id = Some j.
Proof.
  unfold job_rows. rewrite list_elem_of_fmap. split.
  - intros ([id j'] & -> & H%elem_of_map_to_list). by exists id.
  - intros [id H]. exists (id, j). by rewrite elem_of_map_to_list.
Qed.

(** The rows are stored under their identifiers. *)
Definition jobs_keyed (t : CleanupTables) : Prop := forall id j, ct_jobs t !! id = Some j -> jb_id j = id.
Definition leases_keyed (t : CleanupTables) : Prop := forall id l, ct_leases t !! id = Some l -> ls_id l = id.

Lemma job_ids_NoDup t : jobs_keyed t -> NoDup (jb_id <$> job_rows t).
Proof.
  intros Hk. unfold job_rows. rewrite <- list_fmap_compose.
  rewrite (list_fmap_ext _ fst); [apply NoDup_fst_map_to_list|].
  intros i [id j] H. simpl. apply Hk. apply elem_of_map_to_list. by eapply list_elem_of_lookup_2.
Qed.

Lemma elem_of_due_jobs now limit t j :
  j ∈ due_jobs now limit t -> due now j = true /\ j ∈ job_rows t.
Proof.
  intros H%elem_of_take. destruct H as (i & H & _). apply list_elem_of_lookup_2 in H.
  rewrite merge_sort_Permutation in H. by apply list_elem_of_filter in H.
Qed.
Lemma due_jobs_all now limit t j :
  (length (due_jobs now limit t) < limit)%nat -> due now j = true -> j ∈ job_rows t -> j ∈ due_jobs now limit t.
Proof.
  unfold due_jobs. rewrite length_take. intros Hlen Hd Hj. rewrite take_ge by lia.
  rewrite merge_sort_Permutation. by apply list_elem_of_filter.
Qed.
Lemma due_jobs_ids_NoDup now limit t : jobs_keyed t -> NoDup (jb_id <$> due_jobs now limit t).
Proof.
  intros Hk. unfold due_jobs. rewrite fmap_take. eapply sublist_NoDup; [|apply sublist_take].
  rewrite merge_sort_Permutation. by apply NoDup_fmap_filter, job_ids_NoDup.
Qed.

(** ** Leases become jobs *)

Lemma convert_lease_spec job_id now t l t' :
  convert_lease job_id now t l = Ok t' ->
  ct_jobs t !! job_id = None /\ job_checks (into_cleanup_job l job_id now) = true
  /\ ct_jobs t' = <[job_id := into_cleanup_job l job_id now]> (ct_jobs t)
  /\ ct_leases t' = delete (ls_id l) (ct_leases t).
Proof.
  unfold convert_lease, insert_jobs, insert_job_row, require. cbn [fold_result]. intros H. inv_ok.
  apply negb_false_iff in Hx1, Hx2. apply bool_decide_eq_true in Hx1. done.
Qed.

(** What reclaiming some leases has done so far. *)
Record reclaimed (now : Z) (t : CleanupTables) (done_ : list WorktreeProvisioningLease) (t' : CleanupTables) : Prop := {
  rd_jobs : forall id j, ct_jobs t !! id = Some j -> ct_jobs t' !! id = Some j;
  rd_new : forall id j, ct_jobs t' !! id = Some j -> ct_jobs t !! id = Some j
             \/ (exists l, l ∈ done_ /\ j = into_cleanup_job l id now);
  rd_done : forall l, l ∈ done_ -> ct_leases t' !! ls_id l = None
             /\ exists id, ct_jobs t' !! id = Some (into_cleanup_job l id now);
  rd_kept : forall id, id ∉ (ls_id <$> done_) -> ct_leases t' !! id = ct_leases t !! id;
}.
Lemma reclaimed_nil now t : reclaimed now t [] t.
Proof. split; [done|auto|by intros l ?%elem_of_nil|done]. Qed.
Lemma reclaimed_step now t done_ t1 l job_id t2 :
  reclaimed now t done_ t1 -> convert_lease job_id now t1 l = Ok t2 -> reclaimed now t (done_ ++ [l]) t2.
Proof.
  intros [Hj Hn Hd Hk] (Hfree & _ & Hjobs & Hleases)%convert_lease_spec. split.
  - intros id j H. rewrite Hjobs, lookup_insert_ne; [by apply Hj|]. intros ->. apply Hj in H. congruence.
  - intros id j. rewrite Hjobs. intros [[<- <-]|[_ H]]%lookup_insert_Some.
    + right. exists l. split; [apply elem_of_app; right; by left|done].
    + destruct (Hn _ _ H) as [|(l' & Hl' & ->)]; [by left|]. right. exists l'. split; [by apply elem_of_app; left|done].
  - intros l' Hl'. rewrite Hjobs, Hleases. apply elem_of_app in Hl' as [Hl'| ->%list_elem_of_singleton].
    + destruct (Hd _ Hl') as [Hgone (id & Hid)]. split.
      * destruct (decide (ls_id l = ls_id l')) as [->|]; [by rewrite lookup_delete_eq|by rewrite lookup_delete_ne].
      * exists id. rewrite lookup_insert_ne; [done|]. intros ->. congruence.
    + split; [by rewrite lookup_delete_eq|]. exists job_id. by rewrite lookup_insert_eq.
  - intros id Hid. rewrite fmap_app in Hid. apply not_elem_of_app in Hid as [Hid Hne].
    rewrite Hleases, lookup_delete_ne; [by apply Hk|]. intros <-. apply Hne. by left.
Qed.
Lemma elem_of_expired now t l :
  l ∈ expired_leases now t <-> (exists id, ct_leases t !! id = Some l) /\ ls_lease_expires_at l < now.
Proof.
  unfold expired_leases. rewrite merge_sort_Permutation, list_elem_of_filter, list_elem_of_fmap. split.
  - intros (H & [id l'] & -> & Hin%elem_of_map_to_list). split; [by exists id|done].
  - intros ([id Hl] & H). split; [done|]. exists (id, l). by rewrite elem_of_map_to_list.
Qed.
Lemma reclaim_reclaimed job_id_for now t t' :
  reclaim_expired_leases job_id_for now t = Ok t' -> reclaimed now t (expired_leases now t) t'.
Proof.
  intros H. eapply (fold_result_inv (fun done_ t' => reclaimed now t done_ t')); [apply reclaimed_nil| |exact H].
  intros done_ l t1 t2 Hr _ Hc. exact (reclaimed_step _ _ _ _ _ _ _ Hr Hc).
Qed.

(** Reclaiming is all or nothing and loses no target: every lease that expired is gone and a pending job names its
    repository, checkout and branch; every other lease, and every job that was there, is as before. *)
Theorem reclaim_moves_expired_leases job_id_for now t t' :
  leases_keyed t -> reclaim_expired_leases job_id_for now t = Ok t' ->
  (forall id l, ct_leases t !! id = Some l ->
     if ls_lease_expires_at l <? now
     then ct_leases t' !! id = None /\ (exists job_id, ct_jobs t' !! job_id = Some (into_cleanup_job l job_id now))
     else ct_leases t' !! id = Some l)
  /\ (forall id j, ct_jobs t !! id = Some j -> ct_jobs t' !! id = Some j).
Proof.
  intros Hkey H. apply reclaim_reclaimed in H as [Hj _ Hd Hk]. split; [|done]. intros id l Hl.
  destruct (Z.ltb_spec (ls_lease_expires_at l) now) as [Hlt|Hge].
  - rewrite <- (Hkey _ _ Hl). apply Hd, elem_of_expired. eauto.
  - rewrite Hk; [done|]. intros (l' & Heq & [[id' Hl'] Hlt]%elem_of_expired)%list_elem_of_fmap.
    rewrite <- (Hkey _ _ Hl'), <- Heq in Hl'. assert (l = l') by congruence. subst. lia.
Qed.

Definition sample_lease : WorktreeProvisioningLease :=
  new_lease "lease-1" "project-1" "1c56dee5-4d3f-4f83-bb47-6d9d0dbf5b1a" "/repo" "/worktrees/1c56dee5" "ora/1c56dee5" 600 0.
Definition sample_leases : CleanupTables := {| ct_jobs := ∅; ct_leases := {["lease-1" := sample_lease]} |}.
Definition sample_reclaimed : CleanupTables :=
  {| ct_jobs := {["job-lease-1" := into_cleanup_job sample_lease "job-lease-1" 700]}; ct_leases := ∅ |}.
Lemma sample_leases_keyed : leases_keyed sample_leases.
Proof. unfold leases_keyed, sample_leases; cbn [ct_leases]. by intros id l [<- <-]%lookup_singleton_Some. Qed.
Lemma reclaim_moves_expired_leases_witness :
  ct_leases sample_reclaimed !! "lease-1" = None
  /\ exists job_id, ct_jobs sample_reclaimed !! job_id = Some (into_cleanup_job sample_lease job_id 700).
Proof.
  apply (proj1 (reclaim_moves_expired_leases (fun id => "job-" +:+ id) 700 sample_leases sample_reclaimed
    sample_leases_keyed ltac:(vm_compute; reflexivity)) "lease-1" sample_lease).
  apply lookup_singleton_eq.
Defined.
