(* ===== verification/GitWorker.v ===== *)
(** * The cleanup worker ([crates/backend/src/git_cleanup.rs])

    One pass reclaims expired leases, purges old jobs and executes the due ones.  The cleaner, the clock
    and the outcome of each database operation are parameters; the locks a job holds while it runs are in
    KeyedLocks. *)

From S2P Require Import Prelude RustStr Order ScheduledTask Gitlancer GitCleanup.
Local Open Scope ora_scope.
Local Open Scope Z_scope.

Definition JOB_BATCH_SIZE : nat := 16.
Definition MAX_JOB_ATTEMPTS : Z := 5.
Definition RETRY_BACKOFF_MS : list Z := [60000; 300000; 1800000; 7200000; 43200000].
Definition COMPLETED_RETENTION_MS : Z := 30 * 24 * 60 * 60 * 1000.

(** ** What the worker calls *)

Inductive PanicPayload : Type := PanicStr (message : string) | PanicString (message : string) | PanicOther.
Inductive unwound (A : Type) : Type := Returned (value : A) | Panicked (payload : PanicPayload).
Arguments Returned {A} value.
Arguments Panicked {A} payload.
Definition panic_message (p : PanicPayload) : string :=
  match p with PanicStr m | PanicString m => m | PanicOther => "non-string panic payload" end.

(** [TaskGitResourceCleaner] over a world of repositories and directories. *)
Class TaskGitResourceCleaner (World : Type) := {
  remove_worktree : RemoveTaskWorktreeRequest -> World -> unwound (result GitCleanupError WorktreeRemoval) * World;
  remove_branch : RemoveTaskBranchRequest -> World -> unwound (result GitCleanupError ResourceRemoval) * World;
}.

(** The clock, whether the database answers a read or a write, the generated identifiers, the canonical key of a
    repository root, and the configured worktree root ([None] when its lock is poisoned).  Clock readings
    and database operations are numbered. *)
Class WorkerEnvironment := {
  clock_at : nat -> Z;
  database_reads : nat -> bool;
  database_writes : nat -> bool;
  new_job_id : nat -> WorktreeProvisioningLeaseId -> GitCleanupJobId;
  normalize_repository_key : string -> string;
  configured_worktree_root : option string;
  (** The order in which the threads of a batch take its jobs. *)
  dispatch_order : list GitCleanupJob -> list GitCleanupJob;
}.
Section grouping.
Context {environment : WorkerEnvironment}.
Definition repository_key (j : GitCleanupJob) : string := normalize_repository_key (jb_repository_root j).
Definition group_of (key : string) (jobs : list GitCleanupJob) : list GitCleanupJob :=
  filter (fun j => repository_key j = key) jobs.
Definition group_jobs (jobs : list GitCleanupJob) : list (list GitCleanupJob) :=
  (fun key => group_of key jobs) <$> remove_dups (repository_key <$> jobs).
(** The threads take every job once, and the jobs of one group one after the other. *)
Class FairDispatch : Prop := {
  dispatch_perm jobs : dispatch_order jobs ≡ₚ jobs;
  dispatch_serial key jobs : group_of key (dispatch_order jobs) = group_of key jobs;
}.
End grouping.

Section worker.
Context {World : Type} {cleaner : TaskGitResourceCleaner World} {environment : WorkerEnvironment} {uuids : UuidText}.

Record WorkerState : Type := {
  wk_world : World;
  wk_tables : CleanupTables;
  (** The number of clock readings and database operations so far. *)
  wk_tick : nat;
}.
Definition with_tables (t : CleanupTables) (s : WorkerState) : WorkerState :=
  {| wk_world := wk_world s; wk_tables := t; wk_tick := wk_tick s |}.
Definition ticked (s : WorkerState) : WorkerState :=
  {| wk_world := wk_world s; wk_tables := wk_tables s; wk_tick := S (wk_tick s) |}.
Definition now_timestamp_millis (s : WorkerState) : Z * WorkerState := (clock_at (wk_tick s), ticked s).

(** [record]: a transition that fails is logged. *)
Definition record (transition : Z -> CleanupTables -> CleanupTables) (s : WorkerState) : WorkerState :=
  let '(now, s) := now_timestamp_millis s in
  let ok := database_writes (wk_tick s) in
  let s := ticked s in
  if ok then with_tables (transition now (wk_tables s)) s else s.

(** The removal of both resources inside [catch_unwind]. *)
Definition execute_removals (job : GitCleanupJob) (w : World) :
    unwound (result GitCleanupError WorktreeRemoval * result GitCleanupError ResourceRemoval) * World :=
  let legacy_probe :=
    match configured_worktree_root with
    | Some root => if bool_decide (jb_checkout_root job = None) then Some (legacy_checkout_probe root job) else None
    | None => None
    end in
  let '(worktree, w) := remove_worktree
    {| wq_repository_root := jb_repository_root job; wq_branch_name := jb_branch_name job;
       wq_checkout_root := jb_checkout_root job; wq_legacy_checkout_probe := legacy_probe |} w in
  match worktree with
  | Panicked p => (Panicked p, w)
  | Returned worktree =>
      let '(branch, w) := remove_branch
        {| bq_repository_root := jb_repository_root job; bq_branch_name := jb_branch_name job |} w in
      match branch with
      | Panicked p => (Panicked p, w)
      | Returned branch => (Returned (worktree, branch), w)
      end
  end.

Definition disposition
    (executed : unwound (result GitCleanupError WorktreeRemoval * result GitCleanupError ResourceRemoval)) :
    CleanupJobDisposition :=
  match executed with
  | Returned (worktree, branch) => reduce_cleanup_outcomes worktree branch
  | Panicked p => DispositionRetry ("cleaner panicked: " +:+ panic_message p)
  end.

(** [RETRY_BACKOFF_MS[(failed_attempts as usize - 1).min(len - 1)]] *)
Definition backoff (failed_attempts : Z) : Z :=
  default 0 (RETRY_BACKOFF_MS !! Nat.min (Z.to_nat failed_attempts - 1) (length RETRY_BACKOFF_MS - 1)).

Definition settle_job (job : GitCleanupJob) (d : CleanupJobDisposition) : Z -> CleanupTables -> CleanupTables :=
  match d with
  | DispositionCompleted => mark_completed (jb_id job)
  | DispositionRetry error =>
      let failed_attempts := jb_attempts job + 1 in
      if MAX_JOB_ATTEMPTS <=? failed_attempts then mark_manual_attention (jb_id job) error
      else fun now => record_retryable_failure (jb_id job) error (now + backoff failed_attempts) now
  | DispositionManualAttention reason => mark_manual_attention (jb_id job) reason
  end.

Definition execute_job (job : GitCleanupJob) (s : WorkerState) : WorkerState :=
  match validate_cleanup_identity job with
  | Err reason => record (mark_manual_attention (jb_id job) reason) s
  | Ok _ =>
      let '(executed, w) := execute_removals job (wk_world s) in
      record (settle_job job (disposition executed)) {| wk_world := w; wk_tables := wk_tables s; wk_tick := wk_tick s |}
  end.

Definition execute_jobs (jobs : list GitCleanupJob) (s : WorkerState) : WorkerState :=
  fold_left (fun s job => execute_job job s) jobs s.
(** A single group runs inline, in order; several are taken by the threads. *)
Definition execute_batch (jobs : list GitCleanupJob) (s : WorkerState) : WorkerState :=
  match group_jobs jobs with
  | [group] => execute_jobs group s
  | _ => execute_jobs (dispatch_order jobs) s
  end.

(** The loop of a pass, on fuel. *)
Fixpoint execute_due (fuel : nat) (s : WorkerState) : option WorkerState :=
  match fuel with
  | O => None
  | S fuel =>
      let '(now, s) := now_timestamp_millis s in
      let ok := database_reads (wk_tick s) in
      let s := ticked s in
      if negb ok then Some s
      else
        let jobs := due_jobs now JOB_BATCH_SIZE (wk_tables s) in
        if bool_decide (jobs = []) then Some s
        else
          let s := execute_batch jobs s in
          if (length jobs <? JOB_BATCH_SIZE)%nat then Some s else execute_due fuel s
  end.

(** Failing to reclaim or to purge is logged; a reclaim that fails rolls back. *)
Definition reclaim (now : Z) (s : WorkerState) : WorkerState :=
  let ok := database_writes (wk_tick s) in
  let s := ticked s in
  if ok
  then match reclaim_expired_leases (new_job_id (wk_tick s)) now (wk_tables s) with
       | Ok t => with_tables t s
       | Err _ => s
       end
  else s.
Definition purge_completed (now : Z) (s : WorkerState) : WorkerState :=
  let ok := database_writes (wk_tick s) in
  let s := ticked s in
  if ok then with_tables (purge_completed_before (now - COMPLETED_RETENTION_MS) (wk_tables s)).2 s else s.

Definition run_pass (fuel : nat) (s : WorkerState) : option WorkerState :=
  let '(now, s) := now_timestamp_millis s in
  execute_due fuel (purge_completed now (reclaim now s)).
End worker.
Arguments WorkerState World : clear implicits.

(** ** The life of a job *)

Section laws.
Context {World : Type} {cleaner : TaskGitResourceCleaner World} {environment : WorkerEnvironment} {uuids : UuidText}.
Implicit Types (s : WorkerState World).

(** What one execution does to the row of its job. *)
Inductive job_step (j : GitCleanupJob) : GitCleanupJob -> Prop :=
| job_completes now : jb_state j = JobPending -> job_step j (completed_job now j)
| job_retries error delay now : jb_state j = JobPending -> jb_attempts j + 1 < MAX_JOB_ATTEMPTS -> 60000 <= delay ->
    job_step j (failed_job JobPending (truncate_cleanup_error error) (now + delay) now j)
| job_parks error now : jb_state j = JobPending ->
    job_step j (failed_job JobManualAttention (truncate_cleanup_error error) (jb_next_attempt_at j) now j).

Lemma is_pending_true j : is_pending j = true <-> jb_state j = JobPending.
Proof. apply bool_decide_eq_true. Qed.

Lemma backoff_at_least n : 1 <= n -> 60000 <= backoff n.
Proof.
  intros Hn. unfold backoff. cbn [length RETRY_BACKOFF_MS].
  assert (Hi : (Nat.min (Z.to_nat n - 1) (5 - 1) < 5)%nat) by lia.
  destruct (Nat.min (Z.to_nat n - 1) (5 - 1)) as [|[|[|[|[|]]]]]; simpl; lia.
Qed.

Lemma settle_job_step job d now t :
  0 <= jb_attempts job -> jb_state job = JobPending -> ct_jobs t !! jb_id job = Some job ->
  exists j', ct_jobs (settle_job job d now t) !! jb_id job = Some j' /\ job_step job j'.
Proof.
  intros Ha Hp Hrow. pose proof (proj2 (is_pending_true _) Hp) as Hp'.
  unfold settle_job, mark_completed, record_retryable_failure, mark_manual_attention.
  destruct d; [|destruct (Z.leb_spec MAX_JOB_ATTEMPTS (jb_attempts job + 1))|];
    rewrite lookup_update_pending, decide_True by done; rewrite Hrow; simpl; rewrite Hp'; eexists; split; try done.
  - by constructor.
  - by constructor.
  - constructor; [done|done|]. apply backoff_at_least. lia.
  - by constructor.
Qed.
Lemma settle_job_other job d now t id : jb_id job <> id -> ct_jobs (settle_job job d now t) !! id = ct_jobs t !! id.
Proof.
  intros Hne. unfold settle_job, mark_completed, record_retryable_failure, mark_manual_attention.
  destruct d; [|destruct (MAX_JOB_ATTEMPTS <=? _)|]; by rewrite lookup_update_pending, decide_False.
Qed.
Lemma settle_job_leases job d now t : ct_leases (settle_job job d now t) = ct_leases t.
Proof. unfold settle_job. destruct d; [|destruct (MAX_JOB_ATTEMPTS <=? _)|]; done. Qed.

(** How a job is settled: by its identity, or by what the removals answered. *)
Definition job_verdict (job : GitCleanupJob) (w : World) : CleanupJobDisposition * World :=
  match validate_cleanup_identity job with
  | Err reason => (DispositionManualAttention reason, w)
  | Ok _ => let '(executed, w) := execute_removals job w in (disposition executed, w)
  end.
Lemma execute_job_verdict job s :
  execute_job job s =
    record (settle_job job (job_verdict job (wk_world s)).1)
      {| wk_world := (job_verdict job (wk_world s)).2; wk_tables := wk_tables s; wk_tick := wk_tick s |}.
Proof.
  unfold execute_job, job_verdict. destruct (validate_cleanup_identity job); [|by destruct s].
  by destruct (execute_removals job (wk_world s)).
Qed.
Lemma execute_job_tables job s :
  let s' := execute_job job s in
  wk_tick s' = S (S (wk_tick s))
  /\ wk_tables s' = if database_writes (S (wk_tick s))
                    then settle_job job (job_verdict job (wk_world s)).1 (clock_at (wk_tick s)) (wk_tables s)
                    else wk_tables s.
Proof. rewrite execute_job_verdict. unfold record; simpl. by destruct (database_writes _). Qed.

(** The rows of a batch are still those that were read. *)
Definition batch_ready (t : CleanupTables) (jobs : list GitCleanupJob) : Prop :=
  NoDup (jb_id <$> jobs)
  /\ forall job, job ∈ jobs -> ct_jobs t !! jb_id job = Some job /\ jb_state job = JobPending /\ 0 <= jb_attempts job.
Lemma batch_ready_perm t jobs jobs' : jobs ≡ₚ jobs' -> batch_ready t jobs -> batch_ready t jobs'.
Proof. intros Hp [Hnd Hr]. split; [by rewrite <- Hp|]. intros job Hj. apply Hr. by rewrite Hp. Qed.

Lemma execute_job_rows job s :
  batch_ready (wk_tables s) [job] ->
  let t' := wk_tables (execute_job job s) in
  ct_leases t' = ct_leases (wk_tables s)
  /\ (forall id, id <> jb_id job -> ct_jobs t' !! id = ct_jobs (wk_tables s) !! id)
  /\ exists j', ct_jobs t' !! jb_id job = Some j' /\ (j' = job \/ job_step job j')
       /\ (database_writes (S (wk_tick s)) = true -> job_step job j').
Proof.
  intros [_ Hr] t'. destruct (Hr job) as (Hrow & Hp & Ha); [by left|].
  destruct (execute_job_tables job s) as [_ Ht]. fold t' in Ht.
  destruct (database_writes (S (wk_tick s))) eqn:Hw.
  - destruct (settle_job_step job (job_verdict job (wk_world s)).1 (clock_at (wk_tick s)) (wk_tables s) Ha Hp Hrow)
      as (j' & Hj' & Hstep). rewrite Ht. split_and!; [apply settle_job_leases| |by eauto].
    intros id Hne. by apply settle_job_other.
  - rewrite Ht. split_and!; [done..|]. exists job. split_and!; [done|by left|done].
Qed.

Lemma execute_jobs_rows jobs s :
  batch_ready (wk_tables s) jobs ->
  let t' := wk_tables (execute_jobs jobs s) in
  ct_leases t' = ct_leases (wk_tables s)
  /\ (forall id, id ∉ (jb_id <$> jobs) -> ct_jobs t' !! id = ct_jobs (wk_tables s) !! id)
  /\ forall job, job ∈ jobs ->
       exists j', ct_jobs t' !! jb_id job = Some j' /\ (j' = job \/ job_step job j')
         /\ ((forall n, database_writes n = true) -> job_step job j').
Proof.
  revert s. induction jobs as [|job jobs IH]; intros s [Hnd Hrows] t'.
  { split_and!; [done..|]. by intros job ?%elem_of_nil. }
  revert Hnd. csimpl. intros [Hni Hnd]%NoDup_cons.
  assert (Hone : batch_ready (wk_tables s) [job]).
  { split; [apply NoDup_singleton|]. intros j ->%list_elem_of_singleton. apply Hrows. by left. }
  destruct (execute_job_rows job s Hone) as (Hl1 & Ho1 & (j1 & Hj1 & Hs1 & Hw1)).
  destruct (IH (execute_job job s)) as (Hl2 & Ho2 & Hr2).
  { split; [done|]. intros j Hj. rewrite Ho1; [by apply Hrows; right|].
    intros Heq. apply Hni. rewrite <- Heq. by apply list_elem_of_fmap_2. }
  unfold t'. cbn [execute_jobs fold_left]. split_and!.
  - etransitivity; [exact Hl2|exact Hl1].
  - intros id Hid. apply not_elem_of_cons in Hid as [Hne Hid]. etransitivity; [by apply Ho2|by apply Ho1].
  - intros j [->|Hj]%elem_of_cons; [|by apply Hr2].
    exists j1. split_and!; [|done|auto]. etransitivity; [by apply Ho2|done].
Qed.

Lemma filter_Forall_id {A} (P : A -> Prop) `{!forall x, Decision (P x)} l : Forall P l -> filter P l = l.
Proof. induction 1 as [|x l Hx Hl IH]; [done|]. by rewrite filter_cons, decide_True, IH. Qed.
Lemma single_group jobs group : group_jobs jobs = [group] -> group = jobs.
Proof.
  unfold group_jobs. destruct (remove_dups (repository_key <$> jobs)) as [|k [|]] eqn:E; simpl; [done| |done].
  intros [= <-]. unfold group_of. apply filter_Forall_id, Forall_forall. intros j Hj.
  assert (Hk : repository_key j ∈ remove_dups (repository_key <$> jobs)) by (by apply elem_of_remove_dups, list_elem_of_fmap_2).
  rewrite E in Hk. by apply list_elem_of_singleton in Hk.
Qed.
Lemma execute_batch_order {fair : FairDispatch} jobs s : exists order, order ≡ₚ jobs /\ execute_batch jobs s = execute_jobs order s.
Proof.
  unfold execute_batch. destruct (group_jobs jobs) as [|group [|]] eqn:E.
  1, 3: exists (dispatch_order jobs); split; [apply dispatch_perm|done].
  exists group. split; [|done]. by rewrite (single_group _ _ E).
Qed.
Lemma execute_batch_rows {fair : FairDispatch} jobs s :
  batch_ready (wk_tables s) jobs ->
  let t' := wk_tables (execute_batch jobs s) in
  ct_leases t' = ct_leases (wk_tables s)
  /\ (forall id, id ∉ (jb_id <$> jobs) -> ct_jobs t' !! id = ct_jobs (wk_tables s) !! id)
  /\ forall job, job ∈ jobs ->
       exists j', ct_jobs t' !! jb_id job = Some j' /\ (j' = job \/ job_step job j')
         /\ ((forall n, database_writes n = true) -> job_step job j').
Proof.
  intros Hready t'. unfold t'. destruct (execute_batch_order jobs s) as (order & Hp & ->).
  destruct (execute_jobs_rows order s (batch_ready_perm _ _ _ (symmetry Hp) Hready)) as (H1 & H2 & H3).
  split_and!; [done| |].
  - intros id Hid. apply H2. by rewrite Hp.
  - intros job Hj. apply H3. by rewrite Hp.
Qed.

(** ** The invariant of the tables *)

Record job_ok (j : GitCleanupJob) : Prop := {
  jk_attempts : 0 <= jb_attempts j <= MAX_JOB_ATTEMPTS;
  jk_pending : jb_state j = JobPending -> jb_attempts j < MAX_JOB_ATTEMPTS;
  jk_error : forall e, jb_last_error j = Some e -> (chars_count e <= N.of_nat MAX_CLEANUP_JOB_ERROR_CHARS)%N;
}.
Record tables_ok (t : CleanupTables) : Prop := {
  tk_jobs_keyed : jobs_keyed t;
  tk_leases_keyed : leases_keyed t;
  tk_jobs : forall id j, ct_jobs t !! id = Some j -> job_ok j;
}.

Lemma job_step_id j j' : job_step j j' -> jb_id j' = jb_id j.
Proof. by intros [now|error delay now|error now]. Qed.
Lemma job_step_ok j j' : job_step j j' -> job_ok j -> job_ok j'.
Proof.
  unfold MAX_JOB_ATTEMPTS. intros Hs [[Ha1 Ha2] Hp He]. unfold MAX_JOB_ATTEMPTS in *.
  destruct Hs as [now Hpend|error delay now Hpend Hlt Hd|error now Hpend]; specialize (Hp Hpend);
    split; unfold MAX_JOB_ATTEMPTS; simpl; try lia; try done; by intros e [= <-]; apply truncated_bounded.
Qed.
Lemma job_step_pending j j' : job_step j j' -> jb_state j = JobPending.
Proof. by intros []. Qed.
(** A step uses up an attempt or ends the job. *)
Lemma job_step_progress j j' : job_step j j' -> jb_state j' <> JobPending \/ jb_attempts j' = jb_attempts j + 1.
Proof. intros [now|error delay now|error now]; simpl; auto. Qed.

Lemma due_ready now limit t : tables_ok t -> batch_ready t (due_jobs now limit t).
Proof.
  intros [Hk _ Hj]. split; [by apply due_jobs_ids_NoDup|].
  intros job [Hd (id & Hrow)%elem_of_job_rows]%elem_of_due_jobs. rewrite (Hk _ _ Hrow).
  split_and!; [done| |]. { apply andb_true_iff in Hd as [Hp _]. by apply is_pending_true. }
  apply (Hj _ _ Hrow).
Qed.

Section batches.
Context {fair : FairDispatch}.

(** A batch leaves every row where it is or moves it one step; nothing appears or disappears. *)
Lemma batch_rows now limit s :
  tables_ok (wk_tables s) ->
  let jobs := due_jobs now limit (wk_tables s) in
  let t' := wk_tables (execute_batch jobs s) in
  ct_leases t' = ct_leases (wk_tables s)
  /\ forall id, match ct_jobs (wk_tables s) !! id with
                | None => ct_jobs t' !! id = None
                | Some j => exists j', ct_jobs t' !! id = Some j' /\ (j' = j \/ job_step j j')
                    /\ (j ∈ jobs -> (forall n, database_writes n = true) -> job_step j j')
                end.
Proof.
  intros Hok jobs t'. destruct (execute_batch_rows jobs s (due_ready now limit _ Hok)) as (Hl & Ho & Hr).
  split; [done|]. intros id. destruct (decide (id ∈ (jb_id <$> jobs))) as [Hin|Hni].
  - apply list_elem_of_fmap in Hin as (job & -> & Hin). destruct (Hr job Hin) as (j' & Hj' & Hs & Hw).
    rewrite (proj1 (proj2 (due_ready now limit _ Hok) job Hin)). by exists j'; auto.
  - rewrite <- (Ho id Hni). fold t'. destruct (ct_jobs t' !! id) as [j|] eqn:E; [|done].
    exists j. split_and!; [done|by left|]. intros Hj. exfalso. apply Hni.
    rewrite <- (tk_jobs_keyed _ Hok id j); [by apply list_elem_of_fmap_2|]. by rewrite <- (Ho id Hni).
Qed.
Lemma batch_ok now limit s :
  tables_ok (wk_tables s) -> tables_ok (wk_tables (execute_batch (due_jobs now limit (wk_tables s)) s)).
Proof.
  intros Hok. destruct (batch_rows now limit s Hok) as (Hl & Hr).
  assert (Hback : forall id j', ct_jobs (wk_tables (execute_batch (due_jobs now limit (wk_tables s)) s)) !! id = Some j' ->
    exists j, ct_jobs (wk_tables s) !! id = Some j /\ (j' = j \/ job_step j j')).
  { intros id j' Hj'. specialize (Hr id). destruct (ct_jobs (wk_tables s) !! id) as [j|]; [|congruence].
    destruct Hr as (j2 & H2 & Hs & _). rewrite Hj' in H2. injection H2 as ->. by exists j. }
  destruct Hok as [Hk Hlk Hj]. split.
  - intros id j' (j & Hrow & [->|Hs])%Hback; [by apply Hk|]. rewrite (job_step_id _ _ Hs). by apply Hk.
  - intros id l. rewrite Hl. apply Hlk.
  - intros id j' (j & Hrow & [->|Hs])%Hback; [by eapply Hj|]. eapply job_step_ok, Hj; done.
Qed.

Definition ticked2 s : WorkerState World := ticked (ticked s).
(** One turn of the loop of a pass. *)
Lemma execute_due_S fuel s :
  execute_due (S fuel) s =
    let jobs := due_jobs (clock_at (wk_tick s)) JOB_BATCH_SIZE (wk_tables s) in
    if negb (database_reads (S (wk_tick s))) || bool_decide (jobs = []) then Some (ticked2 s)
    else let s' := execute_batch jobs (ticked2 s) in
         if (length jobs <? JOB_BATCH_SIZE)%nat then Some s' else execute_due fuel s'.
Proof. cbn [execute_due now_timestamp_millis]. by destruct (database_reads _). Qed.

(** A property of the tables that batches keep holds after the loop. *)
Lemma execute_due_keeps (P : CleanupTables -> Prop) fuel s s' :
  (forall now s, tables_ok (wk_tables s) -> P (wk_tables s) ->
     P (wk_tables (execute_batch (due_jobs now JOB_BATCH_SIZE (wk_tables s)) s))) ->
  tables_ok (wk_tables s) -> P (wk_tables s) -> execute_due fuel s = Some s' -> tables_ok (wk_tables s') /\ P (wk_tables s').
Proof.
  intros Hkeep. revert s. induction fuel as [|fuel IH]; intros s Hok HP; [done|].
  rewrite execute_due_S. cbv zeta. destruct (negb _ || _); [by intros [= <-]|].
  pose proof (batch_ok (clock_at (wk_tick s)) JOB_BATCH_SIZE (ticked2 s) Hok) as Hok'.
  pose proof (Hkeep (clock_at (wk_tick s)) (ticked2 s) Hok HP) as HP'.
  destruct (_ <? _)%nat; [by intros [= <-]|]. by apply IH.
Qed.

(** *** Rows over a pass *)

(** Every row advances by steps of its own; only a row that completed may disappear. *)
Definition rows_follow (t t' : CleanupTables) : Prop :=
  forall id j, ct_jobs t !! id = Some j ->
    exists j', rtc job_step j j'
      /\ match ct_jobs t' !! id with Some j2 => j2 = j' | None => jb_state j' = JobCompleted end.
Lemma rows_follow_refl t : rows_follow t t.
Proof. intros id j Hj. exists j. rewrite Hj. split; [apply rtc_refl|done]. Qed.
Lemma terminal_stays j j' : rtc job_step j j' -> jb_state j <> JobPending -> j' = j.
Proof. intros Hs Hn. inversion Hs as [|? j1 ? H1]; [done|]. exfalso. apply Hn. by eapply job_step_pending. Qed.
Lemma batch_follows now limit s :
  tables_ok (wk_tables s) -> rows_follow (wk_tables s) (wk_tables (execute_batch (due_jobs now limit (wk_tables s)) s)).
Proof.
  intros Hok id j Hj. destruct (batch_rows now limit s Hok) as (_ & Hr). specialize (Hr id). rewrite Hj in Hr.
  destruct Hr as (j' & -> & Hs & _). exists j'. split; [|done]. destruct Hs as [->|Hs]; [apply rtc_refl|by apply rtc_once].
Qed.
(** Rows that stay in the table keep advancing. *)
Lemma follow_batch now limit t s :
  tables_ok (wk_tables s) -> rows_follow t (wk_tables s) ->
  rows_follow t (wk_tables (execute_batch (due_jobs now limit (wk_tables s)) s)).
Proof.
  intros Hok Hf id j Hj. destruct (Hf id j Hj) as (j1 & H1 & Hm).
  destruct (batch_rows now limit s Hok) as (_ & Hr). specialize (Hr id).
  destruct (ct_jobs (wk_tables s) !! id) as [j2|]; [subst j2|by exists j1; rewrite Hr].
  destruct Hr as (j' & -> & Hs & _). exists j'. split; [|done]. destruct Hs as [->|Hs]; [done|].
  by eapply rtc_r.
Qed.

Lemma reclaimed_ok now t done_ t' :
  tables_ok t -> (forall l, l ∈ done_ -> exists id, ct_leases t !! id = Some l) -> reclaimed now t done_ t' -> tables_ok t'.
Proof.
  intros [Hk Hlk Hj] Hdone [Hold Hnew Hd Hkept]. split.
  - intros id j [H|(l & _ & ->)]%Hnew; [by apply Hk|done].
  - intros id l Hl. apply Hlk. destruct (decide (id ∈ (ls_id <$> done_))) as [Hin|Hni]; [|by rewrite <- Hkept].
    apply list_elem_of_fmap in Hin as (l' & -> & Hin). destruct (Hd _ Hin). congruence.
  - intros id j [H|(l & _ & ->)]%Hnew; [by eapply Hj|]. split; unfold MAX_JOB_ATTEMPTS; simpl; [lia|lia|done].
Qed.
Lemma reclaim_tables now s :
  tables_ok (wk_tables s) ->
  tables_ok (wk_tables (reclaim now s))
  /\ (forall id j, ct_jobs (wk_tables s) !! id = Some j -> ct_jobs (wk_tables (reclaim now s)) !! id = Some j).
Proof.
  intros Hok. unfold reclaim. cbv zeta. destruct (database_writes (wk_tick s)); [|done].
  destruct (reclaim_expired_leases _ now _) as [t'|] eqn:E; [|done]. cbn [wk_tables with_tables].
  apply reclaim_reclaimed in E. split; [|apply E].
  eapply reclaimed_ok; [exact Hok| |exact E]. intros l Hl. by apply elem_of_expired in Hl as [Hl _].
Qed.
Lemma purge_tables now s :
  tables_ok (wk_tables s) ->
  tables_ok (wk_tables (purge_completed now s))
  /\ forall id j, ct_jobs (wk_tables s) !! id = Some j ->
       match ct_jobs (wk_tables (purge_completed now s)) !! id with
       | Some j' => j' = j | None => jb_state j = JobCompleted
       end.
Proof.
  intros [Hk Hlk Hj]. unfold purge_completed. cbv zeta. destruct (database_writes (wk_tick s)).
  - cbn [wk_tables with_tables ticked]. split.
    + split; [intros id j [Hr _]%map_lookup_filter_Some; by apply Hk|exact Hlk|].
      intros id j [Hr _]%map_lookup_filter_Some. by eapply Hj.
    + intros id j Hr. cbn [purge_completed_before snd ct_jobs with_jobs].
      destruct (decide (purgeable (now - COMPLETED_RETENTION_MS) j)) as [Hp|Hp].
      * rewrite (proj2 (map_lookup_filter_None _ _ _)); [apply Hp|]. right. intros x Hx. assert (x = j) by congruence.
        subst x. simpl. tauto.
      * by rewrite (proj2 (map_lookup_filter_Some _ _ _ j)).
  - split; [by split|]. intros id j Hr. cbn [wk_tables ticked]. by rewrite Hr.
Qed.

(** Over a whole pass, whatever the cleaner, the clock and the database do, every job only moves along
    pending -> pending -> ... -> completed or manual attention: a job that is no longer pending never changes, only a
    completed one is ever removed, and the tables keep their bounds (fewer than five attempts while pending, at most
    five ever, error texts of at most 1024 characters). *)
Theorem pass_advances_jobs fuel s s' :
  tables_ok (wk_tables s) -> run_pass fuel s = Some s' ->
  tables_ok (wk_tables s')
  /\ (forall id j, ct_jobs (wk_tables s) !! id = Some j ->
        exists j', rtc job_step j j' /\ (jb_state j <> JobPending -> j' = j)
          /\ match ct_jobs (wk_tables s') !! id with Some j2 => j2 = j' | None => jb_state j' = JobCompleted end).
Proof.
  intros Hok. unfold run_pass. cbn [now_timestamp_millis]. intros Hrun.
  destruct (reclaim_tables (clock_at (wk_tick s)) (ticked s) Hok) as [Hok1 H1].
  destruct (purge_tables (clock_at (wk_tick s)) _ Hok1) as [Hok2 H2].
  apply (execute_due_keeps (rows_follow (wk_tables s))) in Hrun as [Hok' Hf]; [|intros; by apply follow_batch|exact Hok2|].
  - split; [done|]. intros id j Hj. destruct (Hf id j Hj) as (j' & Hs & Hm). exists j'. split_and!; [done| |done].
    by apply terminal_stays.
  - intros id j Hj. exists j. split; [apply rtc_refl|]. apply H1 in Hj. by apply H2 in Hj.
Qed.

(** ** A pass ends *)

Definition budget (j : GitCleanupJob) : nat := if is_pending j then Z.to_nat (MAX_JOB_ATTEMPTS - jb_attempts j) else 0.
Definition budget_at (t : CleanupTables) (id : string) : nat := default 0%nat (budget <$> ct_jobs t !! id).
(** The executions the jobs of the table have left. *)
Definition remaining (t : CleanupTables) : nat := sum_list (budget_at t <$> elements (dom (ct_jobs t))).

Lemma job_step_budget j j' : job_ok j -> job_step j j' -> (S (budget j') <= budget j)%nat.
Proof.
  intros [_ Hp _] Hs. specialize (Hp (job_step_pending _ _ Hs)). unfold budget.
  rewrite (proj2 (is_pending_true j)) by (by eapply job_step_pending). revert Hp. unfold MAX_JOB_ATTEMPTS.
  destruct Hs as [now|error delay now|error now]; intros; unfold is_pending; simpl; lia.
Qed.
Lemma sum_list_gap (f g : string -> nat) (picked : list string) l :
  NoDup l -> NoDup picked -> (forall x, x ∈ picked -> x ∈ l) ->
  (forall x, (g x <= f x)%nat) -> (forall x, x ∈ picked -> (S (g x) <= f x)%nat) ->
  (sum_list (g <$> l) + length picked <= sum_list (f <$> l))%nat.
Proof.
  intros Hl Hp Hin Hle Hlt.
  assert (Hlen : length picked = length (filter (fun x => x ∈ picked) l)).
  { apply Permutation_length, NoDup_Permutation; [done|by apply NoDup_filter|].
    intros x. rewrite list_elem_of_filter. split; [auto|by intros []]. }
  rewrite Hlen. clear Hlen Hin Hl Hp. induction l as [|x l IH]; [simpl; lia|]. csimpl. rewrite filter_cons.
  destruct (decide (x ∈ picked)) as [Hx|_]; [specialize (Hlt x Hx)|]; specialize (Hle x); simpl; lia.
Qed.
(** A batch uses up one execution per job. *)
Lemma batch_remaining now limit s :
  (forall n, database_writes n = true) -> tables_ok (wk_tables s) ->
  let jobs := due_jobs now limit (wk_tables s) in
  (remaining (wk_tables (execute_batch jobs s)) + length jobs <= remaining (wk_tables s))%nat.
Proof.
  intros Hwr Hok jobs. destruct (batch_rows now limit s Hok) as (_ & Hr). fold jobs in Hr.
  assert (Hdom : dom (ct_jobs (wk_tables (execute_batch jobs s))) = dom (ct_jobs (wk_tables s))).
  { apply set_eq. intros id. rewrite !elem_of_dom. specialize (Hr id).
    destruct (ct_jobs (wk_tables s) !! id) as [j|]; [destruct Hr as (j' & -> & _); by split|by rewrite Hr]. }
  unfold remaining. rewrite Hdom, <- (length_fmap jb_id jobs).
  assert (Hstep : forall id, (budget_at (wk_tables (execute_batch jobs s)) id <= budget_at (wk_tables s) id)%nat).
  { intros id. specialize (Hr id). unfold budget_at. destruct (ct_jobs (wk_tables s) !! id) as [j|] eqn:E; [|by rewrite Hr].
    destruct Hr as (j' & -> & [->|Hs] & _); simpl; [done|]. pose proof (job_step_budget _ _ (tk_jobs _ Hok _ _ E) Hs). lia. }
  apply sum_list_gap; [apply NoDup_elements|by apply due_jobs_ids_NoDup, tk_jobs_keyed| |done|].
  - intros id (job & -> & Hj)%list_elem_of_fmap. apply elem_of_elements, elem_of_dom.
    rewrite (proj1 (proj2 (due_ready now limit _ Hok) job Hj)). by eexists.
  - intros id (job & -> & Hj)%list_elem_of_fmap. specialize (Hr (jb_id job)). unfold budget_at.
    pose proof (proj1 (proj2 (due_ready now limit _ Hok) job Hj)) as E. rewrite E in Hr |- *.
    destruct Hr as (j' & -> & _ & Hs). simpl. apply job_step_budget; [by eapply (tk_jobs _ Hok)|by apply Hs].
Qed.

Lemma execute_jobs_tick jobs s : (wk_tick s <= wk_tick (execute_jobs jobs s))%nat.
Proof.
  revert s. induction jobs as [|job jobs IH]; intros s; [done|]. cbn [execute_jobs fold_left].
  pose proof (proj1 (execute_job_tables job s)). specialize (IH (execute_job job s)). unfold execute_jobs in IH. lia.
Qed.
Lemma execute_batch_tick jobs s : (wk_tick s <= wk_tick (execute_batch jobs s))%nat.
Proof. destruct (execute_batch_order jobs s) as (order & _ & ->). apply execute_jobs_tick. Qed.

(** The row of a job after at least one execution. *)
Definition attempted (j j' : GitCleanupJob) : Prop := jb_state j' <> JobPending \/ jb_attempts j < jb_attempts j'.
Lemma steps_attempts j j' : rtc job_step j j' -> jb_attempts j <= jb_attempts j'.
Proof. induction 1 as [|j j1 j2 Hs _ IH]; [lia|]. destruct Hs; simpl in *; lia. Qed.
Lemma steps_attempted j j1 j2 : job_step j j1 -> rtc job_step j1 j2 -> attempted j j2.
Proof.
  intros Hs Hr. destruct (job_step_progress _ _ Hs) as [Hn|Ha].
  - left. by rewrite (terminal_stays _ _ Hr Hn).
  - right. apply steps_attempts in Hr. lia.
Qed.
(** No row disappears during the loop. *)
Definition rows_grow (t t' : CleanupTables) : Prop :=
  forall id j, ct_jobs t !! id = Some j -> exists j', ct_jobs t' !! id = Some j' /\ rtc job_step j j'.
Lemma grow_batch now limit t s :
  tables_ok (wk_tables s) -> rows_grow t (wk_tables s) ->
  rows_grow t (wk_tables (execute_batch (due_jobs now limit (wk_tables s)) s)).
Proof.
  intros Hok Hg id j Hj. destruct (Hg id j Hj) as (j1 & H1 & Hs1). destruct (batch_rows now limit s Hok) as (_ & Hr).
  specialize (Hr id). rewrite H1 in Hr. destruct Hr as (j' & Hj' & Hs & _). exists j'. split; [done|].
  destruct Hs as [->|Hs]; [done|by eapply rtc_r].
Qed.

Lemma execute_due_ticks fuel s s' : execute_due fuel s = Some s' -> (wk_tick s < wk_tick s')%nat.
Proof.
  revert s. induction fuel as [|fuel IH]; intros s; [done|]. rewrite execute_due_S. cbv zeta.
  destruct (negb _ || _); [intros [= <-]; simpl; lia|].
  pose proof (execute_batch_tick (due_jobs (clock_at (wk_tick s)) JOB_BATCH_SIZE (wk_tables s)) (ticked2 s)) as H.
  cbn [ticked2 ticked wk_tick] in H. destruct (_ <? _)%nat; [intros [= <-]; lia|]. intros Hs%IH. lia.
Qed.

(** The job is due by every reading of the clock in [from, to). *)
Definition stays_due (from to : nat) (j : GitCleanupJob) : Prop :=
  forall n, (from <= n < to)%nat -> due (clock_at n) j = true.

Lemma execute_due_attempts fuel s :
  (forall n, database_reads n = true) -> (forall n, database_writes n = true) ->
  tables_ok (wk_tables s) -> (remaining (wk_tables s) < fuel)%nat ->
  exists s', execute_due fuel s = Some s'
    /\ forall id j, ct_jobs (wk_tables s) !! id = Some j -> stays_due (wk_tick s) (wk_tick s') j ->
         exists j', ct_jobs (wk_tables s') !! id = Some j' /\ attempted j j'.
Proof.
  intros Hrd Hwr. revert s. induction fuel as [|fuel IH]; intros s Hok Hfuel; [lia|].
  rewrite execute_due_S. cbv zeta. rewrite Hrd. set (jobs := due_jobs _ _ _). cbn [negb orb].
  assert (Hdue : forall id j, ct_jobs (wk_tables s) !! id = Some j -> due (clock_at (wk_tick s)) j = true ->
    (length jobs < JOB_BATCH_SIZE)%nat -> j ∈ jobs).
  { intros id j Hj Hd Hlen. apply due_jobs_all; [done|done|apply elem_of_job_rows; eauto]. }
  case_bool_decide as Hempty.
  { exists (ticked2 s). split; [done|]. intros id j Hj Hd. exfalso. rewrite Hempty in Hdue.
    apply (not_elem_of_nil j), (Hdue id); [done|apply Hd; simpl; lia|simpl; unfold JOB_BATCH_SIZE; lia]. }
  destruct (batch_rows (clock_at (wk_tick s)) JOB_BATCH_SIZE (ticked2 s) Hok) as (_ & Hr). fold jobs in Hr.
  pose proof (batch_remaining (clock_at (wk_tick s)) JOB_BATCH_SIZE (ticked2 s) Hwr Hok) as Hrem.
  pose proof (batch_ok (clock_at (wk_tick s)) JOB_BATCH_SIZE (ticked2 s) Hok) as Hok'.
  pose proof (execute_batch_tick jobs (ticked2 s)) as Htick. cbv zeta in Hrem.
  change (due_jobs (clock_at (wk_tick s)) JOB_BATCH_SIZE (wk_tables (ticked2 s))) with jobs in *.
  change (wk_tables (ticked2 s)) with (wk_tables s) in *. cbn [ticked2 ticked wk_tick] in Htick.
  set (s1 := execute_batch jobs (ticked2 s)) in *.
  assert (Hpos : (0 < length jobs)%nat) by (destruct jobs; [done|simpl; lia]).
  destruct (Nat.ltb_spec (length jobs) JOB_BATCH_SIZE) as [Hlt|Hge].
  - exists s1. split; [done|]. intros id j Hj Hd. specialize (Hr id). rewrite Hj in Hr.
    destruct Hr as (j' & Hj' & _ & Hs). exists j'. split; [done|].
    eapply steps_attempted; [apply Hs; [|done]; eapply Hdue; [done|apply Hd; lia|done]|apply rtc_refl].
  - destruct (IH s1) as (s' & Hs' & Hatt); [done|lia|]. exists s'. split; [done|].
    destruct (execute_due_keeps (rows_grow (wk_tables s1)) fuel s1 s') as [_ Hgrow];
      [intros; by apply grow_batch|done|intros id j Hj; by exists j|done|].
    intros id j Hj Hd. specialize (Hr id). rewrite Hj in Hr. destruct Hr as (j1 & Hj1 & [->|Hs] & _).
    { eapply Hatt; [done|]. intros n Hn. apply Hd. lia. }
    destruct (Hgrow _ _ Hj1) as (j2 & Hj2 & Hr2). exists j2. split; [done|]. by eapply steps_attempted.
Qed.

Lemma remaining_bound t : tables_ok t -> (remaining t <= 5 * size (ct_jobs t))%nat.
Proof.
  intros Hok. unfold remaining. rewrite <- size_dom. unfold size, set_size. simpl.
  induction (elements (dom (ct_jobs t))) as [|id l IH]; [simpl; lia|]. csimpl.
  assert (budget_at t id <= 5)%nat; [|lia]. unfold budget_at.
  destruct (ct_jobs t !! id) as [j|] eqn:E; simpl; [|lia]. destruct (tk_jobs _ Hok _ _ E) as [[Ha _] _ _].
  unfold budget, MAX_JOB_ATTEMPTS. destruct (is_pending j); lia.
Qed.
Lemma reclaim_size now s :
  (size (ct_jobs (wk_tables (reclaim now s))) <= size (ct_jobs (wk_tables s)) + size (ct_leases (wk_tables s)))%nat.
Proof.
  unfold reclaim. cbv zeta. destruct (database_writes (wk_tick s)); [|cbn [wk_tables ticked]; lia].
  destruct (reclaim_expired_leases _ now _) as [t'|] eqn:E; [|cbn [wk_tables ticked]; lia].
  cbn [wk_tables with_tables ticked] in *.
  assert (Hsize : size (ct_jobs t') = (size (ct_jobs (wk_tables s)) + length (expired_leases now (wk_tables s)))%nat).
  { eapply (fold_result_inv (fun done_ t' => size (ct_jobs t') = (size (ct_jobs (wk_tables s)) + length done_)%nat));
      [| |exact E]; [simpl; lia|].
    intros done_ l t1 t2 H1 _ (Hfree & _ & Hjobs & _)%convert_lease_spec.
    rewrite Hjobs, map_size_insert_None by done. rewrite H1, length_app. simpl. lia. }
  rewrite Hsize. unfold expired_leases. rewrite merge_sort_Permutation.
  pose proof (length_filter (fun l => ls_lease_expires_at l < now) (map_to_list (ct_leases (wk_tables s))).*2) as Hlen.
  rewrite length_fmap, length_map_to_list in Hlen. lia.
Qed.
Lemma purge_size now s : (size (ct_jobs (wk_tables (purge_completed now s))) <= size (ct_jobs (wk_tables s)))%nat.
Proof.
  unfold purge_completed. cbv zeta. destruct (database_writes (wk_tick s)); [|done].
  cbn [wk_tables with_tables ticked purge_completed_before snd ct_jobs with_jobs]. apply map_size_filter.
Qed.

(** C27: A pass over a working database ends and serves everybody: with enough turns (five per job and lease, plus one)
    it returns, whatever the clock says, and every job that was there when it began and is due by each of the clock
    readings the pass makes has been executed: it is no longer pending or has one more attempt.  (A clock that is set
    back during a pass may make a job not due yet again; such a job waits for the next pass.)  The number of jobs and the
    order in which the threads take them, each once and those of one repository in turn, do not matter. *)
Theorem pass_attempts_every_due_job fuel s :
  tables_ok (wk_tables s) ->
  (forall n, database_reads n = true) -> (forall n, database_writes n = true) ->
  (5 * (size (ct_jobs (wk_tables s)) + size (ct_leases (wk_tables s))) < fuel)%nat ->
  exists s', run_pass fuel s = Some s'
    /\ forall id j, ct_jobs (wk_tables s) !! id = Some j ->
         (forall n, (wk_tick s <= n < wk_tick s')%nat -> due (clock_at n) j = true) ->
         exists j', ct_jobs (wk_tables s') !! id = Some j' /\ attempted j j'.
Proof.
  intros Hok Hrd Hwr Hfuel. unfold run_pass. cbn [now_timestamp_millis].
  destruct (reclaim_tables (clock_at (wk_tick s)) (ticked s) Hok) as [Hok1 H1].
  destruct (purge_tables (clock_at (wk_tick s)) _ Hok1) as [Hok2 H2].
  assert (Htick : (wk_tick s < wk_tick (purge_completed (clock_at (wk_tick s)) (reclaim (clock_at (wk_tick s)) (ticked s))))%nat).
  { unfold purge_completed, reclaim. cbv zeta. rewrite !Hwr. cbn [with_tables wk_tick].
    destruct (reclaim_expired_leases _ _ _); cbn [with_tables ticked wk_tick]; lia. }
  destruct (execute_due_attempts fuel
    (purge_completed (clock_at (wk_tick s)) (reclaim (clock_at (wk_tick s)) (ticked s)))) as (s' & Hs' & Hatt); try done.
  - pose proof (remaining_bound _ Hok2). pose proof (purge_size (clock_at (wk_tick s)) (reclaim (clock_at (wk_tick s)) (ticked s))).
    pose proof (reclaim_size (clock_at (wk_tick s)) (ticked s)). cbn [wk_tables ticked] in *. lia.
  - pose proof (execute_due_ticks _ _ _ Hs') as Hticks.
    exists s'. split; [done|]. intros id j Hj Hd. apply Hatt; [|intros n Hn; apply Hd; lia].
    assert (due (clock_at (wk_tick s)) j = true) as Hd0 by (apply Hd; lia). apply H1, H2 in Hj.
    destruct (ct_jobs _ !! id); [by subst|]. apply andb_true_iff in Hd0 as [Hp%is_pending_true _]. congruence.
Qed.

(** ** What a completed job proves *)

Lemma execute_job_world job s : wk_world (execute_job job s) = (job_verdict job (wk_world s)).2.
Proof. rewrite execute_job_verdict. unfold record. cbn [now_timestamp_millis wk_tick ticked]. by destruct (database_writes _). Qed.
Lemma settled_state job d now t j' :
  ct_jobs t !! jb_id job = Some job -> jb_state job = JobPending ->
  ct_jobs (settle_job job d now t) !! jb_id job = Some j' ->
  (jb_state j' = JobCompleted <-> d = DispositionCompleted)
  /\ (forall reason, d = DispositionManualAttention reason -> jb_state j' = JobManualAttention).
Proof.
  intros Hrow Hp. pose proof (proj2 (is_pending_true _) Hp) as Hp'.
  unfold settle_job, mark_completed, record_retryable_failure, mark_manual_attention.
  destruct d; [|destruct (MAX_JOB_ATTEMPTS <=? _)|]; rewrite lookup_update_pending, decide_True by done;
    rewrite Hrow; simpl; rewrite Hp'; intros [= <-]; simpl; naive_solver.
Qed.
Lemma identity_trusted job : validate_cleanup_identity job = Ok tt ->
  uuid_parses (jb_workspace_id job) = true /\ jb_branch_name job = branch_name_for_workspace (jb_workspace_id job).
Proof.
  unfold validate_cleanup_identity. intros [H1%negb_false_iff H2]%reject_Ok.
  apply reject_if_Ok, negb_false_iff, bool_decide_eq_true in H2. done.
Qed.

(** What an execution proves when the job completes. *)
Lemma completed_confirmed job s j' :
  batch_ready (wk_tables s) [job] ->
  ct_jobs (wk_tables (execute_job job s)) !! jb_id job = Some j' -> jb_state j' = JobCompleted ->
  validate_cleanup_identity job = Ok tt
  /\ exists wt br, execute_removals job (wk_world s) = (Returned (Ok wt, Ok br), wk_world (execute_job job s))
       /\ wt <> OwnershipLost.
Proof.
  intros [_ Hr] Hj' Hd. destruct (Hr job) as (Hrow & Hp & _); [by left|].
  destruct (execute_job_tables job s) as [_ Ht]. rewrite Ht in Hj'. rewrite execute_job_world.
  destruct (database_writes _); [|congruence].
  apply (settled_state _ _ _ _ _ Hrow Hp Hj') in Hd. unfold job_verdict in *.
  destruct (validate_cleanup_identity job) as [[]|reason]; [|done]. split; [done|].
  destruct (execute_removals job (wk_world s)) as [[[wt br]|p] w]; [|done]. cbn [fst snd disposition] in *.
  apply reduce_completed in Hd as [(wt' & -> & Hne) (br' & ->)]. by exists wt', br'.
Qed.
Lemma untrusted_parked job s j' :
  batch_ready (wk_tables s) [job] ->
  ct_jobs (wk_tables (execute_job job s)) !! jb_id job = Some j' -> validate_cleanup_identity job <> Ok tt ->
  wk_world (execute_job job s) = wk_world s /\ (j' = job \/ jb_state j' = JobManualAttention).
Proof.
  intros [_ Hr] Hj' Hv. destruct (Hr job) as (Hrow & Hp & _); [by left|].
  destruct (execute_job_tables job s) as [_ Ht]. rewrite Ht in Hj'. rewrite execute_job_world. unfold job_verdict in *.
  destruct (validate_cleanup_identity job) as [[]|reason]; [done|]. split; [done|].
  destruct (database_writes _); [right|left; congruence]. cbn [fst] in Hj'.
  by apply (settled_state _ _ _ _ _ Hrow Hp Hj') with reason.
Qed.

(** A job is completed only on proof: its identity is well formed, its branch is the one derived from its
    workspace, and in this very execution the cleaner answered that the worktree and the branch are each gone.  A job
    whose identity is not trusted is parked without the cleaner being called. *)
Theorem completed_only_when_confirmed job s j' :
  batch_ready (wk_tables s) [job] ->
  ct_jobs (wk_tables (execute_job job s)) !! jb_id job = Some j' ->
  (jb_state j' = JobCompleted ->
     uuid_parses (jb_workspace_id job) = true /\ jb_branch_name job = branch_name_for_workspace (jb_workspace_id job)
     /\ exists wt br, execute_removals job (wk_world s) = (Returned (Ok wt, Ok br), wk_world (execute_job job s))
          /\ wt <> OwnershipLost)
  /\ (validate_cleanup_identity job <> Ok tt ->
        wk_world (execute_job job s) = wk_world s /\ (j' = job \/ jb_state j' = JobManualAttention)).
Proof.
  intros Hready Hj'. split; [intros Hd|by apply untrusted_parked].
  destruct (completed_confirmed _ _ _ Hready Hj' Hd) as [[H1 H2]%identity_trusted H]. done.
Qed.

(** ** A database that does not take writes *)

Lemma due_jobs_length now limit t :
  length (due_jobs now limit t) = Nat.min limit (length (filter (fun j => due now j = true) (job_rows t))).
Proof. unfold due_jobs. by rewrite length_take, merge_sort_Permutation. Qed.
Lemma length_filter_mono {A} (p q : A -> bool) l :
  (forall x, p x = true -> q x = true) ->
  (length (filter (fun x => p x = true) l) <= length (filter (fun x => q x = true) l))%nat.
Proof.
  intros Hpq. induction l as [|x l IH]; [done|]. rewrite !filter_cons. specialize (Hpq x).
  destruct (p x), (q x); simpl; lia.
Qed.
Lemma failed_batch jobs s :
  (forall n, database_writes n = false) -> wk_tables (execute_batch jobs s) = wk_tables s.
Proof.
  intros Hw. destruct (execute_batch_order jobs s) as (order & _ & ->). revert s.
  induction order as [|job order IH]; intros s; [done|]. cbn [execute_jobs fold_left].
  etransitivity; [apply (IH (execute_job job s))|]. rewrite (proj2 (execute_job_tables job s)), Hw. done.
Qed.

(** The loop of a pass relies on the writes it makes: while the database answers reads but refuses writes, sixteen
    due jobs keep a pass running for ever, executing the same removals again without any backoff. *)
Theorem refused_writes_spin fuel s :
  (forall n, database_reads n = true) -> (forall n, database_writes n = false) ->
  (forall m n, (m <= n)%nat -> clock_at m <= clock_at n) ->
  (JOB_BATCH_SIZE <= length (filter (fun j => due (clock_at (wk_tick s)) j = true) (job_rows (wk_tables s))))%nat ->
  run_pass fuel s = None.
Proof.
  intros Hrd Hwr Hclock Hmany. unfold run_pass. cbn [now_timestamp_millis].
  assert (Hspin : forall s0, wk_tables s0 = wk_tables s -> (wk_tick s <= wk_tick s0)%nat -> execute_due fuel s0 = None).
  { induction fuel as [|fuel IH]; intros s0 Hsame Htick; [done|]. rewrite execute_due_S. cbv zeta. rewrite Hrd, Hsame.
    set (jobs := due_jobs _ _ _). assert (Hlen : length jobs = JOB_BATCH_SIZE).
    { unfold jobs. rewrite due_jobs_length. specialize (Hclock _ _ Htick).
      pose proof (length_filter_mono (due (clock_at (wk_tick s))) (due (clock_at (wk_tick s0))) (job_rows (wk_tables s))) as Hm.
      unfold due at 1 2 in Hm. assert (H : forall j, due (clock_at (wk_tick s)) j = true -> due (clock_at (wk_tick s0)) j = true).
      { intros j. unfold due. rewrite !andb_true_iff, !Z.leb_le. intuition lia. }
      specialize (Hm H). lia. }
    rewrite bool_decide_eq_false_2 by (intros E; by rewrite E in Hlen). rewrite Hlen, Nat.ltb_irrefl. cbn [negb orb].
    apply IH; [by rewrite failed_batch|]. pose proof (execute_batch_tick jobs (ticked2 s0)).
    cbn [ticked2 ticked wk_tick] in *. lia. }
  apply Hspin; unfold purge_completed, reclaim; cbv zeta; rewrite !Hwr; cbn [ticked wk_tick wk_tables]; by try lia.
Qed.
End batches.
End laws.

(** ** A sample *)

(** A world that records the branches removed, and a cleaner that always succeeds. *)
#[export] Instance recording_cleaner : TaskGitResourceCleaner (list string) := {
  remove_worktree r w := (Returned (Ok WorktreeRemoved), w);
  remove_branch r w := (Returned (Ok ResourceRemoved), w ++ [bq_branch_name r]);
}.
#[export] Instance uuid_length : UuidText := { uuid_parses s := (String.length s =? 36)%nat }.
(** A clock that stands still and a database that takes writes or not. *)
Definition sample_environment (writes : bool) : WorkerEnvironment := {|
  clock_at n := 1000; database_reads n := true; database_writes n := writes;
  new_job_id n l := "job-" +:+ l; normalize_repository_key r := r; configured_worktree_root := Some "/worktrees";
  dispatch_order jobs := jobs;
|}.
Lemma sample_fair writes : FairDispatch (environment := sample_environment writes).
Proof. by split. Qed.
Definition sample_job (id : GitCleanupJobId) : GitCleanupJob :=
  pending id "project-1" "1c56dee5-4d3f-4f83-bb47-6d9d0dbf5b1a" "/repo" (Some "/worktrees/1c56dee5") "ora/1c56dee5" 900.
Definition sample_state (ids : list string) : WorkerState (list string) := {|
  wk_world := [];
  wk_tables := {| ct_jobs := list_to_map ((fun id => (id, sample_job id)) <$> ids); ct_leases := ∅ |};
  wk_tick := 0;
|}.
Lemma sample_tables_ok ids : tables_ok (wk_tables (sample_state ids)).
Proof.
  assert (Hrow : forall id j, ct_jobs (wk_tables (sample_state ids)) !! id = Some j -> j = sample_job id).
  { intros id j H%elem_of_list_to_map_2. by apply list_elem_of_fmap in H as (id' & [= -> ->] & _). }
  split; [by intros id j ->%Hrow|by intros id l Hl; cbn [ct_leases wk_tables sample_state] in Hl; rewrite lookup_empty in Hl|].
  intros id j ->%Hrow. split; unfold MAX_JOB_ATTEMPTS; simpl; [lia|lia|done].
Qed.

Definition sample_ids : list string := (fun n => "job-" +:+ pretty n) <$> seq 0 16.

Lemma completed_only_when_confirmed_witness :
  let env := sample_environment true in
  let s := sample_state ["job-1"] in
  uuid_parses (jb_workspace_id (sample_job "job-1")) = true
  /\ exists wt br, execute_removals (sample_job "job-1") (wk_world s)
       = (Returned (Ok wt, Ok br), wk_world (execute_job (sample_job "job-1") s)) /\ wt <> OwnershipLost.
Proof.
  intros env s.
  assert (Hready : batch_ready (wk_tables s) [sample_job "job-1"]).
  { split; [apply NoDup_singleton|]. intros job ->%list_elem_of_singleton. split_and!; [reflexivity|reflexivity|done]. }
  assert (Hrow : ct_jobs (wk_tables (execute_job (sample_job "job-1") s)) !! jb_id (sample_job "job-1")
    = Some (completed_job 1000 (sample_job "job-1"))) by (vm_compute; reflexivity).
  destruct (completed_only_when_confirmed (sample_job "job-1") s _ Hready Hrow) as [Hc _].
  destruct (Hc eq_refl) as (H1 & _ & H2). exact (conj H1 H2).
Defined.

Lemma pass_advances_jobs_witness :
  let env := sample_environment true in
  exists s', run_pass 3 (sample_state ["job-1"]) = Some s' /\ tables_ok (wk_tables s').
Proof.
  intros env. destruct (run_pass 3 (sample_state ["job-1"])) as [s'|] eqn:E; [|by vm_compute in E].
  exists s'. split; [done|].
  exact (proj1 (pass_advances_jobs (fair := sample_fair true) 3 _ s' (sample_tables_ok ["job-1"]) E)).
Defined.

Lemma pass_attempts_every_due_job_witness :
  let env := sample_environment true in
  exists s', run_pass 81 (sample_state sample_ids) = Some s'
    /\ exists j', ct_jobs (wk_tables s') !! "job-3" = Some j' /\ attempted (sample_job "job-3") j'.
Proof.
  intros env.
  destruct (pass_attempts_every_due_job (fair := sample_fair true) 81 (sample_state sample_ids) (sample_tables_ok sample_ids))
    as (s' & Hs' & Ha); [done|done|vm_compute; lia|].
  exists s'. split; [done|]. apply (Ha "job-3" (sample_job "job-3")); [vm_compute; reflexivity|].
  intros n _. vm_compute. reflexivity.
Defined.

Lemma refused_writes_spin_witness :
  let env := sample_environment false in run_pass 1000 (sample_state sample_ids) = None.
Proof.
  intros env. apply (refused_writes_spin (fair := sample_fair false)); [done|done|done|vm_compute; lia].
Defined.
