(* ===== verification/GitCleaner.v ===== *)
(** * Removing and creating the Git resources of a task

    [crates/application/src/task/git_resource_cleaner.rs] and [worktree_provisioner.rs] over the Git
    runtime.  Directories are read and removed through [HostFiles]; the texts of the causes of an error
    are a parameter. *)

From stdpp Require Import relations.
From S2P Require Import Prelude RustStr PortablePath ScheduledTask Gitlancer GitCleanup GitWorker.
Local Open Scope ora_scope.

(** [std::fs] on directories: the entries, a missing path, or another error; [remove_dir] removes an
    empty directory. *)
Inductive DirRead : Type := DirEntries (names : list string) | DirNotFound | DirUnreadable.
Class HostFiles (World : Type) := {
  read_dir : World -> string -> DirRead;
  path_exists : World -> string -> bool;
  remove_dir : string -> gitM World string unit;
  create_dir_all : string -> gitM World string unit;
}.
(** The [Display] texts along the chain of sources. *)
Class ErrorTexts := error_texts_of : GitlancerError -> list string.

Inductive ProbeLeftover : Type := LeftoverAbsent | LeftoverEmpty | LeftoverOccupied.
#[export] Instance ProbeLeftover_eq_dec : EqDecision ProbeLeftover.
Proof. solve_decision. Defined.

Section cleaner.
Context {World : Type} {runner : GitRunner World} {canonical : HostCanonical World} {files : HostFiles World}.
Context {texts : ErrorTexts}.
Local Notation cleaning := (gitM World GitCleanupError).

Definition git_error (stage : CleanupStage) (context : string) (source : GitlancerError) : GitCleanupError :=
  {| ge_stage := stage; ge_context := context; ge_causes := error_texts_of source |}.
Definition io_error (context : string) (source : string) : GitCleanupError :=
  {| ge_stage := StageWorktree; ge_context := context; ge_causes := [source] |}.

Definition discover (root : string) (stage : CleanupStage) : cleaning Repository :=
  map_error (git_error stage "failed to discover cleanup repository") (discover_repository root).

Definition probe_leftover (probe : string) (w : World) : result string ProbeLeftover :=
  match read_dir w probe with
  | DirEntries [] => Ok LeftoverEmpty
  | DirEntries (_ :: _) => Ok LeftoverOccupied
  | DirNotFound => Ok LeftoverAbsent
  | DirUnreadable => if path_exists w probe then Ok LeftoverOccupied else Err "unreadable"
  end.

Definition remove_shell (path : string) : cleaning WorktreeRemoval :=
  _ ← map_error (io_error "failed to remove leftover empty checkout directory") (remove_dir path);
  mret WorktreeRemoved.
Definition finish_checkout_removal (worktree_root : string) : cleaning WorktreeRemoval := fun w =>
  match probe_leftover worktree_root w with
  | Err source => (Err (io_error "failed to inspect checkout path after git removal" source), w)
  | Ok LeftoverAbsent => (Ok WorktreeRemoved, w)
  | Ok LeftoverEmpty => remove_shell worktree_root w
  | Ok LeftoverOccupied =>
      (Err (io_error "checkout directory still has content after git removal"
              ("git deregistered the worktree but " +:+ worktree_root +:+ " was not fully deleted")), w)
  end.

Definition delete_resolved_worktree (r : Repository) (h : WorktreeHandle) : cleaning WorktreeRemoval := fun w =>
  match delete_worktree r h WorktreeForce w with
  | (Ok _, w) => finish_checkout_removal (wh_worktree_root h) w
  | (Err (Domain (MainWorktreeDeletionUnsupported _)), w) => (Ok OwnershipLost, w)
  | (Err (Domain (WorktreeMismatch _ _)), w) => (Ok OwnershipLost, w)
  | (Err source, w) => (Err (git_error StageWorktree "failed to remove task worktree" source), w)
  end.

Definition normalize_root (w : World) (path : string) : string := default path (canonicalize w path).
Definition is_linked (h : WorktreeHandle) : bool := match wh_kind h with Linked _ => true | Main => false end.
Definition recorded_at (w : World) (checkout_root : string) (h : WorktreeHandle) : bool :=
  is_linked h && same_path (normalize_root w (wh_worktree_root h)) (normalize_root w checkout_root).
Definition find_linked_worktree_by_root (r : Repository) (checkout_root : string) : cleaning (option WorktreeHandle) := fun w =>
  match list_worktrees r w with
  | (Ok worktrees, w) => (Ok (find_first (recorded_at w checkout_root) worktrees), w)
  | (Err source, w) => (Err (git_error StageWorktree "failed to list repository worktrees" source), w)
  end.

(** The recorded checkout, or the legacy probe. *)
Definition probe_of (q : RemoveTaskWorktreeRequest) : option string :=
  match wq_checkout_root q with Some root => Some root | None => wq_legacy_checkout_probe q end.
Definition inspect_leftover (probe : string) : cleaning WorktreeRemoval := fun w =>
  match probe_leftover probe w with
  | Err source => (Err (io_error "failed to inspect leftover checkout path" source), w)
  | Ok LeftoverAbsent => (Ok WorktreeAlreadyAbsent, w)
  | Ok LeftoverEmpty => remove_shell probe w
  | Ok LeftoverOccupied => (Ok OwnershipLost, w)
  end.
(** After the branch led to no worktree. *)
Definition remove_recorded (r : Repository) (q : RemoveTaskWorktreeRequest) : cleaning WorktreeRemoval := fun w =>
  match probe_of q with
  | None => (Ok WorktreeAlreadyAbsent, w)
  | Some probe =>
      match find_linked_worktree_by_root r probe w with
      | (Err e, w) => (Err e, w)
      | (Ok (Some h), w) => delete_resolved_worktree r h w
      | (Ok None, w) => inspect_leftover probe w
      end
  end.
Definition git_remove_worktree (q : RemoveTaskWorktreeRequest) : cleaning WorktreeRemoval := fun w =>
  match discover (wq_repository_root q) StageWorktree w with
  | (Err e, w) => (Err e, w)
  | (Ok repository, w) =>
      match resolve_worktree_by_branch repository (wq_branch_name q) w with
      | (Ok h, w) => delete_resolved_worktree repository h w
      | (Err (Domain (NotAWorktree _)), w) => remove_recorded repository q w
      | (Err source, w) => (Err (git_error StageWorktree "failed to resolve task worktree by branch" source), w)
      end
  end.

Definition git_remove_branch (q : RemoveTaskBranchRequest) : cleaning ResourceRemoval := fun w =>
  match discover (bq_repository_root q) StageBranch w with
  | (Err e, w) => (Err e, w)
  | (Ok repository, w) =>
      match delete_branch repository (bq_branch_name q) BranchForce w with
      | (Ok _, w) => (Ok ResourceRemoved, w)
      | (Err (Domain (BranchNotFound _ _)), w) => (Ok ResourceAlreadyAbsent, w)
      | (Err source, w) => (Err (git_error StageBranch "failed to delete task branch" source), w)
      end
  end.

(** The cleaner of the worker. *)
#[export] Instance git_task_resource_cleaner : TaskGitResourceCleaner World := {
  remove_worktree q w := let '(r, w) := git_remove_worktree q w in (Returned r, w);
  remove_branch q w := let '(r, w) := git_remove_branch q w in (Returned r, w);
}.

(** ** Provisioning ([GitTaskWorktreeProvisioner]) *)

Inductive TaskWorktreeProvisionerError : Type :=
| NotAGitRepository
| BaseBranchNotFound (branch_name : string)
| OperationFailed (context : string).

Definition validate_repository (r : Repository) : gitM World TaskWorktreeProvisionerError unit := fun w =>
  match discover_repository (repo_root r) w with
  | (Ok _, w) => (Ok tt, w)
  | (Err (Domain (NotARepository _)), w) => (Err NotAGitRepository, w)
  | (Err _, w) => (Err (OperationFailed "failed to validate project repository"), w)
  end.
Definition task_branch_exists (r : Repository) (branch : string) : gitM World TaskWorktreeProvisionerError bool :=
  branches ← map_error (fun _ => OperationFailed "failed to inspect task branches") (list_branches r);
  mret (bool_decide (branch ∈ branches)).
(** [Path::parent] *)
Definition path_parent (path : string) : option string :=
  let cs := components path in
  match last cs with
  | None | Some RootDir | Some Prefix => None
  | Some _ => Some (render_components (take (length cs - 1) cs))
  end.
Definition create_parent_directory (path : string) : gitM World TaskWorktreeProvisionerError unit :=
  match path_parent path with
  | Some parent =>
      map_error (fun _ => OperationFailed "failed to create task worktree parent directory") (create_dir_all parent)
  | None => mret tt
  end.
Definition resolve_default_branch (r : Repository) : gitM World TaskWorktreeProvisionerError (option string) :=
  map_error (fun _ => OperationFailed "failed to resolve current branch") (resolve_current_branch r).
Record CreateTaskWorktreeRequest : Type := {
  ct_branch_name : string; ct_base_reference_name : string; ct_worktree_path : string;
}.
(** The commit the worktree starts from. *)
Definition create_task_worktree (r : Repository) (q : CreateTaskWorktreeRequest) :
    gitM World TaskWorktreeProvisionerError string :=
  base ← map_error (fun e => match e with
                             | Domain (BranchNotFound _ branch) => BaseBranchNotFound branch
                             | _ => OperationFailed "failed to resolve task worktree base branch"
                             end)
    (resolve_worktree_base_commit r (ct_base_reference_name q));
  _ ← create_parent_directory (ct_worktree_path q);
  created ← map_error (fun _ => OperationFailed "failed to create task worktree")
    (create_worktree r {| cw_worktree_root := ct_worktree_path q; cw_branch_name := ct_branch_name q;
                          cw_base_commit_id := base |});
  mret created.2.
Definition delete_task_worktree (r : Repository) (branch : string) : gitM World TaskWorktreeProvisionerError unit :=
  h ← map_error (fun _ => OperationFailed "failed to resolve task worktree") (resolve_worktree_by_branch r branch);
  _ ← map_error (fun _ => OperationFailed "failed to delete task worktree") (delete_worktree r h WorktreeForce);
  mret tt.
End cleaner.

(** ** What the cleaner may do to a repository

    A world that also records every command, with its answer and the world it leaves, and every
    directory removal, with what was in the directory. *)

Inductive CleanerEvent (World : Type) : Type :=
| CommandRan (command : GitCommand) (answer : result GitExecError GitOutput) (after : World)
| DirectoryRemoved (path : string) (found : DirRead) (answer : result string unit).
Arguments CommandRan {World}.
Arguments DirectoryRemoved {World}.

(** The commands of the stages, as Git sees them. *)
Definition listing_at (root : string) : GitCommand :=
  new_command root ["worktree"; "list"; "--porcelain"] automation_defaults ReadOnly.
Definition heads_at (root : string) : GitCommand :=
  new_command root ["for-each-ref"; "--format=%(refname:lstrip=2)"; "refs/heads"] automation_defaults ReadOnly.
Definition forced_removal (root checkout : string) : GitCommand :=
  new_command root ["worktree"; "remove"; checkout; "--force"] automation_defaults Mutating.
Definition forced_deletion (root branch : string) : GitCommand :=
  new_command root ["branch"; "-D"; branch] automation_defaults Mutating.

(** Two paths name one place in a world. *)
Definition same_place {World} {canonical : HostCanonical World} (w : World) (a b : string) : Prop :=
  components (default a (canonicalize w a)) = components (default b (canonicalize w b)).
Lemma recorded_at_place {World} {canonical : HostCanonical World} (w : World) probe h :
  recorded_at w probe h = true -> wh_kind h <> Main /\ same_place w (wh_worktree_root h) probe.
Proof.
  unfold recorded_at, is_linked, same_path, normalize_root. intros [H1 H2%bool_decide_eq_true]%andb_true_iff.
  split; [by intros E; rewrite E in H1|exact H2].
Qed.

(** The event only asks Git for the worktrees. *)
Definition lists {World} (e : CleanerEvent World) : bool :=
  match e with CommandRan c _ _ => bool_decide (gc_args c = gc_args (listing_at "") /\ gc_intent c = ReadOnly) | _ => false end.

Section recorded.
Context {World : Type} {runner : GitRunner World} {canonical : HostCanonical World} {files : HostFiles World}.
Context {texts : ErrorTexts}.
Notation Recorded := (World * list (CleanerEvent World))%type.
Implicit Types (s : Recorded) (log : list (CleanerEvent World)).

#[local] Instance recorded_runner : GitRunner Recorded := fun command s =>
  let '(answer, w) := run command s.1 in (answer, (w, s.2 ++ [CommandRan command answer w])).
#[local] Instance recorded_canonical : HostCanonical Recorded := fun s path => canonicalize s.1 path.
#[local] Instance recorded_files : HostFiles Recorded := {
  read_dir s path := read_dir s.1 path;
  path_exists s path := path_exists s.1 path;
  remove_dir path s :=
    let '(answer, w) := remove_dir path s.1 in (answer, (w, s.2 ++ [DirectoryRemoved path (read_dir s.1 path) answer]));
  create_dir_all path s := let '(answer, w) := create_dir_all path s.1 in (answer, (w, s.2));
}.

(** The repository of the job: what Git lists first, asked at the job's recorded root. *)
Definition named (root top : string) log : Prop :=
  exists output w, CommandRan (listing_at root) (Ok output) w ∈ log /\ first_listed (go_stdout output) top.
(** Git, asked in that repository, listed the linked worktree, on the branch of the job or at its recorded checkout. *)
Definition attributed (q : RemoveTaskWorktreeRequest) (top : string) (h : WorktreeHandle) log : Prop :=
  exists output w hs, CommandRan (listing_at top) (Ok output) w ∈ log
    /\ parse_worktree_list top (go_stdout output) = Ok hs /\ h ∈ hs /\ wh_kind h <> Main
    /\ (wh_branch_name h = Some (wq_branch_name q)
        \/ exists probe, probe_of q = Some probe /\ same_place w (wh_worktree_root h) probe).
(** What a trace of one removal is: listings; or listings and the removal of one attributed worktree from the repository
    of the job, which, when Git reports success, may be followed by the removal of its directory, then empty; or listings
    and the removal of the empty directory at the recorded checkout. *)
Inductive removal_trace (q : RemoveTaskWorktreeRequest) : list (CleanerEvent World) -> Prop :=
| trace_reads log : Forall (fun e => lists e = true) log -> removal_trace q log
| trace_removal log top h answer w rest :
    Forall (fun e => lists e = true) log -> named (wq_repository_root q) top log -> attributed q top h log ->
    (rest = [] \/ (exists answer', rest = [DirectoryRemoved (wh_worktree_root h) (DirEntries []) answer'])
                  /\ exists output, answer = Ok output) ->
    removal_trace q (log ++ CommandRan (forced_removal top (wh_worktree_root h)) answer w :: rest)
| trace_shell log probe answer :
    Forall (fun e => lists e = true) log -> probe_of q = Some probe ->
    removal_trace q (log ++ [DirectoryRemoved probe (DirEntries []) answer]).

(** *** Steps *)

Lemma run_recorded command s : exists answer w,
  run command s.1 = (answer, w) /\ recorded_runner command s = (answer, (w, s.2 ++ [CommandRan command answer w])).
Proof. unfold recorded_runner. destruct (run command s.1) as [answer w]. by exists answer, w. Qed.

Lemma list_recorded r s x s' : list_worktrees r s = (x, s') ->
  exists answer, s'.2 = s.2 ++ [CommandRan (listing_at (repo_root r)) answer s'.1]
    /\ forall hs, x = Ok hs -> exists output, answer = Ok output /\ parse_worktree_list (repo_root r) (go_stdout output) = Ok hs.
Proof.
  unfold list_worktrees, exec, map_error, mbind, gitM_bind, Gitlancer.lift. fold (listing_at (repo_root r)).
  destruct (run_recorded (listing_at (repo_root r)) s) as (answer & w & _ & E). unfold read_only. fold (listing_at (repo_root r)).
  unfold run. rewrite E.
  destruct answer as [output|e]; simpl; intros [= <- <-]; eexists; (split; [reflexivity|]); [|done].
  intros hs Hp. exists output. split; [done|]. destruct (parse_worktree_list _ _); simpl in *; congruence.
Qed.
Lemma discover_recorded root stage s x s' : discover root stage s = (x, s') ->
  exists answer, s'.2 = s.2 ++ [CommandRan (listing_at root) answer s'.1]
    /\ forall r, x = Ok r -> exists output, answer = Ok output /\ first_listed (go_stdout output) (repo_root r).
Proof.
  unfold discover, discover_repository, map_error, mbind, gitM_bind, Gitlancer.lift, read_only. fold (listing_at root).
  destruct (run_recorded (listing_at root) s) as (answer & w & _ & E).
  unfold run. rewrite E. intros H. exists answer.
  destruct answer as [output|e]; cbn in H.
  - destruct (first_worktree (go_stdout output)) as [top|] eqn:Et; cbn in H; injection H as <- <-; (split; [done|]); [|done].
    intros r [= <-]. exists output. split; [done|by apply first_worktree_Some].
  - injection H as <- <-. split; [done|]. by destruct e.
Qed.

Lemma probe_empty path s : probe_leftover path s = Ok LeftoverEmpty -> read_dir s.1 path = DirEntries [].
Proof.
  unfold probe_leftover. cbn [read_dir recorded_files]. destruct (read_dir s.1 path) as [[]| |]; try done.
  by destruct (path_exists _ _).
Qed.
Lemma shell_recorded path s x s' : remove_shell path s = (x, s') ->
  exists answer, s'.2 = s.2 ++ [DirectoryRemoved path (read_dir s.1 path) answer] /\ (x = Ok WorktreeRemoved \/ exists e, x = Err e).
Proof.
  unfold remove_shell, map_error, mbind, gitM_bind. cbn [remove_dir recorded_files].
  destruct (remove_dir path s.1) as [[[]|e] w]; cbn; intros [= <- <-]; eexists; (split; [reflexivity|]); eauto.
Qed.

(** The deletion of a worktree is refused, or one command runs for it. *)
Lemma delete_recorded r h s x s' : delete_resolved_worktree r h s = (x, s') ->
  (s' = s /\ x = Ok OwnershipLost)
  \/ wh_kind h <> Main
     /\ (x = Ok WorktreeRemoved \/ exists e, x = Err e)
     /\ exists answer w rest, s'.2 = s.2 ++ CommandRan (forced_removal (repo_root r) (wh_worktree_root h)) answer w :: rest
          /\ (rest = [] \/ (exists answer', rest = [DirectoryRemoved (wh_worktree_root h) (DirEntries []) answer'])
                           /\ exists output, answer = Ok output).
Proof.
  unfold delete_resolved_worktree. intros H.
  destruct (same_path (wh_repo_root h) (repo_root r)) eqn:Hsame;
    [|unfold delete_worktree in H; rewrite Hsame in H; cbn in H; left; by injection H as <- <-].
  destruct (decide (wh_kind h = Main)) as [Hm|Hm];
    [unfold delete_worktree in H; rewrite Hsame, bool_decide_eq_true_2 in H by done; cbn in H; left; by injection H as <- <-|].
  right. split; [done|]. unfold delete_worktree in H. rewrite Hsame, (bool_decide_eq_false_2 _ Hm) in H. cbn [negb] in H.
  unfold exec, map_error, mbind, gitM_bind in H. change (build_delete_worktree_command r h WorktreeForce)
    with (forced_removal (repo_root r) (wh_worktree_root h)) in H.
  destruct (run_recorded (forced_removal (repo_root r) (wh_worktree_root h)) s) as (answer & w & _ & E).
  unfold run in H. rewrite E in H. destruct answer as [output|e]; cbn in H.
  2: { injection H as <- <-. split; [eauto|]. exists (Err e), w, []. auto. }
  unfold finish_checkout_removal in H. destruct (probe_leftover _ _) as [[]|e] eqn:Ep.
  2: { apply shell_recorded in H as (answer' & -> & Hx). split; [done|]. apply probe_empty in Ep.
       eexists (Ok output), w, [DirectoryRemoved (wh_worktree_root h) (DirEntries []) answer'].
       cbn [snd fst] in *. rewrite Ep, <-app_assoc. split; [done|]. eauto. }
  all: injection H as <- <-; (split; [eauto|]); exists (Ok output), w, []; auto.
Qed.

Lemma by_branch_recorded r branch s x s' : resolve_worktree_by_branch r branch s = (x, s') ->
  exists answer, s'.2 = s.2 ++ [CommandRan (listing_at (repo_root r)) answer s'.1]
    /\ forall h, x = Ok h -> wh_branch_name h = Some branch /\ exists output hs, answer = Ok output
         /\ parse_worktree_list (repo_root r) (go_stdout output) = Ok hs /\ h ∈ hs.
Proof.
  unfold resolve_worktree_by_branch, mbind, gitM_bind, Gitlancer.lift.
  destruct (list_worktrees r s) as [[hs|e] s1] eqn:E; apply list_recorded in E as (answer & Hs & Hok); intros [= <- <-];
    exists answer; (split; [done|]); [|done].
  intros h Hh%ok_or_Ok. apply find_first_Some in Hh as [Hin Hb%bool_decide_eq_true]. split; [done|].
  destruct (Hok hs eq_refl) as (output & -> & Hp). by exists output, hs.
Qed.
Lemma by_root_recorded r root s x s' : find_linked_worktree_by_root r root s = (x, s') ->
  exists answer, s'.2 = s.2 ++ [CommandRan (listing_at (repo_root r)) answer s'.1]
    /\ forall h, x = Ok (Some h) -> wh_kind h <> Main /\ same_place s'.1 (wh_worktree_root h) root
         /\ exists output hs, answer = Ok output
              /\ parse_worktree_list (repo_root r) (go_stdout output) = Ok hs /\ h ∈ hs.
Proof.
  unfold find_linked_worktree_by_root.
  destruct (list_worktrees r s) as [[hs|e] s1] eqn:E; apply list_recorded in E as (answer & Hs & Hok); intros [= <- <-];
    exists answer; (split; [done|]); [|done].
  intros h [= Hh]. apply find_first_Some in Hh as [Hin [Hm Hb]%recorded_at_place]. split_and!; [done|exact Hb|].
  destruct (Hok hs eq_refl) as (output & -> & Hp). by exists output, hs.
Qed.

Lemma reads_snoc log root answer w : Forall (fun e => lists e = true) log ->
  Forall (fun e => lists e = true) (log ++ [CommandRan (listing_at root) answer w]).
Proof. intros. apply Forall_app. split; [done|]. by apply Forall_singleton. Qed.
Lemma named_app root top log log' : named root top log -> named root top (log ++ log').
Proof. intros (output & w & H & ?). exists output, w. split; [|done]. apply elem_of_app. by left. Qed.

(** A claimed worktree that was just listed is deleted. *)
Lemma delete_trace q r h s x s' :
  Forall (fun e => lists e = true) s.2 -> named (wq_repository_root q) (repo_root r) s.2 ->
  (wh_kind h <> Main -> attributed q (repo_root r) h s.2) ->
  delete_resolved_worktree r h s = (x, s') ->
  removal_trace q s'.2
  /\ (x = Ok OwnershipLost \/ x = Ok WorktreeAlreadyAbsent -> Forall (fun e => lists e = true) s'.2).
Proof.
  intros Hreads Hn Hc [[-> ->]|(Hm & Hx & answer & w & rest & -> & Hrest)]%delete_recorded.
  - split; [by constructor|done].
  - split; [by apply trace_removal; auto|]. by destruct Hx as [->|[e ->]]; intros [].
Qed.

(** C22: The cleaner never touches what it cannot attribute to the job.  Whatever Git answers, a run of the worktree stage
    only lists worktrees; or, in the repository Git names at the job's recorded root, it force-removes one linked worktree
    that Git has listed there on the job's branch or exactly at its recorded checkout, never the main checkout, and then,
    if Git reported success, at most removes that worktree's own directory, found empty; or it removes the directory at
    the recorded checkout, found empty.  When it reports lost ownership or absence it has changed nothing. *)
Theorem cleaner_touches_only_owned q w x w' log :
  git_remove_worktree q (w, []) = (x, (w', log)) ->
  removal_trace q log
  /\ (x = Ok OwnershipLost \/ x = Ok WorktreeAlreadyAbsent -> Forall (fun e => lists e = true) log).
Proof.
  unfold git_remove_worktree.
  destruct (discover _ _ _) as [[r|e] s1] eqn:E1; apply discover_recorded in E1 as (answer & H1 & Hr); cbn [snd app] in H1.
  all: assert (R1 : Forall (fun e => lists e = true) s1.2) by (rewrite H1; apply (reads_snoc []); constructor).
  2: { intros [= <- ->]. split; [by constructor|done]. }
  destruct (Hr r eq_refl) as (output1 & -> & Hfirst).
  assert (N1 : named (wq_repository_root q) (repo_root r) s1.2) by (exists output1, s1.1; rewrite H1; split; [left|done]).
  destruct (resolve_worktree_by_branch _ _ _) as [[h|e] s2] eqn:E2; apply by_branch_recorded in E2 as (answer2 & H2 & Hb).
  all: assert (R2 : Forall (fun e => lists e = true) s2.2) by (rewrite H2; by apply reads_snoc).
  all: assert (N2 : named (wq_repository_root q) (repo_root r) s2.2) by (rewrite H2; by apply named_app).
  - intros H. destruct (Hb h eq_refl) as (Hbr & output & hs & -> & Hp & Hin).
    apply (delete_trace q r h s2 x (w', log)); [done|done| |done]. intros Hm. exists output, s2.1, hs.
    split_and!; [rewrite H2; apply elem_of_app; right; left|done|done|done|by left].
  - destruct e as [[]| | | | |]; try by (intros [= <- ->]; split; [by constructor|intros []]).
    unfold remove_recorded. destruct (probe_of q) as [probe|] eqn:Hp; [|intros [= <- ->]; split; [by constructor|done]].
    destruct (find_linked_worktree_by_root _ _ _) as [[[h|]|e] s3] eqn:E3; apply by_root_recorded in E3 as (answer3 & H3 & Hat).
    all: assert (R3 : Forall (fun e => lists e = true) s3.2) by (rewrite H3; by apply reads_snoc).
    all: assert (N3 : named (wq_repository_root q) (repo_root r) s3.2) by (rewrite H3; by apply named_app).
    + intros H. destruct (Hat h eq_refl) as (_ & Hplace & output & hs & -> & Hl & Hin).
      apply (delete_trace q r h s3 x (w', log)); [done|done| |done]. intros Hm. exists output, s3.1, hs.
      split_and!; [rewrite H3; apply elem_of_app; right; left|done|done|done|right; by exists probe].
    + unfold inspect_leftover. destruct (probe_leftover probe s3) as [[]|e] eqn:El.
      * intros [= <- ->]. split; [by constructor|done].
      * intros H. apply shell_recorded in H as (answer' & Hlog & Hx). cbn [snd] in Hlog. apply probe_empty in El.
        rewrite El in Hlog. subst log. split; [by apply trace_shell|]. by destruct Hx as [->|[? ->]]; intros [].
      * intros [= <- ->]. split; [by constructor|done].
      * intros [= <- ->]. split; [by constructor|by intros []].
    + intros [= <- ->]. split; [by constructor|by intros []].
Qed.
End recorded.

(** ** What a confirmed removal means *)

(** [std::fs::remove_dir]: what it removed is no longer there. *)
Class LawfulFiles (World : Type) {files : HostFiles World} : Prop :=
  removed_not_found path (w w' : World) : remove_dir path w = (Ok tt, w') -> read_dir w' path = DirNotFound.

Section confirmed.
Context {World : Type} {runner : GitRunner World} {canonical : HostCanonical World} {files : HostFiles World}.
Context {texts : ErrorTexts} {lawful : LawfulFiles World}.
Implicit Types (w : World).

(** In [w] Git, asked at [root], names the repository at [top]; this leaves [w']. *)
Definition repository_of (root : string) (w : World) (top : string) (w' : World) : Prop :=
  exists output, run (listing_at root) w = (Ok output, w') /\ first_listed (go_stdout output) top.
(** In [w] Git, asked in that repository, lists the worktrees [hs]; this leaves [w']. *)
Definition worktrees_of (top : string) (w : World) (hs : list WorktreeHandle) (w' : World) : Prop :=
  exists output, run (listing_at top) w = (Ok output, w') /\ parse_worktree_list top (go_stdout output) = Ok hs.

(** The checkout of the job is gone: in the repository of the job, Git listed a linked worktree on its branch, whose
    directory is no longer there; or none is on its branch, and the recorded checkout is not there, nor the directory of
    the linked worktree Git listed at that place. *)
Definition checkout_gone (q : RemoveTaskWorktreeRequest) (w w' : World) : Prop :=
  exists top w1 hs w2, repository_of (wq_repository_root q) w top w1 /\ worktrees_of top w1 hs w2
    /\ ((exists h, h ∈ hs /\ wh_kind h <> Main /\ wh_branch_name h = Some (wq_branch_name q)
            /\ read_dir w' (wh_worktree_root h) = DirNotFound)
        \/ (forall h, h ∈ hs -> wh_branch_name h <> Some (wq_branch_name q))
           /\ forall probe, probe_of q = Some probe ->
                exists hs' w3, worktrees_of top w2 hs' w3
                  /\ ((exists h, h ∈ hs' /\ wh_kind h <> Main /\ same_place w3 (wh_worktree_root h) probe
                          /\ read_dir w' (wh_worktree_root h) = DirNotFound)
                      \/ read_dir w' probe = DirNotFound)).
(** The branch of the job is gone: in the repository of the job, Git does not list it, or listed and then deleted it. *)
Definition branch_gone (q : RemoveTaskBranchRequest) (w w' : World) : Prop :=
  exists top w1 output w2, repository_of (bq_repository_root q) w top w1 /\ run (heads_at top) w1 = (Ok output, w2)
    /\ (bq_branch_name q ∉ filter (fun l => l <> "") (trim <$> lines (go_stdout output)) /\ w' = w2
        \/ exists answer, run (forced_deletion top (bq_branch_name q)) w2 = (Ok answer, w')).

Lemma probe_absent path w : probe_leftover path w = Ok LeftoverAbsent -> read_dir w path = DirNotFound.
Proof. unfold probe_leftover. destruct (read_dir w path) as [[]| |]; try done. by destruct (path_exists _ _). Qed.
Lemma remove_shell_gone path w w' : remove_shell path w = (Ok WorktreeRemoved, w') -> read_dir w' path = DirNotFound.
Proof.
  unfold remove_shell, map_error, mbind, gitM_bind. destruct (remove_dir path w) as [[[]|e] w1] eqn:E; cbn; [|done].
  intros [= <-]. by apply removed_not_found in E.
Qed.
Lemma delete_resolved_gone r h w w' : delete_resolved_worktree r h w = (Ok WorktreeRemoved, w') ->
  wh_kind h <> Main /\ read_dir w' (wh_worktree_root h) = DirNotFound.
Proof.
  unfold delete_resolved_worktree. intros H.
  destruct (decide (wh_kind h = Main)) as [Hm|Hm].
  { destruct (delete_worktree_refuses r h WorktreeForce w (or_intror Hm)) as [e He]. rewrite He in H. by destruct e. }
  split; [done|]. destruct (delete_worktree r h WorktreeForce w) as [[root|e] w1] eqn:E; [|destruct e as [[]| | | | |]; done].
  unfold finish_checkout_removal in H. destruct (probe_leftover _ _) as [[]|e] eqn:Ep; try done.
  - injection H as <-. by apply probe_absent.
  - by eapply remove_shell_gone.
Qed.
Lemma delete_resolved_absent r h w w' : delete_resolved_worktree r h w <> (Ok WorktreeAlreadyAbsent, w').
Proof.
  unfold delete_resolved_worktree. destruct (delete_worktree r h WorktreeForce w) as [[root|e] w1];
    [|destruct e as [[]| | | | |]; done].
  unfold finish_checkout_removal. destruct (probe_leftover _ _) as [[]|e]; try done.
  unfold remove_shell, map_error, mbind, gitM_bind. by destruct (remove_dir _ _) as [[[]|?] ?].
Qed.
(** A removal that does not lose ownership removed a linked worktree. *)
Lemma delete_confirms r h w x w' : delete_resolved_worktree r h w = (Ok x, w') -> x <> OwnershipLost ->
  wh_kind h <> Main /\ read_dir w' (wh_worktree_root h) = DirNotFound.
Proof. intros H Hx. destruct x; [by eapply delete_resolved_gone|by apply delete_resolved_absent in H|done]. Qed.

Lemma discover_names root stage w r w' : discover root stage w = (Ok r, w') -> repository_of root w (repo_root r) w'.
Proof.
  unfold discover, discover_repository, map_error, mbind, gitM_bind, Gitlancer.lift, read_only. fold (listing_at root).
  unfold repository_of. destruct (run (listing_at root) w) as [[output|e] w1]; cbn; [|by destruct e].
  destruct (first_worktree (go_stdout output)) as [top|] eqn:E; cbn; [|done]. intros [= <- <-].
  exists output. split; [done|by apply first_worktree_Some].
Qed.
Lemma list_worktrees_of r w hs w' : list_worktrees r w = (Ok hs, w') -> worktrees_of (repo_root r) w hs w'.
Proof.
  unfold list_worktrees, exec, map_error, mbind, gitM_bind, Gitlancer.lift, read_only. fold (listing_at (repo_root r)).
  unfold worktrees_of. destruct (run (listing_at (repo_root r)) w) as [[output|e] w1]; cbn; [|done].
  destruct (parse_worktree_list _ _) eqn:E; cbn; [|done]. intros [= <- <-]. by exists output.
Qed.

(** The answers of the worktree stage are confirmed on disk. *)
Lemma worktree_stage_confirms q w x w' :
  git_remove_worktree q w = (Ok x, w') -> x <> OwnershipLost -> checkout_gone q w w'.
Proof.
  unfold git_remove_worktree, checkout_gone. intros H Hx. destruct (discover _ _ w) as [[r|e] w1] eqn:E1; [|done].
  apply discover_names in E1. destruct (resolve_worktree_by_branch _ _ w1) as [[h|e] w2] eqn:E2;
    unfold resolve_worktree_by_branch, mbind, gitM_bind, Gitlancer.lift in E2;
    destruct (list_worktrees r w1) as [[hs|e'] w1'] eqn:El; try done.
  - injection E2 as E2 ->. apply list_worktrees_of in El. exists (repo_root r), w1, hs, w2. split_and!; [done|done|]. left.
    apply ok_or_Ok, find_first_Some in E2 as [Hin Hb%bool_decide_eq_true].
    destruct (delete_confirms _ _ _ _ _ H Hx). by exists h.
  - injection E2 as E2 ->. apply list_worktrees_of in El. exists (repo_root r), w1, hs, w2. split_and!; [done|done|]. right.
    destruct (find_first (on_branch (wq_branch_name q)) hs) eqn:Ef; [done|]. simpl in E2. injection E2 as <-. split.
    { intros h Hh. apply find_first_None in Ef. rewrite Forall_forall in Ef.
      specialize (Ef h Hh). unfold on_branch in Ef. by apply bool_decide_eq_false in Ef. }
    intros probe Hp. unfold remove_recorded in H. rewrite Hp in H. unfold find_linked_worktree_by_root in H.
    destruct (list_worktrees r w2) as [[hs'|e'] w3] eqn:E3; [|done]. apply list_worktrees_of in E3. exists hs', w3.
    split; [done|]. destruct (find_first _ hs') as [h|] eqn:Ef'.
    + left. apply find_first_Some in Ef' as [Hin [Hm Hplace]%recorded_at_place].
      destruct (delete_confirms _ _ _ _ _ H Hx). by exists h.
    + right. unfold inspect_leftover in H.
      destruct (probe_leftover probe w3) as [[]|e] eqn:El'; try done; [injection H as <- <-; by apply probe_absent| |congruence].
      destruct x; [by eapply remove_shell_gone| |done]. unfold remove_shell, map_error, mbind, gitM_bind in H.
      by destruct (remove_dir _ _) as [[[]|?] ?].
  - injection E2 as -> ->. destruct e as [[]| | | | |]; try done.
    unfold list_worktrees, exec, map_error, mbind, gitM_bind, Gitlancer.lift in El.
    destruct (run _ w1) as [[output|e] wr]; cbn in El; [|done]. by destruct (parse_worktree_list _ _).
Qed.
Lemma branch_stage_confirms q w x w' : git_remove_branch q w = (Ok x, w') -> branch_gone q w w'.
Proof.
  unfold git_remove_branch, branch_gone. intros H.
  destruct (discover _ _ w) as [[r|e] w1] eqn:E1; [|done]. apply discover_names in E1. exists (repo_root r), w1.
  unfold delete_branch, list_branches, exec, map_error, mbind, gitM_bind, read_only in H.
  fold (heads_at (repo_root r)) in H. destruct (run (heads_at (repo_root r)) w1) as [[output|e] w2]; cbn in H; [|done].
  exists output, w2. split_and!; [done|done|]. unfold non_empty_lines in H. case_bool_decide as Hin; cbn [negb] in H.
  - right. change (build_delete_branch_command r (bq_branch_name q) BranchForce)
      with (forced_deletion (repo_root r) (bq_branch_name q)) in H.
    destruct (run _ w2) as [[answer|e] w3] eqn:E3; cbn in H; [|done]. injection H as <- <-. by exists answer.
  - cbn in H. left. by injection H as <- <-.
Qed.

(** C21: With the Git cleaner, a completed cleanup job means what it says: when its execution ends in [completed], the job's
    identity was sound; the worktree stage left no directory of its checkout (that of the linked worktree which Git,
    asked in the repository of the job, listed on its branch, or without one that at the recorded path); and in the
    branch stage Git, asked in the repository of the job, no longer listed its branch, or deleted it there. *)
Theorem completed_job_resources_gone {environment : WorkerEnvironment} {uuids : UuidText} job (s : WorkerState World) j' :
  batch_ready (wk_tables s) [job] ->
  ct_jobs (wk_tables (execute_job job s)) !! jb_id job = Some j' -> jb_state j' = JobCompleted ->
  jb_branch_name job = branch_name_for_workspace (jb_workspace_id job)
  /\ exists legacy w1,
       let q := {| wq_repository_root := jb_repository_root job; wq_branch_name := jb_branch_name job;
                   wq_checkout_root := jb_checkout_root job; wq_legacy_checkout_probe := legacy |} in
       checkout_gone q (wk_world s) w1
       /\ branch_gone {| bq_repository_root := jb_repository_root job; bq_branch_name := jb_branch_name job |}
            w1 (wk_world (execute_job job s)).
Proof.
  intros Hready Hj' Hd. destruct (completed_confirmed _ _ _ Hready Hj' Hd) as [[_ Hb]%identity_trusted (wt & br & H & Hx)].
  split; [done|]. unfold execute_removals in H. cbn [remove_worktree remove_branch git_task_resource_cleaner] in H.
  destruct (git_remove_worktree _ _) as [wt' w1] eqn:E1, (git_remove_branch _ w1) as [br' w2] eqn:E2.
  injection H as -> -> H. rewrite <- H. eexists _, w1. split; [by eapply worktree_stage_confirms|by eapply branch_stage_confirms].
Qed.
End confirmed.

(** ** A small repository *)

(** The worktrees and branches Git knows, and the directories with their entries.  Removing a worktree leaves its empty
    directory behind. *)
Record SampleRepository : Type := {
  sr_worktrees : list PorcelainEntry; sr_branches : list string; sr_directories : gmap string (list string);
}.
Definition printed (text : string) : result GitExecError GitOutput :=
  Ok {| go_code := Some 0%Z; go_stdout := text; go_stderr := ""; go_duration_ms := 0 |}.
#[export] Instance sample_git : GitRunner SampleRepository := fun command s =>
  match gc_args command with
  | ["worktree"; "list"; "--porcelain"] => (printed (porcelain (sr_worktrees s)), s)
  | "for-each-ref" :: _ => (printed (terminated (byte_at 10) (sr_branches s)), s)
  | ["worktree"; "remove"; root; "--force"] =>
      (printed "", {| sr_worktrees := filter (fun e => pe_path e <> root) (sr_worktrees s);
                      sr_branches := sr_branches s; sr_directories := <[root := []]> (sr_directories s) |})
  | ["branch"; "-D"; branch] =>
      (printed "", {| sr_worktrees := sr_worktrees s; sr_branches := filter (fun b => b <> branch) (sr_branches s);
                      sr_directories := sr_directories s |})
  | args => (Err (NonZeroExit (Some 128%Z) args "" ""), s)
  end.
#[export] Instance sample_canonical : HostCanonical SampleRepository := fun s path =>
  if bool_decide (is_Some (sr_directories s !! path)) then Some path else None.
#[export] Instance sample_files : HostFiles SampleRepository := {
  read_dir s path := match sr_directories s !! path with Some names => DirEntries names | None => DirNotFound end;
  path_exists s path := bool_decide (is_Some (sr_directories s !! path));
  remove_dir path s :=
    match sr_directories s !! path with
    | Some [] => (Ok tt, {| sr_worktrees := sr_worktrees s; sr_branches := sr_branches s;
                            sr_directories := delete path (sr_directories s) |})
    | _ => (Err "directory not empty", s)
    end;
  create_dir_all path s := (Ok tt, s);
}.
#[export] Instance sample_error_texts : ErrorTexts := fun _ => ["git failed"].
Lemma sample_lawful : LawfulFiles SampleRepository.
Proof.
  intros path s s'. unfold remove_dir, read_dir, sample_files.
  destruct (sr_directories s !! path) as [[]|]; [|done|done]. intros [= <-]. cbn [sr_directories]. by rewrite lookup_delete_eq.
Qed.
Definition sample_repository : SampleRepository := {|
  sr_worktrees := [ {| pe_path := "/repo"; pe_head := "0123"; pe_branch := Some "main" |};
                    {| pe_path := "/worktrees/1c56dee5"; pe_head := "0123"; pe_branch := Some "ora/1c56dee5" |} ];
  sr_branches := ["main"; "ora/1c56dee5"];
  sr_directories := {["/repo" := ["README.md"]; "/worktrees/1c56dee5" := ["src"]]};
|}.
Definition sample_removal : RemoveTaskWorktreeRequest :=
  {| wq_repository_root := "/repo"; wq_branch_name := "ora/1c56dee5"; wq_checkout_root := Some "/worktrees/1c56dee5";
     wq_legacy_checkout_probe := None |}.
(** What changed something, and its answer. *)
Definition changes {World} (log : list (CleanerEvent World)) : list (list string) :=
  omap (fun e => match e with
                 | CommandRan c _ _ => if bool_decide (gc_intent c = ReadOnly) then None else Some (gc_args c)
                 | DirectoryRemoved path _ _ => Some [path]
                 end) log.
Lemma cleaner_touches_only_owned_witness :
  exists w' log,
    git_remove_worktree (runner := recorded_runner) (canonical := recorded_canonical) (files := recorded_files)
      sample_removal (sample_repository, []) = (Ok WorktreeRemoved, (w', log))
    /\ changes log = [["worktree"; "remove"; "/worktrees/1c56dee5"; "--force"]; ["/worktrees/1c56dee5"]]
    /\ removal_trace sample_removal log.
Proof.
  destruct (git_remove_worktree (runner := recorded_runner) (canonical := recorded_canonical) (files := recorded_files)
    sample_removal (sample_repository, [])) as [x [w' log]] eqn:E.
  pose proof (cleaner_touches_only_owned _ _ _ _ _ E) as [H _].
  assert (x = Ok WorktreeRemoved) as -> by (vm_compute in E; congruence).
  exists w', log. refine (conj eq_refl (conj _ H)). vm_compute in E. injection E as <- <-. vm_compute. reflexivity.
Defined.

Definition sample_worker : WorkerState SampleRepository := {|
  wk_world := sample_repository;
  wk_tables := {| ct_jobs := {["job-1" := sample_job "job-1"]}; ct_leases := ∅ |};
  wk_tick := 0;
|}.
Lemma completed_job_resources_gone_witness :
  let env := sample_environment true in
  wk_world (execute_job (sample_job "job-1") sample_worker) =
    {| sr_worktrees := take 1 (sr_worktrees sample_repository); sr_branches := ["main"];
       sr_directories := {["/repo" := ["README.md"]]} |}
  /\ exists legacy w1,
       checkout_gone {| wq_repository_root := "/repo"; wq_branch_name := "ora/1c56dee5";
         wq_checkout_root := Some "/worktrees/1c56dee5"; wq_legacy_checkout_probe := legacy |} sample_repository w1
       /\ branch_gone {| bq_repository_root := "/repo"; bq_branch_name := "ora/1c56dee5" |}
            w1 (wk_world (execute_job (sample_job "job-1") sample_worker)).
Proof.
  intros env. split; [vm_compute; reflexivity|].
  assert (Hready : batch_ready (wk_tables sample_worker) [sample_job "job-1"]).
  { split; [apply NoDup_singleton|]. intros job ->%list_elem_of_singleton. split_and!; [reflexivity|reflexivity|done]. }
  assert (Hrow : ct_jobs (wk_tables (execute_job (sample_job "job-1") sample_worker)) !! jb_id (sample_job "job-1")
    = Some (completed_job 1000 (sample_job "job-1"))) by (vm_compute; reflexivity).
  destruct (completed_job_resources_gone (lawful := sample_lawful) (sample_job "job-1") sample_worker _ Hready Hrow eq_refl)
    as (_ & legacy & w1 & Hc & H). exact (ex_intro _ legacy (ex_intro _ w1 (conj Hc H))).
Defined.
