(* ===== verification/SessionHistory.v ===== *)
(** * Session histories ([crates/history/src], [crates/agent-runtime/src/history.rs], [replay.rs])

    The conversation of a session as Ora records it: streamed updates are assembled into records with a
    position, appended to a file line by line, read back and replayed or handed to another agent.  The
    types of the agent client protocol are given by the parts the code reads; the update of a tool call
    by its fields, the text form of a line and the outcome of a write are parameters. *)

From Stdlib Require Import Ascii SpecFloat.
From S2P Require Import Prelude RustStr Json.
Local Open Scope ora_scope.

(** ** The protocol's data *)

Notation Meta := (list (string * Value)) (only parsing).
Notation ToolCallId := string (only parsing).
Notation MessageId := string (only parsing).
Record TextContent : Type := { tc_text : string; tc_annotations : option Value; tc_meta : option Meta }.
Inductive ContentBlock : Type :=
| TextBlock (text : TextContent)
| ImageBlock (data : Value)
| AudioBlock (data : Value)
| ResourceLinkBlock (uri : string) (data : Value)
| ResourceBlock (data : Value)
| OtherBlock (data : Value).
Record ContentChunk : Type := { cc_content : ContentBlock; cc_message_id : option MessageId; cc_meta : option Meta }.
Inductive ToolCallStatus : Type := ToolPending | ToolInProgress | ToolCompleted | ToolFailed | ToolOther.
Record ToolCall : Type := {
  tl_id : ToolCallId; tl_title : string; tl_status : ToolCallStatus; tl_meta : option Meta; tl_rest : Value;
}.
Record ToolCallUpdate : Type := { tu_id : ToolCallId; tu_fields : Value; tu_meta : option Meta }.
Record Plan : Type := { pl_entries : Value; pl_meta : option Meta }.
Inductive SessionUpdate : Type :=
| UserMessageChunk (chunk : ContentChunk)
| AgentMessageChunk (chunk : ContentChunk)
| AgentThoughtChunk (chunk : ContentChunk)
| UpdateToolCall (call : ToolCall)
| UpdateToolCallUpdate (update : ToolCallUpdate)
| UpdatePlan (plan : Plan)
| SessionChrome (data : Value).
Inductive StopReason : Type := EndTurn | MaxTokens | MaxTurnRequests | Refusal | Cancelled | OtherStop.
#[export] Instance StopReason_eq_dec : EqDecision StopReason.
Proof. solve_decision. Defined.
#[export] Instance ToolCallStatus_eq_dec : EqDecision ToolCallStatus.
Proof. solve_decision. Defined.
#[export] Instance TextContent_eq_dec : EqDecision TextContent.
Proof. solve_decision. Defined.
#[export] Instance ContentBlock_eq_dec : EqDecision ContentBlock.
Proof. solve_decision. Defined.
#[export] Instance ContentChunk_eq_dec : EqDecision ContentChunk.
Proof. solve_decision. Defined.
#[export] Instance ToolCall_eq_dec : EqDecision ToolCall.
Proof. solve_decision. Defined.

(** [ToolCall::update] and [ToolCall::new] of the protocol crate. *)
Class ToolCalls := {
  tool_call_update : Value -> ToolCall -> ToolCall;
  new_tool_call : ToolCallId -> string -> ToolCall;
}.

(** ** Metadata ([metadata.rs]) *)

(** [f.is_finite()], [f.fract() == 0.0] *)
Definition is_finite (f : spec_float) : bool := match f with S754_zero _ | S754_finite _ _ _ => true | _ => false end.
Definition is_integral (f : spec_float) : bool :=
  match f with
  | S754_zero _ => true
  | S754_finite _ m e => (0 <=? e)%Z || (Z.pos m mod 2 ^ (- e) =? 0)%Z
  | _ => false
  end.
Definition valid_depth (depth : spec_float) : bool :=
  is_finite depth && negb (SFltb depth (f64_of_Z 1)) && is_integral depth
  && negb (SFltb (f64_of_Z 9007199254740991) depth).
Definition non_blank (s : string) : option string := if bool_decide (trim s = "") then None else Some s.
Definition child_source_id (meta : option Meta) : option string :=
  m ← meta;
  source ← map_get "opencode/child-session" m;
  id ← (value_get "id" source ≫= as_str) ≫= non_blank;
  _ ← (value_get "parentID" source ≫= as_str) ≫= non_blank;
  depth ← value_get "depth" source ≫= as_f64;
  if valid_depth depth then Some id else None.

Definition retain_tool_metadata (target incoming : option Meta) : option Meta :=
  match incoming with
  | None => target
  | Some incoming =>
      Some (fold_left (fun target kv => map_insert kv.1 kv.2 target) incoming (default [] target))
  end.

(** [PartialEq] on metadata and annotations. *)
Definition option_eqb {A} (eqb : A -> A -> bool) (x y : option A) : bool :=
  match x, y with Some x, Some y => eqb x y | None, None => true | _, _ => false end.
Definition meta_eqb (x y : option Meta) : bool := option_eqb (fun x y => value_eqb (VObject x) (VObject y)) x y.

(** ** Records ([record.rs]) *)

Definition SCHEMA_VERSION : N := 2.
Record ToolCallTiming : Type := { tt_started_at : string; tt_duration_ms : option N }.
Record SessionMeta : Type := {
  sm_schema_version : N; sm_session_id : string; sm_workspace_id : string; sm_agent_ref : string;
  sm_agent_session_id : string; sm_cwd : string;
}.
Record AgentSwitch : Type := { sw_from : string; sw_to : string; sw_agent_session_id : string }.
Inductive HistoryRecord : Type :=
| MetaRecord (meta : SessionMeta)
| UpdateRecord (update : SessionUpdate) (tool_timing : option ToolCallTiming)
| TurnEnded (stop_reason : StopReason)
| AgentSwitched (switch : AgentSwitch)
| HandoffDelivered (agent_session_id : string)
| Gap (reason : string).
Record HistoryLine : Type := { hl_at : string; hl_seq : N; hl_record : HistoryRecord }.
Record AssembledRecord : Type := { as_seq : N; as_record : HistoryRecord }.
Definition assembled (seq : N) (record : HistoryRecord) : AssembledRecord := {| as_seq := seq; as_record := record |}.

(** ** The assembler ([assembler.rs]) *)

Inductive TextKind : Type := Message | Thought.
#[export] Instance TextKind_eq_dec : EqDecision TextKind.
Proof. solve_decision. Defined.
Record PendingText : Type := { pt_seq : N; pt_kind : TextKind; pt_chunk : ContentChunk }.
Record PendingTool : Type := { pd_seq : N; pd_call : ToolCall; pd_written : bool; pd_timing : option ToolCallTiming }.
Record HistoryAssembler : Type := {
  next_seq : N; texts : list PendingText; tools : list PendingTool; plans : list (N * Plan);
}.
Definition new_assembler (next : N) : HistoryAssembler :=
  {| next_seq := next; texts := []; tools := []; plans := [] |}.
Definition with_texts (l : list PendingText) (a : HistoryAssembler) : HistoryAssembler :=
  {| next_seq := next_seq a; texts := l; tools := tools a; plans := plans a |}.
Definition with_tools (l : list PendingTool) (a : HistoryAssembler) : HistoryAssembler :=
  {| next_seq := next_seq a; texts := texts a; tools := l; plans := plans a |}.
Definition with_plans (l : list (N * Plan)) (a : HistoryAssembler) : HistoryAssembler :=
  {| next_seq := next_seq a; texts := texts a; tools := tools a; plans := l |}.
Definition take_seq (a : HistoryAssembler) : N * HistoryAssembler :=
  (next_seq a, {| next_seq := saturating_add_u32 (next_seq a) 1; texts := texts a; tools := tools a; plans := plans a |}).

Definition chunk_record (kind : TextKind) (chunk : ContentChunk) : HistoryRecord :=
  UpdateRecord (match kind with Message => AgentMessageChunk chunk | Thought => AgentThoughtChunk chunk end) None.
Definition tool_record (seq : N) (call : ToolCall) (timing : option ToolCallTiming) : AssembledRecord :=
  assembled seq (UpdateRecord (UpdateToolCall call) timing).
Definition text_record (p : PendingText) : AssembledRecord := assembled (pt_seq p) (chunk_record (pt_kind p) (pt_chunk p)).
Definition plan_record (p : N * Plan) : AssembledRecord := assembled p.1 (UpdateRecord (UpdatePlan p.2) None).

Definition is_terminal (s : ToolCallStatus) : bool := match s with ToolCompleted | ToolFailed => true | _ => false end.
Definition is_unfinished (s : ToolCallStatus) : bool := match s with ToolPending | ToolInProgress => true | _ => false end.
Definition with_status (s : ToolCallStatus) (c : ToolCall) : ToolCall :=
  {| tl_id := tl_id c; tl_title := tl_title c; tl_status := s; tl_meta := tl_meta c; tl_rest := tl_rest c |}.
Definition with_meta (m : option Meta) (c : ToolCall) : ToolCall :=
  {| tl_id := tl_id c; tl_title := tl_title c; tl_status := tl_status c; tl_meta := m; tl_rest := tl_rest c |}.

(** [PendingTool::settle], [settle_at_turn_end] *)
Definition settle (p : PendingTool) : PendingTool * list AssembledRecord :=
  if negb (is_terminal (tl_status (pd_call p))) && negb (pd_written p) then (p, [])
  else ({| pd_seq := pd_seq p; pd_call := pd_call p; pd_written := true; pd_timing := pd_timing p |},
        [tool_record (pd_seq p) (pd_call p) (pd_timing p)]).
Definition settle_at_turn_end (stop_reason : StopReason) (p : PendingTool) : option AssembledRecord :=
  let unfinished := is_unfinished (tl_status (pd_call p)) in
  let projected := bool_decide (is_Some (child_source_id (tl_meta (pd_call p)))) in
  if unfinished && negb projected && bool_decide (stop_reason = EndTurn)
  then Some (tool_record (pd_seq p) (with_status ToolCompleted (pd_call p)) (pd_timing p))
  else if pd_written p then None else Some (tool_record (pd_seq p) (pd_call p) (pd_timing p)).

Definition seq_le (p q : AssembledRecord) : Prop := (as_seq p <= as_seq q)%N.
#[export] Instance seq_le_dec : RelDecision seq_le.
Proof. intros p q. unfold seq_le. apply _. Defined.

Definition push_user_block (block : ContentBlock) (acc : HistoryAssembler * list AssembledRecord) :
    HistoryAssembler * list AssembledRecord :=
  let '(seq, a) := take_seq acc.1 in
  (a, acc.2 ++ [assembled seq (UpdateRecord (UserMessageChunk
                  {| cc_content := block; cc_message_id := None; cc_meta := None |}) None)]).
Definition push_user_prompt (blocks : list ContentBlock) (a : HistoryAssembler) : HistoryAssembler * list AssembledRecord :=
  fold_left (fun acc block => push_user_block block acc) blocks (a, []).

Definition settle_texts (can_no_longer_grow : PendingText -> bool) (a : HistoryAssembler) :
    HistoryAssembler * list AssembledRecord :=
  (with_texts (filter (fun p => can_no_longer_grow p = false) (texts a)) a,
   text_record <$> filter (fun p => can_no_longer_grow p = true) (texts a)).
Definition unidentified (p : PendingText) : bool := bool_decide (cc_message_id (pt_chunk p) = None).
Definition interrupt_unidentified_text (a : HistoryAssembler) : HistoryAssembler * list AssembledRecord :=
  settle_texts unidentified a.

(** The open text a chunk continues. *)
Definition continues (kind : TextKind) (chunk : ContentChunk) (text : TextContent) (p : PendingText) : bool :=
  bool_decide (pt_kind p = kind) && bool_decide (cc_message_id (pt_chunk p) = cc_message_id chunk)
  && meta_eqb (cc_meta (pt_chunk p)) (cc_meta chunk)
  && match cc_content (pt_chunk p) with
     | TextBlock previous => option_eqb value_eqb (tc_annotations previous) (tc_annotations text)
                             && meta_eqb (tc_meta previous) (tc_meta text)
     | _ => false
     end.
(** [previous.text.push_str(&text.text)] *)
Definition push_str (more : string) (c : ContentChunk) : ContentChunk :=
  {| cc_content := match cc_content c with
                   | TextBlock t => TextBlock {| tc_text := tc_text t +:+ more; tc_annotations := tc_annotations t; tc_meta := tc_meta t |}
                   | other => other
                   end;
     cc_message_id := cc_message_id c; cc_meta := cc_meta c |}.
Definition grow (more : string) (p : PendingText) : PendingText :=
  {| pt_seq := pt_seq p; pt_kind := pt_kind p; pt_chunk := push_str more (pt_chunk p) |}.
(** [iter_mut().find(p)], changed in place. *)
Fixpoint update_first {A} (p : A -> bool) (f : A -> A) (l : list A) : list A :=
  match l with [] => [] | x :: l => if p x then f x :: l else x :: update_first p f l end.

Definition push_text (kind : TextKind) (chunk : ContentChunk) (a : HistoryAssembler) : HistoryAssembler * list AssembledRecord :=
  match cc_content chunk with
  | TextBlock text =>
      if existsb (continues kind chunk text) (texts a)
      then (with_texts (update_first (continues kind chunk text) (grow (tc_text text)) (texts a)) a, [])
      else
        let '(a, records) := settle_texts (fun p => bool_decide (pt_kind p = kind)
          && match cc_message_id chunk with Some _ => negb (unidentified p) | None => unidentified p end) a in
        let '(seq, a) := take_seq a in
        (with_texts (texts a ++ [{| pt_seq := seq; pt_kind := kind; pt_chunk := chunk |}]) a, records)
  | _ =>
      let '(a, records) := interrupt_unidentified_text a in
      let '(seq, a) := take_seq a in
      (a, records ++ [assembled seq (chunk_record kind chunk)])
  end.

Definition is_tool (id : ToolCallId) (p : PendingTool) : bool := bool_decide (tl_id (pd_call p) = id).
Definition open_tool (call : ToolCall) (timing : option ToolCallTiming) (a : HistoryAssembler) :
    HistoryAssembler * list AssembledRecord :=
  let '(a, records) := interrupt_unidentified_text a in
  let '(seq, a) := take_seq a in
  let '(pending, settled) := settle {| pd_seq := seq; pd_call := call; pd_written := false; pd_timing := timing |} in
  (with_tools (tools a ++ [pending]) a, records ++ settled).
Definition revise_tool (f : ToolCall -> ToolCall) (timing : option ToolCallTiming) (p : PendingTool) : PendingTool :=
  {| pd_seq := pd_seq p; pd_call := f (pd_call p); pd_written := pd_written p;
     pd_timing := match timing with Some _ => timing | None => pd_timing p end |}.
(** The tool at its index is changed in place and settles. *)
Definition change_tool (id : ToolCallId) (f : ToolCall -> ToolCall) (timing : option ToolCallTiming) (a : HistoryAssembler) :
    option (HistoryAssembler * list AssembledRecord) :=
  pending ← find_first (is_tool id) (tools a);
  let '(settled, records) := settle (revise_tool f timing pending) in
  Some (with_tools (update_first (is_tool id) (fun _ => settled) (tools a)) a, records).
Definition upsert_tool (call : ToolCall) (timing : option ToolCallTiming) (a : HistoryAssembler) :
    HistoryAssembler * list AssembledRecord :=
  match change_tool (tl_id call) (fun _ => call) timing a with
  | Some r => r
  | None => open_tool call timing a
  end.
Section assembler.
Context {calls : ToolCalls}.

Definition apply_update (update : ToolCallUpdate) (call : ToolCall) : ToolCall :=
  let call := tool_call_update (tu_fields update) call in
  with_meta (retain_tool_metadata (tl_meta call) (tu_meta update)) call.
Definition update_tool (update : ToolCallUpdate) (timing : option ToolCallTiming) (a : HistoryAssembler) :
    HistoryAssembler * list AssembledRecord :=
  match change_tool (tu_id update) (apply_update update) timing a with
  | Some r => r
  | None => open_tool (apply_update update (new_tool_call (tu_id update) "Tool call")) timing a
  end.

Definition same_source (plan : Plan) (p : N * Plan) : bool :=
  bool_decide (child_source_id (pl_meta p.2) = child_source_id (pl_meta plan)).
Definition replace_plan (plan : Plan) (a : HistoryAssembler) : HistoryAssembler * list AssembledRecord :=
  if existsb (same_source plan) (plans a)
  then (with_plans (update_first (same_source plan) (fun p => (p.1, plan)) (plans a)) a, [])
  else
    let '(a, records) := interrupt_unidentified_text a in
    let '(seq, a) := take_seq a in
    (with_plans (plans a ++ [(seq, plan)]) a, records).

Definition update_tool_timing (id : ToolCallId) (timing : ToolCallTiming) (a : HistoryAssembler) : HistoryAssembler :=
  with_tools (update_first (is_tool id) (revise_tool (fun c => c) (Some timing)) (tools a)) a.

Definition push_update_inner (update : SessionUpdate) (timing : option ToolCallTiming) (a : HistoryAssembler) :
    HistoryAssembler * list AssembledRecord :=
  match update with
  | UserMessageChunk _ => (a, [])
  | AgentMessageChunk chunk => push_text Message chunk a
  | AgentThoughtChunk chunk => push_text Thought chunk a
  | UpdateToolCall call => upsert_tool call timing a
  | UpdateToolCallUpdate update => update_tool update timing a
  | UpdatePlan plan => replace_plan plan a
  | SessionChrome _ => (a, [])
  end.
Definition push_update (update : SessionUpdate) : HistoryAssembler -> HistoryAssembler * list AssembledRecord :=
  push_update_inner update None.
Definition push_timed_update (update : SessionUpdate) (timing : ToolCallTiming) :
    HistoryAssembler -> HistoryAssembler * list AssembledRecord := push_update_inner update (Some timing).
End assembler.

Definition end_turn (stop_reason : StopReason) (a : HistoryAssembler) : HistoryAssembler * list AssembledRecord :=
  let records := merge_sort seq_le ((text_record <$> texts a) ++ omap (settle_at_turn_end stop_reason) (tools a)
                                    ++ (plan_record <$> plans a)) in
  let '(seq, a) := take_seq (with_plans [] (with_tools [] (with_texts [] a))) in
  (a, records ++ [assembled seq (TurnEnded stop_reason)]).

(** The open items in the order of the collections, then [pending_records]. *)
Definition open_records (a : HistoryAssembler) : list AssembledRecord :=
  (text_record <$> texts a)
  ++ ((fun p => tool_record (pd_seq p) (pd_call p) (pd_timing p)) <$> filter (fun p => pd_written p = false) (tools a))
  ++ (plan_record <$> plans a).
Definition pending_records (a : HistoryAssembler) : list AssembledRecord := merge_sort seq_le (open_records a).

(** ** Reading a file back ([reader.rs]) *)

(** [serde_json] on one line. *)
Class LineText := { encode_line : HistoryLine -> string; decode_line : string -> option HistoryLine }.

Inductive HistoryIntegrity : Type := Complete | Damaged (unreadable_lines : nat).
#[export] Instance HistoryIntegrity_eq_dec : EqDecision HistoryIntegrity.
Proof. solve_decision. Defined.
Record SessionHistory : Type := { sh_lines : list HistoryLine; sh_next_seq : N; sh_integrity : HistoryIntegrity }.
Definition empty_history : SessionHistory := {| sh_lines := []; sh_next_seq := 0%N; sh_integrity := Complete |}.
Definition is_empty (h : SessionHistory) : bool := bool_decide (length (sh_lines h) = 0%nat).

Definition line_le (p q : HistoryLine) : Prop := (hl_seq p <= hl_seq q)%N.
#[export] Instance line_le_dec : RelDecision line_le.
Proof. intros p q. unfold line_le. apply _. Defined.
(** [filter(|line| seen.insert(line.seq))] *)
Fixpoint keep_unseen (seen : gset N) (ls : list HistoryLine) : list HistoryLine :=
  match ls with
  | [] => []
  | l :: ls => if bool_decide (hl_seq l ∈ seen) then keep_unseen seen ls
               else l :: keep_unseen ({[hl_seq l]} ∪ seen) ls
  end.
Definition order_lines (ls : list HistoryLine) : list HistoryLine := merge_sort line_le (keep_unseen ∅ (reverse ls)).

Definition NEWLINE : ascii := byte_at 10.
Section reader.
Context {text : LineText}.

(** The decoded lines and the number of lines that were lost: an unreadable last segment does not count when the
    file does not end with a newline. *)
Fixpoint decode_segments (torn : bool) (segments : list string) : list HistoryLine * nat :=
  match segments with
  | [] => ([], 0%nat)
  | segment :: rest =>
      let '(parsed, dropped) := decode_segments torn rest in
      match decode_line segment with
      | Some line => (line :: parsed, dropped)
      | None => (parsed, if torn && bool_decide (length rest = 0%nat) then dropped else S dropped)
      end
  end.
Definition segments_of (file : string) : list string := filter (fun s => s <> "") (split_char NEWLINE file).
Definition parse_history (file : string) : SessionHistory :=
  let torn := negb (ends_with (String NEWLINE "") file) in
  let '(parsed, dropped) := decode_segments torn (segments_of file) in
  {| sh_lines := order_lines parsed;
     sh_next_seq := match parsed with
                    | [] => 0%N
                    | _ => saturating_add_u32 (fold_right N.max 0%N (hl_seq <$> parsed)) 1
                    end;
     sh_integrity := match dropped with O => Complete | S _ => Damaged dropped end |}.
(** A missing file is an empty history; [None] stands for a file that cannot be read. *)
Definition read_session_history (file : option string) : SessionHistory := parse_history (default "" file).
Definition read_session_history_up_to (file : option string) (max_bytes : nat) : SessionHistory :=
  match file with Some file => parse_history (String.substring 0 max_bytes file) | None => empty_history end.
End reader.

(** ** The writer and the recorder ([writer.rs], [agent-runtime/src/history.rs]) *)

(** What one append meets: it succeeds, the file cannot be opened (or the line cannot be encoded), or the write fails
    after some bytes. *)
Inductive WriteAnswer : Type := WriteOk | OpenFailed | WriteFailed (bytes_written : nat).
(** The formatted local time of an append, its outcome and the text of its failure, and the monotonic clock in
    milliseconds; appends and clock readings are numbered. *)
Class HistoryHost := {
  formatted_now : nat -> string;
  write_answer : nat -> WriteAnswer;
  failure_text : nat -> string;
  instant_at : nat -> N;
  wants_record_previews : bool;
}.
Inductive RecordOutcome : Type := Continued | JustFailed (reason : string).
Inductive HistoryState : Type := Writable | Degraded (reason : string).

Section recorder.
Context {calls : ToolCalls} {text : LineText} {host : HistoryHost}.

(** The recorder, its file and what it told the host. *)
Record SessionRecorder : Type := {
  rr_file : option string; rr_durable_bytes : nat; rr_assembler : HistoryAssembler; rr_stopped : bool;
  rr_settled : list HistoryLine; rr_previews : list (list AssembledRecord); rr_last_preview : option N; rr_tick : nat;
}.
Definition with_assembler (a : HistoryAssembler) (r : SessionRecorder) : SessionRecorder :=
  {| rr_file := rr_file r; rr_durable_bytes := rr_durable_bytes r; rr_assembler := a; rr_stopped := rr_stopped r;
     rr_settled := rr_settled r; rr_previews := rr_previews r; rr_last_preview := rr_last_preview r; rr_tick := rr_tick r |}.
Definition with_stopped (b : bool) (r : SessionRecorder) : SessionRecorder :=
  {| rr_file := rr_file r; rr_durable_bytes := rr_durable_bytes r; rr_assembler := rr_assembler r; rr_stopped := b;
     rr_settled := rr_settled r; rr_previews := rr_previews r; rr_last_preview := rr_last_preview r; rr_tick := rr_tick r |}.
Definition recorder_tick (r : SessionRecorder) : SessionRecorder :=
  {| rr_file := rr_file r; rr_durable_bytes := rr_durable_bytes r; rr_assembler := rr_assembler r; rr_stopped := rr_stopped r;
     rr_settled := rr_settled r; rr_previews := rr_previews r; rr_last_preview := rr_last_preview r; rr_tick := S (rr_tick r) |}.
Definition with_preview (records : list AssembledRecord) (last : option N) (r : SessionRecorder) : SessionRecorder :=
  {| rr_file := rr_file r; rr_durable_bytes := rr_durable_bytes r; rr_assembler := rr_assembler r; rr_stopped := rr_stopped r;
     rr_settled := rr_settled r; rr_previews := rr_previews r ++ [records]; rr_last_preview := last; rr_tick := rr_tick r |}.
Definition with_last_preview (last : option N) (r : SessionRecorder) : SessionRecorder :=
  {| rr_file := rr_file r; rr_durable_bytes := rr_durable_bytes r; rr_assembler := rr_assembler r; rr_stopped := rr_stopped r;
     rr_settled := rr_settled r; rr_previews := rr_previews r; rr_last_preview := last; rr_tick := rr_tick r |}.

Definition line_bytes (line : HistoryLine) : string := encode_line line +:+ String NEWLINE "".
(** [HistoryWriter::append] of one record, then [record_settled]. *)
Definition write_record (record : AssembledRecord) (r : SessionRecorder) : option string * SessionRecorder :=
  let line := {| hl_at := formatted_now (rr_tick r); hl_seq := as_seq record; hl_record := as_record record |} in
  let buffer := line_bytes line in
  let with_file file durable settled :=
    {| rr_file := file; rr_durable_bytes := durable; rr_assembler := rr_assembler r; rr_stopped := rr_stopped r;
       rr_settled := settled; rr_previews := rr_previews r; rr_last_preview := rr_last_preview r; rr_tick := S (rr_tick r) |} in
  match write_answer (rr_tick r) with
  | WriteOk => (None, with_file (Some (default "" (rr_file r) +:+ buffer)) (rr_durable_bytes r + String.length buffer)%nat
                        (rr_settled r ++ [line]))
  | OpenFailed => (Some (failure_text (rr_tick r)), with_file (rr_file r) (rr_durable_bytes r) (rr_settled r))
  | WriteFailed n => (Some (failure_text (rr_tick r)),
      with_file (Some (default "" (rr_file r) +:+ String.substring 0 n buffer)) (rr_durable_bytes r) (rr_settled r))
  end.
Fixpoint write_records (records : list AssembledRecord) (r : SessionRecorder) : RecordOutcome * SessionRecorder :=
  match records with
  | [] => (Continued, r)
  | record :: records =>
      match write_record record r with
      | (None, r) => write_records records r
      | (Some reason, r) => (JustFailed reason, with_stopped true r)
      end
  end.
(** [append] *)
Definition append (records : list AssembledRecord) (r : SessionRecorder) : RecordOutcome * SessionRecorder :=
  if rr_stopped r then (Continued, r) else write_records records r.

(** The assembler takes a step and what it settled is appended. *)
Definition assemble (step : HistoryAssembler -> HistoryAssembler * list AssembledRecord) (r : SessionRecorder) :
    RecordOutcome * SessionRecorder :=
  let '(a, records) := step (rr_assembler r) in append records (with_assembler a r).
Definition append_standalone (record : HistoryRecord) (r : SessionRecorder) : RecordOutcome * SessionRecorder :=
  assemble (fun a => let '(seq, a) := take_seq a in (a, [assembled seq record])) r.

Definition preview_pending (r : SessionRecorder) : SessionRecorder :=
  if negb wants_record_previews || rr_stopped r then r
  else
    let now := instant_at (rr_tick r) in
    let r := recorder_tick r in
    if match rr_last_preview r with Some last => (now - last <? 100)%N | None => false end then r
    else match pending_records (rr_assembler r) with
         | [] => r
         | pending => with_preview pending (Some now) r
         end.

Definition open_recorder (file : option string) (next : N) (state : HistoryState) : SessionRecorder :=
  {| rr_file := file; rr_durable_bytes := String.length (default "" file); rr_assembler := new_assembler next;
     rr_stopped := match state with Writable => false | Degraded _ => true end;
     rr_settled := []; rr_previews := []; rr_last_preview := None; rr_tick := 0 |}.
Definition record_meta (meta : SessionMeta) : SessionRecorder -> RecordOutcome * SessionRecorder :=
  append_standalone (MetaRecord meta).
Definition record_prompt (prompt : list ContentBlock) : SessionRecorder -> RecordOutcome * SessionRecorder :=
  assemble (push_user_prompt prompt).
(** The host's message identity on every block. *)
Definition identified (id : MessageId) (record : AssembledRecord) : AssembledRecord :=
  match as_record record with
  | UpdateRecord (UserMessageChunk chunk) timing =>
      assembled (as_seq record) (UpdateRecord (UserMessageChunk
        {| cc_content := cc_content chunk; cc_message_id := Some id; cc_meta := cc_meta chunk |}) timing)
  | _ => record
  end.
Definition record_identified_prompt (prompt : list ContentBlock) (id : MessageId) :
    SessionRecorder -> RecordOutcome * SessionRecorder :=
  assemble (fun a => let '(a, records) := push_user_prompt prompt a in (a, identified id <$> records)).
Definition record_update (update : SessionUpdate) (r : SessionRecorder) : RecordOutcome * SessionRecorder :=
  let '(outcome, r) := assemble (push_update update) r in (outcome, preview_pending r).
Definition record_timed_update (update : SessionUpdate) (timing : ToolCallTiming) (r : SessionRecorder) :
    RecordOutcome * SessionRecorder :=
  let '(outcome, r) := assemble (push_timed_update update timing) r in (outcome, preview_pending r).
Definition finish_tool_timings (timings : list (ToolCallId * ToolCallTiming)) (r : SessionRecorder) : SessionRecorder :=
  with_assembler (fold_left (fun a t => update_tool_timing t.1 t.2 a) timings (rr_assembler r)) r.
Definition record_turn_end (stop_reason : StopReason) (r : SessionRecorder) : RecordOutcome * SessionRecorder :=
  let '(outcome, r) := assemble (end_turn stop_reason) r in
  (outcome, with_last_preview None (if wants_record_previews then with_preview [] None r else r)).
Definition record_agent_switch (switch : AgentSwitch) : SessionRecorder -> RecordOutcome * SessionRecorder :=
  append_standalone (AgentSwitched switch).
Definition record_handoff_delivered (agent_session_id : string) : SessionRecorder -> RecordOutcome * SessionRecorder :=
  append_standalone (HandoffDelivered agent_session_id).
Definition resume (reason : string) (r : SessionRecorder) : RecordOutcome * SessionRecorder :=
  append_standalone (Gap reason) (with_stopped false r).

(** [open_recorder] of [record.rs] for a file that can be read. *)
Definition reopen (file : option string) (state : HistoryState) : SessionRecorder :=
  open_recorder file (sh_next_seq (read_session_history file)) state.
End recorder.

(** ** Replay ([agent-runtime/src/replay.rs]) *)

Inductive LoadSessionEvent : Type :=
| UnreadableRecords (count : N)
| UnrecordedContent (reason : string)
| LoadedUpdate (update : SessionUpdate) (recorded_at : option string) (tool_timing : option ToolCallTiming)
| LoadedTurnEnded (stop_reason : StopReason) (recorded_at : option string).
Definition integrity_notice (integrity : HistoryIntegrity) : list LoadSessionEvent :=
  match integrity with Complete => [] | Damaged n => [UnreadableRecords (N.min (N.of_nat n) u32_max)] end.
Definition map_record (record : HistoryRecord) (recorded_at : option string) : option LoadSessionEvent :=
  match record with
  | UpdateRecord update timing => Some (LoadedUpdate update recorded_at timing)
  | TurnEnded stop_reason => Some (LoadedTurnEnded stop_reason recorded_at)
  | Gap reason => Some (UnrecordedContent reason)
  | MetaRecord _ | AgentSwitched _ | HandoffDelivered _ => None
  end.
Definition recorded_replay (h : SessionHistory) : list LoadSessionEvent :=
  integrity_notice (sh_integrity h) ++ omap (fun l => map_record (hl_record l) (Some (hl_at l))) (sh_lines h).

Record Replayed : Type := { rp_seq : N; rp_record : HistoryRecord; rp_at : option string }.
Definition replayed_le (p q : Replayed) : Prop := (rp_seq p <= rp_seq q)%N.
#[export] Instance replayed_le_dec : RelDecision replayed_le.
Proof. intros p q. unfold replayed_le. apply _. Defined.
Definition replayed_line (l : HistoryLine) : Replayed := {| rp_seq := hl_seq l; rp_record := hl_record l; rp_at := Some (hl_at l) |}.
Definition replayed_pending (p : AssembledRecord) : Replayed := {| rp_seq := as_seq p; rp_record := as_record p; rp_at := None |}.
Definition merged (lines : list HistoryLine) (pending : list AssembledRecord) : list Replayed :=
  merge_sort replayed_le ((replayed_line <$> lines) ++ (replayed_pending <$> pending)).
Definition replay_prefix (h : SessionHistory) (pending : list AssembledRecord) : list LoadSessionEvent :=
  integrity_notice (sh_integrity h) ++ omap (fun p => map_record (rp_record p) (rp_at p)) (merged (sh_lines h) pending).

(** ** Handing a conversation over ([handoff.rs]) *)

Definition OPEN_MARKER : string := "<ora_session_handoff>".
Definition CLOSE_MARKER : string := "</ora_session_handoff>".
Definition ZERO_WIDTH_SPACE : string := bytes [226; 128; 139]%N.
(** [str::replace]: [skip] characters of the last match are still to be dropped. *)
Fixpoint replace_go (pat rep : string) (skip : nat) (s : string) : string :=
  match s with
  | "" => ""
  | String c rest =>
      match skip with
      | S skip => replace_go pat rep skip rest
      | O => if starts_with pat s then rep +:+ replace_go pat rep (String.length pat - 1) rest
             else String c (replace_go pat rep 0 rest)
      end
  end.
Definition str_replace (pat rep s : string) : string := replace_go pat rep 0 s.
Definition CLOSE_REPLACEMENT : string := "</ora_session_handoff" +:+ ZERO_WIDTH_SPACE +:+ ">".
Definition OPEN_REPLACEMENT : string := "<ora_session_handoff" +:+ ZERO_WIDTH_SPACE +:+ ">".
Definition neutralize_markers (text : string) : string :=
  str_replace OPEN_MARKER OPEN_REPLACEMENT (str_replace CLOSE_MARKER CLOSE_REPLACEMENT text).

Definition describe_content (content : ContentBlock) : string :=
  match content with
  | TextBlock text => neutralize_markers (tc_text text)
  | ImageBlock _ => "[image]"
  | AudioBlock _ => "[audio]"
  | ResourceLinkBlock uri _ => "[resource link: " +:+ uri +:+ "]"
  | ResourceBlock _ => "[embedded resource]"
  | OtherBlock _ => "[unsupported content]"
  end.
Definition describe_status (status : ToolCallStatus) (stop_reason : option StopReason) : string :=
  match status with
  | ToolCompleted => "completed"
  | ToolFailed => "failed"
  | ToolPending | ToolInProgress =>
      match stop_reason with
      | Some (Cancelled | Refusal | MaxTokens | MaxTurnRequests) => "interrupted, outcome unknown"
      | _ => "outcome not reported"
      end
  | ToolOther => "status not recognized"
  end.

Record HandoffTurn : Type := {
  ht_user : list string; ht_assistant : list string; ht_tools : list (string * ToolCallStatus);
  ht_notes : list string; ht_stop_reason : option StopReason;
}.
Definition empty_turn : HandoffTurn :=
  {| ht_user := []; ht_assistant := []; ht_tools := []; ht_notes := []; ht_stop_reason := None |}.
Definition turn_is_empty (t : HandoffTurn) : bool :=
  bool_decide (length (ht_user t) + length (ht_assistant t) + length (ht_tools t) + length (ht_notes t) = 0)%nat.
Definition NL : string := String NEWLINE "".
Definition stop_note (stop_reason : option StopReason) : string :=
  match stop_reason with
  | Some Cancelled => NL +:+ "_This turn was cancelled by the user before it finished._" +:+ NL
  | Some Refusal => NL +:+ "_The previous agent refused to continue this turn._" +:+ NL
  | Some (MaxTokens | MaxTurnRequests) => NL +:+ "_This turn stopped at the previous agent's limits._" +:+ NL
  | Some EndTurn | None => ""
  | Some OtherStop => NL +:+ "_This turn ended for a reason this Ora version does not recognize._" +:+ NL
  end.
(** What [render_into] appends. *)
Definition render_turn (t : HandoffTurn) : string :=
  (match ht_user t with [] => "" | user => NL +:+ "**User:**" +:+ NL +:+ join NL user +:+ NL end)
  +:+ (match ht_assistant t with [] => "" | assistant => NL +:+ "**Assistant:**" +:+ NL +:+ join NL assistant +:+ NL end)
  +:+ (match ht_tools t with
       | [] => ""
       | tools => NL +:+ "**Tools:** "
           +:+ join ", " ((fun p => p.1 +:+ " (" +:+ describe_status p.2 (ht_stop_reason t) +:+ ")") <$> tools) +:+ NL
       end)
  +:+ String.concat "" ((fun note => NL +:+ "_" +:+ note +:+ "_" +:+ NL) <$> ht_notes t)
  +:+ stop_note (ht_stop_reason t).

Definition absorb_update (t : HandoffTurn) (update : SessionUpdate) : HandoffTurn :=
  match update with
  | UserMessageChunk chunk =>
      {| ht_user := ht_user t ++ [describe_content (cc_content chunk)]; ht_assistant := ht_assistant t;
         ht_tools := ht_tools t; ht_notes := ht_notes t; ht_stop_reason := ht_stop_reason t |}
  | AgentMessageChunk chunk =>
      {| ht_user := ht_user t; ht_assistant := ht_assistant t ++ [describe_content (cc_content chunk)];
         ht_tools := ht_tools t; ht_notes := ht_notes t; ht_stop_reason := ht_stop_reason t |}
  | UpdateToolCall call =>
      {| ht_user := ht_user t; ht_assistant := ht_assistant t; ht_tools := ht_tools t ++ [(tl_title call, tl_status call)];
         ht_notes := ht_notes t; ht_stop_reason := ht_stop_reason t |}
  | _ => t
  end.
Definition add_note (note : string) (t : HandoffTurn) : HandoffTurn :=
  {| ht_user := ht_user t; ht_assistant := ht_assistant t; ht_tools := ht_tools t; ht_notes := ht_notes t ++ [note];
     ht_stop_reason := ht_stop_reason t |}.
Definition switch_note (s : AgentSwitch) : string :=
  "The conversation moved from " +:+ sw_from s +:+ " to " +:+ sw_to s +:+ " at this point.".
Definition gap_note (reason : string) : string :=
  "Part of the conversation is missing here because it could not be recorded (" +:+ reason +:+ ").".
Definition ended (stop_reason : StopReason) (t : HandoffTurn) : HandoffTurn :=
  {| ht_user := ht_user t; ht_assistant := ht_assistant t; ht_tools := ht_tools t; ht_notes := ht_notes t;
     ht_stop_reason := Some stop_reason |}.
(** One line of [collect_turns]: the closed turns and the current one. *)
Definition collect_line (acc : list HandoffTurn * HandoffTurn) (line : HistoryLine) : list HandoffTurn * HandoffTurn :=
  let '(turns, current) := acc in
  match hl_record line with
  | UpdateRecord update _ => (turns, absorb_update current update)
  | TurnEnded stop_reason =>
      let current := ended stop_reason current in
      (if turn_is_empty current then turns else turns ++ [current], empty_turn)
  | AgentSwitched s => (turns, add_note (switch_note s) current)
  | Gap reason => (turns, add_note (gap_note reason) current)
  | MetaRecord _ | HandoffDelivered _ => (turns, current)
  end.
Definition collect_turns (h : SessionHistory) : list HandoffTurn :=
  let '(turns, current) := fold_left collect_line (sh_lines h) ([], empty_turn) in
  if turn_is_empty current then turns else turns ++ [current].

Definition agent_before (record : HistoryRecord) : option string :=
  match record with AgentSwitched s => Some (sw_from s) | MetaRecord m => Some (sm_agent_ref m) | _ => None end.
Definition previous_agent (h : SessionHistory) : option string := head (omap (fun l => agent_before (hl_record l)) (reverse (sh_lines h))).

Definition COMPLETE_PREAMBLE : string :=
  ". The transcript below is its complete history, and the work it describes has already been done "
  +:+ bytes [226; 128; 148]%N +:+ " build on it instead of repeating it. Tool calls are listed by name and outcome only; "
  +:+ "their inputs and outputs are not included. Continue from where the conversation left off. The user's new message "
  +:+ "follows this block." +:+ NL.
Definition damaged_preamble (count : nat) : string :=
  ". This transcript is incomplete: " +:+ of_N (N.of_nat count) +:+ " history "
  +:+ (if (count =? 1)%nat then "record" else "records")
  +:+ " could not be decoded, and the original positions are unknown. Do not assume continuity. The surviving work has "
  +:+ "already been done " +:+ bytes [226; 128; 148]%N +:+ " build on it instead of repeating it. Tool calls are listed by "
  +:+ "name and outcome only; their inputs and outputs are not included. Continue from where the conversation left off. "
  +:+ "The user's new message follows this block." +:+ NL.
Definition turn_block (index : nat) (t : HandoffTurn) : string :=
  NL +:+ "## Turn " +:+ of_N (N.of_nat (S index)) +:+ NL +:+ render_turn t.
Definition handoff_body (h : SessionHistory) (turns : list HandoffTurn) : string :=
  OPEN_MARKER +:+ NL +:+ "This conversation was previously handled by a different coding agent"
  +:+ (match previous_agent h with Some previous => " (" +:+ previous +:+ ")" | None => "" end)
  +:+ (match sh_integrity h with Complete => COMPLETE_PREAMBLE | Damaged n => damaged_preamble n end)
  +:+ String.concat "" (imap turn_block turns).
Definition render_handoff (h : SessionHistory) : option string :=
  let turns := collect_turns h in
  if bool_decide (length turns = 0%nat) && bool_decide (sh_integrity h = Complete) then None
  else Some (handoff_body h turns +:+ CLOSE_MARKER).

(** The most recent of the two records that settle the question. *)
Fixpoint needs_handoff_scan (lines : list HistoryLine) : bool :=
  match lines with
  | [] => false
  | line :: lines =>
      match hl_record line with
      | HandoffDelivered _ => false
      | AgentSwitched _ => true
      | _ => needs_handoff_scan lines
      end
  end.
Definition binding_needs_handoff (h : SessionHistory) : bool := needs_handoff_scan (reverse (sh_lines h)).

(** The text of the agent's own message in a record: not a child's, and not other content. *)
Definition own_message (record : HistoryRecord) : option string :=
  match record with
  | UpdateRecord (AgentMessageChunk chunk) _ =>
      match child_source_id (cc_meta chunk), cc_content chunk with
      | None, TextBlock text => Some (tc_text text)
      | _, _ => None
      end
  | _ => None
  end.
Definition final_line (acc : list string * option (list string)) (line : HistoryLine) : list string * option (list string) :=
  let '(current, last) := acc in
  match hl_record line with
  | TurnEnded _ => match current with [] => ([], last) | _ => ([], Some current) end
  | record => match own_message record with Some text => (current ++ [text], last) | None => (current, last) end
  end.
Definition final_assistant_message (h : SessionHistory) : option string :=
  let '(current, last) := fold_left final_line (sh_lines h) ([], None) in
  join NL <$> match current with [] => last | _ => Some current end.

Record FinalTurn : Type := { ft_current : list string; ft_closed : option (list string * StopReason); ft_open : bool }.
Definition final_turn_line (acc : FinalTurn) (line : HistoryLine) : FinalTurn :=
  match hl_record line with
  | TurnEnded stop_reason => {| ft_current := []; ft_closed := Some (ft_current acc, stop_reason); ft_open := false |}
  | UpdateRecord (UserMessageChunk _) _ => {| ft_current := ft_current acc; ft_closed := ft_closed acc; ft_open := true |}
  | record =>
      match own_message record with
      | Some text => {| ft_current := ft_current acc ++ [text]; ft_closed := ft_closed acc; ft_open := true |}
      | None => acc
      end
  end.
Definition final_completed_assistant_turn (h : SessionHistory) : option string :=
  let acc := fold_left final_turn_line (sh_lines h) {| ft_current := []; ft_closed := None; ft_open := false |} in
  if ft_open acc then None
  else '(parts, stop_reason) ← ft_closed acc; if bool_decide (stop_reason = EndTurn) then Some (join NL parts) else None.
