(* ===== verification/SessionRecording.v ===== *)
(** * Recording a conversation

    What a conversation is, told by the calls of a recorder alone: a list of items, each in its latest form, the newest
    at the end.  The assembler and the log of what it settled follow that list position by position, whatever was
    streamed and however the items were written. *)

From Stdlib Require Import Ascii.
From stdpp Require Import fin_maps.
From S2P Require Import Prelude RustStr Json SessionHistory.
Local Open Scope ora_scope.

(** ** The conversation *)

(** What a recorder is called with. *)
Inductive RecorderCall : Type :=
| CallMeta (meta : SessionMeta)
| CallPrompt (prompt : list ContentBlock)
| CallIdentifiedPrompt (prompt : list ContentBlock) (id : MessageId)
| CallUpdate (update : SessionUpdate)
| CallTimedUpdate (update : SessionUpdate) (timing : ToolCallTiming)
| CallTimings (timings : list (ToolCallId * ToolCallTiming))
| CallTurnEnd (stop_reason : StopReason)
| CallAgentSwitch (switch : AgentSwitch)
| CallHandoffDelivered (agent_session_id : string)
| CallResume (reason : string).

(** An item: settled for good, or a text, a tool call or a plan that may still change.  A tool call is written as soon as
    it is over; [written] is the timing its line shows then, which a timing that arrives alone does not change. *)
Inductive Item : Type :=
| ItemSettled (record : HistoryRecord)
| ItemText (kind : TextKind) (chunk : ContentChunk)
| ItemTool (call : ToolCall) (timing : option ToolCallTiming) (written : option (option ToolCallTiming))
| ItemPlan (plan : Plan).

Definition said (kind : TextKind) (chunk : ContentChunk) : HistoryRecord :=
  match kind with
  | Message => UpdateRecord (AgentMessageChunk chunk) None
  | Thought => UpdateRecord (AgentThoughtChunk chunk) None
  end.
Definition called (call : ToolCall) (timing : option ToolCallTiming) : HistoryRecord :=
  UpdateRecord (UpdateToolCall call) timing.
Definition asked (id : option MessageId) (block : ContentBlock) : HistoryRecord :=
  UpdateRecord (UserMessageChunk {| cc_content := block; cc_message_id := id; cc_meta := None |}) None.
(** The record an item stands for. *)
Definition item_record (it : Item) : HistoryRecord :=
  match it with
  | ItemSettled record => record
  | ItemText kind chunk => said kind chunk
  | ItemTool call timing None => called call timing
  | ItemTool call _ (Some shown) => called call shown
  | ItemPlan plan => UpdateRecord (UpdatePlan plan) None
  end.

(** The first item of a kind changes; when there is none the conversation becomes [otherwise]. *)
Definition revise (p : Item -> bool) (f : Item -> Item) (otherwise items : list Item) : list Item :=
  match list_find (fun it => p it = true) items with
  | Some (i, it) => <[i := f it]> items
  | None => otherwise
  end.

(** *** Texts *)

Definition nameless (chunk : ContentChunk) : bool := match cc_message_id chunk with None => true | Some _ => false end.
Definition settle_where (p : TextKind -> ContentChunk -> bool) (it : Item) : Item :=
  match it with
  | ItemText kind chunk => if p kind chunk then ItemSettled (said kind chunk) else it
  | _ => it
  end.
(** Anything else that happens ends the texts without a message identifier. *)
Definition interrupted (items : list Item) : list Item := settle_where (fun _ => nameless) <$> items.
Definition alike (x y : option Value) : bool :=
  match x, y with None, None => true | Some x, Some y => value_eqb x y | _, _ => false end.
Definition alike_meta (x y : option Meta) : bool := alike (VObject <$> x) (VObject <$> y).
(** A chunk goes on with an open text of the same kind, message, metadata and annotations. *)
Definition goes_on (kind : TextKind) (chunk : ContentChunk) (text : TextContent) (it : Item) : bool :=
  match it with
  | ItemText kind' chunk' =>
      match cc_content chunk' with
      | TextBlock text' =>
          bool_decide (kind' = kind /\ cc_message_id chunk' = cc_message_id chunk)
          && alike_meta (cc_meta chunk') (cc_meta chunk) && alike_meta (tc_meta text') (tc_meta text)
          && alike (tc_annotations text') (tc_annotations text)
      | _ => false
      end
  | _ => false
  end.
Definition lengthened (more : string) (it : Item) : Item :=
  match it with
  | ItemText kind {| cc_content := TextBlock {| tc_text := s; tc_annotations := ann; tc_meta := m |}; cc_message_id := id; cc_meta := meta |} =>
      ItemText kind {| cc_content := TextBlock {| tc_text := s +:+ more; tc_annotations := ann; tc_meta := m |};
                       cc_message_id := id; cc_meta := meta |}
  | _ => it
  end.
(** A new text ends the open texts of its kind: those with a message identifier if it has one, those without if not.
    Content that is not text is settled at once. *)
Definition tell (kind : TextKind) (chunk : ContentChunk) (items : list Item) : list Item :=
  match cc_content chunk with
  | TextBlock text =>
      revise (goes_on kind chunk text) (lengthened (tc_text text))
        ((settle_where (fun kind' chunk' => bool_decide (kind' = kind) && Bool.eqb (nameless chunk') (nameless chunk)) <$> items)
         ++ [ItemText kind chunk]) items
  | _ => interrupted items ++ [ItemSettled (said kind chunk)]
  end.

(** *** Tool calls and plans *)

Definition over (status : ToolCallStatus) : bool := bool_decide (status ∈ [ToolCompleted; ToolFailed]).
Definition unfinished (status : ToolCallStatus) : bool := bool_decide (status ∈ [ToolPending; ToolInProgress]).
Definition new_tool (call : ToolCall) (timing : option ToolCallTiming) : Item :=
  ItemTool call timing (if over (tl_status call) then Some timing else None).
Definition calls_tool (id : ToolCallId) (it : Item) : bool :=
  match it with ItemTool call _ _ => bool_decide (tl_id call = id) | _ => false end.
(** The call becomes [f] of itself; a timing replaces the one known. *)
Definition use_tool (f : ToolCall -> ToolCall) (timing : option ToolCallTiming) (it : Item) : Item :=
  match it with
  | ItemTool call known written =>
      let known := match timing with Some _ => timing | None => known end in
      ItemTool (f call) known (match written with
                               | Some _ => Some known
                               | None => if over (tl_status (f call)) then Some known else None
                               end)
  | _ => it
  end.
Definition retime (timing : ToolCallTiming) (it : Item) : Item :=
  match it with ItemTool call _ written => ItemTool call (Some timing) written | _ => it end.
Definition call_tool (id : ToolCallId) (call : ToolCall) (f : ToolCall -> ToolCall) (timing : option ToolCallTiming)
    (items : list Item) : list Item :=
  revise (calls_tool id) (use_tool f timing) (interrupted items ++ [new_tool call timing]) items.
Fixpoint with_entries (target incoming : Meta) : Meta :=
  match incoming with [] => target | (key, v) :: incoming => with_entries (map_insert key v target) incoming end.
Definition shows_plan_of (plan : Plan) (it : Item) : bool :=
  match it with
  | ItemPlan plan' => bool_decide (child_source_id (pl_meta plan') = child_source_id (pl_meta plan))
  | _ => false
  end.

(** At the end of a turn everything is settled; only a normal end completes the calls that did not finish, those of a
    child session apart. *)
Definition closed (stop_reason : StopReason) (it : Item) : Item :=
  ItemSettled (match it with
    | ItemTool call timing _ =>
        if bool_decide (stop_reason = EndTurn /\ child_source_id (tl_meta call) = None) && unfinished (tl_status call)
        then called {| tl_id := tl_id call; tl_title := tl_title call; tl_status := ToolCompleted; tl_meta := tl_meta call;
                       tl_rest := tl_rest call |} timing
        else item_record it
    | _ => item_record it
    end).

Section conversation.
Context {calls : ToolCalls}.

(** The protocol's update of a call; metadata is kept and added to. *)
Definition updated_call (u : ToolCallUpdate) (call : ToolCall) : ToolCall :=
  let c := tool_call_update (tu_fields u) call in
  {| tl_id := tl_id c; tl_title := tl_title c; tl_status := tl_status c; tl_rest := tl_rest c;
     tl_meta := match tu_meta u with
                | None => tl_meta c
                | Some incoming => Some (with_entries (match tl_meta c with Some m => m | None => [] end) incoming)
                end |}.
Definition converse_update (update : SessionUpdate) (timing : option ToolCallTiming) (items : list Item) : list Item :=
  match update with
  | UserMessageChunk _ | SessionChrome _ => items
  | AgentMessageChunk chunk => tell Message chunk items
  | AgentThoughtChunk chunk => tell Thought chunk items
  | UpdateToolCall call => call_tool (tl_id call) call (fun _ => call) timing items
  | UpdateToolCallUpdate u =>
      call_tool (tu_id u) (updated_call u (new_tool_call (tu_id u) "Tool call")) (updated_call u) timing items
  | UpdatePlan plan => revise (shows_plan_of plan) (fun _ => ItemPlan plan) (interrupted items ++ [ItemPlan plan]) items
  end.
(** What a call of the recorder makes of the conversation. *)
Definition converse (items : list Item) (c : RecorderCall) : list Item :=
  match c with
  | CallMeta meta => items ++ [ItemSettled (MetaRecord meta)]
  | CallPrompt prompt => items ++ (ItemSettled <$> (asked None <$> prompt))
  | CallIdentifiedPrompt prompt id => items ++ (ItemSettled <$> (asked (Some id) <$> prompt))
  | CallUpdate update => converse_update update None items
  | CallTimedUpdate update timing => converse_update update (Some timing) items
  | CallTimings timings => fold_left (fun items t => revise (calls_tool t.1) (retime t.2) items items) timings items
  | CallTurnEnd stop_reason => (closed stop_reason <$> items) ++ [ItemSettled (TurnEnded stop_reason)]
  | CallAgentSwitch switch => items ++ [ItemSettled (AgentSwitched switch)]
  | CallHandoffDelivered id => items ++ [ItemSettled (HandoffDelivered id)]
  | CallResume reason => items ++ [ItemSettled (Gap reason)]
  end.
Definition conversation (cs : list RecorderCall) : list Item := fold_left converse cs [].
End conversation.

(** ** Positions written more than once *)

Definition at_seq (seq : N) (r : AssembledRecord) : bool := (as_seq r =? seq)%N.
(** The last record written for a position. *)
Definition latest (seq : N) (log : list AssembledRecord) : option HistoryRecord :=
  as_record <$> find_first (at_seq seq) (reverse log).
Implicit Types log out : list AssembledRecord.
Lemma latest_snoc seq log r : latest seq (log ++ [r]) = if at_seq seq r then Some (as_record r) else latest seq log.
Proof. unfold latest. rewrite reverse_snoc. simpl. by destruct (at_seq seq r). Qed.
Lemma latest_is_Some seq log : is_Some (latest seq log) <-> seq ∈ as_seq <$> log.
Proof.
  unfold latest. rewrite fmap_is_Some, find_first_is_Some, list_elem_of_fmap. unfold at_seq.
  setoid_rewrite elem_of_reverse. setoid_rewrite N.eqb_eq. naive_solver.
Qed.
Lemma latest_None seq log : seq ∉ as_seq <$> log -> latest seq log = None.
Proof. intros H. apply eq_None_not_Some. by rewrite latest_is_Some. Qed.
Lemma latest_app seq log log' : latest seq (log ++ log') = match latest seq log' with Some r => Some r | None => latest seq log end.
Proof.
  induction log' as [|r log' IH] using rev_ind; [by rewrite app_nil_r|].
  rewrite app_assoc, !latest_snoc. by destruct (at_seq seq r).
Qed.
Lemma latest_elem seq log r : latest seq log = Some r -> assembled seq r ∈ log.
Proof.
  unfold latest. intros (x & Hx & ->)%fmap_Some. apply find_first_Some in Hx as [Hin Hs%N.eqb_eq]. subst seq.
  destruct x. by apply elem_of_reverse.
Qed.
(** Where each position is written at most once, the order does not matter. *)
Lemma latest_by_elem seq log o : (forall r, assembled seq r ∈ log <-> o = Some r) -> latest seq log = o.
Proof.
  intros H. apply option_eq. intros r. split; intros Hr.
  - by apply H, latest_elem.
  - assert (is_Some (latest seq log)) as [r' Hr'].
    { apply latest_is_Some. change seq with (as_seq (assembled seq r)). by apply list_elem_of_fmap_2, H. }
    rewrite Hr'. pose proof (latest_elem _ _ _ Hr') as E. apply H in E. congruence.
Qed.
Definition from_seq (next : N) (rs : list HistoryRecord) : list AssembledRecord :=
  imap (fun i r => assembled (next + N.of_nat i) r) rs.
Lemma from_seq_cons next r rs : from_seq next (r :: rs) = assembled next r :: from_seq (next + 1) rs.
Proof.
  unfold from_seq. rewrite imap_cons. f_equal; [f_equal; lia|]. apply imap_ext. intros i x _. unfold compose. f_equal. lia.
Qed.

(** ** What the assembler holds of a conversation *)

(** The parts of the items that [f] picks, each told its position. *)
Fixpoint picked {A} (f : N -> Item -> option A) (s : N) (items : list Item) : list A :=
  match items with
  | [] => []
  | it :: items => match f s it with Some x => x :: picked f (s + 1) items | None => picked f (s + 1) items end
  end.
Definition as_text (s : N) (it : Item) : option PendingText :=
  match it with ItemText kind chunk => Some {| pt_seq := s; pt_kind := kind; pt_chunk := chunk |} | _ => None end.
Definition as_tool (s : N) (it : Item) : option PendingTool :=
  match it with
  | ItemTool call timing written =>
      Some {| pd_seq := s; pd_call := call; pd_written := bool_decide (is_Some written); pd_timing := timing |}
  | _ => None
  end.
Definition as_plan (s : N) (it : Item) : option (N * Plan) := match it with ItemPlan plan => Some (s, plan) | _ => None end.
(** The line of an item that is in the file. *)
Definition durable (it : Item) : option HistoryRecord :=
  match it with ItemSettled r => Some r | ItemTool call _ (Some shown) => Some (called call shown) | _ => None end.

Section picked.
Context {A : Type} (f : N -> Item -> option A).
Implicit Types items : list Item.

Lemma picked_app s items items' : picked f s (items ++ items') = picked f s items ++ picked f (s + N.of_nat (length items)) items'.
Proof.
  revert s. induction items as [|it items IH]; intros s; cbn [picked app length]; [by rewrite N.add_0_r|]. rewrite IH.
  replace (s + 1 + N.of_nat (length items))%N with (s + N.of_nat (S (length items)))%N by lia. by destruct (f s it).
Qed.
Lemma picked_elem s items x : x ∈ picked f s items <-> exists i it, items !! i = Some it /\ f (s + N.of_nat i)%N it = Some x.
Proof.
  revert s. induction items as [|it items IH]; intros s; [split; [by intros ?%elem_of_nil|by intros (i & it & ? & _)]|].
  assert (Hx : (exists i it', (it :: items) !! i = Some it' /\ f (s + N.of_nat i)%N it' = Some x)
    <-> f s it = Some x \/ x ∈ picked f (s + 1) items).
  { rewrite IH. split.
    - intros ([|i] & it' & Hi & Hf); [left; injection Hi as ->; by rewrite N.add_0_r in Hf|right].
      exists i, it'. split; [done|]. by replace (s + 1 + N.of_nat i)%N with (s + N.of_nat (S i))%N by lia.
    - intros [Hf|(i & it' & Hi & Hf)]; [exists 0, it; by rewrite N.add_0_r|]. exists (S i), it'. split; [done|].
      by replace (s + N.of_nat (S i))%N with (s + 1 + N.of_nat i)%N by lia. }
  rewrite Hx. cbn [picked]. destruct (f s it) as [y|] eqn:E; [rewrite elem_of_cons|]; naive_solver.
Qed.
Lemma picked_insert s items i it it' :
  items !! i = Some it -> (forall n, f n it = None /\ f n it' = None) -> picked f s (<[i := it']> items) = picked f s items.
Proof.
  intros Hi Hf. revert s i Hi. induction items as [|x items IH]; intros s i Hi; [done|]. destruct i as [|i]; cbn [insert list_insert picked].
  - injection Hi as ->. by rewrite (proj1 (Hf s)), (proj2 (Hf s)).
  - cbn [picked]. by rewrite IH.
Qed.
Lemma picked_same s items g : (forall n it, f n (g it) = f n it) -> picked f s (g <$> items) = picked f s items.
Proof. intros Hg. revert s. induction items as [|it items IH]; intros s; [done|]. cbn [fmap list_fmap picked]. by rewrite Hg, IH. Qed.
Lemma picked_nil s items g : (forall n it, f n (g it) = None) -> picked f s (g <$> items) = [].
Proof. intros Hg. revert s. induction items as [|it items IH]; intros s; [done|]. cbn [fmap list_fmap picked]. by rewrite Hg, IH. Qed.
Lemma picked_filter s items g (p : A -> bool) :
  (forall n it, f n (g it) = match f n it with Some x => if p x then None else Some x | None => None end) ->
  picked f s (g <$> items) = filter (fun x => p x = false) (picked f s items).
Proof.
  intros Hg. revert s. induction items as [|it items IH]; intros s; [done|]. cbn [fmap list_fmap picked]. rewrite Hg, IH.
  destruct (f s it) as [x|]; [|done]. rewrite filter_cons. destruct (p x); by case_decide.
Qed.
(** The first item with a property is the first one of those picked. *)
Lemma picked_find s items (p : Item -> bool) (q : A -> bool) :
  (forall n it, p it = match f n it with Some x => q x | None => false end) ->
  match list_find (fun it => p it = true) items with
  | Some (i, it) =>
      items !! i = Some it /\ p it = true /\ existsb q (picked f s items) = true
      /\ exists x, f (s + N.of_nat i)%N it = Some x /\ find_first q (picked f s items) = Some x
         /\ forall g it', f (s + N.of_nat i)%N it' = Some (g x) -> update_first q g (picked f s items) = picked f s (<[i := it']> items)
  | None => existsb q (picked f s items) = false /\ find_first q (picked f s items) = None
            /\ forall g, update_first q g (picked f s items) = picked f s items
  end.
Proof.
  intros Hp. revert s. induction items as [|it items IH]; intros s; [done|]. cbn [list_find].
  pose proof (Hp s it) as Hit. cbn [picked]. destruct (decide (p it = true)) as [Et|Ef].
  - rewrite Et in Hit. destruct (f s it) as [x|] eqn:Ef; [|done]. cbn [existsb find_first update_first]. rewrite <- Hit. split_and!; [done|done|done|].
    exists x. rewrite N.add_0_r. split_and!; [done|done|]. intros g it' Hit'. cbn [insert list_insert picked]. by rewrite Hit'.
  - apply not_true_is_false in Ef. rewrite Ef in Hit. specialize (IH (s + 1)%N).
    assert (Hfalse : match f s it with Some x => q x = false | None => True end) by (by destruct (f s it)).
    destruct (list_find _ items) as [[i it']|]; cbn [prod_map fmap option_fmap option_map fst snd].
    + destruct IH as (Hi & Hit' & He & x & Hx & Hfind & Hup).
      replace (s + 1 + N.of_nat i)%N with (s + N.of_nat (S i))%N in * by lia. split_and!; [done|done| |].
      * destruct (f s it); cbn [existsb]; [by rewrite Hfalse|done].
      * exists x. split_and!; [done|destruct (f s it); cbn [find_first]; [by rewrite Hfalse|done]|].
        intros g it'' H. specialize (Hup g it'' H). cbn [insert list_insert picked].
        destruct (f s it); cbn [update_first]; [rewrite Hfalse|]; by rewrite Hup.
    + destruct IH as (He & Hfind & Hup). split_and!.
      * destruct (f s it); cbn [existsb]; [by rewrite Hfalse|done].
      * destruct (f s it); cbn [find_first]; [by rewrite Hfalse|done].
      * intros g. destruct (f s it); cbn [update_first]; [rewrite Hfalse|]; by rewrite Hup.
Qed.
End picked.

Implicit Types items : list Item.

(** An assembler and the log of what it settled stand for the items, the first of them at position [start]. *)
Record follows (start : N) items (a : HistoryAssembler) log : Prop := {
  fo_next : next_seq a = (start + N.of_nat (length items))%N;
  fo_texts : texts a = picked as_text start items;
  fo_tools : tools a = picked as_tool start items;
  fo_plans : plans a = picked as_plan start items;
  fo_range : forall x, x ∈ log -> (start <= as_seq x < next_seq a)%N;
  fo_log : forall i it, items !! i = Some it -> latest (start + N.of_nat i) log = durable it;
}.
Notation Step := (HistoryAssembler -> HistoryAssembler * list AssembledRecord).
(** A step that does not run out of positions does to the items what [change] says. *)
Definition performs (step : Step) (change : list Item -> list Item) : Prop :=
  forall start items a log a' out, follows start items a log -> step a = (a', out) -> (next_seq a' < u32_max)%N ->
  follows start (change items) a' (log ++ out).

Lemma follows_new start : follows start [] (new_assembler start) [].
Proof. split; try done; [cbn; lia|by intros x ?%elem_of_nil]. Qed.
Lemma take_seq_next a seq a' : take_seq a = (seq, a') -> (next_seq a' < u32_max)%N ->
  seq = next_seq a /\ next_seq a' = (next_seq a + 1)%N /\ texts a' = texts a /\ tools a' = tools a /\ plans a' = plans a.
Proof. intros [= <- <-]. cbn [next_seq texts tools plans]. unfold saturating_add_u32. intros H. split_and!; [done|lia|done|done|done]. Qed.

(** Every item may settle at once: [out] holds the lines of the items that do. *)
Lemma follows_settled start items items' a a' log out :
  follows start items a log -> length items' = length items -> next_seq a' = next_seq a ->
  texts a' = picked as_text start items' -> tools a' = picked as_tool start items' -> plans a' = picked as_plan start items' ->
  (forall s r, assembled s r ∈ out -> exists i it it', s = (start + N.of_nat i)%N /\ items !! i = Some it
    /\ items' !! i = Some it' /\ durable it' = Some r) ->
  (forall i it it', items !! i = Some it -> items' !! i = Some it' ->
    durable it' = durable it \/ exists r, durable it' = Some r /\ assembled (start + N.of_nat i) r ∈ out) ->
  follows start items' a' (log ++ out).
Proof.
  intros [F1 F2 F3 F4 F5 F6] Hlen Hn H1 H2 H3 Hout Hall. split; try done; [by rewrite Hn, Hlen| |].
  - intros [s r] [Hx|Hx]%elem_of_app; rewrite Hn; [by apply F5|]. cbn [as_seq].
    destruct (Hout s r Hx) as (i & it & it' & -> & Hi%lookup_lt_Some & _). lia.
  - intros i it' Hi'. destruct (lookup_lt_is_Some_2 items i) as [it Hi]; [rewrite <- Hlen; by apply lookup_lt_Some in Hi'|].
    rewrite latest_app. specialize (F6 i it Hi).
    assert (Hsame : forall r, assembled (start + N.of_nat i) r ∈ out -> durable it' = Some r).
    { intros r Hr. destruct (Hout _ _ Hr) as (j & ? & it2 & Hs & _ & Hj & Hd). assert (i = j) as <- by lia. congruence. }
    destruct (Hall i it it' Hi Hi') as [Hd|(r & Hd & Hr)].
    + destruct (latest _ out) as [r|] eqn:El; [|congruence]. symmetry. apply Hsame. by apply latest_elem.
    + rewrite (latest_by_elem _ out (Some r)); [done|]. intros r'. split; [intros ?%Hsame; congruence|by intros [= <-]].
Qed.
Lemma settle_texts_follows p (q : PendingText -> bool) start items a log a' out :
  (forall x, q x = p (pt_kind x) (pt_chunk x)) -> follows start items a log -> settle_texts q a = (a', out) ->
  follows start (settle_where p <$> items) a' (log ++ out)
  /\ next_seq a' = next_seq a.
Proof.
  intros Hq F [= <- <-]. split; [|done]. eapply follows_settled; [exact F|by rewrite length_fmap|done| | | | |]; cbn [with_texts texts tools plans].
  - rewrite (fo_texts _ _ _ _ F). symmetry. apply picked_filter. intros n [ | | | ]; try done. cbn. rewrite Hq. cbn. by destruct (p _ _).
  - rewrite (fo_tools _ _ _ _ F). symmetry. apply picked_same. intros n [ | | | ]; try done. cbn. by destruct (p _ _).
  - rewrite (fo_plans _ _ _ _ F). symmetry. apply picked_same. intros n [ | | | ]; try done. cbn. by destruct (p _ _).
  - intros s r (x & Hs & [Hx Hin]%list_elem_of_filter)%list_elem_of_fmap. rewrite (fo_texts _ _ _ _ F) in Hin.
    apply picked_elem in Hin as (i & it & Hi & Hit). destruct it; try discriminate Hit. injection Hit as <-. injection Hs as -> ->.
    rewrite Hq in Hx. cbn in Hx. eexists i, _, _. rewrite list_lookup_fmap, Hi. cbn. rewrite Hx. split_and!; try done. by destruct kind.
  - intros i it it' Hi. rewrite list_lookup_fmap, Hi. intros [= <-]. destruct it as [|kind chunk| |]; try (by left).
    cbn [settle_where]. destruct (p kind chunk) eqn:Ep; [right|by left]. exists (said kind chunk). split; [done|].
    apply list_elem_of_fmap. exists {| pt_seq := start + N.of_nat i; pt_kind := kind; pt_chunk := chunk |}.
    split; [by destruct kind|]. apply list_elem_of_filter. rewrite Hq. split; [done|]. rewrite (fo_texts _ _ _ _ F).
    apply picked_elem. eexists _, _. split; [exact Hi|done].
Qed.
Definition option_cells {A} (o : option A) : list A := match o with Some x => [x] | None => [] end.
Lemma picked_one {A} (f : N -> Item -> option A) s items it :
  picked f s (items ++ [it]) = picked f s items ++ option_cells (f (s + N.of_nat (length items))%N it).
Proof. rewrite picked_app. cbn [picked]. by destruct (f _ it). Qed.
(** A new item. *)
Lemma follows_snoc start items it a a' log out :
  follows start items a log -> next_seq a' = (next_seq a + 1)%N ->
  texts a' = texts a ++ option_cells (as_text (next_seq a) it) -> tools a' = tools a ++ option_cells (as_tool (next_seq a) it) ->
  plans a' = plans a ++ option_cells (as_plan (next_seq a) it) ->
  out = option_cells (assembled (next_seq a) <$> durable it) -> follows start (items ++ [it]) a' (log ++ out).
Proof.
  intros [F1 F2 F3 F4 F5 F6] Hn H1 H2 H3 ->. rewrite F1 in *.
  assert (Hout : forall x, x ∈ option_cells (assembled (start + N.of_nat (length items)) <$> durable it) ->
    as_seq x = (start + N.of_nat (length items))%N).
  { intros x Hx. destruct (durable it); [by apply list_elem_of_singleton in Hx as ->|by apply elem_of_nil in Hx]. }
  split; rewrite ?picked_one; try congruence.
  - rewrite Hn, length_app. cbn [length]. lia.
  - rewrite Hn. intros x [Hx%F5|Hx%Hout]%elem_of_app; lia.
  - intros i y [Hi|[Hge Hi]]%lookup_app_Some; rewrite latest_app.
    + rewrite latest_None; [by apply F6|]. intros (x & Hs & Hx%Hout)%list_elem_of_fmap. apply lookup_lt_Some in Hi. lia.
    + apply list_lookup_singleton_Some in Hi as [Hi <-]. replace i with (length items) by lia.
      rewrite (latest_by_elem _ (option_cells _) (durable it)); [destruct (durable it); [done|]|].
      * apply latest_None. intros (x & Hs & Hx%F5)%list_elem_of_fmap. lia.
      * intros r. destruct (durable it) as [r'|]; cbn; [rewrite list_elem_of_singleton|split; [by intros ?%elem_of_nil|done]].
        split; [by intros [= ->]|by intros [= ->]].
Qed.
(** An item changes in place, in memory or by writing it (again). *)
Lemma follows_insert start items i it it' a a' log out :
  follows start items a log -> items !! i = Some it -> next_seq a' = next_seq a ->
  texts a' = picked as_text start (<[i := it']> items) -> tools a' = picked as_tool start (<[i := it']> items) ->
  plans a' = picked as_plan start (<[i := it']> items) ->
  out = [] /\ durable it' = durable it \/ (exists r, durable it' = Some r /\ out = [assembled (start + N.of_nat i) r]) ->
  follows start (<[i := it']> items) a' (log ++ out).
Proof.
  intros F Hi Hn H1 H2 H3 Hout. assert (Hlt : i < length items) by (by apply lookup_lt_Some in Hi).
  eapply follows_settled; [exact F|by rewrite length_insert|done|done|done|done| |].
  - intros s r Hr. destruct Hout as [[-> _]|(r' & Hd & ->)]; [by apply elem_of_nil in Hr|].
    apply list_elem_of_singleton in Hr as [= -> ->]. exists i, it, it'. by rewrite list_lookup_insert_eq.
  - intros j x x' Hj Hj'. apply list_lookup_insert_Some in Hj' as [(<- & <- & _)|[Hne Hj']]; [|left; congruence].
    destruct Hout as [[_ Hd]|(r & Hd & ->)]; [left; congruence|right]. exists r. split; [done|by apply list_elem_of_singleton].
Qed.

(** ** The steps of the assembler *)

Lemma unidentified_nameless x : unidentified x = nameless (pt_chunk x).
Proof. unfold unidentified, nameless. by destruct (cc_message_id (pt_chunk x)). Qed.
Lemma chunk_record_said kind chunk : chunk_record kind chunk = said kind chunk.
Proof. by destruct kind. Qed.
Lemma meta_alike x y : meta_eqb x y = alike_meta x y.
Proof. by destruct x, y. Qed.

(** A step that settles texts, takes a position and puts a new item there. *)
Lemma new_item_performs p q (it : N -> Item) (add : N -> HistoryAssembler -> HistoryAssembler) (at_once : N -> list AssembledRecord)
    (change : list Item -> list Item) :
  (forall x, q x = p (pt_kind x) (pt_chunk x)) ->
  (forall seq a, next_seq (add seq a) = next_seq a
    /\ texts (add seq a) = texts a ++ option_cells (as_text seq (it seq)) /\ tools (add seq a) = tools a ++ option_cells (as_tool seq (it seq))
    /\ plans (add seq a) = plans a ++ option_cells (as_plan seq (it seq))) ->
  (forall seq, at_once seq = option_cells (assembled seq <$> durable (it seq))) ->
  (forall seq items, change items = (settle_where p <$> items) ++ [it seq]) ->
  performs (fun a => let '(a, records) := settle_texts q a in
                     let '(seq, a) := take_seq a in (add seq a, records ++ at_once seq)) change.
Proof.
  intros Hq Hadd Honce Hchange start items a log a' out F E. destruct (settle_texts q a) as [a1 out1] eqn:E1.
  destruct (settle_texts_follows p q _ _ _ _ _ _ Hq F E1) as [F1 Hn1]. destruct (take_seq a1) as [seq a2] eqn:E2.
  injection E as <- <-. destruct (Hadd seq a2) as (Hn & H1 & H2 & H3). rewrite Hn. intros Hb.
  destruct (take_seq_next _ _ _ E2 Hb) as (-> & Hn2 & T1 & T2 & T3). rewrite app_assoc, (Hchange (next_seq a1)).
  eapply follows_snoc; [exact F1|congruence|congruence|congruence|congruence|by rewrite Honce].
Qed.
Lemma performs_ext step step' change : (forall a, step a = step' a) -> performs step change -> performs step' change.
Proof. intros Hs H start items a log a' out F E. apply (H start items a log a' out F). by rewrite Hs. Qed.

Lemma push_text_performs kind chunk : performs (push_text kind chunk) (tell kind chunk).
Proof.
  assert (Hother : performs (fun a => let '(a, records) := interrupt_unidentified_text a in
      let '(seq, a) := take_seq a in (a, records ++ [assembled seq (chunk_record kind chunk)]))
      (fun items => interrupted items ++ [ItemSettled (said kind chunk)])).
  { apply (new_item_performs (fun _ => nameless) unidentified (fun _ => ItemSettled (said kind chunk)) (fun _ a => a)
      (fun seq => [assembled seq (chunk_record kind chunk)])); try done.
    - apply unidentified_nameless.
    - intros seq a. cbn. by rewrite !app_nil_r.
    - intros seq. by rewrite chunk_record_said. }
  unfold push_text, tell. destruct (cc_content chunk) as [text| | | | |] eqn:Ec; try exact Hother.
  intros start items a log a' out F. unfold revise.
  pose proof (picked_find as_text start items (goes_on kind chunk text) (continues kind chunk text)) as Hfind. rewrite <- (fo_texts _ _ _ _ F) in Hfind.
  assert (Hcont : forall n it, goes_on kind chunk text it = match as_text n it with Some x => continues kind chunk text x | None => false end).
  { intros n [ |kind' chunk'| | ]; try done. cbn [goes_on as_text]. unfold continues. cbn [pt_kind pt_chunk].
    destruct (cc_content chunk'); try (by rewrite ?andb_false_r). rewrite !meta_alike, bool_decide_and.
    change (option_eqb value_eqb) with alike.
    rewrite <- !andb_assoc. by rewrite (andb_comm (alike_meta (tc_meta _) _)). }
  specialize (Hfind Hcont). destruct (list_find _ items) as [[i it]|].
  - destruct Hfind as (Hi & Hg & -> & x & Hx & _ & Hup). intros [= <- <-] _.
    destruct it as [|kind' chunk'| |]; try discriminate Hg. injection Hx as <-.
    eapply follows_insert; [exact F|exact Hi|done| | | |]; cbn [with_texts texts tools plans].
    + apply Hup. unfold grow, push_str. cbn. destruct chunk' as [[[]| | | | |] ? ?]; done.
    + rewrite (fo_tools _ _ _ _ F). symmetry. apply (picked_insert _ _ _ _ _ _ Hi). intros n. by destruct chunk' as [[[]| | | | |] ? ?].
    + rewrite (fo_plans _ _ _ _ F). symmetry. apply (picked_insert _ _ _ _ _ _ Hi). intros n. by destruct chunk' as [[[]| | | | |] ? ?].
    + left. split; [done|]. by destruct chunk' as [[[]| | | | |] ? ?].
  - destruct Hfind as (-> & _ & _). intros E.
    set (p := fun kind' chunk' => bool_decide (kind' = kind) && Bool.eqb (nameless chunk') (nameless chunk)).
    refine (new_item_performs p (fun x => bool_decide (pt_kind x = kind)
          && match cc_message_id chunk with Some _ => negb (unidentified x) | None => unidentified x end)
      (fun _ => ItemText kind chunk) (fun seq a => with_texts (texts a ++ [{| pt_seq := seq; pt_kind := kind; pt_chunk := chunk |}]) a)
      (fun _ => []) (fun items => (settle_where p <$> items) ++ [ItemText kind chunk]) _ _ _ _ start items a log a' out F _); try done.
    + intros x. unfold p. rewrite unidentified_nameless. f_equal. unfold nameless at 4.
      by destruct (cc_message_id chunk), (nameless (pt_chunk x)).
    + intros seq b. cbn. by rewrite !app_nil_r.
    + rewrite <- E. destruct (settle_texts _ a). destruct (take_seq _). by rewrite app_nil_r.
Qed.

Lemma over_terminal s : over s = is_terminal s.
Proof. by destruct s. Qed.
Lemma open_tool_performs call timing :
  performs (open_tool call timing) (fun items => interrupted items ++ [new_tool call timing]).
Proof.
  refine (performs_ext _ _ _ _ (new_item_performs (fun _ => nameless) unidentified (fun _ => new_tool call timing)
    (fun seq a => with_tools (tools a ++ [(settle {| pd_seq := seq; pd_call := call; pd_written := false; pd_timing := timing |}).1]) a)
    (fun seq => (settle {| pd_seq := seq; pd_call := call; pd_written := false; pd_timing := timing |}).2) _ unidentified_nameless _ _ _)).
  - intros a. unfold open_tool, interrupt_unidentified_text. destruct (settle_texts _ a). destruct (take_seq _). by destruct (settle _).
  - intros seq a. cbn [with_tools next_seq texts tools plans]. unfold new_tool, settle. rewrite over_terminal. cbn.
    rewrite !app_nil_r. by destruct (is_terminal _).
  - intros seq. unfold new_tool, settle. rewrite over_terminal. cbn. by destruct (is_terminal _).
  - done.
Qed.
Lemma calls_tool_picked id n it : calls_tool id it = match as_tool n it with Some x => is_tool id x | None => false end.
Proof. by destruct it. Qed.
Lemma use_tool_settles f timing n call known written pending out :
  settle (revise_tool f timing {| pd_seq := n; pd_call := call; pd_written := bool_decide (is_Some written); pd_timing := known |}) = (pending, out) ->
  let it' := use_tool f timing (ItemTool call known written) in
  as_tool n it' = Some pending
  /\ (out = [] /\ durable it' = durable (ItemTool call known written) \/ exists r, durable it' = Some r /\ out = [assembled n r]).
Proof.
  unfold settle. cbn [revise_tool use_tool as_tool pd_seq pd_call pd_written pd_timing]. cbv zeta. rewrite over_terminal.
  destruct written as [shown|].
  - rewrite bool_decide_eq_true_2 by eauto. rewrite andb_false_r. intros [= <- <-]. split; [done|]. right. by eexists.
  - rewrite bool_decide_eq_false_2 by (by intros [? ?]). rewrite andb_true_r.
    destruct (is_terminal (tl_status (f call))); intros [= <- <-]; (split; [done|]); [right; by eexists|by left].
Qed.
Lemma tool_performs id call f timing :
  performs (fun a => match change_tool id f timing a with Some r => r | None => open_tool call timing a end)
           (call_tool id call f timing).
Proof.
  intros start items a log a' out F. unfold change_tool, call_tool, revise.
  pose proof (picked_find as_tool start items (calls_tool id) (is_tool id) (calls_tool_picked id)) as Hfind.
  rewrite <- (fo_tools _ _ _ _ F) in Hfind. destruct (list_find _ items) as [[i it]|].
  - destruct Hfind as (Hi & Hg & _ & x & Hx & -> & Hup). cbn [mbind option_bind].
    destruct it as [| |call0 known written|]; try discriminate Hg. injection Hx as <-.
    destruct (settle _) as [pending out'] eqn:Es. intros [= <- <-] _.
    destruct (use_tool_settles _ _ _ _ _ _ _ _ Es) as [Hpick Hout]. set (it' := use_tool _ _ _) in *.
    eapply follows_insert; [exact F|exact Hi|done| | | |exact Hout]; cbn [with_tools texts tools plans].
    + rewrite (fo_texts _ _ _ _ F). symmetry. by apply (picked_insert _ _ _ _ _ _ Hi).
    + by apply Hup.
    + rewrite (fo_plans _ _ _ _ F). symmetry. by apply (picked_insert _ _ _ _ _ _ Hi).
  - destruct Hfind as (_ & -> & _). by apply open_tool_performs.
Qed.
Lemma update_tool_timing_follows id timing start items a log :
  follows start items a log ->
  follows start (revise (calls_tool id) (retime timing) items items) (update_tool_timing id timing a) log
  /\ next_seq (update_tool_timing id timing a) = next_seq a.
Proof.
  intros F. split; [|done]. unfold update_tool_timing, revise.
  pose proof (picked_find as_tool start items (calls_tool id) (is_tool id) (calls_tool_picked id)) as Hfind.
  rewrite <- (fo_tools _ _ _ _ F) in Hfind. destruct (list_find _ items) as [[i it]|].
  - destruct Hfind as (Hi & Hg & _ & x & Hx & _ & Hup). destruct it as [| |call known written|]; try discriminate Hg. injection Hx as <-.
    rewrite <- (app_nil_r log). eapply follows_insert; [exact F|exact Hi|done| | | |by left]; cbn [with_tools texts tools plans].
    + rewrite (fo_texts _ _ _ _ F). symmetry. by apply (picked_insert _ _ _ _ _ _ Hi).
    + by apply Hup.
    + rewrite (fo_plans _ _ _ _ F). symmetry. by apply (picked_insert _ _ _ _ _ _ Hi).
  - destruct Hfind as (_ & _ & Hup). rewrite Hup. by destruct F.
Qed.
Lemma replace_plan_performs plan :
  performs (replace_plan plan) (fun items => revise (shows_plan_of plan) (fun _ => ItemPlan plan) (interrupted items ++ [ItemPlan plan]) items).
Proof.
  intros start items a log a' out F. unfold replace_plan, revise.
  pose proof (picked_find as_plan start items (shows_plan_of plan) (same_source plan) ltac:(by intros n [])) as Hfind.
  rewrite <- (fo_plans _ _ _ _ F) in Hfind. destruct (list_find _ items) as [[i it]|].
  - destruct Hfind as (Hi & Hg & -> & x & Hx & _ & Hup). destruct it as [| | |plan']; try discriminate Hg. injection Hx as <-.
    intros [= <- <-] _. eapply follows_insert; [exact F|exact Hi|done| | | |by left]; cbn [with_plans texts tools plans].
    + rewrite (fo_texts _ _ _ _ F). symmetry. by apply (picked_insert _ _ _ _ _ _ Hi).
    + rewrite (fo_tools _ _ _ _ F). symmetry. by apply (picked_insert _ _ _ _ _ _ Hi).
    + by apply Hup.
  - destruct Hfind as (-> & _ & _). intros E.
    refine (new_item_performs (fun _ => nameless) unidentified (fun _ => ItemPlan plan)
      (fun seq a => with_plans (plans a ++ [(seq, plan)]) a) (fun _ => []) (fun items => interrupted items ++ [ItemPlan plan])
      unidentified_nameless _ _ _ start items a log a' out F _); try done.
    + intros seq b. cbn. by rewrite !app_nil_r.
    + rewrite <- E. unfold interrupt_unidentified_text. destruct (settle_texts _ a). destruct (take_seq _). by rewrite app_nil_r.
Qed.
Lemma standalone_performs record :
  performs (fun a => let '(seq, a) := take_seq a in (a, [assembled seq record])) (fun items => items ++ [ItemSettled record]).
Proof.
  intros start items a log a' out F. destruct (take_seq a) as [seq a1] eqn:E. intros [= <- <-] Hb.
  destruct (take_seq_next _ _ _ E Hb) as (-> & Hn & H1 & H2 & H3).
  apply (follows_snoc _ _ _ _ _ _ _ F); cbn; rewrite ?app_nil_r; done.
Qed.
Lemma follows_append start items a a' log rs :
  follows start items a log -> next_seq a' = (next_seq a + N.of_nat (length rs))%N ->
  texts a' = texts a -> tools a' = tools a -> plans a' = plans a ->
  follows start (items ++ (ItemSettled <$> rs)) a' (log ++ from_seq (next_seq a) rs).
Proof.
  revert items a log. induction rs as [|r rs IH]; intros items a log F Hn H1 H2 H3; cbn [length] in Hn.
  - change (from_seq _ []) with (@nil AssembledRecord). rewrite !app_nil_r. rewrite N.add_0_r in Hn. destruct F. split; rewrite ?Hn; try done; congruence.
  - rewrite from_seq_cons, fmap_cons, (cons_middle _ log), (cons_middle _ items), !app_assoc.
    refine (IH _ {| next_seq := next_seq a + 1; texts := texts a; tools := tools a; plans := plans a |} _ _ _ H1 H2 H3).
    + apply (follows_snoc _ _ _ _ _ _ _ F); cbn; rewrite ?app_nil_r; done.
    + cbn [next_seq]. lia.
Qed.
Lemma prompt_fold blocks acc a' out :
  fold_left (fun acc block => push_user_block block acc) blocks acc = (a', out) -> (next_seq a' < u32_max)%N ->
  next_seq a' = (next_seq acc.1 + N.of_nat (length blocks))%N
  /\ texts a' = texts acc.1 /\ tools a' = tools acc.1 /\ plans a' = plans acc.1
  /\ out = acc.2 ++ from_seq (next_seq acc.1) (asked None <$> blocks).
Proof.
  revert a' out. induction blocks as [|b blocks IH] using rev_ind; intros a' out; cbn [fold_left].
  - intros -> _. cbn. by rewrite N.add_0_r, app_nil_r.
  - rewrite fold_left_app. cbn [fold_left]. destruct (fold_left _ blocks acc) as [a1 out1] eqn:E. unfold push_user_block. cbn [fst snd].
    destruct (take_seq a1) as [seq a2] eqn:Et. intros [= <- <-] Hb. destruct (take_seq_next _ _ _ Et Hb) as (-> & Hn & H1 & H2 & H3).
    destruct (IH a1 out1 eq_refl ltac:(lia)) as (Hn1 & T1 & T2 & T3 & ->). rewrite length_app. cbn [length].
    split_and!; [lia|congruence|congruence|congruence|]. rewrite <- app_assoc. f_equal. unfold from_seq. rewrite fmap_app, imap_app.
    f_equal. cbn. f_equal. rewrite Hn1, length_fmap. unfold assembled, asked. do 2 f_equal. lia.
Qed.
Lemma push_user_prompt_performs blocks : performs (push_user_prompt blocks) (fun items => items ++ (ItemSettled <$> (asked None <$> blocks))).
Proof.
  intros start items a log a' out F E Hb. destruct (prompt_fold blocks (a, []) a' out E Hb) as (Hn & H1 & H2 & H3 & ->). cbn [fst snd app] in *.
  apply follows_append; [done|by rewrite length_fmap|done..].
Qed.
Lemma identified_prompt_performs blocks id :
  performs (fun a => let '(a, records) := push_user_prompt blocks a in (a, identified id <$> records))
           (fun items => items ++ (ItemSettled <$> (asked (Some id) <$> blocks))).
Proof.
  intros start items a log a' out F E Hb. destruct (push_user_prompt blocks a) as [a1 out1] eqn:E1. injection E as -> <-.
  destruct (prompt_fold blocks (a, []) a' out1 E1 Hb) as (Hn & H1 & H2 & H3 & ->). cbn [fst snd app] in *.
  replace (identified id <$> _) with (from_seq (next_seq a) (asked (Some id) <$> blocks)).
  - apply follows_append; [done|by rewrite length_fmap|done..].
  - unfold from_seq. rewrite fmap_imap, !imap_fmap. by apply imap_ext.
Qed.

Lemma unfinished_is s : unfinished s = is_unfinished s.
Proof. by destruct s. Qed.
Lemma settle_at_turn_end_closed stop_reason n call known written :
  match settle_at_turn_end stop_reason {| pd_seq := n; pd_call := call; pd_written := bool_decide (is_Some written); pd_timing := known |} with
  | Some x => as_seq x = n /\ durable (closed stop_reason (ItemTool call known written)) = Some (as_record x)
  | None => durable (closed stop_reason (ItemTool call known written)) = durable (ItemTool call known written)
  end.
Proof.
  unfold settle_at_turn_end, closed. cbn [pd_call pd_written pd_seq pd_timing durable item_record]. rewrite unfinished_is, bool_decide_and.
  assert (Hchild : negb (bool_decide (is_Some (child_source_id (tl_meta call)))) = bool_decide (child_source_id (tl_meta call) = None))
    by (by destruct (child_source_id (tl_meta call))).
  rewrite Hchild.
  destruct (is_unfinished (tl_status call)), (bool_decide (child_source_id (tl_meta call) = None)), (bool_decide (stop_reason = EndTurn));
    cbn [andb]; try done; by destruct written.
Qed.
Lemma end_turn_performs stop_reason :
  performs (end_turn stop_reason) (fun items => (closed stop_reason <$> items) ++ [ItemSettled (TurnEnded stop_reason)]).
Proof.
  intros start items a log a' out F. unfold end_turn. set (records := merge_sort seq_le _).
  set (a0 := with_plans [] (with_tools [] (with_texts [] a))). destruct (take_seq a0) as [seq a1] eqn:E. intros [= <- <-] Hb.
  destruct (take_seq_next _ _ _ E Hb) as (-> & Hn & H1 & H2 & H3).
  assert (Hout : forall s r, assembled s r ∈ records <-> exists i it, items !! i = Some it /\ s = (start + N.of_nat i)%N /\
    match it with
    | ItemSettled _ => False
    | ItemTool call known written => settle_at_turn_end stop_reason
        {| pd_seq := s; pd_call := call; pd_written := bool_decide (is_Some written); pd_timing := known |} = Some (assembled s r)
    | _ => item_record it = r
    end).
  { intros s r. unfold records. rewrite merge_sort_Permutation, !elem_of_app, (fo_texts _ _ _ _ F), (fo_tools _ _ _ _ F), (fo_plans _ _ _ _ F).
    rewrite !list_elem_of_fmap, list_elem_of_omap. setoid_rewrite picked_elem. split.
    - intros [(x & Hx & i & it & Hi & Hp)|[(x & (i & it & Hi & Hp) & Hx)|(x & Hx & i & it & Hi & Hp)]]; exists i, it; destruct it; try discriminate Hp;
        injection Hp as <-.
      + injection Hx as -> ->. split_and!; [done|done|]. cbn. by rewrite chunk_record_said.
      + pose proof (settle_at_turn_end_closed stop_reason (start + N.of_nat i) call timing written) as Hc. rewrite Hx in Hc.
        destruct Hc as [Hs _]. cbn in Hs. subst s. by split_and!.
      + by injection Hx as -> ->.
    - intros (i & it & Hi & -> & Hp). destruct it as [|kind chunk|call known written|plan]; [done|left|right; left|right; right].
      + exists {| pt_seq := start + N.of_nat i; pt_kind := kind; pt_chunk := chunk |}. unfold text_record. cbn [pt_seq pt_kind pt_chunk].
        rewrite chunk_record_said. split; [by rewrite <- Hp|]. by eexists _, _.
      + eexists. split; [eexists _, _; split; [exact Hi|done]|exact Hp].
      + exists ((start + N.of_nat i)%N, plan). split; [by rewrite <- Hp|]. by eexists _, _. }
  assert (F0 : follows start (closed stop_reason <$> items) a0 (log ++ records)).
  { eapply follows_settled; [exact F|by rewrite length_fmap|done| | | | |].
    - symmetry. by apply picked_nil.
    - symmetry. by apply picked_nil.
    - symmetry. by apply picked_nil.
    - intros s r (i & it & Hi & -> & Hp)%Hout. exists i, it, (closed stop_reason it). rewrite list_lookup_fmap, Hi.
      split_and!; [done|done|done|]. destruct it as [|kind chunk|call known written|plan]; [done|by rewrite <- Hp| |by rewrite <- Hp].
      pose proof (settle_at_turn_end_closed stop_reason (start + N.of_nat i) call known written) as Hc. rewrite Hp in Hc. by destruct Hc.
    - intros i it it' Hi. rewrite list_lookup_fmap, Hi. intros [= <-]. destruct it as [|kind chunk|call known written|plan].
      + by left.
      + right. eexists. split; [done|]. apply Hout. by eexists _, _.
      + pose proof (settle_at_turn_end_closed stop_reason (start + N.of_nat i) call known written) as Hc.
        destruct (settle_at_turn_end _ _) as [x|] eqn:Ex; [right|by left]. destruct Hc as [Hs Hd]. exists (as_record x). split; [done|].
        apply Hout. eexists _, _. split_and!; [exact Hi|done|]. etransitivity; [exact Ex|]. destruct x. cbn in *. by subst.
      + right. eexists. split; [done|]. apply Hout. by eexists _, _. }
  rewrite app_assoc. apply (follows_snoc _ _ _ _ _ _ _ F0); cbn [durable fmap option_fmap option_map option_cells as_text as_tool as_plan];
    rewrite ?app_nil_r; done.
Qed.

Section steps.
Context {calls : ToolCalls}.

Lemma with_entries_fold target incoming : fold_left (fun target kv => map_insert kv.1 kv.2 target) incoming target = with_entries target incoming.
Proof. revert target. induction incoming as [|[key v] incoming IH]; intros target; [done|]. apply IH. Qed.
Lemma apply_update_is u call : apply_update u call = updated_call u call.
Proof.
  unfold apply_update, updated_call, with_meta, retain_tool_metadata. destruct (tu_meta u) as [incoming|]; [|done].
  rewrite with_entries_fold. by destruct (tl_meta _).
Qed.
Lemma use_tool_ext f g timing it : (forall c, f c = g c) -> use_tool f timing it = use_tool g timing it.
Proof. intros H. destruct it; [done|done| |done]. cbn [use_tool]. by rewrite H. Qed.
(** One streamed update, timed or not. *)
Lemma push_update_performs update timing : performs (push_update_inner update timing) (converse_update update timing).
Proof.
  destruct update as [chunk|chunk|chunk|call|u|plan|data]; cbn [push_update_inner].
  - intros start items a log a' out F [= <- <-] _. by rewrite app_nil_r.
  - apply push_text_performs.
  - apply push_text_performs.
  - apply tool_performs.
  - intros start items a log a' out F E Hb. cbn [converse_update].
    replace (call_tool _ _ _ _ _) with (call_tool (tu_id u) (apply_update u (new_tool_call (tu_id u) "Tool call")) (apply_update u) timing items).
    + by apply (tool_performs _ _ _ _ start items a log a' out F).
    + unfold call_tool, revise. rewrite apply_update_is. destruct (list_find _ items) as [[i it]|]; [|done].
      by rewrite (use_tool_ext _ _ _ _ (apply_update_is u)).
  - apply replace_plan_performs.
  - intros start items a log a' out F [= <- <-] _. by rewrite app_nil_r.
Qed.

(** The assembler's part of a call. *)
Definition call_step (c : RecorderCall) : HistoryAssembler -> HistoryAssembler * list AssembledRecord :=
  match c with
  | CallMeta meta => fun a => let '(seq, a) := take_seq a in (a, [assembled seq (MetaRecord meta)])
  | CallPrompt prompt => push_user_prompt prompt
  | CallIdentifiedPrompt prompt id => fun a => let '(a, records) := push_user_prompt prompt a in (a, identified id <$> records)
  | CallUpdate update => push_update_inner update None
  | CallTimedUpdate update timing => push_update_inner update (Some timing)
  | CallTimings timings => fun a => (fold_left (fun a t => update_tool_timing t.1 t.2 a) timings a, [])
  | CallTurnEnd stop_reason => end_turn stop_reason
  | CallAgentSwitch switch => fun a => let '(seq, a) := take_seq a in (a, [assembled seq (AgentSwitched switch)])
  | CallHandoffDelivered id => fun a => let '(seq, a) := take_seq a in (a, [assembled seq (HandoffDelivered id)])
  | CallResume reason => fun a => let '(seq, a) := take_seq a in (a, [assembled seq (Gap reason)])
  end.
Lemma timings_perform timings : performs (fun a => (fold_left (fun a t => update_tool_timing t.1 t.2 a) timings a, []))
  (fun items => fold_left (fun items t => revise (calls_tool t.1) (retime t.2) items items) timings items).
Proof.
  intros start items a log a' out F [= <- <-] _. rewrite app_nil_r. revert items a F.
  induction timings as [|t ts IH]; intros items a F; [done|]. cbn [fold_left]. apply IH. by apply update_tool_timing_follows.
Qed.
Lemma call_performs c : performs (call_step c) (fun items => converse items c).
Proof.
  destruct c; cbn [call_step converse]; try apply standalone_performs; try apply push_update_performs.
  - apply push_user_prompt_performs.
  - apply identified_prompt_performs.
  - apply timings_perform.
  - apply end_turn_performs.
Qed.
(** What the assembler gives out to be written, call after call. *)
Fixpoint given_out (cs : list RecorderCall) (a : HistoryAssembler) : list AssembledRecord :=
  match cs with
  | [] => []
  | c :: cs => let '(a, records) := call_step c a in records ++ given_out cs a
  end.
End steps.
