(* ===== verification/SessionFiles.v ===== *)
(** * Session histories read back

    What the reader makes of the file of a recorder: every line that was written whole, in the order of its positions,
    and nothing of a last write that was cut short; merged with the open items it is the conversation recorded. *)

From Stdlib Require Import Ascii.
From stdpp Require Import fin_maps.
From S2P Require Import Prelude RustStr Json SessionHistory SessionRecording.
Local Open Scope ora_scope.

(** ** Lines of text *)

Lemma str_free_rev p s : str_free p (str_rev s) = str_free p s.
Proof. induction s as [|c s IH]; [done|]. cbn [str_rev str_free]. rewrite str_free_app, IH. cbn [str_free]. by rewrite andb_true_r, andb_comm. Qed.
Lemma ends_with_char c s : ends_with (String c "") (s +:+ String c "") = true.
Proof. apply bool_decide_eq_true. exists s. by apply strip_suffix_Some. Qed.
Lemma ends_with_free c s t : t <> "" -> str_free (is_char c) t = true -> ends_with (String c "") (s +:+ t) = false.
Proof.
  intros Hne Hfree. apply bool_decide_eq_false. intros [rest Hr]. apply strip_suffix_Some in Hr.
  apply (f_equal str_rev) in Hr. rewrite !str_rev_app in Hr. rewrite <- str_free_rev in Hfree.
  destruct (str_rev t) as [|d u] eqn:E; [by rewrite <- (str_rev_involutive t), E in Hne|].
  injection Hr as -> _. cbn [str_free] in Hfree. unfold is_char in Hfree. by rewrite bool_decide_eq_true_2 in Hfree.
Qed.
Lemma split_terminated_tail c l t :
  Forall (fun s => str_free (is_char c) s = true) l -> str_free (is_char c) t = true ->
  split_char c (terminated c l +:+ t) = l ++ [t].
Proof.
  unfold split_char. intros Hl Ht. induction Hl as [|s l Hs Hl IH]; [by apply split_on_free_id|].
  cbn [terminated fold_right]. rewrite app_assoc_str. cbn [String.append].
  rewrite split_on_app; [cbn [app]; f_equal; exact IH|done|]. unfold is_char. by rewrite bool_decide_eq_true_2.
Qed.
Lemma terminated_app c l k : terminated c (l ++ k) = terminated c l +:+ terminated c k.
Proof.
  induction l as [|s l IH]; [done|]. cbn [terminated fold_right app]. rewrite app_assoc_str. cbn [String.append].
  unfold terminated in IH. by rewrite IH.
Qed.
Lemma terminated_ends c l : l <> [] -> ends_with (String c "") (terminated c l) = true.
Proof.
  destruct l as [|s l _] using rev_ind; [done|]. intros _. rewrite terminated_app. cbn [terminated fold_right].
  rewrite <- app_assoc_str. apply ends_with_char.
Qed.
Lemma str_free_prefix p n s : str_free p s = true -> str_free p (String.substring 0 n s) = true.
Proof.
  revert n. induction s as [|c s IH]; intros [|n]; try done. cbn [str_free String.substring].
  intros [Hc Hs]%andb_true_iff. by rewrite Hc, IH.
Qed.

Section files.
Context {text : LineText}.

(** What a line of JSON is: it reads back, holds no line break, and is not readable when it is cut short. *)
Record written_whole (line : HistoryLine) : Prop := {
  ww_reads : decode_line (encode_line line) = Some line;
  ww_one_line : str_free (is_char NEWLINE) (encode_line line) = true;
  ww_not_empty : encode_line line <> "";
  ww_not_cut : forall n, n < String.length (encode_line line) -> decode_line (String.substring 0 n (encode_line line)) = None;
}.
Definition file_text (ls : list HistoryLine) : string := terminated NEWLINE (encode_line <$> ls).
Lemma file_text_app ls ks : file_text (ls ++ ks) = file_text ls +:+ file_text ks.
Proof. unfold file_text. by rewrite fmap_app, terminated_app. Qed.
Lemma file_text_snoc ls line : file_text (ls ++ [line]) = file_text ls +:+ line_bytes line.
Proof. by rewrite file_text_app. Qed.

Lemma decode_all ls torn : Forall written_whole ls -> decode_segments torn (encode_line <$> ls) = (ls, 0%nat).
Proof. induction 1 as [|l ls Hl _ IH]; [done|]. cbn [fmap list_fmap decode_segments]. by rewrite IH, (ww_reads _ Hl). Qed.
Lemma decode_all_tail ls seg torn : Forall written_whole ls ->
  decode_segments torn ((encode_line <$> ls) ++ [seg])
  = match decode_line seg with Some l => (ls ++ [l], 0%nat) | None => (ls, if torn then 0%nat else 1%nat) end.
Proof.
  induction 1 as [|l ls Hl _ IH]; [cbn; destruct (decode_line seg), torn; done|].
  cbn [fmap list_fmap decode_segments app]. rewrite IH, (ww_reads _ Hl). by destruct (decode_line seg).
Qed.
Lemma whole_segments ls : Forall written_whole ls -> filter (fun s => s <> "") (encode_line <$> ls) = encode_line <$> ls.
Proof.
  induction 1 as [|l ls Hl _ IH]; [done|]. rewrite fmap_cons, filter_cons_True by apply (ww_not_empty _ Hl). by rewrite IH.
Qed.
(** What the reader makes of lines. *)
Definition read_back (ls : list HistoryLine) : SessionHistory :=
  {| sh_lines := order_lines ls;
     sh_next_seq := match ls with [] => 0%N | _ => saturating_add_u32 (fold_right N.max 0%N (hl_seq <$> ls)) 1 end;
     sh_integrity := Complete |}.
Lemma parse_tail ls t : Forall written_whole ls -> str_free (is_char NEWLINE) t = true ->
  parse_history (file_text ls +:+ t) = read_back (match decode_line t with Some l => if decide (t = "") then ls else ls ++ [l] | None => ls end).
Proof.
  intros Hls Ht. unfold parse_history, segments_of, file_text. rewrite split_terminated_tail; [|by apply Forall_fmap; eapply Forall_impl; [exact Hls|]; intros l Hl; apply (ww_one_line _ Hl)|done].
  rewrite filter_app, whole_segments by done. destruct (decide (t = "")) as [->|Hne].
  - rewrite filter_cons_False, filter_nil, app_nil_r by tauto. rewrite decode_all by done. by destruct (decode_line "").
  - rewrite filter_cons_True, filter_nil by done. rewrite ends_with_free by done. rewrite decode_all_tail by done.
    by destruct (decode_line t).
Qed.
Lemma substring_full s n : String.length s <= n -> String.substring 0 n s = s.
Proof. revert n. induction s as [|c s IH]; intros [|n]; cbn [String.length String.substring]; try done; [lia|]. intros H. rewrite IH by lia. done. Qed.
Lemma substring_app_le s t n : n <= String.length s -> String.substring 0 n (s +:+ t) = String.substring 0 n s.
Proof. revert n. induction s as [|c s IH]; intros [|n]; cbn [String.length String.append String.substring]; try done; [by destruct t|lia|]. intros H. rewrite IH by lia. done. Qed.

End files.

(** ** Ordering the lines *)

(** The lines of a file that count: the last one of every position, by position. *)
Definition line_lt (p q : HistoryLine) : Prop := (hl_seq p < hl_seq q)%N.
Record last_lines (ls out : list HistoryLine) : Prop := {
  ll_sorted : StronglySorted line_lt out;
  ll_elem : forall x, x ∈ out <-> exists before after, ls = before ++ x :: after /\ hl_seq x ∉ hl_seq <$> after;
}.
(** The position after the highest one. *)
Definition end_of (ls : list HistoryLine) : N := fold_right (fun l next => N.max (hl_seq l + 1) next) 0%N ls.
(** A history that holds what [ls] says, nothing of it damaged. *)
Record reads_as (h : SessionHistory) (ls : list HistoryLine) : Prop := {
  ra_lines : last_lines ls (sh_lines h);
  ra_next : sh_next_seq h = N.min (end_of ls) u32_max;
  ra_integrity : sh_integrity h = Complete;
}.

Definition line_assembled (l : HistoryLine) : AssembledRecord := assembled (hl_seq l) (hl_record l).
Definition seq_lt (p q : AssembledRecord) : Prop := (as_seq p < as_seq q)%N.
Lemma sorted_strictly {A} (key : A -> N) (l : list A) :
  StronglySorted (fun p q => key p <= key q)%N l -> NoDup (key <$> l) -> StronglySorted (fun p q => key p < key q)%N l.
Proof.
  induction 1 as [|x l Hl IH Hx]; [constructor|]. rewrite fmap_cons. intros [Hni Hnd]%NoDup_cons. constructor; [by apply IH|].
  rewrite Forall_forall in *. intros y Hy. specialize (Hx y Hy). assert (key x <> key y); [|lia].
  intros Heq. apply Hni. rewrite Heq. by apply list_elem_of_fmap_2.
Qed.
Lemma sorted_seq_nodup (l : list AssembledRecord) : StronglySorted seq_lt l -> NoDup l.
Proof.
  induction 1 as [|x l _ IH Hx]; constructor; [|done]. rewrite Forall_forall in Hx. intros Hin. specialize (Hx x Hin).
  unfold seq_lt in Hx. lia.
Qed.
Lemma sorted_seq_unique (l k : list AssembledRecord) :
  StronglySorted seq_lt l -> StronglySorted seq_lt k -> (forall x, x ∈ l <-> x ∈ k) -> l = k.
Proof.
  intros Hl Hk Hin. apply (StronglySorted_unique_strong seq_lt); [|done|done|by apply NoDup_Permutation; auto using sorted_seq_nodup].
  intros x y _ _. unfold seq_lt. lia.
Qed.
Lemma keep_unseen_elem seen ls x :
  x ∈ keep_unseen seen ls <-> hl_seq x ∉ seen /\ find_first (fun l => (hl_seq l =? hl_seq x)%N) ls = Some x.
Proof.
  revert seen. induction ls as [|l ls IH]; intros seen; cbn [keep_unseen find_first].
  - split; [by intros ?%elem_of_nil|by intros [_ ?]].
  - destruct (N.eqb_spec (hl_seq l) (hl_seq x)) as [Heq|Hne].
    + case_bool_decide as Hs.
      * rewrite IH. split; [intros [Hn _]; by rewrite <- Heq in Hn|]. intros [Hn _]. by rewrite <- Heq in Hn.
      * rewrite elem_of_cons, IH. split; [|intros [_ [= ->]]; by left]. intros [->|[Hn _]]; [done|]. set_solver.
    + case_bool_decide; rewrite ?elem_of_cons, IH; [done|]. split; [|set_solver]. intros [->|?]; [done|set_solver].
Qed.
Lemma keep_unseen_nodup seen ls : NoDup (hl_seq <$> keep_unseen seen ls).
Proof.
  revert seen. induction ls as [|l ls IH]; intros seen; cbn [keep_unseen]; [constructor|]. case_bool_decide; [done|].
  rewrite fmap_cons. constructor; [|done]. intros (x & Hx & [Hn _]%keep_unseen_elem)%list_elem_of_fmap. set_solver.
Qed.
Lemma find_first_fmap {A B} (f : A -> B) (p : B -> bool) l : find_first p (f <$> l) = f <$> find_first (fun x => p (f x)) l.
Proof. induction l as [|x l IH]; [done|]. rewrite fmap_cons. cbn [find_first]. destruct (p (f x)); [done|by rewrite IH]. Qed.
Lemma find_first_ext {A} (p q : A -> bool) l : (forall x, p x = q x) -> find_first p l = find_first q l.
Proof. intros H. induction l as [|x l IH]; [done|]. cbn [find_first]. by rewrite H, IH. Qed.
Lemma order_lines_elem ls s r :
  assembled s r ∈ line_assembled <$> order_lines ls <-> latest s (line_assembled <$> ls) = Some r.
Proof.
  unfold order_lines, latest. rewrite merge_sort_Permutation, <- fmap_reverse, find_first_fmap, list_elem_of_fmap.
  change (fun x => at_seq s (line_assembled x)) with (fun x => (hl_seq x =? s)%N). split.
  - intros (x & [= -> ->] & [_ Hx]%keep_unseen_elem). by rewrite Hx.
  - destruct (find_first _ _) as [x|] eqn:E; [|done]. intros [= <-]. destruct (find_first_Some _ _ _ E) as [_ Hs%N.eqb_eq].
    exists x. split; [by subst s|]. apply keep_unseen_elem. split; [set_solver|]. by rewrite Hs.
Qed.
Lemma order_lines_nodup ls : NoDup (hl_seq <$> order_lines ls).
Proof. unfold order_lines. rewrite merge_sort_Permutation. apply keep_unseen_nodup. Qed.
Lemma find_first_reverse {A} (p : A -> bool) ls x : find_first p (reverse ls) = Some x
  <-> p x = true /\ exists before after, ls = before ++ x :: after /\ Forall (fun y => p y = false) after.
Proof.
  induction ls as [|y ls IH] using rev_ind; [split; [done|by intros (_ & [] & after & ? & _)]|].
  rewrite reverse_snoc. cbn [find_first]. destruct (p y) eqn:Ep.
  - split; [intros [= ->]; split; [done|by exists ls, []]|]. intros (Hx & before & after & Heq & Hall).
    destruct after as [|z after _] using rev_ind; [by apply app_inj_tail in Heq as [_ ->]|].
    rewrite app_comm_cons, app_assoc in Heq. apply app_inj_tail in Heq as [_ ->]. apply Forall_app in Hall as [_ Hz].
    inversion Hz. congruence.
  - rewrite IH. split.
    + intros (Hx & before & after & -> & Hall). split; [done|]. exists before, (after ++ [y]). rewrite <- app_assoc. split; [done|].
      apply Forall_app. split; [done|by constructor].
    + intros (Hx & before & after & Heq & Hall). split; [done|]. destruct after as [|z after _] using rev_ind.
      * apply app_inj_tail in Heq as [_ ->]. congruence.
      * rewrite app_comm_cons, app_assoc in Heq. apply app_inj_tail in Heq as [-> _]. apply Forall_app in Hall as [Hall _]. eauto.
Qed.
Lemma order_lines_last ls : last_lines ls (order_lines ls).
Proof.
  split.
  - unfold line_lt. apply (sorted_strictly hl_seq); [|apply order_lines_nodup].
    apply StronglySorted_merge_sort; unfold line_le; intros ?; [intros ???; by etransitivity|intros y; lia].
  - intros x. unfold order_lines. rewrite merge_sort_Permutation, keep_unseen_elem, find_first_reverse. split.
    + intros (_ & _ & before & after & -> & Hall). exists before, after. split; [done|].
      intros (y & Hy & Hin)%list_elem_of_fmap. rewrite Forall_forall in Hall. specialize (Hall y Hin). cbn beta in Hall.
      apply N.eqb_neq in Hall. congruence.
    + intros (before & after & -> & Hni). split; [set_solver|]. split; [apply N.eqb_refl|]. exists before, after. split; [done|].
      apply Forall_forall. intros y Hy. apply N.eqb_neq. intros Heq. apply Hni. rewrite <- Heq. by apply list_elem_of_fmap_2.
Qed.
(** They are determined by the lines. *)
Lemma last_lines_unique ls out out' : last_lines ls out -> last_lines ls out' -> out = out'.
Proof.
  intros [Hs He] [Hs' He']. apply (StronglySorted_unique_strong line_lt); [|done|done|].
  - intros x y _ _. unfold line_lt. lia.
  - assert (Hnd : forall l, StronglySorted line_lt l -> NoDup l).
    { induction 1 as [|x l _ IH Hx]; constructor; [|done]. rewrite Forall_forall in Hx. intros Hin. specialize (Hx x Hin).
      unfold line_lt in Hx. lia. }
    apply NoDup_Permutation; [by apply Hnd|by apply Hnd|]. intros x. by rewrite He, He'.
Qed.
Lemma end_of_max l ls : end_of (l :: ls) = (fold_right N.max 0 (hl_seq <$> l :: ls) + 1)%N.
Proof. revert l. induction ls as [|x ls IH]; intros l; [cbn; lia|]. specialize (IH x). cbn [end_of fold_right fmap list_fmap] in *. unfold end_of in IH. lia. Qed.
Lemma read_back_reads ls : reads_as (read_back ls) ls.
Proof.
  split; [apply order_lines_last| |done]. cbn [read_back sh_next_seq]. destruct ls as [|l ls]; [done|]. by rewrite end_of_max.
Qed.

Section cut_files.
Context {text : LineText}.

(** C26: A history file that ends in the middle of a write, anywhere, reads back as exactly the lines written before
    it, and as the last line too when only its line break is missing: the last line of every position, by position,
    the next position after the highest, and nothing counted as damage.  The lines are ones the text form is good for:
    they read back, hold no line break, and cannot be read when cut short. *)
Theorem cut_short_reads_back ls line n :
  Forall written_whole ls -> written_whole line -> n <= String.length (encode_line line) ->
  reads_as (parse_history (file_text ls +:+ String.substring 0 n (line_bytes line)))
           (if (n =? String.length (encode_line line))%nat then ls ++ [line] else ls).
Proof.
  intros Hls Hline Hn. unfold line_bytes. rewrite substring_app_le by done.
  rewrite parse_tail; [|done|by apply str_free_prefix, (ww_one_line _ Hline)].
  destruct (Nat.eqb_spec n (String.length (encode_line line))) as [->|Hne].
  - rewrite substring_full, (ww_reads _ Hline) by done. rewrite decide_False; [apply read_back_reads|apply (ww_not_empty _ Hline)].
  - rewrite (ww_not_cut _ Hline) by lia. apply read_back_reads.
Qed.
End cut_files.

Definition replayed_record (p : Replayed) : AssembledRecord := assembled (rp_seq p) (rp_record p).
(** What a replay shows of lines and open items. *)
Definition shown (ls : list HistoryLine) (pending : list AssembledRecord) : list AssembledRecord :=
  replayed_record <$> merged (order_lines ls) pending.
Lemma shown_perm ls pending : shown ls pending ≡ₚ (line_assembled <$> order_lines ls) ++ pending.
Proof.
  unfold shown, merged. rewrite merge_sort_Permutation, fmap_app, <- !list_fmap_compose.
  change (replayed_record ∘ replayed_line) with line_assembled. f_equiv.
  induction pending as [|x l IH]; [done|]. rewrite fmap_cons, IH. by destruct x.
Qed.
Lemma shown_sorted ls pending :
  NoDup (as_seq <$> pending) -> (forall s, s ∈ as_seq <$> pending -> s ∉ as_seq <$> (line_assembled <$> ls)) ->
  StronglySorted seq_lt (shown ls pending).
Proof.
  intros Hnd Hdis. unfold shown.
  assert (Hkeys : NoDup (rp_seq <$> merged (order_lines ls) pending)).
  { change rp_seq with (as_seq ∘ replayed_record). rewrite list_fmap_compose. fold (shown ls pending). rewrite shown_perm, fmap_app.
    rewrite <- list_fmap_compose. change (as_seq ∘ line_assembled) with hl_seq. apply NoDup_app. split_and!; [apply order_lines_nodup| |done].
    intros s Hs Hp. apply (Hdis s Hp). apply latest_is_Some. apply list_elem_of_fmap in Hs as (x & -> & Hx). exists (hl_record x).
    apply order_lines_elem. change (assembled (hl_seq x) (hl_record x)) with (line_assembled x). by apply list_elem_of_fmap_2. }
  assert (Hsort : StronglySorted replayed_le (merged (order_lines ls) pending)).
  { apply StronglySorted_merge_sort; unfold replayed_le; intros ?; [intros ???; by etransitivity|intros y; lia]. }
  apply sorted_strictly in Hsort; [|done]. clear Hkeys. induction Hsort as [|x l _ IH Hx]; [constructor|].
  rewrite fmap_cons. constructor; [done|]. apply Forall_fmap. exact Hx.
Qed.
Lemma from_seq_sorted start l : StronglySorted seq_lt (from_seq start l).
Proof.
  revert start. induction l as [|r l IH]; intros start; [constructor|]. rewrite from_seq_cons. constructor; [done|].
  apply Forall_forall. intros x (i & y & -> & _)%elem_of_lookup_imap. unfold seq_lt. cbn [assembled as_seq]. lia.
Qed.
Lemma shown_elem ls pending s r :
  assembled s r ∈ shown ls pending <-> latest s (line_assembled <$> ls) = Some r \/ assembled s r ∈ pending.
Proof. by rewrite shown_perm, elem_of_app, order_lines_elem. Qed.
Lemma pending_elem start items a log s r : follows start items a log ->
  assembled s r ∈ pending_records a <-> exists i it, items !! i = Some it /\ s = (start + N.of_nat i)%N /\ durable it = None /\ item_record it = r.
Proof.
  intros F. unfold pending_records, open_records.
  rewrite merge_sort_Permutation, !elem_of_app, (fo_texts _ _ _ _ F), (fo_tools _ _ _ _ F), (fo_plans _ _ _ _ F), !list_elem_of_fmap.
  setoid_rewrite list_elem_of_filter. setoid_rewrite picked_elem. split.
  - intros [(x & Hx & i & it & Hi & Hp)|[(x & Hx & Hw & i & it & Hi & Hp)|(x & Hx & i & it & Hi & Hp)]]; exists i, it;
      (split; [done|]); destruct it as [|kind chunk|call known written|plan]; try discriminate Hp; injection Hp as <-; injection Hx as -> ->.
    + by rewrite chunk_record_said.
    + by destruct written.
    + done.
  - intros (i & it & Hi & -> & Hd & <-). destruct it as [|kind chunk|call known [written|]|plan]; try discriminate Hd; [left|right; left|right; right].
    + exists {| pt_seq := start + N.of_nat i; pt_kind := kind; pt_chunk := chunk |}. unfold text_record. cbn [pt_seq pt_kind pt_chunk].
      rewrite chunk_record_said. split; [done|]. by eexists _, _.
    + eexists. split; [|split; [|by eexists _, _]]; done.
    + exists ((start + N.of_nat i)%N, plan). split; [done|]. by eexists _, _.
Qed.
Lemma pending_nodup start items a log : follows start items a log -> NoDup (as_seq <$> pending_records a).
Proof.
  intros F. apply NoDup_fmap_2_strong.
  - intros [s r] [s' r'] Hx Hy Heq. cbn in Heq. subst s'.
    apply (pending_elem _ _ _ _ _ _ F) in Hx as (i & it & Hi & -> & _ & <-). apply (pending_elem _ _ _ _ _ _ F) in Hy as (j & it' & Hj & Hs & _ & <-).
    assert (i = j) as <- by lia. congruence.
  - unfold pending_records, open_records. rewrite merge_sort_Permutation, (fo_texts _ _ _ _ F), (fo_tools _ _ _ _ F), (fo_plans _ _ _ _ F).
    assert (Hnd : forall A (f : N -> Item -> option A) (key : A -> N), (forall n it x, f n it = Some x -> key x = n) ->
      NoDup (key <$> picked f start items)).
    { clear. intros A f key Hf. revert start. induction items as [|it items IH]; intros start; [constructor|]. cbn [picked].
      destruct (f start it) as [x|] eqn:E; [|done]. rewrite fmap_cons. constructor; [|done]. rewrite (Hf _ _ _ E).
      intros (y & Hy & (i & it' & _ & Hp)%picked_elem)%list_elem_of_fmap. rewrite (Hf _ _ _ Hp) in Hy. lia. }
    apply (NoDup_fmap_1 as_seq). rewrite !fmap_app, <- !list_fmap_compose. rewrite !NoDup_app.
    split_and!; [|intros n| |intros n|].
    + by apply Hnd; intros n [] x [= <-].
    + rewrite elem_of_app, !list_elem_of_fmap. setoid_rewrite list_elem_of_filter. setoid_rewrite picked_elem.
      intros (x & -> & i & it & Hi & Hp) [(y & Hy & _ & j & it' & Hj & Hp')|(y & Hy & j & it' & Hj & Hp')];
        destruct it; try discriminate Hp; destruct it'; try discriminate Hp'; injection Hp as <-; injection Hp' as <-; cbn in Hy;
        (assert (i = j) as <- by lia; congruence).
    + eapply sublist_NoDup; [apply (Hnd _ as_tool pd_seq); by intros n [] x [= <-]|].
      apply (fmap_sublist (pd_seq)), sublist_filter.
    + rewrite !list_elem_of_fmap. setoid_rewrite list_elem_of_filter. setoid_rewrite picked_elem.
      intros (x & -> & _ & i & it & Hi & Hp) (y & Hy & j & it' & Hj & Hp');
        destruct it; try discriminate Hp; destruct it'; try discriminate Hp'; injection Hp as <-; injection Hp' as <-; cbn in Hy;
        (assert (i = j) as <- by lia; congruence).
    + by apply (Hnd _ as_plan fst); intros n [] x [= <-].
Qed.
Lemma from_seq_elem start l s r :
  assembled s r ∈ from_seq start l <-> exists i, l !! i = Some r /\ s = (start + N.of_nat i)%N.
Proof.
  unfold from_seq. rewrite elem_of_lookup_imap. split.
  - intros (i & y & [= -> ->] & Hi). eauto.
  - intros (i & Hi & ->). eauto.
Qed.
Lemma shown_alone ls : shown ls [] = line_assembled <$> order_lines ls.
Proof.
  apply sorted_seq_unique.
  - apply shown_sorted; [constructor|by intros s ?%elem_of_nil].
  - pose proof (ll_sorted _ _ (order_lines_last ls)) as H. induction H as [|x l _ IH Hx]; [constructor|]. rewrite fmap_cons.
    constructor; [done|]. by apply Forall_fmap.
  - intros x. by rewrite shown_perm, app_nil_r.
Qed.
Lemma shown_conversation start a old new items :
  follows start items a (line_assembled <$> new) -> (end_of old <= start)%N ->
  shown (old ++ new) (pending_records a) = shown old [] ++ from_seq start (item_record <$> items).
Proof.
  intros F Hold.
  assert (Hlow : forall s, s ∈ as_seq <$> (line_assembled <$> old) -> (s < start)%N).
  { intros s (x & -> & (y & -> & Hy)%list_elem_of_fmap)%list_elem_of_fmap. cbn. revert Hold Hy. clear. intros Hold Hy.
    enough (hl_seq y < end_of old)%N by lia. clear Hold. induction old as [|z old IH]; [by apply elem_of_nil in Hy|].
    cbn [end_of fold_right]. unfold end_of in IH. apply elem_of_cons in Hy as [->|Hy]; [lia|]. specialize (IH Hy). lia. }
  assert (Hlog : forall i it, items !! i = Some it -> latest (start + N.of_nat i) (line_assembled <$> old ++ new) = durable it).
  { intros i it Hi. rewrite fmap_app, latest_app, (fo_log _ _ _ _ F i it Hi). destruct (durable it); [done|].
    apply latest_None. intros Hs%Hlow. lia. }
  apply sorted_seq_unique.
  - apply shown_sorted; [by eapply pending_nodup|]. intros s ([s' r] & -> & Hp)%list_elem_of_fmap. cbn [as_seq].
    apply (pending_elem _ _ _ _ _ _ F) in Hp as (i & it & Hi & -> & Hd & _). rewrite <- latest_is_Some, (Hlog i it Hi), Hd. by intros [].
  - apply StronglySorted_app. split_and!; [|apply shown_sorted; [constructor|by intros s ?%elem_of_nil]|apply from_seq_sorted].
    intros [s r] [s' r'] [Hl|Hp%elem_of_nil]%shown_elem (i & _ & ->)%from_seq_elem; [|done]. unfold seq_lt. cbn [as_seq].
    assert (s < start)%N; [|lia]. apply Hlow, latest_is_Some. eauto.
  - intros [s r]. change {| as_seq := s; as_record := r |} with (assembled s r).
    rewrite elem_of_app, !shown_elem, (pending_elem _ _ _ _ _ _ F), from_seq_elem. split.
    + intros [Hl|(i & it & Hi & -> & Hd & Hr)].
      * destruct (decide (s < start)%N) as [Hs|Hs].
        -- left. left. rewrite fmap_app, latest_app in Hl. rewrite latest_None in Hl; [done|].
           intros (x & -> & Hx%(fo_range _ _ _ _ F))%list_elem_of_fmap. lia.
        -- right. destruct (lookup_lt_is_Some_2 items (N.to_nat (s - start))) as [it Hi].
           { assert (s ∈ as_seq <$> (line_assembled <$> old ++ new)) as Hin by (apply latest_is_Some; eauto). revert Hin.
             rewrite !fmap_app, elem_of_app. intros [Hin%Hlow|(x & -> & Hx%(fo_range _ _ _ _ F))%list_elem_of_fmap]; [lia|].
             rewrite (fo_next _ _ _ _ F) in Hx. lia. }
           exists (N.to_nat (s - start)). split; [|lia]. rewrite list_lookup_fmap, Hi. cbn. f_equal. pose proof (Hlog _ _ Hi) as Hd.
           replace (start + N.of_nat (N.to_nat (s - start)))%N with s in Hd by lia. rewrite Hl in Hd. symmetry in Hd.
           destruct it as [| |call known [shown|]|]; cbn in Hd |- *; congruence.
      * right. exists i. by rewrite list_lookup_fmap, Hi, <- Hr.
    + intros [[Hl|?%elem_of_nil]|(i & Hi & ->)]; [|done|].
      * left. rewrite fmap_app, latest_app. rewrite (latest_None s (line_assembled <$> new)); [done|].
        intros (x & -> & Hx%(fo_range _ _ _ _ F))%list_elem_of_fmap. assert (as_seq x < start)%N; [|lia]. apply Hlow, latest_is_Some. eauto.
      * rewrite list_lookup_fmap in Hi. destruct (items !! i) as [it|] eqn:E; [|done]. injection Hi as <-. rewrite (Hlog i it E).
        destruct (durable it) as [r'|] eqn:Ed; [left|right; eauto 6]. destruct it as [| |call known [shown|]|]; cbn in *; congruence.
Qed.

(** ** The calls of a recorder *)

Section recordings.
Context {calls : ToolCalls} {text : LineText} {host : HistoryHost}.

Definition perform_call (c : RecorderCall) (r : SessionRecorder) : SessionRecorder :=
  match c with
  | CallMeta meta => (record_meta meta r).2
  | CallPrompt prompt => (record_prompt prompt r).2
  | CallIdentifiedPrompt prompt id => (record_identified_prompt prompt id r).2
  | CallUpdate update => (record_update update r).2
  | CallTimedUpdate update timing => (record_timed_update update timing r).2
  | CallTimings timings => finish_tool_timings timings r
  | CallTurnEnd stop_reason => (record_turn_end stop_reason r).2
  | CallAgentSwitch switch => (record_agent_switch switch r).2
  | CallHandoffDelivered id => (record_handoff_delivered id r).2
  | CallResume reason => (resume reason r).2
  end.
Definition perform_calls (cs : list RecorderCall) (r : SessionRecorder) : SessionRecorder :=
  fold_left (fun r c => perform_call c r) cs r.
(** Positions never go down, whatever was recorded before. *)
Definition climbs (step : HistoryAssembler -> HistoryAssembler * list AssembledRecord) : Prop :=
  forall a, (next_seq a <= next_seq (step a).1)%N \/ (u32_max <= next_seq (step a).1)%N.
Lemma climb_one n : (n <= saturating_add_u32 n 1 \/ u32_max <= saturating_add_u32 n 1)%N.
Proof. unfold saturating_add_u32. lia. Qed.
Lemma open_tool_climbs call timing : climbs (open_tool call timing).
Proof. intros a. unfold open_tool. cbn. destruct (settle _). apply climb_one. Qed.
Lemma change_tool_next id f timing a : match change_tool id f timing a with Some r => next_seq r.1 = next_seq a | None => True end.
Proof. unfold change_tool. destruct (find_first _ _) as [x|]; [|done]. cbn [mbind option_bind]. by destruct (settle _). Qed.
Lemma prompt_climbs blocks acc :
  (next_seq acc.1 <= next_seq (fold_left (fun acc block => push_user_block block acc) blocks acc).1)%N
  \/ (u32_max <= next_seq (fold_left (fun acc block => push_user_block block acc) blocks acc).1)%N.
Proof.
  revert acc. induction blocks as [|b blocks IH]; intros acc; [by left|]. cbn [fold_left].
  specialize (IH (push_user_block b acc)).
  assert (E : next_seq (push_user_block b acc).1 = saturating_add_u32 (next_seq acc.1) 1) by done. rewrite E in IH.
  pose proof (climb_one (next_seq acc.1)). lia.
Qed.
Lemma update_climbs update timing : climbs (push_update_inner update timing).
Proof.
  assert (Htool : forall id call f, climbs (fun a => match change_tool id f timing a with Some r => r | None => open_tool call timing a end)).
  { intros id call f a. cbn beta. pose proof (change_tool_next id f timing a) as H.
    destruct (change_tool id f timing a); [left; by rewrite H|apply open_tool_climbs]. }
  assert (Htext : forall kind chunk, climbs (push_text kind chunk)).
  { intros kind chunk a. unfold push_text. destruct (cc_content chunk); try apply climb_one. destruct (existsb _ _); [by left|apply climb_one]. }
  destruct update; try (intros a; by left); [apply Htext|apply Htext|apply Htool|apply Htool|].
  intros a. cbn. unfold replace_plan. destruct (existsb _ _); [by left|apply climb_one].
Qed.
Lemma call_climbs c : climbs (call_step c).
Proof.
  destruct c; cbn [call_step]; try apply update_climbs; try (intros a; apply climb_one).
  - intros a. apply (prompt_climbs prompt (a, [])).
  - intros a. pose proof (prompt_climbs prompt (a, [])) as H. unfold push_user_prompt. by destruct (fold_left _ prompt (a, [])).
  - intros a. left. cbn [fst]. revert a. induction timings as [|t ts IH]; intros a; [done|]. exact (IH (update_tool_timing t.1 t.2 a)).
Qed.

(** ** What a recorder leaves in its file *)

(** The state of a recorder that was opened on the lines [old]: its file holds the lines it settled, and at most the
    beginning of a write that failed. *)
Definition stamped (records : list AssembledRecord) (lines : list HistoryLine) : Prop := line_assembled <$> lines = records.
Record keeps_file (old : list HistoryLine) (r : SessionRecorder) : Prop := {
  kf_file : exists t, rr_file r = Some (file_text (old ++ rr_settled r) +:+ t)
                      /\ (rr_stopped r = false \/ (forall n k, write_answer n <> WriteFailed k) -> t = "");
  kf_durable : rr_durable_bytes r = String.length (file_text (old ++ rr_settled r));
}.
Lemma write_records_keep old records r :
  keeps_file old r -> rr_stopped r = false ->
  keeps_file old (write_records records r).2 /\ rr_assembler (write_records records r).2 = rr_assembler r
  /\ ((forall n, write_answer n = WriteOk) -> rr_stopped (write_records records r).2 = false
      /\ exists lines, stamped records lines /\ rr_settled (write_records records r).2 = rr_settled r ++ lines).
Proof.
  revert r. induction records as [|record records IH]; intros r Hr Hrun.
  - cbn [write_records snd]. split_and!; [done|done|]. intros _. split; [done|]. exists []. by rewrite app_nil_r.
  - cbn [write_records]. unfold write_record. set (line := {| hl_at := _; hl_seq := _; hl_record := _ |}).
    destruct Hr as [(t & Hf & Ht) Hd]. rewrite (Ht (or_introl Hrun)), app_nil_r_str in Hf.
    assert (Hnext : file_text ((old ++ rr_settled r) ++ [line]) = file_text (old ++ rr_settled r) +:+ line_bytes line) by apply file_text_snoc.
    destruct (write_answer (rr_tick r)) as [| |n] eqn:Ew.
    + match goal with |- context [write_records records ?q] => specialize (IH q) end. cbn [rr_file rr_durable_bytes rr_assembler rr_stopped rr_settled] in IH.
      destruct IH as (H1 & H2 & H3); [split; cbn [rr_file rr_durable_bytes rr_settled default]|exact Hrun|].
      * exists "". rewrite Hf. cbn [default]. rewrite app_assoc, Hnext, app_nil_r_str. done.
      * by rewrite app_assoc, Hnext, length_app_str, Hd.
      * split_and!; [done|done|]. intros Hok. destruct (H3 Hok) as (H4 & lines & Hl & H5). split; [done|].
        exists (line :: lines). split; [unfold stamped in *; rewrite fmap_cons, Hl; by destruct record|]. by rewrite H5, <- app_assoc.
    + cbn [snd with_stopped rr_assembler rr_settled]. split_and!; [|done|intros Hok; by rewrite Hok in Ew].
      split; cbn [rr_file rr_settled rr_durable_bytes rr_stopped with_stopped]; [|done]. exists "". by rewrite Hf, app_nil_r_str.
    + cbn [snd with_stopped rr_assembler rr_settled]. split_and!; [|done|intros Hok; by rewrite Hok in Ew].
      split; cbn [rr_file rr_settled rr_durable_bytes rr_stopped with_stopped default]; [|done].
      exists (String.substring 0 n (line_bytes line)). split; [by rewrite Hf|]. intros [?|Hno]; [done|by destruct (Hno _ _ Ew)].
Qed.
Lemma append_keep old records r :
  keeps_file old r ->
  keeps_file old (append records r).2 /\ rr_assembler (append records r).2 = rr_assembler r
  /\ ((forall n, write_answer n = WriteOk) -> rr_stopped r = false -> rr_stopped (append records r).2 = false
      /\ exists lines, stamped records lines /\ rr_settled (append records r).2 = rr_settled r ++ lines).
Proof.
  intros Hr. unfold append. destruct (rr_stopped r) eqn:Hrun; [by split_and!|].
  destruct (write_records_keep old records r Hr Hrun) as (H1 & H2 & H3). split_and!; [done|done|]. intros Hok _. by apply H3.
Qed.

(** What previews leave alone. *)
Definition same_record (q r : SessionRecorder) : Prop :=
  rr_file q = rr_file r /\ rr_durable_bytes q = rr_durable_bytes r /\ rr_assembler q = rr_assembler r
  /\ rr_stopped q = rr_stopped r /\ rr_settled q = rr_settled r.
Lemma preview_same r : same_record (preview_pending r) r.
Proof.
  unfold preview_pending. destruct (_ || _); [done|]. destruct (match rr_last_preview r with Some _ => _ | None => _ end); [done|].
  by destruct (pending_records _).
Qed.
Definition before_call (c : RecorderCall) (r : SessionRecorder) : SessionRecorder :=
  match c with CallResume _ => with_stopped false r | _ => r end.
Lemma perform_call_appends c r :
  same_record (perform_call c r)
    (let q := before_call c r in
     (append (call_step c (rr_assembler q)).2 (with_assembler (call_step c (rr_assembler q)).1 q)).2).
Proof.
  destruct c; cbn [perform_call before_call call_step]; try done.
  - unfold record_prompt, assemble. by destruct (push_user_prompt _ _).
  - unfold record_identified_prompt, assemble. by destruct (push_user_prompt _ _).
  - unfold record_update, assemble, push_update. destruct (push_update_inner _ _ _) as [a out]. cbn [fst snd].
    destruct (append out _) as [o q]. apply preview_same.
  - unfold record_timed_update, assemble, push_timed_update. destruct (push_update_inner _ _ _) as [a out]. cbn [fst snd].
    destruct (append out _) as [o q]. apply preview_same.
  - cbn [fst snd]. unfold append, finish_tool_timings. by destruct (rr_stopped _).
  - unfold record_turn_end, assemble. destruct (end_turn _ _) as [a out]. cbn [fst snd].
    destruct (append out _) as [o q]. cbn [snd]. by destruct wants_record_previews.
Qed.
Lemma same_keeps old q r : same_record q r -> keeps_file old r -> keeps_file old q.
Proof. intros (H1 & H2 & _ & H4 & H5) [Hf Hd]. split; [by rewrite H1, H4, H5|by rewrite H2, H5]. Qed.
Definition is_resume (c : RecorderCall) : bool := match c with CallResume _ => true | _ => false end.
Lemma perform_call_keeps old c r :
  is_resume c = false \/ (forall n k, write_answer n <> WriteFailed k) -> keeps_file old r -> keeps_file old (perform_call c r).
Proof.
  intros Hc Hr. eapply same_keeps; [apply perform_call_appends|]. apply append_keep.
  destruct Hr as [(t & Hf & Ht) Hd]. split; [|by destruct c]. exists t. split; [by destruct c|].
  intros H. apply Ht. destruct c; try exact H. destruct Hc as [?|Hno]; [done|by right].
Qed.
Lemma perform_calls_keep old cs r :
  Forall (fun c => is_resume c = false) cs \/ (forall n k, write_answer n <> WriteFailed k) ->
  keeps_file old r -> keeps_file old (perform_calls cs r).
Proof.
  intros Hcs. revert r. induction cs as [|c cs IH]; intros r Hr; [done|]. cbn [perform_calls fold_left]. apply IH.
  - destruct Hcs as [H|?]; [left; by inversion H|by right].
  - apply perform_call_keeps; [|done]. destruct Hcs as [H|?]; [left; by inversion H|by right].
Qed.
Lemma reopen_keeps old state : keeps_file old (reopen (Some (file_text old)) state).
Proof. split; cbn; rewrite app_nil_r; [|done]. exists "". by rewrite app_nil_r_str. Qed.
Lemma read_durable old r : keeps_file old r -> Forall written_whole (old ++ rr_settled r) ->
  read_session_history_up_to (rr_file r) (rr_durable_bytes r) = read_back (old ++ rr_settled r).
Proof.
  intros [(t & Hf & _) Hd] Hw. rewrite Hf. unfold read_session_history_up_to.
  rewrite Hd, substring_app_le, substring_full by done.
  pose proof (parse_tail _ "" Hw eq_refl) as H. rewrite app_nil_r_str in H. rewrite H. by destruct (decode_line "").
Qed.

Lemma reread old : Forall written_whole old -> read_session_history (Some (file_text old)) = read_back old.
Proof.
  intros Hold. pose proof (parse_tail old "" Hold eq_refl) as H. rewrite app_nil_r_str in H. unfold read_session_history.
  change (default "" (Some (file_text old))) with (file_text old). rewrite H. by destruct (decode_line "").
Qed.

Lemma append_assembler records r : rr_assembler (append records r).2 = rr_assembler r.
Proof.
  unfold append. destruct (rr_stopped r); [done|]. revert r. induction records as [|x xs IH]; intros r; [done|].
  cbn [write_records]. unfold write_record. destruct (write_answer (rr_tick r)); [by rewrite IH|done|done].
Qed.
Lemma call_climb c r :
  (next_seq (rr_assembler r) <= next_seq (rr_assembler (perform_call c r)))%N
  \/ (u32_max <= next_seq (rr_assembler (perform_call c r)))%N.
Proof.
  destruct (perform_call_appends c r) as (_ & _ & Ha & _). rewrite Ha. cbn zeta. rewrite append_assembler.
  pose proof (call_climbs c (rr_assembler r)). destruct c; exact H.
Qed.
Lemma calls_climb cs r :
  (next_seq (rr_assembler (perform_calls cs r)) < u32_max)%N ->
  (next_seq (rr_assembler r) <= next_seq (rr_assembler (perform_calls cs r)))%N.
Proof.
  revert r. induction cs as [|c cs IH]; intros r Hb; [done|]. cbn [perform_calls fold_left] in *.
  specialize (IH _ Hb). unfold perform_calls in IH. pose proof (call_climb c r). lia.
Qed.

(** One call of a recorder whose writes succeed. *)
Lemma ok_never_fails : (forall n, write_answer n = WriteOk) -> forall n k, write_answer n <> WriteFailed k.
Proof. intros Hok n k. by rewrite Hok. Qed.
Lemma perform_call_records c old start r items :
  (forall n, write_answer n = WriteOk) -> keeps_file old r -> rr_stopped r = false ->
  follows start items (rr_assembler r) (line_assembled <$> rr_settled r) -> (next_seq (rr_assembler (perform_call c r)) < u32_max)%N ->
  rr_stopped (perform_call c r) = false
  /\ follows start (converse items c) (rr_assembler (perform_call c r)) (line_assembled <$> rr_settled (perform_call c r)).
Proof.
  intros Hok Hr Hrun F. destruct (perform_call_appends c r) as (_ & _ & Ha & Hs & Hset).
  assert (Hq : before_call c r = r) by (destruct c; try done; cbn [before_call]; destruct r; cbn in *; by subst).
  rewrite Ha, Hs, Hset, Hq. clear Ha Hs Hset Hq. cbn zeta. destruct (call_step c (rr_assembler r)) as [a out] eqn:E. cbn [fst snd].
  destruct (append_keep old out (with_assembler a r)) as (_ & Ha & Hs); [by destruct Hr as [? ?]; split|].
  destruct (Hs Hok Hrun) as (Hrun' & lines & Hst & Hset). rewrite Ha, Hset, fmap_app, Hst. intros Hb. split; [done|].
  exact (call_performs c _ _ _ _ _ _ F E Hb).
Qed.
Lemma perform_calls_records cs old start r items :
  (forall n, write_answer n = WriteOk) -> keeps_file old r -> rr_stopped r = false ->
  follows start items (rr_assembler r) (line_assembled <$> rr_settled r) -> (next_seq (rr_assembler (perform_calls cs r)) < u32_max)%N ->
  follows start (fold_left converse cs items) (rr_assembler (perform_calls cs r)) (line_assembled <$> rr_settled (perform_calls cs r)).
Proof.
  intros Hok. revert r items. induction cs as [|c cs IH]; intros r items Hr Hrun F Hb; [done|].
  cbn [perform_calls fold_left] in *. fold (perform_calls cs (perform_call c r)) in *.
  destruct (perform_call_records c old start r items Hok Hr Hrun F) as (Hrun1 & F1).
  { apply (N.le_lt_trans _ (next_seq (rr_assembler (perform_calls cs (perform_call c r))))); [|done]. by apply calls_climb. }
  exact (IH _ _ (perform_call_keeps old c r (or_intror (ok_never_fails Hok)) Hr) Hrun1 F1 Hb).
Qed.

(** *** What reaches the file of what the assembler gives out *)

Lemma write_records_prefix records r : rr_stopped r = false ->
  exists k, line_assembled <$> rr_settled (write_records records r).2 = (line_assembled <$> rr_settled r) ++ k /\ k `prefix_of` records
  /\ (rr_stopped (write_records records r).2 = false -> k = records).
Proof.
  revert r. induction records as [|record records IH]; intros r Hrun; [exists []; rewrite app_nil_r; by split_and!|].
  cbn [write_records]. unfold write_record. destruct (write_answer (rr_tick r)) as [| |n].
  - match goal with |- context [write_records records ?q] => destruct (IH q Hrun) as (k & Hk & Hp & Hall) end. exists (record :: k).
    rewrite Hk. cbn [rr_settled]. rewrite fmap_app, <- app_assoc. split_and!; [by destruct record|by apply prefix_cons|].
    intros H. by rewrite (Hall H).
  - exists []. cbn. rewrite app_nil_r. split_and!; [done|apply prefix_nil|done].
  - exists []. cbn. rewrite app_nil_r. split_and!; [done|apply prefix_nil|done].
Qed.
Lemma perform_calls_prefix cs r : Forall (fun c => is_resume c = false) cs -> rr_stopped r = false ->
  exists k, line_assembled <$> rr_settled (perform_calls cs r) = (line_assembled <$> rr_settled r) ++ k
  /\ k `prefix_of` given_out cs (rr_assembler r) /\ (rr_stopped (perform_calls cs r) = false -> k = given_out cs (rr_assembler r)).
Proof.
  assert (Hstop : forall cs r, Forall (fun c => is_resume c = false) cs -> rr_stopped r = true ->
    rr_stopped (perform_calls cs r) = true /\ rr_settled (perform_calls cs r) = rr_settled r).
  { clear. intros cs r Hcs. revert r. induction Hcs as [|c cs Hc _ IH]; intros r Hr; [done|]. cbn [perform_calls fold_left].
    fold (perform_calls cs (perform_call c r)). destruct (perform_call_appends c r) as (_ & _ & _ & Hs & Hset). assert (Hq : before_call c r = r) by (by destruct c).
    rewrite Hq in *. unfold append in Hs, Hset. cbn zeta in *. cbn [with_assembler rr_stopped] in Hs, Hset. rewrite Hr in Hs, Hset.
    destruct (IH (perform_call c r)) as [H1 H2]; [by rewrite Hs|]. split; [done|]. by rewrite H2, Hset. }
  intros Hcs. revert r. induction Hcs as [|c cs Hc Hcs IH]; intros r Hr; [exists []; rewrite app_nil_r; by split_and!|].
  cbn [perform_calls fold_left given_out]. fold (perform_calls cs (perform_call c r)).
  destruct (perform_call_appends c r) as (_ & _ & Ha & Hs & Hset). assert (Hq : before_call c r = r) by (by destruct c).
  rewrite Hq in *. cbn zeta in *. rewrite append_assembler in Ha. destruct (call_step c (rr_assembler r)) as [a out]. cbn [fst snd] in *.
  destruct (write_records_prefix out (with_assembler a r) Hr) as (k & Hk & Hp & Hall).
  unfold append in Hs, Hset. cbn [with_assembler rr_stopped] in Hs, Hset. rewrite Hr in Hs, Hset.
  destruct (rr_stopped (perform_call c r)) eqn:E.
  - destruct (Hstop cs _ Hcs E) as [H1 H2]. exists k. rewrite H1, H2, Hset. split_and!; [done|by apply prefix_app_r|done].
  - destruct (IH _ E) as (k' & Hk' & Hp' & Hall'). rewrite Ha in *. cbn [with_assembler rr_assembler] in *. rewrite <- (Hall (eq_sym Hs)) in *.
    exists (k ++ k'). rewrite Hk', Hset, Hk, <- app_assoc. split_and!; [done|by apply prefix_app|]. intros H. by rewrite (Hall' H).
Qed.

(** C24: A recorder that is opened on a session's file keeps, whatever is streamed and whatever each write meets (up to
    a resume after a write that was cut short), every line it settled: the durable prefix of the file reads back as the
    old lines and the settled ones, the last of every position, by position, with nothing damaged.  Without a resume the
    settled lines are the first of those the assembler gave out, and all of them unless a write failed.  The lines are
    ones the text form is good for: they read back, hold no line break, and cannot be read when cut short. *)
Theorem settled_lines_durable old cs state :
  let r := perform_calls cs (reopen (Some (file_text old)) state) in
  let given := given_out cs (new_assembler (N.min (end_of old) u32_max)) in
  Forall (fun c => is_resume c = false) cs \/ (forall n k, write_answer n <> WriteFailed k) ->
  Forall written_whole (old ++ rr_settled r) ->
  reads_as (read_session_history_up_to (rr_file r) (rr_durable_bytes r)) (old ++ rr_settled r)
  /\ (state = Writable -> Forall (fun c => is_resume c = false) cs ->
      line_assembled <$> rr_settled r `prefix_of` given /\ (rr_stopped r = false -> line_assembled <$> rr_settled r = given)).
Proof.
  intros r given Hcs Hw. split.
  - rewrite (read_durable old); [apply read_back_reads|apply perform_calls_keep; [done|apply reopen_keeps]|done].
  - intros -> Hno. assert (Hold : Forall written_whole old) by (by apply Forall_app in Hw as [? _]).
    destruct (perform_calls_prefix cs (reopen (Some (file_text old)) Writable) Hno eq_refl) as (k & Hk & Hp & Hall). fold r in Hk, Hall.
    cbn [reopen open_recorder rr_settled rr_assembler fmap list_fmap app] in *.
    assert (Hstart : sh_next_seq (read_session_history (Some (file_text old))) = N.min (end_of old) u32_max).
    { rewrite (reread old Hold). apply read_back_reads. }
    rewrite Hstart in *. fold given in Hp, Hall. by rewrite Hk.
Qed.

(** C23: As long as writes succeed and positions do not run out, the file of a session and the items still open in memory
    show exactly the conversation: the lines that were there before, the last of every position, then one record per
    position for everything the calls said, each in its latest form.  What the conversation is, and the form of each of
    its items, follows from the calls alone.  The lines are ones the text form is good for: they read back, hold no line
    break, and cannot be read when cut short. *)
Theorem recorded_conversation old cs :
  let r := perform_calls cs (reopen (Some (file_text old)) Writable) in
  let h := read_session_history_up_to (rr_file r) (rr_durable_bytes r) in
  (forall n, write_answer n = WriteOk) -> Forall written_whole (old ++ rr_settled r) ->
  (next_seq (rr_assembler r) < u32_max)%N ->
  sh_integrity h = Complete /\ exists before, last_lines old before
  /\ replayed_record <$> merged (sh_lines h) (pending_records (rr_assembler r))
     = (line_assembled <$> before) ++ from_seq (end_of old) (item_record <$> conversation cs).
Proof.
  intros r h Hok Hw Hb. pose proof (ok_never_fails Hok) as Hno.
  pose proof (perform_calls_keep old cs _ (or_intror Hno) (reopen_keeps old Writable)) as Hkeep. fold r in Hkeep.
  unfold h. rewrite (read_durable old r Hkeep Hw). split; [done|]. cbn [read_back sh_lines].
  assert (Hold : Forall written_whole old) by (by apply Forall_app in Hw as [? _]).
  exists (order_lines old). split; [apply order_lines_last|].
  assert (Hstart : (sh_next_seq (read_session_history (Some (file_text old))) <= next_seq (rr_assembler r))%N) by exact (calls_climb cs _ Hb).
  assert (Hnext : sh_next_seq (read_session_history (Some (file_text old))) = end_of old).
  { rewrite (reread old Hold) in *. rewrite (ra_next _ _ (read_back_reads old)) in *. lia. }
  fold (shown (old ++ rr_settled r) (pending_records (rr_assembler r))). rewrite <- shown_alone. apply shown_conversation; [|done].
  refine (perform_calls_records cs old _ (reopen (Some (file_text old)) Writable) [] Hok (reopen_keeps old Writable) eq_refl _ Hb).
  cbn [reopen open_recorder rr_assembler rr_settled fmap list_fmap]. rewrite Hnext. apply follows_new.
Qed.

(** When a write was cut short, the note that [resume] leaves about the gap is joined to the broken line: neither is
    readable any more, so the file reads back without the note and with one damaged line. *)
Theorem resume_after_cut_loses_note old line n reason r :
  Forall written_whole old -> str_free (is_char NEWLINE) (encode_line line) = true -> 0 < n < String.length (encode_line line) ->
  rr_file r = Some (file_text old +:+ String.substring 0 n (line_bytes line)) -> write_answer (rr_tick r) = WriteOk ->
  let note := {| hl_at := formatted_now (rr_tick r); hl_seq := next_seq (rr_assembler r); hl_record := Gap reason |} in
  str_free (is_char NEWLINE) (encode_line note) = true ->
  decode_line (String.substring 0 n (encode_line line) +:+ encode_line note) = None ->
  let r' := perform_call (CallResume reason) r in
  rr_settled r' = rr_settled r ++ [note]
  /\ read_session_history (rr_file r') = {| sh_lines := order_lines old; sh_next_seq := sh_next_seq (read_back old);
                                            sh_integrity := Damaged 1 |}.
Proof.
  intros Hold Hline Hn Hf Hok note Hnote Hglued r'.
  assert (Hr : rr_settled r' = rr_settled r ++ [note]
    /\ rr_file r' = Some (file_text old +:+ String.substring 0 n (line_bytes line) +:+ line_bytes note)).
  { unfold r', perform_call, resume, append_standalone, assemble, append. cbn [take_seq with_stopped rr_assembler with_assembler rr_stopped].
    cbn [write_records]. unfold write_record. cbn [rr_tick rr_file with_assembler with_stopped]. rewrite Hok, Hf.
    cbn [snd rr_settled rr_file default]. by rewrite <- app_assoc_str. }
  destruct Hr as [Hset Hfile]. split; [done|]. rewrite Hfile. unfold read_session_history, line_bytes at 1.
  rewrite substring_app_le by lia. set (cut := String.substring 0 n (encode_line line)) in *.
  assert (Hcut : cut +:+ encode_line note <> "").
  { unfold cut. destruct (encode_line line) as [|c s]; [cbn in Hn; lia|]. by destruct n; [lia|]. }
  change (default "" (Some ?x)) with x. unfold line_bytes. rewrite <- (app_assoc_str cut).
  assert (Hlines : file_text old +:+ (cut +:+ encode_line note) +:+ String NEWLINE ""
    = terminated NEWLINE ((encode_line <$> old) ++ [cut +:+ encode_line note])) by by rewrite terminated_app.
  rewrite Hlines. unfold parse_history, segments_of. rewrite split_terminated.
  - rewrite terminated_ends by (by destruct (encode_line <$> old)). rewrite !filter_app, whole_segments by done.
    rewrite filter_cons_True, filter_nil by done. rewrite filter_cons_False, filter_nil by tauto. rewrite app_nil_r.
    cbn [negb]. rewrite decode_all_tail by done. by rewrite Hglued.
  - apply Forall_app. split; [apply Forall_fmap; eapply Forall_impl; [exact Hold|]; intros l Hl; apply (ww_one_line _ Hl)|].
    constructor; [|constructor]. rewrite str_free_app, Hnote. unfold cut.
    by rewrite (str_free_prefix _ n _ Hline).
Qed.
End recordings.

(** ** A sample session *)

Definition whole_check {text : LineText} (line : HistoryLine) : bool :=
  forallb (fun n => match decode_line (String.substring 0 n (encode_line line)) with None => true | Some _ => false end)
    (seq 0 (String.length (encode_line line)))
  && str_free (is_char NEWLINE) (encode_line line) && bool_decide (encode_line line <> "").
Lemma whole_by_check {text : LineText} line :
  whole_check line = true -> decode_line (encode_line line) = Some line -> written_whole line.
Proof.
  unfold whole_check. rewrite !andb_true_iff, bool_decide_eq_true, forallb_forall. intros ((Hcut & Hone) & Hne) Hread. split; try done.
  intros n Hn. specialize (Hcut n). destruct (decode_line (String.substring 0 n _)); [|done]. discriminate Hcut. apply in_seq. lia.
Qed.

Definition sample_calls : ToolCalls := {|
  tool_call_update fields call := match fields with VString "completed" => with_status ToolCompleted call | _ => call end;
  new_tool_call id title := {| tl_id := id; tl_title := title; tl_status := ToolPending; tl_meta := None; tl_rest := VNull |};
|}.
Definition sample_encode (l : HistoryLine) : string := "{" +:+ hl_at l +:+ "," +:+ of_N (hl_seq l) +:+ "}".
Definition sample_host : HistoryHost := {|
  formatted_now n := of_N (N.of_nat n); write_answer _ := WriteOk; failure_text _ := "disk full"; instant_at n := N.of_nat n;
  wants_record_previews := true;
|}.
Definition says (id : option MessageId) (s : string) : ContentChunk :=
  {| cc_content := TextBlock {| tc_text := s; tc_annotations := None; tc_meta := None |}; cc_message_id := id; cc_meta := None |}.
Definition sample_session : list RecorderCall := [
  CallPrompt [cc_content (says None "Fix the build")];
  CallUpdate (AgentThoughtChunk (says None "Look"));
  CallUpdate (AgentThoughtChunk (says None " first"));
  CallUpdate (UpdateToolCall {| tl_id := "t1"; tl_title := "Read Makefile"; tl_status := ToolPending; tl_meta := None; tl_rest := VNull |});
  CallUpdate (AgentMessageChunk (says (Some "m1") "Do"));
  CallTimedUpdate (UpdateToolCallUpdate {| tu_id := "t1"; tu_fields := VString "completed"; tu_meta := None |})
    {| tt_started_at := "now"; tt_duration_ms := Some 5%N |};
  CallUpdate (AgentMessageChunk (says (Some "m1") "ne"))
].
Definition sample_meta : SessionMeta :=
  {| sm_schema_version := 2; sm_session_id := "s"; sm_workspace_id := "w"; sm_agent_ref := "codex"; sm_agent_session_id := "a"; sm_cwd := "/" |}.
Definition sample_old : list HistoryLine := [{| hl_at := "then"; hl_seq := 0; hl_record := MetaRecord sample_meta |}].
(** The lines the session writes, and a text form that knows them. *)
Definition sample_lines : list HistoryLine := Eval vm_compute in
  rr_settled (@perform_calls sample_calls {| encode_line := sample_encode; decode_line _ := None |} sample_host
    (sample_session ++ [CallTurnEnd EndTurn]) (open_recorder None 1 Writable)).
Definition sample_text : LineText := {|
  encode_line := sample_encode;
  decode_line s := find_first (fun l => bool_decide (sample_encode l = s)) (sample_old ++ sample_lines);
|}.
Notation sample_recorder cs :=
  (@perform_calls sample_calls sample_text sample_host cs (@reopen sample_text (Some (@file_text sample_text sample_old)) Writable)).
Lemma sample_whole cs : rr_settled (sample_recorder cs) = take (length (rr_settled (sample_recorder cs))) sample_lines ->
  Forall (@written_whole sample_text) (sample_old ++ rr_settled (sample_recorder cs)).
Proof.
  intros ->. apply Forall_app. assert (H : Forall (@written_whole sample_text) (sample_old ++ sample_lines)).
  { repeat constructor; apply (@whole_by_check sample_text); vm_compute; reflexivity. }
  apply Forall_app in H as [H1 H2]. split; [done|]. by apply Forall_take.
Qed.

Lemma settled_lines_durable_witness :
  let r := sample_recorder (sample_session ++ [CallTurnEnd EndTurn]) in
  @reads_as (@read_session_history_up_to sample_text (rr_file r) (rr_durable_bytes r)) (sample_old ++ rr_settled r)
  /\ length (rr_settled r) = 5 /\ line_assembled <$> rr_settled r = @given_out sample_calls (sample_session ++ [CallTurnEnd EndTurn]) (new_assembler 1).
Proof.
  assert (Hno : Forall (fun c => is_resume c = false) (sample_session ++ [CallTurnEnd EndTurn])) by repeat constructor.
  destruct (@settled_lines_durable sample_calls sample_text sample_host sample_old (sample_session ++ [CallTurnEnd EndTurn]) Writable)
    as [Hread Hall].
  - left. exact Hno.
  - apply sample_whole. vm_compute. reflexivity.
  - split; [exact Hread|]. split; [vm_compute; reflexivity|]. apply (proj2 (Hall eq_refl Hno)). vm_compute. reflexivity.
Defined.
(** The call of the sample session, over, with its timing. *)
Definition sample_call : ToolCall :=
  {| tl_id := "t1"; tl_title := "Read Makefile"; tl_status := ToolCompleted; tl_meta := None; tl_rest := VNull |}.
Definition sample_shown : list HistoryRecord := [
  asked None (cc_content (says None "Fix the build")); said Thought (says None "Look first");
  called sample_call (Some {| tt_started_at := "now"; tt_duration_ms := Some 5%N |}); said Message (says (Some "m1") "Done")
].
Lemma recorded_conversation_witness :
  let r := sample_recorder sample_session in
  length (pending_records (rr_assembler r)) = 1
  /\ replayed_record <$> merged (sh_lines (@read_session_history_up_to sample_text (rr_file r) (rr_durable_bytes r)))
       (pending_records (rr_assembler r)) = [assembled 0 (MetaRecord sample_meta)] ++ from_seq 1 sample_shown.
Proof.
  split; [vm_compute; reflexivity|].
  destruct (@recorded_conversation sample_calls sample_text sample_host sample_old sample_session) as (_ & before & Hbefore & Hshown).
  - done.
  - apply sample_whole. vm_compute. reflexivity.
  - vm_compute. reflexivity.
  - rewrite Hshown. replace before with sample_old; [vm_compute; reflexivity|].
    apply (last_lines_unique sample_old); [|exact Hbefore]. exact (order_lines_last sample_old).
Defined.
Notation sample_whole_line := {| hl_at := "then"; hl_seq := 0; hl_record := MetaRecord sample_meta |}.
Lemma sample_line_whole : @written_whole sample_text sample_whole_line.
Proof. apply (@whole_by_check sample_text); vm_compute; reflexivity. Qed.
Lemma cut_short_reads_back_witness :
  reads_as (@parse_history sample_text (String.substring 0 3 (@line_bytes sample_text sample_whole_line))) []
  /\ reads_as (@parse_history sample_text (String.substring 0 8 (@line_bytes sample_text sample_whole_line))) [sample_whole_line].
Proof.
  split.
  - apply (@cut_short_reads_back sample_text [] sample_whole_line 3); [constructor|exact sample_line_whole|vm_compute; lia].
  - apply (@cut_short_reads_back sample_text [] sample_whole_line 8); [constructor|exact sample_line_whole|vm_compute; lia].
Defined.
Definition line_of (seq : N) : HistoryLine := {| hl_at := "later"; hl_seq := seq; hl_record := TurnEnded EndTurn |}.
(** A recorder whose last write stopped after three bytes. *)
Definition sample_cut : SessionRecorder := {|
  rr_file := Some (@file_text sample_text sample_old +:+ String.substring 0 3 (@line_bytes sample_text (line_of 1)));
  rr_durable_bytes := 9; rr_assembler := new_assembler 2; rr_stopped := true; rr_settled := []; rr_previews := [];
  rr_last_preview := None; rr_tick := 7;
|}.
Lemma resume_after_cut_loses_note_witness :
  @read_session_history sample_text (rr_file (@perform_call sample_calls sample_text sample_host (CallResume "disk full") sample_cut))
  = {| sh_lines := order_lines sample_old; sh_next_seq := 1; sh_integrity := Damaged 1 |}.
Proof.
  refine (proj2 (@resume_after_cut_loses_note sample_calls sample_text sample_host sample_old (line_of 1) 3 "disk full" sample_cut _ _ _ _ _ _ _)).
  - constructor; [exact sample_line_whole|constructor].
  - vm_compute. reflexivity.
  - vm_compute. lia.
  - reflexivity.
  - reflexivity.
  - vm_compute. reflexivity.
  - vm_compute. reflexivity.
Defined.
