(* ===== verification/SessionHandoff.v ===== *)
(** * The block handed to another agent

    The transcript that [handoff.rs] renders sits between two markers.  Whatever the participants wrote, and as long as
    the names the other records carry do not hold the closing marker, the block ends where its renderer ends it. *)

From Stdlib Require Import Ascii.
From S2P Require Import Prelude RustStr Json SessionHistory.
Local Open Scope ora_scope.

(** ** Texts without the marker *)

Fixpoint occurs (pat s : string) : bool :=
  starts_with pat s || match s with "" => false | String _ s => occurs pat s end.
Definition clean (s : string) : Prop := occurs CLOSE_MARKER s = false.
Lemma occurs_contains pat s : occurs pat s = str_contains pat s.
Proof.
  induction s as [|c s IH].
  - unfold str_contains, starts_with. cbn [occurs split_once]. unfold starts_with. by destruct (str_strip_prefix pat "").
  - cbn [occurs]. rewrite IH. unfold str_contains, starts_with. cbn [split_once].
    destruct (str_strip_prefix pat (String c s)); [done|]. destruct (split_once pat s); done.
Qed.
(** A byte the marker does not hold keeps two texts apart. *)
Definition breaks (c : ascii) : bool := str_free (is_char c) CLOSE_MARKER.
Lemma starts_with_cons d pat c s : starts_with (String d pat) (String c s) = bool_decide (d = c) && starts_with pat s.
Proof.
  unfold starts_with. cbn [str_strip_prefix]. destruct (decide (d = c)) as [Heq|Hne].
  - by rewrite (bool_decide_eq_true_2 (d = c)).
  - by rewrite (bool_decide_eq_false_2 (d = c)).
Qed.
Lemma starts_with_break pat a c b : str_free (is_char c) pat = true -> starts_with pat (a +:+ String c b) = starts_with pat a.
Proof.
  revert a. induction pat as [|d pat IH]; intros a; [by destruct a|]. cbn [str_free]. unfold is_char at 1. rewrite andb_true_iff, negb_true_iff, bool_decide_eq_false.
  intros [Hd Hpat]. destruct a as [|e a]; cbn [String.append]; rewrite !starts_with_cons.
  - by rewrite bool_decide_eq_false_2 by congruence.
  - by rewrite IH.
Qed.
Lemma occurs_break a c b : breaks c = true -> occurs CLOSE_MARKER (a +:+ String c b) = occurs CLOSE_MARKER a || occurs CLOSE_MARKER b.
Proof.
  intros Hc. induction a as [|d a IH]; cbn [String.append].
  - cbn [occurs]. change (String c b) with ("" +:+ String c b). by rewrite starts_with_break.
  - cbn [occurs]. rewrite IH, <- orb_assoc. f_equal. change (String d (a +:+ String c b)) with (String d a +:+ String c b).
    by apply starts_with_break.
Qed.
Lemma clean_break a c b : breaks c = true -> clean a -> clean b -> clean (a +:+ String c b).
Proof. unfold clean. intros Hc Ha Hb. by rewrite occurs_break, Ha, Hb. Qed.
(** Texts that may be followed by any clean text. *)
Definition solid (s : string) : Prop := forall t, clean t -> clean (s +:+ t).
Lemma solid_clean s : solid s -> clean s.
Proof. intros H. rewrite <- (app_nil_r_str s). by apply H. Qed.
Lemma solid_nil : solid "".
Proof. by intros t. Qed.
Lemma solid_app s t : solid s -> solid t -> solid (s +:+ t).
Proof. intros Hs Ht u Hu. rewrite app_assoc_str. by apply Hs, Ht. Qed.
Lemma solid_after a c b : clean a -> breaks c = true -> solid b -> solid (a +:+ String c b).
Proof. intros Ha Hc Hb t Ht. rewrite app_assoc_str. cbn [String.append]. apply clean_break; [done|done|by apply Hb]. Qed.
Lemma solid_end a c : clean a -> breaks c = true -> solid (a +:+ String c "").
Proof. intros Ha Hc. apply solid_after; [done|done|apply solid_nil]. Qed.
Lemma clean_after a c b : clean a -> breaks c = true -> clean b -> clean (a +:+ String c b).
Proof. intros. by apply clean_break. Qed.
Lemma solid_concat l : Forall solid l -> solid (String.concat "" l).
Proof.
  induction 1 as [|s l Hs _ IH]; [apply solid_nil|]. cbn [String.concat]. destruct l as [|t l]; [done|].
  cbn [String.append]. by apply solid_app.
Qed.
Lemma clean_join sep l : (exists c rest, sep = String c rest /\ breaks c = true /\ solid rest) -> Forall clean l -> clean (join sep l).
Proof.
  intros (c & rest & -> & Hc & Hrest). induction 1 as [|s l Hs _ IH]; [done|]. destruct l as [|t l]; [done|].
  rewrite join_cons by done. cbn [String.append]. apply clean_after; [done|done|]. by apply Hrest.
Qed.
(** The last byte of a literal. *)
Fixpoint ends_in_break (s : string) : bool :=
  match s with "" => false | String c "" => breaks c | String _ s => ends_in_break s end.
Lemma ends_in_break_split s : ends_in_break s = true -> exists u c, s = u +:+ String c "" /\ breaks c = true.
Proof.
  induction s as [|c s IH]; [done|]. destruct s as [|d s]; [intros H; by exists "", c|].
  intros H. destruct (IH H) as (u & e & -> & He). by exists (String c u), e.
Qed.
Lemma solid_by s : (occurs CLOSE_MARKER s, ends_in_break s) = (false, true) -> solid s.
Proof.
  intros [= Hs (u & c & -> & Hc)%ends_in_break_split]. rewrite occurs_break in Hs by done. apply orb_false_iff in Hs as [Hu _].
  by apply solid_end.
Qed.
Ltac solid_literal := apply solid_by; vm_compute; reflexivity.

(** ** Neutralizing a text *)

Definition LESS_THAN : ascii := byte_at 60.
Lemma starts_with_replaced pat rep q skip s :
  (exists r, rep = String LESS_THAN r) -> str_free (is_char LESS_THAN) q = true -> skip = 0 ->
  starts_with q (replace_go pat rep skip s) = true -> starts_with q s = true.
Proof.
  intros (r & ->) Hq ->. revert q Hq. induction s as [|c s IH]; intros q Hq; [done|]. cbn [replace_go].
  destruct q as [|d q]; [done|]. cbn [str_free] in Hq. unfold is_char at 1 in Hq. rewrite andb_true_iff, negb_true_iff, bool_decide_eq_false in Hq.
  destruct Hq as [Hd Hq]. destruct (starts_with pat (String c s)).
  - cbn [String.append]. rewrite starts_with_cons, bool_decide_eq_false_2 by congruence. done.
  - rewrite !starts_with_cons, !andb_true_iff. intros [? H]. split; [done|by apply IH].
Qed.
Lemma replace_clean pat rep skip s :
  (exists r, rep = String LESS_THAN r) -> solid rep -> pat = CLOSE_MARKER \/ clean s -> clean (replace_go pat rep skip s).
Proof.
  intros Hrep Hsolid. revert skip. induction s as [|c s IH]; intros skip Hs; [done|].
  assert (Hrest : pat = CLOSE_MARKER \/ clean s).
  { destruct Hs as [?|Hs]; [by left|right]. unfold clean in Hs. cbn [occurs] in Hs. by apply orb_false_iff in Hs as [_ ?]. }
  cbn [replace_go]. destruct skip as [|skip]; [|by apply IH]. destruct (starts_with pat (String c s)) eqn:E; [by apply Hsolid, IH|].
  unfold clean. cbn [occurs]. rewrite (IH 0 Hrest : occurs _ _ = false), orb_false_r.
  destruct (starts_with CLOSE_MARKER (String c (replace_go pat rep 0 s))) eqn:E'; [|done].
  change CLOSE_MARKER with (String LESS_THAN "/ora_session_handoff>") in E'. rewrite starts_with_cons, andb_true_iff, bool_decide_eq_true in E'.
  destruct E' as [<- Hq%starts_with_replaced]; [|done|done|done].
  assert (Hfull : starts_with CLOSE_MARKER (String LESS_THAN s) = true).
  { change CLOSE_MARKER with (String LESS_THAN "/ora_session_handoff>"). by rewrite starts_with_cons, Hq. }
  destruct Hs as [->|Hs]; [congruence|]. unfold clean in Hs. cbn [occurs] in Hs. by rewrite Hfull in Hs.
Qed.
Lemma solid_other c : c <> LESS_THAN -> solid (String c "").
Proof.
  intros Hc t Ht. unfold clean. cbn [String.append occurs]. rewrite Ht, orb_false_r.
  change CLOSE_MARKER with (String LESS_THAN "/ora_session_handoff>"). rewrite starts_with_cons. by rewrite bool_decide_eq_false_2 by congruence.
Qed.
Lemma replacement_solid marker : occurs CLOSE_MARKER marker = false -> solid (marker +:+ ZERO_WIDTH_SPACE +:+ ">").
Proof.
  intros Hm. change (marker +:+ ZERO_WIDTH_SPACE +:+ ">") with (marker +:+ String (byte_at 226) (bytes [128; 139]%N +:+ ">")).
  apply solid_after; [done|done|]. apply solid_app; [solid_literal|by apply solid_other].
Qed.
Lemma neutralize_clean text : clean (neutralize_markers text).
Proof.
  unfold neutralize_markers, str_replace. apply replace_clean; [by eexists|by apply (replacement_solid "<ora_session_handoff")|right].
  apply replace_clean; [by eexists|by apply (replacement_solid "</ora_session_handoff")|by left].
Qed.

(** ** The rendered turns *)

(** What other records carry and the renderer copies. *)
Definition content_free (content : ContentBlock) : Prop := match content with ResourceLinkBlock uri _ => clean uri | _ => True end.
Definition marker_free (line : HistoryLine) : Prop :=
  match hl_record line with
  | UpdateRecord (UserMessageChunk chunk | AgentMessageChunk chunk) _ => content_free (cc_content chunk)
  | UpdateRecord (UpdateToolCall call) _ => clean (tl_title call)
  | AgentSwitched s => clean (sw_from s) /\ clean (sw_to s)
  | MetaRecord m => clean (sm_agent_ref m)
  | Gap reason => clean reason
  | _ => True
  end.
Record turn_free (t : HandoffTurn) : Prop := {
  tf_user : Forall clean (ht_user t);
  tf_assistant : Forall clean (ht_assistant t);
  tf_tools : Forall (fun p => clean p.1) (ht_tools t);
  tf_notes : Forall solid (ht_notes t);
}.
Lemma describe_content_clean content : content_free content -> clean (describe_content content).
Proof.
  destruct content as [text| | |uri data| |]; intros Hc; cbn [describe_content]; try (vm_compute; reflexivity).
  - apply neutralize_clean.
  - apply (solid_by "[resource link: "); [vm_compute; reflexivity|]. by apply (clean_break uri (byte_at 93)).
Qed.
Lemma gap_note_solid reason : clean reason -> solid (gap_note reason).
Proof.
  intros H. unfold gap_note. apply solid_app; [solid_literal|]. apply (solid_after reason (byte_at 41)); [done|done|]. solid_literal.
Qed.
Lemma switch_note_solid s : clean (sw_from s) -> clean (sw_to s) -> solid (switch_note s).
Proof.
  intros H1 H2. unfold switch_note. apply solid_app; [solid_literal|].
  apply (solid_after _ (byte_at 32) ("to " +:+ sw_to s +:+ " at this point.")); [done|done|]. apply solid_app; [solid_literal|].
  apply (solid_after _ (byte_at 32) "at this point."); [done|done|]. solid_literal.
Qed.
Lemma empty_free : turn_free empty_turn.
Proof. repeat constructor. Qed.
Lemma collect_line_free acc line :
  marker_free line -> Forall turn_free acc.1 -> turn_free acc.2 ->
  Forall turn_free (collect_line acc line).1 /\ turn_free (collect_line acc line).2.
Proof.
  destruct acc as [turns t]. unfold marker_free. cbn [fst snd]. intros Hl Hturns [Hu Ha Ht Hn].
  assert (Hnote : forall note, solid note -> turn_free (add_note note t)).
  { intros note Hnote. split; cbn; try done. by apply Forall_app_2; [|constructor]. }
  unfold collect_line. destruct (hl_record line) as [m|u timing|stop|sw|id|reason]; cbn [fst snd]; try (split; [done|by split]).
  - destruct u; cbn [absorb_update]; split; try done; split; cbn; try done;
      (apply Forall_app_2; [done|]; constructor; [|done]; by try apply describe_content_clean).
  - split; [|apply empty_free]. destruct (turn_is_empty _); [done|]. apply Forall_app_2; [done|]. by repeat constructor.
  - split; [done|]. apply Hnote. destruct Hl. by apply switch_note_solid.
  - split; [done|]. apply Hnote. by apply gap_note_solid.
Qed.
Lemma collect_turns_free h : Forall marker_free (sh_lines h) -> Forall turn_free (collect_turns h).
Proof.
  intros H. unfold collect_turns.
  assert (Hacc : Forall turn_free (fold_left collect_line (sh_lines h) ([], empty_turn)).1
                 /\ turn_free (fold_left collect_line (sh_lines h) ([], empty_turn)).2).
  { assert (H0 : Forall turn_free (([] : list HandoffTurn), empty_turn).1 /\ turn_free (([] : list HandoffTurn), empty_turn).2)
      by (split; [constructor|apply empty_free]).
    revert H0. generalize (([] : list HandoffTurn), empty_turn). induction H as [|l ls Hl _ IH]; intros acc [H1 H2]; [done|].
    cbn [fold_left]. apply IH. by apply collect_line_free. }
  destruct (fold_left _ _ _) as [turns current]. destruct Hacc as [H1 H2]. cbn [fst snd] in *.
  destruct (turn_is_empty current); [done|]. by apply Forall_app_2; [|constructor].
Qed.

Lemma solid_line a : clean a -> solid (a +:+ NL).
Proof. intros H. by apply solid_end. Qed.
Lemma solid_NL : solid NL.
Proof. solid_literal. Qed.
Lemma lines_clean l : Forall clean l -> clean (join NL l).
Proof. apply clean_join. exists NEWLINE, "". split_and!; [done|done|apply solid_nil]. Qed.
Lemma status_clean status stop_reason : solid (describe_status status stop_reason +:+ ")").
Proof. destruct status; try solid_literal; destruct stop_reason as [[]|]; solid_literal. Qed.
Lemma tools_clean l stop_reason : Forall (fun p => clean p.1) l ->
  clean (join ", " ((fun p => p.1 +:+ " (" +:+ describe_status p.2 stop_reason +:+ ")") <$> l)).
Proof.
  intros H. apply clean_join; [exists (byte_at 44), " "; split_and!; [done|done|solid_literal]|].
  apply Forall_fmap. eapply Forall_impl; [exact H|]. intros [title status] Ht. cbn [fst snd].
  apply solid_clean, (solid_after title (byte_at 32)); [done|done|]. apply (solid_app "("); [solid_literal|apply status_clean].
Qed.
Lemma stop_note_solid stop_reason : solid (stop_note stop_reason).
Proof. destruct stop_reason as [[]|]; try solid_literal; apply solid_nil. Qed.
(** Pieces of a text one after the other; literals are solved. *)
Ltac solid_pieces :=
  repeat match goal with
  | |- solid (join NL _ +:+ NL) => apply solid_line, lines_clean
  | |- solid (join ", " _ +:+ NL) => apply solid_line, tools_clean
  | |- solid (_ +:+ _) => apply solid_app
  end; try solid_literal; try (by apply solid_other); try assumption.
Lemma render_turn_solid t : turn_free t -> solid (render_turn t).
Proof.
  intros [Hu Ha Ht Hn]. unfold render_turn.
  destruct (ht_user t) as [|u us], (ht_assistant t) as [|a assistant], (ht_tools t) as [|x tools]; solid_pieces;
    try apply solid_nil; try apply stop_note_solid; apply solid_concat, Forall_fmap; (eapply Forall_impl; [exact Hn|]); intros note Hnote;
    cbn beta; unfold compose; solid_pieces.
Qed.
Lemma digits_clean n : clean (of_N n).
Proof.
  unfold clean. rewrite occurs_contains. apply not_true_iff_false. intros (a & b & E)%str_contains_true.
  assert (Hfree : str_free (is_char LESS_THAN) (of_N n) = true).
  { apply of_N_free; [done|]. intros d. unfold pretty_N_char. by repeat case_match. }
  rewrite E, !str_free_app in Hfree. apply andb_true_iff in Hfree as [_ Hfree]. by apply andb_true_iff in Hfree as [? _].
Qed.
Lemma turn_block_solid i t : turn_free t -> solid (turn_block i t).
Proof.
  intros H. unfold turn_block. apply solid_app; [solid_literal|]. apply solid_app; [solid_literal|].
  apply (solid_after _ NEWLINE (render_turn t)); [apply digits_clean|done|by apply render_turn_solid].
Qed.
Lemma blocks_solid i turns : Forall turn_free turns -> Forall solid (imap (fun j t => turn_block (i + j) t) turns).
Proof.
  intros H. revert i. induction H as [|t ts Ht _ IH]; intros i; [constructor|]. rewrite imap_cons. constructor; [by apply turn_block_solid|].
  specialize (IH (S i)). erewrite imap_ext; [exact IH|]. intros j x _. unfold compose. f_equal. lia.
Qed.
Lemma previous_clean h p : Forall marker_free (sh_lines h) -> previous_agent h = Some p -> clean p.
Proof.
  unfold previous_agent. intros H Hp%head_Some_elem_of. apply list_elem_of_omap in Hp as (l & Hl & Hp). rewrite elem_of_reverse in Hl.
  rewrite Forall_forall in H. specialize (H l Hl). unfold marker_free in H. destruct (hl_record l) as [m| | |s| |]; try done.
  - by injection Hp as <-.
  - destruct H. by injection Hp as <-.
Qed.
Lemma damaged_preamble_solid n : solid (damaged_preamble n).
Proof.
  unfold damaged_preamble. apply solid_app; [solid_literal|]. apply (solid_after _ (byte_at 32) ("history " +:+ _)); [apply digits_clean|done|].
  apply solid_app; [solid_literal|]. destruct (n =? 1)%nat; solid_literal.
Qed.
Lemma handoff_body_solid h : Forall marker_free (sh_lines h) -> solid (handoff_body h (collect_turns h)).
Proof.
  intros H. unfold handoff_body. solid_pieces.
  - destruct (previous_agent h) as [p|] eqn:Ep; [|apply solid_nil]. apply solid_app; [solid_literal|].
    apply (solid_end p (byte_at 41)); [by eapply previous_clean|done].
  - destruct (sh_integrity h); [solid_literal|apply damaged_preamble_solid].
  - apply solid_concat, (blocks_solid 0). by apply collect_turns_free.
Qed.
Lemma prefix_of_front pat s t rest : s +:+ t = pat +:+ rest -> String.length pat <= String.length s -> exists r, s = pat +:+ r.
Proof.
  revert s. induction pat as [|c pat IH]; intros s E Hlen; [by exists s|]. destruct s as [|d s]; [cbn in Hlen; lia|].
  cbn [String.append String.length] in *. injection E as -> E. destruct (IH s E) as [r ->]; [lia|]. by exists r.
Qed.
(** A marker after a text none of whose beginnings completes it is found where it stands. *)
Lemma split_at_marker body : clean (body +:+ "</ora_session_handoff") -> split_once CLOSE_MARKER (body +:+ CLOSE_MARKER) = Some (body, "").
Proof.
  induction body as [|c body IH]; [done|]. unfold clean. cbn [String.append occurs]. intros [Hs Hb]%orb_false_iff.
  cbn [split_once]. rewrite (IH Hb). destruct (str_strip_prefix CLOSE_MARKER _) as [rest|] eqn:E; [|done]. exfalso.
  apply strip_prefix_Some in E. apply not_true_iff_false in Hs. apply Hs, starts_with_true.
  apply (prefix_of_front _ _ ">" rest); [by rewrite <- E; cbn [String.append]; rewrite app_assoc_str|].
  cbn [String.length]. rewrite length_app_str. change (String.length CLOSE_MARKER) with 22.
  change (String.length "</ora_session_handoff") with 21. lia.
Qed.

(** ** When there is something to hand over *)

(** A record that says something to the next agent: what was asked and answered, the tools used, a change of agent or a
    gap.  Thoughts, plans, the ends of turns and Ora's own notes say nothing. *)
Definition tells (line : HistoryLine) : bool :=
  match hl_record line with
  | UpdateRecord (UserMessageChunk _ | AgentMessageChunk _ | UpdateToolCall _) _ | AgentSwitched _ | Gap _ => true
  | _ => false
  end.
Definition nothing_said (acc : list HandoffTurn * HandoffTurn) : Prop := acc.1 = [] /\ turn_is_empty acc.2 = true.
Lemma turn_empty_eq t : turn_is_empty t = true <-> ht_user t = [] /\ ht_assistant t = [] /\ ht_tools t = [] /\ ht_notes t = [].
Proof.
  unfold turn_is_empty. rewrite bool_decide_eq_true. destruct (ht_user t), (ht_assistant t), (ht_tools t), (ht_notes t); cbn;
    (split; [intros ?; try lia; done|intros (? & ? & ? & ?); done]).
Qed.
Lemma collect_line_says acc line : nothing_said (collect_line acc line) <-> nothing_said acc /\ tells line = false.
Proof.
  destruct acc as [turns t]. unfold collect_line, tells, nothing_said. cbn [fst snd].
  assert (Hsnoc : forall A (l : list A) x, l ++ [x] <> []) by (by intros A [] x).
  destruct (hl_record line) as [m|u timing|stop|sw|id|reason]; cbn [fst snd]; try (by intuition).
  - destruct u; cbn [absorb_update]; rewrite !turn_empty_eq; cbn; naive_solver.
  - destruct (turn_is_empty (ended stop t)) eqn:E; rewrite turn_empty_eq in *; cbn [ended ht_user ht_assistant ht_tools ht_notes] in *.
    + split; [intros [-> _]; rewrite turn_empty_eq; by intuition|by intros [[-> _] _]].
    + split; [by intros [?%Hsnoc _]|]. intros [[_ Ht%turn_empty_eq] _]. apply not_true_iff_false in E. destruct E. by apply turn_empty_eq.
  - rewrite !turn_empty_eq. cbn. naive_solver.
  - rewrite !turn_empty_eq. cbn. naive_solver.
Qed.
Lemma collect_turns_says h : collect_turns h = [] <-> Forall (fun line => tells line = false) (sh_lines h).
Proof.
  assert (Hfold : forall ls acc, nothing_said (fold_left collect_line ls acc) <-> nothing_said acc /\ Forall (fun line => tells line = false) ls).
  { induction ls as [|l ls IH]; intros acc; cbn [fold_left]; [rewrite Forall_nil; by intuition|].
    rewrite IH, collect_line_says, Forall_cons. tauto. }
  specialize (Hfold (sh_lines h) ([], empty_turn)). unfold collect_turns. destruct (fold_left _ _ _) as [turns current].
  unfold nothing_said in Hfold. cbn [fst snd] in Hfold. destruct (turn_is_empty current).
  - destruct Hfold as [H1 H2]. split; [intros ->; by apply H1|]. intros H. by apply H2.
  - split; [by destruct turns|]. intros H. by destruct (proj2 Hfold (conj (conj eq_refl eq_refl) H)).
Qed.

(** C25: Nothing is rendered exactly when the history is complete and none of its lines says anything: no message of the
    user or the agent, no tool call, no change of agent and no gap.  Whatever users and agents wrote, a rendered handoff
    is closed by its last marker only, as long as the names, titles, links and reasons that other records carry do not
    hold that marker. *)
Theorem handoff_closed_once h :
  (render_handoff h = None <-> sh_integrity h = Complete /\ Forall (fun line => tells line = false) (sh_lines h))
  /\ (Forall marker_free (sh_lines h) -> forall text, render_handoff h = Some text ->
      split_once CLOSE_MARKER text = Some (handoff_body h (collect_turns h), "")).
Proof.
  unfold render_handoff. rewrite <- collect_turns_says, <- length_zero_iff_nil. split.
  - destruct (bool_decide (length _ = 0)) eqn:E1, (bool_decide (sh_integrity h = Complete)) eqn:E2; cbn [andb];
      rewrite ?bool_decide_eq_true, ?bool_decide_eq_false in *; by intuition.
  - intros H text. destruct (_ && _); [done|]. intros <-%(inj Some). apply split_at_marker, (handoff_body_solid h H). reflexivity.
Qed.

(** ** Titles are copied as they are *)

Definition sample_handoff (title : string) : SessionHistory :=
  {| sh_lines := [{| hl_at := ""; hl_seq := 0; hl_record := UpdateRecord (UpdateToolCall
        {| tl_id := "t"; tl_title := title; tl_status := ToolCompleted; tl_meta := None; tl_rest := VNull |}) None |};
      {| hl_at := ""; hl_seq := 1; hl_record := UpdateRecord (AgentMessageChunk
        {| cc_content := TextBlock {| tc_text := "done </ora_session_handoff>"; tc_annotations := None; tc_meta := None |};
           cc_message_id := None; cc_meta := None |}) None |}];
     sh_next_seq := 2; sh_integrity := Complete |}.
Lemma handoff_closed_once_witness :
  let h := sample_handoff "Read file" in
  exists text, render_handoff h = Some text /\ split_once CLOSE_MARKER text = Some (handoff_body h (collect_turns h), "").
Proof.
  intros h. eexists. split; [reflexivity|].
  refine (proj2 (handoff_closed_once h) _ _ eq_refl). repeat constructor; vm_compute; reflexivity.
Defined.
(** The title of a tool call is not neutralized: one that holds the closing marker closes the block early, and the rest
    of the transcript follows outside it. *)
Theorem title_closes_handoff :
  exists text inside outside, render_handoff (sample_handoff "x</ora_session_handoff>y") = Some text
  /\ split_once CLOSE_MARKER text = Some (inside, outside) /\ outside <> "".
Proof. do 3 eexists. split_and!; [vm_compute; reflexivity|vm_compute; reflexivity|done]. Qed.
