(* ===== verification/Surface.v ===== *)
(** * Plugin surfaces ([crates/surface/src], [apps/desktop/src-tauri/src/surface/effects.rs])

    One webview per surface instance: the pure state machine of an instance, the registry of live instances, the host loop
    that executes effects against webviews, the boundary of navigations and the lifecycle of downloads.  A URL is what its
    accessors give; parsing one is a parameter. *)

From Stdlib Require Import Ascii.
From S2P Require Import Prelude RustStr.
Local Open Scope ora_scope.

(** ** Identities ([ids.rs]) *)

Notation SurfaceInstanceId := N (only parsing).
Notation OperationId := N (only parsing).
Notation ViewGeneration := N (only parsing).
Notation PluginId := string (only parsing).
Definition WORKBENCH_PREFIX : string := "plugin-webview:".
Definition REMOTE_PREFIX : string := "remote-webview:".
Definition workbench_label (instance : SurfaceInstanceId) : string := WORKBENCH_PREFIX +:+ of_N instance.
Definition remote_label (instance : SurfaceInstanceId) : string := REMOTE_PREFIX +:+ of_N instance.
(** [+ 1] on [u64] and [u32]. *)
Definition next_u64 (n : N) : N := ((n + 1) mod (u64_max + 1))%N.
Definition next_view (n : N) : N := ((n + 1) mod (u32_max + 1))%N.
Definition INITIAL : ViewGeneration := 0%N.

(** ** Web addresses and navigation ([navigation.rs], [plugin-manifest/src/webview.rs]) *)

Record Url : Type := {
  url_scheme : string; url_username : string; url_password : option string; url_host_str : option string;
  url_port : option N; url_path : string; url_query : option string; url_fragment : option string; url_origin : string;
}.
#[export] Instance Url_eq_dec : EqDecision Url.
Proof. solve_decision. Defined.
Class UrlParser := url_parse : string -> option Url.

Inductive WebviewUrlError : Type :=
| UrlTooLong (max_bytes actual_bytes : nat)
| InvalidUrlSyntax
| NotHttps
| MissingHost
| CredentialsNotAllowed
| FragmentNotAllowed
| OriginMustBeBare.
Definition MAX_URL_BYTES : nat := 2048.
Notation Origin := string (only parsing).
Section urls.
Context {urls : UrlParser}.

Definition parse_https (value : string) : result WebviewUrlError Url :=
  reject_if (MAX_URL_BYTES <? String.length value) (UrlTooLong MAX_URL_BYTES (String.length value));;
  parsed ← ok_or (url_parse value) InvalidUrlSyntax;
  reject_if (negb (bool_decide (url_scheme parsed = "https"))) NotHttps;;
  reject_if (bool_decide (url_host_str parsed = None)) MissingHost;;
  reject_if (negb (bool_decide (url_username parsed = "")) || negb (bool_decide (url_password parsed = None))) CredentialsNotAllowed;;
  Ok parsed.
Definition start_url_parse (value : string) : result WebviewUrlError Url :=
  parsed ← parse_https value;
  reject_if (negb (bool_decide (url_fragment parsed = None))) FragmentNotAllowed;;
  Ok parsed.
Definition origin_parse (value : string) : result WebviewUrlError Origin :=
  parsed ← parse_https value;
  reject_if (negb (bool_decide (url_query parsed = None)) || negb (bool_decide (url_fragment parsed = None))) OriginMustBeBare;;
  reject_if (negb (bool_decide (url_path parsed = "/"))) OriginMustBeBare;;
  Ok (url_origin parsed).
Definition origin_matches (origin : Origin) (u : Url) : bool := bool_decide (url_origin u = origin).

Inductive NavigationPolicy : Type :=
| RemoteSitePolicy (allowed_origins : list Origin)
| WorkbenchAssets (base : Url).
(** The fuel counts the [blob:] layers that may still be peeled off. *)
Fixpoint allows_within (fuel : nat) (policy : NavigationPolicy) (u : Url) : option bool :=
  match policy with
  | RemoteSitePolicy allowed_origins =>
      if bool_decide (url_scheme u = "blob") then
        match fuel with
        | O => None
        | S fuel => match url_parse (url_path u) with Some inner => allows_within fuel policy inner | None => Some false end
        end
      else if negb (bool_decide (url_scheme u = "https")) || negb (bool_decide (url_username u = ""))
              || negb (bool_decide (url_password u = None)) then Some false
      else Some (existsb (fun origin => origin_matches origin u) allowed_origins)
  | WorkbenchAssets base =>
      Some (bool_decide (url_scheme u = url_scheme base) && bool_decide (url_host_str u = url_host_str base)
            && bool_decide (url_port u = url_port base) && bool_decide (url_username u = "")
            && bool_decide (url_password u = None) && starts_with (url_path base) (url_path u))
  end.
Definition allows (policy : NavigationPolicy) (u : Url) : option bool := allows_within (S (String.length (url_path u))) policy u.
End urls.

(** ** Downloads ([downloads.rs], [plugin-manifest/src/webview.rs]) *)

(** [u8::from_str_radix(_, 16)] on two bytes: a sign is accepted in front of one digit. *)
Definition hex_digit (c : ascii) : option N :=
  let n := N_of_ascii c in
  if ascii_in 48 57 c then Some (n - 48)%N
  else if ascii_in 97 102 c then Some (n - 87)%N
  else if ascii_in 65 70 c then Some (n - 55)%N
  else None.
Definition PLUS : ascii := byte_at 43.
Definition PERCENT : ascii := byte_at 37.
Definition from_hex_pair (a b : ascii) : option N :=
  low ← hex_digit b;
  if bool_decide (a = PLUS) then Some low else high ← hex_digit a; Some (16 * high + low)%N.
(** Whether bytes are UTF-8 is a parameter. *)
Class Utf8 := utf8_valid : string -> bool.
Fixpoint percent_bytes (s : string) : option string :=
  match s with
  | "" => Some ""
  | String c rest =>
      if bool_decide (c = PERCENT) then
        match rest with
        | String a (String b rest) => n ← from_hex_pair a b; t ← percent_bytes rest; Some (String (ascii_of_N n) t)
        | _ => None
        end
      else t ← percent_bytes rest; Some (String c t)
  end.
Section matching.
Context {utf8 : Utf8}.
Definition percent_decode_once (value : string) : option string :=
  decoded ← percent_bytes value; if utf8_valid decoded then Some decoded else None.

Inductive DownloadAction : Type := ImportSkill | SaveAs.
#[export] Instance DownloadAction_eq_dec : EqDecision DownloadAction.
Proof. solve_decision. Defined.
Inductive DownloadDisposition : Type := AutoDisposition (action : DownloadAction) | PromptDisposition (actions : list DownloadAction) | RejectDisposition.
Record PageMatcher : Type := { pm_origin : Origin; pm_path_prefix : string }.
Definition page_matches (m : PageMatcher) (page_url : Url) : bool :=
  origin_matches (pm_origin m) page_url
  && match percent_decode_once (url_path page_url) with Some path => starts_with (pm_path_prefix m) path | None => false end.
Record DownloadRule : Type := { dr_page : PageMatcher; dr_disposition : DownloadDisposition }.
Record DownloadPolicy : Type := { dp_rules : list DownloadRule; dp_fallback : DownloadDisposition }.
Inductive DownloadDecision : Type := RejectDownload | AutoDownload (action : DownloadAction) | PromptDownload (actions : list DownloadAction).
Definition select_disposition (policy : DownloadPolicy) (page_url : Url) : DownloadDecision :=
  match match find_first (fun rule => page_matches (dr_page rule) page_url) (dp_rules policy) with
        | Some rule => dr_disposition rule
        | None => dp_fallback policy
        end with
  | RejectDisposition => RejectDownload
  | AutoDisposition action => AutoDownload action
  | PromptDisposition actions => PromptDownload actions
  end.
End matching.
(** *** The [webview] section of a manifest *)

Definition MAX_PATH_PREFIX_BYTES : nat := 1024.
(** [char::is_control] on UTF-8 text: C0, DEL and C1, whose bytes are 0xC2 0x80 to 0xC2 0x9F. *)
Fixpoint has_control (s : string) : bool :=
  match s with
  | "" => false
  | String c rest =>
      ascii_in 0 31 c || bool_decide (c = byte_at 127)
      || bool_decide (c = byte_at 194) && match rest with String d _ => ascii_in 128 159 d | "" => false end
      || has_control rest
  end.
Inductive PathPrefixError : Type :=
| NotRooted
| PrefixTooLong (max_bytes actual_bytes : nat)
| ContainsQueryOrFragment
| ContainsControlCharacter
| InvalidPercentEncoding.
Inductive RuleField : Type := PageOrigin | PagePathPrefix | RuleAction.
Inductive ManifestField : Type :=
| WebviewStartUrl
| WebviewAllowedOrigins
| WebviewAllowedOrigin (index : nat)
| WebviewDownloadsFallback
| WebviewDownloadRule (index : nat) (field : RuleField).
Inductive InvalidFieldReason : Type :=
| EmptyField
| DuplicateValue
| NonAutomatableDownloadAction (action : string)
| InvalidWebviewUrl (e : WebviewUrlError)
| InvalidPathPrefix (e : PathPrefixError)
| InvalidDownloadAction (found : string)
| AmbiguousDownloadAction.
Inductive ManifestError : Type := InvalidField (field : ManifestField) (reason : InvalidFieldReason).
Definition download_action_as_str (a : DownloadAction) : string := match a with ImportSkill => "import_skill" | SaveAs => "save_as" end.
Definition download_action_from_str (value : string) : result string DownloadAction :=
  if bool_decide (value = "import_skill") then Ok ImportSkill else if bool_decide (value = "save_as") then Ok SaveAs else Err value.
Record RawAction : Type := { ra_auto : option string; ra_prompt : option (list string); ra_reject : option bool }.
Record RawPage : Type := { rp_origin : string; rp_path_prefix : string }.
Record RawRule : Type := { rr_page : RawPage; rr_action : RawAction }.
Record RawDownloads : Type := { rd_fallback : option RawAction; rd_rules : list RawRule }.
Record RawWebview : Type := { rw_start_url : string; rw_allowed_origins : list string; rw_downloads : option RawDownloads }.
Record PluginWebview : Type := { pw_start_url : Url; pw_allowed_origins : list Origin; pw_downloads : DownloadPolicy }.

(** The actions of a prompt, after those already parsed. *)
Fixpoint prompt_actions (parsed : list DownloadAction) (actions : list string) : result InvalidFieldReason (list DownloadAction) :=
  match actions with
  | [] => Ok parsed
  | action :: actions =>
      action ← map_err InvalidDownloadAction (download_action_from_str action);
      reject_if (bool_decide (action ∈ parsed)) DuplicateValue;;
      prompt_actions (parsed ++ [action]) actions
  end.
Definition disposition (raw : RawAction) (field : ManifestField) : result ManifestError DownloadDisposition :=
  map_err (InvalidField field)
    match ra_auto raw, ra_prompt raw, ra_reject raw with
    | Some action, None, None =>
        action ← map_err InvalidDownloadAction (download_action_from_str action);
        match action with
        | ImportSkill => Ok (AutoDisposition action)
        | SaveAs => Err (NonAutomatableDownloadAction (download_action_as_str action))
        end
    | None, Some actions, None =>
        reject_if (bool_decide (actions = [])) EmptyField;;
        parsed ← prompt_actions [] actions;
        Ok (PromptDisposition parsed)
    | None, None, Some true => Ok RejectDisposition
    | _, _, _ => Err AmbiguousDownloadAction
    end.
Section decoding.
Context {urls : UrlParser} {utf8 : Utf8}.
Definition path_prefix_parse (value : string) : result PathPrefixError string :=
  reject_if (negb (starts_with "/" value)) NotRooted;;
  reject_if (MAX_PATH_PREFIX_BYTES <? String.length value) (PrefixTooLong MAX_PATH_PREFIX_BYTES (String.length value));;
  reject_if (existsb (fun c => bool_decide (c = byte_at 63) || bool_decide (c = byte_at 35)) (String.list_ascii_of_string value)) ContainsQueryOrFragment;;
  reject_if (has_control value) ContainsControlCharacter;;
  ok_or (percent_decode_once value) InvalidPercentEncoding.
Definition decode_rule (indexed : nat * RawRule) : result ManifestError DownloadRule :=
  let '(index, rule) := indexed in
  let invalid field reason := InvalidField (WebviewDownloadRule index field) reason in
  origin ← map_err (fun e => invalid PageOrigin (InvalidWebviewUrl e)) (origin_parse (rp_origin (rr_page rule)));
  path_prefix ← map_err (fun e => invalid PagePathPrefix (InvalidPathPrefix e)) (path_prefix_parse (rp_path_prefix (rr_page rule)));
  d ← disposition (rr_action rule) (WebviewDownloadRule index RuleAction);
  Ok {| dr_page := {| pm_origin := origin; pm_path_prefix := path_prefix |}; dr_disposition := d |}.
Definition default_policy : DownloadPolicy := {| dp_rules := []; dp_fallback := RejectDisposition |}.
Definition decode_downloads (raw : RawDownloads) : result ManifestError DownloadPolicy :=
  fallback ← match rd_fallback raw with Some action => disposition action WebviewDownloadsFallback | None => Ok RejectDisposition end;
  rules ← traverse decode_rule (imap pair (rd_rules raw));
  Ok {| dp_rules := rules; dp_fallback := fallback |}.
Definition decode_webview (raw : RawWebview) : result ManifestError PluginWebview :=
  start_url ← map_err (fun e => InvalidField WebviewStartUrl (InvalidWebviewUrl e)) (start_url_parse (rw_start_url raw));
  reject_if (bool_decide (rw_allowed_origins raw = [])) (InvalidField WebviewAllowedOrigins EmptyField);;
  allowed_origins ← traverse (fun '(index, value) =>
      map_err (fun e => InvalidField (WebviewAllowedOrigin index) (InvalidWebviewUrl e)) (origin_parse value)) (imap pair (rw_allowed_origins raw));
  downloads ← match rw_downloads raw with Some raw => decode_downloads raw | None => Ok default_policy end;
  Ok {| pw_start_url := start_url; pw_allowed_origins := allowed_origins; pw_downloads := downloads |}.
End decoding.

(** *** One download *)

Record DownloadIntent : Type := {
  di_download_id : N; di_instance : SurfaceInstanceId; di_plugin_id : PluginId; di_exact_version : string;
  di_initiating_page_url : Url; di_download_url : string; di_suggested_file_name : string; di_disposition : DownloadDisposition;
}.
Inductive DownloadOutcome : Type := DownloadDone | DownloadDiscarded | DownloadFailed (reason : string).
Inductive ManagedDownload : Type :=
| Staging (intent : DownloadIntent)
| AwaitingChoice (intent : DownloadIntent) (allowed_actions : list DownloadAction)
| ProcessingDownload (intent : DownloadIntent) (action : DownloadAction)
| SettledDownload (intent : DownloadIntent) (outcome : DownloadOutcome).
Inductive DownloadTransitionError : Type := NotInExpectedState | ActionNotAllowed.
Definition download_intent (d : ManagedDownload) : DownloadIntent :=
  match d with Staging i | AwaitingChoice i _ | ProcessingDownload i _ | SettledDownload i _ => i end.
Definition landed (d : ManagedDownload) : result DownloadTransitionError ManagedDownload :=
  match d with
  | Staging intent =>
      Ok match di_disposition intent with
         | AutoDisposition action => ProcessingDownload intent action
         | PromptDisposition actions => AwaitingChoice intent actions
         | RejectDisposition => SettledDownload intent (DownloadFailed "download was rejected")
         end
  | _ => Err NotInExpectedState
  end.
Definition choose (action : DownloadAction) (d : ManagedDownload) : result DownloadTransitionError ManagedDownload :=
  match d with
  | AwaitingChoice intent allowed_actions =>
      reject_if (negb (bool_decide (action ∈ allowed_actions))) ActionNotAllowed;;
      Ok (ProcessingDownload intent action)
  | _ => Err NotInExpectedState
  end.
Definition discard (d : ManagedDownload) : result DownloadTransitionError ManagedDownload :=
  match d with AwaitingChoice intent _ => Ok (SettledDownload intent DownloadDiscarded) | _ => Err NotInExpectedState end.
Definition settle_download (outcome : DownloadOutcome) (d : ManagedDownload) : result DownloadTransitionError ManagedDownload :=
  match d with ProcessingDownload intent _ => Ok (SettledDownload intent outcome) | _ => Err NotInExpectedState end.
Definition fail_download (reason : string) (d : ManagedDownload) : result DownloadTransitionError ManagedDownload :=
  match d with Staging intent => Ok (SettledDownload intent (DownloadFailed reason)) | _ => Err NotInExpectedState end.

(** The disposition that [DownloadDispatcher::requested] freezes. *)
Definition disposition_for (decision : DownloadDecision) : DownloadDisposition :=
  match decision with
  | RejectDownload => RejectDisposition
  | AutoDownload action => AutoDisposition action
  | PromptDownload actions => PromptDisposition actions
  end.

(** ** Definitions and events ([definition.rs], [events.rs]) *)

Record WorkbenchDefinition : Type := { wd_asset_root : string; wd_page_entry : string; wd_declared_methods : list string }.
Record RemoteSiteDefinition : Type := { rd_start_url : Url; rd_navigation : NavigationPolicy; rd_download_policy : DownloadPolicy }.
Inductive SurfaceSource : Type := WorkbenchSource (d : WorkbenchDefinition) | RemoteSiteSource (d : RemoteSiteDefinition).
Record SurfaceDefinition : Type := { sd_plugin_id : PluginId; sd_title : string; sd_source : SurfaceSource }.
Inductive InstancePolicy : Type := Singleton | Multiple.
#[export] Instance InstancePolicy_eq_dec : EqDecision InstancePolicy.
Proof. solve_decision. Defined.
Inductive MountTarget : Type := MountEmbedded | MountWindowed.
#[export] Instance MountTarget_eq_dec : EqDecision MountTarget.
Proof. solve_decision. Defined.
Inductive SurfaceKind : Type := KindWorkbench | KindWebview.
Definition surface_kind (d : SurfaceDefinition) : SurfaceKind :=
  match sd_source d with WorkbenchSource _ => KindWorkbench | RemoteSiteSource _ => KindWebview end.
Definition instance_policy (d : SurfaceDefinition) : InstancePolicy :=
  match sd_source d with WorkbenchSource _ => Multiple | RemoteSiteSource _ => Singleton end.
Inductive SurfaceEvent : Type :=
| EventOpened (instance : N) (plugin_id : string) (kind : SurfaceKind) (target : MountTarget) (title : string)
| EventMigrated (instance : N) (target : MountTarget)
| EventMigrateFailed (instance : N) (reason : string)
| EventFailed (instance : N) (reason : string)
| EventClosed (instance : N)
| EventDownloadStarted (instance : N) (plugin_id : string) (download_id : N) (file_name : string)
| EventDownloadChoice (instance : N) (plugin_id : string) (download_id : N) (page_origin file_name : string) (size_bytes : N) (actions : list string)
| EventDownloadCompleted (instance : N) (plugin_id : string) (download_id : N) (file_name action : string) (import_session_id : option string)
| EventDownloadFailed (instance : N) (plugin_id : string) (download_id : N) (file_name reason : string).

(** ** The state machine of one instance ([state.rs]) *)

Inductive SurfaceState : Type :=
| Opening (target : MountTarget) (operation : OperationId) (view : ViewGeneration) (close_requested : bool)
| Embedded (visible : bool) (view : ViewGeneration)
| Windowed (view : ViewGeneration)
| Migrating (from to : MountTarget) (operation : OperationId) (view : ViewGeneration) (close_requested : bool)
| Closing (operation : OperationId) (from : option MountTarget)
| FailedState (target : MountTarget) (reason : string).
Inductive SurfaceCommand : Type := Close | Popout | Dock | SetVisible (visible : bool) | Rebuild.
Inductive SurfaceCompletion : Type :=
| CompletionOpened (operation : OperationId) (outcome : result string MountTarget)
| CompletionMigrated (operation : OperationId) (outcome : result string MountTarget)
| CompletionClosed (operation : OperationId).
Inductive SurfaceEffect : Type :=
| CreateWebview (target : MountTarget) (operation : OperationId)
| Reparent (to : MountTarget) (operation : OperationId)
| DestroyWebview (operation : OperationId)
| SetNativeVisibility (visible : bool)
| EmitEvent (event : SurfaceEvent).
Record Transition : Type := { tr_next : option SurfaceState; tr_effects : list SurfaceEffect }.
Inductive TransitionError : Type := Busy (current : string) | InvalidForState (command current : string).
Record StaleCompletion : Type := { sc_completion : string; sc_received : OperationId; sc_current : string }.

Definition state_name (s : SurfaceState) : string :=
  match s with
  | Opening _ _ _ _ => "opening" | Embedded _ _ => "embedded" | Windowed _ => "windowed"
  | Migrating _ _ _ _ _ => "migrating" | Closing _ _ => "closing" | FailedState _ _ => "failed"
  end.
Definition command_name (c : SurfaceCommand) : string :=
  match c with Close => "close" | Popout => "popout" | Dock => "dock" | SetVisible _ => "set_visible" | Rebuild => "rebuild" end.
Definition stay (next : SurfaceState) : Transition := {| tr_next := Some next; tr_effects := [] |}.
Definition mounted (target : MountTarget) (view : ViewGeneration) : SurfaceState :=
  match target with MountEmbedded => Embedded true view | MountWindowed => Windowed view end.
Definition close_from (from : option MountTarget) (operation : OperationId) : Transition :=
  {| tr_next := Some (Closing operation from); tr_effects := [DestroyWebview operation] |}.
Definition migrate (from to : MountTarget) (view : ViewGeneration) (operation : OperationId) : Transition :=
  {| tr_next := Some (Migrating from to operation view false); tr_effects := [Reparent to operation] |}.
Definition rebuild (target : MountTarget) (view : ViewGeneration) (operation : OperationId) : Transition :=
  {| tr_next := Some (Opening target operation view false);
     tr_effects := [DestroyWebview operation; CreateWebview target operation] |}.

(** The transition, given the next free ticket, and the counter afterwards: a refused command takes no ticket. *)
Definition apply_command (instance : SurfaceInstanceId) (state : SurfaceState) (command : SurfaceCommand) (next : OperationId) :
    result TransitionError (Transition * OperationId) :=
  let invalid := Err (InvalidForState (command_name command) (state_name state)) in
  let taking t := Ok (t, next_u64 next) in
  match state, command with
  | Opening target operation view _, Close => Ok (stay (Opening target operation view true), next)
  | Migrating from to operation view _, Close => Ok (stay (Migrating from to operation view true), next)
  | (Opening _ _ _ _ | Migrating _ _ _ _ _), (Popout | Dock) => Err (Busy (state_name state))
  | (Opening _ _ _ _ | Migrating _ _ _ _ _), (SetVisible _ | Rebuild) => invalid
  | Embedded _ _, Close => taking (close_from (Some MountEmbedded) next)
  | Windowed _, Close => taking (close_from (Some MountWindowed) next)
  | Embedded _ view, Popout => taking (migrate MountEmbedded MountWindowed view next)
  | Windowed view, Dock => taking (migrate MountWindowed MountEmbedded view next)
  | Embedded _ _, Dock | Windowed _, Popout => invalid
  | Embedded _ view, SetVisible visible =>
      Ok ({| tr_next := Some (Embedded visible view); tr_effects := [SetNativeVisibility visible] |}, next)
  | Windowed _, SetVisible _ => invalid
  | Embedded _ view, Rebuild => taking (rebuild MountEmbedded (next_view view) next)
  | Windowed view, Rebuild => taking (rebuild MountWindowed (next_view view) next)
  | Closing _ _, Close => Ok (stay state, next)
  | Closing _ _, _ => invalid
  | FailedState _ _, Close => Ok ({| tr_next := None; tr_effects := [EmitEvent (EventClosed instance)] |}, next)
  | FailedState target _, Rebuild =>
      taking {| tr_next := Some (Opening target next INITIAL false); tr_effects := [CreateWebview target next] |}
  | FailedState _ _, _ => invalid
  end.

Definition apply_completion (instance : SurfaceInstanceId) (definition : SurfaceDefinition) (state : SurfaceState)
    (completion : SurfaceCompletion) (next : OperationId) : result StaleCompletion (Transition * OperationId) :=
  let stale name received := Err {| sc_completion := name; sc_received := received; sc_current := state_name state |} in
  match completion with
  | CompletionOpened operation outcome =>
      match state with
      | Opening requested pending view close_requested =>
          if bool_decide (pending = operation) then
            Ok match outcome, close_requested with
               | Ok target, true => (close_from (Some target) next, next_u64 next)
               | Ok target, false =>
                   ({| tr_next := Some (mounted target view);
                       tr_effects := [EmitEvent (EventOpened instance (sd_plugin_id definition) (surface_kind definition) target
                                                             (sd_title definition))] |}, next)
               | Err _, true => ({| tr_next := None; tr_effects := [EmitEvent (EventClosed instance)] |}, next)
               | Err reason, false =>
                   ({| tr_next := Some (FailedState requested reason); tr_effects := [EmitEvent (EventFailed instance reason)] |}, next)
               end
          else stale "opened" operation
      | _ => stale "opened" operation
      end
  | CompletionMigrated operation outcome =>
      match state with
      | Migrating from _ pending view close_requested =>
          if bool_decide (pending = operation) then
            Ok match outcome, close_requested with
               | Ok target, true => (close_from (Some target) next, next_u64 next)
               | Ok target, false =>
                   ({| tr_next := Some (mounted target view); tr_effects := [EmitEvent (EventMigrated instance target)] |}, next)
               | Err reason, true =>
                   ({| tr_next := tr_next (close_from (Some from) next);
                       tr_effects := EmitEvent (EventMigrateFailed instance reason) :: tr_effects (close_from (Some from) next) |},
                    next_u64 next)
               | Err reason, false =>
                   ({| tr_next := Some (mounted from view); tr_effects := [EmitEvent (EventMigrateFailed instance reason)] |}, next)
               end
          else stale "migrated" operation
      | _ => stale "migrated" operation
      end
  | CompletionClosed operation =>
      match state with
      | Closing pending _ =>
          if bool_decide (pending = operation)
          then Ok ({| tr_next := None; tr_effects := [EmitEvent (EventClosed instance)] |}, next)
          else stale "closed" operation
      | _ => stale "closed" operation
      end
  end.

(** ** The registry ([registry.rs]) *)

Record SurfaceRecord : Type := { sr_instance : SurfaceInstanceId; sr_definition : SurfaceDefinition; sr_label : string; sr_state : SurfaceState }.
Record RegistryInner : Type := {
  ri_instances : gmap SurfaceInstanceId SurfaceRecord;
  ri_workbench_generations : gmap SurfaceInstanceId N;
  ri_by_label : gmap string SurfaceInstanceId;
  ri_by_plugin : gmap PluginId SurfaceInstanceId;
  ri_next_instance : N;
  ri_next_operation : N;
}.
Definition empty_registry : RegistryInner :=
  {| ri_instances := ∅; ri_workbench_generations := ∅; ri_by_label := ∅; ri_by_plugin := ∅; ri_next_instance := 0; ri_next_operation := 0 |}.
Definition set_next_operation (n : N) (r : RegistryInner) : RegistryInner :=
  {| ri_instances := ri_instances r; ri_workbench_generations := ri_workbench_generations r; ri_by_label := ri_by_label r;
     ri_by_plugin := ri_by_plugin r; ri_next_instance := ri_next_instance r; ri_next_operation := n |}.
Definition set_state (s : SurfaceState) (record : SurfaceRecord) : SurfaceRecord :=
  {| sr_instance := sr_instance record; sr_definition := sr_definition record; sr_label := sr_label record; sr_state := s |}.
Inductive CommandError : Type := UnknownInstance (instance : SurfaceInstanceId) | CommandTransition (e : TransitionError).
Inductive CompleteError : Type := CompleteUnknown (instance : SurfaceInstanceId) | CompleteStale (e : StaleCompletion).

Definition open_label (definition : SurfaceDefinition) (instance : SurfaceInstanceId) : string :=
  match sd_source definition with WorkbenchSource _ => workbench_label instance | RemoteSiteSource _ => remote_label instance end.
(** The live instance of a singleton surface. *)
Definition already_open (definition : SurfaceDefinition) (r : RegistryInner) : option SurfaceRecord :=
  match instance_policy definition with
  | Singleton => instance ← ri_by_plugin r !! sd_plugin_id definition; ri_instances r !! instance
  | Multiple => None
  end.
Definition open (definition : SurfaceDefinition) (target : MountTarget) (r : RegistryInner) :
    result SurfaceRecord (SurfaceRecord * list SurfaceEffect) * RegistryInner :=
  match already_open definition r with
  | Some existing => (Err existing, r)
  | None =>
      let instance := ri_next_instance r in
      let operation := ri_next_operation r in
      let label := open_label definition instance in
      let record := {| sr_instance := instance; sr_definition := definition; sr_label := label;
                       sr_state := Opening target operation INITIAL false |} in
      (Ok (record, [CreateWebview target operation]),
       {| ri_instances := <[instance := record]> (ri_instances r);
          ri_workbench_generations := ri_workbench_generations r;
          ri_by_label := <[label := instance]> (ri_by_label r);
          ri_by_plugin := match instance_policy definition with
                          | Singleton => <[sd_plugin_id definition := instance]> (ri_by_plugin r)
                          | Multiple => ri_by_plugin r
                          end;
          ri_next_instance := next_u64 instance;
          ri_next_operation := next_u64 operation |})
  end.
Definition settle_transition (instance : SurfaceInstanceId) (t : Transition) (r : RegistryInner) : RegistryInner :=
  match tr_next t, ri_instances r !! instance with
  | _, None => r
  | Some state, Some record =>
      {| ri_instances := <[instance := set_state state record]> (ri_instances r);
         ri_workbench_generations := ri_workbench_generations r; ri_by_label := ri_by_label r;
         ri_by_plugin := ri_by_plugin r; ri_next_instance := ri_next_instance r; ri_next_operation := ri_next_operation r |}
  | None, Some record =>
      {| ri_instances := delete instance (ri_instances r);
         ri_workbench_generations := delete instance (ri_workbench_generations r);
         ri_by_label := delete (sr_label record) (ri_by_label r);
         ri_by_plugin := delete (sd_plugin_id (sr_definition record)) (ri_by_plugin r);
         ri_next_instance := ri_next_instance r; ri_next_operation := ri_next_operation r |}
  end.
Definition command (instance : SurfaceInstanceId) (c : SurfaceCommand) (r : RegistryInner) :
    result CommandError (list SurfaceEffect) * RegistryInner :=
  match ri_instances r !! instance with
  | None => (Err (UnknownInstance instance), r)
  | Some record =>
      match apply_command instance (sr_state record) c (ri_next_operation r) with
      | Err e => (Err (CommandTransition e), r)
      | Ok (t, next) => (Ok (tr_effects t), settle_transition instance t (set_next_operation next r))
      end
  end.
Definition complete (instance : SurfaceInstanceId) (completion : SurfaceCompletion) (r : RegistryInner) :
    result CompleteError (list SurfaceEffect) * RegistryInner :=
  match ri_instances r !! instance with
  | None => (Err (CompleteUnknown instance), r)
  | Some record =>
      match apply_completion instance (sr_definition record) (sr_state record) completion (ri_next_operation r) with
      | Err e => (Err (CompleteStale e), r)
      | Ok (t, next) => (Ok (tr_effects t), settle_transition instance t (set_next_operation next r))
      end
  end.
Definition bind_workbench_generation (instance : SurfaceInstanceId) (generation : N) (r : RegistryInner) : option N * RegistryInner :=
  match ri_instances r !! instance with
  | None => (None, r)
  | Some _ =>
      let bound := default generation (ri_workbench_generations r !! instance) in
      (Some bound,
       {| ri_instances := ri_instances r; ri_workbench_generations := <[instance := bound]> (ri_workbench_generations r);
          ri_by_label := ri_by_label r; ri_by_plugin := ri_by_plugin r; ri_next_instance := ri_next_instance r;
          ri_next_operation := ri_next_operation r |})
  end.
Definition resolve_label (label : string) (r : RegistryInner) : option SurfaceRecord :=
  instance ← ri_by_label r !! label; ri_instances r !! instance.
(** Live instances in the order of their identifiers. *)
Definition record_le (p q : SurfaceRecord) : Prop := (sr_instance p <= sr_instance q)%N.
#[export] Instance record_le_dec : RelDecision record_le.
Proof. intros p q. unfold record_le. apply _. Defined.
Definition snapshot (r : RegistryInner) : list SurfaceRecord := merge_sort record_le (map_to_list (ri_instances r)).*2.
Definition instances_of (plugin_id : PluginId) (r : RegistryInner) : list SurfaceRecord :=
  merge_sort record_le (filter (fun record => sd_plugin_id (sr_definition record) = plugin_id) (map_to_list (ri_instances r)).*2).

(** ** The host ([SurfaceService::execute]) *)

(** What a native call answers.  A failure may come before or after the call took effect. *)
Inductive NativeAnswer : Type := NativeDone | NativeFailed (reason : string) (took_effect : bool).
(** The webviews there are, found by the label of their instance, and the queues of effects under execution, one per running
    call. *)
Record Host : Type := { ho_registry : RegistryInner; ho_webviews : gmap SurfaceInstanceId MountTarget; ho_queues : list (SurfaceInstanceId * list SurfaceEffect) }.
Definition with_completion (instance : SurfaceInstanceId) (completion : SurfaceCompletion) (rest : list SurfaceEffect)
    (r : RegistryInner) : list SurfaceEffect * RegistryInner :=
  let '(outcome, r) := complete instance completion r in
  (rest ++ match outcome with Ok effects => effects | Err _ => [] end, r).
(** [SurfaceService::create]: a builder that fails leaves no webview. *)
Definition create_webview (answer : NativeAnswer) (instance : SurfaceInstanceId) (target : MountTarget) (r : RegistryInner)
    (w : gmap SurfaceInstanceId MountTarget) : result string MountTarget * gmap SurfaceInstanceId MountTarget :=
  match ri_instances r !! instance with
  | None => (Err "instance vanished before its webview was created", w)
  | Some _ => match answer with NativeDone => (Ok target, <[instance := target]> w) | NativeFailed reason _ => (Err reason, w) end
  end.
(** [SurfaceService::destroy] finds the webview by the label of the live instance; a failure is only logged. *)
Definition destroy_webview (answer : NativeAnswer) (instance : SurfaceInstanceId) (r : RegistryInner) (w : gmap SurfaceInstanceId MountTarget) :
    gmap SurfaceInstanceId MountTarget :=
  match ri_instances r !! instance with
  | None => w
  | Some _ => match answer with NativeDone | NativeFailed _ true => delete instance w | NativeFailed _ false => w end
  end.
(** [SurfaceService::reparent]: moving to a window may still fail once the webview is there. *)
Definition reparent_webview (answer : NativeAnswer) (instance : SurfaceInstanceId) (to : MountTarget) (r : RegistryInner)
    (w : gmap SurfaceInstanceId MountTarget) : result string MountTarget * gmap SurfaceInstanceId MountTarget :=
  match ri_instances r !! instance, w !! instance with
  | None, _ => (Err "instance vanished before migration", w)
  | Some _, None => (Err "surface webview is missing", w)
  | Some _, Some _ =>
      match answer, to with
      | NativeDone, _ => (Ok to, <[instance := to]> w)
      | NativeFailed reason true, MountWindowed => (Err reason, <[instance := MountWindowed]> w)
      | NativeFailed reason _, _ => (Err reason, w)
      end
  end.
(** One effect. *)
Definition execute_effect (answer : NativeAnswer) (instance : SurfaceInstanceId) (effect : SurfaceEffect) (rest : list SurfaceEffect)
    (r : RegistryInner) (w : gmap SurfaceInstanceId MountTarget) :
    list SurfaceEffect * RegistryInner * gmap SurfaceInstanceId MountTarget :=
  match effect with
  | EmitEvent _ | SetNativeVisibility _ => (rest, r, w)
  | CreateWebview target operation =>
      let '(outcome, w) := create_webview answer instance target r w in
      (with_completion instance (CompletionOpened operation outcome) rest r, w)
  | DestroyWebview operation =>
      let w := destroy_webview answer instance r w in
      (with_completion instance (CompletionClosed operation) rest r, w)
  | Reparent to operation =>
      let '(outcome, w) := reparent_webview answer instance to r w in
      (with_completion instance (CompletionMigrated operation outcome) rest r, w)
  end.
(** Calls start, and running calls take turns; [natively] holds the answers that native calls may give. *)
Inductive host_step (natively : SurfaceInstanceId -> SurfaceEffect -> NativeAnswer -> Prop) : Host -> Host -> Prop :=
| step_open definition target r w qs record effects r' :
    open definition target r = (Ok (record, effects), r') ->
    host_step natively {| ho_registry := r; ho_webviews := w; ho_queues := qs |}
              {| ho_registry := r'; ho_webviews := w; ho_queues := (sr_instance record, effects) :: qs |}
| step_command instance c r w qs effects r' :
    command instance c r = (Ok effects, r') ->
    host_step natively {| ho_registry := r; ho_webviews := w; ho_queues := qs |}
              {| ho_registry := r'; ho_webviews := w; ho_queues := (instance, effects) :: qs |}
| step_execute answer pre instance effect rest post r w queue r' w' :
    natively instance effect answer -> execute_effect answer instance effect rest r w = (queue, r', w') ->
    host_step natively {| ho_registry := r; ho_webviews := w; ho_queues := pre ++ (instance, effect :: rest) :: post |}
              {| ho_registry := r'; ho_webviews := w'; ho_queues := pre ++ (instance, queue) :: post |}.
Definition new_host : Host := {| ho_registry := empty_registry; ho_webviews := ∅; ho_queues := [] |}.
