(* ===== verification/SurfaceLaws.v ===== *)
(** * What surfaces guarantee

    The registry and the webviews of the host agree at every moment, running calls always finish, an accepted close is
    never lost, and labels name the instances they were made for. *)

From Stdlib Require Import Ascii.
From stdpp Require Import relations.
From S2P Require Import Prelude RustStr Surface.
Local Open Scope ora_scope.

(** ** Effects that own a webview *)

Definition is_op (e : SurfaceEffect) : bool :=
  match e with CreateWebview _ _ | Reparent _ _ | DestroyWebview _ => true | _ => false end.
Definition ops (l : list SurfaceEffect) : list SurfaceEffect := filter (fun e => is_op e = true) l.
Lemma ops_app l k : ops (l ++ k) = ops l ++ ops k.
Proof. apply filter_app. Qed.
Lemma ops_cons e l : ops (e :: l) = (if is_op e then [e] else []) ++ ops l.
Proof. unfold ops. rewrite filter_cons. by destruct (is_op e); case_decide. Qed.
(** What may have gone wrong with a webview: a call that was to destroy it failed and left it, or a move failed and
    moved it all the same. *)
Inductive Fault : Type := NotDestroyed | Astray.
(** What is known of a webview that should be [o], given what went wrong with it: nothing did, it may be elsewhere, or a
    failed destruction may have left it. *)
Definition holds (f : option Fault) (w o : option MountTarget) : Prop :=
  match f with None => w = o | Some Astray => is_Some w <-> is_Some o | Some NotDestroyed => True end.
(** What a state of an instance says of its webview and of the operations under way. *)
Definition coherent (f : option Fault) (s : option SurfaceState) (w : option MountTarget) (pending : list SurfaceEffect) : Prop :=
  match s with
  | None | Some (FailedState _ _) => holds f w None /\ pending = []
  | Some (Opening target operation _ _) =>
      holds f w None /\ pending = [CreateWebview target operation]
      \/ (exists t, holds f w (Some t)) /\ pending = [DestroyWebview operation; CreateWebview target operation]
  | Some (Embedded _ _) => holds f w (Some MountEmbedded) /\ pending = []
  | Some (Windowed _) => holds f w (Some MountWindowed) /\ pending = []
  | Some (Migrating from to operation _ _) => holds f w (Some from) /\ pending = [Reparent to operation]
  | Some (Closing operation from) => (exists t, holds f w (Some t) /\ from = Some t) /\ pending = [DestroyWebview operation]
  end.
Lemma mounted_coherent f w target view : holds f w (Some target) -> coherent f (Some (mounted target view)) w [].
Proof. by destruct target. Qed.
Lemma command_coherent f i s c next t next' w pending :
  coherent f (Some s) w pending -> apply_command i s c next = Ok (t, next') ->
  (pending = [] \/ ops (tr_effects t) = []) /\ coherent f (tr_next t) w (pending ++ ops (tr_effects t)).
Proof.
  intros H E. destruct s, c; cbn in E; try discriminate E; injection E as <- <-; cbn in *;
    repeat match goal with H : _ /\ _ |- _ => destruct H end; subst; cbn; rewrite ?app_nil_r; eauto 8.
Qed.

(** *** Completions, one per operation *)

Lemma created_coherent i d (outcome : result string MountTarget) target operation state next f w f' w' :
  coherent f (Some state) w [CreateWebview target operation] ->
  match outcome with Ok t => t = target /\ holds f' w' (Some target) | Err _ => f' = f /\ w' = w end ->
  exists t next', apply_completion i d state (CompletionOpened operation outcome) next = Ok (t, next')
    /\ coherent f' (tr_next t) w' (ops (tr_effects t)).
Proof.
  destruct state; cbn [coherent]; try (intros []; discriminate).
  intros [[Hw [= <- <-]]|[_ [=]]]. cbn [apply_completion]. rewrite bool_decide_eq_true_2 by done.
  destruct outcome as [t|reason], close_requested; intros [-> H]; subst; do 2 eexists; (split; [reflexivity|]);
    cbn [tr_next tr_effects coherent close_from]; try done; eauto 6. by apply mounted_coherent.
Qed.
Lemma moved_coherent i d (outcome : result string MountTarget) to operation state next f w f' w' :
  coherent f (Some state) w [Reparent to operation] ->
  match outcome with Ok t => t = to /\ holds f' w' (Some to) | Err _ => forall from, holds f w (Some from) -> holds f' w' (Some from) end ->
  exists t next', apply_completion i d state (CompletionMigrated operation outcome) next = Ok (t, next')
    /\ coherent f' (tr_next t) w' (ops (tr_effects t)).
Proof.
  destruct state; cbn [coherent]; try (intros []; discriminate); [by intros [[? ?]|[? ?]]|].
  intros [Hw [= <- <-]]. cbn [apply_completion]. rewrite bool_decide_eq_true_2 by done.
  destruct outcome as [t|reason], close_requested.
  1-2: intros [-> H]. all: intros; do 2 eexists; (split; [reflexivity|]); cbn [tr_next tr_effects coherent close_from]; eauto 6;
    try (apply mounted_coherent; by auto).
Qed.
(** A destruction ends a closing instance, and is the first half of a rebuild. *)
Lemma destroyed_coherent i d operation state rest next f w f' w' :
  coherent f (Some state) w (DestroyWebview operation :: rest) -> holds f' w' None ->
  match apply_completion i d state (CompletionClosed operation) next with
  | Ok (t, next') => coherent f' (tr_next t) w' (rest ++ ops (tr_effects t))
  | Err _ => coherent f' (Some state) w' rest
  end.
Proof.
  destruct state; cbn [coherent]; try (intros []; discriminate).
  - intros [[_ [=]]|[_ [= <- ->]]] Ho. cbn. by left.
  - intros [_ [= <- ->]] Ho. cbn. by rewrite bool_decide_eq_true_2.
Qed.

(** ** The queues of running calls *)

Definition queue_ops (i : SurfaceInstanceId) (q : SurfaceInstanceId * list SurfaceEffect) : list SurfaceEffect :=
  if decide (q.1 = i) then ops q.2 else [].
Definition op_queues (i : SurfaceInstanceId) (qs : list (SurfaceInstanceId * list SurfaceEffect)) : list (list SurfaceEffect) :=
  filter (fun l => l <> []) (queue_ops i <$> qs).
(** At most one call works on the webview of an instance. *)
Definition sole (pending : list SurfaceEffect) : list (list SurfaceEffect) := match pending with [] => [] | _ => [pending] end.
Lemma op_queues_cons i q qs : op_queues i (q :: qs) = sole (queue_ops i q) ++ op_queues i qs.
Proof.
  unfold op_queues. rewrite fmap_cons. destruct (queue_ops i q) eqn:E.
  - by rewrite filter_cons_False by tauto.
  - by rewrite filter_cons_True.
Qed.
Lemma op_queues_app i qs ks : op_queues i (qs ++ ks) = op_queues i qs ++ op_queues i ks.
Proof. unfold op_queues. by rewrite fmap_app, filter_app. Qed.
Lemma op_queues_middle i pre q post :
  op_queues i (pre ++ q :: post) = op_queues i pre ++ sole (queue_ops i q) ++ op_queues i post.
Proof. by rewrite op_queues_app, op_queues_cons. Qed.
Lemma sole_owner a pending b l : l <> [] -> a ++ sole l ++ b = sole pending -> a = [] /\ b = [] /\ pending = l.
Proof.
  intros Hl H. destruct l as [|x l]; [done|]. cbn [sole] in H. destruct pending as [|y p]; cbn [sole] in H.
  - by destruct a.
  - destruct a as [|z a]; cbn in H; [|by destruct a]. by injection H as -> -> ->.
Qed.

(** *** Native calls *)

Section natively.
#[local] Set Default Proof Using "Type".
Context (natively : SurfaceInstanceId -> SurfaceEffect -> NativeAnswer -> Prop).

(** The native calls on the webview of an instance that failed: a destruction that left it, a move that moved it. *)
Definition destroy_failed (i : SurfaceInstanceId) : Prop := exists operation reason, natively i (DestroyWebview operation) (NativeFailed reason false).
Definition move_failed (i : SurfaceInstanceId) : Prop := exists operation reason, natively i (Reparent MountWindowed operation) (NativeFailed reason true).
Definition possible (i : SurfaceInstanceId) (f : option Fault) : Prop :=
  match f with None => True | Some NotDestroyed => destroy_failed i | Some Astray => move_failed i end.
Definition same_elsewhere (i : SurfaceInstanceId) (n n' : gmap SurfaceInstanceId MountTarget) : Prop := forall j, j <> i -> n' !! j = n !! j.
Lemma create_known b i target r n outcome n' : create_webview b i target r n = (outcome, n') ->
  same_elsewhere i n n' /\ match outcome with Ok t => t = target /\ n' !! i = Some target | Err _ => n' = n end.
Proof.
  unfold create_webview. destruct (ri_instances r !! i); [|by intros [= <- <-]]. destruct b; intros [= <- <-]; [|done].
  split; [|split; [done|apply lookup_insert_eq]]. intros j Hj. by rewrite lookup_insert_ne.
Qed.
Lemma reparent_known b i to operation r n f outcome n' :
  reparent_webview b i to r n = (outcome, n') -> natively i (Reparent to operation) b -> possible i f ->
  same_elsewhere i n n' /\ match outcome with
                          | Ok t => t = to /\ n' !! i = Some to
                          | Err _ => exists f', possible i f' /\ forall from, holds f (n !! i) (Some from) -> holds f' (n' !! i) (Some from)
                          end.
Proof.
  intros E Hb Hf.
  assert (Hsame : same_elsewhere i n n /\ exists f', possible i f' /\ forall from, holds f (n !! i) (Some from) -> holds f' (n !! i) (Some from))
    by (split; [by intros ? _|by exists f]).
  revert E. unfold reparent_webview. destruct (ri_instances r !! i); [|by intros [= <- <-]]. destruct (n !! i) eqn:Hw; [|intros [= <- <-]; by rewrite Hw].
  destruct b as [|reason []]; [| |destruct to; intros [= <- <-]; by rewrite Hw].
  - intros [= <- <-]. split; [|split; [done|apply lookup_insert_eq]]. intros j Hj. by rewrite lookup_insert_ne.
  - destruct to; intros [= <- <-]; [by rewrite Hw|]. split; [intros j Hj; by rewrite lookup_insert_ne|].
    exists (match f with Some f => Some f | None => Some Astray end). split; [destruct f; [done|by exists operation, reason]|].
    intros from. rewrite lookup_insert_eq. by destruct f as [[]|].
Qed.
Lemma destroy_known b i operation r n record : ri_instances r !! i = Some record -> natively i (DestroyWebview operation) b ->
  same_elsewhere i n (destroy_webview b i r n) /\ exists f, possible i f /\ holds f (destroy_webview b i r n !! i) None.
Proof.
  intros Hi Hb. unfold destroy_webview. rewrite Hi.
  assert (Hr : same_elsewhere i n (delete i n) /\ exists f, possible i f /\ holds f (delete i n !! i) None).
  { split; [intros j Hj; by rewrite lookup_delete_ne|]. exists None. split; [done|]. apply lookup_delete_eq. }
  destruct b as [|reason []]; [done|done|]. split; [done|]. exists (Some NotDestroyed). split; [by exists operation, reason|done].
Qed.

Definition hosted (i : SurfaceInstanceId) (h : Host) : Prop :=
  exists pending f, possible i f /\ op_queues i (ho_queues h) = sole pending
    /\ coherent f (sr_state <$> ri_instances (ho_registry h) !! i) (ho_webviews h !! i) pending.
Record host_wf (n : N) (h : Host) : Prop := {
  hw_hosted : forall i, hosted i h;
  hw_next : (ri_next_instance (ho_registry h) <= n)%N;
  hw_ids : forall i, is_Some (ri_instances (ho_registry h) !! i) -> (i < ri_next_instance (ho_registry h))%N;
}.

(** *** Steps *)

Lemma settle_lookup i t r j :
  ri_instances (settle_transition i t r) !! j
  = if decide (j = i) then s ← tr_next t; record ← ri_instances r !! i; Some (set_state s record) else ri_instances r !! j.
Proof.
  unfold settle_transition. destruct (decide (j = i)) as [->|Hne].
  - destruct (tr_next t), (ri_instances r !! i) eqn:E; cbn [ri_instances mbind option_bind]; try done; [by rewrite lookup_insert_eq|by rewrite lookup_delete_eq].
  - destruct (tr_next t), (ri_instances r !! i); cbn [ri_instances]; try done; [by rewrite lookup_insert_ne|by rewrite lookup_delete_ne].
Qed.
Lemma settle_next i t r : ri_next_instance (settle_transition i t r) = ri_next_instance r.
Proof. unfold settle_transition. by destruct (tr_next t), (ri_instances r !! i). Qed.
Lemma settled_at i t r record :
  ri_instances r !! i = Some record -> sr_state <$> ri_instances (settle_transition i t r) !! i = tr_next t.
Proof. intros H. rewrite settle_lookup, decide_True, H by done. by destruct (tr_next t). Qed.
Lemma settle_other i t r j : j <> i -> ri_instances (settle_transition i t r) !! j = ri_instances r !! j.
Proof. intros H. rewrite settle_lookup. by rewrite decide_False. Qed.
(** A call leaves the other instances and the identifiers alone. *)
Definition touches_only (i : SurfaceInstanceId) (r r' : RegistryInner) : Prop :=
  (forall j, j <> i -> ri_instances r' !! j = ri_instances r !! j) /\ ri_next_instance r' = ri_next_instance r
  /\ (is_Some (ri_instances r' !! i) -> is_Some (ri_instances r !! i)).
Lemma settle_touches i t r n record : ri_instances r !! i = Some record ->
  touches_only i r (settle_transition i t (set_next_operation n r)).
Proof.
  intros Hi. split_and!; [intros j Hj; by rewrite settle_other|by rewrite settle_next|by rewrite Hi].
Qed.
Lemma command_touches i c r x r' : command i c r = (x, r') -> touches_only i r r'.
Proof.
  unfold command. destruct (ri_instances r !! i) as [record|] eqn:E; [|by intros [= _ <-]].
  destruct (apply_command _ _ _ _) as [[t n]|]; intros [= _ <-]; [by eapply settle_touches|done].
Qed.
Lemma complete_touches i c r x r' : complete i c r = (x, r') -> touches_only i r r'.
Proof.
  unfold complete. destruct (ri_instances r !! i) as [record|] eqn:E; [|by intros [= _ <-]].
  destruct (apply_completion _ _ _ _ _) as [[t n]|]; intros [= _ <-]; [by eapply settle_touches|done].
Qed.
Lemma with_completion_touches i c rest r queue r' : with_completion i c rest r = (queue, r') -> touches_only i r r'.
Proof. unfold with_completion. destruct (complete i c r) as [x r1] eqn:E. intros [= _ <-]. by eapply complete_touches. Qed.
Lemma execute_touches b i e rest r n queue r' n' : execute_effect b i e rest r n = (queue, r', n') ->
  touches_only i r r' /\ same_elsewhere i n n'.
Proof.
  destruct e; cbn [execute_effect]; try (by intros [= _ <- <-]).
  - destruct (create_webview _ _ _ _ _) as [o n1] eqn:En. destruct (with_completion _ _ _ _) as [q r1] eqn:E. intros [= _ <- <-].
    split; [by eapply with_completion_touches|]. by destruct (create_known _ _ _ _ _ _ _ En).
  - destruct (reparent_webview _ _ _ _ _) as [o n1] eqn:En. destruct (with_completion _ _ _ _) as [q r1] eqn:E. intros [= _ <- <-].
    split; [by eapply with_completion_touches|]. revert En. unfold reparent_webview. intros En j Hj.
    repeat case_match; simplify_eq; by rewrite ?lookup_insert_ne.
  - destruct (with_completion _ _ _ _) as [q r1] eqn:E. intros [= _ <- <-]. split; [by eapply with_completion_touches|].
    unfold destroy_webview. intros j Hj. repeat case_match; simplify_eq; by rewrite ?lookup_delete_ne.
Qed.

(** What executing one effect does to its own instance. *)
Lemma execute_coherent b i e rest r n queue r' n' pending f :
  execute_effect b i e rest r n = (queue, r', n') -> natively i e b -> possible i f ->
  coherent f (sr_state <$> ri_instances r !! i) (n !! i) pending -> (is_op e = true -> pending = ops (e :: rest)) ->
  exists added f', possible i f' /\ ops queue = ops rest ++ added
    /\ coherent f' (sr_state <$> ri_instances r' !! i) (n' !! i) (if is_op e then ops queue else pending)
    /\ (is_op e = false -> added = []).
Proof.
  intros E Hb Hf H Hp. assert (Hstate : is_op e = true -> exists record, ri_instances r !! i = Some record).
  { intros Hop. rewrite (Hp Hop), ops_cons, Hop in H. destruct (ri_instances r !! i) as [record|]; [eauto|by destruct H]. }
  destruct e as [target operation|to operation|operation|v|ev]; cbn [is_op execute_effect] in *;
    try (injection E as <- <- <-; exists [], f; rewrite app_nil_r; done); destruct (Hstate eq_refl) as [record Hi];
    rewrite (Hp eq_refl), ops_cons in H; cbn [is_op app] in H; rewrite Hi in H; cbn [fmap option_fmap option_map] in H.
  - assert (Hr : ops rest = []) by (destruct (sr_state record); cbn in H; naive_solver). rewrite Hr in *.
    destruct (create_webview _ _ _ _ _) as [outcome n1] eqn:En. destruct (create_known _ _ _ _ _ _ _ En) as [_ Ho].
    destruct (created_coherent i (sr_definition record) outcome target operation _ (ri_next_operation r) _ _
      (match outcome with Ok _ => None | Err _ => f end) (n1 !! i) H) as (t & m & Ht & Hc); [by destruct outcome; [|subst]|].
    unfold with_completion, complete in E. rewrite Hi, Ht in E. injection E as <- <- <-. exists (ops (tr_effects t)). rewrite ops_app, Hr.
    eexists. split_and!; [|done| |done]; [|rewrite (settled_at _ _ _ record) by done; exact Hc]. by destruct outcome.
  - assert (Hr : ops rest = []) by (destruct (sr_state record); cbn in H; naive_solver). rewrite Hr in *.
    destruct (reparent_webview _ _ _ _ _) as [outcome n1] eqn:En. destruct (reparent_known _ _ _ _ _ _ _ _ _ En Hb Hf) as [_ Ho].
    assert (Hf' : exists f', possible i f' /\ match outcome with
      | Ok t => t = to /\ holds f' (n1 !! i) (Some to) | Err _ => forall from, holds f (n !! i) (Some from) -> holds f' (n1 !! i) (Some from) end)
      by (destruct outcome; [by exists None|done]).
    destruct Hf' as (f' & Hf' & Ho').
    destruct (moved_coherent i (sr_definition record) outcome to operation _ (ri_next_operation r) _ _ f' (n1 !! i) H Ho') as (t & m & Ht & Hc).
    unfold with_completion, complete in E. rewrite Hi, Ht in E. injection E as <- <- <-. exists (ops (tr_effects t)), f'. rewrite ops_app, Hr.
    split_and!; [done|done| |done]. by rewrite (settled_at _ _ _ record).
  - destruct (destroy_known b i operation r n record Hi Hb) as (_ & f' & Hf' & Ho).
    pose proof (destroyed_coherent i (sr_definition record) operation _ _ (ri_next_operation r) _ _ _ _ H Ho) as Hc.
    unfold with_completion, complete in E. rewrite Hi in E.
    destruct (apply_completion _ _ _ _ _) as [[t m]|]; injection E as <- <- <-.
    + exists (ops (tr_effects t)), f'. rewrite ops_app. split_and!; [done|done| |done]. by rewrite (settled_at _ _ _ record).
    + exists [], f'. rewrite !app_nil_r. split_and!; [done|done| |done]. cbn [ri_instances]. by rewrite Hi.
Qed.

Lemma queue_ops_self i l : queue_ops i (i, l) = ops l.
Proof. unfold queue_ops. by rewrite decide_True. Qed.
Lemma queue_ops_other i j l : j <> i -> queue_ops j (i, l) = [].
Proof. intros H. unfold queue_ops. by rewrite decide_False. Qed.
Lemma sole_join pending new : pending = [] \/ new = [] -> sole new ++ sole pending = sole (pending ++ new).
Proof. intros [->| ->]; [by rewrite app_nil_r|by rewrite app_nil_r]. Qed.
Lemma hosted_other i j r n qs r' n' qs' :
  j <> i -> ri_instances r' !! j = ri_instances r !! j -> same_elsewhere i n n' -> op_queues j qs' = op_queues j qs ->
  hosted j {| ho_registry := r; ho_webviews := n; ho_queues := qs |} ->
  hosted j {| ho_registry := r'; ho_webviews := n'; ho_queues := qs' |}.
Proof.
  intros Hj Hr Hn Hq (pending & f & Hf & H1 & H2). exists pending, f. cbn [ho_registry ho_webviews ho_queues] in *.
  by rewrite (Hn j Hj), Hq, Hr.
Qed.
Lemma same_everywhere i n : same_elsewhere i n n.
Proof. by intros j _. Qed.
Lemma hosted_new_call i c r n qs effects r' j :
  command i c r = (Ok effects, r') -> hosted j {| ho_registry := r; ho_webviews := n; ho_queues := qs |} ->
  hosted j {| ho_registry := r'; ho_webviews := n; ho_queues := (i, effects) :: qs |}.
Proof.
  intros E H. destruct (command_touches _ _ _ _ _ E) as (Hother & _ & _). destruct (decide (j = i)) as [->|Hj].
  - destruct H as (pending & f & Hf & H1 & H2). unfold command in E. cbn [ho_registry ho_webviews ho_queues] in *.
    destruct (ri_instances r !! i) as [record|] eqn:Hi; [|done]. cbn [fmap option_fmap option_map] in H2.
    destruct (apply_command _ _ _ _) as [[t m]|] eqn:Ea; [|done]. injection E as <- <-.
    destruct (command_coherent _ _ _ _ _ _ _ _ _ H2 Ea) as [Hsole Hc]. exists (pending ++ ops (tr_effects t)), f. split; [done|].
    cbn [ho_registry ho_webviews ho_queues].
    rewrite op_queues_cons, queue_ops_self, H1, (settled_at _ _ _ record) by done. split; [by apply sole_join|done].
  - eapply (hosted_other i); [done|by apply Hother|apply same_everywhere| |exact H]. by rewrite op_queues_cons, queue_ops_other.
Qed.
Lemma hosted_execute b pre i e rest post r n queue r' n' j :
  execute_effect b i e rest r n = (queue, r', n') -> natively i e b ->
  hosted j {| ho_registry := r; ho_webviews := n; ho_queues := pre ++ (i, e :: rest) :: post |} ->
  hosted j {| ho_registry := r'; ho_webviews := n'; ho_queues := pre ++ (i, queue) :: post |}.
Proof.
  intros E Hb H. destruct (execute_touches _ _ _ _ _ _ _ _ _ E) as ((Hother & _ & _) & Hw). destruct (decide (j = i)) as [->|Hj].
  - destruct H as (pending & f & Hf & H1 & H2). unfold hosted. cbn [ho_registry ho_webviews ho_queues] in *.
    rewrite op_queues_middle, queue_ops_self in *.
    assert (Hp : is_op e = true -> op_queues i pre = [] /\ op_queues i post = [] /\ pending = ops (e :: rest)).
    { intros Hop. apply sole_owner; [|done]. by rewrite ops_cons, Hop. }
    destruct (execute_coherent _ _ _ _ _ _ _ _ _ pending f E Hb Hf H2) as (added & f' & Hf' & Hq & Hc & Hadd); [by intros Hop; destruct (Hp Hop) as (_ & _ & ?)|].
    destruct (is_op e) eqn:Hop.
    + destruct (Hp eq_refl) as (-> & -> & _). exists (ops queue), f'. by rewrite app_nil_r.
    + exists pending, f'. split; [done|]. split; [|done]. rewrite <- H1, Hq, (Hadd eq_refl), app_nil_r, ops_cons, Hop. done.
  - eapply (hosted_other i); [done|by apply Hother|exact Hw| |exact H]. by rewrite !op_queues_middle, !queue_ops_other.
Qed.
Lemma next_u64_small n : (n < u64_max)%N -> next_u64 n = (n + 1)%N.
Proof. intros H. unfold next_u64. apply N.mod_small. lia. Qed.
Lemma touches_ids i r r' n :
  touches_only i r r' -> (ri_next_instance r <= n)%N -> (forall j, is_Some (ri_instances r !! j) -> (j < ri_next_instance r)%N) ->
  (ri_next_instance r' <= n + 1)%N /\ forall j, is_Some (ri_instances r' !! j) -> (j < ri_next_instance r')%N.
Proof.
  intros (Hother & Hnext & Hself) Hn Hids. rewrite Hnext. split; [lia|]. intros j Hj. apply Hids.
  destruct (decide (j = i)) as [->|Hne]; [by apply Hself|by rewrite <- Hother].
Qed.
Lemma host_step_wf n h h' : (n < u64_max)%N -> host_wf n h -> host_step natively h h' -> host_wf (n + 1) h'.
Proof.
  intros Hn [Hh Hnext Hids] Hs. destruct Hs as [d target r w qs record effects r' E|i c r w qs effects r' E|b pre i e rest post r w queue r' w' Hb E].
  - cbn [ho_registry] in *. unfold open in E. destruct (already_open d r); [done|]. injection E as <- <- <-.
    set (i := ri_next_instance r) in *. cbn [sr_instance].
    assert (Hfresh : ri_instances r !! i = None) by (apply eq_None_not_Some; intros Hi; specialize (Hids i Hi); unfold i in Hids; lia).
    split; cbn [ho_registry ri_instances ri_next_instance].
    + intros j. destruct (decide (j = i)) as [->|Hj].
      * destruct (Hh i) as (pending & f & Hf & H1 & H2). unfold hosted. cbn [ho_registry ho_webviews ho_queues] in *.
        rewrite Hfresh in H2. destruct H2 as [Hw ->]. exists [CreateWebview target (ri_next_operation r)], f. cbn [ri_instances].
        split; [done|].
        rewrite op_queues_cons, queue_ops_self, H1, lookup_insert_eq. split; [done|]. cbn. by left.
      * eapply (hosted_other i); [done| |apply same_everywhere| |exact (Hh j)]; [cbn; by rewrite lookup_insert_ne|by rewrite op_queues_cons, queue_ops_other].
    + rewrite next_u64_small by lia. lia.
    + intros j Hj. rewrite next_u64_small by lia. fold i. destruct (decide (j = i)) as [->|Hne]; [lia|].
      rewrite lookup_insert_ne in Hj by done. specialize (Hids j Hj). unfold i. lia.
  - destruct (touches_ids _ _ _ n (command_touches _ _ _ _ _ E) Hnext Hids). split; [|done|done].
    intros j. eapply hosted_new_call; [done|apply Hh].
  - destruct (execute_touches _ _ _ _ _ _ _ _ _ E) as [Ht _]. destruct (touches_ids _ _ _ n Ht Hnext Hids). split; [|done|done].
    intros j. eapply hosted_execute; [done|done|apply Hh].
Qed.
Lemma new_host_wf : host_wf 0 new_host.
Proof.
  split; [|done|].
  - intros i. exists [], None. cbn. by rewrite !lookup_empty.
  - intros i [x Hx]. cbn in Hx. by rewrite lookup_empty in Hx.
Qed.
Lemma host_steps_wf k n h h' : nsteps (host_step natively) k h h' -> host_wf n h -> (n + N.of_nat k <= u64_max)%N -> host_wf (n + N.of_nat k) h'.
Proof.
  intros H. revert n. induction H as [h|k h h1 h2 H1 _ IH]; intros n Hh Hn; [by rewrite N.add_0_r|].
  replace (n + N.of_nat (S k))%N with (n + 1 + N.of_nat k)%N by lia. apply IH; [|lia]. eapply host_step_wf; [lia|done|done].
Qed.

End natively.

(** ** The host shows what the registry says *)

Definition drained (h : Host) : Prop := Forall (fun q => q.2 = []) (ho_queues h).
(** The webview of a state in which nothing is under way. *)
Definition resting_webview (s : SurfaceState) : option (option MountTarget) :=
  match s with
  | Embedded _ _ => Some (Some MountEmbedded)
  | Windowed _ => Some (Some MountWindowed)
  | FailedState _ _ => Some None
  | _ => None
  end.
Lemma coherent_resting f s w : coherent f (Some s) w [] -> exists o, resting_webview s = Some o /\ holds f w o.
Proof.
  destruct s; cbn; [intros [[_ ?]|[_ ?]]; done|intros [? _]; eauto|intros [? _]; eauto|by intros [_ ?]|by intros [_ ?]|intros [? _]; eauto].
Qed.
Lemma drained_ops h i : drained h -> op_queues i (ho_queues h) = [].
Proof.
  unfold drained. induction 1 as [|[j q] qs Hq _ IH]; [done|]. cbn in Hq. subst q. rewrite op_queues_cons, IH.
  unfold queue_ops. cbn. by destruct (decide _).
Qed.

(** C34: However calls interleave and whatever the native calls answer, no two calls work on the webview of one instance, and
    a webview exists only for a live instance or because a native call that was to destroy it failed.  Whenever no call is
    running, every live instance is embedded, windowed or failed; unless such a call failed, its webview exists exactly when
    the state says so, and is exactly there unless a move to a window failed after it took effect. *)
Theorem webviews_match_registry natively k h :
  nsteps (host_step natively) k new_host h -> (N.of_nat k <= u64_max)%N ->
  (forall i, is_Some (ho_webviews h !! i) -> is_Some (ri_instances (ho_registry h) !! i)
    \/ exists operation reason, natively i (DestroyWebview operation) (NativeFailed reason false))
  /\ (forall i, length (op_queues i (ho_queues h)) <= 1)
  /\ (drained h -> forall i record, ri_instances (ho_registry h) !! i = Some record ->
        exists o, resting_webview (sr_state record) = Some o /\
        ((forall operation reason, ~ natively i (DestroyWebview operation) (NativeFailed reason false)) ->
         (is_Some (ho_webviews h !! i) <-> is_Some o)
         /\ ((forall operation reason, ~ natively i (Reparent MountWindowed operation) (NativeFailed reason true)) -> ho_webviews h !! i = o))).
Proof.
  intros H Hk. destruct (host_steps_wf _ _ 0 _ _ H (new_host_wf natively)) as [Hh _ _]; [lia|]. split_and!.
  - intros i Hw. destruct (Hh i) as (pending & f & Hf & _ & Hc). destruct (ri_instances (ho_registry h) !! i); [eauto|].
    destruct Hc as [Hc _]. right. destruct f as [[]|]; [done| |]; cbn in Hc.
    + apply Hc in Hw. by destruct Hw.
    + rewrite Hc in Hw. by destruct Hw.
  - intros i. destruct (Hh i) as (pending & f & _ & -> & _). destruct pending; cbn; lia.
  - intros Hd i record Hi. destruct (Hh i) as (pending & f & Hf & Hq & Hc). rewrite (drained_ops h i Hd) in Hq. destruct pending; [|done].
    rewrite Hi in Hc. destruct (coherent_resting _ _ _ Hc) as (o & Ho & Hw). exists o. split; [done|]. intros Hn.
    destruct f as [[]|]; cbn in Hf, Hw.
    + destruct Hf as (op & reason & Hf). by destruct (Hn op reason).
    + split; [done|]. intros Hm. destruct Hf as (op & reason & Hf). by destruct (Hm op reason).
    + by rewrite Hw.
Qed.

Notation sample_surface := {| sd_plugin_id := "official/hello"; sd_title := "Hello"; sd_source := WorkbenchSource {| wd_asset_root := "/plugins/hello"; wd_page_entry := "index.html"; wd_declared_methods := [] |} |} (only parsing).
Notation open_in_progress := {| ho_registry := (open sample_surface MountWindowed empty_registry).2; ho_webviews := ∅; ho_queues := [(0%N, [CreateWebview MountWindowed 0%N])] |} (only parsing).
Notation open_settled := {| ho_registry := (complete 0 (CompletionOpened 0 (Ok MountWindowed)) (open sample_surface MountWindowed empty_registry).2).2; ho_webviews := {[0%N := MountWindowed]}; ho_queues := [(0%N, [EmitEvent (EventOpened 0 "official/hello" KindWorkbench MountWindowed "Hello")])] |} (only parsing).
(** Native calls that all do what they are asked. *)
Definition all_done (i : SurfaceInstanceId) (e : SurfaceEffect) (b : NativeAnswer) : Prop := b = NativeDone.
Lemma opening_steps : nsteps (host_step all_done) 1 new_host open_in_progress.
Proof. econstructor; [by apply (step_open _ sample_surface MountWindowed empty_registry ∅ [])|constructor]. Qed.
Lemma opened_steps : nsteps (host_step all_done) 2 new_host open_settled.
Proof.
  eapply nsteps_r; [exact opening_steps|]. by apply (step_execute _ NativeDone [] 0 (CreateWebview MountWindowed 0) [] []).
Qed.
(** A window that has just been created. *)
Lemma webviews_match_registry_witness :
  nsteps (host_step all_done) 2 new_host open_settled /\
  is_Some (ri_instances (ho_registry open_settled) !! 0%N).
Proof.
  split; [exact opened_steps|].
  destruct (proj1 (webviews_match_registry all_done 2 open_settled opened_steps ltac:(done)) 0%N) as [H|(? & ? & H)];
    [by exists MountWindowed|exact H|discriminate H].
Defined.

(** ** Running calls finish *)

(** A bound on what an effect and the effects it leads to may take. *)
Definition effect_weight (e : SurfaceEffect) : nat :=
  match e with Reparent _ _ => 4 | CreateWebview _ _ => 3 | DestroyWebview _ => 2 | _ => 1 end.
Definition queue_weight (l : list SurfaceEffect) : nat := sum_list (effect_weight <$> l).
Definition host_weight (h : Host) : nat := sum_list ((fun q => queue_weight q.2) <$> ho_queues h).
Lemma queue_weight_app l k : queue_weight (l ++ k) = queue_weight l + queue_weight k.
Proof. unfold queue_weight. by rewrite fmap_app, sum_list_with_app. Qed.
Lemma sum_list_cons n l : sum_list (n :: l) = n + sum_list l.
Proof. done. Qed.
(** A running call executes its next effect. *)
Inductive turn (natively : SurfaceInstanceId -> SurfaceEffect -> NativeAnswer -> Prop) : Host -> Host -> Prop :=
| turn_execute answer pre instance effect rest post r n queue r' n' :
    natively instance effect answer -> execute_effect answer instance effect rest r n = (queue, r', n') ->
    turn natively {| ho_registry := r; ho_webviews := n; ho_queues := pre ++ (instance, effect :: rest) :: post |}
         {| ho_registry := r'; ho_webviews := n'; ho_queues := pre ++ (instance, queue) :: post |}.
Lemma completion_weight i d s c next t n : apply_completion i d s c next = Ok (t, n) ->
  queue_weight (tr_effects t) < match c with CompletionMigrated _ _ => 4 | CompletionOpened _ _ => 3 | CompletionClosed _ => 2 end.
Proof.
  destruct c; cbn [apply_completion]; destruct s; try discriminate; case_bool_decide; try discriminate;
    [destruct outcome, close_requested|destruct outcome, close_requested|]; intros [= <- _]; cbn; lia.
Qed.
Lemma with_completion_weight i c rest r queue r' : with_completion i c rest r = (queue, r') ->
  queue_weight queue < queue_weight rest + match c with CompletionMigrated _ _ => 4 | CompletionOpened _ _ => 3 | CompletionClosed _ => 2 end.
Proof.
  unfold with_completion, complete. intros E. destruct (ri_instances r !! i) as [record|].
  - destruct (apply_completion _ _ _ _ _) as [[t n]|] eqn:Ea; injection E as <- _; rewrite queue_weight_app; cbn.
    + pose proof (completion_weight _ _ _ _ _ _ _ Ea). lia.
    + destruct c; cbn; lia.
  - injection E as <- _. rewrite queue_weight_app. destruct c; cbn; lia.
Qed.
Lemma execute_weight b i e rest r n queue r' n' : execute_effect b i e rest r n = (queue, r', n') ->
  queue_weight queue < queue_weight (e :: rest).
Proof.
  change (queue_weight (e :: rest)) with (effect_weight e + queue_weight rest).
  destruct e; cbn [execute_effect effect_weight]; try (intros [= <- _ _]; lia); [destruct (create_webview _ _ _ _ _)|destruct (reparent_webview _ _ _ _ _)|];
    destruct (with_completion _ _ _ _) as [q r1] eqn:E; intros [= <- _ _]; apply with_completion_weight in E; lia.
Qed.
Lemma turn_weight natively h h' : turn natively h h' -> host_weight h' < host_weight h.
Proof.
  destruct 1 as [f pre i e rest post r w queue r' w' _ E]. unfold host_weight. cbn [ho_queues].
  rewrite !fmap_app, !fmap_cons, !sum_list_with_app. apply execute_weight in E. rewrite !sum_list_cons. cbn [snd]. lia.
Qed.
Lemma undrained_turns (f : NativeAnswer) h : ~ drained h -> exists h', turn (fun _ _ answer => answer = f) h h'.
Proof.
  destruct h as [r w qs]. unfold drained. cbn [ho_queues]. intros H.
  apply not_Forall_Exists, Exists_exists in H as ([i q] & Hq & Hne); [|intros q; destruct (q.2); [by left|by right]].
  cbn in Hne. destruct q as [|e rest]; [done|]. apply list_elem_of_split in Hq as (pre & post & ->).
  destruct (execute_effect f i e rest r w) as [[queue r'] w'] eqn:E. eexists. by econstructor.
Qed.
Lemma turn_step natively h h' : turn natively h h' -> host_step natively h h'.
Proof. destruct 1. by econstructor. Qed.
Lemma turns_weight natively j h h' : nsteps (turn natively) j h h' -> j + host_weight h' <= host_weight h.
Proof. induction 1 as [|j h h1 h' Ht _ IH]; [lia|]. apply turn_weight in Ht. lia. Qed.

(** ** An accepted close is never lost *)

Definition leaving (s : option SurfaceState) : bool :=
  match s with
  | None | Some (Opening _ _ _ true) | Some (Migrating _ _ _ _ true) | Some (Closing _ _) => true
  | _ => false
  end.
Lemma command_leaving i s c next t next' : apply_command i s c next = Ok (t, next') ->
  c = Close \/ leaving (Some s) = true -> leaving (tr_next t) = true.
Proof. intros E H. destruct s, c; cbn in E; try discriminate E; injection E as <- <-; cbn in *; try done; destruct H; done. Qed.
Lemma completion_leaving i d s c next t next' : apply_completion i d s c next = Ok (t, next') ->
  leaving (Some s) = true -> leaving (tr_next t) = true.
Proof.
  destruct c, s; cbn [apply_completion]; try discriminate; case_bool_decide; try discriminate; try destruct outcome;
    try destruct close_requested; intros [= <- _]; cbn; done.
Qed.
Definition state_at (i : SurfaceInstanceId) (r : RegistryInner) : option SurfaceState := sr_state <$> ri_instances r !! i.
Lemma command_leaves i j c r effects r' : command j c r = (Ok effects, r') ->
  (i = j /\ c = Close) \/ leaving (state_at i r) = true -> leaving (state_at i r') = true.
Proof.
  intros E H. destruct (command_touches _ _ _ _ _ E) as (Hother & _ & _). destruct (decide (i = j)) as [->|Hne].
  - unfold command, state_at in *. destruct (ri_instances r !! j) as [record|] eqn:Hj; [|done].
    destruct (apply_command _ _ _ _) as [[t n]|] eqn:Ea; [|done]. injection E as <- <-.
    rewrite (settled_at _ _ _ record) by done. eapply command_leaving; [exact Ea|]. destruct H as [[_ ->]|H]; [by left|by right].
  - unfold state_at in *. rewrite (Hother i Hne). destruct H as [[-> _]|H]; done.
Qed.
Lemma complete_leaves i j c r x r' : complete j c r = (x, r') -> leaving (state_at i r) = true -> leaving (state_at i r') = true.
Proof.
  intros E H. destruct (complete_touches _ _ _ _ _ E) as (Hother & _ & _). destruct (decide (i = j)) as [->|Hne].
  - unfold complete, state_at in *. destruct (ri_instances r !! j) as [record|] eqn:Hj; [|injection E as _ <-; by rewrite Hj].
    destruct (apply_completion _ _ _ _ _) as [[t n]|] eqn:Ea; injection E as _ <-; [|by rewrite Hj].
    rewrite (settled_at _ _ _ record) by done. by eapply completion_leaving.
  - unfold state_at in *. by rewrite (Hother i Hne).
Qed.
Lemma execute_leaves i j b e rest r n queue r' n' : execute_effect b j e rest r n = (queue, r', n') ->
  leaving (state_at i r) = true -> leaving (state_at i r') = true.
Proof.
  destruct e; cbn [execute_effect with_completion]; unfold with_completion; try (by intros [= _ <- _]);
    [destruct (create_webview _ _ _ _ _)|destruct (reparent_webview _ _ _ _ _)|];
    destruct (complete _ _ _) as [x r1] eqn:E; intros [= _ <- _]; by eapply complete_leaves.
Qed.
Definition gone_for_good (i : SurfaceInstanceId) (r : RegistryInner) : Prop :=
  (i < ri_next_instance r)%N /\ leaving (state_at i r) = true.
Lemma host_step_gone natively i n h h' : (n < u64_max)%N -> host_wf natively n h -> host_step natively h h' ->
  gone_for_good i (ho_registry h) -> gone_for_good i (ho_registry h').
Proof.
  intros Hn [_ Hnext _] Hs [Hi Hl]. destruct Hs as [d target r w qs record effects r' E|j c r w qs effects r' E|f pre j e rest post r w queue r' w' _ E];
    cbn [ho_registry] in *.
  - unfold open in E. destruct (already_open d r); [done|]. injection E as <- <- <-. unfold gone_for_good, state_at.
    cbn [ri_next_instance ri_instances]. rewrite next_u64_small, lookup_insert_ne by lia. split; [lia|done].
  - destruct (command_touches _ _ _ _ _ E) as (_ & Hsame & _). split; [by rewrite Hsame|]. eapply command_leaves; [done|by right].
  - destruct (execute_touches _ _ _ _ _ _ _ _ _ E) as ((_ & Hsame & _) & _). split; [by rewrite Hsame|]. by eapply execute_leaves.
Qed.
Lemma host_steps_gone natively i m n h h' : nsteps (host_step natively) m h h' -> (n + N.of_nat m <= u64_max)%N -> host_wf natively n h ->
  gone_for_good i (ho_registry h) -> gone_for_good i (ho_registry h').
Proof.
  intros H. revert n. induction H as [h|m h h1 h2 H1 _ IH]; intros n Hn Hh Hg; [done|].
  apply (IH (n + 1)%N); [lia|eapply host_step_wf; [lia|done|done]|eapply host_step_gone; [|done|done|done]; lia].
Qed.
Lemma coherent_gone f s w : leaving s = true -> coherent f s w [] -> s = None /\ holds f w None.
Proof.
  destruct s as [s|]; [|by intros _ [? _]]. destruct s; cbn; try done; [destruct close_requested; [|done]; intros _ [[_ ?]|[_ ?]]; done
    |by intros _ [_ ?]|by intros _ [_ ?]].
Qed.

(** C33: After a close was accepted, whatever calls follow, the running calls finish within a number of steps fixed by their
    effects, whatever the native calls answer, and once they have finished the instance is no longer registered, even if the
    close arrived while the webview was being created or moved and whether that succeeded or failed.  Its webview is gone
    too, unless a native call that was to destroy it failed: then the host only logged it. *)
Theorem accepted_close_removes natively k h i effects r' m h' j h'' :
  nsteps (host_step natively) k new_host h -> command i Close (ho_registry h) = (Ok effects, r') ->
  nsteps (host_step natively) m {| ho_registry := r'; ho_webviews := ho_webviews h; ho_queues := (i, effects) :: ho_queues h |} h' ->
  nsteps (turn natively) j h' h'' -> (N.of_nat (k + 1 + m + j) <= u64_max)%N ->
  j <= host_weight h'
  /\ (~ drained h'' -> forall answer, exists next, turn (fun _ _ given => given = answer) h'' next)
  /\ (drained h'' -> ri_instances (ho_registry h'') !! i = None
      /\ (ho_webviews h'' !! i = None \/ exists operation reason, natively i (DestroyWebview operation) (NativeFailed reason false))).
Proof.
  intros H Hc Hm Hj Hn. split_and!; [apply turns_weight in Hj; lia|intros Hd answer; by apply (undrained_turns answer)|]. intros Hd.
  destruct (host_steps_wf _ _ 0 _ _ H (new_host_wf natively)) as [Hh Hnext Hids]; [lia|]. rewrite N.add_0_l in *.
  set (h1 := {| ho_registry := r'; ho_webviews := ho_webviews h; ho_queues := (i, effects) :: ho_queues h |}) in *.
  assert (Hs : host_step natively h h1) by (destruct h; by econstructor).
  assert (H1 : host_wf natively (N.of_nat k + 1) h1) by (eapply host_step_wf; [|split; [done..]|done]; lia).
  assert (Hg : gone_for_good i (ho_registry h1)).
  { split; [|by eapply command_leaves; [done|left]]. cbn [h1 ho_registry]. destruct (command_touches _ _ _ _ _ Hc) as (_ & -> & _).
    apply Hids. unfold command in Hc. destruct (ri_instances (ho_registry h) !! i); [eauto|done]. }
  assert (Hall : nsteps (host_step natively) (m + j) h1 h'').
  { eapply nsteps_trans; [done|]. clear -Hj. induction Hj; [constructor|]. econstructor; [by apply turn_step|done]. }
  assert (Hl : gone_for_good i (ho_registry h'')) by (eapply host_steps_gone; [exact Hall| |exact H1|exact Hg]; lia). destruct Hl as [_ Hl].
  destruct (host_steps_wf _ _ _ _ _ Hall H1) as [Hw _ _]; [lia|]. destruct (Hw i) as (pending & f & Hf & Hq & Hco).
  rewrite (drained_ops _ i Hd) in Hq. destruct pending; [|done]. destruct (coherent_gone _ _ _ Hl Hco) as [Hs' Hv].
  split; [by apply fmap_None in Hs'|]. destruct f as [[]|]; [by right| |by left]. cbn in Hv.
  left. apply eq_None_not_Some. intros Hsome%Hv. by destruct Hsome.
Qed.
Notation closing_in_progress := {| ho_registry := (command 0 Close (open sample_surface MountWindowed empty_registry).2).2; ho_webviews := ∅; ho_queues := (0%N, []) :: ho_queues open_in_progress |} (only parsing).
Notation closing_settled := {| ho_registry := (complete 0 (CompletionClosed 1) (complete 0 (CompletionOpened 0 (Ok MountWindowed)) (command 0 Close (open sample_surface MountWindowed empty_registry).2).2).2).2; ho_webviews := delete 0%N {[0%N := MountWindowed]}; ho_queues := [(0%N, []); (0%N, [])] |} (only parsing).
(** A close that arrives while the window is being created: it is destroyed as soon as it exists. *)
Lemma closing_turns : nsteps (turn all_done) 3 closing_in_progress closing_settled.
Proof.
  econstructor; [by apply (turn_execute _ NativeDone [(0%N, [])] 0 (CreateWebview MountWindowed 0) [] [])|].
  econstructor; [by apply (turn_execute _ NativeDone [(0%N, [])] 0 (DestroyWebview 1) [] [])|].
  econstructor; [by apply (turn_execute _ NativeDone [(0%N, [])] 0 (EmitEvent (EventClosed 0)) [] [])|constructor].
Qed.
Lemma accepted_close_removes_witness :
  ho_webviews closing_settled !! 0%N = None /\ is_Some (ri_instances (ho_registry open_in_progress) !! 0%N).
Proof.
  split; [|by eexists].
  destruct (accepted_close_removes all_done 1 open_in_progress 0 [] (ho_registry closing_in_progress) 0 closing_in_progress 3 closing_settled)
    as (_ & _ & H); [exact opening_steps|reflexivity|constructor|exact closing_turns|done|].
  destruct H as [_ [H|(? & ? & H)]]; [by repeat constructor|exact H|discriminate H].
Defined.

(** *** Natively failed *)

(** A destruction that fails: the instance is closed, its webview stays, and no call knows it any more. *)
Theorem failed_destroy_leaves_webview (reason : string) :
  exists h, nsteps (turn (fun _ _ _ => True)) 3 closing_in_progress h /\ drained h /\ ri_instances (ho_registry h) !! 0%N = None
  /\ ho_webviews h !! 0%N = Some MountWindowed /\ forall c, (command 0 c (ho_registry h)).1 = Err (UnknownInstance 0).
Proof.
  eexists. split.
  - econstructor; [by apply (turn_execute _ NativeDone [(0%N, [])] 0 (CreateWebview MountWindowed 0) [] [])|].
    econstructor; [by apply (turn_execute _ (NativeFailed reason false) [(0%N, [])] 0 (DestroyWebview 1) [] [])|].
    econstructor; [by apply (turn_execute _ NativeDone [(0%N, [])] 0 (EmitEvent (EventClosed 0)) [] [])|constructor].
  - split_and!; [by repeat constructor|done|done|done].
Qed.
(** A popout that fails after the webview moved: the instance says embedded, the webview is in a window. *)
Definition embedded_instance : RegistryInner :=
  (complete 0 (CompletionOpened 0 (Ok MountEmbedded)) (open sample_surface MountEmbedded empty_registry).2).2.
Theorem failed_popout_leaves_window (reason : string) :
  let '(effects, r) := command 0 Popout embedded_instance in
  effects = Ok [Reparent MountWindowed 1]
  /\ let '(queue, r, n) := execute_effect (NativeFailed reason true) 0 (Reparent MountWindowed 1) [] r {[0%N := MountEmbedded]} in
     queue = [EmitEvent (EventMigrateFailed 0 reason)] /\ state_at 0 r = Some (Embedded true 0) /\ n !! 0%N = Some MountWindowed.
Proof. done. Qed.
