(* ===== verification/SurfaceDirectory.v ===== *)
(** * The directory of live surfaces

    The maps of the surface registry always describe the same live instances. *)

From Stdlib Require Import Ascii Sorted.
From stdpp Require Import relations sorting pretty.
From S2P Require Import Prelude RustStr Surface SurfaceLaws.
Local Open Scope ora_scope.

(** ** The registry as a directory of live instances *)

Inductive RegistryCall : Type :=
| CallOpen (definition : SurfaceDefinition) (target : MountTarget)
| CallCommand (instance : SurfaceInstanceId) (c : SurfaceCommand)
| CallComplete (instance : SurfaceInstanceId) (c : SurfaceCompletion)
| CallBind (instance : SurfaceInstanceId) (generation : N).
Definition registry_call (r : RegistryInner) (call : RegistryCall) : RegistryInner :=
  match call with
  | CallOpen definition target => (open definition target r).2
  | CallCommand instance c => (command instance c r).2
  | CallComplete instance c => (complete instance c r).2
  | CallBind instance generation => (bind_workbench_generation instance generation r).2
  end.
Definition registry_run (calls : list RegistryCall) : RegistryInner := foldl registry_call empty_registry calls.
(** What never changes about a live instance. *)
Definition face (record : SurfaceRecord) : SurfaceInstanceId * SurfaceDefinition * string :=
  (sr_instance record, sr_definition record, sr_label record).
Definition faces (r : RegistryInner) : gmap SurfaceInstanceId (SurfaceInstanceId * SurfaceDefinition * string) := face <$> ri_instances r.

Lemma open_label_inj d d' i i' : open_label d i = open_label d' i' -> i = i'.
Proof.
  unfold open_label, workbench_label, remote_label, WORKBENCH_PREFIX, REMOTE_PREFIX.
  destruct (sd_source d), (sd_source d'); cbn; intros [= H]; by apply (inj pretty) in H.
Qed.

Section directory.
Context (policy : PluginId -> InstancePolicy).

(** Every surface a plugin contributes has the same policy. *)
Definition follows_policy (call : RegistryCall) : Prop :=
  match call with CallOpen d _ => instance_policy d = policy (sd_plugin_id d) | _ => True end.
Record registry_wf (n : N) (r : RegistryInner) : Prop := {
  rw_face : forall i j d l, faces r !! i = Some (j, d, l) ->
    j = i /\ (i < ri_next_instance r)%N /\ l = open_label d i /\ instance_policy d = policy (sd_plugin_id d);
  rw_next : (ri_next_instance r <= n)%N;
  rw_label : forall l i, ri_by_label r !! l = Some i <-> exists d, faces r !! i = Some (i, d, l);
  rw_plugin : forall p i, ri_by_plugin r !! p = Some i
    <-> exists d l, faces r !! i = Some (i, d, l) /\ sd_plugin_id d = p /\ instance_policy d = Singleton;
  rw_generations : forall i, is_Some (ri_workbench_generations r !! i) -> is_Some (faces r !! i);
}.
Lemma empty_registry_wf : registry_wf 0 empty_registry.
Proof.
  assert (Hf : forall i, faces empty_registry !! i = None) by (intros i; unfold faces; by rewrite lookup_fmap).
  split; cbn [ri_by_label ri_by_plugin ri_workbench_generations empty_registry ri_next_instance]; try done.
  - intros l i. split; [done|]. intros (d & H). by rewrite Hf in H.
  - intros p i. split; [done|]. intros (d & l & H & _). by rewrite Hf in H.
  - intros i [g H]. by rewrite lookup_empty in H.
Qed.
Lemma registry_wf_ext n r r' : registry_wf n r -> faces r' = faces r -> ri_next_instance r' = ri_next_instance r ->
  ri_by_label r' = ri_by_label r -> ri_by_plugin r' = ri_by_plugin r ->
  (forall i, is_Some (ri_workbench_generations r' !! i) -> is_Some (faces r !! i)) -> registry_wf n r'.
Proof. intros [H1 H2 H3 H4 H5] Hf Hn Hl Hp Hg. split; rewrite ?Hf, ?Hn, ?Hl, ?Hp; done. Qed.
Lemma open_registry_wf n d target r : (n < u64_max)%N -> instance_policy d = policy (sd_plugin_id d) ->
  registry_wf n r -> registry_wf (n + 1) (open d target r).2.
Proof.
  intros Hn Hd H. unfold open. destruct (already_open d r) as [record|] eqn:Ho.
  { destruct H as [H1 H2 H3 H4 H5]. split; [done|cbn; lia|done..]. }
  destruct H as [H1 H2 H3 H4 H5]. set (i := ri_next_instance r) in *.
  assert (Hfresh : faces r !! i = None).
  { destruct (faces r !! i) as [[[j d'] l]|] eqn:E; [|done]. apply H1 in E. fold i in E. lia. }
  set (r' := snd _). assert (Hf : faces r' = <[i := (i, d, open_label d i)]> (faces r)) by (unfold faces; cbn; by rewrite fmap_insert).
  assert (Hlive : forall j x, faces r !! j = Some x -> j <> i) by (intros j x Hx ->; by rewrite Hfresh in Hx).
  split; rewrite ?Hf; cbn [r' snd ri_next_instance ri_by_label ri_by_plugin ri_workbench_generations].
  - intros j j' d' l' Hj. rewrite next_u64_small by lia. destruct (decide (j = i)) as [->|Hji].
    + rewrite lookup_insert_eq in Hj. injection Hj as <- <- <-. split_and!; [done|lia|done|done].
    + rewrite lookup_insert_ne in Hj by done. apply H1 in Hj as (-> & Hlt & -> & Hp). fold i in Hlt. split_and!; [done|lia|done|done].
  - rewrite next_u64_small by lia. lia.
  - intros l j. destruct (decide (l = open_label d i)) as [->|Hl].
    + rewrite lookup_insert_eq. split; [intros [= <-]; exists d; by rewrite lookup_insert_eq|]. intros (d' & Hj).
      destruct (decide (j = i)) as [->|Hji]; [done|]. rewrite lookup_insert_ne in Hj by done.
      apply H1 in Hj as (_ & _ & Hj & _). by apply open_label_inj in Hj.
    + rewrite lookup_insert_ne, H3 by done. split; intros (d' & Hj); exists d'.
      * rewrite lookup_insert_ne; [done|]. intros ->. by eapply Hlive.
      * destruct (decide (j = i)) as [->|Hji]; [|by rewrite lookup_insert_ne in Hj]. rewrite lookup_insert_eq in Hj.
        by injection Hj as <- <-.
  - intros p j. assert (Hold : forall j, ri_by_plugin r !! sd_plugin_id d = Some j -> instance_policy d <> Singleton).
    { intros j0 Hj0 Hs. unfold already_open in Ho. rewrite Hs, Hj0 in Ho. cbn [mbind option_bind] in Ho.
      apply H4 in Hj0 as (d0 & l0 & Hj0 & _). unfold faces in Hj0. rewrite lookup_fmap, Ho in Hj0. done. }
    assert (Hrest : (exists d' l, <[i:=(i, d, open_label d i)]> (faces r) !! j = Some (j, d', l) /\ sd_plugin_id d' = p /\ instance_policy d' = Singleton)
      <-> (j = i /\ sd_plugin_id d = p /\ instance_policy d = Singleton) \/ ri_by_plugin r !! p = Some j).
    { rewrite H4. split.
      - intros (d' & l & Hj & Hp & Hs). destruct (decide (j = i)) as [->|Hji].
        + rewrite lookup_insert_eq in Hj. injection Hj as <- <-. by left.
        + rewrite lookup_insert_ne in Hj by done. right. by exists d', l.
      - intros [(-> & Hp & Hs)|(d' & l & Hj & Hp & Hs)].
        + exists d, (open_label d i). by rewrite lookup_insert_eq.
        + exists d', l. rewrite lookup_insert_ne; [done|]. intros ->. by eapply Hlive. }
    rewrite Hrest. destruct (instance_policy d) eqn:Hs; [|split; [by right|by intros [(_ & _ & ?)|?]]].
    destruct (decide (p = sd_plugin_id d)) as [->|Hp].
    + rewrite lookup_insert_eq. split; [intros [= <-]; by left|]. intros [(-> & _)|Hj]; [done|]. by apply Hold in Hj.
    + rewrite lookup_insert_ne by done. split; [by right|]. by intros [(_ & ? & _)|?].
  - intros j Hj. destruct (decide (j = i)) as [->|Hji]; [by rewrite lookup_insert_eq|]. rewrite lookup_insert_ne by done. by apply H5.
Qed.
Lemma settle_faces i t r record : ri_instances r !! i = Some record ->
  faces (settle_transition i t r) = match tr_next t with Some _ => faces r | None => delete i (faces r) end.
Proof.
  intros Hi. unfold settle_transition, faces. rewrite Hi. destruct (tr_next t) as [s|]; cbn [ri_instances]; [|by rewrite fmap_delete].
  rewrite fmap_insert. apply insert_id. by rewrite lookup_fmap, Hi.
Qed.
Lemma settle_registry_wf n i t k r record : ri_instances r !! i = Some record -> registry_wf n r ->
  registry_wf n (settle_transition i t (set_next_operation k r)).
Proof.
  intros Hi H. pose proof (settle_faces i t (set_next_operation k r) record Hi) as Hf. unfold settle_transition in *. cbn [ri_instances set_next_operation] in *. rewrite Hi in *.
  destruct (tr_next t) as [s|]; [by eapply registry_wf_ext; [exact H|exact Hf|reflexivity..|apply H]|].
  destruct H as [H1 H2 H3 H4 H5]. change (faces (set_next_operation k r)) with (faces r) in Hf.
  assert (Hr : faces r !! i = Some (face record)) by (unfold faces; by rewrite lookup_fmap, Hi).
  destruct (H1 _ _ _ _ Hr) as (Hid & Hlt & Hlabel & Hpol). unfold face in Hr. rewrite Hid in Hr.
  assert (Hd : forall j x, delete i (faces r) !! j = Some x <-> j <> i /\ faces r !! j = Some x).
  { intros j x. rewrite lookup_delete_Some. naive_solver. }
  split; rewrite ?Hf; cbn [ri_next_instance ri_by_label ri_by_plugin ri_workbench_generations].
  - intros j j' d l [_ Hj]%Hd. by apply H1 in Hj.
  - done.
  - intros l j. rewrite lookup_delete_Some, H3. split.
    + intros [Hl (d & Hj)]. exists d. apply Hd. split; [|done]. intros ->. rewrite Hr in Hj. by injection Hj.
    + intros (d & [Hne Hj]%Hd). split; [|by exists d]. intros <-. apply H1 in Hj as (_ & _ & Hj & _). rewrite Hlabel in Hj.
      by apply open_label_inj in Hj.
  - intros p j. rewrite lookup_delete_Some. split.
    + intros [Hp (d & l & Hj & Hd' & Hs)%H4]. exists d, l. split; [|done]. apply Hd. split; [|done]. intros ->. rewrite Hr in Hj.
      injection Hj as <- _. done.
    + intros (d & l & [Hne Hj]%Hd & Hd' & Hs). assert (Hp : ri_by_plugin r !! p = Some j) by (apply H4; by exists d, l). split; [|done].
      intros <-. destruct (H1 _ _ _ _ Hj) as (_ & _ & _ & Hj'). rewrite Hd', <- Hpol, Hs in Hj'.
      assert (Hi' : ri_by_plugin r !! sd_plugin_id (sr_definition record) = Some i) by (apply H4; by exists (sr_definition record), (sr_label record)).
      rewrite Hi' in Hp. by injection Hp.
  - intros j Hj. destruct (decide (j = i)) as [->|Hne]; [by rewrite lookup_delete_eq in Hj; destruct Hj|].
    rewrite lookup_delete_ne in Hj by done. rewrite lookup_delete_ne by done. by apply H5.
Qed.
Lemma registry_call_wf n r call : (n < u64_max)%N -> follows_policy call -> registry_wf n r -> registry_wf (n + 1) (registry_call r call).
Proof.
  intros Hn Hp H. assert (Hlater : forall r', registry_wf n r' -> registry_wf (n + 1) r').
  { intros r' [H1 H2 H3 H4 H5]. split; [done|lia|done..]. }
  destruct call as [d target|i c|i c|i g]; cbn [registry_call follows_policy] in *; [by apply open_registry_wf|apply Hlater..].
  - unfold command. destruct (ri_instances r !! i) as [record|] eqn:Hi; [|done].
    destruct (apply_command _ _ _ _) as [[t k]|]; [|done]. by eapply settle_registry_wf.
  - unfold complete. destruct (ri_instances r !! i) as [record|] eqn:Hi; [|done].
    destruct (apply_completion _ _ _ _ _) as [[t k]|]; [|done]. by eapply settle_registry_wf.
  - unfold bind_workbench_generation. destruct (ri_instances r !! i) as [record|] eqn:Hi; [|done].
    eapply registry_wf_ext; [exact H|reflexivity..|]. cbn [snd ri_workbench_generations]. intros j Hj.
    destruct (decide (j = i)) as [->|Hne]; [|rewrite lookup_insert_ne in Hj by done; by apply H].
    unfold faces. rewrite lookup_fmap, Hi. by eexists.
Qed.
Lemma registry_run_wf calls : Forall follows_policy calls -> (N.of_nat (length calls) <= u64_max)%N ->
  registry_wf (N.of_nat (length calls)) (registry_run calls).
Proof.
  unfold registry_run. intros Hc. enough (Hgo : forall n r, registry_wf n r -> (n + N.of_nat (length calls) <= u64_max)%N ->
    registry_wf (n + N.of_nat (length calls)) (foldl registry_call r calls)) by (intros Hl; apply (Hgo 0%N); [apply empty_registry_wf|lia]).
  induction Hc as [|call calls Hp _ IH]; intros n r Hr Hl; cbn [foldl length] in *; [by rewrite N.add_0_r|].
  replace (n + N.of_nat (S (length calls)))%N with (n + 1 + N.of_nat (length calls))%N by lia.
  apply IH; [|lia]. apply registry_call_wf; [lia|done|done].
Qed.

Lemma face_lookup n r i record : registry_wf n r -> ri_instances r !! i = Some record ->
  sr_instance record = i /\ faces r !! i = Some (i, sr_definition record, sr_label record).
Proof.
  intros H Hi. assert (Hf : faces r !! i = Some (face record)) by (unfold faces; by rewrite lookup_fmap, Hi).
  destruct (rw_face _ _ H _ _ _ _ Hf) as [Hid _]. split; [done|]. rewrite Hf. unfold face. by rewrite Hid.
Qed.
Lemma resolve_label_live n r label record : registry_wf n r ->
  resolve_label label r = Some record <-> ri_instances r !! sr_instance record = Some record /\ sr_label record = label.
Proof.
  intros H. unfold resolve_label. split.
  - intros (i & Hl & Hi)%bind_Some. apply (rw_label _ _ H) in Hl as (d & Hd). destruct (face_lookup _ _ _ _ H Hi) as [-> Hf].
    split; [done|]. rewrite Hd in Hf. by injection Hf.
  - intros [Hi <-]. destruct (face_lookup _ _ _ _ H Hi) as [_ Hf].
    assert (Hl : ri_by_label r !! sr_label record = Some (sr_instance record)) by (apply (rw_label _ _ H); by eexists).
    by rewrite Hl.
Qed.
Lemma already_open_live n r d record : registry_wf n r ->
  already_open d r = Some record
  <-> instance_policy d = Singleton /\ ri_instances r !! sr_instance record = Some record
      /\ sd_plugin_id (sr_definition record) = sd_plugin_id d /\ instance_policy (sr_definition record) = Singleton.
Proof.
  intros H. unfold already_open. split.
  - destruct (instance_policy d) eqn:Hs; [|done]. intros (i & Hp & Hi)%bind_Some.
    apply (rw_plugin _ _ H) in Hp as (d' & l & Hd & Hp & Hs'). destruct (face_lookup _ _ _ _ H Hi) as [-> Hf].
    rewrite Hd in Hf. by injection Hf as -> _.
  - intros (-> & Hi & Hp & Hs). destruct (face_lookup _ _ _ _ H Hi) as [_ Hf].
    assert (Hl : ri_by_plugin r !! sd_plugin_id d = Some (sr_instance record)) by (apply (rw_plugin _ _ H); by do 2 eexists).
    by rewrite Hl.
Qed.
End directory.

Definition live (r : RegistryInner) (record : SurfaceRecord) : Prop := ri_instances r !! sr_instance record = Some record.
#[export] Instance record_le_trans : Transitive record_le.
Proof. intros a b c. unfold record_le. lia. Qed.
#[export] Instance record_le_total : Total record_le.
Proof. intros a b. unfold record_le. lia. Qed.
Lemma sorted_records (l : list SurfaceRecord) :
  NoDup (sr_instance <$> l) -> StronglySorted N.lt (sr_instance <$> merge_sort record_le l).
Proof.
  intros Hnd. pose proof (StronglySorted_merge_sort record_le l) as Hs. rewrite <- (merge_sort_Permutation record_le l) in Hnd.
  induction Hs as [|a l' Hl IH Ha]; [constructor|]. rewrite fmap_cons in *. apply NoDup_cons in Hnd as [Hnot Hnd].
  constructor; [by apply IH|]. apply Forall_fmap, Forall_forall. intros b Hb. rewrite Forall_forall in Ha. specialize (Ha b Hb).
  unfold record_le in Ha. cbn. enough (sr_instance a <> sr_instance b) by lia. intros E. apply Hnot. rewrite E. by apply list_elem_of_fmap_2.
Qed.
Section listings.
Context (policy : PluginId -> InstancePolicy) (n : N) (r : RegistryInner) (H : registry_wf policy n r).
Lemma live_records record : record ∈ (map_to_list (ri_instances r)).*2 <-> live r record.
Proof.
  rewrite list_elem_of_fmap. split.
  - intros ([i record'] & -> & Hi%elem_of_map_to_list). unfold live. cbn. by destruct (face_lookup _ _ _ _ _ H Hi) as [-> _].
  - intros Hl. exists (sr_instance record, record). split; [done|]. by apply elem_of_map_to_list.
Qed.
Lemma live_instances_nodup : NoDup (sr_instance <$> (map_to_list (ri_instances r)).*2).
Proof.
  assert (E : sr_instance <$> (map_to_list (ri_instances r)).*2 = (map_to_list (ri_instances r)).*1); [|rewrite E; apply NoDup_fst_map_to_list].
  rewrite <- list_fmap_compose. apply list_fmap_ext. intros k [i record] Hk. apply list_elem_of_lookup_2, elem_of_map_to_list in Hk.
  cbn. by destruct (face_lookup _ _ _ _ _ H Hk) as [-> _].
Qed.
Lemma snapshot_sorted : StronglySorted N.lt (sr_instance <$> snapshot r).
Proof. apply sorted_records, live_instances_nodup. Qed.
Lemma instances_of_sorted p : StronglySorted N.lt (sr_instance <$> instances_of p r).
Proof.
  apply sorted_records. eapply (sublist_NoDup _ _ live_instances_nodup), fmap_sublist, sublist_filter.
Qed.
Lemma live_singleton p q : live r p -> live r q -> sd_plugin_id (sr_definition p) = sd_plugin_id (sr_definition q) ->
  instance_policy (sr_definition p) = Singleton -> p = q.
Proof.
  intros Hp Hq Hid Hs. destruct (face_lookup _ _ _ _ _ H Hp) as [_ Fp]. destruct (face_lookup _ _ _ _ _ H Hq) as [_ Fq].
  assert (Hs' : instance_policy (sr_definition q) = Singleton).
  { destruct (rw_face _ _ _ H _ _ _ _ Fp) as (_ & _ & _ & E1). destruct (rw_face _ _ _ H _ _ _ _ Fq) as (_ & _ & _ & E2). by rewrite E2, <- Hid, <- E1. }
  assert (E1 : ri_by_plugin r !! sd_plugin_id (sr_definition q) = Some (sr_instance p)) by (apply (rw_plugin _ _ _ H); by do 2 eexists).
  assert (E2 : ri_by_plugin r !! sd_plugin_id (sr_definition q) = Some (sr_instance q)) by (apply (rw_plugin _ _ _ H); by do 2 eexists).
  rewrite E1 in E2. injection E2 as E. unfold live in *. rewrite E in Hp. rewrite Hp in Hq. by injection Hq.
Qed.
End listings.

(** When all surfaces a plugin contributes have one policy, then after any calls a label resolves to the live instance it was
    made for and to nothing else, an open is refused exactly for a singleton that is live, at most one instance of a singleton is
    live, and the listings hold every live instance once, in the order of their identifiers. *)
Theorem directory_spec policy calls :
  Forall (follows_policy policy) calls -> (N.of_nat (length calls) <= u64_max)%N ->
  let r := registry_run calls in
  (forall label record, resolve_label label r = Some record <-> live r record /\ sr_label record = label)
  /\ (forall definition target record, (open definition target r).1 = Err record
        <-> instance_policy definition = Singleton /\ live r record
            /\ sd_plugin_id (sr_definition record) = sd_plugin_id definition /\ instance_policy (sr_definition record) = Singleton)
  /\ (forall p q, live r p -> live r q -> sd_plugin_id (sr_definition p) = sd_plugin_id (sr_definition q) ->
        instance_policy (sr_definition p) = Singleton -> p = q)
  /\ (forall record, record ∈ snapshot r <-> live r record) /\ StronglySorted N.lt (sr_instance <$> snapshot r)
  /\ (forall plugin record, record ∈ instances_of plugin r <-> live r record /\ sd_plugin_id (sr_definition record) = plugin)
  /\ (forall plugin, StronglySorted N.lt (sr_instance <$> instances_of plugin r)).
Proof.
  intros Hc Hl r. pose proof (registry_run_wf _ _ Hc Hl) as H. fold r in H. split_and!.
  - intros label record. by apply (resolve_label_live policy (N.of_nat (length calls))).
  - intros d target record. unfold live. rewrite <- (already_open_live _ _ _ _ _ H). unfold open. destruct (already_open d r); cbn; [|done].
    split; [by intros [= ->]|by intros [= ->]].
  - by eapply live_singleton.
  - intros record. unfold snapshot. rewrite (merge_sort_Permutation record_le _). by eapply live_records.
  - by eapply snapshot_sorted.
  - intros plugin record. unfold instances_of. rewrite (merge_sort_Permutation record_le _), list_elem_of_filter.
    rewrite (live_records _ _ _ H). tauto.
  - intros plugin. by eapply instances_of_sorted.
Qed.
Notation sample_site := {| sd_plugin_id := "official/hub"; sd_title := "Hub"; sd_source := RemoteSiteSource {| rd_start_url := {| url_scheme := "https"; url_username := ""; url_password := None; url_host_str := Some "hub.example"; url_port := None; url_path := "/"; url_query := None; url_fragment := None; url_origin := "https://hub.example" |}; rd_navigation := RemoteSitePolicy []; rd_download_policy := {| dp_rules := []; dp_fallback := RejectDisposition |} |} |} (only parsing).
(** A second open of a site is answered with the first instance. *)
Lemma directory_spec_witness :
  exists record, (open sample_site MountWindowed (registry_run [CallOpen sample_site MountEmbedded])).1 = Err record
    /\ resolve_label "remote-webview:0" (registry_run [CallOpen sample_site MountEmbedded]) = Some record.
Proof.
  destruct (directory_spec (fun _ => Singleton) [CallOpen sample_site MountEmbedded] ltac:(by repeat constructor) ltac:(done)) as (Hl & Ho & _).
  exists {| sr_instance := 0; sr_definition := sample_site; sr_label := "remote-webview:0"; sr_state := Opening MountEmbedded 0 0 false |}.
  split; [apply Ho; split_and!; vm_compute; reflexivity|apply Hl; split; vm_compute; reflexivity].
Defined.
(** When the policy of a plugin changes between two opens, closing the instance that may be open several times frees the name of
    the one that may not. *)
Notation workbench_of_hub := {| sd_plugin_id := "official/hub"; sd_title := "Hub"; sd_source := WorkbenchSource {| wd_asset_root := "/"; wd_page_entry := "index.html"; wd_declared_methods := [] |} |} (only parsing).
Lemma changed_policy_opens_twice :
  let r := registry_run [CallOpen sample_site MountWindowed; CallOpen workbench_of_hub MountWindowed;
                         CallComplete 1 (CompletionOpened 1 (Err "no display")); CallCommand 1 Close; CallOpen sample_site MountWindowed] in
  (fun record => (sr_instance record, instance_policy (sr_definition record))) <$> instances_of "official/hub" r = [(0%N, Singleton); (2%N, Singleton)].
Proof. by vm_compute. Qed.
