(* ===== verification/SurfaceSites.v ===== *)
(** * What a site may do

    The pages a site may move to and the lifecycle of its downloads. *)

From Stdlib Require Import Ascii.
From S2P Require Import Prelude RustStr Surface.
Local Open Scope ora_scope.

(** ** The boundary of navigations *)

Section navigation.
Context {urls : UrlParser}.

(** A page of an allowed origin, below any number of [blob:] layers. *)
Inductive permitted (allowed_origins : list Origin) : Url -> Prop :=
| permitted_page u : url_scheme u = "https" -> url_username u = "" -> url_password u = None -> url_origin u ∈ allowed_origins ->
    permitted allowed_origins u
| permitted_blob u inner : url_scheme u = "blob" -> url_parse (url_path u) = Some inner -> permitted allowed_origins inner ->
    permitted allowed_origins u.
Lemma existsb_origin origins u : existsb (fun origin => origin_matches origin u) origins = true <-> url_origin u ∈ origins.
Proof.
  rewrite existsb_exists. unfold origin_matches. split.
  - intros (o & Ho & E%bool_decide_eq_true_1). rewrite E. by apply list_elem_of_In.
  - intros H. exists (url_origin u). split; [by apply list_elem_of_In|by apply bool_decide_eq_true_2].
Qed.
Lemma allows_within_permitted fuel origins u b :
  allows_within fuel (RemoteSitePolicy origins) u = Some b -> b = true <-> permitted origins u.
Proof.
  revert u. induction fuel as [|fuel IH]; intros u; cbn [allows_within]; case_bool_decide as Hb; try done.
  2: destruct (url_parse (url_path u)) as [inner|] eqn:Hp; [intros H; rewrite (IH _ H)|intros [= <-]].
  2: split; [by apply permitted_blob|]; inversion 1; [congruence|].
  2: match goal with H : url_parse _ = Some _ |- _ => rewrite Hp in H; by injection H as -> end.
  2: split; [done|]; inversion 1; congruence.
  all: destruct (bool_decide (url_scheme u = "https")) eqn:E1; [apply bool_decide_eq_true_1 in E1|apply bool_decide_eq_false_1 in E1];
    (destruct (bool_decide (url_username u = "")) eqn:E2; [apply bool_decide_eq_true_1 in E2|apply bool_decide_eq_false_1 in E2]);
    (destruct (bool_decide (url_password u = None)) eqn:E3; [apply bool_decide_eq_true_1 in E3|apply bool_decide_eq_false_1 in E3]);
    cbn [negb orb]; intros [= <-]; try rewrite existsb_origin; (split; [try done; by apply permitted_page|]; inversion 1; congruence).
Qed.
Lemma permitted_nil u : ~ permitted [] u.
Proof. induction 1; [by eapply not_elem_of_nil|done]. Qed.
(** [canonical] are the URLs the parser gives: peeling a [blob:] layer off one shortens its path. *)
Context (canonical : Url -> Prop).
Context (parse_canonical : forall s u, url_parse s = Some u -> canonical u).
Context (blob_shrinks : forall u inner, canonical u -> url_scheme u = "blob" -> url_parse (url_path u) = Some inner ->
  String.length (url_path inner) < String.length (url_path u)).
Lemma allows_within_total fuel policy u : canonical u -> String.length (url_path u) < fuel -> is_Some (allows_within fuel policy u).
Proof.
  revert u. induction fuel as [|fuel IH]; intros u Hc Hl; [lia|]. cbn [allows_within]. destruct policy; [|by eexists].
  case_bool_decide as Hb; [|by destruct (_ || _)]. destruct (url_parse (url_path u)) as [inner|] eqn:Hp; [|by eexists].
  apply IH; [by eapply parse_canonical|]. specialize (blob_shrinks _ _ Hc Hb Hp). lia.
Qed.

(** For a site the boundary decides every navigation to a parsed address, and it lets through exactly the [https] pages without
    credentials whose origin is declared, and [blob:] addresses that such a page minted; a site without origins may go nowhere. *)
Theorem navigation_boundary origins u :
  canonical u ->
  exists b, allows (RemoteSitePolicy origins) u = Some b /\ (b = true <-> permitted origins u) /\ (origins = [] -> b = false).
Proof.
  intros Hc. destruct (allows_within_total (S (String.length (url_path u))) (RemoteSitePolicy origins) u Hc ltac:(lia)) as [b Hb].
  exists b. pose proof (allows_within_permitted _ _ _ _ Hb) as Hp. split_and!; [done|done|]. intros ->. apply not_true_is_false. rewrite Hp.
  apply permitted_nil.
Qed.
End navigation.
(** A parser of two addresses. *)
Notation page_url scheme path origin := {| url_scheme := scheme; url_username := ""; url_password := None; url_host_str := None; url_port := None; url_path := path; url_query := None; url_fragment := None; url_origin := origin |} (only parsing).
Definition sample_parser : UrlParser := fun s =>
  if bool_decide (s = "https://a.example/1") then Some (page_url "https" "/1" "https://a.example")
  else if bool_decide (s = "blob:https://a.example/1") then Some (page_url "blob" "https://a.example/1" "null")
  else None.
Lemma navigation_boundary_witness :
  exists b, @allows sample_parser (RemoteSitePolicy ["https://a.example"]) (page_url "blob" "https://a.example/1" "null") = Some b /\ b = true.
Proof.
  destruct (@navigation_boundary sample_parser (fun u => u = page_url "https" "/1" "https://a.example" \/ u = page_url "blob" "https://a.example/1" "null")) with
    (origins := ["https://a.example"]) (u := page_url "blob" "https://a.example/1" "null") as (b & Hb & Hp & _).
  - intros s u. unfold url_parse, sample_parser. do 2 (case_bool_decide; [intros [= <-]; tauto|]). done.
  - intros u inner [->| ->]; [done|]. cbn [url_path]. vm_compute. intros _ [= <-]. vm_compute. lia.
  - by right.
  - exists b. split; [exact Hb|]. apply Hp. eapply permitted_blob; [done|by vm_compute|]. apply permitted_page; try done. apply list_elem_of_here.
Defined.

(** ** Downloads of a site *)

Section downloads.
Context {urls : UrlParser} {utf8 : Utf8}.

(** What the decoder guarantees of a disposition. *)
Definition disposition_ok (d : DownloadDisposition) : Prop :=
  match d with
  | AutoDisposition action => action = ImportSkill
  | PromptDisposition actions => actions <> [] /\ NoDup actions
  | RejectDisposition => True
  end.
Definition offered (d : DownloadDisposition) (a : DownloadAction) : Prop :=
  match d with AutoDisposition action => a = action | PromptDisposition actions => a ∈ actions | RejectDisposition => False end.
Lemma prompt_actions_nodup actions parsed l : prompt_actions parsed actions = Ok l -> NoDup parsed ->
  NoDup l /\ length l = length parsed + length actions.
Proof.
  revert parsed. induction actions as [|x actions IH]; intros parsed; cbn [prompt_actions]; [intros [= <-] H; cbn; split; [done|lia]|].
  intros (a & _ & (_ & Hd%reject_if_Ok & H)%bind_Ok)%bind_Ok Hn. apply bool_decide_eq_false_1 in Hd.
  destruct (IH _ H) as [? Hl]; [apply NoDup_app; split_and!; [done| |apply NoDup_singleton]; by intros y Hy ->%list_elem_of_singleton|].
  split; [done|]. rewrite Hl, length_app. cbn. lia.
Qed.
Lemma disposition_decodes raw field d : disposition raw field = Ok d -> disposition_ok d.
Proof.
  unfold disposition. intros H%map_err_Ok. destruct (ra_auto raw) as [action|], (ra_prompt raw) as [actions|], (ra_reject raw) as [[]|]; try discriminate H.
  - apply bind_Ok in H as ([|] & _ & H); [by injection H as <-|done].
  - apply bind_Ok in H as (_ & Hne%reject_if_Ok & H). apply bind_Ok in H as (l & H & [= <-]).
    destruct (prompt_actions_nodup _ _ _ H (NoDup_nil_2)) as [Hd Hl]. apply bool_decide_eq_false_1 in Hne.
    split; [|done]. intros ->. cbn in Hl. by destruct actions.
  - by injection H as <-.
Qed.
Lemma decode_rule_ok x rule : decode_rule x = Ok rule -> disposition_ok (dr_disposition rule).
Proof.
  destruct x as [index raw]. unfold decode_rule. intros (o & _ & (p & _ & (d & Hd & [= <-])%bind_Ok)%bind_Ok)%bind_Ok.
  by eapply disposition_decodes.
Qed.
Lemma decode_webview_ok raw w : decode_webview raw = Ok w ->
  disposition_ok (dp_fallback (pw_downloads w)) /\ Forall (fun rule => disposition_ok (dr_disposition rule)) (dp_rules (pw_downloads w)).
Proof.
  unfold decode_webview. intros (u & _ & (_ & _ & (os & _ & (downloads & Hd & [= <-])%bind_Ok)%bind_Ok)%bind_Ok)%bind_Ok. cbn [pw_downloads].
  destruct (rw_downloads raw) as [rd|]; [|injection Hd as <-; by split]. unfold decode_downloads in Hd.
  apply bind_Ok in Hd as (fallback & Hf & (rules & Hr & [= <-])%bind_Ok). cbn. split.
  - destruct (rd_fallback rd); [by eapply disposition_decodes|by injection Hf as <-].
  - apply traverse_Ok in Hr. apply Forall_forall. intros rule Hin. apply list_elem_of_lookup_1 in Hin as [k Hk].
    destruct (Forall2_lookup_r _ _ _ _ _ Hr Hk) as (x & _ & Hx). by eapply decode_rule_ok.
Qed.
Lemma chosen_disposition_ok policy u :
  disposition_ok (dp_fallback policy) -> Forall (fun rule => disposition_ok (dr_disposition rule)) (dp_rules policy) ->
  disposition_ok (disposition_for (select_disposition policy u)).
Proof.
  intros Hf Hr. unfold select_disposition. set (d := match find_first _ _ with Some rule => _ | None => _ end).
  assert (Hd : disposition_ok d); [|by destruct d].
  subst d. destruct (find_first _ _) as [rule|] eqn:E; [|done]. apply find_first_Some in E as [Hin _].
  rewrite Forall_forall in Hr. by apply Hr.
Qed.

Inductive DownloadCall : Type :=
| CallLanded
| CallChoose (action : DownloadAction)
| CallDiscard
| CallSettle (outcome : DownloadOutcome)
| CallFail (reason : string).
Definition call_outcome (d : ManagedDownload) (call : DownloadCall) : result DownloadTransitionError ManagedDownload :=
  match call with
  | CallLanded => landed d
  | CallChoose action => choose action d
  | CallDiscard => discard d
  | CallSettle outcome => settle_download outcome d
  | CallFail reason => fail_download reason d
  end.
(** A refused transition leaves the download as it is. *)
Definition download_call (d : ManagedDownload) (call : DownloadCall) : ManagedDownload :=
  match call_outcome d call with Ok d' => d' | Err _ => d end.
Definition download_run (d : ManagedDownload) (calls : list DownloadCall) : ManagedDownload := foldl download_call d calls.
(** Every time a call is accepted and an action is to run: the host runs it then. *)
Fixpoint action_starts (d : ManagedDownload) (calls : list DownloadCall) : list (DownloadIntent * DownloadAction) :=
  match calls with
  | [] => []
  | c :: calls =>
      match call_outcome d c with Ok (ProcessingDownload intent a) => [(intent, a)] | _ => [] end
      ++ action_starts (download_call d c) calls
  end.
Lemma settled_starts_none intent outcome calls : action_starts (SettledDownload intent outcome) calls = [].
Proof. induction calls as [|c calls IH]; [done|]. cbn [action_starts]. by destruct c; cbn. Qed.
Lemma processing_starts_none intent a calls : action_starts (ProcessingDownload intent a) calls = [].
Proof.
  induction calls as [|c calls IH]; [done|]. cbn [action_starts]. destruct c; cbn; try exact IH. apply settled_starts_none.
Qed.
Lemma awaiting_starts_one intent actions calls :
  action_starts (AwaitingChoice intent actions) calls = []
  \/ exists a, action_starts (AwaitingChoice intent actions) calls = [(intent, a)] /\ a ∈ actions /\ CallChoose a ∈ calls.
Proof.
  induction calls as [|c calls IH]; [by left|]. cbn [action_starts].
  assert (Hrest : action_starts (AwaitingChoice intent actions) calls = []
    \/ exists a, action_starts (AwaitingChoice intent actions) calls = [(intent, a)] /\ a ∈ actions /\ CallChoose a ∈ c :: calls).
  { destruct IH as [?|(a & ? & ? & Hin)]; [by left|right]. exists a. split_and!; [done|done|by right]. }
  unfold download_call. destruct c; cbn [call_outcome landed choose discard settle_download fail_download]; try exact Hrest.
  - destruct (bool_decide (action ∈ actions)) eqn:Ha; cbn; [|exact Hrest]. apply bool_decide_eq_true_1 in Ha.
    right. exists action. rewrite processing_starts_none. split_and!; [done|done|by left].
  - left. cbn. apply settled_starts_none.
Qed.
(** An action starts once, and only one the disposition of the download offers. *)
Lemma staging_starts_one intent calls :
  action_starts (Staging intent) calls = []
  \/ exists a, action_starts (Staging intent) calls = [(intent, a)]
     /\ (di_disposition intent = AutoDisposition a
         \/ (exists actions, di_disposition intent = PromptDisposition actions /\ a ∈ actions) /\ CallChoose a ∈ calls).
Proof.
  induction calls as [|c calls IH]; [by left|]. cbn [action_starts].
  assert (Hrest : action_starts (Staging intent) calls = []
    \/ exists a, action_starts (Staging intent) calls = [(intent, a)]
     /\ (di_disposition intent = AutoDisposition a
         \/ (exists actions, di_disposition intent = PromptDisposition actions /\ a ∈ actions) /\ CallChoose a ∈ c :: calls)).
  { destruct IH as [?|(a & ? & [?|[? ?]])]; [by left|right; exists a; by auto|right]. exists a. split; [done|]. right. split; [done|by right]. }
  unfold download_call. destruct c; cbn [call_outcome landed choose discard settle_download fail_download]; try exact Hrest.
  - destruct (di_disposition intent) as [action|actions|] eqn:E; cbn.
    + right. exists action. rewrite processing_starts_none. by auto.
    + destruct (awaiting_starts_one intent actions calls) as [->|(a & -> & Ha & Hc)]; [by left|right]. exists a. split; [done|]. right.
      split; [by exists actions|by right].
    + left. apply settled_starts_none.
  - left. cbn. apply settled_starts_none.
Qed.
Lemma processing_started d calls intent a :
  download_run d calls = ProcessingDownload intent a -> d = ProcessingDownload intent a \/ (intent, a) ∈ action_starts d calls.
Proof.
  revert d. induction calls as [|c calls IH]; intros d; [by left|]. unfold download_run. cbn [foldl action_starts]. fold (download_run (download_call d c) calls).
  intros [H|H]%IH; [|right; apply elem_of_app; by right]. unfold download_call in H. destruct (call_outcome d c) as [d'|]; [|by left].
  subst d'. right. apply elem_of_app. left. by apply list_elem_of_singleton.
Qed.

(** C35: Whatever calls a download of a site with an accepted manifest meets, an action is started for it at most once, and
    no second choice is accepted while it runs or after: for the intent frozen at its start, one its disposition offers, and
    never the saving of a file that the user has not chosen.  A download that is processing was started that way. *)
Theorem download_runs_one_action raw w intent calls :
  decode_webview raw = Ok w ->
  di_disposition intent = disposition_for (select_disposition (pw_downloads w) (di_initiating_page_url intent)) ->
  length (action_starts (Staging intent) calls) <= 1
  /\ (forall intent' a, (intent', a) ∈ action_starts (Staging intent) calls ->
      intent' = intent /\ offered (di_disposition intent) a /\ (a = SaveAs -> CallChoose SaveAs ∈ calls))
  /\ forall intent' a, download_run (Staging intent) calls = ProcessingDownload intent' a ->
      action_starts (Staging intent) calls = [(intent', a)].
Proof.
  intros Hw Hd.
  assert (Hrun : forall intent' a, download_run (Staging intent) calls = ProcessingDownload intent' a ->
    (intent', a) ∈ action_starts (Staging intent) calls) by (by intros intent' a [|?]%processing_started).
  destruct (staging_starts_one intent calls) as [E|(a & E & Ha)]; rewrite E in *.
  - split_and!; [cbn; lia|by intros ? ? ?%elem_of_nil|]. by intros ? ? ?%Hrun%elem_of_nil.
  - split_and!; [done| |by intros ? ? ->%Hrun%list_elem_of_singleton]. intros intent' b [= -> ->]%list_elem_of_singleton.
    split_and!; [done| |].
    + destruct Ha as [-> |[(actions & -> & Ha) _]]; done.
    + intros ->. destruct Ha as [Hauto|[_ Hc]]; [|done]. destruct (decode_webview_ok _ _ Hw) as [Hf Hr].
      pose proof (chosen_disposition_ok _ (di_initiating_page_url intent) Hf Hr) as Hok. rewrite <- Hd, Hauto in Hok. done.
Qed.
End downloads.
(** A site whose downloads ask the user where to save them. *)
Notation site_url := {| url_scheme := "https"; url_username := ""; url_password := None; url_host_str := Some "a.example"; url_port := None; url_path := "/"; url_query := None; url_fragment := None; url_origin := "https://a.example" |} (only parsing).
Notation site_policy := {| dp_rules := []; dp_fallback := PromptDisposition [SaveAs] |} (only parsing).
Notation site_intent := {| di_download_id := 0; di_instance := 0; di_plugin_id := "official/hub"; di_exact_version := "1.0.0"; di_initiating_page_url := site_url; di_download_url := "https://a.example/f"; di_suggested_file_name := "f"; di_disposition := PromptDisposition [SaveAs] |} (only parsing).
Notation raw_site := {| rw_start_url := "https://a.example/"; rw_allowed_origins := ["https://a.example/"]; rw_downloads := Some {| rd_fallback := Some {| ra_auto := None; ra_prompt := Some ["save_as"]; ra_reject := None |}; rd_rules := [] |} |} (only parsing).
Definition site_parser : UrlParser := fun s => if bool_decide (s = "https://a.example/") then Some site_url else None.
Definition any_text : Utf8 := fun _ => true.
Lemma download_runs_one_action_witness :
  action_starts (Staging site_intent) [CallLanded; CallChoose ImportSkill; CallChoose SaveAs; CallChoose SaveAs] = [(site_intent, SaveAs)].
Proof.
  destruct (@download_runs_one_action site_parser any_text raw_site {| pw_start_url := site_url; pw_allowed_origins := ["https://a.example"]; pw_downloads := site_policy |}
    site_intent [CallLanded; CallChoose ImportSkill; CallChoose SaveAs; CallChoose SaveAs]) as (_ & _ & H); [by vm_compute|by vm_compute|].
  apply (H site_intent SaveAs). by vm_compute.
Defined.
