(* ===== verification/PromptLiveness.v ===== *)
(** * Supervision of prompts and agents ([prompt_liveness.rs], [restart_circuit.rs], [tool_timing.rs])

    When a silent prompt is cancelled and sent again, when an agent that keeps crashing is given up, and how long tools
    took.  The code is under [crates/agent-runtime/src/]; instants and durations are nanoseconds. *)

From stdpp Require Import gmap sorting.
From S2P Require Import Prelude RustStr Json SessionHistory.
Local Open Scope ora_scope.

Notation Instant := N (only parsing).
Notation Duration := N (only parsing).
Definition secs (n : N) : Duration := (n * 1000000000)%N.

(** ** The inactivity of a prompt *)

(** The status that the fields of a tool update carry. *)
Class UpdateStatus := tool_update_status : Value -> option ToolCallStatus.

Inductive Projection : Type := Projected | Inherited | ParentTool.
#[export] Instance Projection_eq_dec : EqDecision Projection.
Proof. solve_decision. Defined.
Definition projection_of (meta : option Meta) : Projection :=
  if negb (match meta with Some m => existsb (fun kv => bool_decide (kv.1 = "opencode/child-session")) m | None => false end) then Inherited
  else match child_source_id meta with Some _ => Projected | None => ParentTool end.

Record PromptLiveness : Type := {
  pv_windows : list Duration;
  pv_attempt : nat;
  pv_deadline : Instant;
  pv_running : gset ToolCallId;
  pv_pending : gset ToolCallId;
  pv_seen_pending : gset ToolCallId;
  pv_projected : gset ToolCallId;
}.
Record PromptRetry : Type := { pr_retry : N; pr_max_retries : N }.
Record PromptLivenessSnapshot : Type := {
  ps_attempt : nat; ps_window : Duration; ps_silent_elapsed : Duration; ps_running_tools : nat; ps_pending_tools : nat;
}.
Inductive PromptInactivityPolicy : Type := Timeout | Wait.
Definition PROMPT_INACTIVITY_WINDOWS : list Duration := [secs 45; secs 60; secs 90; secs 120].

(** [self.windows[self.attempt]]: the attempt is always within the windows. *)
Definition window (l : PromptLiveness) : Duration := default 0%N (pv_windows l !! pv_attempt l).
Definition reset_at (now : Instant) (l : PromptLiveness) : PromptLiveness :=
  {| pv_windows := pv_windows l; pv_attempt := pv_attempt l; pv_deadline := (now + window l)%N; pv_running := pv_running l;
     pv_pending := pv_pending l; pv_seen_pending := pv_seen_pending l; pv_projected := pv_projected l |}.
Definition new_at (windows : list Duration) (now : Instant) : PromptLiveness :=
  reset_at now {| pv_windows := windows; pv_attempt := 0; pv_deadline := now; pv_running := ∅; pv_pending := ∅;
                  pv_seen_pending := ∅; pv_projected := ∅ |}.
Definition deadline (l : PromptLiveness) : option Instant := if bool_decide (pv_running l = ∅) then Some (pv_deadline l) else None.
Definition snapshot (now : Instant) (l : PromptLiveness) : PromptLivenessSnapshot :=
  {| ps_attempt := pv_attempt l + 1; ps_window := window l; ps_silent_elapsed := (now - (pv_deadline l - window l))%N;
     ps_running_tools := size (pv_running l); ps_pending_tools := size (pv_pending l) |}.
(** When the wait ends, if it does. *)
Definition wait_until (policy : PromptInactivityPolicy) (l : PromptLiveness) : option Instant :=
  match policy with Timeout => deadline l | Wait => None end.
Definition try_u32 (n : nat) : N := if (N.of_nat n <=? u32_max)%N then N.of_nat n else u32_max.
Definition next_attempt_at (now : Instant) (l : PromptLiveness) : option PromptRetry * PromptLiveness :=
  let max_retries := length (pv_windows l) - 1 in
  if max_retries <=? pv_attempt l then (None, l)
  else
    let attempt := pv_attempt l + 1 in
    (Some {| pr_retry := try_u32 attempt; pr_max_retries := try_u32 max_retries |},
     reset_at now {| pv_windows := pv_windows l; pv_attempt := attempt; pv_deadline := pv_deadline l; pv_running := ∅; pv_pending := ∅;
                     pv_seen_pending := ∅; pv_projected := ∅ |}).

Definition with_sets (running pending seen projected : gset ToolCallId) (l : PromptLiveness) : PromptLiveness :=
  {| pv_windows := pv_windows l; pv_attempt := pv_attempt l; pv_deadline := pv_deadline l; pv_running := running; pv_pending := pending;
     pv_seen_pending := seen; pv_projected := projected |}.
Definition observe_tool (id : ToolCallId) (status : option ToolCallStatus) (now : Instant) (l : PromptLiveness) : PromptLiveness :=
  match status with
  | Some ToolPending =>
      let fresh := negb (bool_decide (id ∈ pv_seen_pending l)) in
      let l := with_sets (pv_running l) ({[id]} ∪ pv_pending l) ({[id]} ∪ pv_seen_pending l) (pv_projected l) l in
      if fresh then reset_at now l else l
  | Some ToolInProgress => with_sets ({[id]} ∪ pv_running l) (pv_pending l ∖ {[id]}) (pv_seen_pending l) (pv_projected l) l
  | Some (ToolCompleted | ToolFailed) =>
      let l := with_sets (pv_running l ∖ {[id]}) (pv_pending l ∖ {[id]}) (pv_seen_pending l) (pv_projected l) l in
      if bool_decide (pv_running l = ∅) then reset_at now l else l
  | None | Some ToolOther => reset_at now l
  end.
Section observing.
Context {status_of : UpdateStatus}.

Definition update_subject (update : SessionUpdate) : option Meta * option ToolCallId :=
  match update with
  | AgentMessageChunk chunk | AgentThoughtChunk chunk => (cc_meta chunk, None)
  | UpdatePlan plan => (pl_meta plan, None)
  | UpdateToolCall call => (tl_meta call, Some (tl_id call))
  | UpdateToolCallUpdate change => (tu_meta change, Some (tu_id change))
  | UserMessageChunk _ | SessionChrome _ => (None, None)
  end.
(** What an update does once it is known to be the parent's. *)
Definition observe_own (update : SessionUpdate) (now : Instant) (l : PromptLiveness) : PromptLiveness :=
  match update with
  | AgentMessageChunk _ | AgentThoughtChunk _ | UpdatePlan _ => reset_at now l
  | UpdateToolCall call => observe_tool (tl_id call) (Some (tl_status call)) now l
  | UpdateToolCallUpdate change => observe_tool (tu_id change) (tool_update_status (tu_fields change)) now l
  | UserMessageChunk _ | SessionChrome _ => l
  end.
Definition observe_at (update : SessionUpdate) (now : Instant) (l : PromptLiveness) : PromptLiveness :=
  let '(meta, tool) := update_subject update in
  match tool, projection_of meta with
  | Some id, Projected =>
      with_sets (pv_running l ∖ {[id]}) (pv_pending l ∖ {[id]}) (pv_seen_pending l) ({[id]} ∪ pv_projected l) l
  | Some id, ParentTool =>
      observe_own update now (with_sets (pv_running l) (pv_pending l) (pv_seen_pending l) (pv_projected l ∖ {[id]}) l)
  | Some id, Inherited => if bool_decide (id ∈ pv_projected l) then l else observe_own update now l
  | None, Projected => l
  | None, _ => observe_own update now l
  end.
End observing.
Definition permission_settled (tool : ToolCallUpdate) (now : Instant) (l : PromptLiveness) : PromptLiveness :=
  match projection_of (tu_meta tool) with
  | Projected => l
  | ParentTool => reset_at now (with_sets (pv_running l) (pv_pending l) (pv_seen_pending l) (pv_projected l ∖ {[tu_id tool]}) l)
  | Inherited => if bool_decide (tu_id tool ∈ pv_projected l) then l else reset_at now l
  end.

(** ** Crash loops *)

Definition CRASH_LIMIT : nat := 3.
Definition CRASH_WINDOW : Duration := secs 60.
Inductive RestartDecision : Type := RetryAgent | StopAgent.
Definition checked_sub_instant (now : Instant) (d : Duration) : option Instant := if (d <=? now)%N then Some (now - d)%N else None.
Fixpoint drop_old (cutoff : option Instant) (failures : list Instant) : list Instant :=
  match failures with
  | failure :: rest => if match cutoff with Some cutoff => (failure <=? cutoff)%N | None => false end then drop_old cutoff rest else failures
  | [] => []
  end.
Definition record_failure (now : Instant) (failures : list Instant) : RestartDecision * list Instant :=
  let failures := drop_old (checked_sub_instant now CRASH_WINDOW) failures ++ [now] in
  (if CRASH_LIMIT <? length failures then StopAgent else RetryAgent, failures).

(** ** Tool timings *)

Record StartedTool : Type := { st_started_at : string; st_started : Instant; st_duration_ms : option N }.
Notation ToolTimings := (gmap ToolCallId StartedTool) (only parsing).
(** [u64::try_from(started.elapsed().as_millis())] *)
Definition elapsed_ms (now started : Instant) : N := N.min ((now - started) / 1000000) u64_max.
Section timing.
Context {status_of : UpdateStatus}.
Definition tool_identity (update : SessionUpdate) : option (ToolCallId * option ToolCallStatus) :=
  match update with
  | UpdateToolCall call => Some (tl_id call, Some (tl_status call))
  | UpdateToolCallUpdate change => Some (tu_id change, tool_update_status (tu_fields change))
  | _ => None
  end.
Definition terminal_status (status : option ToolCallStatus) : bool :=
  match status with Some (ToolCompleted | ToolFailed) => true | _ => false end.
(** [text] is the local time in RFC 3339. *)
Definition observe_timing (update : SessionUpdate) (text : string) (now : Instant) (calls : ToolTimings) :
    option ToolCallTiming * ToolTimings :=
  match tool_identity update with
  | None => (None, calls)
  | Some (id, status) =>
      let terminal := terminal_status status in
      let calls := match calls !! id with
                   | None => if terminal then calls
                             else <[id := {| st_started_at := text; st_started := now; st_duration_ms := None |}]> calls
                   | Some _ => calls
                   end in
      match calls !! id with
      | None => (None, calls)
      | Some started =>
          let duration := if terminal then Some (default (elapsed_ms now (st_started started)) (st_duration_ms started)) else st_duration_ms started in
          let started := {| st_started_at := st_started_at started; st_started := st_started started; st_duration_ms := duration |} in
          (Some {| tt_started_at := st_started_at started; tt_duration_ms := if terminal then duration else None |}, <[id := started]> calls)
      end
  end.
Definition finish_all (now : Instant) (calls : ToolTimings) : list (ToolCallId * ToolCallTiming) :=
  (fun '(id, started) =>
     (id, {| tt_started_at := st_started_at started;
             tt_duration_ms := Some (default (elapsed_ms now (st_started started)) (st_duration_ms started)) |})) <$> map_to_list calls.
End timing.

(** ** A silent prompt *)

Definition sum_durations (l : list Duration) : Duration := foldr N.add 0%N l.
(** The prompt is sent again at every expiry, and nothing else happens: when it fails, and the retries before. *)
Fixpoint silent_run (fuel : nat) (l : PromptLiveness) : option (Instant * list (Instant * PromptRetry)) :=
  match fuel with
  | O => None
  | S fuel =>
      d ← deadline l;
      match next_attempt_at d l with
      | (None, _) => Some (d, [])
      | (Some retry, l) => '(t, retries) ← silent_run fuel l; Some (t, (d, retry) :: retries)
      end
  end.
Definition attempt_at (windows : list Duration) (k : nat) (now : Instant) : PromptLiveness :=
  reset_at now {| pv_windows := windows; pv_attempt := k; pv_deadline := now; pv_running := ∅; pv_pending := ∅;
                  pv_seen_pending := ∅; pv_projected := ∅ |}.
Lemma sum_durations_app l k : sum_durations (l ++ k) = (sum_durations l + sum_durations k)%N.
Proof. unfold sum_durations. induction l as [|x l IH]; cbn; lia. Qed.
Lemma silent_run_from windows k fuel now w rest :
  drop k windows = w :: rest -> length rest < fuel ->
  silent_run fuel (attempt_at windows k now)
  = Some ((now + sum_durations (w :: rest))%N,
          imap (fun i _ => ((now + sum_durations (take (S i) (w :: rest)))%N,
                            {| pr_retry := try_u32 (k + S i); pr_max_retries := try_u32 (length windows - 1) |})) rest).
Proof.
  revert k now w rest. induction fuel as [|fuel IH]; intros k now w rest Hd Hf; [lia|].
  assert (Hw : windows !! k = Some w) by (rewrite <- (Nat.add_0_r k), <- lookup_drop, Hd; done).
  assert (Hl : length windows = k + S (length rest)).
  { pose proof (length_drop windows k) as E. rewrite Hd in E. cbn in E. assert (k < length windows) by (by eapply lookup_lt_Some). lia. }
  cbn [silent_run]. unfold deadline. cbn [attempt_at reset_at pv_running pv_deadline window pv_windows pv_attempt]. rewrite bool_decide_eq_true_2 by done.
  cbn [mbind option_bind]. unfold window. cbn [pv_windows pv_attempt]. rewrite Hw. cbn [default from_option]. change (id w) with w. unfold next_attempt_at. cbn [attempt_at reset_at pv_windows pv_attempt].
  destruct rest as [|w' rest].
  - replace (length windows - 1 <=? k) with true by (symmetry; apply Nat.leb_le; cbn in Hl; lia). cbn. do 2 f_equal. lia.
  - replace (length windows - 1 <=? k) with false by (symmetry; apply Nat.leb_gt; cbn in Hl; lia).
    assert (Hd' : drop (k + 1) windows = w' :: rest) by (rewrite <- drop_drop, Hd; done).
    cbn [length] in Hf. specialize (IH (k + 1) (now + w)%N w' rest Hd' ltac:(lia)).
    match goal with |- context [silent_run fuel ?l] => change l with (attempt_at windows (k + 1) (now + w)%N) end. rewrite IH. change (id w) with w. cbn [mbind option_bind].
    rewrite imap_cons. apply f_equal, f_equal2; [cbn; lia|]. apply f_equal2; [by apply f_equal2; [cbn; lia|]|].
    apply imap_ext. intros i x _. cbn [compose]. apply f_equal2; [cbn; lia|]. by replace (k + S (S i)) with (k + 1 + S i) by lia.
Qed.

(** A prompt about which nothing is heard is sent again after each window, in their order and once per window but the first, and fails
    when the last window ends: at the sum of the windows, however long the list. *)
Theorem silent_prompt_gives_up windows now :
  windows <> [] ->
  silent_run (length windows) (new_at windows now)
  = Some ((now + sum_durations windows)%N,
          imap (fun i _ => ((now + sum_durations (take (S i) windows))%N,
                            {| pr_retry := try_u32 (S i); pr_max_retries := try_u32 (length windows - 1) |})) (tail windows)).
Proof.
  intros Hne. destruct windows as [|w rest]; [done|]. by apply (silent_run_from (w :: rest) 0 _ now w rest); [|cbn; lia].
Qed.
(** The schedule of the runtime: three retries, and a failure after five minutes and a quarter. *)
Lemma silent_prompt_gives_up_witness :
  silent_run 4 (new_at PROMPT_INACTIVITY_WINDOWS 0)
  = Some (secs 315, [(secs 45, {| pr_retry := 1; pr_max_retries := 3 |}); (secs 105, {| pr_retry := 2; pr_max_retries := 3 |});
                     (secs 195, {| pr_retry := 3; pr_max_retries := 3 |})]).
Proof. by apply (silent_prompt_gives_up PROMPT_INACTIVITY_WINDOWS 0). Defined.

(** ** Crash loops *)

Definition failures_after (ts : list Instant) : list Instant := foldl (fun failures now => (record_failure now failures).2) [] ts.
Definition recent (now failure : Instant) : Prop := (now < failure + CRASH_WINDOW)%N.
#[export] Instance recent_dec now failure : Decision (recent now failure).
Proof. unfold recent. apply _. Defined.
Lemma drop_old_recent now failures : StronglySorted N.le failures ->
  drop_old (checked_sub_instant now CRASH_WINDOW) failures = filter (recent now) failures.
Proof.
  assert (Hold : forall t, match checked_sub_instant now CRASH_WINDOW with Some cutoff => (t <=? cutoff)%N | None => false end = negb (bool_decide (recent now t))).
  { intros t. unfold checked_sub_instant, recent. destruct (CRASH_WINDOW <=? now)%N eqn:E; [apply N.leb_le in E|apply N.leb_gt in E].
    - case_bool_decide; cbn; [apply N.leb_gt|apply N.leb_le]; lia.
    - by rewrite bool_decide_eq_true_2 by lia. }
  induction 1 as [|t l Hl IH Ht]; [done|]. cbn [drop_old]. rewrite Hold, filter_cons. case_bool_decide as Hr; cbn [negb].
  - rewrite decide_True by done. f_equal. symmetry. clear IH. induction Ht as [|u l Hu _ IHu]; [done|]. inversion Hl; subst.
    rewrite filter_cons_True by (unfold recent in *; lia). f_equal. by apply IHu.
  - by rewrite decide_False.
Qed.
Lemma filter_sorted (P : Instant -> Prop) `{!forall x, Decision (P x)} l : StronglySorted N.le l -> StronglySorted N.le (filter P l).
Proof.
  induction 1 as [|t l _ IH Ht]; [constructor|]. rewrite filter_cons. case_decide; [|done]. constructor; [done|].
  rewrite Forall_forall in *. intros x Hx. apply list_elem_of_filter in Hx as [_ Hx]. by apply Ht.
Qed.
Lemma sorted_app_l (l k : list Instant) : StronglySorted N.le (l ++ k) -> StronglySorted N.le l.
Proof. induction l as [|x l IH]; [constructor|]. inversion 1 as [|? ? H1 H2]; subst. constructor; [by apply IH|]. by apply Forall_app in H2 as [? _]. Qed.
Lemma sorted_last (l : list Instant) t : StronglySorted N.le (l ++ [t]) -> Forall (fun x => (x <= t)%N) l.
Proof.
  induction l as [|x l IH]; [constructor|]. inversion 1 as [|? ? H1 H2]; subst. constructor; [|by apply IH].
  apply Forall_app in H2 as [_ H2]. by inversion H2.
Qed.
Lemma record_recent now ts : StronglySorted N.le (ts ++ [now]) ->
  (record_failure now (failures_after ts)).2 = filter (recent now) (ts ++ [now]).
Proof.
  revert now. induction ts as [|t ts IH] using rev_ind; intros now Hs; unfold record_failure; cbn [snd].
  - change ([now] = filter (recent now) [now]). by rewrite filter_cons_True by (unfold recent, CRASH_WINDOW, secs; lia).
  - pose proof (sorted_app_l _ _ Hs) as Hs1. unfold failures_after. rewrite foldl_app. cbn [foldl]. fold (failures_after ts). rewrite (IH t Hs1).
    rewrite drop_old_recent by (by apply filter_sorted). rewrite (filter_app _ (ts ++ [t]) [now]), (filter_cons_True _ now) by (unfold recent, CRASH_WINDOW, secs; lia).
    f_equal. rewrite list_filter_filter_l; [done|]. intros x Hx. pose proof (sorted_last _ _ Hs) as Hl.
    apply Forall_app in Hl as [_ Hl]. inversion Hl; subst. unfold recent in *. lia.
Qed.

(** C36: Failures that are reported in the order of time open the circuit exactly when more than three of them, the present one included,
    lie within the last minute, however many came before and however far back they lie. *)
Theorem crash_loop_stopped ts now :
  StronglySorted N.le (ts ++ [now]) ->
  (record_failure now (failures_after ts)).1 = StopAgent <-> CRASH_LIMIT < length (filter (recent now) (ts ++ [now])).
Proof.
  intros Hs. rewrite <- (record_recent now ts Hs). unfold record_failure. cbn [fst snd].
  destruct (CRASH_LIMIT <? length _) eqn:E; [apply Nat.ltb_lt in E|apply Nat.ltb_ge in E]; split; done || lia.
Qed.
Lemma crash_loop_stopped_witness :
  (record_failure (secs 70) (failures_after [secs 1; secs 15; secs 20; secs 30])).1 = StopAgent.
Proof.
  apply (crash_loop_stopped [secs 1; secs 15; secs 20; secs 30] (secs 70)); [repeat constructor; vm_compute; discriminate|by vm_compute; lia].
Defined.

(** ** What pauses and rearms a prompt *)

Section pauses.
Context {status_of : UpdateStatus}.

(** One tool on its own: whether it displays the work of a child, and whether it is in progress for this prompt. *)
Record ToolLife : Type := { tf_child : bool; tf_running : bool }.
Definition unknown_tool : ToolLife := {| tf_child := false; tf_running := false |}.
Definition status_after (status : option ToolCallStatus) (running : bool) : bool :=
  match status with
  | Some ToolInProgress => true
  | Some (ToolCompleted | ToolFailed) => false
  | Some ToolPending | Some ToolOther | None => running
  end.
Definition tool_step (id : ToolCallId) (life : ToolLife) (update : SessionUpdate) : ToolLife :=
  match tool_identity update with
  | None => life
  | Some (subject, status) =>
      if bool_decide (subject = id) then
        match projection_of (update_subject update).1 with
        | Projected => {| tf_child := true; tf_running := false |}
        | ParentTool => {| tf_child := false; tf_running := status_after status (tf_running life) |}
        | Inherited => if tf_child life then life else {| tf_child := false; tf_running := status_after status (tf_running life) |}
        end
      else life
  end.
Definition tool_life (id : ToolCallId) (updates : list SessionUpdate) : ToolLife := foldl (tool_step id) unknown_tool updates.
(** Whether an update only shows the work of a child, after the updates before it. *)
Definition shows_child (updates : list SessionUpdate) (update : SessionUpdate) : bool :=
  match update_subject update with
  | (_, Some id) => tf_child (tool_step id (tool_life id updates) update)
  | (meta, None) => bool_decide (projection_of meta = Projected)
  end.
Definition observe_all (l : PromptLiveness) (updates : list (SessionUpdate * Instant)) : PromptLiveness :=
  foldl (fun l u => observe_at u.1 u.2 l) l updates.
Definition life_of (id : ToolCallId) (l : PromptLiveness) : ToolLife :=
  {| tf_child := bool_decide (id ∈ pv_projected l); tf_running := bool_decide (id ∈ pv_running l) |}.

Lemma update_subject_tool update :
  (update_subject update).2 = fst <$> tool_identity update.
Proof. by destruct update. Qed.
Lemma life_ext a b a' b' : a = a' -> b = b' -> {| tf_child := a; tf_running := b |} = {| tf_child := a'; tf_running := b' |}.
Proof. by intros -> ->. Qed.
Lemma member_ext (id : ToolCallId) (x y : gset ToolCallId) : (id ∈ x <-> id ∈ y) -> bool_decide (id ∈ x) = bool_decide (id ∈ y).
Proof. apply bool_decide_ext. Qed.
Ltac solve_member :=
  first [apply bool_decide_eq_true_2; set_solver|apply bool_decide_eq_false_2; set_solver|apply member_ext; set_solver].
Ltac by_tool subject id :=
  destruct (decide (subject = id)) as [->|]; [rewrite (bool_decide_eq_true_2 (id = id)) by done|rewrite (bool_decide_eq_false_2 (subject = id)) by done].
Lemma reset_life id now l : life_of id (reset_at now l) = life_of id l.
Proof. done. Qed.
Lemma observe_tool_life id subject status now l :
  life_of id (observe_tool subject status now l)
  = if bool_decide (subject = id) then {| tf_child := tf_child (life_of id l); tf_running := status_after status (tf_running (life_of id l)) |}
    else life_of id l.
Proof.
  by_tool subject id; unfold observe_tool; destruct status as [[]|]; try done; cbn [status_after];
    repeat match goal with |- context [if ?b then reset_at _ _ else _] => destruct b end; rewrite ?reset_life; try done;
    unfold life_of; cbn [with_sets pv_projected pv_running tf_child tf_running]; apply life_ext; try done; solve_member.
Qed.
Lemma observe_life id update now l : life_of id (observe_at update now l) = tool_step id (life_of id l) update.
Proof.
  assert (Htool : forall subject status meta own, own = observe_tool subject status now ->
    life_of id match projection_of meta with
               | Projected => with_sets (pv_running l ∖ {[subject]}) (pv_pending l ∖ {[subject]}) (pv_seen_pending l) ({[subject]} ∪ pv_projected l) l
               | ParentTool => own (with_sets (pv_running l) (pv_pending l) (pv_seen_pending l) (pv_projected l ∖ {[subject]}) l)
               | Inherited => if bool_decide (subject ∈ pv_projected l) then l else own l
               end
    = if bool_decide (subject = id) then
        match projection_of meta with
        | Projected => {| tf_child := true; tf_running := false |}
        | ParentTool => {| tf_child := false; tf_running := status_after status (tf_running (life_of id l)) |}
        | Inherited => if tf_child (life_of id l) then life_of id l
                       else {| tf_child := false; tf_running := status_after status (tf_running (life_of id l)) |}
        end
      else life_of id l).
  { intros subject status meta own ->. destruct (projection_of meta).
    - by_tool subject id; unfold life_of; cbn [with_sets pv_projected pv_running]; apply life_ext; solve_member.
    - destruct (bool_decide (subject ∈ pv_projected l)) eqn:E.
      + by_tool subject id; [|done]. by rewrite (eq_refl : tf_child (life_of id l) = bool_decide (id ∈ pv_projected l)), E.
      + rewrite observe_tool_life. by_tool subject id; [|done]. by rewrite (eq_refl : tf_child (life_of id l) = bool_decide (id ∈ pv_projected l)), E.
    - rewrite observe_tool_life. by_tool subject id; unfold life_of; cbn [with_sets pv_projected pv_running tf_child tf_running]; apply life_ext; try done;
        solve_member. }
  unfold observe_at, tool_step. destruct update; cbn [update_subject tool_identity fst observe_own];
    try (by apply Htool); destruct (projection_of _); done.
Qed.
Lemma observe_all_life id updates l : life_of id (observe_all l updates) = foldl (tool_step id) (life_of id l) updates.*1.
Proof.
  revert l. induction updates as [|u updates IH]; intros l; [done|]. unfold observe_all. cbn [foldl]. rewrite IH, observe_life. done.
Qed.
Lemma new_life windows now id : life_of id (new_at windows now) = unknown_tool.
Proof. unfold life_of. cbn. by rewrite !bool_decide_eq_false_2 by set_solver. Qed.
Lemma child_rearms_nothing update t l :
  match update_subject update with
  | (_, Some id) => tf_child (tool_step id (life_of id l) update)
  | (meta, None) => bool_decide (projection_of meta = Projected)
  end = true -> pv_deadline (observe_at update t l) = pv_deadline l /\ pv_running (observe_at update t l) ⊆ pv_running l.
Proof.
  unfold observe_at, tool_step. destruct (update_subject update) as [meta [id|]] eqn:E; pose proof (update_subject_tool update) as Ht; rewrite E in Ht; cbn in Ht.
  - destruct (tool_identity update) as [[id' status]|]; [|done]. injection Ht as <-. rewrite bool_decide_eq_true_2 by done. cbn [fst].
    destruct (projection_of meta); [cbn; intros _; split; [done|set_solver]| |done].
    destruct (tf_child (life_of id l)) eqn:Hc; [|done]. intros _. unfold life_of in Hc. cbn in Hc. by rewrite Hc.
  - intros H%bool_decide_eq_true_1. by rewrite H.
Qed.
Lemma deadline_from_activity l update t :
  pv_deadline (observe_at update t l) = pv_deadline l \/ pv_deadline (observe_at update t l) = (t + window l)%N.
Proof.
  unfold observe_at. destruct (update_subject update) as [meta tool]. assert (Hown : forall l0, window l0 = window l -> pv_deadline l0 = pv_deadline l ->
    pv_deadline (observe_own update t l0) = pv_deadline l \/ pv_deadline (observe_own update t l0) = (t + window l)%N).
  { assert (Htool : forall l0 id status, window l0 = window l -> pv_deadline l0 = pv_deadline l ->
      pv_deadline (observe_tool id status t l0) = pv_deadline l \/ pv_deadline (observe_tool id status t l0) = (t + window l)%N).
    { intros l0 id status <- <-. unfold observe_tool. destruct status as [[]|]; try (by right); try (by left);
        [destruct (negb _)|destruct (bool_decide _)|destruct (bool_decide _)]; first [by right|by left]. }
    intros l0 Hw Hd. destruct update; cbn [observe_own]; try (by apply Htool); try (by left); right; cbn; by rewrite Hw. }
  destruct tool; destruct (projection_of meta); try (by left); try (by apply Hown); destruct (bool_decide _); [by left|by apply Hown].
Qed.
Lemma observe_keeps_window update t l : window (observe_at update t l) = window l.
Proof.
  unfold observe_at. destruct (update_subject update) as [meta tool].
  assert (Hown : forall l0, window l0 = window l -> window (observe_own update t l0) = window l).
  { intros l0 <-. destruct update; cbn [observe_own]; try done; unfold observe_tool.
    - destruct (tl_status call); try done; [destruct (negb _)|destruct (bool_decide _)|destruct (bool_decide _)]; done.
    - destruct (tool_update_status _) as [[]|]; try done; [destruct (negb _)|destruct (bool_decide _)|destruct (bool_decide _)]; done. }
  destruct tool; destruct (projection_of meta); try done; try (by apply Hown). destruct (bool_decide _); [done|by apply Hown].
Qed.
Lemma observe_all_deadline l updates : exists t, pv_deadline (observe_all l updates) = t
  /\ (t = pv_deadline l \/ exists u, u ∈ updates /\ t = (u.2 + window l)%N).
Proof.
  revert l. induction updates as [|[u t] updates IH]; intros l; [exists (pv_deadline l); split; [done|by left]|].
  unfold observe_all. cbn [foldl fst snd]. destruct (IH (observe_at u t l)) as (d & Hd & H). exists d. split; [exact Hd|].
  rewrite observe_keeps_window in H. destruct H as [->|(x & Hx & ->)]; [|right; exists x; split; [by right|done]].
  destruct (deadline_from_activity l u t) as [->| ->]; [by left|right]. exists (u, t). split; [by left|done].
Qed.

(** A prompt waits without a deadline exactly while one of its own tools is in progress; otherwise the deadline is a full window after
    its start or after one of the updates; and an update that only shows the work of a child neither moves the deadline nor starts a pause. *)
Theorem prompt_pauses windows start updates :
  let l := observe_all (new_at windows start) updates in
  (deadline l = None <-> exists id, tf_running (tool_life id updates.*1) = true)
  /\ (forall d, deadline l = Some d -> exists t, t ∈ start :: updates.*2 /\ d = (t + default 0 (windows !! 0%nat))%N)
  /\ (forall update t, shows_child updates.*1 update = true ->
        pv_deadline (observe_at update t l) = pv_deadline l /\ pv_running (observe_at update t l) ⊆ pv_running l).
Proof.
  intros l. assert (Hlife : forall id, life_of id l = tool_life id updates.*1).
  { intros id. unfold l, tool_life. by rewrite observe_all_life, new_life. }
  split_and!.
  - unfold deadline. split.
    + case_bool_decide as E; [done|]. intros _. apply set_choose_L in E as [id Hid]. exists id. rewrite <- Hlife. by apply bool_decide_eq_true_2.
    + intros (id & Hid). rewrite <- Hlife in Hid. apply bool_decide_eq_true_1 in Hid. rewrite bool_decide_eq_false_2; [done|].
      intros E. rewrite E in Hid. by apply not_elem_of_empty in Hid.
  - intros d. unfold deadline. case_bool_decide; [|done]. intros [= <-]. destruct (observe_all_deadline (new_at windows start) updates) as (t & Hd & Ht). fold l in Hd. rewrite Hd.
    destruct Ht as [->|([u t'] & Hu & ->)]; [by exists start; split; [left|]|]. exists t'. split; [right|done]. apply list_elem_of_fmap. by exists (u, t').
  - intros update t H. apply child_rearms_nothing. unfold shows_child in H. destruct (update_subject update) as [meta [id|]]; [|done].
    by rewrite Hlife.
Qed.
End pauses.

Definition no_status : UpdateStatus := fun _ => None.
Definition child_meta : Meta := [("opencode/child-session", VObject [("id", VString "child"); ("parentID", VString "parent"); ("depth", VNumber (PosInt 1))])].
Definition delegate (status : ToolCallStatus) (meta : option Meta) : SessionUpdate :=
  UpdateToolCall {| tl_id := "task"; tl_title := "Task"; tl_status := status; tl_meta := meta; tl_rest := VNull |}.
(** A tool in progress pauses the prompt. *)
Lemma prompt_pauses_witness : deadline (@observe_all no_status (new_at PROMPT_INACTIVITY_WINDOWS 0) [(delegate ToolInProgress None, secs 5)]) = None.
Proof.
  apply (@prompt_pauses no_status PROMPT_INACTIVITY_WINDOWS 0 [(delegate ToolInProgress None, secs 5)]). exists "task". by vm_compute.
Defined.
(** A running tool that turns out to belong to a child leaves the prompt with a deadline long past: it is cancelled at once. *)
Lemma reattributed_tool_expires_at_once :
  let l := @observe_all no_status (new_at PROMPT_INACTIVITY_WINDOWS 0) [(delegate ToolInProgress None, secs 5)] in
  wait_until Timeout l = None
  /\ wait_until Timeout (@observe_at no_status (delegate ToolInProgress (Some child_meta)) (secs 600) l) = Some (secs 45).
Proof. by vm_compute. Qed.

(** ** Timings *)

Section timings.
Context {status_of : UpdateStatus}.
Lemma observe_timing_keeps update text now (calls : ToolTimings) id started d :
  calls !! id = Some started -> st_duration_ms started = Some d ->
  exists started', (observe_timing update text now calls).2 !! id = Some started' /\ st_duration_ms started' = Some d
    /\ st_started_at started' = st_started_at started.
Proof.
  intros Hi Hd. unfold observe_timing. destruct (tool_identity update) as [[id' status]|]; [|by exists started].
  destruct (decide (id' = id)) as [->|Hne].
  - rewrite Hi, Hi. cbn [snd]. eexists. rewrite lookup_insert_eq. split; [done|]. cbn. rewrite Hd. by destruct (terminal_status status).
  - set (calls1 := match calls !! id' with None => _ | Some _ => calls end).
    assert (H1 : calls1 !! id = Some started).
    { subst calls1. destruct (calls !! id'); [done|]. destruct (terminal_status status); [done|]. by rewrite lookup_insert_ne. }
    destruct (calls1 !! id'); cbn [snd]; exists started; rewrite ?lookup_insert_ne by done; done.
Qed.
(** A duration that was reported once is the duration of every later report and of the end of the turn. *)
Lemma reported_duration_final update text now (calls calls' : ToolTimings) timing d id status more :
  observe_timing update text now calls = (Some timing, calls') -> tt_duration_ms timing = Some d -> tool_identity update = Some (id, status) ->
  exists started, foldl (fun calls u => (observe_timing u.1.1 u.1.2 u.2 calls).2) calls' more !! id = Some started
    /\ st_duration_ms started = Some d /\ st_started_at started = tt_started_at timing.
Proof.
  intros Ho Hd Hid. assert (H : exists started, calls' !! id = Some started /\ st_duration_ms started = Some d /\ st_started_at started = tt_started_at timing).
  { unfold observe_timing in Ho. rewrite Hid in Ho. set (calls1 := match calls !! id with None => _ | Some _ => calls end) in Ho.
    destruct (calls1 !! id) as [started|]; [|done]. injection Ho as <- <-. cbn in Hd. destruct (terminal_status status); [|done].
    eexists. rewrite lookup_insert_eq. split; [done|]. done. }
  clear Ho Hid. revert calls' H. induction more as [|[[u tx] t] more IH]; intros calls' (started & Hs & Hds & Hst); [by exists started|].
  cbn [foldl]. apply IH. destruct (observe_timing_keeps u tx t calls' id started d Hs Hds) as (s' & ? & ? & E). exists s'. by rewrite E.
Qed.
End timings.
