(* ===== verification/PluginRegistry.v ===== *)
(** * The plugin registry ([crates/plugin-registry/src])

    The index of a marketplace: the manifests of every source that could be refreshed, the listings a failed source had before,
    and the lookup an installation starts from.  A checkout is a tree of directories and files; parsing a manifest, the icon of a
    listing and the JSON of the cache are parameters. *)

From S2P Require Import Prelude RustStr Order Gitlancer.
Local Open Scope ora_scope.

(** ** Manifests and entries ([entry.rs]) *)

Notation PluginNamespace := string (only parsing).
Notation PluginId := (string * string)%type (only parsing).
Notation FsPath := (list string) (only parsing).
Notation Logo := string (only parsing).
Inductive ReleaseSource : Type := Universal | Targets (targets : list string).
(** The parts of a manifest that the registry reads. *)
Record PluginManifest : Type := {
  mf_name : string; mf_title : string; mf_kind : string; mf_version : string; mf_description : string;
  mf_marketplace_visible : bool; mf_release_source : option ReleaseSource; mf_pack_members : option (list string);
}.
Record RegistryEntry : Type := {
  en_id : PluginId; en_identifier : string; en_title : string; en_kind : string; en_namespace : string; en_source_url : string;
  en_version : string; en_description : string; en_logo : option Logo; en_release_targets : option (list string);
  en_pack_members : option (list string);
}.
Definition entry_id (manifest : PluginManifest) (namespace : PluginNamespace) : PluginId := (namespace, mf_name manifest).
Definition from_manifest (manifest : PluginManifest) (namespace : PluginNamespace) (source_url : string) (logo : option Logo) : RegistryEntry :=
  {| en_id := entry_id manifest namespace; en_identifier := mf_name manifest; en_title := mf_title manifest; en_kind := mf_kind manifest;
     en_namespace := namespace; en_source_url := source_url; en_version := mf_version manifest; en_description := mf_description manifest;
     en_logo := logo;
     en_release_targets := match mf_release_source manifest with
                           | Some Universal => Some []
                           | Some (Targets targets) => Some targets
                           | None => None
                           end;
     en_pack_members := mf_pack_members manifest |}.
(** [host] is what [current_host_target] gives for the build. *)
Definition host_compatibility (host : option string) (entry : RegistryEntry) : result string unit :=
  if bool_decide (en_kind entry = "pack") then Ok ()
  else match en_release_targets entry with
       | None => Err "this listing has no downloadable release"
       | Some [] => Ok ()
       | Some targets =>
           match host with
           | None => Err ("this release supports " +:+ join ", " targets +:+ " but the host is not a supported plugin target")
           | Some host =>
               if bool_decide (host ∈ targets) then Ok ()
               else Err ("this release supports " +:+ join ", " targets +:+ " but your host is " +:+ host)
           end
       end.

(** ** Sources and errors ([source.rs], [error.rs], [failure.rs]) *)

Inductive RegistryError : Type :=
| RegistryGit (e : GitlancerError)
| RegistryManifest (e : string)
| RegistrySourceUrl (e : string)
| RegistrySourceBranch (e : string)
| RegistryIo (not_found : bool) (e : string)
| RegistryJson (e : string)
| UnsupportedIndexVersion (found expected : string)
| MissingCloneParent (path : string).
(** [Display] of an error, and of the cause of a process that could not be started. *)
Class ErrorText := { error_text : RegistryError -> string; exec_text : GitExecError -> string; spawn_cause : GitExecError -> string }.
Record RegistrySourceFailure : Type := { sf_url : string; sf_message : string }.

(** What is under the registry directory of a checkout; a link is followed. *)
Inductive CheckoutNode : Type :=
| FileNode (text : result RegistryError string)
| DirectoryNode (entries : list (string * CheckoutNode))
| UnreadableDirectory.
Record RegistrySource : Type := { so_canonical_url : string; so_namespace : PluginNamespace; so_registry : CheckoutNode }.

(** ** Scanning ([index.rs]) *)

Definition ORAX : string := "orax.toml".
Fixpoint collect_orax_manifests (dir : FsPath) (node : CheckoutNode) : list (FsPath * result RegistryError string) :=
  match node with
  | DirectoryNode entries =>
      (fix each (entries : list (string * CheckoutNode)) : list (FsPath * result RegistryError string) :=
         match entries with
         | [] => []
         | (name, entry) :: entries =>
             match entry with
             | FileNode text => if bool_decide (name = ORAX) then [(dir ++ [name], text)] else []
             | _ => collect_orax_manifests (dir ++ [name]) entry
             end ++ each entries
         end) entries
  | _ => []
  end.
(** [sort] and [sort_by] keep the order of equal elements. *)
Section sorting.
Context {A : Type} (cmp : A -> A -> comparison).
Fixpoint insert_sorted (x : A) (l : list A) : list A :=
  match l with
  | [] => [x]
  | y :: l' => match cmp x y with Gt => y :: insert_sorted x l' | _ => x :: l end
  end.
Definition stable_sort (l : list A) : list A := foldr insert_sorted [] l.
(** [dedup_by]: of a run of equal elements the first stays. *)
Fixpoint dedup_after (eqb : A -> A -> bool) (kept : A) (l : list A) : list A :=
  match l with
  | [] => []
  | x :: l => if eqb x kept then dedup_after eqb kept l else x :: dedup_after eqb x l
  end.
Definition dedup_by (eqb : A -> A -> bool) (l : list A) : list A :=
  match l with [] => [] | x :: l => x :: dedup_after eqb x l end.
End sorting.
(** Paths compare by their components. *)
Fixpoint path_cmp (p q : FsPath) : comparison :=
  match p, q with
  | [], [] => Eq
  | [], _ => Lt
  | _, [] => Gt
  | a :: p, b :: q => cmp_then (str_cmp a b) (path_cmp p q)
  end.
Definition orax_manifest_paths (source : RegistrySource) : list (FsPath * result RegistryError string) :=
  stable_sort (cmp_on fst path_cmp) (collect_orax_manifests [] (so_registry source)).

Definition INDEX_VERSION : string := "2.0".
Record RegistryIndex : Type := {
  ix_updated_at : Z; ix_version : string; ix_plugins : list RegistryEntry; ix_source_failures : list RegistrySourceFailure;
}.
Record SkippedManifest : Type := { sk_path : FsPath; sk_reason : string }.
Record RegistryBuild : Type := { rb_index : RegistryIndex; rb_skipped : list SkippedManifest }.
(** [PluginManifest::parse]. *)
Class ManifestParser := plugin_manifest_parse : string -> result string PluginManifest.
(** The icon beside the manifest at a path. *)
Class LogoResolver := resolve_logo : RegistrySource -> FsPath -> option Logo.
Section registry.
Context {parser : ManifestParser} {logos : LogoResolver} {texts : ErrorText}.

Definition parse_manifest (text : result RegistryError string) : result RegistryError PluginManifest :=
  text ← text; map_err RegistryManifest (plugin_manifest_parse text).
Definition scan_one (source : RegistrySource) (file : FsPath * result RegistryError string) : list RegistryEntry * list SkippedManifest :=
  match parse_manifest file.2 with
  | Ok manifest =>
      if negb (mf_marketplace_visible manifest) then ([], [])
      else ([from_manifest manifest (so_namespace source) (so_canonical_url source) (resolve_logo source file.1)], [])
  | Err error => ([], [{| sk_path := file.1; sk_reason := error_text error |}])
  end.
Definition scan_source (source : RegistrySource) : list RegistryEntry * list SkippedManifest :=
  let found := scan_one source <$> orax_manifest_paths source in (concat found.*1, concat found.*2).
Definition failed (failures : list RegistrySourceFailure) (url : string) : bool :=
  existsb (fun failure => bool_decide (sf_url failure = url)) failures.
Definition carried_over_entries (failures : list RegistrySourceFailure) (previous : option RegistryIndex) : list RegistryEntry :=
  match previous with
  | None => []
  | Some previous => filter (fun entry => failed failures (en_source_url entry) = true) (ix_plugins previous)
  end.
Definition id_cmp : PluginId -> PluginId -> comparison := cmp_pair str_cmp str_cmp.
Definition build_with_failures (sources : list RegistrySource) (failures : list RegistrySourceFailure) (previous : option RegistryIndex)
    (updated_at : Z) : RegistryBuild :=
  let failures := filter (fun failure => existsb (fun source => bool_decide (so_canonical_url source = sf_url failure)) sources = true) failures in
  let refreshed := filter (fun source => failed failures (so_canonical_url source) = false) sources in
  let found := scan_source <$> refreshed in
  let entries := concat found.*1 ++ carried_over_entries failures previous in
  let entries := dedup_by (fun l r => bool_decide (en_id l = en_id r)) (stable_sort (cmp_on en_id id_cmp) entries) in
  {| rb_index := {| ix_updated_at := updated_at; ix_version := INDEX_VERSION; ix_plugins := entries; ix_source_failures := failures |};
     rb_skipped := concat found.*2 |}.
Definition build_all (sources : list RegistrySource) (updated_at : Z) : RegistryBuild := build_with_failures sources [] None updated_at.

(** ** Lookups *)

Definition names (source : RegistrySource) (id : PluginId) (file : FsPath * result RegistryError string) : bool :=
  match parse_manifest file.2 with Ok manifest => bool_decide (entry_id manifest (so_namespace source) = id) | Err _ => false end.
Definition find_manifest_path (source : RegistrySource) (id : PluginId) : option (FsPath * result RegistryError string) :=
  if bool_decide (so_namespace source = id.1) then find_first (names source id) (orax_manifest_paths source) else None.
Definition resolve_manifest (source : RegistrySource) (id : PluginId) : result RegistryError (option PluginManifest) :=
  match find_manifest_path source id with
  | None => Ok None
  | Some file => manifest ← parse_manifest file.2; Ok (Some manifest)
  end.
Definition resolve_entry_directory (source : RegistrySource) (id : PluginId) : option FsPath :=
  file ← find_manifest_path source id; Some (removelast file.1).
Fixpoint resolve_manifest_all (sources : list RegistrySource) (id : PluginId) : result RegistryError (option PluginManifest) :=
  match sources with
  | [] => Ok None
  | source :: sources =>
      manifest ← resolve_manifest source id;
      match manifest with Some manifest => Ok (Some manifest) | None => resolve_manifest_all sources id end
  end.
(** The cache, given what reading and decoding the file gave. *)
Definition load (decoded : result RegistryError RegistryIndex) : result RegistryError RegistryIndex :=
  index ← decoded;
  reject_if (negb (bool_decide (ix_version index = INDEX_VERSION))) (UnsupportedIndexVersion (ix_version index) INDEX_VERSION);;
  Ok index.
Definition is_unusable_cache (error : RegistryError) : bool :=
  match error with
  | RegistryIo not_found _ => not_found
  | RegistryJson _ | UnsupportedIndexVersion _ _ => true
  | RegistryGit _ | RegistryManifest _ | RegistrySourceUrl _ | RegistrySourceBranch _ | MissingCloneParent _ => false
  end.

(** *** What a failed refresh shows *)

Definition tagged (line : string) : bool := starts_with "fatal:" line || starts_with "error:" line.
Definition sync_error_message (error : RegistryError) : string :=
  match error with
  | RegistryGit (Exec exec) =>
      match exec with
      | NonZeroExit code _ _ stderr =>
          let lines := filter (fun line => line <> "") (trim <$> lines stderr) in
          let diagnostics := filter (fun line => tagged line = true) lines in
          match diagnostics, last lines with
          | _ :: _, _ => join " " diagnostics
          | [], Some last => last
          | [], None =>
              match code with
              | Some code => "git exited with code " +:+ pretty code
              | None => "git was terminated before it exited"
              end
          end
      | SpawnFailed _ => "failed to start git: " +:+ spawn_cause exec
      | GitNotFound | OutputTooLarge _ _ | OutputReadFailed _ => exec_text exec
      end
  | _ => error_text error
  end.
End registry.

(** ** Sorting and deduplication *)

Section sorting_laws.
Context {A K : Type} (key : A -> K) (cmp : K -> K -> comparison) (ord : Ord cmp).
Lemma insert_perm x l : insert_sorted (cmp_on key cmp) x l ≡ₚ x :: l.
Proof. induction l as [|y l IH]; [done|]. cbn [insert_sorted]. destruct (cmp_on key cmp x y); [done..|]. rewrite IH. apply Permutation_swap. Qed.
Lemma stable_sort_perm l : stable_sort (cmp_on key cmp) l ≡ₚ l.
Proof. induction l as [|x l IH]; [done|]. cbn [stable_sort foldr]. fold (stable_sort (cmp_on key cmp) l). by rewrite insert_perm, IH. Qed.
Definition key_le (x y : A) : Prop := cmp_le cmp (key x) (key y).
Lemma insert_key_sorted x l : StronglySorted key_le l -> StronglySorted key_le (insert_sorted (cmp_on key cmp) x l).
Proof.
  induction 1 as [|y l Hl IH Hy]; [by repeat constructor|]. cbn [insert_sorted]. destruct (cmp_on key cmp x y) eqn:E.
  3: { constructor; [done|]. rewrite insert_perm. constructor; [|done]. destruct (cmp_le_total ord (key x) (key y)) as [H|H]; [|exact H].
       by unfold cmp_on in E. }
  all: assert (Hxy : key_le x y) by (unfold key_le, cmp_le; unfold cmp_on in E; by rewrite E).
  all: constructor; [by constructor|]; constructor; [done|]; eapply Forall_impl; [exact Hy|]; intros z Hz; by eapply (cmp_le_trans ord).
Qed.
Lemma stable_sort_sorted l : StronglySorted key_le (stable_sort (cmp_on key cmp) l).
Proof. induction l as [|x l IH]; [constructor|]. by apply insert_key_sorted. Qed.
(** The elements with one key keep their order. *)
Lemma insert_stable p x l : (forall y z, p y = true -> p z = true -> cmp (key y) (key z) = Eq) ->
  filter (fun y => p y = true) (insert_sorted (cmp_on key cmp) x l) = filter (fun y => p y = true) (x :: l).
Proof.
  intros Hp. induction l as [|y l IH]; [done|]. cbn [insert_sorted]. destruct (cmp_on key cmp x y) eqn:E; [done..|].
  rewrite !filter_cons in *. rewrite IH. destruct (p x) eqn:Hx, (p y) eqn:Hy; try done. unfold cmp_on in E. by rewrite (Hp x y Hx Hy) in E.
Qed.
Lemma stable_sort_stable p l : (forall y z, p y = true -> p z = true -> cmp (key y) (key z) = Eq) ->
  filter (fun y => p y = true) (stable_sort (cmp_on key cmp) l) = filter (fun y => p y = true) l.
Proof.
  intros Hp. induction l as [|x l IH]; [done|]. cbn [stable_sort foldr]. fold (stable_sort (cmp_on key cmp) l).
  rewrite insert_stable by done. by rewrite !filter_cons, IH.
Qed.
Context `{!EqDecision K}.
Notation same := (fun x y => bool_decide (key x = key y)).
Lemma dedup_find (k : K) l : find_first (fun x => bool_decide (key x = k)) (dedup_by same l) = find_first (fun x => bool_decide (key x = k)) l.
Proof.
  assert (Hgo : forall kept l, key kept <> k ->
    find_first (fun x => bool_decide (key x = k)) (dedup_after same kept l) = find_first (fun x => bool_decide (key x = k)) l).
  { intros kept l'. revert kept. induction l' as [|x l' IH]; intros kept Hk; [done|]. cbn [dedup_after]. case_bool_decide as E.
    - rewrite IH by done. cbn [find_first]. by rewrite bool_decide_eq_false_2 by congruence.
    - cbn [find_first]. case_bool_decide as E1; [done|]. by apply IH. }
  destruct l as [|x l]; [done|]. cbn [dedup_by find_first]. case_bool_decide as E; [done|by apply Hgo].
Qed.
Lemma dedup_sorted l : StronglySorted key_le l -> StronglySorted (fun x y => cmp (key x) (key y) = Lt) (dedup_by same l).
Proof.
  assert (Hlt : forall x y, key_le x y -> key x <> key y -> cmp (key x) (key y) = Lt).
  { intros x y H Hne. unfold key_le, cmp_le in H. destruct (cmp (key x) (key y)) eqn:E; [|done|done]. by apply (ord_eq ord) in E. }
  assert (Hgo : forall l kept, StronglySorted key_le (kept :: l) ->
    StronglySorted (fun x y => cmp (key x) (key y) = Lt) (kept :: dedup_after same kept l)
    /\ Forall (key_le kept) (dedup_after same kept l)).
  { induction l0 as [|x l0 IH]; intros kept Hs; [by repeat constructor|]. cbn [dedup_after].
    inversion Hs as [|? ? Hs1 Hall]; subst. inversion Hall as [|? ? Hx Hrest]; subst. case_bool_decide as E.
    - apply IH. inversion Hs1; subst. by constructor.
    - destruct (IH x Hs1) as [H1 H2]. assert (Hk : cmp (key kept) (key x) = Lt) by (apply Hlt; [done|congruence]).
      assert (Hall' : Forall (key_le kept) (dedup_after same x l0)) by (eapply Forall_impl; [exact H2|]; intros z Hz; by eapply (cmp_le_trans ord)).
      split; [|by constructor]. constructor; [done|]. constructor; [done|]. inversion H1 as [|? ? _ H3]; subst.
      eapply Forall_impl; [exact H3|]. intros z Hz. cbn in Hz. exact (ord_trans ord _ _ _ Hk Hz). }
  destruct l as [|x l]; [constructor|]. intros H. by apply Hgo.
Qed.
End sorting_laws.

(** ** What the index lists *)

Section index_laws.
Context {parser : ManifestParser} {logos : LogoResolver} {texts : ErrorText}.
Definition has_id (id : PluginId) (entry : RegistryEntry) : bool := bool_decide (en_id entry = id).
Lemma id_ord : Ord id_cmp.
Proof. apply ord_pair; apply str_ord. Qed.
Lemma find_first_filter {A} (p : A -> bool) l : find_first p l = head (filter (fun x => p x = true) l).
Proof. induction l as [|x l IH]; [done|]. rewrite filter_cons. cbn [find_first]. destruct (p x); [done|]. exact IH. Qed.
Lemma find_first_app_or {A} (p : A -> bool) l k : find_first p (l ++ k) = match find_first p l with Some x => Some x | None => find_first p k end.
Proof. induction l as [|x l IH]; [done|]. cbn. by destruct (p x). Qed.
(** What was found, in the order of the sources, and then what the failed ones had. *)
Definition candidates (sources : list RegistrySource) (failures : list RegistrySourceFailure) (previous : option RegistryIndex) : list RegistryEntry :=
  let failures := filter (fun failure => existsb (fun source => bool_decide (so_canonical_url source = sf_url failure)) sources = true) failures in
  concat (scan_source <$> filter (fun source => failed failures (so_canonical_url source) = false) sources).*1 ++ carried_over_entries failures previous.
Lemma plugins_candidates sources failures previous t :
  ix_plugins (rb_index (build_with_failures sources failures previous t))
  = dedup_by (fun l r => bool_decide (en_id l = en_id r)) (stable_sort (cmp_on en_id id_cmp) (candidates sources failures previous)).
Proof. done. Qed.
Lemma listed_first sources failures previous t id :
  find_first (has_id id) (ix_plugins (rb_index (build_with_failures sources failures previous t))) = find_first (has_id id) (candidates sources failures previous).
Proof.
  rewrite plugins_candidates. unfold has_id. rewrite (dedup_find en_id). rewrite !find_first_filter. f_equal.
  apply stable_sort_stable. intros y z Hy%bool_decide_eq_true_1 Hz%bool_decide_eq_true_1. rewrite Hy, Hz. apply (ord_refl id_ord).
Qed.
Lemma listed_sorted sources failures previous t :
  StronglySorted (fun a b => id_cmp (en_id a) (en_id b) = Lt) (ix_plugins (rb_index (build_with_failures sources failures previous t))).
Proof. rewrite plugins_candidates. apply (dedup_sorted en_id id_cmp id_ord), stable_sort_sorted, id_ord. Qed.
Lemma listed_lookup sources failures previous t entry :
  entry ∈ ix_plugins (rb_index (build_with_failures sources failures previous t)) ->
  find_first (has_id (en_id entry)) (candidates sources failures previous) = Some entry.
Proof.
  rewrite <- (listed_first sources failures previous t). pose proof (listed_sorted sources failures previous t) as Hs. revert Hs.
  generalize (ix_plugins (rb_index (build_with_failures sources failures previous t))). induction 1 as [|x l _ IH Hx]; [by intros ?%not_elem_of_nil|].
  intros [->|Hin]%elem_of_cons; cbn [find_first]; unfold has_id at 1; [by rewrite bool_decide_eq_true_2|].
  rewrite bool_decide_eq_false_2; [by apply IH|]. rewrite Forall_forall in Hx. intros E. specialize (Hx _ Hin). cbn in Hx.
  by rewrite E, (ord_refl id_ord) in Hx.
Qed.

(** Whatever the sources hold and whichever of them failed, the index lists every id once and in order, and under each id the first
    listing there is: in the order of the refreshed sources, within a source of the paths, and then of the earlier index for the failed ones. *)
Theorem index_lists_first sources failures previous t :
  let plugins := ix_plugins (rb_index (build_with_failures sources failures previous t)) in
  StronglySorted (fun a b => id_cmp (en_id a) (en_id b) = Lt) plugins
  /\ (forall entry, entry ∈ plugins <-> find_first (has_id (en_id entry)) (candidates sources failures previous) = Some entry)
  /\ (forall entry, entry ∈ candidates sources failures previous -> exists listed, listed ∈ plugins /\ en_id listed = en_id entry).
Proof.
  intros plugins. split_and!; [apply listed_sorted| |].
  - intros entry. split; [apply listed_lookup|]. rewrite <- (listed_first sources failures previous t). by intros [? _]%find_first_Some.
  - intros entry Hin. destruct (proj2 (find_first_is_Some (has_id (en_id entry)) (candidates sources failures previous))) as [listed Hl].
    { exists entry. split; [done|]. by apply bool_decide_eq_true_2. }
    exists listed. pose proof (find_first_Some _ _ _ Hl) as [_ E%bool_decide_eq_true_1]. split; [|done].
    rewrite <- (listed_first sources failures previous t) in Hl. by apply find_first_Some in Hl as [? _].
Qed.

(** *** Installing what is listed *)

Definition all_visible (source : RegistrySource) : Prop :=
  forall file manifest, file ∈ orax_manifest_paths source -> parse_manifest file.2 = Ok manifest -> mf_marketplace_visible manifest = true.
Lemma scan_find source id files :
  (forall file manifest, file ∈ files -> parse_manifest file.2 = Ok manifest -> mf_marketplace_visible manifest = true) ->
  find_first (has_id id) (concat (scan_one source <$> files).*1)
  = file ← find_first (names source id) files;
    match parse_manifest file.2 with
    | Ok manifest => Some (from_manifest manifest (so_namespace source) (so_canonical_url source) (resolve_logo source file.1))
    | Err _ => None
    end.
Proof.
  induction files as [|file files IH]; intros Hv; [done|]. rewrite !fmap_cons. cbn [concat find_first]. rewrite find_first_app_or.
  rewrite IH by (intros f m Hf; apply Hv; by right). unfold scan_one at 1, names at 2.
  destruct (parse_manifest file.2) as [manifest|] eqn:E; [|done]. rewrite (Hv file manifest) by (done || by left). cbn [negb fst].
  cbn [find_first]. unfold has_id. cbn [from_manifest en_id]. case_bool_decide; [|done]. cbn [mbind option_bind]. by rewrite E.
Qed.
Lemma scan_namespace source entry : entry ∈ (scan_source source).1 -> (en_id entry).1 = so_namespace source.
Proof.
  unfold scan_source. cbn [fst]. intros (l & Hl & Hin)%list_elem_of_In%in_concat. apply list_elem_of_In, list_elem_of_fmap in Hl as (x & -> & Hx). apply list_elem_of_In in Hin.
  apply list_elem_of_fmap in Hx as (file & -> & _). unfold scan_one in Hin. destruct (parse_manifest file.2) as [m|]; [|by apply not_elem_of_nil in Hin].
  destruct (negb _); [by apply not_elem_of_nil in Hin|]. by apply list_elem_of_singleton in Hin as ->.
Qed.
Lemma resolve_scan source id : all_visible source ->
  match find_first (has_id id) (scan_source source).1 with
  | Some entry => exists manifest path, resolve_manifest source id = Ok (Some manifest)
      /\ entry = from_manifest manifest (so_namespace source) (so_canonical_url source) (resolve_logo source path)
  | None => resolve_manifest source id = Ok None
  end.
Proof.
  intros Hv. destruct (find_first (has_id id) (scan_source source).1) as [entry|] eqn:E.
  - pose proof (find_first_Some _ _ _ E) as [Hin Hid%bool_decide_eq_true_1]. pose proof (scan_namespace _ _ Hin) as Hns. rewrite Hid in Hns.
    unfold scan_source in E. cbn [fst] in E. rewrite scan_find in E by apply Hv. apply bind_Some in E as (file & Hf & E).
    destruct (parse_manifest file.2) as [manifest|] eqn:Ep; [|done]. injection E as <-. exists manifest, file.1. split; [|done].
    unfold resolve_manifest, find_manifest_path. rewrite bool_decide_eq_true_2 by done. rewrite Hf, Ep. done.
  - unfold resolve_manifest, find_manifest_path. case_bool_decide as Hns; [|done]. unfold scan_source in E. cbn [fst] in E.
    rewrite scan_find in E by apply Hv. destruct (find_first (names source id) _) as [file|] eqn:Hf; [|done]. cbn in E.
    apply find_first_Some in Hf as [_ Hn]. unfold names in Hn. by destruct (parse_manifest file.2).
Qed.
Lemma resolve_sources sources id : (forall source, source ∈ sources -> all_visible source) ->
  match find_first (has_id id) (concat (scan_source <$> sources).*1) with
  | Some entry => exists source manifest path, source ∈ sources /\ resolve_manifest_all sources id = Ok (Some manifest)
      /\ entry = from_manifest manifest (so_namespace source) (so_canonical_url source) (resolve_logo source path)
  | None => resolve_manifest_all sources id = Ok None
  end.
Proof.
  induction sources as [|source sources IH]; intros Hv; [done|]. rewrite !fmap_cons. cbn [concat resolve_manifest_all]. rewrite find_first_app_or.
  pose proof (resolve_scan source id (Hv source ltac:(by left))) as Hs. destruct (find_first (has_id id) (scan_source source).1) as [entry|].
  - destruct Hs as (manifest & path & Hr & ->). exists source, manifest, path. rewrite Hr. split; [by left|done].
  - rewrite Hs. cbn [mbind result_bind]. specialize (IH ltac:(intros s Hin; apply Hv; by right)).
    destruct (find_first (has_id id) (concat _)) as [entry|]; [|exact IH]. destruct IH as (s & m & p & Hin & Hr & ->).
    exists s, m, p. split; [by right|done].
Qed.

(** C37: When no manifest of the sources is hidden, what is listed is what is installed: under the id of a listing the sources resolve the
    very manifest the listing was made from, and an id that is not listed resolves to nothing. *)
Theorem listed_is_installed sources t :
  (forall source, source ∈ sources -> all_visible source) ->
  let plugins := ix_plugins (rb_index (build_all sources t)) in
  (forall entry, entry ∈ plugins -> exists source manifest path, source ∈ sources /\ resolve_manifest_all sources (en_id entry) = Ok (Some manifest)
      /\ entry = from_manifest manifest (so_namespace source) (so_canonical_url source) (resolve_logo source path))
  /\ (forall id, (forall entry, entry ∈ plugins -> en_id entry <> id) -> resolve_manifest_all sources id = Ok None).
Proof.
  intros Hv plugins. assert (Hc : candidates sources [] None = concat (scan_source <$> sources).*1).
  { unfold candidates. cbn [carried_over_entries]. rewrite app_nil_r. do 3 f_equal. change (filter _ []) with (@nil RegistrySourceFailure).
    clear. induction sources as [|s l IH]; [done|]. rewrite filter_cons_True by done. by rewrite IH. }
  split.
  - intros entry Hin. apply listed_lookup in Hin. rewrite Hc in Hin. pose proof (resolve_sources sources (en_id entry) Hv) as H. by rewrite Hin in H.
  - intros id Hno. pose proof (resolve_sources sources id Hv) as H. rewrite <- Hc, <- (listed_first sources [] None t) in H.
    destruct (find_first (has_id id) _) as [entry|] eqn:E; [|exact H]. apply find_first_Some in E as [Hin Hid%bool_decide_eq_true_1].
    by destruct (Hno entry Hin).
Qed.
End index_laws.

(** A source of one listing, and one that has a hidden manifest of the same name before the listed one. *)
Notation manifest_version v visible := {| mf_name := "weather"; mf_title := "Weather"; mf_kind := "workbench"; mf_version := v; mf_description := ""; mf_marketplace_visible := visible; mf_release_source := Some Universal; mf_pack_members := None |} (only parsing).
Definition sample_manifests : ManifestParser := fun text =>
  if bool_decide (text = "1") then Ok (manifest_version "1.0.0" false) else if bool_decide (text = "2") then Ok (manifest_version "2.0.0" true) else Err "invalid".
Definition no_logos : LogoResolver := fun _ _ => None.
Definition no_texts : ErrorText := {| error_text := fun _ => "error"; exec_text := fun _ => "git"; spawn_cause := fun _ => "cause" |}.
Definition one_listing : RegistrySource :=
  {| so_canonical_url := "https://a.example/r"; so_namespace := "official"; so_registry := DirectoryNode [("w", DirectoryNode [(ORAX, FileNode (Ok "2"))]); ("x", DirectoryNode [(ORAX, FileNode (Ok "?"))])] |}.
Definition hidden_duplicate : RegistrySource :=
  {| so_canonical_url := "https://a.example/r"; so_namespace := "official"; so_registry := DirectoryNode [("w2", DirectoryNode [(ORAX, FileNode (Ok "2"))]); ("w1", DirectoryNode [(ORAX, FileNode (Ok "1"))])] |}.
Lemma listed_is_installed_witness :
  @resolve_manifest_all sample_manifests [one_listing] ("official", "absent") = Ok None.
Proof.
  apply (@listed_is_installed sample_manifests no_logos no_texts [one_listing] 0).
  - intros source [-> |H]%elem_of_cons; [|by apply not_elem_of_nil in H]. intros file manifest Hf Hm. vm_compute in Hf.
    apply elem_of_cons in Hf as [-> |[-> |H]%elem_of_cons]; [by injection Hm as <-|by vm_compute in Hm|by apply not_elem_of_nil in H].
  - vm_compute. intros entry [-> |H]%elem_of_cons; [done|by apply not_elem_of_nil in H].
Defined.
(** The index lists version 2 under an id for which an installation resolves version 1. *)
Lemma hidden_duplicate_installed :
  (en_id <$> ix_plugins (rb_index (@build_all sample_manifests no_logos no_texts [hidden_duplicate] 0))) = [("official", "weather")]
  /\ (en_version <$> ix_plugins (rb_index (@build_all sample_manifests no_logos no_texts [hidden_duplicate] 0))) = ["2.0.0"]
  /\ @resolve_manifest_all sample_manifests [hidden_duplicate] ("official", "weather") = Ok (Some (manifest_version "1.0.0" false)).
Proof. by vm_compute. Qed.
