(* ===== verification/ProcessHost.v ===== *)
(** * The durable state of the process host ([crates/process-runtime/src/host_state])

    The host records in a journal what it is responsible for before it acts: scopes, runs, the one launch of a guardian per
    scope, stop and close intents, and the last facts about runs and scopes.  The SQLite file is its rows; identities are
    numbers; what the database, the file system and the encoder answer is an argument of every operation, and the process may die
    at any point between operations. *)

From stdpp Require Import gmap relations strings.
From S2P Require Import Prelude RustStr.
Local Open Scope ora_scope.

(** ** Identities and facts ([crates/process-protocol/src]) *)

Notation ScopeId := N (only parsing).
Notation RunId := N (only parsing).
Notation GuardianInstanceId := N (only parsing).
Notation HostInstanceId := N (only parsing).
Record HostBinding : Type := { hb_epoch : N; hb_instance : HostInstanceId }.
#[export] Instance HostBinding_eq_dec : EqDecision HostBinding.
Proof. solve_decision. Defined.
Record ScopeCreationIntent : Type := { ci_scope : ScopeId; ci_guardian : GuardianInstanceId; ci_created_by : HostBinding }.
#[export] Instance ScopeCreationIntent_eq_dec : EqDecision ScopeCreationIntent.
Proof. solve_decision. Defined.
Inductive DescendantPolicy : Type := DescendantCleanup (grace : N) | WaitForAll.
Inductive RunLifetime : Type := Independent | TerminateOnOwnerExit (pid start_ticks : N).
Inductive OutputPolicy : Type := DiscardOutput | CaptureOutput (stdout_limit stderr_limit : N).
Record RunSpec : Type := {
  rs_program : string; rs_args : list string; rs_cwd : string; rs_env : gmap string string; rs_descendants : DescendantPolicy;
  rs_output : OutputPolicy; rs_lifetime : RunLifetime;
}.
Inductive GuardianHostDisconnect : Type := KeepRunning.
Record HostRunIntent : Type := { hr_scope : ScopeId; hr_run : RunId; hr_spec : RunSpec; hr_host_disconnect : GuardianHostDisconnect }.
#[export] Instance DescendantPolicy_eq_dec : EqDecision DescendantPolicy.
Proof. solve_decision. Defined.
#[export] Instance RunLifetime_eq_dec : EqDecision RunLifetime.
Proof. solve_decision. Defined.
#[export] Instance OutputPolicy_eq_dec : EqDecision OutputPolicy.
Proof. solve_decision. Defined.
#[export] Instance RunSpec_eq_dec : EqDecision RunSpec.
Proof. solve_decision. Defined.
#[export] Instance GuardianHostDisconnect_eq_dec : EqDecision GuardianHostDisconnect.
Proof. solve_decision. Defined.
#[export] Instance HostRunIntent_eq_dec : EqDecision HostRunIntent.
Proof. solve_decision. Defined.
Inductive ExitOutcome : Type := ExitCode (code : Z) | ExitSignal (signal : Z) | ExitUnknown.
Inductive DirectProcessState : Type := DirectNotStarted | DirectRunning | DirectExited (outcome : ExitOutcome) | DirectUnknown.
Inductive CleanupEvidence : Type := ConfirmedQuiescence | BestEffortComplete.
Inductive CleanupState : Type := CleanupPending | CleanupBlocked (reason : string) | CleanupComplete (evidence : CleanupEvidence).
Inductive LaunchFact : Type := LaunchNotStarted (reason : string) | LaunchStarted | LaunchUnknown (reason : string).
Inductive ScopeState : Type := ScopeOpen | ScopeClosing | ScopeClosed (evidence : CleanupEvidence).
Record RunSnapshot : Type := { sn_id : RunId; sn_launch : LaunchFact; sn_direct : DirectProcessState; sn_cleanup : CleanupState }.
#[export] Instance ExitOutcome_eq_dec : EqDecision ExitOutcome.
Proof. solve_decision. Defined.
#[export] Instance DirectProcessState_eq_dec : EqDecision DirectProcessState.
Proof. solve_decision. Defined.
#[export] Instance CleanupEvidence_eq_dec : EqDecision CleanupEvidence.
Proof. solve_decision. Defined.
#[export] Instance CleanupState_eq_dec : EqDecision CleanupState.
Proof. solve_decision. Defined.
#[export] Instance LaunchFact_eq_dec : EqDecision LaunchFact.
Proof. solve_decision. Defined.
#[export] Instance ScopeState_eq_dec : EqDecision ScopeState.
Proof. solve_decision. Defined.
#[export] Instance RunSnapshot_eq_dec : EqDecision RunSnapshot.
Proof. solve_decision. Defined.

Inductive ProcessStateError : Type := ProcessIo | ProcessSqlite | ProcessRejected (reason : string) | ContradictoryRunObservation (run : RunId).

(** ** The journal *)

Definition JOURNAL_VERSION : N := 6.
(** The rows of a file whose schema is the one of its version; a table a version does not have is empty. *)
Record Journal : Type := {
  jn_version : N;
  jn_binding : HostBinding;
  jn_scopes : gmap ScopeId ScopeCreationIntent;
  jn_launches : gset ScopeId;
  jn_runs : gmap RunId HostRunIntent;
  jn_stops : gset RunId;
  jn_closes : gset ScopeId;
  jn_run_observations : gmap RunId RunSnapshot;
  jn_scope_observations : gmap ScopeId ScopeState;
}.
(** One table replaced. *)
Definition set_scopes (x : gmap ScopeId ScopeCreationIntent) (j : Journal) : Journal :=
  {| jn_version := jn_version j; jn_binding := jn_binding j; jn_scopes := x; jn_launches := jn_launches j; jn_runs := jn_runs j;
     jn_stops := jn_stops j; jn_closes := jn_closes j; jn_run_observations := jn_run_observations j; jn_scope_observations := jn_scope_observations j |}.
Definition set_launches (x : gset ScopeId) (j : Journal) : Journal :=
  {| jn_version := jn_version j; jn_binding := jn_binding j; jn_scopes := jn_scopes j; jn_launches := x; jn_runs := jn_runs j;
     jn_stops := jn_stops j; jn_closes := jn_closes j; jn_run_observations := jn_run_observations j; jn_scope_observations := jn_scope_observations j |}.
Definition set_runs (x : gmap RunId HostRunIntent) (j : Journal) : Journal :=
  {| jn_version := jn_version j; jn_binding := jn_binding j; jn_scopes := jn_scopes j; jn_launches := jn_launches j; jn_runs := x;
     jn_stops := jn_stops j; jn_closes := jn_closes j; jn_run_observations := jn_run_observations j; jn_scope_observations := jn_scope_observations j |}.
Definition set_stops (x : gset RunId) (j : Journal) : Journal :=
  {| jn_version := jn_version j; jn_binding := jn_binding j; jn_scopes := jn_scopes j; jn_launches := jn_launches j; jn_runs := jn_runs j;
     jn_stops := x; jn_closes := jn_closes j; jn_run_observations := jn_run_observations j; jn_scope_observations := jn_scope_observations j |}.
Definition set_closes (x : gset ScopeId) (j : Journal) : Journal :=
  {| jn_version := jn_version j; jn_binding := jn_binding j; jn_scopes := jn_scopes j; jn_launches := jn_launches j; jn_runs := jn_runs j;
     jn_stops := jn_stops j; jn_closes := x; jn_run_observations := jn_run_observations j; jn_scope_observations := jn_scope_observations j |}.
Definition set_run_observations (x : gmap RunId RunSnapshot) (j : Journal) : Journal :=
  {| jn_version := jn_version j; jn_binding := jn_binding j; jn_scopes := jn_scopes j; jn_launches := jn_launches j; jn_runs := jn_runs j;
     jn_stops := jn_stops j; jn_closes := jn_closes j; jn_run_observations := x; jn_scope_observations := jn_scope_observations j |}.
Definition set_scope_observations (x : gmap ScopeId ScopeState) (j : Journal) : Journal :=
  {| jn_version := jn_version j; jn_binding := jn_binding j; jn_scopes := jn_scopes j; jn_launches := jn_launches j; jn_runs := jn_runs j;
     jn_stops := jn_stops j; jn_closes := jn_closes j; jn_run_observations := jn_run_observations j; jn_scope_observations := x |}.
Definition initialize (binding : HostBinding) : Journal :=
  {| jn_version := JOURNAL_VERSION; jn_binding := binding; jn_scopes := ∅; jn_launches := ∅; jn_runs := ∅; jn_stops := ∅; jn_closes := ∅;
     jn_run_observations := ∅; jn_scope_observations := ∅ |}.
Definition every {K A} `{Countable K} (m : gmap K A) (p : K -> A -> bool) : bool := forallb (fun kv => p kv.1 kv.2) (map_to_list m).
Definition contains (j : Journal) (scope : ScopeId) : bool := bool_decide (is_Some (jn_scopes j !! scope)).
Definition known_run (j : Journal) (run : RunId) : bool := bool_decide (is_Some (jn_runs j !! run)).
Definition inspect_runs (j : Journal) : result ProcessStateError unit :=
  reject_if (negb (every (jn_runs j) (fun run intent => bool_decide (hr_run intent = run)))) (ProcessRejected "Run intent index does not match its payload");;
  reject_if (negb (every (jn_runs j) (fun _ intent => contains j (hr_scope intent)))) (ProcessRejected "Run intent has no scope responsibility").
Definition inspect_control (j : Journal) : result ProcessStateError unit :=
  reject_if (negb (forallb (known_run j) (elements (jn_stops j))) || negb (forallb (contains j) (elements (jn_closes j))))
    (ProcessRejected "orphaned host control intent").
Definition inspect_observations (j : Journal) : result ProcessStateError unit :=
  reject_if (negb (every (jn_run_observations j) (fun run snapshot => bool_decide (sn_id snapshot = run)))) (ProcessRejected "Run observation identity mismatch");;
  reject_if (negb (every (jn_run_observations j) (fun run _ => known_run j run)) || negb (every (jn_scope_observations j) (fun scope _ => contains j scope)))
    (ProcessRejected "orphaned host observation").
Definition contradicts (binding : HostBinding) (intent : ScopeCreationIntent) : bool :=
  ((hb_epoch binding <? hb_epoch (ci_created_by intent))%N
   || bool_decide (hb_epoch (ci_created_by intent) = hb_epoch binding) && negb (bool_decide (hb_instance (ci_created_by intent) = hb_instance binding))).
Definition inspect (existing_scopes : gset ScopeId) (j : Journal) : result ProcessStateError (HostBinding * N) :=
  reject_if (negb (1 <=? jn_version j)%N || (JOURNAL_VERSION <? jn_version j)%N) (ProcessRejected "unknown journal identity or version");;
  reject_if (negb (every (jn_scopes j) (fun _ intent => negb (contradicts (jn_binding j) intent)))) (ProcessRejected "creation intent contradicts host binding");;
  reject_if (negb (forallb (contains j) (elements existing_scopes))) (ProcessRejected "scope directory has no recorded creation responsibility");;
  (if (2 <=? jn_version j)%N then reject_if (negb (forallb (contains j) (elements (jn_launches j)))) (ProcessRejected "orphaned guardian launch record") else Ok ());;
  (if (4 <=? jn_version j)%N then inspect_runs j else Ok ());;
  (if (5 <=? jn_version j)%N then inspect_control j else Ok ());;
  (if bool_decide (jn_version j = JOURNAL_VERSION) then inspect_observations j else Ok ());;
  Ok (jn_binding j, jn_version j).
(** Tables that are added start empty, and the launches of version 2 keep their scopes. *)
Definition advance_binding (binding : HostBinding) (j : Journal) : Journal :=
  {| jn_version := JOURNAL_VERSION; jn_binding := binding; jn_scopes := jn_scopes j;
     jn_launches := if (jn_version j <? 2)%N then ∅ else jn_launches j;
     jn_runs := if (jn_version j <? 4)%N then ∅ else jn_runs j;
     jn_stops := if (jn_version j <? 5)%N then ∅ else jn_stops j;
     jn_closes := if (jn_version j <? 5)%N then ∅ else jn_closes j;
     jn_run_observations := if (jn_version j <? JOURNAL_VERSION)%N then ∅ else jn_run_observations j;
     jn_scope_observations := if (jn_version j <? JOURNAL_VERSION)%N then ∅ else jn_scope_observations j |}.

(** ** The operations of a host *)

(** What the environment lets succeed: opening and listing the directory under its lock, reading the journal, committing,
    syncing the directory, encoding a message, the private directory of a scope, and everything after it up to the start of
    the guardian. *)
Record HostIo : Type := { io_layout : bool; io_read : bool; io_commit : bool; io_sync : bool; io_encode : bool; io_mkdir : bool; io_spawn : bool }.
Definition all_well : HostIo :=
  {| io_layout := true; io_read := true; io_commit := true; io_sync := true; io_encode := true; io_mkdir := true; io_spawn := true |}.
(** The journal, the directories of scopes, the endpoint sockets by name, each with whether its mode is [0600], and the
    scopes a guardian was started for. *)
Record HostDisk : Type := { hd_journal : Journal; hd_scope_dirs : gset ScopeId; hd_sockets : gmap string bool; hd_started : list ScopeId }.
Definition with_journal (j : Journal) (d : HostDisk) : HostDisk :=
  {| hd_journal := j; hd_scope_dirs := hd_scope_dirs d; hd_sockets := hd_sockets d; hd_started := hd_started d |}.
Definition with_sockets (x : gmap string bool) (d : HostDisk) : HostDisk :=
  {| hd_journal := hd_journal d; hd_scope_dirs := hd_scope_dirs d; hd_sockets := x; hd_started := hd_started d |}.
Section operations.
Context (io : HostIo).
Definition reading : result ProcessStateError unit := reject_if (negb (io_read io)) ProcessSqlite.
Definition layout_sync : result ProcessStateError unit := reject_if (negb (io_sync io)) ProcessIo.
(** A transaction commits or leaves the journal alone; after it the directory is synced. *)
Definition committing {A} (j : Journal) (a : A) (d : HostDisk) : result ProcessStateError A * HostDisk :=
  if io_commit io then (layout_sync;; Ok a, with_journal j d) else (Err ProcessSqlite, d).
Definition refusing {A} (checks : result ProcessStateError A) (d : HostDisk) (next : A -> result ProcessStateError unit * HostDisk) :
    result ProcessStateError unit * HostDisk :=
  match checks with Err e => (Err e, d) | Ok a => next a end.

Definition record_scope_intent (binding : HostBinding) (scope : ScopeId) (guardian : GuardianInstanceId) (d : HostDisk) :
    result ProcessStateError ScopeCreationIntent * HostDisk :=
  let j := hd_journal d in
  match reading, jn_scopes j !! scope with
  | Err e, _ => (Err e, d)
  | Ok _, Some intent => (layout_sync;; Ok intent, d)
  | Ok _, None =>
      if bool_decide (scope ∈ hd_scope_dirs d) then (Err (ProcessRejected "scope path already exists without a creation intent"), d)
      else
        let intent := {| ci_scope := scope; ci_guardian := guardian; ci_created_by := binding |} in
        if negb (every (jn_scopes j) (fun _ other => negb (bool_decide (ci_guardian other = guardian)))) then (Err ProcessSqlite, d)
        else committing (set_scopes (<[scope := intent]> (jn_scopes j)) j) intent d
  end.
Definition scope_close_requested (scope : ScopeId) (j : Journal) : bool := bool_decide (scope ∈ jn_closes j).
Definition run_stop_requested (run : RunId) (j : Journal) : result ProcessStateError bool :=
  reading;;
  intent ← ok_or (jn_runs j !! run) (ProcessRejected "unknown host Run");
  Ok (scope_close_requested (hr_scope intent) j || bool_decide (run ∈ jn_stops j)).
Definition record_run_intent (intent : HostRunIntent) (d : HostDisk) : result ProcessStateError HostRunIntent * HostDisk :=
  let j := hd_journal d in
  match reading, jn_runs j !! hr_run intent with
  | Err e, _ => (Err e, d)
  | Ok _, Some existing =>
      if bool_decide (existing = intent) then (layout_sync;; Ok existing, d) else (Err (ProcessRejected "RunId already has a different intent"), d)
  | Ok _, None =>
      match jn_scopes j !! hr_scope intent with
      | None => (Err (ProcessRejected "Run intent requires an existing scope intent"), d)
      | Some _ =>
          if scope_close_requested (hr_scope intent) j then (Err (ProcessRejected "host Scope is closing"), d)
          else if negb (io_encode io) then (Err ProcessIo, d)
          else committing (set_runs (<[hr_run intent := intent]> (jn_runs j)) j) intent d
      end
  end.
Definition request_run_stop (run : RunId) (d : HostDisk) : result ProcessStateError unit * HostDisk :=
  let j := hd_journal d in
  refusing (reading;; ok_or (jn_runs j !! run) (ProcessRejected "unknown host Run")) d (fun _ =>
    committing (set_stops ({[run]} ∪ jn_stops j) j) () d).
Definition request_scope_close (scope : ScopeId) (d : HostDisk) : result ProcessStateError unit * HostDisk :=
  let j := hd_journal d in
  refusing (reading;; ok_or (jn_scopes j !! scope) (ProcessRejected "unknown host Scope")) d (fun _ =>
    committing (set_closes ({[scope]} ∪ jn_closes j) j) () d).
Definition guardian_access (scope : ScopeId) (j : Journal) : result ProcessStateError (option ScopeCreationIntent) :=
  reading;;
  if bool_decide (scope ∈ jn_launches j) then intent ← ok_or (jn_scopes j !! scope) (ProcessRejected "launch has no scope intent"); Ok (Some intent)
  else Ok None.
(** [executable]: whether the opened executable is set-id, [None] when it is not one the host trusts to open.  The launch is recorded
    before anything is created or started. *)
Definition begin_guardian (scope : ScopeId) (executable : option bool) (d : HostDisk) : result ProcessStateError unit * HostDisk :=
  let j := hd_journal d in
  refusing (reading;;
            reject_if (scope_close_requested scope j) (ProcessRejected "host Scope is closing");;
            access ← guardian_access scope j;
            reject_if (bool_decide (is_Some access)) (ProcessRejected "guardian launch already attempted; discover original instance");;
            ok_or (jn_scopes j !! scope) (ProcessRejected "scope intent must be recorded before guardian launch");;
            reject_if (bool_decide (scope ∈ hd_scope_dirs d)) (ProcessRejected "scope path already exists without a creation intent");;
            set_id ← ok_or executable ProcessIo;
            reject_if set_id (ProcessRejected "guardian executable must not be set-id");;
            reject_if (negb (io_encode io)) ProcessIo) d (fun _ =>
    let j' := (set_launches ({[scope]} ∪ jn_launches j) j) in
    let '(recorded, d) := committing j' () d in
    refusing recorded d (fun _ =>
      if negb (io_mkdir io) then (Err ProcessIo, d)
      else
        let d := {| hd_journal := hd_journal d; hd_scope_dirs := {[scope]} ∪ hd_scope_dirs d; hd_sockets := hd_sockets d; hd_started := hd_started d |} in
        if negb (io_spawn io) then (Err ProcessIo, d)
        else (Ok (), {| hd_journal := hd_journal d; hd_scope_dirs := hd_scope_dirs d; hd_sockets := hd_sockets d; hd_started := scope :: hd_started d |}))).

(** *** Observations *)

Definition confirmed_launch (snapshot : RunSnapshot) : bool :=
  bool_decide (sn_launch snapshot = LaunchStarted) || match sn_direct snapshot with DirectRunning | DirectExited _ => true | _ => false end.
Definition denies_launch (snapshot : RunSnapshot) : bool :=
  match sn_launch snapshot with LaunchNotStarted _ => true | _ => false end || bool_decide (sn_direct snapshot = DirectNotStarted).
Definition keep_launch (confirmed : bool) (snapshot : RunSnapshot) : RunSnapshot :=
  if confirmed then {| sn_id := sn_id snapshot; sn_launch := LaunchStarted; sn_direct := sn_direct snapshot; sn_cleanup := sn_cleanup snapshot |} else snapshot.
Definition observe_run (snapshot : RunSnapshot) (d : HostDisk) : result ProcessStateError unit * HostDisk :=
  let j := hd_journal d in
  let previous := jn_run_observations j !! sn_id snapshot in
  let confirmed := match previous with Some previous => confirmed_launch previous | None => false end in
  refusing (reading;; reject_if (confirmed && denies_launch snapshot) (ContradictoryRunObservation (sn_id snapshot))) d (fun _ =>
    let snapshot := keep_launch confirmed snapshot in
    if bool_decide (previous = Some snapshot) then (layout_sync, d)
    else if negb (io_encode io) then (Err ProcessIo, d)
    else if negb (known_run j (sn_id snapshot)) then (Err ProcessSqlite, d)
    else committing (set_run_observations (<[sn_id snapshot := snapshot]> (jn_run_observations j)) j) () d).
Definition observe_scope (scope : ScopeId) (state : ScopeState) (d : HostDisk) : result ProcessStateError unit * HostDisk :=
  let j := hd_journal d in
  refusing reading d (fun _ =>
    if bool_decide (jn_scope_observations j !! scope = Some state) then (layout_sync, d)
    else if negb (io_encode io) then (Err ProcessIo, d)
    else if negb (contains j scope) then (Err ProcessSqlite, d)
    else committing (set_scope_observations (<[scope := state]> (jn_scope_observations j)) j) () d).
Definition run_settled (snapshot : RunSnapshot) : bool :=
  match sn_cleanup snapshot with CleanupComplete _ => true | _ => false end
  && match sn_direct snapshot with DirectExited _ | DirectNotStarted => true | _ => false end.
Definition scope_settled (scope : ScopeId) (j : Journal) : result ProcessStateError bool :=
  reading;;
  Ok (scope_close_requested scope j
      && match jn_scope_observations j !! scope with Some (ScopeClosed _) => true | _ => false end
      && every (jn_runs j) (fun run intent =>
           negb (bool_decide (hr_scope intent = scope))
           || match jn_run_observations j !! run with Some snapshot => run_settled snapshot | None => false end)).

(** *** Taking over *)

(** The directory belongs to the host alone: the files of the journal and the scope directories are private from their
    creation on, so what can be wrong with an entry is the mode of a socket. *)
Definition validate_socket (private : bool) : result ProcessStateError unit := reject_if (negb private) (ProcessRejected "invalid host endpoint inode").
Definition validate_entries (d : HostDisk) : result ProcessStateError (gset ScopeId) :=
  reject_if (negb (io_layout io)) ProcessIo;;
  traverse (fun entry : string * bool => validate_socket entry.2) (map_to_list (hd_sockets d));;
  Ok (hd_scope_dirs d).
Definition recover (instance : HostInstanceId) (d : HostDisk) : result ProcessStateError HostBinding * HostDisk :=
  match scopes ← validate_entries d; reading;; inspect scopes (hd_journal d) with
  | Err e => (Err e, d)
  | Ok (previous, version) =>
      if bool_decide (version = 2%N) && negb (bool_decide (hd_scope_dirs d = ∅)) then
        (Err (ProcessRejected "legacy guardian scopes require a compatible host version"), d)
      else
        let epoch := (hb_epoch previous + 1)%N in
        if (i64_max <? Z.of_N epoch)%Z then (Err (ProcessRejected "host epoch exhausted"), d)
        else
          let binding := {| hb_epoch := epoch; hb_instance := instance |} in
          committing (advance_binding binding (hd_journal d)) binding d
  end.
End operations.

(** *** Endpoints *)

(** What binding one endpoint meets: whether a socket found there refuses the connection, whether it can be removed and a
    new one bound, whether the umask makes a new socket private from the start, and whether its mode can be set and the
    directory synced.  A host that is killed in between leaves what a failure there leaves. *)
Record BindIo : Type := { bi_refused : bool; bi_remove : bool; bi_bind : bool; bi_umask : bool; bi_chmod : bool; bi_sync : bool }.
Definition bind_fresh (b : BindIo) (name : string) (d : HostDisk) : result ProcessStateError unit * HostDisk :=
  if negb (bi_bind b) then (Err ProcessIo, d)
  else
    let d := with_sockets (<[name := bi_umask b]> (hd_sockets d)) d in
    if negb (bi_chmod b) then (Err ProcessIo, d)
    else (reject_if (negb (bi_sync b)) ProcessIo, with_sockets (<[name := true]> (hd_sockets d)) d).
Definition bind_endpoint (b : BindIo) (name : string) (d : HostDisk) : result ProcessStateError unit * HostDisk :=
  match hd_sockets d !! name with
  | None => bind_fresh b name d
  | Some private =>
      refusing (validate_socket private;;
                reject_if (negb (bi_refused b)) (ProcessRejected "host endpoint may still be active");;
                reject_if (negb (bi_remove b)) ProcessIo) d (fun _ =>
        bind_fresh b name (with_sockets (delete name (hd_sockets d)) d))
  end.
Definition bind_endpoints (control output : BindIo) (d : HostDisk) : result ProcessStateError unit * HostDisk :=
  let '(bound, d) := bind_endpoint control "host.sock" d in
  refusing bound d (fun _ => bind_endpoint output "host-io.sock" d).

(** *** Creating the directory *)

(** The path of the state directory: nothing there, a directory whose creation stopped before its journal was initialized
    (with the entries it has), or a directory with a journal. *)
Inductive StatePath : Type :=
| Missing
| Unfinished (scopes lock database : bool)
| Initialized (d : HostDisk).
(** What creation meets, step by step: the parent and the length of the path, the directory, opening it, the directory of
    scopes, the first sync, the lock file and its lock, the database file, its first transaction, the last sync.  A process
    that is killed before a step leaves what a failure of that step leaves. *)
Record CreateIo : Type := {
  co_parent : bool; co_mkdir : bool; co_open : bool; co_scopes : bool; co_sync : bool; co_lock_file : bool; co_lock : bool;
  co_database : bool; co_initialize : bool; co_last_sync : bool;
}.
Definition first_binding (instance : HostInstanceId) : HostBinding := {| hb_epoch := 1; hb_instance := instance |}.
Definition new_disk (instance : HostInstanceId) : HostDisk :=
  {| hd_journal := initialize (first_binding instance); hd_scope_dirs := ∅; hd_sockets := ∅; hd_started := [] |}.
Definition create (c : CreateIo) (instance : HostInstanceId) (p : StatePath) : result ProcessStateError HostBinding * StatePath :=
  if negb (co_parent c) then (Err (ProcessRejected "state path must be absolute and fit Linux Unix socket paths"), p)
  else
    match p with
    | Unfinished _ _ _ | Initialized _ => (Err ProcessIo, p)
    | Missing =>
        if negb (co_mkdir c) then (Err ProcessIo, Missing)
        else if negb (co_open c) then (Err ProcessIo, Unfinished false false false)
        else if negb (co_scopes c) then (Err ProcessIo, Unfinished false false false)
        else if negb (co_sync c) then (Err ProcessIo, Unfinished true false false)
        else if negb (co_lock_file c) then (Err ProcessIo, Unfinished true false false)
        else if negb (co_lock c) then (Err ProcessIo, Unfinished true true false)
        else if negb (co_database c) then (Err ProcessIo, Unfinished true true false)
        else if negb (co_initialize c) then (Err ProcessSqlite, Unfinished true true true)
        else (reject_if (negb (co_last_sync c)) ProcessIo;; Ok (first_binding instance), Initialized (new_disk instance))
    end.
Definition recover_path (io : HostIo) (instance : HostInstanceId) (p : StatePath) : result ProcessStateError HostBinding * StatePath :=
  match p with
  | Missing => (Err ProcessIo, p)
  | Unfinished scopes lock database =>
      (if negb lock || negb database || negb scopes || negb (io_layout io) then Err ProcessIo
       else Err (ProcessRejected "unknown journal identity or version"), p)
  | Initialized d => let '(r, d) := recover io instance d in (r, Initialized d)
  end.

(** ** Histories of a host *)

Inductive HostOp : Type :=
| OpScope (scope : ScopeId) (guardian : GuardianInstanceId)
| OpRun (intent : HostRunIntent)
| OpStop (run : RunId)
| OpClose (scope : ScopeId)
| OpLaunch (scope : ScopeId) (executable : option bool)
| OpObserveRun (snapshot : RunSnapshot)
| OpObserveScope (scope : ScopeId) (state : ScopeState)
| OpBind (control output : BindIo).
(** What is on disk after an operation, whether the host answers it with success or with an error. *)
Definition host_op (io : HostIo) (binding : HostBinding) (op : HostOp) (d : HostDisk) : HostDisk :=
  match op with
  | OpScope scope guardian => (record_scope_intent io binding scope guardian d).2
  | OpRun intent => (record_run_intent io intent d).2
  | OpStop run => (request_run_stop io run d).2
  | OpClose scope => (request_scope_close io scope d).2
  | OpLaunch scope executable => (begin_guardian io scope executable d).2
  | OpObserveRun snapshot => (observe_run io snapshot d).2
  | OpObserveScope scope state => (observe_scope io scope state d).2
  | OpBind control output => (bind_endpoints control output d).2
  end.
(** The host that runs, if one does (the lock of the directory lets only one), and what is on disk. *)
Record World : Type := { wd_host : option HostBinding; wd_disk : HostDisk }.
Inductive step_with (allowed : HostOp -> Prop) : World -> World -> Prop :=
| world_op b io op d : allowed op -> step_with allowed {| wd_host := Some b; wd_disk := d |} {| wd_host := Some b; wd_disk := host_op io b op d |}
| world_crash h d : step_with allowed {| wd_host := h; wd_disk := d |} {| wd_host := None; wd_disk := d |}
| world_recover io instance d r d' : recover io instance d = (r, d') ->
    step_with allowed {| wd_host := None; wd_disk := d |} {| wd_host := match r with Ok b => Some b | Err _ => None end; wd_disk := d' |}.
Notation world_step := (step_with (fun _ => True)).
(** A host that has just been created. *)
Definition new_world (instance : HostInstanceId) : World := {| wd_host := Some (first_binding instance); wd_disk := new_disk instance |}.

(** *** What an operation may change *)

Definition launched (s : ScopeId) (made started : bool) (d : HostDisk) : HostDisk :=
  {| hd_journal := set_launches ({[s]} ∪ jn_launches (hd_journal d)) (hd_journal d);
     hd_scope_dirs := if made then {[s]} ∪ hd_scope_dirs d else hd_scope_dirs d; hd_sockets := hd_sockets d;
     hd_started := if started then s :: hd_started d else hd_started d |}.
Inductive change (b : HostBinding) (d : HostDisk) : HostDisk -> Prop :=
| change_none : change b d d
| change_scope s g : jn_scopes (hd_journal d) !! s = None ->
    change b d (with_journal (set_scopes (<[s := {| ci_scope := s; ci_guardian := g; ci_created_by := b |}]> (jn_scopes (hd_journal d))) (hd_journal d)) d)
| change_run i : jn_runs (hd_journal d) !! hr_run i = None -> is_Some (jn_scopes (hd_journal d) !! hr_scope i) -> hr_scope i ∉ jn_closes (hd_journal d) ->
    change b d (with_journal (set_runs (<[hr_run i := i]> (jn_runs (hd_journal d))) (hd_journal d)) d)
| change_stop r : is_Some (jn_runs (hd_journal d) !! r) -> change b d (with_journal (set_stops ({[r]} ∪ jn_stops (hd_journal d)) (hd_journal d)) d)
| change_close s : is_Some (jn_scopes (hd_journal d) !! s) -> change b d (with_journal (set_closes ({[s]} ∪ jn_closes (hd_journal d)) (hd_journal d)) d)
| change_launch s made started : s ∉ jn_closes (hd_journal d) -> s ∉ jn_launches (hd_journal d) -> is_Some (jn_scopes (hd_journal d) !! s) ->
    change b d (launched s made started d)
| change_run_fact sn : is_Some (jn_runs (hd_journal d) !! sn_id sn) ->
    (forall previous, jn_run_observations (hd_journal d) !! sn_id sn = Some previous -> confirmed_launch previous = true -> confirmed_launch sn = true) ->
    change b d (with_journal (set_run_observations (<[sn_id sn := sn]> (jn_run_observations (hd_journal d))) (hd_journal d)) d)
| change_scope_fact s st : is_Some (jn_scopes (hd_journal d) !! s) ->
    change b d (with_journal (set_scope_observations (<[s := st]> (jn_scope_observations (hd_journal d))) (hd_journal d)) d)
| change_sockets x : change b d (with_sockets x d).
Lemma committing_change {A} io b j (a : A) d : change b d (with_journal j d) -> change b d (committing io j a d).2.
Proof. unfold committing. destruct (io_commit io); [done|]. intros _. apply change_none. Qed.
Lemma refusing_change {A} b (checks : result ProcessStateError A) d next :
  (forall a, checks = Ok a -> change b d (next a).2) -> change b d (refusing checks d next).2.
Proof. unfold refusing. destruct checks; intros H; [by apply H|apply change_none]. Qed.
Lemma every_true {K A} `{Countable K} (m : gmap K A) p : every m p = true <-> forall k a, m !! k = Some a -> p k a = true.
Proof.
  unfold every. rewrite forallb_forall. split.
  - intros Hf k a Hk. apply (Hf (k, a)). by apply list_elem_of_In, elem_of_map_to_list.
  - intros Hf [k a] Hin. apply Hf. by apply elem_of_map_to_list, list_elem_of_In.
Qed.
(** Binding changes the sockets only; those it leaves are private unless it was cut short before the mode was set. *)
Definition bind_done (b : BindIo) : Prop := bi_bind b = true -> bi_umask b = true \/ bi_chmod b = true.
Definition only_sockets (done : Prop) (d d' : HostDisk) : Prop :=
  exists x, d' = with_sockets x d /\ (done -> forall name m, x !! name = Some m -> m = true \/ hd_sockets d !! name = Some m).
Lemma only_sockets_same done d : only_sockets done d d.
Proof. exists (hd_sockets d). split; [by destruct d|]. by right. Qed.
Lemma bind_fresh_sockets b name d : only_sockets (bind_done b) d (bind_fresh b name d).2.
Proof.
  unfold bind_fresh, bind_done. destruct (bi_bind b); [|apply only_sockets_same]. destruct (bi_chmod b); cbn [negb snd].
  - eexists. split; [reflexivity|]. cbn [with_sockets hd_sockets]. intros _ other m. rewrite insert_insert_eq.
    intros [[<- <-]|[_ H]]%lookup_insert_Some; [by left|by right].
  - eexists. split; [reflexivity|]. intros Hd other m [[<- <-]|[_ H]]%lookup_insert_Some; [left|by right]. by destruct (Hd eq_refl).
Qed.
Lemma bind_endpoint_sockets b name d : only_sockets (bind_done b) d (bind_endpoint b name d).2.
Proof.
  unfold bind_endpoint. destruct (hd_sockets d !! name) as [private|]; [|apply bind_fresh_sockets]. unfold refusing.
  destruct (validate_socket private;; _); [|apply only_sockets_same].
  destruct (bind_fresh_sockets b name (with_sockets (delete name (hd_sockets d)) d)) as (x & -> & Hx). exists x. split; [done|].
  intros Hd other m H. destruct (Hx Hd other m H) as [?|H']; [by left|right]. cbn in H'. by apply lookup_delete_Some in H' as [_ ?].
Qed.
Lemma bind_endpoints_sockets control output d : only_sockets (bind_done control /\ bind_done output) d (bind_endpoints control output d).2.
Proof.
  unfold bind_endpoints. pose proof (bind_endpoint_sockets control "host.sock" d) as H.
  destruct (bind_endpoint control "host.sock" d) as [bound d1]. cbn [snd] in H. destruct H as (x & -> & Hx). unfold refusing.
  destruct bound as [[]|]; [|exists x; split; [done|]; by intros [Hc _]; apply Hx].
  destruct (bind_endpoint_sockets output "host-io.sock" (with_sockets x d)) as (y & -> & Hy). exists y. split; [done|].
  intros [Hc Ho] name m H. destruct (Hy Ho name m H) as [?|H']; [by left|]. by apply (Hx Hc).
Qed.
Lemma host_op_change io b op d : change b d (host_op io b op d).
Proof.
  destruct op as [s g|i|r|s|s executable|sn|s st|control output]; cbn [host_op].
  - unfold record_scope_intent. destruct (reading io); [|apply change_none]. destruct (jn_scopes (hd_journal d) !! s) eqn:E; [apply change_none|].
    case_bool_decide; [apply change_none|]. destruct (negb (every _ _)); [apply change_none|]. by apply committing_change, change_scope.
  - unfold record_run_intent. destruct (reading io); [|apply change_none]. destruct (jn_runs (hd_journal d) !! hr_run i) eqn:E; [case_bool_decide; apply change_none|].
    destruct (jn_scopes (hd_journal d) !! hr_scope i) eqn:Es; [|apply change_none]. unfold scope_close_requested. case_bool_decide; [apply change_none|].
    destruct (negb (io_encode io)); [apply change_none|]. apply committing_change, change_run; by rewrite ?Es.
  - apply refusing_change. intros i (_ & _ & Hr%ok_or_Ok)%bind_Ok. apply committing_change, change_stop. by rewrite Hr.
  - apply refusing_change. intros i (_ & _ & Hr%ok_or_Ok)%bind_Ok. apply committing_change, change_close. by rewrite Hr.
  - apply refusing_change. intros [] (_ & _ & (_ & Hc%reject_if_Ok & (access & Ha & (_ & Hn%reject_if_Ok & (i & Hi%ok_or_Ok & _)%bind_Ok)%bind_Ok)%bind_Ok)%bind_Ok)%bind_Ok.
    apply bool_decide_eq_false_1 in Hc. apply bool_decide_eq_false_1 in Hn. unfold guardian_access in Ha. apply bind_Ok in Ha as (_ & _ & Ha).
    assert (Hl : s ∉ jn_launches (hd_journal d)).
    { intros Hin. rewrite bool_decide_eq_true_2 in Ha by done. apply bind_Ok in Ha as (x & _ & [= <-]). by apply Hn. }
    assert (Hs : is_Some (jn_scopes (hd_journal d) !! s)) by (by rewrite Hi). unfold committing.
    destruct (io_commit io); [|apply change_none]. destruct (layout_sync io); cbn [mbind result_bind refusing]; [|exact (change_launch b d s false false Hc Hl Hs)].
    destruct (negb (io_mkdir io)); [exact (change_launch b d s false false Hc Hl Hs)|].
    destruct (negb (io_spawn io)); [exact (change_launch b d s true false Hc Hl Hs)|exact (change_launch b d s true true Hc Hl Hs)].
  - apply refusing_change. intros [] (_ & _ & Hd%reject_if_Ok)%bind_Ok. set (confirmed := match _ with Some previous => _ | None => _ end) in *.
    cbv beta zeta. case_bool_decide; [apply change_none|]. destruct (negb (io_encode io)); [apply change_none|].
    assert (Hid : sn_id (keep_launch confirmed sn) = sn_id sn) by (by destruct confirmed). rewrite Hid. unfold known_run. case_bool_decide as Hk; [|apply change_none].
    cbn [negb]. apply committing_change. rewrite <- Hid. apply change_run_fact; [by rewrite Hid|]. rewrite Hid. intros previous Hp Hc.
    subst confirmed. by rewrite Hp, Hc.
  - apply refusing_change. intros [] _. cbv beta zeta. case_bool_decide; [apply change_none|]. destruct (negb (io_encode io)); [apply change_none|].
    unfold contains. case_bool_decide as Hk; [|apply change_none]. by apply committing_change, change_scope_fact.
  - destruct (bind_endpoints_sockets control output d) as (x & -> & _). apply change_sockets.
Qed.

(** *** The journal stays one a later host accepts *)

Record journal_ok (j : Journal) : Prop := {
  jk_version : jn_version j = JOURNAL_VERSION;
  jk_scopes : forall s i, jn_scopes j !! s = Some i -> (hb_epoch (ci_created_by i) < hb_epoch (jn_binding j))%N \/ ci_created_by i = jn_binding j;
  jk_launches : forall s, s ∈ jn_launches j -> is_Some (jn_scopes j !! s);
  jk_run_id : forall r i, jn_runs j !! r = Some i -> hr_run i = r;
  jk_run_scope : forall r i, jn_runs j !! r = Some i -> is_Some (jn_scopes j !! hr_scope i);
  jk_stops : forall r, r ∈ jn_stops j -> is_Some (jn_runs j !! r);
  jk_closes : forall s, s ∈ jn_closes j -> is_Some (jn_scopes j !! s);
  jk_fact_id : forall r sn, jn_run_observations j !! r = Some sn -> sn_id sn = r;
  jk_fact_run : forall r sn, jn_run_observations j !! r = Some sn -> is_Some (jn_runs j !! r);
  jk_scope_facts : forall s st, jn_scope_observations j !! s = Some st -> is_Some (jn_scopes j !! s);
}.
Record disk_ok (d : HostDisk) : Prop := {
  dk_journal : journal_ok (hd_journal d);
  dk_dirs : forall s, s ∈ hd_scope_dirs d -> s ∈ jn_launches (hd_journal d);
  dk_started : forall s, s ∈ hd_started d -> s ∈ jn_launches (hd_journal d);
  dk_once : NoDup (hd_started d);
}.
Lemma insert_is_Some {K A} `{Countable K} (m : gmap K A) k a k' : is_Some (m !! k') -> is_Some (<[k := a]> m !! k').
Proof. intros Hk. rewrite lookup_insert_is_Some'. by right. Qed.
Ltac tables :=
  cbn [launched with_journal with_sockets hd_journal hd_scope_dirs hd_started set_scopes set_runs set_stops set_closes set_launches set_run_observations
    set_scope_observations jn_version jn_binding jn_scopes jn_launches jn_runs jn_stops jn_closes jn_run_observations jn_scope_observations] in *.
Lemma change_ok b d d' : jn_binding (hd_journal d) = b -> change b d d' -> disk_ok d -> disk_ok d' /\ jn_binding (hd_journal d') = b.
Proof.
  intros Hb Hc [[H1 H2 H3 H4a H4b H5 H6 H7a H7b H8] Hd Hs Hn].
  destruct Hc as [|s g Hnew|i Hnew Hsc Hcl|r Hr|s Hsc|s made started Hcl Hl Hsc|sn Hk _|s st Hsc|x]; (split; [split; [split|..]|exact Hb]); tables;
    eauto using insert_is_Some.
  - intros s' i' [[<- <-]|[_ Hi]]%lookup_insert_Some; [by right; cbn|by eapply H2].
  - intros r' i' [[<- <-]|[_ Hi]]%lookup_insert_Some; [done|by eapply H4a].
  - intros r' i' [[<- <-]|[_ Hi]]%lookup_insert_Some; [done|by eapply H4b].
  - intros r' [->%elem_of_singleton|Hin]%elem_of_union; eauto.
  - intros s' [->%elem_of_singleton|Hin]%elem_of_union; eauto.
  - intros s' [->%elem_of_singleton|Hin]%elem_of_union; eauto.
  - intros s' Hin. apply elem_of_union. destruct made; [|by right; apply Hd]. apply elem_of_union in Hin as [Hin|Hin]; [by left|by right; apply Hd].
  - intros s' Hin. apply elem_of_union. destruct started; [|by right; apply Hs]. apply elem_of_cons in Hin as [->|Hin]; [by left; apply elem_of_singleton|by right; apply Hs].
  - destruct started; [|done]. constructor; [|done]. intros Hin. by apply Hl, Hs.
  - intros r' sn' [[<- <-]|[_ Hi]]%lookup_insert_Some; [done|by eapply H7a].
  - intros r' sn' [[<- <-]|[_ Hi]]%lookup_insert_Some; [done|by eapply H7b].
  - intros s' st' [[<- <-]|[_ Hi]]%lookup_insert_Some; [done|by eapply H8].
Qed.
Lemma forallb_elements (X : gset N) (p : N -> bool) : forallb p (elements X) = true <-> forall x, x ∈ X -> p x = true.
Proof.
  rewrite forallb_forall. split; intros H x Hx; apply H; [by apply list_elem_of_In, elem_of_elements|by apply elem_of_elements, list_elem_of_In].
Qed.
Lemma inspect_ok j dirs : journal_ok j -> (forall s, s ∈ dirs -> is_Some (jn_scopes j !! s)) -> inspect dirs j = Ok (jn_binding j, JOURNAL_VERSION).
Proof.
  intros [H1 H2 H3 H4a H4b H5 H6 H7a H7b H8] Hd. unfold inspect, inspect_runs, inspect_control, inspect_observations. rewrite H1. cbn [N.leb].
  assert (Hp : forall b (e : ProcessStateError), b = true -> reject_if (negb b) e = Ok ()) by (by intros b e ->).
  assert (Hq : forall b c (e : ProcessStateError), b = true -> c = true -> reject_if (negb b || negb c) e = Ok ()) by (by intros b c e -> ->).
  rewrite (Hp (every (jn_scopes j) _)).
  2: { apply every_true. intros s i Hi. apply negb_true_iff, orb_false_iff. destruct (H2 _ _ Hi) as [Hlt|Heq].
       - split; [apply N.ltb_ge; lia|]. rewrite bool_decide_eq_false_2 by lia. done.
       - rewrite Heq, (bool_decide_eq_true_2 (hb_instance _ = _)) by done. split; [apply N.ltb_ge; lia|apply andb_false_r]. }
  rewrite (Hp (forallb (contains j) (elements dirs))) by (apply forallb_elements; intros s Hs; by apply bool_decide_eq_true_2, Hd, Hs).
  rewrite (Hp (forallb (contains j) (elements (jn_launches j)))) by (apply forallb_elements; intros s Hs; by apply bool_decide_eq_true_2, H3, Hs).
  rewrite (Hp (every (jn_runs j) (fun run intent => bool_decide (hr_run intent = run)))) by (apply every_true; intros r i Hi; by apply bool_decide_eq_true_2, H4a, Hi).
  rewrite (Hp (every (jn_runs j) (fun _ intent => contains j (hr_scope intent)))) by (apply every_true; intros r i Hi; by apply bool_decide_eq_true_2, (H4b _ _ Hi)).
  rewrite (Hq (forallb (known_run j) (elements (jn_stops j)))) by (apply forallb_elements; intros x Hx; apply bool_decide_eq_true_2; eauto).
  rewrite (Hp (every (jn_run_observations j) (fun run snapshot => bool_decide (sn_id snapshot = run)))) by (apply every_true; intros r i Hi; by apply bool_decide_eq_true_2, H7a, Hi).
  rewrite (Hq (every (jn_run_observations j) (fun run _ => known_run j run))) by (apply every_true; intros x y Hx; apply bool_decide_eq_true_2; eauto).
  done.
Qed.
Definition world_ok (w : World) : Prop := disk_ok (wd_disk w) /\ forall b, wd_host w = Some b -> b = jn_binding (hd_journal (wd_disk w)).
Lemma create_ok instance : world_ok (new_world instance).
Proof. split; [split; [split|..]|]; cbn; try done; [by intros s Hs%elem_of_nil|constructor|by intros b [= <-]]. Qed.
Definition sockets_private (d : HostDisk) : Prop := forall name m, hd_sockets d !! name = Some m -> m = true.
Lemma validate_entries_Ok io d scopes : validate_entries io d = Ok scopes <-> io_layout io = true /\ sockets_private d /\ scopes = hd_scope_dirs d.
Proof.
  unfold validate_entries, sockets_private.
  assert (Hall : (exists l, traverse (fun entry : string * bool => validate_socket entry.2) (map_to_list (hd_sockets d)) = Ok l)
    <-> forall name m, hd_sockets d !! name = Some m -> m = true).
  { setoid_rewrite <- elem_of_map_to_list. induction (map_to_list (hd_sockets d)) as [|[n m] l IH]; cbn [traverse].
    - split; [by intros _ ? ? ?%elem_of_nil|by eexists].
    - split.
      + intros (k & (y & Hy & (l' & Hl & _)%bind_Ok)%bind_Ok) name m' [[= -> ->]|Hin]%elem_of_cons.
        * unfold validate_socket in Hy. apply reject_if_Ok in Hy. by destruct m.
        * by eapply (proj1 IH); [by eexists|].
      + intros H. destruct (proj2 IH) as [l' Hl]; [intros name m' Hin; apply (H name); by right|].
        rewrite (H n m (list_elem_of_here _ _)), Hl. by eexists. }
  destruct (io_layout io); cbn [negb reject_if mbind result_bind]; [|naive_solver]. destruct (traverse _ _) as [l|e].
  - cbn [mbind result_bind]. split; [intros [= <-]; split_and!; [done|by apply Hall; eexists|done]|by intros (_ & _ & ->)].
  - split; [done|]. intros (_ & [l Hl]%Hall & _). done.
Qed.
Lemma recover_cases io instance d r d' : disk_ok d -> recover io instance d = (r, d') ->
  (d' = d /\ exists e, r = Err e) \/ exists b, d' = with_journal (advance_binding b (hd_journal d)) d /\ hb_epoch b = (hb_epoch (jn_binding (hd_journal d)) + 1)%N
    /\ (r = Ok b \/ exists e, r = Err e).
Proof.
  intros H. unfold recover. destruct (scopes ← validate_entries io d; reading io;; inspect scopes _) as [[previous version]|e] eqn:E; [|intros [= <- <-]; left; eauto].
  apply bind_Ok in E as (scopes & (_ & _ & ->)%validate_entries_Ok & (_ & _ & E)%bind_Ok).
  rewrite inspect_ok in E; [|apply H|intros s Hs; apply (jk_launches _ (dk_journal _ H)), (dk_dirs _ H), Hs].
  injection E as <- <-. destruct (_ && _); [intros [= <- <-]; left; eauto|]. destruct (_ <? _)%Z; [intros [= <- <-]; left; eauto|].
  unfold committing. destruct (io_commit io); [|intros [= <- <-]; left; eauto]. intros [= <- <-]. right. eexists. split; [done|]. split; [done|].
  unfold layout_sync. destruct (io_sync io); cbn; eauto.
Qed.
Lemma advance_ok b d : disk_ok d -> (hb_epoch (jn_binding (hd_journal d)) < hb_epoch b)%N -> disk_ok (with_journal (advance_binding b (hd_journal d)) d).
Proof.
  intros [[H1 H2 H3 H4a H4b H5 H6 H7a H7b H8] Hd Hs Hn] Hb. split; [split|..]; unfold advance_binding; rewrite H1; cbn; try done.
  intros s i Hi. left. destruct (H2 _ _ Hi) as [Hlt| ->]; lia.
Qed.
Lemma world_step_ok allowed w w' : step_with allowed w w' -> world_ok w -> world_ok w'.
Proof.
  intros Hw [Hok Hb]. destruct Hw as [b io op d _|h d|io instance d r d' E]; cbn [wd_disk wd_host] in *.
  - specialize (Hb b eq_refl). destruct (change_ok b d _ (eq_sym Hb) (host_op_change io b op d) Hok) as [Hok' Hb']. split; [exact Hok'|]. by intros b' [= <-].
  - by split.
  - destruct (recover_cases _ _ _ _ _ Hok E) as [(-> & e & ->)|(b & -> & He & Hr)]; [by split|]. split; [apply advance_ok; [done|lia]|].
    cbn. destruct Hr as [->|(e & ->)]; [by intros b' [= <-]|done].
Qed.

(** *** What later hosts keep *)

(** The records of a journal outlive everything that happens afterwards; nothing is added under a scope whose close is recorded. *)
Record outlives (d d' : HostDisk) : Prop := {
  ol_scopes : forall s i, jn_scopes (hd_journal d) !! s = Some i -> jn_scopes (hd_journal d') !! s = Some i;
  ol_runs : forall r i, jn_runs (hd_journal d) !! r = Some i -> jn_runs (hd_journal d') !! r = Some i;
  ol_launches : jn_launches (hd_journal d) ⊆ jn_launches (hd_journal d');
  ol_stops : jn_stops (hd_journal d) ⊆ jn_stops (hd_journal d');
  ol_closes : jn_closes (hd_journal d) ⊆ jn_closes (hd_journal d');
  ol_no_run : forall r i, jn_runs (hd_journal d') !! r = Some i -> hr_scope i ∈ jn_closes (hd_journal d) -> jn_runs (hd_journal d) !! r = Some i;
  ol_no_launch : forall s, s ∈ jn_launches (hd_journal d') -> s ∈ jn_closes (hd_journal d) -> s ∈ jn_launches (hd_journal d);
  ol_no_start : forall s, s ∈ hd_started d' -> s ∈ jn_launches (hd_journal d) -> s ∈ hd_started d;
  ol_started : forall s, s ∈ hd_started d -> s ∈ hd_started d';
  ol_confirmed : forall r sn, jn_run_observations (hd_journal d) !! r = Some sn -> confirmed_launch sn = true ->
    exists sn', jn_run_observations (hd_journal d') !! r = Some sn' /\ confirmed_launch sn' = true;
  ol_run_facts : forall r, is_Some (jn_run_observations (hd_journal d) !! r) -> is_Some (jn_run_observations (hd_journal d') !! r);
  ol_scope_facts : forall s, is_Some (jn_scope_observations (hd_journal d) !! s) -> is_Some (jn_scope_observations (hd_journal d') !! s);
}.
#[export] Instance outlives_preorder : PreOrder outlives.
Proof.
  split.
  - intros d. split; eauto.
  - intros d1 d2 d3 A B. split.
    + intros s i H. by apply (ol_scopes _ _ B), (ol_scopes _ _ A).
    + intros r i H. by apply (ol_runs _ _ B), (ol_runs _ _ A).
    + by etrans; [apply A|apply B].
    + by etrans; [apply A|apply B].
    + by etrans; [apply A|apply B].
    + intros r i H Hc. eapply (ol_no_run _ _ A); [|done]. eapply (ol_no_run _ _ B); [done|]. by apply (ol_closes _ _ A).
    + intros s H Hc. eapply (ol_no_launch _ _ A); [|done]. eapply (ol_no_launch _ _ B); [done|]. by apply (ol_closes _ _ A).
    + intros s H Hl. eapply (ol_no_start _ _ A); [|done]. eapply (ol_no_start _ _ B); [done|]. by apply (ol_launches _ _ A).
    + intros s H. by apply (ol_started _ _ B), (ol_started _ _ A).
    + intros r sn H Hc. destruct (ol_confirmed _ _ A _ _ H Hc) as (sn' & H' & Hc'). by eapply (ol_confirmed _ _ B).
    + intros r H. by apply (ol_run_facts _ _ B), (ol_run_facts _ _ A).
    + intros s H. by apply (ol_scope_facts _ _ B), (ol_scope_facts _ _ A).
Qed.
Lemma change_outlives b d d' : change b d d' -> outlives d d'.
Proof.
  destruct 1 as [|s g Hnew|i Hnew Hsc Hcl|r Hr|s Hsc|s made started Hcl Hl Hsc|sn Hk Hkeep|s st Hsc|x]; [reflexivity|split; tables; try set_solver; eauto using insert_is_Some..].
  - intros s' i Hi. by rewrite lookup_insert_ne by congruence.
  - intros r i' Hi. by rewrite lookup_insert_ne by congruence.
  - intros r i' [[<- <-]|[_ Hi]]%lookup_insert_Some Hc; [by destruct Hcl|done].
  - intros s' Hin Hx. destruct started; [|done]. apply elem_of_cons in Hin as [->|Hin]; [by destruct Hl|done].
  - intros s' Hin. destruct started; [by apply elem_of_cons; right|done].
  - intros r sn' H Hc. destruct (decide (r = sn_id sn)) as [->|Hne]; [rewrite lookup_insert, decide_True by done; eauto|rewrite lookup_insert_ne by done; eauto].
Qed.
Lemma advance_outlives b d : journal_ok (hd_journal d) -> outlives d (with_journal (advance_binding b (hd_journal d)) d).
Proof. intros [H1 _ _ _ _ _ _ _ _ _]. unfold advance_binding. rewrite H1. cbn. split; cbn; eauto. Qed.
Lemma world_step_outlives allowed w w' : step_with allowed w w' -> world_ok w -> outlives (wd_disk w) (wd_disk w').
Proof.
  intros Hw [Hok _]. destruct Hw as [b io op d _|h d|io instance d r d' E]; cbn [wd_disk] in *; [eapply change_outlives, host_op_change|done|].
  destruct (recover_cases _ _ _ _ _ Hok E) as [(-> & _)|(b & -> & _)]; [done|apply advance_outlives, Hok].
Qed.
Lemma host_history_ok allowed w w' : rtc (step_with allowed) w w' -> world_ok w -> world_ok w' /\ outlives (wd_disk w) (wd_disk w').
Proof.
  induction 1 as [w|w1 w2 w3 H _ IH]; intros Hw; [done|]. destruct (IH (world_step_ok _ _ _ H Hw)) as [H3 Ho].
  split; [done|]. etrans; [by eapply world_step_outlives|done].
Qed.

(** Sockets stay private as long as no bind is cut short before the mode is set. *)
Definition binds_done (op : HostOp) : Prop := match op with OpBind control output => bind_done control /\ bind_done output | _ => True end.
Lemma host_op_same_sockets io b op d : (forall control output, op <> OpBind control output) -> hd_sockets (host_op io b op d) = hd_sockets d.
Proof.
  intros Hop. destruct op as [s g|i|r|s|s executable|sn|s st|control output]; [..|by destruct (Hop control output)]; cbn [host_op];
    unfold record_scope_intent, record_run_intent, request_run_stop, request_scope_close, begin_guardian, observe_run, observe_scope,
      refusing, committing; cbn zeta; repeat case_match; simplify_eq; done.
Qed.
Lemma host_op_sockets io b op d : binds_done op -> sockets_private d -> sockets_private (host_op io b op d).
Proof.
  intros Hd H. assert (Hb : (exists control output, op = OpBind control output) \/ forall control output, op <> OpBind control output)
    by (destruct op; eauto; by right).
  destruct Hb as [(control & output & ->)|Hb]; [|unfold sockets_private; by rewrite host_op_same_sockets]. cbn [host_op].
  destruct (bind_endpoints_sockets control output d) as (x & -> & Hx). intros name m Hm. destruct (Hx Hd name m Hm) as [?|?]; [done|by eapply H].
Qed.
Lemma history_sockets w w' : rtc (step_with binds_done) w w' -> world_ok w -> sockets_private (wd_disk w) -> sockets_private (wd_disk w').
Proof.
  induction 1 as [w|w1 w2 w3 H _ IH]; intros Hw Hp; [done|]. apply IH; [by eapply world_step_ok|]. destruct Hw as [Hok _].
  destruct H as [b io op d Ha|h d|io instance d r d' E]; cbn [wd_disk] in *; [by apply host_op_sockets|done|].
  destruct (recover_cases _ _ _ _ _ Hok E) as [(-> & _)|(b & -> & _)]; done.
Qed.
Lemma validate_refused d name : hd_sockets d !! name = Some false ->
  validate_entries all_well d = Err (ProcessRejected "invalid host endpoint inode").
Proof.
  intros H. unfold validate_entries. cbn [all_well io_layout negb reject_if mbind result_bind].
  assert (Hin : (name, false) ∈ map_to_list (hd_sockets d)) by by apply elem_of_map_to_list.
  enough (traverse (fun entry : string * bool => validate_socket entry.2) (map_to_list (hd_sockets d)) = Err (ProcessRejected "invalid host endpoint inode"))
    as -> by done.
  induction (map_to_list (hd_sockets d)) as [|[n m] l IH]; [by apply elem_of_nil in Hin|]. cbn [traverse].
  destruct m; [|done]. cbn. apply elem_of_cons in Hin as [?|Hin]; [done|]. by rewrite IH.
Qed.

(** C38: Wherever the creation of a host's directory stops, it leaves no directory, one without a journal, or the fresh
    journal.  From then on, whatever operations a host ran, whatever of them failed, and wherever it was killed, the
    inspection of the journal accepts what is on disk: unless the epoch no longer fits the journal, the next host takes over,
    advances the binding by one epoch and keeps every recorded scope, run, launch, intent and observation as it is, if no
    endpoint socket is left with a wrong mode; and it is refused, with nothing changed, if one is.  Such a socket is only
    left by a host that stopped between binding it and setting its mode. *)
Theorem journal_always_recovers first instance d c :
  match (create c first Missing).2 with Initialized fresh => fresh = wd_disk (new_world first) | Missing | Unfinished _ _ _ => True end
  /\ (rtc world_step (new_world first) {| wd_host := None; wd_disk := d |} -> (Z.of_N (hb_epoch (jn_binding (hd_journal d))) < i64_max)%Z ->
      let j := hd_journal d in
      let binding := {| hb_epoch := hb_epoch (jn_binding j) + 1; hb_instance := instance |} in
      ((forall name mode, hd_sockets d !! name = Some mode -> mode = true) ->
       recover all_well instance d =
       (Ok binding,
        {| hd_journal :=
             {| jn_version := jn_version j; jn_binding := binding; jn_scopes := jn_scopes j; jn_launches := jn_launches j; jn_runs := jn_runs j;
                jn_stops := jn_stops j; jn_closes := jn_closes j; jn_run_observations := jn_run_observations j;
                jn_scope_observations := jn_scope_observations j |};
           hd_scope_dirs := hd_scope_dirs d; hd_sockets := hd_sockets d; hd_started := hd_started d |}))
      /\ (forall name, hd_sockets d !! name = Some false ->
          recover all_well instance d = (Err (ProcessRejected "invalid host endpoint inode"), d)))
  /\ (rtc (step_with binds_done) (new_world first) {| wd_host := None; wd_disk := d |} ->
      forall name mode, hd_sockets d !! name = Some mode -> mode = true).
Proof.
  split; [unfold create; repeat case_match; simplify_eq/=; done|]. split.
  - intros Hr He j binding. destruct (host_history_ok _ _ _ Hr (create_ok first)) as [[H _] _]. cbn [wd_disk] in H.
    unfold recover. split.
    + intros Hp. rewrite (proj2 (validate_entries_Ok all_well d (hd_scope_dirs d))) by done.
      cbn [reading all_well io_read negb reject_if mbind result_bind].
      rewrite inspect_ok; [|apply H|intros s Hs; apply (jk_launches _ (dk_journal _ H)), (dk_dirs _ H), Hs]. cbn [bool_decide].
      rewrite (proj2 (Z.ltb_ge _ _)) by lia. unfold committing, layout_sync. cbn.
      unfold with_journal, advance_binding. pose proof (jk_version _ (dk_journal _ H)) as Hv. fold j in Hv |- *. by rewrite Hv.
    + intros name Hname. by rewrite (validate_refused d name Hname).
  - intros Hr. apply (history_sockets _ _ Hr (create_ok first)). by intros name m.
Qed.

(** C39: Across every host that ever owns the journal and whatever fails in between, nothing that is recorded is forgotten:
    every scope and run stays as it was recorded, every launch, stop and close stays recorded, every run and scope that was
    observed still has an observation.  A guardian is started at most once for a scope, and only for one whose launch is
    recorded; and once the close of a scope is recorded no run is added to it, no launch is recorded for it and no guardian
    is started for it. *)
Theorem closed_scope_sealed first w w' :
  rtc world_step (new_world first) w -> rtc world_step w w' ->
  let j := hd_journal (wd_disk w) in let j' := hd_journal (wd_disk w') in
  jn_scopes j ⊆ jn_scopes j' /\ jn_runs j ⊆ jn_runs j' /\ jn_launches j ⊆ jn_launches j' /\ jn_stops j ⊆ jn_stops j' /\ jn_closes j ⊆ jn_closes j'
  /\ (forall run, is_Some (jn_run_observations j !! run) -> is_Some (jn_run_observations j' !! run))
  /\ (forall scope, is_Some (jn_scope_observations j !! scope) -> is_Some (jn_scope_observations j' !! scope))
  /\ NoDup (hd_started (wd_disk w')) /\ (forall s, s ∈ hd_started (wd_disk w') -> s ∈ jn_launches j')
  /\ forall scope, scope ∈ jn_closes j ->
      (forall run intent, hr_scope intent = scope -> jn_runs j' !! run = Some intent <-> jn_runs j !! run = Some intent)
      /\ (scope ∈ jn_launches j' <-> scope ∈ jn_launches j)
      /\ (scope ∈ hd_started (wd_disk w') <-> scope ∈ hd_started (wd_disk w)).
Proof.
  intros Hr Hs j j'. destruct (host_history_ok _ _ _ Hr (create_ok first)) as [Hok _]. destruct (host_history_ok _ _ _ Hs Hok) as [[Hok' _] Ho].
  split_and!; [apply map_subseteq_spec, Ho|apply map_subseteq_spec, Ho|apply Ho|apply Ho|apply Ho|apply Ho|apply Ho|apply Hok'|apply Hok'|].
  intros scope Hc. split; [|split].
  - intros r i <-. split; [|apply Ho]. intros Hi. by apply (ol_no_run _ _ Ho).
  - split; [|apply Ho]. intros Hl. by apply (ol_no_launch _ _ Ho).
  - split; [|apply Ho]. intros Hl. apply (ol_no_start _ _ Ho); [done|]. apply (ol_no_launch _ _ Ho); [by apply (dk_started _ Hok')|done].
Qed.

(** C40: Once an observation confirms that a run was launched, every later host still holds one that does, and refuses an observation
    that says the run was never started: the answer is the contradiction and nothing on disk changes. *)
Theorem confirmed_launch_stays first w w' run snapshot io denial :
  rtc world_step (new_world first) w -> rtc world_step w w' ->
  jn_run_observations (hd_journal (wd_disk w)) !! run = Some snapshot -> confirmed_launch snapshot = true ->
  sn_id denial = run -> denies_launch denial = true -> io_read io = true ->
  (exists later, jn_run_observations (hd_journal (wd_disk w')) !! run = Some later /\ confirmed_launch later = true)
  /\ observe_run io denial (wd_disk w') = (Err (ContradictoryRunObservation run), wd_disk w').
Proof.
  intros Hr Hs Hrun Hc Hid Hd Hio. destruct (host_history_ok _ _ _ Hr (create_ok first)) as [Hok _]. destruct (host_history_ok _ _ _ Hs Hok) as [_ Ho].
  destruct (ol_confirmed _ _ Ho _ _ Hrun Hc) as (later & Hl & Hcl). split; [eauto|].
  unfold observe_run, reading. by rewrite Hid, Hl, Hcl, Hd, Hio.
Qed.

(** ** One history *)

Definition example_intent : HostRunIntent :=
  {| hr_scope := 1; hr_run := 5;
     hr_spec := {| rs_program := "/usr/bin/true"; rs_args := []; rs_cwd := "/"; rs_env := ∅; rs_descendants := WaitForAll; rs_output := DiscardOutput;
                   rs_lifetime := Independent |};
     hr_host_disconnect := KeepRunning |}.
Definition example_fact (launch : LaunchFact) (direct : DirectProcessState) : RunSnapshot :=
  {| sn_id := 5; sn_launch := launch; sn_direct := direct; sn_cleanup := CleanupPending |}.
(** The first host dies while it starts a guardian: the launch is recorded, the guardian is not known to run. *)
Definition all_bound : BindIo := {| bi_refused := true; bi_remove := true; bi_bind := true; bi_umask := false; bi_chmod := true; bi_sync := true |}.
Definition example_ops : list (HostIo * HostOp) :=
  [(all_well, OpBind all_bound all_bound); (all_well, OpScope 1 7); (all_well, OpRun example_intent);
   ({| io_layout := true; io_read := true; io_commit := true; io_sync := true; io_encode := true; io_mkdir := true; io_spawn := false |}, OpLaunch 1 (Some false));
   (all_well, OpLaunch 1 (Some false)); (all_well, OpObserveRun (example_fact (LaunchUnknown "?") DirectRunning)); (all_well, OpClose 1)].
Definition run_ops (binding : HostBinding) (ops : list (HostIo * HostOp)) (d : HostDisk) : HostDisk :=
  fold_left (fun d op => host_op op.1 binding op.2 d) ops d.
Lemma run_ops_steps b ops d : rtc world_step {| wd_host := Some b; wd_disk := d |} {| wd_host := Some b; wd_disk := run_ops b ops d |}.
Proof. revert d. induction ops as [|[io op] ops IH]; intros d; [done|]. eapply rtc_l; [by apply (world_op _ b io op d)|apply IH]. Qed.
Definition first_host : HostBinding := first_binding 10.
Definition after_crash : HostDisk := run_ops first_host example_ops (new_disk 10).
Definition second_host : HostBinding := {| hb_epoch := 2; hb_instance := 20 |}.
Definition second_disk : HostDisk := (recover all_well 20 after_crash).2.
Definition later_ops : list (HostIo * HostOp) :=
  [(all_well, OpRun {| hr_scope := 1; hr_run := 6; hr_spec := hr_spec example_intent; hr_host_disconnect := KeepRunning |});
   (all_well, OpLaunch 1 (Some false)); (all_well, OpObserveRun (example_fact (LaunchUnknown "gone") DirectUnknown))].
Definition crashed_world : World := {| wd_host := None; wd_disk := after_crash |}.
Definition second_world : World := {| wd_host := Some second_host; wd_disk := run_ops second_host later_ops second_disk |}.
Lemma after_crash_reached : rtc world_step (new_world 10) crashed_world.
Proof. eapply rtc_r; [apply (run_ops_steps first_host example_ops)|apply world_crash]. Qed.
Lemma recovered_ok : (recover all_well 20 after_crash).1 = Ok second_host.
Proof. vm_compute. reflexivity. Qed.
Lemma second_reached : rtc world_step crashed_world second_world.
Proof.
  eapply rtc_l; [|apply run_ops_steps]. apply (world_recover _ all_well 20 after_crash (Ok second_host) second_disk).
  rewrite (surjective_pairing (recover all_well 20 after_crash)), recovered_ok. unfold second_disk. reflexivity.
Qed.
Example second_history : hd_started (wd_disk second_world) = [] /\ hb_epoch (jn_binding (hd_journal (wd_disk second_world))) = 2%N
  /\ jn_run_observations (hd_journal (wd_disk second_world)) !! 5%N = Some (example_fact LaunchStarted DirectUnknown).
Proof. vm_compute. auto. Qed.
Lemma closed_after_crash : 1%N ∈ jn_closes (hd_journal (wd_disk crashed_world)).
Proof. apply (bool_decide_unpack (1%N ∈ jn_closes (hd_journal (wd_disk crashed_world)))). vm_compute. done. Qed.
Lemma none_started : 1%N ∉ hd_started (wd_disk crashed_world).
Proof. assert (hd_started (wd_disk crashed_world) = []) as -> by (vm_compute; reflexivity). apply not_elem_of_nil. Qed.
Lemma confirmed_after_crash :
  jn_run_observations (hd_journal (wd_disk crashed_world)) !! 5%N = Some (example_fact (LaunchUnknown "?") DirectRunning).
Proof. vm_compute. reflexivity. Qed.
Definition example_denial : RunSnapshot := example_fact (LaunchNotStarted "cancelled") DirectNotStarted.
Definition all_made : CreateIo :=
  {| co_parent := true; co_mkdir := true; co_open := true; co_scopes := true; co_sync := true; co_lock_file := true; co_lock := true;
     co_database := true; co_initialize := true; co_last_sync := true |}.
Lemma after_crash_private : forall name mode, hd_sockets after_crash !! name = Some mode -> mode = true.
Proof.
  assert (Hs : hd_sockets after_crash = {["host.sock" := true; "host-io.sock" := true]}) by (vm_compute; reflexivity). rewrite Hs.
  intros name mode H. apply lookup_insert_Some in H as [[_ <-]|[_ H]]; [done|]. by apply lookup_singleton_Some in H as [_ <-].
Qed.
Lemma journal_always_recovers_witness : (recover all_well 20 after_crash).1 = Ok second_host.
Proof.
  pose proof (proj1 (proj1 (proj2 (journal_always_recovers 10 20 after_crash all_made)) after_crash_reached ltac:(vm_compute; reflexivity)) after_crash_private) as H.
  cbv zeta in H. assert (He : hb_epoch (jn_binding (hd_journal after_crash)) = 1%N) by (vm_compute; reflexivity).
  rewrite H, He. reflexivity.
Defined.
Lemma closed_scope_sealed_witness : 1%N ∉ hd_started (wd_disk second_world) /\ 1%N ∈ jn_closes (hd_journal (wd_disk second_world)).
Proof.
  destruct (closed_scope_sealed 10 _ _ after_crash_reached second_reached) as (_ & _ & _ & _ & Hc & _ & _ & _ & _ & Hs). split; [|by apply Hc, closed_after_crash].
  intros H. apply (Hs 1%N closed_after_crash) in H. by apply none_started in H.
Defined.
Lemma confirmed_launch_stays_witness :
  observe_run all_well example_denial (wd_disk second_world) = (Err (ContradictoryRunObservation 5), wd_disk second_world).
Proof.
  exact (proj2 (confirmed_launch_stays 10 crashed_world second_world 5 _ all_well example_denial after_crash_reached second_reached
    confirmed_after_crash eq_refl eq_refl eq_refl eq_refl)).
Defined.

(** ** Where a takeover is refused *)

(** A host that is killed between binding its first endpoint and setting the mode of the socket: its journal is whole, and no
    later host accepts the directory. *)
Definition cut_bind : BindIo := {| bi_refused := true; bi_remove := true; bi_bind := true; bi_umask := false; bi_chmod := false; bi_sync := true |}.
Theorem cut_bind_blocks_recovery :
  exists d, rtc world_step (new_world 10) {| wd_host := None; wd_disk := d |} /\ hd_journal d = hd_journal (new_disk 10)
  /\ forall io instance, exists e, recover io instance d = (Err e, d).
Proof.
  exists (host_op all_well first_host (OpBind cut_bind all_bound) (new_disk 10)). split_and!; [|done|].
  - eapply rtc_l; [by apply (world_op _ first_host all_well (OpBind cut_bind all_bound))|]. apply rtc_once, world_crash.
  - intros io instance. set (d := host_op _ _ _ _). unfold recover. destruct (validate_entries io d) as [scopes|e] eqn:E; [|by eexists].
    apply validate_entries_Ok in E as (_ & Hp & _). assert (Hs : hd_sockets d !! "host.sock" = Some false) by (vm_compute; reflexivity).
    by apply Hp in Hs.
Qed.
(** A creation that is cut short: the directory is neither taken over nor created again. *)
Theorem unfinished_directory_stuck c io instance scopes lock database :
  let p := Unfinished scopes lock database in
  (exists e, create c instance p = (Err e, p)) /\ exists e, recover_path io instance p = (Err e, p).
Proof.
  split.
  - unfold create. destruct (negb (co_parent c)); by eexists.
  - cbn [recover_path]. destruct (_ || _); by eexists.
Qed.
Example cut_creation : (create {| co_parent := true; co_mkdir := true; co_open := true; co_scopes := true; co_sync := true; co_lock_file := true; co_lock := true;
  co_database := true; co_initialize := false; co_last_sync := true |} 10 Missing).2 = Unfinished true true true.
Proof. reflexivity. Qed.
